(* ===== verification/_CoqProject ===== *)
-Q . S2P
Prelude.v
Mem.v
Heap.v
HeapFree.v
HeapChain.v
HeapLayout.v
HeapSplit.v
HeapSpec.v
HeapAlloc.v
HeapKfree.v
HeapKrealloc.v
HeapProps.v
HeapClient.v
Pmm.v
Frame.v
FrameSpec.v
FrameProps.v
Vma.v
VmaGap.v
VmaCut.v
VmaUnmap.v
VmaQuery.v
Sha256.v
Sha256Std.v
EccField.v
Cong.v
EccMod.v
Ecc.v
EccPoint.v
EccApi.v
EccSign.v
Printf.v
PrintfSpec.v
X509.v
X509Props.v
X509Pem.v
Keyring.v
KeyringInv.v
KeyringCert.v
KeyringProps.v
Time.v
Klog.v
CString.v
PageTable.v
Paging.v
PagingProps.v
Mm.v
MmProps.v
MmMap.v
MmMapOk.v
FrameService.v
PageCache.v
PageCacheProps.v
WallClock.v
NetBytes.v
Tcp.v
TcpStream.v
TcpProps.v
TcpTime.v
Net.v
NetProps.v
NetRxq.v
NetRxqProps.v
TcpWire.v
TcpEnd.v
TcpHandshake.v
NetServer.v
NetServerProps.v
NetServerSafe.v
NetWitness.v
NetServerWitness.v
Dns.v
DnsProps.v
Dhcp.v
DhcpProps.v
DhcpWire.v
