(* ===== verification/Prelude.v ===== *)
(** * A verification of parts of the AxonOS kernel

    AxonOS is a monolithic x86-64 kernel in C.  This library models the parts of it
    that are data structures and algorithms rather than device protocols, function by
    function, and proves what they promise.  Machine integers are [Z] with the wrap of
    their width written out ([u8], [u32], [u64], [s32]); kernel memory is a finite map
    from addresses to bytes ([Mem]); a loop without a structural measure has fuel, and
    the theorems about it say that enough fuel gives a result; a lock makes what runs
    under it one step.

    ** The program's parts and the files that model them

    Memory.  [kmalloc] and its relatives manage one arena of header-tagged blocks;
    the page allocator threads free pages onto a list inside the pages themselves; the
    frame table counts references to pages taken from either; the tables of memory
    areas describe what a task has mapped.
    - [Mem]: bytes, loads, stores; [memcpy], [memmove], [memset], [memcmp]
      ([libc/string.c]).
    - [Heap] ([mem/heap.c]): the allocator as state passing over the byte memory.
      [HeapFree], [HeapChain], [HeapLayout], [HeapSplit], [HeapSpec]: the free list, the
      block chain, the layout invariant, splitting and coalescing, the abstract allocator
      (a map from addresses to sizes).  [HeapAlloc], [HeapKfree], [HeapKrealloc],
      [HeapProps]: each operation refines it.
    - [Pmm] ([mem/pmm.c]): the page pool.
    - [Frame] ([mm/frame.c]): slots, hash chains and free chain; [FrameSpec],
      [FrameProps]: they implement a map from pages to reference counts.
    - [Vma] ([mm/user_vma.c], with the thread lookups of [cpu/thread/thread.c] and the
      file reference count of [fs/fs.c]); [VmaGap], [VmaCut], [VmaUnmap], [VmaQuery]: gap
      search, unmapping, coverage.

    Cryptography and keys.  The keyring stores keys and generates a self-signed
    certificate when one is read: it draws random bytes, makes a P-256 key, writes the
    certificate in DER and signs its digest.
    - [Sha256] ([crypto/sha256.c]): the streaming hash and HMAC against the standards.
    - [EccField] (limbs and Montgomery multiplication), [Cong] (congruences, a primality
      certificate), [EccMod] (arithmetic modulo the two primes), [Ecc] (the rest of
      [crypto/ecc.c], and [crypto/rand.c] in Module [Rand]), [EccPoint] (Jacobian
      coordinates against the chord-and-tangent law), [EccApi], [EccSign] (byte
      interfaces, ECDSA).  The class [RandSource] is what key generation asks of a random
      source, with [crypto_rand_bytes] as its instance.
    - [X509]: Modules [Asn1] ([crypto/asn1.c]) and [X509] ([crypto/x509.c]);
      [X509Props], [X509Pem]: DER trees and their parser, PEM.
    - [Keyring] ([core/keyring.c]) over a store of heap blocks; [KeyringInv] (ownership
      of the blocks), [KeyringProps] (histories of calls).

    Page tables and address spaces.  The boot tables map the kernel in 2 MiB pages; an
    address space owns copies of the tables it changes and shares the others with the
    kernel or its parent; the page cache keeps file pages in frames that it shares with
    the tasks that map them.
    - [PageTable]: table words and the translation the processor makes of them.
    - [Paging] ([mem/paging.c]), [PagingProps]: 2 MiB mappings and the splits they need.
    - [Mm] ([core/mm.c]: page-table pages, ownership, [mm_map_user_page], the software
      walks); [MmProps], [MmMap], [MmMapOk]: walks, isolation, mapping.
    - [FrameService]: what the page cache asks of frames, with the frame table as its
      instance; [PageCache] ([mm/pagecache.c]), [PageCacheProps].

    Network.  The driver's frames are queued, handed to the TCP connection, datagram
    socket or ARP cache they are for, or to the demultiplexer that opens connections; what
    is sent goes through address resolution to one Ethernet frame.
    - [NetBytes]: byte order and the Internet checksum.
    - [Tcp] ([net/tcp.c], [inc/net_tcp.h]): the whole protocol machine over a [world] that
      holds the answers of its callbacks.  [TcpStream], [TcpProps]: the receiver and
      reassembly; [TcpTime]: its waits end; [TcpWire], [TcpEnd]: segments on the wire, two endpoints;
      [TcpHandshake]: opening a connection.
    - [Net] ([syscall/dispatch/syscall_dispatch.c]: interface state, frames out, tests on
      frames in, ARP, ping, ephemeral ports), [NetProps]; [NetRxq], [NetRxqProps]: the
      queue of received frames.
    - [NetServer] (same source: socket registry, half-open connections, accept queues,
      [net_tcp_dispatch_incoming]); [NetServerProps]: accepting a client;
      [NetServerSafe]: sockets are not used after they are freed, and when they are.
      [NetWitness] and [NetServerWitness] run two hosts.
    - [Dns] ([net/dns.c]), [DnsProps]; [Dhcp] ([net/dhcp.c]), [DhcpProps].

    Services.
    - [Printf] ([__vsnprintf] of [drv/video/vga.c]).
    - [Time]: Modules [Pit] ([cpu/timer/pit.c]) and [Clock] (the clock of
      [core/klog.c]).
    - [Klog]: the log ring of [core/klog.c].
    - [CString]: the string routines of [libc/string.c].
    - [WallClock]: the battery clock ([cpu/etc/rtc.c]) and the wall clock
      ([cpu/timer/timekeeping.c]).

    ** What the theorems show

    - Heap: a client that frees, resizes and writes only what it was given is served as
      by the abstract allocator; the exact result of [kmalloc], [kfree], [krealloc] and
      [kcalloc] on every branch; exact accounting; the requests whose size wraps.
    - Pages and frames: the pool is a set, the frame table a map of counts; what a double
      free does.
    - Areas: unmapping removes exactly the range or, without room for the pieces, nothing;
      the gap searches return the lowest and the highest fitting gap; adding and coverage
      agree; splitting a file area by task id moves the file to the wrong half.
    - Cryptography: SHA-256 and HMAC are the standard's functions; scalar multiplication,
      verification, signing and key generation are those of the affine group law, with
      the cases in which signing recurses for ever.
    - Certificates and keys: the output of [x509_generate] parses back to what was asked
      for; PEM decodes; the key table never leaks, doubly frees or loses a block, whatever
      other CPUs do while the lock is dropped; stored keys read back; the cached system
      certificate dangles after a revocation; [KEYCTL_DESCRIBE] returns nothing.
    - Page tables: mapping a 2 MiB page changes the translation of that page alone, in
      both trees; mapping a user page gives it the frame and permissions asked for, keeps
      every other translation, releases the old frame once, and writes to no table the
      address space does not own; the software walk is the processor's.  What goes wrong
      with NX and 1 GiB leaves.
    - Page cache: every cached frame holds one reference in every history; a page that is
      in use is found again, until a new generation leaves it in the wrong bucket.
    - TCP: what one endpoint receives is a prefix of what the other sent, whatever is
      lost, repeated and reordered, and the end of the stream is reported only after all
      of it; segments that fit are reassembled; a client that connects to a listener is
      accepted and both ends are ready for data; the server uses no socket after it was
      freed, but for a listener that is closed while a connection to it is being opened.
    - Other protocols: datagrams, pings and address resolution arrive as they were sent;
      the interface is ready exactly when it is up and has an address; the queue of frames
      is a bounded list; names resolve and leases are acquired against servers that follow
      the standards; parsers stay within their messages.
    - Services: formatting fills a buffer with a prefix of the text; the log ring is the
      tail of everything written, and copying it to a file ends although others write;
      the calibrated clock is monotone until it is re-anchored, which turns it back; the
      wall clock starts at the date of the battery clock; numbers survive [itoa] and
      [atoi].

    ** Bounds and fuel

    The heap loops have one unit of fuel per header that fits into the arena, the page
    pool one per page, and the frame and area loops one per table entry; [sync_loop] one
    per byte of the ring (256 KiB), since a read that finds data advances by a byte at
    least; calibration one per spin of its 20 million; formatting one per character of the
    format; [itoa] twelve for 32 bits.  The fuel of [ecdsa_sign] counts its recursive
    calls, of which one is made unless the nonce is degenerate.  [x509_generate] is shown
    for buffers of 520 bytes and more (its caller has 2048), which every certificate fits.
    Page-table walks have one step per level, and bucket walks of the page cache one per
    entry.  The waits of TCP have one unit per round, and enough of it is there once the
    clock shows that their time is over ([TcpTime]); the parsers of names and options have
    one unit per byte.  DHCP attempts take the answers of the driver and the clock as lists
    and end with them.

    ** Not modelled

    Page faults, fork, [mmap], [brk] and the ELF loader: they tie address spaces to the
    current task, its registers and open files.  The scheduler, interrupts and processor
    start-up: register contents and assembly.  Device drivers, boot code and the console:
    sequences of port and memory accesses to hardware whose behaviour is not in the
    sources.  The file systems, the socket system calls and the rest of the system call
    layer: data structures of their own, outside the present scope; where a modelled
    function calls one of them, its answers or the calls made are arguments or results of
    the definition.  [miniz] is third-party code.  Concurrency is interleaving of locked
    steps; the memory model of the processor is not described. *)
From stdpp Require Export base gmap list fin_maps.
From Stdlib Require Export ZArith Lia.

#[global] Open Scope Z_scope.
#[global] Coercion Z.of_nat : nat >-> Z.

(** * Machine integers

    Every C integer is a [Z] together with an explicit wrap to its width. *)

Definition u8 (x : Z) : Z := x `mod` 2 ^ 8.
Definition u16 (x : Z) : Z := x `mod` 2 ^ 16.
Definition u32 (x : Z) : Z := x `mod` 2 ^ 32.
Definition u64 (x : Z) : Z := x `mod` 2 ^ 64.

(** Two's-complement reading of a 32-bit word (C [int]). *)
Definition s32 (x : Z) : Z := (x + 2 ^ 31) `mod` 2 ^ 32 - 2 ^ 31.

Abbreviation is_u8 x := (0 ≤ x < 2 ^ 8).
Abbreviation is_u16 x := (0 ≤ x < 2 ^ 16).
Abbreviation is_u32 x := (0 ≤ x < 2 ^ 32).
Abbreviation is_u64 x := (0 ≤ x < 2 ^ 64).

Declare Scope axon_scope.
Delimit Scope axon_scope with axon.
Notation "x +u y" := (u64 (x + y)) (at level 50, left associativity) : axon_scope.
Notation "x -u y" := (u64 (x - y)) (at level 50, left associativity) : axon_scope.
Notation "x *u y" := (u64 (x * y)) (at level 40, left associativity) : axon_scope.
Notation "x &u y" := (Z.land x y) (at level 45, left associativity) : axon_scope.
Notation "~u x" := (u64 (Z.lnot x)) (at level 35, right associativity) : axon_scope.
#[global] Open Scope axon_scope.

(** [0] is the null pointer; [nz p] is C's truth value of a pointer or int. *)
Definition nz (x : Z) : bool := negb (x =? 0).

Create HintDb axon.
Create Rewrite HintDb axon.

Lemma u8_range x : is_u8 (u8 x).
Proof. apply Z.mod_pos_bound. lia. Qed.
Lemma u16_range x : is_u16 (u16 x).
Proof. apply Z.mod_pos_bound. lia. Qed.
Lemma u32_range x : is_u32 (u32 x).
Proof. apply Z.mod_pos_bound. lia. Qed.
Lemma u64_range x : is_u64 (u64 x).
Proof. apply Z.mod_pos_bound. lia. Qed.
Lemma u8_small x : is_u8 x → u8 x = x.
Proof. apply Z.mod_small. Qed.
Lemma u16_small x : is_u16 x → u16 x = x.
Proof. apply Z.mod_small. Qed.
Lemma u32_small x : is_u32 x → u32 x = x.
Proof. apply Z.mod_small. Qed.
Lemma u64_small x : is_u64 x → u64 x = x.
Proof. apply Z.mod_small. Qed.
Lemma u64_idemp x : u64 (u64 x) = u64 x.
Proof. apply u64_small, u64_range. Qed.
Lemma s32_range x : - 2 ^ 31 ≤ s32 x < 2 ^ 31.
Proof. unfold s32. pose proof (Z.mod_pos_bound (x + 2 ^ 31) (2 ^ 32)). lia. Qed.
Lemma s32_small x : - 2 ^ 31 ≤ x < 2 ^ 31 → s32 x = x.
Proof. intros. unfold s32. rewrite Z.mod_small; lia. Qed.

(** Or-ing bits into the zeros left by a shift. *)
Lemma lor_low a x k : 0 ≤ k → 0 ≤ x < 2 ^ k → Z.lor (Z.shiftl a k) x = a * 2 ^ k + x.
Proof.
  intros Hk Hx. rewrite Z.shiftl_mul_pow2 by done.
  assert (Z.land (a * 2 ^ k) x = 0) as E.
  { apply Z.bits_inj'. intros n Hn. rewrite Z.land_spec, Z.bits_0.
    destruct (Z.lt_ge_cases n k); [by rewrite Z.mul_pow2_bits_low|].
    rewrite <- (Z.mod_small x (2 ^ k)), Z.mod_pow2_bits_high by lia. apply andb_false_r. }
  by rewrite <- Z.lxor_lor, <- Z.add_nocarry_lxor.
Qed.

#[export] Hint Resolve u8_range u16_range u32_range u64_range : axon.
#[export] Hint Rewrite u64_idemp : axon.

Lemma nz_true x : nz x = true ↔ x ≠ 0.
Proof. unfold nz. destruct (Z.eqb_spec x 0); naive_solver. Qed.
Lemma nz_false x : nz x = false ↔ x = 0.
Proof. unfold nz. destruct (Z.eqb_spec x 0); naive_solver. Qed.
Lemma nz_spec x : BoolSpec (x ≠ 0) (x = 0) (nz x).
Proof. unfold nz. destruct (Z.eqb_spec x 0); constructor; done. Qed.

(** Remove the wraps that the context shows to be no-ops. *)
Ltac unwrap :=
  repeat match goal with
  | |- context [u64 ?x] => rewrite (u64_small x) by lia
  | H : context [u64 ?x] |- _ => rewrite (u64_small x) in H by lia
  | |- context [u32 ?x] => rewrite (u32_small x) by lia
  | H : context [u32 ?x] |- _ => rewrite (u32_small x) in H by lia
  end.

(** Case analysis on the boolean tests the code branches on. *)
Ltac zcase :=
  match goal with
  | |- context [?a =? ?b] => destruct (Z.eqb_spec a b)
  | |- context [?a <=? ?b] => destruct (Z.leb_spec a b)
  | |- context [?a <? ?b] => destruct (Z.ltb_spec a b)
  | |- context [nz ?a] => destruct (nz_spec a)
  end.

Ltac zcase_in H :=
  match type of H with
  | context [?a =? ?b] => destruct (Z.eqb_spec a b)
  | context [?a <=? ?b] => destruct (Z.leb_spec a b)
  | context [?a <? ?b] => destruct (Z.ltb_spec a b)
  | context [nz ?a] => destruct (nz_spec a)
  end.

(** Membership in lists built by [++] and [::]. *)
Ltac mem :=
  repeat match goal with
  | H : context [_ ∈ _ ++ _] |- _ => rewrite elem_of_app in H
  | H : context [_ ∈ _ :: _] |- _ => rewrite elem_of_cons in H
  | H : context [_ ∈ []] |- _ => rewrite elem_of_nil in H
  end;
  repeat first [rewrite elem_of_app | rewrite elem_of_cons];
  repeat match goal with H : ?P |- _ =>
    lazymatch P with
    | context [_ ∈ _] => fail
    | _ = _ => fail
    | _ ≠ _ => fail
    | _ => clear H
    end end;
  tauto.

Lemma lookup_rev {A} (l : list A) i x : rev l !! i = Some x → l !! (length l - 1 - i)%nat = Some x.
Proof.
  intros H. pose proof (lookup_lt_Some _ _ _ H) as Hi. rewrite length_rev in Hi.
  rewrite rev_alt in H. fold (reverse l) in H. rewrite reverse_lookup in H by done. rewrite <- H. f_equal. lia.
Qed.

(** * Record updates

    [x <| f := v |>] is [x] with its field [f] set to [v]; a record type gets it from an
    instance of [Eta] that lists its projections. *)

Class Eta (R : Type) := eta : R → R.
Class Update {R E : Type} (p : R → E) := update : (E → E) → R → R.
#[global] Arguments update {R E} p {_} _ _ /.

Ltac updater :=
  lazymatch goal with
  | |- @Update ?R ?E ?p =>
      let i := constr:(_ : Eta R) in
      let i := eval hnf in i in
      let s := eval pattern p in i in
      lazymatch s with
      | ?g _ => let t := eval cbv beta in (fun (f : E -> E) (r : R) => g (fun r => f (p r)) r) in exact t
      end
  end.
#[export] Hint Extern 1 (Update _) => updater : typeclass_instances.
Notation "x <| p := v |>" := (update p (λ _, v) x) (at level 1, left associativity, p at level 9) : axon_scope.

(** * Alignment masks *)

Lemma land_mask x k :
  0 ≤ k ≤ 64 → is_u64 x → x &u ~u (2 ^ k - 1) = x - x `mod` 2 ^ k.
Proof.
  intros Hk Hx.
  assert (~u (2 ^ k - 1) = Z.ldiff (Z.ones 64) (Z.ones k)) as ->.
  { replace (2 ^ k - 1) with (Z.ones k) by (rewrite Z.ones_equiv; lia). unfold u64. rewrite <- Z.land_ones by lia.
    rewrite Z.land_comm. by rewrite <- Z.ldiff_land. }
  assert (x = Z.land x (Z.ones 64)) as Hx'.
  { rewrite Z.land_ones by lia. by rewrite Z.mod_small. }
  transitivity (Z.ldiff (Z.land x (Z.ones 64)) (Z.ones k)).
  { rewrite !Z.ldiff_land. by rewrite Z.land_assoc. }
  rewrite <- Hx', Z.ldiff_ones_r by lia.
  rewrite Z.shiftl_mul_pow2, Z.shiftr_div_pow2 by lia.
  pose proof (Z.div_mod x (2 ^ k)). lia.
Qed.

(** [(x + (a - 1)) & ~(a - 1)] and [x & ~(a - 1)] for [a = 2 ^ k]. *)
Definition align_up (x a : Z) : Z := (x +u (a -u 1)) &u ~u (a -u 1).
Definition align_down (x a : Z) : Z := x &u ~u (a -u 1).

Lemma align_down_spec x k :
  0 ≤ k < 64 → is_u64 x → align_down x (2 ^ k) = x - x `mod` 2 ^ k.
Proof.
  intros Hk Hx. unfold align_down.
  assert (1 ≤ 2 ^ k < 2 ^ 64).
  { split; [apply (Z.pow_le_mono_r 2 0 k)|apply Z.pow_lt_mono_r]; lia. }
  rewrite (u64_small (2 ^ k - 1)) by lia. apply land_mask; lia.
Qed.

Lemma align_up_spec x k :
  0 ≤ k < 64 → 0 ≤ x → x + 2 ^ k ≤ 2 ^ 64 →
  x ≤ align_up x (2 ^ k) < x + 2 ^ k ∧ align_up x (2 ^ k) `mod` 2 ^ k = 0.
Proof.
  intros Hk Hx Hb. unfold align_up.
  assert (0 < 2 ^ k) by (apply Z.pow_pos_nonneg; lia).
  rewrite (u64_small (2 ^ k - 1)) by lia.
  rewrite (u64_small (x + _)) by lia.
  rewrite land_mask by lia.
  set (y := x + (2 ^ k - 1)).
  pose proof (Z.mod_pos_bound y (2 ^ k) ltac:(lia)).
  split; [lia|].
  replace (y - y `mod` 2 ^ k) with (y `div` 2 ^ k * 2 ^ k)
    by (pose proof (Z.div_mod y (2 ^ k)); lia).
  by apply Z.mod_mul; lia.
Qed.

(** * Linked segments

    [seg nxt prv p l q]: following [nxt] from the head of [l] visits the nodes
    [l] in order and ends at [q]; [prv] goes back, the first node to [p].  The
    heap's address-ordered chain and its explicit free list are both of this
    form.  [hd_or] and [last_or] name the neighbours of a segment. *)

Definition hd_or (q : Z) (l : list Z) : Z := match l with [] => q | b :: _ => b end.
Fixpoint last_or (p : Z) (l : list Z) : Z :=
  match l with [] => p | b :: l' => last_or b l' end.

Fixpoint seg (nxt prv : Z → Z) (p : Z) (l : list Z) (q : Z) : Prop :=
  match l with
  | [] => True
  | b :: l' => prv b = p ∧ nxt b = hd_or q l' ∧ seg nxt prv b l' q
  end.

Lemma hd_or_app q l1 l2 : hd_or q (l1 ++ l2) = hd_or (hd_or q l2) l1.
Proof. by destruct l1. Qed.
Lemma last_or_app p l1 l2 : last_or p (l1 ++ l2) = last_or (last_or p l1) l2.
Proof. revert p. induction l1; intros p; simpl; auto. Qed.
Lemma hd_or_elem q l : l ≠ [] → hd_or q l ∈ l.
Proof. destruct l; [done|]. intros _. apply list_elem_of_here. Qed.
Lemma last_or_elem p l : l ≠ [] → last_or p l ∈ l.
Proof.
  revert p. induction l as [|b l IH]; [done|]. intros p _. simpl.
  destruct l as [|c l]; [apply list_elem_of_here|].
  apply list_elem_of_further. by apply IH.
Qed.

Lemma seg_app nxt prv p l1 l2 q :
  seg nxt prv p (l1 ++ l2) q ↔
  seg nxt prv p l1 (hd_or q l2) ∧ seg nxt prv (last_or p l1) l2 q.
Proof.
  revert p. induction l1 as [|b l1 IH]; intros p; simpl; [naive_solver|].
  rewrite IH, hd_or_app. naive_solver.
Qed.

Lemma seg_ext nxt prv nxt' prv' p l q :
  (∀ b, b ∈ l → nxt' b = nxt b) → (∀ b, b ∈ l → prv' b = prv b) →
  seg nxt prv p l q → seg nxt' prv' p l q.
Proof.
  revert p. induction l as [|b l IH]; intros p Hn Hp; simpl; [done|].
  intros (H1 & H2 & H3). rewrite Hn, Hp by apply list_elem_of_here.
  split_and!; [done..|].
  apply IH; [intros; apply Hn|intros; apply Hp|done]; by apply list_elem_of_further.
Qed.

(** Change the forward pointer of the last node, or the back pointer of the
    first one, of a segment. *)
Lemma seg_retarget nxt prv nxt' prv' p l q q' :
  NoDup l →
  (∀ c, c ∈ l → c ≠ last_or p l → nxt' c = nxt c) →
  (l ≠ [] → nxt' (last_or p l) = q') →
  (∀ c, c ∈ l → prv' c = prv c) →
  seg nxt prv p l q → seg nxt' prv' p l q'.
Proof.
  revert p. induction l as [|b l IH]; intros p Hnd Hn Hl Hp; simpl; [done|].
  apply NoDup_cons in Hnd as [Hb Hnd]. intros (H1 & H2 & H3). split_and!.
  - rewrite Hp by set_solver. done.
  - destruct l as [|c l]; simpl in *; [by apply Hl|].
    rewrite Hn; [done|set_solver|]. intros ->. apply Hb.
    by apply (last_or_elem (last_or c l) (c :: l)).
  - apply IH; [done| | |set_solver|done].
    + intros c Hc Hne. apply Hn; set_solver.
    + intros _. by apply Hl.
Qed.

Lemma seg_reroot nxt prv nxt' prv' p p' l q :
  NoDup l →
  (∀ c, c ∈ l → nxt' c = nxt c) →
  (∀ c, c ∈ l → c ≠ hd_or q l → prv' c = prv c) →
  (l ≠ [] → prv' (hd_or q l) = p') →
  seg nxt prv p l q → seg nxt' prv' p' l q.
Proof.
  destruct l as [|b l]; simpl; [done|].
  intros [Hb Hnd]%NoDup_cons Hn Hp Hh (H1 & H2 & H3). split_and!.
  - by apply Hh.
  - rewrite Hn by set_solver. done.
  - eapply seg_ext; [| |exact H3]; intros c Hc; [apply Hn|apply Hp]; set_solver.
Qed.

(** Unlink the node [b], and link it in, between [l1] and [l2]. *)
Lemma seg_delete nxt prv nxt' prv' p l1 b l2 q :
  NoDup (l1 ++ b :: l2) →
  (∀ c, c ∈ l1 → c ≠ last_or p l1 → nxt' c = nxt c) →
  (l1 ≠ [] → nxt' (last_or p l1) = hd_or q l2) →
  (∀ c, c ∈ l1 → prv' c = prv c) →
  (∀ c, c ∈ l2 → nxt' c = nxt c) →
  (∀ c, c ∈ l2 → c ≠ hd_or q l2 → prv' c = prv c) →
  (l2 ≠ [] → prv' (hd_or q l2) = last_or p l1) →
  seg nxt prv p (l1 ++ b :: l2) q → seg nxt' prv' p (l1 ++ l2) q.
Proof.
  intros (Hnd1 & _ & [_ Hnd2]%NoDup_cons)%NoDup_app ??????.
  rewrite !seg_app. simpl. intros (Hs1 & _ & _ & Hs2).
  split; [by eapply seg_retarget|by eapply seg_reroot].
Qed.

Lemma seg_insert nxt prv nxt' prv' p l1 b l2 q :
  NoDup (l1 ++ l2) →
  nxt' b = hd_or q l2 → prv' b = last_or p l1 →
  (∀ c, c ∈ l1 → c ≠ last_or p l1 → nxt' c = nxt c) →
  (l1 ≠ [] → nxt' (last_or p l1) = b) →
  (∀ c, c ∈ l1 → prv' c = prv c) →
  (∀ c, c ∈ l2 → nxt' c = nxt c) →
  (∀ c, c ∈ l2 → c ≠ hd_or q l2 → prv' c = prv c) →
  (l2 ≠ [] → prv' (hd_or q l2) = b) →
  seg nxt prv p (l1 ++ l2) q → seg nxt' prv' p (l1 ++ b :: l2) q.
Proof.
  intros (Hnd1 & _ & Hnd2)%NoDup_app ????????.
  rewrite !seg_app. simpl. intros (Hs1 & Hs2).
  split_and!; [by eapply seg_retarget|done|done|by eapply seg_reroot].
Qed.

Lemma seg_member nxt prv p l q b :
  b ∈ l → seg nxt prv p l q →
  ∃ l1 l2, l = l1 ++ b :: l2 ∧ prv b = last_or p l1 ∧ nxt b = hd_or q l2.
Proof.
  intros (l1 & l2 & ->)%list_elem_of_split. rewrite seg_app. simpl.
  intros (_ & ? & ? & _). by exists l1, l2.
Qed.

(** A sum over a list, used for byte accounting. *)
Definition sumZ (l : list Z) : Z := foldr Z.add 0 l.
Lemma sumZ_cons x l : sumZ (x :: l) = x + sumZ l.
Proof. done. Qed.
Lemma sumZ_app l1 l2 : sumZ (l1 ++ l2) = sumZ l1 + sumZ l2.
Proof. unfold sumZ. induction l1; simpl; lia. Qed.
Lemma sumZ_nonneg l : (∀ x, x ∈ l → 0 ≤ x) → 0 ≤ sumZ l.
Proof.
  unfold sumZ. induction l as [|x l IH]; simpl; [lia|]. intros H.
  pose proof (H x (list_elem_of_here _ _)). assert (0 ≤ foldr Z.add 0 l).
  { apply IH. intros y Hy. apply H. by apply list_elem_of_further. } lia.
Qed.
#[export] Instance sumZ_proper : Proper (Permutation ==> eq) sumZ.
Proof. intros l1 l2. unfold sumZ. induction 1; simpl; lia. Qed.

(** [adj P l]: every two neighbours of [l] are related by [P]. *)
Fixpoint adj (P : Z → Z → Prop) (l : list Z) : Prop :=
  match l with
  | b :: ((c :: _) as l') => P b c ∧ adj P l'
  | _ => True
  end.

Lemma adj_app P l1 b l2 : adj P (l1 ++ b :: l2) ↔ adj P (l1 ++ [b]) ∧ adj P (b :: l2).
Proof.
  induction l1 as [|a l1 IH]; simpl; [tauto|].
  destruct l1 as [|c l1]; simpl in *; [tauto|]. rewrite IH. tauto.
Qed.

Lemma adj_tail P b l : adj P (b :: l) → adj P l.
Proof. destruct l; simpl; tauto. Qed.

Lemma adj_impl (P Q : Z → Z → Prop) l :
  (∀ b c, b ∈ l → c ∈ l → P b c → Q b c) → adj P l → adj Q l.
Proof.
  induction l as [|b l IH]; [done|]. intros H. destruct l as [|c l]; [done|].
  intros [H1 H2]. split; [apply H; [mem|mem|done]|].
  apply IH; [|done]. intros x y Hx Hy. apply H; mem.
Qed.

(** * Singly linked lists

    [slist nxt a l e]: following [nxt] from [a] visits exactly [l] and stops at
    the end marker [e]. *)
Fixpoint slist (nxt : Z → Z) (a : Z) (l : list Z) (e : Z) : Prop :=
  match l with [] => a = e | b :: l' => a = b ∧ slist nxt (nxt b) l' e end.

Lemma slist_ext nxt nxt' a l e :
  (∀ b, b ∈ l → nxt' b = nxt b) → slist nxt a l e → slist nxt' a l e.
Proof.
  revert a. induction l as [|b l IH]; intros a H; simpl; [done|].
  intros [-> Hl]. split; [done|]. rewrite H by mem. apply IH; [|done]. intros c Hc. apply H. mem.
Qed.

Lemma slist_app nxt a l1 l2 e :
  slist nxt a (l1 ++ l2) e ↔ ∃ c, slist nxt a l1 c ∧ slist nxt c l2 e.
Proof.
  revert a. induction l1 as [|b l1 IH]; intros a; simpl; [naive_solver|].
  rewrite IH. naive_solver.
Qed.

Lemma slist_head nxt a l e : slist nxt a l e → a = hd_or e l.
Proof. by destruct l; simpl; [|intros []]. Qed.

(** Unlinking [b]: its predecessor (or the head) now points past it. *)
Lemma slist_unlink nxt nxt' a l1 b l2 e :
  NoDup (l1 ++ b :: l2) → slist nxt a (l1 ++ b :: l2) e →
  (∀ c, c ∈ l2 → nxt' c = nxt c) →
  (∀ c, c ∈ l1 → nxt' c = if decide (last l1 = Some c) then nxt b else nxt c) →
  slist nxt' (match l1 with [] => nxt b | _ => a end) (l1 ++ l2) e.
Proof.
  intros Hnd Hl H2 H1. revert a Hnd Hl H1.
  induction l1 as [|x l1 IH]; intros a Hnd Hl H1.
  { destruct Hl as [_ Hl]. by eapply slist_ext. }
  destruct Hl as [-> Hl]. split; [done|]. apply NoDup_cons in Hnd as [Hx Hnd].
  specialize (IH (nxt x) Hnd Hl). rewrite H1 by mem.
  destruct l1 as [|y l1].
  - cbn [last]. rewrite decide_True by done. apply IH. by intros c ?%not_elem_of_nil.
  - rewrite decide_False.
    + apply IH. intros c Hc. rewrite H1 by mem. by rewrite last_cons_cons.
    + rewrite last_cons_cons. intros E%last_Some_elem_of. apply Hx. mem.
Qed.
