(* ===== verification/Mem.v ===== *)
(** The byte-addressed kernel memory shared by the allocator and string
    components, little-endian loads and stores of [n] bytes with their framing
    lemmas, and the memory routines of [libc/string.c] ([memcpy], [memmove],
    [memset], [memcmp]).

    A memory is a finite map from addresses to bytes; an address that was never
    written reads as [0].  Addresses inside one object do not wrap. *)
From S2P Require Import Prelude.

Abbreviation mem := (gmap Z Z).

Definition ldb (m : mem) (a : Z) : Z := u8 (default 0 (m !! a)).
Definition stb (m : mem) (a v : Z) : mem := <[a := u8 v]> m.

Fixpoint ld (n : nat) (m : mem) (a : Z) : Z :=
  match n with
  | O => 0
  | S n => ldb m a + 2 ^ 8 * ld n m (a + 1)
  end.

Fixpoint st (n : nat) (m : mem) (a v : Z) : mem :=
  match n with
  | O => m
  | S n => st n (stb m a v) (a + 1) (v `div` 2 ^ 8)
  end.

Definition ld64 := ld 8.
Definition st64 := st 8.
Definition ld32 := ld 4.
Definition st32 := st 4.

(** Byte ranges [[a, a + n)] and [[b, b + k)] do not meet. *)
Definition disjoint_at (a n b k : Z) : Prop := a + n ≤ b ∨ b + k ≤ a.

#[global] Arguments ld64 : simpl never.
#[global] Arguments st64 : simpl never.
#[global] Arguments ld32 : simpl never.
#[global] Arguments st32 : simpl never.

(** * libc/string.c: memory routines *)

(** The [rep movsb] instruction with the direction flag clear, as used for
    copies of at least 128 bytes. *)
Fixpoint rep_movsb (rcx : nat) (m : mem) (rdi rsi : Z) : mem :=
  match rcx with
  | O => m
  | S rcx => rep_movsb rcx (stb m rdi (ldb m rsi)) (rdi + 1) (rsi + 1)
  end.

(** [for (i = 0; i < n; i++) d[i] = s[i];] with [k] iterations left. *)
Fixpoint memcpy_loop (k : nat) (i : Z) (m : mem) (d s : Z) : mem :=
  match k with
  | O => m
  | S k => memcpy_loop k (i + 1) (stb m (d + i) (ldb m (s + i))) d s
  end.

Definition memcpy (m : mem) (dest src n : Z) : mem :=
  if 128 <=? n then rep_movsb (Z.to_nat n) m dest src
  else memcpy_loop (Z.to_nat n) 0 m dest src.

(** The two backward loops of [memmove]: 8-byte words, then single bytes. *)
Fixpoint memmove_words (fuel : nat) (m : mem) (d s n : Z) : mem * Z :=
  match fuel with
  | O => (m, n)
  | S fuel =>
      if 8 <=? n then
        let n := n - 8 in
        memmove_words fuel (st64 m (d + n) (ld64 m (s + n))) d s n
      else (m, n)
  end.

Fixpoint memmove_bytes (fuel : nat) (m : mem) (d s n : Z) : mem :=
  match fuel with
  | O => m
  | S fuel =>
      if 0 <? n then
        let n := n - 1 in
        memmove_bytes fuel (stb m (d + n) (ldb m (s + n))) d s n
      else m
  end.

Definition memmove (m : mem) (dest src n : Z) : mem :=
  if dest <? src then memcpy m dest src n
  else if src <? dest then
    let '(m, n) := memmove_words (Z.to_nat n) m dest src n in
    memmove_bytes (Z.to_nat n) m dest src n
  else m.

(** The [rep stosb] instruction used for fills of at least 128 bytes. *)
Fixpoint rep_stosb (rcx : nat) (m : mem) (rdi al : Z) : mem :=
  match rcx with
  | O => m
  | S rcx => rep_stosb rcx (stb m rdi al) (rdi + 1) al
  end.

Fixpoint memset_loop (k : nat) (i : Z) (m : mem) (p value : Z) : mem :=
  match k with
  | O => m
  | S k => memset_loop k (i + 1) (stb m (p + i) (u8 value)) p value
  end.

Definition memset (m : mem) (ptr value n : Z) : mem :=
  if 128 <=? n then rep_stosb (Z.to_nat n) m ptr (u8 value)
  else memset_loop (Z.to_nat n) 0 m ptr value.

Fixpoint memcmp_loop (k : nat) (i : Z) (m : mem) (p1 p2 : Z) : Z :=
  match k with
  | O => 0
  | S k =>
      if negb (ldb m (p1 + i) =? ldb m (p2 + i)) then
        (if ldb m (p1 + i) <? ldb m (p2 + i) then -1 else 1)
      else memcmp_loop k (i + 1) m p1 p2
  end.

Definition memcmp (m : mem) (ptr1 ptr2 n : Z) : Z :=
  memcmp_loop (Z.to_nat n) 0 m ptr1 ptr2.

(** * Loads after stores *)

Lemma ldb_range m a : is_u8 (ldb m a).
Proof. apply u8_range. Qed.
#[export] Hint Resolve ldb_range : axon.

Lemma ldb_stb m a v b :
  ldb (stb m a v) b = if b =? a then u8 v else ldb m b.
Proof.
  unfold ldb, stb. destruct (Z.eqb_spec b a) as [->|].
  - rewrite lookup_insert_eq. simpl. apply u8_small, u8_range.
  - by rewrite lookup_insert_ne.
Qed.

Lemma ldb_stb_eq m a v : ldb (stb m a v) a = u8 v.
Proof. by rewrite ldb_stb, Z.eqb_refl. Qed.
Lemma ldb_stb_ne m a v b : b ≠ a → ldb (stb m a v) b = ldb m b.
Proof. intros. rewrite ldb_stb. by destruct (Z.eqb_spec b a). Qed.

Lemma ld_range (n : nat) m a : 0 ≤ ld n m a < 2 ^ (8 * n).
Proof.
  revert a. induction n as [|n IH]; intros a; [simpl; lia|].
  cbn [ld]. pose proof (ldb_range m a). specialize (IH (a + 1)).
  replace (8 * S n) with (8 + 8 * n) by lia. rewrite Z.pow_add_r by lia. lia.
Qed.

Lemma ld_ext (n : nat) m m' a :
  (∀ b, a ≤ b < a + n → ldb m' b = ldb m b) → ld n m' a = ld n m a.
Proof.
  revert a. induction n as [|n IH]; intros a H; [done|]. cbn [ld].
  rewrite H by lia. rewrite IH; [done|]. intros. apply H. lia.
Qed.

Lemma ldb_st_out (n : nat) m a v b : ¬ (a ≤ b < a + n) → ldb (st n m a v) b = ldb m b.
Proof.
  revert m a v. induction n as [|n IH]; intros m a v H; [done|]. cbn [st].
  rewrite IH by lia. apply ldb_stb_ne. lia.
Qed.

Lemma ldb_st_in (n : nat) m a v b :
  a ≤ b < a + n → ldb (st n m a v) b = u8 (v `div` 2 ^ (8 * (b - a))).
Proof.
  revert m a v. induction n as [|n IH]; intros m a v H; [lia|]. cbn [st].
  destruct (decide (b = a)) as [->|].
  - rewrite ldb_st_out by lia. rewrite ldb_stb_eq.
    by rewrite Z.sub_diag, Z.mul_0_r, Z.pow_0_r, Z.div_1_r.
  - rewrite IH by lia. f_equal. rewrite Z.div_div by lia.
    rewrite <- Z.pow_add_r by lia. do 2 f_equal. lia.
Qed.

Lemma ld_st_eq (n : nat) m a v : ld n (st n m a v) a = v `mod` 2 ^ (8 * n).
Proof.
  revert m a v. induction n as [|n IH]; intros m a v.
  { cbn [ld st]. by rewrite Z.mul_0_r, Z.pow_0_r, Z.mod_1_r. }
  cbn [ld st]. rewrite IH, ldb_st_out by lia. rewrite ldb_stb_eq.
  replace (8 * S n) with (8 + 8 * n) by lia. rewrite Z.pow_add_r by lia.
  unfold u8. by rewrite Z.rem_mul_r by lia.
Qed.

Lemma ld_st_out (n k : nat) m a v b :
  disjoint_at a k b n → ld n (st k m a v) b = ld n m b.
Proof.
  unfold disjoint_at. intros. apply ld_ext. intros. apply ldb_st_out. lia.
Qed.

Lemma ldb_of_ld (n : nat) m a i :
  0 ≤ i < n → u8 (ld n m a `div` 2 ^ (8 * i)) = ldb m (a + i).
Proof.
  revert a i. induction n as [|n IH]; intros a i Hi; [lia|]. cbn [ld].
  pose proof (ldb_range m a) as Hb. destruct (decide (i = 0)) as [->|].
  - rewrite Z.mul_0_r, Z.pow_0_r, Z.div_1_r, Z.add_0_r.
    unfold u8. rewrite (Z.mul_comm (2 ^ 8)), Z.mod_add by lia. by apply Z.mod_small.
  - replace (8 * i) with (8 + 8 * (i - 1)) by lia. rewrite Z.pow_add_r by lia.
    rewrite <- Z.div_div by lia. rewrite (Z.mul_comm (2 ^ 8) (ld _ _ _)), Z.div_add by lia.
    rewrite (Z.div_small (ldb m a)) by lia. rewrite Z.add_0_l.
    rewrite IH by lia. f_equal. lia.
Qed.

(** [copied m m' d s n]: [m'] is [m] with the [n] bytes at [s] (as they were in
    [m]) at [d], and nothing else changed. *)
Definition copied (m m' : mem) (d s n : Z) : Prop :=
  ∀ a, ldb m' a = if (d <=? a) && (a <? d + n) then ldb m (s + (a - d)) else ldb m a.

Definition filled (m m' : mem) (d v n : Z) : Prop :=
  ∀ a, ldb m' a = if (d <=? a) && (a <? d + n) then u8 v else ldb m a.

Ltac split_range :=
  repeat match goal with
  | |- context [?a <=? ?b] => destruct (Z.leb_spec a b)
  | |- context [?a <? ?b] => destruct (Z.ltb_spec a b)
  end; simpl; try lia; try done; try (f_equal; lia).

Lemma memcpy_loop_movsb k i m d s :
  memcpy_loop k i m d s = rep_movsb k m (d + i) (s + i).
Proof.
  revert i m. induction k as [|k IH]; intros i m; [done|]. cbn.
  rewrite IH. f_equal; lia.
Qed.

(** Both branches of [memcpy] are the same forward byte copy. *)
Lemma memcpy_movsb m d s n : memcpy m d s n = rep_movsb (Z.to_nat n) m d s.
Proof.
  unfold memcpy. destruct (_ <=? _); [done|]. rewrite memcpy_loop_movsb. f_equal; lia.
Qed.

Lemma rep_movsb_copied (k : nat) m d s :
  d ≤ s ∨ s + k ≤ d → copied m (rep_movsb k m d s) d s k.
Proof.
  revert m d s. induction k as [|k IH]; intros m d s H a.
  { split_range. }
  cbn [rep_movsb]. rewrite IH by lia. rewrite !ldb_stb.
  destruct (Z.eqb_spec a d) as [->|]; split_range.
  - by rewrite u8_small, Z.sub_diag, Z.add_0_r by apply ldb_range.
  - destruct (Z.eqb_spec (s + 1 + (a - (d + 1))) d); [lia|]. f_equal. lia.
Qed.

Lemma memcpy_copied m d s n :
  0 ≤ n → d ≤ s ∨ s + n ≤ d → copied m (memcpy m d s n) d s n.
Proof.
  intros Hn H. rewrite memcpy_movsb.
  assert (copied m (rep_movsb (Z.to_nat n) m d s) d s (Z.to_nat n)) as Hc
    by (apply rep_movsb_copied; lia).
  by rewrite Z2Nat.id in Hc by lia.
Qed.

Lemma memmove_words_spec fuel m d s n m' n' :
  s < d → 0 ≤ n ≤ Z.of_nat fuel → memmove_words fuel m d s n = (m', n') →
  0 ≤ n' ≤ n ∧ n' < 8 ∧
  ∀ a, ldb m' a =
       if (d + n' <=? a) && (a <? d + n) then ldb m (s + (a - d)) else ldb m a.
Proof.
  intros Hsd. revert m n. induction fuel as [|fuel IH]; intros m n Hn; cbn [memmove_words].
  { intros [= <- <-]. split_and!; [lia..|]. intros a. split_range. }
  destruct (Z.leb_spec 8 n) as [H8|H8].
  2:{ intros [= <- <-]. split_and!; [lia..|]. intros a. split_range. }
  intros (Hn1 & Hn2 & Hm)%IH; [|lia]. split_and!; [lia..|]. intros a. rewrite Hm.
  destruct (decide (d + (n - 8) ≤ a < d + n)).
  - assert (ldb (st64 m (d + (n - 8)) (ld64 m (s + (n - 8)))) a = ldb m (s + (a - d))) as Ha.
    { unfold st64, ld64. rewrite ldb_st_in, ldb_of_ld by lia. f_equal. lia. }
    rewrite Ha. split_range.
  - unfold st64. rewrite (ldb_st_out _ _ _ _ a) by lia.
    destruct (decide (d + n' ≤ a < d + n)); [rewrite ldb_st_out by lia|]; split_range.
Qed.

Lemma memmove_bytes_spec fuel m d s n :
  s < d → 0 ≤ n ≤ Z.of_nat fuel → copied m (memmove_bytes fuel m d s n) d s n.
Proof.
  intros Hsd. revert m n. induction fuel as [|fuel IH]; intros m n Hn a; cbn [memmove_bytes].
  { split_range. }
  destruct (Z.ltb_spec 0 n); [|split_range; done].
  rewrite IH by lia. rewrite !ldb_stb.
  destruct (Z.eqb_spec a (d + (n - 1))) as [->|]; split_range.
  - rewrite u8_small by apply ldb_range. f_equal. lia.
  - destruct (Z.eqb_spec (s + (a - d)) (d + (n - 1))); [lia|done].
Qed.

Lemma copied_refl m d n : copied m m d d n.
Proof. intros a. split_range. Qed.

(** [memmove] moves [n] bytes correctly for every overlap of source and
    destination: afterwards the destination range holds the bytes the source
    range held before the call, and no other byte of memory has changed.  This
    covers the forward [rep movsb] path, the backward 8-byte-word loop and its
    byte tail. *)
Theorem memmove_correct (m : mem) (dest src n : Z) :
  0 ≤ n → copied m (memmove m dest src n) dest src n.
Proof.
  intros Hn. unfold memmove.
  destruct (Z.ltb_spec dest src); [apply memcpy_copied; lia|].
  destruct (Z.ltb_spec src dest).
  2:{ replace src with dest by lia. apply copied_refl. }
  destruct (memmove_words _ _ _ _ _) as [m' n'] eqn:E.
  apply memmove_words_spec in E as (H1 & H2 & Hm); [|lia..].
  intros a. rewrite memmove_bytes_spec by lia. rewrite !Hm.
  split_range.
Qed.

Lemma memmove_correct_witness :
  let m := st64 (st64 ∅ 100 1234567890123) 108 987654321 in
  copied m (memmove m 103 100 13) 103 100 13.
Proof. intros m. apply (memmove_correct m 103 100 13). lia. Defined.

Lemma memset_loop_stosb k i m p v :
  memset_loop k i m p v = rep_stosb k m (p + i) (u8 v).
Proof.
  revert i m. induction k as [|k IH]; intros i m; [done|]. cbn.
  rewrite IH. f_equal; lia.
Qed.

Lemma rep_stosb_filled (k : nat) m p v : filled m (rep_stosb k m p v) p v k.
Proof.
  revert m p. induction k as [|k IH]; intros m p a; [split_range|].
  cbn [rep_stosb]. rewrite IH, ldb_stb.
  destruct (Z.eqb_spec a p) as [->|]; split_range.
Qed.

Lemma memset_filled m p v n : 0 ≤ n → filled m (memset m p v n) p v n.
Proof.
  intros Hn a. unfold memset.
  assert (∀ k m, memset_loop k 0 m p v = rep_stosb k m p (u8 v)) as Hl.
  { intros. rewrite memset_loop_stosb. f_equal. lia. }
  rewrite Hl, Tauto.if_same, rep_stosb_filled, Z2Nat.id by lia.
  by rewrite (u8_small (u8 v)) by apply u8_range.
Qed.

Lemma memcmp_loop_spec (k : nat) i m p1 p2 r :
  memcmp_loop k i m p1 p2 = r →
  (r = 0 ∧ ∀ j, i ≤ j < i + k → ldb m (p1 + j) = ldb m (p2 + j)) ∨
  (∃ j, i ≤ j < i + k ∧ ldb m (p1 + j) ≠ ldb m (p2 + j) ∧
        (∀ j', i ≤ j' < j → ldb m (p1 + j') = ldb m (p2 + j')) ∧
        r = if ldb m (p1 + j) <? ldb m (p2 + j) then -1 else 1).
Proof.
  revert i. induction k as [|k IH]; intros i; cbn.
  { intros <-. left. split; [done|lia]. }
  destruct (Z.eqb_spec (ldb m (p1 + i)) (ldb m (p2 + i))) as [Heq|Hne]; cbn.
  - intros [[-> H]|(j & Hj & Hne & Hpre & ->)]%IH.
    + left. split; [done|]. intros j Hj.
      destruct (decide (j = i)) as [->|]; [done|]. apply H. lia.
    + right. exists j. split_and!; [lia..|done| |done]. intros j' Hj'.
      destruct (decide (j' = i)) as [->|]; [done|]. apply Hpre. lia.
  - intros <-. right. exists i. split_and!; [lia..|done|lia|done].
Qed.

(** [memcmp] returns [0] exactly when the two ranges hold the same bytes,
    and otherwise [-1] or [1] by the unsigned order of the first pair of bytes
    that differ. *)
Theorem memcmp_correct (m : mem) (p1 p2 n : Z) :
  0 ≤ n →
  (memcmp m p1 p2 n = 0 ↔ ∀ j, 0 ≤ j < n → ldb m (p1 + j) = ldb m (p2 + j)) ∧
  (∀ j, 0 ≤ j < n → ldb m (p1 + j) ≠ ldb m (p2 + j) →
        (∀ j', 0 ≤ j' < j → ldb m (p1 + j') = ldb m (p2 + j')) →
        memcmp m p1 p2 n = if ldb m (p1 + j) <? ldb m (p2 + j) then -1 else 1).
Proof.
  intros Hn.
  destruct (memcmp_loop_spec (Z.to_nat n) 0 m p1 p2 _ eq_refl)
    as [[E H]|(j & Hj & Hne & Hpre & E)]; fold (memcmp m p1 p2 n) in E;
    rewrite Z2Nat.id in * by lia; rewrite E; split.
  - naive_solver.
  - intros j Hj Hne. destruct Hne. apply H. lia.
  - split; [destruct (_ <? _); lia|]. intros H. destruct Hne. apply H. lia.
  - intros j2 Hj2 Hne2 Hpre2. destruct (Z.lt_trichotomy j j2) as [|[->|]]; [|done|].
    + destruct Hne. apply Hpre2. lia.
    + destruct Hne2. apply Hpre. lia.
Qed.

Lemma memcmp_correct_witness :
  let m := st64 (st64 ∅ 100 513) 200 769 in
  memcmp m 100 200 8 = if ldb m 101 <? ldb m 201 then -1 else 1.
Proof.
  intros m. apply (memcmp_correct m 100 200 8 ltac:(lia)) with (j := 1); [lia| |].
  - vm_compute. discriminate.
  - intros j' Hj'. assert (j' = 0) as -> by lia. reflexivity.
Defined.
