(* ===== verification/Heap.v ===== *)
(** The kernel heap of [mem/heap.c]: block headers laid out in the byte memory,
    the address-ordered chain ([next]/[prev]), the explicit free list
    ([free_next]/[free_prev], head [free_head]), splitting, coalescing and the
    guard canary.

    Module [Heap] holds the model: one definition per function of the file.
    Every entry point runs under [heap_lock] with interrupts off, so an
    operation is one atomic function of the allocator state; the console output
    of the diagnostics is a value returned by [kfree_nolock].  The invariant and
    the operations' lemmas are in [HeapFree], [HeapChain] and [HeapSpec]. *)
From S2P Require Import Prelude Mem.

Module Heap.

(** [heap_block_header_t]: field offsets and widths as laid out on x86-64. *)
Inductive field :=
  | F_size | F_next | F_prev | F_free_next | F_free_prev
  | F_magic | F_free | F_req_size | F_alloc_caller.

#[export] Instance field_eq_dec : EqDecision field.
Proof. solve_decision. Defined.

Definition foff (f : field) : Z :=
  match f with
  | F_size => 0 | F_next => 8 | F_prev => 16 | F_free_next => 24 | F_free_prev => 32
  | F_magic => 40 | F_free => 44 | F_req_size => 48 | F_alloc_caller => 56
  end.

Definition fwidth (f : field) : nat :=
  match f with F_magic | F_free => 4 | _ => 8 end.

(** [sizeof(heap_block_header_t)] *)
Definition HDR : Z := 64.

Definition hget (f : field) (m : mem) (b : Z) : Z := ld (fwidth f) m (b + foff f).
Definition hput (f : field) (m : mem) (b v : Z) : mem := st (fwidth f) m (b + foff f) v.

Definition HEAP_MAGIC_FREE : Z := 0xC0FFEE00.
Definition HEAP_MAGIC_ALLOC : Z := 0xC0FFEE01.
Definition HEAP_CANARY_QWORD : Z := 0xDEADBEEFCAFEBABE.

Definition ALIGN16 (x : Z) : Z := (x +u 15) &u ~u 15.

(** The static variables of the file, and the memory they point into. *)
Record heap := MkHeap {
  heap_base : Z;
  heap_capacity : Z;
  head : Z;
  alloc_rover : Z;
  free_head : Z;
  heap_used_now : Z;
  heap_peak : Z;
  hmem : mem
}.

Definition set_rover (s : heap) (v : Z) : heap :=
  MkHeap (heap_base s) (heap_capacity s) (head s) v (free_head s)
         (heap_used_now s) (heap_peak s) (hmem s).
Definition set_free_head (s : heap) (v : Z) : heap :=
  MkHeap (heap_base s) (heap_capacity s) (head s) (alloc_rover s) v
         (heap_used_now s) (heap_peak s) (hmem s).
Definition set_used (s : heap) (v : Z) : heap :=
  MkHeap (heap_base s) (heap_capacity s) (head s) (alloc_rover s) (free_head s)
         v (heap_peak s) (hmem s).
Definition set_peak (s : heap) (v : Z) : heap :=
  MkHeap (heap_base s) (heap_capacity s) (head s) (alloc_rover s) (free_head s)
         (heap_used_now s) v (hmem s).
Definition set_mem (s : heap) (m : mem) : heap :=
  MkHeap (heap_base s) (heap_capacity s) (head s) (alloc_rover s) (free_head s)
         (heap_used_now s) (heap_peak s) m.

(** [b->f] and [b->f = v]. *)
Definition rd (f : field) (s : heap) (b : Z) : Z := hget f (hmem s) b.
Definition wr (f : field) (s : heap) (b v : Z) : heap := set_mem s (hput f (hmem s) b v).

Definition heap_ptr_in_range (s : heap) (a : Z) : bool :=
  if (heap_base s =? 0) || (heap_capacity s =? 0) then false
  else
    let lo := heap_base s in
    let hi := heap_base s +u heap_capacity s in
    (lo <=? a) && (a <? hi).

Definition heap_range_in_range (s : heap) (a n : Z) : bool :=
  if (heap_base s =? 0) || (heap_capacity s =? 0) then false
  else if n =? 0 then heap_ptr_in_range s a
  else
    let lo := heap_base s in
    let hi := heap_base s +u heap_capacity s in
    if a <? lo then false
    else if hi <=? a then false
    else if (hi -u a) <? n then false
    else true.

(** [heap_init]; [kernel_end] is the linker symbol [_end]. *)
Definition heap_init (kernel_end : Z) (m : mem) (heap_start heap_size : Z) : heap :=
  let heap_start :=
    if heap_start =? 0 then (kernel_end +u 0xFFF) &u ~u 0xFFF else heap_start in
  let heap_size := if heap_size =? 0 then 512 * 1024 * 1024 else heap_size in
  let h := heap_start in
  let m := hput F_size m h (heap_size -u HDR) in
  let m := hput F_next m h 0 in
  let m := hput F_prev m h 0 in
  let m := hput F_free m h 1 in
  let m := hput F_magic m h HEAP_MAGIC_FREE in
  let m := hput F_req_size m h 0 in
  let m := hput F_alloc_caller m h 0 in
  let m := hput F_free_next m h 0 in
  let m := hput F_free_prev m h 0 in
  MkHeap heap_start heap_size h h h 0 0 m.

Definition fl_remove (s : heap) (b : Z) : heap :=
  if b =? 0 then s
  else
    let s :=
      if nz (rd F_free_prev s b) then
        wr F_free_next s (rd F_free_prev s b) (rd F_free_next s b)
      else if free_head s =? b then set_free_head s (rd F_free_next s b)
      else s in
    let s :=
      if nz (rd F_free_next s b) then
        wr F_free_prev s (rd F_free_next s b) (rd F_free_prev s b)
      else s in
    let s := wr F_free_next s b 0 in
    wr F_free_prev s b 0.

Definition fl_insert (s : heap) (b : Z) : heap :=
  if b =? 0 then s
  else
    let s := wr F_free_prev s b 0 in
    let s := wr F_free_next s b (free_head s) in
    let s := if nz (free_head s) then wr F_free_prev s (free_head s) b else s in
    set_free_head s b.

(** The header writes of [split_block] that carve [newblk] out of [blk]. *)
Definition split_front (s : heap) (blk newblk size remaining : Z) : heap :=
  let s := wr F_size s newblk (remaining -u HDR) in
  let s := wr F_free s newblk 1 in
  let s := wr F_magic s newblk HEAP_MAGIC_FREE in
  let s := wr F_req_size s newblk 0 in
  let s := wr F_alloc_caller s newblk 0 in
  let s := wr F_next s newblk (rd F_next s blk) in
  let s := wr F_prev s newblk blk in
  let s := wr F_free_next s newblk 0 in
  let s := wr F_free_prev s newblk 0 in
  let s := if nz (rd F_next s newblk) then wr F_prev s (rd F_next s newblk) newblk else s in
  let s := wr F_next s blk newblk in
  wr F_size s blk size.

(** Absorb the free successor of [b]: the same statements in [split_block] (on
    the leftover) and in [coalesce] (on the freed block). *)
Definition absorb_next (s : heap) (b : Z) : heap :=
  let s := fl_remove s (rd F_next s b) in
  let s := wr F_size s b (rd F_size s b +u (HDR +u rd F_size s (rd F_next s b))) in
  let s := wr F_next s b (rd F_next s (rd F_next s b)) in
  if nz (rd F_next s b) then wr F_prev s (rd F_next s b) b else s.

Definition split_block (s : heap) (blk size : Z) : heap :=
  let remaining := rd F_size s blk -u size in
  if remaining <=? HDR + 16 then s
  else
    let newblk := blk +u HDR +u size in
    let s := split_front s blk newblk size remaining in
    let s := fl_insert s newblk in
    if nz (rd F_next s newblk) && nz (rd F_free s (rd F_next s newblk))
       && (rd F_magic s (rd F_next s newblk) =? HEAP_MAGIC_FREE)
    then absorb_next s newblk
    else s.

(** The three stores that end [coalesce] on both paths. *)
Definition mark_free_hdr (s : heap) (blk : Z) : heap :=
  wr F_alloc_caller (wr F_req_size (wr F_magic s blk HEAP_MAGIC_FREE) blk 0) blk 0.

(** Merge [blk] into its free predecessor, the second half of [coalesce]. *)
Definition merge_into_prev (s : heap) (blk : Z) : heap :=
  let s := fl_remove s blk in
  let prev := rd F_prev s blk in
  let s := wr F_size s prev (rd F_size s prev +u (HDR +u rd F_size s blk)) in
  let s := wr F_next s prev (rd F_next s blk) in
  if nz (rd F_next s blk) then wr F_prev s (rd F_next s blk) (rd F_prev s blk) else s.

(** Merge with the free successor, the first half of [coalesce]. *)
Definition coalesce_next (s : heap) (blk : Z) : heap :=
  if nz (rd F_next s blk) && nz (rd F_free s (rd F_next s blk)) then
    let s := if alloc_rover s =? rd F_next s blk then set_rover s blk else s in
    absorb_next s blk
  else s.

Definition coalesce (s : heap) (blk : Z) : heap * Z :=
  let s := coalesce_next s blk in
  if nz (rd F_prev s blk) && nz (rd F_free s (rd F_prev s blk)) then
    let s := if alloc_rover s =? blk then set_rover s (rd F_prev s blk) else s in
    let s := merge_into_prev s blk in
    let blk := rd F_prev s blk in
    (mark_free_hdr s blk, blk)
  else (mark_free_hdr s blk, blk).

(** Rounded payload size of a request with [HEAP_GUARD] on. *)
Definition guarded (req : Z) : Z := ALIGN16 (req +u 8).

(** The header stores that mark a block as handed out. *)
Definition alloc_stamp (s : heap) (cur req caller : Z) : heap :=
  let s := wr F_free s cur 0 in
  let s := wr F_magic s cur HEAP_MAGIC_ALLOC in
  let s := wr F_req_size s cur req in
  let s := wr F_free_next s cur 0 in
  let s := wr F_free_prev s cur 0 in
  wr F_alloc_caller s cur caller.

(** [heap_used_now += amount; if (heap_used_now > heap_peak) ...] *)
Definition heap_account (s : heap) (amount : Z) : heap :=
  let s := set_used s (heap_used_now s +u amount) in
  if heap_peak s <? heap_used_now s then set_peak s (heap_used_now s) else s.

(** Write the canary right after the requested bytes. *)
Definition put_canary (s : heap) (p req : Z) : heap :=
  set_mem s (st64 (hmem s) (p +u req) HEAP_CANARY_QWORD).

(** The body of the allocation loop once a block that fits was found.
    [caller] stands for [__builtin_return_address(1)]. *)
Definition kmalloc_take (s : heap) (cur size req caller : Z) : heap * Z :=
  let s := fl_remove s cur in
  let s := split_block s cur size in
  let s := alloc_stamp s cur req caller in
  let s := heap_account s (rd F_size s cur) in
  let p := cur +u HDR in
  let s := put_canary s p req in
  let s := set_rover s (if nz (rd F_next s cur) then rd F_next s cur else head s) in
  (s, p).

Definition block_fits (s : heap) (cur size : Z) : bool :=
  nz (rd F_free s cur) && (rd F_magic s cur =? HEAP_MAGIC_FREE) && (size <=? rd F_size s cur).

(** [while (cur) ...] over the free list; [None] is an exhausted fuel. *)
Fixpoint kmalloc_walk (fuel : nat) (s : heap) (cur size req caller : Z) : option (heap * Z) :=
  match fuel with
  | O => None
  | S fuel =>
      if cur =? 0 then Some (s, 0)
      else
        let next_free := rd F_free_next s cur in
        if block_fits s cur size then Some (kmalloc_take s cur size req caller)
        else kmalloc_walk fuel s next_free size req caller
  end.

(** The chain has at most [capacity / 64] blocks. *)
Definition walk_fuel (s : heap) : nat := S (Z.to_nat (heap_capacity s / HDR)).

Definition kmalloc_nolock (s : heap) (size caller : Z) : option (heap * Z) :=
  if (head s =? 0) || (size =? 0) then Some (s, 0)
  else
    let req := size in
    let size := guarded req in
    if free_head s =? 0 then Some (s, 0)
    else kmalloc_walk (walk_fuel s) s (free_head s) size req caller.

(** What [kfree_nolock] reports on the console. *)
Inductive kfree_report :=
  | KF_null | KF_out_of_range | KF_bad_header_ptr | KF_double_free | KF_overflow | KF_ok.

Definition canary_intact (s : heap) (ptr blk : Z) : bool :=
  let canp := ptr +u rd F_req_size s blk in
  let got := if heap_range_in_range s canp 8 then ld64 (hmem s) canp else 0 in
  got =? HEAP_CANARY_QWORD.

(** The stores that mark a live block as free again, and the accounting. *)
Definition free_stamp (s : heap) (blk : Z) : heap :=
  let s := wr F_free s blk 1 in
  let s := wr F_magic s blk HEAP_MAGIC_FREE in
  let s := wr F_free_next s blk 0 in
  wr F_free_prev s blk 0.
Definition heap_unaccount (s : heap) (amount : Z) : heap :=
  if amount <=? heap_used_now s then set_used s (heap_used_now s -u amount) else set_used s 0.

Definition kfree_nolock (s : heap) (ptr : Z) : heap * kfree_report :=
  if ptr =? 0 then (s, KF_null)
  else if negb (heap_ptr_in_range s ptr) then (s, KF_out_of_range)
  else
    let blk := ptr -u HDR in
    if negb (heap_ptr_in_range s blk) then (s, KF_bad_header_ptr)
    else if negb (rd F_magic s blk =? HEAP_MAGIC_ALLOC) || nz (rd F_free s blk)
    then (s, KF_double_free)
    else
      let report := if canary_intact s ptr blk then KF_ok else KF_overflow in
      let s := free_stamp s blk in
      let s := heap_unaccount s (rd F_size s blk) in
      let had_free_prev := nz (rd F_prev s blk) && nz (rd F_free s (rd F_prev s blk)) in
      let '(s, surv) := coalesce s blk in
      ((if had_free_prev then s else fl_insert s surv), report).

(** Accumulate the consecutive free blocks after a block that grows in place:
    returns the state, the accumulated size and [last_absorbed]. *)
Fixpoint krealloc_scan (fuel : nat) (s : heap) (blk scan last_absorbed accumulated new_size : Z)
  : option (heap * Z * Z) :=
  match fuel with
  | O => None
  | S fuel =>
      if nz scan && nz (rd F_free s scan) then
        if negb (rd F_magic s scan =? HEAP_MAGIC_FREE) then Some (s, last_absorbed, accumulated)
        else
          let s := if alloc_rover s =? scan then set_rover s blk else s in
          let accumulated := accumulated +u (HDR +u rd F_size s scan) in
          let last_absorbed := scan in
          if new_size <=? accumulated then Some (s, last_absorbed, accumulated)
          else krealloc_scan fuel s blk (rd F_next s scan) last_absorbed accumulated new_size
      else Some (s, last_absorbed, accumulated)
  end.

(** Unlink the absorbed blocks from the free list. *)
Fixpoint krealloc_unlink (fuel : nat) (s : heap) (gone after : Z) : option heap :=
  match fuel with
  | O => None
  | S fuel =>
      if nz gone && negb (gone =? after) then
        let nx := rd F_next s gone in
        let s := fl_remove s gone in
        krealloc_unlink fuel s nx after
      else Some s
  end.

(** [req_size], [alloc_caller] and the canary after an in-place [krealloc]. *)
Definition krealloc_stamp (s : heap) (blk new_req caller : Z) : heap :=
  let s := wr F_req_size s blk new_req in
  let s := wr F_alloc_caller s blk caller in
  let p := blk +u HDR in
  put_canary s p new_req.

Definition krealloc_shrink (s : heap) (ptr blk new_size new_req caller : Z) : heap * Z :=
  let old_size := rd F_size s blk in
  let s := split_block s blk new_size in
  let new_alloc_size := rd F_size s blk in
  let s :=
    if new_alloc_size <? old_size then
      let diff := old_size -u new_alloc_size in
      heap_unaccount s diff
    else s in
  (krealloc_stamp s blk new_req caller, ptr).

(** The tail of the in-place growth, once enough was accumulated. *)
Definition krealloc_absorb (s : heap) (ptr blk last_absorbed accumulated old_size
                             new_size new_req caller : Z) : option (heap * Z) :=
  let after := if nz last_absorbed then rd F_next s last_absorbed else 0 in
  s ← krealloc_unlink (walk_fuel s) s (rd F_next s blk) after;
  let s := wr F_size s blk accumulated in
  let s := wr F_next s blk after in
  let s := if nz after then wr F_prev s after blk else s in
  let s := split_block s blk new_size in
  let diff := new_size -u old_size in
  let s := heap_account s diff in
  Some (krealloc_stamp s blk new_req caller, ptr).

(** Allocate, copy, free: the last resort of [krealloc_nolock]. *)
Definition krealloc_move (s : heap) (ptr old_req new_req caller : Z) : option (heap * Z) :=
  '(s, n) ← kmalloc_nolock s new_req caller;
  if n =? 0 then Some (s, 0)
  else
    let to_copy := if old_req <? new_req then old_req else new_req in
    let s := set_mem s (memcpy (hmem s) n ptr to_copy) in
    let '(s, _) := kfree_nolock s ptr in
    let nblk := n -u HDR in
    let s := if heap_ptr_in_range s nblk then wr F_alloc_caller s nblk caller else s in
    Some (s, n).

Definition krealloc_nolock (s : heap) (ptr new_size caller : Z) : option (heap * Z) :=
  if ptr =? 0 then kmalloc_nolock s new_size caller
  else if new_size =? 0 then Some (fst (kfree_nolock s ptr), 0)
  else if negb (heap_ptr_in_range s ptr) then Some (s, 0)
  else
    let blk := ptr -u HDR in
    if negb (heap_ptr_in_range s blk) || negb (rd F_magic s blk =? HEAP_MAGIC_ALLOC)
       || nz (rd F_free s blk)
    then Some (s, 0)
    else
      let old_size := rd F_size s blk in
      let old_req := rd F_req_size s blk in
      let new_req := new_size in
      let new_size := guarded new_req in
      if new_size <=? old_size then Some (krealloc_shrink s ptr blk new_size new_req caller)
      else
        if nz (rd F_next s blk) && nz (rd F_free s (rd F_next s blk)) then
          '(s, last_absorbed, accumulated) ←
             krealloc_scan (walk_fuel s) s blk (rd F_next s blk) 0 old_size new_size;
          if new_size <=? accumulated then
            krealloc_absorb s ptr blk last_absorbed accumulated old_size new_size new_req caller
          else krealloc_move s ptr old_req new_req caller
        else krealloc_move s ptr old_req new_req caller.

(** [kcalloc]: the product wraps at 64 bits, then the payload is zeroed. *)
Definition kcalloc (s : heap) (num size caller : Z) : option (heap * Z) :=
  let total := num *u size in
  '(s, p) ← kmalloc_nolock s total caller;
  if nz p then Some (set_mem s (memset (hmem s) p 0 total), p) else Some (s, p).

Definition heap_ptr_is_kmalloc (s : heap) (ptr : Z) : bool :=
  if (ptr =? 0) || negb (heap_ptr_in_range s ptr) then false
  else
    let blk := ptr -u HDR in
    if negb (heap_ptr_in_range s blk) then false
    else (rd F_magic s blk =? HEAP_MAGIC_ALLOC) && (rd F_free s blk =? 0).

(** The two diagnostic walks of the free list. *)
Fixpoint largest_walk (fuel : nat) (s : heap) (cur mx : Z) : option Z :=
  match fuel with
  | O => None
  | S fuel =>
      if cur =? 0 then Some mx
      else
        let mx := if nz (rd F_free s cur) && (mx <? rd F_size s cur) then rd F_size s cur else mx in
        largest_walk fuel s (rd F_free_next s cur) mx
  end.
Definition heap_largest_free_block (s : heap) : option Z :=
  largest_walk (walk_fuel s) s (free_head s) 0.

Fixpoint total_walk (fuel : nat) (s : heap) (cur total : Z) : option Z :=
  match fuel with
  | O => None
  | S fuel =>
      if cur =? 0 then Some total
      else
        let total := if nz (rd F_free s cur) then total +u rd F_size s cur else total in
        total_walk fuel s (rd F_free_next s cur) total
  end.
Definition heap_total_free_bytes (s : heap) : option Z :=
  total_walk (walk_fuel s) s (free_head s) 0.

Definition heap_region_end_exclusive (s : heap) : Z :=
  if (heap_base s =? 0) || (heap_capacity s =? 0) then heap_base s
  else
    let lo := heap_base s in
    let hi := lo +u heap_capacity s in
    if hi <? lo then 2 ^ 64 - 1 else hi.

End Heap.
