(* ===== verification/HeapFree.v ===== *)
(** Header framing for [mem/heap.c], the tiling of an address range by blocks,
    and the explicit free list: what [fl_remove] and [fl_insert] do to it. *)
From S2P Require Import Prelude Mem Heap.
Import Heap.

(** * Header framing *)

(** Two headers at [b] and [c] do not share a byte. *)
Definition far (b c : Z) : Prop := b + HDR ≤ c ∨ c + HDR ≤ b.

Lemma far_sym b c : far b c → far c b.
Proof. unfold far. tauto. Qed.
#[export] Hint Resolve far_sym : axon.
Lemma far_irrefl b : ¬ far b b.
Proof. unfold far, HDR. lia. Qed.

Lemma foff_range f : 0 ≤ foff f ∧ foff f + fwidth f ≤ HDR.
Proof. unfold HDR. destruct f; simpl; lia. Qed.

Lemma field_disjoint f g :
  f ≠ g → foff f + fwidth f ≤ foff g ∨ foff g + fwidth g ≤ foff f.
Proof. destruct f, g; simpl; intros; try done; lia. Qed.

(** [touch P m m']: only header fields [f] of blocks [b] with [P b f] differ. *)
Definition touch (P : Z → field → Prop) (m m' : mem) : Prop :=
  ∀ a, (∀ b f, P b f → ¬ (b + foff f ≤ a < b + foff f + fwidth f)) →
       ldb m' a = ldb m a.

Lemma touch_refl P m : touch P m m.
Proof. done. Qed.
Lemma touch_trans P m1 m2 m3 : touch P m1 m2 → touch P m2 m3 → touch P m1 m3.
Proof. intros H1 H2 a Ha. by rewrite H2, H1. Qed.
Lemma touch_mono (P Q : Z → field → Prop) m m' :
  (∀ b f, P b f → Q b f) → touch P m m' → touch Q m m'.
Proof. intros HPQ H a Ha. apply H. eauto. Qed.
Lemma touch_hput (P : Z → field → Prop) f m b v : P b f → touch P m (hput f m b v).
Proof. intros HP a Ha. apply ldb_st_out. by apply Ha. Qed.
Lemma touch_wr (P : Z → field → Prop) f m s b v :
  P b f → touch P m (hmem s) → touch P m (hmem (wr f s b v)).
Proof. intros HP H. eapply touch_trans; [exact H|]. by apply touch_hput. Qed.

Lemma touch_rd P s s' g c :
  touch P (hmem s) (hmem s') →
  (∀ b f, P b f → far b c ∨ (b = c ∧ f ≠ g)) → rd g s' c = rd g s c.
Proof.
  intros Ht H. unfold rd, hget. apply ld_ext. intros a Ha. apply Ht. intros b f HP.
  pose proof (foff_range f). pose proof (foff_range g).
  destruct (H b f HP) as [[?|?]|[-> Hne]]; [lia..|].
  destruct (field_disjoint f g Hne); lia.
Qed.

(** Bytes outside every touched block's header are preserved. *)
Lemma touch_payload P m m' a :
  touch P m m' → (∀ b f, P b f → ¬ (b ≤ a < b + HDR)) → ldb m' a = ldb m a.
Proof.
  intros Ht H. apply Ht. intros b f HP. specialize (H b f HP).
  pose proof (foff_range f). lia.
Qed.

Lemma rd_range f s b : 0 ≤ rd f s b < 2 ^ (8 * fwidth f).
Proof. apply ld_range. Qed.
Lemma rd_size_range s b : is_u64 (rd F_size s b).
Proof. apply rd_range. Qed.

Lemma rd_wr_eq f s b v : 0 ≤ v < 2 ^ (8 * fwidth f) → rd f (wr f s b v) b = v.
Proof. intros. unfold rd, wr, hget, hput. simpl. rewrite ld_st_eq. by apply Z.mod_small. Qed.

Lemma rd_wr_field f g s b v : f ≠ g → rd g (wr f s b v) b = rd g s b.
Proof.
  intros. apply (touch_rd (λ b' f', b' = b ∧ f' = f)).
  - by apply touch_hput.
  - naive_solver.
Qed.

Lemma rd_wr_far f g s b c v : far b c → rd g (wr f s b v) c = rd g s c.
Proof.
  intros. apply (touch_rd (λ b' f', b' = b ∧ f' = f)).
  - by apply touch_hput.
  - naive_solver.
Qed.

Lemma rd_set_free_head f s v b : rd f (set_free_head s v) b = rd f s b.
Proof. done. Qed.
Lemma rd_set_rover f s v b : rd f (set_rover s v) b = rd f s b.
Proof. done. Qed.
Lemma rd_set_used f s v b : rd f (set_used s v) b = rd f s b.
Proof. done. Qed.
Lemma rd_set_peak f s v b : rd f (set_peak s v) b = rd f s b.
Proof. done. Qed.
Create Rewrite HintDb heap_rd.
#[export] Hint Rewrite rd_set_free_head rd_set_rover rd_set_used rd_set_peak : heap_rd.

(** Read back a field of a state built by a sequence of stores: headers are
    either the same one or [far] apart. *)
Ltac rd_step :=
  match goal with
  | |- context [rd ?f (wr ?f ?s ?b ?v) ?b] => rewrite (rd_wr_eq f s b v) by (cbn; unfold HEAP_MAGIC_FREE, HEAP_MAGIC_ALLOC; lia)
  | |- context [rd ?g (wr ?f ?s ?b ?v) ?b] => rewrite (rd_wr_field f g s b v) by done
  | |- context [rd ?g (wr ?f ?s ?b ?v) ?c] =>
      rewrite (rd_wr_far f g s b c v) by (auto with axon; fail)
  end.
Ltac rd_simpl := repeat (autorewrite with heap_rd; rd_step); autorewrite with heap_rd.

(** The static variables other than the memory are unchanged. *)
Definition same_vars (s s' : heap) : Prop :=
  heap_base s' = heap_base s ∧ heap_capacity s' = heap_capacity s ∧
  head s' = head s ∧ alloc_rover s' = alloc_rover s ∧
  heap_used_now s' = heap_used_now s ∧ heap_peak s' = heap_peak s.

(** * The chain tiles the arena *)

Fixpoint tiles (sz : Z → Z) (a : Z) (l : list Z) (e : Z) : Prop :=
  match l with
  | [] => a = e
  | b :: l' => b = a ∧ tiles sz (b + HDR + sz b) l' e
  end.

Lemma tiles_app sz a l1 l2 e :
  tiles sz a (l1 ++ l2) e ↔ ∃ c, tiles sz a l1 c ∧ tiles sz c l2 e.
Proof.
  revert a. induction l1 as [|b l1 IH]; intros a; simpl.
  - split; [eauto|]. by intros (c & -> & H).
  - rewrite IH. naive_solver.
Qed.

Lemma tiles_ext sz sz' a l e :
  (∀ b, b ∈ l → sz' b = sz b) → tiles sz a l e → tiles sz' a l e.
Proof.
  revert a. induction l as [|b l IH]; intros a H; simpl; [done|].
  intros [-> Ht]. split; [done|]. rewrite H by set_solver. apply IH; set_solver.
Qed.

Section tiles.
Context (sz : Z → Z) (Hsz : ∀ b, 0 ≤ sz b).

Lemma tiles_bounds a l e :
  tiles sz a l e → a ≤ e ∧ ∀ b, b ∈ l → a ≤ b ∧ b + HDR + sz b ≤ e.
Proof using Hsz.
  unfold HDR. revert a. induction l as [|b l IH]; intros a; simpl.
  { intros ->. split; [lia|]. set_solver. }
  intros [-> Ht]. destruct (IH _ Ht) as [H1 H2]. unfold HDR in *.
  pose proof (Hsz a). split; [lia|].
  intros c [->|Hc]%elem_of_cons; [lia|]. apply H2 in Hc. lia.
Qed.

Lemma tiles_order a l1 b l2 e :
  tiles sz a (l1 ++ b :: l2) e →
  (∀ c, c ∈ l1 → c + HDR + sz c ≤ b) ∧ (∀ c, c ∈ l2 → b + HDR + sz b ≤ c).
Proof using Hsz.
  intros (c & H1 & [-> H2])%tiles_app.
  apply tiles_bounds in H1 as [_ H1]. apply tiles_bounds in H2 as [_ H2].
  split; intros d Hd; [by apply H1|by apply H2].
Qed.

Lemma tiles_apart a l e b c :
  tiles sz a l e → b ∈ l → c ∈ l → b ≠ c →
  b + HDR + sz b ≤ c ∨ c + HDR + sz c ≤ b.
Proof using Hsz.
  intros Ht (l1 & l2 & ->)%list_elem_of_split Hc Hne.
  apply tiles_order in Ht as [H1 H2].
  apply elem_of_app in Hc as [Hc|Hc]; [right; by apply H1|].
  apply elem_of_cons in Hc as [->|Hc]; [done|]. left. by apply H2.
Qed.

Lemma tiles_NoDup a l e : tiles sz a l e → NoDup l.
Proof using Hsz.
  revert a. induction l as [|b l IH]; intros a; simpl; [constructor|].
  intros [-> Ht]. constructor; [|by eapply IH].
  intros Hin. apply tiles_bounds in Ht as [_ Ht]. apply Ht in Hin.
  pose proof (Hsz a). unfold HDR in *. lia.
Qed.
End tiles.

(** * The free list *)

Definition is_link (f : field) : Prop := f = F_free_next ∨ f = F_free_prev.

(** A set of block addresses that can be headers at the same time. *)
Definition apart (l : list Z) : Prop :=
  (∀ b, b ∈ l → 0 < b < 2 ^ 64) ∧ (∀ b c, b ∈ l → c ∈ l → b ≠ c → far b c).

Record fl_ok (s : heap) (fl : list Z) : Prop := {
  fl_nodup : NoDup fl;
  fl_apart : apart fl;
  fl_seg : seg (rd F_free_next s) (rd F_free_prev s) 0 fl 0;
  fl_head : free_head s = hd_or 0 fl
}.

Lemma apart_sub l l' : (∀ b, b ∈ l' → b ∈ l) → apart l → apart l'.
Proof. intros Hs [H1 H2]. split; [auto|]. intros b c Hb Hc. apply H2; auto. Qed.

Lemma apart_hd l : apart l → 0 ≤ hd_or 0 l < 2 ^ 64.
Proof.
  intros [H _]. destruct l as [|b l]; simpl; [lia|]. specialize (H b). set_solver by lia.
Qed.
Lemma apart_last l : apart l → 0 ≤ last_or 0 l < 2 ^ 64.
Proof.
  intros [H _]. destruct l as [|b l]; [simpl; lia|].
  specialize (H (last_or 0 (b :: l)) (last_or_elem 0 (b :: l) ltac:(done))). lia.
Qed.
Lemma nz_hd l : apart l → nz (hd_or 0 l) = bool_decide (l ≠ []).
Proof.
  intros [H _]. destruct l as [|b l]; [done|]. rewrite bool_decide_true by done.
  apply nz_true. simpl. specialize (H b). set_solver by lia.
Qed.
Lemma nz_last l : apart l → nz (last_or 0 l) = bool_decide (l ≠ []).
Proof.
  intros [H _]. destruct l as [|b l]; [done|]. rewrite bool_decide_true by done.
  apply nz_true.
  specialize (H (last_or 0 (b :: l)) (last_or_elem 0 (b :: l) ltac:(done))). lia.
Qed.

(** The fields [fl_remove] writes when it unlinks [b] between [p] and [n]. *)
Definition unlink_at (b : Z) (l1 l2 : list Z) (c : Z) (f : field) : Prop :=
  (l1 ≠ [] ∧ c = last_or 0 l1 ∧ f = F_free_next) ∨
  (l2 ≠ [] ∧ c = hd_or 0 l2 ∧ f = F_free_prev) ∨ (c = b ∧ is_link f).

Lemma fl_remove_eq s l1 b l2 :
  fl_ok s (l1 ++ b :: l2) →
  fl_remove s b =
  let p := last_or 0 l1 in
  let n := hd_or 0 l2 in
  let s := if bool_decide (l1 ≠ []) then wr F_free_next s p n else set_free_head s n in
  let s := if bool_decide (l2 ≠ []) then wr F_free_prev s n p else s in
  wr F_free_prev (wr F_free_next s b 0) b 0.
Proof.
  intros [Hnd Hap Hseg Hh]. apply seg_app in Hseg as (_ & Hp & Hn & _).
  assert (apart l1) by (eapply apart_sub; [|exact Hap]; set_solver).
  assert (apart l2) by (eapply apart_sub; [|exact Hap]; set_solver).
  destruct Hap as [Hnz Hfar].
  unfold fl_remove. destruct (Z.eqb_spec b 0) as [->|_].
  { specialize (Hnz 0). set_solver by lia. }
  rewrite Hp, Hn, nz_last by done. case_bool_decide as H1; cbn zeta.
  - assert (far (last_or 0 l1) b).
    { apply Hfar; [|set_solver|].
      - apply elem_of_app. left. by apply last_or_elem.
      - intros E. apply NoDup_app in Hnd as (_ & Hd & _). apply (Hd b); [|set_solver].
        rewrite <- E. by apply last_or_elem. }
    rd_simpl. rewrite Hp, Hn, nz_hd by done. by case_bool_decide.
  - assert (l1 = []) as -> by (destruct l1; naive_solver). simpl in Hh, Hp.
    rewrite Hh, Z.eqb_refl. rd_simpl. rewrite Hp, Hn, nz_hd by done.
    by case_bool_decide.
Qed.

Lemma fl_remove_touch s l1 b l2 :
  fl_ok s (l1 ++ b :: l2) →
  touch (unlink_at b l1 l2) (hmem s) (hmem (fl_remove s b)) ∧ same_vars s (fl_remove s b).
Proof.
  intros H. rewrite (fl_remove_eq _ _ _ _ H). cbn zeta. unfold unlink_at, is_link.
  split; repeat case_bool_decide; try (by repeat split);
    repeat (apply touch_wr; [naive_solver|]); apply touch_refl.
Qed.

Lemma same_vars_refl s : same_vars s s.
Proof. by repeat split. Qed.
Lemma same_vars_trans s1 s2 s3 : same_vars s1 s2 → same_vars s2 s3 → same_vars s1 s3.
Proof. unfold same_vars. intuition congruence. Qed.
#[export] Hint Resolve same_vars_refl touch_refl : axon.

Section unlink.
Context (s : heap) (l1 : list Z) (b : Z) (l2 : list Z).
Context (Hok : fl_ok s (l1 ++ b :: l2)).
Let s' := fl_remove s b.

Lemma unlink_far c d : c ∈ l1 ++ b :: l2 → d ∈ l1 ++ b :: l2 → c ≠ d → far c d.
Proof using Hok. destruct Hok as [_ [_ H] _ _]. apply H. Qed.

Lemma unlink_distinct c d :
  (c ∈ l1 ∧ d ∈ b :: l2) ∨ (c ∈ l2 ∧ d = b) ∨ (c ∈ l1 ∧ d ∈ l2) → c ≠ d.
Proof using Hok.
  destruct Hok as [Hnd _ _ _]. apply NoDup_app in Hnd as (_ & H1 & [H2 _]%NoDup_cons).
  intros H ->. set_solver.
Qed.

(** A link field that [fl_remove] does not rewrite keeps its value. *)
Lemma unlink_keep g c :
  c ∈ l1 ++ l2 →
  ¬ (l1 ≠ [] ∧ c = last_or 0 l1 ∧ g = F_free_next) →
  ¬ (l2 ≠ [] ∧ c = hd_or 0 l2 ∧ g = F_free_prev) →
  rd g s' c = rd g s c.
Proof using Hok.
  intros Hc H1 H2. eapply touch_rd; [by apply fl_remove_touch|].
  assert (c ≠ b).
  { apply elem_of_app in Hc as [Hc|Hc]; apply unlink_distinct; set_solver. }
  intros x f [(Hne & -> & ->)|[(Hne & -> & ->)|[-> _]]].
  - destruct (decide (last_or 0 l1 = c)) as [<-|]; [right; naive_solver|left].
    apply unlink_far; [|set_solver|done]. apply elem_of_app. left. by apply last_or_elem.
  - destruct (decide (hd_or 0 l2 = c)) as [<-|]; [right; naive_solver|left].
    apply unlink_far; [|set_solver|done]. apply elem_of_app. right.
    apply elem_of_cons. right. by apply hd_or_elem.
  - left. apply unlink_far; set_solver.
Qed.

Lemma unlink_new :
  rd F_free_next s' b = 0 ∧ rd F_free_prev s' b = 0 ∧
  (l1 ≠ [] → rd F_free_next s' (last_or 0 l1) = hd_or 0 l2) ∧
  (l2 ≠ [] → rd F_free_prev s' (hd_or 0 l2) = last_or 0 l1).
Proof using Hok.
  assert (apart l1 ∧ apart l2) as [Ha1 Ha2].
  { split; (eapply apart_sub; [|apply Hok]; set_solver). }
  pose proof (apart_hd _ Ha2). pose proof (apart_last _ Ha1).
  assert (l1 ≠ [] → far (last_or 0 l1) b).
  { intros Hl. pose proof (last_or_elem 0 _ Hl).
    apply unlink_far; [set_solver..|]. apply unlink_distinct. set_solver. }
  assert (l2 ≠ [] → far b (hd_or 0 l2)).
  { intros Hl. pose proof (hd_or_elem 0 _ Hl).
    apply unlink_far; [set_solver..|]. apply not_eq_sym, unlink_distinct. set_solver. }
  assert (l1 ≠ [] → l2 ≠ [] → far (hd_or 0 l2) (last_or 0 l1)).
  { intros Hl1 Hl2. pose proof (hd_or_elem 0 _ Hl2). pose proof (last_or_elem 0 _ Hl1).
    apply unlink_far; [set_solver..|]. apply not_eq_sym, unlink_distinct. set_solver. }
  unfold s'. rewrite (fl_remove_eq _ _ _ _ Hok). cbn zeta.
  split_and!; [by rd_simpl..| |]; intros Hl;
    repeat case_bool_decide; try done; rd_simpl; done.
Qed.

Lemma fl_remove_ok : fl_ok s' (l1 ++ l2).
Proof using Hok.
  destruct unlink_new as (_ & _ & Hn & Hp). split.
  - destruct Hok as [Hnd _ _ _]. apply NoDup_app in Hnd as (? & Hd & [_ ?]%NoDup_cons).
    apply NoDup_app. set_solver.
  - eapply apart_sub; [|apply Hok]. set_solver.
  - assert (l1 ≠ [] → last_or 0 l1 ∈ l1) by apply last_or_elem.
    assert (l2 ≠ [] → hd_or 0 l2 ∈ l2) by apply hd_or_elem.
    assert (∀ c, c ∈ l1 → c ∈ l2 → False).
    { intros c Hc1 Hc2. eapply (unlink_distinct c c); naive_solver. }
    apply (seg_delete (rd F_free_next s) (rd F_free_prev s) _ _ _ _ b);
      [apply Hok| |done| | | |done|apply Hok].
    all: intros c Hc; try intros Hne; apply unlink_keep; [set_solver|naive_solver..].
  - unfold s'. rewrite (fl_remove_eq _ _ _ _ Hok). cbn zeta.
    pose proof (fl_head _ _ Hok) as Hh. rewrite hd_or_app in *.
    repeat case_bool_decide; simpl; try done; destruct l1; naive_solver.
Qed.
End unlink.

(** Writes that stay clear of the members' link fields keep the free list. *)
Lemma fl_ok_touch P s s' fl :
  touch P (hmem s) (hmem s') → free_head s' = free_head s →
  (∀ x f c, P x f → c ∈ fl → far x c ∨ (x = c ∧ ¬ is_link f)) →
  fl_ok s fl → fl_ok s' fl.
Proof.
  intros Ht Hh HP [H1 H2 H3 H4]. split; [done|done| |congruence].
  eapply seg_ext; [| |exact H3]; intros c Hc; (eapply touch_rd; [exact Ht|]);
    intros x f Hxf; destruct (HP x f c Hxf Hc) as [?|[-> Hf]]; [by left| |by left|];
    right; (split; [done|]); intros ->; apply Hf; unfold is_link; tauto.
Qed.

(** [fl_remove] of a block that is on no list only clears its own links. *)
Lemma fl_remove_unlinked s fl b :
  fl_ok s fl → 0 < b → (∀ c, c ∈ fl → far b c) →
  rd F_free_next s b = 0 → rd F_free_prev s b = 0 →
  let s' := fl_remove s b in
  fl_ok s' fl ∧ touch (λ c f, c = b ∧ is_link f) (hmem s) (hmem s') ∧ same_vars s s'.
Proof.
  intros Hok Hb Hfar Hn Hp s'.
  assert (s' = wr F_free_prev (wr F_free_next s b 0) b 0) as ->.
  { unfold s', fl_remove. destruct (Z.eqb_spec b 0); [lia|]. rewrite Hp. simpl.
    destruct (Z.eqb_spec (free_head s) b) as [E|_]; [|by rewrite Hn].
    exfalso. rewrite (fl_head _ _ Hok) in E. destruct fl as [|c fl]; simpl in E; [lia|].
    specialize (Hfar c ltac:(set_solver)). unfold far, HDR in Hfar. lia. }
  assert (touch (λ c f, c = b ∧ is_link f) (hmem s)
            (hmem (wr F_free_prev (wr F_free_next s b 0) b 0))) as Ht.
  { unfold is_link. repeat (apply touch_wr; [tauto|]). apply touch_refl. }
  split_and!; [|done|by repeat split].
  eapply fl_ok_touch; [exact Ht|done| |done]. intros x f c [-> _] Hc. left. auto.
Qed.

Lemma fl_insert_ok s fl b :
  fl_ok s fl → 0 < b < 2 ^ 64 → (∀ c, c ∈ fl → far b c) →
  let s' := fl_insert s b in
  fl_ok s' (b :: fl) ∧ same_vars s s' ∧
  touch (λ c f, (c = b ∨ c ∈ fl) ∧ is_link f) (hmem s) (hmem s').
Proof.
  intros Hok Hb Hfar. pose proof Hok as [Hnd Hap Hseg Hh].
  assert (b ∉ fl).
  { intros Hin. specialize (Hfar b Hin). unfold far, HDR in Hfar. lia. }
  set (s1 := wr F_free_next (wr F_free_prev s b 0) b (hd_or 0 fl)).
  set (s2 := if bool_decide (fl ≠ []) then wr F_free_prev s1 (hd_or 0 fl) b else s1).
  assert (fl_insert s b = set_free_head s2 b) as ->.
  { unfold fl_insert. destruct (Z.eqb_spec b 0); [lia|].
    change (free_head (wr F_free_prev s b 0)) with (free_head s).
    change (free_head (wr F_free_next (wr F_free_prev s b 0) b (free_head s)))
      with (free_head s).
    by rewrite Hh, nz_hd. }
  pose proof (apart_hd _ Hap).
  assert (fl ≠ [] → far b (hd_or 0 fl)) by (intros; apply Hfar; by apply hd_or_elem).
  assert (touch (λ c f, c = b ∧ is_link f ∨
            fl ≠ [] ∧ c = hd_or 0 fl ∧ f = F_free_prev) (hmem s) (hmem s2)) as Ht.
  { unfold s2, s1, is_link. case_bool_decide;
      repeat (apply touch_wr; [naive_solver|]); apply touch_refl. }
  intros s'. assert (hmem s' = hmem s2) as Hm by done. split_and!.
  - split; [by constructor| | |done].
    { destruct Hap as [Hap1 Hap2]. split.
      - intros c [->|Hc]%elem_of_cons; [lia|by apply Hap1].
      - intros c d [->|Hc]%elem_of_cons [->|Hd]%elem_of_cons; auto with axon; done. }
    assert (∀ f c, rd f s' c = rd f s2 c) as Hrd by done.
    simpl. split_and!.
    + rewrite Hrd. unfold s2, s1. case_bool_decide; rd_simpl; done.
    + rewrite Hrd. unfold s2, s1. case_bool_decide; rd_simpl; done.
    + eapply seg_reroot; [done| | | |exact Hseg].
      * intros c Hc. eapply touch_rd; [exact Ht|].
        intros x f [[-> _]|(Hl & -> & ->)]; [left; by apply Hfar|].
        destruct (decide (hd_or 0 fl = c)); [by right|left].
        apply Hap; [by apply hd_or_elem|done|done].
      * intros c Hc Hne. eapply touch_rd; [exact Ht|].
        intros x f [[-> _]|(Hl & -> & ->)]; [left; by apply Hfar|].
        left. apply Hap; [by apply hd_or_elem|done|congruence].
      * intros Hl. rewrite Hrd. unfold s2, s1. rewrite bool_decide_true by done. by rd_simpl.
  - unfold s', s2, s1. case_bool_decide; by repeat split.
  - rewrite Hm. eapply touch_mono; [|exact Ht]. unfold is_link.
    intros c f [[-> ?]|(Hl & -> & ->)]; [tauto|]. split; [|tauto].
    right. by apply hd_or_elem.
Qed.
