(* ===== verification/HeapChain.v ===== *)
(** The address-ordered block chain of [mem/heap.c]: the chain invariant and the
    effect of merging a block with its successor and of carving a new block out
    of a larger one, the two header rewrites that [split_block], [coalesce] and
    [krealloc_nolock] are built from. *)
From S2P Require Import Prelude Mem Heap HeapFree.
Import Heap.

(** * The block chain *)

Record chain_ok (s : heap) (lo : Z) (bs : list Z) (hi : Z) : Prop := {
  ch_lo : 0 < lo;
  ch_hi : hi < 2 ^ 64;
  ch_tiles : tiles (rd F_size s) lo bs hi;
  ch_seg : seg (rd F_next s) (rd F_prev s) 0 bs 0
}.

Definition is_chain (f : field) : Prop := f = F_size ∨ f = F_next ∨ f = F_prev.

Lemma size_nonneg s b : 0 ≤ rd F_size s b.
Proof. apply rd_size_range. Qed.

Section chain.
Context (s : heap) (lo : Z) (bs : list Z) (hi : Z) (Hch : chain_ok s lo bs hi).

Lemma chain_bounds b : b ∈ bs → lo ≤ b ∧ b + HDR + rd F_size s b ≤ hi.
Proof using Hch. intros. by eapply tiles_bounds; [apply size_nonneg|apply Hch|]. Qed.

Lemma chain_apart : apart bs.
Proof using Hch.
  split.
  - intros b Hb. apply chain_bounds in Hb. pose proof (rd_size_range s b).
    destruct Hch. unfold HDR in *. lia.
  - intros b c Hb Hc Hne.
    destruct (tiles_apart _ (size_nonneg s) _ _ _ _ _ (ch_tiles _ _ _ _ Hch) Hb Hc Hne);
      pose proof (size_nonneg s b); pose proof (size_nonneg s c); unfold far; lia.
Qed.

Lemma chain_NoDup : NoDup bs.
Proof using Hch. eapply tiles_NoDup; [apply size_nonneg|apply Hch]. Qed.
End chain.

Lemma chain_ok_touch P s s' lo bs hi :
  touch P (hmem s) (hmem s') →
  (∀ x f c, P x f → c ∈ bs → far x c ∨ (x = c ∧ ¬ is_chain f)) →
  chain_ok s lo bs hi → chain_ok s' lo bs hi.
Proof.
  intros Ht HP [H1 H2 H3 H4].
  assert (∀ g c, is_chain g → c ∈ bs → rd g s' c = rd g s c) as Hrd.
  { intros g c Hg Hc. eapply touch_rd; [exact Ht|]. intros x f Hx.
    destruct (HP x f c Hx Hc) as [?|[-> Hf]]; [by left|right]. split; [done|]. by intros ->. }
  unfold is_chain in Hrd. split; [done|done| |].
  - eapply tiles_ext; [|exact H3]. intros b Hb. apply Hrd; tauto.
  - eapply seg_ext; [| |exact H4]; intros b Hb; apply Hrd; tauto.
Qed.

(** Merge the header of [b] with its successor: new size, new successor [n]. *)
Definition merge_hdr (s : heap) (b n sz : Z) : heap :=
  let s := wr F_size s b sz in
  let s := wr F_next s b n in
  if nz n then wr F_prev s n b else s.

Definition merge_at (b : Z) (l2 : list Z) (x : Z) (f : field) : Prop :=
  (x = b ∧ (f = F_size ∨ f = F_next)) ∨ (l2 ≠ [] ∧ x = hd_or 0 l2 ∧ f = F_prev).

Section merge.
Context (s : heap) (lo : Z) (l1 : list Z) (b c : Z) (l2 : list Z) (hi : Z).
Context (Hch : chain_ok s lo (l1 ++ b :: c :: l2) hi).
Let sz := rd F_size s b + HDR + rd F_size s c.
Let s' := merge_hdr s b (hd_or 0 l2) sz.

Lemma merge_sets :
  b ∉ l1 ∧ b ∉ l2 ∧ b ≠ c ∧ NoDup l1 ∧ NoDup l2 ∧ (∀ x, x ∈ l1 → x ∉ l2) ∧
  apart l2 ∧ (∀ x, x ∈ l1 ++ c :: l2 → far b x).
Proof using Hch.
  pose proof (chain_apart _ _ _ _ Hch) as Hap. pose proof (chain_NoDup _ _ _ _ Hch) as Hnd.
  apply NoDup_app in Hnd as (H1 & H2 & [H3 [H4 H5]%NoDup_cons]%NoDup_cons).
  split_and!; try done; try set_solver.
  - eapply apart_sub; [|exact Hap]. set_solver.
  - intros x Hx. apply Hap; [set_solver..|]. set_solver.
Qed.

Lemma merge_size : 0 ≤ sz < 2 ^ 64.
Proof using Hch.
  pose proof (chain_bounds _ _ _ _ Hch b ltac:(set_solver)).
  pose proof (chain_bounds _ _ _ _ Hch c ltac:(set_solver)).
  pose proof (size_nonneg s b). pose proof (size_nonneg s c).
  destruct Hch as [Hlo Hhi Htl _].
  apply (tiles_order _ (size_nonneg s)) in Htl as [_ Hc].
  specialize (Hc c ltac:(set_solver)). unfold sz, HDR in *. lia.
Qed.

Lemma merge_touch : touch (merge_at b l2) (hmem s) (hmem s').
Proof using Hch.
  destruct merge_sets as (_ & _ & _ & _ & _ & _ & Hap & _).
  unfold s', merge_hdr, merge_at. rewrite nz_hd by done.
  case_bool_decide; repeat (apply touch_wr; [naive_solver|]); apply touch_refl.
Qed.

Lemma merge_new :
  rd F_size s' b = sz ∧ rd F_next s' b = hd_or 0 l2 ∧
  (l2 ≠ [] → rd F_prev s' (hd_or 0 l2) = b).
Proof using Hch.
  destruct merge_sets as (_ & _ & _ & _ & _ & _ & Hap & Hfar).
  pose proof merge_size. pose proof (apart_hd _ Hap).
  pose proof (chain_apart _ _ _ _ Hch) as [Hb _]. specialize (Hb b ltac:(set_solver)).
  assert (l2 ≠ [] → far b (hd_or 0 l2)).
  { intros Hl. apply Hfar. pose proof (hd_or_elem 0 _ Hl). set_solver. }
  unfold s', merge_hdr. rewrite nz_hd by done.
  split_and!; try intros Hl; case_bool_decide; try done; rd_simpl; done.
Qed.

Lemma merge_keep g x :
  x ∈ l1 ++ l2 → ¬ (l2 ≠ [] ∧ x = hd_or 0 l2 ∧ g = F_prev) → rd g s' x = rd g s x.
Proof using Hch.
  destruct merge_sets as (Hb1 & Hb2 & _ & _ & _ & _ & Hap & Hfar).
  intros Hx Hng. eapply touch_rd; [exact merge_touch|].
  intros y f [[-> _]|(Hl & -> & ->)]; [left; apply Hfar; set_solver|].
  destruct (decide (hd_or 0 l2 = x)) as [<-|]; [right; naive_solver|left].
  pose proof (hd_or_elem 0 _ Hl).
  apply (chain_apart _ _ _ _ Hch); [set_solver..|done].
Qed.

Lemma merge_vars : same_vars s s' ∧ free_head s' = free_head s.
Proof. unfold s', merge_hdr. destruct (nz _); by repeat split. Qed.

Lemma merge_chain : chain_ok s' lo (l1 ++ b :: l2) hi.
Proof using Hch.
  destruct merge_sets as (Hb1 & Hb2 & Hbc & Hn1 & Hn2 & Hd & Hap & Hfar).
  destruct merge_new as (Hsz & Hnx & Hpv). destruct Hch as [Hlo Hhi Htl Hseg].
  assert (l2 ≠ [] → hd_or 0 l2 ∈ l2) as Hh2 by apply hd_or_elem.
  split; [done|done| |].
  - apply tiles_app in Htl as (d & Ht1 & <- & Ec & Ht2). apply tiles_app. exists b.
    split.
    { eapply tiles_ext; [|exact Ht1]. intros x Hx.
      apply merge_keep; [mem|]. by intros (_ & _ & ?). }
    simpl. split; [done|]. rewrite Hsz.
    replace (b + HDR + sz) with (c + HDR + rd F_size s c) by (unfold sz; lia).
    eapply tiles_ext; [|exact Ht2]. intros x Hx.
    apply merge_keep; [mem|]. by intros (_ & _ & ?).
  - apply seg_app in Hseg as (Hs1 & Hp & Hn & _ & _ & Hs2). apply seg_app.
    assert (rd F_prev s' b = last_or 0 l1).
    { rewrite <- Hp. eapply touch_rd; [exact merge_touch|].
      intros y f [[-> [-> | ->]]|(Hl & -> & ->)]; [by right..|left].
      apply far_sym, Hfar. specialize (Hh2 Hl). mem. }
    simpl. split_and!; [|done..|].
    + eapply seg_ext; [| |exact Hs1]; intros x Hx; apply merge_keep; try mem;
        intros (Hl & -> & ?); by apply (Hd _ Hx), Hh2.
    + eapply seg_reroot; [done| | |done|exact Hs2]; intros x Hx; [|intros Hne];
        (apply merge_keep; [mem|]); [by intros (_ & _ & ?)|by intros (_ & ? & _)].
Qed.
End merge.

(** Carve a free block out of the tail of [blk]: the header writes of
    [split_block] before the free list is involved. *)
Definition split_hdr (s : heap) (blk new n size rsz : Z) : heap :=
  let s := wr F_size s new rsz in
  let s := wr F_free s new 1 in
  let s := wr F_magic s new HEAP_MAGIC_FREE in
  let s := wr F_req_size s new 0 in
  let s := wr F_alloc_caller s new 0 in
  let s := wr F_next s new n in
  let s := wr F_prev s new blk in
  let s := wr F_free_next s new 0 in
  let s := wr F_free_prev s new 0 in
  let s := if nz n then wr F_prev s n new else s in
  wr F_size (wr F_next s blk new) blk size.

Definition split_at (blk new : Z) (l2 : list Z) (x : Z) (f : field) : Prop :=
  x = new ∨ (x = blk ∧ (f = F_size ∨ f = F_next)) ∨
  (l2 ≠ [] ∧ x = hd_or 0 l2 ∧ f = F_prev).

Section split.
Context (s : heap) (lo : Z) (l1 : list Z) (blk : Z) (l2 : list Z) (hi size : Z).
Context (Hch : chain_ok s lo (l1 ++ blk :: l2) hi).
Context (Hsize : 0 ≤ size ∧ size + HDR ≤ rd F_size s blk).
Let new := blk + HDR + size.
Let rsz := rd F_size s blk - size - HDR.
Let s' := split_hdr s blk new (hd_or 0 l2) size rsz.

Lemma split_new_bounds : 0 < new < 2 ^ 64 ∧ 0 < blk < 2 ^ 64 ∧ 0 ≤ rsz < 2 ^ 64.
Proof using Hch Hsize.
  pose proof (chain_bounds _ _ _ _ Hch blk ltac:(set_solver)).
  pose proof (rd_size_range s blk). destruct Hch as [Hlo Hhi _ _].
  unfold new, rsz, HDR in *. lia.
Qed.

Lemma split_new_far x : x ∈ l1 ++ blk :: l2 → far new x.
Proof using Hch Hsize.
  intros Hx. destruct Hch as [_ _ Htl _].
  apply (tiles_order _ (size_nonneg s)) in Htl as [H1 H2]. unfold far, new, HDR in *.
  apply elem_of_app in Hx as [Hx|[->|Hx]%elem_of_cons].
  - specialize (H1 _ Hx). pose proof (size_nonneg s x). lia.
  - lia.
  - specialize (H2 _ Hx). lia.
Qed.

Lemma split_sets :
  blk ∉ l1 ∧ blk ∉ l2 ∧ NoDup l1 ∧ NoDup l2 ∧ (∀ x, x ∈ l1 → x ∉ l2) ∧
  apart l2 ∧ (∀ x, x ∈ l1 ++ l2 → far blk x) ∧ (l2 ≠ [] → hd_or 0 l2 ∈ l2).
Proof using Hch Hsize.
  pose proof (chain_apart _ _ _ _ Hch) as Hap. pose proof (chain_NoDup _ _ _ _ Hch) as Hnd.
  apply NoDup_app in Hnd as (H1 & H2 & [H3 H4]%NoDup_cons).
  split_and!; try done; try set_solver.
  - eapply apart_sub; [|exact Hap]. set_solver.
  - intros x Hx. apply Hap; set_solver.
  - apply hd_or_elem.
Qed.

Lemma split_touch : touch (split_at blk new l2) (hmem s) (hmem s').
Proof using Hch Hsize.
  destruct split_sets as (_ & _ & _ & _ & _ & Hap & _).
  unfold s', split_hdr, split_at. rewrite nz_hd by done.
  case_bool_decide; repeat (apply touch_wr; [tauto|]); apply touch_refl.
Qed.

Lemma split_keep g x :
  x ∈ l1 ++ blk :: l2 →
  ¬ (x = blk ∧ (g = F_size ∨ g = F_next)) →
  ¬ (l2 ≠ [] ∧ x = hd_or 0 l2 ∧ g = F_prev) → rd g s' x = rd g s x.
Proof using Hch Hsize.
  destruct split_sets as (Hb1 & Hb2 & _ & _ & _ & Hap & Hfar & Hh2).
  intros Hx Hng1 Hng2. eapply touch_rd; [exact split_touch|].
  intros y f [->|[[-> Hf]|(Hl & -> & ->)]]; [left; by apply split_new_far|..].
  - destruct (decide (x = blk)) as [->|]; [right; naive_solver|]. left. apply Hfar. mem.
  - specialize (Hh2 Hl). destruct (decide (hd_or 0 l2 = x)) as [<-|]; [right; naive_solver|].
    left. apply (chain_apart _ _ _ _ Hch); [mem|done|done].
Qed.

Lemma split_vars : same_vars s s' ∧ free_head s' = free_head s.
Proof. unfold s', split_hdr. destruct (nz _); by repeat split. Qed.

Lemma split_new :
  rd F_size s' new = rsz ∧ rd F_free s' new = 1 ∧ rd F_magic s' new = HEAP_MAGIC_FREE ∧
  rd F_next s' new = hd_or 0 l2 ∧ rd F_prev s' new = blk ∧
  rd F_size s' blk = size ∧ rd F_next s' blk = new ∧
  (l2 ≠ [] → rd F_prev s' (hd_or 0 l2) = new).
Proof using Hch Hsize.
  destruct split_sets as (_ & _ & _ & _ & _ & Hap & Hfar & Hh2).
  pose proof split_new_bounds. pose proof (apart_hd _ Hap).
  pose proof (split_new_far blk ltac:(set_solver)).
  assert (0 ≤ size < 2 ^ 64) by (pose proof (rd_size_range s blk); unfold HDR in *; lia).
  assert (l2 ≠ [] → far new (hd_or 0 l2)).
  { intros Hl. apply split_new_far. specialize (Hh2 Hl). mem. }
  assert (l2 ≠ [] → far blk (hd_or 0 l2)).
  { intros Hl. apply Hfar. specialize (Hh2 Hl). mem. }
  unfold s', split_hdr. rewrite nz_hd by done.
  split_and!; try intros Hl; case_bool_decide; try done; rd_simpl; done.
Qed.

Lemma split_chain : chain_ok s' lo (l1 ++ blk :: new :: l2) hi.
Proof using Hch Hsize.
  destruct split_sets as (Hb1 & Hb2 & Hn1 & Hn2 & Hd & Hap & Hfar & Hh2).
  destruct split_new as (Hrsz & _ & _ & Hnn & Hnp & Hsz & Hbn & Hpv).
  destruct Hch as [Hlo Hhi Htl Hseg]. split; [done|done| |].
  - apply tiles_app in Htl as (d & Ht1 & <- & Ht2). apply tiles_app. exists blk.
    split.
    { eapply tiles_ext; [|exact Ht1]. intros x Hx.
      apply split_keep; [mem|by intros [-> _]|by intros (_ & _ & ?)]. }
    simpl. split_and!; [done|rewrite Hsz; done|]. rewrite Hrsz.
    replace (new + HDR + rsz) with (blk + HDR + rd F_size s blk) by (unfold new, rsz; lia).
    eapply tiles_ext; [|exact Ht2]. intros x Hx.
    apply split_keep; [mem|by intros [-> _]|by intros (_ & _ & ?)].
  - apply seg_app in Hseg as (Hs1 & Hp & Hn & Hs2). apply seg_app. simpl.
    split_and!; try done.
    + eapply seg_ext; [| |exact Hs1]; intros x Hx; apply split_keep; try mem;
        try (by intros [-> _]); intros (Hl & -> & ?); by apply (Hd _ Hx), Hh2.
    + rewrite <- Hp. apply split_keep; [mem|by intros (_ & [|])|].
      intros (Hl & E & _). apply Hb2. rewrite E. by apply Hh2.
    + eapply seg_reroot; [done| | |done|exact Hs2]; intros x Hx; [|intros Hne];
        (apply split_keep; [mem|by intros [-> _]|]);
        [by intros (_ & _ & ?)|by intros (_ & ? & _)].
Qed.
End split.
