(* ===== verification/HeapLayout.v ===== *)
(** Layouts of the heap of [mem/heap.c]: a block chain together with a free list
    over it, and what unlinking, merging ([absorb_next]) and [split_block] do to
    a layout. *)
From S2P Require Import Prelude Mem Heap HeapFree HeapChain.
Import Heap.

(** * Layout: a chain and a free list over it *)

Definition is_free (s : heap) (b : Z) : Prop :=
  rd F_free s b = 1 ∧ rd F_magic s b = HEAP_MAGIC_FREE.
Definition is_alloc (s : heap) (b : Z) : Prop :=
  rd F_free s b = 0 ∧ rd F_magic s b = HEAP_MAGIC_ALLOC.

Record layout (s : heap) (lo : Z) (bs : list Z) (hi : Z) (fl : list Z) : Prop := {
  lay_chain : chain_ok s lo bs hi;
  lay_fl : fl_ok s fl;
  lay_sub : ∀ b, b ∈ fl → b ∈ bs;
  lay_free : ∀ b, b ∈ fl → is_free s b
}.

(** The writes of the list primitives: links and chain fields of the blocks
    [bs], and anything in the header of a block [new] being created. *)
Definition list_write (bs : list Z) (new : Z) (x : Z) (f : field) : Prop :=
  x = new ∨ (x ∈ bs ∧ (is_link f ∨ is_chain f)).

Lemma list_write_keep bs new s s' g c :
  touch (list_write bs new) (hmem s) (hmem s') → apart (new :: bs) →
  c ∈ bs → c ≠ new → ¬ is_link g → ¬ is_chain g → rd g s' c = rd g s c.
Proof.
  intros Ht [_ Hap] Hc Hne Hg1 Hg2. eapply touch_rd; [exact Ht|].
  intros x f [->|[Hx Hf]].
  - left. apply Hap; [mem|mem|done].
  - destruct (decide (x = c)) as [->|].
    + right. split; [done|]. intros ->. tauto.
    + left. apply Hap; [mem..|done].
Qed.

(** [f] is not one of the link or chain fields. *)
Ltac field_neq :=
  let H := fresh in unfold is_link, is_chain; intros H; decompose [or] H; discriminate.

(** * split_block *)

Lemma split_front_eq s blk newblk size remaining :
  far newblk blk → HDR ≤ remaining < 2 ^ 64 →
  split_front s blk newblk size remaining
  = split_hdr s blk newblk (rd F_next s blk) size (remaining - HDR).
Proof.
  intros Hfar Hr. unfold split_front, split_hdr. unfold HDR in *.
  rewrite (u64_small (remaining - 64)) by lia. cbn zeta.
  pose proof (rd_range F_next s blk) as Hn. cbn in Hn. rd_simpl. done.
Qed.

Lemma absorb_next_eq s b c :
  rd F_next (fl_remove s c) b = c → rd F_next s b = c → far b c →
  rd F_size (fl_remove s c) b + HDR + rd F_size (fl_remove s c) c < 2 ^ 64 →
  absorb_next s b =
  merge_hdr (fl_remove s c) b (rd F_next (fl_remove s c) c)
    (rd F_size (fl_remove s c) b + HDR + rd F_size (fl_remove s c) c).
Proof.
  intros Hn' Hn Hfar Hs. unfold absorb_next, merge_hdr. rewrite Hn. cbn zeta.
  pose proof (rd_size_range (fl_remove s c) b). pose proof (rd_size_range (fl_remove s c) c).
  pose proof (rd_range F_next (fl_remove s c) c) as Hr. cbn in Hr.
  rewrite Hn'. unfold HDR in *.
  rewrite (u64_small (64 + _)), u64_small by lia.
  rewrite Z.add_assoc. rd_simpl. rewrite Hn'. rd_simpl. done.
Qed.

(** Everything [fl_remove] does to a layout. *)
Lemma fl_remove_layout s lo bs hi f1 c f2 :
  layout s lo bs hi (f1 ++ c :: f2) →
  let s' := fl_remove s c in
  layout s' lo bs hi (f1 ++ f2) ∧ same_vars s s' ∧
  touch (λ x f, x ∈ f1 ++ c :: f2 ∧ is_link f) (hmem s) (hmem s') ∧
  (∀ g x, x ∈ bs → ¬ is_link g → rd g s' x = rd g s x).
Proof.
  intros [Hch Hfl Hsub Hfree] s'. pose proof (chain_apart _ _ _ _ Hch) as Hap.
  destruct (fl_remove_touch _ _ _ _ Hfl) as [Ht Hv].
  assert (touch (λ x f, x ∈ f1 ++ c :: f2 ∧ is_link f) (hmem s) (hmem s')) as Ht'.
  { eapply touch_mono; [|exact Ht]. unfold is_link.
    intros x f [(Hl & -> & ->)|[(Hl & -> & ->)|[-> Hf]]].
    - pose proof (last_or_elem 0 _ Hl). split; [mem|tauto].
    - pose proof (hd_or_elem 0 _ Hl). split; [mem|tauto].
    - split; [mem|done]. }
  assert (∀ g x, x ∈ bs → ¬ is_link g → rd g s' x = rd g s x) as Hkeep.
  { intros g x Hx Hg. eapply touch_rd; [exact Ht'|]. intros y f [Hy Hf].
    destruct (decide (y = x)) as [->|]; [right; split; [done|by intros ->]|].
    left. by apply Hap; [apply Hsub|..]. }
  split_and!; [|done|done|done]. split.
  - eapply chain_ok_touch; [exact Ht'| |done]. intros x f y [Hx Hf] Hy.
    destruct (decide (x = y)) as [->|]; [right|left; by apply Hap; [apply Hsub|..]].
    split; [done|]. unfold is_link, is_chain in *. by destruct Hf as [->| ->]; intros [?|[?|?]].
  - by apply fl_remove_ok.
  - intros b Hb. apply Hsub. mem.
  - intros b Hb. assert (b ∈ f1 ++ c :: f2) as Hb' by mem.
    unfold is_free. rewrite !Hkeep by (first [by apply Hsub|field_neq]).
    by apply Hfree.
Qed.

(** Everything [merge_hdr] does to a layout whose free list does not have [c]. *)
Lemma merge_hdr_layout s lo l1 b c l2 hi fl :
  layout s lo (l1 ++ b :: c :: l2) hi fl → c ∉ fl →
  let sz := rd F_size s b + HDR + rd F_size s c in
  let s' := merge_hdr s b (hd_or 0 l2) sz in
  layout s' lo (l1 ++ b :: l2) hi fl ∧ same_vars s s' ∧ rd F_size s' b = sz ∧
  touch (λ x f, x ∈ l1 ++ b :: l2 ∧ is_chain f) (hmem s) (hmem s') ∧
  (∀ x, x ∈ l1 ++ l2 → rd F_size s' x = rd F_size s x).
Proof.
  intros [Hch Hfl Hsub Hfree] Hc sz s'. pose proof (chain_apart _ _ _ _ Hch) as Hap.
  destruct (merge_vars s b c l2) as [Hv Hh]. pose proof (merge_touch _ _ _ _ _ _ _ Hch) as Ht.
  destruct (merge_new _ _ _ _ _ _ _ Hch) as (Hsz & _).
  assert (touch (λ x f, x ∈ l1 ++ b :: l2 ∧ is_chain f) (hmem s) (hmem s')) as Ht'.
  { eapply touch_mono; [|exact Ht]. unfold is_chain.
    intros x f [[-> Hf]|(Hl & -> & ->)]; [split; [mem|tauto]|].
    pose proof (hd_or_elem 0 _ Hl). split; [mem|tauto]. }
  assert (∀ x f y, x ∈ l1 ++ b :: l2 ∧ is_chain f → y ∈ fl →
            far x y ∨ (x = y ∧ is_chain f)) as Hdis.
  { intros x f y [Hx Hf] Hy. destruct (decide (x = y)) as [->|]; [by right|left].
    apply Hap; [mem|by apply Hsub|done]. }
  assert (∀ x, x ∈ l1 ++ l2 → rd F_size s' x = rd F_size s x).
  { intros x Hx. eapply merge_keep; [exact Hch|done|]. by intros (_ & _ & ?). }
  split_and!; [|done..]. split.
  - by eapply merge_chain.
  - eapply fl_ok_touch; [exact Ht'|done| |done]. intros x f y Hx Hy.
    destruct (Hdis x f y Hx Hy) as [?|[? Hf]]; [by left|right]. split; [done|].
    unfold is_link, is_chain in *. by intros [->| ->]; destruct Hf as [?|[?|?]].
  - intros x Hx. specialize (Hsub x Hx). assert (x ≠ c) by congruence. mem.
  - intros x Hx. unfold is_free. rewrite !(touch_rd _ _ _ _ x Ht').
    + by apply Hfree.
    + intros y f Hy. destruct (Hdis y f x Hy Hx) as [?|[? Hf]]; [by left|right].
      split; [done|]. unfold is_chain in Hf. by intros ->; destruct Hf as [?|[?|?]].
    + intros y f Hy. destruct (Hdis y f x Hy Hx) as [?|[? Hf]]; [by left|right].
      split; [done|]. unfold is_chain in Hf. by intros ->; destruct Hf as [?|[?|?]].
Qed.

(** Absorbing the free successor [c] of [b] removes [c] from the chain and from
    the free list. *)
Lemma absorb_next_ok s lo l1 b c l2 hi f1 f2 :
  layout s lo (l1 ++ b :: c :: l2) hi (f1 ++ c :: f2) →
  let s' := absorb_next s b in
  layout s' lo (l1 ++ b :: l2) hi (f1 ++ f2) ∧ same_vars s s' ∧
  rd F_size s' b = rd F_size s b + HDR + rd F_size s c ∧
  touch (λ x f, (x ∈ f1 ++ c :: f2 ∧ is_link f) ∨ (x ∈ l1 ++ b :: l2 ∧ is_chain f))
    (hmem s) (hmem s') ∧
  (∀ x, x ∈ l1 ++ l2 → rd F_size s' x = rd F_size s x).
Proof.
  intros Hlay s'. pose proof (lay_fl _ _ _ _ _ Hlay) as Hfl.
  assert (c ∉ f1 ++ f2) as Hc.
  { pose proof (fl_nodup _ _ Hfl) as Hnd. apply NoDup_app in Hnd as (_ & Hd & [? _]%NoDup_cons).
    intros [Hx|Hx]%elem_of_app; [|done]. apply (Hd c Hx). mem. }
  pose proof (lay_chain _ _ _ _ _ Hlay) as Hch.
  destruct (merge_sets _ _ _ _ _ _ _ Hch) as (_ & _ & Hbc & _ & _ & _ & _ & Hfar).
  pose proof (merge_size _ _ _ _ _ _ _ Hch) as Hsz.
  destruct (fl_remove_layout _ _ _ _ _ _ _ Hlay) as (Hlay' & Hv & Ht & Hkeep).
  pose proof (ch_seg _ _ _ _ Hch) as Hseg.
  apply seg_app in Hseg as (_ & _ & Hnb & _ & Hnc & _). simpl in Hnb.
  assert (s' = merge_hdr (fl_remove s c) b (hd_or 0 l2)
                 (rd F_size (fl_remove s c) b + HDR + rd F_size (fl_remove s c) c)) as Es'.
  { unfold s'. rewrite (absorb_next_eq s b c); rewrite ?Hkeep; try done; try mem;
      try field_neq; [by rewrite Hnc|apply Hfar; mem|lia]. }
  destruct (merge_hdr_layout _ _ _ _ _ _ _ _ Hlay' Hc) as (H1 & H2 & H3 & H4 & H5).
  rewrite <- Es' in *. split_and!; [done|by eapply same_vars_trans| | |].
  - rewrite H3, !Hkeep by (first [mem|field_neq]). done.
  - eapply touch_trans; (eapply touch_mono; [|eassumption]); cbn; intros x f; tauto.
  - intros x Hx. rewrite H5, Hkeep by (first [mem|field_neq]). done.
Qed.

