(* ===== verification/HeapSplit.v ===== *)
(** [split_block] of [mem/heap.c]: the leftover of an allocation becomes a free
    block of its own, merged with a free successor. *)
From S2P Require Import Prelude Mem Heap HeapFree HeapChain HeapLayout.
Import Heap.

Section split_block.
Context (s : heap) (lo : Z) (l1 : list Z) (blk : Z) (l2 : list Z) (hi : Z).
Context (fl : list Z) (size : Z).
Context (Hlay : layout s lo (l1 ++ blk :: l2) hi fl) (Hblk : blk ∉ fl).
Context (Hsize : 0 ≤ size) (Hrem : HDR + 16 < rd F_size s blk - size).
Let new := blk + HDR + size.
#[local] Abbreviation bs := (l1 ++ blk :: l2).
Let s1 := split_front s blk new size (rd F_size s blk - size).
Let s2 := fl_insert s1 new.

Lemma split_fits : 0 ≤ size ∧ size + HDR ≤ rd F_size s blk.
Proof using Hsize Hrem. unfold HDR in *. lia. Qed.

Lemma split_apart : apart (new :: bs).
Proof using Hlay Hsize Hrem.
  pose proof (lay_chain _ _ _ _ _ Hlay) as Hch.
  pose proof (chain_apart _ _ _ _ Hch) as [Ha1 Ha2].
  pose proof (split_new_bounds _ _ _ _ _ _ _ Hch split_fits) as (Hnew & _).
  pose proof (split_new_far _ _ _ _ _ _ _ Hch split_fits) as Hfar.
  split.
  - intros b [->|Hb]%elem_of_cons; [done|by apply Ha1].
  - intros b c [->|Hb]%elem_of_cons [->|Hc]%elem_of_cons Hne; [done| |apply far_sym|];
      by auto.
Qed.

Lemma split_new_notin : new ∉ bs ∧ new ∉ fl.
Proof using Hlay Hsize Hrem.
  pose proof (split_new_far _ _ _ _ _ _ _ (lay_chain _ _ _ _ _ Hlay) split_fits new) as Hfar.
  assert (new ∉ bs) by (intros Hin; by apply (far_irrefl new), Hfar).
  split; [done|]. intros Hin. by apply (lay_sub _ _ _ _ _ Hlay) in Hin.
Qed.

Lemma split_front_hdr :
  s1 = split_hdr s blk new (hd_or 0 l2) size (rd F_size s blk - size - HDR).
Proof using Hlay Hsize Hrem.
  pose proof (lay_chain _ _ _ _ _ Hlay) as Hch. pose proof (rd_size_range s blk).
  unfold s1. rewrite split_front_eq.
  - f_equal. destruct Hch as [_ _ _ Hseg]. by apply seg_app in Hseg as (_ & _ & ? & _).
  - apply (split_new_far _ _ _ _ _ _ _ Hch split_fits). mem.
  - unfold HDR in *. lia.
Qed.

Lemma split_layout1 :
  layout s1 lo (l1 ++ blk :: new :: l2) hi fl ∧ same_vars s s1 ∧
  touch (list_write bs new) (hmem s) (hmem s1).
Proof using Hlay Hsize Hrem.
  pose proof (lay_chain _ _ _ _ _ Hlay) as Hch.
  pose proof (split_touch _ _ _ _ _ _ _ Hch split_fits) as Ht.
  destruct (split_vars s blk l2 size) as [Hv Hh].
  pose proof (split_chain _ _ _ _ _ _ _ Hch split_fits) as Hch1.
  rewrite split_front_hdr. set (s1' := split_hdr _ _ _ _ _ _).
  destruct split_apart as [_ Hap]. destruct split_new_notin as [Hn1 Hn2].
  assert (touch (list_write bs new) (hmem s) (hmem s1')) as Ht'.
  { eapply touch_mono; [|exact Ht]. unfold list_write, is_chain.
    intros x f [->|[[-> Hf]|(Hl & -> & ->)]]; [by left|right; split; [mem|tauto]|].
    right. pose proof (hd_or_elem 0 _ Hl). split; [mem|tauto]. }
  assert (∀ g x, x ∈ fl → ¬ is_chain g → rd g s1' x = rd g s x) as Hkeep.
  { intros g x Hx Hg. eapply touch_rd; [exact Ht|].
    pose proof (lay_sub _ _ _ _ _ Hlay x Hx) as Hxb.
    intros y f [->|Hy]; [left; change (far new x); apply Hap; [mem|mem|congruence]|].
    assert (y ∈ bs ∧ is_chain f) as [Hyb Hf].
    { unfold is_chain. destruct Hy as [[-> Hf]|(Hl & -> & ->)]; [split; [mem|tauto]|].
      pose proof (hd_or_elem 0 _ Hl). split; [mem|tauto]. }
    destruct (decide (y = x)) as [->|]; [right; split; [done|by intros ->]|].
    left. apply Hap; [mem..|done]. }
  split_and!; [|done|done]. split; [done| | |].
  - destruct (lay_fl _ _ _ _ _ Hlay) as [F1 F2 F3 F4]. split; [done|done| |by etrans; [exact Hh|]].
    eapply seg_ext; [| |exact F3]; intros; apply Hkeep; try done; field_neq.
  - intros x Hx. apply (lay_sub _ _ _ _ _ Hlay) in Hx. mem.
  - intros x Hx. unfold is_free. rewrite !Hkeep by (done || field_neq).
    by apply (lay_free _ _ _ _ _ Hlay).
Qed.

Lemma split_new1 :
  is_free s1 new ∧ rd F_next s1 new = hd_or 0 l2 ∧ rd F_size s1 blk = size ∧
  (∀ x, x ∈ l1 ++ l2 → rd F_size s1 x = rd F_size s x).
Proof using Hlay Hsize Hrem.
  pose proof (lay_chain _ _ _ _ _ Hlay) as Hch. rewrite split_front_hdr.
  destruct (split_new _ _ _ _ _ _ _ Hch split_fits) as (_ & H1 & H2 & H3 & _ & H4 & _).
  destruct (split_sets _ _ _ _ _ _ _ Hch split_fits) as (Hb1 & Hb2 & _).
  split_and!; try done. intros x Hx.
  apply (split_keep _ _ _ _ _ _ _ Hch split_fits); [mem| |by intros (_ & _ & ?)].
  intros [-> _]. mem.
Qed.

Lemma split_layout2 :
  layout s2 lo (l1 ++ blk :: new :: l2) hi (new :: fl) ∧ same_vars s s2 ∧
  touch (list_write bs new) (hmem s) (hmem s2) ∧
  (∀ g x, x ∈ new :: bs → ¬ is_link g → rd g s2 x = rd g s1 x).
Proof using Hlay Hsize Hrem.
  destruct split_layout1 as ([Hch1 Hfl1 Hsub1 Hfree1] & Hv1 & Ht1).
  destruct split_new1 as (Hf & _). destruct split_apart as [Hpos Hap].
  destruct split_new_notin as [Hn1 Hn2].
  destruct (fl_insert_ok s1 fl new Hfl1) as (Hfl2 & Hv2 & Ht2).
  { apply Hpos. mem. }
  { intros c Hc. pose proof (lay_sub _ _ _ _ _ Hlay c Hc). apply Hap; [mem|mem|congruence]. }
  fold s2 in Hfl2, Hv2, Ht2.
  assert (∀ g x, x ∈ new :: bs → ¬ is_link g → rd g s2 x = rd g s1 x) as Hkeep.
  { intros g x Hx Hg. eapply touch_rd; [exact Ht2|]. intros y f [Hy Hf'].
    destruct (decide (y = x)) as [->|]; [right; split; [done|by intros ->]|left].
    pose proof (λ H, lay_sub _ _ _ _ _ Hlay y H). apply Hap; [mem|done|done]. }
  split_and!; [|by eapply same_vars_trans| |done].
  - split; [|done| |].
    + eapply chain_ok_touch; [exact Ht2| |exact Hch1]. intros x f y [Hx Hf'] Hy.
      destruct (decide (x = y)) as [->|]; [right|left].
      * split; [done|]. destruct Hf' as [->| ->]; field_neq.
      * pose proof (λ H, lay_sub _ _ _ _ _ Hlay x H). apply Hap; [mem|mem|done].
    + intros x [->|Hx]%elem_of_cons; [mem|by apply Hsub1].
    + intros x Hx. unfold is_free. pose proof (λ H, lay_sub _ _ _ _ _ Hlay x H).
      rewrite !Hkeep by (first [mem|field_neq]).
      apply elem_of_cons in Hx as [->|Hx]; [done|by apply Hfree1].
  - eapply touch_trans; [exact Ht1|]. eapply touch_mono; [|exact Ht2].
    unfold list_write. intros x f [[->|Hx] Hf']; [by left|right].
    split; [|tauto]. by apply (lay_sub _ _ _ _ _ Hlay).
Qed.
End split_block.

(** The tail of [split_block]: the new block absorbs its free successor. *)
Lemma split_merge_ok s lo l1 blk new n r hi fl :
  layout s lo (l1 ++ blk :: new :: n :: r) hi (new :: fl) → n ∈ fl → blk ∉ new :: fl → n ≠ new →
  let s' := absorb_next s new in
  ∃ fl', layout s' lo (l1 ++ blk :: new :: r) hi fl' ∧ same_vars s s' ∧
    (∀ x, x ∈ fl' ↔ x = new ∨ (x ∈ fl ∧ x ∉ [n])) ∧
    touch (λ x f, x ∈ l1 ++ blk :: new :: n :: r ∧ (is_link f ∨ is_chain f)) (hmem s) (hmem s') ∧
    (∀ x, x ∈ l1 ++ blk :: r → rd F_size s' x = rd F_size s x).
Proof.
  intros Hlay (f1 & f2 & ->)%list_elem_of_split Hblk Hnn s'.
  replace (l1 ++ blk :: new :: n :: r) with ((l1 ++ [blk]) ++ new :: n :: r) in *
    by (by rewrite <- app_assoc).
  destruct (absorb_next_ok s lo _ new n r hi (new :: f1) f2 Hlay) as (H1 & H2 & _ & H3 & H4).
  rewrite <- app_assoc in H1. exists ((new :: f1) ++ f2). split_and!; try done.
  3: intros x Hx; apply H4; mem.
  - pose proof (fl_nodup _ _ (lay_fl _ _ _ _ _ Hlay)) as Hnd.
    apply NoDup_cons in Hnd as [_ (_ & Hd & [Hn2 _]%NoDup_cons)%NoDup_app].
    assert (n ∉ f1) by (intros Hn; apply (Hd n Hn); mem).
    intros x. rewrite list_elem_of_singleton. destruct (decide (x = n)) as [->|]; [|mem].
    split; [|tauto]. intros Hx. mem.
  - eapply touch_mono; [|exact H3]. intros x f [[Hx Hf]|[Hx Hf]]; (split; [|tauto]); [|mem].
    by apply (lay_sub _ _ _ _ _ Hlay).
Qed.

(** The two outcomes of [split_block]: the block was too small to split, or a
    new free block [new] follows it, having swallowed the free successor [mid]. *)
Definition split_none (s s' : heap) (l2 tl fl fl' : list Z) : Prop :=
  s' = s ∧ tl = l2 ∧ fl' = fl.
Definition split_some (s s' : heap) (l1 : list Z) (blk size : Z) (l2 tl fl fl' : list Z) : Prop :=
  let new := blk + HDR + size in
  ∃ mid rest, l2 = mid ++ rest ∧ tl = new :: rest ∧
    touch (list_write (l1 ++ blk :: l2) new) (hmem s) (hmem s') ∧
    rd F_size s' blk = size ∧ is_free s' new ∧
    (∀ x, x ∈ l1 ++ rest → rd F_size s' x = rd F_size s x) ∧
    (∀ x, x ∈ fl' ↔ x = new ∨ (x ∈ fl ∧ x ∉ mid)) ∧
    ((∃ n, mid = [n] ∧ is_free s n) ∨ (mid = [] ∧ ∀ n r, rest = n :: r → is_alloc s n)).

Lemma split_block_ok s lo l1 blk l2 hi fl size :
  layout s lo (l1 ++ blk :: l2) hi fl → blk ∉ fl → 0 ≤ size ≤ rd F_size s blk →
  (∀ b, b ∈ l2 → (is_free s b ∧ b ∈ fl) ∨ is_alloc s b) →
  let s' := split_block s blk size in
  ∃ tl fl', layout s' lo (l1 ++ blk :: tl) hi fl' ∧ same_vars s s' ∧ blk ∉ fl' ∧
    ((split_none s s' l2 tl fl fl' ∧ rd F_size s blk - size ≤ HDR + 16) ∨
     (split_some s s' l1 blk size l2 tl fl fl' ∧ HDR + 16 < rd F_size s blk - size)).
Proof.
  intros Hlay Hblk Hsize Hst s'. pose proof (lay_chain _ _ _ _ _ Hlay) as Hch.
  pose proof (rd_size_range s blk) as Hsz.
  pose proof (chain_bounds _ _ _ _ Hch blk ltac:(mem)) as Hbd.
  unfold s', split_block. rewrite (u64_small (rd F_size s blk - size)) by lia.
  destruct (Z.leb_spec (rd F_size s blk - size) (HDR + 16)) as [Hle|Hgt].
  { exists l2, fl. split_and!; [done|auto with axon|done|]. by left. }
  assert (blk +u HDR +u size = blk + HDR + size) as ->.
  { destruct Hch. unfold HDR in *. rewrite (u64_small (blk + 64)), u64_small; lia. }
  pose proof (split_layout2 _ _ _ _ _ _ _ _ Hlay (proj1 Hsize) Hgt) as (Hlay2 & Hv2 & Ht2 & Hk2).
  destruct (split_new1 _ _ _ _ _ _ _ _ Hlay (proj1 Hsize) Hgt) as (Hf1 & Hn1 & Hb1 & Hk1).
  destruct (split_new_notin _ _ _ _ _ _ _ _ Hlay (proj1 Hsize) Hgt) as [Hnb Hnf].
  pose proof (split_apart _ _ _ _ _ _ _ _ Hlay (proj1 Hsize) Hgt) as Hap.
  set (new := blk + HDR + size) in *.
  set (s2 := fl_insert _ _) in *. cbn zeta.
  assert (rd F_size s2 blk = size) as Hs2 by (rewrite Hk2; [done|mem|field_neq]).
  assert (∀ x, x ∈ l1 ++ l2 → rd F_size s2 x = rd F_size s x) as Hz2.
  { intros x Hx. rewrite Hk2; [by apply Hk1|mem|field_neq]. }
  assert (is_free s2 new) as Hf2 by (unfold is_free; by rewrite !Hk2 by (first [mem|field_neq])).
  assert (rd F_next s2 new = hd_or 0 l2) as -> by (rewrite Hk2; [done|mem|field_neq]).
  assert (∀ n, n ∈ l2 → rd F_free s2 n = rd F_free s n ∧ rd F_magic s2 n = rd F_magic s n) as Hkn.
  { intros n Hn. assert (n ≠ new) by (intros ->; apply Hnb; mem).
    split; (eapply list_write_keep; [exact Ht2|done|mem|done|field_neq..]). }
  assert (blk ∉ new :: fl) as Hblk2.
  { intros [E|?]%elem_of_cons; [|done]. apply Hnb. rewrite <- E. mem. }
  destruct l2 as [|n r]; simpl.
  { exists [new], (new :: fl). split_and!; [done..|right]. split; [|done].
    exists [], []. split_and!; try done; [set_solver|]. right. split; [done|]. by intros ??. }
  destruct (Hkn n ltac:(mem)) as [-> ->]. rewrite (proj2 (nz_true n)).
  2:{ pose proof (proj1 (chain_apart _ _ _ _ Hch) n ltac:(mem)). lia. }
  destruct (Hst n ltac:(mem)) as [[[E1 E2] Hnfl]|[E1 E2]]; rewrite E1, E2; simpl.
  - destruct (split_merge_ok _ _ _ _ _ _ _ _ _ Hlay2 Hnfl Hblk2) as (fl' & Hl3 & Hv3 & Hf & Ht3 & Hz3).
    { intros ->. apply Hnb. mem. }
    exists (new :: r), fl'. split_and!; [done|by eapply same_vars_trans| |right; split; [|done]].
    { rewrite Hf, not_elem_of_cons in *. tauto. }
    exists [n], r. split_and!; try done; [|by rewrite Hz3 by mem| | |left; by exists n].
    + eapply touch_trans; [exact Ht2|]. eapply touch_mono; [|exact Ht3].
      unfold list_write. intros x f [Hx Hx']. destruct (decide (x = new)); [by left|right].
      split; [mem|done].
    + apply (lay_free _ _ _ _ _ Hl3), Hf. tauto.
    + intros x Hx. rewrite Hz3 by mem. apply Hz2. mem.
  - exists (new :: n :: r), (new :: fl). split_and!; [done..|right; split; [|done]].
    exists [], (n :: r). split_and!; try done; [set_solver|]. right. split; [done|].
    by intros ?? [= <- <-].
Qed.
