(* ===== verification/HeapSpec.v ===== *)
(** The heap invariant of [mem/heap.c], initialisation, and the allocation half
    of the allocator contract: what [kmalloc_nolock] promises to its clients. *)
From S2P Require Import Prelude Mem Heap HeapFree HeapChain HeapLayout HeapSplit.
Import Heap.

(** No two neighbours are both free. *)
Definition coalesced (s : heap) (bs : list Z) : Prop :=
  adj (λ b c, ¬ (is_free s b ∧ is_free s c)) bs.

Record heap_inv (s : heap) (bs fl : list Z) : Prop := {
  hi_lay : layout s (heap_base s) bs (heap_base s + heap_capacity s) fl;
  hi_head : head s = heap_base s;
  hi_st : ∀ b, b ∈ bs → (is_free s b ∧ b ∈ fl) ∨ is_alloc s b;
  hi_coal : coalesced s bs;
  hi_req : ∀ b, b ∈ bs → is_alloc s b → rd F_req_size s b + 8 ≤ rd F_size s b;
  hi_align : ∀ b, b ∈ bs → (b - heap_base s) `mod` 16 = 0
}.

(** The client's view: [owns s bs p n] is a live allocation of [n] bytes. *)
Definition owns (s : heap) (bs : list Z) (p n : Z) : Prop :=
  p - HDR ∈ bs ∧ is_alloc s (p - HDR) ∧ rd F_req_size s (p - HDR) = n.

(** Payload bytes of the live allocation [p] of [n] bytes, canary included. *)
Definition same_data (s s' : heap) (p n : Z) : Prop :=
  ∀ a, p ≤ a < p + n + 8 → ldb (hmem s') a = ldb (hmem s) a.

Lemma not_both s b : is_free s b → is_alloc s b → False.
Proof. unfold is_free, is_alloc. lia. Qed.

Lemma inv_chain s bs fl :
  heap_inv s bs fl → chain_ok s (heap_base s) bs (heap_base s + heap_capacity s).
Proof. intros H. apply (lay_chain _ _ _ _ _ (hi_lay _ _ _ H)). Qed.

Lemma inv_free_iff s bs fl b : heap_inv s bs fl → b ∈ bs → b ∈ fl ↔ is_free s b.
Proof.
  intros H Hb. split; [apply (lay_free _ _ _ _ _ (hi_lay _ _ _ H))|].
  intros Hf. destruct (hi_st _ _ _ H b Hb) as [[_ ?]|Ha]; [done|].
  by destruct (not_both s b).
Qed.

(** The invariant reads only block headers (not [alloc_caller], and [req_size]
    of live blocks only) and the base,
    capacity, head and free-list variables. *)
Lemma heap_inv_ext s s' bs fl :
  heap_base s' = heap_base s → heap_capacity s' = heap_capacity s →
  head s' = head s → free_head s' = free_head s →
  (∀ f x, x ∈ bs → f ≠ F_alloc_caller → (f = F_req_size → is_alloc s x) →
     rd f s' x = rd f s x) →
  heap_inv s bs fl → heap_inv s' bs fl.
Proof.
  intros Hb Hc Hh Hfh Hrd [[[L1 L2 L3 L4] [F1 F2 F3 F4] HL3 HL4] H2 H3 H4 H5 H6].
  assert (∀ x, x ∈ bs → (is_free s' x ↔ is_free s x) ∧ (is_alloc s' x ↔ is_alloc s x)) as Hst.
  { intros x Hx. unfold is_free, is_alloc. by rewrite !Hrd by done. }
  split; rewrite ?Hb, ?Hc, ?Hh; try done.
  - split; [split|split| |]; try done; try congruence.
    + eapply tiles_ext; [|done]. intros; by apply Hrd.
    + eapply seg_ext; [| |done]; intros; by apply Hrd.
    + eapply seg_ext; [| |done]; intros; apply Hrd; done || auto.
    + intros x Hx. apply Hst; auto.
  - intros x Hx. destruct (Hst x Hx) as [-> ->]. auto.
  - eapply adj_impl; [|exact H4]. simpl. intros b c Hxb Hxc.
    by rewrite (proj1 (Hst b Hxb)), (proj1 (Hst c Hxc)).
  - intros x Hx. rewrite (proj2 (Hst x Hx)). intros Ha. rewrite !Hrd by done. auto.
Qed.

(** A store into the payload of a block leaves every header alone. *)
Lemma payload_rd s lo bs hi m' b f x :
  chain_ok s lo bs hi → b ∈ bs → x ∈ bs →
  (∀ a, ¬ (b + HDR ≤ a < b + HDR + rd F_size s b) → ldb m' a = ldb (hmem s) a) →
  rd f (set_mem s m') x = rd f s x.
Proof.
  intros Hch Hb Hx Hm. unfold rd, hget. apply ld_ext. intros a Ha. apply Hm.
  pose proof (foff_range f).
  destruct (decide (x = b)) as [->|Hne]; [lia|].
  pose proof (ch_tiles _ _ _ _ Hch) as Ht.
  destruct (tiles_apart _ (size_nonneg s) _ _ _ _ _ Ht Hx Hb Hne); [|lia].
  pose proof (size_nonneg s x). lia.
Qed.

(** * Initialisation *)

Lemma heap_init_layout ke m start size :
  0 < start → HDR ≤ size → start + size < 2 ^ 64 →
  let s := heap_init ke m start size in
  rd F_size s start = size - HDR ∧ rd F_next s start = 0 ∧ rd F_prev s start = 0 ∧
  rd F_free_next s start = 0 ∧ rd F_free_prev s start = 0 ∧ is_free s start ∧
  heap_base s = start ∧ heap_capacity s = size.
Proof.
  intros H1 H2 H3 s. unfold HDR in *.
  assert (s = MkHeap start size start start start 0 0 (hmem s)) as Es.
  { unfold s, heap_init. destruct (Z.eqb_spec start 0); [lia|].
    destruct (Z.eqb_spec size 0); [lia|]. done. }
  set (s0 := MkHeap start size start start start 0 0 m).
  assert (s = wr F_free_prev (wr F_free_next (wr F_alloc_caller (wr F_req_size
                (wr F_magic (wr F_free (wr F_prev (wr F_next (wr F_size s0 start (size - 64))
                 start 0) start 0) start 1) start HEAP_MAGIC_FREE) start 0) start 0)
                start 0) start 0) as ->.
  { unfold s, heap_init. destruct (Z.eqb_spec start 0); [lia|].
    destruct (Z.eqb_spec size 0); [lia|]. unfold HDR.
    rewrite (u64_small (size - 64)) by lia. done. }
  unfold is_free. split_and!; try (rd_simpl; done); done.
Qed.

Lemma heap_init_inv ke m start size :
  0 < start → HDR ≤ size → start + size < 2 ^ 64 →
  heap_inv (heap_init ke m start size) [start] [start].
Proof.
  intros H1 H2 H3.
  destruct (heap_init_layout ke m start size H1 H2 H3)
    as (Hsz & Hn & Hp & Hfn & Hfp & Hf & Hb & Hc).
  set (s := heap_init ke m start size) in *.
  assert (head s = start ∧ free_head s = start) as [Hh Hfh].
  { unfold s, heap_init. destruct (Z.eqb_spec start 0); [lia|]. done. }
  assert (∀ b, b ∈ [start] → b = start) as Hin by (intros b; rewrite list_elem_of_singleton; done).
  split; rewrite ?Hb, ?Hc; try done.
  - split; [split|split| |].
    + lia.
    + lia.
    + simpl. rewrite Hsz. split; [done|lia].
    + done.
    + apply NoDup_singleton.
    + split; [intros b ->%Hin; unfold HDR in *; lia|]. by intros b c ->%Hin ->%Hin.
    + done.
    + done.
    + done.
    + by intros b ->%Hin.
  - intros b ->%Hin. left. split; [done|mem].
  - intros b ->%Hin Ha. by destruct (not_both s start).
  - intros b ->%Hin. by rewrite Z.sub_diag.
Qed.

(** * One block in transition

    [inv_except s bs fl blk] is the invariant with the status of the one block
    that an operation is working on left open. *)
Record inv_except (s : heap) (bs fl : list Z) (blk : Z) : Prop := {
  ie_lay : layout s (heap_base s) bs (heap_base s + heap_capacity s) fl;
  ie_head : head s = heap_base s;
  ie_in : blk ∈ bs;
  ie_out : blk ∉ fl;
  ie_st : ∀ b, b ∈ bs → b ≠ blk → (is_free s b ∧ b ∈ fl) ∨ is_alloc s b;
  ie_coal : adj (λ b c, b ≠ blk → c ≠ blk → ¬ (is_free s b ∧ is_free s c)) bs;
  ie_req : ∀ b, b ∈ bs → b ≠ blk → is_alloc s b → rd F_req_size s b + 8 ≤ rd F_size s b;
  ie_align : ∀ b, b ∈ bs → (b - heap_base s) `mod` 16 = 0
}.

(** Every live allocation other than the one at [blk] is left alone. *)
Definition others (s s' : heap) (bs bs' : list Z) (blk : Z) : Prop :=
  (∀ p n, p ≠ blk + HDR → owns s' bs' p n ↔ owns s bs p n) ∧
  (∀ p n, p ≠ blk + HDR → owns s bs p n →
     same_data s s' p n ∧ rd F_size s' (p - HDR) = rd F_size s (p - HDR)).

Lemma others_refl s bs blk : others s s bs bs blk.
Proof. done. Qed.
Lemma others_trans s1 s2 s3 bs1 bs2 bs3 blk :
  others s1 s2 bs1 bs2 blk → others s2 s3 bs2 bs3 blk → others s1 s3 bs1 bs3 blk.
Proof.
  intros [A1 B1] [A2 B2]. split.
  - intros p n Hp. rewrite A2, A1 by done. done.
  - intros p n Hp Ho. destruct (B1 p n Hp Ho) as [D1 E1].
    destruct (B2 p n Hp (proj2 (A1 p n Hp) Ho)) as [D2 E2]. split; [|congruence].
    intros a Ha. by rewrite D2, D1.
Qed.

Lemma inv_finish s bs fl blk :
  inv_except s bs fl blk → is_alloc s blk → rd F_req_size s blk + 8 ≤ rd F_size s blk →
  heap_inv s bs fl.
Proof.
  intros [H1 H2 H3 H4 H5 H6 H7 H8] Ha Hr. split; try done.
  - intros b Hb. destruct (decide (b = blk)) as [->|]; [by right|auto].
  - eapply adj_impl; [|exact H6]. simpl. intros b c _ _ Hbc [Hfb Hfc]. apply Hbc; [| |done].
    + intros ->. by apply (not_both s blk).
    + intros ->. by apply (not_both s blk).
  - intros b Hb. destruct (decide (b = blk)) as [->|]; auto.
Qed.

Lemma inv_open s bs fl blk :
  heap_inv s bs fl → blk ∈ bs → is_alloc s blk → inv_except s bs fl blk.
Proof.
  intros Hinv Hb Ha. pose proof Hinv as [H1 H2 H3 H4 H5 H6]. split; try done; eauto.
  2:{ eapply adj_impl; [|exact H4]. by intros b c _ _ Hbc _ _. }
  intros Hin. apply (inv_free_iff _ _ _ _ Hinv Hb) in Hin. by apply (not_both s blk).
Qed.

Lemma hdr_not_in_payload s lo bs hi b x a :
  chain_ok s lo bs hi → b ∈ bs → x ∈ bs →
  b + HDR ≤ a < b + HDR + rd F_size s b → ¬ (x ≤ a < x + HDR).
Proof.
  intros Hch Hb Hx Ha. destruct (decide (x = b)) as [->|Hne]; [lia|].
  pose proof (ch_tiles _ _ _ _ Hch) as Ht.
  destruct (tiles_apart _ (size_nonneg s) _ _ _ _ _ Ht Hx Hb Hne); [|lia].
  pose proof (size_nonneg s x). lia.
Qed.

(** Writes to headers and to a header inside [blk]'s payload keep the bytes of
    every other block's payload. *)
Lemma touch_same_data P s s' lo bs hi b p n :
  chain_ok s lo bs hi → touch P (hmem s) (hmem s') → b ∈ bs →
  (∀ x f, P x f → x ∈ bs ∨ (b + HDR ≤ x ∧ x + HDR ≤ b + HDR + rd F_size s b)) →
  p - HDR ∈ bs → p - HDR ≠ b → n + 8 ≤ rd F_size s (p - HDR) →
  same_data s s' p n.
Proof.
  intros Hch Ht Hb HP Hp Hne Hn a Ha. eapply touch_payload; [exact Ht|].
  intros x f Hx. destruct (HP x f Hx) as [Hxb|Hxb].
  - eapply hdr_not_in_payload; [exact Hch|exact Hp|done|lia].
  - destruct (tiles_apart _ (size_nonneg s) _ _ _ _ _ (ch_tiles _ _ _ _ Hch) Hp Hb Hne); lia.
Qed.

Section split_inv.
Context (s s' : heap) (l1 : list Z) (blk size : Z) (mid rest fl fl' : list Z).
Let new := blk + HDR + size.
#[local] Abbreviation bs := (l1 ++ blk :: mid ++ rest).
#[local] Abbreviation bs' := (l1 ++ blk :: new :: rest).
Context (Hie : inv_except s bs fl blk) (Hsz : 0 ≤ size) (H16 : size `mod` 16 = 0).
Context (Hfit : HDR + 16 < rd F_size s blk - size).
Context (Hlay' : layout s' (heap_base s) bs' (heap_base s + heap_capacity s) fl').
Context (Hv : same_vars s s') (Hout : blk ∉ fl').
Context (Ht : touch (list_write bs new) (hmem s) (hmem s')).
Context (Hbsz : rd F_size s' blk = size) (Hnew : is_free s' new).
Context (Hsizes : ∀ x, x ∈ l1 ++ rest → rd F_size s' x = rd F_size s x).
Context (Hfl' : ∀ x, x ∈ fl' ↔ x = new ∨ (x ∈ fl ∧ x ∉ mid)).
Context (Hmid : (∃ n, mid = [n] ∧ is_free s n) ∨ (mid = [] ∧ ∀ n r, rest = n :: r → is_alloc s n)).

Lemma si_sets : new ∉ bs ∧ apart (new :: bs) ∧ (∀ x, x ∈ l1 ++ rest → x ≠ blk ∧ x ∉ mid).
Proof using All.
  pose proof (ie_lay _ _ _ _ Hie) as Hlay. split_and!.
  - by apply (split_new_notin _ _ _ _ _ _ _ _ Hlay Hsz Hfit).
  - apply (split_apart _ _ _ _ _ _ _ _ Hlay Hsz Hfit).
  - pose proof (chain_NoDup _ _ _ _ (lay_chain _ _ _ _ _ Hlay)) as Hnd.
    apply NoDup_app in Hnd as (_ & Hd & [Hb Hnd]%NoDup_cons).
    apply NoDup_app in Hnd as (_ & Hd2 & _).
    intros x [Hx|Hx]%elem_of_app.
    + specialize (Hd x Hx). split; intros ?; apply Hd; [subst|]; mem.
    + split; [intros ->; apply Hb; mem|]. intros Hm. by apply (Hd2 x Hm).
Qed.

Lemma si_keep g x : x ∈ bs → ¬ is_link g → ¬ is_chain g → rd g s' x = rd g s x.
Proof using All.
  destruct si_sets as (Hn & Hap & _). intros Hx. eapply list_write_keep; [exact Ht|done..|].
  by intros ->.
Qed.

Lemma si_status x : x ∈ bs →
  (is_free s' x ↔ is_free s x) ∧ (is_alloc s' x ↔ is_alloc s x) ∧
  rd F_req_size s' x = rd F_req_size s x.
Proof using All.
  intros Hx. unfold is_free, is_alloc. rewrite !si_keep by (done || field_neq). done.
Qed.

Lemma si_alloc x : x ≠ blk → (x ∈ bs' ∧ is_alloc s' x) ↔ (x ∈ bs ∧ is_alloc s x).
Proof using All.
  intros Hne. split.
  - intros [Hx Ha]. assert (x ≠ new) by (intros ->; by apply (not_both s' new)).
    assert (x ∈ bs) as Hxb by mem. split; [done|]. by apply si_status.
  - intros [Hx Ha]. assert (x ∉ mid).
    { destruct Hmid as [(n & -> & Hn)|[-> _]]; [|set_solver].
      rewrite list_elem_of_singleton. intros ->. by apply (not_both s n). }
    split; [mem|by apply si_status].
Qed.

Lemma si_others : others s s' bs bs' blk.
Proof using All.
  split; intros p n Hp.
  - unfold owns. assert (p - HDR ≠ blk) by lia.
    pose proof (si_alloc (p - HDR) ltac:(done)) as Hsi.
    split; intros (H1 & H2 & <-).
    + assert (p - HDR ∈ bs ∧ is_alloc s (p - HDR)) as [H3 H4] by (by apply Hsi).
      split_and!; [done..|]. symmetry. by apply si_status.
    + assert (p - HDR ∈ bs' ∧ is_alloc s' (p - HDR)) as [H3 H4] by (by apply Hsi).
      split_and!; [done..|]. by apply si_status.
  - intros (H1 & H2 & <-). split.
    2:{ assert (p - HDR ≠ blk) as Hnb by lia.
        destruct (proj2 (si_alloc (p - HDR) Hnb) (conj H1 H2)) as [Hin Ha'].
        assert (p - HDR ≠ new) by (intros E; rewrite E in Ha'; by apply (not_both s' new)).
        apply Hsizes. mem. }
    eapply touch_same_data.
    + apply (lay_chain _ _ _ _ _ (ie_lay _ _ _ _ Hie)).
    + exact Ht.
    + apply (ie_in _ _ _ _ Hie).
    + intros x f [->|[Hx _]]; [right|by left]. unfold new, HDR in *. lia.
    + done.
    + lia.
    + apply (ie_req _ _ _ _ Hie); [done|lia|done].
Qed.

Lemma si_coal : adj (λ b c, b ≠ blk → c ≠ blk → ¬ (is_free s' b ∧ is_free s' c)) bs'.
Proof using All.
  pose proof (ie_coal _ _ _ _ Hie) as Hc. apply adj_app in Hc as [Hc1 Hc2].
  assert (∀ b c, b ∈ bs → c ∈ bs →
    (b ≠ blk → c ≠ blk → ¬ (is_free s b ∧ is_free s c)) →
    b ≠ blk → c ≠ blk → ¬ (is_free s' b ∧ is_free s' c)) as Hm.
  { intros b c Hb Hc'. destruct (si_status b Hb) as [-> _], (si_status c Hc') as [-> _]. done. }
  apply adj_app. split; [eapply adj_impl; [|exact Hc1]; intros b c Hb Hc; refine (Hm b c _ _); mem|].
  simpl. split; [done|].
  assert (rest = [] ∨ ∃ n' r, rest = n' :: r) as [Er|(n' & r & Er)]
    by (destruct rest; eauto); [by rewrite Er|].
  rewrite Er in Hc2 |- *. split.
  - intros _ Hn' [_ Hf]. destruct (si_status n' ltac:(rewrite Er; mem)) as [Hs _].
    apply Hs in Hf. destruct Hmid as [(n & Em & Hfn)|[Em Ha]].
    + rewrite Em in Hc2. destruct Hc2 as (_ & Hnn & _). apply Hnn; [|done|done].
      intros ->. pose proof (chain_NoDup _ _ _ _ (lay_chain _ _ _ _ _ (ie_lay _ _ _ _ Hie))) as Hnd.
      rewrite Em in Hnd. apply NoDup_app in Hnd as (_ & _ & [Hd _]%NoDup_cons). apply Hd. mem.
    + apply (not_both s n'); [done|]. by apply (Ha n' r).
  - apply (adj_tail _ blk), (adj_app _ mid n' r) in Hc2 as [_ Hc2].
    eapply adj_impl; [|exact Hc2]. intros b c Hb Hc. refine (Hm b c _ _); rewrite Er; mem.
Qed.

Lemma si_except : inv_except s' bs' fl' blk.
Proof using All.
  destruct Hv as (V1 & V2 & V3 & _). destruct si_sets as (Hn & _ & Hx).
  assert (∀ x, x ∈ bs' → x ≠ blk → x = new ∨ (x ∈ l1 ++ rest ∧ x ∈ bs)) as Hsplit.
  { intros x Hxin Hne. mem. }
  split; rewrite ?V1, ?V2, ?V3; try done.
  - apply (ie_head _ _ _ _ Hie).
  - mem.
  - intros x Hx' Hne. destruct (Hsplit x Hx' Hne) as [->|[Hxr Hxb]].
    + left. split; [done|]. apply Hfl'. tauto.
    + destruct (si_status x Hxb) as (-> & -> & _). destruct (Hx x Hxr) as [_ Hm].
      destruct (ie_st _ _ _ _ Hie x Hxb Hne) as [[? ?]|?]; [left|by right].
      split; [done|]. apply Hfl'. tauto.
  - apply si_coal.
  - intros x Hx' Hne Ha. destruct (Hsplit x Hx' Hne) as [->|[Hxr Hxb]];
      [by destruct (not_both s' new)|].
    destruct (si_status x Hxb) as (_ & Hs & ->). rewrite Hsizes by done.
    apply (ie_req _ _ _ _ Hie); [done|done|]. by apply Hs.
  - intros x Hx'. destruct (decide (x = blk)) as [->|Hne]; [apply (ie_align _ _ _ _ Hie); mem|].
    destruct (Hsplit x Hx' Hne) as [->|[_ Hxb]]; [|by apply (ie_align _ _ _ _ Hie)].
    pose proof (ie_align _ _ _ _ Hie blk ltac:(mem)) as Hal. unfold new, HDR.
    replace (blk + 64 + size - heap_base s) with ((blk - heap_base s) + size + 4 * 16) by lia.
    rewrite Z.mod_add by lia. rewrite Z.add_mod, Hal, H16 by lia. done.
Qed.
End split_inv.

(** [split_block] on a block in transition: the block keeps at least [size]
    bytes and its first [size] payload bytes; no other allocation changes. *)
Lemma split_inv s l1 blk l2 fl size :
  inv_except s (l1 ++ blk :: l2) fl blk → 0 ≤ size ≤ rd F_size s blk → size `mod` 16 = 0 →
  let s' := split_block s blk size in
  ∃ tl fl',
    inv_except s' (l1 ++ blk :: tl) fl' blk ∧ same_vars s s' ∧
    others s s' (l1 ++ blk :: l2) (l1 ++ blk :: tl) blk ∧
    (rd F_size s' blk = size ∨
     (rd F_size s' blk = rd F_size s blk ∧ rd F_size s blk ≤ size + HDR + 16)) ∧
    (∀ f, ¬ is_link f → ¬ is_chain f → rd f s' blk = rd f s blk) ∧
    (∀ a, blk + HDR ≤ a < blk + HDR + size → ldb (hmem s') a = ldb (hmem s) a).
Proof.
  intros Hie Hsz H16 s'. pose proof (ie_lay _ _ _ _ Hie) as Hlay.
  destruct (split_block_ok s _ l1 blk l2 _ fl size Hlay (ie_out _ _ _ _ Hie) Hsz)
    as (tl & fl' & Hlay' & Hv & Hout & Hcase).
  { intros b Hb. apply (ie_st _ _ _ _ Hie); [mem|]. intros ->.
    pose proof (chain_NoDup _ _ _ _ (lay_chain _ _ _ _ _ Hlay)) as Hnd.
    by apply NoDup_app in Hnd as (_ & _ & [Hd _]%NoDup_cons). }
  fold s' in Hlay', Hv, Hcase.
  destruct Hcase as [[(Es & -> & ->) Hle]|[Hsome Hgt]].
  { exists l2, fl. rewrite Es. split_and!; auto with axon; [done|]. right. split; [done|lia]. }
  destruct Hsome as (mid & rest & -> & -> & Ht & Hb & Hnew & Hsizes & Hfl' & Hmid).
  destruct Hsz as [Hsz0 Hsz].
  exists (blk + HDR + size :: rest), fl'. split_and!; [..|by left| |].
  - by eapply (si_except s s' l1 blk size mid rest fl fl').
  - done.
  - by eapply (si_others s s' l1 blk size mid rest fl fl').
  - intros f Hf1 Hf2. eapply (si_keep s s' l1 blk size mid rest fl fl'); try done. mem.
  - intros a Ha. eapply touch_payload; [exact Ht|].
    intros x f [->|[Hx _]]; [lia|].
    eapply (hdr_not_in_payload s _ (l1 ++ blk :: mid ++ rest) _ blk);
      [apply Hlay|mem|done|lia].
Qed.

(** * kmalloc *)

Lemma ALIGN16_spec x : 0 ≤ x → x + 15 < 2 ^ 64 → ALIGN16 x = x + 15 - (x + 15) `mod` 16.
Proof.
  intros H1 H2. unfold ALIGN16. rewrite (u64_small (x + 15)) by lia.
  apply (land_mask (x + 15) 4); lia.
Qed.

Lemma guarded_spec req :
  0 < req → req + 23 < 2 ^ 64 →
  req + 8 ≤ guarded req ≤ req + 23 ∧ guarded req `mod` 16 = 0.
Proof.
  intros H1 H2. unfold guarded. rewrite (u64_small (req + 8)), ALIGN16_spec by lia.
  set (y := req + 8 + 15). pose proof (Z.div_mod y 16 ltac:(lia)).
  pose proof (Z.mod_pos_bound y 16 ltac:(lia)). split; [lia|].
  replace (y - y `mod` 16) with (y `div` 16 * 16) by lia. by apply Z.mod_mul.
Qed.

(** Opening the invariant at a free block: [fl_remove] puts it in transition. *)
Lemma inv_take s l1 cur l2 f1 f2 :
  heap_inv s (l1 ++ cur :: l2) (f1 ++ cur :: f2) →
  let s' := fl_remove s cur in
  inv_except s' (l1 ++ cur :: l2) (f1 ++ f2) cur ∧ same_vars s s' ∧
  rd F_size s' cur = rd F_size s cur ∧
  others s s' (l1 ++ cur :: l2) (l1 ++ cur :: l2) cur.
Proof.
  intros Hinv s'. pose proof Hinv as [H1 H2 H3 H4 H5 H6].
  destruct (fl_remove_layout _ _ _ _ _ _ _ H1) as (Hlay & Hv & Ht & Hkeep).
  fold s' in Hlay, Hv, Ht, Hkeep. pose proof Hv as (V1 & V2 & V3 & _).
  assert (∀ x, x ∈ l1 ++ cur :: l2 →
    (is_free s' x ↔ is_free s x) ∧ (is_alloc s' x ↔ is_alloc s x) ∧
    rd F_req_size s' x = rd F_req_size s x ∧ rd F_size s' x = rd F_size s x) as Hst.
  { intros x Hx. unfold is_free, is_alloc. by rewrite !Hkeep by (done || field_neq). }
  split_and!; [|done|by apply Hst; mem|].
  - split; rewrite ?V1, ?V2, ?V3; try done; try mem.
    + pose proof (fl_nodup _ _ (lay_fl _ _ _ _ _ H1)) as Hnd.
      apply NoDup_app in Hnd as (_ & Hd & [Hn _]%NoDup_cons).
      intros [Hx|Hx]%elem_of_app; [|done]. apply (Hd cur Hx). mem.
    + intros x Hx Hne. destruct (Hst x Hx) as (-> & -> & _).
      destruct (H3 x Hx) as [[? ?]|?]; [left|by right]. split; [done|]. mem.
    + eapply adj_impl; [|exact H4]. intros b c Hb Hc Hbc _ _.
      destruct (Hst b Hb) as [-> _], (Hst c Hc) as [-> _]. done.
    + intros x Hx _. destruct (Hst x Hx) as (_ & -> & -> & ->). auto.
  - split; intros p n Hp.
    + unfold owns. split; intros (Hx & ? & ?); destruct (Hst _ Hx) as (_ & E & E' & _);
        split_and!; try done; try (by apply E); congruence.
    + intros (Hx & Ha & <-). split; [|by apply Hst].
      eapply touch_same_data; [by eapply inv_chain|exact Ht|..].
      * by instantiate (1 := cur); mem.
      * intros x f [Hx' _]. left. by apply (lay_sub _ _ _ _ _ H1).
      * done.
      * lia.
      * auto.
Qed.
