(* ===== verification/HeapAlloc.v ===== *)
(** [kmalloc_nolock] of [mem/heap.c] against the allocator contract: it keeps the
    invariant, returns a block that was free, aligned and disjoint from every
    live allocation, and fails only when no free block fits. *)
From S2P Require Import Prelude Mem Heap HeapFree HeapChain HeapLayout HeapSplit HeapSpec.
Import Heap.

#[global] Arguments rd : simpl never.
#[global] Arguments wr : simpl never.

(** * Writes local to a block

    Everything of a block after [size], [next] and [prev]: the rest of its header
    and its payload. *)
Definition local_write (s s' : heap) (blk : Z) : Prop :=
  ∀ a, ¬ (blk + 24 ≤ a < blk + HDR + rd F_size s blk) → ldb (hmem s') a = ldb (hmem s) a.

Lemma local_chain_field s s' blk f :
  local_write s s' blk → is_chain f → rd f s' blk = rd f s blk.
Proof.
  intros Hl Hf. unfold rd, hget. apply ld_ext. intros a Ha. apply Hl.
  unfold is_chain in Hf. intros ?. destruct Hf as [->|[->| ->]]; simpl in Ha; lia.
Qed.

Lemma local_other_field s s' lo bs hi blk f x :
  chain_ok s lo bs hi → local_write s s' blk → blk ∈ bs → x ∈ bs → x ≠ blk →
  rd f s' x = rd f s x.
Proof.
  intros Hch Hl Hb Hx Hne. unfold rd, hget. apply ld_ext. intros a Ha. apply Hl.
  pose proof (foff_range f). pose proof (size_nonneg s x).
  destruct (tiles_apart _ (size_nonneg s) _ _ _ _ _ (ch_tiles _ _ _ _ Hch) Hx Hb Hne); lia.
Qed.

Lemma local_refl s blk : local_write s s blk.
Proof. done. Qed.
Lemma local_trans s1 s2 s3 blk :
  local_write s1 s2 blk → local_write s2 s3 blk → local_write s1 s3 blk.
Proof.
  intros H1 H2 a Ha. rewrite H2, H1; [done..|].
  by rewrite (local_chain_field s1 s2 blk F_size H1) by (by left).
Qed.
Lemma local_wr s s' f blk v :
  local_write s s' blk → ¬ is_chain f → local_write s (wr f s' blk v) blk.
Proof.
  intros Hl Hf. eapply local_trans; [exact Hl|]. intros a Ha. apply ldb_st_out.
  pose proof (size_nonneg s' blk). pose proof (foff_range f).
  assert (24 ≤ foff f) by (destruct f; simpl; unfold is_chain in Hf; (lia || tauto)).
  unfold HDR in *. lia.
Qed.
Lemma local_payload s s' blk m' :
  local_write s s' blk →
  (∀ a, ¬ (blk + HDR ≤ a < blk + HDR + rd F_size s blk) → ldb m' a = ldb (hmem s') a) →
  local_write s (set_mem s' m') blk.
Proof.
  intros Hl Hm a Ha. simpl. rewrite Hm; [by apply Hl|]. unfold HDR in *. lia.
Qed.

(** Local writes keep a block's transition going and touch no other allocation. *)
Lemma local_except s s' bs fl blk :
  inv_except s bs fl blk → local_write s s' blk →
  heap_base s' = heap_base s → heap_capacity s' = heap_capacity s →
  head s' = head s → free_head s' = free_head s →
  inv_except s' bs fl blk ∧ others s s' bs bs blk.
Proof.
  intros Hie Hl V1 V2 V3 V4. pose proof Hie as [[Hch Hfl Hsub Hfree] H2 H3 H4 H5 H6 H7 H8].
  assert (∀ f x, x ∈ bs → x ≠ blk → rd f s' x = rd f s x) as Hrd.
  { intros. by eapply local_other_field. }
  assert (∀ f x, x ∈ bs → is_chain f → rd f s' x = rd f s x) as Hrc.
  { intros f x Hx Hf. destruct (decide (x = blk)) as [->|]; [by apply local_chain_field|auto]. }
  assert (∀ x, x ∈ bs → x ≠ blk →
    (is_free s' x ↔ is_free s x) ∧ (is_alloc s' x ↔ is_alloc s x)) as Hst.
  { intros x Hx Hne. unfold is_free, is_alloc. by rewrite !Hrd. }
  assert (∀ x, x ∈ fl → x ≠ blk) as Hne by (by intros x Hx ->).
  split.
  - split; rewrite ?V1, ?V2, ?V3; try done.
    + destruct Hch as [C1 C2 C3 C4], Hfl as [F1 F2 F3 F4].
      split; [split|split| |]; try done; try congruence.
      * eapply tiles_ext; [|done]. intros; apply Hrc; [done|by left].
      * eapply seg_ext; [| |done]; intros; apply Hrc; try done; right; [by left|by right].
      * eapply seg_ext; [| |done]; intros; apply Hrd; auto.
      * intros x Hx. apply Hst; auto.
    + intros x Hx Hxn. destruct (Hst x Hx Hxn) as [-> ->]. auto.
    + eapply adj_impl; [|exact H6]. intros b c Hb Hc Hbc Hnb Hnc.
      destruct (Hst b Hb Hnb) as [-> _], (Hst c Hc Hnc) as [-> _]. auto.
    + intros x Hx Hxn. destruct (Hst x Hx Hxn) as [_ ->]. rewrite !Hrd by done. auto.
  - split; intros p n Hp.
    + unfold owns. split; intros (Hx & ? & ?);
        (destruct (Hst (p - HDR) Hx ltac:(lia)) as [_ E]); rewrite Hrd in * by (done || lia);
        split_and!; try done; by apply E.
    + intros (Hx & Ha & <-). split; [|apply Hrd; [done|lia]].
      intros a Hin. apply Hl. specialize (H7 _ Hx ltac:(lia) Ha).
      unfold HDR in *.
      destruct (tiles_apart _ (size_nonneg s) _ _ _ _ _ (ch_tiles _ _ _ _ Hch) Hx H3 ltac:(lia));
        unfold HDR in *; lia.
Qed.

(** * kmalloc_take *)

Lemma alloc_stamp_ok s cur req caller :
  0 ≤ req < 2 ^ 64 →
  let s' := alloc_stamp s cur req caller in
  local_write s s' cur ∧ is_alloc s' cur ∧ rd F_req_size s' cur = req ∧
  rd F_size s' cur = rd F_size s cur ∧ same_vars s s' ∧ free_head s' = free_head s.
Proof.
  intros Hreq s'.
  assert (local_write s s' cur) as Hl.
  { unfold s', alloc_stamp. repeat (apply local_wr; [|field_neq]). apply local_refl. }
  split_and!; [done| | | |by repeat split|done].
  - unfold is_alloc, s', alloc_stamp. split; rd_simpl; done.
  - unfold s', alloc_stamp. rd_simpl. done.
  - apply local_chain_field; [done|by left].
Qed.

Lemma heap_account_vars s v :
  let s' := heap_account s v in
  hmem s' = hmem s ∧ heap_base s' = heap_base s ∧ heap_capacity s' = heap_capacity s ∧
  head s' = head s ∧ free_head s' = free_head s ∧ alloc_rover s' = alloc_rover s ∧
  heap_used_now s' = heap_used_now s +u v ∧
  heap_peak s' = Z.max (heap_peak s) (heap_used_now s').
Proof.
  unfold heap_account. cbn. destruct (Z.ltb_spec (heap_peak s) (heap_used_now s +u v));
    cbn; split_and!; try done; lia.
Qed.

(** A canary inside the payload of a block in transition is a local write. *)
Lemma put_canary_local s s' blk req :
  local_write s s' blk → 0 < blk → 0 ≤ req → req + 8 ≤ rd F_size s blk →
  blk + HDR + rd F_size s blk < 2 ^ 64 →
  local_write s (put_canary s' (blk + HDR) req) blk ∧
  ld64 (hmem (put_canary s' (blk + HDR) req)) (blk + HDR + req) = HEAP_CANARY_QWORD.
Proof.
  intros Hl Hb Hr1 Hr2 Ht. unfold put_canary.
  rewrite (u64_small (blk + HDR + req)) by (unfold HDR in *; lia). split.
  - apply local_payload; [done|]. intros a Ha. apply ldb_st_out. unfold HDR in *. lia.
  - unfold ld64, st64, set_mem. cbn [hmem]. rewrite (ld_st_eq 8). done.
Qed.

Lemma put_canary_hdr s blk req f :
  0 < blk → 0 ≤ req → blk + HDR + req < 2 ^ 64 →
  rd f (put_canary s (blk + HDR) req) blk = rd f s blk.
Proof.
  intros Hb Hr Ht. unfold rd, hget, put_canary, set_mem. cbn [hmem].
  rewrite (u64_small (blk + HDR + req)) by (unfold HDR in *; lia).
  apply ld_st_out. pose proof (foff_range f). unfold disjoint_at, HDR in *. lia.
Qed.

(** What one allocation does: [p] is now owned with [req] bytes, its canary is
    set, the invariant holds and the other allocations are untouched. *)
Record alloc_post (s s' : heap) (bs : list Z) (p req : Z) : Prop := {
  ap_inv : ∃ bs' fl', heap_inv s' bs' fl' ∧ owns s' bs' p req ∧
                      others s s' bs bs' (p - HDR);
  ap_canary : ld64 (hmem s') (p + req) = HEAP_CANARY_QWORD;
  ap_vars : heap_base s' = heap_base s ∧ heap_capacity s' = heap_capacity s;
  ap_used : heap_used_now s' = heap_used_now s +u rd F_size s' (p - HDR);
  ap_peak : heap_peak s' = Z.max (heap_peak s) (heap_used_now s')
}.

(** A block in transition becomes a live allocation. *)
Lemma kmalloc_finish s bs fl cur req caller rover :
  inv_except s bs fl cur → 0 < req → req + 8 ≤ rd F_size s cur →
  let s3 := alloc_stamp s cur req caller in
  let s4 := put_canary (heap_account s3 (rd F_size s3 cur)) (cur + HDR) req in
  let s5 := set_rover s4 rover in
  heap_inv s5 bs fl ∧ owns s5 bs (cur + HDR) req ∧ others s s5 bs bs cur ∧
  ld64 (hmem s5) (cur + HDR + req) = HEAP_CANARY_QWORD ∧
  heap_base s5 = heap_base s ∧ heap_capacity s5 = heap_capacity s ∧
  heap_used_now s5 = heap_used_now s +u rd F_size s5 cur ∧
  heap_peak s5 = Z.max (heap_peak s) (heap_used_now s5).
Proof.
  intros Hie Hr Hfit s3 s4 s5. pose proof (rd_size_range s cur).
  destruct (alloc_stamp_ok s cur req caller ltac:(lia)) as (Hl & Ha & Hq & Hz & Hv & Hfh).
  fold s3 in Hl, Ha, Hq, Hz, Hv, Hfh. destruct Hv as (V1 & V2 & V3 & V4 & V5 & V6).
  destruct (heap_account_vars s3 (rd F_size s3 cur)) as (A0 & A1 & A2 & A3 & A4 & A5 & A6 & A7).
  set (sa := heap_account s3 (rd F_size s3 cur)) in *. clearbody sa s3.
  pose proof (lay_chain _ _ _ _ _ (ie_lay _ _ _ _ Hie)) as Hch.
  pose proof (chain_bounds _ _ _ _ Hch cur (ie_in _ _ _ _ Hie)). pose proof (ch_hi _ _ _ _ Hch).
  pose proof (ch_lo _ _ _ _ Hch).
  assert (local_write s sa cur) as Hla by (intros a; rewrite A0; apply Hl).
  destruct (put_canary_local s sa cur req Hla ltac:(lia) ltac:(lia) Hfit ltac:(lia)) as [Hl4 Hcan].
  fold s4 in Hl4, Hcan.
  destruct (local_except s s5 bs fl cur Hie Hl4) as [Hie5 Ho5];
    [cbn; congruence..|].
  assert (∀ f, rd f s5 cur = rd f s3 cur) as Hrd.
  { intros f. unfold s5, s4. change (rd f (put_canary sa (cur + HDR) req) cur = rd f s3 cur).
    rewrite put_canary_hdr by lia. unfold rd. by rewrite A0. }
  assert (is_alloc s5 cur) as Ha5 by (unfold is_alloc; rewrite !Hrd; done).
  split_and!; try done; try (cbn; congruence).
  - eapply inv_finish; [exact Hie5|done|]. rewrite !Hrd. lia.
  - unfold owns. replace (cur + HDR - HDR) with cur by lia. rewrite Hrd.
    split_and!; try done. apply (ie_in _ _ _ _ Hie).
Qed.

Lemma kmalloc_take_ok s l1 cur l2 f1 f2 req caller :
  let bs := l1 ++ cur :: l2 in
  heap_inv s bs (f1 ++ cur :: f2) → 0 < req → req + 23 < 2 ^ 64 →
  guarded req ≤ rd F_size s cur →
  let '(s', p) := kmalloc_take s cur (guarded req) req caller in
  p = cur + HDR ∧ alloc_post s s' bs p req.
Proof.
  intros bs Hinv Hr1 Hr2 Hfit. destruct (guarded_spec req Hr1 Hr2) as [Hg H16].
  destruct (inv_take _ _ _ _ _ _ Hinv) as (Hie1 & Hv1 & Hs1 & Ho1).
  unfold kmalloc_take. set (s1 := fl_remove s cur) in *.
  destruct (split_inv s1 l1 cur l2 (f1 ++ f2) (guarded req) Hie1 ltac:(lia) H16)
    as (tl & fl' & Hie2 & Hv2 & Ho2 & Hsz2 & _).
  set (s2 := split_block s1 cur (guarded req)) in *. cbn zeta.
  destruct (same_vars_trans _ _ _ Hv1 Hv2) as (V1 & V2 & _ & _ & V5 & V6).
  pose proof (lay_chain _ _ _ _ _ (ie_lay _ _ _ _ Hie2)) as Hch.
  pose proof (chain_bounds _ _ _ _ Hch cur ltac:(mem)). pose proof (ch_hi _ _ _ _ Hch).
  pose proof (ch_lo _ _ _ _ Hch). pose proof (size_nonneg s2 cur).
  assert (cur +u HDR = cur + HDR) as -> by (apply u64_small; unfold HDR in *; lia).
  split; [done|].
  set (rover := if nz _ then _ else _).
  destruct (kmalloc_finish s2 _ fl' cur req caller rover Hie2 Hr1 ltac:(lia))
    as (K1 & K2 & K3 & K4 & K5 & K6 & K7 & K8).
  set (s5 := set_rover _ _) in *.
  split; replace (cur + HDR - HDR) with cur by lia.
  - exists (l1 ++ cur :: tl), fl'. split_and!; [done..|].
    eapply others_trans; [exact Ho1|]. eapply others_trans; [exact Ho2|done].
  - done.
  - split; congruence.
  - congruence.
  - congruence.
Qed.

(** * The walk over the free list *)

Lemma tiles_length s lo bs hi : tiles (rd F_size s) lo bs hi → HDR * length bs ≤ hi - lo.
Proof.
  revert lo. induction bs as [|b bs IH]; intros lo; simpl.
  { intros ->. lia. }
  intros [-> Ht]. apply IH in Ht. pose proof (size_nonneg s lo). unfold HDR in *. lia.
Qed.

(** The fuel of every free-list walk covers the free list. *)
Lemma walk_fuel_enough s lo bs hi fl :
  layout s lo bs hi fl → hi - lo = heap_capacity s → (length fl < walk_fuel s)%nat.
Proof.
  intros [Hch Hfl Hsub _] Hc. pose proof (tiles_length _ _ _ _ (ch_tiles _ _ _ _ Hch)) as Hl.
  assert (length fl ≤ length bs)%nat.
  { apply submseteq_length, NoDup_submseteq; [apply Hfl|done]. }
  unfold walk_fuel, HDR in *.
  assert (length bs ≤ heap_capacity s / 64) by (apply Z.div_le_lower_bound; lia). lia.
Qed.

Lemma fl_next s f1 b f2 :
  fl_ok s (f1 ++ b :: f2) → rd F_free_next s b = hd_or 0 f2 ∧ 0 < b.
Proof.
  intros [_ Hap Hseg _]. apply seg_app in Hseg as [_ (_ & Hn & _)]. split; [done|].
  apply (proj1 Hap b). mem.
Qed.

Lemma block_fits_free s b size :
  is_free s b → block_fits s b size = (size <=? rd F_size s b).
Proof. intros [Hf Hm]. unfold block_fits. rewrite Hf, Hm. done. Qed.

(** The loop finds the first block of the list that fits, or none does. *)
Lemma kmalloc_walk_spec s fl size req caller :
  fl_ok s fl → (∀ b, b ∈ fl → is_free s b) →
  ∀ f2 fuel f1, fl = f1 ++ f2 → (length f2 < fuel)%nat →
  (kmalloc_walk fuel s (hd_or 0 f2) size req caller = Some (s, 0) ∧
     ∀ b, b ∈ f2 → rd F_size s b < size) ∨
  (∃ g1 cur g2, fl = g1 ++ cur :: g2 ∧ size ≤ rd F_size s cur ∧
     kmalloc_walk fuel s (hd_or 0 f2) size req caller = Some (kmalloc_take s cur size req caller)).
Proof.
  intros Hfl Hfree f2. induction f2 as [|b f2 IH]; intros [|fuel] f1 -> Hfuel; simpl in Hfuel; try lia.
  { left. split; [done|]. by intros b ?%not_elem_of_nil. }
  destruct (fl_next _ _ _ _ Hfl) as [Hn Hb]. cbn [kmalloc_walk hd_or].
  rewrite (proj2 (Z.eqb_neq b 0)) by lia. rewrite block_fits_free by (apply Hfree; mem).
  rewrite Hn. destruct (Z.leb_spec size (rd F_size s b)); [right; eauto 10|].
  destruct (IH fuel (f1 ++ [b])) as [[Hk Hs]|?]; [by rewrite <- app_assoc|lia| |by right].
  left. split; [done|]. intros c [->|]%elem_of_cons; auto.
Qed.

(** A live allocation lies inside the arena, past its header. *)
Lemma owns_bounds s bs fl p n :
  heap_inv s bs fl → owns s bs p n →
  heap_base s + HDR ≤ p ∧ p + n + 8 ≤ heap_base s + heap_capacity s ∧
  (p - heap_base s) `mod` 16 = 0.
Proof.
  intros Hinv (Hb & Ha & <-). pose proof (inv_chain _ _ _ Hinv) as Hch.
  pose proof (chain_bounds _ _ _ _ Hch _ Hb). pose proof (hi_req _ _ _ Hinv _ Hb Ha).
  pose proof (hi_align _ _ _ Hinv _ Hb) as Hal. unfold HDR in *.
  split_and!; [lia..|]. replace (p - heap_base s) with ((p - 64 - heap_base s) + 4 * 16) by lia.
  by rewrite Z.mod_add.
Qed.

(** Two live allocations, canaries included, never overlap. *)
Lemma owns_apart s bs fl p n q k :
  heap_inv s bs fl → owns s bs p n → owns s bs q k → p ≠ q →
  p + n + 8 ≤ q - HDR ∨ q + k + 8 ≤ p - HDR.
Proof.
  intros Hinv (Hb & Ha & <-) (Hc & Hd & <-) Hne. pose proof (inv_chain _ _ _ Hinv) as Hch.
  pose proof (hi_req _ _ _ Hinv _ Hb Ha). pose proof (hi_req _ _ _ Hinv _ Hc Hd).
  destruct (tiles_apart _ (size_nonneg s) _ _ _ _ _ (ch_tiles _ _ _ _ Hch) Hb Hc); lia.
Qed.

Lemma kmalloc_spec s bs fl req caller :
  heap_inv s bs fl → 0 < req → req + 23 < 2 ^ 64 →
  ∃ s' p, kmalloc_nolock s req caller = Some (s', p) ∧
    ((p = 0 ∧ s' = s ∧ ∀ b, b ∈ fl → rd F_size s b < guarded req) ∨
     (p - HDR ∈ fl ∧ guarded req ≤ rd F_size s (p - HDR) ∧ alloc_post s s' bs p req)).
Proof.
  intros Hinv Hr1 Hr2. pose proof (hi_lay _ _ _ Hinv) as Hlay.
  pose proof (lay_fl _ _ _ _ _ Hlay) as Hfl. pose proof (ch_lo _ _ _ _ (inv_chain _ _ _ Hinv)).
  unfold kmalloc_nolock. rewrite (hi_head _ _ _ Hinv), (fl_head _ _ Hfl).
  rewrite (proj2 (Z.eqb_neq (heap_base s) 0)), (proj2 (Z.eqb_neq req 0)) by lia. cbn [orb].
  destruct (Z.eqb_spec (hd_or 0 fl) 0) as [E|E].
  { exists s, 0. split; [done|left]. split_and!; [done..|].
    destruct fl as [|b fl]; [by intros b ?%not_elem_of_nil|].
    pose proof (proj1 (fl_apart _ _ Hfl) b ltac:(mem)). simpl in E. lia. }
  pose proof (walk_fuel_enough _ _ _ _ _ Hlay ltac:(lia)) as Hfuel.
  destruct (kmalloc_walk_spec s fl (guarded req) req caller Hfl (lay_free _ _ _ _ _ Hlay)
              fl (walk_fuel s) [] eq_refl Hfuel) as [[-> Hs]|(g1 & cur & g2 & Efl & Hfit & ->)].
  { exists s, 0. split; [done|by left]. }
  assert (cur ∈ bs) as (l1 & l2 & Ebs)%list_elem_of_split
    by (apply (lay_sub _ _ _ _ _ Hlay); rewrite Efl; mem).
  rewrite Efl, Ebs in Hinv.
  pose proof (kmalloc_take_ok s l1 cur l2 g1 g2 req caller Hinv Hr1 Hr2 Hfit) as Hk.
  destruct (kmalloc_take s cur (guarded req) req caller) as [s' p]. destruct Hk as [-> Hpost].
  exists s', (cur + HDR). split; [done|right]. rewrite Ebs.
  replace (cur + HDR - HDR) with cur by lia. split_and!; [rewrite Efl; mem|done..].
Qed.
