(* ===== verification/HeapKfree.v ===== *)
(** [kfree_nolock] of [mem/heap.c]: freeing a live allocation coalesces it with
    its free neighbours, keeps the invariant and touches no other allocation. *)
From S2P Require Import Prelude Mem Heap HeapFree HeapChain HeapLayout HeapSplit HeapSpec HeapAlloc.
Import Heap.

(** * Steps that write only links and chain fields *)

Definition quiet (bs : list Z) (s s' : heap) : Prop :=
  touch (λ x f, x ∈ bs ∧ (is_link f ∨ is_chain f)) (hmem s) (hmem s').

Lemma quiet_keep bs s s' lo hi f x :
  chain_ok s lo bs hi → quiet bs s s' → x ∈ bs → ¬ is_link f → ¬ is_chain f →
  rd f s' x = rd f s x.
Proof.
  intros Hch Hq Hx Hf1 Hf2. eapply touch_rd; [exact Hq|]. intros y g [Hy Hg].
  destruct (decide (y = x)) as [->|]; [right|left].
  - split; [done|]. intros ->. tauto.
  - by apply (chain_apart _ _ _ _ Hch).
Qed.

Lemma quiet_status bs s s' lo hi x :
  chain_ok s lo bs hi → quiet bs s s' → x ∈ bs →
  (is_free s' x ↔ is_free s x) ∧ (is_alloc s' x ↔ is_alloc s x) ∧
  rd F_req_size s' x = rd F_req_size s x.
Proof.
  intros Hch Hq Hx. unfold is_free, is_alloc.
  by rewrite !(quiet_keep _ _ _ _ _ _ _ Hch Hq Hx) by field_neq.
Qed.

Lemma quiet_others s s' bs bs' fl blk :
  inv_except s bs fl blk → quiet bs s s' → (∀ x, x ∈ bs' → x ∈ bs) →
  (∀ x, x ∈ bs → x ≠ blk → is_alloc s x → x ∈ bs' ∧ rd F_size s' x = rd F_size s x) →
  others s s' bs bs' blk.
Proof.
  intros Hie Hq Hsub Hall. pose proof (lay_chain _ _ _ _ _ (ie_lay _ _ _ _ Hie)) as Hch.
  split; intros p n Hp.
  - unfold owns. split; intros (Hx & Ha & <-).
    + pose proof (Hsub _ Hx) as Hx'. destruct (quiet_status _ _ _ _ _ _ Hch Hq Hx') as (_ & E & ->).
      split_and!; [done|by apply E|done].
    + destruct (quiet_status _ _ _ _ _ _ Hch Hq Hx) as (_ & E & ->).
      split_and!; [apply Hall; [done|lia|done]|by apply E|done].
  - intros (Hx & Ha & <-). split; [|by apply Hall; [|lia|]].
    eapply touch_same_data; [exact Hch|exact Hq|exact (ie_in _ _ _ _ Hie)| | | |].
    + intros x f [? _]. by left.
    + done.
    + lia.
    + apply (ie_req _ _ _ _ Hie); [done|lia|done].
Qed.

(** * Merging with the successor *)

Lemma set_rover_except s bs fl blk v :
  inv_except s bs fl blk → inv_except (set_rover s v) bs fl blk.
Proof.
  intros Hie. apply (local_except s); [done|intros a _|..]; done.
Qed.

Lemma adj_drop P l1 b c l2 (Hb : ∀ x, P b x) (Hb' : ∀ x, P x b) :
  adj P (l1 ++ b :: c :: l2) → adj P (l1 ++ b :: l2).
Proof.
  rewrite (adj_app P l1 b (c :: l2)), (adj_app P l1 b l2). intros [H1 H2]. split; [done|].
  apply adj_tail, adj_tail in H2. destruct l2; [done|]. by split.
Qed.

Lemma absorb_except s l1 blk c l2 f1 f2 :
  inv_except s (l1 ++ blk :: c :: l2) (f1 ++ c :: f2) blk →
  let s' := absorb_next s blk in
  inv_except s' (l1 ++ blk :: l2) (f1 ++ f2) blk ∧ same_vars s s' ∧
  others s s' (l1 ++ blk :: c :: l2) (l1 ++ blk :: l2) blk ∧
  rd F_size s' blk = rd F_size s blk + HDR + rd F_size s c ∧
  quiet (l1 ++ blk :: c :: l2) s s' ∧
  (∀ f, is_link f → rd f s' blk = rd f s blk).
Proof.
  intros Hie s'. pose proof Hie as [Hlay H2 H3 H4 H5 H6 H7 H8].
  destruct (absorb_next_ok _ _ _ _ _ _ _ _ _ Hlay) as (Hlay' & Hv & Hsz & Ht & Hsizes).
  fold s' in Hlay', Hv, Hsz, Ht, Hsizes. pose proof Hv as (V1 & V2 & V3 & _).
  pose proof (lay_chain _ _ _ _ _ Hlay) as Hch.
  assert (quiet (l1 ++ blk :: c :: l2) s s') as Hq.
  { eapply touch_mono; [|exact Ht]. cbn. intros x f [[Hx Hf]|[Hx Hf]].
    - split; [by apply (lay_sub _ _ _ _ _ Hlay)|tauto].
    - split; [mem|tauto]. }
  assert (is_free s c) as Hc by (apply (lay_free _ _ _ _ _ Hlay); mem).
  assert (∀ x, x ∈ l1 ++ blk :: l2 → x ∈ l1 ++ blk :: c :: l2) as Hsub by (intros x Hx; mem).
  assert (∀ x, x ∈ l1 ++ blk :: l2 → x ≠ blk → x ∈ l1 ++ l2) as Hsub2 by (intros x Hx; mem).
  assert (c ∉ l1 ++ blk :: l2) as Hcn.
  { pose proof (chain_NoDup _ _ _ _ Hch) as Hnd. apply NoDup_app in Hnd as (_ & Hd & Hnd).
    apply NoDup_cons in Hnd as [Hb [Hc' _]%NoDup_cons]. intros Hin.
    apply elem_of_app in Hin as [Hin|[->|Hin]%elem_of_cons]; [|apply Hb; mem|done].
    apply (Hd c Hin). mem. }
  split_and!; [|done| |done|done|].
  - split; rewrite ?V1, ?V2, ?V3; try done; try mem.
    + intros x Hx Hne. destruct (quiet_status _ _ _ _ _ _ Hch Hq (Hsub x Hx)) as (-> & -> & _).
      destruct (H5 x (Hsub x Hx) Hne) as [[? ?]|?]; [left|by right]. split; [done|].
      assert (x ≠ c) by congruence. mem.
    + eapply adj_impl; [|eapply (adj_drop _ l1 blk c l2); [..|exact H6]]; [|intros; congruence..].
      intros b d Hb Hd Hbd.
      destruct (quiet_status _ _ _ _ _ _ Hch Hq (Hsub b Hb)) as (-> & _).
      destruct (quiet_status _ _ _ _ _ _ Hch Hq (Hsub d Hd)) as (-> & _). done.
    + intros x Hx Hne. destruct (quiet_status _ _ _ _ _ _ Hch Hq (Hsub x Hx)) as (_ & -> & ->).
      rewrite Hsizes by auto. auto.
    + auto.
  - eapply quiet_others; [exact Hie|done..|]. intros x Hx Hne Ha.
    assert (x ≠ c) by (intros ->; by apply (not_both s c)). split; [mem|apply Hsizes; mem].
  - intros f Hf. eapply touch_rd; [exact Ht|]. intros x g [[Hx Hg]|[Hx Hg]].
    + left. apply (chain_apart _ _ _ _ Hch); [by apply (lay_sub _ _ _ _ _ Hlay)|mem|congruence].
    + destruct (decide (x = blk)) as [->|]; [right|left].
      * split; [done|]. intros ->. unfold is_link, is_chain in *.
        by destruct Hf as [->| ->]; destruct Hg as [?|[?|?]].
      * apply (chain_apart _ _ _ _ Hch); [mem|mem|done].
Qed.

(** * Merging with the predecessor *)

Lemma adj_fill P l1 x l2 :
  x ∉ l1 → x ∉ l2 → adj (λ b c, b ≠ x → c ≠ x → P b c) (l1 ++ x :: l2) →
  (∀ l b, l1 = l ++ [b] → P b x) → (∀ n r, l2 = n :: r → P x n) →
  adj P (l1 ++ x :: l2).
Proof.
  intros H1 H2 Hadj Hp Hn. apply adj_app in Hadj as [Ha1 Ha2]. apply adj_app. split.
  - destruct l1 as [|b l _] using rev_ind; [done|].
    rewrite <- app_assoc in Ha1 |- *. cbn [app] in *.
    apply (adj_app _ l b [x]) in Ha1 as [Ha1 _]. apply (adj_app _ l b [x]). split.
    + eapply adj_impl; [|exact Ha1]. intros c d Hc Hd Hcd.
      apply Hcd; intros ->; by apply H1.
    + split; [by apply (Hp l)|done].
  - apply adj_tail in Ha2. destruct l2 as [|n r]; [done|]. split; [by apply (Hn n r)|].
    eapply adj_impl; [|exact Ha2]. intros c d Hc Hd Hcd. apply Hcd; intros ->; by apply H2.
Qed.

Lemma adj_bridge P l1 b x l2 :
  x ∉ l1 ++ b :: l2 → adj (λ b c, b ≠ x → c ≠ x → P b c) (l1 ++ b :: x :: l2) →
  (∀ n r, l2 = n :: r → P b n) → adj P (l1 ++ b :: l2).
Proof.
  intros Hx Hadj Hn. apply adj_app in Hadj as [Ha1 Ha2]. apply adj_app. split.
  - eapply adj_impl; [|exact Ha1]. intros c d Hc Hd Hcd. apply Hcd; intros ->; apply Hx; mem.
  - apply adj_tail, adj_tail in Ha2. destruct l2 as [|n r]; [done|].
    split; [by apply (Hn n r)|]. eapply adj_impl; [|exact Ha2].
    intros c d Hc Hd Hcd. apply Hcd; intros ->; apply Hx; mem.
Qed.

Lemma merge_into_prev_eq s b blk :
  let s1 := fl_remove s blk in
  rd F_prev s1 blk = b → far b blk → rd F_next s1 blk ≠ blk →
  (rd F_next s1 blk ≠ 0 → far (rd F_next s1 blk) blk) →
  rd F_size s1 b + HDR + rd F_size s1 blk < 2 ^ 64 →
  merge_into_prev s blk =
  merge_hdr s1 b (rd F_next s1 blk) (rd F_size s1 b + HDR + rd F_size s1 blk).
Proof.
  intros s1 Hp Hfar Hne Hfn Hs. unfold merge_into_prev, merge_hdr. fold s1. cbn zeta. rewrite Hp.
  pose proof (rd_size_range s1 b). pose proof (rd_size_range s1 blk).
  pose proof (rd_range F_next s1 blk) as Hr. cbn in Hr. unfold HDR in *.
  rewrite (u64_small (64 + _)), u64_small by lia. rewrite Z.add_assoc.
  rd_simpl. rewrite Hp. done.
Qed.

Lemma chain_notin s lo l1 x l2 hi : chain_ok s lo (l1 ++ x :: l2) hi → x ∉ l1 ∧ x ∉ l2.
Proof.
  intros Hch. pose proof (chain_NoDup _ _ _ _ Hch) as Hnd.
  apply NoDup_app in Hnd as (_ & Hd & [Hn _]%NoDup_cons). split; [|done].
  intros Hin. apply (Hd x Hin). mem.
Qed.

(** [mark_free_hdr] restates what is already known of a free block. *)
Lemma mark_free_inv s bs fl b blk :
  heap_inv s bs fl → b ∈ bs → is_free s b →
  let s' := mark_free_hdr s b in
  heap_inv s' bs fl ∧ others s s' bs bs blk ∧ same_vars s s' ∧ is_free s' b.
Proof.
  intros Hinv Hb Hf s'. pose proof (inv_chain _ _ _ Hinv) as Hch.
  assert (touch (λ x f, x = b ∧ (f = F_magic ∨ f = F_req_size ∨ f = F_alloc_caller))
            (hmem s) (hmem s')) as Ht.
  { unfold s', mark_free_hdr. repeat (apply touch_wr; [tauto|]). apply touch_refl. }
  assert (rd F_magic s' b = HEAP_MAGIC_FREE) as Hm.
  { unfold s', mark_free_hdr. rd_simpl. done. }
  assert (∀ f x, x ∈ bs → f ≠ F_alloc_caller → (f = F_req_size → is_alloc s x) →
            rd f s' x = rd f s x) as Hrd.
  { intros f x Hx Hf1 Hf2. destruct (decide (x = b ∧ f = F_magic)) as [[-> ->]|Hne].
    { destruct Hf as [_ ->]. done. }
    eapply touch_rd; [exact Ht|]. intros y g [-> Hg].
    destruct (decide (b = x)) as [->|]; [right|left; by apply (chain_apart _ _ _ _ Hch)].
    split; [done|]. intros ->. destruct Hg as [->|[->| ->]]; [tauto| |done].
    exfalso. apply (not_both s x); auto. }
  assert (∀ x, x ∈ bs → (is_free s' x ↔ is_free s x) ∧ (is_alloc s' x ↔ is_alloc s x)) as Hst.
  { intros x Hx. unfold is_free, is_alloc. by rewrite !Hrd by done. }
  split_and!; [|split|by repeat split|by apply Hst].
  - by apply (heap_inv_ext s).
  - intros p n _. unfold owns. split; intros (Hx & Ha & <-).
    + apply Hst in Ha; [|done]. by rewrite Hrd.
    + rewrite Hrd by done. split_and!; [done|by apply Hst|done].
  - intros p n _ (Hx & Ha & <-). split; [|by apply Hrd].
    eapply touch_same_data; [exact Hch|exact Ht|exact Hb|..].
    + intros x f [-> _]. by left.
    + done.
    + intros E. rewrite E in Ha. by apply (not_both s b).
    + by apply (hi_req _ _ _ Hinv).
Qed.

(** [fl_remove] of a block of the chain that is on no list. *)
Lemma fl_remove_unlinked_layout s lo bs hi fl blk :
  layout s lo bs hi fl → blk ∈ bs → blk ∉ fl →
  rd F_free_next s blk = 0 → rd F_free_prev s blk = 0 →
  let s1 := fl_remove s blk in
  layout s1 lo bs hi fl ∧ same_vars s s1 ∧
  touch (λ c f, c = blk ∧ is_link f) (hmem s) (hmem s1) ∧
  (∀ f x, x ∈ bs → ¬ is_link f → rd f s1 x = rd f s x).
Proof.
  intros [Hch Hfl Hsub Hfree] Hin Hout Hn Hp s1.
  destruct (chain_apart _ _ _ _ Hch) as [Hpos Hfar].
  destruct (fl_remove_unlinked s fl blk Hfl (proj1 (Hpos blk Hin))) as (Hfl1 & Ht1 & Hv1);
    [|done..|].
  { intros c Hc. apply Hfar; [done|by apply Hsub|congruence]. }
  fold s1 in Hfl1, Ht1, Hv1.
  assert (∀ f x, x ∈ bs → ¬ is_link f → rd f s1 x = rd f s x) as Hk1.
  { intros f x Hx Hf. eapply touch_rd; [exact Ht1|]. intros y g [-> Hg].
    destruct (decide (blk = x)) as [->|]; [right|left; by apply Hfar].
    split; [done|]. by intros ->. }
  split_and!; [split; [|done..|]|done..].
  - eapply chain_ok_touch; [exact Ht1|..|exact Hch]. cbn. intros x f c [-> Hf] Hc.
    destruct (decide (blk = c)) as [->|]; [right|left; by apply Hfar].
    split; [done|]. unfold is_link, is_chain in *. by intros [->|[->| ->]]; destruct Hf.
  - intros x Hx. unfold is_free. rewrite !Hk1 by (auto || field_neq). by apply Hfree.
Qed.

Lemma into_prev_merge s lo l1 b blk l2 hi fl :
  let s1 := fl_remove s blk in
  layout s1 lo (l1 ++ b :: blk :: l2) hi fl →
  merge_into_prev s blk =
  merge_hdr s1 b (hd_or 0 l2) (rd F_size s1 b + HDR + rd F_size s1 blk) ∧
  rd F_prev s1 blk = b ∧ blk ∉ l1 ++ b :: l2.
Proof.
  intros s1 Hlay1. pose proof (lay_chain _ _ _ _ _ Hlay1) as Hch.
  destruct (chain_apart _ _ _ _ Hch) as [Hpos Hfar].
  destruct (merge_sets _ _ _ _ _ _ _ Hch) as (_ & _ & Hbc & _).
  pose proof (ch_seg _ _ _ _ Hch) as Hseg. apply seg_app in Hseg as (_ & _ & _ & Hpb & Hnb & _).
  pose proof (merge_size _ _ _ _ _ _ _ Hch) as Hsz.
  assert (blk ∉ l1 ++ b :: l2) as Hnin.
  { destruct (chain_notin s1 lo (l1 ++ [b]) blk l2 hi); [by rewrite <- app_assoc|]. mem. }
  split_and!; [|done..]. rewrite (merge_into_prev_eq s b blk); fold s1; rewrite ?Hnb; try done.
  - apply Hfar; [mem|mem|done].
  - destruct l2 as [|n r]; simpl; [pose proof (Hpos blk ltac:(mem)); lia|].
    intros ->. apply Hnin. mem.
  - destruct l2 as [|n r]; [done|]. intros _. apply Hfar; [mem|mem|].
    simpl. intros ->. apply Hnin. mem.
  - lia.
Qed.

(** Merging a block in transition into its free predecessor takes it out of the
    chain. *)
Lemma into_prev_layout s lo l1 b blk l2 hi fl :
  layout s lo (l1 ++ b :: blk :: l2) hi fl → blk ∉ fl →
  rd F_free_next s blk = 0 → rd F_free_prev s blk = 0 →
  let s' := merge_into_prev s blk in
  layout s' lo (l1 ++ b :: l2) hi fl ∧ same_vars s s' ∧
  quiet (l1 ++ b :: blk :: l2) s s' ∧ rd F_prev s' blk = b ∧
  (∀ x, x ∈ l1 ++ l2 → rd F_size s' x = rd F_size s x) ∧ blk ∉ l1 ++ b :: l2.
Proof.
  intros Hlay Hout Hn Hp s'.
  destruct (fl_remove_unlinked_layout _ _ _ _ _ blk Hlay ltac:(mem) Hout Hn Hp)
    as (Hlay1 & Hv1 & Ht1 & Hk1).
  destruct (into_prev_merge _ _ _ _ _ _ _ _ Hlay1) as (Es & Hpb & Hnin). fold s' in Es.
  destruct (merge_hdr_layout _ _ _ _ _ _ _ _ Hlay1 Hout) as (H1 & H2 & H3 & H4 & H5).
  rewrite <- Es in *. split_and!; [done|by eapply same_vars_trans| | | |done].
  - eapply touch_trans; (eapply touch_mono; [|eassumption]); cbn.
    + intros x f [-> Hf]. split; [mem|tauto].
    + intros x f [Hx Hf]. split; [mem|tauto].
  - etransitivity; [|exact Hpb]. eapply touch_rd; [exact H4|].
    intros x f [Hx _]. left.
    apply (chain_apart _ _ _ _ (lay_chain _ _ _ _ _ Hlay)); [mem|mem|congruence].
  - intros x Hx. rewrite H5, Hk1; [done|mem|field_neq|done].
Qed.

Lemma into_prev_inv s l1 b blk l2 fl :
  inv_except s (l1 ++ b :: blk :: l2) fl blk → is_free s b → is_free s blk →
  (∀ n r, l2 = n :: r → ¬ is_free s n) →
  rd F_free_next s blk = 0 → rd F_free_prev s blk = 0 →
  let s' := merge_into_prev s blk in
  heap_inv s' (l1 ++ b :: l2) fl ∧ same_vars s s' ∧ is_free s' b ∧
  others s s' (l1 ++ b :: blk :: l2) (l1 ++ b :: l2) blk ∧ rd F_prev s' blk = b ∧
  is_free s' blk.
Proof.
  intros Hie Hf Hfb Hsucc Hn Hp s'. pose proof Hie as [Hlay H2 H3 H4 H5 H6 H7 H8].
  pose proof (lay_chain _ _ _ _ _ Hlay) as Hch.
  destruct (into_prev_layout _ _ _ _ _ _ _ _ Hlay H4 Hn Hp) as (Hlay' & Hv & Hq & Hpb & Hsz & Hnin).
  fold s' in Hlay', Hv, Hq, Hpb, Hsz. pose proof Hv as (V1 & V2 & V3 & _).
  assert (∀ x, x ∈ l1 ++ b :: l2 → x ∈ l1 ++ b :: blk :: l2 ∧ x ≠ blk) as Hsub.
  { intros x Hx. split; [mem|congruence]. }
  assert (∀ x, x ∈ l1 ++ b :: l2 → (is_free s' x ↔ is_free s x) ∧ (is_alloc s' x ↔ is_alloc s x) ∧
    rd F_req_size s' x = rd F_req_size s x) as Hst.
  { intros x Hx. eapply quiet_status; [exact Hch|done|by apply Hsub]. }
  split_and!; [|done|by apply Hst; [mem|]| |done|].
  3:{ by apply (quiet_status _ _ _ _ _ blk Hch Hq H3). }
  - split; rewrite ?V1, ?V2, ?V3; try done.
    + intros x Hx. destruct (Hst x Hx) as (-> & -> & _). apply H5; by apply Hsub.
    + assert (adj (λ b c, ¬ (is_free s b ∧ is_free s c)) (l1 ++ b :: l2)) as Hadj.
      { eapply (adj_bridge _ l1 b blk l2); [done|exact H6|]. intros n r El [_ Hfn].
        by apply (Hsucc n r). }
      eapply adj_impl; [|exact Hadj]. cbn. intros x y Hx Hy.
      by rewrite (proj1 (Hst x Hx)), (proj1 (Hst y Hy)).
    + intros x Hx Ha. destruct (Hst x Hx) as (E1 & E2 & ->). apply E2 in Ha.
      assert (x ≠ b) by (intros ->; by apply (not_both s b)).
      rewrite Hsz by mem. apply H7; [by apply Hsub..|done].
    + intros x Hx. by apply H8, Hsub.
  - eapply quiet_others; [exact Hie|done|intros x Hx; by apply Hsub|].
    intros x Hx Hne Ha. assert (x ≠ b) by (intros ->; by apply (not_both s b)).
    split; [mem|apply Hsz; mem].
Qed.

(** Putting a block in transition on the free list ends the transition, when
    its neighbours are not free. *)
Lemma insert_inv s l1 blk l2 fl :
  inv_except s (l1 ++ blk :: l2) fl blk → is_free s blk →
  (∀ l b, l1 = l ++ [b] → ¬ is_free s b) → (∀ n r, l2 = n :: r → ¬ is_free s n) →
  let s' := fl_insert s blk in
  heap_inv s' (l1 ++ blk :: l2) (blk :: fl) ∧ same_vars s s' ∧ is_free s' blk ∧
  others s s' (l1 ++ blk :: l2) (l1 ++ blk :: l2) blk.
Proof.
  intros Hie Hf Hpred Hsucc s'. pose proof Hie as [Hlay H2 H3 H4 H5 H6 H7 H8].
  pose proof Hlay as [Hch Hfl Hsub Hfree]. destruct (chain_apart _ _ _ _ Hch) as [Hpos Hfar].
  destruct (fl_insert_ok s fl blk Hfl ltac:(auto)) as (Hfl' & Hv & Ht).
  { intros c Hc. apply Hfar; [done|auto|congruence]. }
  fold s' in Hfl', Hv, Ht. pose proof Hv as (V1 & V2 & V3 & _).
  assert (quiet (l1 ++ blk :: l2) s s') as Hq.
  { eapply touch_mono; [|exact Ht]. cbn. intros x f [[->|Hx] Hl]; (split; [auto|by left]). }
  assert (∀ x, x ∈ l1 ++ blk :: l2 → (is_free s' x ↔ is_free s x) ∧ (is_alloc s' x ↔ is_alloc s x) ∧
    rd F_req_size s' x = rd F_req_size s x) as Hst.
  { intros x Hx. by eapply quiet_status. }
  assert (chain_ok s' (heap_base s) (l1 ++ blk :: l2) (heap_base s + heap_capacity s)) as Hch'.
  { eapply chain_ok_touch; [exact Ht|..|exact Hch]. cbn. intros x f c [Hx Hl] Hc.
    destruct (decide (x = c)) as [->|]; [right|left; apply Hfar; [destruct Hx as [->|]; auto|done..]].
    split; [done|]. unfold is_link, is_chain in *. by intros [->|[->| ->]]; destruct Hl. }
  assert (∀ x, x ∈ l1 ++ blk :: l2 → rd F_size s' x = rd F_size s x) as Hsz.
  { intros x Hx. eapply touch_rd; [exact Ht|]. intros y g [Hy Hl].
    destruct (decide (y = x)) as [->|]; [right|left; apply Hfar; [destruct Hy as [->|]; auto|done..]].
    split; [done|]. unfold is_link in Hl. intros ->. by destruct Hl. }
  destruct (chain_notin _ _ _ _ _ _ Hch) as [Hn1 Hn2].
  split_and!; [|done|by apply Hst|eapply quiet_others; [done..|]; auto].
  split; rewrite ?V1, ?V2, ?V3; try done.
  - split; [done|done| |]; intros x [->|Hx]%elem_of_cons; auto; apply Hst; auto.
  - intros x Hx. destruct (Hst x Hx) as (-> & -> & _).
    destruct (decide (x = blk)) as [->|Hne]; [left; split; [done|mem]|].
    destruct (H5 x Hx Hne) as [[? ?]|?]; [left|by right]. split; [done|mem].
  - assert (adj (λ b c, ¬ (is_free s b ∧ is_free s c)) (l1 ++ blk :: l2)) as Hadj.
    { apply adj_fill; [done..| |].
      - intros l b El [Hfb _]. by apply (Hpred l b).
      - intros n r El [_ Hfn]. by apply (Hsucc n r). }
    eapply adj_impl; [|exact Hadj]. cbn. intros x y Hx Hy.
    by rewrite (proj1 (Hst x Hx)), (proj1 (Hst y Hy)).
  - intros x Hx Ha. destruct (Hst x Hx) as (_ & E2 & ->). apply E2 in Ha. rewrite Hsz by done.
    apply H7; [done| |done]. intros ->. by apply (not_both s blk).
Qed.

(** * coalesce *)

(** The variables an operation that moves only [alloc_rover] keeps. *)
Definition keeps (s s' : heap) : Prop :=
  heap_base s' = heap_base s ∧ heap_capacity s' = heap_capacity s ∧
  heap_used_now s' = heap_used_now s ∧ heap_peak s' = heap_peak s.

Lemma same_keeps s s' : same_vars s s' → keeps s s'.
Proof. intros (? & ? & ? & ? & ? & ?). done. Qed.
Lemma keeps_trans s1 s2 s3 : keeps s1 s2 → keeps s2 s3 → keeps s1 s3.
Proof. intros (? & ? & ? & ?) (? & ? & ? & ?). repeat split; congruence. Qed.

(** The chain neighbours of a block, as the code tests them. *)
Lemma chain_links s lo l1 blk l2 hi :
  chain_ok s lo (l1 ++ blk :: l2) hi →
  rd F_next s blk = hd_or 0 l2 ∧ rd F_prev s blk = last_or 0 l1.
Proof.
  intros Hch. pose proof (ch_seg _ _ _ _ Hch) as Hseg.
  by apply seg_app in Hseg as (_ & ? & ? & _).
Qed.

Lemma free_test s bs fl blk x :
  inv_except s bs fl blk → x ∈ bs → x ≠ blk →
  (nz (rd F_free s x) = true ∧ is_free s x ∧ x ∈ fl) ∨
  (nz (rd F_free s x) = false ∧ ¬ is_free s x).
Proof.
  intros Hie Hx Hne. destruct (ie_st _ _ _ _ Hie x Hx Hne) as [[Hf Hin]|Ha]; [left|right].
  - by rewrite (proj1 Hf).
  - split; [by destruct Ha as [-> _]|]. intros Hf. by apply (not_both s x).
Qed.

Lemma coalesce_next_ok s l1 blk l2 fl :
  inv_except s (l1 ++ blk :: l2) fl blk →
  let s' := coalesce_next s blk in
  ∃ l2' fl', inv_except s' (l1 ++ blk :: l2') fl' blk ∧ keeps s s' ∧
    others s s' (l1 ++ blk :: l2) (l1 ++ blk :: l2') blk ∧
    (∀ n r, l2' = n :: r → ¬ is_free s' n) ∧
    (∀ f, ¬ is_chain f → rd f s' blk = rd f s blk) ∧
    (∀ f x, x ∈ l1 → ¬ is_link f → ¬ is_chain f → rd f s' x = rd f s x).
Proof.
  intros Hie s'. pose proof (lay_chain _ _ _ _ _ (ie_lay _ _ _ _ Hie)) as Hch.
  destruct (chain_apart _ _ _ _ Hch) as [Hpos _]. destruct (chain_notin _ _ _ _ _ _ Hch) as [_ Hn2].
  destruct (chain_links _ _ _ _ _ _ Hch) as [Hn _].
  unfold s', coalesce_next. rewrite Hn.
  destruct l2 as [|c l2].
  { simpl. exists [], fl. split_and!; try done. }
  simpl. rewrite (proj2 (nz_true c)) by (pose proof (Hpos c ltac:(mem)); lia). simpl.
  assert (c ≠ blk) as Hne by (intros ->; apply Hn2; mem).
  destruct (free_test _ _ _ _ c Hie ltac:(mem) Hne) as [(-> & Hf & Hin)|[-> Hf]].
  2:{ exists (c :: l2), fl. split_and!; try done. by intros n r [= <- _]. }
  set (s1 := if alloc_rover s =? c then set_rover s blk else s).
  assert (inv_except s1 (l1 ++ blk :: c :: l2) fl blk ∧ keeps s s1 ∧ hmem s1 = hmem s)
    as (Hie1 & Hk1 & Hm1).
  { unfold s1. destruct (alloc_rover s =? c); [|done].
    split; [by apply set_rover_except|done]. }
  apply list_elem_of_split in Hin as (f1 & f2 & ->).
  destruct (absorb_except s1 l1 blk c l2 f1 f2 Hie1) as (Hie2 & Hv & Ho & _ & Hq & Hl).
  assert (∀ f x, rd f s1 x = rd f s x) as Hr1 by (intros; unfold rd; by rewrite Hm1).
  pose proof (lay_chain _ _ _ _ _ (ie_lay _ _ _ _ Hie1)) as Hch1.
  exists l2, (f1 ++ f2). split_and!.
  - done.
  - eapply keeps_trans; [exact Hk1|by apply same_keeps].
  - destruct Ho as [O1 O2]. split; intros p k Hp.
    + rewrite O1 by done. unfold owns, is_alloc. by rewrite !Hr1.
    + intros Ho. destruct (O2 p k Hp) as [D E].
      { revert Ho. unfold owns, is_alloc. by rewrite !Hr1. }
      split; [|by rewrite E, Hr1]. intros a Ha. by rewrite D, Hm1.
  - intros n r ->. intros Hfn. pose proof (ie_coal _ _ _ _ Hie) as Hco.
    apply adj_app in Hco as [_ (_ & Hcn & _)].
    assert (n ≠ blk) by (intros ->; apply Hn2; mem). apply Hcn; [done..|]. split; [done|].
    assert (n ∈ l1 ++ blk :: c :: n :: r) as Hnin by mem.
    apply (quiet_status _ _ _ _ _ n Hch1 Hq Hnin) in Hfn.
    revert Hfn. unfold is_free. by rewrite !Hr1.
  - intros f Hf'. rewrite <- Hr1. destruct (decide (f = F_free_next ∨ f = F_free_prev)) as [Hlk|Hlk].
    + by apply Hl.
    + eapply quiet_keep; [exact Hch1|exact Hq|mem|exact Hlk|done].
  - intros f x Hx Hf1 Hf2. rewrite <- Hr1.
    eapply quiet_keep; [exact Hch1|exact Hq|mem|done|done].
Qed.

(** The outcome of freeing the block in transition [blk]. *)
Definition freed (s s' : heap) (bs : list Z) (blk : Z) : Prop :=
  ∃ bs' fl', heap_inv s' bs' fl' ∧ keeps s s' ∧ others s s' bs bs' blk ∧
             is_free s' blk.

Lemma freed_trans s1 s2 s3 bs1 bs2 blk :
  keeps s1 s2 → others s1 s2 bs1 bs2 blk → freed s2 s3 bs2 blk → freed s1 s3 bs1 blk.
Proof.
  intros Hk Ho (bs' & fl' & H1 & H2 & H3 & H4). exists bs', fl'. split_and!; [done| | |done].
  - by eapply keeps_trans.
  - by eapply others_trans.
Qed.

Lemma rover_others s bs blk v : others s (set_rover s v) bs bs blk.
Proof. done. Qed.

(** Second half of [coalesce], free predecessor: the block disappears. *)
Lemma coalesce_prev_ok s l b blk l2 fl :
  inv_except s ((l ++ [b]) ++ blk :: l2) fl blk → is_free s b → is_free s blk →
  (∀ n r, l2 = n :: r → ¬ is_free s n) →
  rd F_free_next s blk = 0 → rd F_free_prev s blk = 0 →
  let s1 := if alloc_rover s =? blk then set_rover s b else s in
  let s2 := merge_into_prev s1 blk in
  freed s (mark_free_hdr s2 (rd F_prev s2 blk)) ((l ++ [b]) ++ blk :: l2) blk.
Proof.
  intros Hie Hf Hfblk Hsucc Hn Hp s1 s2. rewrite <- app_assoc in Hie |- *. cbn [app] in *.
  assert (inv_except s1 (l ++ b :: blk :: l2) fl blk ∧ keeps s s1 ∧
          others s s1 (l ++ b :: blk :: l2) (l ++ b :: blk :: l2) blk ∧
          ∀ f x, rd f s1 x = rd f s x) as (Hie1 & Hk1 & Ho1 & Hr).
  { unfold s1. destruct (alloc_rover s =? blk); [|done].
    split_and!; [by apply set_rover_except|done..]. }
  destruct (into_prev_inv s1 l b blk l2 fl) as (Hinv & Hv & Hfb & Ho & Hpb & Hfin);
    [done|unfold is_free; by rewrite !Hr|unfold is_free; by rewrite !Hr| |by rewrite Hr..|].
  { intros n r El. unfold is_free. rewrite !Hr. by apply (Hsucc n r). }
  fold s2 in Hinv, Hv, Hfb, Ho, Hpb, Hfin. rewrite Hpb.
  assert (far b blk) as Hfar.
  { apply (chain_apart _ _ _ _ (lay_chain _ _ _ _ _ (ie_lay _ _ _ _ Hie))); [mem|mem|].
    intros ->. destruct (chain_notin _ _ _ _ _ _ (lay_chain _ _ _ _ _ (ie_lay _ _ _ _ Hie))). mem. }
  destruct (mark_free_inv s2 _ fl b blk Hinv ltac:(mem) Hfb) as (Hi3 & Ho3 & Hv3 & Hf3).
  exists (l ++ b :: l2), fl. split_and!; [done| | |].
  3:{ unfold is_free, mark_free_hdr. by rewrite !rd_wr_far. }
  - eapply keeps_trans; [exact Hk1|]. by eapply keeps_trans; apply same_keeps.
  - eapply others_trans; [exact Ho1|]. by eapply others_trans.
Qed.

(** Second half of [coalesce], no free predecessor, and the insertion. *)
Lemma coalesce_insert_ok s l1 blk l2 fl :
  inv_except s (l1 ++ blk :: l2) fl blk → is_free s blk →
  (∀ l b, l1 = l ++ [b] → ¬ is_free s b) → (∀ n r, l2 = n :: r → ¬ is_free s n) →
  freed s (fl_insert (mark_free_hdr s blk) blk) (l1 ++ blk :: l2) blk.
Proof.
  intros Hie Hf Hpred Hsucc. set (s1 := mark_free_hdr s blk).
  assert (local_write s s1 blk) as Hl.
  { unfold s1, mark_free_hdr. repeat (apply local_wr; [|field_neq]). apply local_refl. }
  destruct (local_except s s1 _ _ _ Hie Hl) as [Hie1 Ho1]; [done..|].
  assert (is_free s1 blk) as Hf1.
  { unfold is_free, s1, mark_free_hdr. split; rd_simpl; [apply Hf|done]. }
  pose proof (lay_chain _ _ _ _ _ (ie_lay _ _ _ _ Hie)) as Hch.
  destruct (chain_notin _ _ _ _ _ _ Hch) as [Hn1 Hn2].
  assert (∀ x, x ∈ l1 ++ blk :: l2 → x ≠ blk → is_free s1 x → is_free s x) as Hst.
  { intros x Hx Hne. unfold is_free.
    by rewrite !(local_other_field s s1 _ _ _ blk _ x Hch Hl) by (done || mem). }
  destruct (insert_inv s1 l1 blk l2 fl Hie1 Hf1) as (Hi & Hv & Hfi & Hoi).
  { intros l b -> Hfb. apply (Hpred l b eq_refl), Hst; [mem| |done]. intros ->. apply Hn1. mem. }
  { intros n r -> Hfn. apply (Hsucc n r eq_refl), Hst; [mem| |done]. intros ->. apply Hn2. mem. }
  exists (l1 ++ blk :: l2), (blk :: fl). split_and!; [done| |by eapply others_trans|done].
  eapply keeps_trans; [|by apply same_keeps]. done.
Qed.

Lemma coalesce_ok s l1 blk l2 fl :
  inv_except s (l1 ++ blk :: l2) fl blk → is_free s blk →
  rd F_free_next s blk = 0 → rd F_free_prev s blk = 0 →
  let had := nz (rd F_prev s blk) && nz (rd F_free s (rd F_prev s blk)) in
  let '(s', surv) := coalesce s blk in
  freed s (if had then s' else fl_insert s' surv) (l1 ++ blk :: l2) blk.
Proof.
  intros Hie Hf Hn Hp had.
  destruct (coalesce_next_ok s l1 blk l2 fl Hie) as (l2' & fl' & Hie1 & Hk1 & Ho1 & Hsucc & Hkb & Hkl).
  unfold coalesce. set (s1 := coalesce_next s blk) in *.
  pose proof (lay_chain _ _ _ _ _ (ie_lay _ _ _ _ Hie1)) as Hch1.
  destruct (chain_links _ _ _ _ _ _ Hch1) as [_ Hp1].
  destruct (chain_links _ _ _ _ _ _ (lay_chain _ _ _ _ _ (ie_lay _ _ _ _ Hie))) as [_ Hp0].
  destruct (chain_apart _ _ _ _ Hch1) as [Hpos _]. destruct (chain_notin _ _ _ _ _ _ Hch1) as [Hn1 _].
  assert (is_free s1 blk) as Hf1 by (unfold is_free; by rewrite !Hkb by field_neq).
  assert (rd F_free_next s1 blk = 0 ∧ rd F_free_prev s1 blk = 0) as [Hn1' Hp1']
    by (by rewrite !Hkb by field_neq).
  assert (had = nz (rd F_prev s1 blk) && nz (rd F_free s1 (rd F_prev s1 blk))) as Ehad.
  { unfold had. rewrite Hp0, Hp1. destruct l1 as [|x l]; [done|].
    rewrite (Hkl F_free); [done| |field_neq..]. by apply last_or_elem. }
  rewrite <- Ehad. clearbody had. pose proof (freed_trans s s1) as Htr.
  destruct l1 as [|b l _] using rev_ind.
  { rewrite Hp1 in Ehad. cbn in Ehad. rewrite Ehad. eapply Htr; [done..|].
    apply (coalesce_insert_ok s1 [] blk l2' fl'); [done..| |done]. by intros [|? ?] ? ?. }
  rewrite Hp1, last_or_app in Ehad. cbn [last_or] in Ehad.
  rewrite (proj2 (nz_true b)) in Ehad by (pose proof (Hpos b ltac:(mem)); lia). cbn [andb] in Ehad.
  assert (b ≠ blk) as Hne by (intros ->; apply Hn1; mem).
  destruct (free_test _ _ _ _ b Hie1 ltac:(mem) Hne) as [(Eb & Hfb & _)|[Eb Hfb]];
    rewrite Ehad, Eb; (eapply Htr; [done..|]).
  - rewrite Hp1, last_or_app. by eapply coalesce_prev_ok.
  - apply (coalesce_insert_ok s1 (l ++ [b]) blk l2' fl'); [done..| |done].
    intros l' b' E. by apply app_inj_tail in E as [_ <-].
Qed.

(** * kfree *)

Lemma free_stamp_ok s blk :
  let s' := free_stamp s blk in
  local_write s s' blk ∧ is_free s' blk ∧ rd F_free_next s' blk = 0 ∧
  rd F_free_prev s' blk = 0 ∧ rd F_size s' blk = rd F_size s blk ∧ same_vars s s' ∧
  free_head s' = free_head s.
Proof.
  intros s'. assert (local_write s s' blk) as Hl.
  { unfold s', free_stamp. repeat (apply local_wr; [|field_neq]). apply local_refl. }
  split_and!; [done|..|by repeat split|done].
  - unfold is_free, s', free_stamp. split; rd_simpl; done.
  - unfold s', free_stamp. rd_simpl. done.
  - unfold s', free_stamp. rd_simpl. done.
  - apply local_chain_field; [done|by left].
Qed.

(** [heap_used_now] after giving back [amount] bytes: never below zero. *)
Definition give_back (used amount : Z) : Z := if amount <=? used then used -u amount else 0.

Lemma heap_unaccount_vars s v :
  let s' := heap_unaccount s v in
  hmem s' = hmem s ∧ heap_base s' = heap_base s ∧ heap_capacity s' = heap_capacity s ∧
  head s' = head s ∧ free_head s' = free_head s ∧
  heap_used_now s' = give_back (heap_used_now s) v ∧ heap_peak s' = heap_peak s.
Proof. unfold heap_unaccount, give_back. by destruct (v <=? heap_used_now s). Qed.

Lemma ptr_in_range s lo bs hi a :
  chain_ok s lo bs hi → lo = heap_base s → hi = heap_base s + heap_capacity s →
  heap_ptr_in_range s a = (heap_base s <=? a) && (a <? heap_base s + heap_capacity s).
Proof.
  intros [H1 H2 H3 _] -> ->. pose proof (tiles_bounds _ (size_nonneg s) _ _ _ H3) as [H4 _].
  unfold heap_ptr_in_range. rewrite (proj2 (Z.eqb_neq (heap_base s) 0)) by lia.
  rewrite (u64_small (heap_base s + heap_capacity s)) by lia.
  destruct (Z.eqb_spec (heap_capacity s) 0) as [E|]; [|done]. rewrite E. cbn [orb].
  destruct (Z.leb_spec (heap_base s) a), (Z.ltb_spec a (heap_base s + 0)); try done. lia.
Qed.

(** The guards of [kfree] and [krealloc] accept exactly the live allocations'
    headers. *)
Lemma owns_guards s bs fl p n :
  heap_inv s bs fl → owns s bs p n →
  p ≠ 0 ∧ heap_ptr_in_range s p = true ∧ p -u HDR = p - HDR ∧
  heap_ptr_in_range s (p - HDR) = true ∧
  rd F_magic s (p - HDR) = HEAP_MAGIC_ALLOC ∧ rd F_free s (p - HDR) = 0.
Proof.
  intros Hinv Ho. destruct (owns_bounds _ _ _ _ _ Hinv Ho) as (B1 & B2 & _).
  destruct Ho as (Hb & [Hf Hm] & <-). pose proof (inv_chain _ _ _ Hinv) as Hch.
  pose proof (ch_lo _ _ _ _ Hch). pose proof (ch_hi _ _ _ _ Hch).
  pose proof (rd_range F_req_size s (p - HDR)). unfold HDR in *.
  rewrite !(ptr_in_range s _ bs _ _ Hch) by done.
  rewrite (u64_small (p - 64)) by lia. split_and!; lia.
Qed.

Record free_post (s s' : heap) (bs : list Z) (p : Z) : Prop := {
  fp_inv : ∃ bs' fl', heap_inv s' bs' fl' ∧
             (∀ q k, owns s' bs' q k ↔ q ≠ p ∧ owns s bs q k) ∧
             (∀ q k, q ≠ p → owns s bs q k →
                same_data s s' q k ∧ rd F_size s' (q - HDR) = rd F_size s (q - HDR));
  fp_vars : heap_base s' = heap_base s ∧ heap_capacity s' = heap_capacity s ∧
            heap_peak s' = heap_peak s;
  fp_used : heap_used_now s' = give_back (heap_used_now s) (rd F_size s (p - HDR));
  fp_hdr : is_free s' (p - HDR)
}.

Lemma kfree_spec s bs fl p n :
  heap_inv s bs fl → owns s bs p n →
  ∃ s', kfree_nolock s p = (s', if canary_intact s p (p - HDR) then KF_ok else KF_overflow) ∧
        free_post s s' bs p.
Proof.
  intros Hinv Ho. destruct (owns_guards _ _ _ _ _ Hinv Ho) as (G1 & G2 & G3 & G4 & G5 & G6).
  unfold kfree_nolock. rewrite G2, G3, G4, G5, G6, (proj2 (Z.eqb_neq p 0)) by done. cbn [negb].
  rewrite Z.eqb_refl. cbn [negb orb nz]. change (nz 0) with false. cbn iota.
  set (report := if canary_intact _ _ _ then _ else _). destruct Ho as (Hb & Ha & _).
  set (blk := p - HDR) in *. replace p with (blk + HDR) in * by (unfold blk; lia). clearbody blk.
  pose proof (inv_open _ _ _ _ Hinv Hb Ha) as Hie.
  destruct (free_stamp_ok s blk) as (Hl & Hf & Hn & Hp & Hsz & Hv & Hfh).
  set (s1 := free_stamp s blk) in *. clearbody s1.
  destruct (heap_unaccount_vars s1 (rd F_size s1 blk)) as (Um & U1 & U2 & U3 & U4 & U5 & U6).
  set (s2 := heap_unaccount s1 (rd F_size s1 blk)) in *. clearbody s2.
  destruct Hv as (V1 & V2 & V3 & V4 & V5 & V6).
  assert (∀ f x, rd f s2 x = rd f s1 x) as Hr by (intros; unfold rd; by rewrite Um).
  destruct (local_except s s2 bs fl blk Hie) as [Hie2 Ho2]; [|congruence..|].
  { intros a Ha'. rewrite Um. by apply Hl. }
  apply list_elem_of_split in Hb as (l1 & l2 & ->).
  pose proof (coalesce_ok s2 l1 blk l2 fl Hie2) as Hco.
  unfold is_free in Hco. rewrite !Hr in Hco. specialize (Hco Hf Hn Hp). cbn zeta in Hco.
  rewrite !Hr. destruct (coalesce s2 blk) as [s3 surv].
  set (s4 := if _ && _ then s3 else fl_insert s3 surv) in *. clearbody s4.
  exists s4. split; [done|].
  destruct Hco as (bs' & fl' & Hi4 & (K1 & K2 & K3 & K4) & Ho4 & Hb4).
  pose proof (others_trans _ _ _ _ _ _ _ Ho2 Ho4) as [O1 O2].
  split; replace (blk + HDR - HDR) with blk by lia; [|split_and!; congruence|congruence|done].
  exists bs', fl'. split_and!; [done| |done]. intros q k.
  destruct (decide (q = blk + HDR)) as [->|Hq]; [|rewrite O1 by done; tauto].
  split; [|tauto]. intros (Hx & Ha4 & _). replace (blk + HDR - HDR) with blk in * by lia.
  exfalso. apply (not_both s4 blk); auto.
Qed.
