(* ===== verification/HeapKrealloc.v ===== *)
(** [krealloc_nolock] of [mem/heap.c] on its three paths: shrinking in place,
    growing in place over a free successor, and moving. *)
From S2P Require Import Prelude Mem Heap HeapFree HeapChain HeapLayout HeapSplit HeapSpec HeapAlloc HeapKfree.
Import Heap.

(** * Ending an in-place resize *)

Lemma krealloc_stamp_local s blk new_req caller :
  0 < blk → 0 ≤ new_req → new_req + 8 ≤ rd F_size s blk → blk + HDR + rd F_size s blk < 2 ^ 64 →
  let s' := krealloc_stamp s blk new_req caller in
  local_write s s' blk ∧
  ld64 (hmem s') (blk + HDR + new_req) = HEAP_CANARY_QWORD ∧
  rd F_req_size s' blk = new_req ∧
  (∀ f, f ≠ F_req_size → f ≠ F_alloc_caller → rd f s' blk = rd f s blk) ∧
  same_vars s s' ∧ free_head s' = free_head s.
Proof.
  intros Hb Hr Hfit Ht s'. pose proof (rd_size_range s blk).
  set (s1 := wr F_alloc_caller (wr F_req_size s blk new_req) blk caller).
  assert (local_write s s1 blk) as Hl1.
  { unfold s1. repeat (apply local_wr; [|field_neq]). apply local_refl. }
  destruct (put_canary_local s s1 blk new_req Hl1 Hb Hr Hfit Ht) as [Hl Hc].
  assert (s' = put_canary s1 (blk + HDR) new_req) as ->.
  { unfold s', krealloc_stamp. by rewrite (u64_small (blk + HDR)) by (unfold HDR in *; lia). }
  split_and!; [done|done| | |by repeat split|done].
  - rewrite put_canary_hdr by (unfold HDR in *; lia). unfold s1. rd_simpl. done.
  - intros f H1 H2. rewrite put_canary_hdr by (unfold HDR in *; lia).
    unfold s1. rewrite !rd_wr_field by congruence. done.
Qed.

(** The bytes of a live block before its new canary survive the stamp. *)
Lemma krealloc_stamp_data s blk new_req caller a :
  0 < blk → 0 ≤ new_req → blk + HDR + new_req < 2 ^ 64 →
  blk + HDR ≤ a < blk + HDR + new_req →
  ldb (hmem (krealloc_stamp s blk new_req caller)) a = ldb (hmem s) a.
Proof.
  intros Hb Hr Ht Ha. unfold krealloc_stamp, put_canary, set_mem. cbn [hmem].
  rewrite (u64_small (blk + HDR)), (u64_small (blk + HDR + new_req)) by (unfold HDR in *; lia).
  unfold st64. rewrite ldb_st_out by lia. unfold wr, set_mem, hput. cbn [hmem].
  rewrite !ldb_st_out by (cbn; unfold HDR in *; lia). done.
Qed.

(** What a resize in place or a move leaves of the old allocation [p] of [n]
    bytes: [q] is owned with [new_req] bytes, its common prefix is kept, its
    canary is set, and every other allocation is as it was. *)
Record resize_post (s s' : heap) (bs : list Z) (p n q new_req : Z) : Prop := {
  rp_inv : ∃ bs' fl', heap_inv s' bs' fl' ∧
    ∀ r k, owns s' bs' r k ↔ (r = q ∧ k = new_req) ∨ (r ≠ p ∧ owns s bs r k);
  rp_other : ∀ r k, r ≠ p → owns s bs r k → same_data s s' r k;
  rp_data : ∀ i, 0 ≤ i < Z.min n new_req → ldb (hmem s') (q + i) = ldb (hmem s) (p + i);
  rp_canary : ld64 (hmem s') (q + new_req) = HEAP_CANARY_QWORD;
  rp_vars : heap_base s' = heap_base s ∧ heap_capacity s' = heap_capacity s;
  rp_fresh : q = p ∨ ∀ k, ¬ owns s bs q k
}.

Lemma resize_finish s0 s bs0 bs fl blk n new_req caller :
  inv_except s bs fl blk → is_alloc s blk → 0 < new_req → new_req + 8 ≤ rd F_size s blk →
  others s0 s bs0 bs blk →
  (∀ a, blk + HDR ≤ a < blk + HDR + Z.min n new_req → ldb (hmem s) a = ldb (hmem s0) a) →
  heap_base s = heap_base s0 → heap_capacity s = heap_capacity s0 →
  resize_post s0 (krealloc_stamp s blk new_req caller) bs0 (blk + HDR) n (blk + HDR) new_req.
Proof.
  intros Hie Ha Hr Hfit Ho Hdat V1 V2.
  pose proof (lay_chain _ _ _ _ _ (ie_lay _ _ _ _ Hie)) as Hch.
  pose proof (chain_bounds _ _ _ _ Hch blk (ie_in _ _ _ _ Hie)). pose proof (ch_hi _ _ _ _ Hch).
  pose proof (ch_lo _ _ _ _ Hch).
  destruct (krealloc_stamp_local s blk new_req caller) as (Hl & Hc & Hq & Hk & Hv & Hfh); [lia..|].
  set (s' := krealloc_stamp s blk new_req caller) in *.
  destruct Hv as (W1 & W2 & W3 & _).
  destruct (local_except s s' bs fl blk Hie Hl W1 W2 W3 Hfh) as [Hie' Ho'].
  destruct (others_trans _ _ _ _ _ _ _ Ho Ho') as [O1 O2].
  assert (is_alloc s' blk) as Ha' by (unfold is_alloc; by rewrite !Hk).
  split; [| | |done|split; congruence|by left].
  2:{ intros r k Hne Hs. by apply O2. }
  - exists bs, fl. split.
    + eapply inv_finish; [exact Hie'|done|]. rewrite Hq, Hk by done. lia.
    + intros r k. destruct (decide (r = blk + HDR)) as [->|Hne].
      * unfold owns at 1. replace (blk + HDR - HDR) with blk by lia. rewrite Hq.
        split; [intros (_ & _ & <-); by left|].
        intros [[_ ->]|[? _]]; [|done]. split_and!; [apply (ie_in _ _ _ _ Hie)|done..].
      * rewrite O1 by done. tauto.
  - intros i Hi. unfold s'. rewrite krealloc_stamp_data by (unfold HDR in *; lia). apply Hdat. lia.
Qed.

(** * Shrinking *)

Lemma krealloc_shrink_ok s bs fl p n new_req caller :
  heap_inv s bs fl → owns s bs p n → 0 < new_req → new_req + 23 < 2 ^ 64 →
  guarded new_req ≤ rd F_size s (p - HDR) →
  let '(s', q) := krealloc_shrink s p (p - HDR) (guarded new_req) new_req caller in
  q = p ∧ resize_post s s' bs p n q new_req.
Proof.
  intros Hinv (Hb & Ha & Hn) Hr1 Hr2 Hfit. destruct (guarded_spec new_req Hr1 Hr2) as [Hg H16].
  unfold krealloc_shrink. split; [done|].
  set (blk := p - HDR) in *. replace p with (blk + HDR) in * by (unfold blk; lia). clearbody blk.
  pose proof (inv_open _ _ _ _ Hinv Hb Ha) as Hie.
  apply list_elem_of_split in Hb as (l1 & l2 & ->).
  destruct (split_inv s l1 blk l2 fl (guarded new_req) Hie ltac:(lia) H16)
    as (tl & fl' & Hie1 & Hv & Ho & Hsz & Hkb & Hdat).
  set (s1 := split_block s blk (guarded new_req)) in *. clearbody s1.
  set (s2 := if _ <? _ then _ else s1).
  assert (hmem s2 = hmem s1 ∧ heap_base s2 = heap_base s1 ∧ heap_capacity s2 = heap_capacity s1 ∧
          head s2 = head s1 ∧ free_head s2 = free_head s1) as (Em & E1 & E2 & E3 & E4).
  { unfold s2. destruct (_ <? _); [|done].
    by destruct (heap_unaccount_vars s1 (rd F_size s blk -u rd F_size s1 blk))
      as (? & ? & ? & ? & ? & _). }
  clearbody s2. destruct Hv as (V1 & V2 & _).
  destruct (local_except s1 s2 _ _ blk Hie1) as [Hie2 Ho2]; [intros a _; by rewrite Em|done..|].
  assert (∀ f x, rd f s2 x = rd f s1 x) as Hr by (intros; unfold rd; by rewrite Em).
  eapply resize_finish; [exact Hie2| |done| |by eapply others_trans| |congruence..].
  - unfold is_alloc. rewrite !Hr, !Hkb by field_neq. done.
  - rewrite Hr. lia.
  - intros a Ha'. rewrite Em. apply Hdat. lia.
Qed.

(** * Growing in place *)

(** No two neighbours are free, so the scan absorbs exactly one block. *)
Lemma krealloc_scan_one s l1 blk c l2 fl new_size :
  heap_inv s (l1 ++ blk :: c :: l2) fl → is_alloc s blk → is_free s c →
  krealloc_scan (walk_fuel s) s blk c 0 (rd F_size s blk) new_size =
  Some (if alloc_rover s =? c then set_rover s blk else s, c,
        rd F_size s blk + HDR + rd F_size s c).
Proof.
  intros Hinv Ha Hf. pose proof (inv_chain _ _ _ Hinv) as Hch.
  destruct (chain_apart _ _ _ _ Hch) as [Hpos _].
  pose proof (tiles_length _ _ _ _ (ch_tiles _ _ _ _ Hch)) as Hlen.
  rewrite length_app in Hlen. cbn [length] in Hlen.
  assert (∃ k, walk_fuel s = S (S k)) as [k ->].
  { unfold walk_fuel, HDR in *.
    assert (1 ≤ heap_capacity s / 64) by (apply Z.div_le_lower_bound; lia).
    exists (Z.to_nat (heap_capacity s / 64) - 1)%nat. lia. }
  pose proof (merge_size _ _ _ _ _ _ _ Hch) as Hsz.
  pose proof (size_nonneg s blk). pose proof (rd_size_range s c).
  cbn [krealloc_scan]. rewrite (proj2 (nz_true c)) by (pose proof (Hpos c ltac:(mem)); lia).
  destruct Hf as [Hf Hm]. rewrite Hf, Hm, Z.eqb_refl. cbn [negb nz andb].
  change (nz 1) with true. cbn iota.
  set (s1 := if alloc_rover s =? c then set_rover s blk else s).
  assert (∀ f x, rd f s1 x = rd f s x) as Hr by (intros; unfold s1; by destruct (_ =? _)).
  rewrite !Hr. unfold HDR in *. rewrite (u64_small (64 + _)), u64_small by lia.
  rewrite Z.add_assoc. destruct (_ <=? _); [done|].
  replace (l1 ++ blk :: c :: l2) with ((l1 ++ [blk]) ++ c :: l2) in Hch by (by rewrite <- app_assoc).
  destruct (chain_links _ _ _ _ _ _ Hch) as [-> _].
  destruct l2 as [|d l2]; [done|]. cbn [hd_or].
  rewrite (proj2 (nz_true d)) by (pose proof (Hpos d ltac:(mem)); lia). cbn [andb].
  pose proof (hi_coal _ _ _ Hinv) as Hco. apply adj_app in Hco as [_ (_ & Hcd & _)].
  destruct (hi_st _ _ _ Hinv d ltac:(mem)) as [[Hd _]|Hd]; [exfalso; by apply Hcd|].
  rewrite (proj1 Hd). done.
Qed.

(** The pointer surgery of the growth is the merge with one successor. *)
Lemma krealloc_absorb_eq s l1 blk c l2 f1 f2 p acc old new_size new_req caller :
  inv_except s (l1 ++ blk :: c :: l2) (f1 ++ c :: f2) blk →
  acc = rd F_size s blk + HDR + rd F_size s c →
  krealloc_absorb s p blk c acc old new_size new_req caller =
  Some (krealloc_stamp
          (heap_account (split_block (absorb_next s blk) blk new_size) (new_size -u old))
          blk new_req caller, p).
Proof.
  intros Hie ->. pose proof (ie_lay _ _ _ _ Hie) as Hlay.
  pose proof (lay_chain _ _ _ _ _ Hlay) as Hch.
  destruct (chain_apart _ _ _ _ Hch) as [Hpos Hfar].
  destruct (fl_remove_layout _ _ _ _ _ _ _ Hlay) as (Hlay' & Hv & Ht & Hkeep).
  destruct (merge_sets _ _ _ _ _ _ _ Hch) as (_ & _ & Hbc & _).
  pose proof (merge_size _ _ _ _ _ _ _ Hch) as Hsz.
  destruct (chain_links _ _ _ _ _ _ Hch) as [Hnb _]. cbn [hd_or] in Hnb.
  assert (rd F_next s c = hd_or 0 l2) as Hnc.
  { apply (chain_links s (heap_base s) (l1 ++ [blk]) c l2 (heap_base s + heap_capacity s)).
    by rewrite <- app_assoc. }
  assert (c ≠ hd_or 0 l2) as Hne.
  { destruct l2 as [|d r]; simpl; [pose proof (Hpos c ltac:(mem)); lia|]. intros ->.
    destruct (chain_notin s (heap_base s) (l1 ++ [blk]) d (d :: r)
                (heap_base s + heap_capacity s)) as [_ Hn]; [by rewrite <- app_assoc|]. apply Hn. mem. }
  assert (∃ k, walk_fuel s = S (S k)) as [k Ek].
  { pose proof (walk_fuel_enough _ _ _ _ _ Hlay ltac:(lia)) as Hw. rewrite length_app in Hw.
    cbn [length] in Hw. exists (walk_fuel s - 2)%nat. lia. }
  unfold krealloc_absorb. rewrite (proj2 (nz_true c)) by (pose proof (Hpos c ltac:(mem)); lia).
  rewrite Hnb, Hnc, Ek. cbn [krealloc_unlink].
  rewrite (proj2 (nz_true c)) by (pose proof (Hpos c ltac:(mem)); lia).
  rewrite (proj2 (Z.eqb_neq c _)) by done. cbn [negb andb]. rewrite Hnc, Z.eqb_refl.
  rewrite andb_false_r. cbn [mbind option_bind].
  rewrite (absorb_next_eq s blk c); rewrite ?Hkeep; try done; try mem; try field_neq;
    [|apply Hfar; [mem|mem|done]|lia].
  rewrite Hnc. done.
Qed.

Lemma krealloc_grow_ok s l1 blk c l2 f1 f2 n new_req caller :
  let bs := l1 ++ blk :: c :: l2 in
  inv_except s bs (f1 ++ c :: f2) blk → is_alloc s blk →
  n ≤ rd F_size s blk → 0 < new_req → new_req + 23 < 2 ^ 64 →
  guarded new_req ≤ rd F_size s blk + HDR + rd F_size s c →
  ∃ s', krealloc_absorb s (blk + HDR) blk c (rd F_size s blk + HDR + rd F_size s c)
          (rd F_size s blk) (guarded new_req) new_req caller = Some (s', blk + HDR) ∧
        resize_post s s' bs (blk + HDR) n (blk + HDR) new_req.
Proof.
  intros bs Hie Ha Hn Hr1 Hr2 Hfit. destruct (guarded_spec new_req Hr1 Hr2) as [Hg H16].
  rewrite (krealloc_absorb_eq s l1 blk c l2 f1 f2) by done. eexists. split; [done|].
  pose proof (lay_chain _ _ _ _ _ (ie_lay _ _ _ _ Hie)) as Hch.
  destruct (absorb_except _ _ _ _ _ _ _ Hie) as (Hie1 & Hv1 & Ho1 & Hsz1 & Hq1 & _).
  set (s1 := absorb_next s blk) in *. clearbody s1.
  destruct (split_inv s1 l1 blk l2 (f1 ++ f2) (guarded new_req) Hie1 ltac:(lia) H16)
    as (tl & fl' & Hie2 & Hv2 & Ho2 & Hsz2 & Hkb & Hdat).
  set (s2 := split_block s1 blk (guarded new_req)) in *. clearbody s2.
  destruct (heap_account_vars s2 (guarded new_req -u rd F_size s blk))
    as (Am & A1 & A2 & A3 & A4 & _).
  set (s3 := heap_account s2 _) in *. clearbody s3.
  destruct Hv1 as (V1 & V2 & _), Hv2 as (W1 & W2 & _).
  destruct (local_except s2 s3 _ _ blk Hie2) as [Hie3 Ho3]; [intros a _; by rewrite Am|done..|].
  assert (∀ f x, rd f s3 x = rd f s2 x) as Hr by (intros; unfold rd; by rewrite Am).
  eapply resize_finish; [exact Hie3| |done| | | |congruence..].
  - unfold is_alloc. rewrite !Hr, !Hkb by field_neq.
    by apply (quiet_status _ _ _ _ _ blk Hch Hq1 (ie_in _ _ _ _ Hie)).
  - rewrite Hr. lia.
  - eapply others_trans; [exact Ho1|]. by eapply others_trans.
  - intros a Ha'. rewrite Am, Hdat by lia. eapply touch_payload; [exact Hq1|].
    intros x f [Hx _]. eapply hdr_not_in_payload; [exact Hch|apply (ie_in _ _ _ _ Hie)|done|lia].
Qed.

(** * Moving *)

Lemma rd_eq_mem f s s' x : hmem s' = hmem s → rd f s' x = rd f s x.
Proof. intros E. unfold rd. by rewrite E. Qed.

(** A payload write keeps ownership and every other allocation's data. *)
Lemma payload_write_others s bs fl m' p n :
  heap_inv s bs fl → owns s bs p n →
  (∀ a, ¬ (p ≤ a < p + n) → ldb m' a = ldb (hmem s) a) →
  heap_inv (set_mem s m') bs fl ∧
  (∀ q k, owns (set_mem s m') bs q k ↔ owns s bs q k) ∧
  (∀ q k, q ≠ p → owns s bs q k → same_data s (set_mem s m') q k).
Proof.
  intros Hinv Ho Hm. pose proof Ho as (Hb & Ha & <-).
  pose proof (hi_req _ _ _ Hinv _ Hb Ha) as Hreq. pose proof (inv_chain _ _ _ Hinv) as Hch.
  assert (∀ f x, x ∈ bs → rd f (set_mem s m') x = rd f s x) as Hr.
  { intros f x Hx. eapply (payload_rd s _ bs _ m' (p - HDR)); [exact Hch|done..|].
    intros a Ha'. apply Hm. lia. }
  split_and!.
  - apply (heap_inv_ext s); [done..| |exact Hinv]. intros f x Hx _ _. by apply Hr.
  - intros q k. unfold owns, is_alloc. split; intros (Hx & H1 & H2); rewrite !Hr in * by done; done.
  - intros q k Hne Hq a Ha'. apply Hm.
    destruct (owns_apart _ _ _ _ _ _ _ Hinv Ho Hq ltac:(done)); unfold HDR in *; lia.
Qed.

(** Recording the caller in a header is invisible to the contract. *)
Lemma wr_caller_inv s bs fl p n v :
  heap_inv s bs fl → owns s bs p n →
  let s' := wr F_alloc_caller s (p - HDR) v in
  heap_inv s' bs fl ∧ (∀ q k, owns s' bs q k ↔ owns s bs q k) ∧
  (∀ q k, owns s bs q k → same_data s s' q k).
Proof.
  intros Hinv (Hb & Ha & <-) s'. pose proof (inv_chain _ _ _ Hinv) as Hch.
  assert (∀ f x, x ∈ bs → f ≠ F_alloc_caller → rd f s' x = rd f s x) as Hr.
  { intros f x Hx Hf. unfold s'. destruct (decide (x = p - HDR)) as [->|].
    - by apply rd_wr_field.
    - apply rd_wr_far. by apply (chain_apart _ _ _ _ Hch). }
  split_and!.
  - apply (heap_inv_ext s); [done..| |exact Hinv]. intros; by apply Hr.
  - intros q k. unfold owns, is_alloc. split; intros (Hx & H1 & H2); rewrite !Hr in * by done; done.
  - intros q k (Hx & Hax & <-) a Ha'. unfold s', wr, set_mem, hput. cbn [hmem].
    apply ldb_st_out. pose proof (hi_req _ _ _ Hinv _ Hx Hax).
    pose proof (hdr_not_in_payload s _ bs _ (q - HDR) (p - HDR) a Hch Hx Hb ltac:(lia)).
    unfold HDR in *. cbn. lia.
Qed.

Lemma same_data_trans s1 s2 s3 p n : same_data s1 s2 p n → same_data s2 s3 p n → same_data s1 s3 p n.
Proof. intros H1 H2 a Ha. by rewrite H2, H1. Qed.

Lemma canary_kept s s' p n : 0 ≤ n → same_data s s' p n → ld64 (hmem s') (p + n) = ld64 (hmem s) (p + n).
Proof. intros Hn H. apply ld_ext. intros a Ha. apply H. lia. Qed.

(** The fresh block is not a live allocation of the old heap. *)
Lemma alloc_fresh s bs fl p n q :
  heap_inv s bs fl → p - HDR ∈ fl → owns s bs q n → q ≠ p.
Proof.
  intros Hinv Hp (Hb & Ha & _) ->. apply (not_both s (p - HDR)); [|done].
  by apply (lay_free _ _ _ _ _ (hi_lay _ _ _ Hinv)).
Qed.

(** Copying [k] bytes of [p] to the fresh block [q]. *)
Lemma move_copy s bs fl p n q new_req :
  heap_inv s bs fl → owns s bs p n → owns s bs q new_req → p ≠ q →
  0 ≤ n → 0 ≤ new_req →
  let k := if n <? new_req then n else new_req in
  let m' := memcpy (hmem s) q p k in
  k = Z.min n new_req ∧
  (∀ a, ¬ (q ≤ a < q + new_req) → ldb m' a = ldb (hmem s) a) ∧
  (∀ i, 0 ≤ i < k → ldb m' (q + i) = ldb (hmem s) (p + i)).
Proof.
  intros Hinv Hp Hq Hne Hn Hr k m'.
  assert (k = Z.min n new_req) as Hk by (unfold k; destruct (Z.ltb_spec n new_req); lia).
  assert (copied (hmem s) m' q p k) as Hc.
  { apply memcpy_copied; [lia|].
    destruct (owns_apart _ _ _ _ _ _ _ Hinv Hp Hq Hne); unfold HDR in *; lia. }
  split_and!; [done|intros a Ha|intros i Hi]; rewrite Hc.
  - destruct (Z.leb_spec q a), (Z.ltb_spec a (q + k)); try done. lia.
  - destruct (Z.leb_spec q (q + i)), (Z.ltb_spec (q + i) (q + k)); try lia. cbn. f_equal. lia.
Qed.

Lemma krealloc_move_ok s bs fl p n new_req caller :
  heap_inv s bs fl → owns s bs p n → 0 ≤ n → 0 < new_req → new_req + 23 < 2 ^ 64 →
  ∃ s' q, krealloc_move s p n new_req caller = Some (s', q) ∧
    ((q = 0 ∧ s' = s ∧ ∀ b, b ∈ fl → rd F_size s b < guarded new_req) ∨
     (q ≠ 0 ∧ resize_post s s' bs p n q new_req)).
Proof.
  intros Hinv Hp Hn Hr1 Hr2. unfold krealloc_move.
  destruct (kmalloc_spec s bs fl new_req caller Hinv Hr1 Hr2) as (s1 & q & -> & Hk).
  cbn [mbind option_bind].
  destruct Hk as [(-> & -> & Hno)|(Hq & _ & [(bs1 & fl1 & Hi1 & Hoq & [O1 D1]) Hcan [V1 V2] _ _])];
    [by exists s, 0; auto|].
  pose proof (alloc_fresh _ _ _ _ _ _ Hinv Hq Hp) as Hne.
  replace (q - HDR + HDR) with q in * by lia.
  assert (owns s1 bs1 p n) as Hp1 by (by apply O1).
  destruct (owns_guards _ _ _ _ _ Hi1 Hoq) as (Hq0 & _). rewrite (proj2 (Z.eqb_neq q 0)) by done.
  destruct (move_copy s1 bs1 fl1 p n q new_req Hi1 Hp1 Hoq Hne Hn ltac:(lia)) as (Ek & Hout & Hin).
  set (k := if n <? new_req then n else new_req) in *.
  set (m' := memcpy (hmem s1) q p k) in *. clearbody m' k.
  destruct (payload_write_others s1 bs1 fl1 m' q new_req Hi1 Hoq Hout) as (Hi2 & O2 & D2).
  set (s2 := set_mem s1 m') in *.
  destruct (kfree_spec s2 bs1 fl1 p n Hi2 (proj2 (O2 p n) Hp1))
    as (s3 & -> & [(bs3 & fl3 & Hi3 & O3 & D3) (W1 & W2 & _) _ _]).
  assert (owns s3 bs3 q new_req) as Hq3 by (apply O3; split; [done|by apply O2]).
  destruct (owns_guards _ _ _ _ _ Hi3 Hq3) as (_ & _ & E3 & E4 & _). rewrite E3, E4.
  destruct (wr_caller_inv s3 bs3 fl3 q new_req caller Hi3 Hq3) as (Hi4 & O4 & D4).
  set (s4 := wr F_alloc_caller s3 (q - HDR) caller) in *.
  exists s4, q. split; [done|right]. split; [done|].
  assert (same_data s2 s4 q new_req) as Dq.
  { eapply same_data_trans; [apply (D3 q new_req)|by apply D4]; [done|by apply O2]. }
  split.
  - exists bs3, fl3. split; [done|]. intros r j. rewrite O4, O3, O2.
    destruct (decide (r = q)) as [->|Hrq]; [|rewrite O1 by done; naive_solver].
    split; [intros [_ (_ & _ & <-)]; left; split; [done|apply Hoq]|].
    intros [[_ ->]|[_ Hs]]; [done|]. by destruct (alloc_fresh _ _ _ _ _ _ Hinv Hq Hs).
  - intros r j Hrp Hr. pose proof (alloc_fresh _ _ _ _ _ _ Hinv Hq Hr) as Hrq.
    assert (owns s1 bs1 r j) as Hr' by (by apply O1).
    eapply same_data_trans; [by apply D1|]. eapply same_data_trans; [by apply D2|].
    eapply same_data_trans; [apply D3; [done|by apply O2]|]. apply D4, O3.
    split; [done|by apply O2].
  - intros i Hi. rewrite (Dq (q + i)) by lia. change (hmem s2) with m'.
    rewrite (Hin i) by lia. apply (D1 p n); [done..|lia].
  - rewrite (canary_kept s2 s4 q new_req ltac:(lia) Dq). rewrite <- Hcan. apply ld_ext.
    intros a Ha. apply Hout. lia.
  - split; [rewrite <- V1|rewrite <- V2]; done.
  - right. intros j Hj. by destruct (alloc_fresh _ _ _ _ _ _ Hinv Hq Hj).
Qed.

(** * krealloc *)

Lemma rover_inv s bs fl (c : bool) v :
  heap_inv s bs fl → heap_inv (if c then set_rover s v else s) bs fl.
Proof. intros H. destruct c; [|done]. by apply (heap_inv_ext s). Qed.

Lemma owns_mem s s' bs p n : hmem s' = hmem s → owns s' bs p n ↔ owns s bs p n.
Proof. intros E. unfold owns, is_alloc. by rewrite !(rd_eq_mem _ s s' _ E). Qed.

(** The contract does not see [alloc_rover] and the statistics. *)
Lemma resize_post_mem s s1 s' bs p n q r :
  hmem s1 = hmem s → heap_base s1 = heap_base s → heap_capacity s1 = heap_capacity s →
  resize_post s1 s' bs p n q r → resize_post s s' bs p n q r.
Proof.
  intros E V1 V2 [(bs' & fl' & Hi & O) D Hd Hc [W1 W2] Hf]. split; [| | |done|split; congruence|].
  - exists bs', fl'. split; [done|]. intros x k. by rewrite O, (owns_mem s s1).
  - intros x k Hx Hs a Ha. rewrite (D x k); rewrite ?E; try done. by apply (owns_mem s s1).
  - intros i Hi'. rewrite Hd by done. by rewrite E.
  - destruct Hf as [->|Hf]; [by left|right]. intros k. rewrite <- (owns_mem s s1) by done. apply Hf.
Qed.

(** A failed resize leaves the allocation as it was. *)
Definition resize_failed (s s' : heap) (bs fl : list Z) (new_req : Z) : Prop :=
  hmem s' = hmem s ∧ heap_inv s' bs fl ∧ heap_used_now s' = heap_used_now s ∧
  ∀ b, b ∈ fl → rd F_size s b < guarded new_req.

Lemma krealloc_spec s bs fl p n new_req caller :
  heap_inv s bs fl → owns s bs p n → 0 < new_req → new_req + 23 < 2 ^ 64 →
  ∃ s' q, krealloc_nolock s p new_req caller = Some (s', q) ∧
    ((q = 0 ∧ resize_failed s s' bs fl new_req) ∨ (q ≠ 0 ∧ resize_post s s' bs p n q new_req)).
Proof.
  intros Hinv Hp Hr1 Hr2.
  destruct (owns_guards _ _ _ _ _ Hinv Hp) as (G1 & G2 & G3 & G4 & G5 & G6).
  unfold krealloc_nolock. rewrite G2, G3, G4, G5, G6, (proj2 (Z.eqb_neq p 0)) by done.
  rewrite (proj2 (Z.eqb_neq new_req 0)), Z.eqb_refl by lia. cbn [negb orb].
  change (nz 0) with false. cbn iota zeta.
  pose proof Hp as (Hb & Ha & Hn). rewrite Hn.
  assert (0 ≤ n) as Hn0 by (pose proof (rd_range F_req_size s (p - HDR)); lia).
  pose proof (hi_req _ _ _ Hinv _ Hb Ha) as Hreq.
  assert (∀ s1, hmem s1 = hmem s → keeps s s1 → heap_inv s1 bs fl →
    ∃ s' q, krealloc_move s1 p n new_req caller = Some (s', q) ∧
      ((q = 0 ∧ resize_failed s s' bs fl new_req) ∨
       (q ≠ 0 ∧ resize_post s s' bs p n q new_req))) as Hmove.
  { intros s1 E (K1 & K2 & K3 & _) Hi1.
    destruct (krealloc_move_ok s1 bs fl p n new_req caller Hi1) as (s' & q & -> & Hk);
      [by apply (owns_mem s s1)|done..|].
    exists s', q. split; [done|]. destruct Hk as [(-> & -> & Hno)|[Hq0 Hk]]; [left|right].
    - split; [done|]. split_and!; [done..|]. intros b Hbf. rewrite <- (rd_eq_mem _ s s1 _ E). auto.
    - split; [done|]. by eapply resize_post_mem. }
  destruct (Z.leb_spec (guarded new_req) (rd F_size s (p - HDR))) as [Hle|Hgt].
  { pose proof (krealloc_shrink_ok s bs fl p n new_req caller Hinv Hp Hr1 Hr2 Hle) as Hs.
    destruct (krealloc_shrink _ _ _ _ _ _) as [s' q]. destruct Hs as [-> Hs]. exists s', p. auto. }
  set (blk := p - HDR) in *. assert (p = blk + HDR) as Ep by (unfold blk; lia). clearbody blk.
  apply list_elem_of_split in Hb as (l1 & l2 & Ebs). rewrite Ebs in Hinv.
  pose proof (inv_chain _ _ _ Hinv) as Hch. destruct (chain_links _ _ _ _ _ _ Hch) as [Hnx _].
  rewrite Hnx. destruct l2 as [|c l2]; [apply Hmove; by rewrite ?Ebs|]. cbn [hd_or].
  pose proof (inv_open _ _ _ _ Hinv ltac:(mem) Ha) as Hie.
  destruct (chain_apart _ _ _ _ Hch) as [Hpos _]. destruct (chain_notin _ _ _ _ _ _ Hch) as [_ Hnc].
  rewrite (proj2 (nz_true c)) by (pose proof (Hpos c ltac:(mem)); lia). cbn [andb].
  assert (c ≠ blk) as Hcb by (intros ->; apply Hnc; mem).
  destruct (free_test _ _ _ _ c Hie ltac:(mem) Hcb) as [(-> & Hf & Hcf)|[-> Hf]];
    [|apply Hmove; by rewrite ?Ebs].
  rewrite (krealloc_scan_one s l1 blk c l2 fl) by done. cbn [mbind option_bind].
  set (s1 := if alloc_rover s =? c then set_rover s blk else s).
  assert (hmem s1 = hmem s ∧ keeps s s1) as [E K] by (unfold s1; by destruct (_ =? _)).
  assert (heap_inv s1 (l1 ++ blk :: c :: l2) fl) as Hi1 by (by apply rover_inv).
  destruct (Z.leb_spec (guarded new_req) (rd F_size s blk + HDR + rd F_size s c)) as [Hle|_];
    [|apply Hmove; by rewrite ?Ebs].
  rewrite <- !(rd_eq_mem F_size s s1 _ E) in *. apply list_elem_of_split in Hcf as (f1 & f2 & ->).
  assert (is_alloc s1 blk) as Ha1 by (unfold is_alloc; by rewrite !(rd_eq_mem _ s s1 _ E)).
  destruct (krealloc_grow_ok s1 l1 blk c l2 f1 f2 n new_req caller
              (inv_open _ _ _ _ Hi1 ltac:(mem) Ha1) Ha1 ltac:(lia) Hr1 Hr2 Hle) as (s' & Es & Hs).
  rewrite Ep, Es. exists s', (blk + HDR). split; [done|right].
  pose proof (Hpos blk ltac:(mem)). split; [unfold HDR; lia|]. rewrite Ebs.
  destruct K as (K1 & K2 & _). by eapply resize_post_mem.
Qed.
