(* ===== verification/HeapProps.v ===== *)
(** The allocator contract of [mem/heap.c]: the theorems clients rely on, their
    instances on a concrete heap, and a decision procedure for the invariant. *)
From S2P Require Import Prelude Mem Heap HeapFree HeapChain HeapLayout HeapSplit HeapSpec HeapAlloc HeapKfree HeapKrealloc.
Import Heap.

(** * Deciding the invariant *)

#[export] Instance tiles_dec sz a l e : Decision (tiles sz a l e).
Proof. revert a. induction l as [|b l IH]; intros a; simpl; apply _. Defined.
#[export] Instance seg_dec nxt prv p l q : Decision (seg nxt prv p l q).
Proof. revert p. induction l as [|b l IH]; intros p; simpl; apply _. Defined.
#[export] Instance adj_dec P `{∀ b c, Decision (P b c)} l : Decision (adj P l).
Proof. induction l as [|b [|c l] IH]; simpl; apply _. Defined.
#[export] Instance is_free_dec s b : Decision (is_free s b).
Proof. unfold is_free. apply _. Defined.
#[export] Instance is_alloc_dec s b : Decision (is_alloc s b).
Proof. unfold is_alloc. apply _. Defined.
#[export] Instance far_dec b c : Decision (far b c).
Proof. unfold far. apply _. Defined.

(** The invariant with its bounded quantifiers as [Forall]. *)
Definition heap_inv_list (s : heap) (bs fl : list Z) : Prop :=
  let lo := heap_base s in
  let hi := heap_base s + heap_capacity s in
  (0 < lo ∧ hi < 2 ^ 64 ∧ tiles (rd F_size s) lo bs hi ∧
   seg (rd F_next s) (rd F_prev s) 0 bs 0) ∧
  (NoDup fl ∧ Forall (λ b, 0 < b < 2 ^ 64) fl ∧
   Forall (λ b, Forall (λ c, b ≠ c → far b c) fl) fl ∧
   seg (rd F_free_next s) (rd F_free_prev s) 0 fl 0 ∧ free_head s = hd_or 0 fl) ∧
  Forall (λ b, b ∈ bs ∧ is_free s b) fl ∧ head s = lo ∧
  Forall (λ b, ((is_free s b ∧ b ∈ fl) ∨ is_alloc s b) ∧
               (is_alloc s b → rd F_req_size s b + 8 ≤ rd F_size s b) ∧
               (b - lo) `mod` 16 = 0) bs ∧
  adj (λ b c, ¬ (is_free s b ∧ is_free s c)) bs.

#[export] Instance heap_inv_list_dec s bs fl : Decision (heap_inv_list s bs fl).
Proof. unfold heap_inv_list. cbn zeta. apply _. Defined.

Lemma heap_inv_decided s bs fl : bool_decide (heap_inv_list s bs fl) = true → heap_inv s bs fl.
Proof.
  intros ((H1 & H2 & H3 & H4) & (F1 & F2 & F3 & F4 & F5) & H5 & H6 & H7 & H8)%bool_decide_eq_true_1.
  rewrite Forall_forall in F2, F3, H5, H7.
  assert (∀ b c, b ∈ fl → c ∈ fl → b ≠ c → far b c) as Hfar.
  { intros b c Hb Hc Hne. specialize (F3 b Hb). rewrite Forall_forall in F3. auto. }
  split; [split; [split|split| |]| |..]; try done.
  - intros b Hb. by apply H5.
  - intros b Hb. by apply H5.
  - intros b Hb. by apply H7.
  - intros b Hb. by apply H7.
  - intros b Hb. by apply H7.
Qed.

(** A 4 KiB arena, and the heap after two allocations. *)
Definition h0 : heap := heap_init 0 ∅ 0x1000 4096.
Definition h1 : heap := (default (h0, 0) (kmalloc_nolock h0 100 7)).1.
Definition h2 : heap := (default (h1, 0) (kmalloc_nolock h1 200 7)).1.
Lemma h0_inv : heap_inv h0 [0x1000] [0x1000].
Proof. apply heap_inv_decided. vm_compute. done. Defined.
Lemma h2_inv : heap_inv h2 [0x1000; 0x10b0; 0x11c0] [0x11c0].
Proof. apply heap_inv_decided. vm_compute. done. Defined.

(** * kmalloc *)

(** C6: [kmalloc] on a well-formed heap always returns.  Either it returns null,
    changes nothing, and no free block is large enough; or it returns a 16-byte
    aligned (relative to the arena) pointer inside the arena, sets the canary
    after the requested bytes, keeps the invariant, adds exactly this allocation
    to the live ones, and neither moves, overlaps nor touches any other one. *)
Theorem kmalloc_correct s bs fl req caller :
  heap_inv s bs fl → 0 < req → req + 23 < 2 ^ 64 →
  ∃ s' p, kmalloc_nolock s req caller = Some (s', p) ∧
    ((p = 0 ∧ s' = s ∧ ∀ b, b ∈ bs → is_free s b → rd F_size s b < guarded req) ∨
     ∃ bs' fl', heap_inv s' bs' fl' ∧
       heap_base s + HDR ≤ p ∧ p + req + 8 ≤ heap_base s + heap_capacity s ∧
       (p - heap_base s) `mod` 16 = 0 ∧ ld64 (hmem s') (p + req) = HEAP_CANARY_QWORD ∧
       (∀ q k, owns s' bs' q k ↔ (q = p ∧ k = req) ∨ owns s bs q k) ∧
       (∀ q k, owns s bs q k →
          same_data s s' q k ∧ (p + req + 8 ≤ q - HDR ∨ q + k + 8 ≤ p - HDR))).
Proof.
  intros Hinv Hr1 Hr2.
  destruct (kmalloc_spec s bs fl req caller Hinv Hr1 Hr2) as (s' & p & -> & Hk).
  exists s', p. split; [done|]. destruct Hk as [(-> & -> & Hno)|(Hp & _ & Hpost)]; [left|right].
  { split_and!; [done..|]. intros b Hb Hf. by apply Hno, (inv_free_iff _ _ _ _ Hinv). }
  destruct Hpost as [(bs' & fl' & Hi & Ho & [O1 O2]) Hcan [V1 V2] _ _].
  replace (p - HDR + HDR) with p in * by lia.
  destruct (owns_bounds _ _ _ _ _ Hi Ho) as (B1 & B2 & B3). rewrite V1, ?V2 in *.
  exists bs', fl'. split_and!; try done.
  - intros q k. destruct (decide (q = p)) as [->|Hne].
    + split; [intros (_ & _ & <-); left; split; [done|apply Ho]|].
      intros [[_ ->]|Hs]; [done|]. by destruct (alloc_fresh _ _ _ _ _ _ Hinv Hp Hs).
    + rewrite O1 by done. naive_solver.
  - intros q k Hs. pose proof (alloc_fresh _ _ _ _ _ _ Hinv Hp Hs) as Hne.
    split; [by apply O2|].
    apply (owns_apart s' bs' fl' p req q k); [done..|by apply O1|done].
Qed.

Lemma kmalloc_correct_witness :
  ∃ s' p, kmalloc_nolock h2 300 7 = Some (s', p) ∧ p = 0x1200.
Proof.
  destruct (kmalloc_correct h2 _ _ 300 7 h2_inv ltac:(lia) ltac:(lia)) as (s' & p & E & _).
  exists s', p. split; [done|].
  assert ((default (h0, 0) (kmalloc_nolock h2 300 7)).2 = 0x1200) as H by (vm_compute; done).
  rewrite E in H. exact H.
Defined.

(** * The diagnostic walks *)

Lemma largest_walk_spec s fl :
  fl_ok s fl → (∀ b, b ∈ fl → is_free s b) →
  ∀ f2 fuel f1 mx, fl = f1 ++ f2 → (length f2 < fuel)%nat →
  largest_walk fuel s (hd_or 0 f2) mx = Some (foldl Z.max mx (rd F_size s <$> f2)).
Proof.
  intros Hfl Hfree f2. induction f2 as [|b f2 IH]; intros [|fuel] f1 mx -> Hfuel; simpl in Hfuel; try lia.
  { done. }
  destruct (fl_next _ _ _ _ Hfl) as [Hn Hb]. cbn [largest_walk hd_or].
  rewrite (proj2 (Z.eqb_neq b 0)) by lia.
  destruct (Hfree b ltac:(mem)) as [-> _]. change (nz 1) with true. cbn [andb]. rewrite Hn.
  rewrite (IH fuel (f1 ++ [b])) by (rewrite <- ?app_assoc; done || lia).
  cbn. f_equal. f_equal. destruct (Z.ltb_spec mx (rd F_size s b)); lia.
Qed.

Lemma sizes_nonneg s l : 0 ≤ sumZ (rd F_size s <$> l).
Proof. apply sumZ_nonneg. intros x (b & -> & _)%list_elem_of_fmap. apply size_nonneg. Qed.

Lemma total_walk_spec s fl :
  fl_ok s fl → (∀ b, b ∈ fl → is_free s b) →
  ∀ f2 fuel f1 t, fl = f1 ++ f2 → (length f2 < fuel)%nat → 0 ≤ t →
  t + sumZ (rd F_size s <$> f2) < 2 ^ 64 →
  total_walk fuel s (hd_or 0 f2) t = Some (t + sumZ (rd F_size s <$> f2)).
Proof.
  intros Hfl Hfree f2. induction f2 as [|b f2 IH];
    intros [|fuel] f1 t -> Hfuel Ht Hs; simpl in Hfuel; try lia.
  { cbn. by rewrite Z.add_0_r. }
  destruct (fl_next _ _ _ _ Hfl) as [Hn Hb]. cbn [total_walk hd_or].
  rewrite (proj2 (Z.eqb_neq b 0)) by lia.
  destruct (Hfree b ltac:(mem)) as [-> _]. change (nz 1) with true. cbn iota. rewrite Hn.
  pose proof (size_nonneg s b). pose proof (sizes_nonneg s f2).
  rewrite fmap_cons, sumZ_cons in *. rewrite u64_small by lia.
  rewrite (IH fuel (f1 ++ [b])); [f_equal; lia|by rewrite <- app_assoc|lia..].
Qed.

Lemma foldl_max_le mx l x : foldl Z.max mx l < x ↔ mx < x ∧ ∀ y, y ∈ l → y < x.
Proof.
  revert mx. induction l as [|z l IH]; intros mx; cbn.
  - split; [|tauto]. intros H. split; [done|]. by intros y ?%not_elem_of_nil.
  - rewrite IH. split.
    + intros [H1 H2]. split; [lia|]. intros y [->|?]%elem_of_cons; [lia|auto].
    + intros [H1 H2]. pose proof (H2 z ltac:(mem)). split; [lia|]. intros y Hy. apply H2. mem.
Qed.

Lemma sizes_sub s l k : l ⊆+ k → sumZ (rd F_size s <$> l) ≤ sumZ (rd F_size s <$> k).
Proof.
  intros [r ->]%submseteq_Permutation. rewrite fmap_app, sumZ_app.
  pose proof (sizes_nonneg s r). lia.
Qed.
Lemma tiles_sizes s lo l hi : tiles (rd F_size s) lo l hi → sumZ (rd F_size s <$> l) ≤ hi - lo.
Proof.
  revert lo. induction l as [|b l IH]; intros lo; cbn [tiles]; [intros ->; cbn; lia|].
  intros [-> Ht]. apply IH in Ht. rewrite fmap_cons, sumZ_cons. unfold HDR in *. lia.
Qed.

(** The free payloads fit in the arena. *)
Lemma free_sizes_bound s bs fl :
  heap_inv s bs fl → sumZ (rd F_size s <$> fl) ≤ heap_capacity s.
Proof.
  intros Hinv. pose proof (hi_lay _ _ _ Hinv) as Hlay.
  assert (fl ⊆+ bs) as Hs%(sizes_sub s)
    by (apply NoDup_submseteq; [apply (lay_fl _ _ _ _ _ Hlay)|apply (lay_sub _ _ _ _ _ Hlay)]).
  pose proof (tiles_sizes _ _ _ _ (ch_tiles _ _ _ _ (inv_chain _ _ _ Hinv))). lia.
Qed.

(** Both diagnostic walks terminate.  [heap_total_free_bytes] is the sum of
    the free payloads, and [heap_largest_free_block] is the exact threshold of
    [kmalloc]: it fails if and only if the rounded request is larger. *)
Theorem heap_diagnostics_exact s bs fl req caller :
  heap_inv s bs fl → 0 < req → req + 23 < 2 ^ 64 →
  heap_total_free_bytes s = Some (sumZ (rd F_size s <$> fl)) ∧
  ∃ big, heap_largest_free_block s = Some big ∧
    ((∃ s', kmalloc_nolock s req caller = Some (s', 0)) ↔ big < guarded req).
Proof.
  intros Hinv Hr1 Hr2. pose proof (hi_lay _ _ _ Hinv) as [Hch Hfl Hsub Hfree].
  pose proof (walk_fuel_enough _ _ _ _ _ (hi_lay _ _ _ Hinv) ltac:(lia)) as Hfuel.
  pose proof (free_sizes_bound _ _ _ Hinv). pose proof (ch_lo _ _ _ _ Hch).
  pose proof (ch_hi _ _ _ _ Hch). destruct (guarded_spec req Hr1 Hr2) as [Hg _].
  unfold heap_total_free_bytes, heap_largest_free_block. rewrite (fl_head _ _ Hfl).
  rewrite (total_walk_spec s fl Hfl Hfree fl _ []) by (done || lia).
  rewrite (largest_walk_spec s fl Hfl Hfree fl _ []) by done.
  split; [done|]. eexists. split; [done|]. rewrite foldl_max_le.
  destruct (kmalloc_spec s bs fl req caller Hinv Hr1 Hr2) as (s' & p & -> & Hk).
  split.
  - intros [s'' [= -> ->]]. split; [lia|]. intros y (b & -> & Hb)%list_elem_of_fmap.
    destruct Hk as [(_ & _ & Hno)|(Hp & _)]; [by apply Hno|].
    pose proof (chain_bounds _ _ _ _ Hch _ (Hsub _ Hp)). unfold HDR in *. lia.
  - intros [_ Hno]. destruct Hk as [(-> & -> & _)|(Hp & Hfit & _)]; [by exists s|].
    pose proof (Hno (rd F_size s (p - HDR)) ltac:(apply list_elem_of_fmap; eauto)). lia.
Qed.

Lemma heap_diagnostics_exact_witness :
  heap_total_free_bytes h2 = Some 3584 ∧
  ∃ big, heap_largest_free_block h2 = Some big ∧
    ((∃ s', kmalloc_nolock h2 4000 7 = Some (s', 0)) ↔ big < guarded 4000).
Proof.
  destruct (heap_diagnostics_exact h2 _ _ 4000 7 h2_inv ltac:(lia) ltac:(lia)) as [_ H].
  split; [vm_compute; reflexivity|exact H].
Defined.

(** * kfree *)

(** C8: freeing a live allocation always succeeds; the report says whether the
    canary is intact.  The invariant still holds, the allocation is no longer
    live, every other one keeps its address, size and bytes, and freeing the
    same pointer again is caught: the second call reports a double free and
    changes nothing. *)
Theorem kfree_correct s bs fl p n :
  heap_inv s bs fl → owns s bs p n →
  ∃ s' bs' fl',
    kfree_nolock s p = (s', if canary_intact s p (p - HDR) then KF_ok else KF_overflow) ∧
    heap_inv s' bs' fl' ∧
    (∀ q k, owns s' bs' q k ↔ q ≠ p ∧ owns s bs q k) ∧
    (∀ q k, q ≠ p → owns s bs q k → same_data s s' q k) ∧
    kfree_nolock s' p = (s', KF_double_free).
Proof.
  intros Hinv Ho. destruct (kfree_spec s bs fl p n Hinv Ho) as (s' & E & [Hi (V1 & V2 & _) _ Hf]).
  destruct Hi as (bs' & fl' & Hi & O & D). exists s', bs', fl'. split_and!; [done..| |].
  { intros q k Hq Hs. by apply (D q k). }
  destruct (owns_guards _ _ _ _ _ Hinv Ho) as (G1 & G2 & G3 & G4 & _).
  unfold kfree_nolock. rewrite (proj2 (Z.eqb_neq p 0)) by done. rewrite G3.
  assert (∀ a, heap_ptr_in_range s' a = heap_ptr_in_range s a) as ->.
  { intros a. unfold heap_ptr_in_range. by rewrite V1, V2. }
  assert (heap_ptr_in_range s' (p - HDR) = true) as ->.
  { rewrite <- G4. unfold heap_ptr_in_range. by rewrite V1, V2. }
  rewrite G2. destruct Hf as [-> ->]. done.
Qed.

Lemma kfree_correct_witness :
  owns h2 [0x1000; 0x10b0; 0x11c0] 0x1040 100 ∧
  ∃ s', kfree_nolock h2 0x1040 = (s', KF_ok) ∧ kfree_nolock s' 0x1040 = (s', KF_double_free).
Proof.
  assert (owns h2 [0x1000; 0x10b0; 0x11c0] 0x1040 100) as Ho
    by (split_and!; [mem|vm_compute; done..]).
  split; [exact Ho|]. destruct (kfree_correct h2 _ _ _ _ h2_inv Ho) as (s' & _ & _ & E & _ & _ & _ & E').
  exists s'. split; [|exact E']. rewrite E. vm_compute canary_intact. reflexivity.
Defined.

(** A pointer that is not the payload of a live allocation is rejected with
    the heap untouched whenever the guards can tell: null, outside the arena,
    a header outside the arena, or a header that is not marked allocated. *)
Theorem kfree_rejects s ptr :
  ptr = 0 ∨ heap_ptr_in_range s ptr = false ∨ heap_ptr_in_range s (ptr -u HDR) = false ∨
  rd F_magic s (ptr -u HDR) ≠ HEAP_MAGIC_ALLOC ∨ rd F_free s (ptr -u HDR) ≠ 0 →
  ∃ r, kfree_nolock s ptr = (s, r) ∧ r ≠ KF_ok ∧ r ≠ KF_overflow.
Proof.
  intros H. unfold kfree_nolock. destruct (Z.eqb_spec ptr 0); [by exists KF_null|].
  destruct (heap_ptr_in_range s ptr); [|by exists KF_out_of_range].
  destruct (heap_ptr_in_range s (ptr -u HDR)); [|by exists KF_bad_header_ptr]. cbn [negb].
  destruct (Z.eqb_spec (rd F_magic s (ptr -u HDR)) HEAP_MAGIC_ALLOC);
    [|by exists KF_double_free]. cbn [negb orb].
  rewrite (proj2 (nz_true (rd F_free s (ptr -u HDR)))); [by exists KF_double_free|].
  destruct H as [?|[?|[?|[?|?]]]]; done.
Qed.

Lemma kfree_rejects_witness :
  ∃ r, kfree_nolock h2 0x1200 = (h2, r) ∧ r ≠ KF_ok ∧ r ≠ KF_overflow.
Proof. apply kfree_rejects. right. right. right. left. vm_compute. done. Defined.

(** * krealloc and kcalloc *)

(** C7: [krealloc] of a live allocation always returns.  It returns null and
    leaves memory as it was only when no free block holds the request;
    otherwise the new allocation replaces the old one, the common prefix of the
    bytes is preserved whether it was resized in place or moved, its canary is
    set, and every other allocation keeps its bytes. *)
Theorem krealloc_correct s bs fl p n new_req caller :
  heap_inv s bs fl → owns s bs p n → 0 < new_req → new_req + 23 < 2 ^ 64 →
  ∃ s' q, krealloc_nolock s p new_req caller = Some (s', q) ∧
    ((q = 0 ∧ hmem s' = hmem s ∧ heap_inv s' bs fl ∧
        ∀ b, b ∈ fl → rd F_size s b < guarded new_req) ∨
     ∃ bs' fl', heap_inv s' bs' fl' ∧
       (∀ r k, owns s' bs' r k ↔ (r = q ∧ k = new_req) ∨ (r ≠ p ∧ owns s bs r k)) ∧
       (∀ i, 0 ≤ i < Z.min n new_req → ldb (hmem s') (q + i) = ldb (hmem s) (p + i)) ∧
       ld64 (hmem s') (q + new_req) = HEAP_CANARY_QWORD ∧
       (∀ r k, r ≠ p → owns s bs r k → same_data s s' r k)).
Proof.
  intros Hinv Hp Hr1 Hr2.
  destruct (krealloc_spec s bs fl p n new_req caller Hinv Hp Hr1 Hr2) as (s' & q & -> & Hk).
  exists s', q. split; [done|].
  destruct Hk as [(-> & E & Hi & _ & Hno)|[_ [(bs' & fl' & Hi & O) D1 D2 Hc _ _]]]; [by left|right].
  by exists bs', fl'.
Qed.

Lemma krealloc_correct_witness :
  ∃ s' q, krealloc_nolock h2 0x1040 1000 9 = Some (s', q) ∧
    (∀ i, 0 ≤ i < 100 → ldb (hmem s') (q + i) = ldb (hmem h2) (0x1040 + i)).
Proof.
  assert (owns h2 [0x1000; 0x10b0; 0x11c0] 0x1040 100) as Ho
    by (split_and!; [mem|vm_compute; done..]).
  destruct (krealloc_correct h2 _ _ _ _ 1000 9 h2_inv Ho ltac:(lia) ltac:(lia))
    as (s' & q & E & [(-> & _)|(_ & _ & _ & _ & H & _)]).
  - exfalso. assert ((default (h0, 0) (krealloc_nolock h2 0x1040 1000 9)).2 ≠ 0) as Hn
      by (vm_compute; done).
    rewrite E in Hn. apply Hn. reflexivity.
  - exists s', q. split; [exact E|exact H].
Defined.

(** [kcalloc] whose product does not wrap returns null, changing nothing, or
    a fresh allocation of [num * size] bytes that are all zero, with every other
    allocation untouched. *)
Theorem kcalloc_correct s bs fl num size caller :
  heap_inv s bs fl → 0 < num * size → num * size + 23 < 2 ^ 64 →
  ∃ s' p, kcalloc s num size caller = Some (s', p) ∧
    ((p = 0 ∧ s' = s) ∨
     ∃ bs' fl', heap_inv s' bs' fl' ∧ owns s' bs' p (num * size) ∧
       (∀ i, 0 ≤ i < num * size → ldb (hmem s') (p + i) = 0) ∧
       (∀ q k, owns s bs q k → owns s' bs' q k ∧ same_data s s' q k)).
Proof.
  intros Hinv Hr1 Hr2. unfold kcalloc. rewrite (u64_small (num * size)) by lia.
  destruct (kmalloc_spec s bs fl (num * size) caller Hinv Hr1 Hr2) as (s1 & p & -> & Hk).
  cbn [mbind option_bind].
  destruct Hk as [(-> & -> & _)|(Hp & _ & [(bs' & fl' & Hi & Ho & [O1 O2]) _ _ _ _])].
  { exists s, 0. split; [done|by left]. }
  replace (p - HDR + HDR) with p in * by lia.
  destruct (owns_guards _ _ _ _ _ Hi Ho) as (Hp0 & _). rewrite (proj2 (nz_true p)) by done.
  pose proof (memset_filled (hmem s1) p 0 (num * size) ltac:(lia)) as Hf.
  set (m' := memset (hmem s1) p 0 (num * size)) in *. clearbody m'.
  destruct (payload_write_others s1 bs' fl' m' p _ Hi Ho) as (Hi2 & P1 & P2).
  { intros a Ha. rewrite Hf.
    destruct (Z.leb_spec p a), (Z.ltb_spec a (p + num * size)); try done. lia. }
  exists (set_mem s1 m'), p. split; [done|right]. exists bs', fl'. split_and!; [done|by apply P1| |].
  - intros i Hi'. cbn. rewrite Hf.
    destruct (Z.leb_spec p (p + i)), (Z.ltb_spec (p + i) (p + num * size)); try lia. done.
  - intros q k Hq. pose proof (alloc_fresh _ _ _ _ _ _ Hinv Hp Hq) as Hne.
    assert (owns s1 bs' q k) as Hq1 by (by apply O1). split; [by apply P1|].
    eapply same_data_trans; [by apply O2|by apply P2].
Qed.

Lemma kcalloc_correct_witness :
  ∃ s' p, kcalloc h2 10 20 7 = Some (s', p) ∧ ∀ i, 0 ≤ i < 200 → ldb (hmem s') (p + i) = 0.
Proof.
  destruct (kcalloc_correct h2 _ _ 10 20 7 h2_inv ltac:(lia) ltac:(lia))
    as (s' & p & E & [(-> & _)|(_ & _ & _ & _ & H & _)]).
  - exfalso. assert ((default (h0, 0) (kcalloc h2 10 20 7)).2 ≠ 0) as Hn by (vm_compute; done).
    rewrite E in Hn. apply Hn. reflexivity.
  - exists s', p. split; [exact E|exact H].
Defined.

(** The size arithmetic wraps.  [kmalloc] of [2^64 - 8] bytes succeeds with a
    block of payload size zero and puts the canary on its own header, and
    [kcalloc] of [2^62 + 5] elements of 4 bytes succeeds with 20 usable bytes. *)
Theorem kmalloc_size_wraps :
  ('(s, p) ← kmalloc_nolock h0 (2 ^ 64 - 8) 7;
   Some (p, rd F_size s (p - HDR), rd F_alloc_caller s (p - HDR)))
    = Some (0x1040, 0, HEAP_CANARY_QWORD) ∧
  ('(s, p) ← kcalloc h0 (2 ^ 62 + 5) 4 7; Some (p, rd F_req_size s (p - HDR)))
    = Some (0x1040, 20).
Proof. split; vm_compute; reflexivity. Qed.

(** * Accounting *)

Definition live (s : heap) (bs : list Z) : list Z := filter (is_alloc s) bs.
Definition live_bytes (s : heap) (bs : list Z) : Z := sumZ (rd F_size s <$> live s bs).

(** Live blocks other than [blk], and their sizes, are the same. *)
Lemma live_others s s' bs bs' fl fl' blk :
  heap_inv s bs fl → heap_inv s' bs' fl' → others s s' bs bs' blk →
  sumZ (rd F_size s' <$> filter (λ b, b ≠ blk) (live s' bs')) =
  sumZ (rd F_size s <$> filter (λ b, b ≠ blk) (live s bs)).
Proof.
  intros Hi Hi' [O1 O2].
  assert (filter (λ b, b ≠ blk) (live s' bs') ≡ₚ filter (λ b, b ≠ blk) (live s bs)) as ->.
  { apply NoDup_Permutation.
    - by eapply NoDup_filter, NoDup_filter, chain_NoDup, inv_chain.
    - by eapply NoDup_filter, NoDup_filter, chain_NoDup, inv_chain.
    - intros b. unfold live. rewrite !list_elem_of_filter.
      destruct (decide (b = blk)) as [->|Hne]; [tauto|].
      specialize (O1 (b + HDR)). unfold owns in O1. replace (b + HDR - HDR) with b in O1 by lia.
      split; intros (_ & Ha & Hb); (split; [done|]);
        [destruct (proj1 (O1 (rd F_req_size s' b) ltac:(lia)) ltac:(done)) as (? & ? & _)
        |destruct (proj2 (O1 (rd F_req_size s b) ltac:(lia)) ltac:(done)) as (? & ? & _)]; done. }
  f_equal. apply list_fmap_ext. intros i b Hb%list_elem_of_lookup_2.
  unfold live in Hb. rewrite !list_elem_of_filter in Hb. destruct Hb as (Hne & Ha & Hb).
  destruct (O2 (b + HDR) (rd F_req_size s b)) as [_ E]; [lia| |].
  - unfold owns. by replace (b + HDR - HDR) with b by lia.
  - by replace (b + HDR - HDR) with b in E by lia.
Qed.

Lemma live_split s bs fl blk :
  heap_inv s bs fl →
  live_bytes s bs = (if decide (blk ∈ bs ∧ is_alloc s blk) then rd F_size s blk else 0) +
                    sumZ (rd F_size s <$> filter (λ b, b ≠ blk) (live s bs)).
Proof.
  intros Hi. unfold live_bytes. pose proof (chain_NoDup _ _ _ _ (inv_chain _ _ _ Hi)) as Hnd.
  assert (NoDup (live s bs)) as Hl by (by apply NoDup_filter).
  assert (∀ l : list Z, blk ∉ l → filter (λ b, b ≠ blk) l = l) as Hid.
  { intros l. induction l as [|b l IH]; [done|]. intros Hn%not_elem_of_cons. rewrite filter_cons.
    destruct (decide (b ≠ blk)) as [_|E]; [by rewrite IH by tauto|]. exfalso. naive_solver. }
  destruct (decide (blk ∈ bs ∧ is_alloc s blk)) as [[Hb Ha]|Hno].
  - assert (blk ∈ live s bs) as Hin by (by apply list_elem_of_filter).
    apply list_elem_of_split in Hin as (l1 & l2 & E). rewrite E in Hl |- *.
    apply NoDup_app in Hl as (_ & H1 & [H2 _]%NoDup_cons).
    rewrite filter_app, filter_cons, decide_False by (intros Hx; by apply Hx).
    rewrite !Hid by (done || (intros Hx; apply (H1 blk Hx); mem)).
    rewrite !fmap_app, fmap_cons, !sumZ_app, sumZ_cons. lia.
  - rewrite Hid; [lia|]. unfold live. rewrite list_elem_of_filter. tauto.
Qed.

Lemma live_bytes_bound s bs fl : heap_inv s bs fl → 0 ≤ live_bytes s bs < 2 ^ 64.
Proof.
  intros Hinv. unfold live_bytes. pose proof (inv_chain _ _ _ Hinv) as Hch.
  pose proof (sizes_nonneg s (live s bs)).
  pose proof (sizes_sub s (live s bs) bs ltac:(apply sublist_submseteq, sublist_filter)).
  pose proof (tiles_sizes _ _ _ _ (ch_tiles _ _ _ _ Hch)). pose proof (ch_lo _ _ _ _ Hch).
  pose proof (ch_hi _ _ _ _ Hch). lia.
Qed.

(** [heap_used_now] is exact across [kmalloc] and [kfree]: if it is the total
    payload of the live blocks before the call, it is so after it. *)
Theorem heap_used_exact s bs fl :
  heap_inv s bs fl → heap_used_now s = live_bytes s bs →
  (∀ req caller, 0 < req → req + 23 < 2 ^ 64 →
     ∃ s' p bs' fl', kmalloc_nolock s req caller = Some (s', p) ∧ heap_inv s' bs' fl' ∧
       heap_used_now s' = live_bytes s' bs') ∧
  (∀ p n, owns s bs p n →
     ∃ s' r bs' fl', kfree_nolock s p = (s', r) ∧ heap_inv s' bs' fl' ∧
       heap_used_now s' = live_bytes s' bs').
Proof.
  intros Hinv Hused. split.
  - intros req caller Hr1 Hr2.
    destruct (kmalloc_spec s bs fl req caller Hinv Hr1 Hr2) as (s' & p & -> & Hk).
    destruct Hk as [(-> & -> & _)|(Hp & _ & [(bs' & fl' & Hi & Ho & Hoth) _ _ Hu _])];
      [by exists s, 0, bs, fl|].
    exists s', p, bs', fl'. split_and!; [done..|].
    pose proof (live_bytes_bound _ _ _ Hi). destruct Ho as (Hb & Ha & _).
    pose proof (live_others _ _ _ _ _ _ _ Hinv Hi Hoth) as El.
    rewrite (live_split s' bs' fl' (p - HDR) Hi) in *. rewrite decide_True in * by done.
    rewrite (live_split s bs fl (p - HDR) Hinv), decide_False in Hused.
    + rewrite Hu, Hused, <- El. rewrite u64_small by lia. lia.
    + intros [_ Ha']. apply (not_both s (p - HDR)); [|done].
      by apply (lay_free _ _ _ _ _ (hi_lay _ _ _ Hinv)).
  - intros p n Ho. destruct (kfree_spec s bs fl p n Hinv Ho) as (s' & E & [Hi _ Hu Hf]).
    destruct Hi as (bs' & fl' & Hi & O & D). eexists s', _, bs', fl'. split_and!; [done..|].
    assert (others s s' bs bs' (p - HDR)) as Hoth.
    { split; intros q k; replace (p - HDR + HDR) with p by lia; intros Hq; [|by apply D].
      rewrite O. tauto. }
    pose proof (live_others _ _ _ _ _ _ _ Hinv Hi Hoth) as El. destruct Ho as (Hb & Ha & _).
    pose proof (live_bytes_bound _ _ _ Hinv) as Hbd.
    rewrite (live_split s' bs' fl' (p - HDR) Hi), decide_False, El
      by (intros [_ Ha']; by apply (not_both s' (p - HDR))).
    rewrite (live_split s bs fl (p - HDR) Hinv), decide_True in * by done.
    rewrite Hu, Hused. pose proof (size_nonneg s (p - HDR)).
    pose proof (sizes_nonneg s (filter (λ b, b ≠ p - HDR) (live s bs))).
    unfold give_back. rewrite (proj2 (Z.leb_le _ _)) by lia. rewrite u64_small by lia. lia.
Qed.

Lemma heap_used_exact_witness :
  ∃ s' p bs' fl', kmalloc_nolock h2 300 7 = Some (s', p) ∧ heap_inv s' bs' fl' ∧
    heap_used_now s' = live_bytes s' bs'.
Proof.
  assert (heap_used_now h2 = live_bytes h2 [0x1000; 0x10b0; 0x11c0]) as Hu by (vm_compute; done).
  apply (proj1 (heap_used_exact h2 _ _ h2_inv Hu)); lia.
Defined.

(** Growing in place breaks that accounting.  [krealloc] adds the rounded
    request to [heap_used_now], but [split_block] may leave the block larger:
    here 16 bytes of live payload are missing from the count afterwards. *)
Theorem krealloc_undercounts :
  heap_used_now h2 = live_bytes h2 [0x1000; 0x10b0; 0x11c0] ∧
  ('(s, p) ← krealloc_nolock h2 0x10f0 3832 7;
   Some (p, live_bytes s [0x1000; 0x10b0] - heap_used_now s)) = Some (0x10f0, 16).
Proof. split; vm_compute; reflexivity. Qed.
