(* ===== verification/HeapClient.v ===== *)
(** The allocator of [mem/heap.c] as its clients see it: a refinement of an abstract
    allocator that keeps, for every live pointer, the bytes the client stored.

    A client is any strategy that chooses its next request from the requests and answers
    so far.  The abstract allocator is a function of the answer: an answer it does not
    accept (an overlapping pointer, a byte that is not the one stored, a rejected free)
    has no next state. *)
From S2P Require Import Prelude Mem Heap HeapFree HeapChain HeapLayout HeapSplit HeapSpec HeapAlloc HeapKfree HeapKrealloc HeapProps.
Import Heap.

(** * Requests and answers *)

Inductive request :=
  | Malloc (n caller : Z) | Calloc (num size caller : Z) | Free (p : Z) | Realloc (p n caller : Z)
  | Store (p i v : Z) | Load (p i : Z).
Inductive response := Ptr (p : Z) | Freed (r : kfree_report) | Byte (v : Z) | Stored.

(** The request on the concrete heap. *)
Definition serve (s : heap) (r : request) : option (heap * response) :=
  match r with
  | Malloc n c => '(s, p) ← kmalloc_nolock s n c; Some (s, Ptr p)
  | Calloc k n c => '(s, p) ← kcalloc s k n c; Some (s, Ptr p)
  | Free p => let '(s, r) := kfree_nolock s p in Some (s, Freed r)
  | Realloc p n c => '(s, q) ← krealloc_nolock s p n c; Some (s, Ptr q)
  | Store p i v => Some (set_mem s (stb (hmem s) (p + i) v), Stored)
  | Load p i => Some (s, Byte (ldb (hmem s) (p + i)))
  end.

(** * The abstract allocator *)

(** The contents of every live allocation; [None] is a byte never written. *)
Abbreviation store := (gmap Z (list (option Z))).

(** What a client may ask for. *)
Definition allowed (S : store) (r : request) : Prop :=
  match r with
  | Malloc n _ => 0 < n ∧ n + 23 < 2 ^ 64
  | Calloc k n _ => 0 < k * n ∧ k * n + 23 < 2 ^ 64
  | Free p => is_Some (S !! p)
  | Realloc p n _ => is_Some (S !! p) ∧ 0 < n ∧ n + 23 < 2 ^ 64
  | Store p i v => ∃ l, S !! p = Some l ∧ 0 ≤ i < length l
  | Load p i => ∃ l, S !! p = Some l ∧ 0 ≤ i < length l
  end.

(** [n] bytes at [p], with the 8 bytes of the guard, lie in the arena, are aligned to 16
    bytes from its start and meet no live allocation. *)
Definition fresh (lo hi : Z) (S : store) (p n : Z) : bool :=
  (lo <? p) && (p + n + 8 <=? hi) && ((p - lo) `mod` 16 =? 0) &&
  bool_decide (map_Forall (λ q l, p + n + 8 ≤ q ∨ q + length l + 8 ≤ p) S).

(** The first [n] bytes of [l], and unwritten ones behind them. *)
Definition resized (l : list (option Z)) (n : Z) : list (option Z) :=
  take (Z.to_nat n) l ++ replicate (Z.to_nat n - length l) None.

Definition astep (lo hi : Z) (S : store) (r : request) (a : response) : option store :=
  match r, a with
  | Malloc n _, Ptr p =>
      if p =? 0 then Some S
      else if fresh lo hi S p n then Some (<[p := replicate (Z.to_nat n) None]> S) else None
  | Calloc k n _, Ptr p =>
      if p =? 0 then Some S
      else if fresh lo hi S p (k * n) then Some (<[p := replicate (Z.to_nat (k * n)) (Some 0)]> S) else None
  | Free p, Freed KF_ok => Some (delete p S)
  | Realloc p n _, Ptr q =>
      if q =? 0 then Some S
      else
        l ← S !! p;
        if fresh lo hi (delete p S) q n then Some (<[q := resized l n]> (delete p S)) else None
  | Store p i v, Stored => l ← S !! p; Some (<[p := <[Z.to_nat i := Some (u8 v)]> l]> S)
  | Load p i, Byte v =>
      l ← S !! p; o ← l !! Z.to_nat i;
      match o with
      | Some w => if v =? w then Some S else None
      | None => if (0 <=? v) && (v <? 2 ^ 8) then Some S else None
      end
  | _, _ => None
  end.

Definition wanted (r : request) : Z :=
  match r with Malloc n _ | Realloc _ n _ => n | Calloc k n _ => k * n | _ => 0 end.

(** When a request may be refused: the heap's own [heap_largest_free_block] is too small
    for it, and that is the whole arena when nothing is live. *)
Definition refusable (lo hi : Z) (s : heap) (S : store) (n : Z) : Prop :=
  ∃ big, heap_largest_free_block s = Some big ∧ big < guarded n ∧ (S = ∅ → big = hi - lo - HDR).

(** The conversation of a client with the heap. *)
Fixpoint served (fuel : nat) (lo hi : Z) (next : list (request * response) → option request)
    (s : heap) (S : store) (past : list (request * response)) : Prop :=
  match fuel with
  | O => True
  | Datatypes.S fuel =>
      match next past with
      | None => True
      | Some r =>
          allowed S r →
          ∃ s' a S', serve s r = Some (s', a) ∧ astep lo hi S r a = Some S' ∧
            (a = Ptr 0 → refusable lo hi s S (wanted r)) ∧
            served fuel lo hi next s' S' (past ++ [(r, a)])
      end
  end.

(** * The simulation *)

(** The bytes of a live allocation, and its guard. *)
Definition holds (s : heap) (p : Z) (l : list (option Z)) : Prop :=
  (∀ (i : nat) v, l !! i = Some (Some v) → ldb (hmem s) (p + i) = v) ∧ ld64 (hmem s) (p + length l) = HEAP_CANARY_QWORD.

Section sim.
Context (lo hi : Z) (Hsize : HDR ≤ hi - lo).

Record sim (s : heap) (S : store) (bs fl : list Z) : Prop := {
  sm_inv : heap_inv s bs fl;
  sm_base : heap_base s = lo;
  sm_cap : heap_capacity s = hi - lo;
  sm_owns : ∀ p n, owns s bs p n ↔ ∃ l, S !! p = Some l ∧ Z.of_nat (length l) = n;
  sm_data : ∀ p l, S !! p = Some l → holds s p l
}.

Lemma holds_same s s' p l : same_data s s' p (length l) → holds s p l → holds s' p l.
Proof.
  intros Hs [H1 H2]. split.
  - intros i v Hi. pose proof (lookup_lt_Some _ _ _ Hi). rewrite Hs by lia. by apply H1.
  - by rewrite (canary_kept s s') by (done || lia).
Qed.

Lemma sim_live s S bs fl p l : sim s S bs fl → S !! p = Some l → owns s bs p (length l).
Proof. intros M Hp. apply (sm_owns _ _ _ _ M). by exists l. Qed.

(** A new allocation in place of the others it leaves alone. *)
Lemma sim_insert s' S bs' fl' p n l :
  heap_inv s' bs' fl' → heap_base s' = lo → heap_capacity s' = hi - lo → Z.of_nat (length l) = n →
  (∀ q k, owns s' bs' q k ↔ (q = p ∧ k = n) ∨ (q ≠ p ∧ ∃ l, S !! q = Some l ∧ Z.of_nat (length l) = k)) →
  holds s' p l → (∀ q l, q ≠ p → S !! q = Some l → holds s' q l) →
  S !! p = None → fresh lo hi S p n = true ∧ sim s' (<[p := l]> S) bs' fl'.
Proof.
  intros Hi B1 B2 Hl HO Hp Hq Hn. assert (owns s' bs' p n) as Ho by (apply HO; by left).
  destruct (owns_bounds _ _ _ _ _ Hi Ho) as (C1 & C2 & C3). rewrite B1, ?B2 in *. split.
  - unfold fresh. rewrite C3. unfold HDR in *. destruct (Z.ltb_spec lo p); [|lia]. destruct (Z.leb_spec (p + n + 8) hi); [|lia].
    cbn [andb Z.eqb]. apply bool_decide_eq_true. intros q k Hk.
    destruct (decide (q = p)) as [->|Hne]; [by rewrite Hn in Hk|].
    assert (owns s' bs' q (length k)) as Hok by (apply HO; right; split; [done|by exists k]).
    destruct (owns_apart _ _ _ _ _ _ _ Hi Ho Hok (not_eq_sym Hne)); unfold HDR in *; lia.
  - split; [done..| |].
    + intros q k. rewrite HO. destruct (decide (q = p)) as [->|Hne].
      * rewrite lookup_insert_eq. split; [intros [[_ ->]|[? _]]; [by exists l|done]|]. intros (l' & [= <-] & <-). by left.
      * rewrite lookup_insert_ne by done. naive_solver.
    + intros q k. destruct (decide (q = p)) as [->|Hne]; [rewrite lookup_insert_eq; by intros [= <-]|].
      rewrite lookup_insert_ne by done. by apply Hq.
Qed.

(** * Refusals *)

Lemma tiles_end sz a l e e' : tiles sz a l e → tiles sz a l e' → e = e'.
Proof. revert a. induction l as [|b l IH]; intros a; cbn [tiles]; [congruence|]. intros [_ H1] [_ H2]. eauto. Qed.

(** Without live allocations the arena is one free block. *)
Lemma all_free s bs fl : heap_inv s bs fl → (∀ p n, ¬ owns s bs p n) → HDR ≤ heap_capacity s →
  fl = [heap_base s] ∧ rd F_size s (heap_base s) = heap_capacity s - HDR.
Proof.
  intros Hi Hno Hc. pose proof (hi_lay _ _ _ Hi) as [Hch Hfl Hsub Hfree].
  assert (∀ b, b ∈ bs → is_free s b ∧ b ∈ fl) as Hall.
  { intros b Hb. destruct (hi_st _ _ _ Hi b Hb) as [?|Ha]; [done|]. destruct (Hno (b + HDR) (rd F_req_size s b)).
    unfold owns. by replace (b + HDR - HDR) with b by lia. }
  pose proof (ch_tiles _ _ _ _ Hch) as Ht. pose proof (hi_coal _ _ _ Hi) as Hco.
  destruct bs as [|b [|c bs]]; cbn [tiles] in Ht; [unfold HDR in *; lia| |].
  - destruct Ht as [-> Ht]. split; [|lia]. pose proof (fl_nodup _ _ Hfl) as Hnd.
    apply Permutation_singleton_r. apply NoDup_Permutation; [done|apply NoDup_singleton|].
    intros x. split; [apply Hsub|]. intros ->%list_elem_of_singleton. apply Hall. mem.
  - destruct Hco as [Hbc _]. destruct Hbc. split; apply Hall; mem.
Qed.

Lemma refused_ok s S bs fl n : sim s S bs fl → 0 < n → n + 23 < 2 ^ 64 →
  (∀ b, b ∈ fl → rd F_size s b < guarded n) → refusable lo hi s S n.
Proof.
  intros M Hn1 Hn2 Hno. pose proof (sm_inv _ _ _ _ M) as Hi. pose proof (hi_lay _ _ _ Hi) as [Hch Hfl Hsub Hfree].
  pose proof (walk_fuel_enough _ _ _ _ _ (hi_lay _ _ _ Hi) ltac:(pose proof (ch_lo _ _ _ _ Hch); pose proof (ch_hi _ _ _ _ Hch); lia)) as Hfuel.
  destruct (guarded_spec n Hn1 Hn2) as [Hg _]. unfold refusable, heap_largest_free_block. rewrite (fl_head _ _ Hfl).
  rewrite (largest_walk_spec s fl Hfl Hfree fl _ []) by done. eexists. split; [done|]. split.
  - apply foldl_max_le. split; [lia|]. intros y (b & -> & Hb)%list_elem_of_fmap. by apply Hno.
  - intros ->. destruct (all_free s bs fl Hi) as [-> E].
    + intros p k (l & Hl & _)%(sm_owns _ _ _ _ M). by rewrite lookup_empty in Hl.
    + by rewrite (sm_cap _ _ _ _ M).
    + cbn. rewrite E, (sm_cap _ _ _ _ M). lia.
Qed.

(** * One lemma per request *)

Lemma fresh_pos S p n : 0 < lo → fresh lo hi S p n = true → p ≠ 0.
Proof. intros Hlo H ->. unfold fresh in H. destruct (Z.ltb_spec lo 0); [lia|]. done. Qed.

Lemma malloc_sim s S bs fl n c : sim s S bs fl → 0 < n → n + 23 < 2 ^ 64 →
  ∃ s' p, kmalloc_nolock s n c = Some (s', p) ∧
    ((p = 0 ∧ s' = s ∧ refusable lo hi s S n) ∨
     (S !! p = None ∧ fresh lo hi S p n = true ∧ ∃ bs' fl', sim s' (<[p := replicate (Z.to_nat n) None]> S) bs' fl')).
Proof.
  intros M Hn1 Hn2. pose proof M as [Hi B1 B2 HO HD].
  destruct (kmalloc_spec s bs fl n c Hi Hn1 Hn2) as (s' & p & -> & Hk). exists s', p. split; [done|].
  destruct Hk as [(-> & -> & Hno)|(Hp & _ & [(bs' & fl' & Hi' & Ho & [O1 O2]) Hcan [V1 V2] _ _])].
  { left. split_and!; [done..|]. by eapply refused_ok. }
  right. replace (p - HDR + HDR) with p in * by lia. assert (S !! p = None) as Hnone.
  { destruct (S !! p) as [k|] eqn:E; [|done]. by destruct (alloc_fresh _ _ _ _ _ _ Hi Hp (sim_live _ _ _ _ _ _ M E)). }
  split; [done|]. destruct (sim_insert s' S bs' fl' p n (replicate (Z.to_nat n) None)) as [F1 F2]; try done; try congruence.
  - rewrite length_replicate. lia.
  - intros q k. destruct (decide (q = p)) as [->|Hne].
    + split; [intros (_ & _ & <-); left; split; [done|apply Ho]|]. intros [[_ ->]|[? _]]; done.
    + rewrite O1, HO by done. naive_solver.
  - split; [|by rewrite length_replicate, Z2Nat.id by lia]. intros i v Hiv. by apply lookup_replicate_1 in Hiv as [? _].
  - intros q l Hne Hl. apply (holds_same s); [|by apply HD]. by apply O2, (sim_live _ _ _ _ _ _ M Hl).
  - split; [exact F1|by exists bs', fl'].
Qed.

(** Writing the bytes of one allocation. *)
Lemma fill_sim s S bs fl p l l' m' : sim s S bs fl → S !! p = Some l → length l' = length l →
  (∀ a, ¬ (p ≤ a < p + length l) → ldb m' a = ldb (hmem s) a) →
  (∀ (i : nat) v, l' !! i = Some (Some v) → ldb m' (p + i) = v) → sim (set_mem s m') (<[p := l']> S) bs fl.
Proof.
  intros M Hp Hl Hout Hin. pose proof M as [Hi B1 B2 HO HD]. pose proof (sim_live _ _ _ _ _ _ M Hp) as Ho.
  destruct (payload_write_others s bs fl m' p (length l) Hi Ho Hout) as (Hi' & O & D). split; [done..| |].
  - intros q k. rewrite O, HO. destruct (decide (q = p)) as [->|Hne]; [|by rewrite lookup_insert_ne].
    rewrite lookup_insert_eq, Hp. split; intros (x & [= <-] & <-); eexists; (split; [done|lia]).
  - intros q k. destruct (decide (q = p)) as [->|Hne].
    + rewrite lookup_insert_eq. intros [= <-]. split; [exact Hin|]. rewrite Hl, <- (proj2 (HD p l Hp)).
      apply ld_ext. intros a Ha. apply Hout. lia.
    + rewrite lookup_insert_ne by done. intros Hk. apply (holds_same s); [|by apply HD].
      apply D; [done|]. by apply (sim_live _ _ _ _ _ _ M).
Qed.

Lemma calloc_sim s S bs fl k n c : sim s S bs fl → 0 < k * n → k * n + 23 < 2 ^ 64 →
  ∃ s' p, kcalloc s k n c = Some (s', p) ∧
    ((p = 0 ∧ s' = s ∧ refusable lo hi s S (k * n)) ∨
     (p ≠ 0 ∧ fresh lo hi S p (k * n) = true ∧ ∃ bs' fl', sim s' (<[p := replicate (Z.to_nat (k * n)) (Some 0)]> S) bs' fl')).
Proof.
  intros M H1 H2. unfold kcalloc. rewrite (u64_small (k * n)) by lia.
  destruct (malloc_sim s S bs fl (k * n) c M H1 H2) as (s1 & p & -> & [(-> & -> & R)|(Hn & Hf & bs' & fl' & M')]); cbn [mbind option_bind].
  { exists s, 0. split; [done|by left]. }
  assert (p ≠ 0) as Hp. { apply (fresh_pos S p (k * n)); [|done]. rewrite <- (sm_base _ _ _ _ M). apply (ch_lo _ _ _ _ (inv_chain _ _ _ (sm_inv _ _ _ _ M))). }
  rewrite (proj2 (nz_true p)) by done. eexists _, p. split; [done|right]. split_and!; [done..|]. exists bs', fl'.
  pose proof (memset_filled (hmem s1) p 0 (k * n) ltac:(lia)) as Hfill.
  rewrite <- (insert_insert_eq S p (replicate (Z.to_nat (k * n)) (Some 0)) (replicate (Z.to_nat (k * n)) None)).
  eapply fill_sim; [exact M'|apply lookup_insert_eq|by rewrite !length_replicate|..].
  - intros a Ha. rewrite length_replicate in Ha. rewrite Hfill. destruct (Z.leb_spec p a), (Z.ltb_spec a (p + k * n)); try done. lia.
  - intros i v Hi. apply lookup_replicate_1 in Hi as [[= ->] Hi]. rewrite Hfill.
    destruct (Z.leb_spec p (p + i)), (Z.ltb_spec (p + i) (p + k * n)); try lia. done.
Qed.

Lemma free_sim s S bs fl p l : sim s S bs fl → S !! p = Some l →
  ∃ s', kfree_nolock s p = (s', KF_ok) ∧ ∃ bs' fl', sim s' (delete p S) bs' fl'.
Proof.
  intros M Hp. pose proof M as [Hi B1 B2 HO HD]. pose proof (sim_live _ _ _ _ _ _ M Hp) as Ho.
  destruct (kfree_spec s bs fl p _ Hi Ho) as (s' & E & [(bs' & fl' & Hi' & O & D) (V1 & V2 & _) _ _]).
  assert (canary_intact s p (p - HDR) = true) as Hcan.
  { destruct (owns_bounds _ _ _ _ _ Hi Ho) as (C1 & C2 & _). pose proof (inv_chain _ _ _ Hi) as Hch.
    pose proof (ch_lo _ _ _ _ Hch). pose proof (ch_hi _ _ _ _ Hch).
    unfold canary_intact. rewrite (proj2 (proj2 Ho)). unfold HDR in *. rewrite (u64_small (p + length l)) by lia.
    assert (heap_range_in_range s (p + length l) 8 = true) as ->; [|by rewrite (proj2 (HD p l Hp))].
    unfold heap_range_in_range. cbv zeta. rewrite (u64_small (heap_base s + heap_capacity s)), u64_small by lia.
    cbn [Z.eqb]. rewrite (proj2 (Z.eqb_neq (heap_base s) 0)), (proj2 (Z.eqb_neq (heap_capacity s) 0)) by lia. cbn [orb].
    rewrite (proj2 (Z.ltb_ge (p + length l) _)), (proj2 (Z.leb_gt _ (p + length l))), (proj2 (Z.ltb_ge (_ - _) 8)) by lia. done. }
  rewrite Hcan in E. exists s'. split; [done|]. exists bs', fl'. split; [done|congruence|congruence| |].
  - intros q k. rewrite O, HO. destruct (decide (q = p)) as [->|Hne].
    + rewrite lookup_delete_eq. split; [by intros [? _]|by intros (? & ? & _)].
    + rewrite lookup_delete_ne by done. naive_solver.
  - intros q k [Hne Hk]%lookup_delete_Some. apply (holds_same s); [|by apply HD].
    apply D; [done|]. by apply (sim_live _ _ _ _ _ _ M).
Qed.

Lemma resized_length l n : 0 ≤ n → Z.of_nat (length (resized l n)) = n.
Proof. intros. unfold resized. rewrite length_app, length_take, length_replicate. lia. Qed.

Lemma realloc_sim s S bs fl p l n c : sim s S bs fl → S !! p = Some l → 0 < n → n + 23 < 2 ^ 64 →
  ∃ s' q, krealloc_nolock s p n c = Some (s', q) ∧
    ((q = 0 ∧ refusable lo hi s S n ∧ sim s' S bs fl) ∨
     (q ≠ 0 ∧ fresh lo hi (delete p S) q n = true ∧ ∃ bs' fl', sim s' (<[q := resized l n]> (delete p S)) bs' fl')).
Proof.
  intros M Hp Hn1 Hn2. pose proof M as [Hi B1 B2 HO HD]. pose proof (sim_live _ _ _ _ _ _ M Hp) as Ho.
  destruct (krealloc_spec s bs fl p _ n c Hi Ho Hn1 Hn2) as (s' & q & -> & Hk). exists s', q. split; [done|].
  destruct Hk as [(-> & Em & Hi' & _ & Hno)|(Hq & [(bs' & fl' & Hi' & O) D1 D2 Hc [V1 V2] Hf])].
  - left. split; [done|]. split; [by eapply refused_ok|].
    pose proof (ch_tiles _ _ _ _ (inv_chain _ _ _ Hi)) as T1. pose proof (ch_tiles _ _ _ _ (inv_chain _ _ _ Hi')) as T2.
    assert (rd F_size s' = rd F_size s) as Es by (unfold rd; by rewrite Em).
    destruct bs as [|b bs]; [exfalso; apply (not_elem_of_nil (p - HDR)), Ho|]. rewrite Es in T2.
    assert (heap_base s' = heap_base s) as Eb by (destruct T1 as [<- _], T2 as [<- _]; done).
    rewrite Eb in T2. pose proof (tiles_end _ _ _ _ _ T1 T2).
    split; [done|congruence|lia| |].
    + intros r k. by rewrite (owns_mem s s').
    + intros r k Hr. unfold holds. rewrite Em. by apply HD.
  - right. split; [done|]. assert (delete p S !! q = None) as Hnone.
    { rewrite lookup_delete_None. destruct Hf as [->|Hf]; [by left|right].
      destruct (S !! q) as [j|] eqn:E; [|done]. by destruct (Hf _ (sim_live _ _ _ _ _ _ M E)). }
    destruct (sim_insert s' (delete p S) bs' fl' q n (resized l n)) as [F1 F2]; try done; try congruence.
    + apply resized_length. lia.
    + intros r k. rewrite O, HO. destruct (decide (r = q)) as [->|Hne].
      * split; [|naive_solver]. intros [?|[Hr (l' & Hl' & _)]]; [naive_solver|].
        rewrite lookup_delete_ne in Hnone by done. congruence.
      * destruct (decide (r = p)) as [->|Hrp]; [rewrite lookup_delete_eq|rewrite lookup_delete_ne by done]; naive_solver.
    + split; [|by rewrite resized_length by lia]. intros i v Hiv. unfold resized in Hiv.
      apply lookup_app_Some in Hiv as [Hiv|[_ Hiv]]; [|by apply lookup_replicate_1 in Hiv as [? _]].
      apply lookup_take_Some in Hiv as [Hiv Hlt]. pose proof (lookup_lt_Some _ _ _ Hiv).
      rewrite D2 by lia. by apply (HD p l Hp).
    + intros r k Hne [Hrp Hr]%lookup_delete_Some. apply (holds_same s); [|by apply HD].
      apply D1; [done|]. by apply (sim_live _ _ _ _ _ _ M).
    + split; [exact F1|by exists bs', fl'].
Qed.

Lemma serve_sim s S bs fl r : sim s S bs fl → allowed S r →
  ∃ s' a S', serve s r = Some (s', a) ∧ astep lo hi S r a = Some S' ∧
    (a = Ptr 0 → refusable lo hi s S (wanted r)) ∧ ∃ bs' fl', sim s' S' bs' fl'.
Proof.
  intros M Hal. pose proof (ch_lo _ _ _ _ (inv_chain _ _ _ (sm_inv _ _ _ _ M))) as Hlo. rewrite (sm_base _ _ _ _ M) in Hlo.
  destruct r as [n c|k n c|p|p n c|p i v|p i]; cbn [allowed serve wanted astep] in *.
  - destruct (malloc_sim s S bs fl n c M) as (s' & p & -> & [(-> & -> & R)|(_ & F & M')]); [tauto..| |].
    { exists s, (Ptr 0), S. split_and!; [done..|by exists bs, fl]. }
    pose proof (fresh_pos _ _ _ Hlo F) as Hp. exists s', (Ptr p). eexists. split; [done|].
    rewrite (proj2 (Z.eqb_neq p 0)), F by done. split; [done|]. split; [by intros [= ->]|done].
  - destruct (calloc_sim s S bs fl k n c M) as (s' & p & -> & [(-> & -> & R)|(Hp & F & M')]); [tauto..| |].
    { exists s, (Ptr 0), S. split_and!; [done..|by exists bs, fl]. }
    exists s', (Ptr p). eexists. split; [done|].
    rewrite (proj2 (Z.eqb_neq p 0)), F by done. split; [done|]. split; [by intros [= ->]|done].
  - destruct Hal as [l Hp]. destruct (free_sim s S bs fl p l M Hp) as (s' & -> & M').
    exists s', (Freed KF_ok), (delete p S). by split_and!.
  - destruct Hal as ([l Hp] & Hn1 & Hn2).
    destruct (realloc_sim s S bs fl p l n c M Hp Hn1 Hn2) as (s' & q & -> & [(-> & R & M')|(Hq & F & M')]).
    { exists s', (Ptr 0), S. split_and!; [done..|by exists bs, fl]. }
    exists s', (Ptr q). eexists. split; [done|]. rewrite (proj2 (Z.eqb_neq q 0)), Hp by done. cbn [mbind option_bind]. rewrite F.
    split; [done|]. split; [by intros [= ->]|done].
  - destruct Hal as (l & Hp & Hil). eexists _, Stored. rewrite Hp. eexists. split; [done|]. split; [done|]. split; [done|].
    exists bs, fl. eapply fill_sim; [exact M|exact Hp|apply length_insert|..].
    + intros a Ha. apply ldb_stb_ne. lia.
    + intros j w Hj. destruct (decide (j = Z.to_nat i)) as [->|Hne].
      * rewrite list_lookup_insert_eq in Hj by lia. injection Hj as <-. rewrite Z2Nat.id by lia. apply ldb_stb_eq.
      * rewrite list_lookup_insert_ne in Hj by done. rewrite ldb_stb_ne by lia. by apply (sm_data _ _ _ _ M p l Hp).
  - destruct Hal as (l & Hp & Hil). exists s, (Byte (ldb (hmem s) (p + i))), S. split; [done|].
    split; [|split; [done|by exists bs, fl]]. rewrite Hp. cbn [mbind option_bind].
    destruct (lookup_lt_is_Some_2 l (Z.to_nat i)) as [o Ho]; [lia|]. rewrite Ho. cbn [mbind option_bind].
    destruct o as [w|].
    + pose proof (proj1 (sm_data _ _ _ _ M p l Hp) _ _ Ho) as E. rewrite Z2Nat.id in E by lia. by rewrite E, Z.eqb_refl.
    + pose proof (u8_range (default 0 (hmem s !! (p + i)))). unfold ldb. by repeat zcase; try lia.
Qed.
End sim.

(** C1: the allocator refines the abstract one.  From [heap_init] on, a client that chooses
    each request from the answers it got, and only frees, resizes, reads and writes what
    is live, is served for ever: every call returns; a pointer handed out is aligned, inside the arena
    and apart from every live allocation and its guard; a byte read is the one last stored
    there, kept by [krealloc] and zero after [kcalloc]; every free is accepted with its
    guard intact; and null is returned only if the largest free block is too small, which
    is the whole arena when nothing is live. *)
Theorem heap_refines_abstract ke m start size next fuel :
  0 < start → HDR ≤ size → start + size < 2 ^ 64 →
  served fuel start (start + size) next (heap_init ke m start size) ∅ [].
Proof.
  intros H1 H2 H3. assert (HDR ≤ start + size - start) as Hs by lia.
  assert (∃ bs fl, sim start (start + size) (heap_init ke m start size) ∅ bs fl) as M.
  { exists [start], [start]. pose proof (heap_init_inv ke m start size H1 H2 H3) as Hi.
    destruct (heap_init_layout ke m start size H1 H2 H3) as (_ & _ & _ & _ & _ & Hf & Hb & Hc).
    split; [done|done|rewrite Hc; lia| |by intros p l Hl; rewrite lookup_empty in Hl].
    intros p n. split; [|by intros (l & Hl & _); rewrite lookup_empty in Hl].
    intros (Hp & Ha & _). exfalso. apply list_elem_of_singleton in Hp. rewrite Hp in Ha. by apply (not_both _ start Hf). }
  revert M. generalize (heap_init ke m start size) as s, (∅ : store) as S, ([] : list (request * response)) as past.
  induction fuel as [|fuel IH]; intros s S past (bs & fl & M); [done|]. cbn [served].
  destruct (next past) as [r|]; [|done]. intros Hal.
  destruct (serve_sim _ _ Hs s S bs fl r M Hal) as (s' & a & S' & E1 & E2 & E3 & M').
  exists s', a, S'. split_and!; [done..|]. by apply IH.
Qed.

(** Write and read back a byte of a block of 100, grown to 200 in between. *)
Definition grower (past : list (request * response)) : option request :=
  match past with
  | [] => Some (Malloc 100 7)
  | [(_, Ptr p)] => Some (Store p 99 42)
  | [(_, Ptr p); _] => Some (Realloc p 200 7)
  | [_; _; (_, Ptr p)] => Some (Load p 99)
  | _ => None
  end.
Lemma heap_refines_abstract_witness :
  served 4 0x1000 0x2000 grower (heap_init 0 ∅ 0x1000 4096) ∅ [].
Proof. apply (heap_refines_abstract 0 ∅ 0x1000 4096 grower 4); unfold HDR; lia. Defined.
