(* ===== verification/Pmm.v ===== *)
(** The physical page pool of [mem/pmm.c]: 4 KiB pages on an intrusive free list
    (each free page stores the address of the next one in its first 8 bytes).

    Module [Pmm] is the model, one definition per function; [pmm_ok] is its
    invariant, and [pmm_pool] relates it to the abstract pool, the set of pages
    that are handed out. *)
From S2P Require Import Prelude Mem.

Module Pmm.

Definition PAGE_SIZE_4K : Z := 4096.
Definition MMIO_IDENTITY_LIMIT : Z := 0x100000000.

Record pmm := MkPmm {
  pmm_base : Z;
  pmm_end : Z;
  pmm_free_head : Z;
  pmm_total : Z;
  pmm_free : Z;
  pmm_inited : bool;
  pmem : mem
}.

Definition pmm_align_up (v a : Z) : Z := align_up v a.
Definition pmm_align_down (v a : Z) : Z := align_down v a.

(** The loop of [pmm_init] that threads every page on the list. *)
Fixpoint pmm_thread (fuel : nat) (m : mem) (head p hi n : Z) : option (mem * Z * Z) :=
  match fuel with
  | O => None
  | S fuel =>
      if (p +u PAGE_SIZE_4K) <=? hi then
        pmm_thread fuel (st64 m p head) p (p +u PAGE_SIZE_4K) hi (n +u 1)
      else Some (m, head, n)
  end.

Definition thread_fuel (lo hi : Z) : nat := S (Z.to_nat ((hi - lo) / PAGE_SIZE_4K)).

Definition pmm_init (s : pmm) (lo hi : Z) : option pmm :=
  let lo := pmm_align_up lo PAGE_SIZE_4K in
  let hi := pmm_align_down hi PAGE_SIZE_4K in
  if hi <=? (lo +u PAGE_SIZE_4K) then Some s
  else
    let hi := if MMIO_IDENTITY_LIMIT <? hi
              then pmm_align_down MMIO_IDENTITY_LIMIT PAGE_SIZE_4K else hi in
    '(m, head, n) ← pmm_thread (thread_fuel lo hi) (pmem s) 0 lo hi 0;
    Some (MkPmm lo hi head n n (0 <? n) m).

Definition pmm_ready (s : pmm) : bool := pmm_inited s.

(** [NULL] is [0]. *)
Definition pmm_alloc_page (s : pmm) : pmm * Z :=
  if negb (pmm_inited s) then (s, 0)
  else
    let page := pmm_free_head s in
    if page =? 0 then (s, 0)
    else
      (MkPmm (pmm_base s) (pmm_end s) (ld64 (pmem s) page) (pmm_total s)
             (if 0 <? pmm_free s then pmm_free s -u 1 else pmm_free s)
             (pmm_inited s) (pmem s), page).

Definition pmm_free_page (s : pmm) (page : Z) : pmm :=
  if negb (pmm_inited s) || (page =? 0) then s
  else if (page <? pmm_base s) || (pmm_end s <=? page) then s
  else if nz (page &u (PAGE_SIZE_4K - 1)) then s
  else
    MkPmm (pmm_base s) (pmm_end s) page (pmm_total s) (pmm_free s +u 1) (pmm_inited s)
          (st64 (pmem s) page (pmm_free_head s)).

Definition pmm_total_pages (s : pmm) : Z := pmm_total s.
Definition pmm_free_pages (s : pmm) : Z := pmm_free s.

End Pmm.
Import Pmm.

(** * Invariant *)

(** [p] is a page of the arena. *)
Definition is_page (s : pmm) (p : Z) : Prop :=
  pmm_base s ≤ p ∧ p + PAGE_SIZE_4K ≤ pmm_end s ∧ p `mod` PAGE_SIZE_4K = 0.

Record pmm_ok (s : pmm) (fl : list Z) : Prop := {
  pk_inited : pmm_inited s = true;
  pk_base : 0 < pmm_base s ≤ pmm_end s ∧ pmm_base s `mod` PAGE_SIZE_4K = 0;
  pk_end : pmm_end s ≤ MMIO_IDENTITY_LIMIT ∧ pmm_end s `mod` PAGE_SIZE_4K = 0;
  pk_total : pmm_total s = (pmm_end s - pmm_base s) / PAGE_SIZE_4K;
  pk_list : slist (ld64 (pmem s)) (pmm_free_head s) fl 0;
  pk_nodup : NoDup fl;
  pk_pages : ∀ p, p ∈ fl → is_page s p;
  pk_free : pmm_free s = length fl
}.

(** * The threading loop *)

Lemma page_st_other m p q v :
  p `mod` PAGE_SIZE_4K = 0 → q `mod` PAGE_SIZE_4K = 0 → p ≠ q →
  ld64 (st64 m p v) q = ld64 m q.
Proof.
  intros Hp Hq Hne. apply (ld_st_out 8 8). unfold disjoint_at, PAGE_SIZE_4K in *.
  pose proof (Z.div_mod p 4096). pose proof (Z.div_mod q 4096). lia.
Qed.
Lemma page_st_eq m p v : is_u64 v → ld64 (st64 m p v) p = v.
Proof. intros. unfold ld64, st64. rewrite (ld_st_eq 8). by apply Z.mod_small. Qed.

Lemma mod_page_add p : p `mod` PAGE_SIZE_4K = 0 → (p + PAGE_SIZE_4K) `mod` PAGE_SIZE_4K = 0.
Proof.
  intros H. unfold PAGE_SIZE_4K in *. replace (p + 4096) with (p + 1 * 4096) by lia.
  by rewrite Z.mod_add.
Qed.

Lemma pmm_thread_ok lo hi :
  0 < lo → lo + PAGE_SIZE_4K < 2 ^ 64 → hi ≤ MMIO_IDENTITY_LIMIT →
  lo `mod` PAGE_SIZE_4K = 0 → hi `mod` PAGE_SIZE_4K = 0 →
  ∀ fuel m p fl,
  lo ≤ p → p `mod` PAGE_SIZE_4K = 0 → (Z.to_nat ((hi - p) / PAGE_SIZE_4K) < fuel)%nat →
  (p ≤ hi ∨ p = lo) → PAGE_SIZE_4K * length fl = p - lo →
  slist (ld64 m) (hd_or 0 fl) fl 0 → NoDup fl →
  (∀ q, q ∈ fl → lo ≤ q ∧ q + PAGE_SIZE_4K ≤ p ∧ q `mod` PAGE_SIZE_4K = 0) →
  ∃ m' fl', pmm_thread fuel m (hd_or 0 fl) p hi (length fl) = Some (m', hd_or 0 fl', Z.of_nat (length fl')) ∧
    slist (ld64 m') (hd_or 0 fl') fl' 0 ∧ NoDup fl' ∧
    Z.of_nat (length fl') = Z.max 0 ((hi - lo) / PAGE_SIZE_4K) ∧
    (∀ q, q ∈ fl' → lo ≤ q ∧ q + PAGE_SIZE_4K ≤ hi ∧ q `mod` PAGE_SIZE_4K = 0).
Proof.
  intros Hlo Hlo2 Hhi Hla Hha fuel. unfold MMIO_IDENTITY_LIMIT in Hhi.
  induction fuel as [|fuel IH]; intros m p fl Hp Hpa Hf Hph Hlen Hl Hnd Hin; [lia|].
  pose proof (Z.div_mod lo 4096). pose proof (Z.div_mod hi 4096). pose proof (Z.div_mod p 4096).
  unfold PAGE_SIZE_4K in *. cbn [pmm_thread]. unfold PAGE_SIZE_4K.
  destruct (decide (p + 4096 ≤ hi)) as [Hle|Hgt].
  - rewrite (u64_small (p + 4096)) by lia. rewrite (proj2 (Z.leb_le _ _)) by lia.
    rewrite (u64_small (length fl + 1)) by lia.
    assert (p ∉ fl) as Hnin by (intros Hx; apply Hin in Hx; lia).
    specialize (IH (st64 m p (hd_or 0 fl)) (p + 4096) (p :: fl)). cbn [length hd_or] in IH.
    replace (Z.of_nat (S (length fl))) with (length fl + 1) in IH by lia.
    assert (is_u64 (hd_or 0 fl)).
    { destruct fl as [|x fl]; simpl; [lia|]. specialize (Hin x ltac:(mem)). lia. }
    assert ((hi - p) / 4096 = (hi - (p + 4096)) / 4096 + 1) as Hdiv.
    { replace (hi - p) with (hi - (p + 4096) + 1 * 4096) by lia. by rewrite Z.div_add by lia. }
    assert (0 ≤ (hi - (p + 4096)) / 4096) by (apply Z.div_pos; lia).
    apply IH; try lia; clear IH.
    + by apply mod_page_add.
    + simpl. split; [done|]. rewrite page_st_eq by done. eapply slist_ext; [|exact Hl].
      intros q Hq. apply page_st_other; [done|by apply Hin|congruence].
    + by constructor.
    + intros q [->|Hq]%elem_of_cons; [lia|]. specialize (Hin q Hq). lia.
  - assert ((p +u 4096 <=? hi) = false) as ->.
    { apply Z.leb_gt. rewrite u64_small; lia. }
    exists m, fl. split_and!; try done; [|intros q Hq; specialize (Hin q Hq); lia].
    destruct Hph as [Hph| ->].
    2:{ assert ((hi - lo) / 4096 ≤ 0) by (apply Z.div_le_upper_bound; lia). lia. }
    assert (hi - lo = length fl * 4096) as -> by lia. rewrite Z.div_mul; lia.
Qed.

(** * The abstract pool

    [pmm_pool s A]: the pages handed out are exactly [A]; every other page of the
    arena is on the free list, once. *)
Definition pmm_pool (s : pmm) (A : gset Z) : Prop :=
  ∃ fl, pmm_ok s fl ∧ ∀ p, p ∈ A ↔ is_page s p ∧ p ∉ fl.

Definition pages (s : pmm) : list Z :=
  (λ i, pmm_base s + PAGE_SIZE_4K * i) <$> seqZ 0 (pmm_total s).

Lemma elem_of_pages s fl p : pmm_ok s fl → p ∈ pages s ↔ is_page s p.
Proof.
  intros [_ [H1 H2] [H3 H4] H5 _ _ _ _]. unfold pages, is_page. rewrite H5, list_elem_of_fmap.
  unfold PAGE_SIZE_4K in *.
  pose proof (Z.div_mod (pmm_base s) 4096). pose proof (Z.div_mod (pmm_end s) 4096).
  assert (pmm_end s - pmm_base s = 4096 * ((pmm_end s - pmm_base s) / 4096)) as E.
  { apply Z.div_exact; [lia|]. by rewrite Zminus_mod, H2, H4. }
  split.
  - intros (i & -> & Hi%elem_of_seqZ). split_and!; [lia..|].
    rewrite Z.mul_comm, Z.mod_add by lia. done.
  - intros (B1 & B2 & B3). exists ((p - pmm_base s) / 4096).
    assert (p - pmm_base s = 4096 * ((p - pmm_base s) / 4096)).
    { apply Z.div_exact; [lia|]. by rewrite Zminus_mod, H2, B3. }
    split; [lia|]. apply elem_of_seqZ. lia.
Qed.

Lemma NoDup_pages s : NoDup (pages s).
Proof.
  apply NoDup_fmap_2; [|apply NoDup_seqZ]. intros i j. unfold PAGE_SIZE_4K. lia.
Qed.

(** Every page is either free or handed out, so the counters agree. *)
Lemma pool_count s A : pmm_pool s A → pmm_free s + size A = pmm_total s.
Proof.
  intros (fl & Hok & HA). rewrite (pk_free _ _ Hok).
  assert (fl ++ elements A ≡ₚ pages s) as Hp.
  { apply NoDup_Permutation.
    - apply NoDup_app. split_and!; [apply Hok| |apply NoDup_elements].
      intros p Hp Hin%elem_of_elements. by apply HA in Hin as [_ ?].
    - apply NoDup_pages.
    - intros p. rewrite elem_of_app, elem_of_elements, HA, (elem_of_pages s fl) by done.
      split; [intros [Hp|?]; [by apply Hok|tauto]|]. intros Hp.
      destruct (decide (p ∈ fl)); tauto. }
  apply Permutation_length in Hp. rewrite length_app in Hp. unfold size, set_size. cbn.
  unfold pages in Hp. rewrite length_fmap, length_seqZ in Hp.
  destruct Hok as [_ [H1 _] _ Ht _ _ _ _]. rewrite Ht in *.
  assert (0 ≤ (pmm_end s - pmm_base s) / PAGE_SIZE_4K)
    by (apply Z.div_pos; unfold PAGE_SIZE_4K; lia).
  lia.
Qed.

(** * The operations on the pool *)

Lemma pmm_alloc_pool s A :
  pmm_pool s A →
  let '(s', p) := pmm_alloc_page s in
  (p = 0 ∧ s' = s ∧ ∀ q, is_page s q → q ∈ A) ∨
  (is_page s p ∧ p ∉ A ∧ pmm_pool s' ({[p]} ∪ A)).
Proof.
  intros (fl & Hok & HA). pose proof Hok as [H1 H2 H3 H4 H5 H6 H7 H8]. unfold pmm_alloc_page.
  rewrite H1. cbn [negb]. destruct fl as [|p fl].
  - simpl in H5. rewrite H5. left. split_and!; [done..|]. intros q Hq. apply HA.
    split; [done|apply not_elem_of_nil].
  - destruct H5 as [-> H5]. pose proof (H7 p ltac:(mem)) as Hp. unfold is_page in Hp.
    rewrite (proj2 (Z.eqb_neq p 0)) by lia. right. split; [done|]. split.
    { rewrite HA. intros [_ Hn]. apply Hn. mem. }
    apply NoDup_cons in H6 as [Hn H6]. cbn [length] in H8.
    exists fl. split; [split; cbn; try done|].
    + intros q Hq. apply H7. mem.
    + rewrite H8, (proj2 (Z.ltb_lt 0 _)) by lia. pose proof (pool_count s A) as Hc.
      rewrite u64_small; [lia|]. rewrite H4 in Hc. unfold PAGE_SIZE_4K, MMIO_IDENTITY_LIMIT in *.
      assert ((pmm_end s - pmm_base s) / 4096 ≤ 0x100000000) by (apply Z.div_le_upper_bound; lia).
      specialize (Hc ltac:(exists (p :: fl); split; done)). cbn [length] in *. lia.
    + intros q. rewrite elem_of_union, elem_of_singleton, HA, not_elem_of_cons.
      change (is_page _ q) with (is_page s q) at 2. split.
      * intros [->|?]; [|tauto]. done.
      * intros [Hq Hnq]. destruct (decide (q = p)); tauto.
Qed.

Lemma page_mask p : is_u64 p → p &u (PAGE_SIZE_4K - 1) = p `mod` PAGE_SIZE_4K.
Proof. intros. apply (Z.land_ones p 12). lia. Qed.

Lemma pool_total_bound s fl : pmm_ok s fl → 0 ≤ pmm_total s < 2 ^ 32.
Proof.
  intros [_ [H2 _] [H3 _] H4 _ _ _ _]. rewrite H4. unfold PAGE_SIZE_4K, MMIO_IDENTITY_LIMIT in *.
  split; [apply Z.div_pos; lia|]. apply Z.div_lt_upper_bound; lia.
Qed.

Lemma pmm_free_eq s fl p :
  pmm_ok s fl → is_page s p →
  pmm_free_page s p =
  MkPmm (pmm_base s) (pmm_end s) p (pmm_total s) (pmm_free s +u 1) true
        (st64 (pmem s) p (pmm_free_head s)).
Proof.
  intros [H1 [H2 _] [H3 _] _ _ _ _ _] (P1 & P2 & P3). unfold pmm_free_page. rewrite H1.
  unfold PAGE_SIZE_4K, MMIO_IDENTITY_LIMIT in *.
  rewrite (proj2 (Z.eqb_neq p 0)), (proj2 (Z.ltb_ge p _)), (proj2 (Z.leb_gt _ p)) by lia.
  cbn [negb orb]. change (4096 - 1) with (PAGE_SIZE_4K - 1). rewrite page_mask by lia.
  unfold PAGE_SIZE_4K. by rewrite P3.
Qed.

Lemma pmm_free_pool s A p :
  pmm_pool s A → p ∈ A → pmm_pool (pmm_free_page s p) (A ∖ {[p]}).
Proof.
  intros Hpool HpA. pose proof (pool_count _ _ Hpool) as Hc. destruct Hpool as (fl & Hok & HA).
  pose proof (proj1 (HA p) HpA) as [Hp Hnp]. rewrite (pmm_free_eq _ _ _ Hok Hp).
  pose proof (pool_total_bound _ _ Hok). pose proof Hok as [H1 H2 H3 H4 H5 H6 H7 H8].
  assert (∀ q, q ∈ fl → q ≠ p) as Hne by (by intros q Hq ->).
  exists (p :: fl). split; [split; cbn; try done|].
  - split; [done|]. rewrite page_st_eq.
    + eapply slist_ext; [|exact H5]. intros q Hq.
      apply page_st_other; [apply Hp|by apply H7|apply not_eq_sym; auto].
    + rewrite (slist_head _ _ _ _ H5). destruct fl as [|q fl]; cbn; [lia|].
      destruct (H7 q ltac:(mem)). unfold PAGE_SIZE_4K, MMIO_IDENTITY_LIMIT in *. lia.
  - by constructor.
  - intros q [->|Hq]%elem_of_cons; [done|by apply H7].
  - rewrite u64_small by lia. lia.
  - intros q. rewrite elem_of_difference, elem_of_singleton, HA, not_elem_of_cons.
    change (is_page _ q) with (is_page s q) at 2. tauto.
Qed.

(** Anything that is not a page of the arena is ignored. *)
Lemma free_not_page s A p : pmm_pool s A → ¬ is_page s p → pmm_free_page s p = s.
Proof.
  intros (fl & Hok & _) Hn. pose proof (pk_base _ _ Hok) as [Hb _]. unfold pmm_free_page. rewrite (pk_inited _ _ Hok). cbn [negb orb].
  destruct (Z.eqb_spec p 0); [done|].
  destruct (Z.ltb_spec p (pmm_base s)), (Z.leb_spec (pmm_end s) p); try done. cbn [orb].
  rewrite page_mask by (pose proof (pk_end _ _ Hok); unfold MMIO_IDENTITY_LIMIT in *; lia).
  destruct (nz_spec (p `mod` PAGE_SIZE_4K)) as [|E]; [done|]. exfalso. apply Hn.
  split_and!; [lia| |done]. pose proof (pk_end _ _ Hok) as [_ He]. unfold PAGE_SIZE_4K in *.
  pose proof (Z.div_mod p 4096). pose proof (Z.div_mod (pmm_end s) 4096). lia.
Qed.

(** A client may write any byte of a page it holds. *)
Definition page_write (s : pmm) (p i v : Z) : pmm :=
  MkPmm (pmm_base s) (pmm_end s) (pmm_free_head s) (pmm_total s) (pmm_free s) (pmm_inited s)
        (stb (pmem s) (p + i) v).

Lemma page_write_pool s A p i v :
  pmm_pool s A → p ∈ A → 0 ≤ i < PAGE_SIZE_4K → pmm_pool (page_write s p i v) A.
Proof.
  intros (fl & Hok & HA) HpA Hi. pose proof (proj1 (HA p) HpA) as [(_ & _ & Hp) Hnp].
  pose proof Hok as [H1 H2 H3 H4 H5 H6 H7 H8]. exists fl. split; [|exact HA].
  split; cbn; try done. eapply slist_ext; [|exact H5]. intros q Hq. apply (ld_ext 8).
  intros a Ha. apply ldb_stb_ne. destruct (H7 q Hq) as (_ & _ & Hqa).
  assert (p ≠ q) by (by intros ->). unfold PAGE_SIZE_4K in *.
  pose proof (Z.div_mod p 4096). pose proof (Z.div_mod q 4096). lia.
Qed.

Lemma pmm_init_spec s lo hi :
  0 < lo → lo + 3 * PAGE_SIZE_4K ≤ hi → lo + 2 * PAGE_SIZE_4K ≤ MMIO_IDENTITY_LIMIT →
  hi < 2 ^ 64 →
  ∃ s', pmm_init s lo hi = Some s' ∧ pmm_pool s' ∅ ∧ pmm_ready s' = true ∧
    lo ≤ pmm_base s' < lo + PAGE_SIZE_4K ∧
    Z.min hi MMIO_IDENTITY_LIMIT - PAGE_SIZE_4K < pmm_end s' ≤ hi ∧
    pmm_free_pages s' = (pmm_end s' - pmm_base s') / PAGE_SIZE_4K.
Proof.
  intros H1 H2 H3 H4. unfold pmm_init, pmm_align_up, pmm_align_down.
  unfold PAGE_SIZE_4K, MMIO_IDENTITY_LIMIT in *.
  change (align_up lo 4096) with (align_up lo (2 ^ 12)).
  change (align_down hi 4096) with (align_down hi (2 ^ 12)).
  destruct (align_up_spec lo 12) as [Hu1 Hu2]; [lia..|].
  rewrite (align_down_spec hi 12) by lia.
  set (l := align_up lo (2 ^ 12)) in *. clearbody l.
  set (h := hi - hi `mod` 2 ^ 12).
  pose proof (Z.mod_pos_bound hi (2 ^ 12) ltac:(lia)).
  assert (h `mod` 4096 = 0) as Hh.
  { unfold h. change (2 ^ 12) with 4096. rewrite Zminus_mod, Z.mod_mod, Z.sub_diag by lia. done. }
  assert (hi - 4096 < h ≤ hi) as Hhb by (unfold h; lia). clearbody h.
  rewrite (u64_small (l + 4096)) by lia.
  rewrite (proj2 (Z.leb_gt _ _)) by lia.
  change (align_down 0x100000000 4096) with 0x100000000.
  set (e := if 0x100000000 <? h then 0x100000000 else h).
  assert (e = Z.min h 0x100000000 ∧ e `mod` 4096 = 0) as [He Hea].
  { unfold e. destruct (Z.ltb_spec 0x100000000 h); split; (done || lia). }
  clearbody e. assert (4096 ≤ e - l) by lia.
  assert (1 ≤ (e - l) / 4096) by (apply Z.div_le_lower_bound; lia).
  destruct (pmm_thread_ok l e) with (fuel := thread_fuel l e) (m := pmem s) (p := l) (fl := @nil Z)
    as (m' & fl & Et & Hl & Hnd & Hlen & Hin); unfold PAGE_SIZE_4K, MMIO_IDENTITY_LIMIT; try lia;
    try done.
  { unfold thread_fuel, PAGE_SIZE_4K. lia. }
  { cbn. lia. }
  { constructor. }
  { by intros q ?%not_elem_of_nil. }
  cbn [hd_or length] in Et. change (Z.of_nat 0) with 0 in Et. rewrite Et. cbn [mbind option_bind].
  unfold PAGE_SIZE_4K in Hlen. rewrite (proj2 (Z.ltb_lt 0 _)) by lia.
  eexists. split; [done|].
  assert (pmm_ok (MkPmm l e (hd_or 0 fl) (length fl) (length fl) true m') fl) as Hok.
  { split; cbn; unfold PAGE_SIZE_4K, MMIO_IDENTITY_LIMIT in *; try done; try lia; (split; [lia|done]).
  }
  split_and!; cbn; try lia; try done.
  - exists fl. split; [done|]. intros q. split; [by intros ?%not_elem_of_empty|].
    intros [Hq Hn]. exfalso. apply Hn.
    apply (elem_of_pages _ fl q Hok) in Hq.
    assert (fl ≡ₚ pages (MkPmm l e (hd_or 0 fl) (length fl) (length fl) true m')) as Hp.
    { apply submseteq_length_Permutation.
      - apply NoDup_submseteq; [done|]. intros x Hx. apply (elem_of_pages _ fl x Hok), Hok. done.
      - unfold pages. cbn. rewrite length_fmap, length_seqZ. lia. }
    by rewrite Hp.
Qed.

(** [pmm_init] over any arena that leaves at least one page returns, with every
    page of the (aligned, clipped to 4 GiB) arena free exactly once and none
    handed out, and with counters equal to the number of pages. *)
Theorem pmm_init_pool s lo hi :
  0 < lo → lo + 3 * PAGE_SIZE_4K ≤ hi → lo + 2 * PAGE_SIZE_4K ≤ MMIO_IDENTITY_LIMIT →
  hi < 2 ^ 64 →
  ∃ s', pmm_init s lo hi = Some s' ∧ pmm_pool s' ∅ ∧ pmm_ready s' = true ∧
    lo ≤ pmm_base s' < lo + PAGE_SIZE_4K ∧
    Z.min hi MMIO_IDENTITY_LIMIT - PAGE_SIZE_4K < pmm_end s' ≤ hi ∧
    pmm_free_pages s' = (pmm_end s' - pmm_base s') / PAGE_SIZE_4K.
Proof. apply pmm_init_spec. Qed.

Definition pmm_boot : pmm := MkPmm 0 0 0 0 0 false ∅.
Definition pmm4 : pmm := default pmm_boot (pmm_init pmm_boot 0x5000 0x9000).

Lemma pmm_init_pool_witness :
  ∃ s', pmm_init pmm_boot 0x5000 0x9000 = Some s' ∧ pmm_pool s' ∅ ∧ pmm_free_pages s' = 4.
Proof.
  destruct (pmm_init_pool pmm_boot 0x5000 0x9000) as (s' & E & Hp & _);
    [done|unfold PAGE_SIZE_4K, MMIO_IDENTITY_LIMIT; lia..|].
  exists s'. split; [exact E|]. split; [exact Hp|].
  assert (pmm_free_pages (default pmm_boot (pmm_init pmm_boot 0x5000 0x9000)) = 4) as H
    by (vm_compute; reflexivity).
  rewrite E in H. exact H.
Defined.

(** The pool behaves as a set of pages.  Allocation returns null, changing
    nothing, exactly when every page is handed out, and otherwise an arena page
    that nobody holds; a page that is freed goes back; a holder may overwrite
    its page, links included, without disturbing the pool; and the free counter
    always complements the pages handed out. *)
Theorem pmm_pool_ops s A :
  pmm_pool s A →
  pmm_free_pages s + size A = pmm_total_pages s ∧
  (let '(s', p) := pmm_alloc_page s in
   (p = 0 ∧ s' = s ∧ ∀ q, is_page s q → q ∈ A) ∨
   (p ≠ 0 ∧ is_page s p ∧ p ∉ A ∧ pmm_pool s' ({[p]} ∪ A))) ∧
  (∀ p, p ∈ A → pmm_pool (pmm_free_page s p) (A ∖ {[p]}) ∧
     (pmm_alloc_page (pmm_free_page s p)).2 = p) ∧
  (∀ p i v, p ∈ A → 0 ≤ i < PAGE_SIZE_4K → pmm_pool (page_write s p i v) A) ∧
  (∀ p, ¬ is_page s p → pmm_free_page s p = s).
Proof.
  intros Hpool. pose proof Hpool as (fl & Hok & HA).
  pose proof (pk_base _ _ Hok) as [Hb _]. split_and!.
  - by apply pool_count.
  - pose proof (pmm_alloc_pool s A Hpool) as Ha. destruct (pmm_alloc_page s) as [s' p].
    destruct Ha as [?|(Hp & ? & ?)]; [by left|right]. split_and!; try done.
    destruct Hp as [? _]. lia.
  - intros p Hp. split; [by apply pmm_free_pool|].
    pose proof (proj1 (HA p) Hp) as [Hpg _]. rewrite (pmm_free_eq _ _ _ Hok Hpg).
    unfold pmm_alloc_page. cbn. destruct Hpg as [? _]. by rewrite (proj2 (Z.eqb_neq p 0)) by lia.
  - intros p i v. by apply page_write_pool.
  - intros p Hn. by eapply free_not_page.
Qed.

Lemma pmm4_pool : pmm_pool pmm4 ∅.
Proof.
  destruct (pmm_init_spec pmm_boot 0x5000 0x9000) as (s' & E & Hp & _);
    [done|unfold PAGE_SIZE_4K, MMIO_IDENTITY_LIMIT; lia..|].
  unfold pmm4. rewrite E. exact Hp.
Qed.

Lemma pmm_pool_ops_witness :
  ∃ s' p, pmm_alloc_page pmm4 = (s', p) ∧ is_page pmm4 p ∧ pmm_pool s' ({[p]} ∪ ∅).
Proof.
  pose proof (pmm_pool_ops pmm4 ∅ pmm4_pool) as (_ & H & _).
  destruct (pmm_alloc_page pmm4) as [s' p] eqn:E. exists s', p. split; [reflexivity|].
  destruct H as [(-> & _ & H)|(_ & H1 & _ & H2)]; [|split; assumption]. exfalso.
  apply (not_elem_of_empty (C := gset Z) 0x5000), H. unfold is_page.
  change (pmm_base pmm4) with 0x5000. change (pmm_end pmm4) with 0x9000.
  unfold PAGE_SIZE_4K. split_and!; [lia|lia|reflexivity].
Defined.

(** A double free is not detected.  Freeing the same page twice puts it on the
    list twice: the next two allocations return the same page, and the free
    counter exceeds the size of the pool. *)
Theorem pmm_double_free :
  let '(s1, p) := pmm_alloc_page pmm4 in
  let s2 := pmm_free_page (pmm_free_page s1 p) p in
  let '(s3, q) := pmm_alloc_page s2 in
  let '(s4, r) := pmm_alloc_page s3 in
  p ≠ 0 ∧ q = p ∧ r = p ∧ pmm_total_pages s2 < pmm_free_pages s2.
Proof. vm_compute. split; [discriminate|]. by repeat split. Qed.
