(* ===== verification/Frame.v ===== *)
(** Reference-counted user frames of [mm/frame.c]: a table of [frame_meta]
    slots, a free list through [link], and a hash from physical address to slot
    chained through the same [link] field.

    Module [Frame] is the model, one definition per function.  The arrays
    [frames] and [frame_hash] are lists, [None] when their allocation failed;
    the page pool is [Pmm] and the fallback allocator is [Heap]. *)
From S2P Require Import Prelude Mem Heap Pmm.
Import Heap Pmm.

Module Frame.

Definition FRAME_META_MAX : Z := 262144.
Definition FRAME_HASH_SIZE : Z := 8192.
Definition PG_ADDR_MASK : Z := 0x000FFFFFFFFFF000.
Definition mask (pa : Z) : Z := pa &u PG_ADDR_MASK.

Record frame_meta := MkMeta { pa : Z; raw : Z; refs : Z; link : Z }.
Definition meta0 : frame_meta := MkMeta 0 0 0 0.
(** [sizeof(frame_meta_t)] and [sizeof(int)] *)
Definition META_SIZE : Z := 24.
Definition INT_SIZE : Z := 4.

Record frames_t := MkFrames {
  frames : option (list frame_meta);
  frame_hash : option (list Z);
  frame_free_head : Z
}.

(** [frames[i]] and [frames[i] = f]; the code indexes in range only. *)
Definition slot_at (l : list frame_meta) (i : Z) : frame_meta := default meta0 (l !! Z.to_nat i).
Definition slot_set (l : list frame_meta) (i : Z) (f : frame_meta) : list frame_meta :=
  <[Z.to_nat i := f]> l.
Definition set_link (l : list frame_meta) (i v : Z) : list frame_meta :=
  let f := slot_at l i in slot_set l i (MkMeta (pa f) (raw f) (refs f) v).
Definition set_refs (l : list frame_meta) (i v : Z) : list frame_meta :=
  let f := slot_at l i in slot_set l i (MkMeta (pa f) (raw f) v (link f)).

Definition frame_hash_pa (pa : Z) : Z :=
  Z.land (Z.shiftr (mask pa) 12) (FRAME_HASH_SIZE - 1).

(** [for (i = cap - 1; i >= 0; --i) { frames[i].link = head; head = i; }] *)
Fixpoint thread_free (k : nat) (l : list frame_meta) (head : Z) : list frame_meta * Z :=
  match k with
  | O => (l, head)
  | S k => thread_free k (set_link l (Z.of_nat k) head) (Z.of_nat k)
  end.

Definition frame_init (h : heap) (caller : Z) : option (heap * frames_t) :=
  '(h, p) ← kmalloc_nolock h (META_SIZE *u FRAME_META_MAX) caller;
  '(h, p, cap) ← (if p =? 0 then
                    '(h, p) ← kmalloc_nolock h (META_SIZE *u 4096) caller; Some (h, p, 4096)
                  else Some (h, p, FRAME_META_MAX));
  let fs := if nz p then Some (replicate (Z.to_nat cap) meta0) else None in
  '(h, q) ← kmalloc_nolock h (INT_SIZE *u FRAME_HASH_SIZE) caller;
  let hash := if nz q then Some (replicate (Z.to_nat FRAME_HASH_SIZE) (-1)) else None in
  let '(fs, head) :=
    match fs with
    | Some l => let '(l, head) := thread_free (length l) l (-1) in (Some l, head)
    | None => (None, -1)
    end in
  Some (h, MkFrames fs hash head).

(** The linear scan used when there is no hash. *)
Fixpoint scan_slots (l : list frame_meta) (i : Z) (p : Z) : Z :=
  match l with
  | [] => -1
  | f :: l => if nz (refs f) && (pa f =? p) then i else scan_slots l (i + 1) p
  end.

Fixpoint chain_slots (fuel : nat) (l : list frame_meta) (i p : Z) : option Z :=
  match fuel with
  | O => None
  | S fuel =>
      if 0 <=? i then
        let f := slot_at l i in
        if nz (refs f) && (pa f =? p) then Some i else chain_slots fuel l (link f) p
      else Some (-1)
  end.

Definition hash_at (hs : list Z) (h : Z) : Z := default 0 (hs !! Z.to_nat h).

(** [None] is exhausted fuel: a chain has at most [length frames] slots. *)
Definition frame_slot_locked (st : frames_t) (p : Z) : option Z :=
  let p := mask p in
  match frames st with
  | None => Some (-1)
  | Some l =>
      match frame_hash st with
      | None => Some (scan_slots l 0 p)
      | Some hs => chain_slots (S (length l)) l (hash_at hs (frame_hash_pa p)) p
      end
  end.

Definition frame_take_free_locked (st : frames_t) : frames_t * Z :=
  match frames st with
  | None => (st, -1)
  | Some l =>
      let slot := frame_free_head st in
      if slot <? 0 then (st, -1)
      else (MkFrames (Some (set_link l slot (-1))) (frame_hash st) (link (slot_at l slot)), slot)
  end.

Definition frame_return_free_locked (st : frames_t) (slot : Z) : frames_t :=
  match frames st with
  | None => st
  | Some l =>
      if (slot <? 0) || (length l <=? slot) then st
      else MkFrames (Some (slot_set l slot (MkMeta 0 0 0 (frame_free_head st)))) (frame_hash st) slot
  end.

Definition frame_hash_insert_locked (st : frames_t) (slot : Z) : frames_t :=
  match frames st, frame_hash st with
  | Some l, Some hs =>
      if slot <? 0 then st
      else
        let h := frame_hash_pa (pa (slot_at l slot)) in
        MkFrames (Some (set_link l slot (hash_at hs h)))
                 (Some (<[Z.to_nat h := slot]> hs)) (frame_free_head st)
  | _, _ => st
  end.

(** The [int *pp] of [frame_hash_remove_locked]: a bucket head or a link. *)
Inductive cell := P_hash (h : Z) | P_link (i : Z).
Definition deref (l : list frame_meta) (hs : list Z) (pp : cell) : Z :=
  match pp with P_hash h => hash_at hs h | P_link i => link (slot_at l i) end.
Definition assign (l : list frame_meta) (hs : list Z) (pp : cell) (v : Z)
  : list frame_meta * list Z :=
  match pp with
  | P_hash h => (l, <[Z.to_nat h := v]> hs)
  | P_link i => (set_link l i v, hs)
  end.

Fixpoint remove_walk (fuel : nat) (l : list frame_meta) (hs : list Z) (pp : cell) (slot : Z)
  : option (list frame_meta * list Z) :=
  match fuel with
  | O => None
  | S fuel =>
      if 0 <=? deref l hs pp then
        if deref l hs pp =? slot then
          let '(l, hs) := assign l hs pp (link (slot_at l slot)) in
          Some (set_link l slot (-1), hs)
        else remove_walk fuel l hs (P_link (deref l hs pp)) slot
      else Some (l, hs)
  end.

Definition frame_hash_remove_locked (st : frames_t) (slot : Z) : option frames_t :=
  match frames st, frame_hash st with
  | Some l, Some hs =>
      if slot <? 0 then Some st
      else
        '(l, hs) ← remove_walk (S (length l)) l hs (P_hash (frame_hash_pa (pa (slot_at l slot)))) slot;
        Some (MkFrames (Some l) (Some hs) (frame_free_head st))
  | _, _ => Some st
  end.

(** The frame table with the two allocators behind it. *)
Record sys := MkSys { tab : frames_t; pool : pmm; kheap : heap }.

(** The assignments that turn a free slot into a live frame. *)
Definition fill_slot (st : frames_t) (slot p r : Z) : frames_t :=
  match frames st with
  | None => st
  | Some l => MkFrames (Some (slot_set l slot (MkMeta p r 1 (link (slot_at l slot)))))
                       (frame_hash st) (frame_free_head st)
  end.

Definition frame_alloc (s : sys) (caller : Z) : option (sys * Z) :=
  match frames (tab s) with
  | None => Some (s, 0)
  | Some _ =>
      '(s, page, raw) ←
        (if pmm_ready (pool s) then
           let '(pm, page) := pmm_alloc_page (pool s) in
           Some (MkSys (tab s) pm (kheap s), page, 0)
         else
           '(h, raw) ← kmalloc_nolock (kheap s) (PAGE_SIZE_4K *u 2) caller;
           Some (MkSys (tab s) (pool s) h,
                 (if raw =? 0 then 0 else align_up raw PAGE_SIZE_4K), raw));
      if page =? 0 then Some (s, 0)
      else
        let '(st, slot) := frame_take_free_locked (tab s) in
        if 0 <=? slot then
          let st := frame_hash_insert_locked (fill_slot st slot page raw) slot in
          Some (MkSys st (pool s) (kheap s), page)
        else
          Some (MkSys st (if nz raw then pool s else pmm_free_page (pool s) page)
                      (if nz raw then (kfree_nolock (kheap s) raw).1 else kheap s), 0)
  end.

(** [frame_alloc_zero]: the page bytes are the pool's memory. *)
Definition frame_alloc_zero (s : sys) (caller : Z) : option (sys * Z) :=
  '(s, frame) ← frame_alloc s caller;
  if nz frame then
    let pm := pool s in
    if pmm_ready pm then
      Some (MkSys (tab s) (MkPmm (pmm_base pm) (pmm_end pm) (pmm_free_head pm) (pmm_total pm)
              (pmm_free pm) (pmm_inited pm) (memset (pmem pm) frame 0 PAGE_SIZE_4K)) (kheap s), frame)
    else
      Some (MkSys (tab s) pm (set_mem (kheap s) (memset (hmem (kheap s)) frame 0 PAGE_SIZE_4K)), frame)
  else Some (s, frame).

Definition frame_adopt (s : sys) (p : Z) : option (sys * Z) :=
  let p := mask p in
  if (p =? 0) || bool_decide (frames (tab s) = None) then Some (s, -1)
  else
    slot ← frame_slot_locked (tab s) p;
    let '(st, slot) :=
      if slot <? 0 then
        let '(st, slot) := frame_take_free_locked (tab s) in
        if 0 <=? slot then (frame_hash_insert_locked (fill_slot st slot p 0) slot, slot)
        else (st, slot)
      else (tab s, slot) in
    Some (MkSys st (pool s) (kheap s), if slot <? 0 then -1 else 0).

Definition frame_retain (s : sys) (p : Z) : option (sys * Z) :=
  let p := mask p in
  slot ← frame_slot_locked (tab s) p;
  if 0 <=? slot then
    match frames (tab s) with
    | Some l =>
        Some (MkSys (MkFrames (Some (set_refs l slot (u32 (refs (slot_at l slot) + 1))))
                              (frame_hash (tab s)) (frame_free_head (tab s)))
                    (pool s) (kheap s), 0)
    | None => Some (s, 0)
    end
  else Some (s, -1).

Definition frame_release (s : sys) (p : Z) : option sys :=
  let p := mask p in
  slot ← frame_slot_locked (tab s) p;
  match frames (tab s) with
  | None => Some s
  | Some l =>
      if 0 <=? slot then
        let l := set_refs l slot (u32 (refs (slot_at l slot) - 1)) in
        let st := MkFrames (Some l) (frame_hash (tab s)) (frame_free_head (tab s)) in
        if refs (slot_at l slot) =? 0 then
          let raw := raw (slot_at l slot) in
          st ← frame_hash_remove_locked st slot;
          let st := frame_return_free_locked st slot in
          Some (if nz raw then MkSys st (pool s) (kfree_nolock (kheap s) raw).1
                else MkSys st (pmm_free_page (pool s) p) (kheap s))
        else Some (MkSys st (pool s) (kheap s))
      else Some s
  end.

Definition frame_refcount (s : sys) (p : Z) : option Z :=
  let p := mask p in
  slot ← frame_slot_locked (tab s) p;
  match frames (tab s) with
  | Some l => Some (if 0 <=? slot then refs (slot_at l slot) else 0)
  | None => Some 0
  end.

End Frame.
Import Frame.
