(* ===== verification/FrameSpec.v ===== *)
(** The frame table of [mm/frame.c] against its abstract view, a finite map from
    physical address to reference count: lookup through the hash and through
    the linear scan, insertion, removal, and the five operations. *)
From S2P Require Import Prelude Mem Heap Pmm Frame.
Import Heap Pmm Frame.

(** * The table *)

Definition lk (l : list frame_meta) (i : Z) : Z := link (slot_at l i).

(** Slots that are not on the free list. *)
Definition used (l : list frame_meta) (fl : list Z) (i : Z) : Prop :=
  0 ≤ i < length l ∧ i ∉ fl.

Record table_ok (l : list frame_meta) (hash : option (list Z)) (head : Z)
    (fl : list Z) (B : Z → list Z) : Prop := {
  t_free : slist (lk l) head fl (-1);
  t_nodup : NoDup fl;
  t_range : ∀ i, i ∈ fl → 0 ≤ i < length l ∧ refs (slot_at l i) = 0;
  t_used : ∀ i, used l fl i → 0 < refs (slot_at l i) < 2 ^ 32 ∧
             mask (pa (slot_at l i)) = pa (slot_at l i);
  t_uniq : ∀ i j, used l fl i → used l fl j → pa (slot_at l i) = pa (slot_at l j) → i = j;
  t_hash : ∀ hs, hash = Some hs → Z.of_nat (length hs) = FRAME_HASH_SIZE ∧
             ∀ h, 0 ≤ h < FRAME_HASH_SIZE →
               slist (lk l) (hash_at hs h) (B h) (-1) ∧ NoDup (B h) ∧
               ∀ i, i ∈ B h ↔ used l fl i ∧ frame_hash_pa (pa (slot_at l i)) = h
}.

(** [M] lists the live frames: reference count and backing allocation. *)
Definition tracks (l : list frame_meta) (fl : list Z) (M : gmap Z (Z * Z)) : Prop :=
  ∀ p r w, M !! p = Some (r, w) ↔
    ∃ i, used l fl i ∧ pa (slot_at l i) = p ∧ refs (slot_at l i) = r ∧ raw (slot_at l i) = w.

Definition frame_ok (st : frames_t) (M : gmap Z (Z * Z)) : Prop :=
  ∃ l fl B, frames st = Some l ∧ table_ok l (frame_hash st) (frame_free_head st) fl B ∧
            tracks l fl M.

(** * Array cells *)

Lemma slot_at_set l i f j :
  0 ≤ i < length l → 0 ≤ j →
  slot_at (slot_set l i f) j = if decide (j = i) then f else slot_at l j.
Proof.
  intros Hi Hj. unfold slot_at, slot_set. destruct (decide (j = i)) as [->|].
  - rewrite list_lookup_insert_eq by lia. done.
  - rewrite list_lookup_insert_ne by lia. done.
Qed.
Lemma slot_at_eq l i f : 0 ≤ i < length l → slot_at (slot_set l i f) i = f.
Proof. intros. rewrite slot_at_set by lia. by rewrite decide_True. Qed.
Lemma slot_at_ne l i f j : 0 ≤ i < length l → 0 ≤ j → j ≠ i → slot_at (slot_set l i f) j = slot_at l j.
Proof. intros. rewrite slot_at_set by lia. by rewrite decide_False. Qed.
Lemma length_slot_set l i f : length (slot_set l i f) = length l.
Proof. apply length_insert. Qed.

Lemma length_set_refs l i v : length (set_refs l i v) = length l.
Proof. apply length_slot_set. Qed.
Lemma length_set_link l i v : length (set_link l i v) = length l.
Proof. apply length_slot_set. Qed.
Lemma used_length l l' fl i : length l' = length l → used l' fl i ↔ used l fl i.
Proof. intros E. unfold used. by rewrite E. Qed.

Lemma hash_at_set hs h v k :
  0 ≤ h < length hs → 0 ≤ k →
  hash_at (<[Z.to_nat h := v]> hs) k = if decide (k = h) then v else hash_at hs k.
Proof.
  intros Hh Hk. unfold hash_at. destruct (decide (k = h)) as [->|].
  - rewrite list_lookup_insert_eq by lia. done.
  - rewrite list_lookup_insert_ne by lia. done.
Qed.

Lemma mask_idemp p : mask (mask p) = mask p.
Proof. unfold mask. by rewrite <- Z.land_assoc, Z.land_diag. Qed.

Lemma hash_range p : 0 ≤ frame_hash_pa p < FRAME_HASH_SIZE.
Proof.
  unfold frame_hash_pa, FRAME_HASH_SIZE. change (8192 - 1) with (Z.ones 13).
  rewrite Z.land_ones by lia. apply Z.mod_pos_bound. lia.
Qed.

(** * Lookup *)

Lemma scan_slots_spec l p :
  ∀ l2 l1, l = l1 ++ l2 →
  (scan_slots l2 (length l1) p = -1 ∧
     ∀ f, f ∈ l2 → ¬ (refs f ≠ 0 ∧ pa f = p)) ∨
  (∃ i, scan_slots l2 (length l1) p = i ∧ length l1 ≤ i < length l ∧
     refs (slot_at l i) ≠ 0 ∧ pa (slot_at l i) = p).
Proof.
  intros l2. induction l2 as [|f l2 IH]; intros l1 ->.
  { left. split; [done|]. by intros f ?%not_elem_of_nil. }
  cbn [scan_slots]. destruct (nz_spec (refs f)) as [Hr|Hr], (Z.eqb_spec (pa f) p) as [Hp|Hp];
    cbn [andb].
  1:{ right. exists (length l1). split; [done|]. rewrite length_app. cbn [length].
      split; [lia|]. unfold slot_at. rewrite Nat2Z.id, lookup_app_r by lia.
      by rewrite Nat.sub_diag. }
  all: destruct (IH (l1 ++ [f])) as [[E Hn]|(i & E & Hi & Hs)];
    [by rewrite <- app_assoc|left|right];
    rewrite length_app in *; cbn [length] in *;
    replace (Z.of_nat (length l1 + 1)) with (length l1 + 1) in * by lia.
  all: try (split; [done|]; intros g [->|Hg]%elem_of_cons; [tauto|auto]).
  all: exists i; split; [done|]; split; [rewrite length_app in *; cbn [length] in *; lia|done].
Qed.

Lemma chain_slots_spec l p (b : list Z) :
  (∀ i, i ∈ b → 0 ≤ i ∧ refs (slot_at l i) ≠ 0) →
  ∀ b2 fuel a, slist (lk l) a b2 (-1) → (∀ i, i ∈ b2 → i ∈ b) → (length b2 < fuel)%nat →
  (chain_slots fuel l a p = Some (-1) ∧ ∀ i, i ∈ b2 → pa (slot_at l i) ≠ p) ∨
  (∃ i, chain_slots fuel l a p = Some i ∧ i ∈ b2 ∧ pa (slot_at l i) = p).
Proof.
  intros Hb b2. induction b2 as [|i b2 IH]; intros [|fuel] a Hl Hsub Hf; simpl in Hf; try lia.
  { simpl in Hl. subst a. left. split; [done|]. by intros i ?%not_elem_of_nil. }
  destruct Hl as [-> Hl]. destruct (Hb i (Hsub i ltac:(mem))) as [Hi Hr].
  cbn [chain_slots]. rewrite (proj2 (Z.leb_le 0 i)) by lia.
  rewrite (proj2 (nz_true _)) by done. cbn [andb].
  destruct (Z.eqb_spec (pa (slot_at l i)) p) as [E|E].
  { right. exists i. split_and!; [done|mem|done]. }
  change (link (slot_at l i)) with (lk l i).
  destruct (IH fuel _ Hl) as [[-> Hn]|(j & -> & Hj & Hp)]; [|lia|left|right].
  - intros j Hj. apply Hsub. mem.
  - split; [done|]. intros j [->|Hj]%elem_of_cons; auto.
  - exists j. split_and!; [done|mem|done].
Qed.

Section lookup.
Context (st : frames_t) (l : list frame_meta) (fl : list Z) (B : Z → list Z).
Context (Hst : frames st = Some l).
Context (Hok : table_ok l (frame_hash st) (frame_free_head st) fl B).

Lemma bucket_length hs h :
  frame_hash st = Some hs → 0 ≤ h < FRAME_HASH_SIZE → (length (B h) ≤ length l)%nat.
Proof using Hok.
  intros E Hh. destruct (t_hash _ _ _ _ _ Hok hs E) as [_ Ht].
  destruct (Ht h Hh) as (_ & Hnd & Hin).
  assert (B h ⊆+ seqZ 0 (length l)) as Hs%submseteq_length.
  { apply NoDup_submseteq; [done|]. intros i [[Hi _] _]%Hin. apply elem_of_seqZ. lia. }
  rewrite length_seqZ in Hs. lia.
Qed.

(** Both lookups find the one slot of a live frame, or report none. *)
Lemma slot_lookup p :
  ∃ slot, frame_slot_locked st (mask p) = Some slot ∧
    ((slot = -1 ∧ ∀ i, used l fl i → pa (slot_at l i) ≠ mask p) ∨
     (used l fl slot ∧ pa (slot_at l slot) = mask p)).
Proof using All.
  pose proof bucket_length as Hbl.
  unfold frame_slot_locked. rewrite Hst, mask_idemp. destruct (frame_hash st) as [hs|] eqn:Eh.
  - destruct (t_hash _ _ _ _ _ Hok hs eq_refl) as [_ Ht].
    pose proof (hash_range (mask p)) as Hr. destruct (Ht _ Hr) as (Hl & _ & Hin).
    pose proof (Hbl hs _ eq_refl Hr) as Hlen.
    destruct (chain_slots_spec l (mask p) (B (frame_hash_pa (mask p)))) with
      (b2 := B (frame_hash_pa (mask p))) (fuel := S (length l))
      (a := hash_at hs (frame_hash_pa (mask p))) as [[E Hn]|(i & E & Hi & Hp)]; try done; [|lia|..].
    + intros i [Hu _]%Hin. split; [apply Hu|]. pose proof (t_used _ _ _ _ _ Hok i Hu). lia.
    + eexists. split; [exact E|left]. split; [done|]. intros i Hu Hp. apply (Hn i); [|done].
      apply Hin. by rewrite Hp.
    + eexists. split; [exact E|right]. by apply Hin in Hi as [Hu _].
  - destruct (scan_slots_spec l (mask p) l []) as [[E Hn]|(i & E & Hi & Hr & Hp)]; [done|..].
    + eexists. split; [reflexivity|left]. change 0 with (Z.of_nat (length (@nil frame_meta))).
      split; [done|]. intros i Hu Hp. pose proof (t_used _ _ _ _ _ Hok i Hu) as [Hr _].
      apply (Hn (slot_at l i)); [|split; [lia|done]]. destruct Hu as [Hi _].
      unfold slot_at. destruct (lookup_lt_is_Some_2 l (Z.to_nat i) ltac:(lia)) as [f Hf].
      rewrite Hf. by apply list_elem_of_lookup_2 in Hf.
    + eexists. split; [reflexivity|right]. change 0 with (Z.of_nat (length (@nil frame_meta))).
      rewrite E. split; [|done]. split; [cbn in Hi; lia|]. intros Hfl.
      apply (t_range _ _ _ _ _ Hok) in Hfl as [_ ?]. done.
Qed.
End lookup.

(** * Changing a reference count *)

(** Same cells but for the reference count of one slot. *)
Lemma slot_refs l slot r j :
  0 ≤ slot < length l → 0 ≤ j →
  let f := slot_at (set_refs l slot r) j in
  pa f = pa (slot_at l j) ∧ raw f = raw (slot_at l j) ∧ link f = link (slot_at l j) ∧
  refs f = if decide (j = slot) then r else refs (slot_at l j).
Proof.
  intros Hs Hj. unfold set_refs. cbn zeta. rewrite slot_at_set by lia.
  destruct (decide (j = slot)) as [->|]; done.
Qed.

Lemma set_refs_ok l hash head fl B slot r :
  table_ok l hash head fl B → used l fl slot → 0 < r < 2 ^ 32 →
  table_ok (set_refs l slot r) hash head fl B.
Proof.
  intros [H1 H2 H3 H4 H5 H6] Hu Hr. destruct Hu as [Hs Hn].
  pose proof (slot_refs l slot r) as Hf.
  pose proof (length_set_refs l slot r) as Hlen.
  pose proof (λ i, used_length l _ fl i Hlen) as Hus.
  assert (∀ i, 0 ≤ i → lk (set_refs l slot r) i = lk l i) as Hlk by (intros i Hi; by apply Hf).
  split.
  - eapply slist_ext; [|done]. intros i Hi. apply Hlk, H3, Hi.
  - done.
  - intros i Hi. rewrite Hlen. destruct (H3 i Hi) as [Hi1 Hi2]. split; [done|].
    destruct (Hf i Hs ltac:(lia)) as (_ & _ & _ & ->). by rewrite decide_False by congruence.
  - intros i Hi%Hus. destruct (Hf i Hs ltac:(apply Hi)) as (-> & _ & _ & ->).
    destruct (decide (i = slot)) as [->|]; [split; [done|by apply H4; split]|by apply H4].
  - intros i j Hi%Hus Hj%Hus. destruct (Hf i Hs ltac:(apply Hi)) as (-> & _).
    destruct (Hf j Hs ltac:(apply Hj)) as (-> & _). by apply H5.
  - intros hs E. destruct (H6 hs E) as [Hl Hb]. split; [done|]. intros h Hh.
    destruct (Hb h Hh) as (Hb1 & Hb2 & Hb3). split_and!; [|done|].
    + eapply slist_ext; [|done]. intros i Hi%Hb3. apply Hlk, Hi.
    + intros i. rewrite Hb3, Hus. split; intros [Hi Hp]; (split; [done|]);
        destruct (Hf i Hs ltac:(apply Hi)) as (E1 & _); congruence.
Qed.

Lemma tracks_lookup l fl M i :
  tracks l fl M → used l fl i →
  M !! pa (slot_at l i) = Some (refs (slot_at l i), raw (slot_at l i)).
Proof. intros HM Hu. apply HM. by exists i. Qed.

Lemma tracks_None l fl M p :
  tracks l fl M → (∀ i, used l fl i → pa (slot_at l i) ≠ p) → M !! p = None.
Proof.
  intros HM Hn. destruct (M !! p) as [[r w]|] eqn:E; [|done].
  apply HM in E as (i & Hu & Hp & _). by apply (Hn i) in Hu.
Qed.

Lemma set_refs_tracks l hash head fl B M slot r :
  table_ok l hash head fl B → tracks l fl M → used l fl slot →
  tracks (set_refs l slot r) fl (<[pa (slot_at l slot) := (r, raw (slot_at l slot))]> M).
Proof.
  intros Hok HM Hu p r' w. pose proof (slot_refs l slot r) as Hf.
  pose proof (λ i, used_length l _ fl i (length_set_refs l slot r)) as Hus.
  destruct (decide (p = pa (slot_at l slot))) as [->|Hne].
  - rewrite lookup_insert_eq. split.
    + intros [= <- <-]. exists slot. destruct (Hf slot (proj1 Hu) ltac:(apply Hu)) as (E1 & E2 & _ & E3).
      rewrite decide_True in E3 by done. split_and!; [by apply Hus|done..].
    + intros (i & Hi%Hus & Hp & Hr & Hw).
      destruct (Hf i (proj1 Hu) ltac:(apply Hi)) as (E1 & E2 & _ & E3).
      assert (i = slot) as -> by (apply (t_uniq _ _ _ _ _ Hok); [done..|congruence]).
      rewrite decide_True in E3 by done. congruence.
  - rewrite lookup_insert_ne by done. unfold tracks in HM. rewrite HM.
    split; intros (i & Hi & Hp & Hr & Hw).
    + exists i. destruct (Hf i (proj1 Hu) ltac:(apply Hi)) as (E1 & E2 & _ & E3).
      rewrite decide_False in E3 by (intros ->; congruence).
      split_and!; [by apply Hus|congruence..].
    + exists i. apply Hus in Hi. destruct (Hf i (proj1 Hu) ltac:(apply Hi)) as (E1 & E2 & _ & E3).
      rewrite decide_False in E3 by (intros ->; congruence).
      split_and!; [done|congruence..].
Qed.

(** * Taking a free slot *)

(** [l'] is [l] with the free slot [slot] made a live frame at [p]. *)
Record filled_slot (l l' : list frame_meta) (slot p w x : Z) : Prop := {
  fs_len : length l' = length l;
  fs_slot : slot_at l' slot = MkMeta p w 1 x;
  fs_other : ∀ j, 0 ≤ j → j ≠ slot → slot_at l' j = slot_at l j
}.

Section fill.
Context (l l' : list frame_meta) (hash hash' : option (list Z)) (head slot p w x : Z).
Context (fl : list Z) (B : Z → list Z).
Context (Hok : table_ok l hash head (slot :: fl) B).
Context (Hf : filled_slot l l' slot p w x) (Hp : mask p = p).
Context (Hnew : ∀ i, used l (slot :: fl) i → pa (slot_at l i) ≠ p).
Context (Hhash : match hash, hash' with
                 | None, None => True
                 | Some hs, Some hs' =>
                     x = hash_at hs (frame_hash_pa p) ∧
                     hs' = <[Z.to_nat (frame_hash_pa p) := slot]> hs
                 | _, _ => False
                 end).

Lemma fill_slot_range : 0 ≤ slot < length l ∧ slot ∉ fl.
Proof using Hok.
  split; [apply (t_range _ _ _ _ _ Hok); mem|].
  by pose proof (t_nodup _ _ _ _ _ Hok) as [? _]%NoDup_cons.
Qed.

Lemma fill_used i : used l' fl i ↔ i = slot ∨ used l (slot :: fl) i.
Proof using Hok Hf.
  destruct fill_slot_range as [Hr Hn]. unfold used. rewrite (fs_len _ _ _ _ _ _ Hf), not_elem_of_cons.
  destruct (decide (i = slot)) as [->|]; [|tauto]. split; [tauto|]. intros _. split; [lia|done].
Qed.

Lemma fill_hash_ok hs' :
  hash' = Some hs' → Z.of_nat (length hs') = FRAME_HASH_SIZE ∧
  ∀ h, 0 ≤ h < FRAME_HASH_SIZE →
    let b := if decide (h = frame_hash_pa p) then slot :: B h else B h in
    slist (lk l') (hash_at hs' h) b (-1) ∧ NoDup b ∧
    ∀ i, i ∈ b ↔ used l' fl i ∧ frame_hash_pa (pa (slot_at l' i)) = h.
Proof using Hok Hf Hnew Hhash Hp.
  intros E. destruct fill_slot_range as [Hr Hn]. pose proof fill_used as Hfu.
  rewrite E in Hhash. destruct hash as [hs|] eqn:Eh; [|done].
  destruct Hhash as [-> ->]. destruct (t_hash _ _ _ _ _ Hok hs eq_refl) as [Hlen Hb].
  rewrite length_insert. split; [done|]. intros h Hh b.
  destruct (Hb h Hh) as (Hb1 & Hb2 & Hb3).
  assert (∀ i, i ∈ B h → i ≠ slot ∧ 0 ≤ i) as Hbs.
  { intros i [[Hi Hni] _]%Hb3. split; [intros ->; apply Hni; mem|lia]. }
  assert (slist (lk l') (hash_at hs h) (B h) (-1)) as Hl'.
  { eapply slist_ext; [|exact Hb1]. intros i Hi. unfold lk.
    by rewrite (fs_other _ _ _ _ _ _ Hf) by (by apply Hbs). }
  pose proof (hash_range p). rewrite hash_at_set by lia. unfold b.
  assert (∀ i, i ∈ B h ↔ i ≠ slot ∧ used l' fl i ∧ frame_hash_pa (pa (slot_at l' i)) = h) as Hin.
  { intros i. rewrite Hfu. split.
    - intros Hi. destruct (Hbs i Hi) as [Hne Hi0]. apply Hb3 in Hi as [Hu E'].
      rewrite (fs_other _ _ _ _ _ _ Hf) by done. tauto.
    - intros (Hne & Hu & E'). destruct Hu as [|Hu]; [done|]. apply Hb3. split; [done|].
      rewrite (fs_other _ _ _ _ _ _ Hf) in E'; [done|apply Hu|done]. }
  destruct (decide (h = frame_hash_pa p)) as [->|Hne].
  - split_and!.
    + split; [done|]. change (lk l' slot) with (link (slot_at l' slot)). by rewrite (fs_slot _ _ _ _ _ _ Hf).
    + constructor; [|done]. intros Hx. by destruct (Hbs _ Hx).
    + intros i. rewrite elem_of_cons, Hin, Hfu.
      destruct (decide (i = slot)) as [->|]; [|tauto].
      rewrite (fs_slot _ _ _ _ _ _ Hf). cbn. tauto.
  - split_and!; [done..|]. intros i. rewrite Hin, Hfu.
    destruct (decide (i = slot)) as [->|]; [|tauto]. rewrite (fs_slot _ _ _ _ _ _ Hf). cbn.
    split; [tauto|]. intros [_ E']. congruence.
Qed.

Lemma fill_ok :
  table_ok l' hash' (lk l slot) fl
    (λ h, if decide (h = frame_hash_pa p) then slot :: B h else B h).
Proof using All.
  destruct fill_slot_range as [Hr Hn]. pose proof fill_used as Hus. pose proof fill_hash_ok as Hho.
  destruct Hok as [[_ H1] [_ H2]%NoDup_cons H3 H4 H5 _].
  assert (∀ i, i ∈ fl → i ≠ slot) as Hne by (by intros i Hi ->).
  split.
  - eapply slist_ext; [|exact H1]. intros i Hi. unfold lk.
    destruct (H3 i ltac:(mem)). by rewrite (fs_other _ _ _ _ _ _ Hf) by (lia || auto).
  - done.
  - intros i Hi. rewrite (fs_len _ _ _ _ _ _ Hf). destruct (H3 i ltac:(mem)) as [Hi1 Hi2].
    split; [done|]. by rewrite (fs_other _ _ _ _ _ _ Hf) by (lia || auto).
  - intros i [->|Hi]%Hus; [by rewrite (fs_slot _ _ _ _ _ _ Hf)|].
    rewrite (fs_other _ _ _ _ _ _ Hf); [by apply H4|apply Hi|].
    intros ->. destruct Hi as [_ Hi]. apply Hi. mem.
  - assert (∀ i, used l (slot :: fl) i → i ≠ slot ∧ slot_at l' i = slot_at l i) as Ho.
    { intros i Hi. assert (i ≠ slot) by (intros ->; destruct Hi as [_ Hi]; apply Hi; mem).
      split; [done|]. apply (fs_other _ _ _ _ _ _ Hf); [apply Hi|done]. }
    intros i j [->|Hi]%Hus [->|Hj]%Hus; [done|..];
      rewrite ?(fs_slot _ _ _ _ _ _ Hf); cbn [pa]; intros E.
    + destruct (Ho j Hj) as [_ E']. rewrite E' in E. by destruct (Hnew j Hj).
    + destruct (Ho i Hi) as [_ E']. rewrite E' in E. by destruct (Hnew i Hi).
    + destruct (Ho i Hi) as [_ Ei], (Ho j Hj) as [_ Ej]. rewrite Ei, Ej in E. by apply H5.
  - exact Hho.
Qed.

Lemma fill_tracks M :
  tracks l (slot :: fl) M → tracks l' fl (<[p := (1, w)]> M).
Proof using Hok Hf Hnew.
  intros HM q r v. pose proof fill_used as Hus. unfold tracks in HM.
  assert (∀ i, used l (slot :: fl) i → slot_at l' i = slot_at l i) as Ho.
  { intros i Hi. apply (fs_other _ _ _ _ _ _ Hf); [apply Hi|].
    intros ->. destruct Hi as [_ Hi]. apply Hi. mem. }
  destruct (decide (q = p)) as [->|Hne].
  - rewrite lookup_insert_eq. split.
    + intros [= <- <-]. exists slot. rewrite (fs_slot _ _ _ _ _ _ Hf). split_and!; try done.
      apply Hus. by left.
    + intros (i & [->|Hi]%Hus & Hq & Hr & Hw).
      * rewrite (fs_slot _ _ _ _ _ _ Hf) in Hr, Hw. cbn in Hr, Hw. congruence.
      * rewrite Ho in Hq by done. by destruct (Hnew i Hi).
  - rewrite lookup_insert_ne, HM by done. split.
    + intros (i & Hi & Hq). exists i. rewrite Ho by done. split; [apply Hus; by right|done].
    + intros (i & [->|Hi]%Hus & Hq); [rewrite (fs_slot _ _ _ _ _ _ Hf) in Hq; naive_solver|].
      exists i. by rewrite Ho in Hq.
Qed.
End fill.

(** The three statements that install a frame in a free slot. *)
Definition install (st : frames_t) (slot p w : Z) : frames_t :=
  frame_hash_insert_locked (fill_slot st slot p w) slot.

Lemma install_ok st M p w :
  frame_ok st M → mask p = p → M !! p = None →
  let '(st1, slot) := frame_take_free_locked st in
  (slot < 0 ∧ st1 = st) ∨ (0 ≤ slot ∧ frame_ok (install st1 slot p w) (<[p := (1, w)]> M)).
Proof.
  intros (l & fl & B & El & Hok & HM) Hp Hnone. unfold frame_take_free_locked. rewrite El.
  destruct fl as [|slot fl].
  { pose proof (t_free _ _ _ _ _ Hok) as ->. left. done. }
  pose proof (t_free _ _ _ _ _ Hok) as [Hhead _].
  destruct (t_range _ _ _ _ _ Hok slot ltac:(mem)) as [Hr _].
  rewrite Hhead. rewrite (proj2 (Z.ltb_ge slot 0)) by lia. right. split; [lia|].
  assert (∀ i, used l (slot :: fl) i → pa (slot_at l i) ≠ p) as Hnew.
  { intros i Hi E. pose proof (tracks_lookup _ _ _ _ HM Hi). congruence. }
  set (l1 := set_link l slot (-1)).
  assert (length l1 = length l) as Hl1 by apply length_slot_set.
  set (l2 := slot_set l1 slot (MkMeta p w 1 (link (slot_at l1 slot)))).
  assert (filled_slot l l2 slot p w (-1)) as Hf2.
  { split.
    - unfold l2. by rewrite length_slot_set.
    - unfold l2. rewrite slot_at_eq by lia. unfold l1, set_link. by rewrite slot_at_eq.
    - intros j Hj Hne. unfold l2, l1, set_link. rewrite !slot_at_ne; rewrite ?length_slot_set; done. }
  unfold install, fill_slot. cbn [frames frame_hash frame_free_head]. fold l2.
  unfold frame_hash_insert_locked. cbn [frames frame_hash frame_free_head].
  destruct (frame_hash st) as [hs|] eqn:Eh.
  - rewrite (proj2 (Z.ltb_ge slot 0)) by lia. rewrite (fs_slot _ _ _ _ _ _ Hf2). cbn [pa].
    set (l3 := set_link l2 slot (hash_at hs (frame_hash_pa p))).
    assert (filled_slot l l3 slot p w (hash_at hs (frame_hash_pa p))) as Hf3.
    { destruct Hf2 as [F1 F2 F3]. split.
      - unfold l3. by rewrite length_set_link.
      - unfold l3, set_link. rewrite slot_at_eq by lia. by rewrite F2.
      - intros j Hj Hne. unfold l3, set_link. rewrite slot_at_ne by (lia || done). auto. }
    exists l3, fl, (λ h, if decide (h = frame_hash_pa p) then slot :: B h else B h).
    split; [done|]. split.
    + eapply (fill_ok l l3 (Some hs) _ slot slot); [by rewrite Hhead in Hok|done..].
    + eapply (fill_tracks l l3 (Some hs) slot slot); [by rewrite Hhead in Hok|done..].
  - exists l2, fl, (λ h, if decide (h = frame_hash_pa p) then slot :: B h else B h).
    split; [done|]. split.
    + eapply (fill_ok l l2 None _ slot slot); [by rewrite Hhead in Hok|done..].
    + eapply (fill_tracks l l2 None slot slot); [by rewrite Hhead in Hok|done..].
Qed.

(** * Unlinking a slot from its bucket *)

(** The cell the pointer walk stops at: the bucket head or the predecessor. *)
Definition cell_before (pp : cell) (b1 : list Z) : cell :=
  match last b1 with Some x => P_link x | None => pp end.

Lemma remove_walk_spec l hs slot b2 :
  ∀ b1 fuel pp,
  slist (lk l) (deref l hs pp) (b1 ++ slot :: b2) (-1) →
  (∀ i, i ∈ b1 ++ slot :: b2 → 0 ≤ i) → slot ∉ b1 → (length b1 < fuel)%nat →
  remove_walk fuel l hs pp slot =
  let '(l', hs') := assign l hs (cell_before pp b1) (lk l slot) in
  Some (set_link l' slot (-1), hs').
Proof.
  intros b1. induction b1 as [|x b1 IH]; intros [|fuel] pp Hl Hpos Hn Hf; simpl in Hf; try lia.
  - destruct Hl as [Hd _]. cbn [remove_walk]. rewrite Hd.
    rewrite (proj2 (Z.leb_le 0 slot)) by (apply Hpos; mem). by rewrite Z.eqb_refl.
  - destruct Hl as [Hd Hl]. apply not_elem_of_cons in Hn as [Hne Hn].
    cbn [remove_walk]. rewrite Hd.
    rewrite (proj2 (Z.leb_le 0 x)) by (apply Hpos; mem).
    rewrite (proj2 (Z.eqb_neq x slot)) by congruence.
    rewrite (IH fuel (P_link x)); [|done| |done|lia].
    + unfold cell_before. destruct b1 as [|y b1]; [done|].
      rewrite last_cons_cons. by destruct (last (y :: b1)) eqn:E; [|apply last_None in E].
    + intros i Hi. apply Hpos. mem.
Qed.

(** * Returning a slot *)

Section remove.
Context (l l' : list frame_meta) (hash hash' : option (list Z)) (head slot : Z).
Context (fl : list Z) (B : Z → list Z) (b1 b2 : list Z).
Let h0 := frame_hash_pa (pa (slot_at l slot)).
Context (Hok : table_ok l hash head fl B) (Hu : used l fl slot).
Context (Hlen : length l' = length l).
Context (Hslot : slot_at l' slot = MkMeta 0 0 0 head).
Context (Hother : ∀ j, 0 ≤ j → j ≠ slot →
  pa (slot_at l' j) = pa (slot_at l j) ∧ raw (slot_at l' j) = raw (slot_at l j) ∧
  refs (slot_at l' j) = refs (slot_at l j)).
Context (Hlink : ∀ j, 0 ≤ j → j ≠ slot →
  lk l' j = if decide (is_Some hash ∧ last b1 = Some j) then lk l slot else lk l j).
Context (Hb : is_Some hash → B h0 = b1 ++ slot :: b2).
Context (Hhash : match hash, hash' with
  | None, None => True
  | Some hs, Some hs' => Z.of_nat (length hs') = FRAME_HASH_SIZE ∧
      ∀ h, 0 ≤ h < FRAME_HASH_SIZE →
        hash_at hs' h = if decide (h = h0 ∧ b1 = []) then lk l slot else hash_at hs h
  | _, _ => False end).

Lemma rm_used i : used l' (slot :: fl) i ↔ used l fl i ∧ i ≠ slot.
Proof using Hlen. unfold used. rewrite Hlen, not_elem_of_cons. tauto. Qed.

(** The links of slots outside the bucket of [slot] are kept. *)
Lemma rm_link_out j : 0 ≤ j → j ≠ slot → (is_Some hash → j ∉ B h0) → lk l' j = lk l j.
Proof using Hlink Hb.
  intros Hj Hne Hn. rewrite Hlink by done. rewrite decide_False; [done|]. intros [Hs E].
  apply (Hn Hs). rewrite (Hb Hs). apply last_Some_elem_of in E. mem.
Qed.

Lemma rm_hash_ok hs' :
  hash' = Some hs' → Z.of_nat (length hs') = FRAME_HASH_SIZE ∧
  ∀ h, 0 ≤ h < FRAME_HASH_SIZE →
    let b := if decide (h = h0) then b1 ++ b2 else B h in
    slist (lk l') (hash_at hs' h) b (-1) ∧ NoDup b ∧
    ∀ i, i ∈ b ↔ used l' (slot :: fl) i ∧ frame_hash_pa (pa (slot_at l' i)) = h.
Proof using All.
  intros E. pose proof rm_used as Hus. pose proof rm_link_out as Hlo. rewrite E in Hhash.
  destruct hash as [hs|] eqn:Eh; [|done]. destruct Hhash as [Hl' Hat]. split; [done|].
  intros h Hh b. rewrite Hat by done. destruct (t_hash _ _ _ _ _ Hok hs eq_refl) as [_ Ht].
  destruct (Ht h Hh) as (T1 & T2 & T3). unfold b. specialize (Hb ltac:(done)).
  assert (∀ i, used l fl i → i ≠ slot → pa (slot_at l' i) = pa (slot_at l i)) as Hpa.
  { intros i [Hi _] Hne. by apply Hother; [lia|]. }
  destruct (decide (h = h0)) as [->|Hne].
  - rewrite Hb in T1, T2, T3. pose proof T2 as T2'.
    apply NoDup_app in T2' as (N1 & N2 & [N3 N4]%NoDup_cons).
    assert (∀ i, i ∈ b1 ++ slot :: b2 → 0 ≤ i) as Hpos by (intros i [[Hi _] _]%T3; lia).
    assert (∀ i, i ∈ b1 → i ≠ slot) as Hn1.
    { intros i Hi ->. apply (N2 slot Hi). mem. }
    split_and!.
    + pose proof (slist_unlink (lk l) (lk l') (hash_at hs h0) b1 slot b2 (-1) T2 T1) as Hs.
      assert ((if decide (h0 = h0 ∧ b1 = []) then lk l slot else hash_at hs h0) =
              match b1 with [] => lk l slot | _ => hash_at hs h0 end) as ->.
      { destruct b1; [by rewrite decide_True|rewrite decide_False; [done|]]. by intros [_ ?]. }
      apply Hs.
      * intros c Hc. rewrite Hlink; [|apply Hpos; mem|by intros ->].
        rewrite decide_False; [done|]. intros [_ El%last_Some_elem_of]. apply (N2 c El). mem.
      * intros c Hc. rewrite Hlink; [|apply Hpos; mem|auto].
        destruct (decide (last b1 = Some c)); [by rewrite decide_True|].
        rewrite decide_False; [done|]. by intros [_ ?].
    + apply NoDup_app. split_and!; [done| |done]. intros i Hi Hi2. apply (N2 i Hi). mem.
    + intros i. rewrite Hus. destruct (decide (i = slot)) as [->|Hne].
      * split; [|tauto]. rewrite elem_of_app. intros [Hi|Hi]; [by apply Hn1 in Hi|done].
      * split.
        -- intros Hi. assert (i ∈ b1 ++ slot :: b2) as [Hui Hp]%T3 by mem.
           rewrite Hpa by done. tauto.
        -- intros [[Hui _] Hp]. rewrite Hpa in Hp by done.
           assert (i ∈ b1 ++ slot :: b2) as Hi by (by apply T3). mem.
  - rewrite decide_False by tauto.
    assert (∀ i, i ∈ B h → i ≠ slot) as Hns by (by intros i [_ Hp]%T3 ->).
    split_and!; [|done|].
    + eapply slist_ext; [|exact T1]. intros i Hi. apply Hlo; [|by apply Hns|].
      * apply T3 in Hi as [[? _] _]. lia.
      * intros _ Hi0. apply T3 in Hi as [Hui Hp].
        destruct (Ht h0 (hash_range _)) as (_ & _ & T3'). apply T3' in Hi0 as [_ Hp']. congruence.
    + intros i. rewrite Hus. split.
      * intros Hi. pose proof (Hns i Hi). apply T3 in Hi as [Hui Hp]. by rewrite Hpa.
      * intros [[Hui Hne'] Hp]. rewrite Hpa in Hp by done. by apply T3.
Qed.

Lemma rm_ok :
  table_ok l' hash' slot (slot :: fl) (λ h, if decide (h = h0) then b1 ++ b2 else B h).
Proof using All.
  pose proof rm_used as Hus. pose proof rm_link_out as Hlo. pose proof rm_hash_ok as Hho.
  destruct Hok as [H1 H2 H3 H4 H5 H6]. destruct Hu as [Hr Hn].
  assert (∀ i, i ∈ fl → i ≠ slot) as Hfs by (by intros i Hi ->).
  split.
  - split; [done|]. unfold lk at 2. rewrite Hslot. cbn [link].
    eapply slist_ext; [|exact H1]. intros i Hi. destruct (H3 i Hi) as [Hi1 _].
    apply Hlo; [lia|by apply Hfs|]. intros [hs E] Hin.
    destruct (H6 hs E) as [_ Ht]. destruct (Ht h0 (hash_range _)) as (_ & _ & T3).
    by apply T3 in Hin as [[_ ?] _].
  - by constructor.
  - intros i [->|Hi]%elem_of_cons; rewrite Hlen; [by rewrite Hslot|].
    destruct (H3 i Hi) as [Hi1 Hi2]. split; [done|].
    destruct (Hother i) as (_ & _ & ->); [lia|by apply Hfs|done].
  - intros i [Hi Hne]%Hus. destruct (Hother i) as (-> & _ & ->); [apply Hi|done|]. by apply H4.
  - intros i j [Hi Hni]%Hus [Hj Hnj]%Hus. destruct (Hother i) as (-> & _); [apply Hi|done|].
    destruct (Hother j) as (-> & _); [apply Hj|done|]. by apply H5.
  - exact Hho.
Qed.

Lemma rm_tracks M : tracks l fl M → tracks l' (slot :: fl) (delete (pa (slot_at l slot)) M).
Proof using Hok Hu Hlen Hother.
  intros HM p r w. pose proof rm_used as Hus. unfold tracks in HM.
  rewrite lookup_delete_Some, HM. split.
  - intros [Hne (i & Hi & Hp & Hr & Hw)]. assert (i ≠ slot) by congruence.
    exists i. destruct (Hother i) as (E1 & E2 & E3); [apply Hi|done|].
    split_and!; [by apply Hus|congruence..].
  - intros (i & [Hi Hne]%Hus & Hp & Hr & Hw).
    destruct (Hother i) as (E1 & E2 & E3); [apply Hi|done|]. rewrite E1, E2, E3 in *.
    split; [|by exists i]. intros E. apply Hne, (t_uniq _ _ _ _ _ Hok); [done..|congruence].
Qed.
End remove.

Lemma set_link_at l i v j :
  0 ≤ i < length l → 0 ≤ j →
  let f := slot_at (set_link l i v) j in
  pa f = pa (slot_at l j) ∧ raw f = raw (slot_at l j) ∧ refs f = refs (slot_at l j) ∧
  link f = if decide (j = i) then v else link (slot_at l j).
Proof.
  intros Hi Hj. unfold set_link. cbn zeta. rewrite slot_at_set by lia.
  destruct (decide (j = i)) as [->|]; done.
Qed.

(** Returning the slot of an unlinked frame to the free list. *)
Lemma return_slot l lx hash hash' head slot fl B b1 b2 M :
  table_ok l hash head fl B → tracks l fl M → used l fl slot → length lx = length l →
  (∀ j, 0 ≤ j → j ≠ slot →
    pa (slot_at lx j) = pa (slot_at l j) ∧ raw (slot_at lx j) = raw (slot_at l j) ∧
    refs (slot_at lx j) = refs (slot_at l j) ∧
    lk lx j = if decide (is_Some hash ∧ last b1 = Some j) then lk l slot else lk l j) →
  let h0 := frame_hash_pa (pa (slot_at l slot)) in
  (is_Some hash → B h0 = b1 ++ slot :: b2) →
  match hash, hash' with
  | None, None => True
  | Some hs, Some hs' => Z.of_nat (length hs') = FRAME_HASH_SIZE ∧
      ∀ h, 0 ≤ h < FRAME_HASH_SIZE →
        hash_at hs' h = if decide (h = h0 ∧ b1 = []) then lk l slot else hash_at hs h
  | _, _ => False end →
  frame_ok (frame_return_free_locked (MkFrames (Some lx) hash' head) slot)
           (delete (pa (slot_at l slot)) M).
Proof.
  intros Hok HM Hu Hlen Hoth h0 Hb Hhash. pose proof Hu as [Hr _].
  unfold frame_return_free_locked. cbn [frames frame_hash frame_free_head].
  rewrite Hlen, (proj2 (Z.ltb_ge slot 0)), (proj2 (Z.leb_gt _ slot)) by lia. cbn [orb].
  set (l' := slot_set lx slot (MkMeta 0 0 0 head)).
  assert (length l' = length l) as Hl' by (unfold l'; by rewrite length_slot_set).
  assert (slot_at l' slot = MkMeta 0 0 0 head) as Hs by (unfold l'; rewrite slot_at_eq; [done|lia]).
  assert (∀ j, 0 ≤ j → j ≠ slot → slot_at l' j = slot_at lx j) as Ho.
  { intros j Hj Hne. unfold l'. rewrite slot_at_ne; [done|lia|done..]. }
  exists l', (slot :: fl), (λ h, if decide (h = h0) then b1 ++ b2 else B h).
  split; [done|]. cbn [frame_hash frame_free_head]. split.
  - apply (rm_ok l l' hash hash' head slot fl B b1 b2); try done.
    + intros j Hj Hne. rewrite Ho by done. destruct (Hoth j Hj Hne) as (? & ? & ? & _). done.
    + intros j Hj Hne. unfold lk at 1. rewrite Ho by done. by apply Hoth.
  - apply (rm_tracks l l' hash head slot fl B); try done.
    intros j Hj Hne. rewrite Ho by done. destruct (Hoth j Hj Hne) as (? & ? & ? & _). done.
Qed.

(** The walk over the bucket finds the slot and unlinks it. *)
Lemma unlink_slot l hs head fl B slot :
  table_ok l (Some hs) head fl B → used l fl slot →
  let h0 := frame_hash_pa (pa (slot_at l slot)) in
  let l1 := set_refs l slot 0 in
  ∃ b1 b2, B h0 = b1 ++ slot :: b2 ∧ (∀ i, i ∈ b1 → 0 ≤ i < length l ∧ i ≠ slot) ∧
    Z.of_nat (length hs) = FRAME_HASH_SIZE ∧
    remove_walk (S (length l1)) l1 hs (P_hash h0) slot =
    let '(l', hs') := assign l1 hs (cell_before (P_hash h0) b1) (lk l slot) in
    Some (set_link l' slot (-1), hs').
Proof.
  intros Hok Hu h0 l1. pose proof Hu as [Hr Hn].
  destruct (t_hash _ _ _ _ _ Hok hs eq_refl) as [Hlh Ht].
  destruct (Ht h0 (hash_range _)) as (T1 & T2 & T3).
  assert (slot ∈ B h0) as (b1 & b2 & Eb)%list_elem_of_split by (by apply T3).
  rewrite Eb in T1, T2, T3. pose proof T2 as T2'. apply NoDup_app in T2' as (N1 & N2 & _).
  assert (slot ∉ b1) as Hnb by (intros Hx; apply (N2 slot Hx); mem).
  assert (∀ i, i ∈ b1 ++ slot :: b2 → 0 ≤ i < length l) as Hpos by (by intros i [[Hi _] _]%T3).
  assert (∀ i, 0 ≤ i → lk l1 i = lk l i) as Hlk by (intros i Hi; by apply slot_refs).
  exists b1, b2. split_and!; [done| |done|].
  { intros i Hi. split; [apply Hpos; mem|congruence]. }
  rewrite (remove_walk_spec l1 hs slot b2 b1); [by rewrite Hlk by lia| | |done|].
  - eapply slist_ext; [|exact T1]. intros i Hi. by apply Hlk, Hpos.
  - intros i Hi. by apply Hpos.
  - assert (b1 ⊆+ seqZ 0 (length l)) as Hs%submseteq_length.
    { apply NoDup_submseteq; [done|]. intros i Hi. apply elem_of_seqZ.
      specialize (Hpos i ltac:(mem)). lia. }
    rewrite length_seqZ in Hs. unfold l1. rewrite length_set_refs. lia.
Qed.

(** Dropping the last reference: unlink from the bucket, return the slot. *)
Lemma release_slot st M l fl B slot :
  frames st = Some l → table_ok l (frame_hash st) (frame_free_head st) fl B → tracks l fl M →
  used l fl slot →
  ∃ st2,
    frame_hash_remove_locked
      (MkFrames (Some (set_refs l slot 0)) (frame_hash st) (frame_free_head st)) slot = Some st2 ∧
    frame_ok (frame_return_free_locked st2 slot) (delete (pa (slot_at l slot)) M).
Proof.
  intros El Hok HM Hu. pose proof Hu as [Hr Hn].
  pose proof (length_set_refs l slot 0) as Hl1. pose proof (λ j, slot_refs l slot 0 j Hr) as Hf.
  set (l1 := set_refs l slot 0) in *.
  unfold frame_hash_remove_locked. cbn [frames frame_hash frame_free_head].
  destruct (frame_hash st) as [hs|] eqn:Eh.
  - rewrite (proj2 (Z.ltb_ge slot 0)) by lia.
    destruct (Hf slot) as (-> & _); [lia|].
    destruct (unlink_slot _ _ _ _ _ _ Hok Hu) as (b1 & b2 & Eb & Hb1 & Hlh & Ew).
    fold l1 in Ew. rewrite Ew. unfold cell_before.
    pose proof (hash_range (pa (slot_at l slot))).
    destruct (last b1) as [x|] eqn:Ex; cbn [assign mbind option_bind];
      (eexists; split; [reflexivity|]);
      eapply (return_slot l _ (Some hs) _ _ _ fl B b1 b2); try done;
      rewrite ?length_set_link; try done.
    + destruct (Hb1 x (last_Some_elem_of _ _ Ex)) as [Hxr Hxs]. intros j Hj Hne.
      destruct (set_link_at (set_link l1 x (lk l slot)) slot (-1) j) as (-> & -> & -> & E1);
        [rewrite length_set_link; lia|lia|].
      destruct (set_link_at l1 x (lk l slot) j) as (-> & -> & -> & E2); [lia..|].
      destruct (Hf j Hj) as (-> & -> & E3 & ->). rewrite decide_False by done.
      split_and!; [done..|]. unfold lk at 1. rewrite E1, decide_False, E2, E3 by done.
      destruct (decide (j = x)) as [->|]; [by rewrite decide_True|].
      rewrite decide_False; [done|]. intros [_ E]. congruence.
    + split; [done|]. intros h _. rewrite decide_False; [done|]. by intros [_ ->].
    + intros j Hj Hne.
      destruct (set_link_at l1 slot (-1) j) as (-> & -> & -> & E1); [lia..|].
      destruct (Hf j Hj) as (-> & -> & E3 & ->). rewrite decide_False by done.
      split_and!; [done..|]. unfold lk at 1. rewrite E1, decide_False, E3 by done.
      rewrite decide_False; [done|]. intros [_ E]. congruence.
    + split; [by rewrite length_insert|]. intros h Hh. apply last_None in Ex as ->.
      rewrite hash_at_set by lia. destruct (decide (h = _)) as [->|];
        [by rewrite decide_True|by rewrite decide_False by tauto].
  - eexists. split; [reflexivity|].
    eapply (return_slot l _ None None _ _ fl B [] []); try done.
    intros j Hj Hne. destruct (Hf j Hj) as (-> & -> & E3 & ->). rewrite decide_False by done.
    split_and!; [done..|]. rewrite decide_False by (by intros [[] _]). exact E3.
Qed.
