(* ===== verification/FrameProps.v ===== *)
(** Reference counting of user frames ([mm/frame.c]) as its callers see it: the
    table refines a map from physical address to count, and a page goes back to
    the pool of [mem/pmm.c] exactly when its last reference is dropped. *)
From S2P Require Import Prelude Mem Heap HeapFree HeapChain HeapLayout HeapSpec HeapAlloc Pmm Frame FrameSpec.
Import Heap Pmm Frame.

(** The whole system: the table tracks [M], and the pages handed out by the pool
    are exactly the arena pages that are live frames. *)
Definition sys_ok (s : sys) (M : gmap Z (Z * Z)) : Prop :=
  frame_ok (tab s) M ∧
  (∃ A, pmm_pool (pool s) A ∧ ∀ p, p ∈ A ↔ is_page (pool s) p ∧ is_Some (M !! p)) ∧
  (∀ p r w, M !! p = Some (r, w) → w = 0).

Lemma mask_spec p : 0 ≤ p < 2 ^ 52 → mask p = p - p `mod` PAGE_SIZE_4K.
Proof.
  intros Hp. unfold mask. change PG_ADDR_MASK with (Z.ldiff (Z.ones 52) (Z.ones 12)).
  assert (p = Z.land p (Z.ones 52)) as Hx by (rewrite Z.land_ones by lia; by rewrite Z.mod_small).
  transitivity (Z.ldiff (Z.land p (Z.ones 52)) (Z.ones 12)).
  { rewrite !Z.ldiff_land. by rewrite Z.land_assoc. }
  rewrite <- Hx, Z.ldiff_ones_r by lia. rewrite Z.shiftl_mul_pow2, Z.shiftr_div_pow2 by lia.
  change (2 ^ 12) with PAGE_SIZE_4K. pose proof (Z.div_mod p PAGE_SIZE_4K ltac:(done)). lia.
Qed.

Lemma page_mask_id s A p : pmm_pool s A → is_page s p → mask p = p.
Proof.
  intros (fl & Hok & _) (H1 & H2 & H3). pose proof (pk_base _ _ Hok). pose proof (pk_end _ _ Hok).
  unfold MMIO_IDENTITY_LIMIT in *. rewrite mask_spec by (unfold PAGE_SIZE_4K in *; lia). lia.
Qed.

Lemma frame_slot_tracked st M p :
  frame_ok st M →
  ∃ l fl B slot, frames st = Some l ∧ table_ok l (frame_hash st) (frame_free_head st) fl B ∧
    tracks l fl M ∧ frame_slot_locked st (mask p) = Some slot ∧
    ((slot = -1 ∧ M !! mask p = None) ∨
     (used l fl slot ∧ pa (slot_at l slot) = mask p ∧
      M !! mask p = Some (refs (slot_at l slot), raw (slot_at l slot)))).
Proof.
  intros (l & fl & B & El & Hok & HM).
  destruct (slot_lookup st l fl B El Hok p) as (slot & E & [[-> Hn]|[Hu Hp]]).
  - exists l, fl, B, (-1). split_and!; [done..|left]. split; [done|]. by eapply tracks_None.
  - exists l, fl, B, slot. split_and!; [done..|right]. rewrite <- Hp. split_and!; [done..|].
    by apply (tracks_lookup l fl).
Qed.

(** Overwriting the entry of a live frame changes neither the live set nor the
    backing allocations. *)
Lemma update_entry s s' M k r r' w :
  sys_ok s M → M !! k = Some (r, w) → pool s' = pool s →
  frame_ok (tab s') (<[k := (r', w)]> M) → sys_ok s' (<[k := (r', w)]> M).
Proof.
  intros (_ & (A & HA & HAM) & Hw) Hk Ep Hf. split_and!; [done| |].
  - rewrite Ep. exists A. split; [done|]. intros q. rewrite HAM.
    destruct (decide (q = k)) as [->|]; [|by rewrite lookup_insert_ne].
    rewrite lookup_insert_eq, Hk. naive_solver.
  - intros q r0 w0. destruct (decide (q = k)) as [->|]; [|rewrite lookup_insert_ne by done; apply Hw].
    rewrite lookup_insert_eq. intros [= _ <-]. by eapply Hw.
Qed.

(** * What each operation does to the map *)

Lemma retain_ok s M p :
  sys_ok s M →
  match M !! mask p with
  | None => frame_retain s p = Some (s, -1)
  | Some (r, w) =>
      r + 1 < 2 ^ 32 →
      ∃ s', frame_retain s p = Some (s', 0) ∧ sys_ok s' (<[mask p := (r + 1, w)]> M) ∧
            pool s' = pool s
  end.
Proof.
  intros Hsys. pose proof Hsys as (Hf & _).
  destruct (frame_slot_tracked _ _ p Hf) as (l & fl & B & slot & El & Hok & HM & E & Hc).
  unfold frame_retain. rewrite E. cbn [mbind option_bind].
  destruct Hc as [[-> ->]|(Hu & Hp & Hlook)]; [done|]. rewrite Hlook. intros Hr.
  pose proof Hu as [Hs _]. rewrite (proj2 (Z.leb_le 0 slot)), El by lia.
  pose proof (t_used _ _ _ _ _ Hok slot Hu) as [Hr' _]. rewrite u32_small by lia.
  eexists. split; [reflexivity|]. split; [|reflexivity].
  eapply update_entry; [exact Hsys|exact Hlook|reflexivity|].
  exists (set_refs l slot (refs (slot_at l slot) + 1)), fl, B. cbn [tab frames frame_hash frame_free_head].
  split; [done|]. split; [by apply set_refs_ok; [..|lia]|]. rewrite <- Hp. by eapply set_refs_tracks.
Qed.

Lemma refcount_ok s M p :
  sys_ok s M →
  frame_refcount s p = Some (match M !! mask p with Some (r, _) => r | None => 0 end).
Proof.
  intros (Hf & _). destruct (frame_slot_tracked _ _ p Hf) as (l & fl & B & slot & El & Hok & HM & E & Hc).
  unfold frame_refcount. rewrite E. cbn [mbind option_bind]. rewrite El.
  destruct Hc as [[-> ->]|(Hu & Hp & ->)]; [done|]. destruct Hu as [Hs _].
  by rewrite (proj2 (Z.leb_le 0 slot)) by lia.
Qed.

(** Dropping the entry of a live frame matches giving its page back. *)
Lemma drop_entry s s' M k r :
  sys_ok s M → M !! k = Some (r, 0) → pool s' = pmm_free_page (pool s) k →
  frame_ok (tab s') (delete k M) → sys_ok s' (delete k M).
Proof.
  intros (_ & (A & HA & HAM) & Hw) Hk Ep Hf. split_and!; [done| |].
  2:{ intros q r0 w0 [_ Hq]%lookup_delete_Some. by eapply Hw. }
  rewrite Ep. destruct (decide (k ∈ A)) as [Hin|Hout].
  - exists (A ∖ {[k]}). split; [by apply pmm_free_pool|]. intros q.
    assert (is_page (pmm_free_page (pool s) k) q ↔ is_page (pool s) q) as ->.
    { destruct HA as (fl & Hok & _). apply HAM in Hin as [Hpg _].
      by rewrite (pmm_free_eq _ _ _ Hok Hpg). }
    rewrite elem_of_difference, elem_of_singleton, HAM.
    unfold is_Some. setoid_rewrite lookup_delete_Some. naive_solver.
  - assert (¬ is_page (pool s) k) as Hnp by (intros Hpg; apply Hout, HAM; eauto).
    rewrite (free_not_page _ _ _ HA Hnp). exists A. split; [done|]. intros q. rewrite HAM.
    unfold is_Some. setoid_rewrite lookup_delete_Some. naive_solver.
Qed.

Lemma release_ok s M p :
  sys_ok s M →
  match M !! mask p with
  | None => frame_release s p = Some s
  | Some (r, w) =>
      ∃ s', frame_release s p = Some s' ∧
        (if r =? 1 then
           sys_ok s' (delete (mask p) M) ∧ pool s' = pmm_free_page (pool s) (mask p)
         else sys_ok s' (<[mask p := (r - 1, w)]> M) ∧ pool s' = pool s)
  end.
Proof.
  intros Hsys. pose proof Hsys as (Hf & _ & Hw).
  destruct (frame_slot_tracked _ _ p Hf) as (l & fl & B & slot & El & Hok & HM & E & Hc).
  unfold frame_release. rewrite E. cbn [mbind option_bind]. rewrite El.
  destruct Hc as [[-> ->]|(Hu & Hp & Hlook)]; [done|]. rewrite Hlook. pose proof Hu as [Hs _].
  rewrite (proj2 (Z.leb_le 0 slot)) by lia.
  pose proof (t_used _ _ _ _ _ Hok slot Hu) as [Hr _].
  rewrite u32_small by lia. cbv zeta.
  destruct (slot_refs l slot (refs (slot_at l slot) - 1) slot) as (_ & Er & _ & Erf); [lia..|].
  rewrite decide_True in Erf by done. rewrite Erf, Er.
  pose proof (Hw _ _ _ Hlook) as Hraw. rewrite Hraw in *. change (nz 0) with false. cbn iota.
  destruct (Z.eqb_spec (refs (slot_at l slot)) 1) as [E1|E1].
  - rewrite E1. change (1 - 1) with 0. cbn [Z.eqb].
    destruct (release_slot (tab s) M l fl B slot El Hok HM Hu) as (st2 & -> & Hok2).
    cbn [mbind option_bind]. rewrite Hp in Hok2. eexists. split; [reflexivity|].
    split; [|reflexivity]. by eapply drop_entry.
  - rewrite (proj2 (Z.eqb_neq _ 0)) by lia. eexists. split; [reflexivity|]. split; [|done].
    eapply update_entry; [exact Hsys|exact Hlook|reflexivity|].
    exists (set_refs l slot (refs (slot_at l slot) - 1)), fl, B. cbn [tab frames frame_hash frame_free_head].
    split; [done|]. split; [by apply set_refs_ok; [..|lia]|]. rewrite <- Hp, <- Hraw.
    by eapply set_refs_tracks.
Qed.

Lemma adopt_ok s M p :
  sys_ok s M → mask p ≠ 0 → (is_page (pool s) (mask p) → is_Some (M !! mask p)) →
  ∃ s' r, frame_adopt s p = Some (s', r) ∧ pool s' = pool s ∧
    ((r = -1 ∧ M !! mask p = None ∧ sys_ok s' M) ∨
     (r = 0 ∧ is_Some (M !! mask p) ∧ sys_ok s' M) ∨
     (r = 0 ∧ M !! mask p = None ∧ sys_ok s' (<[mask p := (1, 0)]> M))).
Proof.
  intros Hsys Hp0 Hpool. pose proof Hsys as (Hf & (A & HA & HAM) & Hw).
  destruct (frame_slot_tracked _ _ p Hf) as (l & fl & B & slot & El & Hok & HM & E & Hc).
  unfold frame_adopt. rewrite (proj2 (Z.eqb_neq _ 0)) by done.
  rewrite bool_decide_eq_false_2 by congruence. cbn [orb]. rewrite E. cbn [mbind option_bind].
  destruct Hc as [[-> Hnone]|(Hu & Hp & Hlook)].
  - change (-1 <? 0) with true. cbn iota.
    pose proof (install_ok (tab s) M (mask p) 0 Hf (mask_idemp p) Hnone) as Hi.
    destruct (frame_take_free_locked (tab s)) as [st1 slot].
    destruct Hi as [[Hneg ->]|[Hpos Hok']].
    + rewrite (proj2 (Z.leb_gt 0 slot)) by done. rewrite (proj2 (Z.ltb_lt slot 0)) by done.
      eexists _, _. split; [reflexivity|]. split; [done|left]. by split_and!.
    + rewrite (proj2 (Z.leb_le 0 slot)) by done. rewrite (proj2 (Z.ltb_ge slot 0)) by lia.
      eexists _, _. split; [reflexivity|]. split; [done|right; right].
      split_and!; [done..|]. split; [exact Hok'|]. split; cbn [tab pool].
      * exists A. split; [done|]. intros q. rewrite HAM.
        destruct (decide (q = mask p)) as [->|]; [|by rewrite lookup_insert_ne].
        rewrite lookup_insert_eq, Hnone. split; [by intros [_ []]|].
        intros [Hpg _]. apply Hpool in Hpg. rewrite Hnone in Hpg. by destruct Hpg.
      * intros q r w. destruct (decide (q = mask p)) as [->|];
          [rewrite lookup_insert_eq; naive_solver|rewrite lookup_insert_ne by done; apply Hw].
  - destruct Hu as [Hs _]. rewrite (proj2 (Z.ltb_ge slot 0)) by lia. cbv iota.
    rewrite (proj2 (Z.ltb_ge slot 0)) by lia.
    eexists _, _. split; [reflexivity|]. split; [done|right; left]. by split_and!.
Qed.

Lemma alloc_ok s M caller :
  sys_ok s M → pmm_ready (pool s) = true →
  ∃ s' page, frame_alloc s caller = Some (s', page) ∧
    ((page = 0 ∧ sys_ok s' M) ∨
     (page ≠ 0 ∧ is_page (pool s) page ∧ M !! page = None ∧ sys_ok s' (<[page := (1, 0)]> M))).
Proof.
  intros Hsys Hrdy. pose proof Hsys as (Hf & (A & HA & HAM) & Hw).
  pose proof Hf as (l & fl & B & El & _). unfold frame_alloc. rewrite El, Hrdy.
  pose proof (pmm_alloc_pool (pool s) A HA) as Ha.
  assert (∀ q, is_page (pmm_alloc_page (pool s)).1 q ↔ is_page (pool s) q) as Hpgs.
  { intros q. unfold pmm_alloc_page. destruct (pmm_inited _); [|done]. cbn.
    by destruct (pmm_free_head (pool s) =? 0). }
  destruct (pmm_alloc_page (pool s)) as [pm page]. cbn [fst] in Hpgs. cbn [mbind option_bind].
  destruct Ha as [(-> & -> & _)|(Hpg & HnA & HA')].
  { eexists _, 0. split; [reflexivity|left]. split; [done|]. split; [done|]. split; [by exists A|done]. }
  assert (page ≠ 0) as Hp0.
  { destruct HA as (fl' & Hok' & _). pose proof (pk_base _ _ Hok'). destruct Hpg. lia. }
  rewrite (proj2 (Z.eqb_neq page 0)) by done. cbn [tab pool kheap].
  assert (M !! page = None) as Hnone.
  { destruct (M !! page) eqn:Em; [|done]. exfalso. apply HnA, HAM. rewrite Em. eauto. }
  pose proof (install_ok (tab s) M page 0 Hf (page_mask_id _ _ _ HA Hpg) Hnone) as Hi.
  destruct (frame_take_free_locked (tab s)) as [st1 slot].
  destruct Hi as [[Hneg ->]|[Hpos Hok']].
  - rewrite (proj2 (Z.leb_gt 0 slot)) by done. change (nz 0) with false. cbn iota.
    eexists _, 0. split; [reflexivity|left]. split; [done|]. split; [done|]. split; [|done]. cbn [tab pool].
    exists (({[page]} ∪ A) ∖ {[page]}). split; [apply pmm_free_pool; [done|set_solver]|].
    intros q. destruct HA' as (fl' & Hok'' & _). apply Hpgs in Hpg.
    rewrite (pmm_free_eq _ _ _ Hok'' Hpg). change (is_page _ q) with (is_page pm q).
    rewrite Hpgs, elem_of_difference, elem_of_union, !elem_of_singleton, HAM.
    destruct (decide (q = page)) as [->|]; [|tauto]. rewrite Hnone. split; [tauto|]. by intros [_ []].
  - rewrite (proj2 (Z.leb_le 0 slot)) by done.
    eexists _, page. split; [reflexivity|right].
    split_and!; [done..|]. split; [exact Hok'|]. split; cbn [tab pool].
    + exists ({[page]} ∪ A). split; [done|]. intros q.
      rewrite Hpgs, elem_of_union, elem_of_singleton, HAM.
      destruct (decide (q = page)) as [->|Hne].
      * rewrite lookup_insert_eq. split; [|tauto]. intros _. split; [done|by eexists].
      * rewrite lookup_insert_ne by done. tauto.
    + intros q r w. destruct (decide (q = page)) as [->|];
        [rewrite lookup_insert_eq; naive_solver|rewrite lookup_insert_ne by done; apply Hw].
Qed.

(** * Initialisation *)

Lemma thread_free_spec n :
  ∀ (k : nat) l head, (k ≤ n)%nat → length l = n →
  (∀ i, 0 ≤ i < n → pa (slot_at l i) = 0 ∧ raw (slot_at l i) = 0 ∧ refs (slot_at l i) = 0) →
  slist (lk l) head (seqZ k (n - k)) (-1) →
  let '(l', head') := thread_free k l head in
  length l' = n ∧ slist (lk l') head' (seqZ 0 n) (-1) ∧
  (∀ i, 0 ≤ i < n → pa (slot_at l' i) = 0 ∧ raw (slot_at l' i) = 0 ∧ refs (slot_at l' i) = 0).
Proof.
  induction k as [|k IH]; intros l head Hk Hl H0 Hs.
  { cbn [thread_free]. replace (n - 0%nat) with (Z.of_nat n) in Hs by lia. done. }
  cbn [thread_free]. apply IH; [lia|by rewrite length_set_link| |].
  - intros i Hi. destruct (set_link_at l k head i) as (-> & -> & -> & _); [lia..|]. by apply H0.
  - rewrite (seqZ_cons k) by lia. split; [done|]. unfold lk at 2.
    destruct (set_link_at l k head k) as (_ & _ & _ & ->); [lia..|]. rewrite decide_True by done.
    replace (Z.succ k) with (Z.of_nat (S k)) by lia.
    replace (Z.pred (n - k)) with (n - S k) by lia.
    eapply slist_ext; [|exact Hs]. intros i Hi%elem_of_seqZ. unfold lk.
    destruct (set_link_at l k head i) as (_ & _ & _ & ->); [lia..|]. by rewrite decide_False by lia.
Qed.

Lemma fresh_table_ok n hash :
  (∀ hs, hash = Some hs → hs = replicate (Z.to_nat FRAME_HASH_SIZE) (-1)) →
  let '(l, head) := thread_free n (replicate n meta0) (-1) in
  frame_ok (MkFrames (Some l) hash head) ∅.
Proof.
  intros Hh. pose proof (thread_free_spec n n (replicate n meta0) (-1)) as Hs.
  assert (∀ i, slot_at (replicate n meta0) i = meta0) as H0.
  { intros i. unfold slot_at. destruct (replicate n meta0 !! Z.to_nat i) eqn:E; [|done].
    by apply lookup_replicate in E as [-> _]. }
  destruct (thread_free n (replicate n meta0) (-1)) as [l head].
  destruct Hs as (Hl & Hs & Hz); [lia|by rewrite length_replicate|by intros i _; rewrite H0| |].
  { replace (n - n) with 0 by lia. done. }
  assert (∀ i, ¬ used l (seqZ 0 n) i) as Hnu.
  { intros i [Hi Hn]. apply Hn, elem_of_seqZ. lia. }
  exists l, (seqZ 0 n), (λ _, []). cbn [frames frame_hash frame_free_head]. split; [done|]. split.
  - split; try (by intros i Hu%Hnu); [done|apply NoDup_seqZ| |by intros i j Hu%Hnu|].
    + intros i Hi%elem_of_seqZ. rewrite Hl. split; [lia|]. apply Hz. lia.
    + intros hs ->. rewrite (Hh hs eq_refl). split; [by rewrite length_replicate|].
      intros h Hr. split_and!; [|apply NoDup_nil_2|].
      * unfold hash_at. rewrite lookup_replicate_2 by (unfold FRAME_HASH_SIZE in *; lia). done.
      * intros i. split; [by intros ?%not_elem_of_nil|]. by intros [Hu%Hnu _].
  - intros p r w. rewrite lookup_empty. split; [done|]. by intros (i & Hu%Hnu & _).
Qed.

(** An allocation whose result is only tested against null. *)
Lemma kmalloc_any h bs fl n caller :
  heap_inv h bs fl → 0 < n → n + 23 < 2 ^ 64 →
  ∃ h' p bs' fl', kmalloc_nolock h n caller = Some (h', p) ∧ heap_inv h' bs' fl'.
Proof.
  intros Hi H1 H2. destruct (kmalloc_spec h bs fl n caller Hi H1 H2) as (h' & p & E & Hk).
  destruct Hk as [(-> & -> & _)|(_ & _ & [(bs' & fl' & Hi' & _) _ _ _ _])].
  - by exists h, 0, bs, fl.
  - by exists h', p, bs', fl'.
Qed.

(** [frame_init] on a well-formed heap returns and leaves the heap well-formed,
    and the table it built is either absent, when both attempts to allocate it
    failed, or tracks no frame, with or without a hash. *)
Theorem frame_init_correct h bs fl caller :
  heap_inv h bs fl →
  ∃ h' bs' fl' st, frame_init h caller = Some (h', st) ∧ heap_inv h' bs' fl' ∧
    (frames st = None ∨ frame_ok st ∅).
Proof.
  intros Hi. unfold frame_init.
  change (META_SIZE *u FRAME_META_MAX) with 6291456. change (META_SIZE *u 4096) with 98304.
  change (INT_SIZE *u FRAME_HASH_SIZE) with 32768.
  destruct (kmalloc_any h bs fl 6291456 caller Hi) as (h1 & p1 & bs1 & fl1 & -> & Hi1); [lia..|].
  cbn [mbind option_bind].
  assert (∃ h2 p2 cap bs2 fl2,
    (if p1 =? 0 then '(h, p) ← kmalloc_nolock h1 98304 caller; Some (h, p, 4096)
     else Some (h1, p1, FRAME_META_MAX)) = Some (h2, p2, cap) ∧ heap_inv h2 bs2 fl2)
    as (h2 & p2 & cap & bs2 & fl2 & -> & Hi2).
  { destruct (p1 =? 0); [|eauto 10].
    destruct (kmalloc_any h1 bs1 fl1 98304 caller Hi1) as (h2 & p2 & bs2 & fl2 & -> & Hi2); [lia..|].
    cbn [mbind option_bind]. eauto 10. }
  cbn [mbind option_bind].
  destruct (kmalloc_any h2 bs2 fl2 32768 caller Hi2) as (h3 & p3 & bs3 & fl3 & -> & Hi3); [lia..|].
  cbn [mbind option_bind]. exists h3, bs3, fl3. destruct (nz p2); [|eexists; split; [done|auto]].
  rewrite length_replicate.
  set (hash := if nz p3 then _ else None).
  pose proof (fresh_table_ok (Z.to_nat cap) hash) as Hf.
  destruct (thread_free _ _ _) as [l head]. eexists. split; [done|]. split; [done|right].
  apply Hf. unfold hash. destruct (nz p3); intros hs E; [exact (eq_sym (Some_inj _ _ E))|discriminate E].
Qed.

(** C21: reference counting.  On a system whose table tracks [M], with the pool
    ready: the count of an address is its entry in [M]; [frame_retain] and
    [frame_release] move it by one; the page returns to the pool exactly when
    the last reference goes; [frame_adopt] starts a foreign page at one
    reference and leaves a known one alone; [frame_alloc] returns null or a
    pool page that was not live, now with one reference. *)
Theorem frame_ops_refine s M :
  sys_ok s M → pmm_ready (pool s) = true →
  (∀ p, frame_refcount s p = Some (match M !! mask p with Some (r, _) => r | None => 0 end)) ∧
  (∀ p, match M !! mask p with
        | None => frame_retain s p = Some (s, -1)
        | Some (r, w) => r + 1 < 2 ^ 32 →
            ∃ s', frame_retain s p = Some (s', 0) ∧ sys_ok s' (<[mask p := (r + 1, w)]> M) ∧
                  pool s' = pool s
        end) ∧
  (∀ p, match M !! mask p with
        | None => frame_release s p = Some s
        | Some (r, w) => ∃ s', frame_release s p = Some s' ∧
            (if r =? 1 then
               sys_ok s' (delete (mask p) M) ∧ pool s' = pmm_free_page (pool s) (mask p)
             else sys_ok s' (<[mask p := (r - 1, w)]> M) ∧ pool s' = pool s)
        end) ∧
  (∀ p, mask p ≠ 0 → (is_page (pool s) (mask p) → is_Some (M !! mask p)) →
     ∃ s' r, frame_adopt s p = Some (s', r) ∧ pool s' = pool s ∧
       ((r = -1 ∧ M !! mask p = None ∧ sys_ok s' M) ∨
        (r = 0 ∧ is_Some (M !! mask p) ∧ sys_ok s' M) ∨
        (r = 0 ∧ M !! mask p = None ∧ sys_ok s' (<[mask p := (1, 0)]> M)))) ∧
  (∀ caller, ∃ s' page, frame_alloc s caller = Some (s', page) ∧
     ((page = 0 ∧ sys_ok s' M) ∨
      (page ≠ 0 ∧ is_page (pool s) page ∧ M !! page = None ∧
       sys_ok s' (<[page := (1, 0)]> M)))).
Proof.
  intros Hs Hr. split_and!.
  - intros p. by apply refcount_ok.
  - intros p. by apply retain_ok.
  - intros p. by apply release_ok.
  - intros p. by apply adopt_ok.
  - intros caller. by apply alloc_ok.
Qed.

(** A table of eight slots over the four-page pool. *)
Definition sys8 : sys :=
  let '(l, head) := thread_free 8 (replicate 8 meta0) (-1) in
  MkSys (MkFrames (Some l) (Some (replicate (Z.to_nat FRAME_HASH_SIZE) (-1))) head) pmm4
        (heap_init 0 ∅ 0x100000 4096).

Lemma sys8_ok : sys_ok sys8 ∅.
Proof.
  pose proof (fresh_table_ok 8 (Some (replicate (Z.to_nat FRAME_HASH_SIZE) (-1)))) as Hf.
  unfold sys8. destruct (thread_free 8 _ _) as [l head]. split; [|split]; cbn [tab pool].
  - apply Hf. intros hs E. exact (eq_sym (Some_inj _ _ E)).
  - exists ∅. split; [apply pmm4_pool|]. intros p. rewrite lookup_empty. split; [by intros ?%not_elem_of_empty|].
    by intros [_ []].
  - intros p r w. by rewrite lookup_empty.
Qed.

Lemma frame_ops_refine_witness :
  ∃ s' page, frame_alloc sys8 7 = Some (s', page) ∧
    ((page = 0 ∧ sys_ok s' ∅) ∨
     (page ≠ 0 ∧ is_page (pool sys8) page ∧ (∅ : gmap Z (Z * Z)) !! page = None ∧
      sys_ok s' (<[page := (1, 0)]> ∅))).
Proof.
  destruct (frame_ops_refine sys8 ∅ sys8_ok) as (_ & _ & _ & _ & H); [vm_compute; reflexivity|].
  exact (H 7).
Defined.

Lemma frame_init_correct_witness :
  ∃ h' bs' fl' st, frame_init (heap_init 0 ∅ 0x100000 4096) 7 = Some (h', st) ∧
    heap_inv h' bs' fl' ∧ (frames st = None ∨ frame_ok st ∅).
Proof.
  apply (frame_init_correct _ [0x100000] [0x100000]).
  apply heap_init_inv; unfold HDR; lia.
Defined.
