(* ===== verification/Vma.v ===== *)
(** User virtual memory areas, [mm/user_vma.c]: the tid-keyed table
    [g_user_vmas], the per-address-space tables hanging off [mm_t], file
    references ([fs_file_get] and [fs_file_free] of [fs/fs.c]), range removal
    with splitting, protection changes, lookups, and the two searches for an
    unmapped gap.

    Module [Vma] is the model.  A pointer into a table is the index of the
    entry; a [thread_t *] is an [option thread].  A function of the source that
    takes [g_user_vma_lock] is one function of the state [vms]; [user_vma_add]
    and [user_vma_add_file] take it twice, and are modelled without another CPU
    between the two critical sections.  The per-[mm] tables are kept as lists of
    entries beside the heap that [kmalloc] hands their storage out of. *)
From S2P Require Import Prelude Mem Heap.
Import Heap.

Module Vma.

Definition USER_VMA_MAX : Z := 4096.
Definition USER_VMA_KIND_MMAP : Z := 1.
Definition USER_VMA_KIND_SHM : Z := 2.
Definition USER_VMA_KIND_MMAP_LAZY : Z := 3.
Definition USER_VMA_KIND_ELF_LOAD : Z := 4.
Definition MMIO_IDENTITY_LIMIT : Z := 0x100000000.
Definition UINTPTR_MAX : Z := 2 ^ 64 - 1.

Record vma := MkVma {
  used : bool; tid : Z; addr : Z; len : Z; prot : Z; kind : Z; file : Z; file_off : Z
}.
Definition vma0 : vma := MkVma false 0 0 0 0 0 0 0.
(** [sizeof(user_vma_t)] *)
Definition VMA_SIZE : Z := 56.

#[export] Instance vma_eq_dec : EqDecision vma.
Proof. solve_decision. Defined.

Definition vma_end (v : vma) : Z := addr v +u len v.
Definition set_used (v : vma) (b : bool) : vma :=
  MkVma b (tid v) (addr v) (len v) (prot v) (kind v) (file v) (file_off v).
Definition set_len (v : vma) (n : Z) : vma :=
  MkVma (used v) (tid v) (addr v) n (prot v) (kind v) (file v) (file_off v).
Definition set_prot (v : vma) (p : Z) : vma :=
  MkVma (used v) (tid v) (addr v) (len v) p (kind v) (file v) (file_off v).
Definition set_file (v : vma) (f off : Z) : vma :=
  MkVma (used v) (tid v) (addr v) (len v) (prot v) (kind v) f off.

(** * File references: [fs_file_get] and [fs_file_free]

    [refcount] maps a file object to its reference count; [destroyed] lists the
    objects whose last reference was dropped, which [fs.c] hands to the
    destructor of their type. *)
Record files := MkFiles { refcount : gmap Z Z; destroyed : list Z }.
Definition refs_of (fs : files) (f : Z) : Z := default 0 (refcount fs !! f).

Definition fs_file_get (fs : files) (f : Z) : files :=
  if f =? 0 then fs
  else MkFiles (<[f := s32 (refs_of fs f + 1)]> (refcount fs)) (destroyed fs).

Definition fs_file_free (fs : files) (f : Z) : files :=
  if f =? 0 then fs
  else
    let prev := refs_of fs f in
    let fs := MkFiles (<[f := s32 (prev - 1)]> (refcount fs)) (destroyed fs) in
    if 1 <? prev then fs
    else if prev <? 1 then fs
    else MkFiles (<[f := 0]> (refcount fs)) (f :: destroyed fs).

(** * Threads, as far as this file reads them *)

Record thread := MkThread { t_tid : Z; t_ring : Z; t_mm : Z }.
Definition MAX_THREADS : Z := 512.

Abbreviation table := (list vma).

Record vms := MkVms {
  g_user_vmas : table;
  vma_storage : gmap Z table;
  fref : files;
  threads : list (option thread);
  thread_count : Z;
  vheap : heap
}.

Definition set_g (s : vms) (t : table) (fs : files) : vms :=
  MkVms t (vma_storage s) fs (threads s) (thread_count s) (vheap s).
Definition set_storage (s : vms) (mm : Z) (t : table) (fs : files) : vms :=
  MkVms (g_user_vmas s) (<[mm := t]> (vma_storage s)) fs (threads s) (thread_count s) (vheap s).

Definition thread_get (s : vms) (pid : Z) : option thread :=
  if (pid <? 0) || (MAX_THREADS <=? pid) then None
  else
    match threads s !! Z.to_nat pid with
    | Some (Some t) => if t_tid t =? u64 (u32 pid) then Some t else None
    | _ => None
    end.
Definition thread_get_by_index (s : vms) (i : Z) : option thread :=
  if (i <? 0) || (thread_count s <=? i) then None else default None (threads s !! Z.to_nat i).

(** [runner->tid ? runner->tid : 1] *)
Definition record_tid (t : thread) : Z := if nz (t_tid t) then t_tid t else 1.

(** * Entries *)

Definition user_vma_drop_file_nolock (v : vma) (fs : files) : vma * files :=
  if file v =? 0 then (v, fs) else (set_file v 0 0, fs_file_free fs (file v)).

Definition user_vma_clear_nolock (v : vma) (fs : files) : vma * files :=
  if negb (used v) then (v, fs)
  else let '(v, fs) := user_vma_drop_file_nolock v fs in (set_used v false, fs).

(** [user_vma_mm_storage(mm, create)]; [caller] is recorded by [kmalloc]. *)
Definition user_vma_mm_storage (s : vms) (mm : Z) (create : bool) (caller : Z)
  : option (vms * option table) :=
  if mm =? 0 then Some (s, None)
  else
    match vma_storage s !! mm with
    | Some t => Some (s, Some t)
    | None =>
        if create then
          '(h, p) ← kmalloc_nolock (vheap s) (VMA_SIZE *u USER_VMA_MAX) caller;
          let s := MkVms (g_user_vmas s) (vma_storage s) (fref s) (threads s) (thread_count s) h in
          if p =? 0 then Some (s, None)
          else
            let t := replicate (Z.to_nat USER_VMA_MAX) vma0 in
            Some (set_storage s mm t (fref s), Some t)
        else Some (s, None)
    end.

(** The table of an [mm] when it has one, without creating it. *)
Definition mm_table (s : vms) (mm : Z) : option table :=
  if mm =? 0 then None else vma_storage s !! mm.

(** First index whose entry satisfies [P]. *)
Fixpoint find_idx (P : vma → bool) (t : table) : option nat :=
  match t with
  | [] => None
  | v :: t => if P v then Some O else S <$> find_idx P t
  end.
Definition free_idx (t : table) : option nat := find_idx (λ v, negb (used v)) t.

(** Both loops of [user_vma_add_nolock] and of [user_vma_add_mm]: an entry with
    the same range and kind is updated, otherwise the first free one is filled. *)
Definition add_entry (t : table) (same : vma → bool) (v : vma) : table * Z :=
  match find_idx same t with
  | Some i => (<[i := set_prot (default vma0 (t !! i)) (prot v)]> t, 0)
  | None =>
      match free_idx t with
      | Some i => (<[i := v]> t, 0)
      | None => (t, -1)
      end
  end.

Definition user_vma_add_nolock (t : table) (tid' addr' len' prot' kind' : Z) : table * Z :=
  add_entry t (λ v, used v && (tid v =? tid') && (addr v =? addr') && (len v =? len')
                    && (kind v =? kind'))
            (MkVma true tid' addr' len' prot' kind' 0 0).

Definition user_vma_add_mm (s : vms) (mm addr' len' prot' kind' caller : Z) : option (vms * Z) :=
  '(s, st) ← user_vma_mm_storage s mm true caller;
  match st with
  | None => Some (s, -1)
  | Some t =>
      let '(t, rc) := add_entry t (λ v, used v && (addr v =? addr') && (len v =? len')
                                        && (kind v =? kind'))
                                (MkVma true 0 addr' len' prot' kind' 0 0) in
      Some (set_storage s mm t (fref s), rc)
  end.

(** [va >= a && va < a + len] *)
Definition contains (v : vma) (va : Z) : bool := (addr v <=? va) && (va <? vma_end v).

Definition user_vma_is_shared_page_mm (s : vms) (mm va : Z) : bool :=
  match mm_table s mm with
  | None => false
  | Some t => existsb (λ v, used v && (kind v =? USER_VMA_KIND_SHM) && contains v va) t
  end.

(** [memcpy] of the whole table, then one [fs_file_get] per file entry. *)
Fixpoint get_all (t : table) (fs : files) : files :=
  match t with
  | [] => fs
  | v :: t => get_all t (if used v && nz (file v) then fs_file_get fs (file v) else fs)
  end.
Definition user_vma_clone_mm (s : vms) (dst src caller : Z) : option (vms * Z) :=
  match mm_table s src with
  | None => Some (s, 0)
  | Some source =>
      '(s, target) ← user_vma_mm_storage s dst true caller;
      match target with
      | None => Some (s, -1)
      | Some _ => Some (set_storage s dst source (get_all source (fref s)), 0)
      end
  end.

Definition user_vma_kind_is_mmap_like (k : Z) : bool :=
  (k =? USER_VMA_KIND_MMAP) || (k =? USER_VMA_KIND_MMAP_LAZY) ||
  (k =? USER_VMA_KIND_SHM) || (k =? USER_VMA_KIND_ELF_LOAD).

Definition user_vma_is_filemap (v : vma) : bool :=
  nz (file v) &&
  ((kind v =? USER_VMA_KIND_MMAP_LAZY) || (kind v =? USER_VMA_KIND_ELF_LOAD) ||
   (kind v =? USER_VMA_KIND_MMAP) || (kind v =? USER_VMA_KIND_SHM)).

Definition user_vma_find_containing_nolock (t : table) (tid' va : Z) : option nat :=
  find_idx (λ v, used v && (tid v =? tid') && contains v va) t.

(** [user_vma_split_at_nolock]: the right half is added first, the containing
    entry is looked up again, and only then is the left half shortened. *)
Definition user_vma_split_at_nolock (t : table) (fs : files) (tid' split_va : Z)
  : table * files * Z :=
  match user_vma_find_containing_nolock t tid' split_va with
  | None => (t, fs, 0)
  | Some i =>
      let v := default vma0 (t !! i) in
      if (split_va =? addr v) || (vma_end v <=? split_va) then (t, fs, 0)
      else
        let left_len := split_va -u addr v in
        let right_len := len v -u left_len in
        let right_addr := split_va in
        let file' := file v in
        let file_off' := file_off v in
        let '(t, rc) := user_vma_add_nolock t tid' right_addr right_len (prot v) (kind v) in
        if negb (rc =? 0) then (t, fs, -1)
        else
          let '(t, fs) :=
            match user_vma_find_containing_nolock t tid' right_addr with
            | Some r =>
                if nz file' then
                  (<[r := set_file (default vma0 (t !! r)) file' (file_off' +u left_len)]> t,
                   fs_file_get fs file')
                else (t, fs)
            | None => (t, fs)
            end in
          (<[i := set_len (default vma0 (t !! i)) left_len]> t, fs, 0)
  end.

(** [user_vma_tid_matches_runner_mm_nolock] *)
Fixpoint any_thread (by_index : Z → option thread) (k : nat) (j mm rtid : Z) : bool :=
  match k with
  | O => false
  | S k =>
      match by_index j with
      | Some u =>
          if (t_ring u =? 3) && (t_mm u =? mm) && (record_tid u =? rtid) then true
          else any_thread by_index k (j + 1) mm rtid
      | None => any_thread by_index k (j + 1) mm rtid
      end
  end.
Definition user_vma_tid_matches_runner_mm_nolock (s : vms) (runner : option thread) (rtid : Z) : bool :=
  match runner with
  | None => rtid =? 1
  | Some r =>
      if t_mm r =? 0 then record_tid r =? rtid
      else any_thread (thread_get_by_index s) (Z.to_nat (thread_count s)) 0 (t_mm r) rtid
  end.

(** A found entry: its table (the global one or the one of an [mm]) and value. *)
Definition user_vma_find_fault_nolock (s : vms) (runner : option thread) (va : Z) : option vma :=
  let hit v := (addr v <=? va) && ((va -u addr v) <? len v) in
  match find_idx (λ v, used v && user_vma_tid_matches_runner_mm_nolock s runner (tid v) && hit v)
          (g_user_vmas s) with
  | Some i => g_user_vmas s !! i
  | None =>
      match runner with
      | None => None
      | Some r =>
          match mm_table s (t_mm r) with
          | None => None
          | Some t => match find_idx (λ v, used v && hit v) t with
                      | Some i => t !! i
                      | None => None
                      end
          end
      end
  end.

(** The body shared by [user_vma_split_runner_at_nolock] and
    [user_vma_split_mm_at_nolock]; [m] selects the entries.  [k] entries are
    left, starting at index [i]. *)
Fixpoint split_loop (m : vma → bool) (k i : nat) (t : table) (fs : files) (split_va : Z)
  : table * files * Z :=
  match k with
  | O => (t, fs, 0)
  | S k =>
      let v := default vma0 (t !! i) in
      if negb (used v) || negb (m v) then split_loop m k (S i) t fs split_va
      else
        let e := vma_end v in
        if (split_va <=? addr v) || (e <=? split_va) then split_loop m k (S i) t fs split_va
        else
          match free_idx t with
          | None => (t, fs, -1)
          | Some free_i =>
              let r := MkVma (used v) (tid v) split_va (e -u split_va) (prot v) (kind v) (file v)
                         (if nz (file v) then file_off v +u (split_va -u addr v) else file_off v) in
              let fs := if nz (file v) then fs_file_get fs (file v) else fs in
              let t := <[free_i := r]> t in
              let t := <[i := set_len v (split_va -u addr v)]> t in
              split_loop m k (S i) t fs split_va
          end
  end.

Definition user_vma_split_runner_at_nolock (s : vms) (runner : option thread) (split_va : Z)
  : vms * Z :=
  match runner with
  | None => (s, -1)
  | Some _ =>
      let '(t, fs, rc) :=
        split_loop (λ v, user_vma_tid_matches_runner_mm_nolock s runner (tid v))
          (length (g_user_vmas s)) 0 (g_user_vmas s) (fref s) split_va in
      (set_g s t fs, rc)
  end.

Definition user_vma_split_mm_at_nolock (s : vms) (mm split_va : Z) : vms * Z :=
  match mm_table s mm with
  | None => (s, 0)
  | Some t =>
      let '(t, fs, rc) := split_loop (λ _, true) (length t) 0 t (fref s) split_va in
      (set_storage s mm t fs, rc)
  end.

(** Free entries, and entries that a split at [a] and one at [e] would cut. *)
Fixpoint count_need (m : vma → bool) (t : table) (a e free need : Z) : Z * Z :=
  match t with
  | [] => (free, need)
  | v :: t =>
      if negb (used v) then count_need m t a e (free + 1) need
      else if negb (m v) then count_need m t a e free need
      else
        let ve := vma_end v in
        let need := if (addr v <? a) && (a <? ve) then need + 1 else need in
        let need := if (addr v <? e) && (e <? ve) then need + 1 else need in
        count_need m t a e free need
  end.

Definition user_vma_unmap_capacity_nolock (s : vms) (owner : option thread) (a e : Z) : Z :=
  let m v := match owner with
             | Some _ => user_vma_tid_matches_runner_mm_nolock s owner (tid v)
             | None => false
             end in
  let '(gfree, gneed) := count_need m (g_user_vmas s) a e 0 0 in
  if gfree <? gneed then -1
  else
    match owner with
    | Some r =>
        match mm_table s (t_mm r) with
        | Some t =>
            let '(mfree, mneed) := count_need (λ _, true) t a e 0 0 in
            if mfree <? mneed then -1 else 0
        | None => 0
        end
    | None => 0
    end.

Definition user_vma_add (s : vms) (tid' addr' len' prot' kind' caller : Z) : option (vms * Z) :=
  let '(t, rc) := user_vma_add_nolock (g_user_vmas s) tid' addr' len' prot' kind' in
  let s := set_g s t (fref s) in
  match thread_get s (s32 tid') with
  | Some owner =>
      if nz (t_mm owner) then
        '(s, _) ← user_vma_add_mm s (t_mm owner) addr' len' prot' kind' caller; Some (s, rc)
      else Some (s, rc)
  | None => Some (s, rc)
  end.

Definition user_vma_can_unmap_range (s : vms) (tid' a n : Z) : Z :=
  if (n =? 0) || ((a +u n) <? a) then -1
  else
    match thread_get s (s32 tid') with
    | Some owner => user_vma_unmap_capacity_nolock s (Some owner) a (a +u n)
    | None => 0
    end.

(** [!(e <= addr || a >= end)] *)
Definition overlaps (v : vma) (a e : Z) : bool := negb ((vma_end v <=? a) || (e <=? addr v)).

(** The body of a clearing loop for one entry. *)
Definition clear_entry (m : vma → bool) (a e : Z) (v : vma) (fs : files) : vma * files :=
  if used v && m v && overlaps v a e then user_vma_clear_nolock v fs else (v, fs).

(** One pass over one table. *)
Fixpoint clear_loop (m : vma → bool) (t : table) (fs : files) (a e : Z) : table * files :=
  match t with
  | [] => ([], fs)
  | v :: t =>
      let '(v, fs) := clear_entry m a e v fs in
      let '(t, fs) := clear_loop m t fs a e in
      (v :: t, fs)
  end.

(** The pass of [user_vma_unmap_range] over both tables at once; [mt] is empty
    when the [mm] has no table. *)
Fixpoint clear_both (m : vma → bool) (t mt : table) (fs : files) (a e : Z)
  : table * table * files :=
  match t with
  | [] => ([], mt, fs)
  | v :: t =>
      let '(v, fs) := clear_entry m a e v fs in
      match mt with
      | [] => let '(t, mt, fs) := clear_both m t [] fs a e in (v :: t, mt, fs)
      | w :: mt =>
          let '(w, fs) := clear_entry (λ _, true) a e w fs in
          let '(t, mt, fs) := clear_both m t mt fs a e in (v :: t, w :: mt, fs)
      end
  end.

Definition user_vma_unmap_range (s : vms) (tid' a n : Z) : vms * Z :=
  let e := a +u n in
  match thread_get s (s32 tid') with
  | Some owner =>
      if nz (t_mm owner) then
        if negb (user_vma_unmap_capacity_nolock s (Some owner) a e =? 0) then (s, -1)
        else
          let '(s, rc) := user_vma_split_runner_at_nolock s (Some owner) a in
          if negb (rc =? 0) then (s, -1)
          else
            let '(s, rc) := user_vma_split_runner_at_nolock s (Some owner) e in
            if negb (rc =? 0) then (s, -1)
            else
              let '(s, rc) := user_vma_split_mm_at_nolock s (t_mm owner) a in
              if negb (rc =? 0) then (s, -1)
              else
                let '(s, rc) := user_vma_split_mm_at_nolock s (t_mm owner) e in
                if negb (rc =? 0) then (s, -1)
                else
                  let m v := user_vma_tid_matches_runner_mm_nolock s (Some owner) (tid v) in
                  match mm_table s (t_mm owner) with
                  | Some mt =>
                      let '(t, mt, fs) := clear_both m (g_user_vmas s) mt (fref s) a e in
                      (set_storage (set_g s t fs) (t_mm owner) mt fs, 0)
                  | None =>
                      let '(t, _, fs) := clear_both m (g_user_vmas s) [] (fref s) a e in
                      (set_g s t fs, 0)
                  end
      else
        let '(t, fs, _) := user_vma_split_at_nolock (g_user_vmas s) (fref s) tid' a in
        let '(t, fs, _) := user_vma_split_at_nolock t fs tid' e in
        let '(t, fs) := clear_loop (λ v, tid v =? tid') t fs a e in
        (set_g s t fs, 0)
  | None =>
      let '(t, fs, _) := user_vma_split_at_nolock (g_user_vmas s) (fref s) tid' a in
      let '(t, fs, _) := user_vma_split_at_nolock t fs tid' e in
      let '(t, fs) := clear_loop (λ v, tid v =? tid') t fs a e in
      (set_g s t fs, 0)
  end.

Definition user_vma_set_prot (s : vms) (tid' a n prot' : Z) : vms * Z :=
  let e := a +u n in
  let '(t, fs, rc) := user_vma_split_at_nolock (g_user_vmas s) (fref s) tid' a in
  if negb (rc =? 0) then (set_g s t fs, -1)
  else
    let '(t, fs, rc) := user_vma_split_at_nolock t fs tid' e in
    if negb (rc =? 0) then (set_g s t fs, -1)
    else
      (set_g s (map (λ v, if used v && (tid v =? tid') && overlaps v a e
                          then set_prot v prot' else v) t) fs, 0).

(** [while (cur < end)]; each turn ends at the end of another entry. *)
Fixpoint fully_mapped_loop (fuel : nat) (t : table) (tid' cur e : Z) : option bool :=
  match fuel with
  | O => None
  | S fuel =>
      if cur <? e then
        match user_vma_find_containing_nolock t tid' cur with
        | None => Some false
        | Some i =>
            let ve := vma_end (default vma0 (t !! i)) in
            if ve <=? cur then Some false else fully_mapped_loop fuel t tid' ve e
        end
      else Some true
  end.
Definition user_vma_is_fully_mapped (s : vms) (tid' a n : Z) : option bool :=
  fully_mapped_loop (S (length (g_user_vmas s))) (g_user_vmas s) tid' a (a +u n).

(** Folds over the entries that match. *)
Definition user_vma_max_mmap_like_end_nolock (s : vms) (tid' : Z) : Z :=
  foldl (λ mx v, if used v && (tid v =? tid') && user_vma_kind_is_mmap_like (kind v)
                    && (mx <? vma_end v) then vma_end v else mx) 0 (g_user_vmas s).
Definition user_vma_max_mmap_like_end_for_mm_nolock (s : vms) (runner : option thread) : Z :=
  match runner with
  | None => 0
  | Some _ =>
      foldl (λ mx v, if used v && user_vma_kind_is_mmap_like (kind v)
                        && user_vma_tid_matches_runner_mm_nolock s runner (tid v)
                        && (mx <? vma_end v) then vma_end v else mx) 0 (g_user_vmas s)
  end.

(** The sum saturates at [SIZE_MAX] and the loop stops there. *)
Fixpoint total_size_loop (m : vma → bool) (t : table) (total : Z) : Z :=
  match t with
  | [] => total
  | v :: t =>
      if used v && m v then
        if (UINTPTR_MAX - total) <? len v then UINTPTR_MAX
        else total_size_loop m t (total +u len v)
      else total_size_loop m t total
  end.
Definition user_vma_total_size_for_mm (s : vms) (runner : option thread) : Z :=
  match runner with
  | None => 0
  | Some _ => total_size_loop (λ v, user_vma_tid_matches_runner_mm_nolock s runner (tid v))
                (g_user_vmas s) 0
  end.

Definition user_vma_min_mmap_like_for_thread_nolock (s : vms) (tcur : option thread) (brk_base : Z) : Z :=
  foldl (λ best v, if used v && user_vma_kind_is_mmap_like (kind v)
                      && user_vma_tid_matches_runner_mm_nolock s tcur (tid v)
                      && negb (addr v <? 0x200000)
                      && (brk_base <=? addr v) && (addr v <? best)
                   then addr v else best) UINTPTR_MAX (g_user_vmas s).

(** An entry whose end does not wrap and that meets [[a0, a1)]. *)
Definition meets (v : vma) (a0 a1 : Z) : bool :=
  negb (vma_end v <? addr v) && negb ((a1 <=? addr v) || (vma_end v <=? a0)).

Definition user_vma_overlaps_thread_range (s : vms) (runner : option thread) (a n : Z) : bool :=
  match runner with
  | None => false
  | Some _ =>
      if n =? 0 then false
      else if (a +u n) <? a then true
      else existsb (λ v, used v && user_vma_tid_matches_runner_mm_nolock s runner (tid v)
                         && meets v a (a +u n)) (g_user_vmas s)
  end.

Definition user_vma_mmap_range_overlaps_nolock (s : vms) (runner : option thread) (a n : Z) : bool :=
  match runner with
  | None => false
  | Some _ =>
      if n =? 0 then false
      else if (a +u n) <? a then true
      else existsb (λ v, used v && user_vma_kind_is_mmap_like (kind v)
                         && user_vma_tid_matches_runner_mm_nolock s runner (tid v)
                         && meets v a (a +u n)) (g_user_vmas s)
  end.

Definition user_vma_overlap_end_nolock (s : vms) (runner : option thread) (a n : Z) : Z :=
  let a1 := a +u n in
  if a1 <? a then UINTPTR_MAX
  else foldl (λ e v, if used v && user_vma_tid_matches_runner_mm_nolock s runner (tid v)
                        && meets v a a1 && (e <? vma_end v) then vma_end v else e) 0 (g_user_vmas s).

(** [user_mm_align_up] and [user_mm_align_down] of [inc/user_mm.h] *)
Definition user_mm_align_up (v a : Z) : Z := align_up v a.
Definition user_mm_align_down (v a : Z) : Z := align_down v a.

(** [align] rounded to at least a page and to a power of two. *)
Definition fix_align (align : Z) : Z :=
  let align := if align <? 4096 then 4096 else align in
  if nz (align &u (align -u 1)) then 4096 else align.

(** The bounded loop of the bottom-up search. *)
Fixpoint find_up_loop (k : nat) (s : vms) (runner : option thread) (cand ceil n align : Z) : Z :=
  match k with
  | O => 0
  | S k =>
      if (ceil <=? cand) || (ceil <? (cand +u n)) || ((cand +u n) <? cand) then 0
      else
        let block := user_vma_overlap_end_nolock s runner cand n in
        if block =? 0 then cand
        else if block =? UINTPTR_MAX then 0
        else
          let next := user_mm_align_up block align in
          let next := if next <=? cand then cand +u align else next in
          find_up_loop k s runner next ceil n align
  end.

Definition user_vma_find_unmapped (s : vms) (runner : option thread)
    (floor ceil n hint align : Z) : Z :=
  match runner with
  | None => 0
  | Some _ =>
      if (n =? 0) || (ceil <=? floor) then 0
      else
        let align := fix_align align in
        if (ceil -u floor) <? n then 0
        else
          let h := user_mm_align_up hint align in
          if nz hint && (floor <=? h) && ((h +u n) <=? ceil) && (h <=? (h +u n))
             && (user_vma_overlap_end_nolock s runner h n =? 0)
          then h
          else find_up_loop (Z.to_nat (USER_VMA_MAX + 16)) s runner
                 (user_mm_align_up floor align) ceil n align
  end.

Definition user_vma_overlap_start_nolock (s : vms) (runner : option thread) (a n : Z) : Z :=
  let a1 := a +u n in
  if a1 <? a then UINTPTR_MAX
  else
    default 0
      (foldl (λ (st : option Z) v,
         if used v && user_vma_tid_matches_runner_mm_nolock s runner (tid v) && meets v a a1
            && match st with None => true | Some x => addr v <? x end
         then Some (addr v) else st) None (g_user_vmas s)).

Fixpoint find_down_loop (k : nat) (s : vms) (runner : option thread) (cand floor ceil n align : Z) : Z :=
  match k with
  | O => 0
  | S k =>
      if (cand <? floor) || (ceil <? (cand +u n)) then 0
      else
        let ov_start := user_vma_overlap_start_nolock s runner cand n in
        if ov_start =? 0 then cand
        else if ov_start =? UINTPTR_MAX then 0
        else if ov_start <? (floor +u n) then 0
        else
          let next := user_mm_align_down (ov_start -u n) align in
          if cand <=? next then
            if cand <? (align +u floor) then 0
            else find_down_loop k s runner (cand -u align) floor ceil n align
          else find_down_loop k s runner next floor ceil n align
  end.

Definition user_vma_find_unmapped_topdown (s : vms) (runner : option thread)
    (floor ceil n align : Z) : Z :=
  match runner with
  | None => 0
  | Some _ =>
      if (n =? 0) || (ceil <=? floor) then 0
      else
        let align := fix_align align in
        if (ceil -u floor) <? n then 0
        else
          let cand := user_mm_align_down (ceil -u n) align in
          let go c := find_down_loop (Z.to_nat (USER_VMA_MAX + 16)) s runner c floor ceil n align in
          if ceil <? (cand +u n) then
            if cand <? align then 0 else go (cand -u align)
          else go cand
  end.

Fixpoint clear_tid (t : table) (fs : files) (tid' : Z) : table * files :=
  match t with
  | [] => ([], fs)
  | v :: t =>
      let '(v, fs) := if used v && (tid v =? tid') then user_vma_clear_nolock v fs else (v, fs) in
      let '(t, fs) := clear_tid t fs tid' in
      (v :: t, fs)
  end.
Definition user_vma_remove_all_for_tid (s : vms) (tid' : Z) : vms :=
  let '(t, fs) := clear_tid (g_user_vmas s) (fref s) tid' in set_g s t fs.

(** * Queries *)

(** [va < 0x200000 || va >= MMIO_IDENTITY_LIMIT] *)
Definition outside_user (va : Z) : bool := (va <? 0x200000) || (MMIO_IDENTITY_LIMIT <=? va).

Definition user_vma_allows_write (s : vms) (runner : option thread) (va : Z) : bool :=
  match runner with
  | None => false
  | Some _ =>
      if outside_user va then false
      else match user_vma_find_fault_nolock s runner va with
           | Some v => nz (Z.land (prot v) 2)
           | None => false
           end
  end.
Definition user_vma_covers_page (s : vms) (tid' va : Z) : bool :=
  negb (outside_user va) &&
  existsb (λ v, used v && (tid v =? tid') && contains v va) (g_user_vmas s).
Definition user_vma_covers_page_mm (s : vms) (mm va : Z) : bool :=
  negb (outside_user va) &&
  match mm_table s mm with
  | None => false
  | Some t => existsb (λ v, used v && contains v va) t
  end.
Definition user_vma_is_lazy_file_page (s : vms) (tid' va : Z) : bool :=
  negb (outside_user va) &&
  existsb (λ v, used v && (tid v =? tid') && nz (file v) && user_vma_is_filemap v && contains v va)
    (g_user_vmas s).
Definition user_vma_is_lazy_anon_page (s : vms) (tid' va : Z) : bool :=
  negb (outside_user va) &&
  existsb (λ v, used v && (tid v =? tid') && (kind v =? USER_VMA_KIND_MMAP_LAZY)
                && negb (nz (file v)) && contains v va) (g_user_vmas s).
Definition user_vma_is_lazy_file_page_for (s : vms) (runner : option thread) (va : Z) : bool :=
  match runner with
  | None => false
  | Some _ =>
      negb (outside_user va) &&
      existsb (λ v, used v && user_vma_tid_matches_runner_mm_nolock s runner (tid v)
                    && nz (file v) && user_vma_is_filemap v && contains v va) (g_user_vmas s)
  end.
Definition user_vma_is_shared_page (s : vms) (tid' va : Z) : bool :=
  existsb (λ v, used v && (tid v =? tid') && (kind v =? USER_VMA_KIND_SHM) && contains v va)
    (g_user_vmas s).

(** [user_vma_snapshot] into a buffer of [max] entries: the copied entries, and
    what is stored through [mm_only_out], which the early return leaves alone. *)
Definition user_vma_snapshot (s : vms) (tid' mm : Z) (max : nat) : list vma * option Z :=
  match max with
  | O => ([], None)
  | _ =>
      let g := take max (List.filter (λ v, used v && (tid v =? tid')) (g_user_vmas s)) in
      let own := match mm_table s mm with
                 | Some t => take (max - length g) (List.filter used t)
                 | None => []
                 end in
      (g ++ own, Some (Z.of_nat (length own)))
  end.

(** Copy the entries of one task to another, undoing everything on failure. *)
Fixpoint clone_loop (k i : nat) (t : table) (fs : files) (from to : Z) : table * files * Z :=
  match k with
  | O => (t, fs, 0)
  | S k =>
      let v := default vma0 (t !! i) in
      if negb (used v) || negb (tid v =? from) then clone_loop k (S i) t fs from to
      else
        let '(t', rc) := user_vma_add_nolock t to (addr v) (len v) (prot v) (kind v) in
        if negb (rc =? 0) then
          let '(t'', fs) := clear_tid t' fs to in (t'', fs, -1)
        else
          let v := default vma0 (t' !! i) in
          match user_vma_find_containing_nolock t' to (addr v) with
          | Some d =>
              if nz (file v) then
                clone_loop k (S i) (<[d := set_file (default vma0 (t' !! d)) (file v) (file_off v)]> t')
                  (fs_file_get fs (file v)) from to
              else clone_loop k (S i) t' fs from to
          | None => clone_loop k (S i) t' fs from to
          end
  end.
Definition user_vma_clone_for_tid (s : vms) (from to : Z) : vms * Z :=
  let '(t, fs, rc) := clone_loop (length (g_user_vmas s)) 0 (g_user_vmas s) (fref s) from to in
  (set_g s t fs, rc).

(** [user_vma_lookup_after]: the entry the out parameters are filled from, or
    [None] for the result [-1].  A reference is taken on its file when the caller
    passes a place for the file. *)
Definition user_vma_lookup_after (s : vms) (runner : option thread) (a : Z) (want_file : bool)
  : option (vms * vma) :=
  let m v := match runner with
             | Some _ => user_vma_tid_matches_runner_mm_nolock s runner (tid v)
             | None => tid v =? 1
             end in
  let best0 := match runner with
               | Some _ => user_vma_find_fault_nolock s runner a
               | None => None
               end in
  let best := foldl (λ b v, if used v && m v && negb (vma_end v <=? a)
                               && match b with None => true | Some w => addr v <? addr w end
                            then Some v else b) best0 (g_user_vmas s) in
  v ← best;
  Some (if want_file then set_g s (g_user_vmas s) (fs_file_get (fref s) (file v)) else s, v).

Definition user_vma_grow (s : vms) (runner : option thread) (a old_len new_len : Z) : vms * Z :=
  match runner with
  | None => (s, -1)
  | Some r =>
      if (old_len =? 0) || (new_len <? old_len) then (s, -1)
      else
        match find_idx (λ v, used v && user_vma_tid_matches_runner_mm_nolock s runner (tid v)
                             && (addr v =? a) && (len v =? old_len)) (g_user_vmas s) with
        | None => (s, -1)
        | Some i =>
            let g := g_user_vmas s in
            let s := set_g s (<[i := set_len (default vma0 (g !! i)) new_len]> g) (fref s) in
            match mm_table s (t_mm r) with
            | Some t =>
                match find_idx (λ v, used v && (addr v =? a) && (len v =? old_len)) t with
                | Some j => (set_storage s (t_mm r)
                               (<[j := set_len (default vma0 (t !! j)) new_len]> t) (fref s), 0)
                | None => (s, 0)
                end
            | None => (s, 0)
            end
        end
  end.

(** Replace the file of entry [i], dropping the one it had. *)
Definition attach_file (t : table) (fs : files) (i : nat) (f off : Z) : table * files :=
  let v := default vma0 (t !! i) in
  let '(v, fs) := if nz (file v) then user_vma_drop_file_nolock v fs else (v, fs) in
  (<[i := set_file v f off]> t, fs_file_get fs f).

Definition user_vma_add_file (s : vms) (tid' addr' len' prot' kind' f off caller : Z)
  : option (vms * Z) :=
  if (f =? 0) || (len' =? 0) then Some (s, -1)
  else
    let kind' :=
      if negb (kind' =? USER_VMA_KIND_MMAP_LAZY) && negb (kind' =? USER_VMA_KIND_ELF_LOAD)
         && negb (kind' =? USER_VMA_KIND_MMAP) && negb (kind' =? USER_VMA_KIND_SHM)
      then USER_VMA_KIND_MMAP_LAZY else kind' in
    let '(t, rc) := user_vma_add_nolock (g_user_vmas s) tid' addr' len' prot' kind' in
    if negb (rc =? 0) then Some (set_g s t (fref s), rc)
    else
      match user_vma_find_containing_nolock t tid' addr' with
      | None => Some (set_g s t (fref s), -1)
      | Some i =>
          let '(t, fs) := attach_file t (fref s) i f off in
          let s := set_g s t fs in
          match thread_get s (s32 tid') with
          | Some owner =>
              if nz (t_mm owner) then
                '(s, _) ← user_vma_add_mm s (t_mm owner) addr' len' prot' kind' caller;
                match mm_table s (t_mm owner) with
                | Some t =>
                    match find_idx (λ v, used v && (addr v =? addr') && (len v =? len')) t with
                    | Some j =>
                        let '(t, fs) := attach_file t (fref s) j f off in
                        Some (set_storage s (t_mm owner) t fs, 0)
                    | None => Some (s, 0)
                    end
                | None => Some (s, 0)
                end
              else Some (s, 0)
          | None => Some (s, 0)
          end
      end.

End Vma.
