(* ===== verification/VmaGap.v ===== *)
(** The searches for an unmapped range, [user_vma_find_unmapped] and
    [user_vma_find_unmapped_topdown]: they return the lowest (the highest) aligned
    start of a gap that is large enough, and fail only when there is none.  Each
    turn of their loops passes one more area for good, so that the
    [USER_VMA_MAX + 16] turns of the source always reach the answer. *)
From S2P Require Import Prelude Mem Heap Vma.
Import Vma.

(** Number of elements that satisfy a boolean test. *)
Definition cnt {A} (P : A → bool) (l : list A) : nat := length (List.filter P l).

Lemma cnt_le {A} (P Q : A → bool) l :
  (∀ x, x ∈ l → P x = true → Q x = true) → (cnt P l ≤ cnt Q l)%nat.
Proof.
  unfold cnt. induction l as [|x l IH]; intros H; simpl; [done|].
  specialize (IH (λ y Hy, H y (list_elem_of_further _ _ _ Hy))).
  pose proof (H x (list_elem_of_here _ _)) as Hx.
  destruct (P x), (Q x); simpl; first [lia|discriminate (Hx eq_refl)].
Qed.

Lemma cnt_lt {A} (P Q : A → bool) l y :
  (∀ x, x ∈ l → P x = true → Q x = true) → y ∈ l → P y = false → Q y = true →
  (cnt P l < cnt Q l)%nat.
Proof.
  intros H Hy HP HQ. apply list_elem_of_split in Hy as (l1 & l2 & ->).
  assert (cnt P l1 ≤ cnt Q l1)%nat by (apply cnt_le; intros; apply H; [set_solver|done]).
  assert (cnt P l2 ≤ cnt Q l2)%nat by (apply cnt_le; intros; apply H; [set_solver|done]).
  unfold cnt in *. rewrite !List.filter_app. simpl. rewrite HP, HQ, !length_app. simpl. lia.
Qed.

Lemma cnt_length {A} (P : A → bool) l : (cnt P l ≤ length l)%nat.
Proof. unfold cnt. induction l as [|x l IH]; simpl; [done|]. destruct (P x); simpl; lia. Qed.

(** * The alignment actually used *)

Lemma land_pred_pow2 x : 0 < x → Z.land x (x - 1) = 0 → x = 2 ^ Z.log2 x.
Proof.
  intros Hx H. pose proof (Z.log2_spec x Hx) as [Hl Hu]. pose proof (Z.log2_nonneg x).
  destruct (decide (x = 2 ^ Z.log2 x)) as [|Hne]; [done|exfalso].
  assert (Z.testbit (Z.land x (x - 1)) (Z.log2 x) = true) as Hb; [|by rewrite H, Z.bits_0 in Hb].
  rewrite Z.land_spec, Z.bit_log2 by lia. simpl.
  assert (Z.log2 (x - 1) = Z.log2 x) as E by (apply Z.log2_unique; lia).
  rewrite <- E. apply Z.bit_log2. pose proof (Z.pow_pos_nonneg 2 (Z.log2 x)). lia.
Qed.

Lemma fix_align_pow2 al : is_u64 al → ∃ k, 12 ≤ k < 64 ∧ fix_align al = 2 ^ k.
Proof.
  intros H. unfold fix_align. destruct (Z.ltb_spec al 4096).
  { exists 12. split; [lia|]. vm_compute. done. }
  rewrite (u64_small (al - 1)) by lia. destruct (nz_spec (al &u (al - 1))) as [|E].
  { exists 12. split; [lia|done]. }
  apply land_pred_pow2 in E; [|lia]. exists (Z.log2 al). split; [|done]. split.
  - apply Z.log2_le_pow2; lia.
  - apply Z.log2_lt_pow2; lia.
Qed.

(** * The areas a search looks at *)

Section search.
Variables (s : vms) (r : thread).
Let runner := Some r.

(** An area of the runner whose end does not wrap. *)
Definition seen (v : vma) : bool :=
  used v && user_vma_tid_matches_runner_mm_nolock s (Some r) (tid v) && negb (vma_end v <? addr v).
(** The range [[c, c + n)] meets no area. *)
Definition vacant (n c : Z) : Prop :=
  ∀ v, v ∈ g_user_vmas s → seen v = true → c + n ≤ addr v ∨ vma_end v ≤ c.
(** A start the search may return. *)
Definition gap (floor ceil n align c : Z) : Prop :=
  c `mod` align = 0 ∧ floor ≤ c ∧ c + n ≤ ceil ∧ vacant n c.

Lemma hit_iff v c a1 :
  (used v && user_vma_tid_matches_runner_mm_nolock s runner (tid v) && meets v c a1) = true ↔
  seen v = true ∧ addr v < a1 ∧ c < vma_end v.
Proof.
  unfold seen, meets, runner. rewrite !andb_true_iff, !negb_true_iff, orb_false_iff.
  rewrite !Z.leb_gt. tauto.
Qed.

(** The fold of [user_vma_overlap_end_nolock]: the greatest end that is hit. *)
Lemma overlap_end_fold l c a1 e0 :
  let e := foldl (λ e v, if used v && user_vma_tid_matches_runner_mm_nolock s runner (tid v)
                            && meets v c a1 && (e <? vma_end v) then vma_end v else e) e0 l in
  e0 ≤ e ∧
  (∀ v, v ∈ l → seen v = true → addr v < a1 → c < vma_end v → vma_end v ≤ e) ∧
  (e = e0 ∨ ∃ v, v ∈ l ∧ seen v = true ∧ addr v < a1 ∧ c < vma_end v ∧ e = vma_end v).
Proof.
  revert e0. induction l as [|v l IH]; intros e0; cbn [foldl].
  { split_and!; [lia|intros v Hv; by apply elem_of_nil in Hv|by left]. }
  destruct (used v && _ && meets v c a1) eqn:Eh; cbn [andb].
  - apply hit_iff in Eh as (Hs & Ha & Hc).
    specialize (IH (if e0 <? vma_end v then vma_end v else e0)) as (I1 & I2 & I3).
    set (e := foldl _ _ l) in *.
    assert (e0 ≤ e ∧ vma_end v ≤ e) as [He Hv] by (destruct (Z.ltb_spec e0 (vma_end v)); lia).
    split_and!; [done| |].
    + intros w [->|Hw]%elem_of_cons; [done|by apply I2].
    + destruct I3 as [I3|(w & ? & ?)]; [|right; exists w; split; [by right|done]].
      destruct (Z.ltb_spec e0 (vma_end v)); [|by left].
      right. exists v. split_and!; try done. by left.
  - specialize (IH e0) as (I1 & I2 & I3). split_and!; [done| |].
    + intros w [->|Hw]%elem_of_cons ???; [|by apply I2].
      assert (false = true) as []%diff_false_true. rewrite <- Eh. by apply hit_iff.
    + destruct I3 as [I3|(w & ? & ?)]; [by left|right; exists w; split; [by right|done]].
Qed.

Lemma overlap_end_spec c n :
  0 ≤ c → 0 ≤ n → c + n < 2 ^ 64 →
  let e := user_vma_overlap_end_nolock s runner c n in
  (e = 0 ∧ vacant n c) ∨
  (e ≠ 0 ∧ ∃ v, v ∈ g_user_vmas s ∧ seen v = true ∧ addr v < c + n ∧ c < e ∧ e = vma_end v).
Proof.
  intros Hc Hn Hw. unfold user_vma_overlap_end_nolock. rewrite (u64_small (c + n)) by lia.
  destruct (Z.ltb_spec (c + n) c); [lia|].
  pose proof (overlap_end_fold (g_user_vmas s) c (c + n) 0) as (H1 & H2 & H3).
  set (e := foldl _ 0 _) in *. clearbody e. cbn zeta.
  destruct H3 as [->|(v & Hv & Hs & Ha & Hce & ->)].
  - left. split; [done|]. intros v Hv Hs.
    destruct (decide (c + n ≤ addr v)); [by left|right].
    destruct (decide (vma_end v ≤ c)); [done|]. specialize (H2 v Hv Hs). lia.
  - right. split; [lia|]. exists v. split_and!; done.
Qed.

(** The fold of [user_vma_overlap_start_nolock]: the least start that is hit. *)
Lemma overlap_start_fold l c a1 st0 :
  let st := foldl (λ (st : option Z) v,
         if used v && user_vma_tid_matches_runner_mm_nolock s runner (tid v) && meets v c a1
            && match st with None => true | Some x => addr v <? x end
         then Some (addr v) else st) st0 l in
  (∀ v, v ∈ l → seen v = true → addr v < a1 → c < vma_end v → ∃ x, st = Some x ∧ x ≤ addr v) ∧
  (∀ x, st0 = Some x → ∃ y, st = Some y ∧ y ≤ x) ∧
  (st = st0 ∨ ∃ v, v ∈ l ∧ seen v = true ∧ addr v < a1 ∧ c < vma_end v ∧ st = Some (addr v)).
Proof.
  revert st0. induction l as [|v l IH]; intros st0; cbn [foldl].
  { split_and!; [intros v Hv; by apply elem_of_nil in Hv|eauto with lia|by left]. }
  match goal with |- context [foldl ?f (if ?b then _ else _) l] => set (st1 := if b then Some (addr v) else st0) end.
  destruct (IH st1) as (I1 & I2 & I3). set (st := foldl _ st1 l) in *. clearbody st. clear IH.
  assert ((used v && user_vma_tid_matches_runner_mm_nolock s runner (tid v) && meets v c a1 = true →
           ∃ x, st1 = Some x ∧ x ≤ addr v) ∧
          (∀ x, st0 = Some x → ∃ y, st1 = Some y ∧ y ≤ x) ∧
          (st1 = st0 ∨ (used v && user_vma_tid_matches_runner_mm_nolock s runner (tid v)
                        && meets v c a1 = true ∧ st1 = Some (addr v)))) as (J1 & J2 & J3).
  { unfold st1. destruct (used v && _ && meets v c a1); cbn [andb].
    - destruct st0 as [x|]; [destruct (Z.ltb_spec (addr v) x)|]; split_and!;
        try (intros; simplify_eq); eauto with lia.
    - split_and!; [done|eauto with lia|by left]. }
  clearbody st1. split_and!.
  - intros w [->|Hw]%elem_of_cons Hs Ha Hc; [|by apply I1].
    destruct J1 as (x & -> & Hx); [by apply hit_iff|]. destruct (I2 x eq_refl) as (y & -> & ?). eauto with lia.
  - intros x Hx. destruct (J2 x Hx) as (y & -> & ?). destruct (I2 y eq_refl) as (z & -> & ?). eauto with lia.
  - destruct I3 as [->|(w & ? & ?)]; [|right; exists w; split; [by right|done]].
    destruct J3 as [->|[Hh ->]]; [by left|right]. apply hit_iff in Hh as (? & ? & ?).
    exists v. split_and!; try done. by left.
Qed.

Lemma overlap_start_spec c n :
  0 ≤ c → 0 ≤ n → c + n < 2 ^ 64 →
  (∀ v, v ∈ g_user_vmas s → seen v = true → 0 < addr v) →
  let x := user_vma_overlap_start_nolock s runner c n in
  (x = 0 ∧ vacant n c) ∨
  (0 < x < c + n ∧ ∃ v, v ∈ g_user_vmas s ∧ seen v = true ∧ c < vma_end v ∧ x = addr v).
Proof.
  intros Hc Hn Hw Hpos. unfold user_vma_overlap_start_nolock. rewrite (u64_small (c + n)) by lia.
  destruct (Z.ltb_spec (c + n) c); [lia|].
  pose proof (overlap_start_fold (g_user_vmas s) c (c + n) None) as (H1 & _ & H3).
  set (st := foldl _ None _) in *. clearbody st. cbn zeta.
  destruct H3 as [->|(v & Hv & Hs & Ha & Hce & ->)]; simpl.
  - left. split; [done|]. intros v Hv Hs.
    destruct (decide (c + n ≤ addr v)); [by left|right].
    destruct (decide (vma_end v ≤ c)); [done|].
    destruct (H1 v Hv Hs) as (x & ? & _); [lia..|done].
  - right. specialize (Hpos v Hv Hs). split; [lia|]. by exists v.
Qed.

Section fixed.
Variables (floor ceil n k align : Z).
Hypothesis (Hk : 12 ≤ k < 64) (Ealign : align = 2 ^ k) (Hfl : 0 < floor) (Hceil : floor < ceil) (Hc64 : ceil < 2 ^ 64) (Hn : 0 < n < 2 ^ 64).

Lemma align_pos : 0 < align.
Proof using All. rewrite Ealign. apply Z.pow_pos_nonneg; lia. Qed.

(** * Bottom up *)

(** The exit test of the loop is the test on the unwrapped end. *)
Lemma up_exit cand :
  0 ≤ cand →
  ((ceil <=? cand) || (ceil <? (cand +u n)) || ((cand +u n) <? cand)) = (ceil <? cand + n).
Proof using All.
  intros Hc. destruct (Z.leb_spec ceil cand) as [H1|H1]; cbn [orb].
  { symmetry. apply Z.ltb_lt. lia. }
  destruct (decide (cand + n < 2 ^ 64)) as [H2|H2].
  - rewrite (u64_small (cand + n)) by lia. destruct (Z.ltb_spec ceil (cand + n)); [done|]. cbn [orb].
    apply Z.ltb_ge. lia.
  - assert (cand +u n = cand + n - 2 ^ 64) as ->.
    { unfold u64. symmetry. apply (Z.mod_unique _ _ 1); lia. }
    destruct (Z.ltb_spec (cand + n - 2 ^ 64) cand); [|lia]. rewrite orb_true_r.
    symmetry. apply Z.ltb_lt. lia.
Qed.

(** An area that starts below the candidate's end and reaches the ceiling
    blocks every later candidate. *)
Lemma up_blocked fuel cand v :
  ceil + align ≤ 2 ^ 64 → 0 ≤ cand →
  v ∈ g_user_vmas s → seen v = true → addr v < cand + n → ceil ≤ vma_end v →
  find_up_loop fuel s runner cand ceil n align = 0.
Proof using All.
  pose proof align_pos. intros Hb. revert cand.
  induction fuel as [|fuel IH]; intros cand Hc Hv Hs Ha He; [done|]. cbn [find_up_loop].
  rewrite up_exit by done. destruct (Z.ltb_spec ceil (cand + n)); [done|].
  destruct (overlap_end_spec cand n) as [[_ Hf]|[Hne _]]; [lia..| |].
  { specialize (Hf v Hv Hs). lia. }
  set (block := user_vma_overlap_end_nolock s runner cand n) in *.
  destruct (Z.eqb_spec block 0); [done|]. destruct (Z.eqb_spec block UINTPTR_MAX); [done|].
  cbn zeta. set (nx := user_mm_align_up _ _). rewrite (u64_small (cand + align)) by lia.
  destruct (Z.leb_spec nx cand); apply IH; done || lia.
Qed.

(** What a search returns: the least start, or null when there is none. *)
Definition least (x : Z) : Prop :=
  (x = 0 ∧ ∀ c, ¬ gap floor ceil n align c) ∨
  (gap floor ceil n align x ∧ ∀ c, gap floor ceil n align c → x ≤ c).

Definition ends_after (cand : Z) (v : vma) : bool := seen v && (cand <? vma_end v).

Lemma mod_align_lt c d : c `mod` align = 0 → d `mod` align = 0 → c < d + align → c ≤ d.
Proof using All.
  pose proof align_pos. intros H1 H2 H3.
  apply Z.div_exact in H1; [|lia]. apply Z.div_exact in H2; [|lia].
  rewrite H1, H2. apply Z.mul_le_mono_nonneg_l; [lia|]. apply Z.lt_succ_r.
  apply (Z.mul_lt_mono_pos_l align); lia.
Qed.

Lemma up_loop_least fuel cand :
  ceil + align ≤ 2 ^ 64 → floor ≤ cand → cand `mod` align = 0 →
  (∀ c, gap floor ceil n align c → cand ≤ c) →
  (cnt (ends_after cand) (g_user_vmas s) < fuel)%nat →
  least (find_up_loop fuel s runner cand ceil n align).
Proof using All.
  pose proof align_pos as Hal. intros Hb. revert cand.
  induction fuel as [|fuel IH]; intros cand Hc Hm Hlow Hf; [lia|]. cbn [find_up_loop].
  rewrite up_exit by lia. destruct (Z.ltb_spec ceil (cand + n)).
  { left. split; [done|]. intros c Hg. specialize (Hlow c Hg). destruct Hg as (_ & _ & ? & _). lia. }
  destruct (overlap_end_spec cand n) as [[-> Hv]|(Hne & v & Hv & Hs & Ha & Hce & He)]; [lia..| |].
  { right. split; [|done]. by split_and!. }
  set (block := user_vma_overlap_end_nolock s runner cand n) in *.
  assert (∀ c, gap floor ceil n align c → block ≤ c) as Hlow'.
  { intros c Hg. specialize (Hlow c Hg). destruct Hg as (_ & _ & _ & Hvac).
    specialize (Hvac v Hv Hs). lia. }
  destruct (Z.eqb_spec block 0); [done|]. cbn zeta.
  destruct (decide (ceil ≤ block)) as [Hbig|Hbig].
  { assert (∀ c, ¬ gap floor ceil n align c) as Hno.
    { intros c Hg. specialize (Hlow' c Hg). destruct Hg as (_ & _ & ? & _). lia. }
    left. split; [|done]. destruct (Z.eqb_spec block UINTPTR_MAX); [done|].
    set (nx := user_mm_align_up _ _). rewrite (u64_small (cand + align)) by lia.
    destruct (Z.leb_spec nx cand); apply (up_blocked _ _ v); done || lia. }
  destruct (Z.eqb_spec block UINTPTR_MAX) as [E|_]; [unfold UINTPTR_MAX in E; lia|].
  destruct (align_up_spec block k) as [[Hu1 Hu2] Hu3]; [lia..|].
  rewrite <- Ealign in Hu1, Hu2, Hu3. unfold user_mm_align_up. set (nx := align_up block align) in *.
  destruct (Z.leb_spec nx cand); [lia|]. apply IH; [lia|done| |].
  - intros c Hg. specialize (Hlow' c Hg). destruct Hg as (Hcm & _).
    apply mod_align_lt; done || lia.
  - apply Nat.lt_le_trans with (cnt (ends_after cand) (g_user_vmas s)); [|lia].
    apply (cnt_lt _ _ _ v); [|done|..]; unfold ends_after.
    + intros x _ [-> Hx%Z.ltb_lt]%andb_true_iff. cbn [andb]. apply Z.ltb_lt. lia.
    + rewrite Hs. cbn [andb]. apply Z.ltb_ge. lia.
    + rewrite Hs. cbn [andb]. apply Z.ltb_lt. lia.
Qed.

(** * Top down *)

Definition greatest (x : Z) : Prop :=
  (x = 0 ∧ ∀ c, ¬ gap floor ceil n align c) ∨
  (gap floor ceil n align x ∧ ∀ c, gap floor ceil n align c → c ≤ x).

Definition starts_before (e : Z) (v : vma) : bool := seen v && (addr v <? e).

Lemma align_down_le x : 0 ≤ x < 2 ^ 64 →
  let d := align_down x align in
  0 ≤ d ≤ x ∧ d `mod` align = 0 ∧ ∀ c, c `mod` align = 0 → c ≤ x → c ≤ d.
Proof using All.
  pose proof align_pos as Hal. intros Hx. cbn zeta. rewrite Ealign, align_down_spec, <- Ealign by lia.
  pose proof (Z.mod_pos_bound x align Hal). pose proof (Z.mod_le x align).
  assert ((x - x `mod` align) `mod` align = 0) as Hm.
  { replace (x - x `mod` align) with (x / align * align) by (pose proof (Z.div_mod x align); lia).
    apply Z.mod_mul. lia. }
  split_and!; [lia..|done|]. intros c Hcm Hcx. apply mod_align_lt; done || lia.
Qed.

Lemma down_loop_greatest fuel cand :
  floor + n ≤ ceil → 0 ≤ cand → cand + n ≤ ceil → cand `mod` align = 0 →
  (∀ v, v ∈ g_user_vmas s → seen v = true → 0 < addr v) →
  (∀ c, gap floor ceil n align c → c ≤ cand) →
  (cnt (starts_before (cand + n)) (g_user_vmas s) < fuel)%nat →
  greatest (find_down_loop fuel s runner cand floor ceil n align).
Proof using All.
  pose proof align_pos as Hal. intros Hfit Hc0 Hc1 Hm Hpos Hup Hf. revert cand Hc0 Hc1 Hm Hup Hf.
  induction fuel as [|fuel IH]; intros cand Hc0 Hc1 Hm Hup Hf; [lia|]. cbn [find_down_loop].
  rewrite (u64_small (cand + n)) by lia. destruct (Z.ltb_spec cand floor).
  { left. split; [done|]. intros c Hg. specialize (Hup c Hg). destruct Hg as (_ & ? & _). lia. }
  destruct (Z.ltb_spec ceil (cand + n)); [lia|]. cbn [orb].
  destruct (overlap_start_spec cand n) as [[-> Hv]|(Hx & v & Hv & Hs & He & Ha)]; [lia..|done| |].
  { right. split; [|done]. by split_and!. }
  set (x := user_vma_overlap_start_nolock s runner cand n) in *.
  assert (∀ c, gap floor ceil n align c → c + n ≤ x) as Hup'.
  { intros c Hg. specialize (Hup c Hg). destruct Hg as (_ & _ & _ & Hvac).
    specialize (Hvac v Hv Hs). lia. }
  destruct (Z.eqb_spec x 0); [lia|]. destruct (Z.eqb_spec x UINTPTR_MAX) as [E|_]; [unfold UINTPTR_MAX in E; lia|].
  rewrite (u64_small (floor + n)) by lia. destruct (Z.ltb_spec x (floor + n)).
  { left. split; [done|]. intros c Hg. specialize (Hup' c Hg). destruct Hg as (_ & ? & _). lia. }
  rewrite (u64_small (x - n)) by lia. cbn zeta. unfold user_mm_align_down.
  destruct (align_down_le (x - n)) as (Hd1 & Hd2 & Hd3); [lia|].
  set (nx := align_down (x - n) align) in *. destruct (Z.leb_spec cand nx); [lia|].
  apply IH; [lia..|done| |].
  - intros c Hg. specialize (Hup' c Hg). destruct Hg as (Hcm & _). apply Hd3; done || lia.
  - apply Nat.lt_le_trans with (cnt (starts_before (cand + n)) (g_user_vmas s)); [|lia].
    apply (cnt_lt _ _ _ v); [|done|..]; unfold starts_before.
    + intros w _ [-> Hw%Z.ltb_lt]%andb_true_iff. cbn [andb]. apply Z.ltb_lt. lia.
    + rewrite Hs. cbn [andb]. apply Z.ltb_ge. lia.
    + rewrite Hs. cbn [andb]. apply Z.ltb_lt. lia.
Qed.

End fixed.
End search.

Lemma align_up_mod x k :
  0 ≤ k < 64 → is_u64 (align_up x (2 ^ k)) ∧ align_up x (2 ^ k) `mod` 2 ^ k = 0.
Proof.
  intros Hk. unfold align_up.
  assert (1 ≤ 2 ^ k < 2 ^ 64).
  { split; [apply (Z.pow_le_mono_r 2 0 k)|apply Z.pow_lt_mono_r]; lia. }
  rewrite (u64_small (2 ^ k - 1)) by lia. set (y := u64 (x + (2 ^ k - 1))).
  pose proof (u64_range (x + (2 ^ k - 1))). fold y in H0. rewrite (land_mask y k) by lia.
  pose proof (Z.mod_pos_bound y (2 ^ k)). pose proof (Z.mod_le y (2 ^ k)). split; [lia|].
  replace (y - y `mod` 2 ^ k) with (y `div` 2 ^ k * 2 ^ k) by (pose proof (Z.div_mod y (2 ^ k)); lia).
  apply Z.mod_mul. lia.
Qed.

(** The test on the hint is the test that it is a gap. *)
Lemma hint_test s r floor ceil n k h :
  0 ≤ k < 64 → 0 ≤ h < 2 ^ 64 → 0 < n < 2 ^ 64 → 0 < ceil < 2 ^ 64 → h `mod` 2 ^ k = 0 →
  ((floor <=? h) && ((h +u n) <=? ceil) && (h <=? (h +u n))
   && (user_vma_overlap_end_nolock s (Some r) h n =? 0)) = true ↔
  gap s r floor ceil n (2 ^ k) h.
Proof.
  intros Hk Hh Hn Hc Hm. unfold gap. rewrite !andb_true_iff, !Z.leb_le, Z.eqb_eq.
  destruct (decide (h + n < 2 ^ 64)) as [Hw|Hw].
  - rewrite (u64_small (h + n)) by lia.
    destruct (overlap_end_spec s r h n) as [[-> Hv]|(Hne & v & Hv & Hs & Ha & Hce & He)]; [lia..| |].
    + split; [intros (((? & ?) & ?) & _)|intros (_ & ? & ? & _)]; split_and!; done || lia.
    + split; [by intros [_ ?]|]. intros (_ & _ & _ & Hvac). specialize (Hvac v Hv Hs). lia.
  - assert (h +u n = h + n - 2 ^ 64) as ->.
    { unfold u64. symmetry. apply (Z.mod_unique _ _ 1); lia. }
    split; [intros [[_ ?] _]|intros (_ & _ & ? & _)]; lia.
Qed.

Lemma search_fuel s P :
  length (g_user_vmas s) ≤ USER_VMA_MAX →
  (cnt P (g_user_vmas s) < Z.to_nat (USER_VMA_MAX + 16))%nat.
Proof. intros H. pose proof (cnt_length P (g_user_vmas s)). unfold USER_VMA_MAX in *. lia. Qed.

(** Both loops start right: nothing was skipped on the way to the first
    candidate, and the turns allowed exceed the number of areas. *)
Lemma up_start s r floor ceil n k :
  length (g_user_vmas s) ≤ USER_VMA_MAX →
  12 ≤ k < 64 → 0 < floor < ceil → 0 < n < 2 ^ 64 → ceil + 2 ^ k ≤ 2 ^ 64 →
  least s r floor ceil n (2 ^ k)
    (find_up_loop (Z.to_nat (USER_VMA_MAX + 16)) s (Some r) (align_up floor (2 ^ k)) ceil n (2 ^ k)).
Proof.
  intros Hlen Hk Hfl Hn Hb. assert (0 < 2 ^ k) by (apply Z.pow_pos_nonneg; lia).
  destruct (align_up_spec floor k) as [Hu1 Hu2]; [lia..|].
  apply (up_loop_least s r floor ceil n k); [done|done|lia..|done| |by apply search_fuel].
  intros c (Hcm & Hcf & _). apply (mod_align_lt s r floor ceil n k (2 ^ k)); done || lia.
Qed.

Lemma down_start s r floor ceil n k :
  length (g_user_vmas s) ≤ USER_VMA_MAX →
  12 ≤ k < 64 → 0 < floor < ceil → ceil < 2 ^ 64 → 0 < n → n ≤ ceil - floor →
  (∀ v, v ∈ g_user_vmas s → seen s r v = true → 0 < addr v) →
  let cand := align_down (ceil - n) (2 ^ k) in
  0 ≤ cand ∧ cand + n ≤ ceil ∧
  greatest s r floor ceil n (2 ^ k)
    (find_down_loop (Z.to_nat (USER_VMA_MAX + 16)) s (Some r) cand floor ceil n (2 ^ k)).
Proof.
  intros Hlen Hk Hfl Hc Hn Hfit Hpos. cbn zeta.
  destruct (align_down_le s r floor ceil n k (2 ^ k)) with (x := ceil - n) as (Hd1 & Hd2 & Hd3); [done || lia..|].
  split_and!; [lia..|].
  apply (down_loop_greatest s r floor ceil n k); [done|done|lia..|done|done| |by apply search_fuel].
  intros c (Hcm & _ & ? & _). apply Hd3; done || lia.
Qed.

(** The bottom-up search.  A hint whose rounded address starts a gap is
    returned; otherwise the result is the lowest aligned address between [floor]
    and [ceil] from which [n] bytes meet no area of the runner's address space,
    and null exactly when there is no such address.  The bounded loop never
    gives up early. *)
Theorem find_unmapped_least s r floor ceil n hint al :
  length (g_user_vmas s) ≤ USER_VMA_MAX →
  0 < floor < ceil → 0 < n < 2 ^ 64 → is_u64 al → ceil + fix_align al ≤ 2 ^ 64 →
  let h := user_mm_align_up hint (fix_align al) in
  let x := user_vma_find_unmapped s (Some r) floor ceil n hint al in
  (hint ≠ 0 → gap s r floor ceil n (fix_align al) h → x = h) ∧
  ((hint ≠ 0 ∧ gap s r floor ceil n (fix_align al) h ∧ x = h) ∨
   least s r floor ceil n (fix_align al) x).
Proof.
  intros Hlen Hfl Hn Hal Hb. destruct (fix_align_pow2 al Hal) as (k & Hk & Ek). rewrite Ek in Hb |- *.
  assert (0 < 2 ^ k) by (apply Z.pow_pos_nonneg; lia). cbn zeta.
  unfold user_vma_find_unmapped, user_mm_align_up. rewrite Ek. set (h := align_up hint (2 ^ k)).
  destruct (Z.eqb_spec n 0); [lia|]. destruct (Z.leb_spec ceil floor); [lia|]. cbn [orb]. cbn zeta.
  rewrite (u64_small (ceil - floor)) by lia.
  assert (∀ c, gap s r floor ceil n (2 ^ k) c → n ≤ ceil - floor) as Hfit
    by (intros c (_ & ? & ? & _); lia).
  destruct (Z.ltb_spec (ceil - floor) n).
  { split; [intros _ Hg; specialize (Hfit h Hg); lia|]. right. left. split; [done|].
    intros c Hg. specialize (Hfit c Hg). lia. }
  destruct (align_up_mod hint k) as [Hh1 Hh2]; [lia|].
  pose proof (hint_test s r floor ceil n k h ltac:(lia) Hh1 Hn ltac:(lia) Hh2) as Ht.
  pose proof (up_start s r floor ceil n k Hlen Hk Hfl Hn Hb) as Hup.
  destruct (nz_spec hint) as [Hz|Hz]; cbn [andb]; [|by split; [|right]].
  destruct (_ && _ && _ && (user_vma_overlap_end_nolock s (Some r) h n =? 0)).
  - pose proof (proj1 Ht eq_refl). split; [done|]. by left.
  - split; [intros _ Hg; discriminate (proj2 Ht Hg)|by right].
Qed.

(** The top-down search returns the highest aligned address between [floor]
    and [ceil] from which [n] bytes meet no area of the runner's address space,
    and null exactly when there is none, provided no area starts at address 0. *)
Theorem find_unmapped_topdown_greatest s r floor ceil n al :
  length (g_user_vmas s) ≤ USER_VMA_MAX →
  0 < floor < ceil → ceil < 2 ^ 64 → 0 < n < 2 ^ 64 → is_u64 al →
  (∀ v, v ∈ g_user_vmas s → seen s r v = true → 0 < addr v) →
  greatest s r floor ceil n (fix_align al)
    (user_vma_find_unmapped_topdown s (Some r) floor ceil n al).
Proof.
  intros Hlen Hfl Hc Hn Hal Hpos. destruct (fix_align_pow2 al Hal) as (k & Hk & Ek). rewrite Ek.
  unfold user_vma_find_unmapped_topdown, user_mm_align_down. rewrite Ek.
  destruct (Z.eqb_spec n 0); [lia|]. destruct (Z.leb_spec ceil floor); [lia|]. cbn [orb]. cbn zeta.
  rewrite (u64_small (ceil - floor)) by lia. destruct (Z.ltb_spec (ceil - floor) n).
  { left. split; [done|]. intros c (_ & ? & ? & _). lia. }
  rewrite (u64_small (ceil - n)) by lia.
  destruct (down_start s r floor ceil n k) as (H1 & H2 & H3); [done || lia..|].
  set (cand := align_down (ceil - n) (2 ^ k)) in *. rewrite (u64_small (cand + n)) by lia.
  destruct (Z.ltb_spec ceil (cand + n)); [lia|]. done.
Qed.

(** A task of one thread with two areas and a hole of two pages between them. *)
Definition runner1 : thread := MkThread 1 3 7.
Definition heap0 : Heap.heap := Heap.MkHeap 0 0 0 0 0 0 0 ∅.
Definition two_areas : vms :=
  MkVms [MkVma true 1 0x400000 0x2000 3 USER_VMA_KIND_MMAP 0 0; vma0;
         MkVma true 1 0x404000 0x1000 3 USER_VMA_KIND_MMAP 0 0]
        ∅ (MkFiles ∅ []) [None; Some runner1] 2 heap0.

Lemma find_unmapped_least_witness :
  user_vma_find_unmapped two_areas (Some runner1) 0x400000 0x500000 0x2000 0 4096 = 0x402000 ∧
  least two_areas runner1 0x400000 0x500000 0x2000 (fix_align 4096) 0x402000.
Proof.
  assert (user_vma_find_unmapped two_areas (Some runner1) 0x400000 0x500000 0x2000 0 4096
          = 0x402000) as E by (vm_compute; reflexivity).
  split; [exact E|]. rewrite <- E.
  assert (0x500000 + fix_align 4096 ≤ 2 ^ 64) as Hb by (vm_compute; discriminate).
  destruct (find_unmapped_least two_areas runner1 0x400000 0x500000 0x2000 0 4096
              ltac:(vm_compute; discriminate) ltac:(lia) ltac:(lia) ltac:(lia) Hb)
    as [_ [[Hz _]|H]]; [by destruct Hz|exact H].
Defined.

Lemma find_unmapped_topdown_greatest_witness :
  user_vma_find_unmapped_topdown two_areas (Some runner1) 0x400000 0x404800 0x1000 4096 = 0x403000 ∧
  greatest two_areas runner1 0x400000 0x404800 0x1000 (fix_align 4096) 0x403000.
Proof.
  assert (user_vma_find_unmapped_topdown two_areas (Some runner1) 0x400000 0x404800 0x1000 4096
          = 0x403000) as E by (vm_compute; reflexivity).
  split; [exact E|]. rewrite <- E.
  apply (find_unmapped_topdown_greatest two_areas runner1 0x400000 0x404800 0x1000 4096);
    [vm_compute; discriminate|lia..|].
  apply (Forall_forall (λ v, seen two_areas runner1 v = true → 0 < addr v)).
  repeat constructor. vm_compute. discriminate.
Defined.
