(* ===== verification/VmaCut.v ===== *)
(** Cutting and clearing areas, the two phases of [user_vma_unmap_range].

    A table is looked at through [views]: for an address, what each area that
    contains it says about it (owner, protection, kind, file and offset).  The
    splitting loops are sequences of [cut] steps, each of which replaces an area
    by its two halves and leaves every view as it was; the clearing pass then
    removes whole areas.  File references are followed through [ext], the part of
    a reference count that no table entry accounts for. *)
From S2P Require Import Prelude Mem Heap Vma VmaGap.
Import Vma.

(** * Counting *)

Definition b2n (b : bool) : nat := if b then 1%nat else 0%nat.

Lemma cnt_cons {A} (P : A → bool) x l : cnt P (x :: l) = (b2n (P x) + cnt P l)%nat.
Proof. unfold cnt. simpl. by destruct (P x). Qed.

#[export] Instance cnt_proper {A} (P : A → bool) : Proper ((≡ₚ) ==> (=)) (cnt P).
Proof.
  intros l l' H. induction H as [|x l l' _ IH|x y l|l1 l2 l3 _ IH1 _ IH2]; rewrite ?cnt_cons; lia.
Qed.

Lemma cnt_zero {A} (P : A → bool) l : cnt P l = 0%nat ↔ ∀ x, x ∈ l → P x = false.
Proof.
  induction l as [|x l IH].
  { split; [intros _ x Hx; by apply elem_of_nil in Hx|done]. }
  rewrite cnt_cons. split.
  - intros H y [->|Hy]%elem_of_cons; [destruct (P x); [simpl in H; lia|done]|].
    apply IH; [destruct (P x); simpl in H; lia|done].
  - intros H. rewrite (H x) by apply list_elem_of_here. simpl. apply IH. intros y Hy. apply H. by right.
Qed.

(** Replacing an element, up to the order of the elements. *)
Lemma insert_perm {A} (l : list A) i x y : l !! i = Some y → y :: <[i := x]> l ≡ₚ x :: l.
Proof.
  revert i. induction l as [|z l IH]; intros [|i] H; simplify_eq/=; [apply perm_swap|].
  rewrite perm_swap, (IH i H). apply perm_swap.
Qed.

Lemma insert_two_perm {A} (l : list A) i j x y v f :
  l !! i = Some v → l !! j = Some f → i ≠ j →
  f :: v :: <[i := x]> (<[j := y]> l) ≡ₚ x :: y :: l.
Proof.
  intros Hi Hj Hne. rewrite (insert_perm _ i x v) by by rewrite list_lookup_insert_ne.
  rewrite perm_swap. by rewrite (insert_perm _ j y f).
Qed.

Lemma find_idx_some P t i : find_idx P t = Some i → ∃ v, t !! i = Some v ∧ P v = true.
Proof.
  revert i. induction t as [|v t IH]; intros i H; simpl in H; [done|]. destruct (P v) eqn:E.
  - simplify_eq. by exists v.
  - destruct (find_idx P t) as [j|]; simplify_eq/=. by apply IH.
Qed.

Lemma find_idx_none P t : find_idx P t = None → ∀ v, v ∈ t → P v = false.
Proof.
  induction t as [|v t IH]; intros H w Hw; [by apply elem_of_nil in Hw|]. simpl in H.
  destruct (P v) eqn:E; [done|]. apply elem_of_cons in Hw as [->|Hw]; [done|].
  apply IH; [|done]. by destruct (find_idx P t).
Qed.

(** * What a table says about an address *)

Record view := MkView { v_tid : Z; v_prot : Z; v_kind : Z; v_file : Z; v_off : Z }.
Definition view_at (va : Z) (v : vma) : option view :=
  if used v && contains v va then
    Some (MkView (tid v) (prot v) (kind v) (file v)
            (if nz (file v) then file_off v +u (va - addr v) else file_off v))
  else None.
Definition views (t : table) (va : Z) : list view := omap (view_at va) t.

Lemma views_cons v t va : views (v :: t) va = option_list (view_at va v) ++ views t va.
Proof. unfold views. simpl. by destruct (view_at va v). Qed.

#[export] Instance views_proper : Proper ((≡ₚ) ==> (=) ==> (≡ₚ)) views.
Proof. intros t t' H va ? <-. unfold views. by rewrite H. Qed.

Definition free (v : vma) : bool := negb (used v).
Definition held (f : Z) (v : vma) : bool := used v && (file v =? f).

(** * File references *)

(** References on [f] that the entries of [t] do not account for. *)
Definition ext (f : Z) (t : table) (fs : files) : Z := refs_of fs f - cnt (held f) t.

(** Every entry's reference is counted, and no count comes near the limit of [int]. *)
Definition counted (t : table) (fs : files) : Prop :=
  ∀ f, f ≠ 0 → 0 ≤ ext f t fs ∧ ext f t fs + length t < 2 ^ 31 - 1.

(** Between two states no count goes below zero, no dead file comes back, and the
    files destroyed are those whose last reference went. *)
Definition fate (fs fs' : files) : Prop :=
  ∀ f, f ≠ 0 → 0 ≤ refs_of fs' f ∧ (refs_of fs f = 0 → refs_of fs' f = 0) ∧
    (f ∈ destroyed fs' ↔ f ∈ destroyed fs ∨ (0 < refs_of fs f ∧ refs_of fs' f = 0)).

Lemma fate_refl fs : (∀ f, f ≠ 0 → 0 ≤ refs_of fs f) → fate fs fs.
Proof. intros H f Hf. split; [auto|]. split; [done|]. split; [by left|]. intros [?|?]; [done|lia]. Qed.

Lemma fate_trans fs1 fs2 fs3 :
  (∀ f, f ≠ 0 → 0 ≤ refs_of fs1 f) → fate fs1 fs2 → fate fs2 fs3 → fate fs1 fs3.
Proof.
  intros H0 H12 H23 f Hf. specialize (H0 f Hf).
  destruct (H12 f Hf) as (A1 & A2 & A3), (H23 f Hf) as (B1 & B2 & B3).
  split; [done|]. split; [auto|]. rewrite B3, A3. split.
  - intros [[?|[? ?]]|[? ?]]; [by left|right; auto|right].
    split; [|done]. destruct (decide (refs_of fs1 f = 0)); [specialize (A2 ltac:(done)); lia|lia].
  - intros [?|[? ?]]; [by left; left|]. destruct (decide (refs_of fs2 f = 0)); [by left; right|].
    right. lia.
Qed.

Lemma refs_get fs g f :
  g ≠ 0 → - 2 ^ 31 ≤ refs_of fs g < 2 ^ 31 - 1 →
  refs_of (fs_file_get fs g) f = refs_of fs f + b2n (g =? f) ∧
  destroyed (fs_file_get fs g) = destroyed fs.
Proof.
  intros Hg Hr. unfold fs_file_get. destruct (Z.eqb_spec g 0); [done|]. split; [|done].
  unfold refs_of at 1. simpl. destruct (Z.eqb_spec g f) as [->|Hne].
  - rewrite lookup_insert_eq. simpl. rewrite s32_small; lia.
  - rewrite lookup_insert_ne by done. fold (refs_of fs f). simpl. lia.
Qed.

Lemma refs_free fs g f :
  g ≠ 0 → 0 < refs_of fs g < 2 ^ 31 →
  refs_of (fs_file_free fs g) f = refs_of fs f - b2n (g =? f) ∧
  destroyed (fs_file_free fs g) = (if refs_of fs g =? 1 then [g] else []) ++ destroyed fs.
Proof.
  intros Hg Hr. unfold fs_file_free. destruct (Z.eqb_spec g 0); [done|].
  destruct (Z.ltb_spec 1 (refs_of fs g)) as [H1|H1].
  - destruct (Z.eqb_spec (refs_of fs g) 1); [lia|]. split; [|done].
    unfold refs_of at 1. simpl. destruct (Z.eqb_spec g f) as [->|Hne].
    + rewrite lookup_insert_eq. simpl. rewrite s32_small; lia.
    + rewrite lookup_insert_ne by done. fold (refs_of fs f). simpl. lia.
  - destruct (Z.ltb_spec (refs_of fs g) 1); [lia|]. destruct (Z.eqb_spec (refs_of fs g) 1); [|lia].
    split; [|done]. unfold refs_of at 1. simpl. destruct (Z.eqb_spec g f) as [->|Hne].
    + rewrite lookup_insert_eq. simpl. lia.
    + rewrite !lookup_insert_ne by done. fold (refs_of fs f). simpl. lia.
Qed.

Section cut.
(** [mt] selects the tasks whose areas are cut. *)
Variable mt : Z → bool.

(** A selected area lies inside the 64-bit space. *)
Definition ok_area (v : vma) : Prop :=
  used v = true → mt (tid v) = true → 0 ≤ addr v ∧ 0 ≤ len v ∧ addr v + len v < 2 ^ 64.

Lemma ok_end v : ok_area v → used v = true → mt (tid v) = true → vma_end v = addr v + len v.
Proof. intros H Hu Hm. destruct (H Hu Hm) as (? & ? & ?). unfold vma_end. apply u64_small; lia. Qed.

(** [x] is strictly inside the area. *)
Definition strad (x : Z) (v : vma) : bool :=
  used v && mt (tid v) && (addr v <? x) && (x <? vma_end v).

Lemma strad_true x v :
  strad x v = true ↔ used v = true ∧ mt (tid v) = true ∧ addr v < x < vma_end v.
Proof. unfold strad. rewrite !andb_true_iff, !Z.ltb_lt. tauto. Qed.

Definition left_half (x : Z) (v : vma) : vma := set_len v (x -u addr v).
Definition right_half (x : Z) (v : vma) : vma :=
  MkVma (used v) (tid v) x (vma_end v -u x) (prot v) (kind v) (file v)
    (if nz (file v) then file_off v +u (x -u addr v) else file_off v).

(** One turn of a splitting loop that finds work. *)
Inductive cut (x : Z) : table * files → table * files → Prop :=
| cut_at t fs i j v f :
    t !! i = Some v → strad x v = true → t !! j = Some f → used f = false →
    cut x (t, fs) (<[i := left_half x v]> (<[j := right_half x v]> t),
                   if nz (file v) then fs_file_get fs (file v) else fs).

Section halves.
Variables (x : Z) (v : vma).
Hypothesis (Hok : ok_area v) (Hs : strad x v = true).

Lemma halves_range : 0 ≤ addr v < x ∧ x < addr v + len v < 2 ^ 64 ∧ vma_end v = addr v + len v.
Proof using Hok Hs.
  apply strad_true in Hs as (Hu & Hm & Hx). rewrite (ok_end v Hok Hu Hm) in Hx |- *.
  destruct (Hok Hu Hm) as (? & ? & ?). lia.
Qed.

Lemma left_end : vma_end (left_half x v) = x.
Proof using Hok Hs.
  destruct halves_range as (? & ? & _). unfold vma_end, left_half. simpl. unwrap. lia.
Qed.

Lemma right_end : vma_end (right_half x v) = vma_end v.
Proof using Hok Hs.
  destruct halves_range as (? & ? & E). unfold vma_end at 1. simpl. rewrite E. unwrap. lia.
Qed.

Lemma halves_ok : ok_area (left_half x v) ∧ ok_area (right_half x v).
Proof using Hok Hs.
  destruct halves_range as (? & ? & E). split; intros _ _; simpl; rewrite ?E; unwrap; lia.
Qed.

Lemma halves_view va :
  option_list (view_at va v) ≡ₚ
  option_list (view_at va (left_half x v)) ++ option_list (view_at va (right_half x v)).
Proof using Hok Hs.
  destruct halves_range as (? & ? & E). unfold view_at, contains.
  rewrite left_end, right_end, E. pose proof Hs as (Hu & _)%strad_true. simpl. rewrite Hu. cbn [andb].
  destruct (Z.leb_spec (addr v) va), (Z.ltb_spec va (addr v + len v)), (Z.ltb_spec va x),
    (Z.leb_spec x va); cbn [andb]; try lia; simpl; try done.
  destruct (nz (file v)) eqn:En; [|done]. rewrite (u64_small (x - addr v)) by lia.
  unfold u64. rewrite Zplus_mod_idemp_l.
  by replace (file_off v + (x - addr v) + (va - x)) with (file_off v + (va - addr v)) by lia.
Qed.

(** Another cutting point falls in exactly one half. *)
Lemma halves_strad y :
  y ≠ x → b2n (strad y v) = (b2n (strad y (left_half x v)) + b2n (strad y (right_half x v)))%nat.
Proof using Hok Hs.
  intros Hne. destruct halves_range as (? & ? & E). unfold strad. rewrite left_end, right_end, E.
  pose proof Hs as (Hu & Hm & _)%strad_true. simpl. rewrite Hu, Hm. cbn [andb].
  repeat zcase; simpl; lia.
Qed.

Lemma halves_done : strad x (left_half x v) = false ∧ strad x (right_half x v) = false.
Proof using Hok Hs.
  unfold strad. rewrite left_end. simpl. rewrite !Z.ltb_irrefl. by rewrite !andb_false_r.
Qed.
End halves.

(** What a cut keeps and what it uses up. *)
Lemma cut_perm x t fs t' fs' :
  cut x (t, fs) (t', fs') → Forall ok_area t →
  ∃ v f, strad x v = true ∧ ok_area v ∧ used f = false ∧ length t' = length t ∧
    f :: v :: t' ≡ₚ left_half x v :: right_half x v :: t ∧ v ∈ t ∧
    fs' = (if nz (file v) then fs_file_get fs (file v) else fs).
Proof.
  intros Hc Hall. inversion Hc as [? ? i j v f Hi Hs Hj Hf]; subst.
  exists v, f. assert (i ≠ j) by (intros <-; apply strad_true in Hs as (? & _); congruence).
  split_and!.
  - done.
  - by eapply Forall_lookup_1.
  - done.
  - by rewrite !length_insert.
  - by apply insert_two_perm.
  - by eapply list_elem_of_lookup_2.
  - done.
Qed.

Record kept (x : Z) (t t' : table) : Prop := {
  kp_len : length t' = length t;
  kp_ok : Forall ok_area t';
  kp_views : ∀ va, views t' va ≡ₚ views t va;
  kp_free : (cnt free t' + cnt (strad x) t = cnt free t + cnt (strad x) t')%nat;
  kp_other : ∀ y, y ≠ x → cnt (strad y) t' = cnt (strad y) t
}.

Lemma free_strad x v : used v = false → strad x v = false.
Proof. intros H. unfold strad. by rewrite H. Qed.

Lemma cut_kept x t fs t' fs' : cut x (t, fs) (t', fs') → Forall ok_area t → kept x t t'.
Proof.
  intros Hc Hall. destruct (cut_perm _ _ _ _ _ Hc Hall) as (v & f & Hs & Hv & Hf & Hl & Hp & Hin & _).
  pose proof (strad_true x v) as [Hst _]. specialize (Hst Hs) as (Hu & _ & _).
  destruct (halves_done x v Hv Hs) as [Hd1 Hd2]. destruct (halves_ok x v Hv Hs) as [Ho1 Ho2].
  split; [done| | | |].
  - assert (Forall ok_area (f :: v :: t')) as Hf'; [|by inversion Hf' as [|?? ? H2]; inversion H2].
    rewrite Hp. constructor; [done|]. by constructor.
  - intros va. pose proof (views_proper _ _ Hp va va eq_refl) as H. rewrite !views_cons in H.
    unfold view_at at 1 in H. rewrite Hf in H. simpl in H. rewrite (halves_view x v Hv Hs va) in H.
    rewrite <- app_assoc in H. by do 2 apply Permutation_app_inv_l in H.
  - pose proof (cnt_proper free _ _ Hp) as H1. pose proof (cnt_proper (strad x) _ _ Hp) as H2.
    rewrite !cnt_cons in H1, H2. unfold free in H1 at 1 2 4 5. simpl in H1. rewrite Hf, Hu in H1.
    rewrite Hs, Hd1, Hd2, (free_strad x f Hf) in H2. simpl in H1, H2. lia.
  - intros y Hy. pose proof (cnt_proper (strad y) _ _ Hp) as H2. rewrite !cnt_cons in H2.
    rewrite (free_strad y f Hf) in H2. pose proof (halves_strad x v Hv Hs y Hy). simpl in H2. lia.
Qed.

Lemma cut_refs x t fs t' fs' :
  cut x (t, fs) (t', fs') → Forall ok_area t → counted t fs →
  (∀ f, f ≠ 0 → ext f t' fs' = ext f t fs) ∧ fate fs fs'.
Proof.
  intros Hc Hall Hct. destruct (cut_perm _ _ _ _ _ Hc Hall) as (v & w & Hs & Hv & Hf & Hl & Hp & Hin & ->).
  apply strad_true in Hs as (Hu & _ & _).
  assert (∀ f, f ≠ 0 → cnt (held f) t' = (cnt (held f) t + b2n (file v =? f)%Z)%nat) as Hheld.
  { intros f _. pose proof (cnt_proper (held f) _ _ Hp) as H. rewrite !cnt_cons in H.
    unfold held in H at 1 2 4 5. simpl in H. rewrite Hf, Hu in H. simpl in H. lia. }
  assert (∀ f, f ≠ 0 → 0 ≤ refs_of fs f) as Hpos by (intros f H; destruct (Hct f H); unfold ext in *; lia).
  destruct (nz_spec (file v)) as [Hz|Hz].
  - destruct (Hct (file v) Hz) as [C1 C2]. unfold ext in C1, C2.
    pose proof (cnt_length (held (file v)) t).
    assert (0 < cnt (held (file v)) t)%nat as Hone.
    { destruct (cnt (held (file v)) t) eqn:E; [|lia]. rewrite cnt_zero in E. specialize (E v Hin).
      unfold held in E. rewrite Hu, Z.eqb_refl in E. done. }
    split; intros f H0; destruct (refs_get fs (file v) f Hz) as [R D]; [lia| |lia|].
    + unfold ext. rewrite R, Hheld by done. lia.
    + rewrite R, D. specialize (Hpos f H0). split; [lia|].
      destruct (Z.eqb_spec (file v) f) as [<-|Hne]; simpl.
      * split; [lia|]. split; [by left|]. intros [?|?]; [done|lia].
      * split; [lia|]. split; [by left|]. intros [?|?]; [done|lia].
  - split; [|by apply fate_refl]. intros f H0. unfold ext. rewrite Hheld, Hz by done.
    destruct (Z.eqb_spec 0 f); [by subst|]. simpl. lia.
Qed.

(** * Splitting loops *)

Lemma kept_refl x t : Forall ok_area t → kept x t t.
Proof. intros. by split. Qed.

Lemma kept_trans x t1 t2 t3 : kept x t1 t2 → kept x t2 t3 → kept x t1 t3.
Proof.
  intros [A1 A2 A3 A4 A5] [B1 B2 B3 B4 B5]. split; [lia|done| |lia|].
  - intros va. by rewrite B3.
  - intros y Hy. rewrite B5, A5; done.
Qed.

(** What a run of cuts guarantees. *)
Lemma cuts_kept x st st' :
  rtc (cut x) st st' → Forall ok_area st.1 → counted st.1 st.2 →
  kept x st.1 st'.1 ∧ (∀ f, f ≠ 0 → ext f st'.1 st'.2 = ext f st.1 st.2) ∧ fate st.2 st'.2.
Proof.
  induction 1 as [[t fs]|[t1 fs1] [t2 fs2] [t3 fs3] Hc _ IH]; intros Hok Hct; simpl in *.
  - split; [by apply kept_refl|]. split; [done|]. apply fate_refl.
    intros f Hf. destruct (Hct f Hf). unfold ext in *. lia.
  - pose proof (cut_kept _ _ _ _ _ Hc Hok) as K. destruct (cut_refs _ _ _ _ _ Hc Hok Hct) as [E F].
    destruct IH as (K' & E' & F').
    + by apply (kp_ok _ _ _ K).
    + intros f Hf. rewrite E, (kp_len _ _ _ K) by done. by apply Hct.
    + split; [by eapply kept_trans|]. split; [intros f Hf; by rewrite E', E|].
      eapply fate_trans; [|done..]. intros f Hf. destruct (Hct f Hf). unfold ext in *. lia.
Qed.

Lemma split_loop_cuts x k i t fs :
  0 ≤ x < 2 ^ 64 → (i + k = length t)%nat → Forall ok_area t →
  (∀ j v, (j < i)%nat → t !! j = Some v → strad x v = false) →
  (cnt (strad x) t ≤ cnt free t)%nat →
  ∃ t' fs', split_loop (λ v, mt (tid v)) k i t fs x = (t', fs', 0) ∧
    rtc (cut x) (t, fs) (t', fs') ∧ cnt (strad x) t' = 0%nat.
Proof.
  intros Hx. revert i t fs. induction k as [|k IH]; intros i t fs Hlen Hok Hdone Hcap; cbn [split_loop].
  { exists t, fs. split; [done|]. split; [done|]. apply cnt_zero. intros v [j Hj]%list_elem_of_lookup_1.
    apply (Hdone j); [|done]. apply lookup_lt_Some in Hj. lia. }
  destruct (lookup_lt_is_Some_2 t i) as [v Hi]; [lia|]. rewrite Hi. simpl.
  destruct (strad x v) eqn:Es.
  - pose proof Es as (Hu & Hm & Hr)%strad_true. rewrite Hu, Hm. cbn [negb orb].
    destruct (Z.leb_spec x (addr v)); [lia|]. destruct (Z.leb_spec (vma_end v) x); [lia|]. cbn [orb].
    destruct (free_idx t) as [j|] eqn:Ej.
    2: { exfalso. assert (cnt free t = 0%nat) as Z0 by (apply cnt_zero; by apply find_idx_none).
         assert (cnt (strad x) t = 0%nat) as Z1 by lia. rewrite cnt_zero in Z1.
         rewrite (Z1 v) in Es; [done|]. by eapply list_elem_of_lookup_2. }
    apply find_idx_some in Ej as (w & Hj & Hw%negb_true_iff).
    assert (cut x (t, fs) (<[i := left_half x v]> (<[j := right_half x v]> t),
              if nz (file v) then fs_file_get fs (file v) else fs)) as Hc by by econstructor.
    pose proof (cut_kept _ _ _ _ _ Hc Hok) as [K1 K2 _ K4 _].
    pose proof (Forall_lookup_1 _ _ _ _ Hok Hi) as Hv. destruct (halves_done x v Hv Es) as [D1 D2].
    edestruct (IH (S i) (<[i := left_half x v]> (<[j := right_half x v]> t)))
      as (t' & fs' & E & R & Z0); [lia|done| | |].
    3: { exists t', fs'. unfold right_half in E. rewrite Hu in E. split; [exact E|]. split; [|done]. by eapply rtc_l. }
    + intros l u Hl. destruct (decide (l = i)) as [->|Hne].
      { rewrite list_lookup_insert_eq by (rewrite length_insert; lia). by intros [= <-]. }
      rewrite list_lookup_insert_ne by done. destruct (decide (l = j)) as [->|Hnj].
      { rewrite list_lookup_insert_eq by (eapply lookup_lt_Some; done). by intros [= <-]. }
      rewrite list_lookup_insert_ne by done. apply Hdone. lia.
    + lia.
  - assert (∀ l u, (l < S i)%nat → t !! l = Some u → strad x u = false) as Hdone'.
    { intros l u Hl Hu. destruct (decide (l = i)) as [->|Hne]; [by simplify_eq|].
      apply (Hdone l); [lia|done]. }
    assert (∃ t' fs', split_loop (λ v, mt (tid v)) k (S i) t fs x = (t', fs', 0) ∧
              rtc (cut x) (t, fs) (t', fs') ∧ cnt (strad x) t' = 0%nat) as Hnext
      by (apply IH; [lia|done..]).
    unfold strad in Es. destruct (used v); [|done]. destruct (mt (tid v)); [|done]. cbn [negb orb andb] in *.
    destruct (Z.leb_spec x (addr v)); [done|]. destruct (Z.leb_spec (vma_end v) x); [done|].
    destruct (Z.ltb_spec (addr v) x), (Z.ltb_spec x (vma_end v)); done || lia.
Qed.

End cut.
