(* ===== verification/VmaUnmap.v ===== *)
(** [user_vma_unmap_range] for a task with an address space of its own: the
    capacity check decides whether the call succeeds, a refused call changes
    nothing, and a successful one takes exactly the requested addresses away from
    both tables while the file references stay in step. *)
From S2P Require Import Prelude Mem Heap Vma VmaGap VmaCut.
Import Vma.

(** * The capacity check *)

Lemma count_need_spec mt t a e f n :
  count_need (λ v, mt (tid v)) t a e f n =
  (f + cnt free t, n + cnt (strad mt a) t + cnt (strad mt e) t).
Proof.
  revert f n. induction t as [|v t IH]; intros f n; cbn [count_need].
  { unfold cnt. simpl. f_equal; lia. }
  rewrite !cnt_cons. change (free v) with (negb (used v)).
  change (strad mt a v) with (used v && mt (tid v) && (addr v <? a) && (a <? vma_end v)).
  change (strad mt e v) with (used v && mt (tid v) && (addr v <? e) && (e <? vma_end v)).
  destruct (used v); cbn [negb andb b2n].
  - destruct (mt (tid v)); cbn [negb andb b2n]; rewrite IH; [|f_equal; lia].
    destruct ((addr v <? a) && (a <? vma_end v)), ((addr v <? e) && (e <? vma_end v));
      cbn [b2n]; f_equal; lia.
  - rewrite IH. f_equal; lia.
Qed.

(** * Clearing *)

Definition cleared (mt : Z → bool) (a e : Z) (v : vma) : vma :=
  if used v && mt (tid v) && overlaps v a e then
    set_used (if file v =? 0 then v else set_file v 0 0) false
  else v.

Lemma held_cleared mt a e f v : (b2n (held f (cleared mt a e v)) ≤ b2n (held f v))%nat.
Proof. unfold cleared. destruct (_ && overlaps v a e); [|lia]. unfold held. simpl. lia. Qed.

Lemma clear_entry_spec mt a e v fs :
  (∀ f, f ≠ 0 → b2n (held f v) ≤ refs_of fs f < 2 ^ 31) →
  ∃ fs', clear_entry (λ v, mt (tid v)) a e v fs = (cleared mt a e v, fs') ∧ fate fs fs' ∧
    (∀ f, f ≠ 0 → refs_of fs' f - b2n (held f (cleared mt a e v)) = refs_of fs f - b2n (held f v)).
Proof.
  intros Hr. unfold clear_entry, cleared.
  assert (fate fs fs) as Hrefl by (apply fate_refl; intros f Hf; specialize (Hr f Hf); lia).
  destruct (used v && mt (tid v) && overlaps v a e) eqn:E; [|by exists fs].
  apply andb_true_iff in E as [[Hu _]%andb_true_iff _].
  unfold user_vma_clear_nolock, user_vma_drop_file_nolock. rewrite Hu. cbn [negb].
  destruct (Z.eqb_spec (file v) 0) as [Hz|Hz].
  - exists fs. split; [done|]. split; [done|]. intros f Hf. unfold held. simpl. rewrite Hu, Hz.
    destruct (Z.eqb_spec 0 f); [by subst|done].
  - exists (fs_file_free fs (file v)). split; [done|].
    pose proof (Hr (file v) Hz) as Hv. unfold held in Hv. rewrite Hu, Z.eqb_refl in Hv. simpl in Hv.
    split; intros f Hf; destruct (refs_free fs (file v) f Hz) as [R D]; [lia| |lia|].
    + rewrite R, D. specialize (Hr f Hf). unfold held in Hr. rewrite Hu in Hr. cbn [andb] in Hr.
      split; [lia|]. destruct (Z.eqb_spec (file v) f) as [E0|Hne]; cbn [b2n] in Hr |- *.
      * rewrite E0 in *. split; [lia|]. destruct (Z.eqb_spec (refs_of fs f) 1) as [E1|E1].
        -- simpl. rewrite elem_of_cons. split; [intros [_|?]; [right; lia|by left]|by left].
        -- simpl. split; [by left|]. intros [?|?]; [done|lia].
      * split; [lia|]. destruct (_ =? 1); simpl; rewrite ?elem_of_cons; split;
          try (by left); intros; destruct_or!; subst; try done; try lia; auto.
    + rewrite R. unfold held. simpl. rewrite Hu. cbn [andb b2n]. lia.
Qed.

Lemma clear_both_spec mt a e t w fs :
  (length w ≤ length t)%nat →
  (∀ f, f ≠ 0 → cnt (held f) t + cnt (held f) w ≤ refs_of fs f < 2 ^ 31) →
  ∃ fs', clear_both (λ v, mt (tid v)) t w fs a e =
           (map (cleared mt a e) t, map (cleared (λ _, true) a e) w, fs') ∧ fate fs fs' ∧
    (∀ f, f ≠ 0 →
       refs_of fs' f - cnt (held f) (map (cleared mt a e) t)
                     - cnt (held f) (map (cleared (λ _, true) a e) w) =
       refs_of fs f - cnt (held f) t - cnt (held f) w).
Proof.
  revert w fs. induction t as [|v t IH]; intros w fs Hlen Hr.
  { destruct w; [|simpl in Hlen; lia]. exists fs. split; [done|]. split; [|done].
    apply fate_refl. intros f Hf. specialize (Hr f Hf). lia. }
  cbn [clear_both].
  destruct (clear_entry_spec mt a e v fs) as (fs1 & -> & F1 & R1).
  { intros f Hf. specialize (Hr f Hf). rewrite cnt_cons in Hr. lia. }
  assert (∀ f, f ≠ 0 → 0 ≤ refs_of fs f) as Hp by (intros f Hf; specialize (Hr f Hf); lia).
  assert (∀ f, f ≠ 0 → cnt (held f) t + cnt (held f) w ≤ refs_of fs1 f < 2 ^ 31) as Hr1.
  { intros f Hf. specialize (Hr f Hf). specialize (R1 f Hf). rewrite cnt_cons in Hr.
    pose proof (held_cleared mt a e f v). lia. }
  destruct w as [|u w].
  - destruct (IH [] fs1) as (fs2 & -> & F2 & R2); [simpl; lia|done|].
    exists fs2. split; [done|]. split; [by eapply fate_trans|]. intros f Hf.
    specialize (R1 f Hf). specialize (R2 f Hf). cbn [map] in *. rewrite !cnt_cons. lia.
  - destruct (clear_entry_spec (λ _, true) a e u fs1) as (fs2 & -> & F2 & R2).
    { intros f Hf. specialize (Hr1 f Hf). rewrite cnt_cons in Hr1. lia. }
    destruct (IH w fs2) as (fs3 & -> & F3 & R3); [simpl in Hlen; lia| |].
    { intros f Hf. specialize (Hr1 f Hf). specialize (R2 f Hf). rewrite cnt_cons in Hr1.
      pose proof (held_cleared (λ _, true) a e f u). lia. }
    exists fs3. split; [done|]. split.
    + eapply fate_trans; [done|done|]. eapply fate_trans; [|done..]. intros f Hf. specialize (Hr1 f Hf). lia.
    + intros f Hf. specialize (R1 f Hf). specialize (R2 f Hf). specialize (R3 f Hf).
      cbn [map]. rewrite !cnt_cons. lia.
Qed.

(** Once nothing straddles the ends of the range, clearing takes exactly the
    addresses of the range away from the selected tasks. *)
Definition left_over (mt : Z → bool) (a e va : Z) (l : list view) : list view :=
  if (a <=? va) && (va <? e) then List.filter (λ w, negb (mt (v_tid w))) l else l.

Lemma cleared_view mt a e va v :
  ok_area mt v → strad mt a v = false → strad mt e v = false → a < e →
  option_list (view_at va (cleared mt a e v)) = left_over mt a e va (option_list (view_at va v)).
Proof.
  intros Hok Ha He Hae. unfold left_over, cleared, view_at. destruct (used v) eqn:Hu; cbn [andb].
  2: { rewrite Hu. cbn [andb option_list]. by destruct (_ && _). }
  destruct (mt (tid v)) eqn:Hm; cbn [andb].
  2: { rewrite Hu. cbn [andb]. destruct (contains v va); cbn [option_list];
       destruct ((a <=? va) && _); simpl; rewrite ?Hm; done. }
  unfold strad in Ha, He. rewrite Hu, Hm in Ha, He. cbn [andb] in Ha, He.
  apply andb_false_iff in Ha as Ha'. apply andb_false_iff in He as He'. clear Ha He.
  rewrite !Z.ltb_ge, !(ok_end mt v Hok Hu Hm) in Ha', He'.
  destruct (contains v va) eqn:Hc.
  - unfold contains in Hc. rewrite (ok_end mt v Hok Hu Hm) in Hc.
    apply andb_true_iff in Hc as Hc'. rewrite Z.leb_le, Z.ltb_lt in Hc'.
    unfold overlaps. rewrite (ok_end mt v Hok Hu Hm).
    destruct (Z.leb_spec (addr v + len v) a), (Z.leb_spec e (addr v)), (Z.leb_spec a va),
      (Z.ltb_spec va e); cbn [orb negb andb option_list List.filter v_tid]; try lia.
    all: rewrite ?Hu, ?Hm; cbn [used set_used andb negb option_list]; unfold contains;
      rewrite ?(ok_end mt v Hok Hu Hm), ?Hc; try done.
    simpl. by rewrite Hm.
  - replace (contains (if overlaps v a e then _ else v) va) with false.
    + rewrite andb_false_r. cbn [option_list]. by destruct (_ && _).
    + destruct (overlaps v a e); [|done]. symmetry. by destruct (file v =? 0).
Qed.

Lemma cleared_views mt a e t va :
  Forall (ok_area mt) t → cnt (strad mt a) t = 0%nat → cnt (strad mt e) t = 0%nat → a < e →
  views (map (cleared mt a e) t) va = left_over mt a e va (views t va).
Proof.
  intros Hok Ha He Hae. induction Hok as [|v t Hv _ IH].
  { unfold left_over. simpl. by destruct (_ && _). }
  rewrite cnt_cons in Ha, He. apply Nat.eq_add_0 in Ha as [Ha1 Ha2], He as [He1 He2].
  assert (∀ b, b2n b = 0%nat → b = false) as Hb by (intros []; done).
  cbn [map]. rewrite !views_cons, cleared_view, IH by auto.
  unfold left_over. destruct (_ && _); [|done]. by rewrite List.filter_app.
Qed.

(** * The whole call *)

Section unmap.
Variables (s : vms) (owner : thread) (a e : Z).
Let mt := user_vma_tid_matches_runner_mm_nolock s (Some owner).
Let all : Z → bool := λ _, true.

(** The table of the task's own [mm], empty when it has none. *)
Definition mm_areas (s : vms) (owner : thread) : table := default [] (mm_table s (t_mm owner)).

(** References on [f] held by neither table. *)
Definition outside (f : Z) (s : vms) : Z :=
  refs_of (fref s) f - cnt (held f) (g_user_vmas s) - cnt (held f) (mm_areas s owner).

Record vms_ok (s' : vms) : Prop := {
  vo_g : Forall (ok_area mt) (g_user_vmas s');
  vo_mm : Forall (ok_area all) (mm_areas s' owner);
  vo_len : (length (mm_areas s' owner) ≤ length (g_user_vmas s'))%nat;
  vo_refs : ∀ f, f ≠ 0 → 0 ≤ outside f s' ∧
    outside f s' + length (g_user_vmas s') + length (mm_areas s' owner) < 2 ^ 31 - 1
}.

Lemma refs_nonneg s' : vms_ok s' → ∀ f, f ≠ 0 → 0 ≤ refs_of (fref s') f < 2 ^ 31.
Proof using.
  intros [_ _ _ H] f Hf. specialize (H f Hf). unfold outside in H.
  pose proof (cnt_length (held f) (g_user_vmas s')). pose proof (cnt_length (held f) (mm_areas s' owner)). lia.
Qed.

(** One splitting phase of the call, on either table. *)
Record phase (s1 s2 : vms) : Prop := {
  ph_ok : vms_ok s2;
  ph_threads : threads s2 = threads s1 ∧ thread_count s2 = thread_count s1;
  ph_has : is_Some (mm_table s2 (t_mm owner)) ↔ is_Some (mm_table s1 (t_mm owner));
  ph_g : ∀ va, views (g_user_vmas s2) va ≡ₚ views (g_user_vmas s1) va;
  ph_mm : ∀ va, views (mm_areas s2 owner) va ≡ₚ views (mm_areas s1 owner) va;
  ph_out : ∀ f, f ≠ 0 → outside f s2 = outside f s1;
  ph_fate : fate (fref s1) (fref s2)
}.

Lemma split_g_phase s1 x :
  vms_ok s1 → user_vma_tid_matches_runner_mm_nolock s1 (Some owner) = mt → 0 ≤ x < 2 ^ 64 →
  (cnt (strad mt x) (g_user_vmas s1) ≤ cnt free (g_user_vmas s1))%nat →
  ∃ t fs, user_vma_split_runner_at_nolock s1 (Some owner) x = (set_g s1 t fs, 0) ∧
    phase s1 (set_g s1 t fs) ∧ kept mt x (g_user_vmas s1) t ∧ cnt (strad mt x) t = 0%nat.
Proof using.
  intros Hok Em Hx Hcap. unfold user_vma_split_runner_at_nolock. rewrite Em.
  destruct (split_loop_cuts mt x (length (g_user_vmas s1)) 0 (g_user_vmas s1) (fref s1))
    as (t & fs & -> & Hr & H0); [done|done|by apply (vo_g _ Hok)|intros; lia|done|].
  exists t, fs. split; [done|].
  destruct (cuts_kept mt x _ _ Hr) as (K & E & F); [by apply (vo_g _ Hok)| |].
  { intros f Hf. destruct (vo_refs _ Hok f Hf) as [A B]. unfold outside, ext in *. simpl.
    pose proof (cnt_length (held f) (mm_areas s1 owner)). lia. }
  simpl in *. split; [|done]. assert (∀ f, f ≠ 0 → outside f (set_g s1 t fs) = outside f s1) as Ho.
  { intros f Hf. specialize (E f Hf). unfold outside, ext in *. simpl.
    change (mm_areas (set_g s1 t fs) owner) with (mm_areas s1 owner). lia. }
  split; try done.
  - split; [apply (kp_ok _ _ _ _ K)|apply (vo_mm _ Hok)|cbn [g_user_vmas set_g]; rewrite (kp_len _ _ _ _ K); apply (vo_len _ Hok)|].
    intros f Hf. rewrite Ho by done. cbn [g_user_vmas set_g]. rewrite (kp_len _ _ _ _ K). by apply (vo_refs _ Hok).
  - apply (kp_views _ _ _ _ K).
Qed.

Lemma mm_areas_set s1 t fs :
  t_mm owner ≠ 0 → mm_table (set_storage s1 (t_mm owner) t fs) (t_mm owner) = Some t.
Proof using.
  intros Hz. unfold mm_table. destruct (Z.eqb_spec (t_mm owner) 0); [done|]. simpl.
  by rewrite lookup_insert_eq.
Qed.

Lemma split_mm_phase s1 x :
  t_mm owner ≠ 0 → vms_ok s1 → 0 ≤ x < 2 ^ 64 →
  (cnt (strad all x) (mm_areas s1 owner) ≤ cnt free (mm_areas s1 owner))%nat →
  ∃ s2, user_vma_split_mm_at_nolock s1 (t_mm owner) x = (s2, 0) ∧ phase s1 s2 ∧
    g_user_vmas s2 = g_user_vmas s1 ∧
    kept all x (mm_areas s1 owner) (mm_areas s2 owner) ∧
    cnt (strad all x) (mm_areas s2 owner) = 0%nat.
Proof using.
  intros Hmm Hok Hx Hcap. unfold user_vma_split_mm_at_nolock.
  pose proof (vo_mm _ Hok) as Hall. unfold mm_areas in Hall, Hcap.
  destruct (mm_table s1 (t_mm owner)) as [t0|] eqn:Et.
  2: { assert (mm_areas s1 owner = []) as E0 by (unfold mm_areas; by rewrite Et).
       exists s1. split; [done|]. split; [|split; [done|split; [|by rewrite E0]]].
       - split; try done. apply fate_refl. intros f Hf. by apply (refs_nonneg _ Hok).
       - apply kept_refl. by apply (vo_mm _ Hok). }
  simpl in Hall, Hcap.
  destruct (split_loop_cuts all x (length t0) 0 t0 (fref s1)) as (t & fs & E & Hr & H0);
    [done|done|done|intros; lia|done|].
  change (split_loop (λ _, true) (length t0) 0 t0 (fref s1) x = (t, fs, 0)) in E.
  rewrite E. exists (set_storage s1 (t_mm owner) t fs). split; [done|].
  assert (mm_areas s1 owner = t0) as E1 by (unfold mm_areas; by rewrite Et).
  assert (mm_areas (set_storage s1 (t_mm owner) t fs) owner = t) as E2
    by (unfold mm_areas; by rewrite mm_areas_set).
  destruct (cuts_kept all x _ _ Hr) as (K & Ee & F); [done| |].
  { intros f Hf. destruct (vo_refs _ Hok f Hf) as [A B]. unfold outside, ext in *. simpl.
    rewrite E1 in A, B. pose proof (cnt_length (held f) (g_user_vmas s1)). lia. }
  simpl in *. rewrite E1, E2. split; [|done].
  assert (∀ f, f ≠ 0 → outside f (set_storage s1 (t_mm owner) t fs) = outside f s1) as Ho.
  { intros f Hf. specialize (Ee f Hf). unfold outside, ext in *. rewrite E1, E2. simpl. lia. }
  split; try done.
  - split; rewrite ?E2; [apply (vo_g _ Hok)|apply (kp_ok _ _ _ _ K)| |].
    + rewrite (kp_len _ _ _ _ K), <- E1. apply (vo_len _ Hok).
    + intros f Hf. rewrite Ho, (kp_len _ _ _ _ K), <- E1 by done. by apply (vo_refs _ Hok).
  - rewrite mm_areas_set, Et by done. by split.
  - rewrite E1, E2. apply (kp_views _ _ _ _ K).
Qed.

Lemma phase_trans s1 s2 s3 : vms_ok s1 → phase s1 s2 → phase s2 s3 → phase s1 s3.
Proof using.
  intros Hok [A1 [A2 A2'] A3 A4 A5 A6 A7] [B1 [B2 B2'] B3 B4 B5 B6 B7]. split; try done.
  - split; congruence.
  - by rewrite B3.
  - intros va. by rewrite B4.
  - intros va. by rewrite B5.
  - intros f Hf. by rewrite B6, A6.
  - eapply fate_trans; [|done..]. intros f Hf. by apply (refs_nonneg _ Hok).
Qed.

Lemma matches_same s1 :
  threads s1 = threads s → thread_count s1 = thread_count s →
  user_vma_tid_matches_runner_mm_nolock s1 (Some owner) = mt.
Proof using.
  unfold mt. destruct s as [g st fr th tc h], s1 as [g1 st1 fr1 th1 tc1 h1]; simpl. by intros -> ->.
Qed.

(** All four splits, once the capacity check has passed. *)
Lemma splits_ok :
  t_mm owner ≠ 0 → vms_ok s → 0 ≤ a < e → e < 2 ^ 64 →
  (cnt (strad mt a) (g_user_vmas s) + cnt (strad mt e) (g_user_vmas s)
   ≤ cnt free (g_user_vmas s))%nat →
  (cnt (strad all a) (mm_areas s owner) + cnt (strad all e) (mm_areas s owner)
   ≤ cnt free (mm_areas s owner))%nat →
  ∃ s1 s2 s3 s4,
    user_vma_split_runner_at_nolock s (Some owner) a = (s1, 0) ∧
    user_vma_split_runner_at_nolock s1 (Some owner) e = (s2, 0) ∧
    user_vma_split_mm_at_nolock s2 (t_mm owner) a = (s3, 0) ∧
    user_vma_split_mm_at_nolock s3 (t_mm owner) e = (s4, 0) ∧ phase s s4 ∧
    cnt (strad mt a) (g_user_vmas s4) = 0%nat ∧ cnt (strad mt e) (g_user_vmas s4) = 0%nat ∧
    cnt (strad all a) (mm_areas s4 owner) = 0%nat ∧ cnt (strad all e) (mm_areas s4 owner) = 0%nat.
Proof using.
  intros Hmm Hok Hae He Hcg Hcm.
  destruct (split_g_phase s a Hok eq_refl) as (t1 & f1 & E1 & P1 & K1 & Z1); [lia..|].
  pose proof (kp_other _ _ _ _ K1 e ltac:(lia)) as O1. pose proof (kp_free _ _ _ _ K1) as F1.
  destruct (split_g_phase (set_g s t1 f1) e (ph_ok _ _ P1) eq_refl) as (t2 & f2 & E2 & P2 & K2 & Z2);
    [lia|cbn [g_user_vmas set_g]; lia|].
  pose proof (kp_other _ _ _ _ K2 a ltac:(lia)) as O2. cbn [g_user_vmas set_g] in O2.
  set (s2 := set_g (set_g s t1 f1) t2 f2) in *.
  destruct (split_mm_phase s2 a Hmm (ph_ok _ _ P2)) as (s3 & E3 & P3 & G3 & K3 & Z3);
    [lia|change (mm_areas s2 owner) with (mm_areas s owner); lia|].
  change (mm_areas s2 owner) with (mm_areas s owner) in K3.
  pose proof (kp_other _ _ _ _ K3 e ltac:(lia)) as O3. pose proof (kp_free _ _ _ _ K3) as F3.
  destruct (split_mm_phase s3 e Hmm (ph_ok _ _ P3)) as (s4 & E4 & P4 & G4 & K4 & Z4); [lia..|].
  pose proof (kp_other _ _ _ _ K4 a ltac:(lia)) as O4.
  exists (set_g s t1 f1), s2, s3, s4. rewrite G4, G3.
  split_and!; try done.
  - eapply phase_trans; [done|done|]. eapply phase_trans; [apply (ph_ok _ _ P1)|done|].
    eapply phase_trans; [apply (ph_ok _ _ P2)|done..].
  - change (g_user_vmas s2) with t2. lia.
  - lia.
Qed.

(** The capacity check passes exactly when both tables have room for the halves. *)
Lemma capacity_spec :
  user_vma_unmap_capacity_nolock s (Some owner) a e =
  if ((cnt (strad mt a) (g_user_vmas s) + cnt (strad mt e) (g_user_vmas s) <=?
       cnt free (g_user_vmas s))%nat &&
      (cnt (strad all a) (mm_areas s owner) + cnt (strad all e) (mm_areas s owner) <=?
       cnt free (mm_areas s owner))%nat)%nat
  then 0 else -1.
Proof using.
  unfold user_vma_unmap_capacity_nolock. fold mt.
  rewrite (count_need_spec mt (g_user_vmas s) a e 0 0). unfold mm_areas.
  destruct (Nat.leb_spec (cnt (strad mt a) (g_user_vmas s) + cnt (strad mt e) (g_user_vmas s))
              (cnt free (g_user_vmas s))); destruct (Z.ltb_spec (0 + cnt free (g_user_vmas s))
              (0 + cnt (strad mt a) (g_user_vmas s) + cnt (strad mt e) (g_user_vmas s)));
    try lia; cbn [andb]; [|done].
  destruct (mm_table s (t_mm owner)) as [t|]; [|done]. cbn [default].
  pose proof (count_need_spec all t a e 0 0) as E.
  change (λ v : vma, all (tid v)) with (λ _ : vma, true) in E. rewrite E.
  unfold default, id.
  destruct (Nat.leb_spec (cnt (strad all a) t + cnt (strad all e) t) (cnt free t)),
    (Z.ltb_spec (0 + cnt free t) (0 + cnt (strad all a) t + cnt (strad all e) t)); done || lia.
Qed.

Lemma cleared_ok mt' v : ok_area mt' v → ok_area mt' (cleared mt' a e v).
Proof using.
  intros H. unfold cleared. destruct (_ && overlaps v a e); [|done]. intros Hu. by destruct (file v =? 0).
Qed.

End unmap.

Lemma left_over_perm mt a e va l l' : l ≡ₚ l' → left_over mt a e va l ≡ₚ left_over mt a e va l'.
Proof.
  intros H. unfold left_over. destruct (_ && _); [|done].
  induction H as [|x l l' _ IH|x y l|l1 l2 l3 _ IH1 _ IH2]; simpl; [done| | |by rewrite IH1].
  - destruct (negb _); by rewrite ?IH.
  - do 2 destruct (negb _); done || apply perm_swap.
Qed.

(** The clearing pass on a state in which nothing straddles the range. *)
Lemma clear_phase s owner a e s4 :
  let mt := user_vma_tid_matches_runner_mm_nolock s (Some owner) in
  t_mm owner ≠ 0 → a < e → vms_ok s owner s4 →
  cnt (strad mt a) (g_user_vmas s4) = 0%nat → cnt (strad mt e) (g_user_vmas s4) = 0%nat →
  cnt (strad (λ _, true) a) (mm_areas s4 owner) = 0%nat →
  cnt (strad (λ _, true) e) (mm_areas s4 owner) = 0%nat →
  ∃ s5,
    match mm_table s4 (t_mm owner) with
    | Some w =>
        let '(t, w, fs) := clear_both (λ v, mt (tid v)) (g_user_vmas s4) w (fref s4) a e in
        (set_storage (set_g s4 t fs) (t_mm owner) w fs, 0)
    | None =>
        let '(t, _, fs) := clear_both (λ v, mt (tid v)) (g_user_vmas s4) [] (fref s4) a e in
        (set_g s4 t fs, 0)
    end = (s5, 0) ∧ vms_ok s owner s5 ∧
    (∀ va, views (g_user_vmas s5) va = left_over mt a e va (views (g_user_vmas s4) va)) ∧
    (∀ va, views (mm_areas s5 owner) va = left_over (λ _, true) a e va (views (mm_areas s4 owner) va)) ∧
    (∀ f, f ≠ 0 → outside owner f s5 = outside owner f s4) ∧ fate (fref s4) (fref s5).
Proof.
  intros mt Hmm Hae Hok Zga Zge Zma Zme.
  destruct (clear_both_spec mt a e (g_user_vmas s4) (mm_areas s4 owner) (fref s4))
    as (fs & E & F & R).
  { apply (vo_len _ _ _ Hok). }
  { intros f Hf. destruct (vo_refs _ _ _ Hok f Hf) as [A B]. unfold outside in A, B.
    pose proof (refs_nonneg s owner s4 Hok f Hf). lia. }
  set (t' := map (cleared mt a e) (g_user_vmas s4)) in *.
  set (w' := map (cleared (λ _, true) a e) (mm_areas s4 owner)) in *.
  assert (∃ s5, match mm_table s4 (t_mm owner) with
    | Some w =>
        let '(t, w, fs) := clear_both (λ v, mt (tid v)) (g_user_vmas s4) w (fref s4) a e in
        (set_storage (set_g s4 t fs) (t_mm owner) w fs, 0)
    | None =>
        let '(t, _, fs) := clear_both (λ v, mt (tid v)) (g_user_vmas s4) [] (fref s4) a e in
        (set_g s4 t fs, 0)
    end = (s5, 0) ∧ g_user_vmas s5 = t' ∧ mm_areas s5 owner = w' ∧ fref s5 = fs)
    as (s5 & E5 & Eg & Ew & Ef).
  { unfold w', mm_areas in *. destruct (mm_table s4 (t_mm owner)) as [w|] eqn:Et; simpl in E; rewrite E.
    - eexists. split; [done|]. by rewrite mm_areas_set.
    - eexists. split; [done|]. simpl. split; [done|].
      change (mm_table (set_g s4 t' fs) (t_mm owner)) with (mm_table s4 (t_mm owner)). by rewrite Et. }
  exists s5. split; [exact E5|].
  assert (∀ f, f ≠ 0 → outside owner f s5 = outside owner f s4) as Ho
    by (intros f Hf; unfold outside; rewrite Eg, Ew, Ef; by apply R).
  split_and!; [|intros va|intros va|done|by rewrite Ef].
  - split; rewrite ?Eg, ?Ew; unfold t', w'.
    + apply Forall_map, (Forall_impl _ _ _ (vo_g _ _ _ Hok)). apply cleared_ok.
    + apply Forall_map, (Forall_impl _ _ _ (vo_mm _ _ _ Hok)). apply cleared_ok.
    + rewrite !length_map. apply (vo_len _ _ _ Hok).
    + intros f Hf. rewrite Ho, !length_map by done. by apply (vo_refs _ _ _ Hok).
  - rewrite Eg. apply cleared_views; try done. apply (vo_g _ _ _ Hok).
  - rewrite Ew. apply cleared_views; try done. apply (vo_mm _ _ _ Hok).
Qed.

(** C22: unmapping a range from a task that has an address space.  The call fails
    exactly when the advance check [user_vma_can_unmap_range] refuses the range,
    and then changes nothing at all.  Otherwise, at every address of the range,
    the areas of the task's threads disappear from the global table and all areas
    from its [mm] table; at every other address both tables say exactly what they
    said, file offsets included.  Each reference count moves with the number of
    entries that use the file, and a file is destroyed exactly when its last
    reference goes. *)
Theorem unmap_range_correct s tid' a n owner :
  thread_get s (s32 tid') = Some owner → t_mm owner ≠ 0 →
  0 ≤ a → 0 < n → a + n < 2 ^ 64 → vms_ok s owner s →
  let mt := user_vma_tid_matches_runner_mm_nolock s (Some owner) in
  let '(s', rc) := user_vma_unmap_range s tid' a n in
  (rc = -1 ∧ user_vma_can_unmap_range s tid' a n = -1 ∧ s' = s) ∨
  (rc = 0 ∧ user_vma_can_unmap_range s tid' a n = 0 ∧ vms_ok s owner s' ∧
   (∀ va, views (g_user_vmas s') va ≡ₚ left_over mt a (a + n) va (views (g_user_vmas s) va)) ∧
   (∀ va, views (mm_areas s' owner) va ≡ₚ
          left_over (λ _, true) a (a + n) va (views (mm_areas s owner) va)) ∧
   (∀ f, f ≠ 0 → outside owner f s' = outside owner f s) ∧ fate (fref s) (fref s')).
Proof.
  intros Ht Hmm Ha Hn Hb Hok mt. unfold user_vma_unmap_range, user_vma_can_unmap_range.
  rewrite Ht, (u64_small (a + n)) by lia. rewrite (proj2 (nz_true _) Hmm).
  destruct (Z.eqb_spec n 0); [lia|]. destruct (Z.ltb_spec (a + n) a); [lia|]. cbn [orb].
  pose proof (capacity_spec s owner a (a + n)) as Hcap.
  destruct (_ && _)%nat eqn:Ec in Hcap; rewrite Hcap; cbn [negb Z.eqb]; [|by left].
  apply andb_true_iff in Ec as [Cg%Nat.leb_le Cm%Nat.leb_le].
  destruct (splits_ok s owner a (a + n) Hmm Hok ltac:(lia) Hb Cg Cm)
    as (s1 & s2 & s3 & s4 & -> & -> & -> & -> & P & Zga & Zge & Zma & Zme).
  cbn [negb Z.eqb]. destruct (ph_threads _ _ _ _ P) as [T1 T2].
  rewrite (matches_same s owner s4 T1 T2).
  destruct (clear_phase s owner a (a + n) s4 Hmm ltac:(lia) (ph_ok _ _ _ _ P) Zga Zge Zma Zme)
    as (s5 & -> & Hok5 & Hg & Hw & Ho & Hf).
  right. split_and!; try done.
  - intros va. rewrite Hg. apply left_over_perm, (ph_g _ _ _ _ P).
  - intros va. rewrite Hw. apply left_over_perm, (ph_mm _ _ _ _ P).
  - intros f Hf0. by rewrite Ho, (ph_out _ _ _ _ P).
  - eapply fate_trans; [|apply (ph_fate _ _ _ _ P)|done].
    intros f Hf0. by apply (refs_nonneg s owner s Hok).
Qed.

(** A file of four pages mapped by the one thread of a task; its second page goes. *)
Definition file_area (t : Z) : vma := MkVma true t 0x400000 0x4000 3 USER_VMA_KIND_MMAP 9 0.
Definition mapped_file : vms :=
  MkVms [file_area 1; vma0; vma0] {[7 := [vma0; file_area 0; vma0]]}
        (MkFiles {[9 := 2]} []) [None; Some runner1] 2 heap0.

Lemma mapped_file_ok : vms_ok mapped_file runner1 mapped_file.
Proof.
  split.
  - repeat constructor; cbn; intros; lia || done.
  - change (mm_areas mapped_file runner1) with [vma0; file_area 0; vma0].
    repeat constructor; cbn; intros; lia || done.
  - vm_compute. lia.
  - intros f Hf. change (mm_areas mapped_file runner1) with [vma0; file_area 0; vma0].
    destruct (decide (f = 9)) as [->|Hne]; [vm_compute; split; [discriminate|reflexivity]|].
    assert (outside runner1 f mapped_file = 0) as ->; [|simpl; lia].
    unfold outside. change (mm_areas mapped_file runner1) with [vma0; file_area 0; vma0].
    unfold refs_of. cbn [fref mapped_file refcount]. rewrite lookup_singleton_ne by done.
    unfold cnt, held. cbn [g_user_vmas mapped_file List.filter used vma0 file_area file andb].
    destruct (Z.eqb_spec 9 f); [by subst|reflexivity].
Qed.

Lemma unmap_range_correct_witness :
  let '(s', rc) := user_vma_unmap_range mapped_file 1 0x401000 0x1000 in
  rc = 0 ∧ refs_of (fref s') 9 = 4 ∧
  (∀ va, views (g_user_vmas s') va ≡ₚ
     left_over (user_vma_tid_matches_runner_mm_nolock mapped_file (Some runner1))
       0x401000 (0x401000 + 0x1000) va (views (g_user_vmas mapped_file) va)).
Proof.
  pose proof (unmap_range_correct mapped_file 1 0x401000 0x1000 runner1 eq_refl
    ltac:(discriminate) ltac:(lia) ltac:(lia) ltac:(lia) mapped_file_ok) as H.
  cbn zeta in H.
  assert ((user_vma_unmap_range mapped_file 1 0x401000 0x1000).2 = 0) as Erc by (vm_compute; reflexivity).
  assert (refs_of (fref (user_vma_unmap_range mapped_file 1 0x401000 0x1000).1) 9 = 4) as Erf
    by (vm_compute; reflexivity).
  destruct (user_vma_unmap_range mapped_file 1 0x401000 0x1000) as [s' rc].
  cbn [fst snd] in Erc, Erf. destruct H as [(E & _)|(_ & _ & _ & Hv & _)]; [rewrite E in Erc; discriminate Erc|].
  split; [exact Erc|]. split; [exact Erf|exact Hv].
Defined.
