(* ===== verification/VmaQuery.v ===== *)
(** Adding areas and asking about them: [user_vma_add], [user_vma_is_fully_mapped]
    and [user_vma_remove_all_for_tid], and a defect of the tid-keyed split used by
    [user_vma_set_prot]. *)
From S2P Require Import Prelude Mem Heap HeapSpec HeapProps FrameProps Vma VmaGap VmaCut VmaUnmap.
Import Vma.

(** Some area of the task contains the address. *)
Definition covered (t : table) (tid' va : Z) : Prop :=
  ∃ v, v ∈ t ∧ used v = true ∧ tid v = tid' ∧ addr v ≤ va < vma_end v.

Lemma covering_iff v tid' va :
  (used v && (tid v =? tid') && contains v va) = true ↔
  used v = true ∧ tid v = tid' ∧ addr v ≤ va < vma_end v.
Proof. unfold contains. rewrite !andb_true_iff, Z.eqb_eq, Z.leb_le, Z.ltb_lt. tauto. Qed.

(** * [user_vma_is_fully_mapped] *)

Lemma fully_mapped_loop_spec fuel t tid' cur e :
  (cnt (λ v, (cur <? vma_end v)%Z) t < fuel)%nat →
  ∃ b, fully_mapped_loop fuel t tid' cur e = Some b ∧
    (b = true ↔ ∀ va, cur ≤ va < e → covered t tid' va).
Proof.
  revert cur. induction fuel as [|fuel IH]; intros cur Hf; [lia|]. cbn [fully_mapped_loop].
  destruct (Z.ltb_spec cur e).
  2: { exists true. split; [done|]. split; [intros _ va ?; lia|done]. }
  unfold user_vma_find_containing_nolock. destruct (find_idx _ t) as [i|] eqn:Ei.
  - apply find_idx_some in Ei as (v & Hi & (Hu & Ht & Hr)%covering_iff). rewrite Hi. simpl.
    destruct (Z.leb_spec (vma_end v) cur); [lia|].
    pose proof (list_elem_of_lookup_2 _ _ _ Hi) as Hin.
    destruct (IH (vma_end v)) as (b & -> & Hb).
    { eapply Nat.lt_le_trans; [apply (cnt_lt _ (λ w, cur <? vma_end w) t v)|lia]; [|done|..].
      - intros w _ Hw%Z.ltb_lt. apply Z.ltb_lt. lia.
      - apply Z.ltb_irrefl.
      - apply Z.ltb_lt. lia. }
    exists b. split; [done|]. rewrite Hb. split; intros Hall va Hva; [|apply Hall; lia].
    destruct (decide (va < vma_end v)); [|apply Hall; lia]. exists v. split_and!; done || lia.
  - exists false. split; [done|]. split; [done|]. intros Hall.
    destruct (Hall cur ltac:(lia)) as (v & Hv & Hc).
    pose proof (find_idx_none _ _ Ei v Hv) as Hn. cbn beta in Hn.
    rewrite (proj2 (covering_iff v tid' cur) Hc) in Hn. discriminate Hn.
Qed.

(** [user_vma_is_fully_mapped] always returns, and answers yes exactly when
    every address of the range belongs to an area of the task, whatever the
    order of the table and however the areas overlap. *)
Theorem is_fully_mapped_exact s tid' a n :
  ∃ b, user_vma_is_fully_mapped s tid' a n = Some b ∧
    (b = true ↔ ∀ va, a ≤ va < a +u n → covered (g_user_vmas s) tid' va).
Proof.
  apply fully_mapped_loop_spec. pose proof (cnt_length (λ v, a <? vma_end v) (g_user_vmas s)). lia.
Qed.

(** * [user_vma_add] *)

(** The entry a call updates or fills. *)
Lemma add_entry_spec t same v :
  (∀ w, same w = true → used w = true) →
  let '(t', rc) := add_entry t same v in
  (rc = -1 ∧ t' = t ∧ cnt free t = 0%nat ∧ cnt same t = 0%nat) ∨
  (rc = 0 ∧ ∃ i old, t !! i = Some old ∧
     ((same old = true ∧ t' = <[i := set_prot old (prot v)]> t) ∨
      (used old = false ∧ t' = <[i := v]> t))).
Proof.
  intros Hsame. unfold add_entry. destruct (find_idx same t) as [i|] eqn:Es.
  - apply find_idx_some in Es as (w & Hi & Hw). right. split; [done|]. exists i, w.
    split; [done|]. rewrite Hi. by left.
  - destruct (free_idx t) as [i|] eqn:Ef.
    + apply find_idx_some in Ef as (w & Hi & Hw%negb_true_iff). right. split; [done|].
      exists i, w. split; [done|]. by right.
    + left. split_and!; try done; apply cnt_zero; by apply find_idx_none.
Qed.

(** Adding for a task covers the range and leaves the other tasks alone. *)
Lemma add_nolock_spec t tid' a n p k :
  0 ≤ a → 0 ≤ n → a + n < 2 ^ 64 →
  let '(t', rc) := user_vma_add_nolock t tid' a n p k in
  (rc = -1 ∧ t' = t ∧ cnt free t = 0%nat) ∨
  (rc = 0 ∧ (∀ va, a ≤ va < a + n → covered t' tid' va) ∧
   (∀ va, covered t tid' va → covered t' tid' va) ∧
   (∀ u va, u ≠ tid' → covered t' u va ↔ covered t u va)).
Proof.
  intros Ha Hn Hb. unfold user_vma_add_nolock.
  set (same := λ v, used v && _ && _ && _ && _). set (new := MkVma _ _ _ _ _ _ _ _).
  pose proof (add_entry_spec t same new) as H. destruct (add_entry t same new) as [t' rc].
  destruct H as [(-> & -> & Hf & _)|(-> & i & old & Hi & Hcase)].
  { intros w Hw. unfold same in Hw. by destruct (used w). }
  { by left. }
  right. split; [done|].
  assert (∃ w, t' = <[i := w]> t ∧ used w = true ∧ tid w = tid' ∧ addr w = a ∧ vma_end w = a + n ∧
            (used old = true → tid old = tid' ∧ addr old = a ∧ vma_end old = a + n))
    as (w & -> & Wu & Wt & Wa & We & Wo).
  { destruct Hcase as [[Hs ->]|[Hu ->]]; eexists; (split; [done|]).
    - unfold same in Hs. rewrite !andb_true_iff, !Z.eqb_eq in Hs. destruct Hs as ((((? & ?) & ?) & ?) & ?).
      unfold vma_end. simpl. split_and!; try done; [|intros _; split_and!; try done];
        rewrite u64_small; lia.
    - unfold vma_end, new. simpl. split_and!; try done; [apply u64_small; lia|congruence]. }
  pose proof (lookup_lt_Some _ _ _ Hi) as Hlt.
  assert (w ∈ <[i := w]> t) as Hw by (eapply list_elem_of_lookup_2; by apply list_lookup_insert_eq).
  assert (∀ v, v ∈ t → v = old ∨ v ∈ <[i := w]> t) as Hkeep.
  { intros v [j Hj]%list_elem_of_lookup_1. destruct (decide (j = i)) as [->|Hne]; [left; congruence|right].
    eapply list_elem_of_lookup_2. by rewrite list_lookup_insert_ne. }
  split_and!.
  - intros va Hva. exists w. split_and!; done || lia.
  - intros va (v & Hv & Hu & Ht & Hr). destruct (Hkeep v Hv) as [->|Hin]; [|by exists v].
    destruct (Wo Hu) as (_ & ? & ?). exists w. split_and!; done || lia.
  - intros u va Hu. split; intros (v & Hv & Hvu & Hvt & Hr).
    + exists v. split; [|done]. apply list_elem_of_lookup_1 in Hv as [j Hj].
      destruct (decide (j = i)) as [->|Hne].
      * rewrite list_lookup_insert_eq in Hj by done. congruence.
      * rewrite list_lookup_insert_ne in Hj by done. by eapply list_elem_of_lookup_2.
    + exists v. split; [|done]. destruct (Hkeep v Hv) as [->|Hin]; [|done].
      destruct (Wo Hvu) as (? & _). congruence.
Qed.

Lemma add_mm_total s mm a n p k caller bs fl :
  heap_inv (vheap s) bs fl →
  ∃ s' rc, user_vma_add_mm s mm a n p k caller = Some (s', rc) ∧
    g_user_vmas s' = g_user_vmas s ∧ threads s' = threads s.
Proof.
  intros Hi. unfold user_vma_add_mm.
  assert (∃ s1 o, user_vma_mm_storage s mm true caller = Some (s1, o) ∧
            g_user_vmas s1 = g_user_vmas s ∧ threads s1 = threads s) as (s1 & o & -> & Hg & Ht).
  { unfold user_vma_mm_storage. destruct (mm =? 0); [by exists s, None|].
    destruct (vma_storage s !! mm) as [t|]; [by exists s, (Some t)|].
    change (VMA_SIZE *u USER_VMA_MAX) with 229376.
    destruct (kmalloc_any (vheap s) bs fl 229376 caller Hi) as (h & q & ? & ? & -> & _); [lia..|].
    cbn [mbind option_bind]. destruct (q =? 0); eexists _, _; (split; [reflexivity|done]). }
  cbn [mbind option_bind]. destruct o as [t|]; [|by exists s1, (-1)].
  destruct (add_entry t _ _) as [t' rc]. by eexists _, rc.
Qed.

(** [user_vma_add] always returns on a sound heap.  It fails, leaving the
    table as it was, only when every entry is in use; otherwise the whole range
    is mapped for the task afterwards, which [user_vma_is_fully_mapped] confirms,
    nothing it had mapped is lost, and no other task gains or loses an address. *)
Theorem add_then_mapped s tid' a n p k caller bs fl :
  heap_inv (vheap s) bs fl → 0 ≤ a → 0 < n → a + n < 2 ^ 64 →
  ∃ s' rc, user_vma_add s tid' a n p k caller = Some (s', rc) ∧
  ((rc = -1 ∧ g_user_vmas s' = g_user_vmas s ∧ cnt free (g_user_vmas s) = 0%nat) ∨
   (rc = 0 ∧ user_vma_is_fully_mapped s' tid' a n = Some true ∧
    (∀ va, covered (g_user_vmas s) tid' va → covered (g_user_vmas s') tid' va) ∧
    (∀ u va, u ≠ tid' → covered (g_user_vmas s') u va ↔ covered (g_user_vmas s) u va))).
Proof.
  intros Hi Ha Hn Hb. unfold user_vma_add.
  pose proof (add_nolock_spec (g_user_vmas s) tid' a n p k Ha ltac:(lia) Hb) as H.
  destruct (user_vma_add_nolock (g_user_vmas s) tid' a n p k) as [t rc].
  assert (∃ s', match thread_get (set_g s t (fref s)) (s32 tid') with
     | Some owner =>
         if nz (t_mm owner) then
           '(s, _) ← user_vma_add_mm (set_g s t (fref s)) (t_mm owner) a n p k caller; Some (s, rc)
         else Some (set_g s t (fref s), rc)
     | None => Some (set_g s t (fref s), rc)
     end = Some (s', rc) ∧ g_user_vmas s' = t) as (s' & -> & Hg).
  { destruct (thread_get _ _) as [o|]; [|by eexists]. destruct (nz (t_mm o)); [|by eexists].
    destruct (add_mm_total (set_g s t (fref s)) (t_mm o) a n p k caller bs fl Hi)
      as (s1 & rc1 & -> & Hg & _). cbn [mbind option_bind]. by exists s1. }
  exists s', rc. split; [done|]. rewrite Hg.
  destruct H as [(-> & -> & ?)|(-> & H1 & H2 & H3)]; [by left|right]. split; [done|].
  split; [|done].
  destruct (fully_mapped_loop_spec (S (length (g_user_vmas s'))) (g_user_vmas s') tid' a (a +u n))
    as (b & E & Hbt).
  { pose proof (cnt_length (λ v, a <? vma_end v) (g_user_vmas s')). lia. }
  unfold user_vma_is_fully_mapped. rewrite E. f_equal. apply Hbt. rewrite Hg, (u64_small (a + n)) by lia.
  exact H1.
Qed.

(** A task without an address space adds to a table of two entries. *)
Definition two_free : vms := MkVms [vma0; vma0] ∅ (MkFiles ∅ []) [] 0 h0.

Lemma add_then_mapped_witness :
  ∃ s' rc, user_vma_add two_free 5 0x400000 0x2000 3 USER_VMA_KIND_MMAP 7 = Some (s', rc) ∧
    rc = 0 ∧ user_vma_is_fully_mapped s' 5 0x400000 0x2000 = Some true.
Proof.
  destruct (add_then_mapped two_free 5 0x400000 0x2000 3 USER_VMA_KIND_MMAP 7 [0x1000] [0x1000]
              h0_inv ltac:(lia) ltac:(lia) ltac:(lia))
    as (s' & rc & E & [(_ & _ & Hf)|(Hrc & Hm & _)]); [vm_compute in Hf; discriminate Hf|].
  exists s', rc. split; [exact E|]. split; [exact Hrc|exact Hm].
Defined.

(** * The tid-keyed split *)

Definition split_table : table :=
  [MkVma true 5 0x400000 0x4000 1 USER_VMA_KIND_MMAP 9 0; vma0].

(** [user_vma_split_at_nolock] moves a file mapping.  Splitting a file area
    whose entry precedes the free one looks the right half up before the left one
    is shortened and finds the left one: afterwards address [0x400000] is backed
    by offset [0x2000] of the file instead of [0], the right half has lost its
    file, and the file has two references for one entry.  [user_vma_set_prot]
    splits this way when the protection of part of an area changes. *)
Theorem split_at_moves_file :
  let fs := MkFiles {[9 := 1]} [] in
  let '(t, fs', rc) := user_vma_split_at_nolock split_table fs 5 0x402000 in
  rc = 0 ∧
  views split_table 0x400000 = [MkView 5 1 USER_VMA_KIND_MMAP 9 0] ∧
  views t 0x400000 = [MkView 5 1 USER_VMA_KIND_MMAP 9 0x2000] ∧
  views split_table 0x402000 = [MkView 5 1 USER_VMA_KIND_MMAP 9 0x2000] ∧
  views t 0x402000 = [MkView 5 1 USER_VMA_KIND_MMAP 0 0] ∧
  refs_of fs' 9 = 2 ∧ cnt (held 9) t = 1%nat.
Proof. vm_compute. by repeat split. Qed.
