(* ===== verification/Sha256.v ===== *)
(** SHA-256 and HMAC-SHA-256, [crypto/sha256.c].

    Module [Sha256] is the model: the context, the streaming interface and HMAC,
    on lists of bytes.  The lemmas relate the streaming code to the whole message at
    once: pad it, cut it into blocks and fold the compression function of the code over
    them ([sha256_spec]).  That this is the function of the standard is shown in
    [Sha256Std]. *)
From S2P Require Import Prelude.

Module Sha256.

Definition SHA256_DIGEST_SIZE : nat := 32.

(** The table, in the rows of the source. *)
Definition K : list Z := Eval cbv in concat [
  [0x428a2f98; 0x71374491; 0xb5c0fbcf; 0xe9b5dba5];
  [0x3956c25b; 0x59f111f1; 0x923f82a4; 0xab1c5ed5];
  [0xd807aa98; 0x12835b01; 0x243185be; 0x550c7dc3];
  [0x72be5d74; 0x80deb1fe; 0x9bdc06a7; 0xc19bf174];
  [0xe49b69c1; 0xefbe4786; 0x0fc19dc6; 0x240ca1cc];
  [0x2de92c6f; 0x4a7484aa; 0x5cb0a9dc; 0x76f988da];
  [0x983e5152; 0xa831c66d; 0xb00327c8; 0xbf597fc7];
  [0xc6e00bf3; 0xd5a79147; 0x06ca6351; 0x14292967];
  [0x27b70a85; 0x2e1b2138; 0x4d2c6dfc; 0x53380d13];
  [0x650a7354; 0x766a0abb; 0x81c2c92e; 0x92722c85];
  [0xa2bfe8a1; 0xa81a664b; 0xc24b8b70; 0xc76c51a3];
  [0xd192e819; 0xd6990624; 0xf40e3585; 0x106aa070];
  [0x19a4c116; 0x1e376c08; 0x2748774c; 0x34b0bcb5];
  [0x391c0cb3; 0x4ed8aa4a; 0x5b9cca4f; 0x682e6ff3];
  [0x748f82ee; 0x78a5636f; 0x84c87814; 0x8cc70208];
  [0x90befffa; 0xa4506ceb; 0xbef9a3f7; 0xc67178f2]].

Definition ROTR32 (x n : Z) : Z := Z.lor (Z.shiftr x n) (u32 (Z.shiftl x (32 - n))).
Definition CH (x y z : Z) : Z := Z.lxor (Z.land x y) (Z.land (u32 (Z.lnot x)) z).
Definition MAJ (x y z : Z) : Z := Z.lxor (Z.lxor (Z.land x y) (Z.land x z)) (Z.land y z).
Definition BSIG0 (x : Z) : Z := Z.lxor (Z.lxor (ROTR32 x 2) (ROTR32 x 13)) (ROTR32 x 22).
Definition BSIG1 (x : Z) : Z := Z.lxor (Z.lxor (ROTR32 x 6) (ROTR32 x 11)) (ROTR32 x 25).
Definition SSIG0 (x : Z) : Z := Z.lxor (Z.lxor (ROTR32 x 7) (ROTR32 x 18)) (Z.shiftr x 3).
Definition SSIG1 (x : Z) : Z := Z.lxor (Z.lxor (ROTR32 x 17) (ROTR32 x 19)) (Z.shiftr x 10).

Definition at_ (l : list Z) (i : nat) : Z := default 0 (l !! i).

(** [w[0..15]] from the block, big-endian; then [w[16..63]], one at a time. *)
Definition load_word (block : list Z) (i : nat) : Z :=
  Z.lor (Z.lor (Z.lor (Z.shiftl (at_ block (i * 4)) 24) (Z.shiftl (at_ block (i * 4 + 1)) 16))
               (Z.shiftl (at_ block (i * 4 + 2)) 8))
        (at_ block (i * 4 + 3)).
Fixpoint extend (k : nat) (w : list Z) : list Z :=
  match k with
  | O => w
  | S k =>
      let i := length w in
      extend k (w ++ [u32 (SSIG1 (at_ w (i - 2)) + at_ w (i - 7) + SSIG0 (at_ w (i - 15))
                           + at_ w (i - 16))])
  end.

Record regs := MkRegs { ra : Z; rb : Z; rc : Z; rd : Z; re : Z; rf : Z; rg : Z; rh : Z }.
Definition round (w : list Z) (r : regs) (i : nat) : regs :=
  let t1 := u32 (rh r + BSIG1 (re r) + CH (re r) (rf r) (rg r) + at_ K i + at_ w i) in
  let t2 := u32 (BSIG0 (ra r) + MAJ (ra r) (rb r) (rc r)) in
  MkRegs (u32 (t1 + t2)) (ra r) (rb r) (rc r) (u32 (rd r + t1)) (re r) (rf r) (rg r).

Definition sha256_compress (state block : list Z) : list Z :=
  let w := extend 48 (map (load_word block) (seq 0 16)) in
  let r := MkRegs (at_ state 0) (at_ state 1) (at_ state 2) (at_ state 3)
                  (at_ state 4) (at_ state 5) (at_ state 6) (at_ state 7) in
  let r := foldl (round w) r (seq 0 64) in
  [u32 (at_ state 0 + ra r); u32 (at_ state 1 + rb r); u32 (at_ state 2 + rc r);
   u32 (at_ state 3 + rd r); u32 (at_ state 4 + re r); u32 (at_ state 5 + rf r);
   u32 (at_ state 6 + rg r); u32 (at_ state 7 + rh r)].

(** [sha256_ctx_t]; [buflen] counts bytes of [buf]. *)
Record ctx := MkCtx { h : list Z; total_len : Z; buf : list Z; buflen : nat }.

Definition H0 : list Z :=
  [0x6a09e667; 0xbb67ae85; 0x3c6ef372; 0xa54ff53a; 0x510e527f; 0x9b05688c; 0x1f83d9ab; 0x5be0cd19].

(** [sha256_init] leaves the buffer as it is. *)
Definition sha256_init (c : ctx) : ctx := MkCtx H0 0 (buf c) 0.

(** The loop of [sha256_update]; every turn consumes at least one byte. *)
Fixpoint update_loop (fuel : nat) (c : ctx) (data : list Z) : option ctx :=
  match data with
  | [] => Some c
  | _ =>
      match fuel with
      | O => None
      | S fuel =>
          let take_ := Nat.min (64 - buflen c) (length data) in
          let b := take (buflen c) (buf c) ++ take take_ data ++ drop (buflen c + take_) (buf c) in
          let n := (buflen c + take_)%nat in
          let c := if (n =? 64)%nat then MkCtx (sha256_compress (h c) b) (total_len c) b 0
                   else MkCtx (h c) (total_len c) b n in
          update_loop fuel c (drop take_ data)
      end
  end.
Definition sha256_update (c : ctx) (data : list Z) : option ctx :=
  update_loop (length data) (MkCtx (h c) (total_len c +u length data) (buf c) (buflen c)) data.

(** [while (c->buflen != 56) sha256_update(c, &zero, 1)] *)
Fixpoint pad_loop (fuel : nat) (c : ctx) : option ctx :=
  if (buflen c =? 56)%nat then Some c
  else match fuel with
       | O => None
       | S fuel => c ← sha256_update c [0]; pad_loop fuel c
       end.

Definition be_bytes (k : nat) (x : Z) : list Z :=
  map (λ i : nat, u8 (Z.shiftr x (8 * (Z.of_nat k - 1 - Z.of_nat i)))) (seq 0 k).

Definition sha256_final (c : ctx) : option (ctx * list Z) :=
  let bitlen := total_len c *u 8 in
  c ← sha256_update c [0x80];
  c ← pad_loop 64 c;
  c ← sha256_update c (be_bytes 8 bitlen);
  Some (c, concat (map (be_bytes 4) (h c))).

(** A context on the stack, with whatever its buffer held. *)
Definition fresh_ctx (junk : list Z) : ctx := MkCtx [] 0 junk 0.

Definition sha256 (junk data : list Z) : option (list Z) :=
  c ← sha256_update (sha256_init (fresh_ctx junk)) data;
  '(_, out) ← sha256_final c;
  Some out.

(** [key[i]] where there is one, else [0], xored with the pad byte. *)
Definition key_pad (key : list Z) (x : Z) : list Z :=
  map (λ i : nat, Z.lxor (if (i <? length key)%nat then at_ key i else 0) x) (seq 0 64).

Definition hmac_sha256 (junk key msg : list Z) : option (list Z) :=
  key ← (if (64 <? length key)%nat then sha256 junk key else Some key);
  let ipad := key_pad key 0x36 in
  let opad := key_pad key 0x5c in
  c ← sha256_update (sha256_init (fresh_ctx junk)) ipad;
  c ← sha256_update c msg;
  '(c, inner) ← sha256_final c;
  c ← sha256_update (sha256_init c) opad;
  c ← sha256_update c inner;
  '(_, out) ← sha256_final c;
  Some out.

End Sha256.
Import Sha256.

(** * The whole message at once *)

(** Fold the compression function over [k] blocks. *)
Fixpoint blocks (k : nat) (st l : list Z) : list Z :=
  match k with
  | O => st
  | S k => blocks k (sha256_compress st (take 64 l)) (drop 64 l)
  end.

(** [0x80], zeros up to 56 modulo 64, and the length in bits. *)
Definition padding (n : nat) : list Z :=
  0x80 :: replicate (Z.to_nat ((55 - Z.of_nat n) `mod` 64)) 0 ++ be_bytes 8 (8 * n).

Definition sha256_spec (m : list Z) : list Z :=
  let p := m ++ padding (length m) in
  concat (map (be_bytes 4) (blocks (length p / 64) H0 p)).

(** HMAC on top of it, with the key brought to one block. *)
Definition hmac_spec (key msg : list Z) : list Z :=
  let k0 := if (64 <? length key)%nat then sha256_spec key else key in
  let kb := k0 ++ replicate (64 - length k0) 0 in
  sha256_spec (map (λ b, Z.lxor b 0x5c) kb ++ sha256_spec (map (λ b, Z.lxor b 0x36) kb ++ msg)).

Lemma blocks_app k st l1 l2 j :
  length l1 = (64 * k)%nat → blocks (k + j) st (l1 ++ l2) = blocks j (blocks k st l1) l2.
Proof.
  revert st l1. induction k as [|k IH]; intros st l1 Hl.
  - by destruct l1.
  - cbn [Nat.add blocks]. rewrite take_app_le, drop_app_le by lia. apply IH. rewrite length_drop. lia.
Qed.

(** The context after absorbing [m]. *)
Record absorbed (c : ctx) (m : list Z) : Prop := {
  ab_buf : length (buf c) = 64%nat;
  ab_len : (buflen c < 64)%nat;
  ab_total : total_len c = u64 (length m);
  ab_split : ∃ l q, m = l ++ take (buflen c) (buf c) ∧ length l = (64 * q)%nat ∧ h c = blocks q H0 l
}.

Lemma init_absorbed c : length (buf c) = 64%nat → absorbed (sha256_init c) [].
Proof. intros H. split; simpl; [done|lia|done|]. by exists [], 0%nat. Qed.

(** One turn: the loop's invariant with the total length taken out. *)
Lemma update_loop_absorbed fuel c data l q r :
  (length data ≤ fuel)%nat → length (buf c) = 64%nat → (buflen c < 64)%nat →
  r = take (buflen c) (buf c) → length l = (64 * q)%nat → h c = blocks q H0 l →
  ∃ c', update_loop fuel c data = Some c' ∧ length (buf c') = 64%nat ∧ (buflen c' < 64)%nat ∧
    total_len c' = total_len c ∧
    ∃ l' q', l ++ r ++ data = l' ++ take (buflen c') (buf c') ∧ length l' = (64 * q')%nat ∧
      h c' = blocks q' H0 l'.
Proof.
  revert c data l q r. induction fuel as [|fuel IH]; intros c data l q r Hf Hb Hn Hr Hl Hh.
  { destruct data; [|simpl in Hf; lia]. exists c. rewrite app_nil_r. subst r. eauto 10. }
  destruct data as [|d data]; [exists c; rewrite app_nil_r; subst r; eauto 10|].
  cbn [update_loop]. set (D := d :: data) in *.
  set (tk := Nat.min (64 - buflen c) (length D)).
  assert (1 ≤ tk ≤ length D ∧ buflen c + tk ≤ 64)%nat as [Ht1 Ht2] by (unfold tk, D; simpl; lia).
  set (b := take (buflen c) (buf c) ++ take tk D ++ drop (buflen c + tk) (buf c)).
  assert (length b = 64%nat) as Hlb
    by (unfold b; rewrite !length_app, !length_take, length_drop; lia).
  assert (take (buflen c + tk) b = r ++ take tk D) as Hpre.
  { unfold b. rewrite <- Hr, app_assoc, take_app_length'; [done|].
    rewrite length_app, Hr, !length_take. lia. }
  assert (l ++ r ++ D = l ++ (r ++ take tk D) ++ drop tk D) as E by (by rewrite <- app_assoc, take_drop).
  rewrite E. destruct (Nat.eqb_spec (buflen c + tk) 64) as [E64|E64].
  - assert (r ++ take tk D = b) as Eb by (rewrite <- Hpre, E64, take_ge; [done|lia]).
    destruct (IH (MkCtx (sha256_compress (h c) b) (total_len c) b 0) (drop tk D) (l ++ b) (q + 1)%nat [])
      as (c' & -> & ? & ? & ? & Hres); simpl.
    + rewrite length_drop. unfold D in *. simpl in *. lia.
    + done.
    + lia.
    + done.
    + rewrite length_app. lia.
    + rewrite blocks_app by done. cbn [blocks]. by rewrite Hh, take_ge by lia.
    + exists c'. rewrite Eb, app_assoc. simpl in Hres. eauto 10.
  - destruct (IH (MkCtx (h c) (total_len c) b (buflen c + tk)) (drop tk D) l q (r ++ take tk D))
      as (c' & -> & ? & ? & ? & Hres); simpl; try done.
    + rewrite length_drop. unfold D in *. simpl in *. lia.
    + lia.
    + exists c'. eauto 10.
Qed.

Lemma update_absorbed c m data :
  absorbed c m → ∃ c', sha256_update c data = Some c' ∧ absorbed c' (m ++ data).
Proof.
  intros [H1 H2 H3 (l & q & H4 & H5 & H6)]. unfold sha256_update.
  destruct (update_loop_absorbed (length data) (MkCtx (h c) (total_len c +u length data) (buf c) (buflen c))
              data l q (take (buflen c) (buf c))) as (c' & -> & A & B & C & l' & q' & D & E & F); try done.
  exists c'. split; [done|]. split; [done|done| |].
  - rewrite C. simpl. rewrite H3, length_app, Nat2Z.inj_add. unfold u64. by rewrite Zplus_mod_idemp_l.
  - exists l', q'. rewrite H4, <- app_assoc. done.
Qed.

Lemma absorbed_buflen c m : absorbed c m → buflen c = (length m mod 64)%nat.
Proof.
  intros [H1 H2 _ (l & q & -> & H5 & _)]. rewrite length_app, H5, length_take, Nat.min_l by lia.
  rewrite Nat.mul_comm, Nat.add_comm, Nat.Div0.mod_add. symmetry. by apply Nat.mod_small.
Qed.

(** * Padding *)

Lemma pad_loop_absorbed fuel z c m :
  absorbed c m → (z ≤ fuel)%nat → (z < 64)%nat → ((length m + z) mod 64 = 56)%nat →
  ∃ c', pad_loop fuel c = Some c' ∧ absorbed c' (m ++ replicate z 0).
Proof.
  revert z c m. induction fuel as [|fuel IH]; intros z c m Hab Hz Hlt Hmod;
    pose proof (absorbed_buflen c m Hab) as Hb.
  - assert (z = 0)%nat as -> by lia. rewrite Nat.add_0_r in Hmod. cbn [pad_loop].
    rewrite Hb, Hmod. exists c. by rewrite app_nil_r.
  - destruct z as [|z].
    { rewrite Nat.add_0_r in Hmod. cbn [pad_loop]. rewrite Hb, Hmod. exists c. by rewrite app_nil_r. }
    cbn [pad_loop]. destruct (Nat.eqb_spec (buflen c) 56) as [E|_].
    { exfalso. rewrite Hb in E. revert Hmod. rewrite (Nat.div_mod (length m) 64), E by lia.
      replace (64 * (length m / 64) + 56 + S z)%nat with (56 + S z + length m / 64 * 64)%nat by lia.
      rewrite Nat.Div0.mod_add. destruct (decide (56 + S z < 64)%nat).
      - rewrite Nat.mod_small; lia.
      - replace (56 + S z)%nat with (S z - 8 + 1 * 64)%nat by lia.
        rewrite Nat.Div0.mod_add, Nat.mod_small; lia. }
    destruct (update_absorbed c m [0] Hab) as (c1 & -> & H1). cbn [mbind option_bind].
    destruct (IH z c1 (m ++ [0]) H1) as (c2 & -> & H2); [lia..| |].
    { rewrite length_app. simpl. by replace (length m + 1 + z)%nat with (length m + S z)%nat by lia. }
    exists c2. split; [done|]. rewrite <- app_assoc in H2. exact H2.
Qed.

Lemma be_bytes_wrap x : be_bytes 8 (u64 x) = be_bytes 8 x.
Proof.
  unfold be_bytes. apply map_ext_in. intros i Hi%in_seq. unfold u8, u64.
  rewrite <- !Z.land_ones by lia. apply Z.bits_inj'. intros j Hj.
  rewrite !Z.land_spec, !Z.shiftr_spec, Z.land_spec by lia.
  destruct (decide (j < 8)).
  - rewrite (Z.ones_spec_low 64) by lia. by rewrite andb_true_r.
  - rewrite (Z.ones_spec_high 8) by lia. by rewrite !andb_false_r.
Qed.

Lemma padded_length n : ∃ q, (n + length (padding n) = 64 * q)%nat.
Proof.
  unfold padding. cbn [length]. rewrite length_app, length_replicate. unfold be_bytes.
  rewrite length_map, length_seq. pose proof (Z.div_mod (55 - n) 64).
  pose proof (Z.mod_pos_bound (55 - n) 64).
  exists (Z.to_nat (1 - (55 - n) `div` 64)). lia.
Qed.

(** How many zeros the padding loop adds. *)
Definition zeros (n : nat) : nat := Z.to_nat ((55 - Z.of_nat n) `mod` 64).

Lemma zeros_spec n : (zeros n < 64)%nat ∧ ((n + 1 + zeros n) mod 64 = 56)%nat.
Proof.
  unfold zeros. pose proof (Z.mod_pos_bound (55 - n) 64 ltac:(lia)). split; [lia|].
  apply Nat2Z.inj. rewrite Nat2Z.inj_mod. pose proof (Z.div_mod (55 - n) 64 ltac:(lia)) as Hd.
  replace (Z.of_nat (n + 1 + Z.to_nat ((55 - n) `mod` 64)))
    with (56 + (- ((55 - n) / 64)) * 64) by lia.
  by rewrite Z.mod_add by lia.
Qed.

Lemma padding_app m :
  ((m ++ [0x80]) ++ replicate (zeros (length m)) 0) ++ be_bytes 8 (8 * length m)
  = m ++ padding (length m).
Proof. unfold padding. fold (zeros (length m)). by rewrite <- !app_assoc. Qed.

(** After whole blocks only, the state is the fold over all of them. *)
Lemma absorbed_blocks c p q :
  absorbed c p → length p = (64 * q)%nat → h c = blocks (length p / 64) H0 p.
Proof.
  intros Hab Hq. pose proof (absorbed_buflen c p Hab) as Hb.
  rewrite Hq, Nat.mul_comm, Nat.Div0.mod_mul in Hb.
  destruct (ab_split _ _ Hab) as (l & q' & El & Hl & Hh). rewrite Hb, take_0, app_nil_r in El. subst l.
  rewrite Hh. f_equal. rewrite Hl, Nat.mul_comm, Nat.div_mul; lia.
Qed.

Lemma bitlen_bytes c m : absorbed c m → be_bytes 8 (total_len c *u 8) = be_bytes 8 (8 * length m).
Proof.
  intros Hab. rewrite (ab_total _ _ Hab), <- (be_bytes_wrap (8 * length m)). f_equal. unfold u64.
  rewrite Zmult_mod_idemp_l. f_equal. lia.
Qed.

Lemma bind_some {A B} (o : option A) x (f : A → option B) r :
  o = Some x → f x = r → o ≫= f = r.
Proof. by intros -> <-. Qed.

Lemma final_absorbed c m :
  absorbed c m → ∃ c', sha256_final c = Some (c', sha256_spec m) ∧ length (buf c') = 64%nat.
Proof.
  intros Hab. destruct (update_absorbed c m [0x80] Hab) as (c1 & E1 & H1).
  destruct (zeros_spec (length m)) as [Hz1 Hz2].
  destruct (pad_loop_absorbed 64 (zeros (length m)) c1 (m ++ [0x80]) H1) as (c2 & E2 & H2);
    [lia|done|by rewrite length_app|].
  destruct (update_absorbed c2 _ (be_bytes 8 (8 * length m)) H2) as (c3 & E3 & H3).
  exists c3. split; [|apply (ab_buf _ _ H3)].
  rewrite padding_app in H3. destruct (padded_length (length m)) as [q Hq].
  assert (h c3 = blocks (length (m ++ padding (length m)) / 64) H0 (m ++ padding (length m))) as Hh
    by (apply (absorbed_blocks c3 _ q H3); by rewrite length_app).
  unfold sha256_final. rewrite (bitlen_bytes c m Hab).
  apply (bind_some _ c1 _ _ E1), (bind_some _ c2 _ _ E2), (bind_some _ c3 _ _ E3).
  rewrite Hh. reflexivity.
Qed.

Lemma sha256_ok junk m : length junk = 64%nat → sha256 junk m = Some (sha256_spec m).
Proof.
  intros Hj. unfold sha256.
  destruct (update_absorbed _ [] m (init_absorbed (fresh_ctx junk) Hj)) as (c & -> & Hc).
  cbn [mbind option_bind]. destruct (final_absorbed c _ Hc) as (c' & -> & _). done.
Qed.

(** Absorb several pieces one after the other. *)
Fixpoint update_all (c : ctx) (ds : list (list Z)) : option ctx :=
  match ds with
  | [] => Some c
  | d :: ds => c ← sha256_update c d; update_all c ds
  end.

Lemma update_all_absorbed ds c m :
  absorbed c m → ∃ c', update_all c ds = Some c' ∧ absorbed c' (m ++ concat ds).
Proof.
  revert c m. induction ds as [|d ds IH]; intros c m Hc; cbn [update_all concat].
  { exists c. by rewrite app_nil_r. }
  destruct (update_absorbed c m d Hc) as (c1 & -> & H1). cbn [mbind option_bind].
  rewrite app_assoc. by apply IH.
Qed.

Definition abc : list Z := [0x61; 0x62; 0x63].
Definition abc_digest : list Z :=
  [0xba; 0x78; 0x16; 0xbf; 0x8f; 0x01; 0xcf; 0xea; 0x41; 0x41; 0x40; 0xde; 0x5d; 0xae; 0x22; 0x23;
   0xb0; 0x03; 0x61; 0xa3; 0x96; 0x17; 0x7a; 0x9c; 0xb4; 0x10; 0xff; 0x61; 0xf2; 0x00; 0x15; 0xad].

(** * HMAC *)

Lemma key_pad_spec key x :
  (length key ≤ 64)%nat → key_pad key x = map (λ b, Z.lxor b x) (key ++ replicate (64 - length key) 0).
Proof.
  intros Hk. apply list_eq. intros i. unfold key_pad.
  change (map (λ b, Z.lxor b x)) with (fmap (M := list) (λ b, Z.lxor b x)).
  change (@map nat Z) with (@fmap list _ nat Z). rewrite !list_lookup_fmap.
  destruct (decide (i < 64)%nat) as [Hi|Hi].
  - rewrite lookup_seq_lt by done. simpl. destruct (Nat.ltb_spec i (length key)).
    + rewrite lookup_app_l by done. destruct (lookup_lt_is_Some_2 key i) as [y Hy]; [done|].
      unfold at_. by rewrite Hy.
    + rewrite lookup_app_r, lookup_replicate_2 by lia. done.
  - rewrite lookup_seq_ge by lia. rewrite lookup_ge_None_2; [done|].
    rewrite length_app, length_replicate. lia.
Qed.

Lemma be_bytes_length k x : length (be_bytes k x) = k.
Proof. unfold be_bytes. by rewrite length_map, length_seq. Qed.

Lemma compress_length st b : length (sha256_compress st b) = 8%nat.
Proof. reflexivity. Qed.

Lemma blocks_length k st l : length st = 8%nat → length (blocks k st l) = 8%nat.
Proof.
  revert st l. induction k as [|k IH]; intros st l H; [done|]. cbn [blocks]. apply IH, compress_length.
Qed.

Lemma digest_length m : length (sha256_spec m) = SHA256_DIGEST_SIZE.
Proof.
  unfold sha256_spec. set (p := m ++ _).
  assert (∀ l, length (concat (map (be_bytes 4) l)) = (4 * length l)%nat) as Hc.
  { induction l as [|x l IH]; [done|]. cbn [map concat length]. rewrite length_app, be_bytes_length, IH. lia. }
  rewrite Hc, blocks_length by reflexivity. reflexivity.
Qed.

Lemma digest_bytes m : Forall (λ x, 0 ≤ x < 2 ^ 8) (sha256_spec m).
Proof.
  unfold sha256_spec. generalize (blocks (length (m ++ padding (length m)) / 64) H0 (m ++ padding (length m))).
  intros l. apply Forall_concat, Forall_map, Forall_forall. intros x _. apply Forall_map, Forall_forall.
  intros i _. apply u8_range.
Qed.

Lemma hmac_ok junk key msg :
  length junk = 64%nat → hmac_sha256 junk key msg = Some (hmac_spec key msg).
Proof.
  intros Hj. unfold hmac_sha256, hmac_spec.
  set (k0 := if (64 <? length key)%nat then sha256_spec key else key).
  assert ((if (64 <? length key)%nat then sha256 junk key else Some key) = Some k0) as E0
    by (unfold k0; destruct (64 <? length key)%nat; [by apply sha256_ok|done]).
  assert (length k0 ≤ 64)%nat as Hk0.
  { unfold k0. destruct (Nat.ltb_spec 64 (length key)); [|done]. rewrite digest_length. vm_compute. lia. }
  apply (bind_some _ k0 _ _ E0). cbn zeta. rewrite !(key_pad_spec k0) by done.
  set (kb := k0 ++ replicate (64 - length k0) 0).
  set (ipad := map (λ b, Z.lxor b 0x36) kb). set (opad := map (λ b, Z.lxor b 0x5c) kb).
  destruct (update_absorbed _ [] ipad (init_absorbed (fresh_ctx junk) Hj)) as (c1 & E1 & H1).
  destruct (update_absorbed c1 _ msg H1) as (c2 & E2 & H2).
  destruct (final_absorbed c2 _ H2) as (c3 & E3 & H3).
  destruct (update_absorbed _ [] opad (init_absorbed c3 H3)) as (c4 & E4 & H4).
  destruct (update_absorbed c4 _ (sha256_spec (ipad ++ msg)) H4) as (c5 & E5 & H5).
  destruct (final_absorbed c5 _ H5) as (c6 & E6 & _).
  apply (bind_some _ c1 _ _ E1), (bind_some _ c2 _ _ E2), (bind_some _ _ _ _ E3),
    (bind_some _ c4 _ _ E4), (bind_some _ c5 _ _ E5), (bind_some _ _ _ _ E6). reflexivity.
Qed.

(** Test case 2 of RFC 4231: key "Jefe", data "what do ya want for nothing?". *)
Definition jefe : list Z := [0x4a; 0x65; 0x66; 0x65].
Definition want : list Z :=
  [0x77; 0x68; 0x61; 0x74; 0x20; 0x64; 0x6f; 0x20; 0x79; 0x61; 0x20; 0x77; 0x61; 0x6e; 0x74; 0x20;
   0x66; 0x6f; 0x72; 0x20; 0x6e; 0x6f; 0x74; 0x68; 0x69; 0x6e; 0x67; 0x3f].

Lemma hmac_jefe :
  hmac_sha256 (replicate 64 0xee) jefe want = Some
    [0x5b; 0xdc; 0xc1; 0x46; 0xbf; 0x60; 0x75; 0x4e; 0x6a; 0x04; 0x24; 0x26; 0x08; 0x95; 0x75; 0xc7;
     0x5a; 0x00; 0x3f; 0x08; 0x9d; 0x27; 0x39; 0x83; 0x9d; 0xec; 0x58; 0xb9; 0x64; 0xec; 0x38; 0x43].
Proof.
  rewrite (hmac_ok (replicate 64 0xee) jefe want) by reflexivity. vm_compute. reflexivity.
Qed.
