(* ===== verification/Sha256Std.v ===== *)
(** SHA-256 and HMAC as the standards state them, on bit strings, and the proof that
    [crypto/sha256.c] computes them.

    Module [Fips] owes nothing to the code: the message is a list of bits, the constants
    are computed from the roots of the primes, and the word functions are given bit by
    bit. *)
From S2P Require Import Prelude Sha256.

Module Fips.

(** * Constants *)

Definition prime (n : Z) : bool :=
  (1 <? n) && forallb (λ d : nat, negb (n `mod` d =? 0)) (seq 2 (Z.to_nat (Z.sqrt n) - 1)).
(** The first [k] primes. *)
Definition primes (k : nat) : list Z := take k (List.filter prime (map Z.of_nat (seq 0 512))).

(** The largest [r] below [a + 2 ^ k] with [r ^ 3 <= n], one bit at a time. *)
Fixpoint cube_root (k : nat) (n a : Z) : Z :=
  match k with
  | O => a
  | S k => let b := a + 2 ^ k in cube_root k n (if b * b * b <=? n then b else a)
  end.

(** The first 32 bits of the fractional parts of the square and the cube root. *)
Definition sqrt_frac (p : Z) : Z := Z.sqrt (p * 2 ^ 64) `mod` 2 ^ 32.
Definition cbrt_frac (p : Z) : Z := cube_root 40 (p * 2 ^ 96) 0 `mod` 2 ^ 32.

Definition K : list Z := map cbrt_frac (primes 64).
Definition IV : list Z := map sqrt_frac (primes 8).

(** * Words *)

(** The number whose bits below [n] are given by [f]. *)
Fixpoint number (n : nat) (f : Z → bool) : Z :=
  match n with
  | O => 0
  | S n => number n f + (if f n then 2 ^ n else 0)
  end.
Definition word (f : Z → bool) : Z := number 32 f.

Definition add (l : list Z) : Z := sumZ l `mod` 2 ^ 32.
Definition ROTR (n x : Z) : Z := word (λ i, Z.testbit x ((i + n) `mod` 32)).
Definition SHR (n x : Z) : Z := x `div` 2 ^ n.
Definition Xor3 (x y z : Z) : Z := word (λ i, xorb (Z.testbit x i) (xorb (Z.testbit y i) (Z.testbit z i))).
Definition Ch (x y z : Z) : Z := word (λ i, if Z.testbit x i then Z.testbit y i else Z.testbit z i).
(** At least two of the three. *)
Definition Maj (x y z : Z) : Z :=
  word (λ i, 2 <=? Z.b2z (Z.testbit x i) + Z.b2z (Z.testbit y i) + Z.b2z (Z.testbit z i)).
Definition Sigma0 (x : Z) : Z := Xor3 (ROTR 2 x) (ROTR 13 x) (ROTR 22 x).
Definition Sigma1 (x : Z) : Z := Xor3 (ROTR 6 x) (ROTR 11 x) (ROTR 25 x).
Definition sigma0 (x : Z) : Z := Xor3 (ROTR 7 x) (ROTR 18 x) (SHR 3 x).
Definition sigma1 (x : Z) : Z := Xor3 (ROTR 17 x) (ROTR 19 x) (SHR 10 x).

(** * Bit strings, the most significant bit first *)

Fixpoint bits (n : nat) (x : Z) : list bool :=
  match n with
  | O => []
  | S n => Z.testbit x n :: bits n x
  end.
Definition value (l : list bool) : Z := foldl (λ a b, 2 * a + Z.b2z b) 0 l.
(** The bits of a string of bytes. *)
Definition octets (l : list Z) : list bool := concat (map (bits 8) l).

(** The first [k] pieces of [n] bits. *)
Fixpoint cut (n k : nat) (l : list bool) : list (list bool) :=
  match k with
  | O => []
  | S k => take n l :: cut n k (drop n l)
  end.

(** * The hash *)

(** One bit, zeros up to 448 modulo 512, and the length. *)
Definition pad (m : list bool) : list bool :=
  m ++ true :: replicate (Z.to_nat ((447 - Z.of_nat (length m)) `mod` 512)) false ++ bits 64 (length m).

(** The schedule, the latest word first. *)
Fixpoint schedule (k : nat) (ws : list Z) : list Z :=
  match k with
  | O => ws
  | S k => schedule k (add [sigma1 (nth 1 ws 0); nth 6 ws 0; sigma0 (nth 14 ws 0); nth 15 ws 0] :: ws)
  end.

Inductive state := St (a b c d e f g h : Z).
Definition step (s : state) (kw : Z * Z) : state :=
  match s with
  | St a b c d e f g h =>
      let T1 := add [h; Sigma1 e; Ch e f g; kw.1; kw.2] in
      let T2 := add [Sigma0 a; Maj a b c] in
      St (add [T1; T2]) a b c (add [d; T1]) e f g
  end.
Definition words (s : state) : list Z := match s with St a b c d e f g h => [a; b; c; d; e; f; g; h] end.
Definition plus (s t : state) : state :=
  match s, t with
  | St a b c d e f g h, St a' b' c' d' e' f' g' h' =>
      St (add [a; a']) (add [b; b']) (add [c; c']) (add [d; d']) (add [e; e']) (add [f; f']) (add [g; g']) (add [h; h'])
  end.

Definition compress (s : state) (block : list bool) : state :=
  let W := rev (schedule 48 (rev (map value (cut 32 16 block)))) in
  plus s (foldl step s (combine K W)).

Definition start : state :=
  St (nth 0 IV 0) (nth 1 IV 0) (nth 2 IV 0) (nth 3 IV 0) (nth 4 IV 0) (nth 5 IV 0) (nth 6 IV 0) (nth 7 IV 0).

Definition hash (m : list bool) : list bool :=
  let p := pad m in
  concat (map (bits 32) (words (foldl compress start (cut 512 (length p / 512) p)))).

(** * HMAC *)

(** A byte 64 times. *)
Definition block_of (x : Z) : list bool := octets (replicate 64 x).
Definition hmac (key msg : list bool) : list bool :=
  let k := if (512 <? length key)%nat then hash key else key in
  let k0 := k ++ replicate (512 - length k) false in
  hash (zip_with xorb k0 (block_of 0x5c) ++ hash (zip_with xorb k0 (block_of 0x36) ++ msg)).

End Fips.
Import Sha256 Fips.

(** * The constants of the code are the roots *)

Lemma K_roots : Sha256.K = Fips.K.
Proof. vm_compute. reflexivity. Qed.
Lemma H0_roots : Sha256.H0 = Fips.words Fips.start.
Proof. vm_compute. reflexivity. Qed.

(** * Words by their bits *)

Lemma testbit_above x k j : 0 ≤ x < 2 ^ k → 0 ≤ k ≤ j → Z.testbit x j = false.
Proof. intros Hx Hk. rewrite <- (Z.mod_small x (2 ^ k)) by lia. apply Z.mod_pow2_bits_high. lia. Qed.
Lemma number_range n f : 0 ≤ number n f < 2 ^ n.
Proof.
  induction n as [|n IH]; cbn [number]; [lia|].
  replace (2 ^ Z.of_nat (S n)) with (2 * 2 ^ Z.of_nat n) by (rewrite Nat2Z.inj_succ, Z.pow_succ_r by lia; lia).
  destruct (f n); lia.
Qed.
Lemma number_testbit n f j : 0 ≤ j → Z.testbit (number n f) j = (j <? n) && f j.
Proof.
  intros Hj. induction n as [|n IH]; cbn [number].
  { rewrite Z.bits_0. by destruct (Z.ltb_spec j 0%nat); [lia|]. }
  pose proof (number_range n f) as Hr.
  assert (number n f + (if f n then 2 ^ n else 0) = Z.lor (Z.shiftl (Z.b2z (f n)) n) (number n f)) as ->.
  { rewrite lor_low by lia. destruct (f n); cbn [Z.b2z]; lia. }
  rewrite Z.lor_spec, Z.shiftl_spec, IH by lia.
  destruct (Z.ltb_spec j n); destruct (Z.ltb_spec j (S n)); try lia; cbn [andb].
  - rewrite (Z.testbit_neg_r _ (j - n)) by lia. done.
  - assert (j = n) as -> by lia. rewrite Z.sub_diag. destruct (f n); reflexivity.
  - rewrite (testbit_above _ 1) by (destruct (f n); cbn [Z.b2z]; lia). done.
Qed.
Lemma word_testbit f j : 0 ≤ j → Z.testbit (word f) j = (j <? 32) && f j.
Proof. apply (number_testbit 32). Qed.
Lemma word_u32 f : is_u32 (word f).
Proof. apply (number_range 32). Qed.

(** Two words are equal when their 32 bits are. *)
Lemma word_eq x f : is_u32 x → (∀ j, 0 ≤ j < 32 → Z.testbit x j = f j) → x = word f.
Proof.
  intros Hx Hf. apply Z.bits_inj'. intros j Hj. rewrite word_testbit by done.
  destruct (Z.ltb_spec j 32); [by apply Hf|]. by apply (testbit_above x 32).
Qed.
Lemma range_bits x : 0 ≤ x → (∀ j, 32 ≤ j → Z.testbit x j = false) → is_u32 x.
Proof.
  intros Hx Hb. split; [done|].
  destruct (Z.eq_dec x 0) as [->|]; [lia|]. apply Z.log2_lt_pow2; [lia|].
  destruct (Z.lt_ge_cases (Z.log2 x) 32) as [|Hl]; [done|].
  specialize (Hb _ Hl). by rewrite Z.bit_log2 in Hb by lia.
Qed.

Lemma ROTR_ok x n : is_u32 x → 0 < n < 32 → ROTR32 x n = ROTR n x.
Proof.
  intros Hx Hn. unfold ROTR32, ROTR, u32. 
  assert (∀ j, 0 ≤ j → Z.testbit (Z.lor (Z.shiftr x n) (Z.shiftl x (32 - n) `mod` 2 ^ 32)) j =
    (Z.testbit x (j + n) || (j <? 32) && Z.testbit x (j - (32 - n)))) as B.
  { intros j Hj. rewrite Z.lor_spec, Z.shiftr_spec by lia. f_equal.
    destruct (Z.ltb_spec j 32); [rewrite Z.mod_pow2_bits_low, Z.shiftl_spec by lia; done|].
    by rewrite Z.mod_pow2_bits_high by lia. }
  apply word_eq.
  - apply range_bits.
    { apply Z.lor_nonneg. split; [by apply Z.shiftr_nonneg, Hx|]. apply Z.mod_pos_bound. lia. }
    intros j Hj. rewrite B by lia. rewrite (testbit_above x 32) by (try apply Hx; lia).
    by destruct (Z.ltb_spec j 32); [lia|].
  - intros j Hj. rewrite B by lia. destruct (Z.ltb_spec j 32); [cbn [andb]|lia].
    destruct (Z.lt_ge_cases (j + n) 32).
    + rewrite Z.mod_small, (Z.testbit_neg_r _ (j - _)) by lia. by rewrite orb_false_r.
    + rewrite (testbit_above x 32 (j + n)) by (try apply Hx; lia). cbn [orb].
      f_equal. rewrite <- (Z.mod_small (j - (32 - n)) 32) by lia.
      replace (j + n) with (j - (32 - n) + 1 * 32) by lia. by rewrite Z.mod_add by lia.
Qed.
Lemma SHR_ok x n : 0 ≤ n → Z.shiftr x n = SHR n x.
Proof. intros. by apply Z.shiftr_div_pow2. Qed.

(** A word of nonnegative parts is given by its bits. *)
Lemma lxor_range x y : is_u32 x → is_u32 y → is_u32 (Z.lxor x y).
Proof.
  intros Hx Hy. apply range_bits; [apply Z.lxor_nonneg; lia|].
  intros j Hj. by rewrite Z.lxor_spec, !(testbit_above _ 32) by (done || lia).
Qed.
Lemma Xor3_ok x y z : is_u32 x → is_u32 y → is_u32 z → Z.lxor (Z.lxor x y) z = Xor3 x y z.
Proof.
  intros. apply word_eq; [by repeat apply lxor_range|]. intros j Hj.
  rewrite !Z.lxor_spec. by destruct (Z.testbit x j), (Z.testbit y j), (Z.testbit z j).
Qed.
Lemma land_u32 x y : is_u32 x → 0 ≤ y → is_u32 (Z.land x y).
Proof.
  intros Hx Hy. apply range_bits; [apply Z.land_nonneg; by right|].
  intros j Hj. rewrite Z.land_spec, (testbit_above x 32) by (done || lia). done.
Qed.
Lemma Ch_ok x y z : is_u32 x → is_u32 y → is_u32 z → CH x y z = Ch x y z.
Proof.
  intros Hx Hy Hz. unfold CH. apply word_eq.
  { apply lxor_range; apply land_u32; try done; [apply Hy|apply u32_range|apply Hz]. }
  intros j Hj. rewrite Z.lxor_spec, !Z.land_spec. unfold u32.
  rewrite Z.mod_pow2_bits_low, Z.lnot_spec by lia. by destruct (Z.testbit x j), (Z.testbit y j), (Z.testbit z j).
Qed.
Lemma Maj_ok x y z : is_u32 x → is_u32 y → is_u32 z → MAJ x y z = Maj x y z.
Proof.
  intros Hx Hy Hz. unfold MAJ. apply word_eq.
  { repeat apply lxor_range; apply land_u32; try done; [apply Hy|apply Hz|apply Hz]. }
  intros j Hj. rewrite !Z.lxor_spec, !Z.land_spec. by destruct (Z.testbit x j), (Z.testbit y j), (Z.testbit z j).
Qed.
Lemma SHR_range x n : is_u32 x → 0 ≤ n → is_u32 (SHR n x).
Proof.
  intros Hx Hn. unfold SHR. split; [apply Z.div_pos; lia|].
  assert (0 < 2 ^ n) by lia. apply Z.div_lt_upper_bound; nia.
Qed.
Ltac sigma := intros Hx; rewrite ?ROTR_ok, ?SHR_ok by lia; apply Xor3_ok; (apply word_u32 || (apply SHR_range; lia)).
Lemma BSIG0_ok x : is_u32 x → BSIG0 x = Sigma0 x.
Proof. unfold BSIG0. sigma. Qed.
Lemma BSIG1_ok x : is_u32 x → BSIG1 x = Sigma1 x.
Proof. unfold BSIG1. sigma. Qed.
Lemma SSIG0_ok x : is_u32 x → SSIG0 x = sigma0 x.
Proof. unfold SSIG0. sigma. Qed.
Lemma SSIG1_ok x : is_u32 x → SSIG1 x = sigma1 x.
Proof. unfold SSIG1. sigma. Qed.

(** * One block *)

Lemma at_nth l i : at_ l i = nth i l 0.
Proof. unfold at_. by rewrite nth_lookup. Qed.
Lemma nth_u32 l i : Forall (λ x, is_u32 x) l → is_u32 (nth i l 0).
Proof.
  intros Hl. destruct (nth_in_or_default i l 0) as [Hi| ->]; [|lia].
  rewrite Forall_forall in Hl. by apply Hl, list_elem_of_In.
Qed.
Lemma add_range l : is_u32 (add l).
Proof. apply u32_range. Qed.

Lemma extend_ok k : ∀ w, Forall (λ x, is_u32 x) w → (16 ≤ length w)%nat → extend k w = rev (schedule k (rev w)).
Proof.
  induction k as [|k IH]; intros w Hw Hl; cbn [extend schedule]; [by rewrite rev_involutive|].
  assert (∀ j, (j < 16)%nat → nth j (rev w) 0 = nth (length w - S j) w 0) as R by (intros; apply rev_nth; lia).
  rewrite !R, !at_nth, SSIG0_ok, SSIG1_ok by (lia || by apply nth_u32).
  rewrite IH; [|apply Forall_app; split; [done|]; constructor; [apply u32_range|done]|rewrite length_app; cbn; lia].
  rewrite rev_app_distr. cbn [rev app]. do 3 f_equal. unfold add, sumZ, u32. cbn [foldr]. f_equal. lia.
Qed.
Lemma schedule_length k : ∀ ws, length (schedule k ws) = (k + length ws)%nat.
Proof. induction k as [|k IH]; intros ws; cbn [schedule]; [done|]. rewrite IH. cbn [length]. lia. Qed.

Definition st_of (r : regs) : state := St (ra r) (rb r) (rc r) (rd r) (re r) (rf r) (rg r) (rh r).
Definition st_ok (s : state) : Prop := Forall (λ x, is_u32 x) (words s).

Lemma step_ok s kw : st_ok s → st_ok (step s kw).
Proof.
  destruct s as [a b c d e f g h]. unfold st_ok. cbn [step words]. intros Hs. rewrite !Forall_cons in Hs.
  destruct Hs as (? & ? & ? & ? & ? & ? & ? & ? & _).
  repeat (apply Forall_cons_2; [assumption || apply add_range|]). apply Forall_nil_2.
Qed.
Lemma round_ok w r i : st_ok (st_of r) → st_of (round w r i) = step (st_of r) (at_ Sha256.K i, at_ w i).
Proof.
  destruct r as [a b c d e f g h]. unfold st_ok, st_of, round. cbn [step words ra rb rc rd re rf rg rh fst snd].
  rewrite !Forall_cons. intros (? & ? & ? & ? & ? & ? & ? & ? & _).
  rewrite BSIG0_ok, BSIG1_ok, Ch_ok, Maj_ok by done. unfold add, sumZ, u32. cbn [foldr].
  f_equal; rewrite ?Z.add_0_r, ?Z.add_assoc; done.
Qed.
Lemma rounds_ok w l : ∀ r, st_ok (st_of r) →
  st_of (foldl (round w) r l) = foldl step (st_of r) (map (λ i, (at_ Sha256.K i, at_ w i)) l).
Proof.
  induction l as [|i l IH]; intros r Hr; cbn [foldl map]; [done|].
  rewrite IH; [by rewrite round_ok|]. rewrite round_ok by done. by apply step_ok.
Qed.

(** All indices of two lists, side by side. *)
Lemma combine_indices (l1 l2 : list Z) n :
  length l1 = n → length l2 = n → map (λ i, (at_ l1 i, at_ l2 i)) (seq 0 n) = combine l1 l2.
Proof.
  intros H1 H2. apply (nth_ext _ _ (0, 0) (0, 0)); [by rewrite length_map, length_seq, length_combine, H1, H2, Nat.min_id|].
  intros j Hj. rewrite length_map, length_seq in Hj. rewrite combine_nth by lia.
  rewrite (nth_indep _ _ (at_ l1 0, at_ l2 0)) by (rewrite length_map, length_seq; lia).
  rewrite (map_nth (λ i, (at_ l1 i, at_ l2 i))), seq_nth, !at_nth by lia. done.
Qed.

(** The rounds and the final additions, for a given schedule. *)
Definition finish (st w : list Z) : list Z :=
  let r := MkRegs (at_ st 0) (at_ st 1) (at_ st 2) (at_ st 3) (at_ st 4) (at_ st 5) (at_ st 6) (at_ st 7) in
  let r := foldl (round w) r (seq 0 64) in
  [u32 (at_ st 0 + ra r); u32 (at_ st 1 + rb r); u32 (at_ st 2 + rc r); u32 (at_ st 3 + rd r);
   u32 (at_ st 4 + re r); u32 (at_ st 5 + rf r); u32 (at_ st 6 + rg r); u32 (at_ st 7 + rh r)].
Lemma compress_finish st block : sha256_compress st block = finish st (extend 48 (map (load_word block) (seq 0 16))).
Proof. reflexivity. Qed.

Lemma finish_ok s W : st_ok s → length W = 64%nat → finish (words s) W = words (plus s (foldl step s (combine Sha256.K W))).
Proof.
  intros Hs HW. rewrite <- (combine_indices Sha256.K W 64) by done.
  assert (∃ r0, s = st_of r0) as [r0 ->] by (destruct s as [a b c d e f g h]; by exists (MkRegs a b c d e f g h)).
  rewrite <- rounds_ok by done. unfold finish.
  assert (MkRegs (at_ (words (st_of r0)) 0) (at_ (words (st_of r0)) 1) (at_ (words (st_of r0)) 2) (at_ (words (st_of r0)) 3)
    (at_ (words (st_of r0)) 4) (at_ (words (st_of r0)) 5) (at_ (words (st_of r0)) 6) (at_ (words (st_of r0)) 7) = r0) as ->
    by (by destruct r0).
  cbn zeta. generalize (foldl (round W) r0 (seq 0 64)). intros r.
  destruct r0, r. unfold at_. cbn [st_of plus words ra rb rc rd re rf rg rh lookup list_lookup from_option id].
  unfold add, sumZ, u32. cbn [foldr]. by rewrite !Z.add_0_r.
Qed.

Lemma compress_ok s block :
  st_ok s → Forall (λ x, is_u32 x) (map (load_word block) (seq 0 16)) →
  sha256_compress (words s) block =
  words (plus s (foldl step s (combine Fips.K (rev (schedule 48 (rev (map (load_word block) (seq 0 16)))))))).
Proof.
  intros Hs Hw. rewrite compress_finish, extend_ok by (done || rewrite length_map, length_seq; lia).
  rewrite finish_ok; [by rewrite K_roots|done|].
  by rewrite length_rev, schedule_length, length_rev, length_map, length_seq.
Qed.

(** * Bits and bytes *)

Abbreviation bytes l := (Forall (λ x, is_u8 x) l).

Lemma bits_length n x : length (bits n x) = n.
Proof. induction n; cbn [bits length]; lia. Qed.
Lemma octets_cons x l : octets (x :: l) = bits 8 x ++ octets l.
Proof. reflexivity. Qed.
Lemma octets_app l1 l2 : octets (l1 ++ l2) = octets l1 ++ octets l2.
Proof. unfold octets. by rewrite map_app, concat_app. Qed.
Lemma octets_length l : length (octets l) = (8 * length l)%nat.
Proof. induction l as [|x l IH]; [done|]. rewrite octets_cons, length_app, bits_length, IH. cbn [length]. lia. Qed.
Lemma octets_take k : ∀ l, octets (take k l) = take (8 * k) (octets l).
Proof.
  induction k as [|k IH]; intros [|x l]; [done..|by rewrite take_nil|]. rewrite firstn_cons, !octets_cons, IH.
  rewrite take_app_ge by (rewrite bits_length; lia). rewrite bits_length. do 2 f_equal. lia.
Qed.
Lemma octets_drop k : ∀ l, octets (drop k l) = drop (8 * k) (octets l).
Proof.
  induction k as [|k IH]; intros [|x l]; [done..|by rewrite drop_nil|]. rewrite skipn_cons, !octets_cons, IH.
  rewrite drop_app_ge by (rewrite bits_length; lia). rewrite bits_length. f_equal. lia.
Qed.
Lemma octets_zeros n : octets (replicate n 0) = replicate (8 * n) false.
Proof.
  induction n as [|n IH]; [done|]. cbn [replicate]. rewrite octets_cons, IH.
  replace (8 * S n)%nat with (8 + 8 * n)%nat by lia. by rewrite replicate_add.
Qed.

Lemma bits_split n k x : bits (n + k) x = bits n (Z.shiftr x k) ++ bits k x.
Proof.
  induction n as [|n IH]; cbn [Nat.add bits app]; [done|]. rewrite IH, Z.shiftr_spec by lia. do 2 f_equal. lia.
Qed.
Lemma bits_low (n : nat) x y : (∀ j, 0 ≤ j < n → Z.testbit x j = Z.testbit y j) → bits n x = bits n y.
Proof.
  induction n as [|n IH]; cbn [bits]; intros H; [done|]. rewrite H by lia. f_equal. apply IH. intros. apply H. lia.
Qed.
Lemma be_bytes_cons k x : be_bytes (S k) x = u8 (Z.shiftr x (8 * k)) :: be_bytes k x.
Proof.
  unfold be_bytes. cbn [seq map]. f_equal; [do 2 f_equal; lia|]. rewrite <- seq_shift, map_map. apply map_ext.
  intros i. do 2 f_equal. lia.
Qed.
Lemma be_bytes_octets k x : octets (be_bytes k x) = bits (8 * k) x.
Proof.
  induction k as [|k IH]; [done|]. rewrite be_bytes_cons, octets_cons, IH.
  replace (8 * S k)%nat with (8 + 8 * k)%nat by lia. rewrite bits_split. f_equal.
  replace (Z.of_nat (8 * k)%nat) with (8 * k) by lia. apply bits_low. intros j Hj. unfold u8. by rewrite Z.mod_pow2_bits_low by lia.
Qed.

Lemma value_from l : ∀ a, foldl (λ a b, 2 * a + Z.b2z b) a l = a * 2 ^ length l + value l.
Proof.
  unfold value. induction l as [|b l IH]; intros a; cbn [foldl length]; [lia|].
  rewrite IH, (IH (2 * 0 + _)). rewrite Nat2Z.inj_succ, Z.pow_succ_r by lia. lia.
Qed.
Lemma value_app l1 l2 : value (l1 ++ l2) = value l1 * 2 ^ length l2 + value l2.
Proof. unfold value at 1. by rewrite foldl_app, value_from. Qed.
Lemma value_bits n x : value (bits n x) = x `mod` 2 ^ n.
Proof.
  induction n as [|n IH]; cbn [bits]; [by rewrite Z.mod_1_r|]. change (_ :: ?l) with ([Z.testbit x n] ++ l).
  rewrite value_app, IH, bits_length. unfold value. cbn [foldl].
  assert (0 < 2 ^ n) by lia. replace (2 ^ Z.of_nat (S n)) with (2 ^ n * 2) by (rewrite Nat2Z.inj_succ, Z.pow_succ_r by lia; lia).
  rewrite Z.rem_mul_r by lia. rewrite Z.testbit_spec' by lia. lia.
Qed.

(** Four bytes, big-endian. *)
Lemma load_value b0 b1 b2 b3 l :
  bytes [b0; b1; b2; b3] →
  load_word (b0 :: b1 :: b2 :: b3 :: l) 0 = value (octets [b0; b1; b2; b3]) ∧ is_u32 (load_word (b0 :: b1 :: b2 :: b3 :: l) 0).
Proof.
  rewrite !Forall_cons. intros (? & ? & ? & ? & _). unfold load_word, at_. cbn [Nat.mul Nat.add lookup list_lookup from_option id].
  assert (Z.lor (Z.lor (Z.lor (Z.shiftl b0 24) (Z.shiftl b1 16)) (Z.shiftl b2 8)) b3 =
    ((b0 * 2 ^ 8 + b1) * 2 ^ 8 + b2) * 2 ^ 8 + b3) as ->.
  { change 24 with (8 + (8 + 8)). change 16 with (8 + 8). rewrite <- !Z.shiftl_shiftl by lia.
    rewrite <- !Z.shiftl_lor, !lor_low by lia. done. }
  split; [|lia]. unfold octets. cbn [map concat]. rewrite !value_app, !length_app, !bits_length, !value_bits.
  rewrite !(Z.mod_small _ (2 ^ Z.of_nat 8)) by (change (2 ^ Z.of_nat 8) with (2 ^ 8); lia).
  change (value []) with 0. cbn [length Nat.add]. change (Z.of_nat 0) with 0.
  change (Z.of_nat 8) with 8. change (Z.of_nat 16) with 16. change (Z.of_nat 24) with 24. lia.
Qed.

Lemma cut_words k : ∀ b, bytes b → length b = (4 * k)%nat →
  map value (cut 32 k (octets b)) = map (load_word b) (seq 0 k) ∧ Forall (λ x, is_u32 x) (map (load_word b) (seq 0 k)).
Proof.
  induction k as [|k IH]; intros b Hb Hl; [done|].
  destruct b as [|b0 [|b1 [|b2 [|b3 b]]]]; cbn [length] in Hl; try lia.
  assert (bytes [b0; b1; b2; b3] ∧ bytes b) as [H1 H2] by (by apply Forall_app).
  destruct (load_value b0 b1 b2 b3 b H1) as [E R]. destruct (IH b H2 ltac:(lia)) as [E2 R2].
  cbn [cut map seq]. rewrite <- seq_shift, map_map.
  change (b0 :: b1 :: b2 :: b3 :: b) with ([b0; b1; b2; b3] ++ b) at 1 2. rewrite octets_app.
  rewrite take_app_length', drop_app_length' by (rewrite octets_length; done).
  assert (map (λ i, load_word (b0 :: b1 :: b2 :: b3 :: b) (S i)) (seq 0 k) = map (load_word b) (seq 0 k)) as -> by done.
  rewrite E, E2. split; [done|]. apply Forall_cons_2; [by rewrite <- E|done].
Qed.

(** * The message *)

Lemma pad_ok m : octets (m ++ padding (length m)) = pad (octets m).
Proof.
  rewrite octets_app. unfold pad. f_equal. unfold padding. set (z := Z.to_nat ((55 - _) `mod` 64)).
  rewrite octets_length, octets_cons, octets_app, (be_bytes_octets 8).
  replace (Z.of_nat (8 * length m)%nat) with (8 * length m) by lia.
  replace (Z.to_nat ((447 - 8 * length m) `mod` 512)) with (7 + 8 * z)%nat.
  - rewrite replicate_add, <- app_assoc. change (bits 8 0x80) with (true :: replicate 7 false). by rewrite octets_zeros.
  - unfold z. pose proof (Z.div_mod (55 - length m) 64 ltac:(lia)) as D. pose proof (Z.mod_pos_bound (55 - length m) 64 ltac:(lia)) as B.
    rewrite <- (Z.mod_unique_pos (447 - 8 * length m) 512 ((55 - length m) `div` 64) (8 * ((55 - length m) `mod` 64) + 7)); lia.
Qed.

Lemma plus_range s t : st_ok (plus s t).
Proof.
  destruct s, t. unfold st_ok. cbn [plus words]. repeat (apply Forall_cons_2; [apply add_range|]). apply Forall_nil_2.
Qed.

Lemma blocks_ok k : ∀ s l, st_ok s → bytes l → length l = (64 * k)%nat →
  blocks k (words s) l = words (foldl compress s (cut 512 k (octets l))).
Proof.
  induction k as [|k IH]; intros s l Hs Hb Hl; [done|]. cbn [blocks cut foldl].
  destruct (cut_words 16 (take 64 l)) as [E R]; [by apply Forall_take|rewrite length_take; lia|].
  rewrite compress_ok by done. rewrite <- E, <- (octets_take 64), <- (octets_drop 64). fold (compress s (octets (take 64 l))).
  apply IH; [apply plus_range|by apply Forall_drop|rewrite length_drop; lia].
Qed.

Lemma padding_bytes n : bytes (padding n).
Proof.
  unfold padding. apply Forall_cons_2; [lia|]. apply Forall_app_2.
  - apply Forall_replicate. lia.
  - apply Forall_map, Forall_forall. intros i _. apply u8_range.
Qed.

Lemma start_ok : st_ok start.
Proof. unfold st_ok. rewrite <- H0_roots. unfold H0. repeat (apply Forall_cons_2; [lia|]). apply Forall_nil_2. Qed.

Lemma spec_hash m : bytes m → octets (sha256_spec m) = hash (octets m).
Proof.
  intros Hm. unfold sha256_spec, hash. rewrite <- pad_ok. set (p := m ++ padding (length m)).
  destruct (padded_length (length m)) as [q Hq]. rewrite <- length_app in Hq. fold p in Hq.
  assert (length p / 64 = q)%nat as -> by (rewrite Hq, Nat.mul_comm; by apply Nat.div_mul).
  assert (length (octets p) / 512 = q)%nat as ->
    by (rewrite octets_length, Hq; replace (8 * (64 * q))%nat with (q * 512)%nat by lia; by apply Nat.div_mul).
  rewrite H0_roots, blocks_ok; [|apply start_ok|apply Forall_app_2; [done|apply padding_bytes]|done].
  generalize (words (foldl compress start (cut 512 q (octets p)))). intros l.
  induction l as [|x l IH]; [done|]. cbn [map concat]. by rewrite octets_app, IH, (be_bytes_octets 4).
Qed.

(** * HMAC *)

Lemma bits_lxor n x y : bits n (Z.lxor x y) = zip_with xorb (bits n x) (bits n y).
Proof. induction n as [|n IH]; [done|]. cbn [bits zip_with]. by rewrite IH, Z.lxor_spec. Qed.
Lemma octets_lxor l x : octets (map (λ b, Z.lxor b x) l) = zip_with xorb (octets l) (octets (replicate (length l) x)).
Proof.
  induction l as [|b l IH]; [done|]. cbn [map length replicate]. rewrite !octets_cons, IH, bits_lxor.
  symmetry. apply zip_with_app. by rewrite !bits_length.
Qed.
Lemma lxor_bytes l x : bytes l → is_u8 x → bytes (map (λ b, Z.lxor b x) l).
Proof.
  intros Hl Hx. apply Forall_map. eapply Forall_impl; [exact Hl|]. intros b Hb.
  rewrite <- (u8_small b), <- (u8_small x) by done. unfold u8. rewrite <- !Z.land_ones by lia.
  assert (Z.lxor (Z.land b (Z.ones 8)) (Z.land x (Z.ones 8)) = Z.land (Z.lxor b x) (Z.ones 8)) as ->.
  { apply Z.bits_inj'. intros j _. rewrite !Z.lxor_spec, !Z.land_spec, Z.lxor_spec.
    by destruct (Z.testbit b j), (Z.testbit x j), (Z.testbit (Z.ones 8) j). }
  rewrite Z.land_ones by lia. apply u8_range.
Qed.

Lemma spec_hmac key msg : bytes key → bytes msg → octets (hmac_spec key msg) = hmac (octets key) (octets msg).
Proof.
  intros Hk Hm. unfold hmac_spec, hmac.
  set (k0 := if (64 <? length key)%nat then sha256_spec key else key).
  assert ((if (512 <? length (octets key))%nat then hash (octets key) else octets key) = octets k0) as ->.
  { rewrite octets_length. unfold k0. destruct (Nat.ltb_spec 64 (length key)), (Nat.ltb_spec 512 (8 * length key)); try lia; [|done].
    by rewrite spec_hash. }
  assert (bytes k0) as Hk0 by (unfold k0; destruct (64 <? length key)%nat; [apply digest_bytes|done]).
  assert (length k0 ≤ 64)%nat as Hl.
  { unfold k0. destruct (Nat.ltb_spec 64 (length key)); [|done]. rewrite digest_length. unfold SHA256_DIGEST_SIZE. lia. }
  set (kb := k0 ++ replicate (64 - length k0) 0).
  assert (octets k0 ++ replicate (512 - length (octets k0)) false = octets kb) as ->.
  { unfold kb. rewrite octets_app. f_equal. rewrite octets_length. rewrite octets_zeros. f_equal. lia. }
  assert (length kb = 64)%nat as Hkl by (unfold kb; rewrite length_app, length_replicate; lia).
  assert (bytes kb) as Hkb by (apply Forall_app_2; [done|]; apply Forall_replicate; lia).
  rewrite spec_hash, octets_app, octets_lxor, spec_hash, octets_app, octets_lxor, Hkl; [done|..].
  all: repeat first [assumption|apply lxor_bytes|apply Forall_app_2|apply digest_bytes|lia].
Qed.

(** * The code *)

(** C23: The hash and the authentication code are those of the standards.  However a
    message is cut into [sha256_update] calls, empty ones included, and whatever the
    context's buffer held before, every call returns and the 32 bytes of [sha256_final]
    are, bit for bit, the SHA-256 digest of the message as FIPS 180-4 defines it on bit
    strings: constants from the roots of the first primes, padding, schedule and rounds.
    [sha256] gives the same bytes, and [hmac_sha256] the code of RFC 2104 for every key. *)
Theorem sha256_hmac_standard c ds key :
  length (buf c) = 64%nat → bytes (concat ds) → bytes key →
  ∃ c1 c2 digest mac, update_all (sha256_init c) ds = Some c1 ∧ sha256_final c1 = Some (c2, digest) ∧
    length digest = 32%nat ∧ bytes digest ∧ octets digest = hash (octets (concat ds)) ∧
    sha256 (buf c) (concat ds) = Some digest ∧
    hmac_sha256 (buf c) key (concat ds) = Some mac ∧ length mac = 32%nat ∧ bytes mac ∧
    octets mac = hmac (octets key) (octets (concat ds)).
Proof.
  intros Hb Hd Hk. destruct (update_all_absorbed ds _ _ (init_absorbed c Hb)) as (c1 & E & H1).
  destruct (final_absorbed c1 _ H1) as (c2 & E2 & _).
  exists c1, c2, (sha256_spec (concat ds)), (hmac_spec key (concat ds)).
  split; [done|]. split; [exact E2|]. split; [apply digest_length|]. split; [apply digest_bytes|].
  split; [by apply spec_hash|]. split; [by apply sha256_ok|]. split; [by apply hmac_ok|].
  split; [apply digest_length|]. split; [apply digest_bytes|]. by apply spec_hmac.
Qed.

(** The first example of FIPS 180-4, hashed as "a" and "bc"; the digest by the standard's
    definition. *)
Lemma abc_hash : hash (octets abc) = octets abc_digest.
Proof. vm_compute. reflexivity. Qed.

Lemma octets_inj l1 : ∀ l2, length l1 = length l2 → bytes l1 → bytes l2 → octets l1 = octets l2 → l1 = l2.
Proof.
  induction l1 as [|x l1 IH]; intros [|y l2] Hl H1 H2 E; try done.
  apply Forall_cons in H1 as [Hx H1]. apply Forall_cons in H2 as [Hy H2]. rewrite !octets_cons in E.
  apply app_inj_1 in E as [E1 E2]; [|by rewrite !bits_length]. f_equal; [|apply IH; auto].
  apply (f_equal value) in E1. rewrite !value_bits in E1. change (Z.of_nat 8) with 8 in E1.
  by rewrite !Z.mod_small in E1 by lia.
Qed.

Lemma abc_bytes : bytes abc_digest.
Proof. unfold abc_digest. repeat (apply Forall_cons_2; [lia|]). apply Forall_nil_2. Qed.

Lemma sha256_hmac_standard_witness :
  ∃ c1 c2, update_all (sha256_init (fresh_ctx (replicate 64 0xee))) [[0x61]; [0x62; 0x63]] = Some c1 ∧
    sha256_final c1 = Some (c2, abc_digest).
Proof.
  destruct (sha256_hmac_standard (fresh_ctx (replicate 64 0xee)) [[0x61]; [0x62; 0x63]] jefe)
    as (c1 & c2 & d & mac & E1 & E2 & El & Eb & Ed & _).
  - reflexivity.
  - repeat (apply Forall_cons_2; [lia|]). apply Forall_nil_2.
  - repeat (apply Forall_cons_2; [lia|]). apply Forall_nil_2.
  - exists c1, c2. split; [exact E1|]. rewrite E2. do 2 f_equal.
    apply octets_inj; [exact El|exact Eb|exact abc_bytes|]. rewrite Ed. exact abc_hash.
Defined.
