(* ===== verification/EccField.v ===== *)
(** Multi-limb modular arithmetic of [crypto/ecc.c]: 4x64-bit little-endian limbs,
    addition and subtraction modulo a 256-bit modulus, Montgomery multiplication,
    and binary exponentiation.

    Module [Fe] is the model; an array of limbs is a list, a loop over its indices
    a recursion along it, and [u128] intermediates wrap at 128 bits.  The lemmas
    relate each routine to arithmetic on the integers the arrays stand for
    ([val]). *)
From S2P Require Import Prelude.

Module Fe.

Definition u128 (x : Z) : Z := x `mod` 2 ^ 128.

Definition P : list Z := [0xffffffffffffffff; 0x00000000ffffffff; 0x0000000000000000; 0xffffffff00000001].
Definition N : list Z := [0xf3b9cac2fc632551; 0xbce6faada7179e84; 0xffffffffffffffff; 0xffffffff00000000].
Definition B : list Z := [0x3bce3c3e27d2604b; 0x651d06b0cc53b0f6; 0xb3ebbd55769886bc; 0x5ac635d8aa3a93e7].
Definition P0INV : Z := 1.
Definition N0INV : Z := 0xccd1c8aaee00bc4f.
Definition R2P : list Z := [0x0000000000000003; 0xfffffffbffffffff; 0xfffffffffffffffe; 0x00000004fffffffd].
Definition R2N : list Z := [0x83244c95be79eea2; 0x4699799c49bd6fa6; 0x2845b2392b6bec59; 0x66e12d94f3d95620].
Definition ONE : list Z := [1; 0; 0; 0].
Definition fe_zero : list Z := [0; 0; 0; 0].

Definition limb (a : list Z) (i : nat) : Z := default 0 (a !! i).

(** [for (i = 3; i >= 0; i--)]: [k] limbs are left, the highest is [k - 1]. *)
Fixpoint fe_ge_loop (k : nat) (a b : list Z) : bool :=
  match k with
  | O => true
  | S i => if limb b i <? limb a i then true
           else if limb a i <? limb b i then false
           else fe_ge_loop i a b
  end.
Definition fe_ge (a b : list Z) : bool := fe_ge_loop 4 a b.

Definition fe_equal (a b : list Z) : bool :=
  (limb a 0 =? limb b 0) && (limb a 1 =? limb b 1) && (limb a 2 =? limb b 2) && (limb a 3 =? limb b 3).
Definition fe_is_zero (a : list Z) : bool :=
  (limb a 0 =? 0) && (limb a 1 =? 0) && (limb a 2 =? 0) && (limb a 3 =? 0).

(** [cur = (u128)a[i] + b[i] + carry] along both arrays. *)
Fixpoint add_limbs (a b : list Z) (carry : Z) : list Z * Z :=
  match a, b with
  | x :: a, y :: b =>
      let cur := u128 (x + y + carry) in
      let '(s, c) := add_limbs a b (u64 (Z.shiftr cur 64)) in (u64 cur :: s, c)
  | _, _ => ([], carry)
  end.

(** [cur = (u128)a[i] - b[i] - borrow]; the borrow is bit 64 of [cur]. *)
Fixpoint sub_limbs (a b : list Z) (borrow : Z) : list Z * Z :=
  match a, b with
  | x :: a, y :: b =>
      let cur := u128 (x - y - borrow) in
      let '(s, c) := sub_limbs a b (u64 (Z.land (Z.shiftr cur 64) 1)) in (u64 cur :: s, c)
  | _, _ => ([], borrow)
  end.

(** The reduction loop of [fe_add_m], [k] turns left, on five limbs. *)
Fixpoint reduce5 (k : nat) (s m : list Z) : list Z :=
  match k with
  | O => s
  | S k =>
      if (limb s 4 =? 0) && negb (fe_ge s m) then s
      else reduce5 k (fst (sub_limbs s (m ++ [0]) 0)) m
  end.

Definition fe_add_m (a b m : list Z) : list Z :=
  let '(s, carry) := add_limbs a b 0 in take 4 (reduce5 2 (s ++ [carry]) m).

Definition fe_sub_m (a b m : list Z) : list Z :=
  let '(s, borrow) := sub_limbs a b 0 in
  if nz borrow then fst (add_limbs s m 0) else s.

(** [for (j = 4; j < 8 && carry; j++)] on what is left of [t]. *)
Fixpoint ripple (t : list Z) (carry : Z) : list Z :=
  match t with
  | [] => []
  | x :: t =>
      if carry =? 0 then x :: t
      else let cur := u128 (x + carry) in u64 cur :: ripple t (u64 (Z.shiftr cur 64))
  end.
(** [t += a * b], one limb of [b] at a time, then the carry. *)
Fixpoint mac (t : list Z) (a : Z) (b : list Z) (carry : Z) : list Z :=
  match t, b with
  | x :: t, y :: b =>
      let cur := u128 (x + u128 (a * y) + carry) in
      u64 cur :: mac t a b (u64 (Z.shiftr cur 64))
  | _, _ => ripple t carry
  end.

(** The body of the outer loop of [mont_mul_m] for one limb of [a]. *)
Definition mont_step (b md : list Z) (mod0inv : Z) (t : list Z) (ai : Z) : list Z :=
  let t := mac t ai b 0 in
  let m := limb t 0 *u mod0inv in
  let t := mac t m md 0 in
  drop 1 t ++ [0].

Definition mont_mul_m (a b md : list Z) (mod0inv : Z) : list Z :=
  let t := foldl (mont_step b md mod0inv) [0; 0; 0; 0; 0; 0; 0; 0] a in
  if nz (limb t 4) || nz (limb t 5) || nz (limb t 6) || nz (limb t 7) then
    take 4 (fst (sub_limbs t (md ++ [0; 0; 0; 0]) 0))
  else if fe_ge t md then fst (sub_limbs (take 4 t) md 0)
  else take 4 t.

Definition fe_mul_p (a b : list Z) : list Z := mont_mul_m a b P P0INV.
Definition fe_sqr_p (a : list Z) : list Z := mont_mul_m a a P P0INV.
Definition fe_add_p (a b : list Z) : list Z := fe_add_m a b P.
Definition fe_sub_p (a b : list Z) : list Z := fe_sub_m a b P.
Definition to_mont_p (a : list Z) : list Z := mont_mul_m a R2P P P0INV.
Definition from_mont_p (a : list Z) : list Z := mont_mul_m a ONE P P0INV.

Definition mod_mul_n (a b : list Z) : list Z :=
  let am := mont_mul_m a R2N N N0INV in
  let bm := mont_mul_m b R2N N N0INV in
  let tmp := mont_mul_m am bm N N0INV in
  mont_mul_m tmp ONE N N0INV.
Definition mod_add_n (a b : list Z) : list Z := fe_add_m a b N.
Definition mod_sub_n (a b : list Z) : list Z := fe_sub_m a b N.

Definition mod_reduce_n (a : list Z) : list Z :=
  if fe_ge a N then fst (sub_limbs a N 0) else a.

(** [(exp[bit >> 6] >> (bit & 63)) & 1] *)
Definition exp_bit (e : list Z) (bit : nat) : bool :=
  nz (Z.land (Z.shiftr (limb e (Nat.div bit 64)) (Z.of_nat (Nat.modulo bit 64))) 1).

Definition exp_step (e md : list Z) (inv : Z) (st : list Z * list Z) (bit : nat) : list Z * list Z :=
  let '(acc, bm) := st in
  let acc := if exp_bit e bit then mont_mul_m acc bm md inv else acc in
  (acc, mont_mul_m bm bm md inv).

Definition mod_exp (base e md : list Z) (mod0inv : Z) (r2 : list Z) : list Z :=
  let bm := mont_mul_m base r2 md mod0inv in
  let acc := mont_mul_m ONE r2 md mod0inv in
  let '(acc, _) := foldl (exp_step e md mod0inv) (acc, bm) (seq 0 256) in
  mont_mul_m acc ONE md mod0inv.

End Fe.
Import Fe.

(** * The integer an array stands for *)

Definition base : Z := 2 ^ 64.
Fixpoint val (l : list Z) : Z :=
  match l with
  | [] => 0
  | x :: l => x + base * val l
  end.
Definition limbs (l : list Z) : Prop := Forall (λ x, 0 ≤ x < base) l.
Definition pw (n : nat) : Z := base ^ n.

Lemma base_pos : 0 < base.
Proof. done. Qed.
Lemma pw_S n : pw (S n) = base * pw n.
Proof. unfold pw. by rewrite Nat2Z.inj_succ, Z.pow_succ_r by lia. Qed.
Lemma pw_pos n : 0 < pw n.
Proof. unfold pw. apply Z.pow_pos_nonneg; [done|lia]. Qed.

Lemma val_range l : limbs l → 0 ≤ val l < pw (length l).
Proof.
  induction 1 as [|x l Hx _ IH]; [done|]. cbn [val length]. rewrite pw_S.
  unfold base in *. nia.
Qed.

Lemma val_app a b : val (a ++ b) = val a + pw (length a) * val b.
Proof.
  induction a as [|x a IH]; cbn [app val length]; [unfold pw; simpl; lia|]. rewrite IH, pw_S. ring.
Qed.

(** Splitting a 128-bit value into its halves. *)
Lemma split128 x : 0 ≤ x < 2 ^ 128 →
  u128 x = x ∧ is_u64 (u64 x) ∧ u64 (Z.shiftr x 64) = x / base ∧ x = u64 x + base * (x / base) ∧
  0 ≤ x / base < base.
Proof.
  intros H. unfold u128. rewrite Z.mod_small by lia. rewrite Z.shiftr_div_pow2 by lia. fold base.
  assert (0 ≤ x / base < base) as Hq.
  { split; [apply Z.div_pos; done || lia|]. apply Z.div_lt_upper_bound; [done|].
    change (base * base) with (2 ^ 128). lia. }
  split; [done|]. split; [apply u64_range|]. split; [apply u64_small; exact Hq|]. split; [|done].
  unfold u64. fold base. pose proof (Z.div_mod x base). lia.
Qed.

Lemma add_limbs_spec a b c :
  limbs a → limbs b → length a = length b → 0 ≤ c ≤ 1 →
  let '(s, c') := add_limbs a b c in
  limbs s ∧ length s = length a ∧ 0 ≤ c' ≤ 1 ∧ val s + pw (length a) * c' = val a + val b + c.
Proof.
  intros Ha. revert b c. induction Ha as [|x a Hx _ IH]; intros [|y b] c Hb Hl Hc; simplify_eq/=.
  { unfold pw. simpl. split_and!; [constructor|done|lia..]. }
  apply Forall_cons in Hb as [Hy Hb]. unfold base in Hx, Hy.
  destruct (split128 (x + y + c)) as (-> & H1 & -> & H2 & H3); [lia|].
  assert (0 ≤ (x + y + c) / base ≤ 1) as Hc'.
  { split; [lia|]. apply Z.lt_succ_r. apply Z.div_lt_upper_bound; unfold base; lia. }
  specialize (IH b _ Hb Hl Hc'). destruct (add_limbs a b _) as [s c'].
  destruct IH as (I1 & I2 & I3 & I4). split_and!; [by constructor|simpl; lia|lia..|].
  cbn [val length]. rewrite pw_S. unfold base in *. nia.
Qed.

Lemma sub_digit d : - base ≤ d < base →
  let cur := u128 d in
  u64 (Z.land (Z.shiftr cur 64) 1) = (if d <? 0 then 1 else 0) ∧
  u64 cur = d + (if d <? 0 then base else 0).
Proof.
  intros Hd. cbn zeta. unfold base in Hd. change (Z.land (Z.shiftr (u128 d) 64) 1)
    with (Z.land (Z.shiftr (u128 d) 64) (Z.ones 1)).
  rewrite Z.land_ones, Z.shiftr_div_pow2 by lia. change (2 ^ 1) with 2.
  destruct (Z.ltb_spec d 0).
  - assert (u128 d = 2 ^ 128 + d) as -> by (unfold u128; symmetry; apply (Z.mod_unique _ _ (-1)); lia).
    assert ((2 ^ 128 + d) / 2 ^ 64 = 2 ^ 64 - 1) as ->
      by (symmetry; apply (Z.div_unique _ _ _ (d + 2 ^ 64)); lia).
    split; [done|]. unfold u64, base. symmetry. apply (Z.mod_unique _ _ (2 ^ 64 - 1)); lia.
  - assert (u128 d = d) as -> by (apply Z.mod_small; lia).
    rewrite Z.div_small by lia. split; [done|]. rewrite u64_small; lia.
Qed.

Lemma sub_limbs_spec a b c :
  limbs a → limbs b → length a = length b → 0 ≤ c ≤ 1 →
  let '(s, c') := sub_limbs a b c in
  limbs s ∧ length s = length a ∧ 0 ≤ c' ≤ 1 ∧ val s = val a - val b - c + pw (length a) * c'.
Proof.
  intros Ha. revert b c. induction Ha as [|x a Hx _ IH]; intros [|y b] c Hb Hl Hc; simplify_eq/=.
  { unfold pw. simpl. split_and!; [constructor|done|lia..]. }
  apply Forall_cons in Hb as [Hy Hb]. unfold base in Hx, Hy.
  destruct (sub_digit (x - y - c)) as [-> ->]; [unfold base; lia|].
  set (bw := if x - y - c <? 0 then 1 else 0).
  assert (0 ≤ bw ≤ 1) as Hbw by (unfold bw; destruct (_ <? 0); lia).
  specialize (IH b bw Hb Hl Hbw). destruct (sub_limbs a b bw) as [s c'].
  destruct IH as (I1 & I2 & I3 & I4).
  assert ((if x - y - c <? 0 then base else 0) = base * bw) as -> by (unfold bw; destruct (_ <? 0); lia).
  split_and!; [|simpl; lia|lia..|].
  - constructor; [|done]. unfold bw, base. destruct (Z.ltb_spec (x - y - c) 0); lia.
  - cbn [val length]. rewrite pw_S, I4. ring.
Qed.

(** A subtraction whose result is known not to be negative. *)
Lemma sub_limbs_exact a b :
  limbs a → limbs b → length a = length b → val b ≤ val a →
  let s := fst (sub_limbs a b 0) in limbs s ∧ length s = length a ∧ val s = val a - val b.
Proof.
  intros Ha Hb Hl Hle. pose proof (sub_limbs_spec a b 0 Ha Hb Hl ltac:(lia)) as H.
  destruct (sub_limbs a b 0) as [s c']. destruct H as (H1 & H2 & H3 & H4). simpl.
  split_and!; [done|done|]. pose proof (val_range s H1) as Hs. rewrite H2 in Hs.
  pose proof (val_range a Ha). pose proof (val_range b Hb). rewrite <- Hl in *.
  pose proof (pw_pos (length a)). assert (c' = 0) as ->; [|lia].
  destruct (decide (c' = 0)); [done|]. assert (c' = 1) as -> by lia. lia.
Qed.

(** Carry propagation adds, as long as the sum fits. *)
Lemma ripple_spec t c :
  limbs t → 0 ≤ c < base → val t + c < pw (length t) →
  limbs (ripple t c) ∧ length (ripple t c) = length t ∧ val (ripple t c) = val t + c.
Proof.
  intros Ht. revert c. induction Ht as [|x t Hx Ht IH]; intros c Hc Hf; cbn [ripple].
  { unfold pw in Hf. simpl in Hf. split_and!; [constructor|done|simpl; lia]. }
  destruct (Z.eqb_spec c 0) as [->|Hz]; [split_and!; [by constructor|done|lia]|].
  unfold base in Hx, Hc. destruct (split128 (x + c)) as (-> & H1 & -> & H2 & H3); [lia|].
  cbn [val length] in Hf |- *. rewrite pw_S in Hf.
  destruct (IH ((x + c) / base) H3) as (I1 & I2 & I3).
  { pose proof base_pos. unfold base in *. nia. }
  split_and!; [by constructor|simpl; lia|]. cbn [val]. rewrite I3. lia.
Qed.

Lemma mac_spec t a b c :
  limbs t → limbs b → (length b ≤ length t)%nat → 0 ≤ a < base → 0 ≤ c < base →
  val t + a * val b + c < pw (length t) →
  limbs (mac t a b c) ∧ length (mac t a b c) = length t ∧ val (mac t a b c) = val t + a * val b + c.
Proof.
  intros Ht. revert b c. induction Ht as [|x t Hx Ht IH]; intros [|y b] c Hb Hl Ha Hc Hf.
  - unfold pw in Hf. simpl in *. split_and!; [constructor|done|lia].
  - simpl in Hl. lia.
  - replace (val (x :: t) + a * val [] + c) with (val (x :: t) + c) in * by (cbn [val]; lia).
    change (mac (x :: t) a [] c) with (ripple (x :: t) c).
    apply (ripple_spec (x :: t) c); [by constructor|done|done].
  - apply Forall_cons in Hb as [Hy Hb]. cbn [mac]. cbn [val length] in Hf |- *. rewrite pw_S in Hf.
    pose proof (val_range t Ht). pose proof (val_range b Hb). unfold base in Hx, Hy, Ha, Hc.
    assert (0 ≤ a * y ≤ (2 ^ 64 - 1) * (2 ^ 64 - 1)) as Hay by nia.
    assert (u128 (a * y) = a * y) as -> by (apply Z.mod_small; lia).
    destruct (split128 (x + a * y + c)) as (-> & H1 & -> & H2 & H3); [lia|].
    destruct (IH b ((x + a * y + c) / base)) as (I1 & I2 & I3); [done|simpl in Hl; lia|unfold base; lia|done| |].
    { assert (base * (val t + a * val b + (x + a * y + c) / base) < base * pw (length t)) as Hlt.
      { pose proof base_pos. assert (0 ≤ u64 (x + a * y + c)) by lia. nia. }
      apply Z.mul_lt_mono_pos_l in Hlt; [done|apply base_pos]. }
    split_and!; [by constructor|simpl; lia|]. cbn [val]. rewrite I3. nia.
Qed.

(** * Comparison *)

Lemma limb_lt a i : limbs a → 0 ≤ limb a i < base.
Proof.
  intros Ha. unfold limb. destruct (a !! i) as [x|] eqn:E; simpl; [|done].
  by apply (Forall_lookup_1 _ _ _ _ Ha E).
Qed.

Lemma val_take_S a k : val (take (S k) a) = val (take k a) + pw k * limb a k.
Proof.
  revert k. induction a as [|x a IH]; intros k.
  - unfold limb. rewrite !take_nil. simpl. lia.
  - destruct k as [|k]; [unfold limb, pw; simpl; lia|].
    change (take (S (S k)) (x :: a)) with (x :: take (S k) a).
    change (take (S k) (x :: a)) with (x :: take k a). cbn [val]. rewrite IH, pw_S.
    change (limb (x :: a) (S k)) with (limb a k). ring.
Qed.

Lemma fe_ge_loop_spec k a b :
  limbs a → limbs b → fe_ge_loop k a b = (val (take k b) <=? val (take k a)).
Proof.
  intros Ha Hb. induction k as [|k IH]; [done|]. cbn [fe_ge_loop]. rewrite !val_take_S.
  pose proof (limb_lt a k Ha). pose proof (limb_lt b k Hb).
  assert (∀ l, limbs l → 0 ≤ val (take k l) < pw k) as Hr.
  { intros l Hl. assert (limbs (take k l)) as Ht by by apply Forall_take.
    pose proof (val_range (take k l) Ht) as Hv.
    split; [lia|]. eapply Z.lt_le_trans; [apply Hv|]. unfold pw. apply Z.pow_le_mono_r; [done|].
    rewrite length_take. lia. }
  pose proof (Hr a Ha). pose proof (Hr b Hb). pose proof (pw_pos k).
  destruct (Z.ltb_spec (limb b k) (limb a k)); [symmetry; apply Z.leb_le; nia|].
  destruct (Z.ltb_spec (limb a k) (limb b k)); [symmetry; apply Z.leb_gt; nia|].
  rewrite IH. replace (limb b k) with (limb a k) by lia.
  destruct (Z.leb_spec (val (take k b)) (val (take k a))), (Z.leb_spec (val (take k b) + pw k * limb a k)
    (val (take k a) + pw k * limb a k)); done || lia.
Qed.

(** A field element as the code holds it. *)
Definition fe (a : list Z) : Prop := length a = 4%nat ∧ limbs a.

Lemma fe_range a : fe a → 0 ≤ val a < 2 ^ 256.
Proof. intros [Hl H]. apply val_range in H. rewrite Hl in H. exact H. Qed.

Lemma fe_ge_spec a b : fe b → limbs a → fe_ge a b = (val b <=? val (take 4 a)).
Proof.
  intros [Hl Hb] Ha. unfold fe_ge. rewrite fe_ge_loop_spec by done. by rewrite (take_ge b) by lia.
Qed.

(** * Addition and subtraction *)

Lemma limb_last s c : length s = 4%nat → limb (s ++ [c]) 4 = c.
Proof. intros H. unfold limb. rewrite lookup_app_r by lia. by rewrite H. Qed.

Lemma mod_once x m : 0 < m → 0 ≤ x < 2 * m → x `mod` m = if m <=? x then x - m else x.
Proof.
  intros Hm Hx. destruct (Z.leb_spec m x); [|apply Z.mod_small; lia].
  symmetry. apply (Z.mod_unique _ _ 1); lia.
Qed.

(** The test of the reduction loops compares the five limbs with the modulus. *)
Lemma reduce_test s c m : fe s → fe m → 0 ≤ c ≤ 1 →
  ((c =? 0) && negb (fe_ge (s ++ [c]) m)) = negb (val m <=? val s + 2 ^ 256 * c).
Proof.
  intros [Hl Hs] Hm Hc. assert (limbs (s ++ [c])) as Hsc.
  { apply Forall_app. split; [done|]. constructor; [unfold base; lia|constructor]. }
  rewrite fe_ge_spec, take_app_length' by done. pose proof (fe_range m Hm).
  destruct (Z.eqb_spec c 0) as [->|Hz]; cbn [andb]; [by rewrite Z.mul_0_r, Z.add_0_r|].
  pose proof (fe_range s (conj Hl Hs)).
  destruct (Z.leb_spec (val m) (val s + 2 ^ 256 * c)); [done|lia].
Qed.

Lemma fe_add_m_spec a b m :
  fe a → fe b → fe m → val a < val m → val b < val m →
  fe (fe_add_m a b m) ∧ val (fe_add_m a b m) = (val a + val b) `mod` val m.
Proof.
  intros [La Ha] [Lb Hb] [Lm Hm] Hav Hbv. unfold fe_add_m.
  pose proof (val_range a Ha). pose proof (val_range b Hb).
  pose proof (add_limbs_spec a b 0 Ha Hb ltac:(lia) ltac:(lia)) as H1.
  destruct (add_limbs a b 0) as [s c]. destruct H1 as (Hs & Ls & Hc & Hv). rewrite La in Ls, Hv.
  change (pw 4) with (2 ^ 256) in Hv.
  rewrite (mod_once (val a + val b) (val m)) by lia.
  assert (limbs (s ++ [c]) ∧ limbs (m ++ [0])) as [Hsc Hm0].
  { split; apply Forall_app; (split; [done|]); (constructor; [unfold base; lia|constructor]). }
  assert (val (s ++ [c]) = val a + val b) as Evs
    by (rewrite val_app, Ls; cbn [val]; change (pw 4) with (2 ^ 256); lia).
  cbn [reduce5]. rewrite limb_last, reduce_test by done.
  replace (val s + 2 ^ 256 * c) with (val a + val b) by lia.
  destruct (Z.leb_spec (val m) (val a + val b)) as [Hge|Hlt]; cbn [negb].
  2: { rewrite take_app_length' by done. split; [done|].
       pose proof (fe_range m (conj Lm Hm)). pose proof (val_range s Hs). assert (c = 0) by lia. subst c. lia. }
  assert (val (m ++ [0]) = val m) as Em by (rewrite val_app; cbn [val]; lia).
  destruct (sub_limbs_exact (s ++ [c]) (m ++ [0]) Hsc Hm0) as (T1 & T2 & T3);
    [rewrite !length_app; simpl; lia|lia|]. rewrite Em, Evs in T3.
  set (u := fst (sub_limbs (s ++ [c]) (m ++ [0]) 0)) in *. rewrite length_app, Ls in T2. simpl in T2.
  assert (∃ s' c', u = s' ++ [c'] ∧ length s' = 4%nat) as (s' & c' & Eu & Ls').
  { exists (take 4 u), (limb u 4). split; [|rewrite length_take; lia].
    do 5 (destruct u as [|? u]; [done|]). by destruct u. }
  rewrite Eu in T1, T3 |- *. apply Forall_app in T1 as [Hs' Hc']. apply Forall_cons in Hc' as [Hc' _].
  rewrite val_app, Ls' in T3. cbn [val] in T3. change (pw 4) with (2 ^ 256) in T3.
  pose proof (val_range s' Hs'). pose proof (fe_range m (conj Lm Hm)).
  assert (c' = 0) as -> by lia.
  rewrite limb_last, reduce_test by (done || lia). destruct (Z.leb_spec (val m) (val s' + 2 ^ 256 * 0)); [lia|].
  cbn [negb]. rewrite take_app_length' by done. split; [done|lia].
Qed.

Lemma fe_sub_m_spec a b m :
  fe a → fe b → fe m → val a < val m → val b < val m →
  fe (fe_sub_m a b m) ∧ val (fe_sub_m a b m) = (val a - val b) `mod` val m.
Proof.
  intros [La Ha] [Lb Hb] [Lm Hm] Hav Hbv. unfold fe_sub_m.
  pose proof (val_range a Ha). pose proof (val_range b Hb). pose proof (fe_range m (conj Lm Hm)).
  pose proof (sub_limbs_spec a b 0 Ha Hb ltac:(lia) ltac:(lia)) as HS.
  destruct (sub_limbs a b 0) as [s c]. destruct HS as (Hs & Ls & Hc & Hv). rewrite La in Ls, Hv.
  change (pw 4) with (2 ^ 256) in Hv. pose proof (fe_range s (conj Ls Hs)).
  destruct (nz_spec c) as [Hz|Hz].
  - assert (c = 1) as -> by lia.
    pose proof (add_limbs_spec s m 0 Hs Hm ltac:(lia) ltac:(lia)) as HT.
    destruct (add_limbs s m 0) as [u c']. destruct HT as (Hu & Lu & Hc' & Hvu). simpl.
    rewrite Ls in Lu, Hvu. change (pw 4) with (2 ^ 256) in Hvu. pose proof (fe_range u (conj Lu Hu)).
    split; [done|]. assert (c' = 1) as -> by lia. apply (Z.mod_unique _ _ (-1)); lia.
  - subst c. split; [done|]. rewrite Z.mod_small; lia.
Qed.

(** * Montgomery multiplication *)

Section mont.
Variables (b md : list Z) (inv : Z).
Hypothesis (Hb : fe b) (Hm : fe md) (Hbm : val b < val md)
  (Hinv : 0 ≤ inv < base) (Hneg : (limb md 0 * inv + 1) `mod` base = 0).

Lemma val_low t : limbs t → val t `mod` base = limb t 0.
Proof using.
  intros Ht. destruct Ht as [|x t Hx _]; [done|]. cbn [val]. unfold limb. simpl.
  rewrite Z.mul_comm, Z.mod_add by done. by apply Z.mod_small.
Qed.

Lemma val_shift t : limbs t → t ≠ [] → val t = limb t 0 + base * val (drop 1 t ++ [0]).
Proof using.
  intros Ht Hne. destruct t as [|x t]; [done|]. change (drop 1 (x :: t)) with t.
  change (limb (x :: t) 0) with x. rewrite val_app. cbn [val]. ring.
Qed.

(** One round keeps the bound and divides by the base modulo the modulus. *)
Lemma mont_step_spec t ai :
  limbs t → length t = 8%nat → 0 ≤ ai < base → val t < val b + val md →
  let t' := mont_step b md inv t ai in
  limbs t' ∧ length t' = 8%nat ∧ val t' < val b + val md ∧
  ∃ q, base * val t' = val t + ai * val b + q * val md.
Proof using All.
  intros Ht Lt Hai Hbd. destruct Hb as [Lb Hbl], Hm as [Lm Hml].
  pose proof (val_range t Ht). pose proof (fe_range b (conj Lb Hbl)). pose proof (fe_range md (conj Lm Hml)).
  unfold mont_step. unfold base in Hai, Hinv.
  assert (pw 8 = 2 ^ 512) as E8 by reflexivity.
  destruct (mac_spec t ai b 0 Ht Hbl) as (A1 & A2 & A3); [lia|unfold base; lia|done|rewrite Lt, E8; nia|].
  set (t1 := mac t ai b 0) in *. rewrite Z.add_0_r in A3.
  set (m := limb t1 0 *u inv). assert (0 ≤ m < base) as Hmr by apply u64_range.
  assert (0 ≤ m < 2 ^ 64) as Hmr' by exact Hmr.
  destruct (mac_spec t1 m md 0 A1 Hml) as (B1 & B2 & B3); [lia|done|done|rewrite A2, Lt, E8; nia|].
  set (t2 := mac t1 m md 0) in *. rewrite Z.add_0_r in B3.
  assert (limb t2 0 = 0) as Z0.
  { rewrite <- val_low, B3 by done. apply Z.mod_divide; [done|].
    pose proof (Z.div_mod (val t1) base ltac:(done)) as E1. rewrite val_low in E1 by done.
    pose proof (Z.div_mod (val md) base ltac:(done)) as E2. rewrite val_low in E2 by done.
    pose proof (Z.div_mod (limb t1 0 * inv) base ltac:(done)) as E3. change (_ `mod` base) with m in E3.
    apply Z.mod_divide in Hneg as [K E4]; [|done].
    exists (val t1 / base + m * (val md / base) + limb t1 0 * K - limb t1 0 * inv / base * limb md 0).
    rewrite E1 at 1. rewrite E2 at 1.
    replace m with (limb t1 0 * inv - base * (limb t1 0 * inv / base)) at 1 2 by lia.
    replace (limb t1 0 * K) with (limb t1 0 * K * 1) by ring.
    assert (limb t1 0 * (limb md 0 * inv) = limb t1 0 * (K * base) - limb t1 0) as E5
      by (replace (limb md 0 * inv) with (K * base - 1) by lia; ring).
    ring_simplify. ring_simplify in E5. lia. }
  assert (t2 ≠ []) as Hne by (intros E; rewrite E in B2; simpl in B2; lia).
  pose proof (val_shift t2 B1 Hne) as Hsh. rewrite Z0, Z.add_0_l in Hsh.
  split_and!.
  - apply Forall_app. split; [by apply Forall_drop|]. constructor; [done|constructor].
  - rewrite length_app, length_drop. simpl. lia.
  - apply (Z.mul_lt_mono_pos_l base); [done|]. rewrite <- Hsh, B3, A3. unfold base. nia.
  - exists m. rewrite <- Hsh, B3, A3. ring.
Qed.

Lemma mont_fold_spec a t :
  limbs a → limbs t → length t = 8%nat → val t < val b + val md →
  let t' := foldl (mont_step b md inv) t a in
  limbs t' ∧ length t' = 8%nat ∧ val t' < val b + val md ∧
  ∃ q, pw (length a) * val t' = val t + val a * val b + q * val md.
Proof using All.
  intros Ha. revert t. induction Ha as [|x a Hx _ IH]; intros t Ht Lt Hbd; cbn [foldl].
  { split_and!; try done. exists 0. unfold pw. simpl. lia. }
  destruct (mont_step_spec t x Ht Lt Hx Hbd) as (A1 & A2 & A3 & q & A4).
  destruct (IH _ A1 A2 A3) as (B1 & B2 & B3 & q' & B4). split_and!; try done.
  exists (q + base * q'). cbn [length val]. rewrite pw_S.
  transitivity (base * (pw (length a) * val (foldl (mont_step b md inv) (mont_step b md inv t x) a))); [ring|].
  rewrite B4, !Z.mul_add_distr_l, A4. ring.
Qed.

(** What is subtracted at the end. *)
Lemma high_limbs t : limbs t → length t = 8%nat →
  (nz (limb t 4) || nz (limb t 5) || nz (limb t 6) || nz (limb t 7)) = negb (val t <? 2 ^ 256).
Proof using.
  intros Ht Lt. do 8 (destruct t as [|? t]; [done|]). destruct t; [|done].
  unfold limbs in Ht. rewrite !Forall_cons in Ht. destruct Ht as (?&?&?&?&?&?&?&?&_).
  match goal with |- context [val [?a; ?b; ?c; ?d; ?e; ?f; ?g; ?h]] =>
    change (val [a; b; c; d; e; f; g; h])
      with (a + base * (b + base * (c + base * (d + base * (e + base * (f + base * (g + base * (h + base * 0)))))))) ;
    change (limb [a; b; c; d; e; f; g; h] 4) with e; change (limb [a; b; c; d; e; f; g; h] 5) with f;
    change (limb [a; b; c; d; e; f; g; h] 6) with g; change (limb [a; b; c; d; e; f; g; h] 7) with h
  end.
  cbn beta in *. unfold base in *.
  match goal with |- _ = negb (?x <? ?y) => destruct (Z.ltb_spec x y) end; cbn [negb];
    repeat match goal with |- context [nz ?x] => destruct (nz_spec x) end; cbn [orb]; done || lia.
Qed.

Lemma mont_mul_m_spec a :
  fe a → let r := mont_mul_m a b md inv in
  fe r ∧ val r < val md ∧ ∃ q, 2 ^ 256 * val r = val a * val b + q * val md.
Proof using All.
  intros [La Ha]. destruct Hb as [Lb Hbl], Hm as [Lm Hml].
  pose proof (fe_range md Hm) as Hmr. pose proof (fe_range b Hb) as Hbr.
  destruct (mont_fold_spec a [0; 0; 0; 0; 0; 0; 0; 0]) as (A1 & A2 & A3 & q & A4);
    [done|repeat constructor; done|done|cbn [val]; lia|].
  unfold mont_mul_m. set (t := foldl _ _ a) in *. rewrite La in A4. change (pw 4) with (2 ^ 256) in A4.
  cbn [val] in A4. rewrite high_limbs by done. pose proof (val_range t A1).
  assert (val t = val (take 4 t) + 2 ^ 256 * val (drop 4 t)) as Es.
  { rewrite <- (take_drop 4 t) at 1. rewrite val_app, length_take, A2. reflexivity. }
  assert (limbs (take 4 t) ∧ limbs (drop 4 t)) as [T1 T2] by (split; [by apply Forall_take|by apply Forall_drop]).
  assert (length (take 4 t) = 4%nat) as Lt by (rewrite length_take; lia).
  pose proof (val_range _ T2). pose proof (fe_range _ (conj Lt T1)).
  destruct (Z.ltb_spec (val t) (2 ^ 256)) as [Hlt|Hge]; cbn [negb].
  - assert (val (take 4 t) = val t) as Ev by lia.
    rewrite fe_ge_spec by done. rewrite Ev. destruct (Z.leb_spec (val md) (val t)).
    + destruct (sub_limbs_exact (take 4 t) md T1 Hml) as (S1 & S2 & S3); [lia..|].
      split; [split; [lia|done]|]. rewrite S3. split; [lia|]. exists (q - 2 ^ 256). rewrite Ev. lia.
    + split; [done|]. split; [lia|]. exists q. rewrite Ev. lia.
  - assert (limbs (md ++ [0; 0; 0; 0])) as Hm8 by (apply Forall_app; split; [done|]; repeat constructor; done).
    assert (val (md ++ [0; 0; 0; 0]) = val md) as Em by (rewrite val_app; cbn [val]; lia).
    destruct (sub_limbs_exact t (md ++ [0; 0; 0; 0]) A1 Hm8) as (S1 & S2 & S3);
      [rewrite length_app; simpl; lia|lia|].
    set (u := fst _) in *. rewrite Em in S3.
    assert (val u = val (take 4 u) + 2 ^ 256 * val (drop 4 u)) as Eu.
    { rewrite <- (take_drop 4 u) at 1. rewrite val_app, length_take, S2, A2. reflexivity. }
    assert (limbs (take 4 u) ∧ limbs (drop 4 u)) as [U1 U2] by (split; [by apply Forall_take|by apply Forall_drop]).
    assert (length (take 4 u) = 4%nat) as Lu by (rewrite length_take; lia).
    pose proof (val_range _ U2). pose proof (fe_range _ (conj Lu U1)).
    assert (val (drop 4 u) = 0) as E0 by lia. rewrite E0 in Eu.
    split; [done|]. split; [lia|]. exists (q - 2 ^ 256). lia.
Qed.

End mont.
