(* ===== verification/Cong.v ===== *)
(** Congruences modulo an integer as a setoid, and a primality test with a short
    certificate (Pocklington's criterion in the form of Brillhart, Lehmer and
    Selfridge), with which the two moduli of the P-256 code are shown prime. *)
From S2P Require Import Prelude.
From Stdlib Require Import Znumtheory ZmodInv Zpow_facts.
From Bignums Require Import BigN.

(** * Congruence *)

Definition cong (m x y : Z) : Prop := (m | x - y).
Notation "x ≡[ m ] y" := (cong m x y) (at level 70, m at level 200, y at next level) : axon_scope.

#[export] Instance cong_equiv m : Equivalence (cong m).
Proof.
  split.
  - intros x. exists 0. lia.
  - intros x y [k H]. exists (- k). lia.
  - intros x y z [k H] [j H']. exists (k + j). lia.
Qed.

#[export] Instance cong_add m : Proper (cong m ==> cong m ==> cong m) Z.add.
Proof. intros x x' [k H] y y' [j H']. exists (k + j). lia. Qed.
#[export] Instance cong_sub m : Proper (cong m ==> cong m ==> cong m) Z.sub.
Proof. intros x x' [k H] y y' [j H']. exists (k - j). lia. Qed.
#[export] Instance cong_mul m : Proper (cong m ==> cong m ==> cong m) Z.mul.
Proof. intros x x' [k H] y y' [j H']. exists (k * y + x' * j). nia. Qed.
#[export] Instance cong_opp m : Proper (cong m ==> cong m) Z.opp.
Proof. intros x x' [k H]. exists (- k). lia. Qed.
#[export] Instance cong_pow m : Proper (cong m ==> eq ==> cong m) Z.pow.
Proof.
  intros x x' H e ? <-. destruct (Z.le_gt_cases 0 e) as [He|He].
  - pattern e. apply natlike_ind; [done| |done]. intros k Hk IH.
    rewrite !Z.pow_succ_r by done. by rewrite IH, H.
  - by rewrite !Z.pow_neg_r.
Qed.

Lemma eq_cong m x y : x = y → x ≡[m] y.
Proof. by intros ->. Qed.

Lemma cong_mod m x : m ≠ 0 → x `mod` m ≡[m] x.
Proof. intros Hm. exists (- (x / m)). pose proof (Z.div_mod x m Hm). lia. Qed.

Lemma cong_iff m x y : m ≠ 0 → x ≡[m] y ↔ x `mod` m = y `mod` m.
Proof.
  intros Hm. split.
  - intros [k H]. replace x with (y + k * m) by lia. by apply Z.mod_add.
  - intros H. rewrite <- (cong_mod m x Hm), H. by apply cong_mod.
Qed.

Lemma cong_small m x y : 0 ≤ x < m → 0 ≤ y < m → x ≡[m] y → x = y.
Proof. intros Hx Hy H. apply cong_iff in H; [|lia]. by rewrite !Z.mod_small in H. Qed.

Lemma cong_0 m x : x ≡[m] 0 ↔ (m | x).
Proof. unfold cong. by rewrite Z.sub_0_r. Qed.

Lemma cong_divide q m x y : (q | m) → x ≡[m] y → x ≡[q] y.
Proof. intros Hq H. by apply Z.divide_trans with m. Qed.

(** * Powers that are one *)

Lemma pow_one_sub q b k l :
  0 ≤ l ≤ k → b ^ k ≡[q] 1 → b ^ l ≡[q] 1 → b ^ (k - l) ≡[q] 1.
Proof.
  intros Hl Hk Hl1. replace k with ((k - l) + l) in Hk by lia.
  rewrite Z.pow_add_r, Hl1, Z.mul_1_r in Hk by lia.
  by replace (k - l + l - l) with (k - l) in Hk by lia.
Qed.

Lemma pow_one_mul q b k j : 0 ≤ k → 0 ≤ j → b ^ k ≡[q] 1 → b ^ (k * j) ≡[q] 1.
Proof. intros Hk Hj H. rewrite Z.pow_mul_r, H, Z.pow_1_l by done. done. Qed.

Lemma pow_one_gcd q b k l :
  0 ≤ k → 0 ≤ l → b ^ k ≡[q] 1 → b ^ l ≡[q] 1 → b ^ Z.gcd k l ≡[q] 1.
Proof.
  intros Hk0. revert l. pattern k. apply Z_lt_induction; [|exact Hk0]. clear k Hk0.
  intros k IH l Hl Hk Hl1. destruct (decide (k ≤ 0)) as [Hz|Hz].
  { destruct (decide (k = 0)) as [->|Hn]; [by rewrite Z.gcd_0_l, Z.abs_eq|].
    rewrite Z.pow_neg_r in Hk by lia. destruct Hk as [j Hj].
    assert (q = 1 ∨ q = -1) as Hq by (apply Z.divide_1_r; exists (- j); lia).
    exists ((b ^ Z.gcd k l - 1) * q). destruct Hq as [-> | ->]; lia. }
  pose proof (Z.mod_pos_bound l k ltac:(lia)) as Hm. pose proof (Z.div_mod l k ltac:(lia)) as Hd.
  pose proof (Z.div_pos l k Hl ltac:(lia)).
  assert (b ^ (l `mod` k) ≡[q] 1) as Hr.
  { replace (l `mod` k) with (l - k * (l / k)) by lia.
    apply pow_one_sub; [nia|done|]. apply pow_one_mul; done || lia. }
  rewrite <- (Z.gcd_mod l k) by lia. apply (IH (l `mod` k) ltac:(lia)); done || lia.
Qed.

(** * Powers modulo a number, by squaring *)

(** The certificate is checked by computation on the kernel's native words. *)
Fixpoint pow_big (b : BigN.t) (e : positive) (m : BigN.t) : BigN.t :=
  match e with
  | xH => BigN.modulo b m
  | xO e => let r := pow_big b e m in BigN.modulo (BigN.mul r r) m
  | xI e => let r := pow_big b e m in BigN.modulo (BigN.mul (BigN.modulo (BigN.mul r r) m) b) m
  end.
Definition pow_mod (b : Z) (e : positive) (m : Z) : Z :=
  BigN.to_Z (pow_big (BigN.of_N (Z.to_N b)) e (BigN.of_N (Z.to_N m))).

Lemma of_Z x : 0 ≤ x → BigN.to_Z (BigN.of_N (Z.to_N x)) = x.
Proof. intros Hx. by rewrite BigN.spec_of_N, Z2N.id. Qed.

Lemma pow_big_spec b e m : BigN.to_Z m ≠ 0 →
  BigN.to_Z (pow_big b e m) = BigN.to_Z b ^ Zpos e `mod` BigN.to_Z m.
Proof.
  intros Hm. induction e as [e IH|e IH|]; cbn [pow_big].
  - rewrite !BigN.spec_modulo, !BigN.spec_mul, !BigN.spec_modulo, BigN.spec_mul, IH.
    rewrite <- Z.mul_mod, Z.mul_mod_idemp_l by done. f_equal. rewrite Pos2Z.inj_xI, Z.pow_add_r, Z.pow_1_r by lia.
    replace (2 * Zpos e) with (Zpos e + Zpos e) by lia. by rewrite Z.pow_add_r by lia.
  - rewrite BigN.spec_modulo, BigN.spec_mul, IH, <- Z.mul_mod by done. rewrite Pos2Z.inj_xO.
    replace (2 * Zpos e) with (Zpos e + Zpos e) by lia. by rewrite Z.pow_add_r by lia.
  - by rewrite BigN.spec_modulo, Z.pow_1_r.
Qed.

Lemma pow_mod_spec b e m : 0 ≤ b → 0 < m → pow_mod b e m = b ^ Zpos e `mod` m.
Proof. intros Hb Hm. unfold pow_mod. rewrite pow_big_spec, !of_Z; rewrite ?of_Z; lia || done. Qed.

(** * Small primes, by trial division *)

Fixpoint no_divisor (k : nat) (d n : BigN.t) : bool :=
  match k with
  | O => true
  | S k => negb (BigN.eqb (BigN.modulo n d) BigN.zero) && no_divisor k (BigN.succ d) n
  end.
Definition trial (n : Z) : bool :=
  (1 <? n) && no_divisor (Z.to_nat (Z.sqrt n - 1)) (BigN.of_N 2) (BigN.of_N (Z.to_N n)).

Lemma no_divisor_spec k d n c : no_divisor k d n = true →
  BigN.to_Z d ≤ c < BigN.to_Z d + k → 0 < BigN.to_Z d → ¬ (c | BigN.to_Z n).
Proof.
  revert d. induction k as [|k IH]; intros d H Hc Hd; [lia|]. cbn [no_divisor] in H.
  apply andb_true_iff in H as [H1%negb_true_iff H2]. rewrite BigN.spec_eqb, BigN.spec_modulo in H1.
  apply Z.eqb_neq in H1. change (BigN.to_Z BigN.zero) with 0 in H1.
  destruct (decide (c = BigN.to_Z d)) as [->|Hne].
  - intros Hdiv. apply H1. by apply Z.mod_divide; [lia|].
  - apply (IH (BigN.succ d)); rewrite ?BigN.spec_succ; done || lia.
Qed.

Lemma trial_prime n : trial n = true → Z.prime n.
Proof.
  intros H. apply andb_true_iff in H as [H1%Z.ltb_lt H2]. split; [done|].
  intros c Hc [e He]. pose proof (Z.sqrt_spec n ltac:(lia)) as Hs. pose proof (Z.sqrt_nonneg n).
  assert (∀ x, 1 < x ≤ Z.sqrt n → ¬ (x | n)) as Hno
    by (intros x Hx Hd; apply (no_divisor_spec _ _ _ x H2); rewrite ?of_Z; done || (change (BigN.to_Z (BigN.of_N 2)) with 2; lia)).
  destruct (decide (c ≤ Z.sqrt n)).
  - apply (Hno c); [lia|]. by exists e.
  - set (r := Z.sqrt n) in *. clearbody r.
    assert (1 < e) by (destruct (Z.le_gt_cases e 1); [|done]; nia).
    apply (Hno e); [|exists c; lia]. split; [done|]. destruct (Z.le_gt_cases e r); [done|].
    unfold Z.succ in Hs. assert ((r + 1) * (r + 1) ≤ e * c) by nia. lia.
Qed.

Lemma prime_factor n : 1 < n → ∃ q, Z.prime q ∧ (q | n).
Proof.
  intros Hn. assert (0 ≤ n) as Hn0 by lia. revert Hn. pattern n.
  apply Z_lt_induction; [|exact Hn0]. clear n Hn0. intros n IH Hn.
  destruct (prime_dec n) as [Hp|Hp]; [exists n; split; [by apply prime_alt|done]|].
  destruct (not_prime_divide n Hn Hp) as (d & Hd & Hdn).
  destruct (IH d ltac:(lia) ltac:(lia)) as (q & Hq & Hqd). exists q. split; [done|].
  by apply Z.divide_trans with d.
Qed.

(** * The certificate *)

Definition prod (l : list Z) : Z := foldr Z.mul 1 l.

Lemma prod_divide l x :
  Forall Z.prime l → NoDup l → (∀ f, f ∈ l → (f | x)) → (prod l | x).
Proof.
  intros Hp. induction Hp as [|f l Hf Hp IH]; intros Hnd Hx; [exists x; simpl; lia|].
  apply NoDup_cons in Hnd as [Hni Hnd]. cbn [prod foldr].
  destruct (Hx f) as [y ->]; [by left|].
  assert (Z.coprime (prod l) f) as Hc.
  { clear IH Hnd Hx. induction Hp as [|g l Hg Hp IHp]; [apply Z.coprime_1_l|]. cbn [prod foldr].
    apply Z.coprime_mul_l.
    - apply Z.coprime_prime_l; [done|]. intros Hgf. apply Z.divide_prime_prime in Hgf; [|done..].
      subst. apply Hni. by left.
    - apply IHp. intros Hin. apply Hni. by right. }
  rewrite Z.mul_comm. apply Z.mul_divide_mono_r.
  apply Z.gauss with f; [|done]. rewrite Z.mul_comm. apply IH; [done|].
  intros g Hg. apply Hx. by right.
Qed.

(** Every prime factor of [n] is one more than a multiple of [f]. *)
Lemma factor_cong n f q :
  Z.prime f → Z.prime q → (q | n) → 1 < n → (f | n - 1) →
  2 ^ (n - 1) ≡[n] 1 → Z.gcd (2 ^ ((n - 1) / f) `mod` n - 1) n = 1 → (f | q - 1).
Proof.
  intros Hf Hq Hqn Hn Hfn H1 Hg. set (b := 2 ^ ((n - 1) / f)).
  pose proof (Z.prime_ge_2 q Hq). pose proof (Z.prime_ge_2 f Hf).
  pose proof (Z.div_pos (n - 1) f ltac:(lia) ltac:(lia)).
  assert (b ^ f ≡[q] 1) as Hbf.
  { unfold b. rewrite <- Z.pow_mul_r by lia. apply (cong_divide q n); [done|].
    replace ((n - 1) / f * f) with (n - 1); [done|]. rewrite Z.mul_comm. by apply Z_div_exact_full_2; [lia|]; apply Z.mod_divide; [lia|]. }
  assert (¬ b ≡[q] 1) as Hb1.
  { intros Hb. assert ((q | Z.gcd (b `mod` n - 1) n)) as Hd.
    { apply Z.gcd_greatest; [|done]. change (b `mod` n ≡[q] 1). transitivity b; [|done].
      apply (cong_divide q n); [done|]. apply cong_mod. lia. }
    unfold b in Hd. rewrite Hg in Hd. apply Z.divide_1_r in Hd. lia. }
  assert (b `mod` q ≠ 0) as Hb0.
  { intros Hz. apply Z.mod_divide in Hz; [|lia]. apply cong_0 in Hz. rewrite Hz, Z.pow_0_l in Hbf by lia.
    symmetry in Hbf. apply cong_0, Z.divide_1_r in Hbf. lia. }
  pose proof (Z.fermat_nz q b Hq Hb0) as Hfer.
  assert (b ^ (q - 1) ≡[q] 1) as Hbq.
  { apply cong_iff; [lia|]. rewrite (Z.mod_small 1) by lia. exact Hfer. }
  pose proof (pow_one_gcd q b f (q - 1) ltac:(lia) ltac:(lia) Hbf Hbq) as Hgc.
  destruct (decide ((q - 1) `mod` f = 0)) as [Hd|Hd]; [by apply Z.mod_divide in Hd; [|lia]|]. exfalso.
  assert (¬ (f | q - 1)) as Hnd by (intros Hx; apply Hd; by apply Z.mod_divide; [lia|]).
  pose proof (Z.coprime_prime_l f (q - 1) Hf Hnd) as Hco. unfold Z.coprime in Hco.
  rewrite Hco, Z.pow_1_r in Hgc. done.
Qed.

(** What [certificate n fs] checks by computation. *)
Definition certificate (n : Z) (fs : list Z) : bool :=
  let F := prod fs in
  let t := n / (F * F) in
  let u := n `mod` (F * F) / F in
  let d := u * u - 4 * t in
  (1 <? n) && forallb trial fs && bool_decide (NoDup fs) && (n <? F * F * F) &&
  ((n - 1) `mod` F =? 0) && (pow_mod 2 (Z.to_pos (n - 1)) n =? 1) &&
  forallb (λ f, Z.gcd (pow_mod 2 (Z.to_pos ((n - 1) / f)) n - 1) n =? 1) fs &&
  negb (Z.sqrt d * Z.sqrt d =? d).

(** If both factors of [n] are one more than a multiple of [F], [n] in base [F]
    gives away their sum and product. *)
Lemma digits_small F a b :
  1 ≤ a → 1 ≤ b → 1 < F → (a * F + 1) * (b * F + 1) < F * F * F → a * b < F ∧ a + b < F.
Proof.
  intros Ha Hb HF Hlt. assert (a * b < F) as Hp.
  { apply (Z.mul_lt_mono_pos_r (F * F)); [nia|]. ring_simplify. ring_simplify in Hlt.
    assert (0 ≤ a * F + F * b) by nia. lia. }
  split; [done|]. assert (a + b ≤ a * b + 1) by nia.
  destruct (decide (a + b < F)); [done|].
  assert (b = F - a) as -> by lia. assert (a * (F - a) = F - 1) as E by lia.
  assert ((a * F + 1) * ((F - a) * F + 1) = a * (F - a) * (F * F) + F * F + 1) as E1 by ring.
  rewrite E1, E in Hlt. ring_simplify in Hlt. lia.
Qed.

Lemma split_square F a b (n := (a * F + 1) * (b * F + 1)) (u := n `mod` (F * F) / F)
  (d := u * u - 4 * (n / (F * F))) :
  1 ≤ a → 1 ≤ b → 1 < F → n < F * F * F → Z.sqrt d * Z.sqrt d = d.
Proof.
  intros Ha Hb HF Hlt. destruct (digits_small F a b Ha Hb HF Hlt) as [_ Hs].
  assert (n = a * b * (F * F) + ((a + b) * F + 1)) as En by (unfold n; ring).
  assert (0 ≤ (a + b) * F + 1 < F * F) as Hlow.
  { split; [nia|]. assert ((a + b) * F ≤ (F - 1) * F) by (apply Z.mul_le_mono_nonneg_r; lia). lia. }
  assert (n / (F * F) = a * b) as Ed by (symmetry; by apply (Z.div_unique_pos _ _ _ ((a + b) * F + 1)); [|lia]).
  assert (u = a + b) as Eu.
  { unfold u. rewrite <- (Z.mod_unique_pos n (F * F) (a * b) ((a + b) * F + 1)); [|done|lia].
    symmetry. apply (Z.div_unique_pos _ _ _ 1); lia. }
  assert (d = Z.abs (a - b) * Z.abs (a - b)) as ->.
  { unfold d. rewrite Ed, Eu. destruct (Z.abs_eq_or_opp (a - b)) as [-> | ->]; ring. }
  by rewrite Z.sqrt_square by lia.
Qed.

Lemma prod_elem f l : f ∈ l → (f | prod l).
Proof.
  induction l as [|g l IH]; [by intros ?%not_elem_of_nil|]. cbn [prod foldr].
  intros [->|Hf]%elem_of_cons; [by exists (prod l); rewrite Z.mul_comm|].
  by apply Z.divide_mul_r, IH.
Qed.

Lemma factors_cong n fs q :
  forallb trial fs = true → NoDup fs → 1 < n → (prod fs | n - 1) →
  pow_mod 2 (Z.to_pos (n - 1)) n = 1 →
  forallb (λ f, Z.gcd (pow_mod 2 (Z.to_pos ((n - 1) / f)) n - 1) n =? 1) fs = true →
  Z.prime q → (q | n) → (prod fs | q - 1).
Proof.
  rewrite !forallb_forall. intros Htr Hnd Hn HF H2 Hg Hq Hqn.
  assert (∀ f, f ∈ fs → Z.prime f) as Hfs by (intros f Hf; apply trial_prime, Htr; by apply list_elem_of_In).
  apply prod_divide; [by apply Forall_forall|done|]. intros f Hf.
  pose proof (Z.prime_ge_2 f (Hfs f Hf)).
  assert ((f | n - 1)) as Hfn by (apply Z.divide_trans with (prod fs); [by apply prod_elem|done]).
  assert (0 < (n - 1) / f) by (apply Z.div_str_pos; split; [lia|]; apply Z.divide_pos_le; [lia|done]).
  apply (factor_cong n f q); [by apply Hfs|done..| |].
  - apply cong_iff; [lia|]. rewrite (Z.mod_small 1) by lia.
    rewrite pow_mod_spec in H2 by lia. by rewrite Z2Pos.id in H2 by lia.
  - apply list_elem_of_In, Hg, Z.eqb_eq in Hf.
    rewrite pow_mod_spec in Hf by lia. by rewrite Z2Pos.id in Hf by lia.
Qed.

Theorem certificate_prime n fs : certificate n fs = true → Z.prime n.
Proof.
  unfold certificate. cbn zeta. rewrite !andb_true_iff, negb_true_iff, Z.eqb_neq, !Z.eqb_eq, !Z.ltb_lt.
  intros (((((((Hn & Htr) & Hnd) & Hlt) & HF) & H2) & Hg) & Hsq). apply bool_decide_eq_true in Hnd.
  pose proof (factors_cong n fs) as Hfac. set (F := prod fs) in *.
  assert (1 < F) as HF1.
  { destruct (decide (F ≤ 0)) as [Hneg|]; [|destruct (decide (F = 1)) as [E|]; [rewrite E in Hlt; lia|lia]].
    pose proof (Z.mul_nonneg_nonpos (F * F) F ltac:(nia) Hneg). lia. }
  assert ((F | n - 1)) as HFn by (apply Z.mod_divide; [lia|done]).
  split; [done|]. intros k Hk Hkn. apply Hsq.
  destruct (prime_factor k ltac:(lia)) as (q & Hq & Hqk).
  assert ((q | n)) as Hqn by by apply Z.divide_trans with k.
  pose proof (Z.prime_ge_2 q Hq). pose proof (Z.divide_pos_le q k ltac:(lia) Hqk).
  destruct (Hfac q) as [a Ha]; [done..|]. destruct Hqn as [r Hr], HFn as [y Hy].
  assert (r = (y - a * r) * F + 1) as Er by (transitivity (n - (q - 1) * r); [nia|]; rewrite Ha; lia).
  remember (y - a * r) as b. assert (n = (a * F + 1) * (b * F + 1)) as En by (rewrite <- Er; nia).
  assert (0 < a * F) as Ha1%(Z.mul_pos_cancel_r _ F ltac:(lia)) by lia.
  assert (0 < b * F) as Hb1%(Z.mul_pos_cancel_r _ F ltac:(lia)).
  { destruct (Z.le_gt_cases r 1); [|lia]. assert (r * q ≤ 1 * q) by (apply Z.mul_le_mono_nonneg_r; lia). lia. }
  rewrite En in Hlt |- *. apply split_square; [lia|lia|done|done].
Qed.
