(* ===== verification/EccMod.v ===== *)
(** The arithmetic of [crypto/ecc.c] modulo the two primes of P-256.

    [Modulus] is what [mont_mul_m] and its clients need of the constants compiled
    into the file; the field prime and the group order are its two instances.
    Against this interface: Montgomery products, the conversions, [mod_mul_n],
    [mod_exp], and inversion by Fermat's little theorem. *)
From S2P Require Import Prelude EccField Cong.
From Stdlib Require Import Znumtheory ZmodInv.
Import Fe.

(** [rinv] is an inverse of [2 ^ 256]; the code never computes it. *)
Class Modulus (md : list Z) (inv : Z) (r2 : list Z) (rinv : Z) : Prop := {
  md_fe : fe md;
  md_big : 2 < val md;
  md_inv : 0 ≤ inv < base;
  md_neg : (limb md 0 * inv + 1) `mod` base = 0;
  md_r2 : fe r2;
  md_r2_val : val r2 = 2 ^ 512 `mod` val md;
  md_rinv : rinv * 2 ^ 256 ≡[val md] 1;
  md_prime : Z.prime (val md)
}.

Definition p : Z := val P.
Definition n : Z := val N.
Definition rinv_p : Z := 115792089183396302114378112356516095823261736990586219612555396166510339686400.
Definition rinv_n : Z := 43790243014242295660885426880012836369732278457577312309071968676491870960761.

Lemma fe_decide a : bool_decide (length a = 4%nat) && forallb (λ x, (0 <=? x) && (x <? base)) a = true → fe a.
Proof.
  intros [H1%bool_decide_eq_true H2]%andb_true_iff. split; [done|]. apply Forall_forall. intros x Hx.
  rewrite forallb_forall in H2. apply list_elem_of_In, H2 in Hx. lia.
Qed.

Lemma cong_decide m x y : m ≠ 0 → x `mod` m =? y `mod` m = true → x ≡[m] y.
Proof. intros Hm H%Z.eqb_eq. by apply cong_iff. Qed.

#[export] Instance modulus_p : Modulus P P0INV R2P rinv_p.
Proof.
  split; [by apply fe_decide|done|done|done|by apply fe_decide|done|by apply cong_decide|].
  apply (certificate_prime _ [257; 641; 1531; 65537; 490463; 6700417]). by vm_compute.
Qed.

#[export] Instance modulus_n : Modulus N N0INV R2N rinv_n.
Proof.
  split; [by apply fe_decide|done|done|done|by apply fe_decide|done|by apply cong_decide|].
  apply (certificate_prime _ [17449; 38189; 187019741; 622491383]). by vm_compute.
Qed.

(** * Bits of an exponent *)

Lemma testbit_limb l (i j : nat) : limbs l → (j < 64)%nat → Z.testbit (val l) (64 * i + j) = Z.testbit (limb l i) j.
Proof.
  intros Hl Hj. revert i. induction Hl as [|x l Hx _ IH]; intros i.
  { unfold limb. rewrite lookup_nil. by rewrite !Z.testbit_0_l. }
  cbn [val]. destruct i as [|i].
  - change (limb (x :: l) 0) with x. rewrite Z.mul_0_r, Z.add_0_l.
    rewrite <- (Z.mod_pow2_bits_low (_ + _) 64) by lia. f_equal. rewrite Z.mul_comm.
    rewrite Z.mod_add by done. apply Z.mod_small. exact Hx.
  - change (limb (x :: l) (S i)) with (limb l i). rewrite <- IH.
    replace (64 * S i + j) with (64 * i + j + 64) by lia. rewrite <- Z.div_pow2_bits by lia. f_equal.
    rewrite Z.mul_comm, Z.div_add, Z.div_small by done. lia.
Qed.

Lemma exp_bit_spec e (bit : nat) : limbs e → exp_bit e bit = Z.testbit (val e) bit.
Proof.
  intros He. pose proof (Nat.div_mod bit 64 ltac:(done)) as E.
  pose proof (Nat.mod_upper_bound bit 64 ltac:(done)).
  replace (Z.of_nat bit) with (64 * Z.of_nat (bit / 64)%nat + Z.of_nat (bit mod 64)) by lia.
  rewrite testbit_limb by done. unfold exp_bit. change 1 with (Z.ones 1).
  rewrite Z.land_ones, Z.shiftr_div_pow2 by lia. change (2 ^ 1) with 2.
  rewrite <- Z.testbit_spec' by lia. by destruct (Z.testbit _ _).
Qed.

Lemma mod_pow2_S x (i : nat) : x `mod` 2 ^ Z.of_nat (S i) = x `mod` 2 ^ i + 2 ^ i * Z.b2z (Z.testbit x i).
Proof.
  rewrite Z.testbit_spec' by lia. rewrite Nat2Z.inj_succ, Z.pow_succ_r, (Z.mul_comm 2) by lia.
  apply Z.rem_mul_r; [apply Z.pow_nonzero; lia|lia].
Qed.

(** * Products, conversions and powers *)

(** A reduced element of the field. *)
Definition red (md a : list Z) : Prop := fe a ∧ val a < val md.

Lemma fe_ONE : fe ONE.
Proof. by apply fe_decide. Qed.

Section modulus.
Context {md : list Z} {inv : Z} {r2 : list Z} {rinv : Z} {M : Modulus md inv r2 rinv}.
Abbreviation m := (val md).

(** What an element in Montgomery form stands for. *)
Definition dec (a : list Z) : Z := val a * rinv.

Lemma m_pos : 0 < m.
Proof using M. pose proof md_big. lia. Qed.

Lemma red_range a : red md a → 0 ≤ val a < m.
Proof using. intros [Ha ?]. pose proof (fe_range a Ha). lia. Qed.

Lemma red_ONE : red md ONE.
Proof using M. split; [apply fe_ONE|]. change (val ONE) with 1. pose proof md_big. lia. Qed.

Lemma red_r2 : red md r2.
Proof using M. split; [apply md_r2|]. rewrite md_r2_val. apply Z.mod_pos_bound, m_pos. Qed.

Lemma mont_mul_cong a b : fe a → red md b →
  red md (mont_mul_m a b md inv) ∧ val (mont_mul_m a b md inv) ≡[m] val a * val b * rinv.
Proof using M.
  intros Ha [Hb Hlt].
  destruct (mont_mul_m_spec b md inv Hb md_fe Hlt md_inv md_neg a Ha) as (H1 & H2 & q & H3).
  split; [done|]. transitivity (rinv * 2 ^ 256 * val (mont_mul_m a b md inv)).
  { rewrite md_rinv. by rewrite Z.mul_1_l. }
  rewrite <- Z.mul_assoc, H3. exists (rinv * q). ring.
Qed.

Lemma mul_dec a b : fe a → red md b →
  red md (mont_mul_m a b md inv) ∧ dec (mont_mul_m a b md inv) ≡[m] dec a * dec b.
Proof using M.
  intros Ha Hb. destruct (mont_mul_cong a b Ha Hb) as [H1 H2]. split; [done|].
  unfold dec. rewrite H2. apply eq_cong. ring.
Qed.

Lemma rinv_512 : 2 ^ 512 * rinv * rinv ≡[m] 1.
Proof using M.
  transitivity ((rinv * 2 ^ 256) * (rinv * 2 ^ 256)).
  - apply eq_cong. change (2 ^ 512) with (2 ^ 256 * 2 ^ 256). ring.
  - by rewrite md_rinv.
Qed.

Lemma to_mont_dec a : fe a → red md (mont_mul_m a r2 md inv) ∧ dec (mont_mul_m a r2 md inv) ≡[m] val a.
Proof using M.
  intros Ha. destruct (mont_mul_cong a r2 Ha red_r2) as [H1 H2]. split; [done|]. unfold dec.
  rewrite H2, (@md_r2_val _ _ _ _ M), cong_mod by (pose proof m_pos; lia).
  transitivity (val a * (2 ^ 512 * rinv * rinv)); [apply eq_cong; ring|]. by rewrite rinv_512, Z.mul_1_r.
Qed.

Lemma from_mont_val a : fe a →
  red md (mont_mul_m a ONE md inv) ∧ val (mont_mul_m a ONE md inv) = dec a `mod` m.
Proof using M.
  intros Ha. destruct (mont_mul_cong a ONE Ha red_ONE) as [H1 H2]. split; [done|].
  apply (cong_small m); [by apply red_range|apply Z.mod_pos_bound, m_pos|].
  rewrite cong_mod by (pose proof m_pos; lia). rewrite H2. change (val ONE) with 1. unfold dec.
  by rewrite Z.mul_1_r.
Qed.

Lemma dec_zero a : red md a → dec a ≡[m] 0 ↔ val a = 0.
Proof using M.
  intros Ha. split; [|intros E; unfold dec; by rewrite E].
  intros H. apply (cong_small m); [by apply red_range|pose proof m_pos; lia|].
  transitivity (dec a * 2 ^ 256).
  - unfold dec. rewrite <- Z.mul_assoc, md_rinv. by rewrite Z.mul_1_r.
  - by rewrite H.
Qed.

Lemma dec_inj a b : red md a → red md b → dec a ≡[m] dec b → val a = val b.
Proof using M.
  intros Ha Hb H. apply (cong_small m); [by apply red_range..|].
  rewrite <- (Z.mul_1_r (val a)), <- (Z.mul_1_r (val b)), <- md_rinv, !Z.mul_assoc. unfold dec in H. by rewrite H.
Qed.

Lemma add_dec a b : red md a → red md b →
  red md (fe_add_m a b md) ∧ dec (fe_add_m a b md) ≡[m] dec a + dec b.
Proof using M.
  intros [Ha Hav] [Hb Hbv]. destruct (fe_add_m_spec a b md Ha Hb md_fe Hav Hbv) as [H1 H2].
  pose proof m_pos. unfold red, dec. rewrite H2. split.
  - split; [done|]. by apply Z.mod_pos_bound.
  - rewrite cong_mod by lia. apply eq_cong. ring.
Qed.

Lemma sub_dec a b : red md a → red md b →
  red md (fe_sub_m a b md) ∧ dec (fe_sub_m a b md) ≡[m] dec a - dec b.
Proof using M.
  intros [Ha Hav] [Hb Hbv]. destruct (fe_sub_m_spec a b md Ha Hb md_fe Hav Hbv) as [H1 H2].
  pose proof m_pos. unfold red, dec. rewrite H2. split.
  - split; [done|]. by apply Z.mod_pos_bound.
  - rewrite cong_mod by lia. apply eq_cong. ring.
Qed.

Lemma exp_loop B e (k i : nat) acc bm : limbs e →
  red md acc → red md bm → dec acc ≡[m] B ^ (val e `mod` 2 ^ i) → dec bm ≡[m] B ^ (2 ^ i) →
  let '(acc', _) := foldl (exp_step e md inv) (acc, bm) (seq i k) in
  red md acc' ∧ dec acc' ≡[m] B ^ (val e `mod` 2 ^ (i + k)).
Proof using M.
  intros He. revert i acc bm. induction k as [|k IH]; intros i acc bm Ha Hb Hda Hdb; cbn [seq foldl].
  { by rewrite Z.add_0_r. }
  assert (0 < 2 ^ i) by (apply Z.pow_pos_nonneg; lia).
  pose proof (Z.mod_pos_bound (val e) (2 ^ i) ltac:(done)).
  unfold exp_step at 2. rewrite exp_bit_spec by done.
  replace (i + Z.of_nat (S k)) with (Z.of_nat (S i) + k) by lia.
  apply IH.
  - destruct (Z.testbit _ _); [|done]. apply mul_dec; [apply Ha|done].
  - apply mul_dec; [apply Hb|done].
  - rewrite mod_pow2_S. destruct (Z.testbit (val e) i) eqn:Hbit; cbn [Z.b2z].
    + destruct (mul_dec acc bm (proj1 Ha) Hb) as [_ ->]. rewrite Hda, Hdb, Z.mul_1_r.
      by rewrite Z.pow_add_r by lia.
    + by rewrite Z.mul_0_r, Z.add_0_r.
  - destruct (mul_dec bm bm (proj1 Hb) Hb) as [_ ->]. rewrite Hdb.
    rewrite Nat2Z.inj_succ, Z.pow_succ_r by lia. rewrite <- Z.pow_add_r by lia. apply eq_cong. f_equal. lia.
Qed.

(** [mod_exp] is exponentiation in the integers modulo the modulus. *)
Lemma mod_exp_val b e : fe b → fe e →
  red md (mod_exp b e md inv r2) ∧ val (mod_exp b e md inv r2) = val b ^ val e `mod` m.
Proof using M.
  intros Hb He. unfold mod_exp.
  destruct (to_mont_dec b Hb) as [B1 B2]. destruct (to_mont_dec ONE fe_ONE) as [O1 O2].
  pose proof (exp_loop (val b) e 256 0 _ _ (proj2 He) O1 B1) as HL.
  destruct (foldl _ _ _) as [acc bm]. destruct HL as [H1 H2].
  { rewrite O2. change (2 ^ Z.of_nat 0) with 1. by rewrite Z.mod_1_r. }
  { rewrite B2. change (2 ^ Z.of_nat 0) with 1. by rewrite Z.pow_1_r. }
  destruct (from_mont_val acc (proj1 H1)) as [R1 R2]. split; [done|]. rewrite R2.
  apply cong_iff; [pose proof m_pos; lia|]. rewrite H2.
  rewrite Z.mod_small; [done|]. change (2 ^ (Z.of_nat 0 + Z.of_nat 256)) with (2 ^ 256). by apply fe_range.
Qed.

(** Raising to [m - 2] inverts. *)
Lemma fermat_inverse a : a `mod` m ≠ 0 → a ^ (m - 2) * a ≡[m] 1.
Proof using M.
  intros Ha. pose proof md_big. pose proof (Z.fermat_nz m a md_prime Ha) as Hf.
  replace (a ^ (m - 2) * a) with (a ^ (m - 1)).
  - apply cong_iff; [lia|]. by rewrite Hf, Z.mod_small by lia.
  - rewrite <- (Z.pow_1_r a) at 3. rewrite <- Z.pow_add_r by lia. f_equal. lia.
Qed.

(** [a ^ (m - 2)] as the code computes it. *)
Lemma mod_exp_inverse a e : fe a → fe e → val e = m - 2 → ¬ val a ≡[m] 0 →
  red md (mod_exp a e md inv r2) ∧ val (mod_exp a e md inv r2) * val a ≡[m] 1.
Proof using M.
  intros Ha He Hv Hnz. destruct (mod_exp_val a e Ha He) as [H1 H2]. split; [done|].
  pose proof m_pos. rewrite H2, Hv, cong_mod by lia. apply fermat_inverse. intros E. apply Hnz.
  by apply cong_iff; [lia|]; rewrite E.
Qed.

(** The modulus is prime, so there are no zero divisors. *)
Lemma cong_mul_0 x y : x * y ≡[m] 0 → x ≡[m] 0 ∨ y ≡[m] 0.
Proof using M. rewrite !cong_0. apply Z.divide_prime_mul, md_prime. Qed.

Lemma cong_cancel x y z : ¬ z ≡[m] 0 → x * z ≡[m] y * z → x ≡[m] y.
Proof using M.
  intros Hz H. destruct (cong_mul_0 (x - y) z) as [H0|]; [|by apply cong_0|done].
  rewrite Z.mul_sub_distr_r, H. by rewrite Z.sub_diag.
Qed.

End modulus.
#[global] Arguments dec rinv a : clear implicits, simpl never.
