(* ===== verification/Ecc.v ===== *)
(** ECDSA over P-256 ([crypto/ecc.c]) on top of [EccField]: Jacobian point
    arithmetic, scalar multiplication, byte conversion, key generation, the
    deterministic nonce of RFC 6979, signing and verification; and the generator
    of [crypto/rand.c] that key generation draws from.

    An output array of the C code is part of the result; a status of [-1] is
    [None].  The outer [option] of the routines that hash is the fuel of the
    SHA-256 loops, and of [ecdsa_sign] also that of its recursion. *)
From S2P Require Import Prelude Sha256 EccField.
Import Sha256 Fe.

Module Ecc.

Definition G_X : list Z := [0xf4a13945d898c296; 0x77037d812deb33a0; 0xf8bce6e563a440f2; 0x6b17d1f2e12c4247].
Definition G_Y : list Z := [0xcbb6406837bf51f5; 0x2bce33576b315ece; 0x8ee7eb4a7c0f9e16; 0x4fe342e2fe1a7f9b].

(** The file's static variables. *)
Record curve := MkCurve {
  GXm : list Z; GYm : list Z; ONEM : list Z; PM2 : list Z; NM2 : list Z; g_curve_ready : bool
}.
Definition curve0 : curve := MkCurve fe_zero fe_zero fe_zero fe_zero fe_zero false.

Definition curve_init (c : curve) : curve :=
  if g_curve_ready c then c
  else MkCurve (to_mont_p G_X) (to_mont_p G_Y) (to_mont_p ONE)
         (<[0%nat := limb P 0 -u 2]> P) (<[0%nat := limb N 0 -u 2]> N) true.

(** * Jacobian points, coordinates in Montgomery form *)

Record jac := MkJac { jX : list Z; jY : list Z; jZ : list Z }.

Section ops.
Context (c : curve).

Definition point_set_infinity : jac := MkJac fe_zero (ONEM c) fe_zero.

Definition point_double (q : jac) : jac :=
  let '(MkJac x1 y1 z1) := q in
  if fe_is_zero z1 || fe_is_zero y1 then point_set_infinity
  else
    let A := fe_sqr_p x1 in
    let Bc := fe_sqr_p y1 in
    let C := fe_sqr_p Bc in
    let t := fe_add_p x1 Bc in
    let S := fe_sqr_p t in
    let S := fe_sub_p S A in
    let S := fe_sub_p S C in
    let S := fe_add_p S S in
    let t := fe_sqr_p z1 in
    let t2 := fe_sqr_p t in
    let E := fe_sub_p A t2 in
    let t := fe_add_p E E in
    let E := fe_add_p E t in
    let F := fe_sqr_p E in
    let X3 := fe_sub_p F S in
    let X3 := fe_sub_p X3 S in
    let t := fe_sub_p S X3 in
    let Y3 := fe_mul_p E t in
    let t := fe_add_p C C in
    let t := fe_add_p t t in
    let t := fe_add_p t t in
    let Y3 := fe_sub_p Y3 t in
    let Z3 := fe_mul_p y1 z1 in
    let Z3 := fe_add_p Z3 Z3 in
    MkJac X3 Y3 Z3.

Definition point_add_mixed (q : jac) (x2 y2 : list Z) : jac :=
  let '(MkJac x1 y1 z1) := q in
  if fe_is_zero z1 then MkJac x2 y2 (ONEM c)
  else
    let Z1Z1 := fe_sqr_p z1 in
    let U2 := fe_mul_p x2 Z1Z1 in
    let t := fe_mul_p y2 z1 in
    let S2 := fe_mul_p t Z1Z1 in
    let H := fe_sub_p U2 x1 in
    let r := fe_sub_p S2 y1 in
    let r := fe_add_p r r in
    if fe_is_zero H then
      if fe_is_zero r then point_double q else point_set_infinity
    else
      let HH := fe_sqr_p H in
      let I := fe_add_p HH HH in
      let I := fe_add_p I I in
      let J := fe_mul_p H I in
      let V := fe_mul_p x1 I in
      let t := fe_sqr_p r in
      let X3 := fe_sub_p t J in
      let X3 := fe_sub_p X3 V in
      let X3 := fe_sub_p X3 V in
      let t := fe_sub_p V X3 in
      let Y3 := fe_mul_p r t in
      let t := fe_mul_p y1 J in
      let t := fe_add_p t t in
      let Y3 := fe_sub_p Y3 t in
      let t := fe_add_p z1 H in
      let t2 := fe_sqr_p t in
      let t2 := fe_sub_p t2 Z1Z1 in
      let t2 := fe_sub_p t2 HH in
      MkJac X3 Y3 t2.

Definition point_add_jacobian (q1 q2 : jac) : jac :=
  let '(MkJac X1 Y1 Z1) := q1 in
  let '(MkJac X2 Y2 Z2) := q2 in
  if fe_is_zero Z1 then q2
  else if fe_is_zero Z2 then q1
  else
    let Z1Z1 := fe_sqr_p Z1 in
    let Z2Z2 := fe_sqr_p Z2 in
    let U1 := fe_mul_p X1 Z2Z2 in
    let U2 := fe_mul_p X2 Z1Z1 in
    let t := fe_mul_p Y1 Z2 in
    let S1 := fe_mul_p t Z2Z2 in
    let t := fe_mul_p Y2 Z1 in
    let S2 := fe_mul_p t Z1Z1 in
    let H := fe_sub_p U2 U1 in
    let r := fe_sub_p S2 S1 in
    if fe_is_zero H then
      if fe_is_zero r then point_double q1 else point_set_infinity
    else
      let HH := fe_sqr_p H in
      let HHH := fe_mul_p HH H in
      let t := fe_sqr_p r in
      let t := fe_sub_p t HHH in
      let t2 := fe_mul_p U1 HH in
      let t2 := fe_add_p t2 t2 in
      let X3 := fe_sub_p t t2 in
      let t := fe_sub_p U1 X3 in
      let t := fe_mul_p t HH in
      let Y3 := fe_mul_p r t in
      let t := fe_mul_p S1 HHH in
      let Y3 := fe_sub_p Y3 t in
      let Z3 := fe_mul_p Z1 Z2 in
      let Z3 := fe_mul_p Z3 H in
      MkJac X3 Y3 Z3.

(** One turn of the loop of [scalar_mult]. *)
Definition mult_step (k bx by_ : list Z) (q : jac) (bit : nat) : jac :=
  let q := point_double q in
  if exp_bit k bit then point_add_mixed q bx by_ else q.

(** [for (bit = 255; bit >= 0; bit--)] *)
Definition scalar_mult (k bx by_ : list Z) : jac :=
  foldl (mult_step k bx by_) point_set_infinity (rev (seq 0 256)).

Definition scalar_mult_base (k : list Z) : jac := scalar_mult k (GXm c) (GYm c).

Definition jacobian_to_affine (q : jac) : option (list Z * list Z) :=
  let '(MkJac X Y Z) := q in
  if fe_is_zero Z then None
  else
    let znormal := from_mont_p Z in
    let zinv := mod_exp znormal (PM2 c) P P0INV R2P in
    let zinv := to_mont_p zinv in
    let z2 := fe_mul_p zinv zinv in
    let z3 := fe_mul_p z2 zinv in
    let Xn := fe_mul_p X z2 in
    let Yn := fe_mul_p Y z3 in
    Some (from_mont_p Xn, from_mont_p Yn).

Definition inv_mod_n (a : list Z) : list Z := mod_exp a (NM2 c) N N0INV R2N.
End ops.

(** * Byte conversion *)

(** [v = (v << 8) | in[i * 8 + j]] for the eight bytes of limb [3 - i]. *)
Definition load_limb (inp : list Z) (i : nat) : Z :=
  foldl (λ v j, Z.lor (u64 (Z.shiftl v 8)) (at_ inp (i * 8 + j))) 0 (seq 0 8).
Definition be_to_limbs (inp : list Z) : list Z :=
  [load_limb inp 3; load_limb inp 2; load_limb inp 1; load_limb inp 0].

Definition limb_bytes (v : Z) : list Z := map (λ j : nat, u8 (Z.shiftr v (56 - j * 8))) (seq 0 8).
Definition limbs_to_be (inp : list Z) : list Z :=
  limb_bytes (limb inp 3) ++ limb_bytes (limb inp 2) ++ limb_bytes (limb inp 1) ++ limb_bytes (limb inp 0).

(** * Public interface *)

Definition ecc_point_on_curve (c : curve) (xb yb : list Z) : curve * bool :=
  let c := curve_init c in
  let X := to_mont_p (be_to_limbs xb) in
  let Y := to_mont_p (be_to_limbs yb) in
  let lhs := fe_sqr_p Y in
  let rhs := fe_sqr_p X in
  let x3 := fe_mul_p rhs X in
  let Bc := to_mont_p B in
  let rhs := fe_add_p x3 Bc in
  let t := fe_add_p X X in
  let t := fe_add_p t X in
  let rhs := fe_sub_p rhs t in
  (c, fe_equal lhs rhs).

Definition ecc_scalar_mult_base (c : curve) (kb : list Z) : curve * option (list Z * list Z) :=
  let c := curve_init c in
  match jacobian_to_affine c (scalar_mult_base c (be_to_limbs kb)) with
  | None => (c, None)
  | Some (ax, ay) => (c, Some (limbs_to_be ax, limbs_to_be ay))
  end.

Record ecc_point_t := MkPoint { px : list Z; py : list Z }.
Record ecc_key_t := MkKey { kd : list Z; pub : ecc_point_t }.

(** The attempts of [ecc_keygen] that are left; [rand] is [crypto_rand_bytes] on
    a generator state [R]. *)
Fixpoint keygen_loop {R} (rand : R → Z → option (R * list Z)) (c : curve) (k : nat) (r : R)
    : option (R * option ecc_key_t) :=
  match k with
  | O => Some (r, None)
  | S k =>
      '(r, buf) ← rand r 32;
      let d := mod_reduce_n (be_to_limbs buf) in
      if fe_is_zero d then keygen_loop rand c k r
      else match jacobian_to_affine c (scalar_mult_base c d) with
           | None => keygen_loop rand c k r
           | Some (ax, ay) => Some (r, Some (MkKey (limbs_to_be d) (MkPoint (limbs_to_be ax) (limbs_to_be ay))))
           end
  end.
Definition ecc_keygen {R} (rand : R → Z → option (R * list Z)) (c : curve) (r : R) (out : bool)
    : option (curve * R * option ecc_key_t) :=
  let c := curve_init c in
  if negb out then Some (c, r, None)
  else '(r, key) ← keygen_loop rand c 16 r; Some (c, r, key).

(** ** RFC 6979 nonce.  [junk] is the uninitialised buffer of the hash context. *)

Fixpoint k_loop (junk : list Z) (i : nat) (K V : list Z) : option (option (list Z)) :=
  match i with
  | O => Some None
  | S i =>
      V ← hmac_sha256 junk K V;
      let kk := be_to_limbs V in
      if negb (fe_is_zero kk) && negb (fe_ge kk N) then Some (Some kk)
      else
        K ← hmac_sha256 junk K (V ++ [0x00]);
        V ← hmac_sha256 junk K V;
        k_loop junk i K V
  end.
Definition ecdsa_generate_k (junk d h1 : list Z) : option (option (list Z)) :=
  let V := replicate 32 0x01 in
  let K := replicate 32 0x00 in
  let b2o := limbs_to_be (mod_reduce_n (be_to_limbs h1)) in
  K ← hmac_sha256 junk K (V ++ [0x00] ++ d ++ b2o);
  V ← hmac_sha256 junk K V;
  K ← hmac_sha256 junk K (V ++ [0x01] ++ d ++ b2o);
  V ← hmac_sha256 junk K V;
  k_loop junk 128 K V.

(** ** Signing.  The recursive calls pass the same arguments. *)

Fixpoint ecdsa_sign (fuel : nat) (junk : list Z) (c : curve) (d hash : list Z)
    : option (curve * option (list Z * list Z)) :=
  match fuel with
  | O => None
  | S fuel =>
      let c := curve_init c in
      kr ← ecdsa_generate_k junk d hash;
      match kr with
      | None => Some (c, None)
      | Some k =>
          match jacobian_to_affine c (scalar_mult_base c k) with
          | None => Some (c, None)
          | Some (ax, _) =>
              let r := mod_reduce_n ax in
              if fe_is_zero r then ecdsa_sign fuel junk c d hash
              else
                let dlimbs := be_to_limbs d in
                let el := mod_reduce_n (be_to_limbs hash) in
                let rd := mod_mul_n r dlimbs in
                let t := mod_add_n el rd in
                let kinv := inv_mod_n c k in
                let s := mod_mul_n kinv t in
                if fe_is_zero s then ecdsa_sign fuel junk c d hash
                else Some (c, Some (limbs_to_be r, limbs_to_be s))
          end
      end
  end.

Definition ecdsa_verify (c : curve) (pub : ecc_point_t) (hash rb sb : list Z) : curve * bool :=
  let c := curve_init c in
  let r := be_to_limbs rb in
  let s := be_to_limbs sb in
  let e := be_to_limbs hash in
  if fe_is_zero r || fe_is_zero s then (c, false)
  else if fe_ge r N || fe_ge s N then (c, false)
  else
    let e := mod_reduce_n e in
    let '(c, ok) := ecc_point_on_curve c (px pub) (py pub) in
    if negb ok then (c, false)
    else
      let w := inv_mod_n c s in
      let u1 := mod_mul_n e w in
      let u2 := mod_mul_n r w in
      let G1 := scalar_mult_base c u1 in
      let qx := to_mont_p (be_to_limbs (px pub)) in
      let qy := to_mont_p (be_to_limbs (py pub)) in
      let Q := scalar_mult c u2 qx qy in
      let R := if fe_is_zero (jZ Q) then G1
               else if fe_is_zero (jZ G1) then Q
               else point_add_jacobian c G1 Q in
      match jacobian_to_affine c R with
      | None => (c, false)
      | Some (x1, _) => (c, fe_equal (mod_reduce_n x1) r)
      end.
End Ecc.

Module Rand.

(** What the hardware and the linker give [rand_seed_once], in the order it asks. *)
Record entropy := MkEntropy {
  tsc : nat → Z; pit_ms : Z; rtc : list Z; a1 : Z; a2 : Z; a3 : Z; sp : Z
}.
Record rand := MkRand { g_rand_seeded : bool; g_rand_state : list Z; g_rand_counter : Z }.

(** An object of eight bytes in memory. *)
Definition le_bytes (x : Z) : list Z := map (λ i : nat, u8 (Z.shiftr x (8 * i))) (seq 0 8).

Definition hash_of (junk : list Z) (parts : list (list Z)) : option (list Z) :=
  c ← update_all (sha256_init (fresh_ctx junk)) parts;
  '(_, out) ← sha256_final c;
  Some out.

Definition rand_seed_once (junk : list Z) (e : entropy) (r : rand) : option rand :=
  if g_rand_seeded r then Some r
  else
    let t := tsc e 16 in
    let ms := pit_ms e in
    let pool := map (λ i, u8 (tsc e i)) (seq 0 16) ++ le_bytes t ++ le_bytes ms ++ rtc e ++
                le_bytes (a1 e) ++ le_bytes (a2 e) ++ le_bytes (a3 e) ++ le_bytes (sp e) in
    state ← hash_of junk [pool];
    Some (MkRand true state (Z.lxor (Z.lxor ms t) (tsc e 17))).

(** [while (done < len)]; [out] is what has been written so far. *)
Fixpoint rand_loop (fuel : nat) (junk : list Z) (r : rand) (out : list Z) (len : Z) : option (rand * list Z) :=
  if len <=? length out then Some (r, out)
  else match fuel with
       | O => None
       | S fuel =>
           let ctr := map (λ i : nat, u8 (Z.shiftr (g_rand_counter r) (56 - i * 8))) (seq 0 8) in
           block ← hash_of junk [g_rand_state r; ctr];
           let take_ := if len - length out <? SHA256_DIGEST_SIZE then len - length out else SHA256_DIGEST_SIZE in
           state ← hash_of junk [g_rand_state r; block];
           rand_loop fuel junk (MkRand (g_rand_seeded r) state (g_rand_counter r +u 1))
             (out ++ take (Z.to_nat take_) block) len
       end.
Definition crypto_rand_bytes (junk : list Z) (e : entropy) (r : rand) (len : Z) : option (rand * list Z) :=
  r ← rand_seed_once junk e r;
  rand_loop (Z.to_nat len) junk r [] len.

End Rand.
