(* ===== verification/EccPoint.v ===== *)
(** The point arithmetic of [crypto/ecc.c] refines the chord-and-tangent law on
    affine points.

    [adouble], [aadd] and [amul] are the abstract operations on P-256 points over
    the integers modulo [p]; [rep] relates a Jacobian triple in Montgomery form to
    the affine point it stands for, and every routine preserves it. *)
From S2P Require Import Prelude Sha256 EccField Cong EccMod Ecc.
From Stdlib Require Import Zpow_facts.
Import Fe Ecc.

(** * The abstract curve *)

Definition b : Z := val B.
Definition apoint : Type := option (Z * Z).

Definition inv_p (x : Z) : Z := Zpow_mod x (p - 2) p.
Definition on_curve (x y : Z) : bool := (y * y - (x * x * x - 3 * x + b)) `mod` p =? 0.

(** The third point of the line of slope [l] through [(x1, y1)] and a point with
    first coordinate [x2], reflected. *)
Definition third (l x1 y1 x2 : Z) : apoint :=
  let x3 := (l * l - x1 - x2) `mod` p in
  Some (x3, (l * (x1 - x3) - y1) `mod` p).

Definition adouble (a : apoint) : apoint :=
  match a with
  | None => None
  | Some (x, y) => if y =? 0 then None else third ((3 * x * x - 3) * inv_p (2 * y)) x y x
  end.

Definition aadd (a1 a2 : apoint) : apoint :=
  match a1, a2 with
  | None, _ => a2
  | _, None => a1
  | Some (x1, y1), Some (x2, y2) =>
      if x1 =? x2 then if y1 =? y2 then adouble a1 else None
      else third ((y2 - y1) * inv_p (x2 - x1)) x1 y1 x2
  end.

Fixpoint pmul (k : positive) (a : apoint) : apoint :=
  match k with
  | xH => a
  | xO k => adouble (pmul k a)
  | xI k => aadd (adouble (pmul k a)) a
  end.
Definition amul (k : Z) (a : apoint) : apoint :=
  match k with Zpos k => pmul k a | _ => None end.

Definition G : apoint := Some (val G_X, val G_Y).

(** A pair of reduced coordinates. *)
Definition aok (a : apoint) : Prop :=
  match a with None => True | Some (x, y) => 0 ≤ x < p ∧ 0 ≤ y < p end.

Lemma p_pos : 0 < p.
Proof. done. Qed.
#[export] Hint Resolve p_pos : axon.

Lemma p_nz : p ≠ 0.
Proof. done. Qed.

Lemma inv_p_spec x : ¬ x ≡[p] 0 → inv_p x * x ≡[p] 1.
Proof.
  intros Hx. unfold inv_p. rewrite Zpow_mod_correct by done. rewrite (cong_mod p) by done.
  apply (fermat_inverse (M := modulus_p)). intros E. apply Hx. apply cong_iff; [done|]. exact E.
Qed.

(** A slope computed by division, as an equation. *)
Lemma slope u v : ¬ v ≡[p] 0 → (u * inv_p v) * v ≡[p] u.
Proof. intros Hv. rewrite <- Z.mul_assoc, inv_p_spec by done. by rewrite Z.mul_1_r. Qed.

Lemma two_nz : ¬ 2 ≡[p] 0.
Proof. intros H. by apply cong_iff in H. Qed.

Lemma reduced_nz x : 0 ≤ x < p → x ≠ 0 → ¬ x ≡[p] 0.
Proof. intros Hx Hn H. apply Hn, (cong_small p); done || lia. Qed.

Lemma mul_nz x y : ¬ x ≡[p] 0 → ¬ y ≡[p] 0 → ¬ x * y ≡[p] 0.
Proof. intros Hx Hy H. by destruct (cong_mul_0 (M := modulus_p) x y H). Qed.

Lemma diff_nz x y : 0 ≤ x < p → 0 ≤ y < p → x ≠ y → ¬ x - y ≡[p] 0.
Proof.
  intros Hx Hy Hn H. apply Hn, (cong_small p); [done..|].
  unfold cong in *. by rewrite Z.sub_0_r in H.
Qed.
#[export] Hint Resolve two_nz mul_nz : axon.

Lemma diff_zero x y k : 0 ≤ x < p → 0 ≤ y < p → ¬ k ≡[p] 0 → (x - y) * k ≡[p] 0 → x = y.
Proof.
  intros Hx Hy Hk H. destruct (decide (x = y)) as [|Hne]; [done|].
  by destruct (mul_nz _ _ (diff_nz x y Hx Hy Hne) Hk).
Qed.

Lemma third_ok l x1 y1 x2 : aok (third l x1 y1 x2).
Proof. split; by apply Z.mod_pos_bound. Qed.
Lemma adouble_ok a : aok (adouble a).
Proof. destruct a as [[x y]|]; [|done]. simpl. destruct (y =? 0); [done|]. apply third_ok. Qed.
Lemma aadd_ok a1 a2 : aok a1 → aok a2 → aok (aadd a1 a2).
Proof.
  destruct a1 as [[x1 y1]|], a2 as [[x2 y2]|]; try done. intros _ _. cbn [aadd].
  destruct (x1 =? x2); [|apply third_ok]. destruct (y1 =? y2); [apply adouble_ok|done].
Qed.
#[export] Hint Resolve third_ok adouble_ok aadd_ok : axon.

Lemma amul_ok k a : aok a → aok (amul k a).
Proof. intros Ha. destruct k as [|k|]; [done| |done]. simpl. induction k; simpl; auto with axon. Qed.

(** ** The law stays on the curve *)

Definition acurve (a : apoint) : Prop :=
  match a with None => True | Some (x, y) => y * y ≡[p] x * x * x - 3 * x + b end.

Lemma on_curve_spec x y : on_curve x y = true ↔ acurve (Some (x, y)).
Proof.
  unfold on_curve. rewrite Z.eqb_eq, Z.mod_divide by done. done.
Qed.

Lemma tangent_curve l x y :
  acurve (Some (x, y)) → l * (2 * y) ≡[p] 3 * x * x - 3 → acurve (third l x y x).
Proof.
  simpl. intros Hc Hl. rewrite !(cong_mod p) by done.
  transitivity ((l * (x - (l * l - x - x)) - y) * (l * (x - (l * l - x - x)) - y)
    + ((3 * x * x - 3) - l * (2 * y)) * ((l * l - x - x) - x) + ((x * x * x - 3 * x + b) - y * y)).
  - rewrite Hl, Hc. apply eq_cong. ring.
  - apply eq_cong. ring.
Qed.

Lemma chord_curve l x1 y1 x2 y2 :
  acurve (Some (x1, y1)) → acurve (Some (x2, y2)) → ¬ x2 - x1 ≡[p] 0 →
  l * (x2 - x1) ≡[p] y2 - y1 → acurve (third l x1 y1 x2).
Proof.
  simpl. intros H1 H2 Hne Hl. rewrite !(cong_mod p) by done.
  apply (cong_cancel (M := modulus_p) _ _ (x2 - x1) Hne).
  set (x3 := l * l - x1 - x2).
  transitivity ((l * (x1 - x3) - y1) * (l * (x1 - x3) - y1) * (x2 - x1)
    + ((x1 * x1 * x1 - 3 * x1 + b) - y1 * y1) * (x2 - x3)
    + ((x2 * x2 * x2 - 3 * x2 + b) - (l * (x2 - x1) + y1) * (l * (x2 - x1) + y1)) * (x3 - x1)).
  - rewrite Hl, <- H1, <- H2. apply eq_cong. ring.
  - apply eq_cong. unfold x3. ring.
Qed.

Lemma adouble_curve a : aok a → acurve a → acurve (adouble a).
Proof.
  destruct a as [[x y]|]; [|done]. intros [_ Hy] Hc. cbn [adouble].
  destruct (Z.eqb_spec y 0); [done|]. apply tangent_curve; [done|]. apply slope.
  auto using reduced_nz with axon.
Qed.

Lemma aadd_curve a1 a2 : aok a1 → aok a2 → acurve a1 → acurve a2 → acurve (aadd a1 a2).
Proof.
  destruct a1 as [[x1 y1]|], a2 as [[x2 y2]|]; try done. intros Ho [Hx2 _] H1 H2. cbn [aadd].
  destruct (Z.eqb_spec x1 x2).
  - destruct (y1 =? y2); [|done]. by apply adouble_curve.
  - destruct Ho as [Hx1 _]. assert (¬ x2 - x1 ≡[p] 0) by auto using diff_nz.
    apply (chord_curve _ _ _ _ y2); try done. by apply slope.
Qed.

Lemma amul_curve k a : aok a → acurve a → acurve (amul k a).
Proof.
  intros Ho Hc. destruct k as [|k|]; [done| |done]. simpl.
  assert (∀ k, aok (pmul k a)) as Hok by (intros j; apply (amul_ok (Zpos j)); done).
  induction k; simpl; auto using aadd_curve, adouble_curve, adouble_ok.
Qed.

Lemma G_ok : aok G ∧ acurve G.
Proof. split; [done|]. by apply on_curve_spec. Qed.

(** One more bit of the scalar. *)
Lemma amul_bit k c a : 0 ≤ k → amul (2 * k + Z.b2z c) a =
  if c then aadd (adouble (amul k a)) a else adouble (amul k a).
Proof.
  intros Hk. destruct k as [|k|]; [|by destruct c|lia]. by destruct c.
Qed.

(** * Field elements in Montgomery form *)

(** [a] is reduced and stands for [v]. *)
Definition fld (a : list Z) (v : Z) : Prop := red P a ∧ dec rinv_p a ≡[p] v.

Lemma fld_cong a v w : fld a v → v ≡[p] w → fld a w.
Proof. intros [H1 H2] H. split; [done|]. by rewrite H2. Qed.

Lemma fld_mul a c v w : fld a v → fld c w → fld (fe_mul_p a c) (v * w).
Proof.
  intros [H1 H2] [H3 H4]. destruct (mul_dec (M := modulus_p) a c (proj1 H1) H3) as [H5 H6].
  split; [done|]. etransitivity; [exact H6|]. by rewrite H2, H4.
Qed.
Lemma fld_sqr a v : fld a v → fld (fe_sqr_p a) (v * v).
Proof. intros H. by apply fld_mul. Qed.
Lemma fld_add a c v w : fld a v → fld c w → fld (fe_add_p a c) (v + w).
Proof.
  intros [H1 H2] [H3 H4]. destruct (add_dec (M := modulus_p) a c H1 H3) as [H5 H6].
  split; [done|]. etransitivity; [exact H6|]. by rewrite H2, H4.
Qed.
Lemma fld_sub a c v w : fld a v → fld c w → fld (fe_sub_p a c) (v - w).
Proof.
  intros [H1 H2] [H3 H4]. destruct (sub_dec (M := modulus_p) a c H1 H3) as [H5 H6].
  split; [done|]. etransitivity; [exact H6|]. by rewrite H2, H4.
Qed.
Lemma fld_to_mont a : fe a → fld (to_mont_p a) (val a).
Proof. apply (to_mont_dec (M := modulus_p)). Qed.
Lemma fld_from_mont a v : fld a v → red P (from_mont_p a) ∧ val (from_mont_p a) = v `mod` p.
Proof.
  intros [H1 H2]. destruct (from_mont_val (M := modulus_p) a (proj1 H1)) as [H3 H4].
  split; [done|]. change (val (from_mont_p a) = dec rinv_p a `mod` p) in H4. rewrite H4.
  by apply cong_iff.
Qed.

Lemma val_inj a c : limbs a → limbs c → length a = length c → val a = val c → a = c.
Proof.
  intros Ha. revert c. induction Ha as [|x a Hx _ IH]; intros [|y c] Hc Hl E; simplify_eq/=; [done|].
  apply Forall_cons in Hc as [Hy Hc]. cbn beta in *.
  assert (x = y) as ->.
  { rewrite <- (Z.mod_small x base), <- (Z.mod_small y base) by done.
    rewrite <- (Z.mod_add x (val a) base), <- (Z.mod_add y (val c) base) by done. f_equal. lia. }
  f_equal. apply IH; [done..|]. unfold base in E. lia.
Qed.

Lemma fe_equal_spec a c : fe a → fe c → fe_equal a c = (val a =? val c).
Proof.
  intros Ha Hc. destruct (Z.eqb_spec (val a) (val c)) as [E|E].
  - rewrite (val_inj a c) by (apply Ha || apply Hc || done || by rewrite (proj1 Ha), (proj1 Hc)).
    unfold fe_equal. by rewrite !Z.eqb_refl.
  - destruct Ha as [Hl _], Hc as [Hl' _].
    do 4 (destruct a as [|? a]; [done|]). destruct a; [|done].
    do 4 (destruct c as [|? c]; [done|]). destruct c; [|done].
    unfold fe_equal, limb. simpl. apply not_true_iff_false. rewrite !andb_true_iff, !Z.eqb_eq.
    intros [[[-> ->] ->] ->]. done.
Qed.

Lemma fe_is_zero_spec a : fe a → fe_is_zero a = (val a =? 0).
Proof. intros Ha. by apply (fe_equal_spec a fe_zero Ha), fe_decide. Qed.

Lemma fld_zero a v : fld a v → BoolSpec (v ≡[p] 0) (¬ v ≡[p] 0) (fe_is_zero a).
Proof.
  intros [H1 H2]. rewrite fe_is_zero_spec by apply H1.
  pose proof (dec_zero (M := modulus_p) a H1) as Hz. fold p in Hz. rewrite H2 in Hz.
  destruct (Z.eqb_spec (val a) 0); constructor; tauto.
Qed.

(** Name an intermediate of the code and keep what it stands for. *)
Ltac fld_op e :=
  lazymatch e with
  | fe_mul_p _ _ => eapply fld_mul; eassumption
  | fe_sqr_p _ => eapply fld_sqr; eassumption
  | fe_add_p _ _ => eapply fld_add; eassumption
  | fe_sub_p _ _ => eapply fld_sub; eassumption
  end.
(** * Jacobian triples *)

Definition rep (q : jac) (a : apoint) : Prop :=
  ∃ z, fld (jZ q) z ∧
    match a with
    | None => z ≡[p] 0
    | Some (x, y) => ¬ z ≡[p] 0 ∧ fld (jX q) (x * (z * z)) ∧ fld (jY q) (y * (z * z * z))
    end.

(** The same for the first coordinate only. *)
Definition rep_x (q : jac) (a : apoint) : Prop :=
  ∃ z, fld (jZ q) z ∧
    match a with
    | None => z ≡[p] 0
    | Some (x, _) => ¬ z ≡[p] 0 ∧ fld (jX q) (x * (z * z)) ∧ ∃ v, fld (jY q) v
    end.

Lemma rep_x_intro q a : rep q a → rep_x q a.
Proof.
  intros (z & Hz & Ha). exists z. split; [done|]. destruct a as [[x y]|]; [|done].
  destruct Ha as (? & ? & ?). eauto.
Qed.

Ltac fld_let :=
  lazymatch goal with
  | |- ?R (let x := ?e in @?f x) ?a =>
      let H := fresh "H" x in
      eassert (fld e _) as H by fld_op e;
      change (R (f e) a); cbv beta;
      let y := fresh x in generalize dependent e; intros y H
  end.

#[local] Opaque mod_exp mont_mul_m fe_add_m fe_sub_m.

Section points.
Context (c : curve) (Hone : fld (ONEM c) 1).

Lemma fld_zero_elem : fld fe_zero 0.
Proof using. split; [split; [by apply fe_decide|done]|]. by apply eq_cong. Qed.

Lemma infinity_rep : rep (point_set_infinity c) None.
Proof using. exists 0. split; [apply fld_zero_elem|done]. Qed.

Lemma third_rep l x1 y1 x2 z3 X3 Y3 Z3 (x3 := l * l - x1 - x2) :
  fld Z3 z3 → ¬ z3 ≡[p] 0 → fld X3 (x3 * (z3 * z3)) → fld Y3 ((l * (x1 - x3) - y1) * (z3 * z3 * z3)) →
  rep (MkJac X3 Y3 Z3) (third l x1 y1 x2).
Proof using.
  intros HZ Hz HX HY. exists z3. cbn [jX jY jZ]. split; [done|]. split; [done|]. split.
  - eapply fld_cong; [exact HX|]. by rewrite (cong_mod p) by done.
  - eapply fld_cong; [exact HY|]. by rewrite !(cong_mod p) by done.
Qed.

Lemma third_rep_x l x1 y1 x2 z3 v X3 Y3 Z3 :
  fld Z3 z3 → fld Y3 v → ¬ z3 ≡[p] 0 → fld X3 ((l * l - x1 - x2) * (z3 * z3)) →
  rep_x (MkJac X3 Y3 Z3) (third l x1 y1 x2).
Proof using.
  intros HZ HY Hz HX. exists z3. cbn [jX jY jZ]. split; [done|]. split; [done|]. split; [|eauto].
  eapply fld_cong; [exact HX|]. by rewrite (cong_mod p) by done.
Qed.

Lemma double_rep q a : aok a → rep q a → rep (point_double c q) (adouble a).
Proof using Hone.
  destruct q as [x1 y1 z1]. intros Hok (z & Hz & Ha). cbn [jX jY jZ] in *. lazy beta iota delta [point_double].
  destruct (fld_zero z1 z Hz) as [Ez|Ez].
  { destruct a as [[x y]|]; [by destruct Ha|]. apply infinity_rep. }
  destruct a as [[x y]|]; [|done]. destruct Ha as (_ & Hx & Hy). destruct Hok as [Hox Hoy].
  destruct (fld_zero y1 _ Hy) as [Ey|Ey]; lazy beta iota delta [orb adouble].
  { destruct (Z.eqb_spec y 0); [apply infinity_rep|].
    by apply mul_nz in Ey; auto using reduced_nz with axon. }
  destruct (Z.eqb_spec y 0) as [->|Hy0]; [by destruct Ey|].
  pose proof (slope (3 * x * x - 3) (2 * y) ltac:(auto using reduced_nz with axon)) as Hl.
  set (l := _ * inv_p _) in *. clearbody l.
  repeat fld_let. eapply third_rep; [eassumption| |eapply fld_cong; [eassumption|]..].
  - intros H. apply Ez, (cong_cancel (M := modulus_p) _ _ (2 * (y * (z * z * z)))); [auto with axon|].
    fold p. rewrite Z.mul_0_l, <- H. apply eq_cong. ring.
  - transitivity ((l * (2 * y)) * (l * (2 * y)) * (z * z * z * z) * (z * z * z * z)
      - 8 * x * y * y * (z * z * z * z) * (z * z * z * z)); [rewrite Hl|]; apply eq_cong; ring.
  - set (w := z * z * z * z).
    transitivity ((l * (2 * y)) * w * (4 * x * y * y * w * w - ((l * (2 * y)) * (l * (2 * y)) * w * w - 8 * x * y * y * w * w))
      - 8 * y * y * y * y * w * w * w); [rewrite Hl|]; unfold w; apply eq_cong; ring.
Qed.

Lemma mixed_rep q a x2 y2 :
  aok a → 0 ≤ x2 < p → 0 ≤ y2 < p → rep q a → ∀ X2 Y2, fld X2 x2 → fld Y2 y2 →
  rep (point_add_mixed c q X2 Y2) (aadd a (Some (x2, y2))).
Proof using Hone.
  intros Hok Hx2 Hy2 Hrep X2 Y2 HX2 HY2. destruct q as [x1 y1 z1].
  destruct (id Hrep) as (z & Hz & Ha). cbn [jX jY jZ] in *. lazy beta iota delta [point_add_mixed].
  destruct (fld_zero z1 z Hz) as [Ez|Ez].
  { destruct a as [[x y]|]; [by destruct Ha|]. exists 1. cbn [jX jY jZ].
    split; [done|]. split; [by intros ?%cong_iff|]. split; by rewrite !Z.mul_1_r. }
  destruct a as [[x y]|]; [|done]. destruct Ha as (_ & Hx & Hy), Hok as [Hox Hoy].
  lazy beta iota delta [aadd].
  assert (¬ z * z ≡[p] 0 ∧ ¬ 2 * (z * z * z) ≡[p] 0) as [Hz2 Hz3] by auto with axon.
  do 4 fld_let. do 3 fld_let.
  match goal with Hh : fld ?h (_ - x * (z * z)), Hr : fld ?r (_ + _) |- context [fe_is_zero ?h] =>
    destruct (fld_zero h _ Hh) as [Eh|Eh]; [destruct (fld_zero r _ Hr) as [Er|Er]|] end.
  - assert (x = x2) as <-. { symmetry. apply (diff_zero _ _ (z * z)); [done..|]. rewrite <- Eh. apply eq_cong. ring. }
    assert (y = y2) as <-. { symmetry. apply (diff_zero _ _ (2 * (z * z * z))); [done..|]. rewrite <- Er. apply eq_cong. ring. }
    rewrite !Z.eqb_refl. by apply double_rep.
  - assert (x = x2) as <-. { symmetry. apply (diff_zero _ _ (z * z)); [done..|]. rewrite <- Eh. apply eq_cong. ring. }
    rewrite Z.eqb_refl. destruct (Z.eqb_spec y y2) as [<-|]; [|apply infinity_rep].
    destruct Er. apply eq_cong. ring.
  - destruct (Z.eqb_spec x x2) as [<-|Hne]; [destruct Eh; apply eq_cong; ring|].
    pose proof (slope (y2 - y) (x2 - x) ltac:(auto using diff_nz)) as Hl.
    set (l := _ * inv_p _) in *. clearbody l.
    repeat fld_let. eapply third_rep; [eassumption| |eapply fld_cong; [eassumption|]..];
      set (w := z * z * z) in *; set (d := x2 - x) in *.
    + intros Hc. apply (mul_nz (2 * z) _ ltac:(auto with axon) Eh). rewrite <- Hc. apply eq_cong. ring.
    + transitivity (4 * w * w * (l * d * (l * d) - (x + x2) * d * d)); [rewrite Hl|];
        apply eq_cong; unfold w, d; ring.
    + transitivity (8 * w * w * w * (l * d * (x * d * d - (l * d * (l * d) - (x + x2) * d * d)) - y * d * d * d));
        [rewrite Hl|]; apply eq_cong; unfold w, d; ring.
Qed.

(** The general addition gets the first coordinate right, and the second one of
    the cases that do not reach its last formula. *)
Lemma jacobian_rep q1 q2 a1 a2 : aok a1 → aok a2 → rep q1 a1 → rep q2 a2 →
  rep_x (point_add_jacobian c q1 q2) (aadd a1 a2).
Proof using Hone.
  intros Hok1 Hok2 Hr1 Hr2. destruct q1 as [x1 y1 z1], q2 as [x2 y2 z2].
  destruct (id Hr1) as (z & Hz & Ha), (id Hr2) as (z' & Hz' & Ha'). cbn [jX jY jZ] in *.
  lazy beta iota delta [point_add_jacobian].
  destruct (fld_zero z1 z Hz) as [Ez|Ez]; [destruct a1 as [[x y]|]; [by destruct Ha|by apply rep_x_intro]|].
  destruct a1 as [[x y]|]; [|done].
  destruct (fld_zero z2 z' Hz') as [Ez'|Ez']; [destruct a2 as [[? ?]|]; [by destruct Ha'|by apply rep_x_intro]|].
  destruct a2 as [[x' y']|]; [|done].
  destruct Ha as (_ & Hx & Hy), Ha' as (_ & Hx' & Hy'), Hok1 as [Hox Hoy], Hok2 as [Hox' Hoy'].
  lazy beta iota delta [aadd].
  assert (¬ z * z * (z' * z') ≡[p] 0 ∧ ¬ z * z * z * (z' * z' * z') ≡[p] 0) as [Hz2 Hz3] by auto 10 with axon.
  do 10 fld_let.
  match goal with |- context [if fe_is_zero ?h then if fe_is_zero ?r then _ else _ else _] =>
    match goal with Hh : fld h _, Hr : fld r _ |- _ =>
    destruct (fld_zero h _ Hh) as [Eh|Eh]; [destruct (fld_zero r _ Hr) as [Er|Er]|] end end.
  - assert (x = x') as <-. { symmetry. apply (diff_zero _ _ (z * z * (z' * z'))); [done..|]. rewrite <- Eh. apply eq_cong. ring. }
    assert (y = y') as <-. { symmetry. apply (diff_zero _ _ (z * z * z * (z' * z' * z'))); [done..|]. rewrite <- Er. apply eq_cong. ring. }
    rewrite !Z.eqb_refl. by apply rep_x_intro, double_rep.
  - assert (x = x') as <-. { symmetry. apply (diff_zero _ _ (z * z * (z' * z'))); [done..|]. rewrite <- Eh. apply eq_cong. ring. }
    rewrite Z.eqb_refl. destruct (Z.eqb_spec y y') as [<-|]; [|apply rep_x_intro, infinity_rep].
    destruct Er. apply eq_cong. ring.
  - destruct (Z.eqb_spec x x') as [<-|Hne]; [destruct Eh; apply eq_cong; ring|].
    pose proof (slope (y' - y) (x' - x) ltac:(auto using diff_nz)) as Hl.
    set (l := _ * inv_p _) in *. clearbody l.
    repeat fld_let. eapply third_rep_x; [eassumption|eassumption| |eapply fld_cong; [eassumption|]];
      set (w := z * z * z * (z' * z' * z')) in *; set (d := x' - x) in *.
    + intros Hc. apply (mul_nz (z * z') _ ltac:(auto with axon) Eh). rewrite <- Hc. apply eq_cong. ring.
    + transitivity (w * w * (l * d * (l * d) - (x + x') * d * d)); [rewrite Hl|]; apply eq_cong; unfold w, d; ring.
Qed.

(** * Scalar multiplication *)

Lemma mult_loop K x2 y2 X2 Y2 k q : fe K → 0 ≤ x2 < p → 0 ≤ y2 < p → fld X2 x2 → fld Y2 y2 →
  rep q (amul (val K / 2 ^ Z.of_nat k) (Some (x2, y2))) →
  rep (foldl (mult_step c K X2 Y2) q (rev (seq 0 k))) (amul (val K) (Some (x2, y2))).
Proof using Hone.
  intros HK Hx Hy HX HY. revert q. induction k as [|k IH]; intros q Hq.
  { simpl in *. by rewrite Z.div_1_r in Hq. }
  rewrite seq_S, rev_app_distr. cbn [rev app foldl Nat.add]. apply IH.
  pose proof (fe_range K HK). assert (0 < 2 ^ Z.of_nat (S k)) by (apply Z.pow_pos_nonneg; lia).
  pose proof (Z.div_pos (val K) (2 ^ Z.of_nat (S k)) ltac:(lia) ltac:(done)).
  assert (val K / 2 ^ Z.of_nat k = 2 * (val K / 2 ^ Z.of_nat (S k)) + Z.b2z (Z.testbit (val K) k)) as ->.
  { rewrite Z.testbit_spec' by lia. rewrite Nat2Z.inj_succ, Z.pow_succ_r, (Z.mul_comm 2 (2 ^ _)), <- Z.div_div by lia.
    apply Z.div_mod. lia. }
  rewrite amul_bit by done. unfold mult_step. rewrite exp_bit_spec by apply HK.
  assert (aok (amul (val K / 2 ^ Z.of_nat (S k)) (Some (x2, y2)))) as Hok by by apply amul_ok.
  destruct (Z.testbit _ _); [|by apply double_rep].
  apply mixed_rep; [apply adouble_ok|done|done|by apply double_rep|done|done].
Qed.

Lemma scalar_mult_rep K x2 y2 X2 Y2 : fe K → 0 ≤ x2 < p → 0 ≤ y2 < p → fld X2 x2 → fld Y2 y2 →
  rep (scalar_mult c K X2 Y2) (amul (val K) (Some (x2, y2))).
Proof using Hone.
  intros HK Hx Hy HX HY. apply mult_loop; [done..|].
  rewrite Z.div_small by by apply fe_range. apply infinity_rep.
Qed.

(** * Back to affine coordinates *)

Lemma affine_x q a : fe (PM2 c) → val (PM2 c) = p - 2 → aok a → rep_x q a →
  match a, jacobian_to_affine c q with
  | None, None => True
  | Some (x, _), Some (ax, ay) => red P ax ∧ red P ay ∧ val ax = x ∧
      ∃ z i, fld (jZ q) z ∧ i * z ≡[p] 1 ∧ ∀ v, fld (jY q) v → val ay = (v * (i * i * i)) `mod` p
  | _, _ => False
  end.
Proof using.
  intros Hf Hv Hok (z & Hz & Ha). destruct q as [X Y Z]. cbn [jX jY jZ] in *.
  unfold jacobian_to_affine. destruct (fld_zero Z z Hz) as [Ez|Ez].
  { destruct a as [[x y]|]; [by destruct Ha|done]. }
  destruct a as [[x y]|]; [|done]. destruct Ha as (_ & HX & v & HY), Hok as [Hx Hy].
  destruct (fld_from_mont Z z Hz) as [N1 N2].
  destruct (mod_exp_inverse (M := modulus_p) (from_mont_p Z) (PM2 c) (proj1 N1) Hf Hv) as [E1 E2].
  { fold p. rewrite N2, (cong_mod p) by done. done. }
  pose proof (fld_to_mont _ (proj1 E1)) as Hi. fold p in E2. rewrite N2, (cong_mod p z) in E2 by done.
  clear E1. set (zi := mod_exp _ _ _ _ _) in *. clearbody zi. set (i := val zi) in *. clearbody i.
  rename E2 into Hiz.
  pose proof (fld_mul _ _ _ _ Hi Hi) as H2. pose proof (fld_mul _ _ _ _ H2 Hi) as H3.
  destruct (fld_from_mont _ _ (fld_mul _ _ _ _ HX H2)) as [R1 R2].
  destruct (fld_from_mont _ _ (fld_mul _ _ _ _ HY H3)) as [R3 _].
  split; [done|]. split; [done|]. rewrite R2. split.
  - apply (cong_small p); [by apply Z.mod_pos_bound|done|]. rewrite (cong_mod p) by done.
    transitivity (x * ((i * z) * (i * z))); [apply eq_cong; ring|]. rewrite Hiz. by rewrite !Z.mul_1_r.
  - exists z, i. split; [done|]. split; [done|]. intros w Hw.
    by destruct (fld_from_mont _ _ (fld_mul _ _ _ _ Hw H3)) as [_ ->].
Qed.

Lemma affine_spec q a : fe (PM2 c) → val (PM2 c) = p - 2 → aok a → rep q a →
  match a, jacobian_to_affine c q with
  | None, None => True
  | Some (x, y), Some (ax, ay) => red P ax ∧ red P ay ∧ val ax = x ∧ val ay = y
  | _, _ => False
  end.
Proof using.
  intros Hf Hv Hok Hr. pose proof (affine_x q a Hf Hv Hok (rep_x_intro q a Hr)) as HA.
  destruct Hr as (z & Hz & Hr). destruct a as [[x y]|], (jacobian_to_affine c q) as [[ax ay]|]; try done.
  destruct HA as (R1 & R2 & R3 & z' & i & Hz' & Hi & Hy). destruct Hr as (_ & _ & HY), Hok as [_ Hoy].
  split; [done|]. split; [done|]. split; [done|]. rewrite (Hy _ HY).
  apply (cong_small p); [by apply Z.mod_pos_bound|done|]. rewrite (cong_mod p) by done.
  assert (i * z ≡[p] 1) as Hiz by (rewrite <- (proj2 Hz), (proj2 Hz'); done).
  transitivity (y * ((i * z) * (i * z) * (i * z))); [apply eq_cong; ring|]. rewrite Hiz. by rewrite !Z.mul_1_r.
Qed.

End points.
