(* ===== verification/EccApi.v ===== *)
(** The public interface of [crypto/ecc.c]: byte conversion, [ecc_point_on_curve],
    [ecc_scalar_mult_base], [ecc_keygen], [ecdsa_sign] and [ecdsa_verify], each
    against the affine law of [EccPoint] and arithmetic modulo the group order; and
    the generator of [crypto/rand.c] that key generation draws from. *)
From S2P Require Import Prelude Sha256 EccField Cong EccMod Ecc EccPoint.
From Stdlib Require Import Zpow_facts.
Import Sha256 Fe Ecc.

#[local] Opaque mod_exp mont_mul_m fe_add_m fe_sub_m.

(** * Big-endian bytes *)

Abbreviation bytes l := (Forall (λ x, 0 ≤ x < 2 ^ 8) l).
Definition be_val (l : list Z) : Z := foldl (λ v x, 2 ^ 8 * v + x) 0 l.

Lemma be_fold v l : foldl (λ v x, 2 ^ 8 * v + x) v l = (2 ^ 8) ^ length l * v + be_val l.
Proof.
  unfold be_val. revert v. induction l as [|x l IH]; intros v; cbn [foldl length].
  - simpl. lia.
  - rewrite IH, (IH (2 ^ 8 * 0 + x)). rewrite Nat2Z.inj_succ, Z.pow_succ_r by lia. ring.
Qed.

Lemma be_val_app l1 l2 : be_val (l1 ++ l2) = (2 ^ 8) ^ length l2 * be_val l1 + be_val l2.
Proof. unfold be_val at 1. by rewrite foldl_app, be_fold. Qed.

Lemma be_val_range l : bytes l → 0 ≤ be_val l < (2 ^ 8) ^ length l.
Proof.
  induction l as [|x l IH] using rev_ind; intros H; [done|].
  apply Forall_app in H as [H Hx]. apply Forall_cons in Hx as [Hx _].
  rewrite be_val_app, length_app. cbn [length]. change (be_val [x]) with (2 ^ 8 * 0 + x).
  rewrite Nat2Z.inj_add, Z.pow_add_r by lia. specialize (IH H). lia.
Qed.

Lemma be_bytes_S (k : nat) x : be_bytes (S k) x = u8 (Z.shiftr x (8 * k)) :: be_bytes k x.
Proof.
  unfold be_bytes. cbn [seq map]. f_equal; [do 2 f_equal; lia|].
  rewrite <- seq_shift, map_map. apply map_ext. intros i. do 2 f_equal. lia.
Qed.

Lemma pow8 (k : nat) : (2 ^ 8) ^ k = 2 ^ (8 * k).
Proof. by rewrite <- Z.pow_mul_r by lia. Qed.

Lemma be_bytes_mod (k : nat) x y : x `mod` (2 ^ 8) ^ k = y `mod` (2 ^ 8) ^ k → be_bytes k x = be_bytes k y.
Proof.
  rewrite pow8. induction k as [|k IH]; intros E; [done|]. rewrite !be_bytes_S.
  assert (0 < 2 ^ (8 * k)) by (apply Z.pow_pos_nonneg; lia).
  replace (8 * Z.of_nat (S k)) with (8 * k + 8) in E by lia. rewrite Z.pow_add_r in E by lia.
  assert (x `mod` 2 ^ (8 * k) = y `mod` 2 ^ (8 * k)) as E1.
  { rewrite <- (Z.mod_mod_divide x (2 ^ (8 * k) * 2 ^ 8)), <- (Z.mod_mod_divide y (2 ^ (8 * k) * 2 ^ 8)), E;
      [done|by exists (2 ^ 8); ring..]. }
  f_equal; [|by apply IH]. unfold u8. rewrite !Z.shiftr_div_pow2 by lia.
  rewrite !Z.rem_mul_r, E1 in E by lia. apply Z.add_reg_l, Z.mul_reg_l in E; [done|lia].
Qed.

Lemma be_val_bytes (k : nat) x : be_val (be_bytes k x) = x `mod` (2 ^ 8) ^ k.
Proof.
  induction k as [|k IH]; [by rewrite Z.mod_1_r|]. rewrite be_bytes_S.
  unfold be_val. cbn [foldl]. rewrite be_fold, be_bytes_length, IH, !pow8.
  replace (8 * Z.of_nat (S k)) with (8 * k + 8) by lia. rewrite Z.pow_add_r by lia.
  assert (0 < 2 ^ (8 * k)) by (apply Z.pow_pos_nonneg; lia).
  rewrite Z.rem_mul_r, Z.shiftr_div_pow2 by lia. unfold u8. lia.
Qed.

Lemma bytes_be_bytes k x : bytes (be_bytes k x).
Proof. apply Forall_forall. intros y. unfold be_bytes. rewrite list_elem_of_fmap. intros (i & -> & _). apply u8_range. Qed.

Lemma be_val_inj l1 l2 : bytes l1 → bytes l2 → length l1 = length l2 → be_val l1 = be_val l2 → l1 = l2.
Proof.
  revert l2. induction l1 as [|x l1 IH] using rev_ind; intros l2 H1 H2 Hl E.
  { by destruct l2. }
  destruct l2 as [|y l2 _] using rev_ind; [rewrite length_app in Hl; simpl in Hl; lia|].
  rewrite !length_app in Hl. apply Forall_app in H1 as [H1 Hx], H2 as [H2 Hy].
  apply Forall_cons in Hx as [Hx _], Hy as [Hy _]. rewrite !be_val_app in E. simpl in E, Hl.
  change (be_val [x]) with x in E. change (be_val [y]) with y in E.
  change (Z.pow_pos 256 1) with 256 in E. f_equal; [apply IH; done || lia|]. f_equal. lia.
Qed.

Lemma be_bytes_val l : bytes l → be_bytes (length l) (be_val l) = l.
Proof.
  intros H. apply be_val_inj; [apply bytes_be_bytes|done|apply be_bytes_length|].
  rewrite be_val_bytes. by apply Z.mod_small, be_val_range.
Qed.

Lemma be_bytes_app (j k : nat) x : be_bytes (j + k) x = be_bytes j (x / (2 ^ 8) ^ k) ++ be_bytes k x.
Proof.
  induction j as [|j IH]; [done|]. cbn [Nat.add app]. rewrite !be_bytes_S, IH. cbn [app]. f_equal.
  f_equal. rewrite pow8, !Z.shiftr_div_pow2 by lia. rewrite Z.div_div by (apply Z.pow_nonzero || apply Z.pow_pos_nonneg; lia).
  rewrite <- Z.pow_add_r by lia. do 2 f_equal. lia.
Qed.

(** * Conversion to limbs and back *)

Abbreviation bytes32 l := (length l = 32%nat ∧ bytes l).

Lemma at_slice l s k : (s + k ≤ length l)%nat → map (λ j, at_ l (s + j)) (seq 0 k) = take k (drop s l).
Proof.
  intros H. apply list_eq_same_length with k; [by rewrite length_take, length_drop; lia|by rewrite length_map, length_seq|].
  intros i x y Hi. rewrite list_lookup_fmap, lookup_seq_lt by done. simpl.
  rewrite lookup_take_lt, lookup_drop by done. unfold at_. intros [= <-] E. by rewrite E.
Qed.

Lemma load_fold l v : bytes l → 0 ≤ v → (v + 1) * (2 ^ 8) ^ length l ≤ 2 ^ 64 →
  foldl (λ v x, Z.lor (u64 (Z.shiftl v 8)) x) v l = foldl (λ v x, 2 ^ 8 * v + x) v l.
Proof.
  intros Hb. revert v. induction Hb as [|x l Hx Hb IH]; intros v Hv Hlt; [done|].
  cbn [foldl length] in *. rewrite Nat2Z.inj_succ, Z.pow_succ_r in Hlt by lia.
  assert (0 < (2 ^ 8) ^ length l) as Hp by (apply Z.pow_pos_nonneg; lia).
  assert (Z.lor (u64 (Z.shiftl v 8)) x = 2 ^ 8 * v + x) as ->.
  { rewrite u64_small by (rewrite Z.shiftl_mul_pow2; nia). rewrite lor_low by lia. ring. }
  apply IH; [lia|]. set (w := (2 ^ 8) ^ length l) in *. clearbody w. cbn beta in Hx. nia.
Qed.

Lemma foldl_map {A B C} (f : A → B → A) (g : C → B) a l : foldl f a (map g l) = foldl (λ v j, f v (g j)) a l.
Proof. revert a. induction l as [|x l IH]; intros a; [done|]. apply IH. Qed.

Lemma load_limb_val inp i : bytes inp → (i * 8 + 8 ≤ length inp)%nat →
  load_limb inp i = be_val (take 8 (drop (i * 8) inp)) ∧ 0 ≤ load_limb inp i < base.
Proof.
  intros Hb Hl. assert (bytes (take 8 (drop (i * 8) inp))) as Hs by by apply Forall_take, Forall_drop.
  assert (length (take 8 (drop (i * 8) inp)) = 8%nat) as Ls by (rewrite length_take, length_drop; lia).
  assert (load_limb inp i = be_val (take 8 (drop (i * 8) inp))) as E.
  { rewrite <- at_slice in * by lia. unfold load_limb.
    rewrite <- (foldl_map (λ v x, Z.lor (u64 (Z.shiftl v 8)) x) (λ j, at_ inp (i * 8 + j))).
    rewrite load_fold; [done|done|done|rewrite Ls; done]. }
  split; [done|]. rewrite E. pose proof (be_val_range _ Hs) as Hr. by rewrite Ls in Hr.
Qed.

Lemma be_val_4 a0 a1 a2 a3 : length a1 = 8%nat → length a2 = 8%nat → length a3 = 8%nat →
  be_val (a0 ++ a1 ++ a2 ++ a3) = val [be_val a3; be_val a2; be_val a1; be_val a0].
Proof.
  intros L1 L2 L3. rewrite !be_val_app, !length_app, L1, L2, L3. cbn [val].
  change ((2 ^ 8) ^ Z.of_nat 8) with base. change ((2 ^ 8) ^ Z.of_nat (8 + 8)) with (base * base).
  change ((2 ^ 8) ^ Z.of_nat (8 + (8 + 8))) with (base * base * base). ring.
Qed.

Lemma split_4 (l : list Z) : length l = 32%nat →
  l = take 8 (drop 0 l) ++ take 8 (drop 8 l) ++ take 8 (drop 16 l) ++ take 8 (drop 24 l).
Proof. intros H. do 32 (destruct l as [|? l]; [done|]). by destruct l. Qed.

Lemma be_to_limbs_val inp : bytes32 inp → fe (be_to_limbs inp) ∧ val (be_to_limbs inp) = be_val inp.
Proof.
  intros [Hl Hb]. unfold be_to_limbs.
  destruct (load_limb_val inp 0 Hb) as [E0 R0]; [lia|]. destruct (load_limb_val inp 1 Hb) as [E1 R1]; [lia|].
  destruct (load_limb_val inp 2 Hb) as [E2 R2]; [lia|]. destruct (load_limb_val inp 3 Hb) as [E3 R3]; [lia|].
  split; [split; [done|]; unfold limbs; by rewrite !Forall_cons, Forall_nil|].
  rewrite (split_4 inp Hl) at 5. rewrite be_val_4 by (rewrite length_take, length_drop; lia).
  by rewrite E0, E1, E2, E3.
Qed.

Lemma limb_bytes_be v : limb_bytes v = be_bytes 8 v.
Proof. apply map_ext. intros j. do 2 f_equal. lia. Qed.

Lemma limbs_to_be_eq a : limbs_to_be a =
  be_bytes 8 (limb a 3) ++ be_bytes 8 (limb a 2) ++ be_bytes 8 (limb a 1) ++ be_bytes 8 (limb a 0).
Proof.
  unfold limbs_to_be.
  by rewrite (limb_bytes_be (limb a 3)), (limb_bytes_be (limb a 2)), (limb_bytes_be (limb a 1)), (limb_bytes_be (limb a 0)).
Qed.

Lemma limbs_to_be_length a : length (limbs_to_be a) = 32%nat.
Proof. by rewrite limbs_to_be_eq, !length_app, !be_bytes_length. Qed.

Lemma limbs_to_be_val a : fe a → limbs_to_be a = be_bytes 32 (val a).
Proof.
  intros [Hl Ha]. do 4 (destruct a as [|? a]; [done|]). destruct a; [|done].
  unfold limbs in Ha. rewrite !Forall_cons in Ha. destruct Ha as (H0 & H1 & H2 & H3 & _).
  assert (∀ x, 0 ≤ x < base → be_val (be_bytes 8 x) = x) as Hid
    by (intros x Hx; rewrite be_val_bytes; by apply Z.mod_small).
  rewrite limbs_to_be_eq.
  apply be_val_inj; [rewrite !Forall_app; split_and!; apply bytes_be_bytes|apply bytes_be_bytes| |].
  - by rewrite !length_app, !be_bytes_length.
  - rewrite be_val_4 by apply be_bytes_length. unfold limb. cbn [lookup list_lookup default]. simpl default.
    rewrite !Hid by done. rewrite be_val_bytes, Z.mod_small; [done|]. apply fe_range. split; [done|].
    unfold limbs. by rewrite !Forall_cons, Forall_nil.
Qed.

Lemma limbs_to_be_bytes a : fe a → bytes32 (limbs_to_be a) ∧ be_val (limbs_to_be a) = val a.
Proof.
  intros Ha. rewrite limbs_to_be_val by done. split; [split; [apply be_bytes_length|apply bytes_be_bytes]|].
  rewrite be_val_bytes. apply Z.mod_small. by apply fe_range.
Qed.

(** * The constants [curve_init] computes *)

Definition curve1 : curve := curve_init curve0.
Definition curve_ok (c : curve) : Prop := c = curve0 ∨ c = curve1.

Lemma curve_init_ok c : curve_ok c → curve_init c = curve1.
Proof. by intros [->| ->]. Qed.

Lemma curve_ONEM : fld (ONEM curve1) 1.
Proof. apply (fld_to_mont ONE). by apply fe_decide. Qed.
Lemma curve_PM2 : fe (PM2 curve1) ∧ val (PM2 curve1) = p - 2.
Proof. split; [apply fe_decide|]; by vm_compute. Qed.
Lemma curve_NM2 : fe (NM2 curve1) ∧ val (NM2 curve1) = n - 2.
Proof. split; [apply fe_decide|]; by vm_compute. Qed.
Lemma curve_G : fld (GXm curve1) (val G_X) ∧ fld (GYm curve1) (val G_Y).
Proof. split; apply fld_to_mont; by apply fe_decide. Qed.

Lemma base_mult_rep k : fe k → rep (scalar_mult_base curve1 k) (amul (val k) G).
Proof.
  intros Hk. destruct curve_G as [HX HY], (proj1 G_ok) as [Gx Gy].
  exact (scalar_mult_rep curve1 curve_ONEM k _ _ _ _ Hk Gx Gy HX HY).
Qed.

Lemma amul_G_ok k : aok (amul k G) ∧ acurve (amul k G).
Proof. destruct G_ok. split; [by apply amul_ok|by apply amul_curve]. Qed.

(** [jacobian_to_affine] of a multiple of the base point. *)
Lemma base_mult_affine k : fe k →
  match amul (val k) G with
  | None => jacobian_to_affine curve1 (scalar_mult_base curve1 k) = None
  | Some (x, y) => ∃ ax ay, jacobian_to_affine curve1 (scalar_mult_base curve1 k) = Some (ax, ay) ∧
      red P ax ∧ red P ay ∧ val ax = x ∧ val ay = y
  end.
Proof.
  intros Hk. destruct curve_PM2 as [H1 H2].
  pose proof (affine_spec curve1 _ _ H1 H2 (proj1 (amul_G_ok (val k))) (base_mult_rep k Hk)) as HA.
  destruct (amul (val k) G) as [[x y]|], (jacobian_to_affine _ _) as [[ax ay]|]; try done. eauto.
Qed.

(** * Arithmetic modulo the group order *)

Definition inv_n (x : Z) : Z := Zpow_mod x (n - 2) n.

Lemma n_pos : 0 < n.
Proof. done. Qed.
Lemma n_half : 2 ^ 256 ≤ 2 * n.
Proof. by vm_compute. Qed.
Lemma fe_N : fe N.
Proof. by apply fe_decide. Qed.

Lemma mod_reduce_n_val a : fe a → red N (mod_reduce_n a) ∧ val (mod_reduce_n a) = val a `mod` n.
Proof.
  intros Ha. pose proof (fe_range a Ha). pose proof n_half. pose proof n_pos. pose proof fe_N as HN. unfold mod_reduce_n.
  rewrite fe_ge_spec, take_ge by (apply Ha || done || (rewrite (proj1 Ha); done)). fold n. rewrite mod_once by lia.
  destruct (Z.leb_spec n (val a)); [|done]. destruct Ha as [La Ha], HN as [LN HN].
  destruct (sub_limbs_exact a N Ha HN) as (S1 & S2 & S3); [lia|fold n; lia|].
  fold n in S3. split; [|exact S3]. split; [split; [lia|done]|]. fold n. lia.
Qed.

Lemma mod_mul_n_val a c : fe a → fe c →
  red N (mod_mul_n a c) ∧ val (mod_mul_n a c) = (val a * val c) `mod` n.
Proof.
  intros Ha Hc. destruct (to_mont_dec (M := modulus_n) a Ha) as [A1 A2].
  destruct (to_mont_dec (M := modulus_n) c Hc) as [C1 C2]. unfold mod_mul_n.
  set (am := mont_mul_m a _ _ _) in *. set (bm := mont_mul_m c _ _ _) in *.
  destruct (mul_dec (M := modulus_n) am bm (proj1 A1) C1) as [T1 T2].
  set (t := mont_mul_m am bm _ _) in *.
  destruct (from_mont_val (M := modulus_n) t (proj1 T1)) as [R1 R2]. split; [exact R1|].
  rewrite R2. apply cong_iff; [done|]. by rewrite T2, A2, C2.
Qed.

Lemma mod_add_n_val a c : red N a → red N c →
  red N (mod_add_n a c) ∧ val (mod_add_n a c) = (val a + val c) `mod` n.
Proof.
  intros [Ha Hav] [Hc Hcv]. destruct (fe_add_m_spec a c N Ha Hc fe_N Hav Hcv) as [H1 H2].
  split; [|exact H2]. split; [exact H1|]. unfold mod_add_n. rewrite H2. by apply Z.mod_pos_bound.
Qed.

Lemma inv_mod_n_val a : fe a →
  red N (inv_mod_n curve1 a) ∧ val (inv_mod_n curve1 a) = inv_n (val a).
Proof.
  intros Ha. destruct curve_NM2 as [H1 H2].
  destruct (mod_exp_val (M := modulus_n) a (NM2 curve1) Ha H1) as [E1 E2].
  split; [exact E1|]. unfold inv_n. rewrite Zpow_mod_correct by done. unfold inv_mod_n.
  rewrite E2, H2. reflexivity.
Qed.

Lemma inv_n_spec x : ¬ x ≡[n] 0 → inv_n x * x ≡[n] 1.
Proof.
  intros Hx. unfold inv_n. rewrite Zpow_mod_correct by done. rewrite (cong_mod n) by done.
  apply (fermat_inverse (M := modulus_n)). intros E. apply Hx. apply cong_iff; [done|]. exact E.
Qed.

(** * The public interface *)

Lemma point_on_curve_ok c xb yb : curve_ok c → bytes32 xb → bytes32 yb →
  ecc_point_on_curve c xb yb = (curve1, on_curve (be_val xb) (be_val yb)).
Proof.
  intros Hc Hx Hy. destruct (be_to_limbs_val xb Hx) as [X1 X2], (be_to_limbs_val yb Hy) as [Y1 Y2].
  unfold ecc_point_on_curve. rewrite curve_init_ok by done. f_equal.
  pose proof (fld_to_mont _ X1) as HX. pose proof (fld_to_mont _ Y1) as HY. rewrite X2 in HX. rewrite Y2 in HY.
  pose proof (fld_to_mont B ltac:(by apply fe_decide)) as HB. fold b in HB.
  set (X := to_mont_p _) in *. set (Y := to_mont_p (be_to_limbs yb)) in *. set (Bm := to_mont_p B) in *.
  pose proof (fld_sqr _ _ HY) as L.
  pose proof (fld_sub _ _ _ _ (fld_add _ _ _ _ (fld_mul _ _ _ _ (fld_sqr _ _ HX) HX) HB)
    (fld_add _ _ _ _ (fld_add _ _ _ _ HX HX) HX)) as R.
  rewrite fe_equal_spec by (apply L || apply R).
  apply eq_true_iff_eq. rewrite on_curve_spec, Z.eqb_eq. simpl. split.
  - intros E. rewrite <- (proj2 L). unfold dec. rewrite E. change (val ?a * rinv_p) with (dec rinv_p a).
    rewrite (proj2 R). apply eq_cong. ring.
  - intros E. apply (dec_inj (M := modulus_p)); [apply L|apply R|]. fold p. rewrite (proj2 L), (proj2 R), E.
    apply eq_cong. ring.
Qed.

Lemma scalar_mult_base_ok c kb : curve_ok c → bytes32 kb →
  ecc_scalar_mult_base c kb =
  (curve1, match amul (be_val kb) G with
           | None => None
           | Some (x, y) => Some (be_bytes 32 x, be_bytes 32 y)
           end).
Proof.
  intros Hc Hk. destruct (be_to_limbs_val kb Hk) as [K1 K2]. unfold ecc_scalar_mult_base.
  rewrite curve_init_ok by done. pose proof (base_mult_affine _ K1) as HA. rewrite K2 in HA.
  destruct (amul (be_val kb) G) as [[x y]|]; [|by rewrite HA].
  destruct HA as (ax & ay & -> & R1 & R2 & <- & <-).
  rewrite !limbs_to_be_val by (apply R1 || apply R2). done.
Qed.

Lemma be_val_p v : 0 ≤ v < p → be_val (be_bytes 32 v) = v.
Proof.
  intros Hv. rewrite be_val_bytes. apply Z.mod_small. change ((2 ^ 8) ^ Z.of_nat 32) with (2 ^ 256).
  pose proof (fe_range P (md_fe (Modulus := modulus_p))). fold p in *. lia.
Qed.

(** A point of the curve, written out and read back. *)
Lemma point_bytes x y : aok (Some (x, y)) → acurve (Some (x, y)) →
  be_val (be_bytes 32 x) = x ∧ be_val (be_bytes 32 y) = y ∧ on_curve x y = true.
Proof. intros [Hx Hy] Hc. split; [by apply be_val_p|]. split; [by apply be_val_p|]. by apply on_curve_spec. Qed.

Lemma bytes32_be x : bytes32 (be_bytes 32 x).
Proof. split; [apply be_bytes_length|apply bytes_be_bytes]. Qed.
