(* ===== verification/EccSign.v ===== *)
(** Signing, verification and key generation of [crypto/ecc.c], and the generator
    of [crypto/rand.c], against their mathematical definitions. *)
From S2P Require Import Prelude Sha256 EccField Cong EccMod Ecc EccPoint EccApi.
Import Sha256 Fe Ecc.

#[local] Opaque mod_exp mont_mul_m fe_add_m fe_sub_m.

(** * Verification *)

Definition in_range (x : Z) : bool := (0 <? x) && (x <? n).
Definition verify_spec (qx qy h r s : Z) : bool :=
  in_range r && in_range s && on_curve qx qy &&
  let w := inv_n s in
  match aadd (amul ((h * w) `mod` n) G) (amul ((r * w) `mod` n) (Some (qx `mod` p, qy `mod` p))) with
  | None => false
  | Some (x, _) => x `mod` n =? r
  end.

Lemma fld_mod a v : fld a v → fld a (v `mod` p).
Proof. intros H. eapply fld_cong; [exact H|]. symmetry. by apply cong_mod. Qed.

(** The sum as [ecdsa_verify] forms it. *)
Lemma verify_sum q1 q2 a1 a2 : aok a1 → aok a2 → rep q1 a1 → rep q2 a2 →
  rep_x (if fe_is_zero (jZ q2) then q1 else if fe_is_zero (jZ q1) then q2
         else point_add_jacobian curve1 q1 q2) (aadd a1 a2).
Proof.
  intros Ho1 Ho2 H1 H2. destruct (id H2) as (z2 & Hz2 & Ha2). destruct (id H1) as (z1 & Hz1 & Ha1).
  destruct (fld_zero _ _ Hz2) as [E|E].
  { destruct a2 as [[? ?]|]; [by destruct Ha2|]. apply rep_x_intro. by destruct a1 as [[? ?]|]. }
  destruct (fld_zero _ _ Hz1) as [E'|E'].
  { destruct a1 as [[? ?]|]; [by destruct Ha1|]. by apply rep_x_intro. }
  apply jacobian_rep; [apply curve_ONEM|done..].
Qed.

Lemma in_range_spec a : fe a → in_range (val a) = negb (fe_is_zero a || fe_ge a N).
Proof.
  intros Ha. pose proof (fe_range a Ha). rewrite fe_is_zero_spec, fe_ge_spec, take_ge
    by (apply Ha || apply fe_N || done || (rewrite (proj1 Ha); done)). fold n. unfold in_range.
  destruct (Z.eqb_spec (val a) 0) as [E|E], (Z.leb_spec n (val a)) as [E'|E'], (Z.ltb_spec 0 (val a)),
    (Z.ltb_spec (val a) n); done || lia.
Qed.

(** From the two products to the comparison. *)
Lemma verify_point e r w qx qy : fe e → fe r → red N w → fe qx → fe qy →
  let q1 := scalar_mult_base curve1 (mod_mul_n (mod_reduce_n e) w) in
  let q2 := scalar_mult curve1 (mod_mul_n r w) (to_mont_p qx) (to_mont_p qy) in
  rep_x (if fe_is_zero (jZ q2) then q1 else if fe_is_zero (jZ q1) then q2
         else point_add_jacobian curve1 q1 q2)
    (aadd (amul ((val e * val w) `mod` n) G)
       (amul ((val r * val w) `mod` n) (Some (val qx `mod` p, val qy `mod` p)))).
Proof.
  intros He Hr [Hw _] Hx Hy. cbn zeta.
  destruct (mod_reduce_n_val e He) as [[E1 _] E2]. destruct (mod_mul_n_val _ w E1 Hw) as [[U1 _] U2].
  destruct (mod_mul_n_val r w Hr Hw) as [[V1 _] V2].
  assert ((val e * val w) `mod` n = val (mod_mul_n (mod_reduce_n e) w)) as ->
    by (rewrite U2, E2; symmetry; by apply Z.mul_mod_idemp_l).
  rewrite <- V2.
  assert (0 ≤ val qx `mod` p < p ∧ 0 ≤ val qy `mod` p < p) as [Bx By] by (split; by apply Z.mod_pos_bound).
  apply verify_sum.
  - apply amul_G_ok.
  - apply amul_ok. exact (conj Bx By).
  - by apply base_mult_rep.
  - apply scalar_mult_rep; [apply curve_ONEM|exact V1|exact Bx|exact By|apply fld_mod..]; by apply fld_to_mont.
Qed.

Lemma verify_ok c pub hash rb sb :
  curve_ok c → bytes32 (px pub) → bytes32 (py pub) → bytes32 hash → bytes32 rb → bytes32 sb →
  ecdsa_verify c pub hash rb sb =
  (curve1, verify_spec (be_val (px pub)) (be_val (py pub)) (be_val hash) (be_val rb) (be_val sb)).
Proof.
  intros Hc Hx Hy Hh Hr Hs. unfold ecdsa_verify, verify_spec. rewrite curve_init_ok by done.
  rewrite point_on_curve_ok by (done || by right).
  destruct (be_to_limbs_val rb Hr) as [R1 <-], (be_to_limbs_val sb Hs) as [S1 <-],
    (be_to_limbs_val hash Hh) as [E1 <-], (be_to_limbs_val _ Hx) as [X1 <-], (be_to_limbs_val _ Hy) as [Y1 <-].
  set (r := be_to_limbs rb) in *. set (s := be_to_limbs sb) in *. set (e := be_to_limbs hash) in *.
  set (qx := be_to_limbs (px pub)) in *. set (qy := be_to_limbs (py pub)) in *. clearbody r s e qx qy.
  rewrite !in_range_spec by done.
  destruct (fe_is_zero r), (fe_is_zero s), (fe_ge r N), (fe_ge s N); cbn [orb negb andb]; try done.
  destruct (on_curve _ _); cbn [orb negb andb]; [|done]. cbn zeta.
  destruct (inv_mod_n_val s S1) as [W1 <-]. set (w := inv_mod_n curve1 s) in *. clearbody w.
  pose proof (verify_point e r w qx qy E1 R1 W1 X1 Y1) as HR. cbn zeta in HR.
  destruct curve_PM2 as [P1 P2].
  assert (aok (Some (val qx `mod` p, val qy `mod` p))) as Hq by (split; by apply Z.mod_pos_bound).
  pose proof (affine_x curve1 _ _ P1 P2 (aadd_ok _ _ (proj1 (amul_G_ok _)) (amul_ok _ _ Hq)) HR) as HA.
  destruct (aadd _ _) as [[x y]|], (jacobian_to_affine _ _) as [[ax ay]|]; try done. f_equal.
  destruct HA as ([A1 _] & _ & A2 & _). destruct (mod_reduce_n_val ax A1) as [[B1 _] B2].
  rewrite fe_equal_spec, B2, A2 by done. done.
Qed.

(** * The nonce of RFC 6979 *)

Fixpoint k_spec (i : nat) (K V : list Z) : option Z :=
  match i with
  | O => None
  | S i =>
      let V := hmac_spec K V in
      if in_range (be_val V) then Some (be_val V)
      else let K := hmac_spec K (V ++ [0]) in k_spec i K (hmac_spec K V)
  end.
Definition nonce (d h : list Z) : option Z :=
  let h' := be_bytes 32 (be_val h `mod` n) in
  let V := replicate 32 1 in
  let K := hmac_spec (replicate 32 0) (V ++ [0] ++ d ++ h') in
  let V := hmac_spec K V in
  let K := hmac_spec K (V ++ [1] ++ d ++ h') in
  k_spec 128 K (hmac_spec K V).

Lemma hmac_bytes key msg : bytes32 (hmac_spec key msg).
Proof. unfold hmac_spec. split; [apply digest_length|apply digest_bytes]. Qed.

(** The limbs [ecdsa_generate_k] returns for a nonce. *)
Definition of_nonce (o : option Z) (r : option (list Z)) : Prop :=
  match o, r with
  | None, None => True
  | Some k, Some l => fe l ∧ val l = k ∧ in_range k = true
  | _, _ => False
  end.

Lemma k_loop_ok junk i K V : length junk = 64%nat →
  ∃ r, k_loop junk i K V = Some r ∧ of_nonce (k_spec i K V) r.
Proof.
  intros Hj. revert K V. induction i as [|i IH]; intros K V; [by exists None|].
  cbn [k_loop k_spec]. rewrite hmac_ok by done. cbn [mbind option_bind].
  set (V' := hmac_spec K V). destruct (be_to_limbs_val V' (hmac_bytes _ _)) as [H1 H2].
  rewrite <- H2, in_range_spec, negb_orb by done. destruct (_ && _) eqn:Hr.
  - eexists. split; [done|]. split; [done|]. split; [done|].
    by rewrite in_range_spec, negb_orb by done.
  - rewrite !hmac_ok by done. cbn [mbind option_bind]. rewrite hmac_ok by done. apply IH.
Qed.

Lemma generate_k_ok junk d h : length junk = 64%nat → bytes32 h →
  ∃ r, ecdsa_generate_k junk d h = Some r ∧ of_nonce (nonce d h) r.
Proof.
  intros Hj Hh. destruct (be_to_limbs_val h Hh) as [H1 H2].
  destruct (mod_reduce_n_val _ H1) as [[H3 _] H4]. unfold ecdsa_generate_k, nonce. cbn zeta.
  rewrite limbs_to_be_val, H4, H2 by done.
  set (h' := be_bytes 32 _). clearbody h'.
  eassert (∀ K m (f : list Z → option (option (list Z))), (x ← hmac_sha256 junk K m; f x) = f (hmac_spec K m)) as Hb.
  { intros K m f. by rewrite hmac_ok by done. }
  rewrite !Hb. by apply k_loop_ok.
Qed.

(** * Signing *)

(** The pair a nonce [k] gives for the hash value [h] under the key [d]; its
    components may be zero. *)
Definition raw_sign (k d h : Z) : option (Z * Z) :=
  match amul k G with
  | None => None
  | Some (x, _) => let r := x `mod` n in Some (r, (inv_n k * (h + r * d)) `mod` n)
  end.

Lemma sign_s k r d h : fe k → fe r → fe d → fe h →
  let s := mod_mul_n (inv_mod_n curve1 k) (mod_add_n (mod_reduce_n h) (mod_mul_n r d)) in
  fe s ∧ val s = (inv_n (val k) * (val h + val r * val d)) `mod` n.
Proof.
  intros Hk Hr Hd Hh. destruct (mod_reduce_n_val h Hh) as [E1 E2], (mod_mul_n_val r d Hr Hd) as [M1 M2].
  destruct (mod_add_n_val _ _ E1 M1) as [[T1 _] T2], (inv_mod_n_val k Hk) as [[I1 _] I2].
  destruct (mod_mul_n_val _ _ I1 T1) as [[S1 _] S2]. split; [exact S1|].
  rewrite S2, I2, T2, M2, E2. apply cong_iff; [done|]. by rewrite !(cong_mod n).
Qed.

(** One call of [ecdsa_sign], the recursive one left as it is. *)
Lemma sign_step fuel junk c d hash : curve_ok c → length junk = 64%nat → bytes32 d → bytes32 hash →
  ecdsa_sign (S fuel) junk c d hash =
  match nonce d hash with
  | None => Some (curve1, None)
  | Some k =>
      match raw_sign k (be_val d) (be_val hash) with
      | None => Some (curve1, None)
      | Some (r, s) =>
          if (r =? 0) || (s =? 0) then ecdsa_sign fuel junk curve1 d hash
          else Some (curve1, Some (be_bytes 32 r, be_bytes 32 s))
      end
  end.
Proof.
  intros Hc Hj Hd Hh. cbn [ecdsa_sign]. rewrite curve_init_ok by done.
  destruct (generate_k_ok junk d hash Hj Hh) as (kr & -> & Hk). cbn [mbind option_bind].
  destruct (nonce d hash) as [k|], kr as [kl|]; try done. destruct Hk as (K1 & <- & _).
  destruct (be_to_limbs_val d Hd) as [D1 <-], (be_to_limbs_val hash Hh) as [H1 <-].
  pose proof (base_mult_affine kl K1) as HA. unfold raw_sign.
  destruct (amul (val kl) G) as [[x y]|]; [|by rewrite HA].
  destruct HA as (ax & ay & -> & [A1 _] & _ & <- & _).
  destruct (mod_reduce_n_val ax A1) as [[R1 _] <-].
  destruct (sign_s kl (mod_reduce_n ax) (be_to_limbs d) (be_to_limbs hash) K1 R1 D1 H1) as [S1 <-].
  rewrite (fe_is_zero_spec _ R1), (fe_is_zero_spec _ S1), (limbs_to_be_val _ R1), (limbs_to_be_val _ S1).
  destruct (val (mod_reduce_n ax) =? 0); [reflexivity|]. cbn [orb].
  destruct (_ =? 0); reflexivity.
Qed.

(** The nonce gives a signature with a zero component. *)
Definition degenerate (d hash : list Z) : Prop :=
  ∃ k r s, nonce d hash = Some k ∧ raw_sign k (be_val d) (be_val hash) = Some (r, s) ∧ (r = 0 ∨ s = 0).

Lemma sign_degenerate fuel junk c d hash :
  curve_ok c → length junk = 64%nat → bytes32 d → bytes32 hash → degenerate d hash →
  ecdsa_sign fuel junk c d hash = None.
Proof.
  intros Hc Hj Hd Hh (k & r & s & Hk & Hr & H0). revert c Hc.
  induction fuel as [|fuel IH]; intros c Hc; [done|]. rewrite sign_step, Hk, Hr by done.
  assert ((r =? 0) || (s =? 0) = true) as -> by lia. apply IH. by right.
Qed.

Lemma k_spec_range i K V k : k_spec i K V = Some k → in_range k = true.
Proof.
  revert K V. induction i as [|i IH]; intros K V; cbn [k_spec]; [done|].
  destruct (in_range (be_val (hmac_spec K V))) eqn:E; [by intros [= <-]|apply IH].
Qed.

Lemma nonce_range d h k : nonce d h = Some k → 0 < k < n.
Proof. unfold nonce. cbn zeta. intros H. apply k_spec_range in H. unfold in_range in H. lia. Qed.

(** The signing equation. *)
Lemma raw_sign_eq k d h r s : 0 < k < n → raw_sign k d h = Some (r, s) →
  0 ≤ r < n ∧ 0 ≤ s < n ∧ s * k ≡[n] h + r * d ∧ ∃ x y, amul k G = Some (x, y) ∧ r = x `mod` n.
Proof.
  intros Hk. pose proof (inv_n_spec k) as Hi. unfold raw_sign. generalize dependent (inv_n k). intros i Hi.
  destruct (amul k G) as [[x y]|]; [|done]. intros [= <- <-].
  split; [by apply Z.mod_pos_bound|]. split; [by apply Z.mod_pos_bound|]. split; [|eauto].
  rewrite (cong_mod n (i * _)) by done. set (t := h + _).
  transitivity (i * k * t); [apply eq_cong; ring|].
  rewrite Hi; [by rewrite Z.mul_1_l|]. intros E. apply (cong_small n) in E; lia.
Qed.

(** C24: what [ecdsa_sign] returns, on every branch.  A signature consists of 32
    bytes each, [r] is the first coordinate of [k * G] modulo the group order for
    the RFC 6979 nonce [k] of the key and the hash, both components lie in
    [[1, n-1]], and they satisfy [s * k = h + r * d] modulo [n].  An error means
    that no nonce was found in 128 rounds or that [k * G] is the point at
    infinity.  The call does not return only for a nonce whose signature has a
    zero component. *)
Theorem ecdsa_sign_correct fuel junk c d hash :
  curve_ok c → length junk = 64%nat → bytes32 d → bytes32 hash →
  match ecdsa_sign (S fuel) junk c d hash with
  | Some (c', Some (rb, sb)) =>
      c' = curve1 ∧ bytes32 rb ∧ bytes32 sb ∧ 0 < be_val rb < n ∧ 0 < be_val sb < n ∧
      ∃ k x y, nonce d hash = Some k ∧ amul k G = Some (x, y) ∧ be_val rb = x `mod` n ∧
        be_val sb * k ≡[n] be_val hash + be_val rb * be_val d
  | Some (c', None) =>
      c' = curve1 ∧ (nonce d hash = None ∨ ∃ k, nonce d hash = Some k ∧ amul k G = None)
  | None => degenerate d hash
  end.
Proof.
  intros Hc Hj Hd Hh. destruct (nonce d hash) as [k|] eqn:Hk; [|rewrite sign_step, Hk by done; eauto].
  destruct (raw_sign k (be_val d) (be_val hash)) as [[r s]|] eqn:Hr.
  - destruct (decide (r = 0 ∨ s = 0)) as [H0|H0].
    { assert (degenerate d hash) as Hdg by (exists k, r, s; done). by rewrite sign_degenerate. }
    rewrite sign_step, Hk, Hr by done. assert ((r =? 0) || (s =? 0) = false) as -> by lia.
    destruct (raw_sign_eq k _ _ r s (nonce_range _ _ _ Hk) Hr) as (Br & Bs & He & x & y & Hm & Hx).
    assert (∀ v, 0 ≤ v < n → be_val (be_bytes 32 v) = v) as Hv.
    { intros v Hv. rewrite be_val_bytes. apply Z.mod_small. pose proof (fe_range N fe_N). fold n in *.
      change ((2 ^ 8) ^ Z.of_nat 32) with (2 ^ 256). lia. }
    rewrite !Hv by done. repeat split; try (apply be_bytes_length || apply bytes_be_bytes || lia).
    exists k, x, y. auto.
  - rewrite sign_step, Hk, Hr by done. split; [done|]. right. exists k. split; [done|].
    unfold raw_sign in Hr. by destruct (amul k G) as [[? ?]|].
Qed.

Lemma bytes_replicate k x : 0 ≤ x < 2 ^ 8 → bytes (replicate k x).
Proof. intros Hx. by apply Forall_replicate. Qed.

Lemma ecdsa_sign_correct_witness :
  match ecdsa_sign 1 (replicate 64 0) curve0 (replicate 32 7) (replicate 32 9) with
  | Some (c', Some (rb, sb)) =>
      c' = curve1 ∧ bytes32 rb ∧ bytes32 sb ∧ 0 < be_val rb < n ∧ 0 < be_val sb < n ∧
      ∃ k x y, nonce (replicate 32 7) (replicate 32 9) = Some k ∧ amul k G = Some (x, y) ∧
        be_val rb = x `mod` n ∧
        be_val sb * k ≡[n] be_val (replicate 32 9) + be_val rb * be_val (replicate 32 7)
  | Some (c', None) =>
      c' = curve1 ∧ (nonce (replicate 32 7) (replicate 32 9) = None ∨
        ∃ k, nonce (replicate 32 7) (replicate 32 9) = Some k ∧ amul k G = None)
  | None => degenerate (replicate 32 7) (replicate 32 9)
  end.
Proof.
  apply (ecdsa_sign_correct 0 (replicate 64 0) curve0 (replicate 32 7) (replicate 32 9));
    [left; reflexivity|reflexivity|split; [reflexivity|apply bytes_replicate; lia]..].
Defined.

(** C27: [ecdsa_sign] returns exactly when its nonce gives a signature without a
    zero component: the recursive call repeats the same arguments, and the nonce
    is a function of them, so in the remaining case the recursion never ends. *)
Theorem ecdsa_sign_terminates_iff junk c d hash :
  curve_ok c → length junk = 64%nat → bytes32 d → bytes32 hash →
  (∃ fuel res, ecdsa_sign fuel junk c d hash = Some res) ↔ ¬ degenerate d hash.
Proof.
  intros Hc Hj Hd Hh. split.
  - intros (fuel & res & E) Hdg. by rewrite sign_degenerate in E.
  - intros Hnd. exists 1%nat. rewrite sign_step by done.
    destruct (nonce d hash) as [k|] eqn:Hk; [|eauto].
    destruct (raw_sign k _ _) as [[r s]|] eqn:Hr; [|eauto].
    assert ((r =? 0) || (s =? 0) = false) as ->; [|eauto].
    destruct (Z.eqb_spec r 0), (Z.eqb_spec s 0); try done; destruct Hnd; exists k, r, s; auto.
Qed.

Lemma ecdsa_sign_terminates_iff_witness :
  (∃ fuel res, ecdsa_sign fuel (replicate 64 0) curve0 (replicate 32 7) (replicate 32 9) = Some res) ↔
  ¬ degenerate (replicate 32 7) (replicate 32 9).
Proof.
  apply (ecdsa_sign_terminates_iff (replicate 64 0) curve0 (replicate 32 7) (replicate 32 9));
    [left; reflexivity|reflexivity|split; [reflexivity|apply bytes_replicate; lia]..].
Defined.

(** C15: [ecdsa_verify] decides ECDSA verification.  For a public key, a hash and a
    signature of 32-byte strings it accepts exactly when [r] and [s] lie in
    [[1, n-1]], the key satisfies the curve equation, and the first coordinate of
    [(h/s) * G + (r/s) * Q], computed by the chord-and-tangent law, equals [r]
    modulo [n]; Montgomery form, Jacobian coordinates and the double-and-add loop
    do not show. *)
Theorem ecdsa_verify_correct c pub hash rb sb :
  curve_ok c → bytes32 (px pub) → bytes32 (py pub) → bytes32 hash → bytes32 rb → bytes32 sb →
  ecdsa_verify c pub hash rb sb =
  (curve1, verify_spec (be_val (px pub)) (be_val (py pub)) (be_val hash) (be_val rb) (be_val sb)).
Proof. apply verify_ok. Qed.

Lemma ecdsa_verify_correct_witness :
  ecdsa_verify curve0 (MkPoint (replicate 32 1) (replicate 32 2)) (replicate 32 3) (replicate 32 4) (replicate 32 5) =
  (curve1, verify_spec (be_val (replicate 32 1)) (be_val (replicate 32 2)) (be_val (replicate 32 3))
     (be_val (replicate 32 4)) (be_val (replicate 32 5))).
Proof.
  apply (ecdsa_verify_correct curve0 (MkPoint (replicate 32 1) (replicate 32 2)));
    [left; reflexivity|split; [reflexivity|apply bytes_replicate; lia]..].
Defined.

(** C25: [ecc_scalar_mult_base] computes the multiple of the base point that the
    chord-and-tangent law defines, as two big-endian coordinates, and reports an
    error exactly when that multiple is the point at infinity; the coordinates it
    returns pass [ecc_point_on_curve]. *)
Theorem ecc_scalar_mult_base_correct c kb :
  curve_ok c → bytes32 kb →
  match amul (be_val kb) G with
  | None => ecc_scalar_mult_base c kb = (curve1, None)
  | Some (x, y) =>
      ecc_scalar_mult_base c kb = (curve1, Some (be_bytes 32 x, be_bytes 32 y)) ∧
      be_val (be_bytes 32 x) = x ∧ be_val (be_bytes 32 y) = y ∧
      ecc_point_on_curve c (be_bytes 32 x) (be_bytes 32 y) = (curve1, true)
  end.
Proof.
  intros Hc Hk. rewrite scalar_mult_base_ok by done.
  destruct (amul_G_ok (be_val kb)) as [Hok Hcv]. destruct (amul (be_val kb) G) as [[x y]|]; [|done].
  destruct (point_bytes x y Hok Hcv) as (Hx & Hy & Hon). split; [done|]. split; [done|]. split; [done|].
  rewrite point_on_curve_ok by (done || apply bytes32_be).
  by rewrite Hx, Hy, Hon.
Qed.

Lemma ecc_scalar_mult_base_correct_witness :
  amul (be_val (be_bytes 32 1)) G = Some (val G_X, val G_Y) ∧
  ecc_point_on_curve curve0 (be_bytes 32 (val G_X)) (be_bytes 32 (val G_Y)) = (curve1, true).
Proof.
  assert (amul (be_val (be_bytes 32 1)) G = Some (val G_X, val G_Y)) as E by reflexivity.
  split; [exact E|].
  pose proof (ecc_scalar_mult_base_correct curve0 (be_bytes 32 1) (or_introl eq_refl)
    (conj eq_refl (bytes_be_bytes 32 1))) as H.
  rewrite E in H. apply H.
Defined.

(** * The generator of [crypto/rand.c] *)

Import Rand.

Lemma hash_of_ok junk parts : length junk = 64%nat → hash_of junk parts = Some (sha256_spec (concat parts)).
Proof.
  intros Hj. unfold hash_of.
  destruct (update_all_absorbed parts _ _ (init_absorbed (fresh_ctx junk) Hj)) as (c & E & Hc).
  destruct (final_absorbed c _ Hc) as (c' & E' & _).
  apply (bind_some _ c _ _ E), (bind_some _ _ _ _ E'). reflexivity.
Qed.

(** Counter mode over SHA-256, the block hashed back into the state. *)
Definition out_block (st : list Z) (ctr : Z) : list Z := sha256_spec (st ++ be_bytes 8 ctr).
Definition next_state (st : list Z) (ctr : Z) : list Z := sha256_spec (st ++ out_block st ctr).
Fixpoint stream (k : nat) (st : list Z) (ctr : Z) : list Z :=
  match k with
  | O => []
  | S k => out_block st ctr ++ stream k (next_state st ctr) (ctr +u 1)
  end.

Lemma rand_loop_ok fuel junk r out len : length junk = 64%nat → len - length out ≤ Z.of_nat fuel →
  ∃ r', rand_loop fuel junk r out len =
    Some (r', out ++ take (Z.to_nat (len - length out)) (stream fuel (g_rand_state r) (g_rand_counter r))) ∧
    g_rand_seeded r' = g_rand_seeded r.
Proof.
  intros Hj. revert r out. induction fuel as [|fuel IH]; intros r out Hf; cbn [rand_loop].
  { exists r. destruct (Z.leb_spec len (length out)); [|lia].
    split; [|done]. cbn [stream]. by rewrite take_nil, app_nil_r. }
  destruct (Z.leb_spec len (length out)) as [Hle|Hgt].
  { exists r. split; [|done]. replace (Z.to_nat (len - length out)) with 0%nat by lia. by rewrite app_nil_r. }
  replace (map _ (seq 0 8)) with (be_bytes 8 (g_rand_counter r))
    by (apply map_ext; intros i; do 2 f_equal; lia).
  rewrite !hash_of_ok by done. cbn [mbind option_bind concat]. rewrite app_nil_r.
  change (sha256_spec (g_rand_state r ++ be_bytes 8 (g_rand_counter r)))
    with (out_block (g_rand_state r) (g_rand_counter r)).
  rewrite hash_of_ok by done. cbn [mbind option_bind concat]. rewrite app_nil_r.
  set (blk := out_block _ _). assert (length blk = 32%nat) as Hb by apply digest_length.
  set (tk := if len - length out <? SHA256_DIGEST_SIZE then _ else _).
  assert (tk = Z.min 32 (len - length out)) as Htk.
  { unfold tk. change (Z.of_nat SHA256_DIGEST_SIZE) with 32. destruct (Z.ltb_spec (len - length out) 32); lia. }
  clearbody tk. subst tk.
  edestruct (IH (MkRand (g_rand_seeded r) (sha256_spec (g_rand_state r ++ blk)) (g_rand_counter r +u 1))
    (out ++ take (Z.to_nat (Z.min 32 (len - length out))) blk)) as (r' & E & Hs).
  { rewrite length_app, length_take, Hb. lia. }
  exists r'. split; [|exact Hs]. rewrite E. f_equal. f_equal. rewrite <- app_assoc. f_equal.
  cbn [stream g_rand_state g_rand_counter]. fold blk.
  rewrite length_app, length_take, Hb, take_app, Hb. f_equal.
  - destruct (decide (len - length out ≤ 32)); [by replace (Z.min 32 (len - length out)) with (len - length out) by lia|].
    rewrite !take_ge by lia. done.
  - f_equal. lia.
Qed.

Lemma rand_ok junk e r len : length junk = 64%nat → 0 ≤ len →
  ∃ r' st ctr, crypto_rand_bytes junk e r len =
    Some (r', take (Z.to_nat len) (stream (Z.to_nat len) st ctr)) ∧ g_rand_seeded r' = true ∧
    (g_rand_seeded r = true → st = g_rand_state r ∧ ctr = g_rand_counter r).
Proof.
  intros Hj Hlen. unfold crypto_rand_bytes, rand_seed_once. destruct (g_rand_seeded r) eqn:Hs.
  - cbn [mbind option_bind]. destruct (rand_loop_ok (Z.to_nat len) junk r [] len Hj) as (r' & E & Hr');
      [simpl; lia|]. rewrite E. simpl. rewrite Z.sub_0_r. exists r', (g_rand_state r), (g_rand_counter r).
    by rewrite Hr', Hs.
  - rewrite hash_of_ok by done. cbn [mbind option_bind]. set (r1 := MkRand true _ _).
    destruct (rand_loop_ok (Z.to_nat len) junk r1 [] len Hj) as (r' & E & Hr'); [simpl; lia|].
    rewrite E. simpl app. rewrite Z.sub_0_r. exists r', (g_rand_state r1), (g_rand_counter r1). done.
Qed.

Lemma stream_bytes k st ctr : bytes (stream k st ctr) ∧ length (stream k st ctr) = (32 * k)%nat.
Proof.
  revert st ctr. induction k as [|k IH]; intros st ctr; [done|]. cbn [stream].
  destruct (IH (next_state st ctr) (ctr +u 1)) as [H1 H2]. rewrite length_app, H2.
  split; [apply Forall_app; split; [apply digest_bytes|done]|]. unfold out_block. rewrite digest_length.
  change SHA256_DIGEST_SIZE with 32%nat. lia.
Qed.

(** * Key generation *)

(** What [ecc_keygen] relies on of its source of random bytes. *)
Class RandSource {R} (rand : R → Z → option (R * list Z)) : Prop :=
  rand_fills : ∀ r len, 0 ≤ len →
    ∃ r' buf, rand r len = Some (r', buf) ∧ Z.of_nat (length buf) = len ∧ bytes buf.

#[export] Instance rand_source junk e : length junk = 64%nat → RandSource (crypto_rand_bytes junk e).
Proof.
  intros Hj r len Hlen. destruct (rand_ok junk e r len Hj Hlen) as (r' & st & ctr & E & _).
  exists r', (take (Z.to_nat len) (stream (Z.to_nat len) st ctr)). split; [exact E|].
  destruct (stream_bytes (Z.to_nat len) st ctr) as [H1 H2]. rewrite length_take, H2.
  split; [lia|]. by apply Forall_take.
Qed.

(** A key pair: the private scalar is in range, the public key is its multiple of
    the base point. *)
Definition key_ok (k : ecc_key_t) : Prop :=
  bytes32 (kd k) ∧ bytes32 (px (pub k)) ∧ bytes32 (py (pub k)) ∧ 0 < be_val (kd k) < n ∧
  amul (be_val (kd k)) G = Some (be_val (px (pub k)), be_val (py (pub k))).

(** A draw that gives no key. *)
Definition bad_draw (buf : list Z) : Prop :=
  be_val buf `mod` n = 0 ∨ amul (be_val buf `mod` n) G = None.

Section keygen.
Context {R} (rand : R → Z → option (R * list Z)) {HR : RandSource rand}.

(** [k] draws in a row, all of them bad. *)
Inductive bad_draws : nat → R → R → Prop :=
  | bad_0 r : bad_draws 0 r r
  | bad_S k r r1 r2 buf : rand r 32 = Some (r1, buf) → bad_draw buf → bad_draws k r1 r2 → bad_draws (S k) r r2.

Lemma keygen_loop_ok k r : ∃ r' key, keygen_loop rand curve1 k r = Some (r', key) ∧
  match key with Some key => key_ok key | None => bad_draws k r r' end.
Proof using HR.
  revert r. induction k as [|k IH]; intros r; [exists r, None; split; [done|constructor]|].
  destruct (rand_fills r 32 ltac:(lia)) as (r1 & buf & Er & Hl & Hb).
  assert (bytes32 buf) as H32 by (split; [lia|done]).
  destruct (be_to_limbs_val buf H32) as [B1 B2], (mod_reduce_n_val _ B1) as [[D1 Dr] D2].
  pose proof (base_mult_affine _ D1) as HA. cbn [keygen_loop].
  rewrite Er. cbn [mbind option_bind]. rewrite fe_is_zero_spec by done.
  assert (bad_draw buf → ∃ r' key, keygen_loop rand curve1 k r1 = Some (r', key) ∧
    match key with Some key => key_ok key | None => bad_draws (S k) r r' end) as Hbad.
  { intros Hbd. destruct (IH r1) as (r' & key & E & Hk). exists r', key. split; [done|].
    destruct key; [done|]. by apply (bad_S k r r1 r' buf). }
  unfold bad_draw in Hbad. rewrite <- B2, <- D2 in Hbad.
  destruct (Z.eqb_spec (val (mod_reduce_n (be_to_limbs buf))) 0) as [E0|E0]; [by apply Hbad; left|].
  set (dl := mod_reduce_n _) in *. clearbody dl.
  destruct (amul (val dl) G) as [[x y]|] eqn:Em; [|rewrite HA; apply Hbad; by right].
  destruct HA as (ax & ay & -> & [A1 _] & [A2 _] & <- & <-).
  destruct (limbs_to_be_bytes dl D1) as [L1 L2], (limbs_to_be_bytes ax A1) as [L3 L4],
    (limbs_to_be_bytes ay A2) as [L5 L6].
  eexists r1, _. split; [reflexivity|]. unfold key_ok. cbn [kd pub px py]. rewrite L2, L4, L6.
  pose proof (fe_range dl D1). fold n in Dr. split_and!; done || apply L1 || apply L3 || apply L5 || lia.
Qed.

(** Key generation with any source that fills its buffer: it always returns;
    a key it returns has a private scalar in [[1, n-1]], its public key is that
    multiple of the base point and passes [ecc_point_on_curve]; and it fails only
    without an output buffer or after sixteen draws each of which is zero modulo
    [n] or maps to the point at infinity. *)
Theorem ecc_keygen_correct c r out : curve_ok c →
  ∃ r' key, ecc_keygen rand c r out = Some (curve1, r', key) ∧
    match key with
    | Some key => key_ok key ∧ ecc_point_on_curve curve1 (px (pub key)) (py (pub key)) = (curve1, true)
    | None => out = false ∨ bad_draws 16 r r'
    end.
Proof using HR.
  intros Hc. unfold ecc_keygen. rewrite curve_init_ok by done.
  destruct out; cbn [negb]; [|exists r, None; auto].
  destruct (keygen_loop_ok 16 r) as (r' & key & E & Hk). exists r', key.
  split; [by apply (bind_some _ _ _ _ E)|]. destruct key as [key|]; [|auto]. split; [done|].
  destruct Hk as (_ & Hx & Hy & _ & Hm). rewrite point_on_curve_ok by (done || by right).
  f_equal. apply on_curve_spec. rewrite <- Hm. apply amul_G_ok.
Qed.
End keygen.

Lemma ecc_keygen_correct_witness :
  let rand := crypto_rand_bytes (replicate 64 0) (MkEntropy (λ i, i) 0 [] 0 0 0 0) in
  ∃ r' key, ecc_keygen rand curve0 (MkRand false [] 0) true = Some (curve1, r', key) ∧
    match key with
    | Some key => key_ok key ∧ ecc_point_on_curve curve1 (px (pub key)) (py (pub key)) = (curve1, true)
    | None => true = false ∨ bad_draws rand 16 (MkRand false [] 0) r'
    end.
Proof.
  apply (ecc_keygen_correct (crypto_rand_bytes (replicate 64 0) (MkEntropy (λ i, i) 0 [] 0 0 0 0))
    (HR := rand_source (replicate 64 0) _ eq_refl) curve0 (MkRand false [] 0) true).
  left. reflexivity.
Defined.

(** Scalar inversion.  For a value of four limbs that is not a multiple of the
    group order, [inv_mod_n] (a 256-step square-and-multiply in Montgomery form)
    returns its inverse modulo [n]: the product by [mod_mul_n] is the array
    [{1, 0, 0, 0}]. *)
Theorem inv_mod_n_correct c a :
  curve_ok c → fe a → val a `mod` n ≠ 0 →
  mod_mul_n (inv_mod_n (curve_init c) a) a = ONE ∧ val (inv_mod_n (curve_init c) a) < n.
Proof.
  intros Hc Ha Hnz. rewrite curve_init_ok by done. destruct (inv_mod_n_val a Ha) as [[I1 I2] I3].
  split; [|exact I2]. destruct (mod_mul_n_val _ a I1 Ha) as [[[L1 R1] _] R2].
  apply val_inj; [exact R1|apply fe_ONE|rewrite L1; reflexivity|]. rewrite R2, I3.
  change (val ONE) with (1 `mod` n). apply cong_iff; [done|]. apply inv_n_spec.
  intros E. apply Hnz. by apply cong_iff in E.
Qed.

Lemma inv_mod_n_correct_witness :
  mod_mul_n (inv_mod_n (curve_init curve0) [5; 0; 0; 0]) [5; 0; 0; 0] = ONE ∧
  val (inv_mod_n (curve_init curve0) [5; 0; 0; 0]) < n.
Proof.
  apply (inv_mod_n_correct curve0 [5; 0; 0; 0]);
    [left; reflexivity|apply fe_decide; reflexivity|vm_compute; discriminate].
Defined.

(** * The second coordinate of the general addition *)

(** The triple satisfies the curve equation in Jacobian coordinates. *)
Lemma rep_equation q x y : rep q (Some (x, y)) → acurve (Some (x, y)) →
  let X := dec rinv_p (jX q) in let Y := dec rinv_p (jY q) in let Z := dec rinv_p (jZ q) in
  Y * Y ≡[p] X * X * X - 3 * X * (Z * Z * Z * Z) + b * (Z * Z * Z) * (Z * Z * Z).
Proof.
  intros (z & [_ Hz] & _ & [_ HX] & [_ HY]) Hc. cbn zeta. rewrite HX, HY, Hz. simpl in Hc.
  transitivity ((y * y) * ((z * z * z) * (z * z * z))); [apply eq_cong; ring|]. rewrite Hc.
  apply eq_cong. ring.
Qed.

Definition jacG : jac := MkJac (GXm curve1) (GYm curve1) (ONEM curve1).

Lemma jacG_rep : rep jacG G.
Proof.
  destruct curve_G as [H1 H2]. exists 1. split; [exact curve_ONEM|]. split; [by intros ?%cong_iff|].
  split; by rewrite !Z.mul_1_r.
Qed.

(** [G + 2 * G] as the code computes it. *)
Definition jacSum : jac := MkJac
  [253814262798538113; 17129737577905280382; 4406674229334556442; 318389097748878923]
  [3785579616949206043; 16962839895611279817; 9009942817017687228; 8886181567685487352]
  [5401631097860153259; 9491543900381658249; 13871604827468376873; 6537823078203889925].

Lemma jacSum_eq : point_add_jacobian curve1 jacG (point_double curve1 jacG) = jacSum.
Proof. by vm_compute. Qed.

Lemma jacSum_wrong a : acurve a → ¬ rep jacSum a.
Proof.
  destruct a as [[x y]|]; intros Hc Hr.
  - apply rep_equation in Hr; [|exact Hc]. apply cong_iff in Hr; [|done]. revert Hr. by vm_compute.
  - destruct Hr as (z & Hz & E). pose proof (fld_zero _ _ Hz) as HS.
    assert (fe_is_zero (jZ jacSum) = false) as F by reflexivity. rewrite F in HS. by inversion HS.
Qed.

(** [point_add_jacobian] computes the first coordinate of the sum of two points
    (which is all [ecdsa_verify] uses), and for [G] and [2 * G] a wrong second one:
    the triple it returns does not stand for their sum.  The code multiplies the
    whole difference [U1 - X3] by [H^2] where the formula has [U1 * H^2 - X3]. *)
Theorem point_add_jacobian_second_coordinate (q := point_add_jacobian curve1 jacG (point_double curve1 jacG)) :
  rep jacG G ∧ rep (point_double curve1 jacG) (adouble G) ∧
  rep_x q (aadd G (adouble G)) ∧ ¬ rep q (aadd G (adouble G)).
Proof.
  destruct G_ok as [Ho Hc].
  pose proof (double_rep curve1 curve_ONEM _ _ Ho jacG_rep) as H2.
  split; [exact jacG_rep|]. split; [exact H2|].
  split; [exact (jacobian_rep curve1 curve_ONEM _ _ _ _ Ho (adouble_ok _) jacG_rep H2)|].
  unfold q. rewrite jacSum_eq. apply jacSum_wrong.
  exact (aadd_curve G (adouble G) Ho (adouble_ok G) Hc (adouble_curve G Ho Hc)).
Qed.
