(* ===== verification/Printf.v ===== *)
(** Formatted output to a buffer: [__vsnprintf] and the functions it uses
    ([drv/video/vga.c]).

    A format and a string argument are the characters before the terminator.  The
    arguments are the slots [va_arg] reads: a 64-bit word, or a string ([None] for
    null); a conversion that finds no slot, or one of the other kind, is undefined
    and gives [None]. *)
From S2P Require Import Prelude.

Module Printf.

Definition s64 (x : Z) : Z := (x + 2 ^ 63) `mod` 2 ^ 64 - 2 ^ 63.

Inductive arg := Num (x : Z) | Str (s : option (list Z)).

Definition va_num (a : list arg) : option (Z * list arg) :=
  match a with Num x :: a => Some (x, a) | _ => None end.
Definition va_str (a : list arg) : option (option (list Z) * list arg) :=
  match a with Str s :: a => Some (s, a) | _ => None end.

Record bufw := MkW { wbuf : list Z; wcap : Z; wlen : Z }.

Definition bw_putc (w : bufw) (ch : Z) : bufw :=
  MkW (if (wlen w +u 1) <? wcap w then wbuf w ++ [ch] else wbuf w) (wcap w) (wlen w +u 1).
Definition bw_putn (w : bufw) (ch count : Z) : bufw := foldl bw_putc w (replicate (Z.to_nat count) ch).
Definition bw_putstrn (w : bufw) (s : list Z) (slen : Z) : bufw := foldl bw_putc w (take (Z.to_nat slen) s).

(** The digits, the least significant first; 64 of them are enough for 64 bits. *)
Definition digit_char (upper : bool) (d : Z) : Z := if d <? 10 then 48 + d else (if upper then 55 else 87) + d.
Fixpoint utoa_rev_loop (fuel : nat) (v base : Z) (upper : bool) : list Z :=
  match fuel with
  | O => []
  | S fuel => if v =? 0 then [] else digit_char upper (v `mod` base) :: utoa_rev_loop fuel (v / base) base upper
  end.
Definition utoa_rev (v base : Z) (upper : bool) : list Z :=
  if v =? 0 then [48] else utoa_rev_loop 64 v base upper.

(** * The parts of a conversion *)

Record flags := MkFlags { left : bool; plus : bool; space : bool; alt : bool; zero : bool }.
Definition flags0 : flags := MkFlags false false false false false.
Fixpoint parse_flags (p : list Z) (f : flags) : list Z * flags :=
  match p with
  | c :: p' =>
      if c =? 45 then parse_flags p' (MkFlags true (plus f) (space f) (alt f) (zero f))
      else if c =? 43 then parse_flags p' (MkFlags (left f) true (space f) (alt f) (zero f))
      else if c =? 32 then parse_flags p' (MkFlags (left f) (plus f) true (alt f) (zero f))
      else if c =? 35 then parse_flags p' (MkFlags (left f) (plus f) (space f) true (zero f))
      else if c =? 48 then parse_flags p' (MkFlags (left f) (plus f) (space f) (alt f) true)
      else (p, f)
  | [] => (p, f)
  end.

Fixpoint parse_digits (p : list Z) (n : Z) : list Z * Z :=
  match p with
  | c :: p' => if (48 <=? c) && (c <=? 57) then parse_digits p' (s32 (s32 (n * 10) + (c - 48))) else (p, n)
  | [] => (p, n)
  end.

(** The rest of the format, the arguments and the number; ["*"] takes it from the arguments. *)
Definition parse_number (p : list Z) (a : list arg) : option (list Z * list arg * Z) :=
  match p with
  | 42 :: p => '(x, a) ← va_num a; Some (p, a, s32 x)
  | _ => let '(p, n) := parse_digits p 0 in Some (p, a, n)
  end.

Inductive len_mod := LEN_DEF | LEN_HH | LEN_H | LEN_L | LEN_LL | LEN_Z.
Definition parse_length (p : list Z) : list Z * len_mod :=
  match p with
  | 104 :: 104 :: p => (p, LEN_HH)
  | 104 :: p => (p, LEN_H)
  | 108 :: 108 :: p => (p, LEN_LL)
  | 108 :: p => (p, LEN_L)
  | 122 :: p => (p, LEN_Z)
  | _ => (p, LEN_DEF)
  end.

Definition signed_arg (len : len_mod) (x : Z) : Z :=
  match len with LEN_LL | LEN_L | LEN_Z => s64 x | _ => s32 x end.
Definition unsigned_arg (len : len_mod) (x : Z) : Z :=
  match len with LEN_LL | LEN_L | LEN_Z => u64 x | _ => u32 x end.

Definition spaces (on : bool) (w : bufw) (pad : Z) : bufw := if on then bw_putn w 32 pad else w.
(** ["(null)"] *)
Definition s_null : list Z := [40; 110; 117; 108; 108; 41].

Definition conv_c (f : flags) (width : Z) (ch : Z) (w : bufw) : bufw :=
  let pad := if 1 <? width then width - 1 else 0 in
  let w := spaces (negb (left f)) w pad in
  let w := bw_putc w (u8 ch) in
  spaces (left f) w pad.

Definition conv_s (f : flags) (width prec : Z) (s : option (list Z)) (w : bufw) : bufw :=
  let s := default s_null s in
  let slen := Z.of_nat (length s) in
  let slen := if (0 <=? prec) && (prec <? slen) then prec else slen in
  let pad := if slen <? width then width - slen else 0 in
  let w := spaces (negb (left f)) w pad in
  let w := bw_putstrn w s slen in
  spaces (left f) w pad.

Definition padch (f : flags) (prec : Z) : Z := if zero f && negb (left f) && (prec <? 0) then 48 else 32.

Definition conv_d (f : flags) (width prec v : Z) (w : bufw) : bufw :=
  let num := utoa_rev (if v <? 0 then u64 (- v) else v) 10 false in
  let signch := if v <? 0 then 45 else if plus f then 43 else if space f then 32 else 0 in
  let tot := Z.of_nat (length num) + (if nz signch then 1 else 0) in
  let pad := if tot <? width then width - tot else 0 in
  let w := if left f then w else bw_putn w (padch f prec) pad in
  let w := if nz signch then bw_putc w signch else w in
  let w := foldl bw_putc w (rev num) in
  spaces (left f) w pad.

Definition conv_u (f : flags) (width prec base : Z) (upper : bool) (u : Z) (w : bufw) : bufw :=
  let num := utoa_rev u base upper in
  let prefix := alt f && (base =? 16) && nz u in
  let tot := Z.of_nat (length num) + (if prefix then 2 else 0) in
  let pad := if tot <? width then width - tot else 0 in
  let w := if left f then w else bw_putn w (padch f prec) pad in
  let w := if prefix then bw_putc (bw_putc w 48) (if upper then 88 else 120) else w in
  let w := foldl bw_putc w (rev num) in
  spaces (left f) w pad.

Definition conv_p (f : flags) (width u : Z) (w : bufw) : bufw :=
  let num := utoa_rev u 16 false in
  let tot := Z.of_nat (length num) + 2 in
  let pad := if tot <? width then width - tot else 0 in
  let w := spaces (negb (left f)) w pad in
  let w := bw_putc (bw_putc w 48) 120 in
  let w := foldl bw_putc w (rev num) in
  spaces (left f) w pad.

(** [switch (spec)] *)
Definition convert (f : flags) (width prec : Z) (len : len_mod) (spec : Z) (a : list arg) (w : bufw)
    : option (bufw * list arg) :=
  if spec =? 99 then '(x, a) ← va_num a; Some (conv_c f width x w, a)
  else if spec =? 115 then '(s, a) ← va_str a; Some (conv_s f width prec s w, a)
  else if (spec =? 100) || (spec =? 105) then '(x, a) ← va_num a; Some (conv_d f width prec (signed_arg len x) w, a)
  else if (spec =? 117) || (spec =? 120) || (spec =? 88) then
    '(x, a) ← va_num a;
    Some (conv_u f width prec (if spec =? 117 then 10 else 16) (spec =? 88) (unsigned_arg len x) w, a)
  else if spec =? 112 then '(x, a) ← va_num a; Some (conv_p f width (u64 x) w, a)
  else if spec =? 37 then Some (bw_putc w 37, a)
  else Some (bw_putc (bw_putc w 37) spec, a).

(** What follows a ["%"]: flags, width, precision, length, conversion. *)
Definition directive (p : list Z) (a : list arg) (w : bufw) : option (list Z * list arg * bufw) :=
  let '(p, f) := parse_flags p flags0 in
  '(p, a, width) ← parse_number p a;
  let '(f, width) := if width <? 0 then (MkFlags true (plus f) (space f) (alt f) (zero f), s32 (- width)) else (f, width) in
  '(p, a, prec) ← match p with 46 :: p => parse_number p a | _ => Some (p, a, -1) end;
  let '(p, len) := parse_length p in
  let '(spec, p) := match p with c :: p => (c, p) | [] => (0, []) end in
  '(w, a) ← convert f width prec len spec a w;
  Some (p, a, w).

(** Every round consumes a character of the format. *)
Fixpoint format_loop (fuel : nat) (p : list Z) (a : list arg) (w : bufw) : option bufw :=
  match fuel with
  | O => None
  | S fuel =>
      match p with
      | [] => Some w
      | c :: p =>
          if c =? 37 then '(p, a, w) ← directive p a w; format_loop fuel p a w
          else format_loop fuel p a (bw_putc w c)
      end
  end.

(** The result and the string left in the buffer, before its terminator; [None] for a
    null buffer. *)
Definition vsnprintf (out : bool) (outsz : Z) (fmt : list Z) (a : list arg) : option (Z * list Z) :=
  if negb out || (outsz =? 0) then Some (0, [])
  else
    w ← format_loop (S (length fmt)) fmt a (MkW [] outsz 0);
    Some (s32 (wlen w), wbuf w).
Definition snprintf := vsnprintf.
Definition sprintf (fmt : list Z) (a : list arg) : option (Z * list Z) := vsnprintf true (2 ^ 64 - 1) fmt a.

End Printf.
Import Printf.

(** * The text the code writes

    The same parser with the characters put one after the other; that it is the text of
    the C standard is shown in [PrintfSpec]. *)

(** A text in a field of the given width. *)
Definition in_field (left : bool) (width pc : Z) (body : list Z) : list Z :=
  let k := Z.to_nat (width - length body) in
  if left then body ++ replicate k 32 else replicate k pc ++ body.

(** A number, the most significant digit first. *)
Definition digits (v base : Z) (upper : bool) : list Z := rev (utoa_rev v base upper).
Definition sign_text (f : flags) (v : Z) : list Z :=
  if v <? 0 then [45] else if plus f then [43] else if space f then [32] else [].

Definition convert_text (f : flags) (width prec : Z) (len : len_mod) (spec : Z) (a : list arg) : option (list Z * list arg) :=
  if spec =? 99 then '(x, a) ← va_num a; Some (in_field (left f) width 32 [u8 x], a)
  else if spec =? 115 then
    '(s, a) ← va_str a;
    let s := default s_null s in
    Some (in_field (left f) width 32 (if 0 <=? prec then take (Z.to_nat prec) s else s), a)
  else if (spec =? 100) || (spec =? 105) then
    '(x, a) ← va_num a;
    let v := signed_arg len x in
    Some (in_field (left f) width (padch f prec) (sign_text f v ++ digits (Z.abs v) 10 false), a)
  else if (spec =? 117) || (spec =? 120) || (spec =? 88) then
    '(x, a) ← va_num a;
    let u := unsigned_arg len x in
    let hex := negb (spec =? 117) in
    let prefix := if alt f && hex && nz u then [48; if spec =? 88 then 88 else 120] else [] in
    Some (in_field (left f) width (padch f prec) (prefix ++ digits u (if hex then 16 else 10) (spec =? 88)), a)
  else if spec =? 112 then '(x, a) ← va_num a; Some (in_field (left f) width 32 ([48; 120] ++ digits (u64 x) 16 false), a)
  else if spec =? 37 then Some ([37], a)
  else Some ([37; spec], a).

Definition directive_text (p : list Z) (a : list arg) : option (list Z * list arg * list Z) :=
  let '(p, f) := parse_flags p flags0 in
  '(p, a, width) ← parse_number p a;
  let '(f, width) := if width <? 0 then (MkFlags true (plus f) (space f) (alt f) (zero f), s32 (- width)) else (f, width) in
  '(p, a, prec) ← match p with 46 :: p => parse_number p a | _ => Some (p, a, -1) end;
  let '(p, len) := parse_length p in
  let '(spec, p) := match p with c :: p => (c, p) | [] => (0, []) end in
  '(t, a) ← convert_text f width prec len spec a;
  Some (p, a, t).

Fixpoint text_loop (fuel : nat) (p : list Z) (a : list arg) : option (list Z) :=
  match fuel with
  | O => None
  | S fuel =>
      match p with
      | [] => Some []
      | c :: p =>
          if c =? 37 then '(p, a, t) ← directive_text p a; t' ← text_loop fuel p a; Some (t ++ t')
          else t' ← text_loop fuel p a; Some (c :: t')
      end
  end.
Definition text (fmt : list Z) (a : list arg) : option (list Z) := text_loop (S (length fmt)) fmt a.

(** * The buffer holds a prefix of the text *)

Definition written (cap : Z) (t : list Z) : bufw := MkW (take (Z.to_nat (cap - 1)) t) cap (length t).

Lemma putc_written cap t c : 0 < cap → length t + 1 < 2 ^ 64 → bw_putc (written cap t) c = written cap (t ++ [c]).
Proof.
  intros Hc Hl. unfold bw_putc, written. cbn [wlen wcap wbuf]. rewrite u64_small by lia. rewrite length_app. cbn [length].
  f_equal; [|lia]. destruct (Z.ltb_spec (length t + 1) cap).
  - by rewrite !take_ge by (rewrite ?length_app; cbn [length]; lia).
  - by rewrite take_app_le by lia.
Qed.

Lemma puts_written cap l : 0 < cap → ∀ t, length t + length l < 2 ^ 64 → foldl bw_putc (written cap t) l = written cap (t ++ l).
Proof.
  intros Hc. induction l as [|c l IH]; intros t Hl; cbn [foldl length] in *; [by rewrite app_nil_r|].
  rewrite putc_written by lia. rewrite IH by (rewrite length_app; cbn [length]; lia). by rewrite <- app_assoc.
Qed.

Lemma putn_written cap t ch k : 0 < cap → length t + Z.to_nat k < 2 ^ 64 →
  bw_putn (written cap t) ch k = written cap (t ++ replicate (Z.to_nat k) ch).
Proof. intros. unfold bw_putn. apply puts_written; [done|]. rewrite length_replicate. lia. Qed.

Lemma in_field_length left width pc body : Z.of_nat (length (in_field left width pc body)) = Z.max width (length body).
Proof. unfold in_field. destruct left; rewrite length_app, length_replicate; lia. Qed.

(** Padding, body, padding. *)
Lemma in_field_written cap t left width pc body k w :
  0 < cap → length t + length (in_field left width pc body) < 2 ^ 64 → k = (if length body <? width then width - length body else 0) →
  w = foldl bw_putc (if left then written cap t else bw_putn (written cap t) pc k) body →
  spaces left w k = written cap (t ++ in_field left width pc body).
Proof.
  intros Hc Hl Hk ->. rewrite in_field_length in Hl. assert (Z.to_nat k = Z.to_nat (width - length body)) as Ek.
  { subst k. destruct (Z.ltb_spec (length body) width); lia. }
  unfold in_field, spaces. destruct left.
  - rewrite puts_written, putn_written, Ek by (rewrite ?length_app; lia). by rewrite <- app_assoc.
  - rewrite putn_written, Ek, puts_written by (rewrite ?length_app, ?length_replicate; lia). by rewrite <- app_assoc.
Qed.

Lemma spaces_pre (left : bool) w pc k : (if left then w else bw_putn w pc k) = if negb left then bw_putn w pc k else w.
Proof. by destruct left. Qed.

Lemma conv_c_written cap t f width x : 0 < cap → length t + length (in_field (left f) width 32 [u8 x]) < 2 ^ 64 →
  conv_c f width x (written cap t) = written cap (t ++ in_field (left f) width 32 [u8 x]).
Proof.
  intros Hc Hl. unfold conv_c. cbv zeta. apply in_field_written; [done|done|done|]. by rewrite spaces_pre.
Qed.

Lemma conv_s_written cap t f width prec s :
  let body := if 0 <=? prec then take (Z.to_nat prec) (default s_null s) else default s_null s in
  0 < cap → length t + length (in_field (left f) width 32 body) < 2 ^ 64 →
  conv_s f width prec s (written cap t) = written cap (t ++ in_field (left f) width 32 body).
Proof.
  cbv zeta. intros Hc Hl. unfold conv_s. cbv zeta. set (l := default s_null s) in *.
  set (n := if (0 <=? prec) && (prec <? length l) then prec else Z.of_nat (length l)).
  assert (take (Z.to_nat n) l = if 0 <=? prec then take (Z.to_nat prec) l else l) as E.
  { subst n. destruct (Z.leb_spec 0 prec), (Z.ltb_spec prec (length l)); cbn [andb]; [done|..];
      rewrite Nat2Z.id, firstn_all; [|done..]. by rewrite take_ge by lia. }
  assert (n = length (take (Z.to_nat n) l)) as En.
  { rewrite length_take. subst n. destruct (Z.leb_spec 0 prec), (Z.ltb_spec prec (length l)); cbn [andb]; lia. }
  unfold bw_putstrn. rewrite <- E in *. set (body := take (Z.to_nat n) l) in *. clearbody body. rewrite En.
  apply in_field_written; [done..|]. by rewrite spaces_pre.
Qed.

(** The padding the code computes is that of the field. *)
Ltac same_width :=
  match goal with |- (if ?x <? _ then _ else _) = (if ?y <? _ then _ else _) =>
    replace x with y; [done|]; rewrite length_app, length_rev, Nat2Z.inj_add end.

Lemma conv_d_written cap t f width prec v :
  let body := sign_text f v ++ digits (Z.abs v) 10 false in
  - 2 ^ 63 ≤ v → 0 < cap → length t + length (in_field (left f) width (padch f prec) body) < 2 ^ 64 →
  conv_d f width prec v (written cap t) = written cap (t ++ in_field (left f) width (padch f prec) body).
Proof.
  cbv zeta. intros Hv Hc Hl. unfold conv_d. cbv zeta.
  assert ((if v <? 0 then u64 (- v) else v) = Z.abs v) as ->.
  { destruct (Z.ltb_spec v 0); [|lia]. destruct (decide (v = - 2 ^ 63)) as [->|]; [done|]. rewrite u64_small; lia. }
  set (num := utoa_rev (Z.abs v) 10 false) in *. unfold digits in *. fold num in Hl |- *.
  set (sg := if v <? 0 then 45 else _).
  assert (sign_text f v = if nz sg then [sg] else []) as Es.
  { unfold sign_text. subst sg. destruct (v <? 0), (plus f), (space f); done. }
  rewrite Es in *. apply in_field_written; [done|done| |].
  - same_width. destruct (nz sg); cbn [length]; lia.
  - rewrite foldl_app. by destruct (nz sg).
Qed.

Lemma conv_u_written cap t f width prec base upper u :
  let body := (if alt f && (base =? 16) && nz u then [48; if upper : bool then 88 else 120] else []) ++ digits u base upper in
  0 < cap → length t + length (in_field (left f) width (padch f prec) body) < 2 ^ 64 →
  conv_u f width prec base upper u (written cap t) = written cap (t ++ in_field (left f) width (padch f prec) body).
Proof.
  cbv zeta. intros Hc Hl. unfold conv_u. cbv zeta. unfold digits in *. set (num := utoa_rev u base upper) in *.
  set (pre := alt f && (base =? 16) && nz u) in *. apply in_field_written; [done|done| |].
  - same_width. destruct pre; cbn [length]; lia.
  - rewrite foldl_app. by destruct pre.
Qed.

Lemma conv_p_written cap t f width u :
  let body := [48; 120] ++ digits u 16 false in
  0 < cap → length t + length (in_field (left f) width 32 body) < 2 ^ 64 →
  conv_p f width u (written cap t) = written cap (t ++ in_field (left f) width 32 body).
Proof.
  cbv zeta. intros Hc Hl. unfold conv_p. cbv zeta. unfold digits in *. set (num := utoa_rev u 16 false) in *.
  apply in_field_written; [done|done| |].
  - same_width. cbn [length]. lia.
  - rewrite foldl_app. by rewrite spaces_pre.
Qed.

Lemma signed_range len x : - 2 ^ 63 ≤ signed_arg len x.
Proof.
  unfold signed_arg. pose proof (s32_range x). unfold s64. pose proof (Z.mod_pos_bound (x + 2 ^ 63) (2 ^ 64)). destruct len; lia.
Qed.

Lemma convert_written cap t f width prec len spec a c a' : 0 < cap →
  convert_text f width prec len spec a = Some (c, a') → length t + length c < 2 ^ 64 →
  convert f width prec len spec a (written cap t) = Some (written cap (t ++ c), a').
Proof.
  intros Hc. unfold convert_text, convert.
  destruct (spec =? 99). { destruct (va_num a) as [[x a1]|]; [|done]. intros [= <- <-] Hl. cbn. by rewrite conv_c_written. }
  destruct (spec =? 115). { destruct (va_str a) as [[s a1]|]; [|done]. intros [= <- <-] Hl. cbn. by rewrite conv_s_written. }
  destruct (_ || (spec =? 105)).
  { destruct (va_num a) as [[x a1]|]; [|done]. intros [= <- <-] Hl. cbn. by rewrite conv_d_written by (done || apply signed_range). }
  destruct (_ || _ || (spec =? 88)) eqn:E.
  { destruct (va_num a) as [[x a1]|]; [|done]. intros [= <- <-] Hl. cbn [mbind option_bind].
    assert (((if spec =? 117 then 10 else 16) =? 16) = negb (spec =? 117)) as E16 by by destruct (spec =? 117).
    assert ((if negb (spec =? 117) then 16 else 10) = if spec =? 117 then 10 else 16) as E10 by by destruct (spec =? 117).
    rewrite E10, <- E16 in *. by rewrite conv_u_written. }
  destruct (spec =? 112). { destruct (va_num a) as [[x a1]|]; [|done]. intros [= <- <-] Hl. cbn [mbind option_bind]. by rewrite conv_p_written. }
  destruct (spec =? 37); intros [= <- <-] Hl; cbn [length] in Hl; rewrite !putc_written; rewrite ?length_app; cbn [length]; try lia; [done|].
  by rewrite <- app_assoc.
Qed.

Lemma directive_written cap t p a p' a' c : 0 < cap → directive_text p a = Some (p', a', c) → length t + length c < 2 ^ 64 →
  directive p a (written cap t) = Some (p', a', written cap (t ++ c)).
Proof.
  intros Hc. unfold directive_text, directive. destruct (parse_flags p flags0) as [p1 f].
  destruct (parse_number p1 a) as [[[p2 a2] width]|]; [|done]. cbn [mbind option_bind].
  destruct (if width <? 0 then _ else _) as [f' width'].
  destruct (match p2 with 46 :: p => parse_number p a2 | _ => Some (p2, a2, -1) end) as [[[p3 a3] prec]|]; [|done].
  cbn [mbind option_bind]. destruct (parse_length p3) as [p4 len]. destruct (match p4 with [] => _ | _ => _ end) as [spec p5].
  destruct (convert_text f' width' prec len spec a3) as [[c' a4]|] eqn:E; [|done]. cbn [mbind option_bind].
  intros [= <- <- <-] Hl. by rewrite (convert_written _ _ _ _ _ _ _ _ _ _ Hc E Hl).
Qed.

Lemma loop_written cap fuel : 0 < cap → ∀ p a t t', text_loop fuel p a = Some t' → length t + length t' < 2 ^ 64 →
  format_loop fuel p a (written cap t) = Some (written cap (t ++ t')).
Proof.
  intros Hc. induction fuel as [|fuel IH]; intros p a t t'; cbn [text_loop format_loop]; [done|].
  destruct p as [|c p]; [intros [= <-] _; by rewrite app_nil_r|]. destruct (c =? 37).
  - destruct (directive_text p a) as [[[p1 a1] t1]|] eqn:E; [|done]. cbn [mbind option_bind].
    destruct (text_loop fuel p1 a1) as [t2|] eqn:E2; [|done]. cbn [mbind option_bind]. intros [= <-]. rewrite length_app. intros Hl.
    rewrite (directive_written _ _ _ _ _ _ _ Hc E) by lia. cbn [mbind option_bind].
    rewrite (IH _ _ _ _ E2) by (rewrite length_app; lia). by rewrite app_assoc.
  - destruct (text_loop fuel p a) as [t2|] eqn:E2; [|done]. cbn [mbind option_bind]. intros [= <-]. cbn [length]. intros Hl.
    rewrite putc_written by lia. rewrite (IH _ _ _ _ E2) by (rewrite length_app; cbn [length]; lia). by rewrite <- app_assoc.
Qed.

(** The buffer gets as much of the text as fits, the result is the length of all of it. *)
Lemma vsnprintf_text outsz fmt a t : 0 < outsz → text fmt a = Some t → length t < 2 ^ 31 →
  vsnprintf true outsz fmt a = Some (Z.of_nat (length t), take (Z.to_nat (outsz - 1)) t).
Proof.
  intros Hc Ht Hl. unfold vsnprintf. cbn [negb orb]. destruct (Z.eqb_spec outsz 0); [lia|].
  replace (MkW [] outsz 0) with (written outsz []) by (unfold written; by rewrite take_nil).
  rewrite (loop_written outsz _ Hc fmt a [] t Ht) by (cbn [length]; lia).
  cbn [mbind option_bind app]. unfold written. cbn [wlen wbuf]. by rewrite s32_small by lia.
Qed.

(** * Numbers *)

Lemma digits_length v base upper : (length (digits v base upper) ≤ 64)%nat.
Proof.
  assert (∀ k v, length (utoa_rev_loop k v base upper) ≤ k)%nat as H.
  { induction k as [|k IH]; intros v'; cbn [utoa_rev_loop]; [done|]. destruct (v' =? 0); cbn [length]; [lia|]. specialize (IH (v' / base)). lia. }
  unfold digits. rewrite length_rev. unfold utoa_rev. destruct (v =? 0); cbn [length]; [lia|apply H].
Qed.

(** Asking for the length alone gives 0. *)
Lemma vsnprintf_null fmt a : vsnprintf false 0 fmt a = Some (0, []).
Proof. reflexivity. Qed.
