(* ===== verification/PrintfSpec.v ===== *)
(** Formatted output against the C standard ([drv/video/vga.c]).

    A format is given by its abstract syntax: characters, ["%%"] and conversions with
    flags, width, precision, length modifier and a value.  [render] writes the format
    string, [slots] the arguments, and [std_text] is the text the standard prescribes,
    with numerals by place values.  Nothing here follows the code, which parses the
    string and pushes digits backwards. *)
From S2P Require Import Prelude Printf.
Import Printf.

(** * Formats *)

Inductive flag := Minus | Plus | Space | Sharp | Zero.
#[global] Instance flag_eq_dec : EqDecision flag.
Proof. solve_decision. Defined.

(** A number in the format, or ["*"] with the [int] argument (whose slot may hold anything
    in its upper half). *)
Inductive amount := Literal (n : Z) | Star (n junk : Z).

Inductive conversion :=
  | Char (c : Z) | String (s : list Z)
  | Signed (i : bool) (v : Z) | Unsigned (v : Z) | Hex (upper : bool) (v : Z)
  | Pointer (v : Z).

(** The precision is absent, a point alone, or a point and an amount. *)
Inductive precision := NoPrec | Point | Prec (n : amount).

Record spec := MkSpec {
  sp_flags : list flag; sp_width : option amount; sp_prec : precision;
  sp_len : len_mod; sp_conv : conversion; sp_junk : Z
}.
Inductive item := Plain (c : Z) | Percent | Convert (s : spec).

(** * Numerals *)

(** The digit of [v] at place [i], and the digits without leading zeros; 64 places hold
    every 64-bit number in every base. *)
Definition place (base v : Z) (i : nat) : Z := (v / base ^ i) `mod` base.
Fixpoint strip (l : list Z) : list Z :=
  match l with
  | d :: l' => if d =? 0 then strip l' else l
  | [] => []
  end.
Definition numeral (base v : Z) : list Z :=
  if v =? 0 then [0] else strip (map (place base v) (rev (seq 0 64))).

(** "0123456789abcdef" and "0123456789ABCDEF". *)
Definition glyphs (upper : bool) : list Z :=
  [48; 49; 50; 51; 52; 53; 54; 55; 56; 57] ++ (if upper then [65; 66; 67; 68; 69; 70] else [97; 98; 99; 100; 101; 102]).
Definition glyph (upper : bool) (d : Z) : Z := nth (Z.to_nat d) (glyphs upper) 0.
Definition numeral_text (base : Z) (upper : bool) (v : Z) : list Z := map (glyph upper) (numeral base v).

(** * The format string and the arguments *)

Definition flag_char (f : flag) : Z :=
  match f with Minus => 45 | Plus => 43 | Space => 32 | Sharp => 35 | Zero => 48 end.
Definition amount_chars (n : amount) : list Z :=
  match n with Literal n => numeral_text 10 false n | Star _ _ => [42] end.
Definition prec_chars (p : precision) : list Z :=
  match p with NoPrec => [] | Point => [46] | Prec n => 46 :: amount_chars n end.
Definition len_chars (l : len_mod) : list Z :=
  match l with
  | LEN_DEF => [] | LEN_HH => [104; 104] | LEN_H => [104] | LEN_L => [108] | LEN_LL => [108; 108] | LEN_Z => [122]
  end.
Definition conv_char (c : conversion) : Z :=
  match c with
  | Char _ => 99 | String _ => 115 | Signed i _ => if i then 105 else 100
  | Unsigned _ => 117 | Hex up _ => if up then 88 else 120 | Pointer _ => 112
  end.
Definition from_width (w : option amount) : list Z := match w with Some n => amount_chars n | None => [] end.
Definition render_spec (s : spec) : list Z :=
  map flag_char (sp_flags s) ++ from_width (sp_width s) ++ prec_chars (sp_prec s) ++ len_chars (sp_len s) ++ [conv_char (sp_conv s)].
Definition render_item (i : item) : list Z :=
  match i with Plain c => [c] | Percent => [37; 37] | Convert s => 37 :: render_spec s end.
Definition render (l : list item) : list Z := concat (map render_item l).

(** The bits of the argument's type, before promotion. *)
Definition len_bits (l : len_mod) : Z :=
  match l with LEN_HH => 8 | LEN_H => 16 | LEN_DEF => 32 | _ => 64 end.
(** Its bits in the slot. *)
Definition slot_bits (l : len_mod) : Z := Z.max 32 (len_bits l).

Definition amount_slots (n : amount) : list arg :=
  match n with Literal _ => [] | Star n junk => [Num (n + junk * 2 ^ 32)] end.
Definition conv_slots (s : spec) : list arg :=
  match sp_conv s with
  | Char c => [Num (c + sp_junk s * 2 ^ 32)]
  | String t => [Str (Some t)]
  | Signed _ v | Unsigned v | Hex _ v => [Num (v + sp_junk s * 2 ^ slot_bits (sp_len s))]
  | Pointer v => [Num v]
  end.
Definition slots_item (i : item) : list arg :=
  match i with
  | Convert s =>
      match sp_width s with Some n => amount_slots n | None => [] end ++
      match sp_prec s with Prec n => amount_slots n | _ => [] end ++ conv_slots s
  | _ => []
  end.
Definition slots (l : list item) : list arg := concat (map slots_item l).

(** * The text *)

Definition has_flag (f : flag) (s : spec) : bool := bool_decide (f ∈ sp_flags s).
Definition amount_value (n : amount) : Z := match n with Literal n | Star n _ => n end.
Definition width_arg (s : spec) : Z := match sp_width s with Some n => amount_value n | None => 0 end.
(** A negative width is a [-] flag and a positive width, a negative precision is none. *)
Definition minus (s : spec) : bool := has_flag Minus s || (width_arg s <? 0).
Definition width (s : spec) : Z := Z.abs (width_arg s).
Definition prec (s : spec) : option Z :=
  match sp_prec s with
  | NoPrec => None
  | Point => Some 0
  | Prec n => if amount_value n <? 0 then None else Some (amount_value n)
  end.

Definition justify (minus : bool) (width : Z) (t : list Z) : list Z :=
  let pad := replicate (Z.to_nat (width - length t)) 32 in
  if minus then t ++ pad else pad ++ t.

(** What stands before the digits. *)
Definition number_prefix (s : spec) : list Z :=
  match sp_conv s with
  | Signed _ v => if v <? 0 then [45] else if has_flag Plus s then [43] else if has_flag Space s then [32] else []
  | Hex up v => if has_flag Sharp s && negb (v =? 0) then [48; if up then 88 else 120] else []
  | _ => []
  end.
(** The precision is the least number of digits; none for zero with precision zero. *)
Definition min_digits (p : option Z) (base : Z) (upper : bool) (v : Z) : list Z :=
  let ds := if (v =? 0) && bool_decide (p = Some 0) then [] else numeral_text base upper v in
  replicate (Z.to_nat (default 1 p - length ds)) 48 ++ ds.
Definition zero_pads (s : spec) : bool := has_flag Zero s && negb (minus s) && bool_decide (prec s = None).
Definition integer_text (s : spec) (base : Z) (upper : bool) (v : Z) : list Z :=
  let pre := number_prefix s in
  let ds := min_digits (prec s) base upper v in
  if zero_pads s then pre ++ replicate (Z.to_nat (width s - length (pre ++ ds))) 48 ++ ds
  else justify (minus s) (width s) (pre ++ ds).

Definition spec_text (s : spec) : list Z :=
  match sp_conv s with
  | Char c => justify (minus s) (width s) [c `mod` 256]
  | String t => justify (minus s) (width s) (match prec s with Some p => take (Z.to_nat p) t | None => t end)
  | Signed _ v => integer_text s 10 false (Z.abs v)
  | Unsigned v => integer_text s 10 false v
  | Hex up v => integer_text s 16 up v
  | Pointer v => justify (minus s) (width s) ([48; 120] ++ numeral_text 16 false v)
  end.
Definition item_text (i : item) : list Z :=
  match i with Plain c => [c] | Percent => [37] | Convert s => spec_text s end.
Definition std_text (l : list item) : list Z := concat (map item_text l).

(** * Well-formed formats *)

(** A width in the format is positive; an [int] argument is an [int], and its negation one. *)
Definition amount_ok (least : Z) (n : amount) : Prop :=
  match n with Literal n => least ≤ n < 2 ^ 31 | Star n _ => - 2 ^ 31 < n < 2 ^ 31 end.

(** The argument has the type the conversion and the length modifier name. *)
Definition conv_typed (l : len_mod) (c : conversion) : Prop :=
  match c with
  | Char c => l = LEN_DEF ∧ - 2 ^ 31 ≤ c < 2 ^ 31
  | String _ => l = LEN_DEF
  | Signed _ v => - 2 ^ (len_bits l - 1) ≤ v < 2 ^ (len_bits l - 1)
  | Unsigned v | Hex _ v => 0 ≤ v < 2 ^ len_bits l
  | Pointer v => l = LEN_DEF ∧ is_u64 v
  end.
Definition spec_typed (s : spec) : Prop :=
  from_option (amount_ok 1) True (sp_width s) ∧
  match sp_prec s with Prec n => amount_ok 0 n | _ => True end ∧
  conv_typed (sp_len s) (sp_conv s).

(** The digits of an integer conversion. *)
Definition conv_number (c : conversion) : option (list Z * Z) :=
  match c with
  | Signed _ v => Some (numeral_text 10 false (Z.abs v), v)
  | Unsigned v => Some (numeral_text 10 false v, v)
  | Hex up v => Some (numeral_text 16 up v, v)
  | _ => None
  end.

(** The two things the code does not do for integers: a precision asks for more digits
    than there are, or for none; and zeros are put between a prefix and the digits. *)
Definition supported (s : spec) : Prop :=
  match conv_number (sp_conv s) with
  | None => True
  | Some (ds, v) =>
      match prec s with Some p => p ≤ length ds ∧ (p = 0 → v ≠ 0) | None => True end ∧
      (zero_pads s = true → number_prefix s = [] ∨ width s ≤ length (number_prefix s ++ ds))
  end.
Definition item_ok (i : item) : Prop :=
  match i with
  | Plain c => c ≠ 37
  | Percent => True
  | Convert s => spec_typed s ∧ supported s
  end.

(** * Numerals are what the code writes *)

Lemma strip_snoc l x : x ≠ 0 ∨ strip l ≠ [] → strip (l ++ [x]) = strip l ++ [x].
Proof.
  induction l as [|d l IH]; cbn [strip app]; intros H; [destruct (Z.eqb_spec x 0); [by destruct H|done]|].
  destruct (d =? 0); [auto|done].
Qed.
Lemma strip_zeros l : (∀ d, d ∈ l → d = 0) → strip l = [].
Proof.
  induction l as [|d l IH]; intros H; [done|]. cbn [strip]. rewrite (H d) by left. apply IH. intros. apply H. by right.
Qed.

Lemma place_S base v i : 0 < base → place base v (S i) = place base (v / base) i.
Proof. intros. unfold place. rewrite Nat2Z.inj_succ, Z.pow_succ_r, Z.div_div by lia. done. Qed.
Lemma places_S base v k : 0 < base →
  map (place base v) (rev (seq 0 (S k))) = map (place base (v / base)) (rev (seq 0 k)) ++ [v `mod` base].
Proof.
  intros Hb. cbn [seq rev]. rewrite map_app, <- seq_shift, <- map_rev, map_map. f_equal.
  - apply map_ext. intros i. by apply place_S.
  - cbn [map]. unfold place. change (Z.of_nat 0) with 0. by rewrite Z.pow_0_r, Z.div_1_r.
Qed.

Lemma glyph_char upper d : 0 ≤ d < 16 → glyph upper d = digit_char upper d.
Proof.
  intros. assert (d ∈ map Z.of_nat (seq 0 16)) as Hd.
  { apply list_elem_of_In, in_map_iff. exists (Z.to_nat d). split; [lia|]. apply in_seq. lia. }
  cbn in Hd. rewrite !elem_of_cons in Hd. destruct upper; destruct_or! Hd; subst; try reflexivity; by apply elem_of_nil in Hd.
Qed.

Lemma utoa_strip base upper (k : nat) : 2 ≤ base ≤ 16 → ∀ v, 0 ≤ v < base ^ k →
  rev (utoa_rev_loop k v base upper) = map (glyph upper) (strip (map (place base v) (rev (seq 0 k)))).
Proof.
  intros Hb. induction k as [|k IH]; intros v Hv; [done|].
  rewrite places_S by lia. cbn [utoa_rev_loop]. rewrite Nat2Z.inj_succ, Z.pow_succ_r in Hv by lia.
  assert (0 ≤ v / base < base ^ k) as Hd by (split; [apply Z.div_pos; lia|apply Z.div_lt_upper_bound; lia]).
  pose proof (Z.mod_pos_bound v base ltac:(lia)) as Hm. pose proof (Z.div_mod v base ltac:(lia)) as E.
  destruct (Z.eqb_spec v 0) as [->|Hn].
  - rewrite strip_zeros; [done|]. intros d [(i & -> & _)%list_elem_of_fmap|Hd0]%elem_of_app; unfold place.
    + by rewrite !Zdiv_0_l, Zmod_0_l.
    + apply list_elem_of_singleton in Hd0 as ->. by rewrite Z.mod_0_l by lia.
  - assert (v `mod` base ≠ 0 ∨ strip (map (place base (v / base)) (rev (seq 0 k))) ≠ []) as Hs.
    { destruct (decide (v `mod` base = 0)) as [E0|]; [right|by left]. intros S0.
      pose proof (IH _ Hd) as R. rewrite S0 in R. cbn [map] in R. apply (f_equal (@rev Z)) in R. rewrite rev_involutive in R.
      destruct k as [|k]; [cbn in Hd; lia|]. cbn [utoa_rev_loop] in R. by destruct (Z.eqb_spec (v / base) 0); [lia|]. }
    cbn [rev]. rewrite IH, strip_snoc, map_app by done. cbn [map]. by rewrite glyph_char by lia.
Qed.

Lemma digits_numeral base upper v : 2 ≤ base ≤ 16 → is_u64 v → digits v base upper = numeral_text base upper v.
Proof.
  intros Hb Hv. unfold digits, utoa_rev, numeral_text, numeral. destruct (v =? 0); [by destruct upper|].
  apply utoa_strip; [done|]. split; [lia|]. apply Z.lt_le_trans with (2 ^ 64); [lia|]. apply Z.pow_le_mono_l. lia.
Qed.

(** The digits of a number in the format are read back. *)
Lemma parse_digits_value ds rest : (∀ d, d ∈ ds → 0 ≤ d < 10) → (∀ c p, rest = c :: p → c < 48 ∨ 57 < c) →
  ∀ n, 0 ≤ n → foldl (λ a d, a * 10 + d) n ds < 2 ^ 31 →
  parse_digits (map (glyph false) ds ++ rest) n = (rest, foldl (λ a d, a * 10 + d) n ds).
Proof.
  intros Hd Hr. assert (∀ ds n, 0 ≤ n → (∀ d, d ∈ ds → 0 ≤ d < 10) → n ≤ foldl (λ a d, a * 10 + d) n ds) as M.
  { clear. induction ds as [|d ds IH]; intros n Hn Hd; cbn [foldl]; [done|]. pose proof (Hd d ltac:(left)).
    transitivity (n * 10 + d); [lia|]. apply IH; [lia|]. intros. apply Hd. by right. }
  induction ds as [|d ds IH]; intros n Hn Hl; cbn [map app foldl] in *.
  - destruct rest as [|c p]; [done|]. cbn [parse_digits]. destruct (Hr c p eq_refl); repeat zcase; done || lia.
  - pose proof (Hd d ltac:(left)) as H. rewrite glyph_char by lia. unfold digit_char. destruct (Z.ltb_spec d 10); [|lia].
    cbn [parse_digits]. destruct (Z.leb_spec 48 (48 + d)); [|lia]. destruct (Z.leb_spec (48 + d) 57); [|lia]. cbn [andb].
    assert (n * 10 + d ≤ foldl (λ a d, a * 10 + d) (n * 10 + d) ds) by (apply M; [lia|]; intros; apply Hd; by right).
    rewrite (s32_small (n * 10)), s32_small by lia. replace (n * 10 + (48 + d - 48)) with (n * 10 + d) by lia.
    apply IH; [intros; apply Hd; by right|lia|done].
Qed.

Lemma place_range base v i : 0 < base → 0 ≤ place base v i < base.
Proof. intros. apply Z.mod_pos_bound. lia. Qed.
Lemma strip_sub l d : d ∈ strip l → d ∈ l.
Proof. induction l as [|x l IH]; cbn [strip]; [done|]. destruct (x =? 0); [intros; right; auto|done]. Qed.
Lemma strip_value l : foldl (λ a d, a * 10 + d) 0 (strip l) = foldl (λ a d, a * 10 + d) 0 l.
Proof. induction l as [|x l IH]; cbn [strip]; [done|]. destruct (Z.eqb_spec x 0) as [->|]; done. Qed.
Lemma places_value (k : nat) : ∀ v, 0 ≤ v < 10 ^ k → foldl (λ a d, a * 10 + d) 0 (map (place 10 v) (rev (seq 0 k))) = v.
Proof.
  induction k as [|k IH]; intros v Hv; [cbn in *; lia|]. rewrite places_S by lia. rewrite Nat2Z.inj_succ, Z.pow_succ_r in Hv by lia.
  rewrite foldl_app, IH by (split; [apply Z.div_pos; lia|apply Z.div_lt_upper_bound; lia]). cbn [foldl].
  pose proof (Z.div_mod v 10). lia.
Qed.

Lemma numeral_digits v d : d ∈ numeral 10 v → 0 ≤ d < 10.
Proof.
  unfold numeral. destruct (v =? 0); [intros ->%list_elem_of_singleton; lia|].
  intros (i & -> & _)%strip_sub%list_elem_of_fmap. by apply place_range.
Qed.
Lemma numeral_value v : 0 ≤ v < 2 ^ 31 → foldl (λ a d, a * 10 + d) 0 (numeral 10 v) = v.
Proof.
  intros Hv. unfold numeral. destruct (Z.eqb_spec v 0) as [->|]; [done|]. rewrite strip_value. apply places_value.
  split; [lia|]. apply Z.lt_le_trans with (2 ^ 31); [lia|]. by vm_compute.
Qed.

(** A positive numeral does not start with a zero. *)
Lemma strip_head l : match strip l with d :: _ => d ≠ 0 | [] => True end.
Proof. induction l as [|x l IH]; cbn [strip]; [done|]. by destruct (Z.eqb_spec x 0). Qed.

Definition not_digit (p : list Z) : Prop := ∀ c p', p = c :: p' → c < 48 ∨ 57 < c.
Lemma parse_literal n rest : 0 ≤ n < 2 ^ 31 → not_digit rest → parse_digits (numeral_text 10 false n ++ rest) 0 = (rest, n).
Proof.
  intros Hn Hr. unfold numeral_text.
  rewrite parse_digits_value; rewrite ?numeral_value by lia; [done|apply numeral_digits|exact Hr|lia|lia].
Qed.

(** * Parsing what was rendered *)

(** What follows the width, and what follows the precision. *)
Definition past_width (p : list Z) : Prop := ∃ c p', p = c :: p' ∧ (c = 46 ∨ 57 < c).

Lemma past_not_digit p : past_width p → not_digit p.
Proof. intros (c & p' & -> & Hc) c' p'' [= -> ->]. lia. Qed.

Definition set_flags (l : list flag) (f : flags) : flags :=
  MkFlags (left f || bool_decide (Minus ∈ l)) (plus f || bool_decide (Plus ∈ l)) (space f || bool_decide (Space ∈ l))
    (alt f || bool_decide (Sharp ∈ l)) (zero f || bool_decide (Zero ∈ l)).

Lemma or_decide_cons (b : bool) (x y : flag) l : b || bool_decide (x ∈ y :: l) = (b || bool_decide (x = y)) || bool_decide (x ∈ l).
Proof.
  rewrite <- orb_assoc. f_equal. rewrite <- bool_decide_or. apply bool_decide_ext. by rewrite elem_of_cons.
Qed.
Lemma parse_flags_ok l p :
  (∀ c p', p = c :: p' → c ≠ 45 ∧ c ≠ 43 ∧ c ≠ 32 ∧ c ≠ 35 ∧ c ≠ 48) → ∀ f, parse_flags (map flag_char l ++ p) f = (p, set_flags l f).
Proof.
  intros Hp. induction l as [|x l IH]; intros f.
  - unfold set_flags. rewrite !bool_decide_false, !orb_false_r by apply not_elem_of_nil. cbn [map app].
    destruct p as [|c p]; [by destruct f|]. destruct (Hp c p eq_refl) as (? & ? & ? & ? & ?). cbn [parse_flags].
    destruct (Z.eqb_spec c 45), (Z.eqb_spec c 43), (Z.eqb_spec c 32), (Z.eqb_spec c 35), (Z.eqb_spec c 48); try lia. by destruct f.
  - cbn [map app parse_flags]. unfold set_flags. rewrite !or_decide_cons.
    destruct x; cbn [flag_char Z.eqb Pos.eqb]; rewrite IH; unfold set_flags; cbn [left plus space alt zero];
      rewrite ?(bool_decide_true (_ = _)), ?(bool_decide_false (_ = _)), ?orb_false_r, ?orb_true_r by done; done.
Qed.

Lemma parse_number_digits p a : (∀ p', p ≠ 42 :: p') → parse_number p a = let '(p, n) := parse_digits p 0 in Some (p, a, n).
Proof.
  intros H. unfold parse_number. destruct p as [|c p]; [done|]. destruct c as [|c|c]; [done| |done].
  do 6 (destruct c as [c|c|]; try done). by destruct (H p).
Qed.
Lemma s32_slot n junk : - 2 ^ 31 ≤ n < 2 ^ 31 → s32 (n + junk * 2 ^ 32) = n.
Proof.
  intros. unfold s32. replace (n + junk * 2 ^ 32 + 2 ^ 31) with (n + 2 ^ 31 + junk * 2 ^ 32) by lia.
  rewrite Z.mod_add, Z.mod_small by lia. lia.
Qed.

Lemma glyph_head base v d l : numeral_text base false v = d :: l → 2 ≤ base ≤ 16 → d ≠ 42.
Proof.
  unfold numeral_text. intros E Hb. destruct (numeral base v) as [|x ds] eqn:En; [done|]. cbn [map] in E. injection E as <- _.
  assert (0 ≤ x < 16) as Hx.
  { assert (x ∈ numeral base v) as Hin by (rewrite En; left). revert Hin. unfold numeral. destruct (v =? 0).
    - intros ->%list_elem_of_singleton. lia.
    - intros (i & -> & _)%strip_sub%list_elem_of_fmap. pose proof (place_range base v i). lia. }
  rewrite glyph_char by done. unfold digit_char. repeat zcase; lia.
Qed.

Lemma parse_amount n least rest more : amount_ok least n → 0 ≤ least → past_width rest →
  parse_number (amount_chars n ++ rest) (amount_slots n ++ more) = Some (rest, more, amount_value n).
Proof.
  intros Hn Hl Hr. destruct n as [n|n junk]; cbn [amount_chars amount_slots amount_value app amount_ok] in *.
  - rewrite parse_number_digits.
    + rewrite parse_literal; [done|lia|by apply past_not_digit].
    + intros p' E. destruct Hr as (c & r & -> & Hc). destruct (numeral_text 10 false n) as [|d ds] eqn:En.
      * cbn [app] in E. injection E as ->. lia.
      * cbn [app] in E. injection E as E _. by apply (glyph_head _ _ _ _ En).
  - cbn [parse_number va_num mbind option_bind]. by rewrite s32_slot by lia.
Qed.
Lemma parse_none rest a : past_width rest → parse_number rest a = Some (rest, a, 0).
Proof.
  intros Hr. pose proof (past_not_digit _ Hr) as Hd. destruct Hr as (c & r & -> & Hc). rewrite parse_number_digits by (intros p' [= ->]; lia).
  cbn [parse_digits]. destruct (Z.leb_spec 48 c), (Z.leb_spec c 57); cbn [andb]; try done. lia.
Qed.

(** The field width, when there is one. *)
Lemma parse_width w rest more : from_option (amount_ok 1) True w → past_width rest →
  parse_number (from_width w ++ rest) (match w with Some n => amount_slots n | None => [] end ++ more) =
  Some (rest, more, match w with Some n => amount_value n | None => 0 end).
Proof. intros Hw Hr. destruct w as [n|]; cbn [from_width from_option app] in *; [by apply (parse_amount n 1)|by apply parse_none]. Qed.

(** The precision as the code keeps it: [-1], or the argument, when there is none. *)
Definition code_prec (p : precision) : Z := match p with NoPrec => -1 | Point => 0 | Prec n => amount_value n end.
Lemma parse_prec p rest more :
  match p with Prec n => amount_ok 0 n | _ => True end → (∃ c r, rest = c :: r ∧ 57 < c) →
  match prec_chars p ++ rest with
  | 46 :: q => parse_number q (match p with Prec n => amount_slots n | _ => [] end ++ more)
  | _ => Some (prec_chars p ++ rest, match p with Prec n => amount_slots n | _ => [] end ++ more, -1)
  end = Some (rest, more, code_prec p).
Proof.
  intros Hp (c & r & -> & Hc). destruct p as [| |n]; cbn [prec_chars app code_prec].
  - destruct c as [|c|c]; [done| |done]. do 6 (destruct c as [c|c|]; try done); lia.
  - apply parse_none. exists c, r. split; [done|by right].
  - apply (parse_amount n 0); [done|done|]. exists c, r. split; [done|by right].
Qed.

Lemma parse_length_ok l c rest : parse_length (len_chars l ++ conv_char c :: rest) = (conv_char c :: rest, l).
Proof. destruct l, c as [| |[]| |[]|]; reflexivity. Qed.

Lemma conv_letter c : 57 < conv_char c ∧ conv_char c ≠ 104.
Proof. destruct c as [| |[]| |[]|]; cbn; lia. Qed.
Lemma len_head l c rest : ∃ d r, len_chars l ++ conv_char c :: rest = d :: r ∧ 57 < d.
Proof. pose proof (conv_letter c). destruct l; cbn [len_chars app]; do 2 eexists; (split; [done|lia]). Qed.
Lemma prec_head p l c rest : past_width (prec_chars p ++ len_chars l ++ conv_char c :: rest).
Proof.
  destruct (len_head l c rest) as (d & r & E & Hd). destruct p; cbn [prec_chars app]; rewrite ?E; do 2 eexists; (split; [done|lia]).
Qed.
Lemma width_head w p c r : from_option (amount_ok 1) True w → past_width p → from_width w ++ p = c :: r →
  c ≠ 45 ∧ c ≠ 43 ∧ c ≠ 32 ∧ c ≠ 35 ∧ c ≠ 48.
Proof.
  intros Hw (d & q & -> & Hd) E. destruct w as [[n|n j]|]; cbn [from_width amount_chars app from_option amount_ok] in *.
  - unfold numeral_text, numeral in E. destruct (Z.eqb_spec n 0); [lia|]. pose proof (strip_head (map (place 10 n) (rev (seq 0 64)))) as H.
    destruct (strip (map (place 10 n) (rev (seq 0 64)))) as [|x l] eqn:En; cbn [map app] in E; injection E as <- <-; [lia|].
    assert (0 ≤ x < 10) as Hx.
    { assert (x ∈ strip (map (place 10 n) (rev (seq 0 64)))) as (i & -> & _)%strip_sub%list_elem_of_fmap by (rewrite En; left).
      by apply place_range. }
    rewrite glyph_char by lia. unfold digit_char. destruct (Z.ltb_spec x 10); lia.
  - injection E as <- <-. lia.
  - injection E as <- <-. lia.
Qed.

(** * Conversions *)

Lemma justify_field b w t : justify b w t = in_field b w 32 t.
Proof. reflexivity. Qed.

Lemma u_slot k v junk : 0 ≤ k → 0 ≤ v < 2 ^ k → (v + junk * 2 ^ k) `mod` 2 ^ k = v.
Proof. intros. rewrite Z.mod_add, Z.mod_small by lia. done. Qed.
Lemma unsigned_slot l v junk : 0 ≤ v < 2 ^ len_bits l → unsigned_arg l (v + junk * 2 ^ slot_bits l) = v ∧ is_u64 v.
Proof.
  intros Hv. assert (2 ^ len_bits l ≤ 2 ^ slot_bits l) by (apply Z.pow_le_mono_r; unfold slot_bits; lia).
  split; [|destruct l; cbn [len_bits] in *; lia]. 
  assert (0 ≤ v < 2 ^ slot_bits l) as B by lia. destruct l; (apply u_slot; [done|exact B]).
Qed.
Lemma s64_slot n junk : - 2 ^ 63 ≤ n < 2 ^ 63 → s64 (n + junk * 2 ^ 64) = n.
Proof.
  intros. unfold s64. replace (n + junk * 2 ^ 64 + 2 ^ 63) with (n + 2 ^ 63 + junk * 2 ^ 64) by lia.
  rewrite Z.mod_add, Z.mod_small by lia. lia.
Qed.
Lemma signed_slot l v junk : - 2 ^ (len_bits l - 1) ≤ v < 2 ^ (len_bits l - 1) →
  signed_arg l (v + junk * 2 ^ slot_bits l) = v ∧ is_u64 (Z.abs v).
Proof.
  intros Hv. destruct l; unfold slot_bits; cbn [len_bits signed_arg] in *; (split; [|lia]); apply s32_slot || apply s64_slot; lia.
Qed.

Lemma digits_nonempty base upper v : is_u64 v → 2 ≤ base ≤ 16 → (1 ≤ length (numeral_text base upper v))%nat.
Proof.
  intros Hv Hb. rewrite <- digits_numeral by done. unfold digits, utoa_rev. rewrite length_rev.
  destruct (Z.eqb_spec v 0); cbn [length]; [lia|]. cbn [utoa_rev_loop]. destruct (Z.eqb_spec v 0); [lia|]. cbn [length]. lia.
Qed.

(** The flags of the code for a specification. *)
Definition code_flags (s : spec) : flags :=
  MkFlags (minus s) (has_flag Plus s) (has_flag Space s) (has_flag Sharp s) (has_flag Zero s).

Lemma prec_code s : match prec s with Some p => code_prec (sp_prec s) = p ∧ 0 ≤ p | None => code_prec (sp_prec s) < 0 end.
Proof.
  unfold prec, code_prec. destruct (sp_prec s) as [| |n]; [lia|lia|]. destruct (Z.ltb_spec (amount_value n) 0); lia.
Qed.
Lemma padch_code s : padch (code_flags s) (code_prec (sp_prec s)) = if zero_pads s then 48 else 32.
Proof.
  pose proof (prec_code s) as H. unfold padch, zero_pads. cbn [zero left code_flags].
  destruct (prec s) as [p|]; [rewrite bool_decide_false by done|rewrite bool_decide_true by done];
    destruct (Z.ltb_spec (code_prec (sp_prec s)) 0); try lia; done.
Qed.

Lemma min_digits_numeral s base upper v : is_u64 v → 2 ≤ base ≤ 16 →
  match prec s with Some p => p ≤ length (numeral_text base upper v) ∧ (p = 0 → v ≠ 0) | None => True end →
  min_digits (prec s) base upper v = numeral_text base upper v.
Proof.
  intros Hv Hb Hp. pose proof (digits_nonempty base upper v Hv Hb). unfold min_digits.
  assert ((v =? 0) && bool_decide (prec s = Some 0) = false) as ->.
  { destruct (Z.eqb_spec v 0); [cbn [andb]|done]. apply bool_decide_false. intros E. rewrite E in Hp. by apply (proj2 Hp). }
  replace (Z.to_nat _) with 0%nat; [done|]. destruct (prec s); cbn [from_option id]; lia.
Qed.

(** Sign or prefix, padding and digits. *)
Lemma integer_field s base upper v : is_u64 v → 2 ≤ base ≤ 16 →
  match prec s with Some p => p ≤ length (numeral_text base upper v) ∧ (p = 0 → v ≠ 0) | None => True end →
  (zero_pads s = true → number_prefix s = [] ∨ width s ≤ length (number_prefix s ++ numeral_text base upper v)) →
  in_field (minus s) (width s) (padch (code_flags s) (code_prec (sp_prec s))) (number_prefix s ++ digits v base upper) =
  integer_text s base upper v.
Proof.
  intros Hv Hb Hp Hz. unfold integer_text. rewrite min_digits_numeral, padch_code, digits_numeral by done.
  destruct (zero_pads s) eqn:E; [|done]. assert (minus s = false) as Em.
  { unfold zero_pads in E. by destruct (has_flag Zero s), (minus s). }
  unfold in_field. rewrite Em. destruct (Hz eq_refl) as [-> |Hw]; [done|].
  by replace (Z.to_nat _) with 0%nat by lia.
Qed.

Lemma sign_prefix s i v : sp_conv s = Signed i v → sign_text (code_flags s) v = number_prefix s.
Proof. intros E. unfold number_prefix. by rewrite E. Qed.

Lemma convert_ok s more : spec_typed s → supported s →
  convert_text (code_flags s) (width s) (code_prec (sp_prec s)) (sp_len s) (conv_char (sp_conv s)) (conv_slots s ++ more) =
  Some (spec_text s, more).
Proof.
  intros (_ & _ & Ht) Hs. unfold conv_slots, spec_text, supported in *.
  destruct (sp_conv s) as [c|t|i v|v|up v|v] eqn:E; cbn [conv_typed conv_number conv_char] in *; unfold convert_text.
  - cbn. do 3 f_equal. unfold in_field, justify, u8. change 256 with (2 ^ 8).
    replace (sp_junk s * 2 ^ 32) with (sp_junk s * 2 ^ 24 * 2 ^ 8) by lia. by rewrite Z.mod_add by lia.
  - cbn. do 2 f_equal. pose proof (prec_code s) as H. rewrite justify_field. f_equal. destruct (prec s) as [p|].
    + destruct H as [-> H]. destruct (Z.leb_spec 0 p); [done|lia].
    + by destruct (Z.leb_spec 0 (code_prec (sp_prec s))); [lia|].
  - destruct Hs as [H1 H2]. destruct (signed_slot (sp_len s) v (sp_junk s) Ht) as [Es Hr].
    assert (convert_text (code_flags s) (width s) (code_prec (sp_prec s)) (sp_len s) 100 (Num (v + sp_junk s * 2 ^ slot_bits (sp_len s)) :: more) =
      Some (integer_text s 10 false (Z.abs v), more)) as R; [|by destruct i].
    unfold convert_text. cbn [Z.eqb Pos.eqb orb va_num mbind option_bind app]. rewrite Es, (sign_prefix s i v E).
    do 2 f_equal. apply integer_field; [done|lia| |done]. destruct (prec s); [|done]. split; [tauto|]. intros Hp%H1. lia.
  - destruct Hs as [H1 H2]. destruct (unsigned_slot (sp_len s) v (sp_junk s) Ht) as [Es Hr].
    cbn [Z.eqb Pos.eqb orb va_num mbind option_bind app negb andb]. rewrite Es. do 2 f_equal.
    rewrite andb_false_r. cbn [andb]. assert (number_prefix s = []) as Ep by (unfold number_prefix; by rewrite E).
    rewrite <- (integer_field s 10 false v); [by rewrite Ep|done|lia|done|done].
  - destruct Hs as [H1 H2]. destruct (unsigned_slot (sp_len s) v (sp_junk s) Ht) as [Es Hr].
    assert (convert_text (code_flags s) (width s) (code_prec (sp_prec s)) (sp_len s) (if up then 88 else 120)
      (Num (v + sp_junk s * 2 ^ slot_bits (sp_len s)) :: more) = Some (integer_text s 16 up v, more)) as R; [|exact R].
    rewrite <- (integer_field s 16 up v) by (done || lia).
    assert (number_prefix s = if has_flag Sharp s && nz v then [48; if up then 88 else 120] else []) as -> by (unfold number_prefix; by rewrite E).
    unfold convert_text. destruct up; cbn [Z.eqb Pos.eqb orb va_num mbind option_bind negb andb]; rewrite Es, andb_true_r; done.
  - destruct Ht as [_ Ht]. cbn. rewrite u64_small by done. by rewrite <- digits_numeral by (done || lia).
Qed.

Lemma width_bound s : spec_typed s → - 2 ^ 31 < width_arg s < 2 ^ 31.
Proof.
  intros (Hw & _). unfold width_arg. destruct (sp_width s) as [[n|n j]|]; cbn [from_option amount_ok amount_value] in *; lia.
Qed.

(** One conversion, whatever follows it. *)
Lemma directive_ok s rest more : spec_typed s → supported s →
  directive_text (render_spec s ++ rest) (slots_item (Convert s) ++ more) = Some (rest, more, spec_text s).
Proof.
  intros Ht Hs. pose proof (width_bound s Ht) as Hb. pose proof Ht as (Hw & Hp & _).
  unfold directive_text, render_spec. rewrite <- !app_assoc. cbn [app].
  pose proof (prec_head (sp_prec s) (sp_len s) (sp_conv s) rest) as P. rewrite parse_flags_ok by (intros c p'; by apply width_head).
  cbn [slots_item]. rewrite <- !app_assoc, parse_width by done. cbn [mbind option_bind]. fold (width_arg s).
  assert ((if width_arg s <? 0 then
      (MkFlags true (plus (set_flags (sp_flags s) flags0)) (space (set_flags (sp_flags s) flags0)) (alt (set_flags (sp_flags s) flags0))
        (zero (set_flags (sp_flags s) flags0)), s32 (- width_arg s))
    else (set_flags (sp_flags s) flags0, width_arg s)) = (code_flags s, width s)) as ->.
  { unfold code_flags, minus, width, set_flags. cbn [left plus space alt zero flags0 orb]. fold (has_flag Minus s).
    destruct (Z.ltb_spec (width_arg s) 0); [rewrite s32_small, orb_true_r by lia; f_equal; lia|rewrite orb_false_r]. f_equal. lia. }
  rewrite parse_prec by (done || apply len_head). cbn [mbind option_bind]. rewrite parse_length_ok.
  rewrite convert_ok by done. reflexivity.
Qed.

Lemma text_ok l : ∀ fuel more, Forall item_ok l → (length (render l) < fuel)%nat →
  text_loop fuel (render l) (slots l ++ more) = Some (std_text l).
Proof.
  induction l as [|x l IH]; intros fuel more Hl Hf; (destruct fuel as [|fuel]; [lia|]); [done|].
  apply Forall_cons in Hl as [Hx Hl]. change (render (x :: l)) with (render_item x ++ render l) in *.
  change (slots (x :: l)) with (slots_item x ++ slots l). change (std_text (x :: l)) with (item_text x ++ std_text l).
  rewrite length_app in Hf. destruct x as [c| |s]; cbn [render_item slots_item item_text app length] in *; cbn [text_loop].
  - rewrite (proj2 (Z.eqb_neq c 37)) by done. by rewrite IH by (done || lia).
  - cbn [Z.eqb Pos.eqb]. change (directive_text (37 :: render l) (slots l ++ more)) with (Some (render l, slots l ++ more, [37])).
    cbn [mbind option_bind]. by rewrite IH by (done || lia).
  - destruct Hx as [H1 H2]. cbn [Z.eqb Pos.eqb]. rewrite <- app_assoc.
    pose proof (directive_ok s (render l) (slots l ++ more) H1 H2) as D. cbn [slots_item] in D. rewrite D.
    cbn [mbind option_bind]. by rewrite IH by (done || lia).
Qed.

(** C26: [vsnprintf] writes the text the C standard prescribes.  For every format made of
    plain characters, ["%%"] and the conversions [c s d i u x X p] with any flags, widths,
    precisions and length modifiers, and arguments of the types they name, the buffer gets
    as much of that text as fits before the terminator and the result is the length of the
    whole text.  Left out for the integer conversions are a precision above the number of
    digits (or zero, for the number zero) and zero padding after a sign or prefix, which
    the code does not do. *)
Theorem vsnprintf_standard outsz l more :
  0 < outsz → Forall item_ok l → length (std_text l) < 2 ^ 31 →
  vsnprintf true outsz (render l) (slots l ++ more) =
    Some (Z.of_nat (length (std_text l)), take (Z.to_nat (outsz - 1)) (std_text l)).
Proof. intros Hc Hl Ht. apply vsnprintf_text; [done| |done]. apply text_ok; [done|lia]. Qed.

(** ["%-*s|%08X|%+lld%%"] with 4, ["ab"], 51966 and -7, in a buffer of 10 bytes. *)
Definition sample : list item :=
  [Convert (MkSpec [Minus] (Some (Star 4 9)) NoPrec LEN_DEF (String [97; 98]) 0); Plain 124;
   Convert (MkSpec [Zero] (Some (Literal 8)) NoPrec LEN_DEF (Hex true 51966) 5); Plain 124;
   Convert (MkSpec [Plus] None NoPrec LEN_LL (Signed false (-7)) 0); Percent].
Lemma vsnprintf_standard_witness :
  vsnprintf true 10 [37; 45; 42; 115; 124; 37; 48; 56; 88; 124; 37; 43; 108; 108; 100; 37; 37]
    [Num (4 + 9 * 2 ^ 32); Str (Some [97; 98]); Num (51966 + 5 * 2 ^ 32); Num (-7)] =
  Some (17, [97; 98; 32; 32; 124; 48; 48; 48; 48]).
Proof.
  apply (vsnprintf_standard 10 sample []); [lia| |].
  - repeat constructor; try discriminate; cbn; try lia; auto.
  - vm_compute. reflexivity.
Defined.

(** ["%.3d"] of 5: the precision is ignored. *)
Lemma integer_precision_ignored :
  vsnprintf true 16 [37; 46; 51; 100] [Num 5] = Some (1, [53]) ∧
  spec_text (MkSpec [] None (Prec (Literal 3)) LEN_DEF (Signed false 5) 0) = [48; 48; 53].
Proof. split; reflexivity. Qed.

(** ["%05d"] of -5: the zeros come before the sign. *)
Lemma zero_padding_before_sign :
  vsnprintf true 16 [37; 48; 53; 100] [Num (-5)] = Some (5, [48; 48; 48; 45; 53]) ∧
  spec_text (MkSpec [Zero] (Some (Literal 5)) NoPrec LEN_DEF (Signed false (-5)) 0) = [45; 48; 48; 48; 53].
Proof. split; reflexivity. Qed.
