(* ===== verification/X509.v ===== *)
(** DER writing and certificates: [crypto/asn1.c] (Module [Asn1]) and
    [crypto/x509.c] (Module [X509]).

    A writer's buffer is the list of bytes written so far; [cap] is the size of the
    array behind it.  A C string is the list of its characters before the
    terminator. *)
From S2P Require Import Prelude Sha256 Ecc.
Import Sha256 Ecc.

Module Asn1.

Definition DER_TAG_INTEGER : Z := 0x02.
Definition DER_TAG_BIT_STRING : Z := 0x03.
Definition DER_TAG_NULL : Z := 0x05.
Definition DER_TAG_OID : Z := 0x06.
Definition DER_TAG_UTF8STRING : Z := 0x0c.
Definition DER_TAG_UTCTIME : Z := 0x17.
Definition DER_TAG_SEQUENCE : Z := 0x30.
Definition DER_TAG_SET : Z := 0x31.
Definition DER_TAG_PRINTABLE : Z := 0x13.
Definition DER_TAG_CONTEXT0 : Z := 0xa0.

Record der_writer := MkWriter { out : list Z; cap : Z; err : bool }.
Definition wlen (w : der_writer) : Z := length (out w).
Definition fail (w : der_writer) : der_writer := MkWriter (out w) (cap w) true.
Definition put (w : der_writer) (l : list Z) : der_writer := MkWriter (out w ++ l) (cap w) (err w).

Definition der_w_init (cap : Z) : der_writer := MkWriter [] cap false.

Definition der_w_u8 (b : Z) (w : der_writer) : der_writer :=
  if err w then w
  else if cap w <=? wlen w then fail w
  else put w [u8 b].

Definition der_w_bytes (data : list Z) (w : der_writer) : der_writer :=
  if err w then w
  else if cap w -u wlen w <? length data then fail w
  else put w data.

Definition der_w_len (len : Z) (w : der_writer) : der_writer :=
  if len <? 128 then der_w_u8 len w
  else if len <=? 0xff then der_w_u8 len (der_w_u8 0x81 w)
  else if len <=? 0xffff then der_w_u8 len (der_w_u8 (Z.shiftr len 8) (der_w_u8 0x82 w))
  else if len <=? 0xffffff then
    der_w_u8 len (der_w_u8 (Z.shiftr len 8) (der_w_u8 (Z.shiftr len 16) (der_w_u8 0x83 w)))
  else
    der_w_u8 len (der_w_u8 (Z.shiftr len 8) (der_w_u8 (Z.shiftr len 16)
      (der_w_u8 (Z.shiftr len 24) (der_w_u8 0x84 w)))).

Definition der_w_tlv (tag : Z) (content : list Z) (w : der_writer) : der_writer :=
  der_w_bytes content (der_w_len (length content) (der_w_u8 tag w)).

(** The frame is the position of the length octet. *)
Definition der_w_begin (tag : Z) (w : der_writer) : der_writer * Z :=
  let w := der_w_u8 tag w in
  let lenpos := wlen w in
  (der_w_u8 0x00 w, lenpos).

Definition der_w_end (lenpos : Z) (w : der_writer) : der_writer :=
  if err w then w
  else
    let content := wlen w -u lenpos -u 1 in
    if content <? 128 then MkWriter (<[Z.to_nat lenpos := u8 content]> (out w)) (cap w) false
    else
      let extra := if content <=? 0xff then 1 else if content <=? 0xffff then 2 else 3 in
      let extra := if 0xffffff <? content then 4 else extra in
      (* memmove, then the length octets *)
      let body := take (Z.to_nat content) (drop (Z.to_nat (lenpos + 1)) (out w)) in
      let octets := map (λ i : nat, u8 (Z.shiftr content (8 * (extra - 1 - i)))) (seq 0 (Z.to_nat extra)) in
      MkWriter (take (Z.to_nat lenpos) (out w) ++ [u8 (Z.lor 0x80 extra)] ++ octets ++ body) (cap w) false.

Definition der_w_null : der_writer → der_writer := der_w_tlv DER_TAG_NULL [].
Definition der_w_oid (oid : list Z) : der_writer → der_writer := der_w_tlv DER_TAG_OID oid.

(** [while (n > 0 && v[0] == 0) { v++; n--; }] *)
Fixpoint strip (v : list Z) : list Z :=
  match v with
  | x :: v' => if x =? 0 then strip v' else v
  | [] => []
  end.
Definition der_w_int_bytes (v : list Z) (w : der_writer) : der_writer :=
  if err w then w
  else
    match strip v with
    | [] => der_w_tlv DER_TAG_INTEGER [0] w
    | x :: v' =>
        let v := x :: v' in
        if nz (Z.land x 0x80) then
          der_w_bytes v (der_w_u8 0x00 (der_w_len (length v + 1) (der_w_u8 DER_TAG_INTEGER w)))
        else der_w_tlv DER_TAG_INTEGER v w
    end.

Definition der_w_int_u32 (v : Z) (w : der_writer) : der_writer :=
  der_w_int_bytes [u8 (Z.shiftr v 24); u8 (Z.shiftr v 16); u8 (Z.shiftr v 8); u8 v] w.

Definition der_w_bitstring (data : list Z) (w : der_writer) : der_writer :=
  if err w then w
  else der_w_bytes data (der_w_u8 0x00 (der_w_len (length data + 1) (der_w_u8 DER_TAG_BIT_STRING w))).

Definition der_w_printable (s : list Z) : der_writer → der_writer := der_w_tlv DER_TAG_PRINTABLE s.
Definition der_w_utf8 (s : list Z) : der_writer → der_writer := der_w_tlv DER_TAG_UTF8STRING s.
Definition der_w_utctime (t : list Z) : der_writer → der_writer := der_w_tlv DER_TAG_UTCTIME t.
Definition der_w_size (w : der_writer) : Z := wlen w.

End Asn1.

Module X509.
Import Asn1.

Definition X509_CN_MAX : Z := 64.
Definition X509_SERIAL_MAX : Z := 20.

Record x509_req := MkReq {
  subject : list Z; serial : list Z; serial_len : Z; not_before : list Z; not_after : list Z; key : ecc_key_t
}.

Definition OID_ECPUBKEY : list Z := [0x2a; 0x86; 0x48; 0xce; 0x3d; 0x02; 0x01].
Definition OID_P256 : list Z := [0x2a; 0x86; 0x48; 0xce; 0x3d; 0x03; 0x01; 0x07].
Definition OID_ECDSA_SHA256 : list Z := [0x2a; 0x86; 0x48; 0xce; 0x3d; 0x04; 0x03; 0x02].
Definition OID_CN : list Z := [0x55; 0x04; 0x03].
Definition OID_C : list Z := [0x55; 0x04; 0x06].

Definition write_spki (key : ecc_key_t) (w : der_writer) : der_writer :=
  let '(w, spki) := der_w_begin DER_TAG_SEQUENCE w in
  let '(w, alg) := der_w_begin DER_TAG_SEQUENCE w in
  let w := der_w_oid OID_ECPUBKEY w in
  let w := der_w_oid OID_P256 w in
  let w := der_w_end alg w in
  let raw := 0x04 :: px (pub key) ++ py (pub key) in
  let w := der_w_bitstring raw w in
  der_w_end spki w.

Definition write_name (cn : list Z) (w : der_writer) : der_writer :=
  let '(w, fname) := der_w_begin DER_TAG_SEQUENCE w in
  let '(w, fset1) := der_w_begin DER_TAG_SET w in
  let '(w, fat1) := der_w_begin DER_TAG_SEQUENCE w in
  let w := der_w_oid OID_C w in
  let w := der_w_printable [0x52; 0x55] w in
  let w := der_w_end fat1 w in
  let w := der_w_end fset1 w in
  let '(w, fset2) := der_w_begin DER_TAG_SET w in
  let '(w, fat2) := der_w_begin DER_TAG_SEQUENCE w in
  let w := der_w_oid OID_CN w in
  let w := der_w_utf8 cn w in
  let w := der_w_end fat2 w in
  let w := der_w_end fset2 w in
  der_w_end fname w.

Definition write_tbs (req : x509_req) (tbs : der_writer) : der_writer :=
  let '(tbs, ftbs) := der_w_begin DER_TAG_SEQUENCE tbs in
  let '(tbs, fver) := der_w_begin DER_TAG_CONTEXT0 tbs in
  let tbs := der_w_int_u32 2 tbs in
  let tbs := der_w_end fver tbs in
  let tbs := der_w_int_bytes (take (Z.to_nat (serial_len req)) (serial req)) tbs in
  let '(tbs, fsig) := der_w_begin DER_TAG_SEQUENCE tbs in
  let tbs := der_w_oid OID_ECDSA_SHA256 tbs in
  let tbs := der_w_null tbs in
  let tbs := der_w_end fsig tbs in
  let tbs := write_name (subject req) tbs in
  let '(tbs, fval) := der_w_begin DER_TAG_SEQUENCE tbs in
  let tbs := der_w_utctime (not_before req) tbs in
  let tbs := der_w_utctime (not_after req) tbs in
  let tbs := der_w_end fval tbs in
  let tbs := write_name (subject req) tbs in
  let tbs := write_spki (key req) tbs in
  der_w_end ftbs tbs.

Definition write_sig (r s : list Z) (sig : der_writer) : der_writer :=
  let '(sig, fsigval) := der_w_begin DER_TAG_SEQUENCE sig in
  let sig := der_w_int_bytes r sig in
  let sig := der_w_int_bytes s sig in
  der_w_end fsigval sig.

Definition write_cert (tbs sig : list Z) (cert : der_writer) : der_writer :=
  let '(cert, fcert) := der_w_begin DER_TAG_SEQUENCE cert in
  let cert := der_w_bytes tbs cert in
  let '(cert, fcertsig) := der_w_begin DER_TAG_SEQUENCE cert in
  let cert := der_w_oid OID_ECDSA_SHA256 cert in
  let cert := der_w_null cert in
  let cert := der_w_end fcertsig cert in
  let cert := der_w_bitstring sig cert in
  der_w_end fcert cert.

(** The result is what [out] holds up to [*out_len]; [None] inside is [-1]. *)
Definition x509_generate (fuel : nat) (junk : list Z) (c : curve) (req : x509_req) (cap : Z)
    : option (curve * option (list Z)) :=
  if (serial_len req =? 0) || (X509_SERIAL_MAX <? serial_len req) then Some (c, None)
  else
    let tbs := write_tbs req (der_w_init 1024) in
    if err tbs then Some (c, None)
    else
      hash ← sha256 junk (out tbs);
      '(c, rs) ← ecdsa_sign fuel junk c (kd (key req)) hash;
      match rs with
      | None => Some (c, None)
      | Some (r, s) =>
          let sig := write_sig r s (der_w_init 80) in
          if err sig then Some (c, None)
          else
            let cert := write_cert (out tbs) (out sig) (der_w_init cap) in
            if err cert then Some (c, None) else Some (c, Some (out cert))
      end.

(** ** PEM *)

Definition hdr : list Z := [45; 45; 45; 45; 45; 66; 69; 71; 73; 78; 32; 67; 69; 82; 84; 73; 70; 73; 67; 65; 84; 69; 45; 45; 45; 45; 45; 10].
Definition ftr : list Z := [45; 45; 45; 45; 45; 69; 78; 68; 32; 67; 69; 82; 84; 73; 70; 73; 67; 65; 84; 69; 45; 45; 45; 45; 45; 10].
Definition b64 : list Z :=
  [65; 66; 67; 68; 69; 70; 71; 72; 73; 74; 75; 76; 77; 78; 79; 80; 81; 82; 83; 84; 85; 86; 87; 88; 89; 90;
   97; 98; 99; 100; 101; 102; 103; 104; 105; 106; 107; 108; 109; 110; 111; 112; 113; 114; 115; 116; 117; 118; 119; 120; 121; 122;
   48; 49; 50; 51; 52; 53; 54; 55; 56; 57; 43; 47].

(** The four characters of one turn, and whether the line is full after it. *)
Definition quad (der : list Z) : list Z :=
  let nleft := u32 (length der) in
  let v := Z.shiftl (at_ der 0) 16 in
  let v := if 1 <? nleft then Z.lor v (Z.shiftl (at_ der 1) 8) else v in
  let v := if 2 <? nleft then Z.lor v (at_ der 2) else v in
  let sextet k := at_ b64 (Z.to_nat (Z.land (Z.shiftr v k) 63)) in
  [sextet 18; sextet 12; if 1 <? nleft then sextet 6 else 61; if 2 <? nleft then sextet 0 else 61].

(** [for (i = 0; i < der_len; i += 3)], on what is left of [der]; [n] bytes of
    [out] are written before it. *)
Fixpoint pem_loop (fuel : nat) (der : list Z) (col : Z) (out : list Z) : option (list Z * Z) :=
  match der with
  | [] => Some (out, col)
  | _ =>
      match fuel with
      | O => None
      | S fuel =>
          let out := out ++ quad der in
          let col := col + 4 in
          if 64 <=? col then pem_loop fuel (drop 3 der) 0 (out ++ [10]) else pem_loop fuel (drop 3 der) col out
      end
  end.

(** What is written to [out], the terminator last; [None] inside is [-1]. *)
Definition x509_der_to_pem (der : option (list Z)) (out : bool) (cap : Z) : option (option (list Z)) :=
  match der with
  | None => Some None
  | Some der =>
      if negb out || (length der =? 0)%nat then Some None
      else
        let b64_len := ((length der +u 2) / 3) *u 4 in
        let lines := (b64_len +u 63) / 64 in
        let need := length hdr +u b64_len +u lines +u length ftr in
        if cap <? need +u 1 then Some None
        else
          '(o, col) ← pem_loop (length der) der 0 hdr;
          let o := if nz col then o ++ [10] else o in
          Some (Some (o ++ ftr ++ [0]))
  end.

End X509.
