(* ===== verification/X509Props.v ===== *)
(** What the DER writer and [x509_generate] write: the canonical encoding of a
    tree of tagged values, and its way back; and PEM with its way back. *)
From S2P Require Import Prelude Sha256 EccField Cong EccMod Ecc EccPoint EccApi EccSign X509.
Import Sha256 Ecc Asn1 X509.

(** * Canonical DER *)

#[warnings="-register-all"]
Inductive der :=
  | Prim (tag : Z) (content : list Z)
  | Cons (tag : Z) (l : list der).

(** Number of octets of a length in the long form. *)
Definition octets (n : Z) : nat := Z.to_nat (Z.log2 n / 8 + 1).
Definition enc_len (n : Z) : list Z :=
  if n <? 128 then [n] else (0x80 + octets n) :: be_bytes (octets n) n.
Definition tlv (tag : Z) (l : list Z) : list Z := tag :: enc_len (length l) ++ l.

Fixpoint encode (t : der) : list Z :=
  match t with
  | Prim tag c => tlv tag c
  | Cons tag l => tlv tag (concat (map encode l))
  end.

(** The content of an INTEGER: no redundant zero, and one where the first bit
    would read as a sign. *)
Definition der_int (v : list Z) : list Z :=
  match strip v with
  | [] => [0]
  | x :: v' => if 128 <=? x then 0 :: x :: v' else x :: v'
  end.

Lemma octets_spec n k : 128 ≤ n → (2 ^ 8) ^ (k - 1) ≤ n < (2 ^ 8) ^ k → 1 ≤ k → octets n = Z.to_nat k.
Proof.
  intros Hn Hk H1. unfold octets. f_equal. rewrite <- !Z.pow_mul_r in Hk by lia.
  assert (8 * (k - 1) ≤ Z.log2 n < 8 * k) as Hl.
  { split; [apply Z.log2_le_pow2; lia|apply Z.log2_lt_pow2; lia]. }
  assert (Z.log2 n / 8 = k - 1); [|lia]. symmetry.
  apply (Z.div_unique_pos _ _ _ (Z.log2 n - 8 * (k - 1))); lia.
Qed.

Lemma octets_cases n : 128 ≤ n < 2 ^ 32 →
  octets n = if n <=? 0xff then 1%nat else if n <=? 0xffff then 2%nat
             else if n <=? 0xffffff then 3%nat else 4%nat.
Proof.
  intros Hn. repeat case_match; rewrite ?Z.leb_le, ?Z.leb_gt in *.
  - rewrite (octets_spec n 1); [done|lia|split; [change ((2 ^ 8) ^ (1 - 1)) with 1|change ((2 ^ 8) ^ 1) with (2 ^ 8)]; lia|lia].
  - rewrite (octets_spec n 2); [done|lia|change ((2 ^ 8) ^ (2 - 1)) with (2 ^ 8); change ((2 ^ 8) ^ 2) with (2 ^ 16); lia|lia].
  - rewrite (octets_spec n 3); [done|lia|change ((2 ^ 8) ^ (3 - 1)) with (2 ^ 16); change ((2 ^ 8) ^ 3) with (2 ^ 24); lia|lia].
  - rewrite (octets_spec n 4); [done|lia|change ((2 ^ 8) ^ (4 - 1)) with (2 ^ 24); change ((2 ^ 8) ^ 4) with (2 ^ 32); lia|lia].
Qed.

(** * Writers that append *)

(** [f] appends [l] whenever there is room for it. *)
Definition emits (f : der_writer → der_writer) (l : list Z) : Prop :=
  ∀ w, err w = false → wlen w + length l ≤ cap w < 2 ^ 64 → f w = put w l.

Lemma put_put w l1 l2 : put (put w l1) l2 = put w (l1 ++ l2).
Proof. unfold put. simpl. by rewrite app_assoc. Qed.
Lemma wlen_put w l : wlen (put w l) = wlen w + length l.
Proof. unfold wlen, put. simpl. rewrite length_app. lia. Qed.

Lemma emits_seq f g l1 l2 : emits f l1 → emits g l2 → emits (λ w, g (f w)) (l1 ++ l2).
Proof.
  intros Hf Hg w He Hr. rewrite length_app in Hr. rewrite (Hf w He) by lia.
  rewrite (Hg (put w l1)) by (done || rewrite wlen_put; simpl; lia). by rewrite put_put.
Qed.

Lemma u8_put b w : err w = false → wlen w + 1 ≤ cap w < 2 ^ 64 → der_w_u8 b w = put w [u8 b].
Proof.
  intros He Hr. unfold der_w_u8. rewrite He. by destruct (Z.leb_spec (cap w) (wlen w)); [lia|].
Qed.

Lemma emits_u8 b : 0 ≤ b < 2 ^ 8 → emits (der_w_u8 b) [b].
Proof. intros Hb w He Hr. simpl in Hr. by rewrite u8_put, u8_small by (done || lia). Qed.

Lemma emits_bytes l : emits (der_w_bytes l) l.
Proof.
  intros w He Hr. assert (0 ≤ wlen w) by (unfold wlen; lia). unfold der_w_bytes. rewrite He, u64_small by lia.
  by destruct (Z.ltb_spec (cap w - wlen w) (length l)); [lia|].
Qed.

Lemma emits_len n : 0 ≤ n < 2 ^ 32 → emits (der_w_len n) (enc_len n).
Proof.
  intros Hn. unfold enc_len, der_w_len. destruct (Z.ltb_spec n 128); [by apply emits_u8; lia|].
  rewrite octets_cases by lia.
  repeat case_match; intros w He Hr; simpl length in Hr; rewrite ?be_bytes_length in Hr;
    rewrite (u8_put _ w) by (done || lia);
    repeat (rewrite (u8_put _ (put w _)) by (done || (rewrite ?wlen_put; simpl; lia)); rewrite put_put);
    rewrite !be_bytes_S; reflexivity.
Qed.

Lemma emits_tlv tag l : 0 ≤ tag < 2 ^ 8 → length l < 2 ^ 32 → emits (der_w_tlv tag l) (tlv tag l).
Proof.
  intros Ht Hl. apply (emits_seq (λ w, der_w_len (length l) (der_w_u8 tag w)) _ (tag :: enc_len (length l)));
    [|apply emits_bytes].
  apply (emits_seq _ _ [tag]); [by apply emits_u8|]. apply emits_len. lia.
Qed.

(** A frame: what its body writes, with tag and length in front of it. *)
Definition framed (tag : Z) (body : der_writer → der_writer) (w : der_writer) : der_writer :=
  let '(w, f) := der_w_begin tag w in der_w_end f (body w).

(** The octet count of [der_w_end]. *)
Lemma extra_octets n : 128 ≤ n < 2 ^ 32 →
  (if 0xffffff <? n then 4 else if n <=? 0xff then 1 else if n <=? 0xffff then 2 else 3) = Z.of_nat (octets n).
Proof. intros Hn. rewrite octets_cases by done. repeat case_match; lia. Qed.

Lemma long_form n : 128 ≤ n < 2 ^ 32 →
  [u8 (Z.lor 0x80 (octets n))] ++
  map (λ i : nat, u8 (Z.shiftr n (8 * (Z.of_nat (octets n) - 1 - i)))) (seq 0 (octets n)) = enc_len n.
Proof.
  intros Hn. unfold enc_len. destruct (Z.ltb_spec n 128); [lia|].
  simpl app. f_equal. rewrite octets_cases by done. by repeat case_match.
Qed.

(** Patching the length octet at the end of [l0]. *)
Lemma patch_short (l0 l : list Z) t x : <[(length l0 + 1)%nat := x]> (l0 ++ t :: 0 :: l) = l0 ++ t :: x :: l.
Proof. rewrite insert_app_r_alt by lia. by replace (length l0 + 1 - length l0)%nat with 1%nat by lia. Qed.

Lemma emits_framed tag body l : 0 ≤ tag < 2 ^ 8 → length l < 2 ^ 32 → emits body l →
  emits (framed tag body) (tlv tag l).
Proof.
  intros Ht Hl Hb w He Hr. unfold tlv in *. simpl length in Hr. rewrite length_app in Hr.
  assert (0 ≤ wlen w) by (unfold wlen; lia).
  assert (0 < length (enc_len (length l))) as Hpos
    by (unfold enc_len; destruct (_ <? _); simpl; rewrite ?be_bytes_length; lia).
  unfold framed, der_w_begin. rewrite u8_put, u8_small by (done || lia).
  rewrite u8_put by (done || (rewrite wlen_put; simpl; lia)). rewrite put_put.
  rewrite Hb by (done || (rewrite wlen_put; simpl; lia)). rewrite put_put, wlen_put. simpl length. simpl app.
  change (u8 0) with 0. unfold der_w_end. change (err (put w _)) with (err w). rewrite He.
  assert (wlen (put w (tag :: 0 :: l)) -u (wlen w + Z.of_nat 1) -u 1 = length l) as ->.
  { rewrite wlen_put. simpl length. rewrite (u64_small (_ - (_ + _))) by lia. rewrite u64_small by lia. lia. }
  unfold put, wlen. cbn [out cap]. rewrite He.
  destruct (Z.ltb_spec (length l) 128) as [Hs|Hs].
  - replace (Z.to_nat (length (out w) + Z.of_nat 1)) with (length (out w) + 1)%nat by lia.
    rewrite patch_short, u8_small by lia. unfold enc_len. by destruct (Z.ltb_spec (length l) 128); [|lia].
  - rewrite extra_octets by lia. f_equal.
    replace (Z.to_nat (length (out w) + Z.of_nat 1 + 1)) with (length (out w ++ [tag; 0])) by (rewrite length_app; simpl; lia).
    replace (Z.to_nat (length (out w) + Z.of_nat 1)) with (length (out w ++ [tag])) by (rewrite length_app; simpl; lia).
    replace (out w ++ tag :: 0 :: l) with ((out w ++ [tag; 0]) ++ l) by by rewrite <- app_assoc.
    rewrite drop_app_length, !Nat2Z.id, (take_ge l) by lia. rewrite (app_assoc [u8 _]), long_form by lia.
    replace ((out w ++ [tag; 0]) ++ l) with ((out w ++ [tag]) ++ 0 :: l) by by rewrite <- !app_assoc.
    rewrite take_app_length. by rewrite <- app_assoc.
Qed.

Lemma high_bit x : 0 ≤ x < 2 ^ 8 → nz (Z.land x 0x80) = (128 <=? x).
Proof.
  intros Hx.
  assert (forallb (λ i : nat, eqb (nz (Z.land i 0x80)) (128 <=? i)) (seq 0 256) = true) as H by by vm_compute.
  rewrite forallb_forall in H. specialize (H (Z.to_nat x)). rewrite in_seq, Z2Nat.id in H by lia.
  apply eqb_prop, H. lia.
Qed.

Lemma strip_bytes v : bytes v → bytes (strip v) ∧ (length (strip v) ≤ length v)%nat.
Proof.
  induction 1 as [|x v Hx Hv IH]; [done|]. cbn [strip length]. destruct (x =? 0); [lia || (split; [apply IH|lia])|].
  split; [by constructor|simpl; lia].
Qed.

Lemma der_int_length v : bytes v → (length (der_int v) ≤ length v + 1)%nat.
Proof.
  intros Hv. destruct (strip_bytes v Hv) as [_ Hl]. unfold der_int.
  destruct (strip v) as [|x v']; [simpl; lia|]. destruct (128 <=? x); simpl in *; lia.
Qed.

(** Tag, length of one more octet than [l], a zero octet, and [l]. *)
Lemma emits_zero_tlv tag l : 0 ≤ tag < 2 ^ 8 → length l + 1 < 2 ^ 32 →
  emits (λ w, der_w_bytes l (der_w_u8 0x00 (der_w_len (length l + 1) (der_w_u8 tag w)))) (tlv tag (0 :: l)).
Proof.
  intros Ht Hl. unfold tlv. cbn [length]. rewrite Nat2Z.inj_succ, <- Z.add_1_r.
  apply (emits_seq (der_w_u8 tag) (λ w, der_w_bytes l (der_w_u8 0x00 (der_w_len (length l + 1) w))) [tag]); [by apply emits_u8|].
  apply (emits_seq (der_w_len (length l + 1)) (λ w, der_w_bytes l (der_w_u8 0x00 w))); [apply emits_len; lia|].
  apply (emits_seq (der_w_u8 0) (der_w_bytes l) [0]); [by apply emits_u8|apply emits_bytes].
Qed.

Lemma emits_int v : bytes v → length v + 1 < 2 ^ 32 → emits (der_w_int_bytes v) (tlv DER_TAG_INTEGER (der_int v)).
Proof.
  intros Hv Hl w He Hr. destruct (strip_bytes v Hv) as [Hs Hsl]. revert Hr. unfold der_w_int_bytes, der_int. rewrite He.
  destruct (strip v) as [|x v']; [by apply emits_tlv|]. apply Forall_cons in Hs as [Hx _]. rewrite high_bit by done.
  destruct (128 <=? x); intros Hr.
  - by apply (emits_zero_tlv DER_TAG_INTEGER (x :: v')); [|lia|..].
  - by apply emits_tlv; [|lia|..].
Qed.

Lemma emits_bitstring l : length l + 1 < 2 ^ 32 → emits (der_w_bitstring l) (tlv DER_TAG_BIT_STRING (0 :: l)).
Proof. intros Hl w He Hr. unfold der_w_bitstring. rewrite He. by apply (emits_zero_tlv DER_TAG_BIT_STRING l). Qed.

(** * Writers as data *)

#[warnings="-register-all"]
Inductive prog :=
  | PTlv (tag : Z) (content : list Z)
  | PInt (v : list Z)
  | PBits (data : list Z)
  | PRaw (t : der)
  | PFrame (tag : Z) (l : list prog).

Fixpoint run1 (p : prog) (w : der_writer) : der_writer :=
  match p with
  | PTlv tag c => der_w_tlv tag c w
  | PInt v => der_w_int_bytes v w
  | PBits d => der_w_bitstring d w
  | PRaw t => der_w_bytes (encode t) w
  | PFrame tag l => framed tag (λ w, foldl (λ w p, run1 p w) w l) w
  end.

Fixpoint tree (p : prog) : der :=
  match p with
  | PTlv tag c => Prim tag c
  | PInt v => Prim DER_TAG_INTEGER (der_int v)
  | PBits d => Prim DER_TAG_BIT_STRING (0 :: d)
  | PRaw t => t
  | PFrame tag l => Cons tag (map tree l)
  end.

Fixpoint prog_ok (p : prog) : Prop :=
  match p with
  | PTlv tag _ => 0 ≤ tag < 2 ^ 8
  | PInt v => bytes v ∧ length v + 1 < 2 ^ 32
  | PBits _ | PRaw _ => True
  | PFrame tag l => 0 ≤ tag < 2 ^ 8 ∧ foldr (λ p P, prog_ok p ∧ P) True l
  end.

Lemma enc_len_length n : 0 ≤ n < 2 ^ 32 → 1 ≤ length (enc_len n) ≤ 5 ∧ (n < 2 ^ 16 → length (enc_len n) ≤ 3).
Proof.
  intros Hn. unfold enc_len. destruct (Z.ltb_spec n 128); [simpl; lia|]. simpl length.
  rewrite be_bytes_length, octets_cases by lia. repeat case_match; lia.
Qed.

Lemma tlv_length tag l : length (tlv tag l) = (1 + length (enc_len (length l)) + length l)%nat.
Proof. unfold tlv. simpl. rewrite length_app. lia. Qed.

Lemma run1_emits p : prog_ok p → length (encode (tree p)) < 2 ^ 32 → emits (run1 p) (encode (tree p)).
Proof.
  revert p. fix IH 1. intros [tag c|v|d|t|tag l] Hok Hl; cbn [run1 tree encode] in *; rewrite ?tlv_length in Hl.
  - apply emits_tlv; [done|lia].
  - destruct Hok. by apply emits_int.
  - apply emits_bitstring. simpl length in Hl. lia.
  - apply emits_bytes.
  - destruct Hok as [Ht Hok]. apply emits_framed; [done|lia|].
    assert (length (concat (map encode (map tree l))) < 2 ^ 32) as Hlt by lia. clear Hl. revert Hok Hlt.
    induction l as [|p l IHl]; cbn [foldr map concat]; intros Hok Hlt.
    + intros w He Hr. unfold put. rewrite app_nil_r. by destruct w.
    + rewrite length_app in Hlt. destruct Hok as [Hp Hok].
      apply (emits_seq (run1 p) (λ w, foldl (λ w p, run1 p w) w l)); [apply IH; [done|lia]|apply IHl; [done|lia]].
Qed.

(** * Reading DER back *)

Definition parse_len (l : list Z) : option (Z * list Z) :=
  match l with
  | [] => None
  | x :: l =>
      if x <? 128 then Some (x, l)
      else let k := Z.to_nat (x - 128) in
           if (length l <? k)%nat then None else Some (be_val (take k l), drop k l)
  end.

(** Bit 5 of the tag tells a constructed value. *)
Fixpoint parse (fuel : nat) (l : list Z) : option (list der) :=
  match l with
  | [] => Some []
  | tag :: l =>
      match fuel with
      | O => None
      | S fuel =>
          '(n, l) ← parse_len l;
          if Z.of_nat (length l) <? n then None
          else
            let body := take (Z.to_nat n) l in
            t ← (if Z.testbit tag 5 then ts ← parse fuel body; Some (Cons tag ts) else Some (Prim tag body));
            ts ← parse fuel (drop (Z.to_nat n) l);
            Some (t :: ts)
      end
  end.

Fixpoint der_ok (t : der) : Prop :=
  match t with
  | Prim tag c => Z.testbit tag 5 = false ∧ length c < 2 ^ 32
  | Cons tag l =>
      Z.testbit tag 5 = true ∧ length (concat (map encode l)) < 2 ^ 32 ∧ foldr (λ t P, der_ok t ∧ P) True l
  end.

Lemma parse_enc_len n l : 0 ≤ n < 2 ^ 32 → parse_len (enc_len n ++ l) = Some (n, l).
Proof.
  intros Hn. unfold enc_len. destruct (Z.ltb_spec n 128) as [H|H]; simpl.
  { by destruct (Z.ltb_spec n 128); [|lia]. }
  destruct (Z.ltb_spec (128 + octets n) 128); [lia|].
  replace (Z.to_nat (128 + octets n - 128)) with (length (be_bytes (octets n) n)) by (rewrite be_bytes_length; lia).
  destruct (Nat.ltb_spec (length (be_bytes (octets n) n ++ l)) (length (be_bytes (octets n) n))) as [Hl|Hl];
    [rewrite length_app in Hl; lia|].
  rewrite take_app_length, drop_app_length, be_val_bytes, Z.mod_small; [done|].
  split; [lia|]. rewrite octets_cases by lia. repeat case_match; rewrite ?Z.leb_le, ?Z.leb_gt in *.
  - change ((2 ^ 8) ^ Z.of_nat 1) with (2 ^ 8). lia.
  - change ((2 ^ 8) ^ Z.of_nat 2) with (2 ^ 16). lia.
  - change ((2 ^ 8) ^ Z.of_nat 3) with (2 ^ 24). lia.
  - change ((2 ^ 8) ^ Z.of_nat 4) with (2 ^ 32). lia.
Qed.

Lemma parse_tlv fuel tag c l t ts : length c < 2 ^ 32 →
  (if Z.testbit tag 5 then ts ← parse fuel c; Some (Cons tag ts) else Some (Prim tag c)) = Some t →
  parse fuel l = Some ts → parse (S fuel) (tlv tag c ++ l) = Some (t :: ts).
Proof.
  intros Hc Ht Hl. unfold tlv. cbn [app parse]. rewrite <- app_assoc, parse_enc_len by lia.
  cbn [mbind option_bind]. rewrite length_app. destruct (Z.ltb_spec (length c + length l)%nat (length c)); [lia|].
  rewrite Nat2Z.id, take_app_length, drop_app_length. fold (parse fuel c) in *. rewrite Ht. simpl. by rewrite Hl.
Qed.

Lemma parse_encode fuel l : foldr (λ t P, der_ok t ∧ P) True l →
  (length (concat (map encode l)) ≤ fuel)%nat → parse fuel (concat (map encode l)) = Some l.
Proof.
  revert l. induction fuel as [|fuel IH]; intros l Hok Hf.
  { destruct l as [|[tag c|tag ts] l]; [done|simpl in Hf; lia..]. }
  destruct l as [|t l]; [done|]. destruct Hok as [Ht Hok].
  cbn [map concat] in *. rewrite length_app in Hf.
  assert (parse fuel (concat (map encode l)) = Some l) as Hl.
  { apply IH; [done|]. destruct t; simpl in Hf; lia. }
  destruct t as [tag c|tag ts]; cbn [encode der_ok] in *; rewrite tlv_length in Hf.
  - destruct Ht as [Hb Hc]. apply parse_tlv; [done|by rewrite Hb|done].
  - destruct Ht as (Hb & Hc & Hts). apply parse_tlv; [done| |done]. rewrite Hb, IH by (done || lia). done.
Qed.

(** * Certificates *)

Definition name_prog (cn : list Z) : prog :=
  PFrame DER_TAG_SEQUENCE
    [PFrame DER_TAG_SET [PFrame DER_TAG_SEQUENCE [PTlv DER_TAG_OID OID_C; PTlv DER_TAG_PRINTABLE [0x52; 0x55]]];
     PFrame DER_TAG_SET [PFrame DER_TAG_SEQUENCE [PTlv DER_TAG_OID OID_CN; PTlv DER_TAG_UTF8STRING cn]]].
Definition spki_prog (k : ecc_key_t) : prog :=
  PFrame DER_TAG_SEQUENCE
    [PFrame DER_TAG_SEQUENCE [PTlv DER_TAG_OID OID_ECPUBKEY; PTlv DER_TAG_OID OID_P256];
     PBits (0x04 :: px (pub k) ++ py (pub k))].
Definition alg_prog : prog :=
  PFrame DER_TAG_SEQUENCE [PTlv DER_TAG_OID OID_ECDSA_SHA256; PTlv DER_TAG_NULL []].
Definition tbs_prog (req : x509_req) : prog :=
  PFrame DER_TAG_SEQUENCE
    [PFrame DER_TAG_CONTEXT0 [PInt [0; 0; 0; 2]];
     PInt (take (Z.to_nat (serial_len req)) (serial req));
     alg_prog;
     name_prog (subject req);
     PFrame DER_TAG_SEQUENCE [PTlv DER_TAG_UTCTIME (not_before req); PTlv DER_TAG_UTCTIME (not_after req)];
     name_prog (subject req);
     spki_prog (key req)].
Definition sig_prog (r s : list Z) : prog := PFrame DER_TAG_SEQUENCE [PInt r; PInt s].
Definition cert_prog (tbs : der) (sig : list Z) : prog :=
  PFrame DER_TAG_SEQUENCE [PRaw tbs; alg_prog; PBits sig].

(** The TBSCertificate of a request, and the certificate with a signature. *)
Definition tbs_der (req : x509_req) : der := tree (tbs_prog req).
Definition cert_der (req : x509_req) (r s : list Z) : der :=
  tree (cert_prog (tbs_der req) (encode (tree (sig_prog r s)))).

#[local] Opaque der_w_begin der_w_end der_w_tlv der_w_int_bytes der_w_bitstring der_w_bytes.

(** Frame by frame, the code runs these programs. *)
Ltac frames :=
  unfold framed, der_w_oid, der_w_utf8, der_w_printable, der_w_null, der_w_utctime; cbv beta;
  repeat match goal with |- context [der_w_begin ?t ?w] => destruct (der_w_begin t w) end; reflexivity.

Lemma write_name_eq cn w : write_name cn w = run1 (name_prog cn) w.
Proof. unfold write_name, name_prog. cbn [run1 foldl]. frames. Qed.
Lemma write_spki_eq k w : write_spki k w = run1 (spki_prog k) w.
Proof. unfold write_spki, spki_prog. cbn [run1 foldl]. frames. Qed.
Lemma write_sig_eq r s w : write_sig r s w = run1 (sig_prog r s) w.
Proof. unfold write_sig, sig_prog. cbn [run1 foldl]. frames. Qed.
Lemma write_cert_eq t sig w : write_cert (encode t) sig w = run1 (cert_prog t sig) w.
Proof. unfold write_cert, cert_prog. cbn [run1 foldl alg_prog]. frames. Qed.
Lemma write_tbs_eq req w : write_tbs req w = run1 (tbs_prog req) w.
Proof.
  unfold write_tbs, tbs_prog. cbn [run1 foldl alg_prog].
  unfold framed, der_w_oid, der_w_null, der_w_utctime. cbv beta.
  destruct (der_w_begin _ w) as [w1 f1]. destruct (der_w_begin _ w1) as [w2 f2].
  change (der_w_int_u32 2 w2) with (der_w_int_bytes [0; 0; 0; 2] w2).
  repeat match goal with |- context [der_w_begin ?t ?w] => destruct (der_w_begin t w); rewrite ?write_name_eq end.
  by rewrite write_spki_eq.
Qed.

(** An upper bound on the size of an encoding below 64 KiB. *)
Fixpoint bound (t : der) : Z :=
  match t with
  | Prim _ c => length c + 4
  | Cons _ l => foldr (λ t n, bound t + n) 0 l + 4
  end.

Lemma bound_pos t : 4 ≤ bound t.
Proof.
  revert t. fix IH 1. intros [tag c|tag l]; simpl; [lia|].
  assert (0 ≤ foldr (λ t n, bound t + n) 0 l); [|lia].
  induction l as [|t l IHl]; simpl; [lia|]. pose proof (IH t). lia.
Qed.

Lemma encode_bound t : bound t < 2 ^ 16 → length (encode t) ≤ bound t.
Proof.
  revert t. fix IH 1. intros [tag c|tag l] H; cbn [bound encode] in *; rewrite tlv_length.
  - destruct (enc_len_length (length c)) as [_ Hl]; lia.
  - assert (length (concat (map encode l)) ≤ foldr (λ t n, bound t + n) 0 l) as Hs.
    { induction l as [|t l IHl]; cbn [map concat foldr] in *; [done|]. rewrite length_app.
      pose proof (bound_pos t). assert (length (encode t) ≤ bound t) by (apply IH;
        assert (0 ≤ foldr (λ t n, bound t + n) 0 l) by (clear; induction l; simpl; [lia|pose proof (bound_pos a); lia]); lia).
      assert (length (concat (map encode l)) ≤ foldr (λ t n, bound t + n) 0 l) by (apply IHl; lia). lia. }
    destruct (enc_len_length (length (concat (map encode l)))) as [_ Hl]; lia.
Qed.

(** A request as [make_selfsigned] fills it in. *)
Record req_ok (req : x509_req) : Prop := {
  rq_subject : length (subject req) ≤ X509_CN_MAX;
  rq_serial : length (serial req) = 20%nat ∧ bytes (serial req);
  rq_serial_len : 1 ≤ serial_len req ≤ X509_SERIAL_MAX;
  rq_before : length (not_before req) = 13%nat;
  rq_after : length (not_after req) = 13%nat;
  rq_d : bytes32 (kd (key req));
  rq_pub : length (px (pub (key req))) = 32%nat ∧ length (py (pub (key req))) = 32%nat
}.

Lemma serial_bytes req : req_ok req →
  bytes (take (Z.to_nat (serial_len req)) (serial req)) ∧
  (length (der_int (take (Z.to_nat (serial_len req)) (serial req))) ≤ 21)%nat ∧
  (length (take (Z.to_nat (serial_len req)) (serial req)) ≤ 20)%nat.
Proof.
  intros [_ [Hl Hb] Hn _ _ _ _]. unfold X509_SERIAL_MAX in Hn.
  assert (bytes (take (Z.to_nat (serial_len req)) (serial req))) as Ht by by apply Forall_take.
  split; [done|]. pose proof (der_int_length _ Ht). rewrite length_take in *. lia.
Qed.

Lemma tbs_bound req : req_ok req → bound (tbs_der req) ≤ 413.
Proof.
  intros H. destruct (serial_bytes req H) as (_ & Hs & _). destruct H as [H1 _ _ H4 H5 _ [H7 H8]].
  unfold tbs_der, tbs_prog, name_prog, spki_prog, alg_prog, X509_CN_MAX in *. cbn [tree map bound foldr length].
  rewrite length_app, H4, H5, H7, H8. simpl. lia.
Qed.

Lemma tbs_prog_ok req : req_ok req → prog_ok (tbs_prog req).
Proof.
  intros H. destruct (serial_bytes req H) as (Hb & _ & Hl).
  unfold tbs_prog, name_prog, spki_prog, alg_prog. cbn [prog_ok foldr].
  repeat match goal with |- _ ∧ _ => split end; try done; try lia. by repeat constructor.
Qed.

Lemma sig_bound r s : bytes32 r → bytes32 s → bound (tree (sig_prog r s)) ≤ 78.
Proof.
  intros [Lr Hr] [Ls Hs]. pose proof (der_int_length r Hr). pose proof (der_int_length s Hs). simpl. lia.
Qed.

Lemma cert_bound req r s : req_ok req → bytes32 r → bytes32 s → bound (cert_der req r s) ≤ 520.
Proof.
  intros H Hr Hs. pose proof (tbs_bound req H). pose proof (sig_bound r s Hr Hs) as Hb.
  pose proof (encode_bound (tree (sig_prog r s)) ltac:(lia)).
  unfold cert_der, cert_prog, alg_prog. set (e := encode _) in *. clearbody e.
  cbn [tree map bound foldr length]. unfold OID_ECDSA_SHA256. cbn [length]. lia.
Qed.

(** Running a program on an empty buffer. *)
Lemma run_fresh p cap : prog_ok p → bound (tree p) < 2 ^ 16 → bound (tree p) ≤ cap < 2 ^ 64 →
  run1 p (der_w_init cap) = MkWriter (encode (tree p)) cap false.
Proof.
  intros Hp Hb Hc. pose proof (encode_bound _ Hb). rewrite (run1_emits p Hp) by (done || (unfold der_w_init, wlen; simpl; lia)).
  done.
Qed.

Lemma sign_bytes fuel junk c d h c' rb sb : curve_ok c → length junk = 64%nat → bytes32 d → bytes32 h →
  ecdsa_sign fuel junk c d h = Some (c', Some (rb, sb)) → bytes32 rb ∧ bytes32 sb.
Proof.
  intros Hc Hj Hd Hh. revert c Hc. induction fuel as [|fuel IH]; intros c Hc; [done|].
  rewrite sign_step by done. destruct (nonce d h); [|done].
  destruct (raw_sign _ _ _) as [[r s]|]; [|done]. destruct (_ || _); [apply IH; by right|].
  intros [= _ <- <-]. split; apply bytes32_be.
Qed.

Lemma generate_eq fuel junk c req cap :
  curve_ok c → length junk = 64%nat → req_ok req → 520 ≤ cap < 2 ^ 64 →
  x509_generate fuel junk c req cap =
  match ecdsa_sign fuel junk c (kd (key req)) (sha256_spec (encode (tbs_der req))) with
  | None => None
  | Some (c', None) => Some (c', None)
  | Some (c', Some (r, s)) => Some (c', Some (encode (cert_der req r s)))
  end.
Proof.
  intros Hc Hj Hr Hcap. unfold x509_generate. destruct (id Hr) as [_ _ Hsl _ _ Hd _].
  unfold X509_SERIAL_MAX in *. destruct (Z.eqb_spec (serial_len req) 0); [lia|].
  destruct (Z.ltb_spec 20 (serial_len req)); [lia|]. cbn [orb].
  pose proof (tbs_bound req Hr). rewrite write_tbs_eq, run_fresh by (fold (tbs_der req); apply tbs_prog_ok || lia; done).
  cbn [err out]. fold (tbs_der req). rewrite sha256_ok by done. cbn [mbind option_bind].
  assert (bytes32 (sha256_spec (encode (tbs_der req)))) as Hh by (split; [apply digest_length|apply digest_bytes]).
  destruct (ecdsa_sign _ _ _ _ _) as [[c' [[r s]|]]|] eqn:Es; [|done..].
  apply sign_bytes in Es as [Hrb Hsb]; [|done..]. cbn [mbind option_bind].
  pose proof (sig_bound r s Hrb Hsb). pose proof (cert_bound req r s Hr Hrb Hsb).
  rewrite write_sig_eq, run_fresh; [|destruct Hrb, Hsb; cbn; repeat split; done || lia|lia|lia].
  cbn [err out]. rewrite write_cert_eq, run_fresh; [done|cbn; repeat split; done || lia| |].
  - change (bound (cert_der req r s) < 2 ^ 16). lia.
  - change (bound (cert_der req r s) ≤ cap < 2 ^ 64). lia.
Qed.

(** Trees whose tags say what they are. *)
Fixpoint tags_ok (t : der) : Prop :=
  match t with
  | Prim tag _ => Z.testbit tag 5 = false
  | Cons tag l => Z.testbit tag 5 = true ∧ foldr (λ t P, tags_ok t ∧ P) True l
  end.

Lemma foldr_bound_pos l : 0 ≤ foldr (λ t n, bound t + n) 0 l.
Proof. induction l as [|t l IH]; simpl; [lia|]. pose proof (bound_pos t). lia. Qed.

Lemma bound_der_ok t : tags_ok t → bound t < 2 ^ 16 → der_ok t.
Proof.
  revert t. fix IH 1. intros [tag c|tag l] Ht Hb; cbn [tags_ok bound der_ok] in *; [split; [done|lia]|].
  destruct Ht as [Htag Hl]. split; [done|]. split.
  - pose proof (encode_bound (Cons tag l) Hb) as He. cbn [encode bound] in He. rewrite tlv_length in He. lia.
  - assert (foldr (λ t n, bound t + n) 0 l < 2 ^ 16) as Hs by lia. clear Hb. revert Hl Hs.
    induction l as [|t l IHl]; [done|]. cbn [foldr]. intros [H1 H2] Hs.
    pose proof (bound_pos t). pose proof (foldr_bound_pos l). split; [apply IH; [done|lia]|apply IHl; [done|lia]].
Qed.

Lemma cert_parses req r s : req_ok req → bytes32 r → bytes32 s →
  parse (length (encode (cert_der req r s))) (encode (cert_der req r s)) = Some [cert_der req r s].
Proof.
  intros H Hr Hs. pose proof (cert_bound req r s H Hr Hs).
  rewrite <- (app_nil_r (encode (cert_der req r s))). change (encode (cert_der req r s) ++ []) with (concat (map encode [cert_der req r s])).
  apply parse_encode; [|done]. split; [|done]. apply bound_der_ok; [|lia].
  unfold cert_der. set (e := encode _). cbn. tauto.
Qed.

(** C20: certificate generation.  For a request as [make_selfsigned] builds it and
    an output buffer of 520 bytes or more, [x509_generate] fails or does not
    return exactly when [ecdsa_sign] does on the SHA-256 digest of the DER
    encoding of the TBSCertificate; otherwise it stays within the buffer and
    what it writes parses as DER to the certificate: the TBSCertificate with the
    requested serial number, names, validity and public key, the algorithm, and
    the DER encoding of the signature in a BIT STRING. *)
Theorem x509_generate_correct fuel junk c req cap :
  curve_ok c → length junk = 64%nat → req_ok req → 520 ≤ cap < 2 ^ 64 →
  let sign := ecdsa_sign fuel junk c (kd (key req)) (sha256_spec (encode (tbs_der req))) in
  match x509_generate fuel junk c req cap with
  | Some (c', Some cert) =>
      length cert ≤ cap ∧
      ∃ r s, sign = Some (c', Some (r, s)) ∧ parse (length cert) cert = Some [cert_der req r s]
  | Some (c', None) => sign = Some (c', None)
  | None => sign = None
  end.
Proof.
  intros Hc Hj Hr Hcap. cbn zeta. rewrite generate_eq by done.
  assert (bytes32 (sha256_spec (encode (tbs_der req)))) as Hh by (split; [apply digest_length|apply digest_bytes]).
  destruct (ecdsa_sign _ _ _ _ _) as [[c' [[r s]|]]|] eqn:Es; [|done..].
  apply sign_bytes in Es as [Hrb Hsb]; [|done|done|apply Hr|done].
  pose proof (cert_bound req r s Hr Hrb Hsb). pose proof (encode_bound (cert_der req r s) ltac:(lia)).
  split; [lia|]. exists r, s. split; [done|]. by apply cert_parses.
Qed.

Definition req0 : x509_req :=
  MkReq [65; 66] (replicate 20 1) 20 (replicate 13 48) (replicate 13 49)
    (MkKey (replicate 32 7) (MkPoint (replicate 32 8) (replicate 32 9))).

Lemma req0_ok : req_ok req0.
Proof.
  split; [vm_compute; discriminate|split; [reflexivity|by apply Forall_replicate]|split; vm_compute; discriminate
    |reflexivity|reflexivity|split; [reflexivity|by apply Forall_replicate]|split; reflexivity].
Qed.

Lemma x509_generate_correct_witness :
  let sign := ecdsa_sign 1 (replicate 64 0) curve0 (kd (key req0)) (sha256_spec (encode (tbs_der req0))) in
  match x509_generate 1 (replicate 64 0) curve0 req0 2048 with
  | Some (c', Some cert) =>
      length cert ≤ 2048 ∧
      ∃ r s, sign = Some (c', Some (r, s)) ∧ parse (length cert) cert = Some [cert_der req0 r s]
  | Some (c', None) => sign = Some (c', None)
  | None => sign = None
  end.
Proof.
  apply (x509_generate_correct 1 (replicate 64 0) curve0 req0 2048);
    [left; reflexivity|reflexivity|apply req0_ok|lia].
Defined.

#[local] Transparent der_w_begin der_w_end der_w_bytes.

(** [der_w_end] does not check the capacity.  Closing a frame whose content
    just fits a buffer of 130 bytes writes 131 bytes without reporting an error,
    and from then on [cap - len] wraps around, so that [der_w_bytes] accepts any
    amount of data. *)
Theorem der_w_end_overruns :
  let w := framed DER_TAG_SEQUENCE (der_w_bytes (replicate 128 7)) (der_w_init 130) in
  err w = false ∧ cap w = 130 ∧ wlen w = 131 ∧
  ∀ data, length data < 2 ^ 63 → der_w_bytes data w = put w data.
Proof.
  cbn zeta. set (w := framed _ _ _). assert (wlen w = 131 ∧ cap w = 130 ∧ err w = false) as (H1 & H2 & H3) by done.
  split; [done|]. split; [done|]. split; [done|]. intros data Hd. unfold der_w_bytes. rewrite H1, H2, H3.
  change (130 -u 131) with (2 ^ 64 - 1). by destruct (Z.ltb_spec (2 ^ 64 - 1) (length data)); [lia|].
Qed.
