(* ===== verification/X509Pem.v ===== *)
(** PEM ([x509_der_to_pem] of [crypto/x509.c]): the size it announces is the size
    it writes, and the text decodes to the certificate. *)
From S2P Require Import Prelude Sha256 EccApi X509.
Import Sha256 X509.

(** * Reading base64 *)

Definition unb64 (c : Z) : Z :=
  match list_find (λ x, x = c) b64 with Some (i, _) => i | None => 0 end.

Fixpoint unquads (l : list Z) : list Z :=
  match l with
  | a :: b :: c :: d :: l =>
      let v := unb64 a * 2 ^ 18 + unb64 b * 2 ^ 12 + (if c =? 61 then 0 else unb64 c) * 2 ^ 6 +
               (if d =? 61 then 0 else unb64 d) in
      v / 2 ^ 16 :: (if c =? 61 then [] else [(v / 2 ^ 8) `mod` 2 ^ 8]) ++
      (if d =? 61 then [] else [v `mod` 2 ^ 8]) ++ unquads l
  | _ => []
  end.

(** The text between header and footer, line ends dropped. *)
Definition unpem (text : list Z) : list Z :=
  unquads (filter (λ c, c ≠ 10) (take (length text - length hdr - length ftr - 1) (drop (length hdr) text))).

Lemma b64_table i : 0 ≤ i < 64 →
  let c := at_ b64 (Z.to_nat i) in unb64 c = i ∧ c ≠ 61 ∧ c ≠ 10.
Proof.
  intros Hi.
  assert (forallb (λ i : nat, let c := at_ b64 i in (unb64 c =? i) && negb (c =? 61) && negb (c =? 10)) (seq 0 64) = true)
    as H by by vm_compute.
  rewrite forallb_forall in H. specialize (H (Z.to_nat i)). rewrite in_seq, Z2Nat.id in H by lia.
  specialize (H ltac:(lia)). cbn zeta in *. rewrite !andb_true_iff, !negb_true_iff, Z.eqb_eq, !Z.eqb_neq in H. tauto.
Qed.

Lemma sextet_val v k : 0 ≤ v → 0 ≤ k → let c := at_ b64 (Z.to_nat (Z.land (Z.shiftr v k) 63)) in
  unb64 c = (v / 2 ^ k) `mod` 2 ^ 6 ∧ (c =? 61) = false ∧ c ≠ 10.
Proof.
  intros Hv Hk. change 63 with (Z.ones 6). rewrite Z.land_ones, Z.shiftr_div_pow2 by lia.
  pose proof (Z.mod_pos_bound (v / 2 ^ k) (2 ^ 6) ltac:(lia)) as Hm.
  destruct (b64_table _ Hm) as (H1 & H2 & H3). cbn zeta. split; [done|]. split; [by apply Z.eqb_neq|done].
Qed.

Lemma recombine v : 0 ≤ v < 2 ^ 24 →
  (v / 2 ^ 18) `mod` 2 ^ 6 * 2 ^ 18 + (v / 2 ^ 12) `mod` 2 ^ 6 * 2 ^ 12 + (v / 2 ^ 6) `mod` 2 ^ 6 * 2 ^ 6 +
  (v / 2 ^ 0) `mod` 2 ^ 6 = v.
Proof. intros Hv. change (2 ^ 0) with 1. Z.to_euclidean_division_equations. lia. Qed.

(** The bytes of a 24-bit group. *)
Lemma group_bytes x y z (v := x * 2 ^ 16 + y * 2 ^ 8 + z) : is_u8 x → is_u8 y → is_u8 z →
  0 ≤ v < 2 ^ 24 ∧ v / 2 ^ 16 = x ∧ (v / 2 ^ 8) `mod` 2 ^ 8 = y ∧ v `mod` 2 ^ 8 = z.
Proof. intros Hx Hy Hz. unfold v. Z.to_euclidean_division_equations. lia. Qed.

Lemma group_pad x y : is_u8 x → is_u8 y →
  ((x * 2 ^ 16 + y * 2 ^ 8) / 2 ^ 0) `mod` 2 ^ 6 = 0 ∧ ((x * 2 ^ 16) / 2 ^ 6) `mod` 2 ^ 6 = 0.
Proof. intros Hx Hy. change (2 ^ 0) with 1. Z.to_euclidean_division_equations. lia. Qed.

Lemma lor3 x y z : is_u8 x → is_u8 y → is_u8 z →
  Z.lor (Z.lor (Z.shiftl x 16) (Z.shiftl y 8)) z = x * 2 ^ 16 + y * 2 ^ 8 + z.
Proof.
  intros Hx Hy Hz. rewrite (Z.shiftl_mul_pow2 y), lor_low by lia.
  replace (x * 2 ^ 16 + y * 2 ^ 8) with (Z.shiftl (x * 2 ^ 8 + y) 8) by (rewrite Z.shiftl_mul_pow2; lia).
  rewrite lor_low, Z.shiftl_mul_pow2 by lia. lia.
Qed.

(** The four characters for a group, [two] or [three] telling what is there. *)
Lemma unquads_chars (v : Z) (two three : bool) rest : 0 ≤ v < 2 ^ 24 →
  (two = false → (v / 2 ^ 6) `mod` 2 ^ 6 = 0) → (three = false → (v / 2 ^ 0) `mod` 2 ^ 6 = 0) →
  let c k := at_ b64 (Z.to_nat (Z.land (Z.shiftr v k) 63)) in
  let q := [c 18; c 12; if two then c 6 else 61; if three then c 0 else 61] in
  unquads (q ++ rest) =
    v / 2 ^ 16 :: (if two then [(v / 2 ^ 8) `mod` 2 ^ 8] else []) ++ (if three then [v `mod` 2 ^ 8] else []) ++ unquads rest ∧
  Forall (λ c, c ≠ 10) q.
Proof.
  intros Hv H2 H3. pose proof (recombine v Hv) as HR.
  destruct (sextet_val v 18) as (A1 & A2 & A3); [lia..|]. destruct (sextet_val v 12) as (B1 & B2 & B3); [lia..|].
  destruct (sextet_val v 6) as (C1 & C2 & C3); [lia..|]. destruct (sextet_val v 0) as (D1 & D2 & D3); [lia..|].
  cbn zeta in *. split.
  - cbn [app unquads]. rewrite A1, B1.
    destruct two; [|specialize (H2 eq_refl)]; (destruct three; [|specialize (H3 eq_refl)]);
      rewrite ?C1, ?C2, ?D1, ?D2; change (61 =? 61) with true; cbn iota;
      match goal with |- ?s / 2 ^ 16 :: _ = _ => replace s with v by lia end; reflexivity.
  - rewrite !Forall_cons. destruct two, three; done.
Qed.

(** Three bytes, the missing ones zero. *)
Lemma unquads_quad der rest : bytes der → der ≠ [] → length der < 2 ^ 32 →
  unquads (quad der ++ rest) = take 3 der ++ unquads rest ∧ Forall (λ c, c ≠ 10) (quad der).
Proof.
  intros Hb Hne Hl. unfold quad. rewrite u32_small by lia. cbn zeta.
  destruct der as [|x [|y [|z der]]]; [done|..]; rewrite ?Forall_cons in Hb; cbn beta in Hb.
  - destruct Hb as [Hx _]. change (at_ [x] 0) with x. simpl length.
    change (1 <? Z.of_nat 1) with false. change (2 <? Z.of_nat 1) with false. cbn iota.
    rewrite Z.shiftl_mul_pow2 by lia. destruct (group_bytes x 0 0) as (G1 & G2 & _); [lia..|].
    destruct (group_pad x 0) as [P1 P2]; [lia..|]. rewrite Z.mul_0_l, !Z.add_0_r in *.
    destruct (unquads_chars (x * 2 ^ 16) false false rest) as [U1 U2]; [lia|done|done|].
    split; [|exact U2]. etransitivity; [exact U1|]. rewrite G2. reflexivity.
  - destruct Hb as (Hx & Hy & _). change (at_ [x; y] 0) with x. change (at_ [x; y] 1) with y. simpl length.
    change (1 <? Z.of_nat 2) with true. change (2 <? Z.of_nat 2) with false. cbn iota.
    rewrite <- (Z.lor_0_r (Z.lor _ _)), lor3 by lia. destruct (group_bytes x y 0) as (G1 & G2 & G3 & _); [lia..|].
    destruct (group_pad x y) as [P1 P2]; [lia..|]. rewrite !Z.add_0_r in *.
    destruct (unquads_chars (x * 2 ^ 16 + y * 2 ^ 8) true false rest) as [U1 U2]; [lia|done|done|].
    split; [|exact U2]. etransitivity; [exact U1|]. rewrite G2, G3. reflexivity.
  - destruct Hb as (Hx & Hy & Hz & _). change (at_ (x :: y :: z :: der) 0) with x.
    change (at_ (x :: y :: z :: der) 1) with y. change (at_ (x :: y :: z :: der) 2) with z.
    destruct (Z.ltb_spec 1 (length (x :: y :: z :: der))); [|simpl in *; lia].
    destruct (Z.ltb_spec 2 (length (x :: y :: z :: der))); [|simpl in *; lia].
    rewrite lor3 by lia. destruct (group_bytes x y z) as (G1 & G2 & G3 & G4); [lia..|].
    destruct (unquads_chars (x * 2 ^ 16 + y * 2 ^ 8 + z) true true rest) as [U1 U2]; [lia|done|done|].
    split; [|exact U2]. etransitivity; [exact U1|]. rewrite G2, G3, G4. reflexivity.
Qed.

(** * The loop *)

(** Number of turns left. *)
Definition turns (der : list Z) : Z := (length der + 2) / 3.

Lemma turns_drop der : der ≠ [] → turns der = turns (drop 3 der) + 1.
Proof.
  intros Hne. unfold turns. rewrite length_drop. assert (0 < length der) by (destruct der; [done|simpl; lia]).
  destruct (decide (3 ≤ length der)).
  - replace (length der + 2) with (Z.of_nat (length der - 3) + 2 + 1 * 3) by lia. rewrite Z.div_add by lia. lia.
  - replace (length der - 3)%nat with 0%nat by lia. change ((Z.of_nat 0 + 2) / 3) with 0.
    symmetry. apply (Z.div_unique_pos _ _ _ (length der - 1)); lia.
Qed.

Lemma filter_all {A} (P : A → Prop) `{!∀ x, Decision (P x)} l : Forall P l → filter P l = l.
Proof. induction 1 as [|x l Hx _ IH]; [done|]. by rewrite filter_cons_True, IH. Qed.

Lemma quad_length der : length (quad der) = 4%nat.
Proof. reflexivity. Qed.

Lemma pem_loop_ok fuel der col out : (length der ≤ fuel)%nat → bytes der → length der < 2 ^ 32 →
  0 ≤ col < 64 → col `mod` 4 = 0 →
  ∃ body col', pem_loop fuel der col out = Some (out ++ body, col') ∧
    unquads (filter (λ c, c ≠ 10) body) = der ∧
    Z.of_nat (length body) = 4 * turns der + (col + 4 * turns der) / 64 ∧ col' = (col + 4 * turns der) `mod` 64.
Proof.
  revert der col out. induction fuel as [|fuel IH]; intros der col out Hf Hb Hl Hc Hc4.
  { destruct der; [|simpl in Hf; lia]. exists [], col. change (turns []) with 0. rewrite app_nil_r.
    split; [done|]. split; [done|]. rewrite Z.mul_0_r, Z.add_0_r, Z.div_small, Z.mod_small by lia. done. }
  destruct (decide (der = [])) as [->|Hne].
  { exists [], col. change (turns []) with 0. rewrite app_nil_r.
    split; [done|]. split; [done|]. rewrite Z.mul_0_r, Z.add_0_r, Z.div_small, Z.mod_small by lia. done. }
  assert (0 < length der) by (destruct der; [done|simpl; lia]).
  assert (bytes (drop 3 der)) as Hb' by by apply Forall_drop.
  assert (length (drop 3 der) < 2 ^ 32 ∧ (length (drop 3 der) ≤ fuel)%nat) as [Hl' Hf'] by (rewrite length_drop; lia).
  assert (pem_loop (S fuel) der col out = if 64 <=? col + 4 then pem_loop fuel (drop 3 der) 0 ((out ++ quad der) ++ [10])
    else pem_loop fuel (drop 3 der) (col + 4) (out ++ quad der)) as -> by (destruct der; done).
  rewrite (turns_drop der Hne). set (t := turns (drop 3 der)).
  assert (col `mod` 4 = 0) as Hm by done. apply Z.mod_divide in Hm as [m Hm]; [|done].
  destruct (Z.leb_spec 64 (col + 4)) as [Hw|Hw].
  - destruct (IH (drop 3 der) 0 ((out ++ quad der) ++ [10])) as (body & col' & E & U & L & C); [done..|lia|done|].
    exists (quad der ++ [10] ++ body), col'. rewrite E, <- !app_assoc. fold t in L, C.
    split; [done|]. destruct (unquads_quad der (filter (λ c, c ≠ 10) body) Hb Hne Hl) as [Q1 Q2].
    split; [rewrite !filter_app, filter_all by done; simpl app at 2; rewrite Q1, U; apply take_drop|].
    rewrite !length_app, quad_length. simpl length.
    assert (col = 60) as -> by lia. replace (60 + 4 * (t + 1)) with (4 * t + 1 * 64) by lia.
    rewrite Z.div_add, Z.mod_add by lia. rewrite Z.add_0_l in L, C. split; [lia|done].
  - destruct (IH (drop 3 der) (col + 4) (out ++ quad der)) as (body & col' & E & U & L & C); [done..|lia| |].
    { rewrite Hm. replace (m * 4 + 4) with ((m + 1) * 4) by lia. apply Z.mod_mul. lia. }
    exists (quad der ++ body), col'. rewrite E, <- !app_assoc. fold t in L, C.
    split; [done|]. destruct (unquads_quad der (filter (λ c, c ≠ 10) body) Hb Hne Hl) as [Q1 Q2].
    split; [rewrite filter_app, filter_all by done; rewrite Q1, U; apply take_drop|].
    rewrite length_app, quad_length. replace (col + 4 * (t + 1)) with (col + 4 + 4 * t) by lia. split; [lia|done].
Qed.

(** PEM.  For a certificate of one byte up to 4 GiB, [x509_der_to_pem] refuses a
    buffer shorter than the size it computes; otherwise it returns a text that
    with its terminator has exactly that size, so the buffer is not overrun, has
    the BEGIN and END lines around it, and decodes (line ends dropped, four
    characters for three bytes) to the certificate. *)
Theorem x509_der_to_pem_roundtrip der cap :
  bytes der → 0 < length der < 2 ^ 32 →
  let need := length hdr + 4 * turns der + (4 * turns der + 63) / 64 + length ftr in
    match x509_der_to_pem (Some der) true cap with
    | Some (Some text) =>
        need + 1 ≤ cap ∧ Z.of_nat (length text) = need + 1 ∧
        (∃ body, text = hdr ++ body ++ ftr ++ [0]) ∧ unpem text = der
    | Some None => cap < need + 1
    | None => False
    end.
Proof.
  intros Hb Hl. cbn zeta. set (t := turns der).
  assert (0 ≤ t ≤ 2 ^ 32) as Ht by (unfold t, turns; Z.to_euclidean_division_equations; lia).
  unfold x509_der_to_pem. cbn [negb orb]. destruct (Nat.eqb_spec (length der) 0); [lia|].
  rewrite (u64_small (length der + 2)) by lia. fold (turns der). fold t. rewrite (Z.mul_comm t 4).
  assert (0 ≤ (4 * t + 63) / 64 ≤ 2 ^ 32) by (Z.to_euclidean_division_equations; lia).
  change (Z.of_nat (length hdr)) with 28 in *. change (Z.of_nat (length ftr)) with 26 in *.
  rewrite (u64_small (4 * t)), (u64_small (4 * t + 63)), (u64_small (28 + 4 * t)),
    (u64_small (28 + 4 * t + _)), (u64_small (28 + 4 * t + _ + 26)), (u64_small (_ + 26 + 1)) by lia.
  set (need := 28 + 4 * t + (4 * t + 63) / 64 + 26) in *.
  destruct (Z.ltb_spec cap (need + 1)); [done|].
  destruct (pem_loop_ok (length der) der 0 hdr) as (body & col & E & U & L & C); [done|done|lia|lia|done|].
  rewrite E. cbn [mbind option_bind]. rewrite Z.add_0_l in L, C. fold t in L, C.
  set (body' := if nz col then body ++ [10] else body).
  assert ((if nz col then hdr ++ body ++ [10] else hdr ++ body) = hdr ++ body') as Eb by (unfold body'; by destruct (nz col)).
  assert (filter (λ c, c ≠ 10) body' = filter (λ c, c ≠ 10) body) as Ef
    by (unfold body'; destruct (nz col); [|done]; by rewrite filter_app, app_nil_r).
  assert (Z.of_nat (length body') = 4 * t + (4 * t + 63) / 64) as Lb.
  { unfold body'. destruct (nz_spec col); rewrite ?length_app; simpl length;
      Z.to_euclidean_division_equations; lia. }
  replace (if nz col then (hdr ++ body) ++ [10] else hdr ++ body) with (hdr ++ body') by (rewrite <- Eb; by destruct (nz col); rewrite <- ?app_assoc).
  rewrite <- app_assoc. clearbody body'. split; [done|]. split.
  { rewrite !length_app. change (length hdr) with 28%nat. change (length ftr) with 26%nat. simpl length. lia. }
  split; [by exists body'|]. unfold unpem. rewrite <- U, <- Ef. do 2 f_equal.
  rewrite drop_app_length, !length_app. change (length [0]) with 1%nat.
  replace (length hdr + (length body' + (length ftr + 1)) - length hdr - length ftr - 1)%nat with (length body') by lia.
  apply take_app_length.
Qed.

Lemma x509_der_to_pem_roundtrip_witness :
  let need := length hdr + 4 * turns [0x30; 0x03; 0x02; 0x01] +
    (4 * turns [0x30; 0x03; 0x02; 0x01] + 63) / 64 + length ftr in
    match x509_der_to_pem (Some [0x30; 0x03; 0x02; 0x01]) true 100 with
    | Some (Some text) =>
        need + 1 ≤ 100 ∧ Z.of_nat (length text) = need + 1 ∧
        (∃ body, text = hdr ++ body ++ ftr ++ [0]) ∧ unpem text = [0x30; 0x03; 0x02; 0x01]
    | Some None => 100 < need + 1
    | None => False
    end.
Proof.
  apply (x509_der_to_pem_roundtrip [0x30; 0x03; 0x02; 0x01] 100); [repeat constructor; lia|simpl; lia].
Defined.
