(* ===== verification/Keyring.v ===== *)
(** Keyrings ([core/keyring.c]).

    The table of 64 slots and the file's static variables are the record [kr].
    Payloads and certificates are blocks of a store [arena] reached by pointers, so
    that sharing and stale pointers show: [kmalloc] answers with the next pointer
    of [oracle] (0, or one that is in use, counts as failure), [kfree] removes the
    block, and every access through a pointer is a [load] or a [store].  [faults]
    counts the accesses that are not wholly inside a live block, and the calls of
    [kfree] on a pointer that is neither null nor a live block.  A C string is the
    list of its characters before the terminator.
    [g_kr_lock] makes what runs under it one step; where an entry point runs without
    the lock between two such steps, what other CPUs do meanwhile is an argument
    ([other], [other']).  A call that never returns (the generation of a certificate
    may not) has no result, and the state is the one it stays in for ever; [stuck]
    lists the buffers such calls keep. *)
From S2P Require Import Prelude Sha256 Ecc Printf X509.
Import Sha256 Ecc Printf X509.

Module Keyring.

Definition KEYRING_MAX : nat := 64.
Definition KEY_DESC_MAX : nat := 64.
Definition KEY_SUBJ_MAX : nat := 65.
Definition KEY_TYPE_KEYRING : Z := 1.
Definition KEY_TYPE_ASYMMETRIC : Z := 2.
Definition KEY_TYPE_USER : Z := 3.

Record slot := MkSlot {
  used : bool; serial : Z; type : Z; uid : Z; gid : Z; perms : Z;
  description : list Z; subject : list Z;
  payload : Z; payload_len : Z; cert : Z; cert_len : Z; generated : bool
}.
Definition slot0 : slot := MkSlot false 0 0 0 0 0 [] [] 0 0 0 0 false.

Record kr := MkKr {
  keys : list slot; next_serial : Z; session_serial : Z; builtin_serial : Z; secondary_serial : Z;
  system_der : Z; system_der_len : Z; system_certs_loaded : bool; kr_inited : bool;
  arena : gmap Z (list Z); oracle : list Z; faults : nat; stuck : list Z
}.
Definition kr0 (o : list Z) : kr := MkKr (replicate KEYRING_MAX slot0) 1 0 0 0 0 0 false false ∅ o 0 [].

Definition set_keys (s : kr) (k : list slot) : kr :=
  MkKr k (next_serial s) (session_serial s) (builtin_serial s) (secondary_serial s) (system_der s)
    (system_der_len s) (system_certs_loaded s) (kr_inited s) (arena s) (oracle s) (faults s) (stuck s).
Definition set_next (s : kr) (n : Z) : kr :=
  MkKr (keys s) n (session_serial s) (builtin_serial s) (secondary_serial s) (system_der s)
    (system_der_len s) (system_certs_loaded s) (kr_inited s) (arena s) (oracle s) (faults s) (stuck s).
Definition set_rings (s : kr) (a b c : Z) : kr :=
  MkKr (keys s) (next_serial s) a b c (system_der s) (system_der_len s) (system_certs_loaded s) (kr_inited s)
    (arena s) (oracle s) (faults s) (stuck s).
Definition set_system (s : kr) (p n : Z) : kr :=
  MkKr (keys s) (next_serial s) (session_serial s) (builtin_serial s) (secondary_serial s) p n true (kr_inited s)
    (arena s) (oracle s) (faults s) (stuck s).
Definition set_inited (s : kr) : kr :=
  MkKr (keys s) (next_serial s) (session_serial s) (builtin_serial s) (secondary_serial s) (system_der s)
    (system_der_len s) (system_certs_loaded s) true (arena s) (oracle s) (faults s) (stuck s).
Definition set_heap (s : kr) (a : gmap Z (list Z)) (o : list Z) : kr :=
  MkKr (keys s) (next_serial s) (session_serial s) (builtin_serial s) (secondary_serial s) (system_der s)
    (system_der_len s) (system_certs_loaded s) (kr_inited s) a o (faults s) (stuck s).

(** * The heap *)

(** A new block; its bytes are all written before they are read. *)
Definition kmalloc (s : kr) (n : nat) : kr * Z :=
  match oracle s with
  | [] => (s, 0)
  | p :: o =>
      if (p =? 0) || bool_decide (is_Some (arena s !! p)) then (set_heap s (arena s) o, 0)
      else (set_heap s (<[p := replicate n 0]> (arena s)) o, p)
  end.
Definition fault (s : kr) : kr :=
  MkKr (keys s) (next_serial s) (session_serial s) (builtin_serial s) (secondary_serial s) (system_der s)
    (system_der_len s) (system_certs_loaded s) (kr_inited s) (arena s) (oracle s) (S (faults s)) (stuck s).
Definition kfree (s : kr) (p : Z) : kr :=
  if p =? 0 then s
  else if bool_decide (is_Some (arena s !! p)) then set_heap s (delete p (arena s)) (oracle s)
  else fault s.
Definition block (s : kr) (p : Z) : list Z := default [] (arena s !! p).

(** Are the [n] bytes from [p + off] on inside a live block? *)
Definition inside (s : kr) (p : Z) (off n : nat) : bool :=
  match arena s !! p with Some b => bool_decide (off + n ≤ length b)%nat | None => false end.
Definition load (s : kr) (p : Z) (off n : nat) : kr * list Z :=
  (if inside s p off n then s else fault s, take n (drop off (block s p))).
Definition store (s : kr) (p : Z) (off : nat) (bytes : list Z) : kr :=
  if inside s p off (length bytes) then
    set_heap s (<[p := take off (block s p) ++ bytes ++ drop (off + length bytes) (block s p)]> (arena s)) (oracle s)
  else fault s.

(** [p = kmalloc (n); if (p) memcpy (p, bytes, n);] *)
Definition kmalloc_copy (s : kr) (bytes : list Z) : kr * Z :=
  let '(s, p) := kmalloc s (length bytes) in
  (if p =? 0 then s else store s p 0 bytes, p).

(** The running call does not return, and keeps [p]. *)
Definition hang (s : kr) (p : Z) : kr :=
  MkKr (keys s) (next_serial s) (session_serial s) (builtin_serial s) (secondary_serial s) (system_der s)
    (system_der_len s) (system_certs_loaded s) (kr_inited s) (arena s) (oracle s) (faults s) (p :: stuck s).

(** The string in a character array. *)
Fixpoint cstr (l : list Z) : list Z :=
  match l with
  | x :: l => if x =? 0 then [] else x :: cstr l
  | [] => []
  end.

(** [pl[j]] for a [uint32_t *pl], little-endian. *)
Definition le32 (x : Z) : list Z := [u8 x; u8 (Z.shiftr x 8); u8 (Z.shiftr x 16); u8 (Z.shiftr x 24)].
Fixpoint le_word (l : list Z) : Z := match l with [] => 0 | a :: l => a + 2 ^ 8 * le_word l end.
Definition load32 (s : kr) (p : Z) (j : nat) : kr * Z :=
  let '(s, b) := load s p (4 * j) 4 in (s, le_word b).
Definition store32 (s : kr) (p : Z) (j : nat) (x : Z) : kr := store s p (4 * j) (le32 x).

(** [for (; todo > 0; j++, todo--) if (pl[j] == n) ...]: is [n] among them? *)
Fixpoint linked_loop (s : kr) (pl n : Z) (j todo : nat) : kr * bool :=
  match todo with
  | O => (s, false)
  | S todo =>
      let '(s, x) := load32 s pl j in
      if x =? n then (s, true) else linked_loop s pl n (S j) todo
  end.

(** * The table *)

(** The first used slot with this serial number, from slot [i] on. *)
Fixpoint find_serial (l : list slot) (i : nat) (n : Z) : option nat :=
  match l with
  | [] => None
  | k :: l => if used k && (serial k =? n) then Some i else find_serial l (S i) n
  end.
Definition slot_by_serial (s : kr) (n : Z) : option nat := find_serial (keys s) 0 n.

Fixpoint find_free (l : list slot) (i : nat) : option nat :=
  match l with
  | [] => None
  | k :: l => if used k then find_free l (S i) else Some i
  end.
Definition slot_alloc (s : kr) : kr * option nat :=
  match find_free (keys s) 0 with
  | None => (s, None)
  | Some i =>
      let k := MkSlot true (next_serial s) 0 0 0 0 [] [] 0 0 0 0 false in
      (set_next (set_keys s (<[i := k]> (keys s))) (u32 (next_serial s + 1)), Some i)
  end.

Definition slot_at (s : kr) (i : nat) : slot := default slot0 (keys s !! i).
Definition put_slot (s : kr) (i : nat) (k : slot) : kr := set_keys s (<[i := k]> (keys s)).

Definition ring_resolve (s : kr) (ring_id : Z) : Z :=
  if 0 <=? ring_id then (if slot_by_serial s (u32 ring_id) is Some _ then ring_id else -1)
  else s32 (session_serial s).

Definition set_payload (k : slot) (p n : Z) : slot :=
  MkSlot (used k) (serial k) (type k) (uid k) (gid k) (perms k) (description k) (subject k) p n (cert k)
    (cert_len k) (generated k).
Definition set_cert (k : slot) (p n : Z) (g : bool) : slot :=
  MkSlot (used k) (serial k) (type k) (uid k) (gid k) (perms k) (description k) (subject k) (payload k)
    (payload_len k) p n g.
Definition set_subject (k : slot) (subj : list Z) : slot :=
  MkSlot (used k) (serial k) (type k) (uid k) (gid k) (perms k) (description k) subj (payload k) (payload_len k)
    (cert k) (cert_len k) (generated k).
Definition set_perms (k : slot) (p : Z) : slot :=
  MkSlot (used k) (serial k) (type k) (uid k) (gid k) p (description k) (subject k) (payload k) (payload_len k)
    (cert k) (cert_len k) (generated k).
(** Type, names, owner and permissions of a slot just allocated. *)
Definition set_names (k : slot) (t : Z) (desc subj : list Z) (p : Z) : slot :=
  MkSlot (used k) (serial k) t 0 0 p desc subj (payload k) (payload_len k) (cert k) (cert_len k) (generated k).

Definition ring_link_locked (s : kr) (ring : option nat) (n : Z) : kr * Z :=
  match ring with
  | None => (s, -1)
  | Some i =>
      let r := slot_at s i in
      if negb (type r =? KEY_TYPE_KEYRING) then (s, -1)
      else
        let pl := payload r in
        let cnt := Z.to_nat (payload_len r / 4) in
        let '(s, found) := linked_loop s pl n 0 cnt in
        if found : bool then (s, 0)
        else if (64 <=? cnt)%nat then (s, -1)
        else
          let '(s, np) := kmalloc s ((cnt + 1) * 4) in
          if np =? 0 then (s, -1)
          else
            let s := if (cnt =? 0)%nat then s else let '(s, old) := load s pl 0 (cnt * 4) in store s np 0 old in
            let s := store32 s np cnt n in
            let s := kfree s pl in
            (put_slot s i (set_payload r np ((cnt + 1) * 4)), 0)
  end.

Definition alloc_named_keyring (s : kr) (name : list Z) : kr * option nat :=
  let '(s, i) := slot_alloc s in
  match i with
  | None => (s, None)
  | Some i =>
      let k := set_names (slot_at s i) KEY_TYPE_KEYRING (take (KEY_DESC_MAX - 1) name)
                 (take (KEY_SUBJ_MAX - 1) name) 0x3f3f0000 in
      (put_slot s i k, Some i)
  end.

(** "session", ".builtin_trusted_keys", ".secondary_trusted_keys",
    "AxonOS System CA" *)
Definition s_session : list Z := [115; 101; 115; 115; 105; 111; 110].
Definition s_builtin : list Z :=
  [46; 98; 117; 105; 108; 116; 105; 110; 95; 116; 114; 117; 115; 116; 101; 100; 95; 107; 101; 121; 115].
Definition s_secondary : list Z :=
  [46; 115; 101; 99; 111; 110; 100; 97; 114; 121; 95; 116; 114; 117; 115; 116; 101; 100; 95; 107; 101; 121; 115].
Definition s_system_ca : list Z := [65; 120; 111; 110; 79; 83; 32; 83; 121; 115; 116; 101; 109; 32; 67; 65].

Definition serial_or (s : kr) (i : option nat) (d : Z) : Z :=
  match i with Some i => serial (slot_at s i) | None => d end.

Definition keyring_init (s : kr) : kr * Z :=
  if kr_inited s then (s, 0)
  else
    let '(s, session) := alloc_named_keyring s s_session in
    let '(s, builtin) := alloc_named_keyring s s_builtin in
    let '(s, secondary) := alloc_named_keyring s s_secondary in
    let s := set_rings s (serial_or s session (session_serial s)) (serial_or s builtin (builtin_serial s))
               (serial_or s secondary (secondary_serial s)) in
    let s := match builtin, secondary with
             | Some b, Some _ => fst (ring_link_locked s secondary (serial (slot_at s b)))
             | _, _ => s
             end in
    let s := set_inited s in
    (s, if nz (session_serial s) then 0 else -1).

Definition keyring_load_system_certs (s : kr) : kr * Z := keyring_init s.

Definition keyring_install_system_ca (other : kr → kr) (s : kr) (pem : option (list Z)) : kr * Z :=
  let '(s, e) := keyring_init s in
  if negb (e =? 0) then (s, -1)
  else
    match pem with
    | None | Some [] => (s, 0)
    | Some pem =>
        if system_certs_loaded s && nz (system_der s) && nz (system_der_len s) then (s, 0)
        else
          let '(s, copy) := kmalloc_copy s pem in
          if copy =? 0 then (s, -12)
          else
            let s := other s in
            if system_certs_loaded s then (kfree s copy, 0)
            else
            let '(s, i) := slot_alloc s in
            match i with
            | None => (kfree s copy, -28)
            | Some i =>
                let k := set_names (slot_at s i) KEY_TYPE_USER s_system_ca s_system_ca 0x3f3f0000 in
                let s := put_slot s i (set_payload k copy (length pem)) in
                let s := match slot_by_serial s (builtin_serial s) with
                         | Some b => fst (ring_link_locked s (Some b) (serial (slot_at s i)))
                         | None => s
                         end in
                (set_system s copy (length pem), 0)
            end
    end.

(** [*der], [*len] on success. *)
Definition keyring_system_cert_der (s : kr) : option (Z * Z) :=
  if negb (system_certs_loaded s) || (system_der s =? 0) || (system_der_len s =? 0) then None
  else Some (system_der s, system_der_len s).

(** * Certificates *)

Record rtc_datetime := MkDate { year : Z; month : Z; day : Z; hour : Z; minute : Z; second : Z }.

Definition two_digits (x : Z) : list Z := [u8 (48 + x / 10); u8 (48 + x `mod` 10)].
Definition fmt_utctime (dt : rtc_datetime) : list Z :=
  let y := year dt in
  let y := if y <? 1950 then 1950 else y in
  let y := if 2049 <? y then 2049 else y in
  two_digits (y `mod` 100) ++ two_digits (month dt) ++ two_digits (day dt) ++ two_digits (hour dt) ++
  two_digits (minute dt) ++ two_digits (second dt) ++ [90].

(** What certificate generation reads and changes besides its argument. *)
Record crypto := MkCrypto { ccurve : curve; crand : Rand.rand }.
Record genv := MkGenv { gfuel : nat; gjunk : list Z; gent : Rand.entropy; gdate : rtc_datetime }.

(** The subject as [strncpy] and the default leave it. *)
Definition subject_or_default (subject : list Z) : list Z :=
  match take (Z.to_nat X509_CN_MAX) subject with [] => s_system_ca | cn => cn end.
(** [req.serial[0] &= 0x7f; if (req.serial[0] == 0) req.serial[0] = 0x01;] *)
Definition fix_serial (b : list Z) : list Z :=
  match b with
  | x :: b => (if Z.land x 0x7f =? 0 then 0x01 else Z.land x 0x7f) :: b
  | [] => []
  end.

(** The certificate, or [None] for [-1]; the outer [option] is as in [X509]. *)
Definition make_selfsigned (g : genv) (cr : crypto) (subject : list Z) (cap : Z)
    : option (crypto * option (list Z)) :=
  '(rnd, b) ← Rand.crypto_rand_bytes (gjunk g) (gent g) (crand cr) 20;
  let dt := gdate g in
  let save := year dt in
  let dt' := MkDate (if save <? 2049 then save + 10 else 2049) (month dt) (day dt) (hour dt) (minute dt) (second dt) in
  '(c, rnd, key) ← ecc_keygen (Rand.crypto_rand_bytes (gjunk g) (gent g)) (ccurve cr) rnd true;
  match key with
  | None => Some (MkCrypto c rnd, None)
  | Some key =>
      let req := MkReq (subject_or_default subject) (fix_serial b) 20 (fmt_utctime dt) (fmt_utctime dt') key in
      '(c, der) ← x509_generate (gfuel g) (gjunk g) c req cap;
      Some (MkCrypto c rnd, der)
  end.

Definition slot_attach_cert (s : kr) (i : nat) (der n : Z) : kr :=
  let s := kfree s (cert (slot_at s i)) in
  put_slot s i (set_cert (slot_at s i) der n true).

(** * Keys *)

Definition keyring_add_key (s : kr) (t : Z) (desc : option (list Z)) (pl : option (list Z)) (ring_id : Z) : kr * Z :=
  if negb (t =? KEY_TYPE_KEYRING) && negb (t =? KEY_TYPE_ASYMMETRIC) && negb (t =? KEY_TYPE_USER) then (s, -5)
  else
    match desc with
    | None | Some [] => (s, -5)
    | Some desc =>
        let ring := ring_resolve s ring_id in
        if ring <? 0 then (s, -126)
        else
          let '(s, i) := slot_alloc s in
          match i with
          | None => (s, -28)
          | Some i =>
              let k := set_names (slot_at s i) t (take (KEY_DESC_MAX - 1) desc) (take (KEY_SUBJ_MAX - 1) desc) 0x3f3f0000 in
              let '(s, k) :=
                if t =? KEY_TYPE_ASYMMETRIC then
                  match pl with
                  | None | Some [] => (s, set_cert k 0 0 false)
                  | Some pl =>
                      let k := set_subject k (cstr (take (KEY_SUBJ_MAX - 1) pl)) in
                      let k := match description k with
                               | [] => set_names k t (take (KEY_DESC_MAX - 1) (subject k)) (subject k) (perms k)
                               | _ => k
                               end in
                      (s, set_cert k 0 0 false)
                  end
                else if t =? KEY_TYPE_USER then
                  match pl with
                  | None | Some [] => (s, k)
                  | Some pl =>
                      let '(s, p) := kmalloc_copy s pl in
                      (s, if p =? 0 then k else set_payload k p (length pl))
                  end
                else (s, k) in
              let s := put_slot s i k in
              let s := match slot_by_serial s (u32 ring) with
                       | Some r => fst (ring_link_locked s (Some r) (serial (slot_at s i)))
                       | None => s
                       end in
              (s, serial (slot_at s i))
          end
    end.

(** [strncmp (a, b, KEY_DESC_MAX - 1) == 0] *)
Definition same_desc (a b : list Z) : bool := bool_decide (take (KEY_DESC_MAX - 1) a = take (KEY_DESC_MAX - 1) b).

(** The loop over the table: the slot found. *)
Fixpoint request_loop (s : kr) (t : Z) (desc : list Z) (ring_slot : option nat) (ks : list slot) : kr * option slot :=
  match ks with
  | [] => (s, None)
  | k :: ks =>
      if negb (used k) || negb (type k =? t) then request_loop s t desc ring_slot ks
      else
        let '(s, is_linked) :=
          match ring_slot with
          | Some i =>
              let r := slot_at s i in
              if type r =? KEY_TYPE_KEYRING then linked_loop s (payload r) (serial k) 0 (Z.to_nat (payload_len r / 4))
              else (s, true)
          | None => (s, true)
          end in
        if is_linked && same_desc (description k) desc then (s, Some k) else request_loop s t desc ring_slot ks
  end.

Definition keyring_request_key (other : kr → kr) (s : kr) (t : Z) (desc : list Z) (ring_id : Z) : kr * Z :=
  let ring := ring_resolve s ring_id in
  let ring_slot := if 0 <=? ring then slot_by_serial s (u32 ring) else None in
  let '(s, found) := request_loop s t desc ring_slot (keys s) in
  match found with
  | Some k => (s, serial k)
  | None => keyring_add_key (other s) t (Some desc) None ring_id
  end.

(** * keyctl *)

(** "keyring", "asymmetric", "user" *)
Definition s_keyring : list Z := [107; 101; 121; 114; 105; 110; 103].
Definition s_asymmetric : list Z := [97; 115; 121; 109; 109; 101; 116; 114; 105; 99].
Definition s_user : list Z := [117; 115; 101; 114].

(** ["%s;%u;%u;%08x;%s"] and its arguments. *)
Definition describe_fmt : list Z := [37; 115; 59; 37; 117; 59; 37; 117; 59; 37; 48; 56; 120; 59; 37; 115].
Definition describe_args (k : slot) : list arg :=
  let tn := if type k =? KEY_TYPE_KEYRING then s_keyring
            else if type k =? KEY_TYPE_ASYMMETRIC then s_asymmetric else s_user in
  [Str (Some tn); Num (uid k); Num (gid k); Num (perms k); Str (Some (description k))].

(** The commands with their arguments; a buffer is its length, [None] for null. *)
Inductive command :=
  | GET_KEYRING_ID (ringid create : Z)
  | JOIN_SESSION_KEYRING
  | SETPERM (n perms : Z)
  | UPDATE (n : Z) (pl : option (list Z))
  | REVOKE (n : Z)
  | DESCRIBE (n : Z) (buf : option Z)
  | CLEAR (n : Z)
  | LINK (keyid ringid : Z)
  | UNLINK (keyid ringid : Z)
  | SEARCH (ringid : Z) (ty : list Z) (desc : option (list Z))
  | READ (n : Z) (buf : option Z)
  | INSTANTIATE_OR_OTHER.

(** [for (; todo > 0; j++, todo--) if (pl[j] != keyid) pl[w++] = pl[j];], in place. *)
Fixpoint unlink_loop (s : kr) (pl keyid : Z) (j todo w : nat) : kr * nat :=
  match todo with
  | O => (s, w)
  | S todo =>
      let '(s, x) := load32 s pl j in
      if x =? keyid then unlink_loop s pl keyid (S j) todo w
      else
        let '(s, x) := load32 s pl j in
        unlink_loop (store32 s pl w x) pl keyid (S j) todo (S w)
  end.

(** Generate a certificate for [subj] with the lock dropped.  [other] and [other']
    are what other CPUs do before and after the buffer is allocated; the result has
    the pointer and length of the certificate, or the error. *)
Definition generate_unlocked (g : genv) (other other' : kr → kr) (s : kr) (cr : crypto) (subj : list Z)
    : kr * option (crypto * (Z + Z * Z)) :=
  let s := other s in
  let '(s, der) := kmalloc s 2048 in
  if der =? 0 then (s, Some (cr, inl (-12)))
  else
    match make_selfsigned g cr (cstr subj) 2048 with
    | None => (hang s der, None)
    | Some (cr, None) => (kfree (other' s) der, Some (cr, inl (-5)))
    | Some (cr, Some crt) => (other' (store s der 0 crt), Some (cr, inr (der, Z.of_nat (length crt))))
    end.

Section keyctl.
Context (g : genv) (other other' : kr → kr).

Definition keyctl_update (s : kr) (cr : crypto) (n : Z) (pl : option (list Z)) : kr * option (crypto * Z) :=
  match slot_by_serial s n with
  | None => (s, Some (cr, -126))
  | Some i =>
      let k := slot_at s i in
      if type k =? KEY_TYPE_ASYMMETRIC then
        let k := match pl with
                 | None | Some [] => k
                 | Some pl => set_subject k (cstr (take (KEY_SUBJ_MAX - 1) pl))
                 end in
        let s := put_slot (kfree s (cert k)) i (set_cert k 0 0 false) in
        match generate_unlocked g other other' s cr (subject k) with
        | (s, None) => (s, None)
        | (s, Some (cr, inl e)) => (s, Some (cr, e))
        | (s, Some (cr, inr (der, clen))) =>
            match slot_by_serial s n with
            | None => (kfree s der, Some (cr, -126))
            | Some i => (slot_attach_cert s i der clen, Some (cr, 0))
            end
        end
      else if type k =? KEY_TYPE_USER then
        let s := kfree s (payload k) in
        let k := set_payload k 0 0 in
        let '(s, k) := match pl with
                       | None | Some [] => (s, k)
                       | Some pl =>
                           let '(s, p) := kmalloc_copy s pl in
                           (s, if p =? 0 then k else set_payload k p (length pl))
                       end in
        (put_slot s i k, Some (cr, 0))
      else (s, Some (cr, 0))
  end.

(** The bytes to copy out: source pointer and total length, or the error. *)
Definition read_source (k : slot) : Z + Z * Z :=
  if type k =? KEY_TYPE_ASYMMETRIC then
    if negb (generated k) || (cert k =? 0) then inl (-5) else inr (cert k, cert_len k)
  else inr (payload k, payload_len k).

Definition read_out (s : kr) (i : nat) (buf : option Z) : kr * Z * list Z :=
  match read_source (slot_at s i) with
  | inl e => (s, e, [])
  | inr (src, total) =>
      match buf with
      | Some buflen =>
          let n := if buflen <? total then buflen else total in
          if (0 <? n) && nz src then let '(s, out) := load s src 0 (Z.to_nat n) in (s, total, out)
          else (s, total, [])
      | None => (s, total, [])
      end
  end.

Definition keyctl_read (s : kr) (cr : crypto) (n : Z) (buf : option Z) : kr * option (crypto * Z * list Z) :=
  match slot_by_serial s n with
  | None => (s, Some (cr, -126, []))
  | Some i =>
      let k := slot_at s i in
      if (type k =? KEY_TYPE_ASYMMETRIC) && negb (generated k) then
        match generate_unlocked g other other' s cr (subject k) with
        | (s, None) => (s, None)
        | (s, Some (cr, inl e)) => (s, Some (cr, e, []))
        | (s, Some (cr, inr (der, clen))) =>
            match slot_by_serial s n with
            | None => (kfree s der, Some (cr, -126, []))
            | Some i =>
                let s := if negb (generated (slot_at s i)) then slot_attach_cert s i der clen else kfree s der in
                let '(s, r, o) := read_out s i buf in (s, Some (cr, r, o))
            end
        end
      else let '(s, r, o) := read_out s i buf in (s, Some (cr, r, o))
  end.

(** The answer and what is written to the caller's buffer; [euid] is that of the
    calling thread, if there is one. *)
Definition keyctl_do (euid : option Z) (s : kr) (cr : crypto) (c : command) : kr * option (crypto * Z * list Z) :=
  match c with
  | GET_KEYRING_ID ringid create =>
      let ring := ring_resolve s ringid in
      if (ring <? 0) && nz create then
        let '(s, r) := keyring_add_key (other s) KEY_TYPE_KEYRING (Some s_keyring) None 0 in (s, Some (cr, r, []))
      else (s, Some (cr, ring, []))
  | JOIN_SESSION_KEYRING =>
      let s := match slot_by_serial s (session_serial s) with
               | Some i => put_slot (kfree s (payload (slot_at s i))) i (set_payload (slot_at s i) 0 0)
               | None => s
               end in
      let '(s, ns) := slot_alloc s in
      match ns with
      | None => (s, Some (cr, session_serial s, []))
      | Some i =>
          let k := slot_at s i in
          let s := put_slot s i (MkSlot (used k) (serial k) KEY_TYPE_KEYRING (uid k) (gid k) (perms k) s_session
                     s_session (payload k) (payload_len k) (cert k) (cert_len k) (generated k)) in
          (set_rings s (serial k) (builtin_serial s) (secondary_serial s), Some (cr, serial k, []))
      end
  | SETPERM n p =>
      match slot_by_serial s n with
      | None => (s, Some (cr, -126, []))
      | Some i =>
          let k := slot_at s i in
          match euid with
          | Some e => if nz e && negb (e =? uid k) then (s, Some (cr, -1, []))
                      else (put_slot s i (set_perms k p), Some (cr, 0, []))
          | None => (put_slot s i (set_perms k p), Some (cr, 0, []))
          end
      end
  | UPDATE n pl => let '(s, r) := keyctl_update s cr n pl in (s, '(cr, r) ← r; Some (cr, r, []))
  | REVOKE n =>
      match slot_by_serial s n with
      | None => (s, Some (cr, -126, []))
      | Some i =>
          let s' := kfree (kfree s (payload (slot_at s i))) (cert (slot_at s i)) in
          (put_slot s' i slot0, Some (cr, 0, []))
      end
  | DESCRIBE n buf =>
      match slot_by_serial s n with
      | None => (s, Some (cr, -126, []))
      | Some i =>
          let args := describe_args (slot_at s i) in
          (s,
           '(need, _) ← snprintf false 0 describe_fmt args;
           match buf with
           | Some buflen =>
               if 0 <? buflen then
                 let n := if need <? s32 buflen then need else s32 (s32 buflen - 1) in
                 '(_, out) ← snprintf true (n +u 1) describe_fmt args;
                 Some (cr, need, if n +u 1 =? 0 then [] else out ++ [0])
               else Some (cr, need, [])
           | None => Some (cr, need, [])
           end)
      end
  | CLEAR n =>
      match slot_by_serial s n with
      | None => (s, Some (cr, -126, []))
      | Some i => (put_slot (kfree s (payload (slot_at s i))) i (set_payload (slot_at s i) 0 0), Some (cr, 0, []))
      end
  | LINK keyid ringid =>
      match slot_by_serial s keyid, slot_by_serial s ringid with
      | Some _, Some r =>
          if negb (type (slot_at s r) =? KEY_TYPE_KEYRING) then (s, Some (cr, -22, []))
          else (fst (ring_link_locked s (Some r) keyid), Some (cr, 0, []))
      | _, _ => (s, Some (cr, -22, []))
      end
  | UNLINK keyid ringid =>
      match slot_by_serial s ringid with
      | None => (s, Some (cr, -22, []))
      | Some r =>
          let k := slot_at s r in
          if negb (type k =? KEY_TYPE_KEYRING) then (s, Some (cr, -22, []))
          else
            let '(s, w) := unlink_loop s (payload k) keyid 0 (Z.to_nat (payload_len k / 4)) 0 in
            (put_slot s r (set_payload k (payload k) (w * 4)), Some (cr, 0, []))
      end
  | SEARCH ringid ty desc =>
      let t := if bool_decide (ty = s_keyring) then KEY_TYPE_KEYRING
               else if bool_decide (ty = s_asymmetric) then KEY_TYPE_ASYMMETRIC
               else if bool_decide (ty = s_user) then KEY_TYPE_USER else 0 in
      match desc with
      | None => (s, Some (cr, -22, []))
      | Some desc =>
          if t =? 0 then (s, Some (cr, -22, []))
          else let '(s, r) := keyring_request_key other s t desc (s32 ringid) in (s, Some (cr, r, []))
      end
  | READ n buf => keyctl_read s cr n buf
  | INSTANTIATE_OR_OTHER => (s, Some (cr, -38, []))
  end.
End keyctl.

Definition keyring_count (s : kr) : Z := length (filter (λ k, used k = true) (keys s)).

(** What the callback of [keyring_walk] is called with, in order. *)
Definition keyring_walk (s : kr) : list (Z * Z * Z * Z * Z * list Z) :=
  map (λ k, (serial k, type k, uid k, gid k, perms k, description k)) (filter (λ k, used k = true) (keys s)).

End Keyring.
