(* ===== verification/KeyringInv.v ===== *)
(** Memory safety of the keyring: every block the table points to is live, has
    room for what the slot says it holds and belongs to one slot field; blocks are
    neither leaked nor freed twice, and nothing is read or written outside a live
    block.

    [owns L F s] states this for the slots [L] of the table, with the pointers [F]
    in the hands of the running code; an operation takes a slot out of the table
    ([own_open]), works on its pointers, and puts it back ([own_close]). *)
From S2P Require Import Prelude Sha256 Ecc Printf X509 Keyring.
Import Keyring.

Definition ptrs (k : slot) : list Z :=
  (if payload k =? 0 then [] else [payload k]) ++ (if cert k =? 0 then [] else [cert k]).
Definition owned (L : list slot) : list Z := L ≫= ptrs.

(** [n] bytes at [p], or nothing at the null pointer. *)
Definition fits (a : gmap Z (list Z)) (p n : Z) : Prop :=
  if p =? 0 then n = 0 else ∃ b, a !! p = Some b ∧ 0 ≤ n ≤ length b.

Record slot_ok (a : gmap Z (list Z)) (k : slot) : Prop := {
  so_payload : fits a (payload k) (payload_len k);
  so_cert : fits a (cert k) (cert_len k);
  so_generated : generated k = true → cert k ≠ 0;
  so_words : type k = KEY_TYPE_KEYRING → (4 | payload_len k);
  so_desc : (length (description k) < KEY_DESC_MAX)%nat;
  so_subject : (length (subject k) < KEY_SUBJ_MAX)%nat;
  so_type : used k = true → type k = KEY_TYPE_KEYRING ∨ type k = KEY_TYPE_ASYMMETRIC ∨ type k = KEY_TYPE_USER;
  so_unused : used k = false → k = slot0
}.

(** Blocks that belong to code that runs elsewhere meanwhile, with their contents. *)
Section frame.
Context (G : gmap Z (list Z)).

Record owns (L : list slot) (F : list Z) (s : kr) : Prop := {
  ow_nodup : NoDup (owned L ++ F);
  ow_nz : 0 ∉ owned L ++ F;
  ow_dom : ∀ p, is_Some (arena s !! p) ↔ p ∈ owned L ++ F ∨ is_Some (G !! p);
  ow_faults : faults s = 0%nat;
  ow_slots : Forall (slot_ok (arena s)) L;
  ow_frame : ∀ p b, G !! p = Some b → arena s !! p = Some b ∧ p ∉ owned L ++ F
}.

(** A live block is a slot's, or in hand ([F]), or the buffer of a call that never
    returns, or elsewhere ([G]). *)
Definition wf (F : list Z) (s : kr) : Prop := length (keys s) = KEYRING_MAX ∧ owns (keys s) (F ++ stuck s) s.

(** * Ownership *)

Lemma owns_perm L F L' F' s :
  L ≡ₚ L' → owned L ++ F ≡ₚ owned L' ++ F' → owns L F s → owns L' F' s.
Proof.
  intros HL HP [H1 H2 H3 H4 H5 H6]. split.
  - by rewrite <- HP.
  - by rewrite <- HP.
  - intros p. by rewrite H3, HP.
  - done.
  - by rewrite <- HL.
  - intros p b Hp. rewrite <- HP. by apply H6.
Qed.

#[export] Instance owned_perm : Proper ((≡ₚ) ==> (≡ₚ)) owned.
Proof. intros L L' H. unfold owned. by rewrite H. Qed.

Lemma own_open L F s i k : owns L F s → L !! i = Some k →
  owns (delete i L) (ptrs k ++ F) s ∧ slot_ok (arena s) k.
Proof.
  intros H Hi. pose proof (delete_Permutation L i k Hi) as HP.
  assert (slot_ok (arena s) k) as Hk by (eapply Forall_lookup_1; [apply H|done]). split; [|done].
  assert (Forall (slot_ok (arena s)) (delete i L)) as Hd by by apply Forall_delete, H.
  destruct H as [H1 H2 H3 H4 _ H6].
  assert (owned L ++ F ≡ₚ owned (delete i L) ++ ptrs k ++ F) as HO.
  { rewrite HP at 1. unfold owned at 1. cbn [mbind list_bind]. fold (owned (delete i L)).
    rewrite app_assoc, (Permutation_app_comm (owned (delete i L)) (ptrs k)), <- app_assoc. done. }
  split; [by rewrite <- HO|by rewrite <- HO|intros p; by rewrite H3, HO|done|done|].
  intros p b Hp. rewrite <- HO. by apply H6.
Qed.

Lemma delete_insert_same {A} (l : list A) i x : delete i (<[i := x]> l) = delete i l.
Proof. revert i. induction l as [|y l IH]; intros [|i]; [done..|]. cbn. f_equal. apply IH. Qed.

Lemma own_close L F s i k : owns (delete i L) (ptrs k ++ F) s → slot_ok (arena s) k → (i < length L)%nat →
  owns (<[i := k]> L) F s.
Proof.
  intros [H1 H2 H3 H4 H5 H6] Hk Hi.
  assert (<[i := k]> L ≡ₚ k :: delete i L) as HP.
  { destruct (lookup_lt_is_Some_2 L i Hi) as [k0 Hk0].
    rewrite (delete_Permutation (<[i := k]> L) i k) by by apply list_lookup_insert_eq.
    by rewrite delete_insert_same. }
  assert (owned (<[i := k]> L) ++ F ≡ₚ owned (delete i L) ++ ptrs k ++ F) as HO.
  { rewrite HP at 1. unfold owned at 1. cbn [mbind list_bind]. fold (owned (delete i L)).
    rewrite app_assoc, (Permutation_app_comm (owned (delete i L)) (ptrs k)), <- app_assoc. done. }
  split; [by rewrite HO|by rewrite HO|intros p; by rewrite H3, HO|done|rewrite HP; by constructor|].
  intros p b Hp. rewrite HO. by apply H6.
Qed.

(** The rest of the table does not notice a change elsewhere in the store. *)
Lemma slot_ok_ext a a' k : (∀ p, p ∈ ptrs k → a' !! p = a !! p) → slot_ok a k → slot_ok a' k.
Proof.
  intros He [H1 H2 H3 H4 H5 H6 H7 H8]. unfold ptrs in He. split; try done.
  - unfold fits in *. destruct (Z.eqb_spec (payload k) 0); [done|]. rewrite He; [done|]. by left.
  - unfold fits in *. destruct (Z.eqb_spec (cert k) 0); [done|]. rewrite He; [done|].
    apply elem_of_app. right. by left.
Qed.

Lemma slots_ok_ext a a' L : (∀ p, p ∈ owned L → a' !! p = a !! p) → Forall (slot_ok a) L → Forall (slot_ok a') L.
Proof.
  intros He H. rewrite Forall_forall in *. intros k Hk. apply (slot_ok_ext a); [|by apply H].
  intros p Hp. apply He. unfold owned. apply list_elem_of_bind. eauto.
Qed.

(** [kmalloc], with or without the copy that fills the block. *)
Definition alloc (s : kr) (b : list Z) : kr * Z :=
  match oracle s with
  | [] => (s, 0)
  | p :: o =>
      if (p =? 0) || bool_decide (is_Some (arena s !! p)) then (set_heap s (arena s) o, 0)
      else (set_heap s (<[p := b]> (arena s)) o, p)
  end.

Lemma kmalloc_copy_alloc s b : kmalloc_copy s b = alloc s b.
Proof.
  unfold kmalloc_copy, kmalloc, alloc. destruct (oracle s) as [|p o]; [done|].
  destruct (_ || _) eqn:E; [done|]. apply orb_false_iff in E as [-> _]. f_equal.
  unfold store, inside, block. cbn [set_heap arena oracle]. rewrite lookup_insert_eq.
  rewrite bool_decide_true by (rewrite length_replicate; lia). cbn [default id take app].
  rewrite drop_ge by (rewrite length_replicate; lia). by rewrite app_nil_r, insert_insert_eq.
Qed.

Lemma alloc_owns L F s b : owns L F s →
  let '(s', p) := alloc s b in
  keys s' = keys s ∧ stuck s' = stuck s ∧
  if p =? 0 then owns L F s' ∧ arena s' = arena s else owns L (p :: F) s' ∧ arena s' = <[p := b]> (arena s).
Proof.
  intros H. unfold alloc. destruct (oracle s) as [|p o]; [done|].
  destruct (Z.eqb_spec p 0) as [->|Hp]; cbn [orb].
  { do 2 (split; [done|]). split; [|done]. by destruct H. }
  case_bool_decide as Hl; [do 2 (split; [done|]); split; [by destruct H|done]|].
  destruct (Z.eqb_spec p 0); [done|]. do 2 (split; [done|]). split; [|done].
  destruct H as [H1 H2 H3 H4 H5 H6]. rewrite H3 in Hl.
  assert (p ∉ owned L ++ F) as Hni by (intros ?; apply Hl; by left).
  assert (owned L ++ p :: F ≡ₚ p :: owned L ++ F) as HP by by rewrite Permutation_middle.
  split; simpl.
  - rewrite HP. by constructor.
  - rewrite HP, not_elem_of_cons. auto.
  - intros q. rewrite HP, elem_of_cons. destruct (decide (q = p)) as [->|Hq].
    + rewrite lookup_insert_eq. split; [by left; left|done].
    + rewrite lookup_insert_ne, H3 by done. intuition.
  - done.
  - eapply slots_ok_ext; [|exact H5]. intros q Hq. rewrite lookup_insert_ne; [done|]. intros ->.
    apply Hni, elem_of_app. by left.
  - intros q c Hq. rewrite HP. assert (q ≠ p) as Hqp by (intros ->; apply Hl; right; by eexists).
    rewrite lookup_insert_ne, not_elem_of_cons by done. destruct (H6 q c Hq). done.
Qed.

Lemma kfree_owns L F s p : owns L (p :: F) s →
  owns L F (kfree s p) ∧ keys (kfree s p) = keys s ∧ stuck (kfree s p) = stuck s ∧ arena (kfree s p) = delete p (arena s).
Proof.
  intros [H1 H2 H3 H4 H5 H6]. assert (owned L ++ p :: F ≡ₚ p :: owned L ++ F) as HP by by rewrite Permutation_middle.
  rewrite HP in H1, H2. apply NoDup_cons in H1 as [Hni H1]. apply not_elem_of_cons in H2 as [Hp H2].
  unfold kfree. destruct (Z.eqb_spec p 0); [done|]. rewrite bool_decide_true by (rewrite H3, HP; left; by left).
  assert (G !! p = None) as Hg.
  { destruct (G !! p) eqn:E; [|done]. destruct (H6 p _ E) as [_ H]. destruct H. rewrite HP. by left. }
  split; [|done]. split; simpl; try done.
  - intros q. destruct (decide (q = p)) as [->|Hq].
    + rewrite lookup_delete_eq, Hg. split; [by intros []|]. intros [?|[? ?]]; done.
    + rewrite lookup_delete_ne, H3, HP, elem_of_cons by done. naive_solver.
  - eapply slots_ok_ext; [|exact H5]. intros q Hq. rewrite lookup_delete_ne; [done|]. intros ->.
    apply Hni, elem_of_app. by left.
  - intros q b Hq. destruct (H6 q b Hq) as [E1 E2]. rewrite HP, not_elem_of_cons in E2.
    rewrite lookup_delete_ne by (intros ->; congruence). naive_solver.
Qed.

(** Freeing a pointer field that may be null. *)
Lemma kfree_field L F s p : owns L ((if p =? 0 then [] else [p]) ++ F) s →
  owns L F (kfree s p) ∧ keys (kfree s p) = keys s ∧ stuck (kfree s p) = stuck s ∧
  arena (kfree s p) = if p =? 0 then arena s else delete p (arena s).
Proof.
  destruct (p =? 0) eqn:E; intros H; [unfold kfree; by rewrite E|]. by apply kfree_owns.
Qed.

(** * The table *)

Lemma find_serial_Some l j n i : find_serial l j n = Some i →
  ∃ k, l !! (i - j)%nat = Some k ∧ (j ≤ i)%nat ∧ used k = true ∧ serial k = n.
Proof.
  revert j. induction l as [|k l IH]; intros j; cbn [find_serial]; [done|].
  destruct (used k && (serial k =? n)) eqn:E.
  - intros [= <-]. apply andb_true_iff in E as [E1 E2%Z.eqb_eq]. exists k. by rewrite Nat.sub_diag.
  - intros H. apply IH in H as (k' & H1 & H2 & H3). exists k'. split; [|split; [lia|done]].
    replace (i - j)%nat with (S (i - S j)) by lia. done.
Qed.

Lemma slot_by_serial_Some s n i : slot_by_serial s n = Some i →
  keys s !! i = Some (slot_at s i) ∧ (i < length (keys s))%nat ∧ used (slot_at s i) = true ∧ serial (slot_at s i) = n.
Proof.
  intros H. apply find_serial_Some in H as (k & H1 & _ & H2 & H3). rewrite Nat.sub_0_r in H1.
  assert (slot_at s i = k) as -> by (unfold slot_at; by rewrite H1). split; [done|].
  split; [by apply lookup_lt_Some in H1|done].
Qed.

Lemma find_free_Some l j i : find_free l j = Some i → ∃ k, l !! (i - j)%nat = Some k ∧ (j ≤ i)%nat ∧ used k = false.
Proof.
  revert j. induction l as [|k l IH]; intros j; cbn [find_free]; [done|].
  destruct (used k) eqn:E.
  - intros H. apply IH in H as (k' & H1 & H2 & H3). exists k'. split; [|split; [lia|done]].
    replace (i - j)%nat with (S (i - S j)) by lia. done.
  - intros [= <-]. exists k. by rewrite Nat.sub_diag.
Qed.

(** The slot [slot_alloc] hands out. *)
Definition fresh_slot (n : Z) : slot := MkSlot true n 0 0 0 0 [] [] 0 0 0 0 false.

Lemma slot_alloc_ok F s : wf F s →
  match slot_alloc s with
  | (s', None) => s' = s
  | (s', Some i) =>
      keys s' = <[i := fresh_slot (next_serial s)]> (keys s) ∧ (i < length (keys s))%nat ∧ arena s' = arena s ∧
      slot_at s' i = fresh_slot (next_serial s) ∧ length (keys s') = KEYRING_MAX ∧
      owns (delete i (keys s')) (F ++ stuck s') s'
  end.
Proof.
  intros [Hl Ho]. unfold slot_alloc. destruct (find_free (keys s) 0) as [i|] eqn:E; [|done].
  apply find_free_Some in E as (k & H1 & _ & H2). rewrite Nat.sub_0_r in H1.
  pose proof (lookup_lt_Some _ _ _ H1) as Hi. destruct (own_open _ _ _ _ _ Ho H1) as [Hop Hk].
  apply (so_unused _ _ Hk) in H2 as ->. simpl. fold (fresh_slot (next_serial s)).
  split; [done|]. split; [done|]. split; [done|]. split; [unfold slot_at; simpl; by rewrite list_lookup_insert_eq|].
  split; [by rewrite length_insert|]. rewrite delete_insert_same. by destruct Hop.
Qed.

Lemma owns_ext L F s s' : arena s' = arena s → faults s' = faults s → owns L F s → owns L F s'.
Proof. intros Ha Hb [H1 H2 H3 H4 H5 H6]. split; [done|done|by rewrite Ha|by rewrite Hb|by rewrite Ha..]. Qed.

Lemma wf_ext F s s' : keys s' = keys s → arena s' = arena s → faults s' = faults s → stuck s' = stuck s → wf F s → wf F s'.
Proof. intros Hk Ha Hb Hs [H1 H2]. split; [by rewrite Hk|]. rewrite Hk, Hs. by apply (owns_ext _ _ s). Qed.

(** The static variables that hold no pointer the table owns. *)
Lemma wf_inited F s : wf F s → wf F (set_inited s).
Proof. by apply wf_ext. Qed.

Lemma wf_rings F s a b c : wf F s → wf F (set_rings s a b c).
Proof. by apply wf_ext. Qed.

Lemma wf_system F s p n : wf F s → wf F (set_system s p n).
Proof. by apply wf_ext. Qed.

(** Put a slot back. *)
Lemma put_wf F s i k : length (keys s) = KEYRING_MAX → (i < length (keys s))%nat →
  owns (delete i (keys s)) (ptrs k ++ F ++ stuck s) s → slot_ok (arena s) k → wf F (put_slot s i k).
Proof.
  intros Hl Hi Ho Hk. split; [simpl; by rewrite length_insert|]. simpl.
  apply (owns_ext _ _ s); [done..|]. by apply own_close.
Qed.

Lemma alloc_wf F s b : wf F s →
  let '(s', p) := alloc s b in
  keys s' = keys s ∧
  if p =? 0 then wf F s' else wf (p :: F) s' ∧ arena s' !! p = Some b.
Proof.
  intros [Hl Ho]. pose proof (alloc_owns _ _ _ b Ho) as H. destruct (alloc s b) as [s' p].
  destruct H as (Hk & Hs & H). split; [done|]. unfold wf. rewrite Hk, Hs.
  destruct (p =? 0); destruct H as [H Ha]; [done|]. split; [done|]. by rewrite Ha, lookup_insert_eq.
Qed.

Lemma kfree_wf F s p : wf (p :: F) s → wf F (kfree s p).
Proof. intros [Hl Ho]. destruct (kfree_owns _ _ _ _ Ho) as (H1 & H2 & H3 & _). split; by rewrite ?H2, ?H3. Qed.

(** The call that holds the block does not return. *)
Lemma hang_wf F s p : wf (p :: F) s → wf F (hang s p).
Proof.
  intros [Hl Ho]. split; [done|]. apply (owns_ext _ _ s); [done..|]. eapply owns_perm; [done| |exact Ho].
  f_equiv. simpl. by rewrite Permutation_middle.
Qed.

Lemma slot_at_range s i : used (slot_at s i) = true ∨ type (slot_at s i) ≠ 0 →
  keys s !! i = Some (slot_at s i) ∧ (i < length (keys s))%nat.
Proof.
  unfold slot_at. destruct (keys s !! i) as [k|] eqn:E; simpl; [|by intros [?|?]].
  intros _. split; [done|]. by apply lookup_lt_Some in E.
Qed.

Lemma fits_block s p n : fits (arena s) p n → 0 ≤ n ≤ length (block s p).
Proof.
  unfold fits, block. destruct (Z.eqb_spec p 0) as [->|_]; [intros ->; lia|]. intros (b & -> & H). done.
Qed.

(** * Accesses *)

Lemma inside_true s p b off n : arena s !! p = Some b → (off + n ≤ length b)%nat → inside s p off n = true.
Proof. intros Hb Hn. unfold inside. by rewrite Hb, bool_decide_true. Qed.

(** An access of a slot's block within the recorded length. *)
Lemma fits_inside s p n off m : fits (arena s) p n → (0 < m)%nat → Z.of_nat (off + m) ≤ n → inside s p off m = true.
Proof.
  unfold fits. destruct (p =? 0); [lia|]. intros (b & Hb & Hn) Hm Ho. apply (inside_true _ _ b); [done|lia].
Qed.

Lemma load_inside s p off n : inside s p off n = true → load s p off n = (s, take n (drop off (block s p))).
Proof. intros H. unfold load. by rewrite H. Qed.

Lemma load32_inside s p n j : fits (arena s) p n → Z.of_nat (4 * (j + 1)) ≤ n → (load32 s p j).1 = s.
Proof. intros Hf Hj. unfold load32. rewrite (load_inside s p (4 * j) 4); [done|]. by apply (fits_inside s p n); [|lia|lia]. Qed.

Lemma linked_loop_state s p n x j todo : fits (arena s) p n → Z.of_nat (4 * (j + todo)) ≤ n → (linked_loop s p x j todo).1 = s.
Proof.
  intros Hf. revert j. induction todo as [|todo IH]; intros j Hj; cbn [linked_loop]; [done|].
  pose proof (load32_inside s p n j Hf ltac:(lia)) as Hs. destruct (load32 s p j) as [s' y]. simpl in Hs. subst s'.
  destruct (y =? x); [done|]. apply IH. lia.
Qed.

(** The words of a slot. *)
Lemma words_fit s k : slot_ok (arena s) k → Z.of_nat (4 * Z.to_nat (payload_len k / 4)) ≤ payload_len k.
Proof.
  intros H. pose proof (fits_block s _ _ (so_payload _ _ H)). pose proof (Z.mul_div_le (payload_len k) 4).
  pose proof (Z.div_pos (payload_len k) 4). lia.
Qed.

Lemma slot_linked_state s k x : slot_ok (arena s) k → (linked_loop s (payload k) x 0 (Z.to_nat (payload_len k / 4))).1 = s.
Proof.
  intros H. apply (linked_loop_state _ _ (payload_len k)); [apply H|]. rewrite Nat.add_0_l. by apply (words_fit s).
Qed.

(** A store into a block in hand. *)
Lemma store_length s p off l b : arena s !! p = Some b → (off + length l ≤ length b)%nat →
  ∃ b', store s p off l = set_heap s (<[p := b']> (arena s)) (oracle s) ∧ length b' = length b.
Proof.
  intros Hb Hl. unfold store. rewrite (inside_true _ _ b) by done. eexists. split; [reflexivity|].
  unfold block. rewrite Hb. cbn [default id]. rewrite !length_app, length_take, length_drop. lia.
Qed.

Lemma owns_write L F s p b : owns L (p :: F) s → owns L (p :: F) (set_heap s (<[p := b]> (arena s)) (oracle s)).
Proof.
  intros [H1 H2 H3 H4 H5 H6]. rewrite NoDup_app in H1. destruct H1 as (H1 & Hd & H1').
  assert (p ∉ owned L) as Hp by (intros Hp; apply (Hd p Hp); by left).
  assert (G !! p = None) as Hg.
  { destruct (G !! p) eqn:E; [|done]. destruct (H6 p _ E) as [_ H]. destruct H. apply elem_of_app. right. by left. }
  split; [by apply NoDup_app|done| |done| |]; simpl.
  - intros q. rewrite <- H3. destruct (decide (q = p)) as [->|Hq].
    + rewrite lookup_insert_eq. split; [|by eexists]. intros _. apply H3. left. apply elem_of_app. right. by left.
    + by rewrite lookup_insert_ne.
  - eapply slots_ok_ext; [|exact H5]. intros q Hq. rewrite lookup_insert_ne; [done|]. by intros ->.
  - intros q c E. rewrite lookup_insert_ne by (intros ->; congruence). by apply H6.
Qed.

Lemma store_wf F s p off l b : wf (p :: F) s → arena s !! p = Some b → (off + length l ≤ length b)%nat →
  wf (p :: F) (store s p off l) ∧ ∃ b', arena (store s p off l) !! p = Some b' ∧ length b' = length b.
Proof.
  intros [Hl Ho] Hb Hoff. destruct (store_length _ _ _ _ _ Hb Hoff) as (b' & -> & Hb'). split.
  - split; [done|]. by apply owns_write.
  - exists b'. split; [apply lookup_insert_eq|done].
Qed.

(** * Working on one slot *)

(** Slot [i] is out of the table, as [k]. *)
Record held (F : list Z) (s : kr) (i : nat) (k : slot) : Prop := {
  he_len : length (keys s) = KEYRING_MAX;
  he_lt : (i < length (keys s))%nat;
  he_owns : owns (delete i (keys s)) (ptrs k ++ F ++ stuck s) s;
  he_ok : slot_ok (arena s) k
}.

Lemma held_open F s i k : wf F s → keys s !! i = Some k → held F s i k.
Proof.
  intros [Hl Ho] Hi. destruct (own_open _ _ _ _ _ Ho Hi). split; [done|by eapply lookup_lt_Some|done..].
Qed.

Lemma held_serial F s n i : wf F s → slot_by_serial s n = Some i → held F s i (slot_at s i).
Proof. intros Hwf (H & _)%slot_by_serial_Some. by apply held_open. Qed.

Lemma held_close F s i k : held F s i k → wf F (put_slot s i k).
Proof. intros [H1 H2 H3 H4]. by apply put_wf. Qed.

Lemma slot_alloc_held F s : wf F s →
  match slot_alloc s with
  | (s', None) => s' = s
  | (s', Some i) => slot_at s' i = fresh_slot (next_serial s) ∧ arena s' = arena s ∧
      ∀ t d sj p, t = KEY_TYPE_KEYRING ∨ t = KEY_TYPE_ASYMMETRIC ∨ t = KEY_TYPE_USER →
      (length d < KEY_DESC_MAX)%nat → (length sj < KEY_SUBJ_MAX)%nat →
      held F s' i (set_names (fresh_slot (next_serial s)) t d sj p)
  end.
Proof.
  intros Hwf. pose proof (slot_alloc_ok _ _ Hwf) as H. destruct (slot_alloc s) as [s' [i|]]; [|done].
  destruct H as (Hk & Hi & Ha & Hs & Hl & Ho). split; [done|]. split; [done|]. intros t d sj p Ht Hd Hsj.
  split; [done|by rewrite Hk, length_insert|done|]. split; try done. intros _. by exists 0.
Qed.

Lemma set_payload_ok a k p n : slot_ok a k → fits a p n → (type k = KEY_TYPE_KEYRING → (4 | n)) →
  (used k = false → p = 0 ∧ n = 0) → slot_ok a (set_payload k p n).
Proof.
  intros [H1 H2 H3 H4 H5 H6 H7 H8] Hf Hd Hu. split; try done. simpl. intros E.
  destruct (Hu E) as [-> ->]. rewrite (H8 E). done.
Qed.

(** The cells of the two pointer fields are distinct. *)
Lemma ptrs_distinct L F s k : owns L (ptrs k ++ F) s → payload k ≠ 0 → cert k ≠ payload k.
Proof.
  intros [Hnd _ _ _ _ _] Hp He. unfold ptrs in Hnd. rewrite He in Hnd.
  destruct (Z.eqb_spec (payload k) 0); [done|]. apply NoDup_app in Hnd as (_ & _ & Hnd).
  apply NoDup_cons in Hnd as [Hnd _]. apply Hnd. by left.
Qed.

Lemma free_payload F s i k : held F s i k → used k = true →
  held F (kfree s (payload k)) i (set_payload k 0 0).
Proof.
  intros [H1 H2 H3 H4] Hu. pose proof (ptrs_distinct _ _ _ _ H3) as Hd.
  unfold ptrs in H3. rewrite <- app_assoc in H3. apply kfree_field in H3 as (Ho & Hk & Hs & Ha).
  split; rewrite ?Hk, ?Hs; [done..| |].
  - done.
  - destruct H4 as [G1 G2 G3 G4 G5 G6 G7 G8]. split; try done; simpl.
    + rewrite Ha. destruct (Z.eqb_spec (payload k) 0); [done|]. unfold fits in *.
      destruct (cert k =? 0); [done|]. rewrite lookup_delete_ne; [done|]. intros E. by apply Hd.
    + intros _. by exists 0.
    + by rewrite Hu.
Qed.

Lemma free_cert F s i k : held F s i k → used k = true →
  held F (kfree s (cert k)) i (set_cert k 0 0 false).
Proof.
  intros [H1 H2 H3 H4] Hu. pose proof (ptrs_distinct _ _ _ _ H3) as Hd.
  assert (owns (delete i (keys s)) ((if cert k =? 0 then [] else [cert k]) ++
    (if payload k =? 0 then [] else [payload k]) ++ F ++ stuck s) s) as H3'.
  { eapply owns_perm; [done| |exact H3]. unfold ptrs. f_equiv. rewrite <- (app_assoc _ _ (F ++ stuck s)). apply Permutation_app_swap_app. }
  apply kfree_field in H3' as (Ho & Hk & Hs & Ha).
  split; rewrite ?Hk, ?Hs; [done..| |].
  - unfold ptrs. cbn [set_cert payload cert]. by rewrite app_nil_r.
  - destruct H4 as [G1 G2 G3 G4 G5 G6 G7 G8]. split; try done; simpl.
    + rewrite Ha. destruct (Z.eqb_spec (cert k) 0); [done|]. unfold fits in *.
      destruct (Z.eqb_spec (payload k) 0); [done|]. rewrite lookup_delete_ne; [done|]. by apply Hd.
    + by rewrite Hu.
Qed.

(** A block in hand becomes the payload of the slot. *)
Lemma give_payload F s i k p b n : held (p :: F) s i k → payload k = 0 → arena s !! p = Some b →
  0 ≤ n ≤ length b → used k = true → (type k = KEY_TYPE_KEYRING → (4 | n)) → held F s i (set_payload k p n).
Proof.
  intros [H1 H2 H3 H4] Hp Hb Hn Hu Ht.
  assert (p ≠ 0) as Hp0. { intros ->. destruct H3 as [_ H _ _ _ _]. apply H. rewrite !elem_of_app. right. right. left. by left. }
  split; [done..| |].
  - eapply owns_perm; [done| |exact H3]. unfold ptrs. cbn [set_payload payload cert]. rewrite Hp.
    destruct (Z.eqb_spec p 0); [done|]. simpl. f_equiv. symmetry. apply Permutation_middle.
  - apply set_payload_ok; [done| |done|by rewrite Hu]. unfold fits. destruct (Z.eqb_spec p 0); [done|]. by exists b.
Qed.

Lemma give_cert F s i k p b n : held (p :: F) s i k → cert k = 0 → arena s !! p = Some b → 0 ≤ n ≤ length b →
  used k = true → held F s i (set_cert k p n true).
Proof.
  intros [H1 H2 H3 H4] Hp Hb Hn Hu.
  assert (p ≠ 0) as Hp0. { intros ->. destruct H3 as [_ H _ _ _ _]. apply H. rewrite !elem_of_app. right. right. left. by left. }
  split; [done..| |].
  - eapply owns_perm; [done| |exact H3]. unfold ptrs. cbn [set_cert payload cert]. rewrite Hp.
    destruct (Z.eqb_spec p 0); [done|]. simpl. rewrite app_nil_r, <- app_assoc. done.
  - destruct H4 as [G1 G2 G3 G4 G5 G6 G7 G8]. split; try done; simpl.
    + unfold fits. destruct (Z.eqb_spec p 0); [done|]. by exists b.
    + by rewrite Hu.
Qed.

(** The pointers of a slot taken out, moved behind the one in hand. *)
Lemma owns_swap L k F s p : owns L (p :: ptrs k ++ F) s ↔ owns L (ptrs k ++ p :: F) s.
Proof. split; apply owns_perm; [done| |done|]; by rewrite Permutation_middle. Qed.

Lemma held_alloc F s i k b : held F s i k →
  let '(s', p) := alloc s b in
  keys s' = keys s ∧ if p =? 0 then held F s' i k else held (p :: F) s' i k ∧ arena s' !! p = Some b.
Proof.
  intros [H1 H2 H3 H4]. pose proof (alloc_owns _ _ _ b H3) as H. destruct (alloc s b) as [s' p].
  destruct H as (Hk & Hs & H). split; [done|]. destruct (p =? 0).
  - destruct H as [Ho Ha]. split; rewrite ?Hk, ?Ha, ?Hs; done.
  - destruct H as [Ho Ha]. rewrite Ha, lookup_insert_eq. split; [|done].
    split; rewrite ?Hk, ?Hs; [done..|by apply owns_swap|].
    rewrite Ha. eapply slot_ok_ext; [|exact H4]. intros q Hq. rewrite lookup_insert_ne; [done|]. intros ->.
    destruct Ho as [Hnd _ _ _ _ _]. apply NoDup_app in Hnd as (_ & _ & Hnd). apply NoDup_cons in Hnd as [Hnd _].
    apply Hnd, elem_of_app. by left.
Qed.

Lemma held_store F s i k p off l b : held (p :: F) s i k → arena s !! p = Some b → (off + length l ≤ length b)%nat →
  held (p :: F) (store s p off l) i k ∧ ∃ b', arena (store s p off l) !! p = Some b' ∧ length b' = length b.
Proof.
  intros [H1 H2 H3 H4] Hb Hoff. destruct (store_length _ _ _ _ _ Hb Hoff) as (b' & -> & Hb').
  split; [|exists b'; split; [apply lookup_insert_eq|done]]. apply owns_swap in H3. split; [done|done| |].
  - apply owns_swap. by apply owns_write.
  - eapply slot_ok_ext; [|exact H4]. intros q Hq. apply lookup_insert_ne. intros ->.
    destruct H3 as [Hnd _ _ _ _ _]. apply NoDup_app in Hnd as (_ & _ & Hnd). apply NoDup_cons in Hnd as [Hnd _].
    apply Hnd, elem_of_app. by left.
Qed.

(** Fields that hold no pointer. *)
Lemma held_rename F s i k k' : held F s i k → payload k' = payload k → payload_len k' = payload_len k →
  cert k' = cert k → cert_len k' = cert_len k → generated k' = generated k → type k' = type k →
  used k = true → used k' = true →
  (length (description k') < KEY_DESC_MAX)%nat → (length (subject k') < KEY_SUBJ_MAX)%nat → held F s i k'.
Proof.
  intros [H1 H2 H3 [G1 G2 G3 G4 G5 G6 G7 G8]] E1 E2 E3 E4 E5 E6 Hu Hu' Hd Hs. split; [done..| |].
  - unfold ptrs. by rewrite E1, E3.
  - split; rewrite ?E1, ?E2, ?E3, ?E4, ?E5, ?E6; try done; [by intros _; apply G7|by rewrite Hu'].
Qed.

(** A block in hand is not one of the slot's. *)
Lemma held_fresh F s i k p b : held (p :: F) s i k → arena s !! p = Some b →
  arena (kfree s (payload k)) !! p = Some b ∧ arena (kfree s (cert k)) !! p = Some b.
Proof.
  intros [_ _ [Hnd _ _ _ _ _] _] Hb. apply NoDup_app in Hnd as (_ & _ & Hnd). apply NoDup_app in Hnd as (_ & Hd & _).
  assert (∀ q, (q ≠ 0 → q ∈ ptrs k) → arena (kfree s q) !! p = Some b) as H.
  { intros q Hq. unfold kfree. destruct (Z.eqb_spec q 0); [done|]. case_bool_decide; [|done]. simpl.
    rewrite lookup_delete_ne; [done|]. intros ->. apply (Hd p); [by apply Hq|by left]. }
  unfold ptrs in *. split; apply H; intros Hz; apply elem_of_app; [left|right]; by rewrite (proj2 (Z.eqb_neq _ _) Hz), list_elem_of_singleton.
Qed.

(** * The operations *)

(** Copying the old serial numbers into the new block and adding one. *)
Lemma copy_words F s i k np n cnt b : held (np :: F) s i k → Z.of_nat (4 * cnt) ≤ payload_len k →
  arena s !! np = Some b → length b = ((cnt + 1) * 4)%nat →
  let s1 := if (cnt =? 0)%nat then s else let '(s, old) := load s (payload k) 0 (cnt * 4) in store s np 0 old in
  held (np :: F) (store32 s1 np cnt n) i k ∧
  ∃ b', arena (store32 s1 np cnt n) !! np = Some b' ∧ length b' = ((cnt + 1) * 4)%nat.
Proof.
  intros Hh Hc Hb Hl. cbv zeta. set (s1 := if (cnt =? 0)%nat then s else _).
  assert (held (np :: F) s1 i k ∧ ∃ b', arena s1 !! np = Some b' ∧ length b' = length b) as [Hh1 (b1 & Hb1 & Hl1)].
  { subst s1. destruct (Nat.eqb_spec cnt 0); [split; [done|by exists b]|].
    rewrite load_inside; [|apply (fits_inside _ _ (payload_len k)); [apply (he_ok _ _ _ _ Hh)|lia..]].
    apply held_store; [done..|]. rewrite length_take. lia. }
  clearbody s1. destruct (held_store _ _ _ _ _ (4 * cnt) (le32 n) _ Hh1 Hb1) as [Hh2 (b2 & Hb2 & Hl2)];
    [cbn [le32 length]; lia|]. split; [done|]. exists b2. split; [done|lia].
Qed.

Lemma ring_link_wf F s r n : wf F s → wf F (fst (ring_link_locked s r n)).
Proof.
  intros Hwf. destruct r as [i|]; [|done]. unfold ring_link_locked. cbn zeta.
  destruct (Z.eqb_spec (type (slot_at s i)) KEY_TYPE_KEYRING) as [Ht|]; [|done]. cbn [negb].
  set (r := slot_at s i) in *.
  destruct (slot_at_range s i) as [Hi Hlt]; [right; fold r; by rewrite Ht|]. fold r in Hi.
  pose proof (held_open _ _ _ _ Hwf Hi) as Hr. pose proof (he_ok _ _ _ _ Hr) as Hok.
  pose proof (slot_linked_state s r n Hok) as Hs. pose proof (words_fit s r Hok) as Hw.
  set (cnt := Z.to_nat _) in *. clearbody cnt. destruct (linked_loop _ _ _ _ _) as [s0 found]. simpl in Hs. subst s0.
  destruct found; [done|]. destruct (64 <=? cnt)%nat; [done|].
  change (kmalloc s ((cnt + 1) * 4)) with (alloc s (replicate ((cnt + 1) * 4) 0)).
  pose proof (held_alloc F s i r (replicate ((cnt + 1) * 4) 0) Hr) as HM.
  pose proof (alloc_wf F s (replicate ((cnt + 1) * 4) 0) Hwf) as HW.
  destruct (alloc s _) as [s1 np]. destruct HM as [_ HM]. destruct (np =? 0); [apply HW|]. destruct HM as [Hh Hnp].
  assert (used r = true) as Hu.
  { destruct (used r) eqn:E; [done|]. apply (so_unused _ _ Hok) in E. by rewrite E in Ht. }
  destruct (copy_words _ _ _ _ _ n cnt _ Hh Hw Hnp (length_replicate _ _)) as [Hh2 (b2 & Hb2 & Hl2)]. clear HW Hh Hnp.
  set (s2 := store32 _ _ _ _) in *. clearbody s2.
  destruct (held_fresh _ _ _ _ _ _ Hh2 Hb2) as [Hnp' _]. apply held_close. apply free_payload in Hh2; [|done].
  apply (give_payload _ _ _ (set_payload r 0 0) np _ _ Hh2 eq_refl Hnp'); [lia|done|intros _; by eexists].
Qed.

Lemma alloc_named_wf F s name : wf F s → wf F (fst (alloc_named_keyring s name)).
Proof.
  intros Hwf. unfold alloc_named_keyring. pose proof (slot_alloc_held _ _ Hwf) as H.
  destruct (slot_alloc s) as [s' [i|]]; [|by subst]. destruct H as (-> & _ & H). apply held_close, H; [by left|..];
  rewrite length_take; unfold KEY_DESC_MAX, KEY_SUBJ_MAX; lia.
Qed.

Lemma keyring_init_wf F s : wf F s → wf F (fst (keyring_init s)).
Proof.
  intros Hwf. unfold keyring_init. destruct (kr_inited s); [done|].
  pose proof (alloc_named_wf F s s_session Hwf) as H1. destruct (alloc_named_keyring s s_session) as [s1 i1].
  pose proof (alloc_named_wf F s1 s_builtin H1) as H2. destruct (alloc_named_keyring s1 s_builtin) as [s2 i2].
  pose proof (alloc_named_wf F s2 s_secondary H2) as H3. destruct (alloc_named_keyring s2 s_secondary) as [s3 i3].
  cbv zeta. cbn [fst] in *. apply wf_inited.
  set (s4 := set_rings _ _ _ _). assert (wf F s4) as H4 by by apply wf_rings. clearbody s4.
  destruct i2; [|done]. destruct i3; [|done]. by apply ring_link_wf.
Qed.

Lemma cstr_length l : (length (cstr l) ≤ length l)%nat.
Proof. induction l as [|x l IH]; cbn [cstr]; [done|]. destruct (x =? 0); simpl; lia. Qed.

Lemma cstr_take l : (length (cstr (take (KEY_SUBJ_MAX - 1) l)) < KEY_SUBJ_MAX)%nat.
Proof. pose proof (cstr_length (take (KEY_SUBJ_MAX - 1) l)) as H. rewrite length_take in H. unfold KEY_SUBJ_MAX in *. lia. Qed.

Lemma add_key_wf F s t desc pl ring : wf F s → wf F (fst (keyring_add_key s t desc pl ring)).
Proof.
  intros Hwf. unfold keyring_add_key.
  destruct (negb (t =? _) && _ && _) eqn:Et; [done|]. destruct desc as [[|d desc]|]; [done| |done].
  assert (t = KEY_TYPE_KEYRING ∨ t = KEY_TYPE_ASYMMETRIC ∨ t = KEY_TYPE_USER) as Ht.
  { destruct (Z.eqb_spec t KEY_TYPE_KEYRING); [by left|]. destruct (Z.eqb_spec t KEY_TYPE_ASYMMETRIC); [by right; left|].
    destruct (Z.eqb_spec t KEY_TYPE_USER); [by right; right|done]. }
  cbv zeta. destruct (ring_resolve s ring <? 0); [done|].
  pose proof (slot_alloc_held _ _ Hwf) as HA. destruct (slot_alloc s) as [s1 [i|]]; [|by subst].
  destruct HA as (-> & Ha & HA).
  specialize (HA t (take (KEY_DESC_MAX - 1) (d :: desc)) (take (KEY_SUBJ_MAX - 1) (d :: desc)) 0x3f3f0000 Ht).
  rewrite !length_take in HA. specialize (HA ltac:(unfold KEY_DESC_MAX; lia) ltac:(unfold KEY_SUBJ_MAX; lia)).
  set (k := set_names _ _ _ _ _) in *. set (u := if t =? KEY_TYPE_ASYMMETRIC then _ else _).
  assert (held F (fst u) i (snd u)) as Hu.
  { subst u. destruct (Z.eqb_spec t KEY_TYPE_ASYMMETRIC) as [E|E].
    - destruct pl as [[|x l]|]; [done| |done]. eapply held_rename; [exact HA|done..| |].
      + cbn. unfold KEY_DESC_MAX. simpl. rewrite length_take. lia.
      + apply cstr_take.
    - destruct (Z.eqb_spec t KEY_TYPE_USER) as [E'|E']; [|done].
      destruct pl as [[|x l]|]; [done| |done]. rewrite kmalloc_copy_alloc. pose proof (held_alloc _ _ _ _ (x :: l) HA) as HM.
      destruct (alloc s1 (x :: l)) as [s2 p]. destruct HM as [_ HM]. cbn [fst snd].
      destruct (p =? 0); [done|]. destruct HM as [HM Hp]. apply (give_payload _ _ _ _ _ (x :: l)); [done..|lia|done|].
      simpl. by rewrite E'. }
  destruct u as [s2 k']. cbn [fst snd] in *. apply held_close in Hu.
  destruct (slot_by_serial _ _); [by apply ring_link_wf|done].
Qed.

End frame.
