(* ===== verification/KeyringCert.v ===== *)
(** A certificate that the keyring generates fits the buffer it is written to. *)
From S2P Require Import Prelude Sha256 Ecc EccApi EccSign X509 X509Props Keyring.
Import Sha256 Ecc Asn1 X509 Keyring.

(** What certificate generation relies on: the curve constants are blank or set up,
    and the hash function's block is 64 bytes. *)
Definition crypto_ok (g : genv) (cr : crypto) : Prop := curve_ok (ccurve cr) ∧ length (gjunk g) = 64%nat.

Lemma request_ok subj b before after key : length b = 20%nat → bytes b → key_ok key →
  length before = 13%nat → length after = 13%nat →
  req_ok (MkReq (subject_or_default subj) (fix_serial b) 20 before after key).
Proof.
  intros Hl Hb (Hd & [Hx _] & [Hy _] & _) H1 H2.
  split; cbn [X509.subject X509.serial serial_len not_before not_after X509.key]; try done.
  - unfold subject_or_default. pose proof (length_take subj (Z.to_nat X509_CN_MAX)) as Ht.
    destruct (take _ _); unfold X509_CN_MAX in *; [vm_compute; congruence|]. rewrite Ht. lia.
  - destruct b as [|x b]; [done|]. apply Forall_cons in Hb as [Hx' Hb]. split; [done|]. constructor; [|done].
    pose proof (Z.land_ones x 7 ltac:(lia)) as E. change (Z.ones 7) with 0x7f in E.
    pose proof (Z.mod_pos_bound x (2 ^ 7)). destruct (_ =? 0); lia.
Qed.

Lemma result_inj {A B} (a a' : A) (b b' : B) : Some (a, Some b) = Some (a', Some b') → b = b'.
Proof. by intros [= _ <-]. Qed.

Lemma make_selfsigned_fits g cr subj cr' crt : crypto_ok g cr →
  make_selfsigned g cr subj 2048 = Some (cr', Some crt) → (length crt ≤ 2048)%nat.
Proof.
  intros [Hc Hj]. unfold make_selfsigned. pose proof (rand_source (gjunk g) (gent g) Hj) as HR.
  destruct (rand_fills (crand cr) 20 ltac:(lia)) as (r1 & b & E1 & Hl & Hb). rewrite E1. cbn [mbind option_bind]. cbv zeta.
  destruct (keygen_loop_ok (Rand.crypto_rand_bytes (gjunk g) (gent g)) 16 r1) as (r2 & key & E2 & Hk).
  assert (ecc_keygen (Rand.crypto_rand_bytes (gjunk g) (gent g)) (ccurve cr) r1 true = Some (curve1, r2, key)) as ->.
  { unfold ecc_keygen. rewrite curve_init_ok by done. cbn [negb]. by rewrite E2. }
  cbn [mbind option_bind]. destruct key as [key|]; [|done]. set (req := MkReq _ _ _ _ _ _).
  assert (req_ok req) as Hr by (apply request_ok; [lia|done..]). clearbody req.
  rewrite generate_eq; [|right; reflexivity|exact Hj|exact Hr|lia].
  destruct (ecdsa_sign _ _ _ _ _) as [[c' [[r s]|]]|] eqn:Es; cbn [mbind option_bind]; [|done..].
  intros <-%result_inj.
  assert (bytes32 (sha256_spec (encode (tbs_der req)))) as Hh by (split; [apply digest_length|apply digest_bytes]).
  apply sign_bytes in Es as [Hrb Hsb]; [|right; reflexivity|exact Hj|apply Hr|exact Hh].
  pose proof (cert_bound req r s Hr Hrb Hsb). pose proof (encode_bound (cert_der req r s)). lia.
Qed.
