(* ===== verification/KeyringProps.v ===== *)
(** What the keyring guarantees: every entry point keeps the table and its blocks
    well formed, in any history of calls, with other CPUs running whenever the lock
    is dropped; a stored key reads back; the system certificate dangles once its
    key is revoked. *)
From S2P Require Import Prelude Sha256 Ecc Printf X509 Keyring KeyringInv KeyringCert.
Import Printf Keyring.

(** * keyctl *)

Definition good (other : kr → kr) : Prop := ∀ G s, wf G [] s → wf G [] (other s).

(** A block in hand is out of reach for the other CPUs. *)
Lemma owns_lend G L F s p b : owns G L (p :: F) s → arena s !! p = Some b →
  owns (<[p := b]> G) L F s ∧ p ≠ 0 ∧ G !! p = None.
Proof.
  intros [H1 H2 H3 H4 H5 H6] Hb. assert (owned L ++ p :: F ≡ₚ p :: owned L ++ F) as HP by by rewrite Permutation_middle.
  rewrite HP in H1, H2. setoid_rewrite HP in H3. setoid_rewrite HP in H6. apply NoDup_cons in H1 as [Hni H1].
  setoid_rewrite elem_of_cons in H2. setoid_rewrite elem_of_cons in H3. setoid_rewrite elem_of_cons in H6.
  assert (G !! p = None) as Hg by (destruct (G !! p) eqn:E; [destruct (H6 _ _ E); tauto|done]).
  split; [|split; [intros ->; tauto|done]]. split; [done|tauto| |done|done|].
  - intros q. rewrite H3. destruct (decide (q = p)) as [->|Hq].
    + rewrite lookup_insert_eq. split; [intros _; right; by eexists|tauto].
    + rewrite lookup_insert_ne by done. tauto.
  - intros q c. destruct (decide (q = p)) as [->|Hq].
    + rewrite lookup_insert_eq. by intros [= ->].
    + rewrite lookup_insert_ne by done. intros E. destruct (H6 _ _ E). tauto.
Qed.

Lemma owns_return G L F s p b : owns (<[p := b]> G) L F s → p ≠ 0 → G !! p = None →
  owns G L (p :: F) s ∧ arena s !! p = Some b.
Proof.
  intros [H1 H2 H3 H4 H5 H6] Hp Hg. destruct (H6 p b) as [Hb Hni]; [by rewrite lookup_insert_eq|]. split; [|done].
  assert (owned L ++ p :: F ≡ₚ p :: owned L ++ F) as HP by by rewrite Permutation_middle.
  split; rewrite ?HP; [by constructor|rewrite elem_of_cons; by intros [?|?]| |done|done|].
  - intros q. rewrite HP, H3, elem_of_cons. destruct (decide (q = p)) as [->|Hq].
    + rewrite lookup_insert_eq. split; [intros _; by left; left|intros _; right; by eexists].
    + rewrite lookup_insert_ne by done. tauto.
  - intros q c E. assert (q ≠ p) by (intros ->; congruence). destruct (H6 q c) as [E1 E2]; [by rewrite lookup_insert_ne|].
    split; [done|]. rewrite HP, elem_of_cons. tauto.
Qed.

(** What others do leaves a block in hand alone. *)
Lemma good_lend other G s p b : good other → wf G [p] s → arena s !! p = Some b →
  wf G [p] (other s) ∧ arena (other s) !! p = Some b.
Proof.
  intros Hother [Hl Ho] Hb. destruct (owns_lend _ _ _ _ _ _ Ho Hb) as (HL & Hp & Hg).
  destruct (Hother (<[p := b]> G) s) as [Hl' Ho']; [by split|].
  destruct (owns_return _ _ _ _ _ _ Ho' Hp Hg). by split; [split|].
Qed.

Lemma install_wf G other s pem : good other → wf G [] s → wf G [] (fst (keyring_install_system_ca other s pem)).
Proof.
  intros Hother Hwf. unfold keyring_install_system_ca. pose proof (keyring_init_wf G [] s Hwf) as H.
  destruct (keyring_init s) as [s1 e]. cbn [fst] in H. destruct (negb (e =? 0)); [done|].
  destruct pem as [[|x l]|]; [done| |done]. destruct (_ && _ && _); [done|].
  rewrite kmalloc_copy_alloc. pose proof (alloc_wf G [] s1 (x :: l) H) as HM. destruct (alloc s1 (x :: l)) as [s0 p].
  destruct HM as [_ HM]. destruct (p =? 0); [done|]. destruct HM as [HM Hp].
  destruct (good_lend _ _ _ _ _ Hother HM Hp) as [HM' Hp']. clear HM Hp. cbv zeta. set (s2 := other s0) in *. clearbody s2. clear s0.
  rename HM' into HM, Hp' into Hp.
  destruct (system_certs_loaded s2); [by apply kfree_wf|].
  pose proof (slot_alloc_held _ _ _ HM) as HA. destruct (slot_alloc s2) as [s3 [i|]]; [|subst; by apply kfree_wf].
  destruct HA as (-> & Ha & HA). rewrite <- Ha in Hp. cbv zeta. cbn [fst]. apply wf_system.
  set (k := set_names _ _ _ _ _) in *.
  assert (wf G [] (put_slot s3 i (set_payload k p (length (x :: l))))) as H4.
  { apply held_close. apply (give_payload _ _ _ _ _ _ (x :: l)); [|done..|lia|done|done].
    apply HA; [by right; right|apply Nat.ltb_lt; reflexivity..]. }
  destruct (slot_by_serial _ _); [|done]. by apply ring_link_wf.
Qed.

Lemma slot_at_ok G F s i : wf G F s → slot_ok (arena s) (slot_at s i).
Proof.
  intros [_ [_ _ _ _ H _]]. unfold slot_at. destruct (keys s !! i) eqn:E; [by eapply Forall_lookup_1|].
  split; try done; simpl; unfold KEY_DESC_MAX, KEY_SUBJ_MAX; lia.
Qed.

Lemma request_loop_state G s t desc r ks : wf G [] s → (request_loop s t desc r ks).1 = s.
Proof.
  intros Hwf. induction ks as [|k ks IH]; cbn [request_loop]; [done|]. destruct (_ || _); [done|].
  set (u := match r with None => _ | _ => _ end).
  assert (u.1 = s) as Hu.
  { subst u. destruct r as [i|]; [|done]. destruct (_ =? _); [|done]. by eapply slot_linked_state, slot_at_ok. }
  destruct u as [s' b]. simpl in Hu. subst s'. by destruct (_ && _).
Qed.

Lemma request_wf G other s t desc ring : good other → wf G [] s → wf G [] (fst (keyring_request_key other s t desc ring)).
Proof.
  intros Hother Hwf. unfold keyring_request_key. cbv zeta. set (r := if 0 <=? _ then _ else _).
  pose proof (request_loop_state G s t desc r (keys s) Hwf) as Hs. destruct (request_loop _ _ _ _ _) as [s' found].
  simpl in Hs. subst s'. destruct found; [done|]. by apply add_key_wf, Hother.
Qed.

Lemma kfree_keys s p : keys (kfree s p) = keys s.
Proof. unfold kfree. destruct (p =? 0); [done|]. by case_bool_decide. Qed.

(** A store into the payload of a slot taken out. *)
Lemma held_store_own G F s i k off l : held G F s i k → (0 < length l)%nat → Z.of_nat (off + length l) ≤ payload_len k →
  held G F (store s (payload k) off l) i k ∧ keys (store s (payload k) off l) = keys s.
Proof.
  intros [H1 H2 H3 H4] Hl Ho. pose proof (so_payload _ _ H4) as Hf. unfold fits in Hf.
  destruct (Z.eqb_spec (payload k) 0) as [|Hp]; [lia|]. destruct Hf as (b & Hb & Hn).
  destruct (store_length _ _ off l _ Hb ltac:(lia)) as (b' & -> & Hb'). pose proof (ptrs_distinct _ _ _ _ _ H3 Hp) as Hd.
  split; [|done]. unfold ptrs in H3. rewrite (proj2 (Z.eqb_neq _ _) Hp) in H3. split; [done|done| |].
  - unfold ptrs. rewrite (proj2 (Z.eqb_neq _ _) Hp). exact (owns_write _ _ _ _ _ b' H3).
  - destruct H4 as [G1 G2 G3 G4 G5 G6 G7 G8]. split; try done; simpl.
    + unfold fits. rewrite (proj2 (Z.eqb_neq _ _) Hp). exists b'. rewrite lookup_insert_eq. split; [done|lia].
    + unfold fits in *. destruct (cert k =? 0); [done|]. by rewrite lookup_insert_ne by done.
Qed.

Section keyctl.
Context (g : genv) (other other' : kr → kr) (Hother : good other) (Hother' : good other').

Lemma generate_wf G s cr subj s' r : wf G [] s → crypto_ok g cr → generate_unlocked g other other' s cr subj = (s', r) →
  match r with
  | None | Some (_, inl _) => wf G [] s'
  | Some (_, inr (der, n)) => wf G [der] s' ∧ ∃ b, arena s' !! der = Some b ∧ 0 ≤ n ≤ length b
  end.
Proof using Hother Hother'.
  intros Hwf Hcr. unfold generate_unlocked. apply Hother in Hwf. cbv zeta.
  change (kmalloc (other s) 2048) with (alloc (other s) (replicate 2048 0)).
  pose proof (alloc_wf _ _ _ (replicate 2048 0) Hwf) as HM.
  destruct (alloc (other s) (replicate 2048 0)) as [s1 p]. destruct HM as [_ HM].
  destruct (p =? 0); [by intros [= <- <-]|]. destruct HM as [HM Hp].
  destruct (make_selfsigned g cr (cstr subj) 2048) as [[cr1 [crt|]]|] eqn:Em; intros [= <- <-].
  - apply make_selfsigned_fits in Em; [|done].
    destruct (store_wf _ _ _ _ 0 crt _ HM Hp) as [HS (b & Hb & Hl)]; [rewrite length_replicate; lia|].
    destruct (good_lend _ _ _ _ _ Hother' HS Hb) as [HR Hb']. split; [done|]. exists b. split; [done|].
    rewrite length_replicate in Hl. lia.
  - by apply kfree_wf, (good_lend _ _ _ _ _ Hother' HM Hp).
  - by apply hang_wf.
Qed.

Lemma attach_wf G s p b n m i : wf G [p] s → arena s !! p = Some b → 0 ≤ n ≤ length b →
  slot_by_serial s m = Some i → wf G [] (slot_attach_cert s i p n).
Proof.
  intros Hwf Hb Hn Hi. destruct (slot_by_serial_Some _ _ _ Hi) as (Hk & _ & Hu & _).
  pose proof (held_open _ _ _ _ _ Hwf Hk) as Hh. destruct (held_fresh _ _ _ _ _ _ _ Hh Hb) as [_ Hb'].
  apply free_cert in Hh; [|done]. unfold slot_attach_cert. cbv zeta.
  assert (slot_at (kfree s (cert (slot_at s i))) i = slot_at s i) as -> by (unfold slot_at; by rewrite kfree_keys).
  apply held_close. by apply (give_cert _ _ _ _ _ _ _ n Hh eq_refl Hb').
Qed.

Lemma clear_payload_wf G s n i : wf G [] s → slot_by_serial s n = Some i →
  wf G [] (put_slot (kfree s (payload (slot_at s i))) i (set_payload (slot_at s i) 0 0)).
Proof.
  intros Hwf Hi. destruct (slot_by_serial_Some _ _ _ Hi) as (Hk & _ & Hu & _).
  apply held_close, free_payload; [by apply held_open|done].
Qed.

Lemma update_wf G s cr n pl : wf G [] s → crypto_ok g cr → wf G [] (keyctl_update g other other' s cr n pl).1.
Proof using Hother Hother'.
  intros Hwf Hcr. unfold keyctl_update. destruct (slot_by_serial s n) as [i|] eqn:Ei; [|done].
  destruct (slot_by_serial_Some _ _ _ Ei) as (Hk & _ & Hu & _). pose proof (held_open _ _ _ _ _ Hwf Hk) as Hh.
  pose proof (he_ok _ _ _ _ _ Hh) as Hok. set (k := slot_at s i) in *. cbv zeta.
  destruct (type k =? KEY_TYPE_ASYMMETRIC).
  - set (k1 := match pl with None => k | _ => _ end).
    assert (held G [] s i k1 ∧ used k1 = true) as [Hh1 Hu1].
    { subst k1. destruct pl as [[|x l]|]; [done| |done]. split; [|done]. eapply held_rename; [exact Hh|done..|apply Hok|].
      apply cstr_take. }
    clearbody k1. apply free_cert, held_close in Hh1; [|done]. set (s1 := put_slot _ _ _) in *.
    destruct (generate_unlocked g other other' s1 cr (subject k1)) as [s2 r] eqn:Eg.
    apply (generate_wf G) in Eg; [|done..]. destruct r as [[cr2 [e|[p m]]]|]; [done| |done].
    destruct Eg as [Hw (b & Hb & Hm)]. destruct (slot_by_serial s2 n) as [j|] eqn:Ej.
    + by eapply attach_wf.
    + by apply kfree_wf.
  - destruct (Z.eqb_spec (type k) KEY_TYPE_USER) as [Et|]; [|done].
    apply free_payload in Hh; [|done]. set (k1 := set_payload k 0 0) in *. set (s1 := kfree _ _) in *.
    assert (payload k1 = 0 ∧ used k1 = true ∧ type k1 = KEY_TYPE_USER) as (Hp1 & Hu1 & Ht1) by done. clearbody k1 s1.
    destruct pl as [[|x l]|]; [by apply held_close| |by apply held_close]. rewrite kmalloc_copy_alloc.
    pose proof (held_alloc _ _ _ _ _ (x :: l) Hh) as HM. destruct (alloc s1 (x :: l)) as [s2 p].
    destruct HM as [_ HM]. apply held_close. destruct (p =? 0); [done|]. destruct HM as [HM Hp].
    apply (give_payload _ _ _ _ _ _ (x :: l)); [done..|cbn [length]; lia|done|by rewrite Ht1].
Qed.

(** The copy to the caller's buffer stays inside the slot's block. *)
Lemma read_out_state G F s i buf : wf G F s → (read_out s i buf).1.1 = s.
Proof.
  intros Hwf. pose proof (slot_at_ok _ _ _ i Hwf) as Hok. unfold read_out.
  destruct (read_source (slot_at s i)) as [e|[src total]] eqn:E; [done|]. destruct buf as [buf|]; [|done]. cbv zeta.
  destruct (Z.ltb_spec 0 (if buf <? total then buf else total)) as [Hn|]; [|done]. destruct (nz src); [|done]. cbn [andb].
  rewrite load_inside; [done|]. apply (fits_inside _ _ total); [|lia|destruct (Z.ltb_spec buf total); lia].
  unfold read_source in E. destruct (_ =? _); [destruct (_ || _); [done|]|]; injection E as <- <-; apply Hok.
Qed.

Lemma read_out_wf G F s i buf : wf G F s → wf G F (read_out s i buf).1.1.
Proof. intros Hwf. by rewrite (read_out_state G F). Qed.

Lemma read_wf G s cr n buf : wf G [] s → crypto_ok g cr → wf G [] (keyctl_read g other other' s cr n buf).1.
Proof using Hother Hother'.
  intros Hwf Hcr. unfold keyctl_read. destruct (slot_by_serial s n) as [i|] eqn:Ei; [|done]. cbv zeta.
  destruct (_ && _).
  - destruct (generate_unlocked g other other' s cr _) as [s2 r] eqn:Eg.
    apply (generate_wf G) in Eg; [|done..]. destruct r as [[cr2 [e|[p m]]]|]; [done| |done].
    destruct Eg as [Hw (b & Hb & Hm)]. destruct (slot_by_serial s2 n) as [j|] eqn:Ej; [|by apply kfree_wf].
    set (s3 := if negb _ then _ else _).
    assert (wf G [] s3) as H3 by (subst s3; destruct (negb _); [by eapply attach_wf|by apply kfree_wf]).
    apply (read_out_wf _ _ _ j buf) in H3. by destruct (read_out s3 j buf) as [[??]?].
  - apply (read_out_wf _ _ _ i buf) in Hwf. by destruct (read_out s i buf) as [[??]?].
Qed.

(** The loop in place reads and writes the words of the slot. *)
Lemma unlink_loop_wf G s i k keyid j todo w : held G [] s i k → (w ≤ j)%nat → Z.of_nat (4 * (j + todo)) ≤ payload_len k →
  held G [] (unlink_loop s (payload k) keyid j todo w).1 i k ∧
  keys (unlink_loop s (payload k) keyid j todo w).1 = keys s ∧ ((unlink_loop s (payload k) keyid j todo w).2 ≤ w + todo)%nat.
Proof.
  revert s j w. induction todo as [|todo IH]; intros s j w Hh Hw Hj; cbn [unlink_loop]; [simpl; split; [done|split; [done|lia]]|].
  pose proof (so_payload _ _ (he_ok _ _ _ _ _ Hh)) as Hf. pose proof (load32_inside s _ _ j Hf ltac:(lia)) as Hs.
  destruct (load32 s (payload k) j) as [s1 x] eqn:El. simpl in Hs. subst s1. destruct (x =? keyid).
  { destruct (IH s (S j) w Hh ltac:(lia) ltac:(lia)) as (H1 & H2 & H3). split; [done|]. split; [done|lia]. }
  rewrite El. destruct (held_store_own G [] s i k (4 * w) (le32 x) Hh) as [H1 H2]; [cbn [le32 length]; lia|cbn [le32 length]; lia|].
  destruct (IH (store32 s (payload k) w x) (S j) (S w) H1 ltac:(lia) ltac:(lia)) as (H3 & H4 & H5).
  split; [done|]. split; [by rewrite H4|lia].
Qed.

Lemma unlink_wf G s r k keyid : wf G [] s → keys s !! r = Some k → used k = true →
  let '(s', w) := unlink_loop s (payload k) keyid 0 (Z.to_nat (payload_len k / 4)) 0 in
  wf G [] (put_slot s' r (set_payload k (payload k) (w * 4))).
Proof.
  intros Hwf Hr Hu. pose proof (held_open _ _ _ _ _ Hwf Hr) as Hh. pose proof (words_fit s k (he_ok _ _ _ _ _ Hh)) as Hn.
  destruct (unlink_loop_wf G s r k keyid 0 (Z.to_nat (payload_len k / 4)) 0 Hh) as (H1 & H2 & H3); [done|lia|].
  destruct (unlink_loop _ _ _ _ _ _) as [s' w]. simpl in H1, H2, H3. apply held_close. destruct H1 as [G1 G2 G3 G4].
  split; [done..|]. apply set_payload_ok; [done| |intros _; by exists w|by rewrite Hu].
  pose proof (so_payload _ _ G4) as Hf. unfold fits in *. destruct (payload k =? 0); [lia|].
  destruct Hf as (b & Hb & Hl). exists b. split; [done|lia].
Qed.

Lemma revoke_wf G s n i : wf G [] s → slot_by_serial s n = Some i →
  wf G [] (put_slot (kfree (kfree s (payload (slot_at s i))) (cert (slot_at s i))) i slot0).
Proof.
  intros Hwf Hi. destruct (slot_by_serial_Some _ _ _ Hi) as (Hk & _ & Hu & _).
  apply held_open with (G := G) (F := []) in Hk; [|done]. apply free_payload in Hk; [|done].
  apply free_cert in Hk; [|done]. destruct Hk as [H1 H2 H3 H4]. apply held_close. split; [done..|].
  split; try done. simpl. unfold KEY_DESC_MAX. lia. simpl. unfold KEY_SUBJ_MAX. lia.
Qed.

Lemma join_wf G s cr euid : wf G [] s → wf G [] (keyctl_do g other other' euid s cr JOIN_SESSION_KEYRING).1.
Proof.
  intros Hwf. unfold keyctl_do. set (s1 := match slot_by_serial s (session_serial s) with None => s | _ => _ end).
  assert (wf G [] s1) as H1.
  { subst s1. destruct (slot_by_serial s (session_serial s)) eqn:E; [|done]. by eapply clear_payload_wf. }
  clearbody s1. pose proof (slot_alloc_held _ _ _ H1) as HA. destruct (slot_alloc s1) as [s2 [i|]]; [|by subst].
  destruct HA as (Hs & _ & HA). cbv zeta. rewrite Hs. apply wf_rings, held_close.
  apply (HA KEY_TYPE_KEYRING s_session s_session 0); [by left|apply Nat.ltb_lt; reflexivity..].
Qed.

Lemma setperm_wf G s i n p : wf G [] s → slot_by_serial s n = Some i → wf G [] (put_slot s i (set_perms (slot_at s i) p)).
Proof.
  intros Hwf Hi. destruct (slot_by_serial_Some _ _ _ Hi) as (Hk & _ & Hu & _). pose proof (held_open _ _ _ _ _ Hwf Hk) as Hh.
  pose proof (he_ok _ _ _ _ _ Hh) as Hok. apply held_close. eapply held_rename; [exact Hh|done..|apply Hok|apply Hok].
Qed.

Lemma keyctl_wf G s cr c euid : wf G [] s → crypto_ok g cr → wf G [] (keyctl_do g other other' euid s cr c).1.
Proof using Hother Hother'.
  intros Hwf Hcr.
  destruct c as [ringid create| |n p|n pl|n|n buf|n|keyid ringid|keyid ringid|ringid ty desc|n buf|];
    [|by apply join_wf|..]; cbn [keyctl_do]; cbv zeta.
  - destruct (_ && _); [|done].
    pose proof (add_key_wf G [] (other s) KEY_TYPE_KEYRING (Some s_keyring) None 0 (Hother _ _ Hwf)) as H.
    by destruct (keyring_add_key _ _ _ _ _).
  - destruct (slot_by_serial s n) as [i|] eqn:Ei; [|done]. pose proof (setperm_wf _ _ _ _ p Hwf Ei).
    by destruct euid as [e|]; [destruct (_ && _)|].
  - pose proof (update_wf G s cr n pl Hwf Hcr) as H. by destruct (keyctl_update g other other' s cr n pl).
  - destruct (slot_by_serial s n) as [i|] eqn:Ei; [by eapply revoke_wf|done].
  - by destruct (slot_by_serial s n) as [i|].
  - destruct (slot_by_serial s n) as [i|] eqn:Ei; [by eapply clear_payload_wf|done].
  - destruct (slot_by_serial s keyid), (slot_by_serial s ringid); [|done..].
    destruct (negb _); [done|by apply ring_link_wf].
  - destruct (slot_by_serial s ringid) as [i|] eqn:Ei; [|done]. destruct (negb _); [done|].
    destruct (slot_by_serial_Some _ _ _ Ei) as (Hk & _ & Hu & _). pose proof (unlink_wf _ _ _ _ keyid Hwf Hk Hu) as H.
    by destruct (unlink_loop _ _ _ _ _ _).
  - destruct desc as [desc|]; [|done]. destruct (_ =? 0); [done|].
    match goal with |- context [keyring_request_key other s ?t desc ?r] => pose proof (request_wf G other s t desc r Hother Hwf) as H end.
    by destruct (keyring_request_key _ _ _ _ _).
  - by apply read_wf.
  - done.
Qed.
End keyctl.

(** * Histories *)

(** The entry points with their arguments, and with the calls that run meanwhile on
    other CPUs: after an installed certificate is copied, between a search and the
    creation of the key, and before and after a certificate is generated.  [cr] is the
    state of the curve constants and of the random number generator the call finds. *)
#[warnings="-register-all"]
Inductive entry :=
  | INIT
  | LOAD_SYSTEM_CERTS
  | INSTALL (before : list entry) (pem : option (list Z))
  | SYSTEM_CERT_DER
  | ADD_KEY (t : Z) (desc pl : option (list Z)) (ring : Z)
  | REQUEST_KEY (before : list entry) (t : Z) (desc : list Z) (ring : Z)
  | KEYCTL (g : genv) (before after : list entry) (euid : option Z) (cr : crypto) (c : command)
  | COUNT
  | WALK.

(** The state after the calls; one that never returns is left where it stays. *)
Fixpoint exec (e : entry) (s : kr) {struct e} : kr :=
  let fix execs (es : list entry) (s : kr) : kr := match es with [] => s | e :: es => execs es (exec e s) end in
  match e with
  | INIT => fst (keyring_init s)
  | LOAD_SYSTEM_CERTS => fst (keyring_load_system_certs s)
  | INSTALL before pem => fst (keyring_install_system_ca (execs before) s pem)
  | ADD_KEY t desc pl ring => fst (keyring_add_key s t desc pl ring)
  | REQUEST_KEY before t desc ring => fst (keyring_request_key (execs before) s t desc ring)
  | KEYCTL g before after euid cr c => fst (keyctl_do g (execs before) (execs after) euid s cr c)
  | SYSTEM_CERT_DER | COUNT | WALK => s
  end.
Fixpoint execs (es : list entry) (s : kr) : kr := match es with [] => s | e :: es => execs es (exec e s) end.

(** The calls that generate certificates find the cryptography in order. *)
Fixpoint entry_ok (e : entry) : Prop :=
  let fix all (es : list entry) : Prop := match es with [] => True | e :: es => entry_ok e ∧ all es end in
  match e with
  | INSTALL before _ | REQUEST_KEY before _ _ _ => all before
  | KEYCTL g before after _ cr _ => crypto_ok g cr ∧ all before ∧ all after
  | _ => True
  end.
Fixpoint entries_ok (es : list entry) : Prop := match es with [] => True | e :: es => entry_ok e ∧ entries_ok es end.

Lemma execs_good es : Forall (λ e, entry_ok e → good (exec e)) es → entries_ok es → good (execs es).
Proof. induction 1 as [|e es He _ IH]; intros Hok G s Hwf; [done|]. destruct Hok. by apply IH, He. Qed.

(** Induction for the calls inside an entry. *)
Ltac inner IH es :=
  apply execs_good; [|done]; let e := fresh "e" in let IHes := fresh "IHes" in
  clear -IH; induction es as [|e es IHes]; constructor; [apply IH|exact IHes].

Lemma exec_good : ∀ e, entry_ok e → good (exec e).
Proof.
  fix IH 1. intros [| |before pem| |t desc pl ring|before t desc ring|g before after euid cr c| |]; cbn [entry_ok]; fold entries_ok;
    [..|by intros _ G s|by intros _ G s].
  - intros _ G s Hwf. by apply keyring_init_wf.
  - intros _ G s Hwf. by apply keyring_init_wf.
  - intros Hok. assert (good (execs before)) as Hb by inner IH before. clear IH. intros G s. by apply install_wf.
  - by intros _ G s.
  - intros _ G s Hwf. by apply add_key_wf.
  - intros Hok. assert (good (execs before)) as Hb by inner IH before. clear IH. intros G s. by apply request_wf.
  - intros (Hcr & Hok & Hok'). assert (good (execs before)) as Hb by inner IH before.
    assert (good (execs after)) as Ha by inner IH after. clear IH. intros G s Hwf. by apply keyctl_wf.
Qed.

Lemma kr0_wf o : wf ∅ [] (kr0 o).
Proof.
  split; [done|]. split; simpl; [constructor|apply not_elem_of_nil| |done| |].
  - intros p. rewrite lookup_empty. split; [by intros []|]. intros [[]%elem_of_nil|[? ?]]; done.
  - apply (Forall_replicate (slot_ok ∅) KEYRING_MAX slot0). split; try done; simpl; unfold KEY_DESC_MAX, KEY_SUBJ_MAX; lia.
  - intros p b. by rewrite lookup_empty.
Qed.

(** C9: in every history of calls of the keyring's entry points, whatever the allocator
    answers and whatever other CPUs do while the lock is dropped, no access is made
    outside a live block and no block is freed twice; and the table stays well formed:
    each of its pointers is held by exactly one field of one slot and points to a live
    block at least as long as the slot records, an unused slot is blank, and every live
    block is one of those, or the buffer of a call that never returns.  What a caller
    does with the address that [keyring_system_cert_der] hands out is not part of it:
    that address dangles once the key is revoked ([system_cert_dangles]). *)
Theorem keyring_memory_safe (es : list entry) (o : list Z) : entries_ok es → wf ∅ [] (execs es (kr0 o)).
Proof.
  intros Hok. apply execs_good; [|done|apply kr0_wf]. apply Forall_forall. intros e _. apply exec_good.
Qed.

(** The system certificate is installed, a user key and an asymmetric key are stored, the
    session keyring is read, and the certificate of the asymmetric key is
    generated while another CPU reads the user key and then revokes it. *)
Definition env0 : genv := MkGenv 8 (replicate 64 0) (Rand.MkEntropy (λ i, i) 0 [] 0 0 0 0) (MkDate 2025 1 1 0 0 0).
Definition crypto0 : crypto := MkCrypto Ecc.curve0 (Rand.MkRand false [] 0).
Definition keyctl0 (before after : list entry) (c : command) : entry := KEYCTL env0 before after (Some 1000) crypto0 c.
Definition history0 : list entry :=
  [INSTALL [] (Some [45; 45]); SYSTEM_CERT_DER; ADD_KEY KEY_TYPE_USER (Some [107]) (Some [1; 2; 3]) 1;
   ADD_KEY KEY_TYPE_ASYMMETRIC (Some [99]) None 1; keyctl0 [] [] (READ 1 (Some 64));
   keyctl0 [keyctl0 [] [] (READ 5 (Some 8))] [keyctl0 [] [] (REVOKE 5)] (READ 6 (Some 1024)); WALK].

Lemma keyring_memory_safe_witness :
  entries_ok history0 ∧ wf ∅ [] (execs history0 (kr0 [16; 32; 48; 64; 80; 96])).
Proof.
  assert (crypto_ok env0 crypto0) as Hcr by (split; [left; reflexivity|reflexivity]).
  assert (entries_ok history0) as Hok by (cbn; tauto). split; [exact Hok|]. by apply keyring_memory_safe.
Defined.

(** * A stored key reads back *)

Lemma find_serial_unique l j n i k : l !! i = Some k → used k = true → serial k = n →
  (∀ i' k', (i' < i)%nat → l !! i' = Some k' → used k' = true → serial k' ≠ n) → find_serial l j n = Some (j + i)%nat.
Proof.
  revert j i. induction l as [|k0 l IH]; intros j i Hi Hu Hs Hlt; [done|]. cbn [find_serial]. destruct i as [|i].
  - injection Hi as ->. rewrite Hu, (proj2 (Z.eqb_eq _ _) Hs). by rewrite Nat.add_0_r.
  - destruct (used k0 && (serial k0 =? n)) eqn:E.
    + apply andb_true_iff in E as [E1 E2%Z.eqb_eq]. by destruct (Hlt 0%nat k0 ltac:(lia) eq_refl E1).
    + rewrite (IH (S j) i Hi Hu Hs); [f_equal; lia|]. intros i' k' Hlt' Hi'. by apply (Hlt (S i') k'); [lia|].
Qed.

Lemma find_serial_None l j n i k : find_serial l j n = None → l !! i = Some k → used k = true → serial k ≠ n.
Proof.
  revert j i. induction l as [|k0 l IH]; intros j i; cbn [find_serial]; [done|].
  destruct (used k0 && (serial k0 =? n)) eqn:E; [done|]. intros Hn. destruct i as [|i]; [|by apply (IH (S j))].
  intros [= ->] Hu Hs. by rewrite Hu, (proj2 (Z.eqb_eq _ _) Hs) in E.
Qed.

(** Two slots hold different blocks. *)
Lemma payload_distinct G s i j k k' : wf G [] s → keys s !! i = Some k → keys s !! j = Some k' → i ≠ j →
  payload k ≠ 0 → payload k ≠ payload k'.
Proof.
  intros [_ Ho] Hi Hj Hij Hp He. destruct (own_open _ _ _ _ _ _ Ho Hi) as [[Hnd _ _ _ _ _] _].
  apply NoDup_app in Hnd as (_ & Hd & _). apply (Hd (payload k)).
  - unfold owned. apply list_elem_of_bind. exists k'. split.
    + unfold ptrs. rewrite <- He, (proj2 (Z.eqb_neq _ _) Hp). by left.
    + apply list_elem_of_lookup. destruct (decide (j < i)%nat).
      * exists j. by rewrite list_lookup_delete_lt.
      * exists (j - 1)%nat. rewrite list_lookup_delete_ge by lia. by replace (S (j - 1)) with j by lia.
  - apply elem_of_app. left. unfold ptrs. rewrite (proj2 (Z.eqb_neq _ _) Hp). by left.
Qed.

(** Accesses leave the table and the other blocks alone. *)
Lemma load_only s p off n : keys (load s p off n).1 = keys s ∧ arena (load s p off n).1 = arena s.
Proof. unfold load. by destruct (inside _ _ _ _). Qed.

Lemma store_only s p off l : keys (store s p off l) = keys s ∧ ∀ q, q ≠ p → arena (store s p off l) !! q = arena s !! q.
Proof.
  unfold store. destruct (inside _ _ _ _); [|done]. split; [done|]. intros q Hq. by apply lookup_insert_ne, not_eq_sym.
Qed.

Lemma kfree_other s p q : p ≠ q → arena (kfree s p) !! q = arena s !! q.
Proof.
  intros Hpq. unfold kfree. destruct (p =? 0); [done|]. destruct (bool_decide _); [|done]. by apply lookup_delete_ne.
Qed.

(** Linking a key changes only the payload of the ring. *)
Lemma ring_link_other G s r n i k : wf G [] s → keys s !! i = Some k → type k ≠ KEY_TYPE_KEYRING →
  let s' := fst (ring_link_locked s r n) in
  keys s' !! i = Some k ∧ (payload k ≠ 0 → arena s' !! payload k = arena s !! payload k) ∧
  ∀ j k', keys s' !! j = Some k' → ∃ k0, keys s !! j = Some k0 ∧ used k0 = used k' ∧ serial k0 = serial k'.
Proof.
  intros Hwf Hi Ht. cbv zeta.
  assert (∀ s', keys s' = keys s → arena s' = arena s → keys s' !! i = Some k ∧
    (payload k ≠ 0 → arena s' !! payload k = arena s !! payload k) ∧
    ∀ j k', keys s' !! j = Some k' → ∃ k0, keys s !! j = Some k0 ∧ used k0 = used k' ∧ serial k0 = serial k') as Hid.
  { intros s' -> ->. split; [done|]. split; [done|]. eauto. }
  destruct r as [r|]; [|by apply Hid]. unfold ring_link_locked. cbv zeta.
  destruct (Z.eqb_spec (type (slot_at s r)) KEY_TYPE_KEYRING) as [Hr|]; [|by apply Hid]. cbn [negb].
  pose proof (slot_linked_state s (slot_at s r) n (slot_at_ok _ _ _ r Hwf)) as Hs.
  set (cnt := Z.to_nat _) in *. clearbody cnt. destruct (linked_loop _ _ _ _ _) as [s0 found]. simpl in Hs. subst s0.
  destruct found; [by apply Hid|]. destruct (64 <=? cnt)%nat; [by apply Hid|].
  destruct (slot_at_range s r) as [Hk Hlt]; [right; by rewrite Hr|].
  assert (r ≠ i) as Hne by (intros ->; rewrite Hi in Hk; injection Hk; congruence).
  change (kmalloc s ((cnt + 1) * 4)) with (alloc s (replicate ((cnt + 1) * 4) 0)).
  set (b := replicate _ _). pose proof (alloc_owns _ _ _ _ b (proj2 Hwf)) as HM.
  destruct (alloc s b) as [s1 p]. destruct HM as (Hk1 & _ & HM).
  destruct (p =? 0) eqn:Ep; [destruct HM; by apply Hid|]. destruct HM as [Ho1 Ha1]. cbn [fst].
  set (s2 := store32 _ _ _ _).
  assert (keys s2 = keys s1 ∧ ∀ q, q ≠ p → arena s2 !! q = arena s1 !! q) as [Hk2 Ha2].
  { subst s2. unfold store32. destruct (cnt =? 0)%nat; [apply store_only|].
    destruct (load s1 _ _ _) as [s1' old] eqn:El. destruct (load_only s1 (payload (slot_at s r)) 0 (cnt * 4)) as [E1 E2].
    rewrite El in E1, E2. simpl in E1, E2. destruct (store_only s1' p 0 old) as [E3 E4].
    destruct (store_only (store s1' p 0 old) p (4 * cnt) (le32 n)) as [E5 E6].
    split; [congruence|]. intros q Hq. by rewrite E6, E4, E2. }
  clearbody s2. unfold put_slot. cbn [keys arena set_keys]. rewrite kfree_keys, Hk2, Hk1.
  split; [by rewrite list_lookup_insert_ne|]. split.
  - intros Hp. pose proof (payload_distinct _ _ _ _ _ _ Hwf Hi Hk (not_eq_sym Hne) Hp) as Hd.
    assert (payload k ≠ p) as Hpp.
    { intros Hpp. destruct Ho1 as [Hnd _ _ _ _ _]. apply NoDup_app in Hnd as (_ & Hd' & _).
      apply (Hd' (payload k)); [|rewrite Hpp; by left]. unfold owned.
      apply list_elem_of_bind. exists k. split; [|by eapply list_elem_of_lookup_2].
      unfold ptrs. rewrite (proj2 (Z.eqb_neq _ _) Hp). by left. }
    rewrite kfree_other by (by apply not_eq_sym). by rewrite Ha2, Ha1, lookup_insert_ne by (done || by apply not_eq_sym).
  - intros j k'. destruct (decide (r = j)) as [<-|Hj].
    + rewrite list_lookup_insert_eq by done. intros [= <-]. exists (slot_at s r). done.
    + rewrite list_lookup_insert_ne by done. eauto.
Qed.

Section add_key.
Context (s : kr) (i : nat) (p : Z) (o : list Z) (desc pl : list Z) (ring : Z).
Context (Hi : find_free (keys s) 0 = Some i) (Ho : oracle s = p :: o) (Hp : p ≠ 0) (Ha : arena s !! p = None).
Context (Hd : desc ≠ []) (Hpl : pl ≠ []) (Hring : 0 ≤ ring_resolve s ring).

(** The slot of the new key, and the state before it is linked. *)
Definition new_slot : slot :=
  MkSlot true (next_serial s) KEY_TYPE_USER 0 0 0x3f3f0000 (take (KEY_DESC_MAX - 1) desc) (take (KEY_SUBJ_MAX - 1) desc)
    p (length pl) 0 0 false.
Definition stored : kr :=
  put_slot (set_heap (set_next (set_keys s (<[i := fresh_slot (next_serial s)]> (keys s))) (u32 (next_serial s + 1)))
              (<[p := pl]> (arena s)) o) i new_slot.

Lemma find_free_lt : (i < length (keys s))%nat.
Proof. apply find_free_Some in Hi as (k & H & _). rewrite Nat.sub_0_r in H. by apply lookup_lt_Some in H. Qed.

Lemma add_key_stored : keyring_add_key s KEY_TYPE_USER (Some desc) (Some pl) ring =
  let s' := match slot_by_serial stored (u32 (ring_resolve s ring)) with
            | Some r => fst (ring_link_locked stored (Some r) (serial (slot_at stored i)))
            | None => stored
            end in (s', serial (slot_at s' i)).
Proof.
  pose proof find_free_lt as Hlt. unfold keyring_add_key, slot_alloc. cbn [negb andb Z.eqb Pos.eqb KEY_TYPE_USER KEY_TYPE_KEYRING KEY_TYPE_ASYMMETRIC].
  destruct desc as [|d ds] eqn:Ed; [done|]. rewrite Hi. cbv zeta. destruct (Z.ltb_spec (ring_resolve s ring) 0); [lia|].
  destruct pl as [|x l] eqn:El; [done|]. rewrite kmalloc_copy_alloc. unfold alloc. cbn [oracle set_next set_keys arena]. rewrite Ho, Ha.
  rewrite (proj2 (Z.eqb_neq p 0) Hp), bool_decide_false by (by intros [? ?]). cbn [orb]. rewrite (proj2 (Z.eqb_neq p 0) Hp).
  assert (∀ n, slot_at (set_next (set_keys s (<[i := fresh_slot (next_serial s)]> (keys s))) n) i = fresh_slot (next_serial s)) as E.
  { intros n. unfold slot_at. cbn [keys set_next set_keys]. by rewrite list_lookup_insert_eq. }
  fold (fresh_slot (next_serial s)). rewrite E. unfold stored, new_slot. rewrite Ed, El. reflexivity.
Qed.

Lemma stored_wf G : wf G [] s → wf G [] stored.
Proof.
  intros Hwf. pose proof (slot_alloc_held _ _ _ Hwf) as HA. unfold slot_alloc in HA. rewrite Hi in HA. cbv zeta in HA.
  fold (fresh_slot (next_serial s)) in HA. destruct HA as (_ & _ & HA).
  specialize (HA KEY_TYPE_USER (take (KEY_DESC_MAX - 1) desc) (take (KEY_SUBJ_MAX - 1) desc) 0x3f3f0000 ltac:(by right; right)).
  rewrite !length_take in HA. specialize (HA ltac:(unfold KEY_DESC_MAX; lia) ltac:(unfold KEY_SUBJ_MAX; lia)).
  apply held_alloc with (b := pl) in HA. unfold alloc in HA. cbn [oracle set_next set_keys arena] in HA.
  rewrite Ho, Ha, (proj2 (Z.eqb_neq p 0) Hp), bool_decide_false in HA by (by intros [? ?]). cbn [orb] in HA.
  rewrite (proj2 (Z.eqb_neq p 0) Hp) in HA. destruct HA as [_ [HA Hb]]. apply held_close.
  apply (give_payload _ _ _ _ _ _ _ (length pl) HA eq_refl Hb); [lia|done|done].
Qed.

(** The key after it is linked. *)
Lemma add_key_state G : wf G [] s →
  let s' := fst (keyring_add_key s KEY_TYPE_USER (Some desc) (Some pl) ring) in
  snd (keyring_add_key s KEY_TYPE_USER (Some desc) (Some pl) ring) = next_serial s ∧
  keys s' !! i = Some new_slot ∧ arena s' !! p = Some pl ∧
  ∀ j k', j ≠ i → keys s' !! j = Some k' → ∃ k0, keys s !! j = Some k0 ∧ used k0 = used k' ∧ serial k0 = serial k'.
Proof.
  intros Hwf. apply stored_wf in Hwf. rewrite add_key_stored. cbv zeta. cbn [fst snd]. pose proof find_free_lt as Hlt.
  assert (keys stored !! i = Some new_slot) as Hk.
  { cbn [stored put_slot set_keys keys]. apply list_lookup_insert_eq. cbn [set_heap set_next set_keys keys]. by rewrite length_insert. }
  assert (arena stored !! p = Some pl) as Hb by apply lookup_insert_eq.
  assert (∀ j k', j ≠ i → keys stored !! j = Some k' → keys s !! j = Some k') as Hj.
  { intros j k' Hne. cbn [stored put_slot set_keys keys set_heap set_next]. by rewrite !list_lookup_insert_ne by done. }
  set (s' := match slot_by_serial _ _ with None => stored | _ => _ end).
  assert (keys s' !! i = Some new_slot ∧ arena s' !! p = Some pl ∧
    ∀ j k', j ≠ i → keys s' !! j = Some k' → ∃ k0, keys s !! j = Some k0 ∧ used k0 = used k' ∧ serial k0 = serial k') as H.
  { subst s'. destruct (slot_by_serial stored _) as [r|]; [|split; [done|]; split; [done|]; eauto].
    destruct (ring_link_other _ _ (Some r) (serial (slot_at stored i)) _ _ Hwf Hk) as (H1 & H2 & H3); [done|].
    split; [done|]. split; [rewrite <- Hb; by apply H2|]. intros j k' Hne Hk'. destruct (H3 _ _ Hk') as (k0 & H4 & H5). eauto. }
  split; [|done]. unfold slot_at. by rewrite (proj1 H).
Qed.
End add_key.

(** A user key reads back.  With a free slot, memory and a serial number not in use,
    [keyring_add_key] answers the serial number, and reading that key then gives the
    stored length and as much of the payload as the buffer holds, also after the key
    was linked into the ring. *)
Theorem add_key_read_roundtrip G s i p o desc pl ring g other other' euid cr buf :
  wf G [] s → find_free (keys s) 0 = Some i → slot_by_serial s (next_serial s) = None →
  oracle s = p :: o → p ≠ 0 → arena s !! p = None → desc ≠ [] → pl ≠ [] → 0 ≤ ring_resolve s ring → 0 ≤ buf →
  let '(s', n) := keyring_add_key s KEY_TYPE_USER (Some desc) (Some pl) ring in
  n = next_serial s ∧
  keyctl_do g other other' euid s' cr (READ n (Some buf)) = (s', Some (cr, Z.of_nat (length pl), take (Z.to_nat buf) pl)).
Proof.
  intros Hwf Hi Hn Ho Hp Ha Hd Hpl Hring Hbuf.
  pose proof (add_key_state s i p o desc pl ring Hi Ho Hp Ha Hd Hpl Hring G Hwf) as (H1 & H2 & H3 & H4).
  destruct (keyring_add_key _ _ _ _ _) as [s' n]. cbn [fst snd] in *. subst n. split; [done|].
  cbn [keyctl_do]. unfold keyctl_read.
  assert (slot_by_serial s' (next_serial s) = Some i) as ->.
  { apply (find_serial_unique _ 0 _ _ _ H2); [done..|]. intros j k' Hj Hk Hu.
    destruct (H4 j k' ltac:(lia) Hk) as (k0 & H5 & H6 & <-). rewrite Hu in H6. by eapply find_serial_None. }
  unfold read_out, slot_at. rewrite H2.
  change (default slot0 (Some (new_slot s p desc pl))) with (new_slot s p desc pl).
  change (read_source (new_slot s p desc pl)) with (@inr Z _ (p, Z.of_nat (length pl))).
  change (type (new_slot s p desc pl) =? KEY_TYPE_ASYMMETRIC) with false. cbn [andb]. cbv zeta iota beta.
  unfold nz. rewrite (proj2 (Z.eqb_neq p 0) Hp). cbn [negb]. rewrite andb_true_r.
  set (m := if buf <? _ then _ else _).
  assert (m = Z.min buf (length pl)) as Hm by (subst m; destruct (Z.ltb_spec buf (length pl)); lia). clearbody m. subst m.
  destruct (Z.ltb_spec 0 (Z.min buf (length pl))) as [Hb|Hb].
  - rewrite load_inside by (apply (inside_true _ _ pl); [done|lia]). unfold block. rewrite H3. cbn [default id].
    rewrite drop_0. do 2 f_equal. by rewrite Z2Nat.inj_min, Nat2Z.id, <- take_take, firstn_all.
  - destruct pl; [done|]. cbn [length] in *. by replace buf with 0 by lia.
Qed.

(** Keyrings set up, "k" stored in the session keyring. *)
Definition ready : kr := fst (keyring_init (kr0 [16; 32; 48])).

Lemma add_key_read_roundtrip_witness :
  let '(s', n) := keyring_add_key ready KEY_TYPE_USER (Some [107]) (Some [1; 2; 3]) 1 in
  n = 4 ∧ keyctl_do env0 id id None s' crypto0 (READ n (Some 2)) = (s', Some (crypto0, 3, [1; 2])).
Proof.
  apply (add_key_read_roundtrip ∅ ready 3 32 [48]); [apply keyring_init_wf, kr0_wf|reflexivity|reflexivity|reflexivity|lia|
    reflexivity|discriminate|discriminate|discriminate|lia].
Defined.

Lemma kfree_dead s p q : arena s !! p = None → arena (kfree s q) !! p = None.
Proof.
  intros H. unfold kfree. destruct (q =? 0); [done|]. case_bool_decide; [|done]. simpl. rewrite lookup_delete_None. by right.
Qed.

Lemma kfree_system s p : keyring_system_cert_der (kfree s p) = keyring_system_cert_der s.
Proof. unfold kfree. destruct (p =? 0); [done|]. by case_bool_decide. Qed.

(** The system certificate dangles.  Revoking the key that holds it frees the block, and
    [keyring_system_cert_der] still hands out its address. *)
Theorem system_cert_dangles G s p len n i g other other' euid cr :
  wf G [] s → keyring_system_cert_der s = Some (p, len) → slot_by_serial s n = Some i → payload (slot_at s i) = p →
  ∃ s', keyctl_do g other other' euid s cr (REVOKE n) = (s', Some (cr, 0, [])) ∧
    keyring_system_cert_der s' = Some (p, len) ∧ arena s' !! p = None.
Proof.
  intros Hwf Hs Hn Hp. cbn [keyctl_do]. rewrite Hn, Hp. eexists. split; [reflexivity|].
  set (s1 := kfree s p). change (keyring_system_cert_der (kfree s1 (cert (slot_at s i))) = Some (p, len) ∧
    arena (kfree s1 (cert (slot_at s i))) !! p = None).
  subst s1. rewrite !kfree_system. split; [done|]. apply kfree_dead.
  assert (p ≠ 0) as Hp0.
  { intros ->. unfold keyring_system_cert_der in Hs. destruct (system_certs_loaded s), (Z.eqb_spec (system_der s) 0), (system_der_len s =? 0); simpl in Hs; congruence. }
  destruct (slot_by_serial_Some _ _ _ Hn) as (Hk & _). pose proof (held_open _ _ _ _ _ Hwf Hk) as [_ _ [_ _ Hdom _ _ _] _].
  unfold kfree. rewrite (proj2 (Z.eqb_neq p 0) Hp0), bool_decide_true; [apply lookup_delete_eq|].
  apply Hdom. left. rewrite !elem_of_app. right. left. unfold ptrs. rewrite Hp, (proj2 (Z.eqb_neq p 0) Hp0). by left.
Qed.

Lemma system_cert_dangles_witness : ∃ s',
  keyctl_do env0 id id (Some 1000) (fst (keyring_install_system_ca id (kr0 [16; 32; 48]) (Some [45; 45]))) crypto0 (REVOKE 4) =
    (s', Some (crypto0, 0, [])) ∧ keyring_system_cert_der s' = Some (32, 2) ∧ arena s' !! 32 = None.
Proof.
  apply (system_cert_dangles ∅ (fst (keyring_install_system_ca id (kr0 [16; 32; 48]) (Some [45; 45]))) 32 2 4 3);
    [apply install_wf; [by intros G s H|apply kr0_wf]|reflexivity..].
Defined.

(** * Descriptions *)

#[local] Opaque digits in_field u32.
Lemma describe_text k : (length (description k) < KEY_DESC_MAX)%nat →
  ∃ t, text describe_fmt (describe_args k) = Some t ∧ length t < 2 ^ 31.
Proof.
  intros Hd. unfold describe_args. set (tn := if type k =? _ then _ else _).
  assert (length tn ≤ 10)%nat as Ht by (subst tn; destruct (_ =? _); [|destruct (_ =? _)]; cbn; lia). clearbody tn.
  exists (in_field false 0 32 tn ++ [59] ++ in_field false 0 32 (digits (u32 (uid k)) 10 false) ++ [59] ++
    in_field false 0 32 (digits (u32 (gid k)) 10 false) ++ [59] ++ in_field false 8 48 (digits (u32 (perms k)) 16 false) ++ [59] ++
    in_field false 0 32 (description k) ++ []).
  split; [reflexivity|].
  pose proof (digits_length (u32 (uid k)) 10 false). pose proof (digits_length (u32 (gid k)) 10 false).
  pose proof (digits_length (u32 (perms k)) 16 false). unfold KEY_DESC_MAX in Hd.
  rewrite !length_app, !Nat2Z.inj_add, !in_field_length. cbn [length]. lia.
Qed.
#[local] Transparent digits in_field u32.

(** [KEYCTL_DESCRIBE] never describes: the length it asks [snprintf] for first is always 0,
    so 0 is returned and the caller gets an empty string, whatever the key and the buffer. *)
Theorem keyctl_describe_empty G s cr n i buflen g other other' euid :
  wf G [] s → slot_by_serial s n = Some i → 0 < buflen < 2 ^ 31 →
  keyctl_do g other other' euid s cr (DESCRIBE n (Some buflen)) = (s, Some (cr, 0, [0])).
Proof.
  intros Hwf Hn Hb. cbn [keyctl_do]. rewrite Hn.
  change (snprintf false 0 describe_fmt (describe_args (slot_at s i))) with (Some (0, @nil Z)). cbn [mbind option_bind].
  rewrite s32_small by lia. destruct (Z.ltb_spec 0 buflen); [|lia]. change (0 +u 1) with 1.
  destruct (describe_text (slot_at s i)) as (t & Ht & Hl).
  { destruct (slot_by_serial_Some _ _ _ Hn) as (Hk & _). apply (he_ok _ _ _ _ _ (held_open _ _ _ _ _ Hwf Hk)). }
  unfold snprintf. by rewrite (vsnprintf_text 1 _ _ _ ltac:(lia) Ht Hl).
Qed.

Lemma keyctl_describe_empty_witness :
  keyctl_do env0 id id None ready crypto0 (DESCRIBE 1 (Some 256)) = (ready, Some (crypto0, 0, [0])).
Proof. apply (keyctl_describe_empty ∅ ready crypto0 1 0 256); [apply keyring_init_wf, kr0_wf|reflexivity|lia]. Defined.
