(* ===== verification/Time.v ===== *)
(** Timekeeping: the interval timer ([cpu/timer/pit.c]) and the clock that
    [core/klog.c] derives from the time stamp counter.

    Port writes are a list of pairs of port and value.  A variable another agent
    advances (the tick counters, the time stamp counter) is read through a stream:
    [r k] is the value of the [k]-th read. *)
From S2P Require Import Prelude.

Module Pit.

Definition PIT_CHANNEL0 : Z := 0x40.
Definition PIT_COMMAND : Z := 0x43.
Definition PIT_CMD_CHANNEL0 : Z := 0x00.
Definition PIT_CMD_ACCESS_BOTH : Z := 0x30.
Definition PIT_CMD_MODE0 : Z := 0x00.
Definition PIT_CMD_MODE2 : Z := 0x04.
Definition PIT_CMD_BINARY : Z := 0x00.
Definition PIT_FREQUENCY : Z := 1193180.

Record pit := MkPit {
  pit_ticks : Z; pit_frequency : Z; pit_enabled : Z; timer_ticks : Z; timer_frequency : Z
}.
Definition pit_boot : pit := MkPit 0 250 0 0 250.

(** The argument is an [uint16_t]. *)
Definition pit_set_divisor (divisor : Z) : list (Z * Z) :=
  [(PIT_COMMAND, Z.lor (Z.lor (Z.lor PIT_CMD_CHANNEL0 PIT_CMD_ACCESS_BOTH) PIT_CMD_MODE2) PIT_CMD_BINARY);
   (PIT_CHANNEL0, Z.land divisor 0xFF); (PIT_CHANNEL0, Z.land (Z.shiftr divisor 8) 0xFF)].

Definition pit_set_frequency (s : pit) (frequency : Z) : pit * list (Z * Z) :=
  if frequency =? 0 then (s, [])
  else
    let divisor := PIT_FREQUENCY / frequency in
    let divisor := if divisor <? 1 then 1 else divisor in
    let divisor := if 65535 <? divisor then 65535 else divisor in
    let f := PIT_FREQUENCY / divisor in
    (MkPit (pit_ticks s) f (pit_enabled s) (timer_ticks s) f, pit_set_divisor (divisor `mod` 2 ^ 16)).

(** The handler it installs for IRQ 0 is not part of the state. *)
Definition pit_init (s : pit) : pit * list (Z * Z) :=
  pit_set_frequency (MkPit (pit_ticks s) (pit_frequency s) 1 (timer_ticks s) (timer_frequency s)) 250.

Definition pit_disable (s : pit) : pit * list (Z * Z) :=
  (MkPit (pit_ticks s) (pit_frequency s) 0 (timer_ticks s) (timer_frequency s),
   [(PIT_COMMAND, Z.lor (Z.lor (Z.lor PIT_CMD_CHANNEL0 PIT_CMD_ACCESS_BOTH) PIT_CMD_MODE0) PIT_CMD_BINARY);
    (PIT_CHANNEL0, 0); (PIT_CHANNEL0, 0)]).

(** From the two bytes read from the channel. *)
Definition pit_get_current_count (lo hi : Z) : Z := Z.lor (Z.shiftl hi 8) lo `mod` 2 ^ 16.

(** [while (timer_ticks < target) { if (++spins > limit) break; pause; }]; the answer
    is the number of reads, [None] when [fuel] runs out. *)
Fixpoint sleep_loop (fuel : nat) (r : nat → Z) (target limit : Z) (k : nat) (spins : Z) : option nat :=
  match fuel with
  | O => None
  | S fuel =>
      if r k <? target then
        let spins := spins +u 1 in
        if limit <? spins then Some (S k) else sleep_loop fuel r target limit (S k) spins
      else Some (S k)
  end.
(** [r 0] is read for the target; the product is an [uint32_t]. *)
Definition sleep_target (r : nat → Z) (freq milliseconds : Z) : Z := r 0%nat +u (u32 (milliseconds * freq) / 1000).
Definition sleep_limit (milliseconds : Z) : Z := (milliseconds *u 50000000) +u 500000000.
Definition pit_sleep_ms (fuel : nat) (r : nat → Z) (freq milliseconds : Z) : option nat :=
  sleep_loop fuel r (sleep_target r freq milliseconds) (sleep_limit milliseconds) 1 0.

Definition pit_get_ticks (s : pit) : Z := pit_ticks s.
Definition pit_get_frequency (s : pit) : Z := if nz (timer_frequency s) then timer_frequency s else pit_frequency s.
Definition pit_is_enabled (s : pit) : Z := pit_enabled s.

End Pit.

Module Clock.
Import Pit.

Record clock := MkClock { klog_tsc_base : Z; klog_time_base_usec : Z; klog_tsc_per_us : Z; klog_tsc_hz : Z }.
Definition clock0 : clock := MkClock 0 0 0 0.

(** From the halves of the counter. *)
Definition klog_rdtsc (lo hi : Z) : Z := Z.lor (Z.shiftl hi 32) lo.

(** [klog_get_time_us] and [pit_get_time_us] call each other; [klog_tsc_per_us] decides
    which of the two answers.  [tsc] is what reading the counter gives. *)
Definition tsc_us (c : clock) (tsc : Z) : Z :=
  klog_time_base_usec c +u (tsc -u klog_tsc_base c) / klog_tsc_per_us c.
Definition pit_get_time_us (s : pit) (c : clock) (tsc : Z) : Z :=
  if nz (klog_tsc_per_us c) then tsc_us c tsc
  else
    let freq := timer_frequency s in
    if freq =? 0 then 0 else (timer_ticks s *u 1000000) / freq.
Definition klog_get_time_us (s : pit) (c : clock) (tsc : Z) : Z :=
  if nz (klog_tsc_per_us c) then tsc_us c tsc else pit_get_time_us s c tsc.
Definition time_monotonic_us (s : pit) (c : clock) (tsc : Z) : Z := klog_get_time_us s c tsc.
Definition time_monotonic_ms (s : pit) (c : clock) (tsc : Z) : Z := klog_get_time_us s c tsc / 1000.
Definition pit_get_time_ms (s : pit) (c : clock) (tsc : Z) : Z := pit_get_time_us s c tsc / 1000.

(** The counter is read twice: for the new base, and by [pit_get_time_us]. *)
Definition klog_reanchor_tsc (s : pit) (c : clock) (tsc tsc' : Z) : clock :=
  if negb (nz (klog_tsc_per_us c)) then c
  else
    let c := MkClock tsc (klog_time_base_usec c) (klog_tsc_per_us c) (klog_tsc_hz c) in
    MkClock (klog_tsc_base c) (pit_get_time_us s c tsc') (klog_tsc_per_us c) (klog_tsc_hz c).

Section calibrate.
(** The reads of [pit_ticks] and of the time stamp counter. *)
Context (ticks tsc : nat → Z).

(** [while (go (pit_get_ticks ()) && ++spins < lim) { if (deadline && klog_rdtsc () >= deadline) break; pause; }]
    from read [i] of the ticks and [j] of the counter. *)
Fixpoint wait (fuel : nat) (go : Z → bool) (lim deadline : Z) (i j : nat) (spins : Z) : option (nat * nat) :=
  match fuel with
  | O => None
  | S fuel =>
      if go (ticks i) then
        let spins := u32 (spins + 1) in
        if spins <? lim then
          if nz deadline then
            if deadline <=? tsc j then Some (S i, S j) else wait fuel go lim deadline (S i) (S j) spins
          else wait fuel go lim deadline (S i) j spins
        else Some (S i, j)
      else Some (S i, j)
  end.

(** [hint_hz] is what [sysinfo_tsc_hz_hint] answers. *)
Definition klog_calibrate_tsc (fuel : nat) (pit_frequency hint_hz : Z) : option clock :=
  let pit_hz := if nz pit_frequency then pit_frequency else 250 in
  let sample_ticks := pit_hz / 10 in
  let sample_ticks := if sample_ticks <? 10 then 10 else sample_ticks in
  let edge := ticks 0 in
  let '(edge_deadline, j) := if nz hint_hz then (tsc 0 +u hint_hz / 2, 1%nat) else (0, 0%nat) in
  '(i, j) ← wait fuel (λ v, v =? edge) 10000000 edge_deadline 1 j 0;
  if ticks i =? edge then Some clock0
  else
    let edge := ticks (i + 1)%nat in
    let tsc0 := tsc j in
    let target := edge +u sample_ticks in
    let sample_deadline := if nz hint_hz then tsc0 +u hint_hz / 2 else 0 in
    '(i, j) ← wait fuel (λ v, v <? target) 20000000 sample_deadline (i + 2) (j + 1) 0;
    let tsc1 := tsc j in
    let got := ticks i -u edge in
    if (got <? 5) || (tsc1 <=? tsc0) then Some clock0
    else
      let us := (got *u 1000000) / pit_hz in
      if us =? 0 then Some clock0
      else
        let per_us := (tsc1 -u tsc0) / us in
        if (per_us <? 1) || (100000 <? per_us) then Some clock0
        else Some (MkClock tsc1 ((ticks (i + 1)%nat *u 1000000) / pit_hz) per_us (per_us *u 1000000)).
End calibrate.

End Clock.
Import Pit Clock.

(** * The loops end *)

Lemma wait_returns ticks tsc go lim d (fuel i j : nat) spins : 0 ≤ spins ≤ lim → lim < 2 ^ 32 - 1 → lim - spins < fuel →
  ∃ i' j', wait ticks tsc fuel go lim d i j spins = Some (i', j').
Proof.
  revert i j spins. induction fuel as [|fuel IH]; intros i j spins Hs Hl Hf; [lia|]. cbn [wait].
  destruct (go (ticks i)); [|eauto]. cbv zeta. destruct (decide (spins = lim)) as [->|].
  { rewrite u32_small by lia. destruct (Z.ltb_spec (lim + 1) lim); [lia|eauto]. }
  rewrite u32_small by lia. destruct (Z.ltb_spec (spins + 1) lim); [|eauto].
  destruct (nz d); [destruct (d <=? tsc j); [eauto|]|]; apply IH; lia.
Qed.

(** Sleeping ends even if the ticks stand still, after [limit + 1] reads; before that
    it ends only when the ticks have reached the target. *)
Lemma sleep_returns (fuel : nat) r target limit k spins : 0 ≤ spins ≤ limit → limit < 2 ^ 64 - 1 → limit - spins < fuel →
  ∃ k', sleep_loop fuel r target limit k spins = Some (S k') ∧ (k ≤ k')%nat ∧ k' - k ≤ limit - spins ∧
    (target ≤ r k' ∨ k' - k = limit - spins).
Proof.
  revert k spins. induction fuel as [|fuel IH]; intros k spins Hs Hl Hf; [lia|]. cbn [sleep_loop].
  destruct (Z.ltb_spec (r k) target) as [Ht|Ht]; [|exists k; split; [done|]; split; [lia|]; split; [lia|by left]].
  cbv zeta. rewrite u64_small by lia. destruct (Z.ltb_spec limit (spins + 1)).
  - exists k. split; [done|]. split; [lia|]. split; [lia|]. right. lia.
  - destruct (IH (S k) (spins + 1)) as (k' & -> & H1 & H2 & H3); [lia..|]. exists k'.
    split; [done|]. split; [lia|]. split; [lia|]. destruct H3; [by left|right; lia].
Qed.

(** * The clock *)

(** What calibration leaves behind: nothing, or a usable rate. *)
Definition calibrated (c : clock) : Prop :=
  1 ≤ klog_tsc_per_us c ≤ 100000 ∧ klog_tsc_hz c = klog_tsc_per_us c * 1000000 ∧
  is_u64 (klog_tsc_base c) ∧ is_u64 (klog_time_base_usec c).

Lemma tsc_us_exact c t : 1 ≤ klog_tsc_per_us c → 0 ≤ klog_tsc_base c ≤ t → t < 2 ^ 64 → 0 ≤ klog_time_base_usec c →
  klog_time_base_usec c + (t - klog_tsc_base c) / klog_tsc_per_us c < 2 ^ 64 →
  tsc_us c t = klog_time_base_usec c + (t - klog_tsc_base c) / klog_tsc_per_us c.
Proof.
  intros Hp Ht Ht' Hb Hw. unfold tsc_us. rewrite (u64_small (t - _)) by lia. apply u64_small.
  pose proof (Z.div_pos (t - klog_tsc_base c) (klog_tsc_per_us c)). lia.
Qed.

Lemma klog_time_tsc s c t : 1 ≤ klog_tsc_per_us c → klog_get_time_us s c t = tsc_us c t.
Proof. intros H. unfold klog_get_time_us. destruct (nz_spec (klog_tsc_per_us c)); [done|lia]. Qed.

Lemma calibrate_result ticks tsc (fuel : nat) f hint : 20000000 < fuel → 0 ≤ f → (∀ k, is_u64 (tsc k)) →
  ∃ c, klog_calibrate_tsc ticks tsc fuel f hint = Some c ∧ (c = clock0 ∨ calibrated c ∧ ∃ j, klog_tsc_base c = tsc j).
Proof.
  intros Hf Hf0 Ht. unfold klog_calibrate_tsc. cbv zeta.
  set (hz := if nz f then f else 250). assert (0 < hz) by (subst hz; destruct (nz_spec f); lia).
  destruct (if nz hint then _ else _) as [d j0].
  destruct (wait_returns ticks tsc (λ v, v =? ticks 0%nat) 10000000 d fuel 1 j0 0) as (i & j & ->); [lia..|].
  cbn [mbind option_bind]. destruct (ticks i =? ticks 0%nat); [eauto|].
  match goal with |- context [wait ticks tsc fuel ?go ?lim ?d ?i0 ?j0 0] =>
    destruct (wait_returns ticks tsc go lim d fuel i0 j0 0) as (i' & j' & ->); [lia..|] end.
  cbn [mbind option_bind]. destruct (_ || _); [eauto|]. destruct (_ =? 0); [eauto|].
  set (per := _ / _). destruct (Z.ltb_spec per 1); [eauto|]. destruct (Z.ltb_spec 100000 per); [eauto|]. cbn [orb].
  eexists. split; [done|]. right. split; [|by eexists]. unfold calibrated. cbn.
  split; [lia|]. split; [rewrite u64_small by lia; lia|]. split; [apply Ht|].
  pose proof (u64_range (ticks (i' + 1)%nat * 1000000)). split; [by apply Z.div_pos; [lia|]|].
  apply Z.div_lt_upper_bound; [done|]. nia.
Qed.

(** Calibration returns whatever the clocks do, and leaves the clock off or with a rate
    between 1 MHz and 100 GHz; from then on [time_monotonic_us] counts the microseconds since
    the base and never goes back while the counter grows. *)
Theorem calibrated_time_monotone ticks tsc (fuel : nat) f hint :
  20000000 < fuel → 0 ≤ f → (∀ k, is_u64 (tsc k)) →
  ∃ c, klog_calibrate_tsc ticks tsc fuel f hint = Some c ∧
  (c = clock0 ∨ calibrated c ∧
    ∀ s t t', klog_tsc_base c ≤ t ≤ t' → t' < 2 ^ 64 →
      klog_time_base_usec c + (t' - klog_tsc_base c) / klog_tsc_per_us c < 2 ^ 64 →
      time_monotonic_us s c t = klog_time_base_usec c + (t - klog_tsc_base c) / klog_tsc_per_us c ∧
      time_monotonic_us s c t ≤ time_monotonic_us s c t').
Proof.
  intros Hf Hf0 Ht. destruct (calibrate_result ticks tsc fuel f hint Hf Hf0 Ht) as (c & -> & Hc). exists c. split; [done|].
  destruct Hc as [->|[(Hp & Hh & Hb & Hu) _]]; [by left|right]. split; [done|]. intros s t t' Htt Ht' Hw.
  unfold time_monotonic_us. rewrite !klog_time_tsc by lia.
  assert ((t - klog_tsc_base c) / klog_tsc_per_us c ≤ (t' - klog_tsc_base c) / klog_tsc_per_us c)
    by (apply Z.div_le_mono; lia).
  rewrite !tsc_us_exact by lia. lia.
Qed.

(** Ticks that advance at every second read, and a counter 300 million cycles ahead each time. *)
Lemma calibrated_time_monotone_witness : ∃ c,
  klog_calibrate_tsc (λ i, i / 2) (λ j, (300000000 * j) `mod` 2 ^ 64) (Z.to_nat 20000001) 250 0 = Some c ∧
  (c = clock0 ∨ calibrated c ∧
    ∀ s t t', klog_tsc_base c ≤ t ≤ t' → t' < 2 ^ 64 →
      klog_time_base_usec c + (t' - klog_tsc_base c) / klog_tsc_per_us c < 2 ^ 64 →
      time_monotonic_us s c t = klog_time_base_usec c + (t - klog_tsc_base c) / klog_tsc_per_us c ∧
      time_monotonic_us s c t ≤ time_monotonic_us s c t').
Proof.
  apply (calibrated_time_monotone (λ i, i / 2) (λ j, (300000000 * j) `mod` 2 ^ 64)); [lia|lia|].
  intros k. apply Z.mod_pos_bound. lia.
Defined.

(** Re-anchoring the clock turns it back.  [klog_reanchor_tsc] moves the base before it
    asks for the time, and the answer comes from the moved base: the time since the
    calibration is lost, and a read soon after is below one made before. *)
Theorem reanchor_turns_back s c t0 t1 t2 :
  calibrated c → klog_tsc_base c ≤ t0 ≤ t1 → t1 ≤ t2 → t2 < 2 ^ 64 →
  klog_time_base_usec c + (t2 - klog_tsc_base c) / klog_tsc_per_us c < 2 ^ 63 →
  (t1 - t0) + (t2 - t0) + klog_tsc_per_us c ≤ t0 - klog_tsc_base c →
  let c' := klog_reanchor_tsc s c t0 t1 in
  time_monotonic_us s c' t2 =
    klog_time_base_usec c + (t1 - t0) / klog_tsc_per_us c + (t2 - t0) / klog_tsc_per_us c ∧
  time_monotonic_us s c' t2 < time_monotonic_us s c t0.
Proof.
  intros (Hp & Hh & Hb & Hu) H01 H12 H2 Hw Hl. cbv zeta. set (p := klog_tsc_per_us c) in *.
  assert ((t2 - t0) / p ≤ (t2 - klog_tsc_base c) / p) by (apply Z.div_le_mono; lia).
  assert ((t1 - t0) / p ≤ (t2 - klog_tsc_base c) / p) by (apply Z.div_le_mono; lia).
  assert ((t0 - klog_tsc_base c) / p ≤ (t2 - klog_tsc_base c) / p) by (apply Z.div_le_mono; lia).
  assert (0 ≤ (t1 - t0) / p) by (apply Z.div_pos; lia). assert (0 ≤ (t2 - t0) / p) by (apply Z.div_pos; lia).
  assert (klog_reanchor_tsc s c t0 t1 = MkClock t0 (klog_time_base_usec c + (t1 - t0) / p) p (klog_tsc_hz c)) as ->.
  { unfold klog_reanchor_tsc, pit_get_time_us. fold p. cbn [klog_tsc_per_us klog_tsc_base klog_time_base_usec klog_tsc_hz].
    destruct (nz_spec p); [|lia]. cbn [negb]. f_equal. apply tsc_us_exact; cbn; lia. }
  unfold time_monotonic_us. rewrite !klog_time_tsc by (cbn; lia). fold p.
  rewrite (tsc_us_exact c t0), (tsc_us_exact (MkClock _ _ _ _)) by (cbn; fold p; lia). fold p.
  cbn [klog_tsc_per_us klog_tsc_base klog_time_base_usec]. split; [done|].
  assert ((t1 - t0) / p + (t2 - t0) / p < (t0 - klog_tsc_base c) / p); [|lia].
  pose proof (Z.div_mod (t1 - t0) p). pose proof (Z.div_mod (t2 - t0) p). pose proof (Z.mod_pos_bound (t1 - t0) p).
  pose proof (Z.mod_pos_bound (t2 - t0) p). apply Z.lt_le_trans with ((t1 - t0) / p + (t2 - t0) / p + 1); [lia|].
  apply Z.div_le_lower_bound; lia.
Qed.

(** 3 GHz, one second after calibration. *)
Lemma reanchor_turns_back_witness :
  let c := MkClock 0 1000 3000 3000000000 in
  let c' := klog_reanchor_tsc pit_boot c 3000000000 3000000300 in
  time_monotonic_us pit_boot c' 3000006000 = 1000 + 300 / 3000 + 6000 / 3000 ∧
  time_monotonic_us pit_boot c' 3000006000 < time_monotonic_us pit_boot c 3000000000.
Proof.
  apply (reanchor_turns_back pit_boot (MkClock 0 1000 3000 3000000000)).
  - unfold calibrated. cbn. lia.
  - cbn. lia.
  - lia.
  - lia.
  - vm_compute. reflexivity.
  - cbn. lia.
Defined.
