(* ===== verification/Klog.v ===== *)
(** The kernel log ([core/klog.c]): the ring of the last 256 KiB written, its
    readers, and the copy to [/var/log/kernel].

    A string with its length is a list of bytes, [None] for null.  [klog_lock] makes
    an append or a read one step; between the reads of [klog_sync_varlog] other CPUs
    may append, which is an argument of its loop. *)
From S2P Require Import Prelude Printf.
Import Printf.

Module Klog.

Definition KLOG_RING_SZ : Z := 256 * 1024.
Definition KLOG_TS_MAX : Z := 48.
Definition KLOG_MSG_MAX : Z := 900.
Definition KLOG_OUT_MAX : Z := 1024.

Record klog := MkKlog { klog_ring : gmap Z Z; klog_ring_pos : Z; klog_ring_len : Z; klog_inited : bool }.
Definition klog0 : klog := MkKlog ∅ 0 0 false.
Definition ring_at (s : klog) (i : Z) : Z := default 0 (klog_ring s !! i).

Definition put_char (s : klog) (c : Z) : klog :=
  let pos := klog_ring_pos s +u 1 in
  let pos := if KLOG_RING_SZ <=? pos then 0 else pos in
  let len := if klog_ring_len s <? KLOG_RING_SZ then klog_ring_len s +u 1 else klog_ring_len s in
  MkKlog (<[klog_ring_pos s := c]> (klog_ring s)) pos len (klog_inited s).

Definition klog_ring_append (s : klog) (p : option (list Z)) : klog :=
  match p with
  | None | Some [] => s
  | Some l => foldl put_char s l
  end.

(** The bytes copied to the buffer; the code returns their number. *)
Definition klog_ring_read (s : klog) (buf : bool) (size offset : Z) : list Z :=
  if negb buf || (size =? 0) then []
  else
    let avail := klog_ring_len s in
    if avail <=? offset then []
    else
      let n := avail -u offset in
      let n := if size <? n then size else n in
      let start := if klog_ring_len s <? KLOG_RING_SZ then 0 else klog_ring_pos s in
      map (λ i : nat, ring_at s ((start +u offset +u i) `mod` KLOG_RING_SZ)) (seq 0 (Z.to_nat n)).

Definition klog_syslog_read_all (s : klog) (buf : bool) (size : Z) : list Z := klog_ring_read s buf size 0.
Definition klog_syslog_buf_size : Z := KLOG_RING_SZ.

(** The text for the console comes with the state. *)
Definition klog_console_write_sync_tty (l : list Z) : list Z := l.
Definition klog_user_write (s : klog) (p : option (list Z)) : klog * list Z :=
  match p with
  | None | Some [] => (s, [])
  | Some l => (klog_ring_append s p, klog_console_write_sync_tty l)
  end.

(** [msg] is what [vsnprintf] left in the array: its length is the [len] of the code,
    at most [KLOG_MSG_MAX - 1]. *)
Definition terminate_line (msg : list Z) : list Z :=
  let len := Z.of_nat (length msg) in
  if (len =? 0) || negb (nth (Z.to_nat (len - 1)) msg 0 =? 10) then
    if len + 1 <? KLOG_MSG_MAX then msg ++ [10]
    else if 0 <? len then take (Z.to_nat (len - 1)) msg ++ [10] else msg
  else msg.

(** ["[%5llu.%06llu] "] *)
Definition ts_fmt : list Z := [91; 37; 53; 108; 108; 117; 46; 37; 48; 54; 108; 108; 117; 93; 32].

(** The stamp and the line in the output buffer; [ts] is [None] in a build without
    [KERNEL_LOG_TIME]. *)
Definition stamp_line (ts : option (Z * list Z)) (line : list Z) : list Z :=
  match ts with
  | Some (tn, ts) =>
      let tslen := if 0 <? tn then (if tn <? KLOG_TS_MAX then tn else KLOG_TS_MAX - 1) else 0 in
      let len := Z.of_nat (length line) in
      if KLOG_OUT_MAX <? tslen + len + 1 then
        let room := KLOG_OUT_MAX - tslen - 1 in
        let room := if len <? room then len else room in
        take (Z.to_nat tslen) ts ++ take (Z.to_nat room) line
      else take (Z.to_nat tslen) ts ++ line
  | None =>
      let outlen := Z.of_nat (length line) in
      let outlen := if KLOG_OUT_MAX <? outlen + 1 then KLOG_OUT_MAX - 1 else outlen in
      take (Z.to_nat outlen) line
  end.

(** [usec] is the time, [None] in a build without [KERNEL_LOG_TIME]. *)
Definition klogprintf_v (s : klog) (to_console : bool) (fmt : list Z) (ap : list arg) (usec : option Z)
    : option (klog * list Z) :=
  '(n, msg) ← vsnprintf true KLOG_MSG_MAX fmt ap;
  if n <? 0 then Some (s, [])
  else
    ts ← match usec with
         | Some usec => Some <$> snprintf true KLOG_TS_MAX ts_fmt [Num (usec / 1000000); Num (usec `mod` 1000000)]
         | None => Some None
         end;
    let line := stamp_line ts (terminate_line msg) in
    Some (klog_ring_append s (Some line), if to_console then klog_console_write_sync_tty line else []).
Definition klogprintf (s : klog) := klogprintf_v s true.
Definition klogprintf_logonly (s : klog) := klogprintf_v s false.

(** The copy loop: what is written to the file, at which offset.  [other k] is what other
    CPUs do to the ring before the [k]-th read. *)
Fixpoint sync_loop (fuel : nat) (other : nat → klog → klog) (k : nat) (s : klog) (off : Z)
    : option (klog * list (Z * list Z)) :=
  match fuel with
  | O => None
  | S fuel =>
      let s := other k s in
      match klog_ring_read s true 4096 off with
      | [] => Some (s, [])
      | chunk =>
          '(s, w) ← sync_loop fuel other (S k) s (off + length chunk);
          Some (s, (off, chunk) :: w)
      end
  end.
(** [file] says whether the file could be opened or created; it is truncated first. *)
Definition klog_sync_varlog (fuel : nat) (other : nat → klog → klog) (file : bool) (s : klog)
    : option (klog * list (Z * list Z)) :=
  if negb (klog_inited s) then Some (s, [])
  else if negb file then Some (s, [])
  else sync_loop fuel other 0 s 0.

Definition klog_init (fuel : nat) (other : nat → klog → klog) (file : bool) (s : klog)
    : option (klog * list (Z * list Z)) :=
  if klog_inited s then Some (s, [])
  else
    klog_sync_varlog fuel other file (MkKlog (klog_ring s) (klog_ring_pos s) (klog_ring_len s) true).

End Klog.
Import Klog.

(** * The last bytes of a history *)

Definition SZ : nat := Z.to_nat KLOG_RING_SZ.
Definition contents (h : list Z) : list Z := drop (length h - SZ) h.

Lemma SZ_Z : Z.of_nat SZ = KLOG_RING_SZ.
Proof. unfold SZ. by rewrite Z2Nat.id by (unfold KLOG_RING_SZ; lia). Qed.
#[local] Opaque SZ.

Lemma contents_length h : length (contents h) = Nat.min (length h) SZ.
Proof. unfold contents. rewrite length_drop. lia. Qed.

(** Everything ever written is [h]. *)
Record holds (s : klog) (h : list Z) : Prop := {
  ho_len : klog_ring_len s = Nat.min (length h) SZ;
  ho_pos : klog_ring_pos s = (length h) `mod` KLOG_RING_SZ;
  ho_ring : ∀ (i : nat) c, (length h - SZ ≤ i)%nat → h !! i = Some c → ring_at s (i `mod` KLOG_RING_SZ) = c
}.

Lemma ring_size : KLOG_RING_SZ = 2 ^ 18.
Proof. reflexivity. Qed.

Lemma klog0_holds : holds klog0 [].
Proof. split; [done|done|]. intros i c _. by rewrite lookup_nil. Qed.

(** Two indices less than a lap apart do not collide. *)
Lemma mod_apart (a b : Z) : 0 < KLOG_RING_SZ → a < b < a + KLOG_RING_SZ → a `mod` KLOG_RING_SZ ≠ b `mod` KLOG_RING_SZ.
Proof.
  intros Hp Hab E. pose proof (Z.div_mod a KLOG_RING_SZ). pose proof (Z.div_mod b KLOG_RING_SZ).
  set (q := b / KLOG_RING_SZ - a / KLOG_RING_SZ). assert (b - a = KLOG_RING_SZ * q) by (subst q; lia).
  assert (0 < q < 1) by nia. lia.
Qed.

Lemma mod_succ (a : Z) : 0 ≤ a → (if KLOG_RING_SZ <=? a `mod` KLOG_RING_SZ + 1 then 0 else a `mod` KLOG_RING_SZ + 1) =
  (a + 1) `mod` KLOG_RING_SZ.
Proof.
  intros Ha. pose proof (Z.mod_pos_bound a KLOG_RING_SZ ltac:(by rewrite ring_size)) as Hm.
  rewrite <- (Zplus_mod_idemp_l a 1). destruct (Z.leb_spec KLOG_RING_SZ (a `mod` KLOG_RING_SZ + 1)).
  - replace (a `mod` KLOG_RING_SZ + 1) with KLOG_RING_SZ by lia. by rewrite Z_mod_same_full.
  - by rewrite (Z.mod_small (_ + 1)) by lia.
Qed.

Lemma put_char_holds s h c : holds s h → holds (put_char s c) (h ++ [c]).
Proof.
  intros [H1 H2 H3]. pose proof SZ_Z. pose proof ring_size.
  pose proof (Z.mod_pos_bound (length h) KLOG_RING_SZ ltac:(by rewrite ring_size)) as Hm.
  split; cbn [put_char klog_ring_len klog_ring_pos].
  - rewrite length_app. cbn [length]. rewrite H1. destruct (Z.ltb_spec (Nat.min (length h) SZ) KLOG_RING_SZ); [rewrite u64_small|]; lia.
  - rewrite H2, u64_small, mod_succ, length_app by lia. f_equal. cbn [length]. lia.
  - rewrite length_app. cbn [length]. intros i x Hi Hx. unfold ring_at. cbn [klog_ring put_char]. rewrite H2.
    destruct (decide (i = length h)) as [->|Hne].
    + rewrite lookup_insert_eq. rewrite list_lookup_middle in Hx by done. by injection Hx.
    + pose proof (lookup_lt_Some _ _ _ Hx) as Hl. rewrite length_app in Hl. cbn [length] in Hl.
      rewrite lookup_insert_ne by (apply not_eq_sym, mod_apart; lia).
      rewrite lookup_app_l in Hx by lia. apply (H3 i x); [lia|done].
Qed.

Lemma append_holds s h p : holds s h → holds (klog_ring_append s p) (h ++ default [] p).
Proof.
  intros Hs. destruct p as [l|]; cbn [default]; [|by rewrite app_nil_r].
  assert (klog_ring_append s (Some l) = foldl put_char s l) as -> by by destruct l.
  revert s h Hs. induction l as [|c l IH]; intros s h Hs; [by rewrite app_nil_r|]. change (holds (foldl put_char (put_char s c) l) (h ++ ([c] ++ l))).
  rewrite (app_assoc h [c] l). by apply IH, put_char_holds.
Qed.

Lemma map_seq_lookup {A} (f : nat → A) n i : map f (seq 0 n) !! i = if decide (i < n)%nat then Some (f i) else None.
Proof.
  rewrite list_lookup_fmap. destruct (decide (i < n)%nat).
  - by rewrite lookup_seq_lt.
  - by rewrite lookup_seq_ge by lia.
Qed.

(** A read gives the contents from the offset on. *)
Lemma read_holds s h size off : holds s h → 0 ≤ size → 0 ≤ off →
  klog_ring_read s true size off = take (Z.to_nat size) (drop (Z.to_nat off) (contents h)).
Proof.
  intros [H1 H2 H3] Hs Ho. pose proof SZ_Z as HSZ. pose proof ring_size as HR. unfold klog_ring_read. cbn [negb orb].
  destruct (Z.eqb_spec size 0) as [->|Hs0]; [by rewrite take_0|]. cbv zeta. rewrite H1.
  destruct (Z.leb_spec (Nat.min (length h) SZ) off) as [Hle|Hlt].
  { rewrite drop_ge by (rewrite contents_length; lia). by rewrite take_nil. }
  rewrite (u64_small (_ - off)) by lia.
  apply list_eq. intros i. rewrite map_seq_lookup.
  set (n := if size <? _ then _ else _).
  assert (Z.to_nat n = Nat.min (Z.to_nat size) (Nat.min (length h) SZ - Z.to_nat off)) as Hn.
  { subst n. destruct (Z.ltb_spec size (Nat.min (length h) SZ - off)); lia. }
  destruct (decide (i < Z.to_nat n)%nat) as [Hi|Hi].
  - rewrite lookup_take_lt, lookup_drop by lia. unfold contents. rewrite lookup_drop.
    set (a := (length h - SZ + (Z.to_nat off + i))%nat).
    destruct (lookup_lt_is_Some_2 h a) as [c Hc]; [lia|]. rewrite Hc. f_equal.
    rewrite <- (H3 a c) by (lia || done). f_equal.
    set (start := if _ <? _ then _ else _).
    assert (0 ≤ start < KLOG_RING_SZ ∧ start `mod` KLOG_RING_SZ = (Z.of_nat (length h - SZ)) `mod` KLOG_RING_SZ) as [Hr Hst].
    { subst start. destruct (Z.ltb_spec (Nat.min (length h) SZ) KLOG_RING_SZ).
      - split; [lia|]. by replace (length h - SZ)%nat with 0%nat by lia.
      - rewrite H2. split; [by apply Z.mod_pos_bound; rewrite HR|]. rewrite Zmod_mod.
        replace (Z.of_nat (length h - SZ)) with (length h + -1 * KLOG_RING_SZ) by lia. by rewrite Z_mod_plus_full. }
    rewrite (u64_small (start + off)), u64_small by lia. rewrite <- Z.add_assoc, <- Zplus_mod_idemp_l, Hst, Zplus_mod_idemp_l. f_equal. lia.
  - symmetry. apply lookup_ge_None. rewrite length_take, length_drop, contents_length. lia.
Qed.

(** * What the log promises *)

(** Calls that write: a message from user space, or a formatted one. *)
Inductive log_op :=
  | USER_WRITE (p : option (list Z))
  | PRINTF (to_console : bool) (fmt : list Z) (ap : list arg) (usec : option Z).
Definition log_step (s : klog) (op : log_op) : klog :=
  match op with
  | USER_WRITE p => fst (klog_user_write s p)
  | PRINTF b fmt ap usec => match klogprintf_v s b fmt ap usec with Some (s, _) => s | None => s end
  end.

(** A text cut to 899 characters, with a newline as the last one. *)
Definition message (t : list Z) : list Z :=
  let t := take 899 t in
  if decide (last t = Some 10) then t else take 898 t ++ [10].
(** Seconds and microseconds, as in ["[   12.345678] "]. *)
Definition stamp (usec : option Z) : list Z :=
  match usec with
  | Some usec => [91] ++ in_field false 5 32 (digits (u64 (usec / 1000000)) 10 false) ++ [46] ++
                 in_field false 6 48 (digits (u64 (usec `mod` 1000000)) 10 false) ++ [93; 32]
  | None => []
  end.
Definition log_text (op : log_op) : list Z :=
  match op with
  | USER_WRITE p => default [] p
  | PRINTF _ fmt ap usec => take 47 (stamp usec) ++ message (default [] (text fmt ap))
  end.
(** The format is defined and its text shorter than 2 GiB. *)
Definition op_ok (op : log_op) : Prop :=
  match op with
  | PRINTF _ fmt ap _ => ∃ t, text fmt ap = Some t ∧ length t < 2 ^ 31
  | USER_WRITE _ => True
  end.

Lemma terminate_line_message t : terminate_line (take 899 t) = message t.
Proof.
  unfold terminate_line, message. cbv zeta. set (l := take 899 t).
  assert (length l ≤ 899)%nat as Hl by (subst l; rewrite length_take; lia). clearbody l. clear t.
  set (m := Z.of_nat (length l)).
  assert ((m =? 0) || negb (nth (Z.to_nat (m - 1)) l 0 =? 10) = negb (bool_decide (last l = Some 10))) as ->.
  { destruct l as [|x l'] using rev_ind; [done|]. clear IHl'. rewrite last_snoc. subst m. rewrite length_app. cbn [length].
    replace (Z.to_nat _) with (length l') by lia. rewrite nth_middle.
    destruct (Z.eqb_spec (length l' + 1)%nat 0); [lia|]. cbn [orb]. f_equal.
    destruct (Z.eqb_spec x 10) as [->|]; [by rewrite bool_decide_true|]. rewrite bool_decide_false; [done|]. by intros [= ?]. }
  destruct (decide (last l = Some 10)) as [E|E]; [by rewrite bool_decide_true|]. rewrite bool_decide_false by done. cbn [negb].
  unfold KLOG_MSG_MAX. destruct (Z.ltb_spec (m + 1) 900).
  - by rewrite (take_ge l) by lia.
  - destruct (Z.ltb_spec 0 m); [|lia]. by replace (Z.to_nat (m - 1)) with 898%nat by lia.
Qed.

Lemma message_length t : length (message t) ≤ 899.
Proof.
  unfold message. cbv zeta. destruct (decide _); rewrite ?length_app, !length_take; cbn [length]; lia.
Qed.

#[local] Opaque digits in_field u64.
Lemma stamp_text usec : text ts_fmt [Num (usec / 1000000); Num (usec `mod` 1000000)] = Some (stamp (Some usec)) ∧
  length (stamp (Some usec)) < 2 ^ 31.
Proof.
  split; [reflexivity|]. unfold stamp.
  pose proof (digits_length (u64 (usec / 1000000)) 10 false). pose proof (digits_length (u64 (usec `mod` 1000000)) 10 false).
  rewrite !length_app, !Nat2Z.inj_add, !in_field_length. cbn [length]. lia.
Qed.
#[local] Transparent digits in_field u64.

(** The output buffer is never too short. *)
Lemma stamp_line_whole ts tn line : length line ≤ 899 → 0 ≤ tn → length ts = Nat.min 47 (Z.to_nat tn) →
  stamp_line (Some (tn, ts)) line = ts ++ line.
Proof.
  intros Hl Ht Hs. unfold stamp_line. cbv zeta. unfold KLOG_TS_MAX, KLOG_OUT_MAX.
  set (k := if 0 <? tn then _ else _). assert (0 ≤ k ≤ 47 ∧ Z.to_nat k = length ts) as [Hk ->].
  { subst k. destruct (Z.ltb_spec 0 tn); [destruct (Z.ltb_spec tn 48)|]; lia. }
  rewrite firstn_all. destruct (Z.ltb_spec 1024 (k + length line + 1)); [lia|done].
Qed.

Lemma plain_line_whole line : length line ≤ 899 → stamp_line None line = line.
Proof.
  intros Hl. unfold stamp_line, KLOG_OUT_MAX. cbv zeta. destruct (Z.ltb_spec 1024 (length line + 1)); [lia|].
  by rewrite Nat2Z.id, firstn_all.
Qed.

Lemma klogprintf_line s b fmt ap usec t : text fmt ap = Some t → length t < 2 ^ 31 →
  klogprintf_v s b fmt ap usec =
  let line := take 47 (stamp usec) ++ message t in Some (klog_ring_append s (Some line), if b then line else []).
Proof.
  intros Ht Hl. unfold klogprintf_v. rewrite (vsnprintf_text KLOG_MSG_MAX _ _ _ ltac:(done) Ht Hl). cbn [mbind option_bind].
  destruct (Z.ltb_spec (length t) 0); [lia|]. change (Z.to_nat (KLOG_MSG_MAX - 1)) with 899%nat.
  rewrite terminate_line_message. pose proof (message_length t) as Hm. destruct usec as [usec|].
  - destruct (stamp_text usec) as [E1 E2]. unfold snprintf. rewrite (vsnprintf_text KLOG_TS_MAX _ _ _ ltac:(done) E1 E2).
    cbn [fmap option_fmap option_map mbind option_bind]. change (Z.to_nat (KLOG_TS_MAX - 1)) with 47%nat.
    rewrite stamp_line_whole; [done|done|lia|]. rewrite length_take. lia.
  - cbn [mbind option_bind]. by rewrite plain_line_whole.
Qed.

Lemma log_step_holds s h op : op_ok op → holds s h → holds (log_step s op) (h ++ log_text op).
Proof.
  intros Hok Hs. destruct op as [p|b fmt ap usec]; cbn [log_step log_text].
  - pose proof (append_holds s h p Hs). destruct p as [[|c l]|]; done.
  - destruct Hok as (t & Ht & Hl). rewrite (klogprintf_line _ _ _ _ _ _ Ht Hl), Ht. by apply (append_holds s h (Some _)).
Qed.

Lemma log_steps_hold ops s h : Forall op_ok ops → holds s h → holds (foldl log_step s ops) (h ++ concat (map log_text ops)).
Proof.
  intros H. revert s h. induction H as [|op ops Hok _ IH]; intros s h Hs; cbn [foldl map concat]; [by rewrite app_nil_r|].
  rewrite app_assoc. by apply IH, log_step_holds.
Qed.

(** C19: the ring is the tail of the log.  After any calls, a read at any offset gives the
    bytes from that offset on of the last 256 KiB of everything written; a formatted
    message appears as its time stamp and its text, whole up to 899 characters and always
    ended by a newline. *)
Theorem klog_ring_refines ops size off : Forall op_ok ops → 0 ≤ size → 0 ≤ off →
  klog_ring_read (foldl log_step klog0 ops) true size off =
  take (Z.to_nat size) (drop (Z.to_nat off) (contents (concat (map log_text ops)))).
Proof. intros Hok Hs Ho. apply read_holds; [|done..]. apply (log_steps_hold ops klog0 []); [done|apply klog0_holds]. Qed.

(** "A", and ["x%u"] of 7, one second and a half after boot. *)
Lemma klog_ring_refines_witness :
  klog_ring_read (foldl log_step klog0 [USER_WRITE (Some [65; 10]); PRINTF true [120; 37; 117] [Num 7] (Some 1500000)]) true 30 1 =
  [10; 91; 32; 32; 32; 32; 49; 46; 53; 48; 48; 48; 48; 48; 93; 32; 120; 55; 10].
Proof.
  rewrite (klog_ring_refines [USER_WRITE (Some [65; 10]); PRINTF true [120; 37; 117] [Num 7] (Some 1500000)] 30 1);
    [vm_compute; reflexivity| |lia|lia].
  constructor; [exact I|]. constructor; [|constructor]. exists [120; 55]. split; [reflexivity|cbn; lia].
Defined.

(** * The copy to the file *)

(** Writes that follow on one another from [off]. *)
Fixpoint contiguous (off : Z) (w : list (Z * list Z)) : Prop :=
  match w with
  | [] => True
  | (o, b) :: w => o = off ∧ b ≠ [] ∧ length b ≤ 4096 ∧ contiguous (off + length b) w
  end.

(** What other CPUs do: they append. *)
Definition appends (other : nat → klog → klog) : Prop :=
  ∀ k s h, holds s h → ∃ t, holds (other k s) (h ++ t).

(** The contents grow at the end until the ring is full. *)
Lemma contents_prefix h t : (length (h ++ t) ≤ SZ)%nat ∨ t = [] → contents (h ++ t) = contents h ++ t.
Proof.
  intros [H| ->]; [|by rewrite !app_nil_r]. unfold contents. rewrite length_app in H.
  replace (length (h ++ t) - SZ)%nat with 0%nat by (rewrite length_app; lia).
  by replace (length h - SZ)%nat with 0%nat by lia.
Qed.

Lemma drop_chunk {A} (l : list A) i j n : j = (i + Nat.min n (length l - i))%nat → drop j l = drop n (drop i l).
Proof.
  intros ->. rewrite drop_drop. destruct (decide (n ≤ length l - i)%nat).
  - by rewrite Nat.min_l.
  - rewrite !drop_ge by lia. done.
Qed.

Lemma sync_loop_returns other : appends other → ∀ (fuel : nat) k s h off,
  holds s h → 0 ≤ off → off ≤ length (contents h) → SZ - off < fuel →
  ∃ s' w t, sync_loop fuel other k s off = Some (s', w) ∧ holds s' (h ++ t) ∧ contiguous off w ∧
    off + length (concat (map snd w)) ≤ SZ ∧
    ((length (h ++ t) ≤ SZ)%nat ∨ t = [] → concat (map snd w) = drop (Z.to_nat off) (contents (h ++ t))).
Proof.
  intros Hother. induction fuel as [|fuel IH]; intros k s h off Hs Ho Hle Hf.
  { rewrite contents_length in Hle. lia. }
  cbn [sync_loop]. cbv zeta. destruct (Hother k s h Hs) as [t1 Hs1]. set (s1 := other k s) in *.
  rewrite (read_holds _ _ _ _ Hs1) by lia. set (chunk := take _ _).
  assert (length chunk = Nat.min 4096 (length (contents (h ++ t1)) - Z.to_nat off)) as Hc.
  { subst chunk. rewrite length_take, length_drop. lia. }
  pose proof (contents_length h) as Hl0. pose proof (contents_length (h ++ t1)) as Hl. rewrite length_app in Hl.
  destruct chunk as [|c l] eqn:E.
  - exists s1, [], t1. cbn [length map concat] in *. split; [done|]. split; [done|]. split; [done|]. split; [lia|].
    intros _. symmetry. apply drop_ge. lia.
  - rewrite <- E in *. destruct (IH (S k) s1 (h ++ t1) (off + length chunk)) as (s' & w & t2 & -> & H1 & H2 & H3 & H4).
    + done.
    + lia.
    + lia.
    + assert (0 < length chunk) by (rewrite E; cbn [length]; lia). lia.
    + cbn [mbind option_bind]. exists s', ((off, chunk) :: w), (t1 ++ t2). rewrite app_assoc in *. split; [done|].
      split; [done|]. split; [split; [done|]; split; [by rewrite E|]; split; [lia|done]|].
      cbn [map concat snd]. rewrite length_app. split; [lia|]. intros Hcond.
      assert ((length ((h ++ t1) ++ t2) ≤ SZ)%nat ∨ t2 = []) as Hc2.
      { destruct Hcond as [?|Hn]; [by left|right]. by apply app_eq_nil in Hn as [_ ->]. }
      rewrite (H4 Hc2), (contents_prefix (h ++ t1) t2 Hc2).
      rewrite (drop_app_le _ _ (Z.to_nat off)) by lia. rewrite drop_app_le by lia.
      rewrite app_assoc. f_equal.
      rewrite (drop_chunk (contents (h ++ t1)) (Z.to_nat off) (Z.to_nat (off + length chunk)) (Z.to_nat 4096)) by lia.
      apply (take_drop (Z.to_nat 4096)).
Qed.

(** C28: [klog_sync_varlog] finishes although other CPUs keep logging: it makes at most one
    read per byte of the ring, its writes to the file follow on one another from offset 0
    and stay within the ring's size, and the file is the log as the last read finds it if
    the ring has not lost bytes meanwhile or nobody else logged. *)
Theorem klog_sync_varlog_terminates other (fuel : nat) s h :
  appends other → holds s h → klog_inited s = true → KLOG_RING_SZ < fuel →
  ∃ s' w t, klog_sync_varlog fuel other true s = Some (s', w) ∧ holds s' (h ++ t) ∧
    contiguous 0 w ∧ length (concat (map snd w)) ≤ KLOG_RING_SZ ∧
    (length (h ++ t) ≤ KLOG_RING_SZ ∨ t = [] → concat (map snd w) = contents (h ++ t)).
Proof.
  intros Hother Hs Hi Hf. unfold klog_sync_varlog. rewrite Hi. cbn [negb]. pose proof SZ_Z.
  destruct (sync_loop_returns other Hother fuel 0 s h 0) as (s' & w & t & E & H1 & H2 & H3 & H4); [done|lia..|].
  exists s', w, t. split; [done|]. split; [done|]. split; [done|]. split; [lia|]. intros Hc. apply H4.
  destruct Hc; [left; lia|by right].
Qed.

(** Another CPU logs a character before each read. *)
Lemma klog_sync_varlog_terminates_witness :
  let other := λ (_ : nat) s, klog_ring_append s (Some [46]) in
  let s := MkKlog {[ 0 := 65; 1 := 10 ]} 2 2 true in
  ∃ s' w t, klog_sync_varlog (Z.to_nat 262145) other true s = Some (s', w) ∧ holds s' ([65; 10] ++ t) ∧
    contiguous 0 w ∧ length (concat (map snd w)) ≤ KLOG_RING_SZ ∧
    (length ([65; 10] ++ t) ≤ KLOG_RING_SZ ∨ t = [] → concat (map snd w) = contents ([65; 10] ++ t)).
Proof.
  apply (klog_sync_varlog_terminates (λ (_ : nat) s, klog_ring_append s (Some [46])) _ (MkKlog {[ 0 := 65; 1 := 10 ]} 2 2 true) [65; 10]).
  - intros k s h Hs. exists [46]. exact (append_holds s h (Some [46]) Hs).
  - split; [reflexivity..|]. intros [|[|i]] c _; [intros [= <-]; reflexivity..|done].
  - reflexivity.
  - unfold KLOG_RING_SZ. lia.
Defined.
