(* ===== verification/CString.v ===== *)
(** The string routines of [libc/string.c] (the memory routines are in [Mem]).

    A string is an address in the byte memory of [Mem]; a plain [char] is signed, so
    [sc] reads a byte as one.  A loop that runs to a terminator has [fuel], and
    answers [None] when it runs out of it (or divides by zero). *)
From S2P Require Import Prelude Mem.

Module CString.

Definition sc (x : Z) : Z := if x <? 128 then x else x - 256.

(** [while (str[len] != 0) len++;] *)
Fixpoint strlen_loop (fuel : nat) (m : mem) (str len : Z) : option Z :=
  match fuel with
  | O => None
  | S fuel => if ldb m (str + len) =? 0 then Some len else strlen_loop fuel m str (len + 1)
  end.
Definition strlen (fuel : nat) (m : mem) (str : Z) : option Z := strlen_loop fuel m str 0.

(** Copy up to the terminator and terminate: the loop of [strcpy] and [strcat]. *)
Fixpoint copy_str (fuel : nat) (m : mem) (ptr src : Z) : option mem :=
  match fuel with
  | O => None
  | S fuel => if ldb m src =? 0 then Some (stb m ptr 0) else copy_str fuel (stb m ptr (ldb m src)) (ptr + 1) (src + 1)
  end.
Definition strcpy (fuel : nat) (m : mem) (dest src : Z) : option mem := copy_str fuel m dest src.

(** The first loop of [strncpy] and that of [strncat]: [k] is [n - i]; the result has
    the pointer and what is left of [n]. *)
Fixpoint copy_n (k : nat) (m : mem) (ptr src : Z) : mem * Z * nat :=
  match k with
  | O => (m, ptr, O)
  | S k' => if ldb m src =? 0 then (m, ptr, k) else copy_n k' (stb m ptr (ldb m src)) (ptr + 1) (src + 1)
  end.
Fixpoint pad_n (k : nat) (m : mem) (ptr : Z) : mem :=
  match k with
  | O => m
  | S k => pad_n k (stb m ptr 0) (ptr + 1)
  end.
Definition strncpy (m : mem) (dest src n : Z) : mem :=
  let '(m, ptr, k) := copy_n (Z.to_nat n) m dest src in pad_n k m ptr.

Definition char_order (a b : Z) : Z := if sc a <? sc b then -1 else 1.
Fixpoint strcmp (fuel : nat) (m : mem) (str1 str2 : Z) : option Z :=
  match fuel with
  | O => None
  | S fuel =>
      let a := ldb m str1 in
      let b := ldb m str2 in
      if nz a && nz b then
        if negb (a =? b) then Some (char_order a b) else strcmp fuel m (str1 + 1) (str2 + 1)
      else Some (if (a =? 0) && (b =? 0) then 0 else if a =? 0 then -1 else 1)
  end.

(** [k] is [n - i]. *)
Fixpoint strncmp_loop (k : nat) (m : mem) (str1 str2 : Z) : Z :=
  match k with
  | O => 0
  | S k =>
      let a := ldb m str1 in
      let b := ldb m str2 in
      if nz a && nz b then
        if negb (a =? b) then char_order a b else strncmp_loop k m (str1 + 1) (str2 + 1)
      else if (a =? 0) && (b =? 0) then 0 else if a =? 0 then -1 else 1
  end.
Definition strncmp (m : mem) (str1 str2 n : Z) : Z := strncmp_loop (Z.to_nat n) m str1 str2.

Definition strcat (fuel : nat) (m : mem) (dest src : Z) : option mem :=
  l ← strlen fuel m dest;
  copy_str fuel m (dest + l) src.

Definition strncat (fuel : nat) (m : mem) (dest src n : Z) : option mem :=
  l ← strlen fuel m dest;
  let '(m, ptr, _) := copy_n (Z.to_nat n) m (dest + l) src in
  Some (stb m ptr 0).

(** [c] is an [int]; a null result is 0. *)
Fixpoint strchr (fuel : nat) (m : mem) (str c : Z) : option Z :=
  match fuel with
  | O => None
  | S fuel =>
      if ldb m str =? 0 then Some (if c =? 0 then str else 0)
      else if ldb m str =? u8 c then Some str
      else strchr fuel m (str + 1) c
  end.

Fixpoint strrchr_loop (fuel : nat) (m : mem) (str c last : Z) : option Z :=
  match fuel with
  | O => None
  | S fuel =>
      if ldb m str =? 0 then Some (if c =? 0 then str else last)
      else strrchr_loop fuel m (str + 1) c (if ldb m str =? u8 c then str else last)
  end.
Definition strrchr (fuel : nat) (m : mem) (str c : Z) : option Z := strrchr_loop fuel m str c 0.

(** The inner loop of [strstr]: whether the needle is a prefix. *)
Fixpoint prefix_at (fuel : nat) (m : mem) (h n : Z) : option bool :=
  match fuel with
  | O => None
  | S fuel =>
      if nz (ldb m h) && nz (ldb m n) && (ldb m h =? ldb m n) then prefix_at fuel m (h + 1) (n + 1)
      else Some (ldb m n =? 0)
  end.
Fixpoint strstr_loop (fuel : nat) (m : mem) (haystack needle : Z) : option Z :=
  match fuel with
  | O => None
  | S fuel' =>
      if ldb m haystack =? 0 then Some 0
      else
        b ← prefix_at fuel m haystack needle;
        if (b : bool) then Some haystack else strstr_loop fuel' m (haystack + 1) needle
  end.
Definition strstr (fuel : nat) (m : mem) (haystack needle : Z) : option Z :=
  if ldb m needle =? 0 then Some haystack else strstr_loop fuel m haystack needle.

(** [start] and [end] are [size_t]. *)
Fixpoint reverse_loop (fuel : nat) (m : mem) (str start end' : Z) : option mem :=
  match fuel with
  | O => None
  | S fuel =>
      if start <? end' then
        let temp := ldb m (str + start) in
        let m := stb m (str + start) (ldb m (str + end')) in
        let m := stb m (str + end') temp in
        reverse_loop fuel m str (start +u 1) (end' -u 1)
      else Some m
  end.
Definition reverse (fuel : nat) (m : mem) (str length : Z) : option mem := reverse_loop fuel m str 0 (length -u 1).

Definition digit (rem : Z) : Z := if 9 <? rem then rem - 10 + 97 else rem + 48.

(** [int] division truncates; [-value] is taken modulo [2 ^ 32]. *)
Fixpoint itoa_loop (fuel : nat) (m : mem) (value str base i : Z) : option (mem * Z) :=
  match fuel with
  | O => None
  | S fuel =>
      if value =? 0 then Some (m, i)
      else if base =? 0 then None
      else itoa_loop fuel (stb m (str + i) (digit (Z.rem value base))) (Z.quot value base) str base (i + 1)
  end.
Definition itoa (fuel : nat) (m : mem) (value str base : Z) : option mem :=
  if value =? 0 then Some (stb (stb m str 48) (str + 1) 0)
  else
    let isNegative := (value <? 0) && (base =? 10) in
    let value := if isNegative then s32 (- value) else value in
    '(m, i) ← itoa_loop fuel m value str base 0;
    let '(m, i) := if isNegative then (stb m (str + i) 45, i + 1) else (m, i) in
    reverse fuel (stb m (str + i) 0) str i.

(** [base] is converted to [uint32_t]. *)
Fixpoint utoa_loop (fuel : nat) (m : mem) (value str base i : Z) : option (mem * Z) :=
  match fuel with
  | O => None
  | S fuel =>
      if value =? 0 then Some (m, i)
      else if base =? 0 then None
      else utoa_loop fuel (stb m (str + i) (digit (value `mod` base))) (value / base) str base (i + 1)
  end.
Definition utoa (fuel : nat) (m : mem) (value str base : Z) : option mem :=
  if value =? 0 then Some (stb (stb m str 48) (str + 1) 0)
  else
    '(m, i) ← utoa_loop fuel m value str (u32 base) 0;
    reverse fuel (stb m (str + i) 0) str i.

Definition is_blank (c : Z) : bool := (c =? 32) || (c =? 9) || (c =? 10).
Fixpoint skip_blanks (fuel : nat) (m : mem) (str i : Z) : option Z :=
  match fuel with
  | O => None
  | S fuel => if is_blank (ldb m (str + i)) then skip_blanks fuel m str (i + 1) else Some i
  end.
Fixpoint atoi_loop (fuel : nat) (m : mem) (str i result : Z) : option Z :=
  match fuel with
  | O => None
  | S fuel =>
      let c := sc (ldb m (str + i)) in
      if (48 <=? c) && (c <=? 57) then atoi_loop fuel m str (i + 1) (s32 (s32 (result * 10) + (c - 48)))
      else Some result
  end.
Definition atoi (fuel : nat) (m : mem) (str : Z) : option Z :=
  i ← skip_blanks fuel m str 0;
  let c := ldb m (str + i) in
  let '(sign, i) := if (c =? 45) || (c =? 43) then (if c =? 45 then -1 else 1, i + 1) else (1, i) in
  result ← atoi_loop fuel m str i 0;
  Some (s32 (sign * result)).

Definition is_space (c : Z) : bool := (c =? 32) || (c =? 9) || (c =? 10) || (c =? 13).
Fixpoint skip_spaces (fuel : nat) (m : mem) (str : Z) : option Z :=
  match fuel with
  | O => None
  | S fuel => if is_space (ldb m str) then skip_spaces fuel m (str + 1) else Some str
  end.
Fixpoint trim_end (fuel : nat) (m : mem) (str end' : Z) : option Z :=
  match fuel with
  | O => None
  | S fuel => if (str <? end') && is_space (ldb m end') then trim_end fuel m str (end' - 1) else Some end'
  end.
Definition trim (fuel : nat) (m : mem) (str : Z) : option (mem * Z) :=
  if str =? 0 then Some (m, 0)
  else
    str ← skip_spaces fuel m str;
    if ldb m str =? 0 then Some (m, 0)
    else
      l ← strlen fuel m str;
      end' ← trim_end fuel m str (str + l - 1);
      Some (stb m (end' + 1) 0, 1).

(** [strtok]: the static pointer is passed in and out.  Skip the characters that are
    delimiters, or those that are not. *)
Fixpoint strtok_skip (fuel : nat) (m : mem) (p delim : Z) (want : bool) : option Z :=
  match fuel with
  | O => None
  | S fuel' =>
      if ldb m p =? 0 then Some p
      else
        q ← strchr fuel m delim (sc (ldb m p));
        if Bool.eqb (nz q) want then strtok_skip fuel' m (p + 1) delim want else Some p
  end.
(** The memory, the static pointer and the token. *)
Definition strtok (fuel : nat) (m : mem) (strtok_save str delim : Z) : option (mem * Z * Z) :=
  if negb (nz str) && negb (nz strtok_save) then Some (m, strtok_save, 0)
  else
    let save := if nz str then str else strtok_save in
    save ← strtok_skip fuel m save delim true;
    if ldb m save =? 0 then Some (m, 0, 0)
    else
      let token_start := save in
      save ← strtok_skip fuel m save delim false;
      if nz (ldb m save) then Some (stb m save 0, save + 1, token_start)
      else Some (m, 0, token_start).

Fixpoint strnlen_loop (k : nat) (m : mem) (s i : Z) : Z :=
  match k with
  | O => i
  | S k => if ldb m (s + i) =? 0 then i else strnlen_loop k m s (i + 1)
  end.
Definition strnlen (m : mem) (s maxlen : Z) : Z := if s =? 0 then 0 else strnlen_loop (Z.to_nat maxlen) m s 0.

Fixpoint is_delim (fuel : nat) (m : mem) (c delim : Z) : option bool :=
  match fuel with
  | O => None
  | S fuel =>
      if ldb m delim =? 0 then Some false
      else if c =? ldb m delim then Some true
      else is_delim fuel m c (delim + 1)
  end.

(** Skip the characters that are delimiters, or those that are not. *)
Fixpoint split_skip (fuel : nat) (m : mem) (p delim : Z) (want : bool) : option Z :=
  match fuel with
  | O => None
  | S fuel' =>
      if ldb m p =? 0 then Some p
      else
        b ← is_delim fuel m (ldb m p) delim;
        if Bool.eqb b want then split_skip fuel' m (p + 1) delim want else Some p
  end.
Fixpoint split_count (fuel : nat) (m : mem) (p delim count : Z) : option Z :=
  match fuel with
  | O => None
  | S fuel' =>
      if ldb m p =? 0 then Some count
      else
        p ← split_skip fuel m p delim true;
        if ldb m p =? 0 then Some count
        else
          p ← split_skip fuel m p delim false;
          split_count fuel' m p delim (count + 1)
  end.
(** [kmalloc] answers with the next address of [heap], or 0 when there is none. *)
Fixpoint split_tokens (fuel : nat) (m : mem) (heap : list Z) (p delim out idx : Z) : option (mem * list Z) :=
  match fuel with
  | O => None
  | S fuel' =>
      if ldb m p =? 0 then Some (m, heap)
      else
        p ← split_skip fuel m p delim true;
        if ldb m p =? 0 then Some (m, heap)
        else
          let start := p in
          p ← split_skip fuel m p delim false;
          let len := p - start in
          let '(token, heap) := match heap with t :: heap => (t, heap) | [] => (0, []) end in
          if token =? 0 then Some (st64 m (out + 8 * idx) 0, heap)
          else
            let m := memcpy_loop (Z.to_nat len) 0 m token start in
            let m := stb m (token + len) 0 in
            let m := st64 m (out + 8 * idx) token in
            split_tokens fuel' m heap p delim out (idx + 1)
  end.
(** The memory, the rest of the heap's answers and the array. *)
Definition split (fuel : nat) (m : mem) (heap : list Z) (str delim n : Z) : option (mem * list Z * Z) :=
  let '(out, heap) := match heap with t :: heap => (t, heap) | [] => (0, []) end in
  if (str =? 0) || (delim =? 0) then
    let m := if nz out then st64 m out 0 else m in
    Some (if nz n then st32 m n 0 else m, heap, out)
  else
    count ← split_count fuel m str delim 0;
    if out =? 0 then Some (m, heap, 0)
    else
      let m := st64 m (out + 8 * count) 0 in
      let m := if nz n then st32 m n (u32 count) else m in
      '(m, heap) ← split_tokens fuel m heap str delim out 0;
      Some (m, heap, out).

End CString.
Import CString.

(** * Numbers *)

Definition bytes_at (m : mem) (p : Z) (l : list Z) : Prop := ∀ (i : nat) x, l !! i = Some x → ldb m (p + i) = x.
Definition same_outside (m m' : mem) (a n : Z) : Prop := ∀ b, ¬ (a ≤ b < a + n) → ldb m' b = ldb m b.

Definition is_digit (c : Z) : Prop := 48 ≤ c ≤ 57.
(** The value of digits, the least significant first. *)
Definition val (l : list Z) : Z := foldr (λ c v, (c - 48) + 10 * v) 0 l.
Definition push (v c : Z) : Z := v * 10 + (c - 48).

Lemma bytes_at_cons m p x l : ldb m p = x → bytes_at m (p + 1) l → bytes_at m p (x :: l).
Proof.
  intros Hx Hl [|i] y; cbn; [intros [= <-]; by rewrite Z.add_0_r|]. intros Hy. rewrite <- (Hl i y Hy). f_equal. lia.
Qed.

Lemma bytes_at_snoc m p l x : bytes_at m p l → ldb m (p + length l) = x → bytes_at m p (l ++ [x]).
Proof.
  intros Hl Hx i y Hy. destruct (decide (i < length l)%nat).
  - rewrite lookup_app_l in Hy by done. by apply Hl.
  - rewrite lookup_app_r in Hy by lia. destruct (i - length l)%nat eqn:E; [|done]. injection Hy as <-.
    by replace i with (length l) by lia.
Qed.

(** Bytes outside a store keep. *)
Lemma bytes_at_stb m p l a v : bytes_at m p l → ¬ (p ≤ a < p + length l) → bytes_at (stb m a v) p l.
Proof.
  intros Hl Ha i x Hi. rewrite ldb_stb_ne; [by apply Hl|]. apply lookup_lt_Some in Hi. lia.
Qed.

Lemma itoa_step k m v str base i : itoa_loop (S k) m v str base i =
  if v =? 0 then Some (m, i) else if base =? 0 then None
  else itoa_loop k (stb m (str + i) (digit (Z.rem v base))) (Z.quot v base) str base (i + 1).
Proof. reflexivity. Qed.

Lemma itoa_loop_digits k : ∀ fuel v m str i, 0 ≤ v < 10 ^ Z.of_nat k → (k < fuel)%nat →
  ∃ m' l, itoa_loop fuel m v str 10 i = Some (m', i + length l) ∧ (length l ≤ k)%nat ∧ Forall is_digit l ∧ val l = v ∧
    bytes_at m' (str + i) l ∧ same_outside m m' (str + i) (length l).
Proof.
  induction k as [|k IH]; intros [|fuel] v m str i Hv Hf; [lia| |lia|]; rewrite itoa_step; (destruct (Z.eqb_spec v 0) as [->|Hv0];
    [exists m, []; split; [by rewrite Z.add_0_r|]; split; [cbn; lia|]; by repeat split|]); [cbn in Hv; lia|].
  cbn [Z.eqb]. rewrite Z.quot_div_nonneg, Z.rem_mod_nonneg by lia.
  pose proof (Z.mod_pos_bound v 10 ltac:(lia)) as Hm. pose proof (Z.div_mod v 10 ltac:(lia)) as Hd.
  assert (digit (v `mod` 10) = 48 + v `mod` 10) as -> by (unfold digit; destruct (Z.ltb_spec 9 (v `mod` 10)); lia).
  set (m1 := stb m (str + i) _).
  destruct (IH fuel (v / 10) m1 str (i + 1)) as (m' & l & E & H1 & H2 & H3 & H4 & H5).
  { rewrite Nat2Z.inj_succ, Z.pow_succ_r in Hv by lia. split; [apply Z.div_pos; lia|]. apply Z.div_lt_upper_bound; lia. }
  { lia. }
  exists m', ((48 + v `mod` 10) :: l). rewrite E. cbn [length]. split; [do 2 f_equal; lia|]. split; [lia|].
  split; [constructor; [unfold is_digit; lia|done]|]. split; [unfold val in *; cbn; lia|]. split.
  - apply bytes_at_cons; [|by rewrite <- Z.add_assoc]. rewrite (H5 (str + i)) by lia. subst m1. rewrite ldb_stb_eq. by apply u8_small; lia.
  - intros b Hb. rewrite (H5 b) by lia. subst m1. apply ldb_stb_ne. lia.
Qed.

Lemma reverse_loop_spec (fuel : nat) : ∀ m str s e, 0 ≤ s ≤ e + 1 → e < 2 ^ 64 - 1 → e - s < 2 * fuel - 1 →
  ∃ m', reverse_loop fuel m str s e = Some m' ∧
    ∀ a, ldb m' (str + a) = if (s <=? a) && (a <=? e) then ldb m (str + (s + e - a)) else ldb m (str + a).
Proof.
  induction fuel as [|fuel IH]; intros m str s e Hs He Hf; [lia|]. cbn [reverse_loop].
  destruct (Z.ltb_spec s e) as [Hlt|Hge].
  - cbv zeta. rewrite !u64_small by lia. set (m1 := stb _ _ _).
    destruct (IH m1 str (s + 1) (e - 1)) as (m' & -> & H); [lia..|]. exists m'. split; [done|]. intros a. rewrite H.
    subst m1. destruct (Z.leb_spec (s + 1) a), (Z.leb_spec a (e - 1)), (Z.leb_spec s a), (Z.leb_spec a e); cbn [andb]; try lia;
      rewrite !ldb_stb; repeat zcase; try lia; rewrite ?u8_small by apply ldb_range; f_equal; lia.
  - exists m. split; [done|]. intros a. destruct (Z.leb_spec s a), (Z.leb_spec a e); cbn [andb]; try done. f_equal. lia.
Qed.

Lemma reverse_spec (fuel : nat) m str l : bytes_at m str l → (0 < length l)%nat → length l < 2 ^ 63 → length l < 2 * fuel →
  ∃ m', reverse fuel m str (length l) = Some m' ∧ bytes_at m' str (rev l) ∧ same_outside m m' str (length l).
Proof.
  intros Hl Hn Hb Hf. unfold reverse. rewrite u64_small by lia.
  destruct (reverse_loop_spec fuel m str 0 (length l - 1)) as (m' & -> & H); [lia..|]. exists m'. split; [done|]. split.
  - intros i x Hi. pose proof (lookup_lt_Some _ _ _ Hi) as Hlt. rewrite length_rev in Hlt. rewrite H.
    destruct (Z.leb_spec 0 i), (Z.leb_spec i (length l - 1)); try lia. cbn [andb].
    replace (str + (0 + (length l - 1) - i)) with (str + (length l - 1 - i)%nat) by lia. apply Hl.
    by apply lookup_rev.
  - intros b Hb'. replace b with (str + (b - str)) by lia. rewrite H.
    destruct (Z.leb_spec 0 (b - str)), (Z.leb_spec (b - str) (length l - 1)); cbn [andb]; done || lia.
Qed.

Lemma push_ge ds : ∀ r, Forall is_digit ds → 0 ≤ r → r ≤ foldl push r ds.
Proof.
  induction ds as [|c ds IH]; intros r Hd Hr; cbn [foldl]; [lia|]. apply Forall_cons in Hd as [Hc Hd].
  unfold is_digit in Hc. transitivity (push r c); [unfold push; lia|]. apply IH; [done|]. unfold push. lia.
Qed.

Lemma foldl_push_val l : foldl push 0 (rev l) = val l.
Proof.
  induction l as [|c l IH]; [done|]. cbn [rev]. rewrite foldl_app, IH. unfold val, push. cbn. lia.
Qed.

Lemma atoi_loop_spec ds : ∀ (fuel : nat) m str i r, (length ds < fuel)%nat → bytes_at m (str + i) ds →
  ldb m (str + i + length ds) = 0 → Forall is_digit ds → 0 ≤ r → foldl push r ds < 2 ^ 31 →
  atoi_loop fuel m str i r = Some (foldl push r ds).
Proof.
  induction ds as [|c ds IH]; intros fuel m str i r Hf Hb Ht Hd Hr Hlt; destruct fuel as [|fuel]; cbn [length] in *; try lia;
    cbn [atoi_loop]; cbv zeta.
  - rewrite Z.add_0_r in Ht. by rewrite Ht.
  - apply Forall_cons in Hd as [Hc Hd]. unfold is_digit in Hc. pose proof (Hb 0%nat c eq_refl) as E. rewrite Z.add_0_r in E.
    rewrite E. assert (sc c = c) as -> by (unfold sc; destruct (Z.ltb_spec c 128); lia).
    destruct (Z.leb_spec 48 c), (Z.leb_spec c 57); try lia. cbn [andb foldl] in *.
    pose proof (push_ge ds (push r c) Hd ltac:(unfold push; lia)) as Hp. unfold push in Hp at 1.
    rewrite (s32_small (r * 10)), s32_small by lia. fold (push r c). apply IH; [lia| | |done|unfold push; lia|done].
    + intros j x Hj. rewrite <- (Hb (S j) x Hj). f_equal. lia.
    + rewrite <- Ht. f_equal. lia.
Qed.

(** The text of a number reads back. *)
Lemma atoi_digits (fuel : nat) m str (neg : bool) l : (length l + 2 ≤ fuel)%nat → l ≠ [] → Forall is_digit l → val l < 2 ^ 31 →
  bytes_at m str ((if neg then [45] else []) ++ rev l ++ [0]) →
  atoi fuel m str = Some (if neg then - val l else val l).
Proof.
  intros Hf Hl Hd Hv Hb.
  assert (Forall is_digit (rev l)) as Hd' by by apply Forall_rev.
  assert (0 ≤ val l) as Hv0 by (rewrite <- foldl_push_val; apply push_ge; [done|lia]).
  set (k := if neg then 1 else 0).
  assert (bytes_at m (str + k) (rev l) ∧ ldb m (str + k + length (rev l)) = 0) as [Hb1 Hb2].
  { subst k. destruct neg; cbn [app] in Hb; cbv iota; split.
    - intros j x Hj. rewrite <- (Hb (S j) x); [f_equal; lia|].
      change ((rev l ++ [0]) !! j = Some x). by rewrite lookup_app_l by (by eapply lookup_lt_Some).
    - replace (str + 1 + length (rev l)) with (str + S (length (rev l))) by lia. apply Hb.
      change ((rev l ++ [0]) !! length (rev l) = Some 0). by rewrite lookup_app_r, Nat.sub_diag.
    - intros j x Hj. rewrite <- (Hb j x); [f_equal; lia|]. by rewrite lookup_app_l by (by eapply lookup_lt_Some).
    - rewrite Z.add_0_r. apply Hb. by rewrite lookup_app_r, Nat.sub_diag. }
  pose proof (atoi_loop_spec (rev l) fuel m str k 0) as HA. rewrite length_rev, foldl_push_val in HA. rewrite length_rev in Hb2.
  specialize (HA ltac:(lia) Hb1 Hb2 Hd' ltac:(lia) Hv).
  destruct fuel as [|fuel]; [lia|]. unfold atoi. cbn [skip_blanks]. rewrite !Z.add_0_r.
  destruct neg; subst k.
  - pose proof (Hb 0%nat 45 eq_refl) as E. rewrite Z.add_0_r in E. rewrite E. cbn [is_blank Z.eqb Pos.eqb orb mbind option_bind].
    rewrite Z.add_0_r, E. cbn [Z.eqb Pos.eqb orb]. rewrite Z.add_0_l, HA. cbn [mbind option_bind]. f_equal. rewrite s32_small; lia.
  - destruct (rev l) as [|c ds] eqn:El; [apply (f_equal length) in El; rewrite length_rev in El; by destruct l|].
    pose proof (Hb 0%nat c eq_refl) as E. rewrite Z.add_0_r in E. rewrite E. apply Forall_cons in Hd' as [Hc _]. unfold is_digit in Hc.
    assert (is_blank c = false) as -> by (unfold is_blank; repeat zcase; done || lia).
    cbn [mbind option_bind]. rewrite Z.add_0_r, E. destruct (Z.eqb_spec c 45), (Z.eqb_spec c 43); try lia. cbn [orb].
    rewrite HA. cbn [mbind option_bind]. f_equal. rewrite s32_small; lia.
Qed.

(** [itoa] in base 10 and [atoi] are inverse for every [int] but the least: the text is
    read back as the number, and at most 12 bytes are written. *)
Theorem itoa_atoi_roundtrip (m : mem) (v str : Z) (fuel : nat) : - 2 ^ 31 < v < 2 ^ 31 → (12 ≤ fuel)%nat →
  ∃ m', itoa fuel m v str 10 = Some m' ∧ atoi fuel m' str = Some v ∧ same_outside m m' str 12.
Proof.
  intros Hv Hf. unfold itoa. destruct (Z.eqb_spec v 0) as [->|Hv0].
  { exists (stb (stb m str 48) (str + 1) 0). split; [done|]. split.
    - apply (atoi_digits fuel _ str false [48]); [cbn; lia|done|repeat constructor; unfold is_digit; lia|done|].
      apply bytes_at_cons; [|apply bytes_at_cons; [|done]].
      + rewrite ldb_stb_ne by lia. by rewrite ldb_stb_eq.
      + by rewrite ldb_stb_eq.
    - intros b Hb. rewrite !ldb_stb_ne by lia. done. }
  set (neg := (v <? 0) && (10 =? 10)).
  assert ((if neg then s32 (- v) else v) = Z.abs v) as -> by (subst neg; destruct (Z.ltb_spec v 0); cbn; [rewrite s32_small|]; lia).
  assert (v = if neg then - Z.abs v else Z.abs v) as Ev by (subst neg; destruct (Z.ltb_spec v 0); cbn; lia). clearbody neg.
  destruct (itoa_loop_digits 10 fuel (Z.abs v) m str 0) as (m1 & l & -> & H1 & H2 & H3 & H4 & H5); [lia..|].
  rewrite Z.add_0_r in H4, H5. cbn [mbind option_bind]. rewrite Z.add_0_l.
  assert (l ≠ []) as Hl by (intros ->; cbn in H3; lia).
  set (l2 := l ++ if neg then [45] else []).
  assert (∃ m2, (if neg then (stb m1 (str + length l) 45, length l + 1) else (m1, Z.of_nat (length l))) = (m2, Z.of_nat (length l2)) ∧
    bytes_at m2 str l2 ∧ same_outside m m2 str (length l2)) as (m2 & -> & Hb2 & Ho2).
  { subst l2. destruct neg; rewrite length_app; cbn [length].
    - eexists. split; [f_equal; lia|]. split.
      + apply bytes_at_snoc; [apply bytes_at_stb; [done|lia]|]. by rewrite ldb_stb_eq.
      + intros b Hb. rewrite ldb_stb_ne by lia. apply H5. lia.
    - exists m1. rewrite app_nil_r. split; [f_equal; lia|]. split; [done|]. intros b Hb. apply H5. lia. }
  assert (0 < length l2 ≤ 11)%nat as Hn.
  { subst l2. rewrite length_app. destruct l; [done|]. destruct neg; cbn [length] in *; lia. }
  destruct (reverse_spec fuel (stb m2 (str + length l2) 0) str l2) as (m' & -> & Hb' & Ho'); [apply bytes_at_stb; [done|lia]|lia..|].
  exists m'. split; [done|]. split.
  - rewrite Ev, <- H3. apply atoi_digits; [lia|done|done|lia|].
    assert ((if neg then [45] else []) ++ rev l ++ [0] = rev l2 ++ [0]) as ->.
    { subst l2. rewrite rev_app_distr, app_assoc. by destruct neg. }
    apply bytes_at_snoc; [done|]. rewrite length_rev, Ho' by lia. by rewrite ldb_stb_eq.
  - intros b Hb. rewrite Ho', ldb_stb_ne by lia. apply Ho2. lia.
Qed.

Lemma itoa_atoi_roundtrip_witness :
  ∃ m', itoa 12 ∅ (-2147483647) 4096 10 = Some m' ∧ atoi 12 m' 4096 = Some (-2147483647) ∧ same_outside ∅ m' 4096 12.
Proof. apply (itoa_atoi_roundtrip ∅ (-2147483647) 4096 12); lia. Defined.

(** The least [int] has no positive counterpart; its "digits" are not digits, and the text
    does not read back. *)
Lemma itoa_int_min : ∃ m', itoa 12 ∅ (- 2 ^ 31) 4096 10 = Some m' ∧
  map (λ i : nat, ldb m' (4096 + i)) (seq 0 4) = [45; 46; 47; 44] ∧ atoi 12 m' 4096 = Some 0.
Proof. eexists. split; [vm_compute; reflexivity|]. split; vm_compute; reflexivity. Qed.
