(* ===== verification/PageTable.v ===== *)
(** x86-64 page tables as 64-bit words of memory, shared by [mem/paging.c] and
    [core/mm.c]: the entry bits of [inc/paging.h], the processor's four-level walk,
    and how one store to one entry changes the translations of a set of trees.

    Every access to a table is an aligned 64-bit access, so memory is a finite map
    from the byte address of a word to the word; a word never written reads as [0]. *)
From S2P Require Import Prelude.

Module PageTable.

(** * inc/paging.h *)

Definition PAGE_SIZE_4K : Z := 4096.
Definition PAGE_SIZE_2M : Z := 2 * 1024 * 1024.
Definition PT_ENTRIES : nat := 512.
Definition PG_PRESENT : Z := Z.shiftl 1 0.
Definition PG_RW : Z := Z.shiftl 1 1.
Definition PG_US : Z := Z.shiftl 1 2.
Definition PG_PWT : Z := Z.shiftl 1 3.
Definition PG_PCD : Z := Z.shiftl 1 4.
Definition PG_PS_2M : Z := Z.shiftl 1 7.
Definition PG_GLOBAL : Z := Z.shiftl 1 8.
Definition PG_SOFT_COW : Z := Z.shiftl 1 10.
Definition PG_SOFT_OWNED : Z := Z.shiftl 1 11.
Definition PG_PAT : Z := Z.shiftl 1 12.
Definition PG_NX : Z := Z.shiftl 1 63.
Definition PG_ADDR_MASK : Z := 0x000FFFFFFFFFF000.
Definition PG_ADDR_MASK_2M : Z := PG_ADDR_MASK &u ~u (PAGE_SIZE_2M - 1).
Definition PG_ADDR_MASK_1G : Z := PG_ADDR_MASK &u ~u (Z.shiftl 1 30 - 1).

(** C's truth value of [e & f]. *)
Definition has (e f : Z) : bool := nz (e &u f).

(** * Memory words *)

Abbreviation words := (gmap Z Z).
Definition rd (m : words) (a : Z) : Z := u64 (default 0 (m !! a)).
Definition wr (m : words) (a v : Z) : words := <[a := v]> m.

(** [for (i = 0; i < k; i++) t[i] = f(i, t[i])] from index [i] on. *)
Fixpoint fill (k : nat) (i : Z) (m : words) (t : Z) (f : Z → Z → Z) : words :=
  match k with
  | O => m
  | S k => fill k (i + 1) (wr m (t + 8 * i) (f i (rd m (t + 8 * i)))) t f
  end.

(** * The processor's walk

    A table of level [k] (4 for the root) is indexed by nine bits of the address,
    and an entry of level 3 or 2 with [PG_PS_2M] set, like every entry of level 1,
    is a leaf.  A page is writable and user-accessible when every entry of the path
    is, and not executable when some entry of the path says so; the leaf selects
    the memory type and whether the translation is global. *)

Definition shift (k : nat) : Z := 3 + 9 * k.
Definition idx (k : nat) (va : Z) : Z := Z.land (Z.shiftr va (shift k)) 0x1FF.
Definition slot (t : Z) (k : nat) (va : Z) : Z := t + 8 * idx k va.
Definition leaf (k : nat) (e : Z) : bool :=
  match k with 1%nat => true | 2%nat | 3%nat => has e PG_PS_2M | _ => false end.
Definition addr_mask (k : nat) : Z :=
  match k with 3%nat => PG_ADDR_MASK_1G | 2%nat => PG_ADDR_MASK_2M | _ => PG_ADDR_MASK end.

Record tr := Tr {
  t_pa : Z; t_rw : bool; t_us : bool; t_nx : bool;
  t_pat : bool; t_pcd : bool; t_pwt : bool; t_global : bool
}.
Definition leaf_tr (k : nat) (e va : Z) (rw us nx : bool) : tr :=
  Tr ((e &u addr_mask k) + va `mod` 2 ^ shift k) rw us nx
    (has e (match k with 1%nat => PG_PS_2M | _ => PG_PAT end)) (has e PG_PCD) (has e PG_PWT) (has e PG_GLOBAL).

Fixpoint walk_from (k : nat) (m : words) (t va : Z) (rw us nx : bool) : option tr :=
  match k with
  | O => None
  | S k' =>
      let e := rd m (slot t k va) in
      if negb (has e PG_PRESENT) then None
      else
        let rw := rw && has e PG_RW in
        let us := us && has e PG_US in
        let nx := nx || has e PG_NX in
        if leaf k e then Some (leaf_tr k e va rw us nx)
        else walk_from k' m (e &u PG_ADDR_MASK) va rw us nx
  end.
Definition walk (m : words) (root va : Z) : option tr := walk_from 4 m root va true true false.

(** The table consulted after [d] steps down from the root, and the address bits
    that select it. *)
Fixpoint table_at (m : words) (d : nat) (root va : Z) : option Z :=
  match d with
  | O => Some root
  | S d =>
      t ← table_at m d root va;
      let e := rd m (slot t (4 - d) va) in
      if has e PG_PRESENT && negb (leaf (4 - d) e) then Some (e &u PG_ADDR_MASK) else None
  end.
(** Permissions collected above that table. *)
Fixpoint perms (m : words) (d : nat) (root va : Z) : bool * bool * bool :=
  match d with
  | O => (true, true, false)
  | S d =>
      let '(rw, us, nx) := perms m d root va in
      match table_at m d root va with
      | Some t =>
          let e := rd m (slot t (4 - d) va) in
          (rw && has e PG_RW, us && has e PG_US, nx || has e PG_NX)
      | None => (rw, us, nx)
      end
  end.
Definition pfx (d : nat) (va : Z) : Z := (va `mod` 2 ^ 48) `div` 2 ^ (48 - 9 * d).

End PageTable.
Import PageTable.

#[global] Arguments rd : simpl never.
#[global] Arguments wr : simpl never.
#[global] Arguments has : simpl never.
#[global] Arguments slot : simpl never.

(** * Bits of an entry *)

Lemma has_bit e n : 0 ≤ n → has e (Z.shiftl 1 n) = Z.testbit e n.
Proof.
  intros Hn. unfold has. rewrite Z.shiftl_1_l.
  replace (2 ^ n) with (Z.shiftl 1 n) by apply Z.shiftl_1_l.
  destruct (Z.testbit e n) eqn:E.
  - apply nz_true. intros H. assert (Z.testbit (e &u Z.shiftl 1 n) n = true) as H'.
    { rewrite Z.land_spec, E, Z.shiftl_spec, Z.sub_diag by done. done. }
    by rewrite H, Z.bits_0 in H'.
  - apply nz_false. apply Z.bits_inj'. intros k Hk. rewrite Z.land_spec, Z.bits_0.
    destruct (decide (k = n)) as [->|]; [by rewrite E|].
    rewrite Z.shiftl_spec by done. rewrite andb_comm.
    destruct (Z.lt_ge_cases k n); [by rewrite Z.testbit_neg_r by lia|].
    rewrite <- (Z.pow_0_r 2), Z.pow2_bits_false by lia. done.
Qed.

Lemma mod_mod_pow2 e a b : 0 ≤ a ≤ b → (e `mod` 2 ^ b) `mod` 2 ^ a = e `mod` 2 ^ a.
Proof.
  intros. apply Z.mod_mod_divide. exists (2 ^ (b - a)). rewrite <- Z.pow_add_r by lia. f_equal. lia.
Qed.

Lemma ones_land e k : 0 ≤ k → e &u (2 ^ k - 1) = e `mod` 2 ^ k.
Proof. intros. replace (2 ^ k - 1) with (Z.ones k) by (rewrite Z.ones_equiv; lia). by apply Z.land_ones. Qed.

Lemma land_range e a b : 0 ≤ a ≤ b → e &u (2 ^ b - 2 ^ a) = e `mod` 2 ^ b - e `mod` 2 ^ a.
Proof.
  intros Hab.
  assert (2 ^ b - 2 ^ a = Z.ldiff (Z.ones b) (Z.ones a)) as ->.
  { rewrite Z.ldiff_ones_r by lia. rewrite Z.shiftl_mul_pow2, Z.shiftr_div_pow2 by lia.
    rewrite Z.ones_equiv. pose proof (Z.pow_pos_nonneg 2 a). pose proof (Z.pow_pos_nonneg 2 (b - a)).
    replace b with (a + (b - a)) at 2 by lia. rewrite Z.pow_add_r by lia.
    replace (Z.pred (2 ^ a * 2 ^ (b - a))) with ((2 ^ (b - a) - 1) * 2 ^ a + (2 ^ a - 1)) by lia.
    rewrite Z.div_add_l, Z.div_small by lia. replace b with (a + (b - a)) at 1 by lia.
    rewrite Z.pow_add_r by lia. lia. }
  rewrite !Z.ldiff_land, Z.land_assoc, <- Z.ldiff_land, Z.land_ones, Z.ldiff_ones_r by lia.
  rewrite Z.shiftl_mul_pow2, Z.shiftr_div_pow2 by lia.
  pose proof (Z.div_mod (e `mod` 2 ^ b) (2 ^ a)) as H. rewrite mod_mod_pow2 in H by lia. lia.
Qed.

Lemma addr_4k e : e &u PG_ADDR_MASK = e `mod` 2 ^ 52 - e `mod` 2 ^ 12.
Proof. by apply (land_range e 12 52). Qed.
Lemma addr_2m e : e &u PG_ADDR_MASK_2M = e `mod` 2 ^ 52 - e `mod` 2 ^ 21.
Proof. by apply (land_range e 21 52). Qed.
Lemma addr_1g e : e &u PG_ADDR_MASK_1G = e `mod` 2 ^ 52 - e `mod` 2 ^ 30.
Proof. by apply (land_range e 30 52). Qed.
Lemma addr_mask_eq k e : (1 ≤ k ≤ 3)%nat → e &u addr_mask k = e `mod` 2 ^ 52 - e `mod` 2 ^ shift k.
Proof.
  intros Hk. destruct k as [|[|[|[|k]]]]; try lia; unfold addr_mask, shift.
  - apply addr_4k.
  - apply addr_2m.
  - apply addr_1g.
Qed.

Lemma addr_range e : 0 ≤ e &u PG_ADDR_MASK < 2 ^ 52.
Proof.
  rewrite addr_4k. pose proof (Z.mod_pos_bound e (2 ^ 52)).
  assert (e `mod` 2 ^ 12 ≤ e `mod` 2 ^ 52); [|pose proof (Z.mod_pos_bound e (2 ^ 12)); lia].
  rewrite <- (mod_mod_pow2 e 12 52) by lia. apply Z.mod_le; lia.
Qed.
Lemma addr_aligned e : (e &u PG_ADDR_MASK) `mod` 4096 = 0.
Proof.
  rewrite addr_4k. change 4096 with (2 ^ 12).
  rewrite Zminus_mod_idemp_r, <- Zminus_mod_idemp_l, mod_mod_pow2, Zminus_mod_idemp_l, Z.sub_diag by lia. done.
Qed.

(** An address with [2 ^ k] alignment or'ed with smaller flags. *)
Lemma lor_aligned n f k : 0 ≤ k → n `mod` 2 ^ k = 0 → 0 ≤ f < 2 ^ k → Z.lor n f = n + f.
Proof.
  intros Hk Hn Hf. assert (n = Z.shiftl (n `div` 2 ^ k) k) as E.
  { rewrite Z.shiftl_mul_pow2 by done. pose proof (Z.div_mod n (2 ^ k)). lia. }
  rewrite E at 1. rewrite lor_low by done. rewrite <- Z.shiftl_mul_pow2 by done. by rewrite <- E.
Qed.
Lemma low_bits n f k i : 0 ≤ k → n `mod` 2 ^ k = 0 → 0 ≤ i < k → Z.testbit (n + f) i = Z.testbit f i.
Proof.
  intros Hk Hn Hi. rewrite <- (Z.mod_pow2_bits_low (n + f) k) by lia.
  rewrite <- Z.add_mod_idemp_l, Hn, Z.add_0_l, Z.mod_pow2_bits_low by lia. done.
Qed.

(** * Words *)

Lemma word_range m a : is_u64 (rd m a).
Proof. apply u64_range. Qed.
#[export] Hint Resolve word_range : axon.

Lemma rd_wr m a v b : rd (wr m a v) b = if b =? a then u64 v else rd m b.
Proof.
  unfold rd, wr. destruct (Z.eqb_spec b a) as [->|].
  - by rewrite lookup_insert_eq.
  - by rewrite lookup_insert_ne.
Qed.
Lemma word_wr_eq m a v : rd (wr m a v) a = u64 v.
Proof. by rewrite rd_wr, Z.eqb_refl. Qed.
Lemma rd_wr_ne m a v b : b ≠ a → rd (wr m a v) b = rd m b.
Proof. intros. rewrite rd_wr. by destruct (Z.eqb_spec b a). Qed.

Lemma rd_fill_out (k : nat) i m t f a :
  (∀ j, i ≤ j < i + k → a ≠ t + 8 * j) → rd (fill k i m t f) a = rd m a.
Proof.
  revert i m. induction k as [|k IH]; intros i m H; [done|]. cbn [fill].
  rewrite IH by (intros j Hj; apply H; lia). apply rd_wr_ne, H. lia.
Qed.
Lemma rd_fill_in (k : nat) i m t f j :
  i ≤ j < i + k → rd (fill k i m t f) (t + 8 * j) = u64 (f j (rd m (t + 8 * j))).
Proof.
  revert i m. induction k as [|k IH]; intros i m H; [lia|]. cbn [fill].
  destruct (decide (j = i)) as [->|].
  - rewrite rd_fill_out by lia. apply word_wr_eq.
  - rewrite IH by lia. by rewrite rd_wr_ne by lia.
Qed.

(** * Indices and prefixes *)

Lemma idx_eq k va : idx k va = (va `div` 2 ^ shift k) `mod` 512.
Proof.
  unfold idx. change 0x1FF with (2 ^ 9 - 1). rewrite ones_land by lia.
  by rewrite Z.shiftr_div_pow2 by (unfold shift; lia).
Qed.
Lemma idx_range k va : 0 ≤ idx k va < 512.
Proof. rewrite idx_eq. apply Z.mod_pos_bound. lia. Qed.
#[export] Hint Resolve idx_range : axon.

Lemma pfx_S d va : (d < 4)%nat → pfx (S d) va = 512 * pfx d va + idx (4 - d) va.
Proof.
  intros Hd. rewrite idx_eq. unfold pfx, shift.
  replace (3 + 9 * (4 - d)%nat) with (48 - 9 * S d) by lia.
  set (s := 48 - 9 * S d). replace (48 - 9 * d) with (s + 9) by lia.
  rewrite Z.pow_add_r, <- Z.div_div by lia.
  pose proof (Z.div_mod ((va `mod` 2 ^ 48) `div` 2 ^ s) 512) as E.
  change (2 ^ 9) with 512. rewrite E at 1 by lia. f_equal.
  replace 48 with (s + (48 - s)) at 1 by lia. rewrite Z.pow_add_r by lia.
  rewrite Z.rem_mul_r by lia. rewrite Z.add_comm, Z.mul_comm, Z.div_add_l by lia.
  rewrite (Z.div_small (va `mod` 2 ^ s)), Z.add_0_r by (apply Z.mod_pos_bound; lia).
  change 512 with (2 ^ 9). by rewrite mod_mod_pow2 by lia.
Qed.
Lemma pfx_0 va va' : pfx 0 va = pfx 0 va'.
Proof.
  unfold pfx. simpl. rewrite !Z.div_small by (apply Z.mod_pos_bound; lia). done.
Qed.

Lemma pfx_le d d' va va' : (d ≤ d' ≤ 4)%nat → pfx d' va = pfx d' va' → pfx d va = pfx d va'.
Proof.
  intros [H1 H2] E. induction d' as [|d' IH]; [by replace d with 0%nat by lia|].
  destruct (decide (d = S d')) as [->|]; [done|]. apply IH; [lia|lia|].
  rewrite !pfx_S in E by lia. pose proof (idx_range (4 - d') va). pose proof (idx_range (4 - d') va'). lia.
Qed.
Lemma pfx_idx d va va' : (d < 4)%nat → pfx (S d) va = pfx (S d) va' ↔
  pfx d va = pfx d va' ∧ idx (4 - d) va = idx (4 - d) va'.
Proof.
  intros Hd. rewrite !pfx_S by done.
  pose proof (idx_range (4 - d) va). pose proof (idx_range (4 - d) va'). lia.
Qed.

Lemma slot_inj t t' k k' va va' :
  t `mod` 4096 = 0 → t' `mod` 4096 = 0 → slot t k va = slot t' k' va' →
  t = t' ∧ idx k va = idx k' va'.
Proof.
  unfold slot. intros H1 H2 E. pose proof (idx_range k va). pose proof (idx_range k' va').
  pose proof (Z.div_mod t 4096). pose proof (Z.div_mod t' 4096). lia.
Qed.

(** * Tables of a tree *)

Lemma table_at_S m d r va t' :
  table_at m (S d) r va = Some t' ↔
  ∃ t, table_at m d r va = Some t ∧ has (rd m (slot t (4 - d) va)) PG_PRESENT = true ∧
       leaf (4 - d) (rd m (slot t (4 - d) va)) = false ∧ t' = rd m (slot t (4 - d) va) &u PG_ADDR_MASK.
Proof.
  cbn [table_at]. destruct (table_at m d r va) as [t|]; cbn [mbind option_bind]; [|split; [done|by intros (? & ? & _)]].
  destruct (has _ _) eqn:E1, (leaf _ _) eqn:E2; cbn; split; try done.
  all: try (intros (t1 & [= <-] & ? & ? & ->); congruence).
  all: intros [= <-]; by exists t.
Qed.

Lemma table_at_le m d r va t : table_at m d r va = Some t → (d ≤ 3)%nat.
Proof.
  revert t. induction d as [|d IH]; intros t H; [lia|].
  apply table_at_S in H as (s & H & _ & Hl & _). apply IH in H.
  destruct (decide (d = 3%nat)) as [->|]; [done|lia].
Qed.

Lemma table_at_some m d d' r va t :
  (d ≤ d')%nat → table_at m d' r va = Some t → ∃ s, table_at m d r va = Some s.
Proof.
  intros Hd. revert t. induction Hd as [|d' Hd IH]; intros t Ht; [by exists t|].
  apply table_at_S in Ht as (s & Hs & _). by apply (IH s).
Qed.

Lemma table_at_none m d d' r va :
  (d ≤ d')%nat → table_at m d r va = None → table_at m d' r va = None.
Proof.
  intros Hd Hn. destruct (table_at m d' r va) as [t|] eqn:E; [|done].
  destruct (table_at_some m d d' r va t Hd E). congruence.
Qed.

Lemma table_at_aligned m d r va t : r `mod` 4096 = 0 → table_at m d r va = Some t → t `mod` 4096 = 0.
Proof.
  intros Hr. destruct d as [|d]; [by intros [= <-]|].
  intros (t' & _ & _ & _ & ->)%table_at_S. apply addr_aligned.
Qed.

Lemma table_at_pfx m d r va va' :
  (d ≤ 4)%nat → pfx d va = pfx d va' → table_at m d r va = table_at m d r va'.
Proof.
  induction d as [|d IH]; intros Hd E; [done|]. apply pfx_idx in E as [E1 E2]; [|lia].
  cbn [table_at]. rewrite (IH ltac:(lia) E1). unfold slot. by rewrite E2.
Qed.

(** The trees under the roots [R]: no table is reached on two different paths, and
    an entry that points to a table is an address below [2 ^ 52] with flags. *)
Record forest (m : words) (R : list Z) : Prop := {
  f_root : ∀ r, r ∈ R → r `mod` 4096 = 0;
  f_inj : ∀ r r' d d' va va' t, r ∈ R → r' ∈ R →
    table_at m d r va = Some t → table_at m d' r' va' = Some t → d = d' ∧ pfx d va = pfx d va';
  f_ptr : ∀ r d va t, r ∈ R → table_at m d r va = Some t →
    has (rd m (slot t (4 - d) va)) PG_PRESENT = true → leaf (4 - d) (rd m (slot t (4 - d) va)) = false →
    rd m (slot t (4 - d) va) < 2 ^ 52
}.

Lemma f_aligned m R r d va t : forest m R → r ∈ R → table_at m d r va = Some t → t `mod` 4096 = 0.
Proof. intros F Hr. apply table_at_aligned. by apply (f_root _ _ F). Qed.

Definition fresh (m : words) (R : list Z) (n : Z) : Prop :=
  n `mod` 4096 = 0 ∧ ∀ r d va, r ∈ R → table_at m d r va ≠ Some n.

(** Two memories with the same entries in the tables of [R]. *)
Definition agree_on (m m' : words) (R : list Z) : Prop :=
  ∀ r d va t, r ∈ R → table_at m d r va = Some t →
    rd m' (slot t (4 - d) va) = rd m (slot t (4 - d) va).

Lemma table_ext m m' r va :
  (∀ d t, table_at m d r va = Some t → rd m' (slot t (4 - d) va) = rd m (slot t (4 - d) va)) →
  ∀ d, table_at m' d r va = table_at m d r va.
Proof.
  intros H d. induction d as [|d IH]; [done|]. cbn [table_at]. rewrite IH.
  destruct (table_at m d r va) as [t|] eqn:E; [|done]. cbn [mbind option_bind]. by rewrite (H d t E).
Qed.

Lemma walk_from_ext m m' r va d t rw us nx :
  table_at m d r va = Some t →
  (∀ d' t', (d ≤ d')%nat → table_at m d' r va = Some t' → rd m' (slot t' (4 - d') va) = rd m (slot t' (4 - d') va)) →
  walk_from (4 - d) m' t va rw us nx = walk_from (4 - d) m t va rw us nx.
Proof.
  intros Ht H. pose proof (table_at_le _ _ _ _ _ Ht) as Hd. remember (4 - d)%nat as k eqn:Ek.
  revert d t rw us nx Ht H Hd Ek. induction k as [|k IH]; intros d t rw us nx Ht H Hd Ek; [lia|]. cbn [walk_from].
  pose proof (H d t ltac:(lia) Ht) as E. rewrite <- Ek in E. rewrite E.
  destruct (has _ PG_PRESENT) eqn:Ep; [|done]. cbn [negb]. destruct (leaf _ _) eqn:El; [done|].
  assert (table_at m (S d) r va = Some (rd m (slot t (S k) va) &u PG_ADDR_MASK)) as Ht'.
  { apply table_at_S. exists t. by rewrite <- Ek. }
  pose proof (table_at_le _ _ _ _ _ Ht'). apply (IH (S d)); [done| |lia|lia]. intros d' t' ?. apply H. lia.
Qed.

Lemma walk_ext m m' r va :
  (∀ d t, table_at m d r va = Some t → rd m' (slot t (4 - d) va) = rd m (slot t (4 - d) va)) →
  walk m' r va = walk m r va.
Proof. intros H. apply (walk_from_ext m m' r va 0); [done|]. intros d t _. apply H. Qed.

(** The leaf that translates an address, with its level; permissions do not matter. *)
Fixpoint leaf_from (k : nat) (m : words) (t va : Z) : option (nat * Z) :=
  match k with
  | O => None
  | S k' =>
      let e := rd m (slot t k va) in
      if negb (has e PG_PRESENT) then None
      else if leaf k e then Some (k, e) else leaf_from k' m (e &u PG_ADDR_MASK) va
  end.
Definition leaf_at (m : words) (r va : Z) : option (nat * Z) := leaf_from 4 m r va.
Definition frame_of (va : Z) (l : nat * Z) : Z := (l.2 &u addr_mask l.1) + va `mod` 2 ^ shift l.1.

Lemma walk_leaf_at m r va : option_map t_pa (walk m r va) = option_map (frame_of va) (leaf_at m r va).
Proof.
  unfold walk, leaf_at. generalize true at 1. generalize true. generalize false. generalize 4%nat. intros k.
  revert r. induction k as [|k IH]; intros t nx us rw; [done|]. cbn [walk_from leaf_from].
  destruct (has _ PG_PRESENT); [|done]. cbn [negb]. destruct (leaf _ _); [done|]. apply IH.
Qed.

Lemma leaf_from_ext m m' r va d t :
  table_at m d r va = Some t →
  (∀ d' t', (d ≤ d')%nat → table_at m d' r va = Some t' → rd m' (slot t' (4 - d') va) = rd m (slot t' (4 - d') va)) →
  leaf_from (4 - d) m' t va = leaf_from (4 - d) m t va.
Proof.
  intros Ht H. pose proof (table_at_le _ _ _ _ _ Ht) as Hd. remember (4 - d)%nat as k eqn:Ek.
  revert d t Ht H Hd Ek. induction k as [|k IH]; intros d t Ht H Hd Ek; [lia|]. cbn [leaf_from].
  pose proof (H d t ltac:(lia) Ht) as E. rewrite <- Ek in E. rewrite E.
  destruct (has _ PG_PRESENT) eqn:Ep; [|done]. cbn [negb]. destruct (leaf _ _) eqn:El; [done|].
  assert (table_at m (S d) r va = Some (rd m (slot t (S k) va) &u PG_ADDR_MASK)) as Ht'.
  { apply table_at_S. exists t. by rewrite <- Ek. }
  pose proof (table_at_le _ _ _ _ _ Ht'). apply (IH (S d)); [done| |lia|lia]. intros d' t' ?. apply H. lia.
Qed.
Lemma leaf_ext m m' r va :
  (∀ d t, table_at m d r va = Some t → rd m' (slot t (4 - d) va) = rd m (slot t (4 - d) va)) →
  leaf_at m' r va = leaf_at m r va.
Proof. intros H. apply (leaf_from_ext m m' r va 0); [done|]. intros d t _. apply H. Qed.

Lemma leaf_at_from m d r va t : table_at m d r va = Some t → leaf_at m r va = leaf_from (4 - d) m t va.
Proof.
  revert t. induction d as [|d IH]; intros t Ht; [by injection Ht as <-|].
  pose proof (table_at_le _ _ _ _ _ Ht). apply table_at_S in Ht as (s & Hs & Hp & Hl & ->).
  rewrite (IH s Hs). replace (4 - d)%nat with (S (4 - S d)) by lia. cbn [leaf_from].
  replace (S (4 - S d)) with (4 - d)%nat by lia. by rewrite Hp, Hl.
Qed.

Lemma walk_perms m d r va t :
  table_at m d r va = Some t →
  walk m r va = let '(rw, us, nx) := perms m d r va in walk_from (4 - d) m t va rw us nx.
Proof.
  revert t. induction d as [|d IH]; intros t Ht; [by injection Ht as <-|].
  pose proof (table_at_le _ _ _ _ _ Ht). apply table_at_S in Ht as (s & Hs & Hp & Hl & ->).
  rewrite (IH s Hs). cbn [perms]. destruct (perms m d r va) as [[rw us] nx]. rewrite Hs.
  replace (4 - d)%nat with (S (4 - S d)) by lia. cbn [walk_from].
  replace (S (4 - S d)) with (4 - d)%nat by lia. by rewrite Hp, Hl.
Qed.
Lemma perms_ext m m' r va n :
  (∀ d t, (d < n)%nat → table_at m d r va = Some t → rd m' (slot t (4 - d) va) = rd m (slot t (4 - d) va)) →
  ∀ d, (d ≤ n)%nat → table_at m' d r va = table_at m d r va ∧ perms m' d r va = perms m d r va.
Proof.
  intros H d. induction d as [|d IH]; intros Hd; [done|]. cbn [table_at perms].
  destruct IH as [-> ->]; [lia|]. destruct (table_at m d r va) as [t|] eqn:E; [|done].
  cbn [mbind option_bind]. by rewrite (H d t) by (done || lia).
Qed.
Lemma perms_pfx m d r va va' : (d ≤ 4)%nat → pfx d va = pfx d va' → perms m d r va = perms m d r va'.
Proof.
  induction d as [|d IH]; intros Hd E; [done|]. apply pfx_idx in E as [E1 E2]; [|lia]. cbn [perms].
  rewrite (IH ltac:(lia) E1), (table_at_pfx m d r va va') by (done || lia). unfold slot. by rewrite E2.
Qed.

Lemma agree_table m m' R r d va : agree_on m m' R → r ∈ R → table_at m' d r va = table_at m d r va.
Proof. intros H Hr. apply table_ext. intros. by apply (H r). Qed.
Lemma agree_walk m m' R r va : agree_on m m' R → r ∈ R → walk m' r va = walk m r va.
Proof. intros H Hr. apply walk_ext. intros. by apply (H r). Qed.

Lemma agree_forest m m' R : agree_on m m' R → forest m R → forest m' R.
Proof.
  intros H [F1 F2 F3]. split; [done| |].
  - intros r r' d d' va va' t Hr Hr'. rewrite (agree_table m m' R), (agree_table m m' R) by done. by apply F2.
  - intros r d va t Hr Ht. rewrite (agree_table m m' R) in Ht by done. rewrite (H r) by done. by apply (F3 r).
Qed.
Lemma agree_fresh m m' R n : agree_on m m' R → fresh m R n → fresh m' R n.
Proof.
  intros H [Hn F]. split; [done|]. intros r d va Hr. rewrite (agree_table m m' R) by done. by apply F.
Qed.

(** Stores to a page outside the trees are invisible. *)
Lemma fresh_agree m m' R n :
  forest m R → fresh m R n →
  (∀ a, (∀ i, 0 ≤ i < 512 → a ≠ n + 8 * i) → rd m' a = rd m a) → agree_on m m' R.
Proof.
  intros F [Hn Hf] H r d va t Hr Ht. apply H. intros i Hi E.
  pose proof (f_aligned _ _ _ _ _ _ F Hr Ht) as Ha.
  assert (t = n) as ->; [|by destruct (Hf r d va Hr)].
  unfold slot in E. pose proof (idx_range (4 - d) va).
  pose proof (Z.div_mod t 4096). pose proof (Z.div_mod n 4096). lia.
Qed.

(** * One store to one entry *)

Section store.
Context (m : words) (R : list Z) (r0 : Z) (d0 : nat) (va0 t0 v : Z).
Hypothesis (F : forest m R) (Hr0 : r0 ∈ R) (Ht0 : table_at m d0 r0 va0 = Some t0) (Hv : is_u64 v).

Let m' := wr m (slot t0 (4 - d0) va0) v.

Lemma store_level : (d0 ≤ 3)%nat.
Proof. by eapply table_at_le. Qed.

(** The entry is read on the paths with its prefix only. *)
Lemma store_entry r d va t :
  r ∈ R → table_at m d r va = Some t → ¬ (d = d0 ∧ pfx (S d0) va = pfx (S d0) va0) →
  rd m' (slot t (4 - d) va) = rd m (slot t (4 - d) va).
Proof.
  intros Hr Ht Hn. apply rd_wr_ne. intros E. pose proof store_level.
  apply slot_inj in E as [-> Ei]; [|exact (f_aligned _ _ _ _ _ _ F Hr Ht)|exact (f_aligned _ _ _ _ _ _ F Hr0 Ht0)].
  destruct (f_inj _ _ F r r0 d d0 va va0 t0 Hr Hr0 Ht Ht0) as [-> Ep].
  apply Hn. split; [done|]. by apply pfx_idx; [lia|].
Qed.

Lemma store_table r d va :
  r ∈ R → (d ≤ d0)%nat ∨ pfx (S d0) va ≠ pfx (S d0) va0 → table_at m' d r va = table_at m d r va.
Proof.
  intros Hr. induction d as [|d IH]; intros Hd; [done|]. cbn [table_at].
  rewrite IH by (destruct Hd; [left; lia|by right]).
  destruct (table_at m d r va) as [t|] eqn:E; [|done]. cbn [mbind option_bind].
  rewrite (store_entry r d va t Hr E); [done|]. intros [-> ?]. destruct Hd; [lia|done].
Qed.

Lemma store_walk r va : r ∈ R → pfx (S d0) va ≠ pfx (S d0) va0 → walk m' r va = walk m r va.
Proof.
  intros Hr Hne. apply walk_ext. intros d t Ht. apply (store_entry r d va t Hr Ht).
  by intros [_ ?].
Qed.

Lemma store_walk_other r va : r ∈ R → table_at m d0 r va ≠ Some t0 → walk m' r va = walk m r va.
Proof.
  intros Hr Hne. apply walk_ext. intros d1 t1 Ht1. apply rd_wr_ne. intros E.
  apply slot_inj in E as [-> Ei]; [|exact (f_aligned _ _ _ _ _ _ F Hr Ht1)|exact (f_aligned _ _ _ _ _ _ F Hr0 Ht0)].
  destruct (f_inj _ _ F r r0 d1 d0 va va0 t0 Hr Hr0 Ht1 Ht0) as [-> _]. done.
Qed.

(** Above the entry nothing changes. *)
Lemma store_perms r d va : r ∈ R → (d ≤ d0)%nat → perms m' d r va = perms m d r va.
Proof.
  intros Hr Hd. apply (perms_ext m m' r va d0); [|done]. intros d1 t1 H1 Ht1.
  apply (store_entry r d1 va t1 Hr Ht1). lia.
Qed.

Lemma store_hit va : pfx (S d0) va = pfx (S d0) va0 → rd m' (slot t0 (4 - d0) va) = v.
Proof.
  intros He. unfold m', slot. pose proof store_level. apply pfx_idx in He as [_ ->]; [|lia]. rewrite word_wr_eq.
  by apply u64_small.
Qed.

(** Tables reached through other entries are the tables of before. *)
Lemma store_new r d va t :
  r ∈ R → table_at m' d r va = Some t →
  table_at m d r va = Some t ∨
  ((d0 < d)%nat ∧ pfx (S d0) va = pfx (S d0) va0 ∧ table_at m d0 r va = Some t0 ∧
   has v PG_PRESENT = true ∧ leaf (4 - d0) v = false ∧ table_at m' (S d0) r va = Some (v &u PG_ADDR_MASK)).
Proof.
  intros Hr Ht. destruct (decide ((d ≤ d0)%nat ∨ pfx (S d0) va ≠ pfx (S d0) va0)) as [Hd|Hd].
  { left. by rewrite <- store_table. }
  apply Decidable.not_or in Hd as [Hd He]. apply dec_stable in He. assert (d0 < d)%nat as Hlt by lia. clear Hd.
  assert (∃ s, table_at m d0 r va = Some s) as [s Hs].
  { rewrite <- store_table by auto. apply (table_at_some m' d0 d r va t); [lia|done]. }
  destruct (decide (s = t0)) as [->|Hne].
  - right. assert (∃ s, table_at m' (S d0) r va = Some s) as [s Hs'].
    { apply (table_at_some m' (S d0) d r va t); [lia|done]. }
    pose proof Hs' as Hs''. apply table_at_S in Hs'' as (s' & H1 & H2 & H3 & ->).
    rewrite store_table in H1 by auto. rewrite Hs in H1. injection H1 as <-.
    rewrite store_hit in * by done. done.
  - left. rewrite <- Ht. symmetry. apply table_ext. intros d1 t1 Ht1. apply rd_wr_ne. intros E.
    apply slot_inj in E as [-> Ei]; [|exact (f_aligned _ _ _ _ _ _ F Hr Ht1)|exact (f_aligned _ _ _ _ _ _ F Hr0 Ht0)].
    destruct (f_inj _ _ F r r0 d1 d0 va va0 t0 Hr Hr0 Ht1 Ht0) as [-> _].
    rewrite Hs in Ht1. by injection Ht1.
Qed.

(** An entry read in the new memory is the stored one or an old one. *)
Lemma store_rd r d va t :
  r ∈ R → table_at m d r va = Some t →
  (d = d0 ∧ pfx (S d0) va = pfx (S d0) va0 ∧ rd m' (slot t (4 - d) va) = v) ∨
  rd m' (slot t (4 - d) va) = rd m (slot t (4 - d) va).
Proof.
  intros Hr Ht. unfold m'. rewrite rd_wr. destruct (Z.eqb_spec (slot t (4 - d) va) (slot t0 (4 - d0) va0)) as [E|];
    [|by right]. left. pose proof store_level.
  apply slot_inj in E as [-> Ei]; [|exact (f_aligned _ _ _ _ _ _ F Hr Ht)|exact (f_aligned _ _ _ _ _ _ F Hr0 Ht0)].
  destruct (f_inj _ _ F r r0 d d0 va va0 t0 Hr Hr0 Ht Ht0) as [-> Ep].
  split_and!; [done| |by apply u64_small]. by apply pfx_idx; [lia|].
Qed.

(** A store to an entry that pointed to no table keeps every table. *)
Lemma store_mono r d va t :
  (has (rd m (slot t0 (4 - d0) va0)) PG_PRESENT = true → leaf (4 - d0) (rd m (slot t0 (4 - d0) va0)) = true) →
  r ∈ R → table_at m d r va = Some t →
  table_at m' d r va = Some t ∧ perms m' d r va = perms m d r va.
Proof.
  intros Hold Hr Ht. rewrite <- Ht. apply (perms_ext m m' r va d); [|done]. intros d1 t1 Hlt Ht1.
  destruct (decide (slot t1 (4 - d1) va = slot t0 (4 - d0) va0)) as [E|]; [|by apply rd_wr_ne].
  exfalso. destruct (table_at_some m (S d1) d r va t ltac:(lia) Ht) as [s Hs].
  apply table_at_S in Hs as (u & Hu & Hp & Hl & _). rewrite Ht1 in Hu. injection Hu as <-.
  pose proof E as E'. apply slot_inj in E' as [-> _];
    [|exact (f_aligned _ _ _ _ _ _ F Hr Ht1)|exact (f_aligned _ _ _ _ _ _ F Hr0 Ht0)].
  destruct (f_inj _ _ F r r0 d1 d0 va va0 t0 Hr Hr0 Ht1 Ht0) as [-> _].
  rewrite E in *. by rewrite (Hold Hp) in Hl.
Qed.

(** A store that leaves no table behind the entry. *)
Section leaf_store.
Hypothesis (Hl : has v PG_PRESENT = true → leaf (4 - d0) v = true).

Lemma leaf_table r d va t : r ∈ R → table_at m' d r va = Some t → table_at m d r va = Some t.
Proof.
  intros Hr Ht. destruct (store_new r d va t Hr Ht) as [|(_ & _ & _ & Hp & Hn & _)]; [done|].
  by rewrite (Hl Hp) in Hn.
Qed.

Lemma leaf_forest : forest m' R.
Proof.
  split; [apply (f_root _ _ F)| |].
  - intros r r' d d' va va' t Hr Hr' Ht Ht'. apply leaf_table in Ht, Ht'; [|done..].
    by eapply (f_inj _ _ F r r').
  - intros r d va t Hr Ht Hp Hn. apply leaf_table in Ht; [|done].
    destruct (store_rd r d va t Hr Ht) as [(-> & _ & E)|E]; rewrite E in *.
    + by rewrite (Hl Hp) in Hn.
    + by apply (f_ptr _ _ F r).
Qed.

Lemma leaf_fresh n : fresh m R n → fresh m' R n.
Proof. intros [Hn H]. split; [done|]. intros r d va Hr Ht%leaf_table; [|done]. by apply (H r d va). Qed.
End leaf_store.

(** A store that changes only flags of a pointer. *)
Section flag_store.
Let e := rd m (slot t0 (4 - d0) va0).
Hypothesis (Hp : has e PG_PRESENT = true) (Hl : leaf (4 - d0) e = false).
Hypothesis (Hp' : has v PG_PRESENT = true) (Hl' : leaf (4 - d0) v = false).
Hypothesis (Ha : v &u PG_ADDR_MASK = e &u PG_ADDR_MASK) (Hv' : v < 2 ^ 52).

Lemma flag_table r d va : r ∈ R → table_at m' d r va = table_at m d r va.
Proof.
  intros Hr. induction d as [|d IH]; [done|]. cbn [table_at]. rewrite IH.
  destruct (table_at m d r va) as [t|] eqn:Ht; [|done]. cbn [mbind option_bind].
  destruct (decide (slot t (4 - d) va = slot t0 (4 - d0) va0)) as [E|Hne]; [|unfold m'; by rewrite rd_wr_ne].
  pose proof E as E'. apply slot_inj in E' as [-> Ei];
    [|exact (f_aligned _ _ _ _ _ _ F Hr Ht)|exact (f_aligned _ _ _ _ _ _ F Hr0 Ht0)].
  destruct (f_inj _ _ F r r0 d d0 va va0 t0 Hr Hr0 Ht Ht0) as [-> Ep].
  unfold m'. rewrite E, word_wr_eq, u64_small by done. fold e. by rewrite Hp, Hl, Hp', Hl', Ha.
Qed.

Lemma flag_forest : forest m' R.
Proof.
  split; [apply (f_root _ _ F)| |].
  - intros r r' d d' va va' t Hr Hr'. rewrite !flag_table by done. by apply (f_inj _ _ F).
  - intros r d va t Hr Ht H1 H2. rewrite flag_table in Ht by done.
    destruct (store_rd r d va t Hr Ht) as [(-> & _ & E)|E]; rewrite E in *; [done|]. by apply (f_ptr _ _ F r).
Qed.

Lemma flag_leaf r va : r ∈ R → leaf_at m' r va = leaf_at m r va.
Proof.
  intros Hr. unfold leaf_at.
  assert (∀ k d t, k = (4 - d)%nat → (d ≤ 4)%nat → table_at m d r va = Some t →
    leaf_from k m' t va = leaf_from k m t va) as G; [|apply (G 4%nat 0%nat r); [done|lia|done]].
  induction k as [|k IH]; intros d t Ek Hd Ht; [done|]. cbn [leaf_from]. rewrite Ek.
  destruct (decide (slot t (4 - d) va = slot t0 (4 - d0) va0)) as [E|Hne].
  - pose proof E as E'. apply slot_inj in E' as [-> Ei];
      [|exact (f_aligned _ _ _ _ _ _ F Hr Ht)|exact (f_aligned _ _ _ _ _ _ F Hr0 Ht0)].
    destruct (f_inj _ _ F r r0 d d0 va va0 t0 Hr Hr0 Ht Ht0) as [-> Ep].
    assert (rd m' (slot t0 (4 - d0) va) = v) as Hrd by (unfold m'; rewrite E, word_wr_eq; by apply u64_small).
    rewrite Hrd, E. fold e. rewrite Hp, Hl, Hp', Hl', Ha. cbn [negb].
    apply (IH (S d0)); [lia|lia|]. apply table_at_S. exists t0. rewrite E. by fold e.
  - assert (rd m' (slot t (4 - d) va) = rd m (slot t (4 - d) va)) as -> by (by apply rd_wr_ne).
    destruct (has (rd m _) PG_PRESENT) eqn:Hp1; [|done]. cbn [negb]. destruct (leaf _ (rd m _)) eqn:Hl1; [done|].
    apply (IH (S d)); [lia|lia|]. apply table_at_S. by exists t.
Qed.

Lemma flag_fresh n : fresh m R n → fresh m' R n.
Proof. intros [Hn H]. split; [done|]. intros r d va Hr. rewrite flag_table by done. by apply H. Qed.
End flag_store.

(** A store that links a page not yet in the trees, whose entries are all leaves
    or not present. *)
Section link_store.
Context (n : Z).
Hypothesis (Hf : fresh m R n) (Hp : has v PG_PRESENT = true) (Hl : leaf (4 - d0) v = false).
Hypothesis (Ha : v &u PG_ADDR_MASK = n) (Hv' : v < 2 ^ 52).
Hypothesis (Hdead : ∀ va, let e := rd m (slot n (4 - S d0) va) in
  has e PG_PRESENT = true → leaf (4 - S d0) e = true).

Lemma link_rd_new va : rd m' (slot n (4 - S d0) va) = rd m (slot n (4 - S d0) va).
Proof.
  apply rd_wr_ne. intros E. apply slot_inj in E as [-> _]; [|apply Hf|exact (f_aligned _ _ _ _ _ _ F Hr0 Ht0)].
  by destruct (proj2 Hf r0 d0 va0).
Qed.

Lemma link_table r d va t :
  r ∈ R → table_at m' d r va = Some t →
  table_at m d r va = Some t ∨ (t = n ∧ d = S d0 ∧ pfx (S d0) va = pfx (S d0) va0).
Proof.
  intros Hr Ht. destruct (store_new r d va t Hr Ht) as [|(Hd & He & _ & _ & _ & Hn)]; [by left|right].
  rewrite Ha in Hn. destruct (decide (d = S d0)) as [->|]; [by split_and!; [congruence|..]|].
  destruct (table_at_some m' (S (S d0)) d r va t ltac:(lia) Ht) as [s Hs].
  apply table_at_S in Hs as (u & Hu & H1 & H2 & _). assert (u = n) as -> by congruence.
  rewrite link_rd_new in H1, H2. by rewrite (Hdead va H1) in H2.
Qed.

Lemma link_forest : forest m' R.
Proof.
  split; [apply (f_root _ _ F)| |].
  - intros r r' d d' va va' t Hr Hr' Ht Ht'. apply link_table in Ht, Ht'; [|done..].
    destruct Ht as [Ht|(-> & -> & E)], Ht' as [Ht'|(E1 & -> & E')].
    + by eapply (f_inj _ _ F r r').
    + subst t. by destruct (proj2 Hf r d va).
    + by destruct (proj2 Hf r' d' va').
    + split; [done|congruence].
  - intros r d va t Hr Ht H1 H2. apply link_table in Ht as [Ht|(-> & -> & E)]; [| |done].
    + destruct (store_rd r d va t Hr Ht) as [(-> & _ & E)|E]; rewrite E in *; [done|]. by apply (f_ptr _ _ F r).
    + rewrite link_rd_new in *. by rewrite (Hdead va H1) in H2.
Qed.

Lemma link_fresh n' : n' ≠ n → fresh m R n' → fresh m' R n'.
Proof.
  intros Hne [Hn H]. split; [done|]. intros r d va Hr Ht%link_table; [|done].
  destruct Ht as [Ht|(-> & _)]; [by apply (H r d va)|done].
Qed.

(** The leaf of an address below the entry is one of the new table. *)
Lemma link_leaf r va :
  r ∈ R → leaf_at m' r va =
  if decide (table_at m d0 r va = Some t0 ∧ pfx (S d0) va = pfx (S d0) va0) then leaf_from (4 - S d0) m n va
  else leaf_at m r va.
Proof.
  intros Hr. destruct (decide _) as [[Ht He]|Hn].
  - assert (table_at m' (S d0) r va = Some n) as Hn.
    { apply table_at_S. exists t0. rewrite store_table by auto. rewrite store_hit by done. done. }
    rewrite (leaf_at_from m' (S d0) r va n Hn). pose proof (table_at_le _ _ _ _ _ Hn) as Hd.
    pose proof (link_rd_new va) as E. pose proof (Hdead va) as D. cbn zeta in D.
    replace (4 - S d0)%nat with (S (3 - S d0)) in * by lia. cbn [leaf_from]. rewrite E.
    destruct (has (rd m (slot n _ _)) PG_PRESENT); cbn [negb]; [|done]. by rewrite D.
  - apply leaf_ext. intros d t Ht. destruct (decide (slot t (4 - d) va = slot t0 (4 - d0) va0)) as [E|]; [|by apply rd_wr_ne].
    exfalso. apply Hn. pose proof store_level.
    apply slot_inj in E as [-> Ei]; [|exact (f_aligned _ _ _ _ _ _ F Hr Ht)|exact (f_aligned _ _ _ _ _ _ F Hr0 Ht0)].
    destruct (f_inj _ _ F r r0 d d0 va va0 t0 Hr Hr0 Ht Ht0) as [-> Ep].
    split; [done|]. by apply pfx_idx; [lia|].
Qed.

Lemma link_at : table_at m' (S d0) r0 va0 = Some n.
Proof.
  apply table_at_S. exists t0. rewrite store_table by auto. unfold m'. rewrite word_wr_eq, u64_small by done. done.
Qed.
End link_store.
End store.

(** * Stores to a table of 4 KiB pages *)

Section bottom.
Context (m m' : words) (R : list Z) (r0 va0 t0 : Z).
Hypothesis (F : forest m R) (Hr0 : r0 ∈ R) (Ht0 : table_at m 3 r0 va0 = Some t0).
Hypothesis (Hout : ∀ a, (∀ i, 0 ≤ i < 512 → a ≠ t0 + 8 * i) → rd m' a = rd m a).

Lemma bottom_entry r d va t :
  r ∈ R → table_at m d r va = Some t → d ≠ 3%nat ∨ pfx 3 va ≠ pfx 3 va0 →
  rd m' (slot t (4 - d) va) = rd m (slot t (4 - d) va).
Proof.
  intros Hr Ht Hd. apply Hout. intros i Hi E.
  pose proof (f_aligned _ _ _ _ _ _ F Hr Ht). pose proof (f_aligned _ _ _ _ _ _ F Hr0 Ht0).
  assert (t = t0) as ->.
  { unfold slot in E. pose proof (idx_range (4 - d) va). pose proof (Z.div_mod t 4096).
    pose proof (Z.div_mod t0 4096). lia. }
  destruct (f_inj _ _ F r r0 d 3 va va0 t0 Hr Hr0 Ht Ht0) as [-> ?]. by destruct Hd.
Qed.

Lemma bottom_table r d va : r ∈ R → table_at m' d r va = table_at m d r va ∧ perms m' (d `min` 3) r va = perms m (d `min` 3) r va.
Proof.
  intros Hr. pose proof (perms_ext m m' r va 3) as G.
  assert (∀ d0, (d0 ≤ 3)%nat → table_at m' d0 r va = table_at m d0 r va ∧ perms m' d0 r va = perms m d0 r va) as H.
  { apply G. intros d1 t1 H1 Ht1. apply (bottom_entry r d1 va t1 Hr Ht1). lia. }
  split; [|apply H; lia]. destruct (decide (d ≤ 3)%nat) as [|Hd]; [by apply H|].
  destruct (table_at m' d r va) as [t|] eqn:E1; [by apply table_at_le in E1|].
  destruct (table_at m d r va) as [t|] eqn:E2; [by apply table_at_le in E2|]. done.
Qed.

Lemma bottom_walk r va : r ∈ R → pfx 3 va ≠ pfx 3 va0 → walk m' r va = walk m r va.
Proof. intros Hr Hne. apply walk_ext. intros d t Ht. apply (bottom_entry r d va t Hr Ht). by right. Qed.

Lemma bottom_forest : forest m' R.
Proof.
  split; [apply (f_root _ _ F)| |].
  - intros r r' d d' va va' t Hr Hr'. rewrite (proj1 (bottom_table r d va Hr)), (proj1 (bottom_table r' d' va' Hr')).
    by apply (f_inj _ _ F).
  - intros r d va t Hr Ht Hp Hl. rewrite (proj1 (bottom_table r d va Hr)) in Ht.
    pose proof (table_at_le _ _ _ _ _ Ht). destruct (decide (d = 3%nat)) as [->|]; [done|].
    rewrite (bottom_entry r d va t) in * by auto. by apply (f_ptr _ _ F r).
Qed.

Lemma bottom_fresh n : fresh m R n → fresh m' R n.
Proof. intros [Hn H]. split; [done|]. intros r d va Hr. rewrite (proj1 (bottom_table r d va Hr)). by apply H. Qed.
End bottom.

(** * Replacing a table by a copy *)

Section copy.
Context (m : words) (r0 : Z) (d0 : nat) (va0 t0 told n v : Z).
Hypothesis (F : forest m [r0]) (Ht0 : table_at m d0 r0 va0 = Some t0).
Hypothesis (Htold : table_at m (S d0) r0 va0 = Some told) (Hf : fresh m [r0] n).
Hypothesis (Hv : is_u64 v) (Hp : has v PG_PRESENT = true) (Hl : leaf (4 - d0) v = false).
Hypothesis (Ha : v &u PG_ADDR_MASK = n) (Hv' : v < 2 ^ 52).
Hypothesis (Hcopy : ∀ i, 0 ≤ i < 512 → rd m (n + 8 * i) = rd m (told + 8 * i)).

Let m' := wr m (slot t0 (4 - d0) va0) v.
Let Hr0 : r0 ∈ [r0].
Proof. by apply list_elem_of_singleton. Qed.

Lemma copy_rd_new va : rd m' (slot n (4 - S d0) va) = rd m (slot told (4 - S d0) va).
Proof.
  unfold slot at 2. rewrite <- Hcopy by apply idx_range. apply rd_wr_ne. intros E.
  apply slot_inj in E as [-> _]; [|apply Hf|exact (f_aligned _ _ _ _ _ _ F Hr0 Ht0)].
  by destruct (proj2 Hf r0 d0 va0).
Qed.

Lemma copy_table d va :
  table_at m' d r0 va =
  if decide (d = S d0 ∧ pfx (S d0) va = pfx (S d0) va0) then Some n else table_at m d r0 va.
Proof.
  induction d as [|d IH]; [by rewrite decide_False by lia|]. cbn [table_at]. rewrite IH. clear IH.
  pose proof (store_level _ _ _ _ _ Ht0) as Hd0.
  destruct (decide (d = S d0 ∧ pfx (S d0) va = pfx (S d0) va0)) as [[-> He]|Hn].
  - rewrite decide_False by lia. cbn [mbind option_bind].
    rewrite (table_at_pfx m (S d0) r0 va va0), Htold by (done || lia). cbn [mbind option_bind].
    by rewrite copy_rd_new.
  - destruct (decide (S d = S d0 ∧ pfx (S d0) va = pfx (S d0) va0)) as [[[= ->] He]|Hn'].
    + rewrite (table_at_pfx m d0 r0 va va0), Ht0 by (lia || by apply (pfx_le d0 (S d0)); [lia|]).
      cbn [mbind option_bind]. unfold m'. by rewrite (store_hit m r0 d0 va0 t0 v Ht0 Hv va He), Hp, Hl, Ha.
    + destruct (table_at m d r0 va) as [t|] eqn:E; [|done]. cbn [mbind option_bind].
      unfold m'. rewrite (store_entry m [r0] r0 d0 va0 t0 v F Hr0 Ht0 r0 d va t Hr0 E); [done|]. intros [-> He]. by apply Hn'.
Qed.

Lemma copy_forest : forest m' [r0].
Proof.
  split; [apply (f_root _ _ F)| |].
  - intros r r' d d' va va' t ->%list_elem_of_singleton ->%list_elem_of_singleton.
    rewrite !copy_table. destruct (decide (d = S d0 ∧ _)) as [[-> A]|A], (decide (d' = S d0 ∧ _)) as [[-> B]|B];
      intros E1 E2.
    + split; [done|congruence].
    + injection E1 as <-. by destruct (proj2 Hf r0 d' va').
    + injection E2 as <-. by destruct (proj2 Hf r0 d va).
    + by eapply (f_inj _ _ F).
  - intros r d va t ->%list_elem_of_singleton. rewrite copy_table. case_decide as Hc; intros Ht H1 H2.
    + destruct Hc as [-> He]. injection Ht as <-. rewrite copy_rd_new in *.
      apply (f_ptr _ _ F r0 (S d0) va told); try done.
      rewrite (table_at_pfx m (S d0) r0 va va0); [done| |done]. pose proof (store_level _ _ _ _ _ Ht0). lia.
    + destruct (store_rd m [r0] r0 d0 va0 t0 v F Hr0 Ht0 Hv r0 d va t Hr0 Ht) as [(_ & _ & E)|E];
        fold m' in E; rewrite E in *; [done|]. by apply (f_ptr _ _ F r0).
Qed.

Lemma copy_fresh n' : n' ≠ n → fresh m [r0] n' → fresh m' [r0] n'.
Proof.
  intros Hne [Hn H]. split; [done|]. intros r d va Hr. pose proof Hr as Hr'. apply list_elem_of_singleton in Hr' as ->.
  rewrite copy_table. case_decide; [congruence|by apply H].
Qed.

Lemma copy_leaf va : leaf_at m' r0 va = leaf_at m r0 va.
Proof.
  pose proof (store_level _ _ _ _ _ Ht0) as Hd0.
  destruct (decide (pfx (S d0) va = pfx (S d0) va0)) as [He|Hne].
  2: { apply leaf_ext. intros d t Ht. apply (store_entry m [r0] r0 d0 va0 t0 v F Hr0 Ht0 r0 d va t Hr0 Ht). by intros [_ ?]. }
  pose proof (table_at_le _ _ _ _ _ Htold) as Hd1.
  assert (table_at m (S d0) r0 va = Some told) as E by (by rewrite (table_at_pfx m (S d0) r0 va va0) by (done || lia)).
  rewrite (leaf_at_from m' (S d0) r0 va n), (leaf_at_from m (S d0) r0 va told); [|done|by rewrite copy_table, decide_True].
  pose proof (copy_rd_new va) as Hrd. replace (4 - S d0)%nat with (S (3 - S d0)) in * by lia. cbn [leaf_from].
  rewrite Hrd. destruct (has (rd m _) PG_PRESENT) eqn:Hp1; [|done]. cbn [negb]. destruct (leaf _ (rd m _)) eqn:Hl1; [done|].
  assert (table_at m (S (S d0)) r0 va = Some (rd m (slot told (S (3 - S d0)) va) &u PG_ADDR_MASK)) as E2.
  { apply table_at_S. exists told. by replace (4 - S d0)%nat with (S (3 - S d0)) by lia. }
  replace (3 - S d0)%nat with (4 - S (S d0))%nat by lia. apply (leaf_from_ext m m' r0); [done|].
  intros d' t' Hle Ht'. apply (store_entry m [r0] r0 d0 va0 t0 v F Hr0 Ht0 r0 d' va t' Hr0 Ht'). lia.
Qed.
End copy.
