(* ===== verification/Paging.v ===== *)
(** The kernel's 2 MiB mapper ([mem/paging.c]): the pool of 128 table pages, mapping
    and unmapping of one 2 MiB page in a page-table tree (with the split of a 1 GiB
    leaf and the refresh of an existing table of 4 KiB pages), and the start-up code
    for the NX and PAT features.

    The state holds the words of memory, the number of pool pages handed out and the
    addresses given to [invlpg], the latest first.  The trace lines that the code
    prints are not modelled. *)
From S2P Require Import Prelude PageTable.
Import PageTable.

Module Paging.

Record paging := MkPaging { tabs : words; used : Z; flushed : list Z }.
Definition set_tabs (s : paging) (m : words) : paging := MkPaging m (used s) (flushed s).
Definition invlpg (s : paging) (va : Z) : paging := MkPaging (tabs s) (used s) (va :: flushed s).
Definition get (s : paging) (a : Z) : Z := rd (tabs s) a.
Definition put (s : paging) (a v : Z) : paging := set_tabs s (wr (tabs s) a v).

Section mapper.
(** Where the linker puts [pool]. *)
Context (pool : Z).

Definition next_free_table (s : paging) : paging * Z :=
  if 128 <=? used s then (s, 0)
  else
    let t := pool + 4096 * used s in
    (MkPaging (fill PT_ENTRIES 0 (tabs s) t (λ _ _, 0)) (used s + 1) (flushed s), t).

(** [if (!( *e & PG_PRESENT)) { ... }] for the level-4 and the level-3 entry. *)
Definition ensure_table (s : paging) (e err : Z) : paging * Z :=
  if has (get s e) PG_PRESENT then (s, 0)
  else
    let '(s, n) := next_free_table s in
    if n =? 0 then (s, err) else (put s e (Z.lor (Z.lor n PG_PRESENT) PG_RW), 0).

Definition split_keep : Z :=
  Z.lor (Z.lor (Z.lor (Z.lor (Z.lor (Z.lor PG_PRESENT PG_RW) PG_US) PG_PWT) PG_PCD) PG_GLOBAL) PG_NX.

(** Turn the 1 GiB leaf at [e] into a table of 2 MiB leaves. *)
Definition split_1g (s : paging) (e : Z) : paging * Z :=
  if negb (has (get s e) PG_PS_2M) then (s, 0)
  else
    let lf := get s e in
    let '(s, new_l2) := next_free_table s in
    if new_l2 =? 0 then (s, -2)
    else
      let base_pa := lf &u ~u 0x3FFFFFFF in
      let keep := lf &u split_keep in
      let s := set_tabs s (fill PT_ENTRIES 0 (tabs s) new_l2 (λ i _,
        let pa_i := base_pa +u i *u PAGE_SIZE_2M in
        Z.lor (Z.lor (pa_i &u ~u (PAGE_SIZE_2M - 1)) keep) PG_PS_2M)) in
      (put s e (Z.lor new_l2 (keep &u ~u PG_PS_2M)), 0).

(** One entry of an existing level-1 table. *)
Definition refresh_pte (add e : Z) : Z :=
  if negb (has e PG_PRESENT) then e
  else if has e PG_SOFT_COW then Z.lor e (add &u ~u PG_RW) &u ~u PG_NX
  else Z.lor e add &u ~u PG_NX.
Definition refresh_flags (flags : Z) : Z :=
  flags &u Z.lor (Z.lor (Z.lor (Z.lor PG_US PG_PWT) PG_PCD) PG_GLOBAL) PG_RW.

Definition leaf_2m (pa flags : Z) : Z :=
  Z.lor (Z.lor (Z.lor (Z.lor (pa &u ~u (PAGE_SIZE_2M - 1)) PG_PRESENT) PG_RW) PG_PS_2M)
    (flags &u Z.lor (Z.lor (Z.lor (Z.lor PG_US PG_PWT) PG_PCD) PG_GLOBAL) PG_PAT) &u ~u PG_NX.

(** The entries of levels 4 and 3, and the level-3 table. *)
Definition reach_l2 (s : paging) (l4 va : Z) : paging * Z * Z :=
  let '(s, rc) := ensure_table s (slot l4 4 va) (-1) in
  if nz rc then (s, rc, 0)
  else
    let l3 := get s (slot l4 4 va) &u ~u 0xFFF in
    let '(s, rc) := ensure_table s (slot l3 3 va) (-2) in
    if nz rc then (s, rc, l3)
    else let '(s, rc) := split_1g s (slot l3 3 va) in (s, rc, l3).

Definition map_page_2m_on_l4 (s : paging) (l4 va pa flags : Z) : paging * Z :=
  if l4 =? 0 then (s, -1)
  else
    let '(s, rc, l3) := reach_l2 s l4 va in
    if nz rc then (s, rc)
    else
      let l2 := get s (slot l3 3 va) &u ~u 0xFFF in
      let old_l2e := get s (slot l2 2 va) in
      if has old_l2e PG_PRESENT && negb (has old_l2e PG_PS_2M) then
        let l1 := old_l2e &u ~u 0xFFF in
        let s := set_tabs s (fill PT_ENTRIES 0 (tabs s) l1 (λ _ e, refresh_pte (refresh_flags flags) e)) in
        let s := put s (slot l2 2 va) (Z.lor (get s (slot l2 2 va)) (flags &u Z.lor PG_US PG_RW)) in
        (invlpg s va, 0)
      else (invlpg (put s (slot l2 2 va) (leaf_2m pa flags)) va, 0).

Definition unmap_page_2m_on_l4 (s : paging) (l4 va : Z) : paging * Z :=
  if l4 =? 0 then (s, -1)
  else if negb (has (get s (slot l4 4 va)) PG_PRESENT) then (s, -1)
  else
    let l3 := get s (slot l4 4 va) &u ~u 0xFFF in
    if negb (has (get s (slot l3 3 va)) PG_PRESENT) then (s, -1)
    else if has (get s (slot l3 3 va)) PG_PS_2M then (s, -1)
    else
      let l2 := get s (slot l3 3 va) &u ~u 0xFFF in
      (invlpg (put s (slot l2 2 va) 0) va, 0).

(** [cr3] is the live root and [kpml4] is [mm_kernel()->pml4]. *)
Definition map_page_2m (s : paging) (cr3 kpml4 va pa flags : Z) : paging * Z :=
  let live := cr3 &u ~u 0xFFF in
  let '(s, rc) := map_page_2m_on_l4 s live va pa flags in
  if nz rc then (s, rc)
  else if nz kpml4 && negb (kpml4 =? live) then map_page_2m_on_l4 s kpml4 va pa flags
  else (s, rc).

Definition unmap_page_2m (s : paging) (cr3 kpml4 va : Z) : paging * Z :=
  let live := cr3 &u ~u 0xFFF in
  let '(s, rc) := unmap_page_2m_on_l4 s live va in
  if nz kpml4 && negb (kpml4 =? live) then ((unmap_page_2m_on_l4 s kpml4 va).1, rc)
  else (s, rc).

End mapper.

(** ** NX and PAT at start-up *)

Definition MSR_EFER : Z := 0xC0000080.
Definition EFER_NXE : Z := Z.shiftl 1 11.

(** The file's PAT variables, the model-specific registers, and the [edx] that
    [cpuid] leaf 1 reports. *)
Record cpu := MkCpu {
  pat_probed : bool; pat_cpu_supported : Z; pat_configured : bool;
  msrs : gmap Z Z; cpuid1_edx : Z
}.

Definition paging_pat_probe (c : cpu) : cpu * Z :=
  if pat_probed c then (c, pat_cpu_supported c)
  else
    let v := Z.land (Z.shiftr (cpuid1_edx c) 16) 1 in
    (MkCpu true v (pat_configured c) (msrs c) (cpuid1_edx c), v).

(** With [AXON_PAT_WC_ENABLE] at its default of 0. *)
Definition paging_pat_init (c : cpu) : cpu * Z :=
  if pat_configured c then (c, 1)
  else ((paging_pat_probe c).1, 0).

Definition rdmsr_u64 (c : cpu) (r : Z) : Z := u64 (default 0 (msrs c !! r)).
Definition wrmsr_u64 (c : cpu) (r v : Z) : cpu :=
  MkCpu (pat_probed c) (pat_cpu_supported c) (pat_configured c) (<[r := v]> (msrs c)) (cpuid1_edx c).

Definition paging_init (c : cpu) : cpu :=
  let efer := Z.lor (rdmsr_u64 c MSR_EFER) EFER_NXE in
  (paging_pat_init (wrmsr_u64 c MSR_EFER efer)).1.

End Paging.
