(* ===== verification/PagingProps.v ===== *)
(** What the 2 MiB mapper of [mem/paging.c] does to the translations of a set of
    page-table trees. *)
From S2P Require Import Prelude PageTable Paging.
Import PageTable Paging.
#[local] Opaque fill.

(** * Entries *)

Lemma ptr_mask e : 0 ≤ e < 2 ^ 52 → e &u ~u 0xFFF = e &u PG_ADDR_MASK.
Proof.
  intros H. change 0xFFF with (2 ^ 12 - 1). rewrite land_mask by lia. by rewrite addr_4k, (Z.mod_small e (2 ^ 52)) by lia.
Qed.

(** A page address with flags. *)
Lemma ptr_entry n f :
  n `mod` 4096 = 0 → 0 ≤ n < 2 ^ 52 → 0 ≤ f < 4096 →
  Z.lor n f = n + f ∧ Z.lor n f &u PG_ADDR_MASK = n ∧ 0 ≤ Z.lor n f < 2 ^ 52 ∧
  ∀ i, 0 ≤ i < 12 → Z.testbit (Z.lor n f) i = Z.testbit f i.
Proof.
  intros Hn Hr Hf. change 4096 with (2 ^ 12) in *. rewrite (lor_aligned n f 12) by lia.
  pose proof (Z.div_mod n (2 ^ 12)).
  split_and!; [done| |lia|lia|intros; by apply (low_bits n f 12)].
  rewrite addr_4k, (Z.mod_small _ (2 ^ 52)) by lia. rewrite <- Z.add_mod_idemp_l, Hn, Z.add_0_l, Z.mod_small by lia. lia.
Qed.

(** An entry's flags are read from bits. *)
Ltac bits := unfold PG_PRESENT, PG_RW, PG_US, PG_PWT, PG_PCD, PG_PS_2M, PG_GLOBAL, PG_SOFT_COW, PG_PAT, PG_NX in *;
  rewrite ?has_bit in * by lia.

Lemma new_entry n :
  n `mod` 4096 = 0 → 0 ≤ n < 2 ^ 52 →
  let e := Z.lor (Z.lor n PG_PRESENT) PG_RW in
  has e PG_PRESENT = true ∧ has e PG_PS_2M = false ∧ has e PG_RW = true ∧ has e PG_US = false ∧ has e PG_NX = false ∧
  e &u PG_ADDR_MASK = n ∧ 0 ≤ e < 2 ^ 52.
Proof.
  intros Hn Hr e. unfold e. rewrite <- Z.lor_assoc. change (Z.lor PG_PRESENT PG_RW) with 3.
  destruct (ptr_entry n 3) as (E & Ha & Hb & Ht); [done..|lia|].
  split_and!; [bits; rewrite Ht by lia; done.. | |done|lia|lia].
  bits. rewrite <- (Z.mod_small (Z.lor n 3) (2 ^ 52)) by done. by apply Z.mod_pow2_bits_high.
Qed.

Lemma no_nx e : 0 ≤ e < 2 ^ 52 → has e PG_NX = false.
Proof.
  intros H. bits. rewrite <- (Z.mod_small e (2 ^ 52)) by done. by apply Z.mod_pow2_bits_high.
Qed.

(** The 2 MiB leaf [i] made from the 1 GiB leaf [lf], and the pointer that replaces it. *)
Section split_entry.
Context (lf : Z) (Hlf : 0 ≤ lf < 2 ^ 52) (Hp : has lf PG_PRESENT = true).

Let keep := lf &u split_keep.
Lemma keep_small : keep = lf &u 0x11F.
Proof.
  unfold keep. apply Z.bits_inj'. intros i Hi. rewrite !Z.land_spec.
  destruct (Z.lt_ge_cases i 52).
  - f_equal. change split_keep with (0x11F + 2 ^ 11 * 2 ^ 52). rewrite <- (Z.mod_pow2_bits_low (0x11F + _) 52) by lia.
    by rewrite Z.mod_add by lia.
  - rewrite <- (Z.mod_small lf (2 ^ 52)), Z.mod_pow2_bits_high by lia. done.
Qed.
Lemma keep_bit i : 0 ≤ i → Z.testbit keep i = Z.testbit lf i && Z.testbit 0x11F i.
Proof. intros. by rewrite keep_small, Z.land_spec. Qed.
Lemma keep_range : 0 ≤ keep < 512.
Proof.
  rewrite keep_small. change 0x11F with (Z.land 0x11F (Z.ones 9)). rewrite Z.land_assoc, Z.land_ones by lia.
  apply Z.mod_pos_bound. lia.
Qed.

Let base_pa := lf &u ~u 0x3FFFFFFF.
Definition split_leaf (i : Z) : Z :=
  Z.lor (Z.lor ((base_pa +u i *u PAGE_SIZE_2M) &u ~u (PAGE_SIZE_2M - 1)) keep) PG_PS_2M.

Lemma split_leaf_eq i :
  0 ≤ i < 512 →
  let f := Z.lor keep PG_PS_2M in
  let a := lf - lf `mod` 2 ^ 30 + i * 2 ^ 21 in
  split_leaf i = a + f ∧ 0 ≤ f < 512 ∧ a `mod` 2 ^ 21 = 0 ∧ 0 ≤ a ∧ a + 2 ^ 21 ≤ 2 ^ 52.
Proof.
  intros Hi f a. pose proof keep_range.
  assert (base_pa = lf - lf `mod` 2 ^ 30) as Hb.
  { unfold base_pa. change 0x3FFFFFFF with (2 ^ 30 - 1). apply land_mask; lia. }
  assert (0 ≤ f < 512) as Hf.
  { unfold f. change 512 with (2 ^ 9) in *. split; [apply Z.lor_nonneg; split; [lia|done]|].
    apply Z.log2_lt_cancel. rewrite Z.log2_lor by (done || lia).
    apply Z.max_lub_lt; [|done]. destruct (decide (keep = 0)) as [->|]; [done|].
    change (Z.log2 (2 ^ 9)) with 9. apply Z.log2_lt_pow2; lia. }
  pose proof (Z.div_mod lf (2 ^ 30) ltac:(lia)) as Hd. pose proof (Z.mod_pos_bound lf (2 ^ 30) ltac:(lia)).
  assert (a `mod` 2 ^ 21 = 0) as Ha.
  { unfold a. replace (lf - lf `mod` 2 ^ 30 + i * 2 ^ 21) with ((lf `div` 2 ^ 30 * 2 ^ 9 + i) * 2 ^ 21) by lia.
    apply Z.mod_mul. lia. }
  split_and!; try done; try (unfold a; lia).
  unfold split_leaf. rewrite <- Z.lor_assoc. fold f. rewrite Hb. change PAGE_SIZE_2M with (2 ^ 21).
  rewrite (u64_small (i * _)), (u64_small (_ + _)) by lia. fold a.
  rewrite land_mask by (unfold a; lia). rewrite Ha, Z.sub_0_r.
  apply (lor_aligned a f 21); lia.
Qed.

Lemma split_leaf_bit i k :
  0 ≤ i < 512 → 0 ≤ k < 21 → Z.testbit (split_leaf i) k = (Z.testbit lf k && Z.testbit 0x11F k) || (k =? 7).
Proof.
  intros Hi Hk. destruct (split_leaf_eq i Hi) as (-> & Hf & Ha & _). rewrite (low_bits _ _ 21) by (done || lia).
  rewrite Z.lor_spec, keep_bit by lia. f_equal. unfold PG_PS_2M. rewrite Z.shiftl_1_l, Z.pow2_bits_eqb by lia.
  apply Z.eqb_sym.
Qed.

Lemma split_ptr n :
  n `mod` 4096 = 0 → 0 ≤ n < 2 ^ 52 →
  let v := Z.lor n (keep &u ~u PG_PS_2M) in
  v &u PG_ADDR_MASK = n ∧ 0 ≤ v < 2 ^ 52 ∧
  ∀ k, 0 ≤ k < 12 → Z.testbit v k = Z.testbit lf k && Z.testbit 0x11F k.
Proof.
  intros Hn Hr v. assert (keep &u ~u PG_PS_2M = keep) as E.
  { apply Z.bits_inj'. intros k Hk. rewrite Z.land_spec, keep_bit by done.
    change (~u PG_PS_2M) with (2 ^ 64 - 1 - 128).
    destruct (Z.lt_ge_cases k 9).
    - assert (k = 0 ∨ k = 1 ∨ k = 2 ∨ k = 3 ∨ k = 4 ∨ k = 5 ∨ k = 6 ∨ k = 7 ∨ k = 8) as Hk' by lia.
      destruct_or! Hk'; subst k; by destruct (Z.testbit lf _).
    - rewrite (Z.bits_above_log2 0x11F k), andb_false_r; [done|done|]. change (Z.log2 0x11F) with 8. lia. }
  unfold v. rewrite E. pose proof keep_range. destruct (ptr_entry n keep) as (_ & H1 & H2 & H3); [done..|lia|].
  split_and!; [done|lia|lia|]. intros k Hk. rewrite H3 by done. by apply keep_bit; lia.
Qed.
End split_entry.

(** The offset in a 1 GiB page: which 2 MiB page, and where in it. *)
Lemma offset_1g va : va `mod` 2 ^ 30 = idx 2 va * 2 ^ 21 + va `mod` 2 ^ 21.
Proof.
  rewrite idx_eq. unfold shift. change (2 ^ (3 + 9 * 2%nat)) with (2 ^ 21). change 512 with (2 ^ 9).
  change (2 ^ 30) with (2 ^ 21 * 2 ^ 9). rewrite Z.rem_mul_r by lia. lia.
Qed.

(** * The pool *)

Section props.
Context (pool : Z).

Record pool_ok (s : paging) (R : list Z) : Prop := {
  p_align : pool `mod` 4096 = 0;
  p_range : 0 < pool ∧ pool + 4096 * 128 ≤ 2 ^ 52;
  p_used : 0 ≤ used s;
  p_fresh : ∀ i, used s ≤ i < 128 → fresh (tabs s) R (pool + 4096 * i)
}.

Lemma pool_page s R i :
  pool_ok s R → 0 ≤ i < 128 → (pool + 4096 * i) `mod` 4096 = 0 ∧ 0 < pool + 4096 * i < 2 ^ 52.
Proof.
  intros [H1 H2 _ _] Hi. split; [|lia]. by rewrite (Z.mul_comm 4096), Z.mod_add by lia.
Qed.

(** A page handed out is zero, outside the trees, and its filling is not seen by them. *)
Lemma next_free_table_ok s R :
  forest (tabs s) R → pool_ok s R →
  (next_free_table pool s = (s, 0) ∧ 128 ≤ used s) ∨
  ∃ s' n, next_free_table pool s = (s', n) ∧ n = pool + 4096 * used s ∧ n `mod` 4096 = 0 ∧ 0 < n < 2 ^ 52 ∧
    agree_on (tabs s) (tabs s') R ∧ pool_ok s' R ∧ fresh (tabs s') R n ∧ used s' = used s + 1 ∧
    flushed s' = flushed s ∧ (∀ i, 0 ≤ i < 512 → rd (tabs s') (n + 8 * i) = 0) ∧
    (∀ a, (∀ i, 0 ≤ i < 512 → a ≠ n + 8 * i) → rd (tabs s') a = rd (tabs s) a) ∧
    (∀ i, used s' ≤ i < 128 → pool + 4096 * i ≠ n).
Proof.
  intros F P. unfold next_free_table. destruct (Z.leb_spec 128 (used s)); [by left|right].
  pose proof (p_used _ _ P). pose proof (pool_page s R (used s) P ltac:(lia)) as [Ha Hr].
  eexists _, _. split; [done|].
  assert (∀ a, (∀ i, 0 ≤ i < 512 → a ≠ pool + 4096 * used s + 8 * i) →
    rd (fill PT_ENTRIES 0 (tabs s) (pool + 4096 * used s) (λ _ _, 0)) a = rd (tabs s) a) as Hout.
  { intros a H1. apply rd_fill_out. intros j Hj. apply H1. unfold PT_ENTRIES in Hj. lia. }
  assert (agree_on (tabs s) (fill PT_ENTRIES 0 (tabs s) (pool + 4096 * used s) (λ _ _, 0)) R) as Hag.
  { apply (fresh_agree _ _ R (pool + 4096 * used s)); [done|apply (p_fresh _ _ P); lia|done]. }
  split_and!; try done; try lia.
  - destruct P as [P1 P2 P3 P4]. split; [done..|cbn; lia|]. cbn. intros i Hi.
    eapply agree_fresh; [done|]. apply P4. lia.
  - eapply agree_fresh; [done|]. apply (p_fresh _ _ P). lia.
  - intros i Hi. cbn [tabs]. rewrite rd_fill_in by (unfold PT_ENTRIES; lia). done.
  - cbn. intros i Hi. lia.
Qed.

(** * Growing the tables without changing a translation *)

Record grows (s s' : paging) (R : list Z) : Prop := {
  g_forest : forest (tabs s') R;
  g_pool : pool_ok s' R;
  g_walk : ∀ r va, r ∈ R → walk (tabs s') r va = walk (tabs s) r va;
  g_mono : ∀ r d va t, r ∈ R → table_at (tabs s) d r va = Some t →
    table_at (tabs s') d r va = Some t ∧ perms (tabs s') d r va = perms (tabs s) d r va;
  g_1g : ∀ r va t, r ∈ R → table_at (tabs s') 1 r va = Some t →
    has (rd (tabs s') (slot t 3 va)) PG_PRESENT = true → has (rd (tabs s') (slot t 3 va)) PG_PS_2M = true →
    table_at (tabs s) 1 r va = Some t ∧ rd (tabs s') (slot t 3 va) = rd (tabs s) (slot t 3 va);
  g_l1 : ∀ r va t, r ∈ R → table_at (tabs s') 3 r va = Some t → table_at (tabs s) 3 r va = Some t;
  g_flushed : flushed s' = flushed s
}.

Lemma grows_refl s R : forest (tabs s) R → pool_ok s R → grows s s R.
Proof. by split. Qed.
Lemma grows_trans s1 s2 s3 R : grows s1 s2 R → grows s2 s3 R → grows s1 s3 R.
Proof.
  intros [A1 A2 A3 A4 A7 A5 A6] [B1 B2 B3 B4 B7 B5 B6]. split; [done..| | | | |congruence].
  - intros r va Hr. by rewrite B3, A3.
  - intros r d va t Hr Ht. destruct (A4 r d va t Hr Ht) as [H1 H2].
    destruct (B4 r d va t Hr H1) as [H3 H4]. split; [done|congruence].
  - intros r va t Hr Ht Hp Hs. destruct (B7 r va t Hr Ht Hp Hs) as [H1 H2]. rewrite H2 in *.
    by destruct (A7 r va t Hr H1 Hp Hs).
  - intros r va t Hr Ht. by apply A5, B5.
Qed.

Section link.
Context (s s1 : paging) (R : list Z) (r : Z) (d : nat) (va t n v : Z).
Hypothesis (F : forest (tabs s) R) (Hr : r ∈ R) (Ht : table_at (tabs s) d r va = Some t) (Hd : (d ≤ 1)%nat).
Hypothesis (Hag : agree_on (tabs s) (tabs s1) R) (P1 : pool_ok s1 R) (Hf : fresh (tabs s1) R n).
Hypothesis (Hfl : flushed s1 = flushed s) (Hpool : ∀ i, used s1 ≤ i < 128 → pool + 4096 * i ≠ n).
Hypothesis (Hold : has (get s (slot t (4 - d) va)) PG_PRESENT = true →
                   leaf (4 - d) (get s (slot t (4 - d) va)) = true).
Hypothesis (Hv : is_u64 v) (Hp : has v PG_PRESENT = true) (Hl : leaf (4 - d) v = false).
Hypothesis (Ha : v &u PG_ADDR_MASK = n) (Hv' : v < 2 ^ 52).
Hypothesis (Hdead : ∀ va, let e := rd (tabs s1) (slot n (4 - S d) va) in
  has e PG_PRESENT = true → leaf (4 - S d) e = true).
Hypothesis (Hzero : d = 0%nat → ∀ va, has (rd (tabs s1) (slot n (4 - S d) va)) PG_PRESENT = false).
Hypothesis (Hsame : ∀ va' rw us nx, pfx (S d) va' = pfx (S d) va →
  walk_from (4 - d) (tabs s) t va' rw us nx =
  walk_from (4 - S d) (tabs s1) n va' (rw && has v PG_RW) (us && has v PG_US) (nx || has v PG_NX)).

Let s' := put s1 (slot t (4 - d) va) v.

Let F1 : forest (tabs s1) R.
Proof. by eapply agree_forest. Qed.
Let Ht1 : table_at (tabs s1) d r va = Some t.
Proof. by rewrite (agree_table (tabs s) (tabs s1) R). Qed.

Lemma link_new va' : rd (tabs s') (slot n (4 - S d) va') = rd (tabs s1) (slot n (4 - S d) va').
Proof. eapply link_rd_new; eauto. Qed.

Lemma link_walk_new va' rw us nx :
  walk_from (4 - S d) (tabs s') n va' rw us nx = walk_from (4 - S d) (tabs s1) n va' rw us nx.
Proof.
  pose proof (link_new va') as E. pose proof (Hdead va') as D. cbn zeta in D.
  replace (4 - S d)%nat with (S (3 - S d)) in * by lia. cbn [walk_from]. rewrite E.
  destruct (has (rd (tabs s1) _) PG_PRESENT); cbn [negb]; [|done]. by rewrite D.
Qed.

Lemma link_perms r' va' :
  r' ∈ R → table_at (tabs s) d r' va' = Some t → pfx (S d) va' = pfx (S d) va →
  table_at (tabs s') (S d) r' va' = Some n ∧
  perms (tabs s') (S d) r' va' = let '(rw, us, nx) := perms (tabs s) d r' va' in
    (rw && has v PG_RW, us && has v PG_US, nx || has v PG_NX).
Proof.
  intros Hr' Ht' He. pose proof Ht' as Ht1'. rewrite <- (agree_table (tabs s) (tabs s1) R) in Ht1' by done.
  assert (table_at (tabs s') d r' va' = Some t) as Ht2.
  { rewrite <- Ht1'. apply (store_table _ _ _ _ _ _ _ F1 Hr Ht1); auto. }
  assert (rd (tabs s') (slot t (4 - d) va') = v) as E by (apply (store_hit _ _ _ _ _ _ Ht1); auto).
  split.
  - apply table_at_S. exists t. by rewrite E.
  - cbn [perms]. rewrite Ht2, E.
    assert (perms (tabs s') d r' va' = perms (tabs s1) d r' va') as -> by (apply (store_perms _ _ _ _ _ _ _ F1 Hr Ht1); auto).
    destruct (perms_ext (tabs s) (tabs s1) r' va' d) with (d := d) as [_ ->]; [|done|done].
    intros d1 t1 _. by apply (Hag r').
Qed.

Lemma link_grows : grows s s' R.
Proof.
  split.
  - by apply (link_forest _ _ _ _ _ _ _ F1 Hr Ht1 Hv n).
  - destruct P1 as [Q1 Q2 Q3 Q4]. split; [done..|]. intros i Hi.
    apply (link_fresh _ _ _ _ _ _ _ F1 Hr Ht1 Hv n); auto.
  - intros r' va' Hr'. rewrite <- (agree_walk (tabs s) (tabs s1) R r' va') by done.
    destruct (decide (table_at (tabs s1) d r' va' = Some t)) as [E|]; [|by apply (store_walk_other _ _ _ _ _ _ _ F1 Hr Ht1)].
    destruct (decide (pfx (S d) va' = pfx (S d) va)) as [He|]; [|by apply (store_walk _ _ _ _ _ _ _ F1 Hr Ht1)].
    rewrite (agree_table (tabs s) (tabs s1) R) in E by done. destruct (link_perms r' va' Hr' E He) as [H1 H2].
    rewrite (walk_perms _ _ _ _ _ H1), H2, (agree_walk (tabs s) (tabs s1) R) by done.
    rewrite (walk_perms _ _ _ _ _ E). destruct (perms (tabs s) d r' va') as [[rw us] nx].
    rewrite link_walk_new. by rewrite Hsame.
  - intros r' d' va' t' Hr' Ht'. pose proof Ht' as Ht2. rewrite <- (agree_table (tabs s) (tabs s1) R) in Ht2 by done.
    edestruct store_mono as [H1 H2]; [exact F1|exact Hr|exact Ht1| |exact Hr'|exact Ht2|].
    { rewrite (Hag r) by done. exact Hold. }
    split; [exact H1|]. unfold s'; cbn [put set_tabs tabs]. rewrite H2.
    apply (perms_ext _ _ r' va' d'); [|done]. intros d1 t1 _. by apply (Hag r').
  - intros r' va' t' Hr' H Hp' Hs'.
    destruct (link_table _ _ _ _ _ _ _ F1 Hr Ht1 Hv n Hf Ha Hdead _ _ _ _ Hr' H) as [H0|(-> & Hd0 & _)].
    + rewrite <- (agree_table (tabs s) (tabs s1) R) by done. split; [done|].
      transitivity (rd (tabs s1) (slot t' 3 va'));
        [|by apply (Hag r' 1%nat va' t' Hr'); rewrite <- (agree_table (tabs s) (tabs s1) R)].
      destruct (store_rd _ _ _ _ _ _ _ F1 Hr Ht1 Hv r' 1%nat va' t' Hr' H0) as [(Hd1 & _ & E)|E]; [|exact E].
      exfalso. change (has (rd (wr (tabs s1) (slot t (4 - d) va) v) (slot t' (4 - 1) va')) PG_PS_2M = true) in Hs'.
      rewrite E in Hs'. rewrite <- Hd1 in Hl. cbn [leaf Nat.sub] in Hl. congruence.
    + pose proof (link_new va') as E. pose proof (Hzero ltac:(lia) va') as Hz.
      rewrite <- Hd0 in E, Hz. change (4 - 1)%nat with 3%nat in *. congruence.
  - intros r' va' t' Hr' H. unfold s' in H; cbn [put set_tabs tabs] in H.
    destruct (link_table _ _ _ _ _ _ _ F1 Hr Ht1 Hv n Hf Ha Hdead _ _ _ _ Hr' H) as [H0|(_ & ? & _)]; [|lia].
    by rewrite (agree_table (tabs s) (tabs s1) R) in H0.
  - done.
Qed.
End link.

Lemma zero_dead e : e = 0 → has e PG_PRESENT = false.
Proof. by intros ->. Qed.

(** Making a table exist below an entry of level 4 or 3. *)
Lemma ensure_table_ok s R r d va t err s' rc :
  forest (tabs s) R → pool_ok s R → r ∈ R → table_at (tabs s) d r va = Some t → (d ≤ 1)%nat →
  ensure_table pool s (slot t (4 - d) va) err = (s', rc) →
  grows s s' R ∧
  ((rc = err ∧ s' = s ∧ 128 ≤ used s) ∨
   (rc = 0 ∧ s' = s ∧ has (get s (slot t (4 - d) va)) PG_PRESENT = true) ∨
   (rc = 0 ∧ has (get s (slot t (4 - d) va)) PG_PRESENT = false ∧
    has (get s' (slot t (4 - d) va)) PG_PRESENT = true ∧ has (get s' (slot t (4 - d) va)) PG_PS_2M = false ∧
    table_at (tabs s') d r va = Some t ∧
    (∃ n, table_at (tabs s') (S d) r va = Some n ∧ ∀ va', rd (tabs s') (slot n (4 - S d) va') = 0) ∧
    perms (tabs s') (S d) r va = let '(rw, us, nx) := perms (tabs s) d r va in (rw, false, nx))).
Proof.
  intros F P Hr Ht Hd. unfold ensure_table. destruct (has (get s _) PG_PRESENT) eqn:Hold.
  { intros [= <- <-]. split; [by apply grows_refl|]. auto. }
  destruct (next_free_table_ok s R F P) as [[E Hu]|(s1 & n & E & _ & Hn & Hr1 & Hag & P1 & Hf & _ & Hfl & Hz & _ & Hpool)];
    rewrite E.
  { intros [= <- <-]. split; [by apply grows_refl|]. auto. }
  destruct (Z.eqb_spec n 0); [lia|]. intros [= <- <-].
  destruct (new_entry n) as (V1 & V2 & V3 & V4 & V5 & V6 & V7); [done|lia|].
  set (v := Z.lor (Z.lor n PG_PRESENT) PG_RW) in *.
  assert (∀ va', rd (tabs s1) (slot n (4 - S d) va') = 0) as Hz'.
  { intros va'. apply Hz. apply idx_range. }
  assert (is_u64 v) as Hv by lia.
  assert (leaf (4 - d) v = false) as Hl by (destruct d as [|[|d]]; [done|exact V2|lia]).
  assert (∀ va', let e := rd (tabs s1) (slot n (4 - S d) va') in
    has e PG_PRESENT = true → leaf (4 - S d) e = true) as Hdead.
  { intros va'. cbn zeta. by rewrite Hz'. }
  assert (grows s (put s1 (slot t (4 - d) va) v) R) as G.
  { apply (link_grows s s1 R r d va t n v); try done; [by rewrite Hold|lia|by intros _ va'; rewrite Hz'|].
    intros va' rw us nx He. apply pfx_idx in He as [_ Ei]; [|lia].
    replace (4 - d)%nat with (S (4 - S d)) in * by lia. cbn [walk_from].
    unfold slot in *. rewrite Ei. unfold get in Hold. rewrite Hold. cbn [negb].
    destruct (4 - S d)%nat; [done|]. cbn [walk_from]. unfold slot. by rewrite Hz'. }
  split; [done|right; right].
  destruct (link_perms s s1 R r d va t n v) with (r' := r) (va' := va) as [L1 L2]; try done; try lia.
  assert (get (put s1 (slot t (4 - d) va) v) (slot t (4 - d) va) = v) as Hg.
  { unfold get, put; cbn [set_tabs tabs]. by rewrite word_wr_eq, u64_small. }
  rewrite Hg. split_and!; [done..|by apply (g_mono _ _ _ G)| |].
  { exists n. split; [done|]. intros va'. rewrite <- (Hz' va'). eapply link_new; eauto. }
  rewrite L2. destruct (perms (tabs s) d r va) as [[rw us] nx]. rewrite V3, V4, V5.
  by rewrite andb_true_r, andb_false_r, orb_false_r.
Qed.

(** A 1 GiB leaf that the split reproduces: no bit above the address, no PAT bit. *)
Definition plain_1g (e : Z) : Prop := e < 2 ^ 52 ∧ has e PG_PAT = false.

Lemma split_walk lf m m1 t n va va' rw us nx :
  0 ≤ lf < 2 ^ 52 → has lf PG_PRESENT = true → has lf PG_PS_2M = true → has lf PG_PAT = false →
  n `mod` 4096 = 0 → 0 ≤ n < 2 ^ 52 →
  rd m (slot t 3 va) = lf → idx 3 va' = idx 3 va →
  rd m1 (slot n 2 va') = split_leaf lf (idx 2 va') →
  let v := Z.lor n ((lf &u split_keep) &u ~u PG_PS_2M) in
  walk_from 3 m t va' rw us nx =
  walk_from 2 m1 n va' (rw && has v PG_RW) (us && has v PG_US) (nx || has v PG_NX).
Proof.
  intros Hlf Hp Hs Hpat Hn Hn' Hold Ei Hnew v. destruct (split_ptr lf Hlf n Hn Hn') as (_ & Vr & Vb). fold v in Vr, Vb.
  pose proof (idx_range 2 va') as Hi. pose proof (split_leaf_bit lf Hlf (idx 2 va') ) as Sb.
  destruct (split_leaf_eq lf Hlf (idx 2 va') Hi) as (Se & Sf & Sa & S0 & S1).
  cbn [walk_from]. rewrite Hnew. unfold slot in Hold |- *. rewrite Ei, Hold, Hp. cbn [negb leaf]. rewrite Hs.
  set (E := split_leaf lf (idx 2 va')) in *. rewrite (no_nx lf) by done. rewrite (no_nx v) by done.
  assert (0 ≤ E < 2 ^ 52) as HE by lia. rewrite (no_nx E) by done.
  bits. unfold leaf_tr. rewrite !Sb by lia. rewrite Hp, !Vb by lia.
  change (Z.testbit 0x11F 0 && true) with true. cbn [andb orb negb]. f_equal.
  assert (Z.testbit E 12 = false) as H12 by (rewrite Sb by lia; by destruct (Z.testbit lf 12)).
  unfold leaf_tr. bits. rewrite H12, Hpat, !Sb by lia.
  replace ((E &u addr_mask 2) + va' `mod` 2 ^ shift 2) with ((lf &u addr_mask 3) + va' `mod` 2 ^ shift 3).
  { destruct (Z.testbit lf 1), (Z.testbit lf 2), (Z.testbit lf 3), (Z.testbit lf 4), (Z.testbit lf 7), (Z.testbit lf 8), rw, us, nx; done. }
  rewrite !addr_mask_eq by lia. unfold shift. change (3 + 9 * 3%nat) with 30. change (3 + 9 * 2%nat) with 21.
  rewrite (offset_1g va'), !(Z.mod_small _ (2 ^ 52)) by lia. rewrite Se.
  set (f := Z.lor (lf &u split_keep) (Z.shiftl 1 7)) in *.
  rewrite <- (Z.add_mod_idemp_l _ f), Sa, Z.add_0_l, (Z.mod_small f (2 ^ 21)) by lia. lia.
Qed.

Lemma split_1g_ok s R r va t s' rc :
  forest (tabs s) R → pool_ok s R → r ∈ R → table_at (tabs s) 1 r va = Some t →
  has (get s (slot t 3 va)) PG_PRESENT = true →
  (has (get s (slot t 3 va)) PG_PS_2M = true → plain_1g (get s (slot t 3 va))) →
  split_1g pool s (slot t 3 va) = (s', rc) →
  grows s s' R ∧
  ((rc = -2 ∧ s' = s ∧ 128 ≤ used s ∧ has (get s (slot t 3 va)) PG_PS_2M = true) ∨
   (rc = 0 ∧ has (get s' (slot t 3 va)) PG_PRESENT = true ∧ has (get s' (slot t 3 va)) PG_PS_2M = false)).
Proof.
  intros F P Hr Ht Hp Hplain. unfold split_1g. destruct (has (get s _) PG_PS_2M) eqn:Hs; cbn [negb].
  2: { intros [= <- <-]. split; [by apply grows_refl|]. right. by rewrite Hs. }
  destruct (Hplain eq_refl) as [Hlf Hpat]. pose proof (word_range (tabs s) (slot t 3 va)) as Hlf0.
  fold (get s (slot t 3 va)) in Hlf0. set (lf := get s (slot t 3 va)) in *.
  destruct (next_free_table_ok s R F P)
    as [[E Hu]|(s1 & n & E & _ & Hn & Hr1 & Hag & P1 & Hf & _ & Hfl & Hz & Hout & Hpool)]; rewrite E.
  { intros [= <- <-]. split; [by apply grows_refl|]. auto. }
  destruct (Z.eqb_spec n 0); [lia|]. intros [= <- <-].
  destruct (split_ptr lf ltac:(lia) n Hn ltac:(lia)) as (Va & Vr & Vb).
  set (v := Z.lor n ((lf &u split_keep) &u ~u PG_PS_2M)) in *.
  set (f := λ i (_ : Z), split_leaf lf i).
  set (s2 := set_tabs s1 (fill PT_ENTRIES 0 (tabs s1) n f)).
  assert (agree_on (tabs s1) (tabs s2) R) as Hag2.
  { apply (fresh_agree _ _ R n); [by eapply agree_forest|done|]. intros a Ha. apply rd_fill_out.
    intros j Hj. apply Ha. unfold PT_ENTRIES in Hj. lia. }
  assert (∀ va', rd (tabs s2) (slot n 2 va') = split_leaf lf (idx 2 va')) as Hnew.
  { intros va'. pose proof (idx_range 2 va') as Hi. unfold s2; cbn [set_tabs tabs]. unfold slot.
    rewrite rd_fill_in by (unfold PT_ENTRIES; lia). unfold f. apply u64_small.
    destruct (split_leaf_eq lf ltac:(lia) (idx 2 va') Hi) as (-> & ? & _ & ? & ?). lia. }
  assert (has v PG_PRESENT = true ∧ has v PG_PS_2M = false) as [Vp Vs].
  { bits. rewrite !Vb by lia. rewrite Hp. split; [done|]. by destruct (Z.testbit lf 7). }
  assert (∀ va', leaf 2 (rd (tabs s2) (slot n 2 va')) = true) as Hleaf.
  { intros va'. cbn [leaf]. rewrite Hnew. bits.
    rewrite (split_leaf_bit lf) by (lia || apply idx_range). by rewrite orb_true_r. }
  assert (grows s (put s2 (slot t (4 - 1) va) v) R) as G.
  { refine (link_grows s s2 R r 1 va t n v F Hr Ht _ _ _ _ Hfl Hpool _ _ Vp Vs Va _ _ _ _).
    - lia.
    - intros r' d' va' t' Hr' Ht'. pose proof Ht' as Ht2. rewrite <- (agree_table (tabs s) (tabs s1) R) in Ht2 by done.
      rewrite (Hag2 r' d' va' t' Hr' Ht2). by apply (Hag r').
    - destruct P1 as [Q1 Q2 Q3 Q4]. split; [exact Q1|exact Q2|exact Q3|]. intros i Hi.
      eapply agree_fresh; [exact Hag2|]. apply Q4, Hi.
    - eapply agree_fresh; [exact Hag2|exact Hf].
    - intros _. exact Hs.
    - lia.
    - lia.
    - intros va' e _. apply Hleaf.
    - done.
    - intros va' rw us nx [_ He]%pfx_idx; [|lia].
      apply (split_walk lf (tabs s) (tabs s2) t n va); [lia|done..|lia|reflexivity|exact He|apply Hnew]. }
  split; [exact G|]. right. unfold get, put; cbn [set_tabs tabs]. change (4 - 1)%nat with 3%nat.
  rewrite word_wr_eq, u64_small by lia. done.
Qed.

(** * The leaf *)

Lemma lor_lt a b k : 0 ≤ k → 0 ≤ a < 2 ^ k → 0 ≤ b < 2 ^ k → 0 ≤ Z.lor a b < 2 ^ k.
Proof.
  intros Hk Ha Hb. assert (Z.lor a b = Z.lor a b `mod` 2 ^ k) as ->; [|apply Z.mod_pos_bound; lia].
  apply Z.bits_inj'. intros i Hi. destruct (Z.lt_ge_cases i k); [by rewrite Z.mod_pow2_bits_low|].
  rewrite Z.mod_pow2_bits_high, Z.lor_spec by lia.
  rewrite <- (Z.mod_small a (2 ^ k)), <- (Z.mod_small b (2 ^ k)) by done. by rewrite !Z.mod_pow2_bits_high by lia.
Qed.
Lemma land_lt a b k : 0 ≤ k → 0 ≤ b < 2 ^ k → 0 ≤ a &u b < 2 ^ k.
Proof.
  intros Hk Hb. rewrite <- (Z.mod_small b (2 ^ k)), <- Z.land_ones, Z.land_assoc, Z.land_ones by lia.
  apply Z.mod_pos_bound. lia.
Qed.

Lemma drop_nx e : 0 ≤ e < 2 ^ 52 → e &u ~u PG_NX = e.
Proof.
  intros H. change (~u PG_NX) with (Z.ones 63). rewrite Z.land_ones by lia. apply Z.mod_small. lia.
Qed.

Section leaf_entry.
Context (pa flags : Z) (Hpa : 0 ≤ pa < 2 ^ 52).
Let e := leaf_2m pa flags.

Lemma leaf_2m_eq : ∃ f, e = pa - pa `mod` 2 ^ 21 + f ∧ 0 ≤ f < 2 ^ 13 ∧
  ∀ k, 0 ≤ k → Z.testbit f k = Z.testbit 131 k || (Z.testbit flags k && Z.testbit 0x111C k).
Proof.
  exists (Z.lor 131 (flags &u 0x111C)).
  pose proof (land_lt flags 0x111C 13 ltac:(lia) ltac:(lia)).
  assert (0 ≤ Z.lor 131 (flags &u 0x111C) < 2 ^ 13) as Hf by (apply lor_lt; lia).
  split_and!; [|lia|lia|intros k Hk; by rewrite Z.lor_spec, Z.land_spec].
  unfold e, leaf_2m. change (PAGE_SIZE_2M - 1) with (2 ^ 21 - 1). rewrite land_mask by lia.
  rewrite <- !(Z.lor_assoc (pa - _)). change (Z.lor (Z.lor PG_PRESENT PG_RW) PG_PS_2M) with 131.
  pose proof (Z.mod_pos_bound pa (2 ^ 21) ltac:(lia)). pose proof (Z.div_mod pa (2 ^ 21) ltac:(lia)).
  rewrite (lor_aligned _ _ 21); [|lia| |].
  - apply drop_nx. change (Z.lor _ PG_PAT) with 0x111C. lia.
  - replace (pa - pa `mod` 2 ^ 21) with (pa `div` 2 ^ 21 * 2 ^ 21) by lia. apply Z.mod_mul. lia.
  - change (Z.lor _ PG_PAT) with 0x111C. lia.
Qed.

Lemma leaf_2m_bit k : 0 ≤ k < 13 →
  Z.testbit e k = Z.testbit 131 k || (Z.testbit flags k && Z.testbit 0x111C k).
Proof.
  intros Hk. destruct leaf_2m_eq as (f & -> & Hf & Hb). rewrite <- Hb by lia. apply (low_bits _ _ 21); [lia| |lia].
  pose proof (Z.div_mod pa (2 ^ 21) ltac:(lia)).
  replace (pa - pa `mod` 2 ^ 21) with (pa `div` 2 ^ 21 * 2 ^ 21) by lia. apply Z.mod_mul. lia.
Qed.

Lemma leaf_2m_range : 0 ≤ e < 2 ^ 52 ∧ e &u PG_ADDR_MASK_2M = pa - pa `mod` 2 ^ 21.
Proof.
  destruct leaf_2m_eq as (f & -> & Hf & _).
  pose proof (Z.mod_pos_bound pa (2 ^ 21) ltac:(lia)). pose proof (Z.div_mod pa (2 ^ 21) ltac:(lia)).
  split; [lia|]. rewrite addr_2m, (Z.mod_small _ (2 ^ 52)) by lia.
  replace ((pa - pa `mod` 2 ^ 21 + f) `mod` 2 ^ 21) with f; [lia|].
  replace (pa - pa `mod` 2 ^ 21) with (pa `div` 2 ^ 21 * 2 ^ 21) by lia.
  rewrite Z.add_comm, Z.mod_add by lia. rewrite Z.mod_small; lia.
Qed.
End leaf_entry.

(** The 2 MiB page of [va] translates to the one of [pa] in the tree [r]. *)
Definition mapped (m : words) (r va pa flags : Z) : Prop :=
  ∀ va', pfx 3 va' = pfx 3 va →
    walk m r va' = let '(rw, us, nx) := perms m 2 r va in
      Some (Tr (pa - pa `mod` 2 ^ 21 + va' `mod` 2 ^ 21) rw (us && has flags PG_US) nx
        (has flags PG_PAT) (has flags PG_PCD) (has flags PG_PWT) (has flags PG_GLOBAL)).

Lemma leaf_mapped m r va t pa flags :
  0 ≤ pa < 2 ^ 52 → table_at m 2 r va = Some t → rd m (slot t 2 va) = leaf_2m pa flags → mapped m r va pa flags.
Proof.
  intros Hpa Ht He va' Hv. pose proof (pfx_le 2 3 va' va ltac:(lia) Hv) as Hv2.
  rewrite (walk_perms m 2 r va' t) by (by rewrite (table_at_pfx m 2 r va' va) by (lia || done)).
  rewrite (perms_pfx m 2 r va' va) by (lia || done). destruct (perms m 2 r va) as [[rw us] nx].
  apply pfx_idx in Hv as [_ Ei]; [|lia]. change (4 - 2)%nat with 2%nat in *. cbn [walk_from].
  unfold slot in *. rewrite Ei, He. destruct (leaf_2m_range pa flags Hpa) as [Hr Ha].
  rewrite (no_nx (leaf_2m pa flags)) by done. unfold leaf_tr, addr_mask. rewrite Ha. unfold leaf, shift. bits.
  rewrite !leaf_2m_bit by (done || lia). cbn [andb orb negb]. change (3 + 9 * 2%nat) with 21.
  destruct (Z.testbit flags 2), (Z.testbit flags 12), (Z.testbit flags 4), (Z.testbit flags 3),
    (Z.testbit flags 8), rw, us, nx; done.
Qed.

(** * The walk to the level-2 table *)

Definition plain_path (m : words) (l4 va : Z) : Prop :=
  ∀ t, table_at m 1 l4 va = Some t → has (rd m (slot t 3 va)) PG_PRESENT = true →
    has (rd m (slot t 3 va)) PG_PS_2M = true → plain_1g (rd m (slot t 3 va)).

Lemma table_of_entry m R r d va t :
  forest m R → r ∈ R → table_at m d r va = Some t → (d ≤ 2)%nat →
  has (rd m (slot t (4 - d) va)) PG_PRESENT = true → leaf (4 - d) (rd m (slot t (4 - d) va)) = false →
  table_at m (S d) r va = Some (rd m (slot t (4 - d) va) &u ~u 0xFFF).
Proof.
  intros F Hr Ht Hd Hp Hl. pose proof (f_ptr _ _ F r d va t Hr Ht Hp Hl) as Hlt.
  pose proof (word_range m (slot t (4 - d) va)). rewrite ptr_mask by lia. apply table_at_S. by exists t.
Qed.

Lemma reach_l3_ok s R l4 va s' rc :
  forest (tabs s) R → pool_ok s R → l4 ∈ R → ensure_table pool s (slot l4 4 va) (-1) = (s', rc) →
  grows s s' R ∧
  ((rc = -1 ∧ 128 ≤ used s' ∧ table_at (tabs s) 1 l4 va = None) ∨
   (rc = 0 ∧ let l3 := get s' (slot l4 4 va) &u ~u 0xFFF in
    table_at (tabs s') 1 l4 va = Some l3 ∧
    ((s' = s ∧ table_at (tabs s) 1 l4 va = Some l3) ∨
     (table_at (tabs s) 1 l4 va = None ∧ ∀ va', rd (tabs s') (slot l3 3 va') = 0)))).
Proof.
  intros F P Hr E.
  destruct (ensure_table_ok s R l4 0 va l4 (-1) s' rc F P Hr eq_refl ltac:(lia) E) as [G C]. split; [done|].
  assert (has (get s (slot l4 4 va)) PG_PRESENT = false → table_at (tabs s) 1 l4 va = None) as Hn.
  { intros H. destruct (table_at (tabs s) 1 l4 va) as [t|] eqn:Et; [|done].
    apply table_at_S in Et as (u & [= <-] & H1 & _). unfold get in H. change (4 - 0)%nat with 4%nat in H1. congruence. }
  destruct C as [(-> & -> & Hu)|[(-> & -> & Hp)|(-> & Hp0 & Hp & _ & _ & (n & Ht & Hz) & _)]].
  - left. split_and!; [done..|]. apply Hn. destruct (has _ _) eqn:Hp; [|done].
    by unfold ensure_table in E; change (4 - 0)%nat with 4%nat in Hp; rewrite Hp in E.
  - right. split; [done|]. cbn zeta.
    pose proof (table_of_entry _ R l4 0 va l4 F Hr eq_refl ltac:(lia) Hp eq_refl). auto.
  - right. split; [done|]. cbn zeta.
    pose proof (table_of_entry _ R l4 0 va l4 (g_forest _ _ _ G) Hr eq_refl ltac:(lia) Hp eq_refl) as Ht'.
    split; [done|]. right. split; [by apply Hn|]. rewrite Ht in Ht'. injection Ht' as ->. done.
Qed.

Lemma reach_l2_from s R l4 va l3 s' rc :
  forest (tabs s) R → pool_ok s R → l4 ∈ R → table_at (tabs s) 1 l4 va = Some l3 → plain_path (tabs s) l4 va →
  (let '(s1, rc1) := ensure_table pool s (slot l3 3 va) (-2) in
   if nz rc1 then (s1, rc1) else split_1g pool s1 (slot l3 3 va)) = (s', rc) →
  grows s s' R ∧
  ((rc = -2 ∧ 128 ≤ used s' ∧ table_at (tabs s) 2 l4 va = None) ∨
   (rc = 0 ∧ table_at (tabs s') 1 l4 va = Some l3 ∧
    table_at (tabs s') 2 l4 va = Some (get s' (slot l3 3 va) &u ~u 0xFFF) ∧
    (has (get s (slot l3 3 va)) PG_PRESENT = false → (perms (tabs s') 2 l4 va).1.2 = false))).
Proof.
  intros F P Hr Ht Hplain. destruct (ensure_table pool s _ _) as [s1 rc1] eqn:E1.
  destruct (ensure_table_ok s R l4 1 va l3 (-2) s1 rc1 F P Hr Ht ltac:(lia) E1) as [G1 C1].
  change (4 - 1)%nat with 3%nat in C1.
  assert (has (get s (slot l3 3 va)) PG_PRESENT = false ∨ has (get s (slot l3 3 va)) PG_PS_2M = true →
    table_at (tabs s) 2 l4 va = None) as Hn.
  { intros H. destruct (table_at (tabs s) 2 l4 va) as [t2|] eqn:E; [|done]. exfalso.
    apply table_at_S in E as (u & Hu & H1 & H2 & _). rewrite Ht in Hu. injection Hu as <-.
    change (4 - 1)%nat with 3%nat in *. cbn [leaf] in H2. unfold get in H. destruct H; congruence. }
  destruct C1 as [(-> & -> & Hu)|C1].
  { intros [= <- <-]. split; [done|]. left. split_and!; [done..|]. apply Hn. left.
    destruct (has _ PG_PRESENT) eqn:Hp; [|done]. by unfold ensure_table in E1; rewrite Hp in E1. }
  destruct (g_mono _ _ _ G1 l4 1%nat va l3 Hr Ht) as [Ht1 _].
  assert (rc1 = 0 ∧ has (get s1 (slot l3 3 va)) PG_PRESENT = true) as [-> Hp1].
  { destruct C1 as [(-> & -> & ?)|(-> & _ & ? & _)]; done. }
  change (nz 0) with false. cbn [andb]. intros E2.
  destruct (split_1g_ok s1 R l4 va l3 s' rc (g_forest _ _ _ G1) (g_pool _ _ _ G1) Hr Ht1 Hp1) as [G2 C2]; [|done|].
  { intros Hs. destruct C1 as [(_ & -> & _)|(_ & _ & _ & Hs' & _)]; [by apply Hplain|congruence]. }
  split; [by eapply grows_trans|]. destruct C2 as [(-> & -> & Hu & Hs)|(-> & Hp2 & Hs2)].
  - left. split_and!; [done..|]. apply Hn. destruct C1 as [(_ & -> & _)|(_ & ? & _)]; auto.
  - right. destruct (g_mono _ _ _ G2 l4 1%nat va l3 Hr Ht1) as [Ht2 _]. split_and!; [done..| |].
    + apply (table_of_entry _ R l4 1 va l3 (g_forest _ _ _ G2) Hr Ht2); [lia|done|done].
    + intros Habs. destruct C1 as [(_ & -> & ?)|(_ & _ & _ & _ & _ & (n & Hn2 & _) & Hperm)]; [congruence|].
      destruct (g_mono _ _ _ G2 l4 2%nat va n Hr Hn2) as [_ ->]. rewrite Hperm.
      by destruct (perms (tabs s) 1 l4 va) as [[rw us] nx].
Qed.

Lemma reach_l2_ok s R l4 va s' rc l3 :
  forest (tabs s) R → pool_ok s R → l4 ∈ R → plain_path (tabs s) l4 va → reach_l2 pool s l4 va = (s', rc, l3) →
  grows s s' R ∧
  ((rc ≠ 0 ∧ (rc = -1 ∨ rc = -2) ∧ 128 ≤ used s' ∧ table_at (tabs s) 2 l4 va = None) ∨
   (rc = 0 ∧
      table_at (tabs s') 2 l4 va = Some (get s' (slot l3 3 va) &u ~u 0xFFF) ∧
      (table_at (tabs s) 2 l4 va = None → walk (tabs s) l4 va = None → (perms (tabs s') 2 l4 va).1.2 = false))).
Proof.
  intros F P Hr Hplain. unfold reach_l2. destruct (ensure_table pool s _ _) as [s1 rc1] eqn:E1.
  destruct (reach_l3_ok s R l4 va s1 rc1 F P Hr E1) as [G1 [(-> & Hu & Hn)|(-> & Ht1 & C1)]].
  { intros [= <- <- <-]. split; [done|]. left. split_and!; [done|by left|done|]. by apply (table_at_none _ 1); [lia|]. }
  change (nz 0) with false. cbn [andb]. set (l := get s1 (slot l4 4 va) &u ~u 0xFFF) in *. intros E2.
  assert (l3 = l ∧ (let '(s2, rc2) := ensure_table pool s1 (slot l 3 va) (-2) in
     if nz rc2 then (s2, rc2) else split_1g pool s2 (slot l 3 va)) = (s', rc)) as [-> E3].
  { destruct (ensure_table pool s1 _ _) as [s2 rc2]. destruct (nz rc2); [by simplify_eq|].
    destruct (split_1g pool s2 _) as [s3 rc3]. by simplify_eq. }
  destruct (reach_l2_from s1 R l4 va l s' rc (g_forest _ _ _ G1) (g_pool _ _ _ G1) Hr Ht1) as [G2 C2]; [|done|].
  { intros t Ht Hp Hs. destruct C1 as [(-> & ?)|(_ & Hz)]; [by apply Hplain|].
    rewrite Ht1 in Ht. injection Ht as <-. by rewrite Hz in Hp. }
  pose proof (grows_trans _ _ _ _ G1 G2) as G. split; [done|].
  destruct C2 as [(-> & Hu & Hn)|(-> & Ht1' & Ht2 & Hus)].
  - left. split_and!; [done|by right|done|].
    destruct C1 as [(-> & _)|(Hn1 & _)]; [done|]. by apply (table_at_none _ 1); [lia|].
  - right. split_and!; [done|done|].
    intros Hn Hw. apply Hus. destruct (has (get s1 (slot l 3 va)) PG_PRESENT) eqn:Hp; [exfalso|done].
    destruct C1 as [(-> & _)|(_ & Hz)]; [|unfold get in Hp; by rewrite Hz in Hp].
    destruct (has (get s (slot l 3 va)) PG_PS_2M) eqn:Hs.
    + rewrite (walk_perms _ _ _ _ _ Ht1) in Hw. destruct (perms (tabs s) 1 l4 va) as [[rw us] nx].
        change (4 - 1)%nat with 3%nat in Hw. cbn [walk_from leaf] in Hw. unfold get in Hp, Hs. by rewrite Hp, Hs in Hw.
    + by rewrite (table_of_entry _ R l4 1 va l F Hr Ht1) in Hn by (lia || done).
Qed.

(** * The level-2 entry *)

(** What a change confined to the 2 MiB page of [va] leaves in place. *)
Record confined (s s' : paging) (R : list Z) (va : Z) : Prop := {
  c_forest : forest (tabs s') R;
  c_pool : pool_ok s' R;
  c_walk : ∀ r va', r ∈ R → pfx 3 va' ≠ pfx 3 va → walk (tabs s') r va' = walk (tabs s) r va';
  c_1g : ∀ r va t, r ∈ R → table_at (tabs s') 1 r va = Some t →
    has (rd (tabs s') (slot t 3 va)) PG_PRESENT = true → has (rd (tabs s') (slot t 3 va)) PG_PS_2M = true →
    table_at (tabs s) 1 r va = Some t ∧ rd (tabs s') (slot t 3 va) = rd (tabs s) (slot t 3 va);
  c_perms : ∀ r va' t, r ∈ R → table_at (tabs s) 2 r va' = Some t →
    table_at (tabs s') 2 r va' = Some t ∧ perms (tabs s') 2 r va' = perms (tabs s) 2 r va'
}.

Lemma grows_confined s s1 s' R va : grows s s1 R → confined s1 s' R va → confined s s' R va.
Proof.
  intros G [C1 C2 C3 C5 C4]. split; [done..| | |].
  - intros r va' Hr Hne. rewrite C3 by done. by apply (g_walk _ _ _ G).
  - intros r va' t Hr Ht Hp Hs. destruct (C5 r va' t Hr Ht Hp Hs) as [H1 H2]. rewrite H2 in *.
    by apply (g_1g _ _ _ G).
  - intros r va' t Hr Ht. destruct (g_mono _ _ _ G r 2%nat va' t Hr Ht) as [H1 H2].
    destruct (C4 r va' t Hr H1) as [H3 H4]. split; [done|congruence].
Qed.

Lemma set_leaf_ok s R l4 va l2 pa flags :
  forest (tabs s) R → pool_ok s R → l4 ∈ R → table_at (tabs s) 2 l4 va = Some l2 → 0 ≤ pa < 2 ^ 52 →
  let s' := invlpg (put s (slot l2 2 va) (leaf_2m pa flags)) va in
  confined s s' R va ∧ mapped (tabs s') l4 va pa flags ∧
  (∀ r va' t, r ∈ R → table_at (tabs s') 3 r va' = Some t → table_at (tabs s) 3 r va' = Some t) ∧
  (∀ r, r ∈ R → mapped (tabs s') r va pa flags ∨
     ∀ va', pfx 3 va' = pfx 3 va → walk (tabs s') r va' = walk (tabs s) r va').
Proof.
  intros F P Hr Ht Hpa s'. destruct (leaf_2m_range pa flags Hpa) as [He _].
  assert (is_u64 (leaf_2m pa flags)) as Hv by lia.
  assert (has (leaf_2m pa flags) PG_PRESENT = true → leaf (4 - 2) (leaf_2m pa flags) = true) as Hl.
  { intros _. cbn [leaf Nat.sub]. bits. by rewrite leaf_2m_bit by lia. }
  assert (∀ r va', r ∈ R → table_at (tabs s') 2 r va' = table_at (tabs s) 2 r va' ∧
    perms (tabs s') 2 r va' = perms (tabs s) 2 r va') as Hkeep.
  { intros r va' Hr'. split; [apply (store_table _ _ _ _ _ _ _ F Hr Ht); auto|apply (store_perms _ _ _ _ _ _ _ F Hr Ht); auto]. }
  assert (∀ r, r ∈ R → table_at (tabs s) 2 r va = Some l2 → mapped (tabs s') r va pa flags) as Hm.
  { intros r Hr' Ht'. apply (leaf_mapped _ _ _ l2); [done|by rewrite (proj1 (Hkeep r va Hr'))|].
    unfold s', put; cbn [invlpg set_tabs tabs]. by rewrite word_wr_eq, u64_small. }
  split_and!; [split| | |].
  - apply (leaf_forest _ _ _ _ _ _ _ F Hr Ht Hv Hl).
  - destruct P as [P1 P2 P3 P4]. split; [done..|]. intros i Hi. apply (leaf_fresh _ _ _ _ _ _ _ F Hr Ht Hv Hl). by apply P4.
  - intros r va' Hr' Hne. by apply (store_walk _ _ _ _ _ _ _ F Hr Ht).
  - intros r va' t Hr' Ht' _ _. assert (table_at (tabs s) 1 r va' = Some t) as E.
    { rewrite <- Ht'. symmetry. apply (store_table _ _ _ _ _ _ _ F Hr Ht); auto. }
    split; [done|]. apply (store_entry _ _ _ _ _ _ _ F Hr Ht r 1%nat va' t Hr' E). by intros [? _].
  - intros r va' t Hr' Ht'. destruct (Hkeep r va' Hr') as [-> ->]. done.
  - by apply Hm.
  - intros r va' t Hr' Ht'. by apply (leaf_table _ _ _ _ _ _ _ F Hr Ht Hv Hl).
  - intros r Hr'. destruct (decide (table_at (tabs s) 2 r va = Some l2)); [left; by apply Hm|right].
    intros va' Hv'. apply (store_walk_other _ _ _ _ _ _ _ F Hr Ht); [done|].
    rewrite (table_at_pfx _ 2 r va' va); [done|lia|]. apply (pfx_le 2 3); [lia|done].
Qed.

Lemma or_flags e f :
  is_u64 e → e < 2 ^ 52 → has e PG_PRESENT = true → has e PG_PS_2M = false →
  let v := Z.lor e (f &u Z.lor PG_US PG_RW) in
  has v PG_PRESENT = true ∧ has v PG_PS_2M = false ∧ v &u PG_ADDR_MASK = e &u PG_ADDR_MASK ∧ 0 ≤ v < 2 ^ 52.
Proof.
  intros He He' Hp Hs v. pose proof (land_lt f (Z.lor PG_US PG_RW) 3 ltac:(lia) ltac:(done)).
  bits. unfold v. rewrite !Z.lor_spec, !Z.land_spec, Hp, Hs. split; [done|]. split; [by rewrite andb_false_r|]. split.
  - rewrite Z.land_lor_distr_l, <- Z.land_assoc. change (_ &u PG_ADDR_MASK) with 0 at 2.
    by rewrite Z.land_0_r, Z.lor_0_r.
  - apply lor_lt; lia.
Qed.

Lemma mask_bit k : 0 ≤ k → Z.testbit PG_ADDR_MASK k = (12 <=? k) && (k <? 52).
Proof.
  intros Hk. change PG_ADDR_MASK with (Z.ldiff (Z.ones 52) (Z.ones 12)).
  rewrite Z.ldiff_spec, !Z.testbit_ones_nonneg by lia. repeat zcase; done || lia.
Qed.
Lemma small_bit a n k : 0 ≤ n → 0 ≤ a < 2 ^ n → n ≤ k → Z.testbit a k = false.
Proof. intros Hn Ha Hk. rewrite <- (Z.mod_small a (2 ^ n)) by done. by apply Z.mod_pow2_bits_high. Qed.

Lemma refresh_range add e : is_u64 e → 0 ≤ add < 2 ^ 12 → is_u64 (refresh_pte add e).
Proof.
  intros He Ha. assert (0 ≤ ~u PG_NX < 2 ^ 64) by done. unfold refresh_pte.
  destruct (has e PG_PRESENT), (has e PG_SOFT_COW); cbn [negb]; try done; apply land_lt; lia.
Qed.
Lemma refresh_bit flags e k :
  has e PG_PRESENT = true → 0 ≤ k < 63 →
  Z.testbit (refresh_pte (refresh_flags flags) e) k =
  Z.testbit e k || (Z.testbit flags k && Z.testbit (if has e PG_SOFT_COW then 0x11C else 0x11E) k).
Proof.
  intros Hp Hk. unfold refresh_pte, refresh_flags. rewrite Hp. cbn [negb].
  change (Z.lor _ PG_RW) with 0x11E. change (~u PG_NX) with (Z.ones 63).
  assert (Z.testbit (Z.ones 63) k = true) as H63 by (rewrite Z.testbit_ones_nonneg by lia; apply Z.ltb_lt; lia).
  destruct (has e PG_SOFT_COW).
  - rewrite <- Z.land_assoc. change (0x11E &u ~u PG_RW) with 0x11C.
    by rewrite Z.land_spec, Z.lor_spec, Z.land_spec, H63, andb_true_r.
  - by rewrite Z.land_spec, Z.lor_spec, Z.land_spec, H63, andb_true_r.
Qed.

(** A refreshed level-1 entry keeps its frame and its copy-on-write protection. *)
Lemma refresh_pte_ok flags e :
  is_u64 e →
  let e' := u64 (refresh_pte (refresh_flags flags) e) in
  has e' PG_PRESENT = has e PG_PRESENT ∧ e' &u PG_ADDR_MASK = e &u PG_ADDR_MASK ∧
  (has e PG_SOFT_COW = true → has e' PG_RW = has e PG_RW) ∧
  (has e PG_PRESENT = true → has flags PG_US = true → has e' PG_US = true).
Proof.
  intros He e'. unfold e'. rewrite u64_small; [|apply refresh_range; [done|apply (land_lt _ _ 12); done]].
  destruct (has e PG_PRESENT) eqn:Hp; [|by unfold refresh_pte; rewrite Hp].
  pose proof (refresh_bit flags e) as B.
  split_and!.
  - unfold PG_PRESENT in *. rewrite has_bit in * by lia. rewrite B by (done || lia). by rewrite Hp.
  - apply Z.bits_inj'. intros k Hk. rewrite !Z.land_spec, mask_bit by done.
    destruct (Z.leb_spec 12 k), (Z.ltb_spec k 52); cbn [andb]; rewrite ?andb_false_r; try done.
    rewrite B by (done || lia). rewrite (small_bit (if has e PG_SOFT_COW then 0x11C else 0x11E) 12 k); [|lia|destruct (has e PG_SOFT_COW); lia|lia].
    by rewrite andb_false_r, orb_false_r.
  - intros Hc. rewrite Hc in B. unfold PG_RW. rewrite !has_bit by lia. rewrite B by (done || lia).
    change (Z.testbit 0x11C 1) with false. by rewrite andb_false_r, orb_false_r.
  - intros _ Hu. unfold PG_US in *. rewrite has_bit in * by lia. rewrite B by (done || lia). rewrite Hu.
    destruct (has e PG_SOFT_COW); apply orb_true_r.
Qed.

Lemma refresh_ok s R l4 va l2 l1 flags :
  forest (tabs s) R → pool_ok s R → l4 ∈ R → table_at (tabs s) 2 l4 va = Some l2 → table_at (tabs s) 3 l4 va = Some l1 →
  let s1 := set_tabs s (fill PT_ENTRIES 0 (tabs s) l1 (λ _ e, refresh_pte (refresh_flags flags) e)) in
  let s' := invlpg (put s1 (slot l2 2 va) (Z.lor (get s1 (slot l2 2 va)) (flags &u Z.lor PG_US PG_RW))) va in
  confined s s' R va ∧ table_at (tabs s') 3 l4 va = Some l1 ∧
  ∀ va', rd (tabs s') (slot l1 1 va') = u64 (refresh_pte (refresh_flags flags) (rd (tabs s) (slot l1 1 va'))).
Proof.
  intros F P Hr Ht Ht3 s1 s'.
  assert (∀ a, (∀ i, 0 ≤ i < 512 → a ≠ l1 + 8 * i) → rd (tabs s1) a = rd (tabs s) a) as Hout.
  { intros a Ha. apply rd_fill_out. intros j Hj. apply Ha. unfold PT_ENTRIES in Hj. lia. }
  pose proof (bottom_table _ _ _ _ _ _ F Hr Ht3 Hout) as BT.
  pose proof (bottom_forest _ _ _ _ _ _ F Hr Ht3 Hout) as F1.
  assert (table_at (tabs s1) 2 l4 va = Some l2) as Ht1 by (by rewrite (proj1 (BT l4 2%nat va Hr))).
  assert (table_at (tabs s1) 3 l4 va = Some l1) as Ht31 by (by rewrite (proj1 (BT l4 3%nat va Hr))).
  pose proof Ht31 as H. apply table_at_S in H as (u & Hu & Hp & Hl & _). rewrite Ht1 in Hu. injection Hu as <-.
  change (4 - 2)%nat with 2%nat in *. cbn [leaf] in Hl.
  pose proof (f_ptr _ _ F1 l4 2 va l2 Hr Ht1 Hp Hl) as Hlt. change (4 - 2)%nat with 2%nat in Hlt.
  destruct (or_flags (get s1 (slot l2 2 va)) flags) as (V1 & V2 & V3 & V4); [apply word_range|done..|].
  set (v := Z.lor _ _) in *. assert (is_u64 v) as Hv by lia.
  assert (∀ r d va', r ∈ R → table_at (tabs s') d r va' = table_at (tabs s1) d r va') as FT.
  { intros r d va' Hr'. by apply (flag_table _ _ _ _ _ _ _ F1 Hr Ht1 Hv Hp Hl V1 V2 V3). }
  split_and!; [split| |].
  - apply (flag_forest _ _ _ _ _ _ _ F1 Hr Ht1 Hv Hp Hl V1 V2 V3). apply V4.
  - destruct P as [P1 P2 P3 P4]. split; [done..|]. intros i Hi.
    apply (flag_fresh _ _ _ _ _ _ _ F1 Hr Ht1 Hv Hp Hl V1 V2 V3).
    apply (bottom_fresh _ _ _ _ _ _ F Hr Ht3 Hout). by apply P4.
  - intros r va' Hr' Hne. rewrite <- (bottom_walk _ _ _ _ _ _ F Hr Ht3 Hout r va' Hr' Hne).
    by apply (store_walk _ _ _ _ _ _ _ F1 Hr Ht1).
  - intros r va' t Hr' Ht' _ _. rewrite FT in Ht' by done. pose proof Ht' as Ht2.
    rewrite (proj1 (BT r 1%nat va' Hr')) in Ht2. split; [done|].
    transitivity (rd (tabs s1) (slot t 3 va'));
      [|by apply (bottom_entry _ _ _ _ _ _ F Hr Ht3 Hout r 1%nat va' t Hr' Ht2); left].
    apply (store_entry _ _ _ _ _ _ _ F1 Hr Ht1 r 1%nat va' t Hr' Ht'). by intros [? _].
  - intros r va' t Hr' Ht'. rewrite FT, (proj1 (BT r 2%nat va' Hr')) by done. split; [done|].
    pose proof (proj2 (BT r 2%nat va' Hr')) as Hq. change (2 `min` 3)%nat with 2%nat in Hq. rewrite <- Hq. by apply (store_perms _ _ _ _ _ _ _ F1 Hr Ht1).
  - by rewrite FT.
  - intros va'. unfold s', put; cbn [invlpg set_tabs tabs]. rewrite rd_wr_ne.
    + unfold s1; cbn [set_tabs tabs]. unfold slot. pose proof (idx_range 1 va').
      by rewrite rd_fill_in by (unfold PT_ENTRIES; lia).
    + intros E. apply slot_inj in E as [-> _];
        [|exact (f_aligned _ _ _ _ _ _ F1 Hr Ht31)|exact (f_aligned _ _ _ _ _ _ F1 Hr Ht1)].
      by destruct (f_inj _ _ F1 l4 l4 3 2 va va l2 Hr Hr Ht31 Ht1).
Qed.

Lemma grows_is_confined s s' R va : grows s s' R → confined s s' R va.
Proof.
  intros [G1 G2 G3 G4 G5 G6 G7]. split; [done..| | |].
  - intros r va' Hr _. by apply G3.
  - done.
  - intros r va' t Hr Ht. by apply G4.
Qed.
Lemma confined_trans s1 s2 s3 R va : confined s1 s2 R va → confined s2 s3 R va → confined s1 s3 R va.
Proof.
  intros [A1 A2 A3 A4 A5] [B1 B2 B3 B4 B5]. split; [done..| | |].
  - intros r va' Hr Hne. by rewrite B3, A3.
  - intros r va' t Hr Ht Hp Hs. destruct (B4 r va' t Hr Ht Hp Hs) as [H1 H2]. rewrite H2 in *. by apply A4.
  - intros r va' t Hr Ht. destruct (A5 r va' t Hr Ht) as [H1 H2].
    destruct (B5 r va' t Hr H1) as [H3 H4]. split; [done|congruence].
Qed.

(** Nothing has to be built when the level-2 table is there. *)
Lemma reach_l2_there s R l4 va t s' rc l3 :
  forest (tabs s) R → l4 ∈ R → table_at (tabs s) 2 l4 va = Some t →
  reach_l2 pool s l4 va = (s', rc, l3) → s' = s.
Proof.
  intros F Hr Ht. pose proof Ht as H. apply table_at_S in H as (u & Hu & H1 & H2 & _).
  pose proof Hu as H. apply table_at_S in H as (w & [= <-] & H3 & H4 & Eu).
  pose proof (f_ptr _ _ F l4 0 va l4 Hr eq_refl H3 H4). pose proof (word_range (tabs s) (slot l4 4 va)).
  change (4 - 0)%nat with 4%nat in *. change (4 - 1)%nat with 3%nat in *. cbn [leaf] in H2.
  unfold reach_l2, ensure_table. fold (get s (slot l4 4 va)) in *. rewrite H3. change (nz 0) with false. cbn iota.
  rewrite ptr_mask, <- Eu by lia. fold (get s (slot u 3 va)) in *. rewrite H1. change (nz 0) with false. cbn iota.
  unfold split_1g. rewrite H2. cbn [negb]. by intros [= <- _ _].
Qed.

Lemma map_page_2m_on_l4_ok s R l4 va pa flags s' rc :
  forest (tabs s) R → pool_ok s R → l4 ∈ R → l4 ≠ 0 → 0 ≤ pa < 2 ^ 52 → plain_path (tabs s) l4 va →
  map_page_2m_on_l4 pool s l4 va pa flags = (s', rc) →
  confined s s' R va ∧
  ((rc ≠ 0 ∧ (rc = -1 ∨ rc = -2) ∧ 128 ≤ used s' ∧ grows s s' R ∧ table_at (tabs s) 2 l4 va = None) ∨
   (rc = 0 ∧ flushed s' = va :: flushed s ∧ is_Some (table_at (tabs s') 2 l4 va) ∧
    (table_at (tabs s) 2 l4 va = None → walk (tabs s) l4 va = None → (perms (tabs s') 2 l4 va).1.2 = false) ∧
    (table_at (tabs s) 3 l4 va = None →
      mapped (tabs s') l4 va pa flags ∧
      (∀ r va' t, r ∈ R → table_at (tabs s') 3 r va' = Some t → table_at (tabs s) 3 r va' = Some t) ∧
      ∀ r, r ∈ R → mapped (tabs s') r va pa flags ∨
        ∀ va', pfx 3 va' = pfx 3 va → walk (tabs s') r va' = walk (tabs s) r va') ∧
    (∀ l1, table_at (tabs s) 3 l4 va = Some l1 →
      table_at (tabs s') 3 l4 va = Some l1 ∧
      ∀ va', rd (tabs s') (slot l1 1 va') = u64 (refresh_pte (refresh_flags flags) (rd (tabs s) (slot l1 1 va')))))).
Proof.
  intros F P Hr Hl4 Hpa Hplain. unfold map_page_2m_on_l4. destruct (Z.eqb_spec l4 0); [done|].
  destruct (reach_l2 pool s l4 va) as [[s1 rc1] l3] eqn:E1.
  destruct (reach_l2_ok s R l4 va s1 rc1 l3 F P Hr Hplain E1) as [G [(Hrc & Hrc' & Hu & Hn)|(-> & Ht2 & Hus)]].
  { rewrite (proj2 (nz_true rc1) Hrc). intros [<- <-]%pair_eq. split; [by apply grows_is_confined|]. left. auto. }
  change (nz 0) with false. cbn iota. set (l2 := get s1 (slot l3 3 va) &u ~u 0xFFF) in *.
  pose proof (g_forest _ _ _ G) as F1. pose proof (g_pool _ _ _ G) as P1.
  destruct (has (get s1 (slot l2 2 va)) PG_PRESENT && negb (has (get s1 (slot l2 2 va)) PG_PS_2M)) eqn:Hl1.
  - apply andb_true_iff in Hl1 as [Hp Hs%negb_true_iff].
    pose proof (table_of_entry _ R l4 2 va l2 F1 Hr Ht2 ltac:(lia) Hp Hs) as Ht3. change (4 - 2)%nat with 2%nat in Ht3.
    fold (get s1 (slot l2 2 va)) in Ht3. pose proof (g_l1 _ _ _ G l4 va _ Hr Ht3) as Ht3'.
    destruct (table_at_some (tabs s) 2 3 l4 va _ ltac:(lia) Ht3') as [t Ht].
    pose proof (reach_l2_there s R l4 va t s1 0 l3 F Hr Ht E1) as ->.
    destruct (refresh_ok s R l4 va l2 _ flags F P Hr Ht2 Ht3) as (C & H3 & Hrd).
    intros [<- <-]%pair_eq. split; [exact C|]. right. split; [reflexivity|]. split; [reflexivity|].
    split; [destruct (c_perms _ _ _ _ C l4 va l2 Hr Ht2) as [-> _]; eauto|]. split; [congruence|]. split; [congruence|].
    intros l1 Hl1. assert (l1 = get s (slot l2 2 va) &u ~u 0xFFF) as -> by congruence. exact (conj H3 Hrd).
  - destruct (set_leaf_ok s1 R l4 va l2 pa flags F1 P1 Hr Ht2 Hpa) as (C & Hm & Hsub & Hr').
    intros [<- <-]%pair_eq. split; [by eapply grows_confined|]. right. split; [done|].
    split; [by cbn; rewrite (g_flushed _ _ _ G)|]. destruct (c_perms _ _ _ _ C l4 va l2 Hr Ht2) as [H1 H2].
    split; [rewrite H1; eauto|]. split; [by rewrite H2|]. split; [intros Hn; split_and!; [done| |]|].
    + intros r va' t Hr1 Ht. by apply (g_l1 _ _ _ G), Hsub.
    + intros r Hr1. destruct (Hr' r Hr1) as [|H]; [by left|right].
      intros va' Hv. rewrite H by done. by apply (g_walk _ _ _ G).
    + intros l1 Ht3. exfalso. destruct (g_mono _ _ _ G l4 3%nat va l1 Hr Ht3) as [Ht _].
      apply table_at_S in Ht as (u & Hu & Hp & Hs & _). rewrite Ht2 in Hu. injection Hu as <-.
      unfold get in Hl1. change (4 - 2)%nat with 2%nat in *. cbn [leaf] in Hs. by rewrite Hp, Hs in Hl1.
Qed.

(** * map_page_2m and unmap_page_2m *)

Lemma confined_plain s s' R va r va' :
  confined s s' R va → r ∈ R → plain_path (tabs s) r va' → plain_path (tabs s') r va'.
Proof.
  intros C Hr H t Ht Hp Hs. destruct (c_1g _ _ _ _ C r va' t Hr Ht Hp Hs) as [Ht' E]. rewrite E in *. by apply H.
Qed.

Lemma mapped_keep s s' R va r pa flags :
  confined s s' R va → r ∈ R → is_Some (table_at (tabs s) 2 r va) →
  (∀ va', pfx 3 va' = pfx 3 va → walk (tabs s') r va' = walk (tabs s) r va') →
  mapped (tabs s) r va pa flags → mapped (tabs s') r va pa flags.
Proof.
  intros C Hr [t Ht] Hw Hm va' Hv. rewrite Hw, (Hm va' Hv) by done.
  by destruct (c_perms _ _ _ _ C r va t Hr Ht) as [_ ->].
Qed.


(** Mapping over a table of 4 KiB pages keeps it: each 4 KiB page still has its
    frame, pages that were not present stay so, and a page marked copy-on-write does not
    become writable. *)
Theorem map_page_2m_keeps_4k s R l4 va l1 pa flags s' rc :
  forest (tabs s) R → pool_ok s R → l4 ∈ R → l4 ≠ 0 → 0 ≤ pa < 2 ^ 52 → is_u64 flags →
  table_at (tabs s) 3 l4 va = Some l1 →
  map_page_2m_on_l4 pool s l4 va pa flags = (s', rc) →
  rc = 0 ∧ table_at (tabs s') 3 l4 va = Some l1 ∧
  (∀ r va', r ∈ R → pfx 3 va' ≠ pfx 3 va → walk (tabs s') r va' = walk (tabs s) r va') ∧
  ∀ va', pfx 3 va' = pfx 3 va →
    let e := rd (tabs s) (slot l1 1 va') in
    let e' := rd (tabs s') (slot l1 1 va') in
    has e' PG_PRESENT = has e PG_PRESENT ∧ e' &u PG_ADDR_MASK = e &u PG_ADDR_MASK ∧
    (has e PG_SOFT_COW = true → has e' PG_RW = has e PG_RW) ∧
    (has e PG_PRESENT = true → has flags PG_US = true → has e' PG_US = true).
Proof.
  intros F P Hr Hl4 Hpa Hf Ht3 E.
  destruct (table_at_some (tabs s) 2 3 l4 va l1 ltac:(lia) Ht3) as [l2 Ht2].
  destruct (map_page_2m_on_l4_ok s R l4 va pa flags s' rc F P Hr Hl4 Hpa) as [C D]; [|done|].
  { intros t Ht Hp Hs. pose proof Ht2 as H. apply table_at_S in H as (u & Hu & _ & Hs' & _).
    rewrite Ht in Hu. injection Hu as <-. change (4 - 1)%nat with 3%nat in Hs'. cbn [leaf] in Hs'. congruence. }
  destruct D as [(_ & _ & _ & _ & ?)|(-> & _ & _ & _ & _ & D)]; [congruence|]. destruct (D l1 Ht3) as [Ht3' Hrd].
  split_and!; [done|done|by intros; apply (c_walk _ _ _ _ C)|]. intros va' Hv e e'.
  unfold e'. rewrite Hrd. apply refresh_pte_ok, word_range.
Qed.

(** Unmapping one 2 MiB page in one tree: it succeeds exactly when a level-2 table
    covers the address, then nothing of the page translates any more and every other
    address of every tree translates as before; otherwise nothing changes.  Only the
    translation of [va] itself is flushed. *)
Theorem unmap_page_2m_on_l4_correct s R l4 va s' rc :
  forest (tabs s) R → pool_ok s R → l4 ∈ R → l4 ≠ 0 →
  unmap_page_2m_on_l4 s l4 va = (s', rc) →
  (rc = 0 ↔ is_Some (table_at (tabs s) 2 l4 va)) ∧ (rc ≠ 0 → rc = -1 ∧ s' = s) ∧
  forest (tabs s') R ∧ pool_ok s' R ∧
  (∀ r va', r ∈ R → pfx 3 va' ≠ pfx 3 va → walk (tabs s') r va' = walk (tabs s) r va') ∧
  (rc = 0 → flushed s' = va :: flushed s ∧ ∀ va', pfx 3 va' = pfx 3 va → walk (tabs s') l4 va' = None).
Proof.
  intros F P Hr Hl4. unfold unmap_page_2m_on_l4. destruct (Z.eqb_spec l4 0); [done|].
  assert (table_at (tabs s) 2 l4 va = None → (s, -1) = (s', rc) →
    (rc = 0 ↔ is_Some (table_at (tabs s) 2 l4 va)) ∧ (rc ≠ 0 → rc = -1 ∧ s' = s) ∧ forest (tabs s') R ∧ pool_ok s' R ∧
    (∀ r va', r ∈ R → pfx 3 va' ≠ pfx 3 va → walk (tabs s') r va' = walk (tabs s) r va') ∧
    (rc = 0 → flushed s' = va :: flushed s ∧ ∀ va', pfx 3 va' = pfx 3 va → walk (tabs s') l4 va' = None)) as Hfail.
  { intros Hn [<- <-]%pair_eq. rewrite Hn. split; [split; [done|by intros []]|]. done. }
  destruct (has (get s (slot l4 4 va)) PG_PRESENT) eqn:Hp4; cbn [negb].
  2: { apply Hfail. apply (table_at_none _ 1); [lia|]. apply eq_None_not_Some.
       intros [t (u & [= <-] & H & _)%table_at_S]. unfold get in Hp4. change (4 - 0)%nat with 4%nat in H. congruence. }
  pose proof (table_of_entry _ R l4 0 va l4 F Hr eq_refl ltac:(lia) Hp4 eq_refl) as Ht1.
  change (4 - 0)%nat with 4%nat in Ht1. fold (get s (slot l4 4 va)) in Ht1.
  set (l3 := get s (slot l4 4 va) &u ~u 0xFFF) in *.
  destruct (has (get s (slot l3 3 va)) PG_PRESENT) eqn:Hp3; cbn [negb].
  2: { apply Hfail. apply eq_None_not_Some. intros [t (u & Hu & H & _)%table_at_S]. rewrite Ht1 in Hu. injection Hu as <-.
       unfold get in Hp3. change (4 - 1)%nat with 3%nat in H. congruence. }
  destruct (has (get s (slot l3 3 va)) PG_PS_2M) eqn:Hs3.
  { apply Hfail. apply eq_None_not_Some. intros [t (u & Hu & _ & H & _)%table_at_S]. rewrite Ht1 in Hu. injection Hu as <-.
    unfold get in Hs3. change (4 - 1)%nat with 3%nat in H. cbn [leaf] in H. congruence. }
  pose proof (table_of_entry _ R l4 1 va l3 F Hr Ht1 ltac:(lia) Hp3 Hs3) as Ht2.
  change (4 - 1)%nat with 3%nat in Ht2. fold (get s (slot l3 3 va)) in Ht2.
  set (l2 := get s (slot l3 3 va) &u ~u 0xFFF) in *.
  assert (has 0 PG_PRESENT = true → leaf (4 - 2) 0 = true) as Hl by done. assert (is_u64 0) as H0 by done.
  intros [<- <-]%pair_eq. split; [by rewrite Ht2; eauto|]. split; [done|]. split_and!.
  - apply (leaf_forest _ _ _ _ _ _ _ F Hr Ht2 H0 Hl).
  - destruct P as [P1 P2 P3 P4]. split; [done..|]. intros i Hi. apply (leaf_fresh _ _ _ _ _ _ _ F Hr Ht2 H0 Hl). by apply P4.
  - intros r va' Hr' Hne. by apply (store_walk _ _ _ _ _ _ _ F Hr Ht2).
  - intros _. split; [done|]. intros va' Hv. pose proof (pfx_le 2 3 va' va ltac:(lia) Hv) as Hv2.
    assert (table_at (wr (tabs s) (slot l2 2 va) 0) 2 l4 va' = Some l2) as Ht2'.
    { rewrite (store_table _ _ _ _ _ _ _ F Hr Ht2 l4 2%nat va' Hr) by auto.
      by rewrite (table_at_pfx _ 2 l4 va' va) by (done || lia). }
    cbn [invlpg put set_tabs tabs]. rewrite (walk_perms _ _ _ _ _ Ht2').
    destruct (perms _ 2 l4 va') as [[rw us] nx]. pose proof (store_hit _ _ _ _ _ _ Ht2 H0 va' Hv) as Hz.
    change (4 - 2)%nat with 2%nat in *. cbn [walk_from]. by rewrite Hz.
Qed.

End props.

(** * Concrete trees *)

(** Root at 0x1000, level-3 table at 0x2000, pool at 0x100000; the first GiB is one
    writable 1 GiB leaf, with or without NX. *)
Definition boot_words (nx : Z) : words := wr (wr ∅ 0x1000 0x2003) 0x2000 (Z.lor 0x83 nx).
Definition boot_state (nx : Z) : paging := MkPaging (boot_words nx) 0 [].
Definition remap (nx : Z) : paging * Z := map_page_2m_on_l4 0x100000 (boot_state nx) 0x1000 0x400000 0xFD000000 0.

(** In the second GiB a level-2 table at 0x3000 and a table of 4 KiB pages at 0x4000,
    with a writable page and a copy-on-write page. *)
Definition demo_words : words :=
  wr (wr (wr (wr (boot_words 0) 0x2008 0x3003) 0x3000 0x4007) 0x4000 0x7003) 0x4008 0x8405.
Definition demo_state : paging := MkPaging demo_words 0 [].

Lemma demo_rd a :
  rd demo_words a = if a =? 0x4008 then 0x8405 else if a =? 0x4000 then 0x7003 else if a =? 0x3000 then 0x4007
    else if a =? 0x2008 then 0x3003 else if a =? 0x2000 then 0x83 else if a =? 0x1000 then 0x2003 else 0.
Proof. unfold demo_words, boot_words. by rewrite !rd_wr. Qed.

Lemma demo_tables d va t :
  table_at demo_words d 0x1000 va = Some t →
  (d = 0%nat ∧ t = 0x1000) ∨ (d = 1%nat ∧ t = 0x2000 ∧ idx 4 va = 0) ∨
  (d = 2%nat ∧ t = 0x3000 ∧ idx 4 va = 0 ∧ idx 3 va = 1) ∨
  (d = 3%nat ∧ t = 0x4000 ∧ idx 4 va = 0 ∧ idx 3 va = 1 ∧ idx 2 va = 0).
Proof.
  revert t. induction d as [|d IH]; intros t; [intros [= <-]; by left|].
  intros (u & Hu & Hp & Hl & ->)%table_at_S. apply IH in Hu. clear IH.
  assert (∀ k, rd demo_words (slot u k va) = 0 → has (rd demo_words (slot u k va)) PG_PRESENT = true → False) as Z.
  { intros k -> H. done. }
  destruct Hu as [(-> & ->)|[(-> & -> & H4)|[(-> & -> & H4 & H3)|(-> & -> & _)]]]; [| | |by cbn in Hl].
  - right; left. change (4 - 0)%nat with 4%nat in *. pose proof (idx_range 4 va).
    unfold slot in *. rewrite demo_rd in *. repeat (zcase_in Hp; [lia|]). zcase_in Hp; [|done].
    assert (idx 4 va = 0) as E by lia. by rewrite E.
  - right; right; left. change (4 - 1)%nat with 3%nat in *. pose proof (idx_range 3 va).
    unfold slot in *. rewrite demo_rd in *. do 3 (zcase_in Hp; [lia|]).
    zcase_in Hp; [assert (idx 3 va = 1) as E by lia; by rewrite E|].
    destruct (Z.eqb_spec (0x2000 + 8 * idx 3 va) 0x2000) as [E|]; [done|]. zcase_in Hp; [lia|done].
  - right; right; right. change (4 - 2)%nat with 2%nat in *. pose proof (idx_range 2 va).
    unfold slot in *. rewrite demo_rd in *. do 2 (zcase_in Hp; [lia|]).
    zcase_in Hp; [assert (idx 2 va = 0) as E by lia; by rewrite E|].
    repeat (zcase_in Hp; [lia|]). done.
Qed.

Lemma demo_forest : forest demo_words [0x1000].
Proof.
  split.
  - by intros r ->%list_elem_of_singleton.
  - intros r r' d d' va va' t ->%list_elem_of_singleton ->%list_elem_of_singleton H1%demo_tables H2%demo_tables.
    destruct H1 as [(-> & ->)|[(-> & -> & A4)|[(-> & -> & A4 & A3)|(-> & -> & A4 & A3 & A2)]]];
      destruct H2 as [(-> & E)|[(-> & E & B4)|[(-> & E & B4 & B3)|(-> & E & B4 & B3 & B2)]]]; try discriminate E;
      (split; [done|]); rewrite ?(pfx_S 2), ?(pfx_S 1), ?(pfx_S 0) by lia; pose proof (pfx_0 va va');
      change (4 - 0)%nat with 4%nat; change (4 - 1)%nat with 3%nat; change (4 - 2)%nat with 2%nat; lia.
  - intros r d va t ->%list_elem_of_singleton H%demo_tables Hp Hl. rewrite demo_rd. repeat zcase; lia.
Qed.

Lemma demo_pool : pool_ok 0x100000 demo_state [0x1000].
Proof.
  split; [done|lia|done|]. cbn. intros i Hi. split.
  - rewrite (Z.mul_comm 4096), Z.mod_add by lia. done.
  - intros r d va ->%list_elem_of_singleton H%demo_tables. lia.
Qed.

(** The copy-on-write page at 0x40001000 stays read-only when its 2 MiB page is mapped. *)
Lemma map_page_2m_keeps_4k_witness :
  let s' := (map_page_2m_on_l4 0x100000 demo_state 0x1000 0x40000000 0x40000000 (Z.lor PG_RW PG_US)).1 in
  table_at (tabs s') 3 0x1000 0x40000000 = Some 0x4000 ∧
  has (rd (tabs s') (slot 0x4000 1 0x40001000)) PG_RW = has (rd demo_words (slot 0x4000 1 0x40001000)) PG_RW.
Proof.
  intros s'. edestruct (map_page_2m_keeps_4k 0x100000 demo_state [0x1000] 0x1000 0x40000000 0x4000 0x40000000
    (Z.lor PG_RW PG_US)) as (_ & Ht & _ & H);
    [exact demo_forest|exact demo_pool|by apply list_elem_of_singleton|done|lia|done|reflexivity|apply surjective_pairing|].
  split; [exact Ht|]. destruct (H 0x40001000) as (_ & _ & Hc & _); [reflexivity|]. apply Hc. reflexivity.
Defined.

Lemma unmap_page_2m_on_l4_correct_witness :
  let s' := (unmap_page_2m_on_l4 demo_state 0x1000 0x40000000).1 in
  walk demo_words 0x1000 0x40000123 ≠ None ∧ walk (tabs s') 0x1000 0x40000123 = None ∧
  walk (tabs s') 0x1000 0x123 = walk demo_words 0x1000 0x123.
Proof.
  intros s'. edestruct (unmap_page_2m_on_l4_correct 0x100000 demo_state [0x1000] 0x1000 0x40000000)
    as (_ & _ & _ & _ & Hw & Hn);
    [exact demo_forest|exact demo_pool|by apply list_elem_of_singleton|done|apply surjective_pairing|].
  split; [done|]. split; [by apply Hn|]. by apply Hw; [apply list_elem_of_singleton|].
Defined.

(** The split keeps the NX bit of a 1 GiB leaf in the pointer to the new table, and the
    walk masks only the low 12 bits of that pointer: remapping 0x400000 reports success,
    but the leaf is stored at a word address with bit 63 set and the page keeps its old
    translation.  Without NX the same call remaps the page. *)
Theorem split_of_nx_leaf_goes_astray :
  (remap PG_NX).2 = 0 ∧
  option_map t_pa (walk (tabs (remap PG_NX).1) 0x1000 0x400000) = Some 0x400000 ∧
  get (remap PG_NX).1 (2 ^ 63 + slot 0x100000 2 0x400000) = leaf_2m 0xFD000000 0 ∧
  (remap 0).2 = 0 ∧
  option_map t_pa (walk (tabs (remap 0).1) 0x1000 0x400000) = Some 0xFD000000.
Proof. split_and!; vm_compute; reflexivity. Qed.
