(* ===== verification/Mm.v ===== *)
(** User address spaces ([core/mm.c]): the page-table pages an address space owns,
    private copies of shared tables, the splits of huge leaves, the mapping of one
    4 KiB user page, and the software walks that resolve a user address.

    Table pages come from [kmalloc]; the next answers of [kmalloc] (0 for a failure) to
    requests for a table page and for a list node are two lists of the state, and what
    the heap promises about them is a hypothesis of the theorems.  [frame_release] is logged.  The switch to the kernel's own tables
    around an operation ([mm_enter_direct_map]) makes every physical address of a table
    usable as a pointer, which is how the words of memory are addressed here. *)
From S2P Require Import Prelude PageTable.
Import PageTable.

Module Mm.

Definition MMIO_IDENTITY_LIMIT : Z := 0x100000000.

Record mm_t := MkMm { pml4 : Z; allocs : list Z }.
Record kern := MkKern { mw : words; pages : list Z; nodes : list Z; released : list Z }.
Definition set_mw (k : kern) (m : words) : kern := MkKern m (pages k) (nodes k) (released k).
Definition get (k : kern) (a : Z) : Z := rd (mw k) a.
Definition put (k : kern) (a v : Z) : kern := set_mw k (wr (mw k) a v).

(** * Page-table pages *)

Definition kmalloc_page (k : kern) : kern * Z :=
  match pages k with
  | [] => (k, 0)
  | p :: l => (MkKern (mw k) l (nodes k) (released k), p)
  end.
Definition kmalloc_node (k : kern) : kern * Z :=
  match nodes k with
  | [] => (k, 0)
  | p :: l => (MkKern (mw k) (pages k) l (released k), p)
  end.

(** [kmalloc_aligned]: the first page boundary in the block. *)
Definition aligned (raw : Z) : Z := (raw +u PAGE_SIZE_4K -u 1) &u ~u (PAGE_SIZE_4K - 1).

(** [mm_track_raw] records the block in a node of its own; without a node the block
    goes back to the heap. *)
Definition alloc_pt_page (k : kern) (mm : mm_t) : kern * mm_t * Z :=
  let '(k, raw) := kmalloc_page k in
  if raw =? 0 then (k, mm, 0)
  else
    let '(k, node) := kmalloc_node k in
    if node =? 0 then (k, mm, 0)
    else
      let p := aligned raw in
      (set_mw k (fill PT_ENTRIES 0 (mw k) p (λ _ _, 0)), MkMm (pml4 mm) (raw :: allocs mm), p).

Definition dup_pt_page (k : kern) (mm : mm_t) (src : Z) : kern * mm_t * Z :=
  if (src =? 0) || (MMIO_IDENTITY_LIMIT <=? src) then (k, mm, 0)
  else
    let '(k, mm, dst) := alloc_pt_page k mm in
    if dst =? 0 then (k, mm, 0)
    else (set_mw k (fill PT_ENTRIES 0 (mw k) dst (λ i _, rd (mw k) (src + 8 * i))), mm, dst).

Definition pt_page_pa_ok (ent : Z) : bool :=
  if negb (has ent PG_PRESENT) then true else (ent &u PG_ADDR_MASK) <? MMIO_IDENTITY_LIMIT.

Definition mm_owns_pt_page (mm : mm_t) (pt : Z) : bool :=
  if pt =? 0 then false else existsb (λ raw, nz raw && (aligned raw =? pt)) (allocs mm).

Definition mm_pte_same_pt_page (ent other : Z) : bool :=
  has ent PG_PRESENT && has other PG_PRESENT && negb (has ent PG_PS_2M) && negb (has other PG_PS_2M) &&
  pt_page_pa_ok ent && pt_page_pa_ok other && ((ent &u PG_ADDR_MASK) =? (other &u PG_ADDR_MASK)).

(** * Splitting huge leaves; [e] is the address of the entry *)

Definition keep_2m : Z :=
  Z.lor (Z.lor (Z.lor (Z.lor (Z.lor (Z.lor (Z.lor PG_PRESENT PG_RW) PG_US) PG_PWT) PG_PCD) PG_GLOBAL) PG_SOFT_COW) PG_NX.
Definition keep_1g : Z :=
  Z.lor (Z.lor (Z.lor (Z.lor (Z.lor (Z.lor PG_PRESENT PG_RW) PG_US) PG_PWT) PG_PCD) PG_GLOBAL) PG_NX.

Definition leaf_4k (ent2 keep i : Z) : Z :=
  let pa := (ent2 &u PG_ADDR_MASK_2M) +u i *u PAGE_SIZE_4K in
  Z.lor (pa &u PG_ADDR_MASK) (keep &u ~u PG_PS_2M).

Definition split_2m_to_4k (k : kern) (mm : mm_t) (e va : Z) : kern * mm_t * Z :=
  let ent2 := get k e in
  if negb (has ent2 PG_PRESENT) || negb (has ent2 PG_PS_2M) then (k, mm, 0)
  else
    let keep := ent2 &u keep_2m in
    let keep := if (0x200000 <=? va) && (va <? MMIO_IDENTITY_LIMIT) then Z.lor keep PG_US else keep in
    let '(k, mm, l1) := alloc_pt_page k mm in
    if l1 =? 0 then (k, mm, -1)
    else
      let k := set_mw k (fill PT_ENTRIES 0 (mw k) l1 (λ i _, leaf_4k ent2 keep i)) in
      (put k e (Z.lor l1 (keep &u ~u PG_PS_2M)), mm, 0).

Definition leaf_2m_of (ent3 i : Z) : Z :=
  let pa := (ent3 &u PG_ADDR_MASK_1G) +u i *u PAGE_SIZE_2M in
  Z.lor (Z.lor (pa &u PG_ADDR_MASK_2M) (ent3 &u keep_1g)) PG_PS_2M.

Definition split_l3_1g_to_l2 (k : kern) (mm : mm_t) (e : Z) : kern * mm_t * Z :=
  let ent3 := get k e in
  if negb (has ent3 PG_PRESENT) || negb (has ent3 PG_PS_2M) then (k, mm, 0)
  else
    let keep := ent3 &u keep_1g in
    let '(k, mm, l2) := alloc_pt_page k mm in
    if l2 =? 0 then (k, mm, -1)
    else
      let k := set_mw k (fill PT_ENTRIES 0 (mw k) l2 (λ i _, leaf_2m_of ent3 i)) in
      (put k e (Z.lor l2 (keep &u ~u PG_PS_2M)), mm, 0).

(** * Mapping one user page *)

Definition PG_TABLE : Z := Z.lor (Z.lor PG_PRESENT PG_RW) PG_US.

(** The table below the entry [e], owned by this address space: a new one, a private
    copy of a shared one, or the one there; the last three arguments are the results
    for no memory, an address outside the identity map, and no memory for the copy. *)
Definition own_level (k : kern) (mm : mm_t) (e no_mem bad no_copy : Z) : kern * mm_t * Z * Z :=
  let ent := get k e in
  if negb (has ent PG_PRESENT) then
    let '(k, mm, t) := alloc_pt_page k mm in
    if t =? 0 then (k, mm, 0, no_mem)
    else (put k e (Z.lor t PG_TABLE), mm, t, 0)
  else if negb (pt_page_pa_ok ent) then (k, mm, 0, bad)
  else
    let t := ent &u PG_ADDR_MASK in
    if mm_owns_pt_page mm t then (put k e (Z.lor (get k e) PG_TABLE), mm, t, 0)
    else
      let '(k, mm, n) := dup_pt_page k mm t in
      if n =? 0 then (k, mm, 0, no_copy)
      else
        let k := put k e (Z.lor n (ent &u 0xfff)) in
        (put k e (Z.lor (get k e) PG_TABLE), mm, n, 0).

Definition huge (ent : Z) : bool := (ent &u Z.lor PG_PRESENT PG_PS_2M) =? Z.lor PG_PRESENT PG_PS_2M.

Definition user_leaf (pa flags : Z) : Z :=
  Z.lor (Z.lor (Z.lor (pa &u PG_ADDR_MASK) (flags &u ~u Z.lor PG_PS_2M PG_PRESENT)) PG_PRESENT) PG_US.

(** The level-3, level-2 and level-1 tables of [va], all owned. *)
Definition own_path (k : kern) (mm : mm_t) (va : Z) : kern * mm_t * Z * Z :=
  let '(k, mm, l3, rc) := own_level k mm (slot (pml4 mm) 4 va) (-3) (-4) (-5) in
  if nz rc then (k, mm, 0, rc)
  else
    let '(k, mm, rc) := if huge (get k (slot l3 3 va)) then split_l3_1g_to_l2 k mm (slot l3 3 va) else (k, mm, 0) in
    if nz rc then (k, mm, 0, -6)
    else
      let '(k, mm, l2, rc) := own_level k mm (slot l3 3 va) (-7) (-8) (-9) in
      if nz rc then (k, mm, 0, rc)
      else
        let '(k, mm, rc) := if huge (get k (slot l2 2 va)) then split_2m_to_4k k mm (slot l2 2 va) va else (k, mm, 0) in
        if nz rc then (k, mm, 0, -10)
        else own_level k mm (slot l2 2 va) (-11) (-12) (-13).

Definition mm_map_user_page_locked (k : kern) (mm : mm_t) (is_kernel : bool) (va pa flags : Z) : kern * mm_t * Z :=
  if (pml4 mm =? 0) || is_kernel then (k, mm, -1)
  else if MMIO_IDENTITY_LIMIT <=? va then (k, mm, -2)
  else if nz (pa &u ~u PG_ADDR_MASK) then (k, mm, -2)
  else if has flags PG_SOFT_OWNED && (MMIO_IDENTITY_LIMIT <=? pa) then (k, mm, -2)
  else
    let '(k, mm, l1, rc) := own_path k mm va in
    if nz rc then (k, mm, rc)
    else
      let old := get k (slot l1 1 va) in
      let k := put k (slot l1 1 va) (user_leaf pa flags) in
      if has old PG_SOFT_OWNED && negb ((old &u PG_ADDR_MASK) =? (pa &u PG_ADDR_MASK)) then
        (MkKern (mw k) (pages k) (nodes k) ((old &u PG_ADDR_MASK) :: released k), mm, 0)
      else (k, mm, 0).

(** * Software walks *)

(** The effective check of one entry: present and user-accessible, and writable for a
    write. *)
Definition user_ok (ent : Z) (write : bool) : bool :=
  ((ent &u Z.lor PG_PRESENT PG_US) =? Z.lor PG_PRESENT PG_US) && negb (write && negb (has ent PG_RW)).

Definition mm_user_leaf_pa_direct (m : words) (root va : Z) (write : bool) : option Z :=
  if (root =? 0) || (MMIO_IDENTITY_LIMIT <=? va) then None
  else
    let e4 := rd m (slot root 4 va) in
    if negb (user_ok e4 write) || negb (pt_page_pa_ok e4) then None
    else
      let e3 := rd m (slot (e4 &u ~u 0xFFF) 3 va) in
      if negb (user_ok e3 write) then None
      else if has e3 PG_PS_2M then Some ((e3 &u PG_ADDR_MASK_1G) +u (va &u 0x3FFFFFFF))
      else if negb (pt_page_pa_ok e3) then None
      else
        let e2 := rd m (slot (e3 &u ~u 0xFFF) 2 va) in
        if negb (user_ok e2 write) then None
        else if has e2 PG_PS_2M then Some ((e2 &u PG_ADDR_MASK_2M) +u (va &u (PAGE_SIZE_2M - 1)))
        else if negb (pt_page_pa_ok e2) then None
        else
          let e1 := rd m (slot (e2 &u ~u 0xFFF) 1 va) in
          if negb (user_ok e1 write) then None
          else Some ((e1 &u PG_ADDR_MASK) +u (va &u 0xFFF)).

(** The leaf entry, whatever its permissions. *)
Definition mm_va_leaf_entry_direct (m : words) (root va : Z) : option Z :=
  if (root =? 0) || (MMIO_IDENTITY_LIMIT <=? va) then None
  else
    let e4 := rd m (slot root 4 va) in
    if negb (has e4 PG_PRESENT) || has e4 PG_PS_2M || negb (pt_page_pa_ok e4) then None
    else
      let e3 := rd m (slot (e4 &u ~u 0xFFF) 3 va) in
      if negb (has e3 PG_PRESENT) then None
      else if has e3 PG_PS_2M then Some e3
      else if negb (pt_page_pa_ok e3) then None
      else
        let e2 := rd m (slot (e3 &u ~u 0xFFF) 2 va) in
        if negb (has e2 PG_PRESENT) then None
        else if has e2 PG_PS_2M then Some e2
        else if negb (pt_page_pa_ok e2) then None
        else
          let e1 := rd m (slot (e2 &u ~u 0xFFF) 1 va) in
          if negb (has e1 PG_PRESENT) then None else Some e1.

Definition mm_va_leaf_pa (m : words) (root va : Z) : option Z :=
  let va := va &u ~u 0xFFF in
  if (root =? 0) || (MMIO_IDENTITY_LIMIT <=? va) then None
  else
    let e4 := rd m (slot root 4 va) in
    if negb (has e4 PG_PRESENT) || has e4 PG_PS_2M || negb (pt_page_pa_ok e4) then None
    else
      let e3 := rd m (slot (e4 &u ~u 0xFFF) 3 va) in
      if negb (has e3 PG_PRESENT) || has e3 PG_PS_2M || negb (pt_page_pa_ok e3) then
        (if has e3 PG_PRESENT && has e3 PG_PS_2M then Some (Z.lor (e3 &u PG_ADDR_MASK_1G) (va &u 0x3FFFFF)) else None)
      else
        let e2 := rd m (slot (e3 &u ~u 0xFFF) 2 va) in
        if negb (has e2 PG_PRESENT) || negb (pt_page_pa_ok e2) then None
        else if has e2 PG_PS_2M then
          Some (Z.lor (e2 &u PG_ADDR_MASK_2M) (va &u (PAGE_SIZE_2M - 1)) &u ~u 0xFFF)
        else
          let e1 := rd m (slot (e2 &u ~u 0xFFF) 1 va) in
          if negb (has e1 PG_PRESENT) || negb (pt_page_pa_ok e1) then None else Some (e1 &u PG_ADDR_MASK).

(** Where [mm_user_memcpy_via_pa] reads the bytes of a user page from. *)
Definition read_user_pa (m : words) (root va : Z) : option Z :=
  match mm_user_leaf_pa_direct m root va false with
  | Some pa => Some pa
  | None =>
      match mm_va_leaf_entry_direct m root (va &u ~u 0xFFF) with
      | Some ent => if has ent PG_PRESENT then Some ((ent &u PG_ADDR_MASK) +u (va &u 0xFFF)) else None
      | None => None
      end
  end.

End Mm.
