(* ===== verification/MmProps.v ===== *)
(** What the operations of [core/mm.c] on one address space do: the software walks
    against the processor's walk, the isolation of other address spaces, and the
    mapping of one user page. *)
From S2P Require Import Prelude PageTable Paging PagingProps Mm.
Import PageTable Mm.
#[local] Opaque fill.

(** * Software walks *)

(** The pointers of the tree are plain addresses inside the identity map. *)
Definition low_tables (m : words) (root : Z) : Prop :=
  ∀ d va t, table_at m d root va = Some t →
    has (rd m (slot t (4 - d) va)) PG_PRESENT = true → leaf (4 - d) (rd m (slot t (4 - d) va)) = false →
    rd m (slot t (4 - d) va) < MMIO_IDENTITY_LIMIT.

Lemma user_ok_eq e w : user_ok e w = has e PG_PRESENT && has e PG_US && (negb w || has e PG_RW).
Proof.
  unfold user_ok. replace (negb (w && negb (has e PG_RW))) with (negb w || has e PG_RW) by (by destruct w, (has e PG_RW)).
  f_equal. unfold PG_PRESENT, PG_US. rewrite !has_bit by lia. rewrite Z.land_lor_distr_r.
  assert (∀ n, 0 ≤ n → e &u Z.shiftl 1 n = if Z.testbit e n then 2 ^ n else 0) as H.
  { intros n Hn. rewrite Z.shiftl_1_l. apply Z.bits_inj'. intros i Hi. rewrite Z.land_spec, Z.pow2_bits_eqb by done.
    destruct (Z.eqb_spec n i) as [->|].
    - rewrite andb_true_r. destruct (Z.testbit e i) eqn:E; [by rewrite Z.pow2_bits_true|by rewrite Z.bits_0].
    - rewrite andb_false_r. destruct (Z.testbit e n); [by rewrite Z.pow2_bits_false|by rewrite Z.bits_0]. }
  rewrite !H by lia. by destruct (Z.testbit e 0), (Z.testbit e 2).
Qed.

Lemma ptr_low m root d va t :
  low_tables m root → table_at m d root va = Some t →
  has (rd m (slot t (4 - d) va)) PG_PRESENT = true → leaf (4 - d) (rd m (slot t (4 - d) va)) = false →
  pt_page_pa_ok (rd m (slot t (4 - d) va)) = true ∧
  rd m (slot t (4 - d) va) &u ~u 0xFFF = rd m (slot t (4 - d) va) &u PG_ADDR_MASK ∧
  table_at m (S d) root va = Some (rd m (slot t (4 - d) va) &u PG_ADDR_MASK).
Proof.
  intros HL Ht Hp Hl. pose proof (HL d va t Ht Hp Hl) as H. pose proof (word_range m (slot t (4 - d) va)) as Hr.
  unfold MMIO_IDENTITY_LIMIT in H. set (e := rd m (slot t (4 - d) va)) in *. split_and!.
  - unfold pt_page_pa_ok. rewrite Hp. cbn [negb]. apply Z.ltb_lt. unfold MMIO_IDENTITY_LIMIT.
    rewrite addr_4k, Z.mod_small by lia. pose proof (Z.mod_pos_bound e (2 ^ 12)). lia.
  - apply ptr_mask. lia.
  - apply table_at_S. by exists t.
Qed.

(** A user-mode walk level by level. *)
Fixpoint user_walk (k : nat) (m : words) (t va : Z) (write : bool) : option Z :=
  match k with
  | O => None
  | S k' =>
      let e := rd m (slot t k va) in
      if negb (user_ok e write) then None
      else if leaf k e then Some ((e &u addr_mask k) + va `mod` 2 ^ shift k)
      else user_walk k' m (e &u PG_ADDR_MASK) va write
  end.

Definition user_view (write : bool) (w : option tr) : option Z :=
  match w with
  | Some tr => if t_us tr && (negb write || t_rw tr) then Some (t_pa tr) else None
  | None => None
  end.

Lemma user_walk_view k m t va write rw us nx :
  user_view write (walk_from k m t va rw us nx) =
  if us && (negb write || rw) then user_walk k m t va write else None.
Proof.
  revert t rw us nx. induction k as [|k IH]; intros t rw us nx; [by destruct (us && _)|]. cbn [walk_from user_walk].
  rewrite user_ok_eq. destruct (has _ PG_PRESENT); cbn [negb andb]; [|by destruct (us && _)].
  destruct (leaf _ _).
  - cbn [user_view leaf_tr t_us t_rw t_pa]. by destruct us, write, rw, (has _ PG_US), (has _ PG_RW).
  - rewrite IH. destruct us, write, rw, (has _ PG_US), (has _ PG_RW); done.
Qed.

Lemma mm_user_leaf_walk m root va write :
  low_tables m root → root ≠ 0 → 0 ≤ va < MMIO_IDENTITY_LIMIT →
  mm_user_leaf_pa_direct m root va write = user_view write (walk m root va).
Proof.
  intros HL Hroot Hva. unfold walk. rewrite user_walk_view. cbn [andb]. rewrite orb_true_r.
  unfold mm_user_leaf_pa_direct. destruct (Z.eqb_spec root 0); [done|].
  destruct (Z.leb_spec MMIO_IDENTITY_LIMIT va); [lia|]. cbn [orb].
  assert (∀ e k, (1 ≤ k ≤ 3)%nat → (e &u addr_mask k) +u va `mod` 2 ^ shift k = (e &u addr_mask k) + va `mod` 2 ^ shift k) as W.
  { intros e k Hk. apply u64_small. assert (0 ≤ va `mod` 2 ^ shift k < 2 ^ 32).
    { split; [apply Z.mod_pos_bound; unfold shift; lia|]. unfold MMIO_IDENTITY_LIMIT in *.
      pose proof (Z.mod_le va (2 ^ shift k) ltac:(lia) ltac:(unfold shift; lia)). lia. }
    rewrite addr_mask_eq by done. pose proof (Z.mod_pos_bound e (2 ^ 52)).
    assert (0 ≤ e `mod` 2 ^ shift k ≤ e `mod` 2 ^ 52); [|lia]. split; [apply Z.mod_pos_bound; unfold shift; lia|].
    rewrite <- (mod_mod_pow2 e (shift k) 52) by (unfold shift; lia). apply Z.mod_le; [lia|unfold shift; lia]. }
  assert (va &u 0x3FFFFFFF = va `mod` 2 ^ shift 3) as -> by (by apply (ones_land va 30)).
  assert (va &u (PAGE_SIZE_2M - 1) = va `mod` 2 ^ shift 2) as -> by (by apply (ones_land va 21)).
  assert (va &u 0xFFF = va `mod` 2 ^ shift 1) as -> by (by apply (ones_land va 12)).
  change PG_ADDR_MASK_1G with (addr_mask 3). change PG_ADDR_MASK_2M with (addr_mask 2).
  change (4 - 0)%nat with 4%nat in *. cbn [user_walk].
  pose proof (ptr_low m root 0 va root HL eq_refl) as P4. change (4 - 0)%nat with 4%nat in P4.
  set (e4 := rd m (slot root 4 va)) in *. cbn [leaf].
  destruct (user_ok e4 write) eqn:U4; cbn [negb orb]; [|done].
  rewrite user_ok_eq in U4. apply andb_true_iff in U4 as [[U4 _]%andb_true_iff _].
  destruct (P4 U4 eq_refl) as (-> & -> & T3). cbn [negb].
  pose proof (ptr_low m root 1 va _ HL T3) as P3. change (4 - 1)%nat with 3%nat in P3.
  set (e3 := rd m (slot (e4 &u PG_ADDR_MASK) 3 va)) in *.
  destruct (user_ok e3 write) eqn:U3; cbn [negb]; [|done].
  rewrite user_ok_eq in U3. apply andb_true_iff in U3 as [[U3 _]%andb_true_iff _]. cbn [leaf] in *.
  destruct (has e3 PG_PS_2M); [by rewrite W by lia|]. destruct (P3 U3 eq_refl) as (-> & -> & T2). cbn [negb].
  pose proof (ptr_low m root 2 va _ HL T2) as P2. change (4 - 2)%nat with 2%nat in P2.
  set (e2 := rd m (slot (e3 &u PG_ADDR_MASK) 2 va)) in *.
  destruct (user_ok e2 write) eqn:U2; cbn [negb]; [|done].
  rewrite user_ok_eq in U2. apply andb_true_iff in U2 as [[U2 _]%andb_true_iff _]. cbn [leaf] in *.
  destruct (has e2 PG_PS_2M); [by rewrite W by lia|]. destruct (P2 U2 eq_refl) as (-> & -> & _). cbn [negb].
  destruct (user_ok _ write); cbn [negb]; [|done]. by rewrite <- W by lia.
Qed.


(** The page of an address. *)
Lemma page_down va : 0 ≤ va < MMIO_IDENTITY_LIMIT → va &u ~u 0xFFF = va - va `mod` 2 ^ 12.
Proof. intros H. unfold MMIO_IDENTITY_LIMIT in H. change 0xFFF with (2 ^ 12 - 1). apply land_mask; lia. Qed.

Lemma idx_page k va :
  (1 ≤ k)%nat → idx k (va - va `mod` 2 ^ 12) = idx k va.
Proof.
  intros Hk. rewrite !idx_eq. f_equal. unfold shift.
  replace (3 + 9 * k) with (12 + (9 * k - 9)) by lia. rewrite Z.pow_add_r by lia.
  rewrite <- !Z.div_div by lia. f_equal. pose proof (Z.div_mod va (2 ^ 12) ltac:(lia)).
  replace (va - va `mod` 2 ^ 12) with (va `div` 2 ^ 12 * 2 ^ 12) by lia. by rewrite Z.div_mul by lia.
Qed.
Lemma slot_page t k va : (1 ≤ k)%nat → slot t k (va - va `mod` 2 ^ 12) = slot t k va.
Proof. intros. unfold slot. by rewrite idx_page. Qed.

Lemma page_offset va k : 12 ≤ k → (va - va `mod` 2 ^ 12) `mod` 2 ^ k = va `mod` 2 ^ k - va `mod` 2 ^ 12.
Proof.
  intros Hk. rewrite <- (mod_mod_pow2 va 12 k) by lia.
  pose proof (Z.mod_pos_bound va (2 ^ k) ltac:(lia)). pose proof (Z.mod_pos_bound (va `mod` 2 ^ k) (2 ^ 12) ltac:(lia)).
  pose proof (Z.mod_le (va `mod` 2 ^ k) (2 ^ 12) ltac:(lia) ltac:(lia)).
  rewrite <- Zminus_mod_idemp_l. apply Z.mod_small. lia.
Qed.

Lemma sub_page va k : 12 ≤ k → 0 ≤ va `mod` 2 ^ k - va `mod` 2 ^ 12 < 2 ^ k.
Proof.
  intros Hk. pose proof (Z.mod_pos_bound va (2 ^ k) ltac:(lia)). rewrite <- (mod_mod_pow2 va 12 k) by lia.
  pose proof (Z.mod_le (va `mod` 2 ^ k) (2 ^ 12) ltac:(lia) ltac:(lia)).
  pose proof (Z.mod_pos_bound (va `mod` 2 ^ k) (2 ^ 12) ltac:(lia)). lia.
Qed.
(** Rounding down inside [b] bits. *)
Lemma round_down e a b : 0 ≤ a ≤ b → e `mod` 2 ^ b - e `mod` 2 ^ a = 2 ^ a * ((e `mod` 2 ^ b) `div` 2 ^ a).
Proof.
  intros H. rewrite <- (mod_mod_pow2 e a b) by lia. pose proof (Z.div_mod (e `mod` 2 ^ b) (2 ^ a) ltac:(lia)). lia.
Qed.
Lemma base_sub e k : 0 ≤ k ≤ 52 → 0 ≤ e `mod` 2 ^ 52 - e `mod` 2 ^ k ∧ e `mod` 2 ^ 52 - e `mod` 2 ^ k + 2 ^ k ≤ 2 ^ 52.
Proof.
  intros Hk. rewrite round_down by lia. pose proof (Z.mod_pos_bound e (2 ^ 52) ltac:(lia)).
  assert (0 ≤ (e `mod` 2 ^ 52) `div` 2 ^ k < 2 ^ (52 - k)).
  { split; [apply Z.div_pos; lia|]. apply Z.div_lt_upper_bound; [lia|].
    rewrite <- Z.pow_add_r by lia. replace (k + (52 - k)) with 52 by lia. lia. }
  assert (2 ^ 52 = 2 ^ k * 2 ^ (52 - k)) by (rewrite <- Z.pow_add_r by lia; f_equal; lia).
  pose proof (Z.pow_pos_nonneg 2 k). split; [lia|]. set (q := (e `mod` 2 ^ 52) `div` 2 ^ k) in *.
  assert (2 ^ k * q + 2 ^ k * 1 ≤ 2 ^ k * 2 ^ (52 - k)); [|lia]. rewrite <- Z.mul_add_distr_l.
  apply Z.mul_le_mono_nonneg_l; lia.
Qed.
Lemma base_off_mod e va k :
  12 ≤ k ≤ 52 → (e `mod` 2 ^ 52 - e `mod` 2 ^ k + (va `mod` 2 ^ k - va `mod` 2 ^ 12)) `mod` 2 ^ 12 = 0.
Proof.
  intros Hk. rewrite (round_down e k 52), (round_down va 12 k) by lia.
  replace k with (12 + (k - 12)) at 1 by lia. rewrite Z.pow_add_r, <- Z.mul_assoc, <- Z.mul_add_distr_l by lia.
  rewrite Z.mul_comm. apply Z.mod_mul. lia.
Qed.

Lemma lor_base e off k :
  12 ≤ k ≤ 52 → 0 ≤ off < 2 ^ k →
  Z.lor (e `mod` 2 ^ 52 - e `mod` 2 ^ k) off = e `mod` 2 ^ 52 - e `mod` 2 ^ k + off.
Proof.
  intros Hk Ho. apply (lor_aligned _ _ k); [lia| |lia]. rewrite round_down, Z.mul_comm by lia. apply Z.mod_mul. lia.
Qed.

Lemma walk_leaf m d root va t :
  table_at m d root va = Some t → has (rd m (slot t (4 - d) va)) PG_PRESENT = true →
  leaf (4 - d) (rd m (slot t (4 - d) va)) = true →
  ∃ tr, walk m root va = Some tr ∧
    t_pa tr = (rd m (slot t (4 - d) va) &u addr_mask (4 - d)) + va `mod` 2 ^ shift (4 - d) ∧
    (has (rd m (slot t (4 - d) va)) PG_US = false → t_us tr = false).
Proof.
  intros Ht Hp Hl. rewrite (walk_perms _ _ _ _ _ Ht). destruct (perms m d root va) as [[rw us] nx].
  pose proof (table_at_le _ _ _ _ _ Ht). destruct (4 - d)%nat as [|k] eqn:Ek; [lia|].
  cbn [walk_from]. rewrite Hp, Hl. cbn [negb]. eexists. split; [done|]. split; [done|].
  cbn [leaf_tr t_us]. intros ->. apply andb_false_r.
Qed.

(** The bits of the offset in a 1 GiB page that [mm_va_leaf_pa] drops. *)
Definition lost_bits (va : Z) : Z := 2 ^ 22 * ((va `div` 2 ^ 22) `mod` 2 ^ 8).

Lemma lost_bits_eq va : va `mod` 2 ^ 30 = va `mod` 2 ^ 22 + lost_bits va.
Proof. unfold lost_bits. change (2 ^ 30) with (2 ^ 22 * 2 ^ 8). by rewrite Z.rem_mul_r by lia. Qed.

(** What [mm_va_leaf_pa] returns: below a 4 KiB or a 2 MiB leaf it is the physical page
    of the address; below a 1 GiB leaf bits 22 to 29 of the offset are missing. *)
Theorem mm_va_leaf_pa_result m root va p :
  low_tables m root → root ≠ 0 → 0 ≤ va < MMIO_IDENTITY_LIMIT →
  mm_va_leaf_pa m root va = Some p →
  ∃ tr, walk m root va = Some tr ∧
    t_pa tr - va `mod` 2 ^ 12 = p + (if table_at m 2 root va is Some _ then 0 else lost_bits va).
Proof.
  intros HL Hroot Hva. unfold mm_va_leaf_pa. rewrite page_down by done.
  set (pg := va - va `mod` 2 ^ 12). pose proof (Z.mod_pos_bound va (2 ^ 12) ltac:(lia)) as Hlo.
  pose proof (Z.mod_le va (2 ^ 12) ltac:(lia) ltac:(lia)) as Hle.
  destruct (Z.eqb_spec root 0); [done|]. destruct (Z.leb_spec MMIO_IDENTITY_LIMIT pg); [unfold pg in *; lia|]. cbn [orb].
  unfold pg. rewrite !slot_page by lia. fold pg.
  pose proof (ptr_low m root 0 va root HL eq_refl) as P4. change (4 - 0)%nat with 4%nat in P4.
  set (e4 := rd m (slot root 4 va)) in *. destruct (has e4 PG_PRESENT) eqn:H4; cbn [negb orb]; [|done].
  destruct (has e4 PG_PS_2M); [done|]. destruct (P4 eq_refl eq_refl) as (-> & -> & T3). cbn [negb orb].
  pose proof (ptr_low m root 1 va _ HL T3) as P3. pose proof (walk_leaf m 1 root va _ T3) as W3.
  pose proof (table_at_S m 1 root va) as S2. change (4 - 1)%nat with 3%nat in P3, W3, S2.
  set (e3 := rd m (slot (e4 &u PG_ADDR_MASK) 3 va)) in *. cbn [leaf] in *.
  destruct (has e3 PG_PRESENT) eqn:H3; cbn [negb orb andb]; [|done]. destruct (has e3 PG_PS_2M) eqn:S3; cbn [orb].
  { intros [= <-]. destruct (W3 eq_refl eq_refl) as (tr & -> & Hpa & _). exists tr. split; [done|].
    assert (table_at m 2 root va = None) as ->.
    { apply eq_None_not_Some. intros [t2 (u & Hu & _ & Hl & _)%S2].
      rewrite T3 in Hu. injection Hu as <-. fold e3 in Hl. congruence. }
    rewrite Hpa. change 0x3FFFFF with (2 ^ 22 - 1). rewrite ones_land by lia. unfold pg. rewrite page_offset by lia.
    change PG_ADDR_MASK_1G with (addr_mask 3). rewrite !addr_mask_eq by lia. unfold shift. change (3 + 9 * 3%nat) with 30.
    pose proof (sub_page va 22 ltac:(lia)). rewrite lor_base, (lost_bits_eq va) by lia. lia. }
  destruct (P3 eq_refl eq_refl) as (-> & -> & T2). cbn [negb]. rewrite T2.
  pose proof (ptr_low m root 2 va _ HL T2) as P2. pose proof (walk_leaf m 2 root va _ T2) as W2.
  change (4 - 2)%nat with 2%nat in P2, W2. set (e2 := rd m (slot (e3 &u PG_ADDR_MASK) 2 va)) in *. cbn [leaf] in *.
  destruct (has e2 PG_PRESENT) eqn:H2; cbn [negb orb]; [|done]. destruct (pt_page_pa_ok e2); cbn [negb]; [|done].
  destruct (has e2 PG_PS_2M) eqn:S2m.
  { intros [= <-]. destruct (W2 eq_refl eq_refl) as (tr & -> & Hpa & _). exists tr. split; [done|]. rewrite Hpa.
    change (PAGE_SIZE_2M - 1) with (2 ^ 21 - 1). rewrite ones_land by lia. unfold pg. rewrite page_offset by lia.
    pose proof (sub_page va 21 ltac:(lia)) as Hoff. pose proof (Z.mod_pos_bound e2 (2 ^ 52) ltac:(lia)) as He.
    change PG_ADDR_MASK_2M with (addr_mask 2). rewrite !addr_mask_eq by lia. unfold shift. change (3 + 9 * 2%nat) with 21.
    rewrite lor_base by lia. pose proof (base_sub e2 21 ltac:(lia)).
    change 0xFFF with (2 ^ 12 - 1). rewrite land_mask by lia. rewrite base_off_mod by lia. lia. }
  destruct (P2 eq_refl eq_refl) as (_ & -> & T1).
  pose proof (walk_leaf m 3 root va _ T1) as W1. change (4 - 3)%nat with 1%nat in W1.
  set (e1 := rd m (slot (e2 &u PG_ADDR_MASK) 1 va)) in *. cbn [leaf] in W1.
  destruct (has e1 PG_PRESENT) eqn:H1; cbn [negb orb]; [|done]. destruct (pt_page_pa_ok e1); cbn [negb]; [|done].
  intros [= <-]. destruct (W1 eq_refl eq_refl) as (tr & -> & Hpa & _). exists tr. split; [done|]. rewrite Hpa.
  unfold shift, addr_mask. change (3 + 9 * 1%nat) with 12. lia.
Qed.

Lemma leaf_entry_2m m root va t :
  low_tables m root → root ≠ 0 → 0 ≤ va < MMIO_IDENTITY_LIMIT →
  has (rd m (slot root 4 va)) PG_PS_2M = false → table_at m 2 root va = Some t →
  has (rd m (slot t 2 va)) PG_PRESENT = true → has (rd m (slot t 2 va)) PG_PS_2M = true →
  mm_va_leaf_entry_direct m root (va &u ~u 0xFFF) = Some (rd m (slot t 2 va)).
Proof.
  intros HL Hroot Hva Hs4 T2 Hp Hs. unfold mm_va_leaf_entry_direct. rewrite page_down by done.
  pose proof (Z.mod_pos_bound va (2 ^ 12) ltac:(lia)). destruct (Z.eqb_spec root 0); [done|].
  destruct (Z.leb_spec MMIO_IDENTITY_LIMIT (va - va `mod` 2 ^ 12)); [lia|]. cbn [orb]. rewrite !slot_page by lia.
  pose proof T2 as H2. apply table_at_S in H2 as (t3 & T3 & Hp3 & Hl3 & ->).
  pose proof T3 as H3. apply table_at_S in H3 as (t4 & [= <-] & Hp4 & Hl4 & ->).
  destruct (ptr_low m root 0 va root HL eq_refl Hp4 Hl4) as (O4 & M4 & _).
  destruct (ptr_low m root 1 va _ HL T3 Hp3 Hl3) as (O3 & M3 & _).
  change (4 - 0)%nat with 4%nat in *. change (4 - 1)%nat with 3%nat in *. cbn [leaf] in Hl3.
  rewrite Hp4, Hs4, O4, M4. cbn [negb orb]. rewrite Hp3, Hl3, O3, M3. cbn [negb]. by rewrite Hp, Hs.
Qed.

(** Reading user memory through a 2 MiB leaf without the user bit (the state in which
    [mm_demote_user_identity] leaves the identity map) takes the bytes from the first
    4 KiB page of the leaf, whatever page the address is in. *)
Theorem read_user_pa_2m_supervisor m root va t :
  low_tables m root → root ≠ 0 → 0 ≤ va < MMIO_IDENTITY_LIMIT →
  has (rd m (slot root 4 va)) PG_PS_2M = false → table_at m 2 root va = Some t →
  has (rd m (slot t 2 va)) PG_PRESENT = true → has (rd m (slot t 2 va)) PG_PS_2M = true →
  has (rd m (slot t 2 va)) PG_US = false → rd m (slot t 2 va) `mod` 2 ^ 21 < 2 ^ 12 →
  ∃ p tr, read_user_pa m root va = Some p ∧ walk m root va = Some tr ∧
    t_pa tr = p + 2 ^ 12 * ((va `div` 2 ^ 12) `mod` 2 ^ 9).
Proof.
  intros HL Hroot Hva Hs4 T2 Hp Hs Hu Hz. pose proof (walk_leaf m 2 root va t T2) as W. change (4 - 2)%nat with 2%nat in W.
  destruct (W Hp Hs) as (tr & Hw & Hpa & Hus). unfold read_user_pa.
  rewrite (mm_user_leaf_walk m root va false) by done. rewrite Hw. cbn [user_view]. rewrite Hus by done. cbn [andb].
  rewrite (leaf_entry_2m m root va t) by done. rewrite Hp. eexists _, tr. split; [done|]. split; [done|]. rewrite Hpa.
  set (e := rd m (slot t 2 va)) in *. unfold MMIO_IDENTITY_LIMIT in Hva.
  change 0xFFF with (2 ^ 12 - 1). rewrite ones_land by lia.
  rewrite addr_4k, addr_mask_eq by lia. unfold shift. change (3 + 9 * 2%nat) with 21.
  assert (e `mod` 2 ^ 12 = e `mod` 2 ^ 21) as E.
  { rewrite <- (mod_mod_pow2 e 12 21) by lia. apply Z.mod_small. pose proof (Z.mod_pos_bound e (2 ^ 21)). lia. }
  rewrite E. pose proof (base_sub e 21 ltac:(lia)). pose proof (Z.mod_pos_bound va (2 ^ 12) ltac:(lia)).
  rewrite u64_small by lia. change (2 ^ 21) with (2 ^ 12 * 2 ^ 9) at 2. rewrite (Z.rem_mul_r va) by lia. lia.
Qed.

(** * A user address space *)

(** Two spaces, with roots 0x1000 and 0x5000, that share their lower tables: an owned page
    at 0, a 2 MiB supervisor page at 0x200000 and a 1 GiB user page at 0x40000000. *)
Definition user_words : words :=
  wr (wr (wr (wr (wr (wr (wr ∅ 0x1000 0x2007) 0x5000 0x2007) 0x2000 0x3007) 0x2008 0x40000087) 0x3000 0x4007)
    0x3008 0x200083) 0x4000 0x7807.
Definition user_kern : kern := MkKern user_words [0x100010; 0x102010; 0x104010; 0x106010] [8; 16; 24; 32] [].

Lemma user_rd a :
  rd user_words a = if a =? 0x4000 then 0x7807 else if a =? 0x3008 then 0x200083 else if a =? 0x3000 then 0x4007
    else if a =? 0x2008 then 0x40000087 else if a =? 0x2000 then 0x3007 else if a =? 0x5000 then 0x2007
    else if a =? 0x1000 then 0x2007 else 0.
Proof. unfold user_words. by rewrite !rd_wr. Qed.

Lemma user_tables d va t :
  table_at user_words d 0x1000 va = Some t →
  (d = 0%nat ∧ t = 0x1000) ∨ (d = 1%nat ∧ t = 0x2000 ∧ idx 4 va = 0) ∨
  (d = 2%nat ∧ t = 0x3000 ∧ idx 4 va = 0 ∧ idx 3 va = 0) ∨
  (d = 3%nat ∧ t = 0x4000 ∧ idx 4 va = 0 ∧ idx 3 va = 0 ∧ idx 2 va = 0).
Proof.
  revert t. induction d as [|d IH]; intros t; [intros [= <-]; by left|].
  intros (u & Hu & Hp & Hl & ->)%table_at_S. apply IH in Hu. clear IH.
  destruct Hu as [(-> & ->)|[(-> & -> & H4)|[(-> & -> & H4 & H3)|(-> & -> & _)]]]; [| | |by cbn in Hl].
  - right; left. change (4 - 0)%nat with 4%nat in *. pose proof (idx_range 4 va).
    unfold slot in *. rewrite user_rd in *. repeat (zcase_in Hp; [lia|]). zcase_in Hp; [|done].
    assert (idx 4 va = 0) as E by lia. by rewrite E.
  - right; right; left. change (4 - 1)%nat with 3%nat in *. pose proof (idx_range 3 va).
    unfold slot in *. rewrite user_rd in *. do 3 (zcase_in Hp; [lia|]).
    zcase_in Hp; [done|].
    zcase_in Hp; [assert (idx 3 va = 0) as E by lia; by rewrite E|]. repeat (zcase_in Hp; [lia|]). done.
  - right; right; right. change (4 - 2)%nat with 2%nat in *. pose proof (idx_range 2 va).
    unfold slot in *. rewrite user_rd in *. zcase_in Hp; [lia|].
    zcase_in Hp; [done|].
    zcase_in Hp; [assert (idx 2 va = 0) as E by lia; by rewrite E|]. repeat (zcase_in Hp; [lia|]). done.
Qed.

Lemma user_low root : low_tables user_words root.
Proof. intros d va t _ _ _. rewrite user_rd. unfold MMIO_IDENTITY_LIMIT. repeat zcase; lia. Qed.

Lemma user_forest : forest user_words [0x1000].
Proof.
  split.
  - by intros r ->%list_elem_of_singleton.
  - intros r r' d d' va va' t ->%list_elem_of_singleton ->%list_elem_of_singleton H1%user_tables H2%user_tables.
    destruct H1 as [(-> & ->)|[(-> & -> & A4)|[(-> & -> & A4 & A3)|(-> & -> & A4 & A3 & A2)]]];
      destruct H2 as [(-> & E)|[(-> & E & B4)|[(-> & E & B4 & B3)|(-> & E & B4 & B3 & B2)]]]; try discriminate E;
      (split; [done|]); rewrite ?(pfx_S 2), ?(pfx_S 1), ?(pfx_S 0) by lia; pose proof (pfx_0 va va');
      change (4 - 0)%nat with 4%nat; change (4 - 1)%nat with 3%nat; change (4 - 2)%nat with 2%nat; lia.
  - intros r d va t ->%list_elem_of_singleton H%user_tables Hp Hl. rewrite user_rd. repeat zcase; lia.
Qed.


(** Below the 1 GiB page, 0x40C00000 is reported as 0x40000000. *)
Lemma mm_va_leaf_pa_result_witness :
  mm_va_leaf_pa user_words 0x1000 0x40C00000 = Some 0x40000000 ∧
  ∃ tr, walk user_words 0x1000 0x40C00000 = Some tr ∧ t_pa tr = 0x40C00000.
Proof.
  split; [reflexivity|].
  destruct (mm_va_leaf_pa_result user_words 0x1000 0x40C00000 0x40000000) as (tr & Hw & Ht);
    [apply user_low|done|unfold MMIO_IDENTITY_LIMIT; lia|reflexivity|].
  exists tr. split; [exact Hw|]. change (t_pa tr - 0 = 0x40C00000) in Ht. lia.
Defined.

(** 0x234567 lies in the 2 MiB supervisor page: the bytes come from 0x200567. *)
Lemma read_user_pa_2m_supervisor_witness :
  ∃ p tr, read_user_pa user_words 0x1000 0x234567 = Some p ∧ walk user_words 0x1000 0x234567 = Some tr ∧
    t_pa tr = p + 0x34000.
Proof.
  apply (read_user_pa_2m_supervisor user_words 0x1000 0x234567 0x3000);
    [apply user_low|done|unfold MMIO_IDENTITY_LIMIT; lia|reflexivity..].
Defined.
