(* ===== verification/MmMap.v ===== *)
(** [mm_map_user_page] of [core/mm.c] writes only to tables its address space owns, so
    that no other address space changes. *)
From S2P Require Import Prelude PageTable Paging PagingProps Mm MmProps.
Import PageTable Mm.
#[local] Opaque fill aligned.

(** * Isolation *)

Abbreviation owns mm p := (mm_owns_pt_page mm p = true).

(** [a] is no word of a page that [mm] owns, nor of its root. *)
Definition foreign (mm : mm_t) (a : Z) : Prop :=
  ∀ p i, p = pml4 mm ∨ owns mm p → 0 ≤ i < 512 → a ≠ p + 8 * i.

(** From [k], [mm] to [k'], [mm']: ownership grows and foreign words keep their value. *)
Record private (k k' : kern) (mm mm' : mm_t) : Prop := {
  pr_root : pml4 mm' = pml4 mm;
  pr_own : ∀ p, owns mm p → owns mm' p;
  pr_words : ∀ a, foreign mm' a → rd (mw k') a = rd (mw k) a;
  pr_heap : ∀ raw, raw ∈ pages k' → raw ∈ pages k
}.

(** No block of the heap ends at the top of the address space. *)
Definition low_heap (k : kern) : Prop := ∀ raw, raw ∈ pages k → raw ≠ 0 → aligned raw ≠ 0.
Lemma low_heap_mono k k' mm mm' : private k k' mm mm' → low_heap k → low_heap k'.
Proof. intros P H raw Hr. apply H. by apply (pr_heap _ _ _ _ P). Qed.

Lemma private_refl k mm : private k k mm mm.
Proof. by split. Qed.
Lemma foreign_mono k k' mm mm' a : private k k' mm mm' → foreign mm' a → foreign mm a.
Proof.
  intros [H1 H2 _ _] H p i Hp. apply H. destruct Hp as [->|Hp]; [left; by rewrite H1|right; by apply H2].
Qed.
Lemma private_trans k1 k2 k3 mm1 mm2 mm3 :
  private k1 k2 mm1 mm2 → private k2 k3 mm2 mm3 → private k1 k3 mm1 mm3.
Proof.
  intros P1 P2. split.
  - by rewrite (pr_root _ _ _ _ P2), (pr_root _ _ _ _ P1).
  - intros p Hp. by apply (pr_own _ _ _ _ P2), (pr_own _ _ _ _ P1).
  - intros a Ha. rewrite (pr_words _ _ _ _ P2) by done. apply (pr_words _ _ _ _ P1). by eapply foreign_mono.
  - intros raw Hr. by apply (pr_heap _ _ _ _ P1), (pr_heap _ _ _ _ P2).
Qed.

(** A store to an entry of an owned table. *)
Lemma private_put k mm t i v :
  t = pml4 mm ∨ owns mm t → 0 ≤ i < 512 → private k (put k (t + 8 * i) v) mm mm.
Proof.
  intros Ht Hi. split; [done..| |done]. intros a Ha. apply rd_wr_ne. by apply Ha.
Qed.
Lemma private_slot k mm t l va v :
  t = pml4 mm ∨ owns mm t → private k (put k (slot t l va) v) mm mm.
Proof. intros Ht. apply private_put; [done|apply idx_range]. Qed.
Lemma private_fill k mm p f :
  owns mm p → private k (set_mw k (fill PT_ENTRIES 0 (mw k) p f)) mm mm.
Proof.
  intros Hp. split; [done..| |done]. intros a Ha. cbn [set_mw mw]. apply rd_fill_out.
  intros j Hj. apply Ha; [by right|unfold PT_ENTRIES in Hj; lia].
Qed.

Lemma owns_cons mm raw p : owns mm p → owns (MkMm (pml4 mm) (raw :: allocs mm)) p.
Proof.
  unfold mm_owns_pt_page. destruct (p =? 0); [done|]. cbn [existsb allocs]. intros ->. apply orb_true_r.
Qed.

Lemma kmalloc_page_eq k k' raw :
  kmalloc_page k = (k', raw) →
  mw k' = mw k ∧ nodes k' = nodes k ∧ released k' = released k ∧
  (raw = 0 ∧ pages k' = pages k ∨ pages k = raw :: pages k').
Proof.
  unfold kmalloc_page. destruct (pages k) eqn:E; intros [= <- <-]; (split_and!; [done..|]); [left; by rewrite E|by right].
Qed.
Lemma kmalloc_node_eq k k' node :
  kmalloc_node k = (k', node) → mw k' = mw k ∧ pages k' = pages k ∧ released k' = released k.
Proof. unfold kmalloc_node. destruct (nodes k); intros [= <- <-]; auto. Qed.

(** The outcomes of [alloc_pt_page]. *)
Lemma alloc_cases k mm k' mm' p :
  alloc_pt_page k mm = (k', mm', p) →
  released k' = released k ∧ (∀ raw, raw ∈ pages k' → raw ∈ pages k) ∧
  ((p = 0 ∧ mm' = mm ∧ mw k' = mw k ∧ (pages k' = pages k ∨ ∃ raw, pages k = raw :: pages k')) ∨
   ∃ raw, raw ≠ 0 ∧ pages k = raw :: pages k' ∧ p = aligned raw ∧ mm' = MkMm (pml4 mm) (raw :: allocs mm) ∧
     mw k' = fill PT_ENTRIES 0 (mw k) p (λ _ _, 0)).
Proof.
  unfold alloc_pt_page. destruct (kmalloc_page k) as [k1 raw] eqn:E1.
  apply kmalloc_page_eq in E1 as (M1 & _ & R1 & C1).
  assert (∀ r, r ∈ pages k1 → r ∈ pages k) as Hsub by (destruct C1 as [[_ ->]| ->]; [done|intros; by right]).
  assert (pages k1 = pages k ∨ ∃ raw, pages k = raw :: pages k1) as Hor by (destruct C1 as [[_ ->]|]; eauto).
  destruct (Z.eqb_spec raw 0) as [|Hraw]; [intros [= <- <- <-]; split; [done|split; [done|by left]]|].
  destruct (kmalloc_node k1) as [k2 node] eqn:E2. apply kmalloc_node_eq in E2 as (M2 & G2 & R2).
  destruct (Z.eqb_spec node 0) as [|Hnode].
  { intros [= <- <- <-]. rewrite G2, R2, M2. split; [done|split; [done|by left]]. }
  intros H. apply pair_eq in H as [[<- <-]%pair_eq <-]. cbn [set_mw released pages mw]. rewrite G2, R2, M2, M1.
  split_and!; [done|done|]. right. exists raw. destruct C1 as [[? _]|C1]; [done|]. done.
Qed.

Lemma alloc_private k mm k' mm' p :
  low_heap k → alloc_pt_page k mm = (k', mm', p) → private k k' mm mm' ∧ (p ≠ 0 → owns mm' p).
Proof.
  intros HL (_ & Hsub & [(-> & -> & Hm & _)|(raw & Hraw & Hp & -> & -> & Hm)])%alloc_cases.
  { split; [|done]. split; [done..| |done]. by rewrite Hm. }
  assert (aligned raw ≠ 0) as Hne by (apply HL; [rewrite Hp; by left|done]).
  assert (owns (MkMm (pml4 mm) (raw :: allocs mm)) (aligned raw)) as Ho.
  { unfold mm_owns_pt_page. rewrite (proj2 (Z.eqb_neq _ _) Hne). cbn [existsb allocs].
    by rewrite (proj2 (nz_true raw) Hraw), Z.eqb_refl. }
  split; [|done]. split; [done|by intros; apply owns_cons| |done]. intros a Ha. rewrite Hm. apply rd_fill_out.
  intros j Hj. apply Ha; [by right|unfold PT_ENTRIES in Hj; lia].
Qed.

Lemma dup_private k mm src k' mm' p :
  low_heap k → dup_pt_page k mm src = (k', mm', p) → private k k' mm mm' ∧ (p ≠ 0 → owns mm' p).
Proof.
  intros HL. unfold dup_pt_page. destruct (_ || _); [intros [= <- <- <-]; split; [apply private_refl|done]|].
  destruct (alloc_pt_page k mm) as [[k1 mm1] dst] eqn:E. apply alloc_private in E as [P Ho]; [|done].
  destruct (Z.eqb_spec dst 0); [by intros [= <- <- <-]|]. intros H. apply pair_eq in H as [[<- <-]%pair_eq <-].
  split; [|done]. eapply private_trans; [exact P|]. apply private_fill. auto.
Qed.

Lemma own_level_private k mm t l va a b c k' mm' t' rc :
  low_heap k → t = pml4 mm ∨ owns mm t → a ≠ 0 → b ≠ 0 → c ≠ 0 →
  own_level k mm (slot t l va) a b c = (k', mm', t', rc) →
  private k k' mm mm' ∧ (rc = 0 → owns mm' t').
Proof.
  intros HL Ht Ha Hb Hc. unfold own_level. destruct (has _ PG_PRESENT); cbn [negb].
  - destruct (pt_page_pa_ok _); cbn [negb]; [|intros [= <- <- <- <-]; split; [apply private_refl|done]].
    destruct (mm_owns_pt_page mm (get k _ &u _)) eqn:Ho.
    { intros H. repeat apply pair_eq in H as [H <-]. destruct H. split; [by apply private_slot|done]. }
    destruct (dup_pt_page k mm _) as [[k1 mm1] n] eqn:E. apply dup_private in E as [P Hn]; [|done].
    destruct (Z.eqb_spec n 0); [by intros [= <- <- <- <-]|].
    intros H. repeat apply pair_eq in H as [H <-]. destruct H. split; [|auto].
    assert (t = pml4 mm1 ∨ owns mm1 t) as Ht1.
    { destruct Ht as [->|Ht]; [left; by rewrite (pr_root _ _ _ _ P)|right; by apply (pr_own _ _ _ _ P)]. }
    eapply private_trans; [exact P|]. eapply private_trans; by apply private_slot.
  - destruct (alloc_pt_page k mm) as [[k1 mm1] n] eqn:E. apply alloc_private in E as [P Hn]; [|done].
    destruct (Z.eqb_spec n 0); [by intros [= <- <- <- <-]|].
    intros H. repeat apply pair_eq in H as [H <-]. destruct H. split; [|auto].
    eapply private_trans; [exact P|]. apply private_slot.
    destruct Ht as [->|Ht]; [left; by rewrite (pr_root _ _ _ _ P)|right; by apply (pr_own _ _ _ _ P)].
Qed.

Lemma split_1g_private k mm t va k' mm' rc :
  low_heap k → t = pml4 mm ∨ owns mm t → split_l3_1g_to_l2 k mm (slot t 3 va) = (k', mm', rc) → private k k' mm mm'.
Proof.
  intros HL Ht. unfold split_l3_1g_to_l2. destruct (_ || _); [intros [= <- <- <-]; apply private_refl|].
  destruct (alloc_pt_page k mm) as [[k1 mm1] n] eqn:E. apply alloc_private in E as [P Hn]; [|done].
  destruct (Z.eqb_spec n 0); [by intros [= <- <- <-]|]. intros H. repeat apply pair_eq in H as [H <-]. destruct H.
  eapply private_trans; [exact P|]. eapply private_trans; [apply private_fill; auto|]. apply private_slot.
  destruct Ht as [->|Ht]; [left; by rewrite (pr_root _ _ _ _ P)|right; by apply (pr_own _ _ _ _ P)].
Qed.
Lemma split_2m_private k mm t va k' mm' rc :
  low_heap k → t = pml4 mm ∨ owns mm t → split_2m_to_4k k mm (slot t 2 va) va = (k', mm', rc) → private k k' mm mm'.
Proof.
  intros HL Ht. unfold split_2m_to_4k. destruct (_ || _); [intros [= <- <- <-]; apply private_refl|].
  destruct (alloc_pt_page k mm) as [[k1 mm1] n] eqn:E. apply alloc_private in E as [P Hn]; [|done].
  destruct (Z.eqb_spec n 0); [by intros [= <- <- <-]|]. intros H. repeat apply pair_eq in H as [H <-]. destruct H.
  eapply private_trans; [exact P|]. eapply private_trans; [apply private_fill; auto|]. apply private_slot.
  destruct Ht as [->|Ht]; [left; by rewrite (pr_root _ _ _ _ P)|right; by apply (pr_own _ _ _ _ P)].
Qed.

Lemma own_path_private k mm va k' mm' l1 rc :
  low_heap k → own_path k mm va = (k', mm', l1, rc) → private k k' mm mm' ∧ (rc = 0 → owns mm' l1).
Proof.
  intros HL. unfold own_path.
  destruct (own_level k mm _ _ _ _) as [[[k1 mm1] l3] rc1] eqn:E1.
  apply own_level_private in E1 as [P1 O1]; [|done|by left|done..].
  destruct (nz_spec rc1) as [|Hrc1]; [by intros [= <- <- <- <-]|].
  pose proof (low_heap_mono _ _ _ _ P1 HL) as HL1.
  destruct (if huge _ then _ else _) as [[k2 mm2] rc2] eqn:E2.
  assert (private k1 k2 mm1 mm2) as P2.
  { destruct (huge _); [eapply split_1g_private; [done|right; by apply O1|done]|].
    injection E2 as <- <- <-. apply private_refl. }
  pose proof (private_trans _ _ _ _ _ _ P1 P2) as P12. pose proof (low_heap_mono _ _ _ _ P2 HL1) as HL2.
  destruct (nz rc2); [by intros [= <- <- <- <-]|].
  destruct (own_level k2 mm2 _ _ _ _) as [[[k3 mm3] l2] rc3] eqn:E3.
  apply own_level_private in E3 as [P3 O3]; [|done|right; by apply (pr_own _ _ _ _ P2), O1|done..].
  pose proof (private_trans _ _ _ _ _ _ P12 P3) as P13. pose proof (low_heap_mono _ _ _ _ P3 HL2) as HL3.
  destruct (nz_spec rc3) as [|Hrc3]; [by intros [= <- <- <- <-]|].
  destruct (if huge (get k3 _) then _ else _) as [[k4 mm4] rc4] eqn:E4.
  assert (private k3 k4 mm3 mm4) as P4.
  { destruct (huge (get k3 _)); [eapply split_2m_private; [done|right; by apply O3|done]|].
    injection E4 as <- <- <-. apply private_refl. }
  pose proof (private_trans _ _ _ _ _ _ P13 P4) as P14. pose proof (low_heap_mono _ _ _ _ P4 HL3) as HL4.
  destruct (nz rc4); [by intros [= <- <- <- <-]|]. intros E5.
  apply own_level_private in E5 as [P5 O5]; [|done|right; by apply (pr_own _ _ _ _ P4), O3|done..].
  split; [by eapply private_trans|done].
Qed.

Lemma map_private k mm ker va pa flags k' mm' rc :
  low_heap k → mm_map_user_page_locked k mm ker va pa flags = (k', mm', rc) → private k k' mm mm'.
Proof.
  intros HL. unfold mm_map_user_page_locked.
  destruct (_ || _); [intros [= <- <- <-]; apply private_refl|].
  destruct (_ <=? va); [intros [= <- <- <-]; apply private_refl|].
  destruct (nz _); [intros [= <- <- <-]; apply private_refl|].
  destruct (_ && _); [intros [= <- <- <-]; apply private_refl|].
  destruct (own_path k mm va) as [[[k1 mm1] l1] rc1] eqn:E. apply own_path_private in E as [P O]; [|done].
  destruct (nz_spec rc1) as [|Hrc]; [by intros [= <- <- <-]|].
  pose proof (private_trans _ _ _ _ _ _ P (private_slot k1 mm1 l1 1 va (user_leaf pa flags) (or_intror (O Hrc)))) as P'.
  destruct (_ && _); intros H; repeat apply pair_eq in H as [H <-]; destruct H; [|done].
  destruct P' as [H1 H2 H3 H4]. by split.
Qed.

(** C10: Mapping a user page, whatever the outcome, changes no word outside the root and the
    table pages that the address space owns afterwards; so an address space none of whose
    tables is among them translates every address as before. *)
Theorem mm_map_user_page_isolated k mm ker va pa flags k' mm' rc :
  low_heap k → mm_map_user_page_locked k mm ker va pa flags = (k', mm', rc) →
  (∀ a, foreign mm' a → rd (mw k') a = rd (mw k) a) ∧
  ∀ r va', (∀ d t, table_at (mw k) d r va' = Some t → ∀ i, 0 ≤ i < 512 → foreign mm' (t + 8 * i)) →
    walk (mw k') r va' = walk (mw k) r va'.
Proof.
  intros HL E. pose proof (map_private _ _ _ _ _ _ _ _ _ HL E) as P. split; [apply (pr_words _ _ _ _ P)|].
  intros r va' Hf. apply walk_ext. intros d t Ht. apply (pr_words _ _ _ _ P). apply (Hf d t Ht), idx_range.
Qed.

Lemma user_low_heap : low_heap user_kern.
Proof.
  intros raw Hr _. cbn [user_kern pages] in Hr. repeat (apply elem_of_cons in Hr as [->|Hr]; [done|]).
  by apply not_elem_of_nil in Hr.
Qed.
Lemma owns_in root p :
  owns (MkMm root [0x104010; 0x102010; 0x100010]) p → p = 0x105000 ∨ p = 0x103000 ∨ p = 0x101000.
Proof.
  unfold mm_owns_pt_page. destruct (p =? 0); [done|]. cbn [allocs existsb nz Z.eqb negb andb].
  rewrite !orb_true_iff, !Z.eqb_eq. change (aligned 0x104010) with 0x105000. change (aligned 0x102010) with 0x103000.
  change (aligned 0x100010) with 0x101000. intros [<-|[<-|[<-|?]]]; tauto || done.
Qed.

(** The space with root 0x1000 owns none of the tables it shares with the other one:
    mapping a page at 0 copies all three, and the other space keeps its page. *)
Lemma mm_map_user_page_isolated_witness :
  let r := mm_map_user_page_locked user_kern (MkMm 0x1000 []) false 0 0x9000 PG_RW in
  r.2 = 0 ∧ option_map t_pa (walk (mw r.1.1) 0x1000 0x123) = Some 0x9123 ∧
  walk (mw r.1.1) 0x5000 0x123 = walk user_words 0x5000 0x123.
Proof.
  intros r. split; [vm_compute; reflexivity|]. split; [vm_compute; reflexivity|].
  destruct (mm_map_user_page_isolated user_kern (MkMm 0x1000 []) false 0 0x9000 PG_RW r.1.1 r.1.2 r.2) as [_ H].
  - apply user_low_heap.
  - fold r. by destruct r as [[] ?].
  - apply H. intros d t Ht i Hi p j Hp Hj.
    assert (t = 0x5000 ∨ t = 0x2000 ∨ t = 0x3000 ∨ t = 0x4000) as Ht'.
    { pose proof (table_at_le _ _ _ _ _ Ht). destruct d as [|[|[|[|d]]]]; [..|lia]; vm_compute in Ht; injection Ht as <-; tauto. }
    assert (p = 0x1000 ∨ p = 0x105000 ∨ p = 0x103000 ∨ p = 0x101000) as Hp'; [|lia].
    assert (r.1.2 = MkMm 0x1000 [0x104010; 0x102010; 0x100010]) as E by (vm_compute; reflexivity).
    rewrite E in Hp. destruct Hp as [->|Hp]; [by left|right]. by apply owns_in in Hp.
Defined.
