(* ===== verification/MmMapOk.v ===== *)
(** The functional half of [mm_map_user_page] of [core/mm.c]: on success the page of the
    address has the frame and the permissions asked for, and every other address keeps
    its frame. *)
From S2P Require Import Prelude PageTable Paging PagingProps Mm MmProps MmMap.
Import PageTable Mm.
#[local] Opaque fill aligned.

(** What the heap promises about the table pages it will hand out: they lie in the
    identity map, are different, and are not in use as tables. *)
Record heap_ok (k : kern) (root : Z) : Prop := {
  h_page : ∀ raw, raw ∈ pages k → raw ≠ 0 →
    0 < aligned raw < MMIO_IDENTITY_LIMIT ∧ fresh (mw k) [root] (aligned raw);
  h_dist : NoDup (aligned <$> filter (λ raw, raw ≠ 0) (pages k))
}.

Record space_ok (k : kern) (root : Z) : Prop := {
  o_forest : forest (mw k) [root];
  o_heap : heap_ok k root
}.

Lemma heap_ok_tail k k' root raw :
  heap_ok k root → pages k = raw :: pages k' → (∀ p, fresh (mw k) [root] p → p ≠ aligned raw → fresh (mw k') [root] p) →
  raw ≠ 0 →
  heap_ok k' root ∧ ∀ r, r ∈ pages k' → r ≠ 0 → aligned r ≠ aligned raw.
Proof.
  intros [H1 H2] Hp Hf Hraw. rewrite Hp in H1, H2. rewrite filter_cons_True in H2 by done. cbn in H2.
  apply NoDup_cons in H2 as [H2 H3].
  assert (∀ r, r ∈ pages k' → r ≠ 0 → aligned r ≠ aligned raw) as Hne.
  { intros r Hr Hr0 E. apply H2. rewrite <- E. apply list_elem_of_fmap_2. by apply list_elem_of_filter. }
  split; [|done]. split; [|done]. intros r Hr Hr0. destruct (H1 r ltac:(by right) Hr0) as [? Hfr].
  split; [done|]. apply Hf; [done|by apply Hne].
Qed.

Lemma heap_ok_drop k k' root raw : heap_ok k root → mw k' = mw k → pages k = raw :: pages k' → heap_ok k' root.
Proof.
  intros [H1 H2] Hm Hp. rewrite Hp in H1, H2. split.
  - intros r Hr. rewrite Hm. apply H1. by right.
  - rewrite filter_cons in H2. destruct (decide (raw ≠ 0)); [|done]. by apply NoDup_cons in H2 as [_ ?].
Qed.

(** A new page: zero, not yet a table, and not one the heap will hand out again. *)
Record new_page (k k' : kern) (root p : Z) : Prop := {
  n_range : 0 < p < MMIO_IDENTITY_LIMIT;
  n_agree : agree_on (mw k) (mw k') [root];
  n_heap : heap_ok k' root;
  n_fresh : fresh (mw k') [root] p;
  n_dist : ∀ r, r ∈ pages k' → r ≠ 0 → aligned r ≠ p
}.

Lemma fill_new k root p f :
  forest (mw k) [root] → fresh (mw k) [root] p → agree_on (mw k) (fill PT_ENTRIES 0 (mw k) p f) [root].
Proof.
  intros F Hf. apply (fresh_agree _ _ _ p); [done..|]. intros a Ha. apply rd_fill_out.
  intros j Hj. apply Ha. unfold PT_ENTRIES in Hj. lia.
Qed.

Lemma pt_alloc_ok k mm root k' mm' p :
  space_ok k root → alloc_pt_page k mm = (k', mm', p) →
  released k' = released k ∧
  ((p = 0 ∧ mm' = mm ∧ space_ok k' root ∧ mw k' = mw k) ∨
   (p ≠ 0 ∧ pml4 mm' = pml4 mm ∧ new_page k k' root p ∧ ∀ i, 0 ≤ i < 512 → rd (mw k') (p + 8 * i) = 0)).
Proof.
  intros [F H] (Hrel & _ & C)%alloc_cases. split; [done|].
  destruct C as [(-> & -> & Hm & Hp)|(raw & Hraw & Hp & -> & -> & Hm)].
  { left. split_and!; [done..| |done]. split; [by rewrite Hm|].
    destruct Hp as [Hp|[r Hp]]; [|by eapply heap_ok_drop]. destruct H as [H1 H2]. split; [|by rewrite Hp].
    intros r. rewrite Hm, Hp. by apply H1. }
  right. destruct (h_page _ _ H raw ltac:(rewrite Hp; by left) Hraw) as [Hr Hf].
  assert (agree_on (mw k) (mw k') [root]) as Hag by (rewrite Hm; by apply fill_new).
  destruct (heap_ok_tail k k' root raw H Hp) as [H' Hd]; [|done|].
  { intros q Hq _. by eapply agree_fresh. }
  split_and!; [lia|done| |].
  - split; [done..|by eapply agree_fresh|done].
  - intros i Hi. rewrite Hm, rd_fill_in by (unfold PT_ENTRIES; lia). done.
Qed.

(** Filling a new page keeps it new. *)
Lemma new_page_fill k k' root p f :
  forest (mw k) [root] → new_page k k' root p → new_page k (set_mw k' (fill PT_ENTRIES 0 (mw k') p f)) root p.
Proof.
  intros F [N1 N2 [N3 N4] N5 N6]. pose proof (agree_forest _ _ _ N2 F) as F'.
  pose proof (fill_new k' root p f F' N5) as Hag. split; [done| | |by eapply agree_fresh|done].
  - intros r d va t Hr Ht. cbn [set_mw mw]. rewrite (Hag r); [by apply (N2 r)|done|].
    by rewrite (agree_table (mw k) (mw k') [root]).
  - split; [|done]. intros r Hr Hr0. destruct (N3 r Hr Hr0) as [? ?]. split; [done|]. by eapply agree_fresh.
Qed.

(** * One level *)

(** What a step keeps: the tree, the frame of every address, and, on the path of [va],
    the table of depth [d] with the permissions above it. *)
Record kept (k k' : kern) (root va : Z) (d : nat) (t : Z) : Prop := {
  k_ok : space_ok k' root;
  k_rel : released k' = released k;
  k_table : table_at (mw k') d root va = Some t;
  k_perms : perms (mw k') d root va = perms (mw k) d root va
}.

Lemma elem_root (root : Z) : root ∈ [root].
Proof. by apply list_elem_of_singleton. Qed.

Lemma kept_put k k1 root d va t v :
  forest (mw k) [root] → table_at (mw k) d root va = Some t → agree_on (mw k) (mw k1) [root] → released k1 = released k →
  space_ok (put k1 (slot t (4 - d) va) v) root → kept k (put k1 (slot t (4 - d) va) v) root va d t.
Proof.
  intros F Ht Hag Hrel Hok. pose proof (agree_forest _ _ _ Hag F) as F1.
  assert (table_at (mw k1) d root va = Some t) as Ht1.
  { by rewrite (agree_table (mw k) (mw k1) [root]) by (done || apply elem_root). }
  split; [done|done| |].
  - rewrite <- Ht1. apply (store_table _ [root] root _ _ _ _ F1 (elem_root root) Ht1); [apply elem_root|auto].
  - transitivity (perms (mw k1) d root va).
    + apply (store_perms _ [root] root _ _ _ _ F1 (elem_root root) Ht1); [apply elem_root|auto].
    + apply (perms_ext _ _ root va d); [|done]. intros d1 t1 _ Ht'. apply (Hag root); [apply elem_root|done].
Qed.

Definition and_perms (p : bool * bool * bool) (e : Z) : bool * bool * bool :=
  let '(rw, us, nx) := p in (rw && has e PG_RW, us && has e PG_US, nx || has e PG_NX).

Lemma perms_step m d root va t :
  table_at m d root va = Some t → perms m (S d) root va = and_perms (perms m d root va) (rd m (slot t (4 - d) va)).
Proof. intros Ht. cbn [perms]. rewrite Ht. by destruct (perms m d root va) as [[rw us] nx]. Qed.

(** An entry that points to the table page [n]. *)
Record points (v n : Z) (d : nat) : Prop := {
  v_u64 : is_u64 v;
  v_present : has v PG_PRESENT = true;
  v_table : leaf (4 - d) v = false;
  v_addr : v &u PG_ADDR_MASK = n;
  v_small : v < 2 ^ 52
}.

(** Frames are the same for every address. *)
Definition same_frames (k k' : kern) (root : Z) : Prop :=
  ∀ va, option_map (frame_of va) (leaf_at (mw k') root va) = option_map (frame_of va) (leaf_at (mw k) root va).

Section link.
Context (k k1 : kern) (root va t n v : Z) (d : nat).
Hypothesis (F : forest (mw k) [root]) (Ht : table_at (mw k) d root va = Some t).
Hypothesis (N : new_page k k1 root n) (V : points v n d) (Hrel : released k1 = released k).
Hypothesis (Hdead : ∀ va, let e := rd (mw k1) (slot n (4 - S d) va) in
  has e PG_PRESENT = true → leaf (4 - S d) e = true).
Let k' := put k1 (slot t (4 - d) va) v.

Let F1 : forest (mw k1) [root].
Proof. eapply agree_forest; [apply (n_agree _ _ _ _ N)|done]. Qed.
Let Ht1 : table_at (mw k1) d root va = Some t.
Proof. by rewrite (agree_table _ _ _ _ _ _ (n_agree _ _ _ _ N)) by apply elem_root. Qed.

Lemma link_kept : kept k k' root va d t.
Proof.
  destruct V as [V1 V2 V3 V4 V5]. apply kept_put; [done..|apply (n_agree _ _ _ _ N)|done|]. split.
  - apply (link_forest _ _ _ _ _ _ _ F1 (elem_root root) Ht1 V1 n); [apply (n_fresh _ _ _ _ N)|done..].
  - destruct (n_heap _ _ _ _ N) as [H1 H2]. split; [|done]. intros raw Hr Hr0. destruct (H1 raw Hr Hr0) as [? ?].
    split; [done|]. apply (link_fresh _ _ _ _ _ _ _ F1 (elem_root root) Ht1 V1 n); [apply (n_fresh _ _ _ _ N)|done|done| |done].
    by apply (n_dist _ _ _ _ N).
Qed.

Lemma link_next : table_at (mw k') (S d) root va = Some n ∧
  perms (mw k') (S d) root va = and_perms (perms (mw k) d root va) v.
Proof.
  destruct V as [V1 V2 V3 V4 V5]. split.
  - apply (link_at _ _ _ _ _ _ _ F1 (elem_root root) Ht1 V1 n); done.
  - rewrite (perms_step _ _ _ _ _ (k_table _ _ _ _ _ _ link_kept)), (k_perms _ _ _ _ _ _ link_kept).
    unfold k', put; cbn [set_mw mw]. by rewrite word_wr_eq, u64_small.
Qed.

Lemma link_leaves va' :
  leaf_at (mw k') root va' =
  if decide (pfx (S d) va' = pfx (S d) va) then leaf_from (4 - S d) (mw k1) n va' else leaf_at (mw k) root va'.
Proof.
  destruct V as [V1 V2 V3 V4 V5]. pose proof (store_level _ _ _ _ _ Ht) as Hd. unfold k', put; cbn [set_mw mw].
  rewrite (link_leaf _ _ _ _ _ _ _ F1 (elem_root root) Ht1 V1 n); [|apply (n_fresh _ _ _ _ N)|done..|apply elem_root].
  destruct (decide (pfx (S d) va' = pfx (S d) va)) as [He|Hne].
  - rewrite decide_True; [done|]. split; [|done].
    rewrite (table_at_pfx _ d root va' va); [done|lia|]. apply (pfx_le d (S d)); [lia|done].
  - rewrite decide_False by tauto. apply leaf_ext. intros d1 t1 Ht'.
    by apply (n_agree _ _ _ _ N root); [apply elem_root|].
Qed.

(** A large page replaced by a table of smaller ones with the same frames. *)
Lemma link_frames :
  has (get k (slot t (4 - d) va)) PG_PRESENT = true → leaf (4 - d) (get k (slot t (4 - d) va)) = true →
  (∀ va', let e := rd (mw k1) (slot n (4 - S d) va') in has e PG_PRESENT = true ∧ leaf (4 - S d) e = true ∧
    frame_of va' ((4 - S d)%nat, e) = frame_of va' ((4 - d)%nat, get k (slot t (4 - d) va))) →
  (d ≤ 2)%nat → same_frames k k' root.
Proof.
  intros Hp Hl He Hd va'. rewrite link_leaves. destruct (decide _) as [Hx|]; [|done].
  assert (table_at (mw k) d root va' = Some t) as Ht'.
  { rewrite (table_at_pfx _ d root va' va); [done|lia|]. apply (pfx_le d (S d)); [lia|done]. }
  apply pfx_idx in Hx as [_ Ei]; [|lia]. rewrite (leaf_at_from _ _ _ _ _ Ht'). destruct (He va') as (E1 & E2 & E3).
  assert (slot t (4 - d) va' = slot t (4 - d) va) as Es by (unfold slot; by rewrite Ei).
  destruct (4 - d)%nat as [|j] eqn:Ej; [lia|]. destruct (4 - S d)%nat as [|i] eqn:Ei'; [lia|]. cbn [leaf_from].
  rewrite E1, E2, Es. fold (get k (slot t (S j) va)). rewrite Hp, Hl. cbn [negb option_map]. by rewrite E3.
Qed.

Lemma own_link_new va' : rd (mw k') (slot n (4 - S d) va') = rd (mw k1) (slot n (4 - S d) va').
Proof.
  unfold k', put; cbn [set_mw mw]. apply rd_wr_ne. intros E.
  apply slot_inj in E as [E _]; [|apply (n_fresh _ _ _ _ N)|exact (f_aligned _ _ _ _ _ _ F (elem_root root) Ht)].
  apply (proj2 (n_fresh _ _ _ _ N) root d va (elem_root root)). by rewrite Ht1, E.
Qed.
End link.

Lemma table_entry p : p `mod` 4096 = 0 → 0 < p < MMIO_IDENTITY_LIMIT →
  ∀ d, (d ≤ 2)%nat → points (Z.lor p PG_TABLE) p d ∧
    has (Z.lor p PG_TABLE) PG_RW = true ∧ has (Z.lor p PG_TABLE) PG_US = true ∧ has (Z.lor p PG_TABLE) PG_NX = false.
Proof.
  intros Hp Hr d Hd. unfold MMIO_IDENTITY_LIMIT in Hr. change PG_TABLE with 7.
  destruct (ptr_entry p 7) as (_ & Ha & Hb & Ht); [done|lia|lia|].
  assert (has (Z.lor p 7) PG_PS_2M = false) as Hs by (bits; by rewrite Ht by lia).
  split; [split|].
  - lia.
  - bits. by rewrite Ht by lia.
  - destruct d as [|[|[|d]]]; try done. lia.
  - done.
  - lia.
  - split_and!; [bits; by rewrite Ht by lia..|by apply no_nx].
Qed.

(** No table below the entry: a new, empty one. *)
Lemma own_level_new k mm root d va t k1 mm1 n :
  space_ok k root → table_at (mw k) d root va = Some t → (d ≤ 2)%nat →
  has (get k (slot t (4 - d) va)) PG_PRESENT = false →
  alloc_pt_page k mm = (k1, mm1, n) → n ≠ 0 →
  let k' := put k1 (slot t (4 - d) va) (Z.lor n PG_TABLE) in
  kept k k' root va d t ∧ table_at (mw k') (S d) root va = Some n ∧
  perms (mw k') (S d) root va = perms (mw k) d root va ∧
  (∀ va', leaf_at (mw k') root va' = leaf_at (mw k) root va').
Proof.
  intros Hok Ht Hd Hp E Hn k'. destruct Hok as [F H].
  destruct (pt_alloc_ok k mm root k1 mm1 n) as [Hrel [(? & _)|(_ & _ & N & Hz)]]; [by split|done|done|].
  destruct (table_entry n (proj1 (n_fresh _ _ _ _ N)) (n_range _ _ _ _ N) d Hd) as (V & VR & VU & VN).
  assert (∀ va', rd (mw k1) (slot n (4 - S d) va') = 0) as Hz' by (intros; apply Hz, idx_range).
  assert (∀ va', let e := rd (mw k1) (slot n (4 - S d) va') in has e PG_PRESENT = true → leaf (4 - S d) e = true) as Hdead.
  { intros va'. cbn zeta. by rewrite Hz'. }
  split; [by eapply link_kept|].
  destruct (link_next k k1 root va t n _ d F Ht N V Hrel Hdead) as [H1 H2]. split; [done|]. split.
  - unfold k'. rewrite H2. destruct (perms (mw k) d root va) as [[rw us] nx]. unfold and_perms. rewrite VR, VU, VN.
    by rewrite !andb_true_r, orb_false_r.
  - intros va'. unfold k'. rewrite (link_leaves k k1 root va t n _ d F Ht N V Hdead).
    destruct (decide (pfx (S d) va' = pfx (S d) va)) as [He|]; [|done].
    assert (table_at (mw k) d root va' = Some t) as Ht'.
    { rewrite (table_at_pfx _ d root va' va); [done|lia|]. apply (pfx_le d (S d)); [lia|done]. }
    apply pfx_idx in He as [_ Ei]; [|lia].
    rewrite (leaf_at_from _ _ _ _ _ Ht'). replace (4 - d)%nat with (S (4 - S d)) in * by lia. cbn [leaf_from].
    unfold slot in *. rewrite Ei. unfold get in Hp. rewrite Hp. cbn [negb].
    destruct (4 - S d)%nat; [done|]. cbn [leaf_from]. unfold slot. by rewrite Hz'.
Qed.

Lemma kept_path_trans k1 k2 k3 root va d t : kept k1 k2 root va d t → kept k2 k3 root va d t → kept k1 k3 root va d t.
Proof. intros [A1 A2 A3 A4] [B1 B2 B3 B4]. split; [done|congruence|done|congruence]. Qed.

Lemma or_table e d :
  is_u64 e → e < 2 ^ 52 → has e PG_PRESENT = true → leaf (4 - d) e = false → (d ≤ 2)%nat →
  points (Z.lor e PG_TABLE) (e &u PG_ADDR_MASK) d ∧
  has (Z.lor e PG_TABLE) PG_RW = true ∧ has (Z.lor e PG_TABLE) PG_US = true ∧ has (Z.lor e PG_TABLE) PG_NX = false.
Proof.
  intros He He' Hp Hl Hd. change PG_TABLE with 7.
  assert (0 ≤ Z.lor e 7 < 2 ^ 52) as Hb by (apply lor_lt; lia).
  split; [split|].
  - lia.
  - bits. rewrite Z.lor_spec, Hp. done.
  - destruct d as [|[|[|d]]]; try done; cbn [leaf Nat.sub] in *; [| |lia]; bits; rewrite Z.lor_spec, Hl; done.
  - rewrite Z.land_lor_distr_l. change (7 &u PG_ADDR_MASK) with 0. apply Z.lor_0_r.
  - lia.
  - split_and!; [bits; rewrite Z.lor_spec; apply orb_true_r..|by apply no_nx].
Qed.

(** A table below the entry: its permission bits are set. *)
Lemma own_level_flags k root d va t :
  space_ok k root → table_at (mw k) d root va = Some t → (d ≤ 2)%nat →
  has (get k (slot t (4 - d) va)) PG_PRESENT = true → leaf (4 - d) (get k (slot t (4 - d) va)) = false →
  let k' := put k (slot t (4 - d) va) (Z.lor (get k (slot t (4 - d) va)) PG_TABLE) in
  kept k k' root va d t ∧
  table_at (mw k') (S d) root va = Some (get k (slot t (4 - d) va) &u PG_ADDR_MASK) ∧
  perms (mw k') (S d) root va = perms (mw k) d root va ∧
  (∀ va', leaf_at (mw k') root va' = leaf_at (mw k) root va').
Proof.
  intros [F H] Ht Hd Hp Hl k'. pose proof (f_ptr _ _ F root d va t (elem_root root) Ht Hp Hl) as Hlt.
  destruct (or_table (get k (slot t (4 - d) va)) d) as ([V1 V2 V3 V4 V5] & VR & VU & VN); [apply word_range|done..|].
  set (v := Z.lor (get k (slot t (4 - d) va)) PG_TABLE) in *.
  pose proof (flag_forest _ _ _ _ _ _ _ F (elem_root root) Ht V1 Hp Hl V2 V3 V4 V5) as F'.
  pose proof (flag_fresh _ _ _ _ _ _ _ F (elem_root root) Ht V1 Hp Hl V2 V3 V4) as Ff.
  pose proof (flag_table _ _ _ _ _ _ _ F (elem_root root) Ht V1 Hp Hl V2 V3 V4) as FT.
  assert (kept k k' root va d t) as K.
  { apply kept_put; [done..|]. split; [done|]. destruct H as [H1 H2]. split; [|done].
    intros raw Hr Hr0. destruct (H1 raw Hr Hr0). split; [done|by apply Ff]. }
  split; [done|]. split; [|split].
  - unfold k', put; cbn [set_mw mw]. rewrite FT by apply elem_root. apply table_at_S. by exists t.
  - rewrite (perms_step _ _ _ _ _ (k_table _ _ _ _ _ _ K)), (k_perms _ _ _ _ _ _ K).
    assert (rd (mw k') (slot t (4 - d) va) = v) as -> by (unfold k', put; cbn [set_mw mw]; by rewrite word_wr_eq, u64_small).
    destruct (perms (mw k) d root va) as [[rw us] nx]. unfold and_perms. rewrite VR, VU, VN.
    by rewrite !andb_true_r, orb_false_r.
  - intros va'. apply (flag_leaf _ _ _ _ _ _ _ F (elem_root root) Ht V1 Hp Hl V2 V3 V4). apply elem_root.
Qed.

Lemma copy_entry n e d :
  n `mod` 4096 = 0 → 0 < n < MMIO_IDENTITY_LIMIT → is_u64 e → has e PG_PRESENT = true → leaf (4 - d) e = false →
  (d ≤ 2)%nat → points (Z.lor n (e &u 0xfff)) n d.
Proof.
  intros Hn Hr He Hp Hl Hd. unfold MMIO_IDENTITY_LIMIT in Hr.
  destruct (ptr_entry n (e &u 0xfff)) as (_ & Ha & Hb & Ht); [done|lia|apply (land_lt e 0xfff 12); lia|].
  assert (∀ i, 0 ≤ i < 12 → Z.testbit (Z.lor n (e &u 0xfff)) i = Z.testbit e i) as Hbit.
  { intros i Hi. rewrite Ht by done. change 0xfff with (2 ^ 12 - 1). rewrite ones_land by lia. apply Z.mod_pow2_bits_low. lia. }
  split; [lia| | |done|lia].
  - bits. by rewrite Hbit by lia.
  - destruct d as [|[|[|d]]]; try done; cbn [leaf Nat.sub] in *; [| |lia]; bits; by rewrite Hbit by lia.
Qed.

(** A table of another owner below the entry: a private copy takes its place. *)
Lemma own_level_copy k mm root d va t k1 mm1 n :
  space_ok k root → table_at (mw k) d root va = Some t → (d ≤ 2)%nat →
  has (get k (slot t (4 - d) va)) PG_PRESENT = true → leaf (4 - d) (get k (slot t (4 - d) va)) = false →
  dup_pt_page k mm (get k (slot t (4 - d) va) &u PG_ADDR_MASK) = (k1, mm1, n) → n ≠ 0 →
  let v := Z.lor n (get k (slot t (4 - d) va) &u 0xfff) in
  let k' := put k1 (slot t (4 - d) va) v in
  kept k k' root va d t ∧ points v n d ∧ get k' (slot t (4 - d) va) = v ∧
  (∀ va', leaf_at (mw k') root va' = leaf_at (mw k) root va').
Proof.
  intros [F H] Ht Hd Hp Hl E Hn v k'. set (told := get k (slot t (4 - d) va) &u PG_ADDR_MASK) in *.
  assert (table_at (mw k) (S d) root va = Some told) as Htold by (apply table_at_S; by exists t).
  unfold dup_pt_page in E. destruct (_ || _); [by injection E as <- <- <-|].
  destruct (alloc_pt_page k mm) as [[k0 mm0] p] eqn:E0.
  destruct (pt_alloc_ok k mm root k0 mm0 p) as [Hrel C]; [by split|done|].
  destruct (Z.eqb_spec p 0); [by injection E as <- <- <-|].
  destruct C as [(? & _)|(_ & _ & N0 & _)]; [done|].
  apply pair_eq in E as [[<- <-]%pair_eq <-].
  pose proof (new_page_fill k k0 root p (λ i _, rd (mw k0) (told + 8 * i)) F N0) as N.
  set (k1 := set_mw k0 _) in *.
  pose proof (n_agree _ _ _ _ N) as Hag. pose proof (agree_forest _ _ _ Hag F) as F1.
  pose proof (copy_entry p (get k (slot t (4 - d) va)) d (proj1 (n_fresh _ _ _ _ N)) (n_range _ _ _ _ N)
    (word_range _ _) Hp Hl Hd) as V. fold v in V. destruct V as [V1 V2 V3 V4 V5].
  assert (table_at (mw k1) d root va = Some t) as Ht1 by (by rewrite (agree_table _ _ _ _ _ _ Hag) by apply elem_root).
  assert (table_at (mw k1) (S d) root va = Some told) as Htold1 by (by rewrite (agree_table _ _ _ _ _ _ Hag) by apply elem_root).
  assert (∀ i, 0 ≤ i < 512 → rd (mw k1) (p + 8 * i) = rd (mw k1) (told + 8 * i)) as Hcopy.
  { intros i Hi. unfold k1; cbn [set_mw mw]. rewrite rd_fill_in by (unfold PT_ENTRIES; lia).
    rewrite u64_small by apply word_range. symmetry. apply rd_fill_out. intros j Hj Eq. unfold PT_ENTRIES in Hj.
    pose proof (proj1 (n_fresh _ _ _ _ N)) as Hpa. pose proof (addr_aligned (get k (slot t (4 - d) va))) as Hta. fold told in Hta.
    assert (told = p) as -> by (pose proof (Z.div_mod told 4096); pose proof (Z.div_mod p 4096); lia).
    by destruct (proj2 (n_fresh _ _ _ _ N) root (S d) va (elem_root root)). }
  pose proof (n_fresh _ _ _ _ N) as Hf.
  split; [|split; [done|split]].
  - apply kept_put; [done|done|done|done|]. split.
    + by apply (copy_forest _ _ _ _ _ _ _ _ F1 Ht1 Htold1 Hf V1 V2 V3 V4 V5).
    + destruct (n_heap _ _ _ _ N) as [H1 H2]. split; [|done]. intros raw Hr Hr0. destruct (H1 raw Hr Hr0). split; [done|].
      apply (copy_fresh _ _ _ _ _ _ _ _ F1 Ht1 Htold1 Hf V1 V2 V3 V4); [done| |done]. by apply (n_dist _ _ _ _ N).
  - unfold k', get, put; cbn [set_mw mw]. by rewrite word_wr_eq, u64_small.
  - intros va'. unfold k', put; cbn [set_mw mw].
    rewrite (copy_leaf _ _ _ _ _ _ _ _ F1 Ht1 Htold1 Hf V1 V2 V3 V4 Hcopy).
    apply leaf_ext. intros d1 t1 Ht'. by apply (Hag root); [apply elem_root|].
Qed.

(** The state of a path: the table of depth [d] on it, nothing else changed. *)
Record level_ok (k k' : kern) (root va : Z) (d : nat) (t' : Z) : Prop := {
  l_table : table_at (mw k') (S d) root va = Some t';
  l_perms : perms (mw k') (S d) root va = perms (mw k) d root va
}.

Lemma own_level_ok k mm root d va t a b c k' mm' t' rc :
  space_ok k root → table_at (mw k) d root va = Some t → (d ≤ 2)%nat → a ≠ 0 → b ≠ 0 → c ≠ 0 →
  (has (get k (slot t (4 - d) va)) PG_PRESENT = true → leaf (4 - d) (get k (slot t (4 - d) va)) = false) →
  own_level k mm (slot t (4 - d) va) a b c = (k', mm', t', rc) →
  space_ok k' root ∧ released k' = released k ∧
  (∀ va', leaf_at (mw k') root va' = leaf_at (mw k) root va') ∧ (rc = 0 → level_ok k k' root va d t').
Proof.
  intros Hok Ht Hd Ha Hb Hc Hnl. unfold own_level. destruct (has (get k _) PG_PRESENT) eqn:Hp; cbn [negb].
  - specialize (Hnl eq_refl). destruct (pt_page_pa_ok _); cbn [negb]; [|by intros [= <- <- <- <-]].
    destruct (mm_owns_pt_page mm _).
    { intros H. repeat apply pair_eq in H as [H <-]. destruct H.
      destruct (own_level_flags k root d va t Hok Ht Hd Hp Hnl) as (K & H1 & H2 & H3).
      split; [apply (k_ok _ _ _ _ _ _ K)|]. split; [done|]. split; [exact H3|]. intros _. split; [exact H1|exact H2]. }
    destruct (dup_pt_page k mm _) as [[k1 mm1] n] eqn:E. destruct (Z.eqb_spec n 0) as [->|Hn].
    + intros [= <- <- <- <-]. unfold dup_pt_page in E. destruct (_ || _); [by simplify_eq|].
      destruct (alloc_pt_page k mm) as [[k0 mm0] p] eqn:E0.
      destruct (pt_alloc_ok k mm root k0 mm0 p Hok E0) as [Hrel C]. destruct (Z.eqb_spec p 0) as [->|Hp0].
      * injection E as <- <-. destruct C as [(_ & _ & ? & Hm)|(? & _)]; [|done]. split; [done|]. split; [done|].
        split; [by rewrite Hm|done].
      * apply pair_eq in E as [_ E]. done.
    + intros H. repeat apply pair_eq in H as [H <-]. destruct H.
      destruct (own_level_copy k mm root d va t k1 mm1 n Hok Ht Hd Hp Hnl E Hn) as (K & V & Hg & H3).
      set (k2 := put k1 _ _) in *. destruct K as [K1 K2 K3 K4]. destruct V as [V1 V2 V3 V4 V5].
      destruct (own_level_flags k2 root d va t K1 K3 Hd) as (K' & L1 & L2 & L3); [by rewrite Hg..|].
      split; [apply (k_ok _ _ _ _ _ _ K')|]. split; [by rewrite <- K2, <- (k_rel _ _ _ _ _ _ K')|].
      split; [intros va'; rewrite <- H3; apply L3|]. intros _. split; [|by rewrite L2].
      rewrite L1, Hg. by f_equal.
  - destruct (alloc_pt_page k mm) as [[k1 mm1] n] eqn:E. destruct (Z.eqb_spec n 0) as [->|Hn].
    + intros [= <- <- <- <-]. destruct (pt_alloc_ok k mm root k1 mm1 0 Hok E) as [Hrel [(_ & _ & ? & Hm)|(? & _)]]; [|done].
      split; [done|]. split; [done|]. split; [by rewrite Hm|done].
    + intros H. repeat apply pair_eq in H as [H <-]. destruct H.
      destruct (own_level_new k mm root d va t k1 mm1 n Hok Ht Hd Hp E Hn) as (K & H1 & H2 & H3).
      split; [apply (k_ok _ _ _ _ _ _ K)|]. split; [apply (k_rel _ _ _ _ _ _ K)|]. split; [exact H3|].
      intros _. split; [exact H1|exact H2].
Qed.

(** * Splits *)

Lemma leaf_2m_of_eq lf i :
  0 ≤ lf < 2 ^ 52 → 0 ≤ i < 512 → leaf_2m_of lf i = split_leaf lf i.
Proof.
  intros Hlf Hi. unfold leaf_2m_of, split_leaf. change keep_1g with Paging.split_keep. f_equal. f_equal.
  pose proof (Z.mod_pos_bound lf (2 ^ 30) ltac:(lia)). pose proof (base_sub lf 30 ltac:(lia)) as Hb.
  rewrite (Z.mod_small lf (2 ^ 52)) in Hb by lia.
  change 0x3FFFFFFF with (2 ^ 30 - 1). rewrite land_mask by lia. rewrite addr_1g, (Z.mod_small lf (2 ^ 52)) by lia.
  change PAGE_SIZE_2M with (2 ^ 21). rewrite (u64_small (i * _)), (u64_small (_ + _)) by lia.
  rewrite land_mask by lia. by rewrite addr_2m, (Z.mod_small _ (2 ^ 52)) by lia.
Qed.

Lemma frame_split_1g lf va :
  0 ≤ lf < 2 ^ 52 → frame_of va (2%nat, split_leaf lf (idx 2 va)) = frame_of va (3%nat, lf).
Proof.
  intros Hlf. unfold frame_of; cbn [fst snd].
  destruct (split_leaf_eq lf Hlf (idx 2 va) (idx_range 2 va)) as (Se & Sf & Sa & S0 & S1).
  rewrite !addr_mask_eq by lia. unfold shift. change (3 + 9 * 3%nat) with 30. change (3 + 9 * 2%nat) with 21.
  rewrite (offset_1g va), Se. set (f := Z.lor _ _) in *. set (a := lf - lf `mod` 2 ^ 30 + idx 2 va * 2 ^ 21) in *.
  rewrite !(Z.mod_small _ (2 ^ 52)) by lia. rewrite <- (Z.add_mod_idemp_l a f), Sa, Z.add_0_l, (Z.mod_small f) by lia.
  unfold a. lia.
Qed.

Lemma split_1g_mm k mm root va t k' mm' rc :
  space_ok k root → table_at (mw k) 1 root va = Some t →
  has (get k (slot t 3 va)) PG_PRESENT = true → has (get k (slot t 3 va)) PG_PS_2M = true →
  get k (slot t 3 va) < 2 ^ 52 →
  split_l3_1g_to_l2 k mm (slot t 3 va) = (k', mm', rc) →
  space_ok k' root ∧ released k' = released k ∧ same_frames k k' root ∧
  (rc = 0 → kept k k' root va 1 t ∧ has (get k' (slot t 3 va)) PG_PS_2M = false ∧
    ∃ n, table_at (mw k') 2 root va = Some n ∧ rd (mw k') (slot n 2 va) < 2 ^ 52).
Proof.
  intros Hok Ht Hp Hs Hlf. unfold split_l3_1g_to_l2. set (lf := get k (slot t 3 va)) in *. rewrite Hp, Hs. cbn [negb orb].
  assert (0 ≤ lf < 2 ^ 52) as Hlf' by (split; [apply word_range|done]).
  destruct (alloc_pt_page k mm) as [[k0 mm0] n] eqn:E0.
  destruct (pt_alloc_ok k mm root k0 mm0 n Hok E0) as [Hrel C]. destruct (Z.eqb_spec n 0) as [->|Hn].
  { intros [= <- <- <-]. destruct C as [(_ & _ & ? & Hm)|(? & _)]; [|done].
    split_and!; [done|done| |done]. intros va'. by rewrite Hm. }
  destruct C as [(? & _)|(_ & _ & N0 & _)]; [done|]. intros H. repeat apply pair_eq in H as [H <-]. destruct H.
  destruct Hok as [F Hh]. pose proof (new_page_fill k k0 root n (λ i _, leaf_2m_of lf i) F N0) as N.
  set (k1 := set_mw k0 _) in *. pose proof (n_range _ _ _ _ N) as Hr. unfold MMIO_IDENTITY_LIMIT in Hr.
  destruct (split_ptr lf Hlf' n (proj1 (n_fresh _ _ _ _ N)) ltac:(lia)) as (Va & Vr & Vb).
  change (lf &u keep_1g) with (lf &u Paging.split_keep). set (v := Z.lor n ((lf &u Paging.split_keep) &u ~u PG_PS_2M)) in *.
  assert (∀ va', rd (mw k1) (slot n 2 va') = split_leaf lf (idx 2 va')) as Hnew.
  { intros va'. unfold k1; cbn [set_mw mw]. unfold slot. pose proof (idx_range 2 va').
    rewrite rd_fill_in by (unfold PT_ENTRIES; lia). rewrite leaf_2m_of_eq by done. apply u64_small.
    destruct (split_leaf_eq lf Hlf' (idx 2 va')) as (-> & ? & _ & ? & ?); lia. }
  assert (∀ va', has (rd (mw k1) (slot n 2 va')) PG_PRESENT = true ∧ has (rd (mw k1) (slot n 2 va')) PG_PS_2M = true) as Hleaf.
  { intros va'. rewrite Hnew. bits. rewrite !(split_leaf_bit lf) by (lia || apply idx_range). rewrite Hp, orb_true_r. done. }
  assert (points v n 1) as V.
  { split; [lia| | |done|lia]; cbn [leaf Nat.sub]; bits; rewrite Vb by lia; [by rewrite Hp|by destruct (Z.testbit lf 7)]. }
  assert (∀ va', let e := rd (mw k1) (slot n (4 - 2) va') in has e PG_PRESENT = true → leaf (4 - 2) e = true) as Hdead.
  { intros va' e _. apply Hleaf. }
  pose proof (link_kept k k1 root va t n v 1 F Ht N V Hrel Hdead) as K.
  destruct (link_next k k1 root va t n v 1 F Ht N V Hrel Hdead) as [T2 _].
  pose proof (link_frames k k1 root va t n v 1 F Ht N V Hdead Hp Hs) as LF.
  pose proof (own_link_new k k1 root va t n v 1 F Ht N va) as LN.
  change (4 - 1)%nat with 3%nat in *. change (4 - 2)%nat with 2%nat in *. set (k' := put k1 (slot t 3 va) v) in *.
  split; [apply (k_ok _ _ _ _ _ _ K)|]. split; [apply (k_rel _ _ _ _ _ _ K)|]. split.
  - apply LF; [|lia]. intros va' e. destruct (Hleaf va') as [H1 H2]. split; [exact H1|]. split; [exact H2|].
    unfold e. rewrite Hnew. by apply frame_split_1g.
  - intros _. split; [exact K|]. split.
    + unfold k', get, put; cbn [set_mw mw]. rewrite word_wr_eq, u64_small by lia. apply (v_table _ _ _ V).
    + exists n. split; [exact T2|]. rewrite LN, Hnew.
      destruct (split_leaf_eq lf Hlf' (idx 2 va) (idx_range 2 va)) as (-> & ? & _ & ? & ?). lia.
Qed.

Lemma offset_2m va : va `mod` 2 ^ 21 = idx 1 va * 2 ^ 12 + va `mod` 2 ^ 12.
Proof.
  rewrite idx_eq. unfold shift. change (2 ^ (3 + 9 * 1%nat)) with (2 ^ 12). change 512 with (2 ^ 9).
  change (2 ^ 21) with (2 ^ 12 * 2 ^ 9). rewrite Z.rem_mul_r by lia. lia.
Qed.

(** The flags a split 2 MiB page hands on: the ones kept, user access in the user
    region. *)
Definition keep_of (ent2 va : Z) : Z :=
  let keep := ent2 &u keep_2m in
  if (0x200000 <=? va) && (va <? MMIO_IDENTITY_LIMIT) then Z.lor keep PG_US else keep.

Lemma keep_of_ok ent2 va :
  0 ≤ ent2 < 2 ^ 52 → has ent2 PG_PRESENT = true →
  let f := keep_of ent2 va &u ~u PG_PS_2M in
  0 ≤ f < 4096 ∧ Z.testbit f 0 = true ∧ Z.testbit f 7 = false.
Proof.
  intros He Hp f.
  assert (∀ i, 0 ≤ i → 11 ≤ i → Z.testbit (keep_of ent2 va) i = false) as Hhigh.
  { intros i Hi Hi'. assert (Z.testbit (ent2 &u keep_2m) i = false) as Hk.
    { rewrite Z.land_spec. destruct (Z.lt_ge_cases i 52).
      - change keep_2m with (0x51F + 2 ^ 11 * 2 ^ 52). rewrite <- (Z.mod_pow2_bits_low (_ + _) 52) by lia.
        rewrite Z.mod_add, Z.mod_small by lia. rewrite (Z.bits_above_log2 0x51F i), andb_false_r; [done|done|].
        change (Z.log2 0x51F) with 10. lia.
      - rewrite <- (Z.mod_small ent2 (2 ^ 52)), Z.mod_pow2_bits_high by lia. done. }
    unfold keep_of. destruct (_ && _); [|done]. rewrite Z.lor_spec, Hk. unfold PG_US.
    rewrite Z.shiftl_1_l, Z.pow2_bits_false by lia. done. }
  split_and!.
  - unfold f. apply Z.land_nonneg. right. done.
  - assert (0 ≤ f) as Hf by (unfold f; apply Z.land_nonneg; right; done).
    assert (f = f `mod` 2 ^ 11) as ->; [|pose proof (Z.mod_pos_bound f (2 ^ 11)); lia].
    apply Z.bits_inj'. intros i Hi. destruct (Z.lt_ge_cases i 11); [by rewrite Z.mod_pow2_bits_low|].
    rewrite Z.mod_pow2_bits_high by lia. unfold f. by rewrite Z.land_spec, Hhigh.
  - unfold f, keep_of. bits. rewrite Z.land_spec. change (Z.testbit (~u (Z.shiftl 1 7)) 0) with true. rewrite andb_true_r.
    destruct (_ && _); rewrite ?Z.lor_spec, Z.land_spec, Hp; done.
  - unfold f. rewrite Z.land_spec. change (Z.testbit (~u PG_PS_2M) 7) with false. apply andb_false_r.
Qed.

Lemma leaf_4k_ok ent2 keep i :
  0 ≤ ent2 < 2 ^ 52 → 0 ≤ i < 512 → 0 ≤ keep &u ~u PG_PS_2M < 4096 →
  let e := leaf_4k ent2 keep i in
  e &u PG_ADDR_MASK = ent2 - ent2 `mod` 2 ^ 21 + i * 2 ^ 12 ∧ 0 ≤ e < 2 ^ 52 ∧
  Z.testbit e 0 = Z.testbit (keep &u ~u PG_PS_2M) 0.
Proof.
  intros He Hi Hf e. pose proof (base_sub ent2 21 ltac:(lia)) as Hb.
  rewrite (Z.mod_small ent2 (2 ^ 52)) in Hb by lia. unfold e, leaf_4k. change PAGE_SIZE_4K with (2 ^ 12).
  rewrite addr_2m, (Z.mod_small ent2 (2 ^ 52)) by lia. rewrite (u64_small (i * _)), (u64_small (_ + _)) by lia.
  set (a := ent2 - ent2 `mod` 2 ^ 21 + i * 2 ^ 12).
  assert (a `mod` 4096 = 0) as Ha.
  { unfold a. rewrite Z.mod_add by lia. pose proof (Z.div_mod ent2 (2 ^ 21) ltac:(lia)).
    replace (ent2 - ent2 `mod` 2 ^ 21) with ((ent2 / 2 ^ 21 * 2 ^ 9) * 4096) by lia. apply Z.mod_mul. lia. }
  assert (a &u PG_ADDR_MASK = a) as ->.
  { rewrite addr_4k, (Z.mod_small a (2 ^ 52)) by (unfold a; lia). change (2 ^ 12) with 4096 at 1. rewrite Ha. lia. }
  destruct (ptr_entry a (keep &u ~u PG_PS_2M)) as (_ & H1 & H2 & H3); [done|unfold a; lia|done|].
  split_and!; [done|lia|lia|by apply H3].
Qed.

Lemma split_2m_mm k mm root va t k' mm' rc :
  space_ok k root → table_at (mw k) 2 root va = Some t →
  has (get k (slot t 2 va)) PG_PRESENT = true → has (get k (slot t 2 va)) PG_PS_2M = true →
  get k (slot t 2 va) < 2 ^ 52 →
  split_2m_to_4k k mm (slot t 2 va) va = (k', mm', rc) →
  space_ok k' root ∧ released k' = released k ∧ same_frames k k' root ∧
  (rc = 0 → kept k k' root va 2 t ∧ has (get k' (slot t 2 va)) PG_PS_2M = false).
Proof.
  intros Hok Ht Hp Hs Hlf. unfold split_2m_to_4k. set (lf := get k (slot t 2 va)) in *. rewrite Hp, Hs. cbn [negb orb].
  assert (0 ≤ lf < 2 ^ 52) as Hlf' by (split; [apply word_range|done]). fold (keep_of lf va).
  destruct (alloc_pt_page k mm) as [[k0 mm0] n] eqn:E0.
  destruct (pt_alloc_ok k mm root k0 mm0 n Hok E0) as [Hrel C]. destruct (Z.eqb_spec n 0) as [->|Hn].
  { intros [= <- <- <-]. destruct C as [(_ & _ & ? & Hm)|(? & _)]; [|done].
    split_and!; [done|done| |done]. intros va'. by rewrite Hm. }
  destruct C as [(? & _)|(_ & _ & N0 & _)]; [done|]. intros H. repeat apply pair_eq in H as [H <-]. destruct H.
  destruct Hok as [F Hh]. pose proof (new_page_fill k k0 root n (λ i _, leaf_4k lf (keep_of lf va) i) F N0) as N.
  set (k1 := set_mw k0 _) in *. pose proof (n_range _ _ _ _ N) as Hr. unfold MMIO_IDENTITY_LIMIT in Hr.
  destruct (keep_of_ok lf va Hlf' Hp) as (K1 & K2 & K3). set (f := keep_of lf va &u ~u PG_PS_2M) in *.
  destruct (ptr_entry n f (proj1 (n_fresh _ _ _ _ N)) ltac:(lia) K1) as (_ & Va & Vr & Vb). set (v := Z.lor n f) in *.
  assert (∀ va', let e := rd (mw k1) (slot n 1 va') in has e PG_PRESENT = true ∧ leaf 1 e = true ∧
    frame_of va' (1%nat, e) = frame_of va' (2%nat, lf)) as Hnew.
  { intros va' e. pose proof (idx_range 1 va') as Hi. destruct (leaf_4k_ok lf (keep_of lf va) (idx 1 va') Hlf' Hi K1) as (L1 & L2 & L3).
    assert (e = leaf_4k lf (keep_of lf va) (idx 1 va')) as Ee.
    { unfold e, k1; cbn [set_mw mw]. unfold slot. rewrite rd_fill_in by (unfold PT_ENTRIES; lia). apply u64_small. lia. }
    rewrite Ee. split; [bits; rewrite L3; exact K2|]. split; [reflexivity|]. unfold frame_of; cbn [fst snd].
    change (addr_mask 1) with PG_ADDR_MASK. rewrite L1, addr_mask_eq by lia. unfold shift.
    change (3 + 9 * 2%nat) with 21. change (3 + 9 * 1%nat) with 12. rewrite (offset_2m va'), (Z.mod_small lf (2 ^ 52)) by lia. lia. }
  assert (points v n 2) as V.
  { split; [lia| | |done|lia]; cbn [leaf Nat.sub]; bits; by rewrite Vb by lia. }
  assert (∀ va', let e := rd (mw k1) (slot n (4 - 3) va') in has e PG_PRESENT = true → leaf (4 - 3) e = true) as Hdead.
  { intros va' e _. reflexivity. }
  pose proof (link_kept k k1 root va t n v 2 F Ht N V Hrel Hdead) as K.
  pose proof (link_frames k k1 root va t n v 2 F Ht N V Hdead Hp Hs) as LF.
  change (4 - 2)%nat with 2%nat in *. change (4 - 3)%nat with 1%nat in *. set (k' := put k1 (slot t 2 va) v) in *.
  split; [apply (k_ok _ _ _ _ _ _ K)|]. split; [apply (k_rel _ _ _ _ _ _ K)|]. split; [apply LF; [exact Hnew|lia]|].
  intros _. split; [exact K|]. unfold k', get, put; cbn [set_mw mw]. rewrite word_wr_eq, u64_small by lia. apply (v_table _ _ _ V).
Qed.

(** * The path *)

(** A large page that holds the address has no flag above bit 51. *)
Definition plain_at (k : kern) (root va : Z) : Prop :=
  ∀ j e, leaf_at (mw k) root va = Some (j, e) → (2 ≤ j)%nat → e < 2 ^ 52.

Lemma huge_spec e : huge e = has e PG_PRESENT && has e PG_PS_2M.
Proof.
  unfold huge. bits. change (Z.lor (Z.shiftl 1 0) (Z.shiftl 1 7)) with 129. apply eq_bool_prop_intro.
  rewrite andb_True, Is_true_true, Z.eqb_eq, !Is_true_true. split.
  - intros H. assert (∀ i, Z.testbit (e &u 129) i = Z.testbit 129 i) as Hb by (intros; by rewrite H).
    pose proof (Hb 0) as H0. pose proof (Hb 7) as H7. rewrite Z.land_spec in H0, H7.
    change (Z.testbit 129 0) with true in *. change (Z.testbit 129 7) with true in *. by rewrite andb_true_r in H0, H7.
  - intros [H0 H7]. apply Z.bits_inj'. intros i Hi. rewrite Z.land_spec.
    destruct (decide (i = 0)) as [->|]; [by rewrite H0|]. destruct (decide (i = 7)) as [->|]; [by rewrite H7|].
    assert (Z.testbit 129 i = false) as ->; [|apply andb_false_r].
    change 129 with (Z.lor (2 ^ 0) (2 ^ 7)). rewrite Z.lor_spec, !Z.pow2_bits_false by lia. done.
Qed.

(** Where the split at level 3 leads: no large page there, the path as before. *)
Lemma presplit_3 k mm root va l3 k' mm' rc :
  space_ok k root → plain_at k root va → table_at (mw k) 1 root va = Some l3 →
  (if huge (get k (slot l3 3 va)) then split_l3_1g_to_l2 k mm (slot l3 3 va) else (k, mm, 0)) = (k', mm', rc) →
  space_ok k' root ∧ released k' = released k ∧ same_frames k k' root ∧
  (∀ e, leaf_at (mw k) root va = Some (1%nat, e) → leaf_at (mw k') root va = Some (1%nat, e)) ∧
  (rc = 0 → kept k k' root va 1 l3 ∧ plain_at k' root va ∧
    (has (get k' (slot l3 3 va)) PG_PRESENT = true → has (get k' (slot l3 3 va)) PG_PS_2M = false)).
Proof.
  intros Hok Hpl Ht. rewrite huge_spec. pose proof (leaf_at_from _ _ _ _ _ Ht) as Hl.
  change (4 - 1)%nat with 3%nat in Hl. cbn [leaf_from leaf] in Hl. fold (get k (slot l3 3 va)) in Hl.
  destruct (has (get k (slot l3 3 va)) PG_PRESENT) eqn:Hp; cbn [negb andb] in *.
  2:{ intros [= <- <- <-]. split; [done|]. split; [done|]. split; [intros va'; done|]. split; [done|].
      intros _. split; [by split|]. split; [done|]. by rewrite Hp. }
  destruct (has (get k (slot l3 3 va)) PG_PS_2M) eqn:Hs.
  2:{ intros [= <- <- <-]. split; [done|]. split; [done|]. split; [intros va'; done|]. split; [done|].
      intros _. split; [by split|]. done. }
  intros E. pose proof (Hpl _ _ Hl ltac:(lia)) as Hlt.
  destruct (split_1g_mm k mm root va l3 k' mm' rc Hok Ht Hp Hs Hlt E) as (H1 & H2 & H3 & H4).
  split; [done|]. split; [done|]. split; [done|]. split; [intros e; by rewrite Hl|].
  intros Hrc. destruct (H4 Hrc) as (K & Hn & n & Hn2 & Hn3). split; [done|]. split; [|done].
  intros j e. rewrite (leaf_at_from _ _ _ _ _ Hn2). change (4 - 2)%nat with 2%nat. cbn [leaf_from leaf].
  set (e2 := rd (mw k') (slot n 2 va)) in *. destruct (has e2 PG_PRESENT); [|done]. cbn [negb].
  destruct (has e2 PG_PS_2M).
  - intros E2 _. by injection E2 as <- <-.
  - intros E1. destruct (negb _) in E1; [done|]. injection E1 as <- _. lia.
Qed.

Lemma presplit_2 k mm root va l2 k' mm' rc :
  space_ok k root → plain_at k root va → table_at (mw k) 2 root va = Some l2 →
  (if huge (get k (slot l2 2 va)) then split_2m_to_4k k mm (slot l2 2 va) va else (k, mm, 0)) = (k', mm', rc) →
  space_ok k' root ∧ released k' = released k ∧ same_frames k k' root ∧
  (∀ e, leaf_at (mw k) root va = Some (1%nat, e) → leaf_at (mw k') root va = Some (1%nat, e)) ∧
  (rc = 0 → kept k k' root va 2 l2 ∧
    (has (get k' (slot l2 2 va)) PG_PRESENT = true → has (get k' (slot l2 2 va)) PG_PS_2M = false)).
Proof.
  intros Hok Hpl Ht. rewrite huge_spec. pose proof (leaf_at_from _ _ _ _ _ Ht) as Hl.
  change (4 - 2)%nat with 2%nat in Hl. cbn [leaf_from leaf] in Hl. fold (get k (slot l2 2 va)) in Hl.
  destruct (has (get k (slot l2 2 va)) PG_PRESENT) eqn:Hp; cbn [negb andb] in *.
  2:{ intros [= <- <- <-]. split; [done|]. split; [done|]. split; [intros va'; done|]. split; [done|].
      intros _. split; [by split|]. by rewrite Hp. }
  destruct (has (get k (slot l2 2 va)) PG_PS_2M) eqn:Hs.
  2:{ intros [= <- <- <-]. split; [done|]. split; [done|]. split; [intros va'; done|]. split; [done|].
      intros _. split; [by split|]. done. }
  intros E. pose proof (Hpl _ _ Hl ltac:(lia)) as Hlt.
  destruct (split_2m_mm k mm root va l2 k' mm' rc Hok Ht Hp Hs Hlt E) as (H1 & H2 & H3 & H4).
  split; [done|]. split; [done|]. split; [done|]. split; [intros e; by rewrite Hl|].
  intros Hrc. by destruct (H4 Hrc).
Qed.

Lemma same_frames_trans k1 k2 k3 root : same_frames k1 k2 root → same_frames k2 k3 root → same_frames k1 k3 root.
Proof. intros H1 H2 va. by rewrite H2, H1. Qed.
Lemma same_leaves k k' root : (∀ va, leaf_at (mw k') root va = leaf_at (mw k) root va) → same_frames k k' root.
Proof. intros H va. by rewrite H. Qed.

(** What each prefix of the path's construction keeps. *)
Record path_kept (k k' : kern) (root va : Z) : Prop := {
  p_ok : space_ok k' root;
  p_rel : released k' = released k;
  p_frames : same_frames k k' root;
  p_leaf : ∀ e, leaf_at (mw k) root va = Some (1%nat, e) → leaf_at (mw k') root va = Some (1%nat, e)
}.
Lemma path_kept_trans k1 k2 k3 root va : path_kept k1 k2 root va → path_kept k2 k3 root va → path_kept k1 k3 root va.
Proof.
  intros [A1 A2 A3 A4] [B1 B2 B3 B4]. split; [done|congruence|by eapply same_frames_trans|auto].
Qed.

Lemma own_level_path k mm root d va t a b c k' mm' t' rc :
  space_ok k root → table_at (mw k) d root va = Some t → (d ≤ 2)%nat → a ≠ 0 → b ≠ 0 → c ≠ 0 →
  (has (get k (slot t (4 - d) va)) PG_PRESENT = true → leaf (4 - d) (get k (slot t (4 - d) va)) = false) →
  own_level k mm (slot t (4 - d) va) a b c = (k', mm', t', rc) →
  path_kept k k' root va ∧ (plain_at k root va → plain_at k' root va) ∧ (rc = 0 → level_ok k k' root va d t').
Proof.
  intros Hok Ht Hd Ha Hb Hc Hn E.
  destruct (own_level_ok k mm root d va t a b c k' mm' t' rc Hok Ht Hd Ha Hb Hc Hn E) as (H1 & H2 & H3 & H4).
  split; [|split; [|done]].
  - split; [done|done|by apply same_leaves|]. intros e. by rewrite H3.
  - intros Hpl j e. rewrite H3. apply Hpl.
Qed.

Lemma own_path_ok k mm va k' mm' l1 rc :
  let root := pml4 mm in
  space_ok k root → plain_at k root va → own_path k mm va = (k', mm', l1, rc) →
  path_kept k k' root va ∧
  (rc = 0 → table_at (mw k') 3 root va = Some l1 ∧ perms (mw k') 3 root va = (true, true, false)).
Proof.
  intros root Hok Hpl. unfold own_path.
  destruct (own_level k mm _ _ _ _) as [[[k1 mm1] l3] rc1] eqn:E1.
  destruct (own_level_path k mm root 0 va root (-3) (-4) (-5) k1 mm1 l3 rc1) as (P1 & Q1 & L1); [done|done|lia|done|done|done|done|exact E1|].
  destruct (nz rc1) eqn:Hz1; [intros [= <- <- <- <-]; split; [done|by intros ->]|].
  apply nz_false in Hz1. destruct (L1 Hz1) as [T1 M1]. specialize (Q1 Hpl).
  destruct (if huge _ then _ else _) as [[k2 mm2] rc2] eqn:E2.
  destruct (presplit_3 k1 mm1 root va l3 k2 mm2 rc2 (p_ok _ _ _ _ P1) Q1 T1 E2) as (A1 & A2 & A3 & A4 & A5).
  assert (path_kept k k2 root va) as P2 by (eapply path_kept_trans; [exact P1|by split]).
  destruct (nz rc2) eqn:Hz2; [by intros [= <- <- <- <-]|].
  apply nz_false in Hz2. destruct (A5 Hz2) as ([_ _ T2 M2] & Q2 & N2).
  destruct (own_level k2 mm2 _ _ _ _) as [[[k3 mm3] l2] rc3] eqn:E3.
  destruct (own_level_path k2 mm2 root 1 va l3 (-7) (-8) (-9) k3 mm3 l2 rc3) as (P3 & Q3 & L3); [done|done|lia|done|done|done|exact N2|exact E3|].
  pose proof (path_kept_trans _ _ _ _ _ P2 P3) as P3'.
  destruct (nz rc3) eqn:Hz3; [intros [= <- <- <- <-]; split; [done|by intros ->]|].
  apply nz_false in Hz3. destruct (L3 Hz3) as [T3 M3]. specialize (Q3 Q2).
  destruct (if huge (get k3 (slot l2 2 va)) then _ else _) as [[k4 mm4] rc4] eqn:E4.
  destruct (presplit_2 k3 mm3 root va l2 k4 mm4 rc4 (p_ok _ _ _ _ P3) Q3 T3 E4) as (B1 & B2 & B3 & B4 & B5).
  assert (path_kept k k4 root va) as P4 by (eapply path_kept_trans; [exact P3'|by split]).
  destruct (nz rc4) eqn:Hz4; [by intros [= <- <- <- <-]|].
  apply nz_false in Hz4. destruct (B5 Hz4) as ([_ _ T4 M4] & N4).
  intros E5. destruct (own_level_path k4 mm4 root 2 va l2 (-11) (-12) (-13) k' mm' l1 rc) as (P5 & _ & L5); [done|done|lia|done|done|done|exact N4|exact E5|].
  split; [by eapply path_kept_trans|]. intros Hrc. destruct (L5 Hrc) as [T5 M5]. split; [done|].
  rewrite M5, M4, M3, M2, M1. done.
Qed.

(** * The page *)

Lemma not_bit y i : 0 ≤ i < 64 → Z.testbit (~u y) i = negb (Z.testbit y i).
Proof. intros Hi. unfold u64. rewrite Z.mod_pow2_bits_low by lia. apply Z.lnot_spec. lia. Qed.

Lemma in_mask x mask : is_u64 x → x &u ~u mask = 0 → x &u mask = x.
Proof.
  intros Hx Hm. apply Z.bits_inj'. intros i Hi. rewrite Z.land_spec. destruct (Z.lt_ge_cases i 64).
  - assert (Z.testbit (x &u ~u mask) i = false) as Hb by (by rewrite Hm, Z.bits_0).
    rewrite Z.land_spec, not_bit in Hb by lia. by destruct (Z.testbit x i), (Z.testbit mask i).
  - rewrite <- (Z.mod_small x (2 ^ 64)), Z.mod_pow2_bits_high by lia. reflexivity.
Qed.

(** Outside the address bits an entry's bits are the flags' ones. *)
Lemma user_leaf_bit pa flags i :
  0 ≤ i < 64 → Z.testbit PG_ADDR_MASK i = false → i ≠ 0 → i ≠ 2 → i ≠ 7 →
  Z.testbit (user_leaf pa flags) i = Z.testbit flags i.
Proof.
  intros Hi Hm H0 H2 H7. unfold user_leaf. rewrite !Z.lor_spec, !Z.land_spec, not_bit, Hm, andb_false_r by lia.
  unfold PG_PRESENT, PG_US, PG_PS_2M. rewrite Z.lor_spec, !Z.shiftl_1_l, !Z.pow2_bits_false by lia.
  cbn [orb negb]. by rewrite andb_true_r, !orb_false_r.
Qed.

Lemma user_leaf_ok pa flags :
  is_u64 pa → pa &u ~u PG_ADDR_MASK = 0 → flags &u PG_ADDR_MASK = 0 →
  let e := user_leaf pa flags in
  is_u64 flags → is_u64 e ∧ e &u PG_ADDR_MASK = pa ∧ has e PG_PRESENT = true ∧ has e PG_US = true ∧ has e PG_PS_2M = false.
Proof.
  intros Hpa Hm%in_mask Hfl e Hf; [|exact Hpa]. split; [|split_and!].
  - unfold e, user_leaf. rewrite Hm. repeat apply (lor_lt _ _ 64); try lia; try done.
    apply (land_lt _ _ 64); [lia|apply Z.mod_pos_bound; lia].
  - unfold e, user_leaf. rewrite !Z.land_lor_distr_l, Hm, Hm, <- Z.land_assoc, (Z.land_comm (~u _)), Z.land_assoc, Hfl.
    rewrite Z.land_0_l. change (PG_PRESENT &u PG_ADDR_MASK) with 0. change (PG_US &u PG_ADDR_MASK) with 0.
    by rewrite !Z.lor_0_r.
  - unfold e, user_leaf. bits. rewrite !Z.lor_spec. change (Z.testbit (Z.shiftl 1 0) 0) with true.
    by rewrite orb_true_r.
  - unfold e, user_leaf. bits. rewrite !Z.lor_spec. change (Z.testbit (Z.shiftl 1 2) 2) with true. by rewrite orb_true_r.
  - unfold e, user_leaf. bits. rewrite !Z.lor_spec, !Z.land_spec, not_bit by lia. rewrite Z.lor_spec.
    change (Z.testbit (Z.shiftl 1 7) 7) with true. change (Z.testbit PG_ADDR_MASK 7) with false.
    change (Z.testbit (Z.shiftl 1 0) 7) with false. change (Z.testbit (Z.shiftl 1 2) 7) with false.
    cbn [orb negb]. by rewrite !andb_false_r.
Qed.

(** The translation [mm_map_user_page] installs. *)
Definition user_tr (pa flags va : Z) : tr :=
  Tr (pa + va `mod` 4096) (has flags PG_RW) true (has flags PG_NX) false
    (has flags PG_PCD) (has flags PG_PWT) (has flags PG_GLOBAL).

Lemma put_leaf k root va l1 pa flags :
  space_ok k root → table_at (mw k) 3 root va = Some l1 → perms (mw k) 3 root va = (true, true, false) →
  is_u64 pa → is_u64 flags → pa &u ~u PG_ADDR_MASK = 0 → flags &u PG_ADDR_MASK = 0 →
  let k' := put k (slot l1 1 va) (user_leaf pa flags) in
  space_ok k' root ∧
  ∀ va', walk (mw k') root va' =
    if decide (pfx 4 va' = pfx 4 va) then Some (user_tr pa flags va') else walk (mw k) root va'.
Proof.
  intros [F [H1 H2]] Ht Hpm Hpa Hfl Hm Hf k'. destruct (user_leaf_ok pa flags Hpa Hm Hf Hfl) as (V & Va & Vp & Vu & Vs).
  set (v := user_leaf pa flags) in *.
  assert (has v PG_PRESENT = true → leaf (4 - 3) v = true) as Vl by reflexivity.
  split.
  - split; [exact (leaf_forest _ _ _ _ _ _ _ F (elem_root root) Ht V Vl)|]. split; [|exact H2].
    intros raw Hr Hr0. destruct (H1 raw Hr Hr0) as [? ?]. split; [done|].
    by apply (leaf_fresh _ _ _ _ _ _ _ F (elem_root root) Ht V Vl).
  - intros va'. destruct (decide _) as [He|Hne].
    2:{ by apply (store_walk _ _ _ _ _ _ v F (elem_root root) Ht); [apply elem_root|]. }
    assert (pfx 3 va' = pfx 3 va) as He3 by (apply (pfx_le 3 4); [lia|done]).
    assert (table_at (mw k) 3 root va' = Some l1) as Ht'.
    { by rewrite (table_at_pfx _ 3 root va' va) by (done || lia). }
    assert (table_at (mw k') 3 root va' = Some l1) as Ht2.
    { rewrite <- Ht'. apply (store_table _ _ _ _ _ _ v F (elem_root root) Ht); [apply elem_root|left; lia]. }
    rewrite (walk_perms _ 3 _ _ _ Ht2).
    assert (perms (mw k') 3 root va' = (true, true, false)) as ->.
    { rewrite <- Hpm, <- (perms_pfx _ _ _ va' va) by (done || lia).
      apply (store_perms _ _ _ _ _ _ v F (elem_root root) Ht); [apply elem_root|lia]. }
    pose proof (store_hit _ _ _ _ _ v Ht V va' He) as Hh.
    change (4 - 3)%nat with 1%nat in *. cbn [walk_from leaf].
    change (rd (mw k') (slot l1 1 va') = v) in Hh. rewrite Hh, Vp. cbn [negb andb orb]. f_equal.
    unfold leaf_tr, user_tr. change (addr_mask 1) with PG_ADDR_MASK. change (2 ^ shift 1) with 4096.
    rewrite Va, Vs, Vu. bits. unfold v. by rewrite !user_leaf_bit by (lia || reflexivity).
Qed.

(** An early return: nothing is touched. *)
Ltac early := intros [= <- <- <-]; split; [assumption|]; split; [intros ? _; reflexivity|]; split; [intros _; reflexivity|]; discriminate.


Lemma user_space_ok : space_ok user_kern 0x1000.
Proof.
  split; [apply user_forest|]. split.
  - intros raw Hr _. cbn [user_kern pages] in Hr.
    assert (0x100000 ≤ aligned raw < 0x200000 ∧ aligned raw `mod` 4096 = 0) as [Ha Hm].
    { repeat (apply elem_of_cons in Hr as [->|Hr]; [done|]). by apply not_elem_of_nil in Hr. }
    split; [unfold MMIO_IDENTITY_LIMIT; lia|]. split; [done|].
    intros r d va ->%list_elem_of_singleton Ht. cbn [user_kern mw] in Ht. apply user_tables in Ht. lia.
  - apply (bool_decide_unpack _). vm_compute. exact I.
Qed.

