(* ===== verification/FrameService.v ===== *)
(** What the frame table of [mm/frame.c] promises to the components that hold references
    to frames, as a class, and the proof that the table over the page pool keeps it. *)
From S2P Require Import Prelude Mem Heap Pmm Frame FrameSpec FrameProps.
Import Heap Pmm Frame.

(** Live frames have a reference count; the bytes of a frame are there as long as it is
    live. *)
Class FrameService (F : Type) := {
  fs_alloc_zero : F → option (F * Z);
  fs_retain : F → Z → option (F * Z);
  fs_release : F → Z → option F;
  fs_refcount : F → Z → option Z;
  (** stores bytes from an address on *)
  fs_store : F → Z → list Z → F;
  fs_byte : F → Z → Z;
  (** the live frames with their counts *)
  fs_counts : F → gmap Z Z → Prop;

  fs_live f M p r : fs_counts f M → M !! p = Some r → 0 < r < 2 ^ 32 ∧ p `mod` 4096 = 0;
  fs_size f M : fs_counts f M → size M ≤ 2 ^ 30;
  fs_counts_inj f M M' : fs_counts f M → fs_counts f M' → M = M';
  fs_refcount_spec f M p : fs_counts f M → is_Some (M !! p) → fs_refcount f p = M !! p;
  fs_retain_spec f M p r : fs_counts f M → M !! p = Some r → r + 1 < 2 ^ 32 →
    ∃ f', fs_retain f p = Some (f', 0) ∧ fs_counts f' (<[p := r + 1]> M) ∧ ∀ a, fs_byte f' a = fs_byte f a;
  fs_release_spec f M p r : fs_counts f M → M !! p = Some r →
    ∃ f', fs_release f p = Some f' ∧ fs_counts f' (if r =? 1 then delete p M else <[p := r - 1]> M) ∧
      ∀ a, ¬ (p ≤ a < p + 4096 ∧ r = 1) → fs_byte f' a = fs_byte f a;
  fs_alloc_spec f M : fs_counts f M →
    ∃ f' p, fs_alloc_zero f = Some (f', p) ∧
      ((p = 0 ∧ fs_counts f' M ∧ ∀ a q r, M !! q = Some r → q ≤ a < q + 4096 → fs_byte f' a = fs_byte f a) ∨
       (p ≠ 0 ∧ M !! p = None ∧ fs_counts f' (<[p := 1]> M) ∧
        ∀ a, fs_byte f' a = if bool_decide (p ≤ a < p + 4096) then 0 else fs_byte f a));
  fs_store_spec f M p r l : fs_counts f M → M !! p = Some r → length l ≤ 4096 →
    fs_counts (fs_store f p l) M ∧
    ∀ a, fs_byte (fs_store f p l) a =
      if bool_decide (p ≤ a < p + length l) then u8 (default 0 (l !! Z.to_nat (a - p))) else fs_byte f a
}.

(** * The frame table keeps the promise *)

Fixpoint store_bytes (m : mem) (a : Z) (l : list Z) : mem :=
  match l with [] => m | b :: l => store_bytes (stb m a b) (a + 1) l end.

Lemma ldb_store_bytes l : ∀ m a b,
  ldb (store_bytes m a l) b =
  if bool_decide (a ≤ b < a + length l) then u8 (default 0 (l !! Z.to_nat (b - a))) else ldb m b.
Proof.
  induction l as [|x l IH]; intros m a b; cbn [store_bytes length].
  { rewrite bool_decide_eq_false_2 by lia. done. }
  rewrite IH, ldb_stb. destruct (Z.eqb_spec b a) as [->|Hne].
  - rewrite bool_decide_eq_false_2, bool_decide_eq_true_2 by lia. by rewrite Z.sub_diag.
  - case_bool_decide as H1; case_bool_decide as H2; try lia.
    replace (Z.to_nat (b - a)) with (S (Z.to_nat (b - (a + 1)))) by lia. done.
Qed.

Definition with_pmem (s : sys) (m : mem) : sys :=
  let pm := pool s in
  MkSys (tab s) (MkPmm (pmm_base pm) (pmm_end pm) (pmm_free_head pm) (pmm_total pm)
    (pmm_free pm) (pmm_inited pm) m) (kheap s).

(** The contents of a page that is handed out do not matter to the pool. *)
Lemma pool_contents s A p m :
  pmm_pool (pool s) A → (p ∈ A ∨ ¬ is_page (pool s) p) → p `mod` 4096 = 0 →
  (∀ a, ¬ (p ≤ a < p + 4096) → ldb m a = ldb (pmem (pool s)) a) →
  pmm_pool (pool (with_pmem s m)) A.
Proof.
  intros (fl & Hok & HA) HpA Hp Hm. pose proof Hok as [H1 H2 H3 H4 H5 H6 H7 H8]. exists fl. split; [|exact HA].
  split; cbn; try done. eapply slist_ext; [|exact H5]. intros q Hq. apply (ld_ext 8).
  intros a Ha. apply Hm. destruct (H7 q Hq) as (Q1 & Q2 & Hqa).
  assert (p ≠ q) as Hne.
  { intros ->. destruct HpA as [HpA|Hn]; [|by apply Hn, H7]. by apply HA in HpA as [_ ?]. }
  unfold PAGE_SIZE_4K in *. pose proof (Z.div_mod p 4096). pose proof (Z.div_mod q 4096). lia.
Qed.

Lemma sys_contents s M p m :
  sys_ok s M → is_Some (M !! p) → p `mod` 4096 = 0 →
  (∀ a, ¬ (p ≤ a < p + 4096) → ldb m a = ldb (pmem (pool s)) a) → sys_ok (with_pmem s m) M.
Proof.
  intros (Hf & (A & HA & HAM) & Hw) HM Hp Hm. split; [exact Hf|]. split; [|exact Hw].
  exists A. split; [|exact HAM]. apply (pool_contents s A p m HA); [|done|done].
  destruct (decide (is_page (pool s) p)) as [Hpg|]; [left; by apply HAM|by right].
Qed.

(** The pool is ready and the table has at most [FRAME_META_MAX] slots, as [frame_init]
    builds it. *)
Definition sys_counts (s : sys) (N : gmap Z Z) : Prop :=
  sys_ok s ((λ r, (r, 0)) <$> N) ∧ pmm_ready (pool s) = true ∧
  ∀ l, frames (tab s) = Some l → length l ≤ FRAME_META_MAX.

Lemma mask_page p : mask p = p → p `mod` 4096 = 0.
Proof.
  intros <-. unfold mask. change PG_ADDR_MASK with (Z.shiftl (Z.ones 40) 12).
  change 4096 with (2 ^ 12). rewrite <- Z.land_ones, <- Z.land_assoc by lia.
  change (Z.land (Z.shiftl (Z.ones 40) 12) (Z.ones 12)) with 0. apply Z.land_0_r.
Qed.

Lemma live_slot st M p r w :
  frame_ok st M → M !! p = Some (r, w) → 0 < r < 2 ^ 32 ∧ mask p = p.
Proof.
  intros (l & fl & B & El & Hok & HM) Hp. apply HM in Hp as (i & Hu & <- & <- & _).
  apply (t_used _ _ _ _ _ Hok i Hu).
Qed.

Lemma counts_size s N : sys_counts s N → size N ≤ 2 ^ 30.
Proof.
  intros (((l & fl & B & El & Hok & HM) & _) & _ & Hl). specialize (Hl l El).
  assert (elements (dom N) ⊆+ pa <$> l) as Hs%submseteq_length.
  { apply NoDup_submseteq; [apply NoDup_elements|]. intros p Hp%elem_of_elements%elem_of_dom.
    destruct Hp as [r Hr]. destruct (HM p r 0) as [H1 _]. destruct H1 as (i & [Hi _] & <- & _).
    { by rewrite lookup_fmap, Hr. }
    apply list_elem_of_fmap. exists (slot_at l i). split; [done|]. unfold slot_at.
    destruct (l !! Z.to_nat i) as [f|] eqn:E; [|apply lookup_ge_None in E; lia]. cbn. by eapply list_elem_of_lookup_2. }
  rewrite length_fmap in Hs. assert (size N = length (elements (dom N))) as ->.
  { rewrite <- size_dom. done. }
  unfold FRAME_META_MAX in Hl. lia.
Qed.

(** The table determines its abstract view. *)
Lemma used_refs l hash head fl B i : table_ok l hash head fl B → used l fl i ↔ 0 ≤ i < length l ∧ refs (slot_at l i) ≠ 0.
Proof.
  intros Hok. split.
  - intros Hu. split; [apply Hu|]. pose proof (t_used _ _ _ _ _ Hok i Hu). lia.
  - intros [Hi Hr]. split; [done|]. intros Hf. by destruct (t_range _ _ _ _ _ Hok i Hf).
Qed.
Lemma frame_ok_inj st M M' : frame_ok st M → frame_ok st M' → M = M'.
Proof.
  intros (l & fl & B & El & Hok & HM) (l' & fl' & B' & El' & Hok' & HM'). rewrite El in El'. injection El' as <-.
  assert (∀ p r w, M !! p = Some (r, w) ↔ M' !! p = Some (r, w)) as Heq.
  { intros p r w. rewrite (HM p r w), (HM' p r w). split; intros (i & Hu & H); exists i; (split; [|exact H]).
    - apply (used_refs _ _ _ _ _ _ Hok'). by apply (used_refs _ _ _ _ _ _ Hok).
    - apply (used_refs _ _ _ _ _ _ Hok). by apply (used_refs _ _ _ _ _ _ Hok'). }
  apply map_eq. intros p. destruct (M !! p) as [[r w]|] eqn:E; [by symmetry; apply Heq|].
  destruct (M' !! p) as [[r w]|] eqn:E'; [|done]. apply Heq in E'. congruence.
Qed.
Lemma sys_counts_inj s N N' : sys_counts s N → sys_counts s N' → N = N'.
Proof.
  intros ((H & _) & _) ((H' & _) & _). pose proof (frame_ok_inj _ _ _ H H') as E.
  apply map_eq. intros p. apply (f_equal (λ m, m !! p)) in E. rewrite !lookup_fmap in E.
  destruct (N !! p), (N' !! p); naive_solver.
Qed.

(** Only [frame_init] sets up the table; the operations keep its length. *)
Definition slots_of (st : frames_t) : option nat := length <$> frames st.
Definition tab_len (s : sys) : option nat := slots_of (tab s).

Lemma take_len st : slots_of (frame_take_free_locked st).1 = slots_of st.
Proof.
  unfold frame_take_free_locked, slots_of. destruct (frames st) as [l|] eqn:E; cbn; [|by rewrite E].
  destruct (_ <? 0); cbn; [by rewrite E|]. by rewrite length_set_link.
Qed.
Lemma fill_len st slot p r : slots_of (fill_slot st slot p r) = slots_of st.
Proof. unfold fill_slot, slots_of. destruct (frames st) as [l|] eqn:E; cbn; [by rewrite length_slot_set|by rewrite E]. Qed.
Lemma insert_len st slot : slots_of (frame_hash_insert_locked st slot) = slots_of st.
Proof.
  unfold frame_hash_insert_locked, slots_of. destruct (frames st) as [l|] eqn:E; cbn; [|by rewrite E].
  destruct (frame_hash st); cbn; [|by rewrite E]. destruct (_ <? 0); cbn; [by rewrite E|]. by rewrite length_set_link.
Qed.
Lemma remove_walk_len fuel : ∀ l hs pp slot l' hs',
  remove_walk fuel l hs pp slot = Some (l', hs') → length l' = length l.
Proof.
  induction fuel as [|fuel IH]; intros l hs pp slot l' hs'; [done|]. cbn [remove_walk].
  destruct (0 <=? _); [|by intros [= <- <-]]. destruct (_ =? slot); [|apply IH].
  destruct pp; cbn [assign]; intros [= <- <-]; by rewrite ?length_set_link.
Qed.
Lemma remove_len st slot st' : frame_hash_remove_locked st slot = Some st' → slots_of st' = slots_of st.
Proof.
  unfold frame_hash_remove_locked, slots_of. destruct (frames st) as [l|] eqn:E; [|by intros [= <-]; rewrite E].
  destruct (frame_hash st); [|by intros [= <-]; rewrite E]. destruct (_ <? 0); [by intros [= <-]; rewrite E|].
  destruct (remove_walk _ _ _ _ _) as [[l' hs']|] eqn:Er; [|done]. intros [= <-]. cbn. f_equal. by eapply remove_walk_len.
Qed.
Lemma return_len st slot : slots_of (frame_return_free_locked st slot) = slots_of st.
Proof.
  unfold frame_return_free_locked, slots_of. destruct (frames st) as [l|] eqn:E; cbn; [|by rewrite E].
  destruct (_ || _); cbn; [by rewrite E|]. by rewrite length_slot_set.
Qed.

Lemma retain_len s p s' r : frame_retain s p = Some (s', r) → tab_len s' = tab_len s.
Proof.
  unfold frame_retain, tab_len, slots_of. destruct (frame_slot_locked _ _) as [slot|]; [|done]. cbn [mbind option_bind].
  destruct (0 <=? slot); [|by intros [= <- <-]]. destruct (frames (tab s)) as [l|] eqn:E; intros [= <- <-]; cbn; [|by rewrite E].
  by rewrite length_set_refs.
Qed.
Lemma release_len s p s' : frame_release s p = Some s' → tab_len s' = tab_len s.
Proof.
  unfold frame_release, tab_len. destruct (frame_slot_locked _ _) as [slot|]; [|done]. cbn [mbind option_bind].
  destruct (frames (tab s)) as [l|] eqn:E; [|by intros [= <-]]. destruct (0 <=? slot); [|by intros [= <-]].
  set (l' := set_refs l slot _). set (st := MkFrames (Some l') _ _).
  assert (slots_of st = slots_of (tab s)) as Hst by (unfold slots_of; rewrite E; cbn; unfold l'; by rewrite length_set_refs).
  destruct (_ =? 0); [|by intros [= <-]].
  destruct (frame_hash_remove_locked st slot) as [st'|] eqn:Er; [|done]. cbn [mbind option_bind].
  apply remove_len in Er. intros [= <-]. destruct (nz _); cbn [tab]; rewrite return_len; congruence.
Qed.
Lemma alloc_len s caller s' p : frame_alloc s caller = Some (s', p) → tab_len s' = tab_len s.
Proof.
  unfold frame_alloc, tab_len. destruct (frames (tab s)) as [l|] eqn:E; [|by intros [= <- <-]].
  destruct (if pmm_ready _ then _ else _) as [[[s1 page] raw]|] eqn:Es; [|done]. cbn [mbind option_bind].
  assert (tab s1 = tab s) as Ht.
  { destruct (pmm_ready _); [destruct (pmm_alloc_page _); by injection Es as <- <- <-|].
    destruct (kmalloc_nolock _ _ _) as [[h r]|]; [|done]. by injection Es as <- <- <-. }
  destruct (page =? 0); [intros [= <- <-]; by rewrite Ht|]. rewrite Ht.
  pose proof (take_len (tab s)) as Hl. destruct (frame_take_free_locked (tab s)) as [st slot]. cbn [fst] in Hl.
  destruct (0 <=? slot); intros [= <- <-]; cbn [tab]; [by rewrite insert_len, fill_len|done].
Qed.

Definition sys_byte (s : sys) (a : Z) : Z := ldb (pmem (pool s)) a.
Definition sys_store (s : sys) (p : Z) (l : list Z) : sys := with_pmem s (store_bytes (pmem (pool s)) p l).

Lemma sys_counts_step s s' N N' :
  sys_counts s N → sys_ok s' ((λ r, (r, 0)) <$> N') → pmm_ready (pool s') = pmm_ready (pool s) →
  tab_len s' = tab_len s → sys_counts s' N'.
Proof.
  intros (_ & Hr & Hl) Hok Hp Ht. split; [done|]. split; [congruence|]. intros l El.
  unfold tab_len, slots_of in Ht. rewrite El in Ht. destruct (frames (tab s)) as [l0|]; [|done].
  injection Ht as ->. by apply Hl.
Qed.

Lemma counted_ref s N p r :
  sys_counts s N → N !! p = Some r → 0 < r < 2 ^ 32 ∧ mask p = p ∧ ((λ r, (r, 0)) <$> N) !! p = Some (r, 0).
Proof.
  intros (Hok & _) Hp. assert (((λ r, (r, 0)) <$> N) !! p = Some (r, 0)) as H by (by rewrite lookup_fmap, Hp).
  split_and!; [..|done]; by apply (live_slot (tab s) _ p r 0 (proj1 Hok) H).
Qed.

Lemma sys_live s N p r : sys_counts s N → N !! p = Some r → 0 < r < 2 ^ 32 ∧ p `mod` 4096 = 0.
Proof. intros Hs Hp. destruct (counted_ref s N p r Hs Hp) as (H1 & H2 & _). split; [done|by apply mask_page]. Qed.

Lemma sys_refcount s N p : sys_counts s N → is_Some (N !! p) → frame_refcount s p = N !! p.
Proof.
  intros Hs [r Hr]. destruct (counted_ref s N p r Hs Hr) as (_ & Hm & Hl). destruct Hs as (Hok & _).
  rewrite (refcount_ok s _ p Hok). by rewrite Hm, Hl, Hr.
Qed.

Lemma sys_retain s N p r : sys_counts s N → N !! p = Some r → r + 1 < 2 ^ 32 →
  ∃ s', frame_retain s p = Some (s', 0) ∧ sys_counts s' (<[p := r + 1]> N) ∧ ∀ a, sys_byte s' a = sys_byte s a.
Proof.
  intros Hs Hr Hb. destruct (counted_ref s N p r Hs Hr) as (_ & Hm & Hl). pose proof Hs as (Hok & _).
  pose proof (retain_ok s _ p Hok) as H. rewrite Hm, Hl in H. destruct (H Hb) as (s' & E & Hok' & Hp).
  exists s'. split; [done|]. split; [|unfold sys_byte; by rewrite Hp].
  apply (sys_counts_step s s' N); [done|by rewrite fmap_insert|by rewrite Hp|by eapply retain_len].
Qed.

Lemma free_ready pm p : pmm_ready (pmm_free_page pm p) = pmm_ready pm.
Proof. unfold pmm_ready, pmm_free_page. by repeat case_match. Qed.

Lemma free_page_byte pm A p a : pmm_pool pm A → ¬ (p ≤ a < p + 4096) → ldb (pmem (pmm_free_page pm p)) a = ldb (pmem pm) a.
Proof.
  intros HA Ha. destruct (decide (is_page pm p)) as [Hp|Hn]; [|by rewrite (free_not_page _ _ _ HA Hn)].
  destruct HA as (fl & Hok & _). rewrite (pmm_free_eq _ _ _ Hok Hp). cbn [pmem]. apply (ldb_st_out 8). lia.
Qed.

Lemma sys_release s N p r : sys_counts s N → N !! p = Some r →
  ∃ s', frame_release s p = Some s' ∧ sys_counts s' (if r =? 1 then delete p N else <[p := r - 1]> N) ∧
    ∀ a, ¬ (p ≤ a < p + 4096 ∧ r = 1) → sys_byte s' a = sys_byte s a.
Proof.
  intros Hs Hr. destruct (counted_ref s N p r Hs Hr) as (_ & Hm & Hl). pose proof Hs as (Hok & _).
  pose proof (release_ok s _ p Hok) as H. rewrite Hm, Hl in H. destruct H as (s' & E & H).
  exists s'. split; [done|]. pose proof (release_len _ _ _ E) as Hlen. destruct Hok as (_ & (A & HA & _) & _).
  destruct (Z.eqb_spec r 1) as [->|Hr1]; destruct H as [Hok' Hp].
  - split.
    + apply (sys_counts_step s s' N); [done|by rewrite fmap_delete| |done]. rewrite Hp. apply free_ready.
    + intros a Ha. unfold sys_byte. rewrite Hp. eapply free_page_byte; [done|lia].
  - split; [|intros a _; unfold sys_byte; by rewrite Hp].
    apply (sys_counts_step s s' N); [done|by rewrite fmap_insert|by rewrite Hp|done].
Qed.

(** What [frame_alloc] does to the bytes: nothing, but for the link it writes when it
    gives a page back for want of a slot. *)
Lemma alloc_bytes s M caller s' p :
  sys_ok s M → pmm_ready (pool s) = true → frame_alloc s caller = Some (s', p) →
  pmm_ready (pool s') = true ∧
  (p ≠ 0 → pmem (pool s') = pmem (pool s)) ∧
  (∀ a q, is_Some (M !! q) → q `mod` 4096 = 0 → q ≤ a < q + 4096 → sys_byte s' a = sys_byte s a).
Proof.
  intros (_ & (A & HA & HAM) & _) Hr. unfold frame_alloc. destruct (frames (tab s)); [|intros [= <- <-]; done].
  rewrite Hr. pose proof (pmm_alloc_pool (pool s) A HA) as Ha.
  assert (pmem (pmm_alloc_page (pool s)).1 = pmem (pool s) ∧ pmm_ready (pmm_alloc_page (pool s)).1 = true) as Hpm.
  { unfold pmm_alloc_page, pmm_ready in *. rewrite Hr. by destruct (_ =? 0). }
  destruct (pmm_alloc_page (pool s)) as [pm page]. cbn [fst] in Hpm. destruct Hpm as [Hm Hr']. cbn [mbind option_bind].
  destruct (page =? 0) eqn:Ep; [intros [= <- <-]; cbn [pool]; unfold sys_byte; cbn [pool]; by rewrite Hm|]. cbn [tab pool kheap].
  destruct Ha as [(-> & _)|(Hpg & HnA & HA')]; [done|].
  destruct (frame_take_free_locked (tab s)) as [st slot]. destruct (0 <=? slot).
  { intros [= <- <-]. unfold sys_byte; cbn [pool]. by rewrite Hm. }
  change (nz 0) with false. cbn iota. intros [= <- <-]. unfold sys_byte; cbn [pool].
  split; [by rewrite free_ready|]. split; [done|].
  intros a q Hq Hqa Ha. rewrite (free_page_byte _ _ _ _ HA'); [by rewrite Hm|].
  assert (q ≠ page) as Hne.
  { intros ->. by apply HnA, HAM. }
  destruct Hpg as (_ & _ & Hal). unfold PAGE_SIZE_4K in Hal.
  pose proof (Z.div_mod page 4096). pose proof (Z.div_mod q 4096). lia.
Qed.

Lemma sys_alloc s N caller : sys_counts s N →
  ∃ s' p, frame_alloc_zero s caller = Some (s', p) ∧
    ((p = 0 ∧ sys_counts s' N ∧ ∀ a q r, N !! q = Some r → q ≤ a < q + 4096 → sys_byte s' a = sys_byte s a) ∨
     (p ≠ 0 ∧ N !! p = None ∧ sys_counts s' (<[p := 1]> N) ∧
      ∀ a, sys_byte s' a = if bool_decide (p ≤ a < p + 4096) then 0 else sys_byte s a)).
Proof.
  intros Hs. pose proof Hs as (Hok & Hrdy & _). unfold frame_alloc_zero.
  destruct (alloc_ok s _ caller Hok Hrdy) as (s1 & p & E & H). rewrite E. cbn [mbind option_bind].
  pose proof (alloc_len _ _ _ _ E) as Hlen. destruct (alloc_bytes s _ caller s1 p Hok Hrdy E) as (Hr1 & Hm & Hb).
  destruct H as [[-> Hok1]|(Hp0 & Hpg & Hnone & Hok1)].
  - exists s1, 0. split; [done|]. left. split; [done|]. split; [eapply sys_counts_step; [done|done|congruence|done]|].
    intros a q r Hq. apply (Hb a q); [rewrite lookup_fmap, Hq; by eexists|by apply (sys_live s N q r)].
  - destruct (nz_spec p) as [_|?]; [|done]. rewrite Hr1. fold (with_pmem s1 (memset (pmem (pool s1)) p 0 PAGE_SIZE_4K)).
    exists (with_pmem s1 (memset (pmem (pool s1)) p 0 PAGE_SIZE_4K)), p. split; [done|]. right. split; [done|].
    rewrite lookup_fmap in Hnone. split; [by destruct (N !! p)|].
    pose proof (memset_filled (pmem (pool s1)) p 0 PAGE_SIZE_4K ltac:(done)) as Hf. unfold filled in Hf.
    assert (p `mod` 4096 = 0) as Hal by apply Hpg. split.
    + eapply sys_counts_step; [exact Hs| |exact (eq_trans Hr1 (eq_sym Hrdy))|exact Hlen]. rewrite fmap_insert.
      apply (sys_contents _ _ p); [done|rewrite lookup_insert_eq; by eexists|done|].
      intros a Ha. rewrite Hf. unfold PAGE_SIZE_4K. repeat (case_match; try done); lia.
    + intros a. unfold sys_byte; cbn [with_pmem pool pmem]. rewrite Hf, (Hm Hp0). unfold PAGE_SIZE_4K.
      case_bool_decide; repeat (case_match; try done); lia.
Qed.

Lemma sys_store_spec s N p r l : sys_counts s N → N !! p = Some r → length l ≤ 4096 →
  sys_counts (sys_store s p l) N ∧
  ∀ a, sys_byte (sys_store s p l) a =
    if bool_decide (p ≤ a < p + length l) then u8 (default 0 (l !! Z.to_nat (a - p))) else sys_byte s a.
Proof.
  intros Hs Hr Hl. destruct (counted_ref s N p r Hs Hr) as (_ & Hm & Hk). split; [|intros a; apply ldb_store_bytes].
  eapply sys_counts_step; [exact Hs| |done|done]. apply (sys_contents _ _ p); [apply Hs|by eexists|by apply mask_page|].
  intros a Ha. rewrite ldb_store_bytes, bool_decide_eq_false_2 by lia. done.
Qed.

#[export] Instance frame_service (caller : Z) : FrameService sys := {
  fs_alloc_zero s := frame_alloc_zero s caller;
  fs_retain := frame_retain;
  fs_release := frame_release;
  fs_refcount := frame_refcount;
  fs_store := sys_store;
  fs_byte := sys_byte;
  fs_counts := sys_counts;
  fs_live := sys_live;
  fs_size := counts_size;
  fs_counts_inj := sys_counts_inj;
  fs_refcount_spec := sys_refcount;
  fs_retain_spec := sys_retain;
  fs_release_spec := sys_release;
  fs_alloc_spec s N := sys_alloc s N caller;
  fs_store_spec := sys_store_spec
}.
