(* ===== verification/PageCache.v ===== *)
(** The page cache of [mm/pagecache.c]: frames of file pages, found by backing object,
    generation and page index.

    Module [PageCache] is the model over any frame service.  A chain of a bucket is a
    list; [g_pc_lock] makes each critical section one step, and between the critical
    sections of [pagecache_get] an argument says what other processors do.  The answers
    of the file's driver (generation, contents) and of [kmalloc] for an entry are
    arguments; the trace output is left out. *)
From S2P Require Import Prelude FrameService.

Module PageCache.

Definition PAGECACHE_BUCKETS : Z := 512.
Definition PAGECACHE_MAX : Z := 32768.

Record pagecache_ent := MkEnt {
  backing_id : Z; generation : Z; page_index : Z; pa : Z; last_used : Z; dsm : bool
}.

Section cache.
Context {F : Type} `{FrameService F}.

Record pcs := MkPcs { frames : F; pc_bucket : list (list pagecache_ent); pc_count : Z; pc_tick : Z }.
Definition set_frames (st : pcs) (f : F) : pcs := MkPcs f (pc_bucket st) (pc_count st) (pc_tick st).

Definition pc_hash (b g i : Z) : Z :=
  Z.land (Z.lxor (Z.lxor b (g *u 0x9E3779B97F4A7C15)) (i *u 0xBF58476D1CE4E5B9)) (PAGECACHE_BUCKETS - 1).

Definition bucket (st : pcs) (h : Z) : list pagecache_ent := default [] (pc_bucket st !! Z.to_nat h).
Definition set_bucket (st : pcs) (h : Z) (l : list pagecache_ent) : pcs :=
  MkPcs (frames st) (<[Z.to_nat h := l]> (pc_bucket st)) (pc_count st) (pc_tick st).

Definition is_key (b g i : Z) (e : pagecache_ent) : bool :=
  (backing_id e =? b) && (generation e =? g) && (page_index e =? i).
Definition pc_find_locked (st : pcs) (b g i : Z) : option pagecache_ent :=
  List.find (is_key b g i) (bucket st (pc_hash b g i)).

(** * Eviction *)

(** The victim so far, by bucket and position, and its time stamp. *)
Definition best := (option (nat * nat) * Z)%type.
Fixpoint scan_chain (f : F) (l : list pagecache_ent) (h j : nat) (b : best) : option best :=
  match l with
  | [] => Some b
  | e :: l =>
      if dsm e then scan_chain f l h (S j) b
      else
        r ← fs_refcount f (pa e);
        scan_chain f l h (S j) (if (r =? 1) && (last_used e <=? b.2) then (Some (h, j), last_used e) else b)
  end.
Fixpoint scan_buckets (f : F) (ls : list (list pagecache_ent)) (h : nat) (b : best) : option best :=
  match ls with
  | [] => Some b
  | l :: ls => b ← scan_chain f l h 0 b; scan_buckets f ls (S h) b
  end.

Definition pc_evict_one_locked (st : pcs) : option (pcs * Z) :=
  b ← scan_buckets (frames st) (pc_bucket st) 0 (None, 2 ^ 64 - 1);
  match b.1 with
  | None => Some (st, -1)
  | Some (h, j) =>
      let l := default [] (pc_bucket st !! h) in
      match l !! j with
      | None => Some (st, -1)
      | Some e =>
          let st := MkPcs (frames st) (<[h := delete j l]> (pc_bucket st)) (s32 (pc_count st - 1)) (pc_tick st) in
          f ← fs_release (frames st) (pa e);
          Some (set_frames st f, 0)
      end
  end.

(** [while (g_pc_count >= PAGECACHE_MAX) if (pc_evict_one_locked() != 0) break;] *)
Fixpoint shrink (fuel : nat) (st : pcs) : option pcs :=
  match fuel with
  | O => None
  | S fuel =>
      if PAGECACHE_MAX <=? pc_count st then
        '(st, rc) ← pc_evict_one_locked st;
        if nz rc then Some st else shrink fuel st
      else Some st
  end.

(** * Lookup *)

Inductive found := Miss | Failed | Hit (p : Z).

Fixpoint touch (b g i t : Z) (l : list pagecache_ent) : list pagecache_ent :=
  match l with
  | [] => []
  | e :: l =>
      if is_key b g i e then MkEnt (backing_id e) (generation e) (page_index e) (pa e) t (dsm e) :: l
      else e :: touch b g i t l
  end.

(** One critical section: retain the frame of the entry, if there is one. *)
Definition pc_lookup (st : pcs) (b g i : Z) : option (pcs * found) :=
  match pc_find_locked st b g i with
  | None => Some (st, Miss)
  | Some e =>
      '(f, rc) ← fs_retain (frames st) (pa e);
      let st := set_frames st f in
      if nz rc then Some (st, Failed)
      else
        let t := pc_tick st +u 1 in
        let h := pc_hash b g i in
        let st := set_bucket st h (touch b g i t (bucket st h)) in
        Some (MkPcs (frames st) (pc_bucket st) (pc_count st) t, Hit (pa e))
  end.

(** The second critical section, with the filled page [p]; [ok] is whether [kmalloc]
    has memory for an entry. *)
Definition pc_insert (st : pcs) (b g i p : Z) (shm ok : bool) : option (pcs * found) :=
  '(st, r) ← pc_lookup st b g i;
  match r with
  | Failed => f ← fs_release (frames st) p; Some (set_frames st f, Failed)
  | Hit q => f ← fs_release (frames st) p; Some (set_frames st f, Hit q)
  | Miss =>
      st ← shrink (S (Z.to_nat (pc_count st))) st;
      if ok then
        let h := pc_hash b g i in
        let t := pc_tick st +u 1 in
        let st := set_bucket st h (MkEnt b g i p t shm :: bucket st h) in
        let st := MkPcs (frames st) (pc_bucket st) (s32 (pc_count st + 1)) t in
        '(f, rc) ← fs_retain (frames st) p;
        let st := set_frames st f in
        if nz rc then f ← fs_release (frames st) p; Some (set_frames st f, Failed)
        else Some (st, Hit p)
      else f ← fs_release (frames st) p; Some (set_frames st f, Failed)
  end.

(** [n] bytes of the file are in the page at [aligned]. *)
Definition page_bytes (size aligned : Z) : Z :=
  if size <=? aligned then 0 else if size - aligned <? 4096 then size - aligned else 4096.

(** The page between the two critical sections: allocated, zeroed and read. *)
Definition pc_fill (st : pcs) (size aligned : Z) (read : Z → Z → list Z * Z) : option (pcs * Z) :=
  '(f, p) ← fs_alloc_zero (frames st);
  let st := set_frames st f in
  if p =? 0 then Some (st, 0)
  else
    let n := page_bytes size aligned in
    if 0 <? n then
      let '(data, nr) := read n aligned in
      let st := set_frames st (fs_store (frames st) p data) in
      if (nr <? 0) || negb (nr =? n) then f ← fs_release (frames st) p; Some (set_frames st f, 0)
      else Some (st, p)
    else Some (st, p).

(** What [pagecache_get] reads of the file: [gen] is [fs_current_generation], [shmfile]
    whether the path names a PostgreSQL segment, [read] the driver's bytes and result. *)
Record fs_file := MkFile {
  f_backing : Z; f_gen : Z; f_size : Z; shmfile : bool; f_read : Z → Z → list Z * Z
}.

(** [-1] and no frame, or [0] and the frame. [other1] and [other2] are what happens
    elsewhere while the lock is free. *)
Definition pagecache_get (st : pcs) (file : fs_file) (file_off : Z) (other1 other2 : pcs → pcs) (ok : bool)
    : option (pcs * option Z) :=
  if f_backing file =? 0 then Some (st, None)
  else
    let aligned := file_off &u ~u 0xFFF in
    let b := f_backing file in
    let g := f_gen file in
    let i := Z.shiftr aligned 12 in
    '(st, r) ← pc_lookup st b g i;
    match r with
    | Hit p => Some (st, Some p)
    | Failed => Some (st, None)
    | Miss =>
        '(st, p) ← pc_fill (other1 st) (f_size file) aligned (f_read file);
        if p =? 0 then Some (st, None)
        else
          '(st, r) ← pc_insert (other2 st) b g i p (shmfile file) ok;
          Some (st, match r with Hit q => Some q | _ => None end)
    end.

(** * Invalidation *)

Definition restamp (ng : Z) (e : pagecache_ent) : pagecache_ent :=
  if nz ng then MkEnt (backing_id e) ng (page_index e) (pa e) (last_used e) (dsm e) else e.

Fixpoint inval_chain (f : F) (count b ng : Z) (l : list pagecache_ent) : option (F * Z * list pagecache_ent) :=
  match l with
  | [] => Some (f, count, [])
  | e :: l =>
      if backing_id e =? b then
        if dsm e then
          '(f, count, l) ← inval_chain f count b ng l; Some (f, count, restamp ng e :: l)
        else
          r ← fs_refcount f (pa e);
          if r =? 1 then
            f ← fs_release f (pa e);
            inval_chain f (s32 (count - 1)) b ng l
          else '(f, count, l) ← inval_chain f count b ng l; Some (f, count, restamp ng e :: l)
      else '(f, count, l) ← inval_chain f count b ng l; Some (f, count, e :: l)
  end.
Fixpoint inval_buckets (f : F) (count b ng : Z) (ls : list (list pagecache_ent))
    : option (F * Z * list (list pagecache_ent)) :=
  match ls with
  | [] => Some (f, count, [])
  | l :: ls =>
      '(f, count, l) ← inval_chain f count b ng l;
      '(f, count, ls) ← inval_buckets f count b ng ls;
      Some (f, count, l :: ls)
  end.

Definition pagecache_invalidate (st : pcs) (b ng : Z) : option pcs :=
  if b =? 0 then Some st
  else
    '(f, count, ls) ← inval_buckets (frames st) (pc_count st) b ng (pc_bucket st);
    Some (MkPcs f ls count (pc_tick st)).

End cache.
End PageCache.
