(* ===== verification/PageCacheProps.v ===== *)
(** The page cache keeps its books: every cached frame holds one reference, and whatever
    else is counted belongs to somebody outside. *)
From S2P Require Import Prelude Frame FrameProps Pmm FrameService PageCache.
Import PageCache.

Section props.
Context {F : Type} `{FS : FrameService F}.
Abbreviation pcs := (@pcs F).

(** * Accounts *)

Definition bump (O : Z → Z) (p d : Z) : Z → Z := λ q, if decide (q = p) then O q + d else O q.

Lemma bump_nonneg O p d : (∀ q, 0 ≤ O q) → 0 ≤ O p + d → ∀ q, 0 ≤ bump O p d q.
Proof. intros HO Hp q. unfold bump. destruct (decide (q = p)) as [->|]; auto. Qed.

(** The count of a frame is one for the cache, if it is cached, and the references
    outside. *)
Record acc (f : F) (ps : list Z) (M : gmap Z Z) (O : Z → Z) : Prop := {
  ac_counts : fs_counts f M;
  ac_nodup : NoDup ps;
  ac_refs : ∀ p, default 0 (M !! p) = (if decide (p ∈ ps) then 1 else 0) + O p;
  ac_out : ∀ p, 0 ≤ O p
}.

Lemma acc_ext f ps M O O' : acc f ps M O → (∀ p, O' p = O p) → acc f ps M O'.
Proof. intros [A1 A2 A3 A4] E. split; [done|done| |]; intros p; rewrite E; auto. Qed.
Lemma acc_perm f ps ps' M O : acc f ps M O → ps ≡ₚ ps' → acc f ps' M O.
Proof.
  intros [A1 A2 A3 A4] E. split; [done|by rewrite <- E| |done]. intros p. rewrite A3. f_equal.
  by apply decide_ext; rewrite E.
Qed.

Lemma acc_live f ps M O p : acc f ps M O → p ∈ ps ∨ 1 ≤ O p →
  ∃ r, M !! p = Some r ∧ 0 < r < 2 ^ 32 ∧ r = (if decide (p ∈ ps) then 1 else 0) + O p ∧ fs_refcount f p = Some r.
Proof.
  intros [A1 A2 A3 A4] Hp. pose proof (A3 p) as E. pose proof (A4 p).
  destruct (M !! p) as [r|] eqn:Em; cbn [from_option id] in E; [|exfalso; destruct (decide (p ∈ ps)); destruct Hp; lia || done].
  exists r. split; [done|]. split; [by apply (fs_live f M p r)|]. split; [done|].
  rewrite (fs_refcount_spec f M p A1); [done|by exists r].
Qed.

Lemma acc_retain f ps M O p :
  acc f ps M O → p ∈ ps ∨ 1 ≤ O p → (∀ r, M !! p = Some r → r + 1 < 2 ^ 32) →
  ∃ f' M', fs_retain f p = Some (f', 0) ∧ acc f' ps M' (bump O p 1) ∧ ∀ a, fs_byte f' a = fs_byte f a.
Proof.
  intros A Hp Hb. destruct (acc_live _ _ _ _ _ A Hp) as (r & Hr & _ & Er & Hc). destruct A as [A1 A2 A3 A4].
  destruct (fs_retain_spec f M p r A1 Hr (Hb r Hr)) as (f' & E & C & Hm). exists f', (<[p := r + 1]> M).
  split; [done|]. split; [|done]. split; [done|done| |].
  - intros q. unfold bump. destruct (decide (q = p)) as [->|]; [rewrite lookup_insert_eq; cbn [from_option id]; lia|].
    rewrite lookup_insert_ne by done. apply A3.
  - apply bump_nonneg; [done|specialize (A4 p); lia].
Qed.

Lemma acc_release f ps M O p :
  acc f ps M O → 1 ≤ O p →
  ∃ f' M', fs_release f p = Some f' ∧ acc f' ps M' (bump O p (-1)).
Proof.
  intros A Hp. destruct (acc_live _ _ _ _ p A ltac:(by right)) as (r & Hr & Hr0 & Er & Hc). destruct A as [A1 A2 A3 A4].
  destruct (fs_release_spec f M p r A1 Hr) as (f' & E & C & _). eexists f', _. split; [done|]. split; [exact C|done| |].
  - intros q. unfold bump. destruct (decide (q = p)) as [->|].
    + destruct (Z.eqb_spec r 1); [rewrite lookup_delete_eq|rewrite lookup_insert_eq]; cbn [from_option id]; lia.
    + rewrite <- A3. destruct (r =? 1); [by rewrite lookup_delete_ne|by rewrite lookup_insert_ne].
  - apply bump_nonneg; [done|specialize (A4 p); lia].
Qed.

(** The cache's own reference changes hands. *)
Lemma acc_uncache f ps M O p : acc f (p :: ps) M O → acc f ps M (bump O p 1).
Proof.
  intros [A1 A2 A3 A4]. apply NoDup_cons in A2 as [Hn A2]. split; [done|done| |].
  - intros q. rewrite A3. unfold bump. destruct (decide (q = p)) as [->|Hne].
    + rewrite decide_True by (by left). rewrite decide_False by done. lia.
    + f_equal. apply decide_ext. rewrite elem_of_cons. tauto.
  - apply bump_nonneg; [done|specialize (A4 p); lia].
Qed.
Lemma acc_cache f ps M O p : acc f ps M O → p ∉ ps → 1 ≤ O p → acc f (p :: ps) M (bump O p (-1)).
Proof.
  intros [A1 A2 A3 A4] Hn Hp. split; [done|by constructor| |].
  - intros q. rewrite A3. unfold bump. destruct (decide (q = p)) as [->|Hne].
    + rewrite decide_False by done. rewrite decide_True by (by left). lia.
    + f_equal. apply decide_ext. rewrite elem_of_cons. tauto.
  - apply bump_nonneg; [done|specialize (A4 p); lia].
Qed.

Lemma acc_alloc f ps M O :
  acc f ps M O →
  ∃ f' p M', fs_alloc_zero f = Some (f', p) ∧
    ((p = 0 ∧ acc f' ps M' O) ∨
     (p ≠ 0 ∧ M' !! p = Some 1 ∧ p ∉ ps ∧ O p = 0 ∧ acc f' ps M' (bump O p 1) ∧
      ∀ a, fs_byte f' a = if bool_decide (p ≤ a < p + 4096) then 0 else fs_byte f a)).
Proof.
  intros A. destruct (fs_alloc_spec f M (ac_counts _ _ _ _ A)) as (f' & p & E & [(-> & C & _)|(Hp & Hn & C & Hb)]).
  - exists f', 0, M. split; [done|]. left. split; [done|]. destruct A as [A1 A2 A3 A4]. by split.
  - exists f', p, (<[p := 1]> M). split; [done|]. right. pose proof (ac_refs _ _ _ _ A p) as Hr. rewrite Hn in Hr. cbn [from_option id] in Hr.
    pose proof (ac_out _ _ _ _ A p). destruct (decide (p ∈ ps)); [lia|].
    split; [done|]. split; [by rewrite lookup_insert_eq|]. split; [done|]. split; [lia|]. split; [|done].
    destruct A as [A1 A2 A3 A4]. split; [done|done| |].
    + intros q. unfold bump. destruct (decide (q = p)) as [->|]; [rewrite lookup_insert_eq, decide_False by done; cbn [from_option id]; lia|].
      rewrite lookup_insert_ne by done. apply A3.
    + apply bump_nonneg; [done|specialize (A4 p); lia].
Qed.

Lemma acc_store f ps M O p l :
  acc f ps M O → is_Some (M !! p) → length l ≤ 4096 → acc (fs_store f p l) ps M O.
Proof. intros [A1 A2 A3 A4] [r Hr] Hl. split; [|done..]. by apply (fs_store_spec f M p r). Qed.

(** * Chains *)

Definition ents (st : pcs) : list pagecache_ent := concat (pc_bucket st).
Definition pas (st : pcs) : list Z := pa <$> ents st.

Record pc_inv (st : pcs) (M : gmap Z Z) (O : Z → Z) : Prop := {
  i_len : length (pc_bucket st) = 512%nat;
  i_acc : acc (frames st) (pas st) M O;
  i_count : pc_count st = length (pas st);
  i_stamp : Forall (λ e, is_u64 (last_used e)) (ents st)
}.

Lemma pc_hash_range b g i : 0 ≤ pc_hash b g i < 512.
Proof.
  unfold pc_hash, PAGECACHE_BUCKETS. change (512 - 1) with (Z.ones 9). rewrite Z.land_ones by lia.
  apply Z.mod_pos_bound. lia.
Qed.

(** One bucket among the others. *)
Lemma at_bucket (bs : list (list pagecache_ent)) (h : nat) :
  (h < length bs)%nat →
  ∃ A B, bs = A ++ default [] (bs !! h) :: B ∧ (∀ l, <[h := l]> bs = A ++ l :: B) ∧ length A = h.
Proof.
  intros Hh. destruct (bs !! h) as [l0|] eqn:E; [|apply lookup_ge_None in E; lia]. cbn [from_option id].
  exists (take h bs), (drop (S h) bs). split; [by rewrite take_drop_middle|].
  split; [intros l; by rewrite insert_take_drop|]. rewrite length_take. lia.
Qed.

Lemma bucket_set (st : pcs) h l h' :
  0 ≤ h < length (pc_bucket st) → 0 ≤ h' →
  bucket (set_bucket st h l) h' = if decide (h' = h) then l else bucket st h'.
Proof.
  intros Hh Hh'. unfold bucket, set_bucket; cbn [pc_bucket]. destruct (decide (h' = h)) as [->|].
  - by rewrite list_lookup_insert_eq by lia.
  - by rewrite list_lookup_insert_ne by lia.
Qed.

(** The entry of a key, as far as its frame goes. *)
Definition frame_at (st : pcs) (b g i : Z) : option Z := pa <$> pc_find_locked st b g i.

Lemma touch_pas b g i t l : pa <$> touch b g i t l = pa <$> l.
Proof. induction l as [|e l IH]; [done|]. cbn. destruct (is_key b g i e); cbn; congruence. Qed.
Lemma touch_find b g i t l b' g' i' :
  pa <$> List.find (is_key b' g' i') (touch b g i t l) = pa <$> List.find (is_key b' g' i') l.
Proof.
  induction l as [|e l IH]; [done|]. cbn [touch]. destruct (is_key b g i e); cbn [List.find].
  - unfold is_key at 1; cbn [backing_id generation page_index]. fold (is_key b' g' i' e). by destruct (is_key b' g' i' e).
  - by destruct (is_key b' g' i' e).
Qed.
Lemma touch_stamp b g i t l : is_u64 t → Forall (λ e, is_u64 (last_used e)) l → Forall (λ e, is_u64 (last_used e)) (touch b g i t l).
Proof.
  intros Ht. induction 1 as [|e l He Hl IH]; [constructor|]. cbn [touch].
  destruct (is_key b g i e); constructor; done.
Qed.

Lemma find_elem (P : pagecache_ent → bool) l e : List.find P l = Some e → e ∈ l ∧ P e = true.
Proof.
  induction l as [|x l IH]; [done|]. cbn. destruct (P x) eqn:E; [intros [= <-]|intros H; apply IH in H as [? ?]]; split; try done; mem.
Qed.

Lemma chain_ents (bs : list (list pagecache_ent)) k e : e ∈ default [] (bs !! k) → e ∈ concat bs.
Proof.
  destruct (bs !! k) as [l|] eqn:E; [|by intros ?%not_elem_of_nil].
  intros He. apply list_elem_of_In, in_concat. exists l. rewrite <- !list_elem_of_In. split; [by eapply list_elem_of_lookup_2|done].
Qed.
Lemma bucket_ents (st : pcs) h e : e ∈ bucket st h → e ∈ ents st.
Proof. apply chain_ents. Qed.
Lemma find_ents (st : pcs) b g i e : pc_find_locked st b g i = Some e → e ∈ ents st.
Proof. intros [H _]%find_elem. by eapply bucket_ents. Qed.
Lemma ents_pas (st : pcs) e : e ∈ ents st → pa e ∈ pas st.
Proof. apply list_elem_of_fmap_2. Qed.

(** Fewer references than the counter can hold. *)
Definition bounded (st : pcs) : Prop := ∀ M p r, fs_counts (frames st) M → M !! p = Some r → r + 1 < 2 ^ 32.

Definition got (O : Z → Z) (r : found) : Z → Z := match r with Hit p => bump O p 1 | _ => O end.

Lemma set_bucket_pas (st : pcs) h l :
  0 ≤ h < length (pc_bucket st) → pa <$> l = pa <$> bucket st h → pas (set_bucket st h l) = pas st.
Proof.
  intros Hh Hl. destruct (at_bucket (pc_bucket st) (Z.to_nat h)) as (A & B & E & Ei & _); [lia|].
  unfold pas, ents, set_bucket; cbn [pc_bucket]. rewrite Ei. rewrite E at 1. unfold bucket in Hl.
  rewrite !concat_app. cbn [concat]. rewrite !fmap_app. by rewrite Hl.
Qed.

Lemma set_bucket_inv (st : pcs) M O h l :
  pc_inv st M O → 0 ≤ h < 512 → pa <$> l = pa <$> bucket st h → Forall (λ e, is_u64 (last_used e)) l →
  pc_inv (set_bucket st h l) M O.
Proof.
  intros [I1 I2 I3 I4] Hh Hl Hs. destruct (at_bucket (pc_bucket st) (Z.to_nat h)) as (A & B & E & Ei & _); [lia|].
  assert (pas (set_bucket st h l) = pas st) as Ep by (apply set_bucket_pas; [lia|done]).
  split; [cbn; by rewrite length_insert|by rewrite Ep|by rewrite Ep|].
  unfold ents, set_bucket in *; cbn [pc_bucket]. rewrite Ei. rewrite E in I4.
  rewrite concat_app in I4 |- *. cbn [concat] in *. rewrite !Forall_app in *. tauto.
Qed.

Lemma lookup_ok (st : pcs) M O b g i :
  pc_inv st M O → bounded st →
  ∃ st' r M', pc_lookup st b g i = Some (st', r) ∧ pc_inv st' M' (got O r) ∧
    r = match frame_at st b g i with Some p => Hit p | None => Miss end ∧ (r = Miss → st' = st) ∧
    (∀ b' g' i', frame_at st' b' g' i' = frame_at st b' g' i') ∧ pas st' = pas st ∧
    ∀ a, fs_byte (frames st') a = fs_byte (frames st) a.
Proof.
  intros I Hb. unfold pc_lookup, frame_at. destruct (pc_find_locked st b g i) as [e|] eqn:Ef.
  2:{ exists st, Miss, M. cbn. split_and!; done. }
  pose proof (ents_pas _ _ (find_ents _ _ _ _ _ Ef)) as Hp. destruct I as [I1 I2 I3 I4].
  destruct (acc_retain _ _ _ _ (pa e) I2 ltac:(by left)) as (f' & M' & -> & A & Hm); [intros r; apply Hb, I2|].
  cbn [mbind option_bind]. change (nz 0) with false. cbn iota. cbn [set_frames pc_tick].
  pose proof (pc_hash_range b g i) as Hh. set (t := pc_tick st +u 1). set (h := pc_hash b g i) in *.
  set (st0 := set_frames st f').
  eexists _, (Hit (pa e)), M'. split; [reflexivity|]. assert (pc_inv st0 M' (bump O (pa e) 1)) as I0 by (by split).
  assert (pc_inv (set_bucket st0 h (touch b g i t (bucket st0 h))) M' (bump O (pa e) 1)) as [J1 J2 J3 J4].
  { apply set_bucket_inv; [done|done|apply touch_pas|]. apply touch_stamp; [apply u64_range|].
    apply Forall_forall. intros x Hx%bucket_ents. by apply (proj1 (Forall_forall _ _) I4). }
  cbn [got]. split; [by split|]. split; [done|]. split; [done|].
  split; [|split; [exact (set_bucket_pas st0 h _ ltac:(cbn; lia) (touch_pas _ _ _ _ _))|done]].
  intros b' g' i'. pose proof (pc_hash_range b' g' i') as Hh'.
  change (pa <$> List.find (is_key b' g' i') (bucket (set_bucket st0 h (touch b g i t (bucket st0 h))) (pc_hash b' g' i')) =
    pa <$> List.find (is_key b' g' i') (bucket st0 (pc_hash b' g' i'))).
  rewrite bucket_set by (cbn; lia). destruct (decide (pc_hash b' g' i' = h)) as [->|]; [|done]. apply touch_find.
Qed.

(** * Eviction *)

(** What may be evicted: a frame that only the cache holds, outside the shared segments. *)
Definition idle (f : F) (e : pagecache_ent) : Prop := dsm e = false ∧ fs_refcount f (pa e) = Some 1.

(** A victim [e] with its place, or none: [P] says which places there are. *)
Definition victim (f : F) (l : list pagecache_ent) (P : nat * nat → pagecache_ent → Prop) (b b' : best) : Prop :=
  (b' = b ∧ ∀ e, e ∈ l → idle f e → b.2 < last_used e) ∨
  ∃ w e, b' = (Some w, last_used e) ∧ P w e ∧ idle f e ∧ last_used e ≤ b.2 ∧
    ∀ e', e' ∈ l → idle f e' → last_used e ≤ last_used e'.

Lemma victim_app f l1 l2 (P1 P2 P : nat * nat → pagecache_ent → Prop) b b1 b2 :
  victim f l1 P1 b b1 → victim f l2 P2 b1 b2 → (∀ w e, P1 w e → P w e) → (∀ w e, P2 w e → P w e) →
  victim f (l1 ++ l2) P b b2.
Proof.
  intros V1 V2 H1 H2. destruct V2 as [[-> N2]|(w & e & -> & Pw & C & Hle & Hmin)].
  - destruct V1 as [[-> N1]|(w & e & -> & Pw & C & Hle & Hmin)].
    + left. split; [done|]. intros e [He|He]%elem_of_app; auto.
    + right. exists w, e. split_and!; [done|auto|done|done|]. cbn [snd] in N2.
      intros e' [He|He]%elem_of_app Hi; [auto|]. specialize (N2 e' He Hi). lia.
  - right. exists w, e. split; [done|]. split; [auto|]. split; [done|].
    destruct V1 as [[-> N1]|(w1 & e1 & -> & Pw1 & C1 & Hle1 & Hmin1)]; cbn [snd] in *.
    + split; [done|]. intros e' [He|He]%elem_of_app Hi; [|auto]. specialize (N1 e' He Hi). lia.
    + split; [lia|]. intros e' [He|He]%elem_of_app Hi; [|auto]. specialize (Hmin1 e' He Hi). lia.
Qed.

Lemma scan_chain_ok f h l : ∀ (j : nat) b,
  (∀ e, e ∈ l → is_Some (fs_refcount f (pa e))) →
  ∃ b', scan_chain f l h j b = Some b' ∧ victim f l (λ w e, ∃ k, w = (h, (j + k)%nat) ∧ l !! k = Some e) b b'.
Proof.
  induction l as [|e l IH]; intros j b Hr.
  { exists b. split; [done|]. left. split; [done|]. by intros e ?%not_elem_of_nil. }
  cbn [scan_chain]. assert (∀ x, x ∈ l → is_Some (fs_refcount f (pa x))) as Hr' by (intros; apply Hr; mem).
  assert (∀ b1, (victim f [e] (λ w x, w = (h, j) ∧ x = e) b b1) → ∃ b',
    scan_chain f l h (S j) b1 = Some b' ∧ victim f (e :: l) (λ w x, ∃ k, w = (h, (j + k)%nat) ∧ (e :: l) !! k = Some x) b b') as Hstep.
  { intros b1 V1. destruct (IH (S j) b1 Hr') as (b' & -> & V2). exists b'. split; [done|].
    apply (victim_app f [e] l _ _ _ b b1 b' V1 V2).
    - intros w x [-> ->]. exists 0%nat. by rewrite Nat.add_0_r.
    - intros w x (k & -> & Hk). exists (S k). split; [f_equal; lia|done]. }
  destruct (dsm e) eqn:Ed.
  - apply Hstep. left. split; [done|]. intros x ->%list_elem_of_singleton [? _]. congruence.
  - destruct (Hr e ltac:(mem)) as [r Er]. rewrite Er. cbn [mbind option_bind]. apply Hstep.
    destruct (Z.eqb_spec r 1) as [->|Hne]; cbn [andb].
    + destruct (Z.leb_spec (last_used e) b.2).
      * right. exists (h, j), e. split_and!; [done..|by split|done|]. by intros x ->%list_elem_of_singleton _.
      * left. split; [done|]. by intros x ->%list_elem_of_singleton _.
    + left. split; [done|]. intros x ->%list_elem_of_singleton [_ ?]. congruence.
Qed.

Lemma scan_buckets_ok f ls : ∀ (h : nat) b,
  (∀ e, e ∈ concat ls → is_Some (fs_refcount f (pa e))) →
  ∃ b', scan_buckets f ls h b = Some b' ∧
    victim f (concat ls) (λ w e, ∃ m k l, w = ((h + m)%nat, k) ∧ ls !! m = Some l ∧ l !! k = Some e) b b'.
Proof.
  induction ls as [|l ls IH]; intros h b Hr.
  { exists b. split; [done|]. left. split; [done|]. by intros e ?%not_elem_of_nil. }
  cbn [scan_buckets concat] in *.
  destruct (scan_chain_ok f h l 0 b) as (b1 & -> & V1); [intros; apply Hr, elem_of_app; by left|].
  cbn [mbind option_bind]. destruct (IH (S h) b1) as (b' & -> & V2); [intros; apply Hr, elem_of_app; by right|].
  exists b'. split; [done|]. apply (victim_app f l (concat ls) _ _ _ b b1 b' V1 V2).
  - intros w x (k & -> & Hk). exists 0%nat, k, l. by rewrite Nat.add_0_r.
  - intros w x (m & k & l' & -> & Hm & Hk). exists (S m), k, l'. split; [f_equal; lia|done].
Qed.

Lemma find_delete (P : pagecache_ent → bool) l e j x :
  List.find P l = Some e → l !! j = Some x → pa x ≠ pa e → List.find P (delete j l) = Some e.
Proof.
  revert j. induction l as [|y l IH]; intros j Hf Hj Hne; [done|]. destruct j as [|j]; cbn [List.find delete list_delete] in *.
  - injection Hj as ->. destruct (P x); [by injection Hf as ->|done].
  - destruct (P y); [done|]. by apply (IH j).
Qed.

Lemma delete_perm {A} (l : list A) j x : l !! j = Some x → l ≡ₚ x :: delete j l.
Proof. apply delete_Permutation. Qed.

Lemma acc_bound f ps M O : acc f ps M O → length ps ≤ 2 ^ 30.
Proof.
  intros A. pose proof (fs_size _ _ (ac_counts _ _ _ _ A)) as Hs.
  assert (ps ⊆+ elements (dom M)) as Hl%submseteq_length.
  { apply NoDup_submseteq; [apply A|]. intros p Hp. destruct (acc_live _ _ _ _ _ A (or_introl Hp)) as (r & Hr & _).
    apply elem_of_elements, elem_of_dom. by exists r. }
  assert (length (elements (dom M)) = size M) as E by (by rewrite <- size_dom). lia.
Qed.
Lemma pas_bound (st : pcs) M O : pc_inv st M O → length (pas st) ≤ 2 ^ 30.
Proof. intros I. eapply acc_bound, I. Qed.

(** Every key whose frame somebody holds keeps it, in a cache without new entries. *)
Definition keeps (O : Z → Z) (st st' : pcs) : Prop :=
  ∀ b g i p, frame_at st b g i = Some p → 1 ≤ O p → frame_at st' b g i = Some p.

Lemma evict_ok (st : pcs) M O :
  pc_inv st M O →
  (pc_evict_one_locked st = Some (st, -1) ∧ ∀ e, e ∈ ents st → ¬ idle (frames st) e) ∨
  ∃ st' M' e, pc_evict_one_locked st = Some (st', 0) ∧ pc_inv st' M' O ∧ keeps O st st' ∧
    e ∈ ents st ∧ idle (frames st) e ∧ (∀ e', e' ∈ ents st → idle (frames st) e' → last_used e ≤ last_used e') ∧
    ents st ≡ₚ e :: ents st' ∧ pc_tick st' = pc_tick st.
Proof.
  intros I. pose proof I as [I1 I2 I3 I4]. unfold pc_evict_one_locked.
  destruct (scan_buckets_ok (frames st) (pc_bucket st) 0 (None, 2 ^ 64 - 1)) as (b & -> & V).
  { intros e He%(ents_pas st). destruct (acc_live _ _ _ _ _ I2 (or_introl He)) as (r & _ & _ & _ & ->). by exists r. }
  cbn [mbind option_bind]. destruct V as [[-> N]|(w & e & -> & (h & j & l & -> & Hl & Hj) & C & _ & Hmin)]; cbn [fst snd] in *.
  { left. split; [done|]. intros e He Hi. specialize (N e He Hi). pose proof (proj1 (Forall_forall _ _) I4 e He) as Hu. cbn in Hu. lia. }
  right. change (0 + h)%nat with h in *. rewrite Hl. cbn [from_option id]. rewrite Hj. cbn [frames].
  pose proof (lookup_lt_Some _ _ _ Hl) as Hh. destruct (at_bucket (pc_bucket st) h Hh) as (A & B & E & Ei & _).
  rewrite Hl in E. cbn [from_option id] in E. pose proof (delete_perm l j e Hj) as Hd.
  assert (ents st ≡ₚ e :: concat (A ++ delete j l :: B)) as Hents.
  { unfold ents. rewrite E, !concat_app. cbn [concat]. rewrite Hd at 1. cbn [app]. solve_Permutation. }
  assert (pas st ≡ₚ pa e :: (pa <$> concat (A ++ delete j l :: B))) as Hpas by (unfold pas; by rewrite Hents).
  pose proof (acc_perm _ _ _ _ _ I2 Hpas) as A0. apply acc_uncache in A0.
  destruct (acc_release _ _ _ _ (pa e) A0) as (f' & M' & -> & A1).
  { unfold bump. rewrite decide_True by done. pose proof (ac_out _ _ _ _ I2 (pa e)). lia. }
  cbn [mbind option_bind]. eexists _, M', e. split; [reflexivity|].
  assert (e ∈ ents st) as He by (rewrite Hents; by left).
  split; [|split; [|split_and!; [done|done|done| |done]]].
  - split; cbn [set_frames pc_bucket frames pc_count pas ents].
    + by rewrite length_insert.
    + unfold pas, ents; cbn [set_frames pc_bucket]. rewrite Ei. eapply acc_ext; [exact A1|]. intros q. unfold bump.
      destruct (decide (q = pa e)); lia.
    + unfold pas, ents; cbn [set_frames pc_bucket]. rewrite Ei, I3. pose proof (pas_bound _ _ _ I) as Hb.
      rewrite Hpas in Hb |- *. cbn [length] in *. rewrite s32_small by lia. lia.
    + unfold ents; cbn [set_frames pc_bucket]. rewrite Ei. rewrite Hents in I4. by apply Forall_cons in I4 as [_ ?].
  - intros b g i p Hf HO. unfold frame_at, pc_find_locked, bucket in *; cbn [set_frames pc_bucket].
    destruct (decide (Z.to_nat (pc_hash b g i) = h)) as [Eh|]; [rewrite Eh in *|by rewrite list_lookup_insert_ne].
    rewrite list_lookup_insert_eq by done. cbn [from_option id]. rewrite Hl in Hf. cbn [from_option id] in Hf.
    destruct (List.find _ l) as [x|] eqn:Ex; [|done]. injection Hf as <-. rewrite (find_delete _ l x j e); [done|done|done|].
    intros Epa. destruct C as [_ C]. rewrite Epa in C. destruct (acc_live _ _ _ _ (pa x) I2 (or_intror HO)) as (r & _ & _ & Er & Hr).
    rewrite decide_True in Er; [|rewrite <- Epa; by apply ents_pas]. rewrite Hr in C. injection C as ->. lia.
  - unfold ents; cbn [set_frames pc_bucket]. by rewrite Ei.
Qed.

Lemma shrink_ok fuel : ∀ (st : pcs) M O,
  pc_inv st M O → (Z.to_nat (pc_count st) < fuel)%nat →
  ∃ st' M', shrink fuel st = Some st' ∧ pc_inv st' M' O ∧ keeps O st st' ∧ ents st' ⊆+ ents st ∧
    (pc_count st' < PAGECACHE_MAX ∨ ∀ e, e ∈ ents st' → ¬ idle (frames st') e) ∧
    (pc_count st < PAGECACHE_MAX → st' = st).
Proof.
  induction fuel as [|fuel IH]; intros st M O I Hf; [lia|]. cbn [shrink].
  destruct (Z.leb_spec PAGECACHE_MAX (pc_count st)) as [Hm|Hm].
  2:{ exists st, M. split; [done|]. split; [done|]. split; [by intros b g i p|]. by split_and!; [|left|]. }
  destruct (evict_ok st M O I) as [[-> N]|(st1 & M1 & e & -> & I1 & K1 & _ & _ & _ & Hp & _)]; cbn [mbind option_bind].
  { change (nz (-1)) with true. cbn iota. exists st, M. split; [done|]. split; [done|]. split; [by intros b g i p|].
    split_and!; [done|by right|lia]. }
  change (nz 0) with false. cbn iota.
  assert (pc_count st = pc_count st1 + 1) as Hc.
  { rewrite (i_count _ _ _ I), (i_count _ _ _ I1). unfold pas. rewrite Hp. cbn [fmap list_fmap length]. lia. }
  unfold PAGECACHE_MAX in Hm. destruct (IH st1 M1 O I1) as (st' & M' & E & I' & K' & Hs & Hd & _); [lia|].
  exists st', M'. split; [done|]. split; [done|]. split; [intros b g i p H1 H2; exact (K' b g i p (K1 b g i p H1 H2) H2)|].
  split_and!; [|done|unfold PAGECACHE_MAX; lia]. etrans; [exact Hs|]. rewrite Hp. apply submseteq_cons. done.
Qed.

(** A new entry at the head of its chain. *)
Definition add_ent (st : pcs) (b g i p t : Z) (shm : bool) : pcs :=
  let st := set_bucket st (pc_hash b g i) (MkEnt b g i p t shm :: bucket st (pc_hash b g i)) in
  MkPcs (frames st) (pc_bucket st) (s32 (pc_count st + 1)) t.

Lemma add_ok (st : pcs) M O b g i p t shm :
  pc_inv st M O → 1 ≤ O p → p ∉ pas st → is_u64 t →
  let st' := add_ent st b g i p t shm in
  pc_inv st' M (bump O p (-1)) ∧ frame_at st' b g i = Some p ∧ pas st' ≡ₚ p :: pas st ∧
  ∀ b' g' i', (b', g', i') ≠ (b, g, i) → frame_at st' b' g' i' = frame_at st b' g' i'.
Proof.
  intros I HO Hn Ht st'. pose proof I as [I1 I2 I3 I4]. pose proof (pc_hash_range b g i) as Hh.
  destruct (at_bucket (pc_bucket st) (Z.to_nat (pc_hash b g i))) as (A & B & E & Ei & _); [lia|].
  set (h := pc_hash b g i) in *. set (e := MkEnt b g i p t shm).
  assert (ents st' ≡ₚ e :: ents st) as Hents.
  { unfold ents, st', add_ent, set_bucket; cbn [pc_bucket]. fold h. rewrite Ei. rewrite E at 1.
    rewrite !concat_app. cbn [concat]. fold e. unfold bucket. solve_Permutation. }
  assert (pas st' ≡ₚ p :: pas st) as Hpas by (unfold pas; by rewrite Hents).
  assert (∀ b' g' i', pc_find_locked st' b' g' i' =
    List.find (is_key b' g' i') (if decide (pc_hash b' g' i' = h) then e :: bucket st h else bucket st (pc_hash b' g' i'))) as Hfind.
  { intros b' g' i'. pose proof (pc_hash_range b' g' i').
    change (List.find (is_key b' g' i') (bucket (set_bucket st h (e :: bucket st h)) (pc_hash b' g' i')) =
      List.find (is_key b' g' i') (if decide (pc_hash b' g' i' = h) then e :: bucket st h else bucket st (pc_hash b' g' i'))).
    by rewrite bucket_set by lia. }
  split; [split|split; [|split; [done|]]].
  - unfold st', add_ent, set_bucket; cbn [pc_bucket]. by rewrite length_insert.
  - eapply acc_perm; [|symmetry; exact Hpas]. by apply acc_cache.
  - unfold st' at 1, add_ent, set_bucket; cbn [pc_count]. rewrite Hpas. cbn [length]. rewrite I3.
    pose proof (pas_bound _ _ _ I). rewrite s32_small by lia. lia.
  - rewrite Hents. by constructor.
  - unfold frame_at. rewrite Hfind, decide_True by done. cbn [List.find]. unfold is_key at 1; cbn [e backing_id generation page_index].
    by rewrite !Z.eqb_refl.
  - intros b' g' i' Hne. unfold frame_at. rewrite Hfind. destruct (decide _) as [Eh|]; [|done]. cbn [List.find].
    unfold is_key at 1; cbn [e backing_id generation page_index].
    assert ((b =? b') && (g =? g') && (i =? i') = false) as ->.
    { apply not_true_iff_false. intros [[?%Z.eqb_eq ?%Z.eqb_eq]%andb_true_iff ?%Z.eqb_eq]%andb_true_iff. by subst. }
    unfold pc_find_locked. by rewrite Eh.
Qed.

(** The second critical section. *)
Lemma insert_ok (st : pcs) M O b g i p shm ok :
  pc_inv st M O → bounded st → 1 ≤ O p → p ∉ pas st →
  ∃ st' r M', pc_insert st b g i p shm ok = Some (st', r) ∧ pc_inv st' M' (got (bump O p (-1)) r) ∧
    r = match frame_at st b g i with Some q => Hit q | None => if ok then Hit p else Failed end ∧
    (∀ q, r = Hit q → frame_at st' b g i = Some q) ∧
    (∀ b' g' i' q, frame_at st b' g' i' = Some q → 1 ≤ O q → frame_at st' b' g' i' = Some q) ∧
    (∀ q, q ∈ pas st' → q = p ∨ q ∈ pas st).
Proof.
  intros I Hb HO Hn. unfold pc_insert.
  destruct (lookup_ok st M O b g i I Hb) as (st1 & r & M1 & -> & I1 & Er & Hmiss & Hfr & Hcnt & _). cbn [mbind option_bind].
  assert (∀ (st2 : pcs) M2 O2, pc_inv st2 M2 O2 → 1 ≤ O2 p → ∃ f M', fs_release (frames st2) p = Some f ∧
    pc_inv (set_frames st2 f) M' (bump O2 p (-1))) as Hrel.
  { intros st2 M2 O2 [J1 J2 J3 J4] H2. destruct (acc_release _ _ _ _ p J2 H2) as (f & M' & E & A).
    exists f, M'. split; [done|]. by split. }
  destruct (frame_at st b g i) as [q|] eqn:Eq; subst r; cbn [got] in I1.
  - assert (q ≠ p) as Hqp.
    { intros ->. apply Hn. unfold frame_at in Eq. destruct (pc_find_locked st b g i) as [e|] eqn:Ee; [|done].
      injection Eq as <-. by eapply ents_pas, find_ents. }
    destruct (Hrel st1 M1 _ I1) as (f & M' & -> & I'); [unfold bump; rewrite decide_False by done; lia|].
    cbn [mbind option_bind]. exists (set_frames st1 f), (Hit q), M'. split; [done|]. split.
    { destruct I' as [J1 J2 J3 J4]. split; [done| |done|done]. eapply acc_ext; [exact J2|]. intros x. cbn [got]. unfold bump.
      repeat destruct (decide _); lia. }
    split; [done|]. split.
    + intros q' [= <-]. change (frame_at st1 b g i = Some q). by rewrite Hfr.
    + split; [|change (pas (set_frames st1 f)) with (pas st1); rewrite Hcnt; auto].
      intros b' g' i' q' Hq' _. change (frame_at st1 b' g' i' = Some q'). by rewrite Hfr.
  - rewrite (Hmiss eq_refl) in *. clear Hmiss Hfr Hcnt I1 st1.
    destruct (shrink_ok (S (Z.to_nat (pc_count st))) st M O I ltac:(lia)) as (st1 & M2 & -> & I2 & K & Hs & _ & _).
    assert (∀ q, q ∈ pas st1 → q ∈ pas st) as Hsub.
    { intros q (x & -> & Hx)%list_elem_of_fmap. apply list_elem_of_fmap_2. by eapply elem_of_submseteq. }
    cbn [mbind option_bind]. destruct ok.
    2:{ destruct (Hrel st1 M2 O I2 HO) as (f & M' & -> & I'). cbn [mbind option_bind].
        exists (set_frames st1 f), Failed, M'. split_and!; [done|done|done|done|exact K|]. intros q Hq. right. by apply Hsub. }
    assert (p ∉ pas st1) as Hn1 by (intros Hp; by apply Hn, Hsub).
    destruct (add_ok st1 M2 O b g i p (pc_tick st1 +u 1) shm I2 HO Hn1 (u64_range _)) as (I3 & Hk & Hps & Hother).
    fold (add_ent st1 b g i p (pc_tick st1 +u 1) shm). set (st2 := add_ent st1 b g i p (pc_tick st1 +u 1) shm) in *.
    destruct (acc_retain _ _ _ _ p (i_acc _ _ _ I3)) as (f' & M' & -> & A & _).
    { left. unfold frame_at in Hk. destruct (pc_find_locked st2 b g i) as [e|] eqn:Ee; [|done]. injection Hk as <-.
      by eapply ents_pas, find_ents. }
    { intros r Hr. destruct (acc_live _ _ _ _ p (i_acc _ _ _ I) (or_intror HO)) as (r0 & Hr0 & _ & Er0 & _).
      destruct (acc_live _ _ _ _ p (i_acc _ _ _ I2) (or_intror HO)) as (r1 & Hr1 & _ & Er1 & _).
      rewrite decide_False in Er0 by done. rewrite decide_False in Er1 by done. rewrite Hr1 in Hr. injection Hr as <-.
      specialize (Hb M p r0 (ac_counts _ _ _ _ (i_acc _ _ _ I)) Hr0). lia. }
    cbn [mbind option_bind]. change (nz 0) with false. cbn iota. exists (set_frames st2 f'), (Hit p), M'.
    split; [done|]. split; [by destruct I3; split|]. split; [done|]. split.
    + intros q [= <-]. exact Hk.
    + split.
      * intros b' g' i' q Hq HOq. change (frame_at st2 b' g' i' = Some q). rewrite Hother; [by apply K|].
        intros [= -> -> ->]. congruence.
      * intros q Hq. change (q ∈ pas st2) in Hq. rewrite Hps in Hq. apply elem_of_cons in Hq as [->|Hq]; auto.
Qed.

(** * Filling a page *)

(** The driver writes no more than it was asked for. *)
Definition driver_ok (read : Z → Z → list Z * Z) : Prop := ∀ n off, 0 ≤ n ≤ 4096 → length (read n off).1 ≤ n.

Lemma page_bytes_range size aligned : 0 ≤ page_bytes size aligned ≤ 4096.
Proof. unfold page_bytes. repeat zcase; lia. Qed.

(** The bytes of a filled page: what the driver read, then zeros. *)
Definition filled_page (f : F) (p size aligned : Z) (read : Z → Z → list Z * Z) : Prop :=
  let n := page_bytes size aligned in
  (n > 0 → (read n aligned).2 = n) ∧
  ∀ j, 0 ≤ j < 4096 → fs_byte f (p + j) = if 0 <? n then u8 (default 0 ((read n aligned).1 !! Z.to_nat j)) else 0.

Lemma pc_fill_ok (st : pcs) M O size aligned read :
  pc_inv st M O → driver_ok read →
  ∃ st' p M', pc_fill st size aligned read = Some (st', p) ∧
    pc_bucket st' = pc_bucket st ∧ pc_count st' = pc_count st ∧
    ((p = 0 ∧ pc_inv st' M' O) ∨
     (p ≠ 0 ∧ p ∉ pas st ∧ O p = 0 ∧ M' !! p = Some 1 ∧ pc_inv st' M' (bump O p 1) ∧
      filled_page (frames st') p size aligned read)).
Proof.
  intros [I1 I2 I3 I4] Hd. unfold pc_fill, filled_page. destruct (acc_alloc _ _ _ _ I2) as (f & p & M1 & -> & C). cbn [mbind option_bind].
  destruct C as [[-> A]|(Hp & HM & Hn & HO & A & Hz)].
  { change (0 =? 0) with true. cbn iota. exists (set_frames st f), 0, M1. split_and!; [done..|]. left. by split. }
  rewrite (proj2 (Z.eqb_neq p 0)) by done. pose proof (page_bytes_range size aligned) as Hn'. set (n := page_bytes size aligned) in *.
  destruct (Z.ltb_spec 0 n) as [Hpos|Hzero].
  2:{ exists (set_frames st f), p, M1. split_and!; [done..|]. right. split_and!; [done..|by split|lia|].
      intros j Hj. cbn [set_frames frames]. rewrite Hz, bool_decide_eq_true_2 by lia. done. }
  pose proof (Hd n aligned Hn') as Hlen. destruct (read n aligned) as [data nr]. cbn [fst snd] in *. cbn [set_frames frames].
  assert (acc (fs_store f p data) (pas st) M1 (bump O p 1)) as A1 by (apply acc_store; [done|by exists 1|lia]).
  destruct (_ || _) eqn:Hc.
  - destruct (acc_release _ _ _ _ p A1) as (f2 & M2 & -> & A2); [unfold bump; rewrite decide_True by done; lia|].
    cbn [mbind option_bind]. eexists _, 0, M2. split; [reflexivity|]. split_and!; [done..|]. left. split; [done|].
    split; [done| |done|done]. eapply acc_ext; [exact A2|]. intros q. unfold bump. destruct (decide (q = p)); lia.
  - apply orb_false_iff in Hc as [_ Hc%negb_false_iff%Z.eqb_eq]. eexists _, p, M1. split; [reflexivity|]. split_and!; [done..|].
    right. split_and!; [done..|by split|done|]. intros j Hj. cbn [set_frames frames].
    destruct (fs_store_spec f M1 p 1 data (ac_counts _ _ _ _ A) HM ltac:(lia)) as [_ ->]. replace (p + j - p) with j by lia.
    case_bool_decide as Hin; [done|]. rewrite Hz, bool_decide_eq_true_2 by lia.
    by rewrite lookup_ge_None_2 by lia.
Qed.

(** * Invalidation *)

Lemma restamp_pa ng e : pa (restamp ng e) = pa e.
Proof. unfold restamp. by destruct (nz ng). Qed.

(** What is left of a chain: entries of other objects as they are, kept entries of the
    object stamped anew, and entries somebody holds are kept. *)
Record chain_left (O : Z → Z) (b ng : Z) (l l' : list pagecache_ent) : Prop := {
  cl_pas : sublist (pa <$> l') (pa <$> l);
  cl_stamp : Forall (λ e, is_u64 (last_used e)) l → Forall (λ e, is_u64 (last_used e)) l';
  cl_other : ∀ b' g i, b' ≠ b → List.find (is_key b' g i) l' = List.find (is_key b' g i) l;
  cl_kept : ∀ e, e ∈ l → dsm e = true ∨ 1 ≤ O (pa e) → pa e ∈ pa <$> l'
}.

Lemma chain_left_keep O b ng e e' l l' :
  chain_left O b ng l l' → e' = e ∨ (backing_id e = b ∧ e' = restamp ng e) → chain_left O b ng (e :: l) (e' :: l').
Proof.
  intros [C1 C2 C3 C4] He. assert (pa e' = pa e) as Ep by (destruct He as [->|[_ ->]]; [done|apply restamp_pa]). split.
  - cbn. rewrite Ep. by apply sublist_skip.
  - intros [H1 H2]%Forall_cons. constructor; [|auto]. destruct He as [->|[_ ->]]; [done|]. unfold restamp. by destruct (nz ng).
  - intros b' g i Hne. cbn [List.find]. destruct He as [->|[Hb ->]]; [by rewrite C3|].
    assert (∀ x, backing_id x = b → is_key b' g i x = false) as Hk.
    { intros x Hx. unfold is_key. by rewrite Hx, (proj2 (Z.eqb_neq b b')). }
    rewrite !Hk; [by apply C3|done|]. unfold restamp. by destruct (nz ng).
  - intros x [->|Hx]%elem_of_cons Hh; [|apply C4 in Hx; [cbn; mem|done]]. cbn. rewrite Ep. mem.
Qed.
Lemma chain_left_drop O b ng e l l' :
  chain_left O b ng l l' → backing_id e = b → dsm e = false → O (pa e) = 0 → chain_left O b ng (e :: l) l'.
Proof.
  intros [C1 C2 C3 C4] Hb Hd HO. split.
  - cbn. by apply sublist_cons.
  - intros [_ H2]%Forall_cons. auto.
  - intros b' g i Hne. cbn [List.find]. rewrite C3 by done. unfold is_key at 2. by rewrite Hb, (proj2 (Z.eqb_neq b b')).
  - intros x [->|Hx]%elem_of_cons Hh; [destruct Hh; [congruence|lia]|auto].
Qed.

Lemma inval_chain_ok b ng l : ∀ f (count : Z) M O rest,
  acc f (rest ++ (pa <$> l)) M O → count = length (rest ++ (pa <$> l)) →
  ∃ f' count' l' M', inval_chain f count b ng l = Some (f', count', l') ∧
    acc f' (rest ++ (pa <$> l')) M' O ∧ count' = length (rest ++ (pa <$> l')) ∧ chain_left O b ng l l'.
Proof.
  induction l as [|e l IH]; intros f count M O rest A Hc.
  { exists f, count, [], M. split; [done|]. split; [exact A|]. split; [exact Hc|]. split; [done|done|done|]. by intros e ?%not_elem_of_nil. }
  cbn [inval_chain fmap list_fmap] in *.
  assert (∀ e', e' = e ∨ (backing_id e = b ∧ e' = restamp ng e) → ∃ f' (count' : Z) l' M',
    ('(f, count, l) ← inval_chain f count b ng l; Some (f, count, e' :: l)) = Some (f', count', l') ∧
    acc f' (rest ++ (pa <$> l')) M' O ∧ count' = length (rest ++ (pa <$> l')) ∧ chain_left O b ng (e :: l) l') as Hkeep.
  { intros e' He. assert (pa e' = pa e) as Ep by (destruct He as [->|[_ ->]]; [done|apply restamp_pa]).
    destruct (IH f count M O (rest ++ [pa e])) as (f' & c' & l' & M' & -> & A' & Hc' & C'); [by rewrite <- app_assoc..|].
    rewrite <- app_assoc in A', Hc'. cbn [mbind option_bind]. exists f', c', (e' :: l'), M'. cbn [fmap list_fmap]. rewrite Ep.
    split_and!; [done..|]. by apply chain_left_keep. }
  destruct (Z.eqb_spec (backing_id e) b) as [Hb|]; [|by apply Hkeep; left]. destruct (dsm e) eqn:Ed; [by apply Hkeep; right|].
  destruct (acc_live _ _ _ _ (pa e) A) as (r & _ & _ & Er & ->); [left; apply elem_of_app; right; by left|].
  rewrite decide_True in Er by (apply elem_of_app; right; by left). cbn [mbind option_bind].
  destruct (Z.eqb_spec r 1) as [Hr1|]; [|by apply Hkeep; right].
  assert (acc f (pa e :: rest ++ (pa <$> l)) M O) as A0 by (eapply acc_perm; [exact A|solve_Permutation]).
  apply acc_uncache in A0. destruct (acc_release _ _ _ _ (pa e) A0) as (f1 & M1 & -> & A1).
  { unfold bump. rewrite decide_True by done. lia. }
  cbn [mbind option_bind]. pose proof (acc_bound _ _ _ _ A) as Hbd. rewrite length_app in Hbd, Hc. cbn [length] in Hbd, Hc.
  destruct (IH f1 (s32 (count - 1)) M1 O rest) as (f' & c' & l' & M' & -> & A' & Hc' & C').
  { eapply acc_ext; [exact A1|]. intros q. unfold bump. destruct (decide (q = pa e)); lia. }
  { rewrite s32_small by lia. rewrite length_app. lia. }
  exists f', c', l', M'. split_and!; [done..|]. apply chain_left_drop; [done..|lia].
Qed.

Lemma inval_buckets_ok b ng ls : ∀ f (count : Z) M O rest,
  acc f (rest ++ (pa <$> concat ls)) M O → count = length (rest ++ (pa <$> concat ls)) →
  ∃ f' (count' : Z) ls' M', inval_buckets f count b ng ls = Some (f', count', ls') ∧
    acc f' (rest ++ (pa <$> concat ls')) M' O ∧ count' = length (rest ++ (pa <$> concat ls')) ∧
    Forall2 (chain_left O b ng) ls ls'.
Proof.
  induction ls as [|l ls IH]; intros f count M O rest A Hc.
  { exists f, count, [], M. split; [done|]. split; [exact A|]. split; [exact Hc|constructor]. }
  cbn [inval_buckets concat] in *. rewrite fmap_app in A, Hc.
  destruct (inval_chain_ok b ng l f count M O (rest ++ (pa <$> concat ls))) as (f1 & c1 & l' & M1 & -> & A1 & Hc1 & C1).
  { eapply acc_perm; [exact A|solve_Permutation]. }
  { rewrite Hc, !length_app. lia. }
  cbn [mbind option_bind].
  destruct (IH f1 c1 M1 O (rest ++ (pa <$> l'))) as (f' & c' & ls' & M' & -> & A' & Hc' & C').
  { eapply acc_perm; [exact A1|solve_Permutation]. }
  { rewrite Hc1, !length_app. lia. }
  cbn [mbind option_bind]. exists f', c', (l' :: ls'), M'. cbn [concat]. rewrite fmap_app, app_assoc.
  split; [done|]. split; [done|]. split; [done|]. by constructor.
Qed.

(** Bucket by bucket. *)
Definition left_over (O : Z → Z) (b ng : Z) (st st' : pcs) : Prop :=
  Forall2 (chain_left O b ng) (pc_bucket st) (pc_bucket st').

Lemma left_bucket O b ng (st st' : pcs) h : left_over O b ng st st' → chain_left O b ng (bucket st h) (bucket st' h).
Proof.
  intros H. unfold bucket. destruct (pc_bucket st !! Z.to_nat h) as [l|] eqn:E.
  - destruct (Forall2_lookup_l _ _ _ _ _ H E) as (l' & -> & C). done.
  - apply lookup_ge_None in E. pose proof (Forall2_length _ _ _ H). rewrite lookup_ge_None_2 by lia.
    split; [done|done|done|]. by intros e ?%not_elem_of_nil.
Qed.

Lemma inval_ok (st : pcs) M O b ng :
  pc_inv st M O →
  ∃ st' M', pagecache_invalidate st b ng = Some st' ∧ pc_inv st' M' O ∧
    (b = 0 → st' = st) ∧ (b ≠ 0 → left_over O b ng st st').
Proof.
  intros I. pose proof I as [I1 I2 I3 I4]. unfold pagecache_invalidate. destruct (Z.eqb_spec b 0) as [->|Hb].
  { exists st, M. split_and!; done. }
  destruct (inval_buckets_ok b ng (pc_bucket st) (frames st) (pc_count st) M O [] I2 I3) as (f' & c' & ls' & M' & -> & A & Hc & HL).
  cbn [mbind option_bind]. exists (MkPcs f' ls' c' (pc_tick st)), M'. split; [done|]. split; [|by split; [|intros _]].
  split; cbn [pc_bucket frames pc_count]; [by rewrite <- (Forall2_length _ _ _ HL)|exact A|exact Hc|].
  unfold ents in *; cbn [pc_bucket]. clear -I4 HL. induction HL as [|l l' ls ls' H HL IH]; [constructor|].
  cbn [concat] in *. apply Forall_app in I4 as [H1 H2]. apply Forall_app. split; [by apply (cl_stamp _ _ _ _ _ H)|by apply IH].
Qed.

Lemma inval_other (st st' : pcs) O b ng b' g i :
  left_over O b ng st st' → b' ≠ b → frame_at st' b' g i = frame_at st b' g i.
Proof.
  intros HL Hne. unfold frame_at, pc_find_locked.
  by rewrite (cl_other _ _ _ _ _ (left_bucket O b ng st st' (pc_hash b' g i) HL)).
Qed.

(** * What others do *)

(** One step of another processor, with the references [O] that the others hold: they
    look pages up, fill and insert frames of their own, invalidate the objects in [I],
    store to, retain and give up the frames they hold. *)
Inductive other_step (I : Z → Prop) : pcs * (Z → Z) → pcs * (Z → Z) → Prop :=
  | o_lookup st O b g i st' r :
      bounded st → pc_lookup st b g i = Some (st', r) → other_step I (st, O) (st', got O r)
  | o_fill st O size aligned read st' p :
      driver_ok read → pc_fill st size aligned read = Some (st', p) →
      other_step I (st, O) (st', if p =? 0 then O else bump O p 1)
  | o_insert st O b g i p shm ok st' r :
      bounded st → 1 ≤ O p → fs_refcount (frames st) p = Some 1 → pc_insert st b g i p shm ok = Some (st', r) →
      other_step I (st, O) (st', got (bump O p (-1)) r)
  | o_invalidate st O b ng st' :
      I b → pagecache_invalidate st b ng = Some st' → other_step I (st, O) (st', O)
  | o_store st O p l : 1 ≤ O p → length l ≤ 4096 → other_step I (st, O) (set_frames st (fs_store (frames st) p l), O)
  | o_retain st O p f rc :
      bounded st → 1 ≤ O p → fs_retain (frames st) p = Some (f, rc) → other_step I (st, O) (set_frames st f, bump O p 1)
  | o_release st O p f :
      1 ≤ O p → fs_release (frames st) p = Some f → other_step I (st, O) (set_frames st f, bump O p (-1)).

Definition plus (O1 O2 : Z → Z) : Z → Z := λ p, O1 p + O2 p.
Lemma plus_bump O1 O2 p d q : plus O1 (bump O2 p d) q = bump (plus O1 O2) p d q.
Proof. unfold plus, bump. destruct (decide (q = p)); lia. Qed.

Lemma inv_ext (st : pcs) M O O' : pc_inv st M O → (∀ p, O' p = O p) → pc_inv st M O'.
Proof. intros [I1 I2 I3 I4] E. split; [done|by eapply acc_ext|done|done]. Qed.
Lemma plus_got O1 O2 r q : plus O1 (got O2 r) q = got (plus O1 O2) r q.
Proof. destruct r; [done|done|apply plus_bump]. Qed.

(** What the others may rely on and must keep, in presence of references [mine]: the
    books, their own references being non-negative, the frames of all keys in [mine],
    except where they invalidate. *)
Lemma other_step_ok I mine (st st' : pcs) M O O' :
  other_step I (st, O) (st', O') → pc_inv st M (plus mine O) → (∀ p, 0 ≤ O p) → (∀ p, 0 ≤ mine p) →
  (∃ M', pc_inv st' M' (plus mine O')) ∧ (∀ p, 0 ≤ O' p) ∧
  (∀ b g i p, ¬ I b → frame_at st b g i = Some p → 1 ≤ mine p → frame_at st' b g i = Some p) ∧
  (∀ p, 1 ≤ mine p → p ∉ pas st → p ∉ pas st').
Proof.
  intros Hs Iv HO Hm. inversion Hs as [? ? b g i ? r Hb E|? ? size al read ? p Hd E|? ? b g i p shm ok ? r Hb Hp Hr E
    |? ? b ng ? HI E|? ? p l Hp Hl|? ? p f rc Hb Hp E|? ? p f Hp E]; simplify_eq/=.
  - destruct (lookup_ok st M _ b g i Iv Hb) as (st1 & r1 & M' & E' & I' & Hr & _ & Hf & Hps & _).
    rewrite E in E'. injection E' as <- <-. split; [exists M'; eapply inv_ext; [exact I'|apply plus_got]|].
    split; [destruct r; [done|done|by apply bump_nonneg; [|specialize (HO p); lia]]|]. split; [|by rewrite Hps].
    intros b' g' i' q _ Hq _. by rewrite Hf.
  - destruct (pc_fill_ok st M _ size al read Iv Hd) as (st1 & p1 & M' & E' & Hbk & Hcnt & C). rewrite E in E'. injection E' as <- <-.
    split; [|split; [|split]].
    + exists M'. destruct C as [[-> I']|(Hp0 & _ & _ & _ & I' & _)]; [done|]. rewrite (proj2 (Z.eqb_neq p 0)) by done.
      eapply inv_ext; [exact I'|apply plus_bump].
    + destruct (p =? 0); [done|]. apply bump_nonneg; [done|specialize (HO p); lia].
    + intros b g i q _ Hq _. unfold frame_at, pc_find_locked, bucket in *. by rewrite Hbk.
    + intros q _. unfold pas, ents. by rewrite Hbk.
  - assert (p ∉ pas st ∧ mine p = 0) as [Hn Hm0].
    { destruct (acc_live _ _ _ _ p (i_acc _ _ _ Iv)) as (r1 & _ & _ & Er & Hr1).
      { right. unfold plus. specialize (Hm p). lia. }
      rewrite Hr in Hr1. injection Hr1 as <-. unfold plus in Er. specialize (Hm p). destruct (decide (p ∈ pas st)); [lia|].
      split; [done|lia]. }
    destruct (insert_ok st M _ b g i p shm ok Iv Hb) as (st1 & r1 & M' & E' & I' & _ & _ & Hk & Hps).
    { unfold plus. lia. }
    { done. }
    rewrite E in E'. injection E' as <- <-. split; [|split; [|split]].
    + exists M'. eapply inv_ext; [exact I'|]. intros q. rewrite plus_got. destruct r; cbn [got]; [apply plus_bump..|].
      unfold bump at 1 3. by rewrite plus_bump.
    + assert (∀ q, 0 ≤ bump O p (-1) q) as Hq by (apply bump_nonneg; [done|lia]).
      destruct r as [| |q]; [done|done|]. cbn [got]. apply bump_nonneg; [done|]. specialize (Hq q). lia.
    + intros b' g' i' q _ Hq Hmq. apply Hk; [done|]. unfold plus. specialize (HO q). lia.
    + intros q Hmq Hnq Hin. destruct (Hps q Hin) as [->|]; [lia|done].
  - destruct (inval_ok st M _ b ng Iv) as (st1 & M' & E' & I' & H0 & H1). rewrite E in E'. injection E' as <-.
    split; [by exists M'|]. split; [done|]. destruct (decide (b = 0)) as [->|Hb0]; [rewrite (H0 eq_refl); auto|].
    specialize (H1 Hb0). split.
    + intros b' g' i' q Hn Hq _. rewrite (inval_other st st' _ b ng b' g' i' H1); [done|by intros ->].
    + intros q _ Hnq Hq. apply Hnq. unfold pas, ents in *. clear -H1 Hq. unfold left_over in H1.
      induction H1 as [|l l' ls ls' H H1 IH]; [done|]. cbn [concat] in *. rewrite fmap_app, elem_of_app in *.
      destruct Hq as [Hq|Hq]; [left|auto]. eapply elem_of_submseteq; [exact Hq|]. by apply sublist_submseteq, (cl_pas _ _ _ _ _ H).
  - destruct Iv as [I1 I2 I3 I4]. assert (1 ≤ plus mine O' p) as Hp' by (unfold plus; specialize (Hm p); lia).
    destruct (acc_live _ _ _ _ p I2 (or_intror Hp')) as (r & Hr & _). split; [|by auto].
    exists M. split; [done| |done|done]. by apply acc_store; [|by exists r|].
  - destruct Iv as [I1 I2 I3 I4]. assert (1 ≤ plus mine O p) as Hp' by (unfold plus; specialize (Hm p); lia).
    destruct (acc_retain _ _ _ _ p I2 (or_intror Hp') ltac:(intros r; apply (Hb M p r), I2)) as (f' & M' & E' & A & _).
    rewrite E in E'. injection E' as <- ->. split; [|split; [by apply bump_nonneg; [|lia]|by auto]].
    exists M'. split; [done| |done|done]. eapply acc_ext; [exact A|apply plus_bump].
  - destruct Iv as [I1 I2 I3 I4]. assert (1 ≤ plus mine O p) as Hp' by (unfold plus; specialize (Hm p); lia).
    destruct (acc_release _ _ _ _ p I2 Hp') as (f' & M' & E' & A).
    rewrite E in E'. injection E' as <-. split; [|split; [by apply bump_nonneg; [|lia]|by auto]].
    exists M'. split; [done| |done|done]. eapply acc_ext; [exact A|apply plus_bump].
Qed.

Lemma others_ok I mine (s s' : pcs * (Z → Z)) :
  rtc (other_step I) s s' → (∀ p, 0 ≤ mine p) →
  ∀ M, pc_inv s.1 M (plus mine s.2) → (∀ p, 0 ≤ s.2 p) →
  (∃ M', pc_inv s'.1 M' (plus mine s'.2)) ∧ (∀ p, 0 ≤ s'.2 p) ∧
  (∀ b g i p, ¬ I b → frame_at s.1 b g i = Some p → 1 ≤ mine p → frame_at s'.1 b g i = Some p) ∧
  (∀ p, 1 ≤ mine p → p ∉ pas s.1 → p ∉ pas s'.1).
Proof.
  intros Hr Hm. induction Hr as [[st O]|[st O] [st1 O1] [st2 O2] H1 H2 IH]; intros M Iv HO; cbn [fst snd] in *.
  { split; [by exists M|]. auto. }
  destruct (other_step_ok I mine st st1 M O O1 H1 Iv HO Hm) as ([M1 I1] & HO1 & K1 & N1).
  destruct (IH M1 I1 HO1) as (HI & HO2 & K2 & N2). split; [done|]. split; [done|]. split; [|auto].
  intros b g i p Hn Hf Hp. apply K2; [done| |done]. by apply K1.
Qed.

(** * The operations *)

Definition page_of (off : Z) : Z := Z.shiftr (off &u ~u 0xFFF) 12.
Definition zero : Z → Z := λ _, 0.
Definition one (p : Z) : Z → Z := bump zero p 1.

Lemma plus_zero O p : plus zero O p = O p.
Proof. done. Qed.
Lemma plus_one O p q : plus (one p) O q = bump O p 1 q.
Proof. unfold plus, one, bump, zero. destruct (decide (q = p)); lia. Qed.
Lemma one_nonneg p q : 0 ≤ one p q.
Proof. unfold one, bump, zero. destruct (decide (q = p)); lia. Qed.

Lemma get_ok (st : pcs) M O file off other1 other2 ok O1 O2 :
  let key P := P (f_backing file) (f_gen file) (page_of off) in
  pc_inv st M O → bounded st → driver_ok (f_read file) → f_backing file ≠ 0 →
  rtc (other_step (λ _, True)) (st, O) (other1 st, O1) →
  (∀ st2 p, pc_fill (other1 st) (f_size file) (off &u ~u 0xFFF) (f_read file) = Some (st2, p) →
    rtc (other_step (λ _, True)) (st2, O1) (other2 st2, O2) ∧ bounded (other2 st2)) →
  ∃ st' r M' O', pagecache_get st file off other1 other2 ok = Some (st', r) ∧
    O' ∈ [O; O1; O2] ∧ pc_inv st' M' (if r is Some p then bump O' p 1 else O') ∧
    (∀ p, r = Some p → key (frame_at st') = Some p) ∧
    (∀ p, key (frame_at st) = Some p → r = Some p ∧ O' = O).
Proof.
  intros key Iv Hb Hd Hbk R1 R2. unfold pagecache_get. rewrite (proj2 (Z.eqb_neq _ 0)) by done. cbv zeta.
  fold (page_of off). destruct (lookup_ok st M O (f_backing file) (f_gen file) (page_of off) Iv Hb)
    as (st1 & r & M1 & -> & I1 & Hr & Hmiss & Hfr & _). cbn [mbind option_bind].
  unfold key in *. destruct (frame_at st (f_backing file) (f_gen file) (page_of off)) as [q|] eqn:Ef; subst r.
  { exists st1, (Some q), M1, O. split; [done|]. split; [mem|]. split; [done|]. split; [|by intros p [= ->]].
    intros p [= <-]. by rewrite Hfr. }
  rewrite (Hmiss eq_refl) in *. clear Hmiss Hfr I1 M1 st1.
  destruct (others_ok _ zero _ _ R1 ltac:(done) M) as ([M1 I1] & HO1 & _ & _);
    [by eapply inv_ext; [exact Iv|]|apply (ac_out _ _ _ _ (i_acc _ _ _ Iv))|]. cbn [fst snd] in *.
  destruct (pc_fill_ok (other1 st) M1 O1 (f_size file) (off &u ~u 0xFFF) (f_read file)) as (st2 & p & M2 & E2 & Hbk2 & _ & C);
    [by eapply inv_ext; [exact I1|]|done|]. rewrite E2. cbn [mbind option_bind].
  destruct (R2 st2 p E2) as [R3 Hb3]. destruct C as [[-> I2]|(Hp & Hn & HOp & _ & I2 & _)].
  { change (0 =? 0) with true. cbn iota. exists st2, None, M2, O1. split; [done|]. split; [mem|]. by split_and!. }
  rewrite (proj2 (Z.eqb_neq p 0)) by done.
  destruct (others_ok _ (one p) _ _ R3 (one_nonneg p) M2) as ([M3 I3] & HO2 & _ & N3);
    [eapply inv_ext; [exact I2|apply plus_one]|done|]. cbn [fst snd] in *.
  assert (pc_inv (other2 st2) M3 (bump O2 p 1)) as I3' by (eapply inv_ext; [exact I3|]; intros q; by rewrite plus_one).
  destruct (insert_ok (other2 st2) M3 (bump O2 p 1) (f_backing file) (f_gen file) (page_of off) p (shmfile file) ok I3' Hb3)
    as (st' & r & M' & -> & I' & Hr & Hk & _ & _).
  { unfold bump. rewrite decide_True by done. specialize (HO2 p). lia. }
  { apply N3; [unfold one, bump, zero; by rewrite decide_True|]. unfold pas, ents. by rewrite Hbk2. }
  cbn [mbind option_bind]. assert (∀ q, bump (bump O2 p 1) p (-1) q = O2 q) as Hbb.
  { intros q. unfold bump. destruct (decide (q = p)); lia. }
  eexists st', _, M', O2. split; [reflexivity|]. split; [mem|]. split.
  - eapply inv_ext; [exact I'|]. intros q. destruct r as [| |q']; cbn [got]; [by rewrite Hbb..|].
    unfold bump at 1 2. by rewrite Hbb.
  - split; [|done]. intros q. destruct r as [| |q']; [done|done|]. intros [= ->]. by apply Hk.
Qed.

(** Alone, [pagecache_get] gives the cached frame or one that was not in the cache. *)
Lemma get_alone (st st' : pcs) M O file off ok q :
  pc_inv st M O → bounded st → driver_ok (f_read file) →
  pagecache_get st file off id id ok = Some (st', Some q) →
  frame_at st (f_backing file) (f_gen file) (page_of off) = Some q ∨ q ∉ pas st.
Proof.
  intros Iv Hb Hd. unfold pagecache_get. destruct (_ =? 0); [done|]. cbv zeta. fold (page_of off).
  destruct (lookup_ok st M O (f_backing file) (f_gen file) (page_of off) Iv Hb)
    as (st1 & r & M1 & -> & I1 & Hr & Hmiss & _). cbn [mbind option_bind].
  destruct (frame_at st (f_backing file) (f_gen file) (page_of off)) as [q'|] eqn:Ef; subst r.
  { intros [= _ ->]. by left. }
  rewrite (Hmiss eq_refl) in *. cbn [id].
  destruct (pc_fill_ok st M O (f_size file) (off &u ~u 0xFFF) (f_read file) Iv Hd) as (st2 & p & M2 & -> & Hbk & _ & C).
  cbn [mbind option_bind]. destruct (Z.eqb_spec p 0); [done|]. destruct C as [[? _]|(_ & Hn & _ & HM & I2 & _)]; [done|].
  intros H. right.
  assert (frame_at st2 (f_backing file) (f_gen file) (page_of off) = None) as Ef2.
  { rewrite <- Ef. unfold frame_at, pc_find_locked, bucket. by rewrite Hbk. }
  unfold pc_insert, pc_lookup in H. unfold frame_at in Ef2. destruct (pc_find_locked st2 _ _ _); [done|]. cbn [mbind option_bind] in H.
  destruct (shrink _ _) as [st3|]; [|done]. cbn [mbind option_bind] in H. destruct ok.
  - destruct (fs_retain _ _) as [[f rc]|]; [|done]. cbn [mbind option_bind] in H. destruct (nz rc); [|by simplify_eq/=].
    destruct (fs_release _ _); by simplify_eq/=.
  - destruct (fs_release _ _); by simplify_eq/=.
Qed.

Lemma fill_bounded (st st' : pcs) M O size aligned read p :
  pc_inv st M O → driver_ok read → bounded st → pc_fill st size aligned read = Some (st', p) → bounded st'.
Proof.
  intros Iv Hd Hb E. destruct (pc_fill_ok st M O size aligned read Iv Hd) as (st1 & p1 & M' & E' & Hbk & _ & C).
  rewrite E in E'. injection E' as <- <-. intros N q r HN Hq.
  assert (pas st' = pas st) as Hps by (unfold pas, ents; by rewrite Hbk).
  assert (∀ O', pc_inv st' M' O' → O' q ≤ O q ∨ r = 1 → r + 1 < 2 ^ 32) as H.
  { intros O' I' HO. pose proof (ac_counts _ _ _ _ (i_acc _ _ _ I')) as C'. rewrite (fs_counts_inj _ _ _ HN C') in Hq.
    pose proof (ac_refs _ _ _ _ (i_acc _ _ _ I') q) as Hr. rewrite Hq, Hps in Hr. cbn [from_option id] in Hr.
    destruct HO as [HO|]; [|lia]. pose proof (ac_refs _ _ _ _ (i_acc _ _ _ Iv) q) as Hr0.
    destruct (fs_live _ _ _ _ C' Hq) as [? _]. destruct (M !! q) as [r0|] eqn:E0; cbn [from_option id] in Hr0; [|lia].
    pose proof (Hb M q r0 (ac_counts _ _ _ _ (i_acc _ _ _ Iv)) E0). lia. }
  destruct C as [[-> I']|(_ & Hn & HO & HM & I' & _)]; [by apply (H O); [|left]|].
  apply (H (bump O p 1)); [done|]. unfold bump. destruct (decide (q = p)) as [->|]; [right|by left].
  pose proof (fs_counts_inj _ _ _ HN (ac_counts _ _ _ _ (i_acc _ _ _ I'))) as ->. congruence.
Qed.

(** The bucket depends on the generation's low bits. *)
Lemma pc_hash_gen b g g' i : pc_hash b g i = pc_hash b g' i → g `mod` 512 = g' `mod` 512.
Proof.
  unfold pc_hash, PAGECACHE_BUCKETS. change (512 - 1) with (Z.ones 9). intros E.
  set (c := 0x9E3779B97F4A7C15) in *. set (y := i *u 0xBF58476D1CE4E5B9) in *.
  assert (Z.land (g *u c) (Z.ones 9) = Z.land (g' *u c) (Z.ones 9)) as E1.
  { apply Z.bits_inj'. intros n Hn. apply (f_equal (λ z, Z.testbit z n)) in E. rewrite !Z.land_spec, !Z.lxor_spec in *.
    by destruct (Z.testbit b n), (Z.testbit y n), (Z.testbit (g *u c) n), (Z.testbit (g' *u c) n), (Z.testbit (Z.ones 9) n). }
  rewrite !Z.land_ones in E1 by lia. change (2 ^ 9) with 512 in E1.
  assert (∀ x, (x *u c) `mod` 512 = (x * c) `mod` 512) as Hu.
  { intros x. unfold u64. apply Z.mod_mod_divide. by exists (2 ^ 55). }
  assert (∀ x, ((x * c) `mod` 512 * 317) `mod` 512 = x `mod` 512) as Hi.
  { intros x. rewrite Z.mul_mod_idemp_l by lia. replace (x * c * 317) with (x + x * 7058645698682527187 * 512) by (unfold c; lia).
    apply Z.mod_add. lia. }
  rewrite !Hu in E1. by rewrite <- (Hi g), <- (Hi g'), E1.
Qed.

(** No frame is in two chains. *)
Lemma two_buckets (st : pcs) M O h h' e e' :
  pc_inv st M O → 0 ≤ h < 512 → 0 ≤ h' < 512 → h ≠ h' → e ∈ bucket st h → e' ∈ bucket st h' → pa e ≠ pa e'.
Proof.
  intros [I1 [_ I2 _ _] _ _] Hh Hh' Hne He He' E. unfold pas, ents in I2.
  destruct (at_bucket (pc_bucket st) (Z.to_nat h)) as (A & B & Es & _ & HA); [lia|]. fold (bucket st h) in Es.
  rewrite Es, concat_app in I2. cbn [concat] in I2. rewrite !fmap_app in I2.
  apply NoDup_app in I2 as (_ & D1 & (_ & D2 & _)%NoDup_app).
  assert (e' ∈ concat A ∨ e' ∈ concat B) as [H1|H1].
  { unfold bucket in He'. rewrite Es in He'. destruct (decide (Z.to_nat h' < length A)%nat) as [Hlt|Hge].
    - left. rewrite lookup_app_l in He' by done. by eapply chain_ents.
    - right. rewrite lookup_app_r in He' by lia. destruct (Z.to_nat h' - length A)%nat as [|k] eqn:Ek; [lia|]. by eapply chain_ents. }
  - apply (D1 (pa e')); [by apply list_elem_of_fmap_2|]. apply elem_of_app. left. rewrite <- E. by apply list_elem_of_fmap_2.
  - apply (D2 (pa e)); [by apply list_elem_of_fmap_2|]. rewrite E. by apply list_elem_of_fmap_2.
Qed.

(** C4: the page cache keeps exact books whatever other processors do while its lock is free.
    [pagecache_get] returns; the references outside the cache are afterwards those the
    others hold, and one more, the caller's, on the frame it gave out (none on a failure);
    the frame is then the cached one of its key, and a page that was cached is the one
    given out.  [pagecache_invalidate] changes no reference outside the cache. *)
Theorem pagecache_balanced (st : pcs) M O :
  pc_inv st M O →
  (∀ file off other1 other2 ok O1 O2,
    let key P := P (f_backing file) (f_gen file) (page_of off) in
    bounded st → driver_ok (f_read file) → f_backing file ≠ 0 →
    rtc (other_step (λ _, True)) (st, O) (other1 st, O1) →
    (∀ st2 p, pc_fill (other1 st) (f_size file) (off &u ~u 0xFFF) (f_read file) = Some (st2, p) →
      rtc (other_step (λ _, True)) (st2, O1) (other2 st2, O2) ∧ bounded (other2 st2)) →
    ∃ st' r M' O', pagecache_get st file off other1 other2 ok = Some (st', r) ∧
      O' ∈ [O; O1; O2] ∧ pc_inv st' M' (if r is Some p then bump O' p 1 else O') ∧
      (∀ p, r = Some p → key (frame_at st') = Some p) ∧
      (∀ p, key (frame_at st) = Some p → r = Some p ∧ O' = O)) ∧
  (∀ b ng, ∃ st' M', pagecache_invalidate st b ng = Some st' ∧ pc_inv st' M' O).
Proof.
  intros Iv. split; [intros; by eapply get_ok|]. intros b ng.
  destruct (inval_ok st M O b ng Iv) as (st' & M' & E & I' & _). by exists st', M'.
Qed.

Lemma thrice {A} (x y : A) : x ∈ [y; y; y] → x = y.
Proof. rewrite !elem_of_cons, elem_of_nil. tauto. Qed.


(** C32: invalidation with a new generation splits a shared page.  An entry whose frame is in
    use is stamped with the new generation but stays in the chain of the old one.  When
    the generations differ modulo 512, the number of chains, the next [pagecache_get] of
    that page, with the live generation, gives out another frame while the first one is
    still mapped. *)
Theorem pagecache_restamp_splits (st st1 st2 : pcs) M O e ng file off ok q :
  pc_inv st M O → e ∈ bucket st (pc_hash (backing_id e) (generation e) (page_index e)) → 1 ≤ O (pa e) →
  backing_id e ≠ 0 → (generation e) `mod` 512 ≠ ng `mod` 512 →
  pagecache_invalidate st (backing_id e) ng = Some st1 → bounded st1 → driver_ok (f_read file) →
  f_backing file = backing_id e → f_gen file = ng → page_of off = page_index e →
  pagecache_get st1 file off id id ok = Some (st2, Some q) →
  q ≠ pa e.
Proof.
  intros Iv He HO Hb0 Hg Hi Hb Hd E1 E2 E3 Hget -> .
  destruct (inval_ok st M O (backing_id e) ng Iv) as (st' & M1 & E & I1 & _ & HL). rewrite Hi in E. injection E as <-.
  specialize (HL Hb0). set (h := pc_hash (backing_id e) (generation e) (page_index e)) in *.
  pose proof (cl_kept _ _ _ _ _ (left_bucket O _ _ _ _ h HL) e He (or_intror HO)) as Hin.
  apply list_elem_of_fmap in Hin as (e' & Ep & He').
  destruct (get_alone st1 st2 M1 O file off ok (pa e) I1 Hb Hd Hget) as [Hf|Hn].
  2:{ apply Hn. rewrite Ep. by eapply ents_pas, bucket_ents. }
  rewrite E1, E2, E3 in Hf. unfold frame_at, pc_find_locked in Hf. set (h' := pc_hash (backing_id e) ng (page_index e)) in *.
  destruct (List.find _ (bucket st1 h')) as [x|] eqn:Ex; [|done]. apply find_elem in Ex as [Hx _]. injection Hf as Hf.
  assert (h ≠ h') as Hne by (intros Hh; by apply pc_hash_gen in Hh). clear -I1 He' Hx Ep Hf Hne.
  pose proof (pc_hash_range (backing_id e) (generation e) (page_index e)) as Hr. fold h in Hr.
  pose proof (pc_hash_range (backing_id e) ng (page_index e)) as Hr'. fold h' in Hr'.
  apply (two_buckets st1 M1 O h h' e' x); try done; congruence.
Qed.

Lemma get_alone_ok (st : pcs) M O file off ok :
  pc_inv st M O → bounded st → driver_ok (f_read file) → f_backing file ≠ 0 →
  ∃ st' r M', pagecache_get st file off id id ok = Some (st', r) ∧ pc_inv st' M' (if r is Some p then bump O p 1 else O).
Proof.
  intros Iv Hb Hd H0. destruct (get_ok st M O file off id id ok O O Iv Hb Hd H0) as (st' & r & M' & O' & E & HO & I & _).
  { apply rtc_refl. }
  { intros st2 p E. split; [apply rtc_refl|]. by eapply fill_bounded. }
  apply thrice in HO as ->. by exists st', r, M'.
Qed.

Lemma inv_bounded (st : pcs) M O : pc_inv st M O → (∀ p, O p < 2 ^ 31) → bounded st.
Proof.
  intros Iv HO N p r HN Hp. pose proof (ac_counts _ _ _ _ (i_acc _ _ _ Iv)) as HC.
  rewrite (fs_counts_inj _ _ _ HN HC) in Hp. pose proof (ac_refs _ _ _ _ (i_acc _ _ _ Iv) p) as Hr.
  rewrite Hp in Hr. cbn [from_option id] in Hr. specialize (HO p). destruct (decide (p ∈ pas st)); lia.
Qed.

End props.

(** * A cache over the table of eight frames *)

#[local] Instance table8 : FrameService Frame.sys := frame_service 7.

Definition cache8 : PageCache.pcs := MkPcs sys8 (replicate 512 []) 0 0.
(** A file of three bytes. *)
Definition file3 (g : Z) : fs_file := MkFile 9 g 3 false (λ n _, (take (Z.to_nat n) [97; 98; 99], Z.min n 3)).

Lemma file3_driver g : driver_ok (f_read (file3 g)).
Proof. intros n off Hn. cbn [file3 f_read fst]. rewrite length_take. lia. Qed.

Lemma cache8_inv : pc_inv cache8 ∅ zero.
Proof.
  assert (ents cache8 = []) as He by reflexivity.
  split; [reflexivity| |unfold pas; by rewrite He|by rewrite He]. unfold pas. rewrite He. split; [|constructor|done|done].
  split; [exact sys8_ok|]. split; [reflexivity|]. intros l [= <-]. vm_compute. discriminate.
Qed.
Lemma cache8_bounded : bounded cache8.
Proof. eapply inv_bounded; [exact cache8_inv|]. done. Qed.

(** The first read of the page and what it leaves. *)
Definition after_get : PageCache.pcs * option Z := default (cache8, None) (pagecache_get cache8 (file3 4) 0 id id true).
Definition cached_ent : pagecache_ent := MkEnt 9 4 0 0x8000 1 false.
Lemma after_get_ok :
  pagecache_get cache8 (file3 4) 0 id id true = Some (after_get.1, Some 0x8000) ∧
  ∃ M, pc_inv after_get.1 M (bump zero 0x8000 1).
Proof.
  destruct (get_alone_ok cache8 ∅ zero (file3 4) 0 true cache8_inv cache8_bounded (file3_driver 4))
    as (st' & r & M & E & I); [discriminate|].
  assert (after_get.2 = Some 0x8000) as Er by (vm_compute; reflexivity).
  assert (after_get = (st', r)) as Ea by (unfold after_get; rewrite E; reflexivity). rewrite Ea in Er |- *. cbn [fst snd] in Er |- *.
  subst r. split; [exact E|]. exists M. exact I.
Qed.

(** One page read into an empty cache, and the object invalidated. *)
Lemma pagecache_balanced_witness :
  (∃ st' r M' O', pagecache_get cache8 (file3 4) 0 id id true = Some (st', r) ∧
    O' ∈ [zero; zero; zero] ∧ pc_inv st' M' (if r is Some p then bump O' p 1 else O')) ∧
  ∃ st' M', pagecache_invalidate cache8 9 5 = Some st' ∧ pc_inv st' M' zero.
Proof.
  destruct (pagecache_balanced cache8 ∅ zero cache8_inv) as [H1 H2]. split; [|apply H2].
  destruct (H1 (file3 4) 0 id id true zero zero cache8_bounded (file3_driver 4)) as (st' & r & M' & O' & E & HO & I & _);
    [discriminate|apply rtc_refl| |exists st', r, M', O'; split; [exact E|split; [exact HO|exact I]]].
  intros st2 p E. split; [apply rtc_refl|].
  eapply fill_bounded; [exact cache8_inv|apply (file3_driver 4)|exact cache8_bounded|exact E].
Defined.


(** The page is invalidated with the next generation while it is mapped: the next reader
    gets the frame 0x7000. *)
Lemma pagecache_restamp_splits_witness :
  let st1 := default cache8 (pagecache_invalidate after_get.1 9 5) in
  ∃ st2, pagecache_get st1 (file3 5) 0 id id true = Some (st2, Some 0x7000) ∧ 0x7000 ≠ pa cached_ent.
Proof.
  intros st1. destruct after_get_ok as [_ [M I]]. destruct (inval_ok _ _ _ 9 5 I) as (st & M1 & E & I1 & _).
  assert (pagecache_invalidate after_get.1 9 5 = Some st1) as E1 by (unfold st1; by rewrite E).
  rewrite E in E1. apply (inj Some) in E1. subst st. assert (bounded st1) as Hb.
  { eapply inv_bounded; [exact I1|]. intros p. unfold bump, zero. case_decide; lia. }
  destruct (get_alone_ok st1 M1 (bump zero 0x8000 1) (file3 5) 0 true I1 Hb (file3_driver 5)) as (st2 & r & _ & Hg & _); [discriminate|].
  assert ((default (st1, None) (pagecache_get st1 (file3 5) 0 id id true)).2 = Some 0x7000) as Er by (vm_compute; reflexivity).
  rewrite Hg in Er. cbn [from_option id snd] in Er. subst r. exists st2. split; [exact Hg|].
  eapply (pagecache_restamp_splits after_get.1 st1 st2 M (bump zero 0x8000 1) cached_ent 5 (file3 5) 0 true 0x7000);
    [exact I| |vm_compute; discriminate|discriminate|discriminate|exact E|exact Hb|apply file3_driver|reflexivity|reflexivity|reflexivity|exact Hg].
  change (cached_ent ∈ bucket after_get.1 (pc_hash 9 4 0)).
  assert (bucket after_get.1 (pc_hash 9 4 0) = [cached_ent]) as -> by (vm_compute; reflexivity). by left.
Defined.
