(* ===== verification/WallClock.v ===== *)
(** Wall-clock time: the battery clock ([cpu/etc/rtc.c], Module [Rtc]) and the clock that
    is set from it once and then follows the monotonic one ([cpu/timer/timekeeping.c],
    Module [Wall]).

    The registers of the battery clock and the readings of the monotonic clock are
    arguments; [tk_lock] makes what runs under it one step. *)
From Stdlib Require Import Sorted.
From S2P Require Import Prelude Printf Keyring.
Import Printf(s64).
Import Keyring(rtc_datetime, MkDate, year, month, day, hour, minute, second).

Module Rtc.

Definition RTC_COMMAND_PORT : Z := 0x70.
Definition RTC_DATA_PORT : Z := 0x71.
Definition RTC_REG_SECONDS : Z := 0x00.
Definition RTC_REG_MINUTES : Z := 0x02.
Definition RTC_REG_HOURS : Z := 0x04.
Definition RTC_REG_DAY : Z := 0x07.
Definition RTC_REG_MONTH : Z := 0x08.
Definition RTC_REG_YEAR : Z := 0x09.
Definition RTC_REG_STATUS_B : Z := 0x0B.
Definition RTC_REG_STATUS_C : Z := 0x0C.

Definition bcd_to_binary (bcd : Z) : Z := u8 ((bcd &u 0x0F) + Z.shiftr bcd 4 * 10).

(** [for (i = 0; i < 10000; i++) if (!is_update_in_progress()) break;]: the number of
    reads of status register A, whose answers are [uip]. *)
Fixpoint wait_update (fuel : nat) (uip : nat → bool) (i : nat) : nat :=
  match fuel with
  | O => i
  | S fuel => if uip i then wait_update fuel uip (S i) else S i
  end.

(** What [rtc_read_datetime] makes of the registers. *)
Definition decode (reg : Z → Z) : rtc_datetime :=
  let reg_b := reg RTC_REG_STATUS_B in
  let conv := λ v, if nz (reg_b &u 0x04) then v else bcd_to_binary v in
  let hour := conv (reg RTC_REG_HOURS) in
  let hour := if negb (nz (reg_b &u 0x02)) && nz (hour &u 0x80) then u8 (((hour &u 0x7F) + 12) `mod` 24) else hour in
  let second := conv (reg RTC_REG_SECONDS) in
  let minute := conv (reg RTC_REG_MINUTES) in
  let day := conv (reg RTC_REG_DAY) in
  let month := conv (reg RTC_REG_MONTH) in
  let year := (conv (reg RTC_REG_YEAR) + 2000) `mod` 2 ^ 16 in
  if (month <? 1) || (12 <? month) || (day <? 1) || (31 <? day) || (23 <? hour) || (59 <? minute) || (59 <? second)
  then MkDate 2026 1 1 0 0 0
  else MkDate year month day hour minute second.

(** The date, and how often status register A was read first. *)
Definition rtc_read_datetime (uip : nat → bool) (reg : Z → Z) : rtc_datetime * nat :=
  (decode reg, wait_update (Z.to_nat 10000) uip 0).

(** A write of a port; [pic_unmask_irq] and [pic_send_eoi] with their line. *)
Inductive action := Outb (port v : Z) | Inb (port : Z) | Unmask (irq : Z) | Eoi (irq : Z).

(** [b] and [a] are what the two reads give. *)
Definition rtc_init (b a : Z) : list action :=
  let rate := 15 &u 0x0F in
  [Outb RTC_COMMAND_PORT 0x8B; Inb RTC_DATA_PORT; Outb RTC_COMMAND_PORT 0x8B; Outb RTC_DATA_PORT (u8 (Z.lor b 0x40));
   Outb RTC_COMMAND_PORT 0x8A; Inb RTC_DATA_PORT; Outb RTC_COMMAND_PORT 0x8A;
   Outb RTC_DATA_PORT (u8 (Z.lor (a &u 0xF0) rate)); Unmask 8].

Definition rtc_handler (rtc_ticks : Z) : Z * list action :=
  (rtc_ticks +u 1, [Outb RTC_COMMAND_PORT RTC_REG_STATUS_C; Inb RTC_DATA_PORT; Eoi 8]).

End Rtc.

Module Wall.

(** Unsigned 32-bit arithmetic, widened to 64 bits at the end, as in C. *)
Definition mktime64 (year0 mon0 day hour min sec : Z) : Z :=
  let mon := u32 (mon0 - 2) in
  let '(mon, year) := if s32 mon <=? 0 then (u32 (mon + 12), u32 (year0 - 1)) else (mon, year0) in
  ((((u32 (year / 4 - year / 100 + year / 400 + u32 (367 * mon) / 12 + day) + u32 (year * 365) - 719499) * 24
     + hour) * 60 + min) * 60 + sec).

Record tk := MkTk { offs_real_us : Z; slew_remaining_us : Z; slew_last_mono_us : Z; ready : bool }.
Definition tk_boot : tk := MkTk 0 0 0 false.

(** [mono_us] is the reading of the monotonic clock, [dt] that of the battery clock. *)
Definition timekeeping_init (s : tk) (dt : rtc_datetime) (mono_us : Z) : tk :=
  if ready s then s
  else
    let real_us := mktime64 (year dt) (month dt) (day dt) (hour dt) (minute dt) (second dt) * 1000000 in
    MkTk (s64 (real_us - s64 mono_us)) 0 mono_us true.

Definition timekeeping_apply_slew_locked (s : tk) (mono_us : Z) : tk :=
  let slew := slew_remaining_us s in
  if (mono_us <=? slew_last_mono_us s) || (slew =? 0) then MkTk (offs_real_us s) slew mono_us (ready s)
  else
    let elapsed := mono_us -u slew_last_mono_us s in
    let budget := elapsed / 2000 in
    if budget =? 0 then s
    else
      let last := slew_last_mono_us s +u budget *u 2000 in
      let budget := if 0x7FFFFFFFFFFFFFFF <? budget then 0x7FFFFFFFFFFFFFFF else budget in
      let step := if slew <? 0 then - budget else budget in
      if ((0 <? slew) && (slew <=? step)) || ((slew <? 0) && (step <=? slew))
      then MkTk (s64 (offs_real_us s + slew)) 0 last (ready s)
      else MkTk (s64 (offs_real_us s + step)) (s64 (slew - step)) last (ready s).

(** [dt] and [m0] are read if the clock has not been set up. *)
Definition timekeeping_set_real_us (s : tk) (dt : rtc_datetime) (m0 real_us mono_us : Z) : tk :=
  let s := timekeeping_init s dt m0 in
  MkTk (s64 (real_us - s64 mono_us)) 0 mono_us (ready s).

Definition timekeeping_adjtime_us (s : tk) (dt : rtc_datetime) (m0 offset_us mono_us : Z) : tk :=
  let s := timekeeping_init s dt m0 in
  let s := timekeeping_apply_slew_locked s mono_us in
  MkTk (offs_real_us s) offset_us mono_us (ready s).

Definition ktime_get_real_ts64 (s : tk) (dt : rtc_datetime) (m0 now : Z) : tk * (Z * Z) :=
  let s := timekeeping_init s dt m0 in
  let s := timekeeping_apply_slew_locked s now in
  let real_us := s64 (s64 now + offs_real_us s) in
  let real_us := if real_us <? 0 then 0 else real_us in
  (s, (Z.quot real_us 1000000, Z.rem real_us 1000000 * 1000)).

End Wall.

Import Rtc Wall.

(** * The calendar *)

Definition leap (y : Z) : bool := (y `mod` 4 =? 0) && (negb (y `mod` 100 =? 0) || (y `mod` 400 =? 0)).
Definition year_days (y : Z) : Z := if leap y then 366 else 365.
Definition month_days (y m : Z) : Z :=
  if (m =? 4) || (m =? 6) || (m =? 9) || (m =? 11) then 30 else if m =? 2 then (if leap y then 29 else 28) else 31.

(** Days from 1970 to the beginning of a year, and in a year before a month. *)
Fixpoint days_to_year (n : nat) : Z :=
  match n with O => 0 | S n => days_to_year n + year_days (1970 + n) end.
Fixpoint days_to_month (y : Z) (n : nat) : Z :=
  match n with O => 0 | S n => days_to_month y n + month_days y (1 + n) end.
Definition days_from_civil (y m d : Z) : Z :=
  days_to_year (Z.to_nat (y - 1970)) + days_to_month y (Z.to_nat (m - 1)) + (d - 1).
Definition epoch_seconds (y m d h mi s : Z) : Z := ((days_from_civil y m d * 24 + h) * 60 + mi) * 60 + s.

Lemma days_to_year_closed n : let y := 1970 + Z.of_nat n - 1 in
  days_to_year n = y / 4 - y / 100 + y / 400 + 365 * y - 719162.
Proof.
  induction n as [|n IH]; [done|]. cbn [days_to_year]. cbv zeta in *. rewrite IH. unfold year_days, leap.
  replace (1970 + Z.of_nat (S n) - 1) with (1970 + Z.of_nat n) by lia.
  set (y := 1970 + Z.of_nat n). destruct (Z.eqb_spec (y `mod` 4) 0), (Z.eqb_spec (y `mod` 100) 0), (Z.eqb_spec (y `mod` 400) 0);
    cbn [andb orb negb]; Z.div_mod_to_equations; lia.
Qed.

Lemma leap_step y : (if leap y then 1 else 0) =
  (y / 4 - y / 100 + y / 400) - ((y - 1) / 4 - (y - 1) / 100 + (y - 1) / 400).
Proof.
  unfold leap. destruct (Z.eqb_spec (y `mod` 4) 0), (Z.eqb_spec (y `mod` 100) 0), (Z.eqb_spec (y `mod` 400) 0);
    cbn [andb orb negb]; Z.div_mod_to_equations; lia.
Qed.

(** The months before [m], from March on with the leap day of February. *)
Lemma months_before y m : 1 ≤ m ≤ 12 →
  days_to_month y (Z.to_nat (m - 1)) =
  if m <=? 2 then 367 * (m + 10) / 12 - 336 else 367 * (m - 2) / 12 + 29 + (if leap y then 1 else 0).
Proof.
  intros Hm. assert (m ∈ [1; 2; 3; 4; 5; 6; 7; 8; 9; 10; 11; 12]) as Hin.
  { rewrite !elem_of_cons. lia. }
  assert (∀ n, days_to_month y n = days_to_month (if leap y then 4 else 1) n) as Hy.
  { intros n. induction n as [|n IH]; [done|]. cbn [days_to_month]. rewrite IH. unfold month_days. by destruct (leap y). }
  rewrite Hy. clear Hy.
  repeat (apply elem_of_cons in Hin as [->|Hin]; [destruct (leap y); reflexivity|]).
  by apply not_elem_of_nil in Hin.
Qed.

Lemma mktime64_epoch y m d h mi s :
  1970 ≤ y < 2 ^ 17 → 1 ≤ m ≤ 12 → 0 ≤ d < 2 ^ 16 → mktime64 y m d h mi s = epoch_seconds y m d h mi s.
Proof.
  intros Hy Hm Hd. unfold mktime64, epoch_seconds, days_from_civil.
  assert (∀ (yy mm : Z), 1969 ≤ yy < 2 ^ 17 → 1 ≤ mm ≤ 12 →
    u32 (yy / 4 - yy / 100 + yy / 400 + u32 (367 * mm) / 12 + d) + u32 (yy * 365) =
    yy / 4 - yy / 100 + yy / 400 + 367 * mm / 12 + d + yy * 365) as Hu.
  { intros yy mm Hyy Hmm. rewrite (u32_small (367 * mm)), (u32_small (yy * 365)) by lia. rewrite u32_small; [done|].
    Z.div_mod_to_equations; lia. }
  rewrite months_before by done.
  rewrite days_to_year_closed. rewrite Z2Nat.id by lia. replace (1970 + (y - 1970) - 1) with (y - 1) by lia.
  pose proof (leap_step y) as Hl. destruct (Z.leb_spec m 2) as [H2|H2].
  - assert (s32 (u32 (m - 2)) <=? 0 = true) as -> by (assert (m = 1 ∨ m = 2) as [-> | ->] by lia; reflexivity).
    assert (u32 (u32 (m - 2) + 12) = m + 10) as -> by (assert (m = 1 ∨ m = 2) as [-> | ->] by lia; reflexivity).
    rewrite (u32_small (y - 1)) by lia. rewrite Hu by lia. lia.
  - rewrite (u32_small (m - 2)) by lia. unfold s32 at 1. rewrite Z.mod_small by lia. rewrite (proj2 (Z.leb_gt _ 0)) by lia.
    rewrite Hu by lia. destruct (leap y); lia.
Qed.

Lemma days_range y m d : 1970 ≤ y < 2100 → 1 ≤ m ≤ 12 → 1 ≤ d ≤ 31 → 0 ≤ days_from_civil y m d < 50000.
Proof.
  intros Hy Hm Hd. unfold days_from_civil. rewrite days_to_year_closed, months_before by done.
  rewrite Z2Nat.id by lia. destruct (Z.leb_spec m 2), (leap y); Z.div_mod_to_equations; lia.
Qed.

(** * The battery clock *)

Definition bcd (n : Z) : Z := 16 * (n / 10) + n `mod` 10.

Lemma bcd_roundtrip n : 0 ≤ n < 100 → bcd_to_binary (bcd n) = n.
Proof.
  intros Hn. assert (forallb (λ n, bcd_to_binary (bcd n) =? n) (seqZ 0 100) = true) as H by reflexivity.
  rewrite forallb_forall in H. apply Z.eqb_eq, (H n), list_elem_of_In, elem_of_seqZ. lia.
Qed.

(** The registers hold a date of this century, in binary or in decimal, the hour from 0
    to 23. *)
Record holds (reg : Z → Z) (y m d h mi s : Z) : Prop := {
  rg_range : 0 ≤ y < 100 ∧ 1 ≤ m ≤ 12 ∧ 1 ≤ d ≤ 31 ∧ 0 ≤ h ≤ 23 ∧ 0 ≤ mi ≤ 59 ∧ 0 ≤ s ≤ 59;
  rg_24 : nz (reg RTC_REG_STATUS_B &u 0x02) = true;
  rg_value : let enc v := if nz (reg RTC_REG_STATUS_B &u 0x04) then v else bcd v in
    reg RTC_REG_SECONDS = enc s ∧ reg RTC_REG_MINUTES = enc mi ∧ reg RTC_REG_HOURS = enc h ∧
    reg RTC_REG_DAY = enc d ∧ reg RTC_REG_MONTH = enc m ∧ reg RTC_REG_YEAR = enc y
}.

Lemma decode_holds reg y m d h mi s : holds reg y m d h mi s → decode reg = MkDate (2000 + y) m d h mi s.
Proof.
  intros [(Hy & Hm & Hd & Hh & Hmi & Hs) H24 (E1 & E2 & E3 & E4 & E5 & E6)]. unfold decode.
  rewrite H24, E1, E2, E3, E4, E5, E6. cbn [negb andb].
  assert (∀ v, 0 ≤ v < 100 → (if nz (reg RTC_REG_STATUS_B &u 0x04) then (if nz (reg RTC_REG_STATUS_B &u 0x04) then v else bcd v)
    else bcd_to_binary (if nz (reg RTC_REG_STATUS_B &u 0x04) then v else bcd v)) = v) as Hc.
  { intros v Hv. destruct (nz (reg RTC_REG_STATUS_B &u 0x04)); [reflexivity|by apply bcd_roundtrip]. }
  rewrite !Hc by lia. rewrite Z.mod_small by lia.
  rewrite (proj2 (Z.ltb_ge m 1)), (proj2 (Z.ltb_ge 12 m)), (proj2 (Z.ltb_ge d 1)), (proj2 (Z.ltb_ge 31 d)),
    (proj2 (Z.ltb_ge 23 h)), (proj2 (Z.ltb_ge 59 mi)), (proj2 (Z.ltb_ge 59 s)) by lia. cbn [orb]. f_equal. lia.
Qed.

(** A battery clock in 12-hour mode is misread.  In decimal, where the flag for the
    afternoon is converted as a digit, every afternoon hour makes the date invalid and it
    becomes 2026-01-01 00:00:00; in binary, noon is read as midnight and midnight as
    noon. *)
Theorem rtc_12_hour_misread reg h :
  nz (reg RTC_REG_STATUS_B &u 0x02) = false → 1 ≤ h ≤ 12 →
  (nz (reg RTC_REG_STATUS_B &u 0x04) = false → reg RTC_REG_HOURS = Z.lor 0x80 (bcd h) →
    decode reg = MkDate 2026 1 1 0 0 0) ∧
  (nz (reg RTC_REG_STATUS_B &u 0x04) = true →
    (reg RTC_REG_HOURS = Z.lor 0x80 12 → hour (decode reg) = 0) ∧
    (reg RTC_REG_HOURS = 12 → hour (decode reg) = 12 ∨ decode reg = MkDate 2026 1 1 0 0 0)).
Proof.
  intros H12 Hh. unfold decode. rewrite H12. split; [|split].
  - intros -> ->. cbn [negb andb].
    assert (nz (bcd_to_binary (Z.lor 0x80 (bcd h)) &u 0x80) = false ∧ 23 <? bcd_to_binary (Z.lor 0x80 (bcd h)) = true) as [-> ->].
    { assert (forallb (λ h, negb (nz (bcd_to_binary (Z.lor 0x80 (bcd h)) &u 0x80)) && (23 <? bcd_to_binary (Z.lor 0x80 (bcd h))))
        (seqZ 1 12) = true) as H by reflexivity.
      rewrite forallb_forall in H. specialize (H h). apply andb_true_iff in H as [H1 H2]; [|apply list_elem_of_In, elem_of_seqZ; lia].
      split; [by apply negb_true_iff|done]. }
    by rewrite !orb_true_r.
  - rewrite H. intros ->. cbn [negb andb]. change (nz (Z.lor 0x80 12 &u 0x80)) with true. cbn iota. by destruct (_ || _).
  - rewrite H. intros ->. cbn [negb andb]. change (nz (12 &u 0x80)) with false. cbn iota. destruct (_ || _); [by right|by left].
Qed.

(** Three in the afternoon. *)
Lemma rtc_12_hour_misread_witness :
  decode (λ r, if r =? RTC_REG_HOURS then 0x83 else if r =? RTC_REG_STATUS_B then 0 else 0x10) = MkDate 2026 1 1 0 0 0.
Proof.
  destruct (rtc_12_hour_misread (λ r, if r =? RTC_REG_HOURS then 0x83 else if r =? RTC_REG_STATUS_B then 0 else 0x10) 3) as [H _];
    [reflexivity|lia|]. apply H; reflexivity.
Defined.

(** * Slewing *)

(** What of an adjustment [o] has been made [e] microseconds later: one microsecond in
    2000. *)
Definition slewed (o e : Z) : Z := Z.sgn o * Z.min (Z.abs o) (e / 2000).

Lemma slewed_range o e : 0 ≤ e → Z.abs (slewed o e) ≤ Z.abs o ∧ Z.abs (slewed o e) ≤ e / 2000.
Proof.
  intros He. unfold slewed. pose proof (Z.div_pos e 2000 He ltac:(lia)). rewrite Z.abs_mul.
  destruct (Z.sgn_spec o) as [[? ->]|[[? ->]|[? ->]]]; lia.
Qed.

(** After reads up to [m], of an adjustment [o] asked for at [m0] when the offset was [b]. *)
Record slewing (s : tk) (b o m0 m : Z) : Prop := {
  sl_ready : ready s = true;
  sl_offs : offs_real_us s = b + slewed o (m - m0);
  sl_rest : slew_remaining_us s = o - slewed o (m - m0);
  sl_last : slew_remaining_us s ≠ 0 → slew_last_mono_us s = m0 + 2000 * ((m - m0) / 2000)
}.

Lemma s64_small x : - 2 ^ 63 ≤ x < 2 ^ 63 → s64 x = x.
Proof. intros. unfold s64. rewrite Z.mod_small by lia. lia. Qed.

Lemma slewing_step s b o m0 m m' :
  slewing s b o m0 m → 0 ≤ m0 ≤ m → m ≤ m' < 2 ^ 62 → Z.abs b < 2 ^ 61 → Z.abs o < 2 ^ 61 →
  slewing (timekeeping_apply_slew_locked s m') b o m0 m'.
Proof.
  intros [R1 R2 R3 R4] Hm Hm' Hb Ho. unfold timekeeping_apply_slew_locked.
  pose proof (slewed_range o (m - m0) ltac:(lia)) as Hs. pose proof (slewed_range o (m' - m0) ltac:(lia)) as Hs'.
  pose proof (Z.div_le_mono (m - m0) (m' - m0) 2000 ltac:(lia) ltac:(lia)) as Hle.
  set (q := (m - m0) / 2000) in *. set (q' := (m' - m0) / 2000) in *.
  assert (0 ≤ q ∧ 2000 * q ≤ m - m0) as Hq by (unfold q; Z.div_mod_to_equations; lia).
  assert (2000 * q' ≤ m' - m0 < 2000 * q' + 2000) as Hq' by (unfold q'; Z.div_mod_to_equations; lia).
  destruct (Z.eqb_spec (slew_remaining_us s) 0) as [E0|E0].
  { rewrite orb_true_r. assert (slewed o (m' - m0) = slewed o (m - m0)) as Es.
    { revert R3. rewrite E0. unfold slewed. fold q q'. destruct (Z.sgn_spec o) as [[? ->]|[[? ->]|[? ->]]]; lia. }
    split; cbn; [done|by rewrite R2, Es|by rewrite Es|done]. }
  specialize (R4 E0). rewrite orb_false_r. destruct (Z.leb_spec m' (slew_last_mono_us s)) as [Hl|Hl].
  { assert (q' = q) as Eq by lia. assert (slewed o (m' - m0) = slewed o (m - m0)) as Es by (unfold slewed; by fold q q'; rewrite Eq).
    split; cbn; [done|by rewrite R2, Es|by rewrite R3, Es|]. intros _. fold q'. lia. }
  assert ((m' -u slew_last_mono_us s) / 2000 = q' - q) as Ed.
  { rewrite u64_small by lia. rewrite R4. replace (m' - (m0 + 2000 * q)) with (m' - m0 + - q * 2000) by lia.
    rewrite Z.div_add by lia. fold q'. lia. }
  rewrite Ed. destruct (Z.eqb_spec (q' - q) 0) as [Eq|Eq].
  { assert (slewed o (m' - m0) = slewed o (m - m0)) as Es by (unfold slewed; fold q q'; by replace q' with q by lia).
    split; [done|by rewrite R2, Es|by rewrite R3, Es|]. intros _. fold q'. lia. }
  rewrite (proj2 (Z.ltb_ge _ (q' - q))) by lia. rewrite (u64_small ((q' - q) * 2000)), (u64_small (slew_last_mono_us s + _)) by lia.
  assert (slew_last_mono_us s + (q' - q) * 2000 = m0 + 2000 * q') as El by lia. rewrite El.
  set (r := slew_remaining_us s) in *.
  assert (0 < o → r = o - q ∧ q < o ∧ slewed o (m - m0) = q ∧ slewed o (m' - m0) = Z.min o q') as Hpos.
  { intros H0. unfold slewed in R3 |- *. fold q in R3. fold q q'. rewrite (Z.sgn_pos o H0) in *. lia. }
  assert (o < 0 → r = o + q ∧ q < - o ∧ slewed o (m - m0) = - q ∧ slewed o (m' - m0) = - Z.min (- o) q') as Hneg.
  { intros H0. unfold slewed in R3 |- *. fold q in R3. fold q q'. rewrite (Z.sgn_neg o H0) in *. lia. }
  assert (o ≠ 0) as Ho0 by (intros ->; unfold slewed in R3; cbn in R3; lia).
  destruct (Z.ltb_spec r 0) as [Hr|Hr].
  - destruct (Hneg ltac:(lia)) as (N1 & N2 & N3 & N4). rewrite (proj2 (Z.ltb_ge 0 r)) by lia. cbn [andb orb].
    destruct (Z.leb_spec (- (q' - q)) r); split; cbn [offs_real_us slew_remaining_us slew_last_mono_us ready];
      rewrite ?s64_small by lia; try done; fold q'; lia.
  - destruct (Hpos ltac:(lia)) as (N1 & N2 & N3 & N4). rewrite (proj2 (Z.ltb_lt 0 r)) by lia. cbn [andb]. rewrite orb_false_r.
    destruct (Z.leb_spec r (q' - q)); split; cbn [offs_real_us slew_remaining_us slew_last_mono_us ready];
      rewrite ?s64_small by lia; try done; fold q'; lia.
Qed.

Fixpoint reads (s : tk) (dt : rtc_datetime) (x : Z) (ms : list Z) : list (Z * Z) :=
  match ms with
  | [] => []
  | m :: ms => let '(s, r) := ktime_get_real_ts64 s dt x m in r :: reads s dt x ms
  end.
(** Seconds and nanoseconds. *)
Definition split_us (t : Z) : Z * Z := (t / 1000000, t `mod` 1000000 * 1000).

Lemma ktime_slewing s dt x b o m0 m m' :
  slewing s b o m0 m → 0 ≤ m0 ≤ m → m ≤ m' < 2 ^ 62 → Z.abs b < 2 ^ 61 → Z.abs o < 2 ^ 61 →
  ∃ s', ktime_get_real_ts64 s dt x m' = (s', split_us (Z.max 0 (m' + b + slewed o (m' - m0)))) ∧ slewing s' b o m0 m'.
Proof.
  intros S Hm Hm' Hb Ho. pose proof (slewing_step s b o m0 m m' S Hm Hm' Hb Ho) as S'.
  pose proof (slewed_range o (m' - m0) ltac:(lia)) as Hs. eexists. split; [|exact S'].
  unfold ktime_get_real_ts64, timekeeping_init. rewrite (sl_ready _ _ _ _ _ S), (sl_offs _ _ _ _ _ S').
  rewrite (s64_small m'), s64_small by lia. rewrite <- Z.add_assoc. unfold split_us.
  destruct (Z.ltb_spec (m' + (b + slewed o (m' - m0))) 0).
  - rewrite Z.max_l by lia. done.
  - rewrite Z.max_r by lia. by rewrite Z.quot_div_nonneg, Z.rem_mod_nonneg by lia.
Qed.

Lemma slewed_mono o e e' : 0 ≤ e ≤ e' → e + slewed o e ≤ e' + slewed o e'.
Proof.
  intros He. unfold slewed. destruct (Z.sgn_spec o) as [[? ->]|[[? ->]|[? ->]]]; Z.div_mod_to_equations; lia.
Qed.

(** A clock adjustment is slewed, not stepped.  From [timekeeping_adjtime_us] on, however
    often and whenever the clock is read, a read at monotonic time [m] gives [m] plus the
    old offset plus one microsecond of the adjustment for every two milliseconds passed;
    so the wall clock never goes back, whatever the adjustment's sign, deviates by no more
    than 500 ppm, and has made the whole adjustment after 2000 times its length. *)
Theorem adjtime_slews s dt x o m0 ms :
  ready s = true → let s0 := timekeeping_adjtime_us s dt x o m0 in let b := offs_real_us s0 in
  Z.abs b < 2 ^ 61 → Z.abs o < 2 ^ 61 → 0 ≤ m0 → StronglySorted Z.le (m0 :: ms) → Forall (λ m, m < 2 ^ 62) ms →
  reads s0 dt x ms = (λ m, split_us (Z.max 0 (m + b + slewed o (m - m0)))) <$> ms ∧
  (∀ m m', m0 ≤ m ≤ m' → m + b + slewed o (m - m0) ≤ m' + b + slewed o (m' - m0)) ∧
  (∀ m, m0 + 2000 * Z.abs o ≤ m → slewed o (m - m0) = o).
Proof.
  intros Hr s0 b Hb Ho Hm0 Hs Hf. split; [|split].
  - assert (slewing s0 b o m0 m0) as S.
    { assert (slewed o (m0 - m0) = 0) as E by (unfold slewed; rewrite Z.sub_diag, Z.div_0_l by lia; lia).
      assert (ready s0 = true) as Hr0.
      { unfold s0, timekeeping_adjtime_us, timekeeping_init, timekeeping_apply_slew_locked; cbn [ready]. rewrite Hr.
        by repeat case_match. }
      split; [done|rewrite E; unfold b; lia|rewrite E; cbn; lia|]. intros _. rewrite Z.sub_diag, Z.div_0_l by lia. unfold s0, timekeeping_adjtime_us; cbn [slew_last_mono_us]. lia. }
    assert (∀ m, slewing s0 b o m0 m → m0 ≤ m → StronglySorted Z.le (m :: ms) →
      reads s0 dt x ms = (λ m, split_us (Z.max 0 (m + b + slewed o (m - m0)))) <$> ms) as H; [|by apply (H m0)].
    clear Hs S. clearbody b. generalize s0. clear s0 Hr s. induction ms as [|m' ms IH]; intros s m S Hm Hs; [done|].
    apply Forall_cons in Hf as [Hm' Hf]. apply StronglySorted_inv in Hs as [Hs Hall].
    apply Forall_cons in Hall as [Hmm _]. cbn [reads fmap list_fmap].
    destruct (ktime_slewing s dt x b o m0 m m' S ltac:(lia) ltac:(lia) Hb Ho) as (s' & -> & S').
    f_equal. apply (IH Hf s' m'); [done|lia|done].
  - intros m m' Hm. pose proof (slewed_mono o (m - m0) (m' - m0) ltac:(lia)). lia.
  - intros m Hm. unfold slewed. assert (Z.abs o ≤ (m - m0) / 2000) by (apply Z.div_le_lower_bound; lia).
    rewrite Z.min_l by lia. rewrite Z.mul_comm. apply Z.abs_sgn.
Qed.

(** A second backwards: an hour later it is made. *)
Lemma adjtime_slews_witness :
  reads (timekeeping_adjtime_us (MkTk 1000000000 0 0 true) (MkDate 2026 1 1 0 0 0) 0 (-1000000) 5000000) (MkDate 2026 1 1 0 0 0) 0
    [5000000; 5002000; 3605000000] = [(1005, 0); (1005, 1999000); (4604, 0)].
Proof.
  destruct (adjtime_slews (MkTk 1000000000 0 0 true) (MkDate 2026 1 1 0 0 0) 0 (-1000000) 5000000 [5000000; 5002000; 3605000000])
    as [-> _]; [reflexivity|vm_compute; reflexivity|lia|lia| |repeat constructor|vm_compute; reflexivity].
  repeat constructor; lia.
Defined.


