(* ===== verification/NetBytes.v ===== *)
(** Bytes of network packets: loads and stores of a little-endian machine on lists of
    bytes, and the byte swaps [be16] and [be32] of the network files ([net/tcp.c] and
    others have the same two functions), and the sums that all their checksums take. *)
From S2P Require Import Prelude.

Definition byte (f : list Z) (i : Z) : Z := default 0 (f !! Z.to_nat i).
Definition ld16 (f : list Z) (i : Z) : Z := byte f i + 2 ^ 8 * byte f (i + 1).
Definition ld32 (f : list Z) (i : Z) : Z := ld16 f i + 2 ^ 16 * ld16 f (i + 2).
Definition st16 (v : Z) : list Z := [u8 v; u8 (Z.shiftr v 8)].
Definition st32 (v : Z) : list Z := st16 v ++ st16 (Z.shiftr v 16).
(** [n] bytes at [i]. *)
Definition slice (f : list Z) (i n : Z) : list Z := take (Z.to_nat n) (drop (Z.to_nat i) f).

Definition be16 (v : Z) : Z := u16 (Z.lor (Z.shiftl v 8) (Z.shiftr v 8)).
Definition be32 (v : Z) : Z :=
  Z.lor (Z.lor (Z.lor (u32 (Z.shiftl (v &u 0x000000FF) 24)) (u32 (Z.shiftl (v &u 0x0000FF00) 8)))
    (Z.shiftr (v &u 0x00FF0000) 8)) (Z.shiftr (v &u 0xFF000000) 24).

(** The sum of the big-endian 16-bit words, and the carries folded into it. *)
Fixpoint add_words (sum : Z) (l : list Z) : Z :=
  match l with
  | a :: b :: l => add_words (u32 (sum + Z.lor (Z.shiftl a 8) b)) l
  | [a] => u32 (sum + Z.shiftl a 8)
  | [] => sum
  end.
(** Three rounds are enough for a sum of 32 bits. *)
Fixpoint fold_carries (fuel : nat) (sum : Z) : Z :=
  match fuel with
  | O => sum
  | S k => if nz (Z.shiftr sum 16) then fold_carries k ((sum &u 0xFFFF) + Z.shiftr sum 16) else sum
  end.

Abbreviation bytes l := (Forall (λ x, is_u8 x) l).

(** * Slices *)

Lemma slice_length f i n : 0 ≤ i → 0 ≤ n → i + n ≤ length f → Z.of_nat (length (slice f i n)) = n.
Proof. intros. unfold slice. rewrite length_take, length_drop. lia. Qed.
Lemma slice_all f n : length f ≤ n → slice f 0 n = f.
Proof. intros. unfold slice. rewrite drop_0. apply take_ge. lia. Qed.
Lemma slice_0 f i : slice f i 0 = [].
Proof. unfold slice. apply take_0. Qed.
Lemma slice_drop f i n k : 0 ≤ i → 0 ≤ k ≤ n → drop (Z.to_nat k) (slice f i n) = slice f (i + k) (n - k).
Proof.
  intros. unfold slice. rewrite skipn_firstn_comm, drop_drop. f_equal; [lia|]. f_equal. lia.
Qed.
Lemma slice_slice f i n j k : 0 ≤ i → 0 ≤ j → 0 ≤ k → j + k ≤ n → slice (slice f i n) j k = slice f (i + j) k.
Proof.
  intros. change (slice (slice f i n) j k) with (take (Z.to_nat k) (drop (Z.to_nat j) (slice f i n))).
  rewrite slice_drop by lia. unfold slice. rewrite take_take. f_equal. lia.
Qed.
Lemma slice_app f i n k : 0 ≤ i → 0 ≤ n → 0 ≤ k → slice f i n ++ slice f (i + n) k = slice f i (n + k).
Proof.
  intros. unfold slice. rewrite <- (take_drop (Z.to_nat n) (take (Z.to_nat (n + k)) (drop (Z.to_nat i) f))).
  rewrite take_take, skipn_firstn_comm, drop_drop. f_equal; f_equal; try lia. f_equal. lia.
Qed.
Lemma slice_nil f i n : 0 < n → 0 ≤ i → i < length f → slice f i n ≠ [].
Proof. intros Hn Hi Hl E. apply (f_equal length) in E. unfold slice in E. rewrite length_take, length_drop in E. cbn in E. lia. Qed.
Lemma bytes_slice f i n : bytes f → bytes (slice f i n).
Proof. intros. by apply Forall_take, Forall_drop. Qed.
Lemma byte_range f i : bytes f → is_u8 (byte f i).
Proof.
  intros H. unfold byte. destruct (f !! Z.to_nat i) eqn:E; cbn; [|lia]. by apply (Forall_lookup_1 _ _ _ _ H E).
Qed.

(** * Fields *)

Lemma byte_app_l f g i : 0 ≤ i < length f → byte (f ++ g) i = byte f i.
Proof. intros. unfold byte. rewrite lookup_app_l; [done|lia]. Qed.
Lemma byte_app_r f g i : length f ≤ i → byte (f ++ g) i = byte g (i - length f).
Proof. intros. unfold byte. rewrite lookup_app_r by lia. f_equal. f_equal. lia. Qed.

Lemma byte_drop f n i : 0 ≤ i → 0 ≤ n → byte f (n + i) = byte (drop (Z.to_nat n) f) i.
Proof. intros. unfold byte. rewrite lookup_drop. do 2 f_equal. lia. Qed.
Lemma u8_shiftr v k : 0 ≤ v → 0 ≤ k → u8 (Z.shiftr v k) = (v / 2 ^ k) `mod` 2 ^ 8.
Proof. intros. unfold u8. by rewrite Z.shiftr_div_pow2. Qed.

Lemma be16_split v : is_u16 v → be16 v = v / 2 ^ 8 + 2 ^ 8 * (v `mod` 2 ^ 8).
Proof.
  intros H. unfold be16. rewrite Z.shiftr_div_pow2 by lia. rewrite lor_low by (Z.div_mod_to_equations; lia).
  unfold u16. Z.div_mod_to_equations. lia.
Qed.
(** A swapped halfword in memory has its high byte first. *)
Lemma st16_be16 v : is_u16 v → st16 (be16 v) = [v / 2 ^ 8; v `mod` 2 ^ 8].
Proof.
  intros H. unfold st16. rewrite be16_split, Z.shiftr_div_pow2 by lia. unfold u8.
  rewrite (Z.mul_comm (2 ^ 8)), Z.mod_add, Z.div_add by lia.
  pose proof (Z.mod_pos_bound v (2 ^ 8)). assert (0 ≤ v / 2 ^ 8 < 2 ^ 8) by (Z.div_mod_to_equations; lia).
  rewrite (Z.mod_small (v / _)), (Z.div_small (v / _)), Z.add_0_l, Z.mod_mod by lia. done.
Qed.
Lemma be16_ld16 a b : is_u8 a → is_u8 b → be16 (a + 2 ^ 8 * b) = 2 ^ 8 * a + b.
Proof. intros. rewrite be16_split by lia. Z.div_mod_to_equations; lia. Qed.

Lemma land_byte v k : 0 ≤ k → Z.land v (Z.shiftl 0xFF (8 * k)) = (v / 2 ^ (8 * k)) `mod` 2 ^ 8 * 2 ^ (8 * k).
Proof.
  intros Hk. rewrite <- Z.shiftr_div_pow2 by lia. change (2 ^ 8) with (2 ^ 8). rewrite <- Z.land_ones by lia.
  rewrite <- Z.shiftl_mul_pow2 by lia. apply Z.bits_inj'. intros n Hn. rewrite Z.land_spec.
  destruct (Z.lt_ge_cases n (8 * k)).
  - rewrite !Z.shiftl_spec_low by lia. by rewrite andb_false_r.
  - rewrite !Z.shiftl_spec_high, Z.land_spec, Z.shiftr_spec by lia. f_equal. f_equal. lia.
Qed.

(** The four bytes of a word, the most significant first. *)
Definition bytes4 (v : Z) : list Z := [v / 2 ^ 24; (v / 2 ^ 16) `mod` 2 ^ 8; (v / 2 ^ 8) `mod` 2 ^ 8; v `mod` 2 ^ 8].

Lemma be32_split v : is_u32 v →
  be32 v = v / 2 ^ 24 + 2 ^ 8 * ((v / 2 ^ 16) `mod` 2 ^ 8) + 2 ^ 16 * ((v / 2 ^ 8) `mod` 2 ^ 8) + 2 ^ 24 * (v `mod` 2 ^ 8).
Proof.
  intros H. unfold be32.
  pose proof (land_byte v 0 ltac:(lia)) as B0. pose proof (land_byte v 1 ltac:(lia)) as B1.
  pose proof (land_byte v 2 ltac:(lia)) as B2. pose proof (land_byte v 3 ltac:(lia)) as B3.
  change (Z.shiftl 255 (8 * 0)) with 0x000000FF in B0. change (Z.shiftl 255 (8 * 1)) with 0x0000FF00 in B1.
  change (Z.shiftl 255 (8 * 2)) with 0x00FF0000 in B2. change (Z.shiftl 255 (8 * 3)) with 0xFF000000 in B3.
  rewrite B0, B1, B2, B3. clear B0 B1 B2 B3. change (8 * 0) with 0. change (8 * 1) with 8. change (8 * 2) with 16. change (8 * 3) with 24.
  rewrite !Z.shiftr_div_pow2, !Z.shiftl_mul_pow2 by lia. rewrite Z.pow_0_r, Z.div_1_r, Z.mul_1_r.
  assert (Hd : (v / 2 ^ 24) `mod` 2 ^ 8 = v / 2 ^ 24) by (apply Z.mod_small; Z.div_mod_to_equations; lia). rewrite Hd.
  set (a := v `mod` 2 ^ 8). set (b := (v / 2 ^ 8) `mod` 2 ^ 8). set (d := (v / 2 ^ 16) `mod` 2 ^ 8). set (e := v / 2 ^ 24).
  assert (is_u8 a ∧ is_u8 b ∧ is_u8 d ∧ is_u8 e) as (Ha & Hb & Hd' & He).
  { unfold a, b, d, e. repeat split; try apply Z.mod_pos_bound; Z.div_mod_to_equations; lia. }
  clearbody a b d e. unfold u32. rewrite (Z.mod_small (a * _)), (Z.mod_small (b * _ * _)) by lia.
  replace (d * 2 ^ 16 / 2 ^ 8) with (d * 2 ^ 8) by (rewrite <- (Z.div_mul (d * 2 ^ 8) (2 ^ 8)) by lia; f_equal; lia).
  rewrite Z.div_mul by lia.
  replace (a * 2 ^ 24) with (Z.shiftl a 24) by (by rewrite Z.shiftl_mul_pow2).
  replace (b * 2 ^ 8 * 2 ^ 8) with (b * 2 ^ 16) by lia.
  rewrite (lor_low a (b * 2 ^ 16)) by lia.
  replace (a * 2 ^ 24 + b * 2 ^ 16) with (Z.shiftl (a * 2 ^ 8 + b) 16) by (rewrite Z.shiftl_mul_pow2; lia).
  rewrite lor_low by lia.
  replace ((a * 2 ^ 8 + b) * 2 ^ 16 + d * 2 ^ 8) with (Z.shiftl ((a * 2 ^ 8 + b) * 2 ^ 8 + d) 8) by (rewrite Z.shiftl_mul_pow2; lia).
  rewrite lor_low by lia. lia.
Qed.
Lemma lor4 a b c d : is_u8 a → is_u8 b → is_u8 c → is_u8 d →
  Z.lor (Z.lor (Z.lor (u32 (Z.shiftl a 24)) (Z.shiftl b 16)) (Z.shiftl c 8)) d = 2 ^ 24 * a + 2 ^ 16 * b + 2 ^ 8 * c + d.
Proof.
  intros. rewrite u32_small by (rewrite Z.shiftl_mul_pow2; lia).
  rewrite (lor_low a), (Z.shiftl_mul_pow2 b) by (rewrite ?Z.shiftl_mul_pow2; lia).
  replace (a * 2 ^ 24 + b * 2 ^ 16) with (Z.shiftl (a * 2 ^ 8 + b) 16) by (rewrite Z.shiftl_mul_pow2; lia).
  rewrite (lor_low _ (Z.shiftl c 8)), (Z.shiftl_mul_pow2 c) by (rewrite ?Z.shiftl_mul_pow2; lia).
  replace ((a * 2 ^ 8 + b) * 2 ^ 16 + c * 2 ^ 8) with (Z.shiftl ((a * 2 ^ 8 + b) * 2 ^ 8 + c) 8) by (rewrite Z.shiftl_mul_pow2; lia).
  rewrite lor_low by lia. lia.
Qed.

Lemma u16_bytes v : is_u16 v → is_u8 (v / 2 ^ 8) ∧ is_u8 (v `mod` 2 ^ 8) ∧ 2 ^ 8 * (v / 2 ^ 8) + v `mod` 2 ^ 8 = v.
Proof. intros. Z.div_mod_to_equations; lia. Qed.
Lemma bytes4_ok v : is_u32 v → bytes (bytes4 v).
Proof.
  intros. unfold bytes4. repeat constructor; cbn; try apply Z.mod_pos_bound; Z.div_mod_to_equations; lia.
Qed.

Lemma st32_be32 v : is_u32 v → st32 (be32 v) = bytes4 v.
Proof.
  intros H. unfold st32, st16, bytes4. rewrite be32_split, !Z.shiftr_div_pow2, !Z.div_div by lia. unfold u8.
  set (a := v `mod` 2 ^ 8). set (b := (v / 2 ^ 8) `mod` 2 ^ 8). set (d := (v / 2 ^ 16) `mod` 2 ^ 8). set (e := v / 2 ^ 24).
  assert (is_u8 a ∧ is_u8 b ∧ is_u8 d ∧ is_u8 e) as (Ha & Hb & Hd' & He).
  { unfold a, b, d, e. repeat split; try apply Z.mod_pos_bound; Z.div_mod_to_equations; lia. }
  clearbody a b d e. cbn [app]. repeat f_equal; Z.div_mod_to_equations; lia.
Qed.
Lemma be32_ld32 a b d e : is_u8 a → is_u8 b → is_u8 d → is_u8 e →
  be32 (a + 2 ^ 8 * b + 2 ^ 16 * (d + 2 ^ 8 * e)) = 2 ^ 24 * a + 2 ^ 16 * b + 2 ^ 8 * d + e.
Proof. intros. rewrite be32_split by lia. Z.div_mod_to_equations; lia. Qed.

(** * Internet checksums *)

Fixpoint word_sum (l : list Z) : Z :=
  match l with a :: b :: l => 2 ^ 8 * a + b + word_sum l | [a] => 2 ^ 8 * a | [] => 0 end.

(** Induction two bytes at a time. *)
Lemma pairs_ind (P : list Z → Prop) : P [] → (∀ a, P [a]) → (∀ a b l, P l → P (a :: b :: l)) → ∀ l, P l.
Proof.
  intros H0 H1 H2 l. cut (P l ∧ ∀ a, P (a :: l)); [naive_solver|]. induction l as [|a l [IH1 IH2]]; [naive_solver|].
  split; [apply IH2|]. intros b. by apply H2.
Qed.

Lemma word_sum_bound l : bytes l → 0 ≤ word_sum l ≤ 2 ^ 15 * (length l + 1) * 2.
Proof.
  induction l as [|a|a b l IH] using pairs_ind; intros H; cbn [word_sum length].
  - lia.
  - inversion H; subst. cbn in *. lia.
  - inversion H as [|?? Ha H']; subst. inversion H' as [|?? Hb H'']; subst. specialize (IH H''). lia.
Qed.
Lemma add_words_sum l s : bytes l → 0 ≤ s → s + word_sum l < 2 ^ 32 → add_words s l = s + word_sum l.
Proof.
  revert s. induction l as [|a|a b l IH] using pairs_ind; intros s H Hs Hb; cbn [add_words word_sum] in *.
  - lia.
  - inversion H; subst. rewrite Z.shiftl_mul_pow2 in * by lia. rewrite u32_small; lia.
  - inversion H as [|?? Ha H']; subst. inversion H' as [|?? Hb' H'']; subst.
    pose proof (word_sum_bound l H''). rewrite lor_low by lia. rewrite u32_small, IH by (done || lia). lia.
Qed.
Lemma word_sum_app l1 l2 : Nat.Even (length l1) → word_sum (l1 ++ l2) = word_sum l1 + word_sum l2.
Proof.
  induction l1 as [|a|a b l1 IH] using pairs_ind; intros H; cbn [app word_sum].
  - done.
  - by destruct H as [k H]; cbn in H; lia.
  - rewrite IH; [lia|]. destruct H as [k H]. cbn in H. exists (k - 1)%nat. lia.
Qed.

(** The folded sum has 16 bits, the same residue, and is 0 for 0 only. *)
Lemma fold_carries_ok s : 0 ≤ s < 2 ^ 32 →
  0 ≤ fold_carries 3 s < 2 ^ 16 ∧ fold_carries 3 s `mod` 65535 = s `mod` 65535 ∧ (fold_carries 3 s = 0 → s = 0).
Proof.
  intros H. cbn [fold_carries].
  assert (Hstep : ∀ x, 0 ≤ x → (x &u 0xFFFF) + Z.shiftr x 16 = x - 65535 * (x / 2 ^ 16)).
  { intros x Hx. change (x &u 0xFFFF) with (Z.land x (Z.ones 16)). rewrite Z.land_ones, Z.shiftr_div_pow2 by lia. Z.div_mod_to_equations; lia. }
  assert (Hnz : ∀ x, nz (Z.shiftr x 16) = negb (x / 2 ^ 16 =? 0)).
  { intros x. unfold nz. by rewrite Z.shiftr_div_pow2. }
  rewrite !Hnz, !Hstep by (rewrite ?Hstep by lia; Z.div_mod_to_equations; lia).
  set (s1 := s - 65535 * (s / 2 ^ 16)). set (s2 := s1 - 65535 * (s1 / 2 ^ 16)).
  assert (Hm : ∀ x k, (x - 65535 * k) `mod` 65535 = x `mod` 65535).
  { intros x k. replace (x - 65535 * k) with (x + (- k) * 65535) by lia. by apply Z.mod_add. }
  assert (0 ≤ s1 ≤ 131070 ∧ (s1 = 0 → s = 0)) as [B1 Z1] by (unfold s1; Z.div_mod_to_equations; lia).
  assert (0 ≤ s2 < 2 ^ 16 ∧ (s2 = 0 → s1 = 0)) as [B2 Z2] by (unfold s2; Z.div_mod_to_equations; lia).
  assert (s1 `mod` 65535 = s `mod` 65535 ∧ s2 `mod` 65535 = s `mod` 65535) as [M1 M2].
  { unfold s2, s1. split; rewrite ?Hm; done. }
  destruct (Z.eqb_spec (s / 2 ^ 16) 0); cbn [negb]; [split; [Z.div_mod_to_equations; lia|done]|].
  destruct (Z.eqb_spec (s1 / 2 ^ 16) 0); cbn [negb]; [split; [Z.div_mod_to_equations; lia|auto]|].
  rewrite (Z.div_small s2) by lia. cbn [Z.eqb negb]. auto with lia.
Qed.

(** Adding the complement of a sum to it gives all ones. *)
Lemma fold_complement s c : 0 ≤ s → 0 < c → s + c < 2 ^ 32 → c `mod` 65535 = (65535 - fold_carries 3 s) `mod` 65535 → fold_carries 3 (s + c) = 0xFFFF.
Proof.
  intros Hs Hc Hb Hm. destruct (fold_carries_ok s) as (F1 & F2 & _); [lia|]. destruct (fold_carries_ok (s + c)) as (G1 & G2 & G3); [lia|].
  assert (fold_carries 3 (s + c) `mod` 65535 = 0) as E.
  { clear - G2 F2 Hm. set (a := fold_carries 3 s) in *. rewrite G2, Z.add_mod, <- F2, Hm, <- Z.add_mod by done.
    replace (a + (65535 - a)) with (1 * 65535) by ring. by apply Z.mod_mul. }
  assert (fold_carries 3 (s + c) ≠ 0) by (intros E0; apply G3 in E0; lia).
  clear - E G1 H. Z.div_mod_to_equations; lia.
Qed.

(** The complement that goes into a packet. *)
Definition ones_complement (s : Z) : Z := 65535 - fold_carries 3 s.
Lemma complement_range s : 0 ≤ s < 2 ^ 32 → is_u16 (ones_complement s).
Proof. intros H. destruct (fold_carries_ok s H) as [? _]. unfold ones_complement. lia. Qed.
Lemma fold_complement_0 s : 0 ≤ s < 2 ^ 31 → fold_carries 3 (s + ones_complement s) = 0xFFFF.
Proof.
  intros Hs. destruct (fold_carries_ok s) as [F _]; [lia|]. destruct (decide (ones_complement s = 0)) as [E|E].
  - rewrite E, Z.add_0_r. unfold ones_complement in E. lia.
  - apply fold_complement; [lia| | |done]; unfold ones_complement in *; lia.
Qed.
Lemma lnot_u16 x : is_u16 x → u16 (Z.lnot x) = 65535 - x.
Proof. intros H. unfold u16, Z.lnot. replace (Z.pred (- x)) with (65535 - x + (-1) * 2 ^ 16) by lia. rewrite Z.mod_add by lia. apply Z.mod_small. lia. Qed.
(** The checksum routines for the words of a packet. *)
Lemma complement_words l : bytes l → length l < 2 ^ 15 → u16 (Z.lnot (fold_carries 3 (add_words 0 l)) &u 0xFFFF) = ones_complement (word_sum l).
Proof.
  intros B L. pose proof (word_sum_bound l B). unfold ones_complement.
  rewrite add_words_sum, Z.add_0_l by (done || lia). destruct (fold_carries_ok (word_sum l)) as [? _]; [lia|].
  rewrite <- lnot_u16 by lia. change (_ &u 0xFFFF) with (Z.land (Z.lnot (fold_carries 3 (word_sum l))) (Z.ones 16)).
  rewrite Z.land_ones by lia. unfold u16. by rewrite Z.mod_mod.
Qed.
(** A packet with its checksum in place sums to all ones. *)
Lemma checksum_verifies l1 l2 : bytes l1 → bytes l2 → Nat.Even (length l1) → length l1 + length l2 < 2 ^ 14 →
  let c := ones_complement (word_sum (l1 ++ [0; 0] ++ l2)) in
  is_u16 c ∧ fold_carries 3 (word_sum (l1 ++ [c / 2 ^ 8; c `mod` 2 ^ 8] ++ l2)) = 0xFFFF.
Proof.
  intros B1 B2 He Hl c. pose proof (word_sum_bound l1 B1). pose proof (word_sum_bound l2 B2).
  assert (E : word_sum (l1 ++ [0; 0] ++ l2) = word_sum l1 + word_sum l2) by (rewrite word_sum_app by done; cbn [app word_sum]; lia).
  assert (Hc : is_u16 c) by (apply complement_range; lia). split; [done|].
  replace (word_sum _) with (word_sum (l1 ++ [0; 0] ++ l2) + c).
  - apply fold_complement_0. lia.
  - rewrite E, word_sum_app by done. cbn [app word_sum]. Z.div_mod_to_equations; lia.
Qed.
