(* ===== verification/Tcp.v ===== *)
(** The TCP of [net/tcp.c]: connection state, segments on the wire, reassembly of the
    receive stream, handshakes, sending, receiving and closing.

    The callbacks of [net_tcp_ops_t] are the network, the clock and the scheduler: a
    [world] holds what [recv_frame], [send_l4] and [kmalloc] will answer and what was
    sent, returned and freed; [clk] gives the readings of [time_ms].  The callbacks do not
    touch the connection, and all of them are there, as [net_make_tcp_ops] sets them.
    Traces and log lines are left out. *)
From S2P Require Import Prelude NetBytes.

Module Tcp.

Definition ETH_TYPE_IPV4 : Z := 0x0800.
Definition IPPROTO_TCP_LOCAL : Z := 6.
Definition ETH_LEN : Z := 14.
Definition IP_LEN : Z := 20.
Definition TCP_LEN : Z := 20.
Definition NET_TCP_OOO_SLOTS : nat := 64.
Definition NET_TCP_OOO_BYTES : Z := 1600.

(** * Sequence numbers *)

Definition tcp_seq_after (a b : Z) : bool := 0 <? s32 (a - b).

Definition tcp_seq_in_window (seq rcv_nxt wnd : Z) : bool :=
  if wnd =? 0 then seq =? rcv_nxt
  else
    let last := u32 (rcv_nxt + wnd - 1) in
    negb (tcp_seq_after rcv_nxt seq) && negb (tcp_seq_after seq last).

(** * Checksums *)

Definition csum16 (data : list Z) : Z := u16 (Z.lnot (fold_carries 3 (add_words 0 data))).

Definition pseudo (src_ip_be dst_ip_be seg_len : Z) : list Z :=
  [u8 (Z.shiftr src_ip_be 24); u8 (Z.shiftr src_ip_be 16); u8 (Z.shiftr src_ip_be 8); u8 src_ip_be;
   u8 (Z.shiftr dst_ip_be 24); u8 (Z.shiftr dst_ip_be 16); u8 (Z.shiftr dst_ip_be 8); u8 dst_ip_be;
   0; u8 IPPROTO_TCP_LOCAL; u8 (Z.shiftr seg_len 8); u8 seg_len].

Definition tcp_checksum (src_ip_be dst_ip_be : Z) (seg : list Z) : Z :=
  let sum := add_words (add_words 0 (pseudo src_ip_be dst_ip_be (length seg))) seg in
  let c := u16 (Z.lnot (fold_carries 3 sum)) in
  if c =? 0 then 0xFFFF else c.

(** * The connection *)

Record ooo_slot := MkSlot { ooo_slot_valid : bool; ooo_seq : Z; ooo_buf : list Z }.
Definition slot0 : ooo_slot := MkSlot false 0 [].
(** [ooo_slot_valid = 0; ooo_len = 0]. *)
Definition clear_slot (s : ooo_slot) : ooo_slot := MkSlot false (ooo_seq s) [].

(** [rx] is the first [rx_len] bytes at [rx_buf]. *)
Record net_tcp_conn_t := MkConn {
  used : bool; established : bool; connect_pending : bool; connect_peer_pkts : Z;
  connect_refused : bool; connect_timed_out : bool; connect_syn_ms : Z; connect_born_ms : Z;
  peer_fin : bool; peer_fin_pending : bool; peer_fin_seq : Z; peer_rst : bool;
  dst_ip_be : Z; dst_port : Z; src_port : Z;
  snd_una : Z; snd_nxt : Z; syn_isn : Z; rcv_nxt : Z;
  rx_buf : Z; rx_cap : Z; rx : list Z; rcv_wscale : Z; snd_wscale : Z;
  ooo : list ooo_slot; ooo_valid : Z;
  peer_mac : list Z; peer_mac_valid : bool
}.
#[export] Instance eta_conn : Eta net_tcp_conn_t := λ c,
  MkConn (used c) (established c) (connect_pending c) (connect_peer_pkts c)
    (connect_refused c) (connect_timed_out c) (connect_syn_ms c) (connect_born_ms c)
    (peer_fin c) (peer_fin_pending c) (peer_fin_seq c) (peer_rst c)
    (dst_ip_be c) (dst_port c) (src_port c)
    (snd_una c) (snd_nxt c) (syn_isn c) (rcv_nxt c)
    (rx_buf c) (rx_cap c) (rx c) (rcv_wscale c) (snd_wscale c)
    (ooo c) (ooo_valid c) (peer_mac c) (peer_mac_valid c).
(** [memset(c, 0, sizeof( *c))]. *)
Definition conn0 : net_tcp_conn_t :=
  MkConn false false false 0 false false 0 0 false false 0 false 0 0 0 0 0 0 0 0 0 [] 0 0
    (replicate NET_TCP_OOO_SLOTS slot0) 0 (replicate 6 0) false.

Record world := MkWorld {
  frames : list (list Z); sent : list (list Z); refusals : list bool; blocks : list Z;
  freed : list Z; returned : list (list Z); now : nat; yields : nat
}.
#[export] Instance eta_world : Eta world := λ w,
  MkWorld (frames w) (sent w) (refusals w) (blocks w) (freed w) (returned w) (now w) (yields w).

(** [recv_frame]; an empty frame is the answer that there is none. *)
Definition recv_frame (w : world) : world * list Z :=
  match frames w with [] => (w, []) | f :: l => (w <| frames := l |>, f) end.
Definition send_l4 (w : world) (l4 : list Z) : world * Z :=
  match refusals w with
  | true :: l => (w <| refusals := l |>, -1)
  | b => (w <| refusals := tail b |> <| sent := sent w ++ [l4] |>, 0)
  end.
Definition kmalloc (w : world) : world * Z :=
  match blocks w with [] => (w, 0) | p :: l => (w <| blocks := l |>, p) end.
Definition kfree (w : world) (p : Z) : world := w <| freed := p :: freed w |>.
Definition tcp_return_frame (w : world) (f : list Z) : world := w <| returned := returned w ++ [f] |>.
Definition yield (w : world) : world := w <| yields := S (yields w) |>.

Definition net_tcp_rx_room (c : net_tcp_conn_t) : Z :=
  if (rx_buf c =? 0) || (rx_cap c <=? length (rx c)) then 0 else rx_cap c - length (rx c).

Definition tcp_apply_ack (c : net_tcp_conn_t) (ack : Z) : net_tcp_conn_t :=
  if ack =? 0 then c
  else if tcp_seq_after ack (snd_una c) && negb (tcp_seq_after ack (snd_nxt c)) then c <| snd_una := ack |>
  else c.

(** * The receive buffer *)

Fixpoint window_scale (fuel : nat) (space w : Z) : Z :=
  match fuel with
  | O => w
  | S k => if 65535 <? Z.shiftr space w then window_scale k space (w + 1) else w
  end.
Definition tcp_select_window_scaling (space : Z) : Z := window_scale 14 space 0.

Fixpoint rx_alloc (tries : list Z) (c : net_tcp_conn_t) (w : world) : net_tcp_conn_t * world * Z :=
  match tries with
  | [] => (c <| rx_cap := 0 |> <| rcv_wscale := 0 |>, w, -1)
  | size :: tries =>
      let '(w, p) := kmalloc w in
      let c := c <| rx_buf := p |> in
      if nz p then
        (c <| rx_cap := size |> <| rx := [] |> <| rcv_wscale := tcp_select_window_scaling size |>, w, 0)
      else rx_alloc tries c w
  end.
Definition net_tcp_rx_ensure (c : net_tcp_conn_t) (w : world) : net_tcp_conn_t * world * Z :=
  if nz (rx_buf c) && nz (rx_cap c) then (c, w, 0)
  else rx_alloc [256 * 1024; 128 * 1024; 64 * 1024] c w.

Definition net_tcp_rx_orphan (c : net_tcp_conn_t) : net_tcp_conn_t :=
  c <| rx_buf := 0 |> <| rx_cap := 0 |> <| rx := [] |>.
Definition net_tcp_rx_release (c : net_tcp_conn_t) (w : world) : net_tcp_conn_t * world :=
  (c <| rx_buf := 0 |> <| rx_cap := 0 |> <| rx := [] |>, if nz (rx_buf c) then kfree w (rx_buf c) else w).
Definition net_tcp_conn_clear (c : net_tcp_conn_t) (w : world) : net_tcp_conn_t * world :=
  (conn0, (net_tcp_rx_release c w).2).

(** * Options *)

Definition tcp_syn_options (c : net_tcp_conn_t) : list Z :=
  [0x02; 0x04; 0x05; 0xB4; 0x01; 0x03; 0x03; if rcv_wscale c <=? 14 then rcv_wscale c else 0].

(** [l] is what is left of the options; every round takes at least one byte. *)
Fixpoint parse_options (fuel : nat) (l : list Z) (ws : Z) : Z :=
  match fuel, l with
  | O, _ | _, [] => ws
  | S k, kind :: rest =>
      if kind =? 0 then ws
      else if kind =? 1 then parse_options k rest ws
      else
        match rest with
        | [] => ws
        | len :: _ =>
            if (len <? 2) || (length l <? len) then ws
            else
              let ws := if (kind =? 3) && (len =? 3) then (if byte l 2 <=? 14 then byte l 2 else 14) else ws in
              parse_options k (drop (Z.to_nat len) l) ws
        end
  end.
Definition tcp_parse_options (c : net_tcp_conn_t) (opt : list Z) : net_tcp_conn_t :=
  c <| snd_wscale := parse_options (length opt) opt (snd_wscale c) |>.

Section tcp.
Context (local_ip_be : Z) (clk : nat → Z).

Definition time_ms (w : world) : world * Z := (w <| now := S (now w) |>, clk (now w)).

(** * Sending a segment *)

Definition window_field (c : net_tcp_conn_t) (flags : Z) : Z :=
  let free_rx := net_tcp_rx_room c in
  let free_rx := if negb (nz (flags &u 0x02)) && nz (rcv_wscale c) then Z.shiftr free_rx (rcv_wscale c) else free_rx in
  if 65535 <? free_rx then 65535 else u16 free_rx.

Definition segment (c : net_tcp_conn_t) (flags csum : Z) (payload opts : list Z) : list Z :=
  let hdr_len := TCP_LEN + length opts in
  st16 (be16 (src_port c)) ++ st16 (be16 (dst_port c)) ++ st32 (be32 (snd_nxt c)) ++ st32 (be32 (rcv_nxt c)) ++
  [u8 (Z.shiftl (hdr_len / 4) 4); flags] ++ st16 (be16 (window_field c flags)) ++ st16 csum ++ st16 0 ++
  opts ++ payload.

Definition tcp_send_seg_len (c : net_tcp_conn_t) (w : world) (flags : Z) (payload opts : list Z) : world * Z :=
  let hdr_len := TCP_LEN + length opts in
  let seg_len := hdr_len + length payload in
  if (1500 <? seg_len) || nz (hdr_len `mod` 4) then (w, -1)
  else
    let tc := tcp_checksum local_ip_be (dst_ip_be c) (segment c flags 0 payload opts) in
    let '(w, r) := send_l4 w (segment c flags (be16 tc) payload opts) in
    if nz r then (w, -1) else (w, 0).

Definition tcp_send_seg (c : net_tcp_conn_t) (w : world) (flags : Z) (payload : list Z) : world * Z :=
  tcp_send_seg_len c w flags payload [].
Definition tcp_send_syn (c : net_tcp_conn_t) (w : world) : world * Z :=
  tcp_send_seg_len c w 0x02 [] (tcp_syn_options c).

(** * Reassembly *)

Definition dec (n : Z) : Z := if 0 <? n then n - 1 else n.

(** One pass over the slots: stale ones are dropped, and the earliest that starts at or
    before [nxt] is the best. *)
Fixpoint scan (nxt : Z) (i : nat) (l : list ooo_slot) (n : Z) (best : option (nat * Z)) :
    list ooo_slot * Z * option (nat * Z) :=
  match l with
  | [] => ([], n, best)
  | s :: l =>
      if negb (ooo_slot_valid s) || (length (ooo_buf s) =? 0) then
        let '(l, n, best) := scan nxt (S i) l n best in (s :: l, n, best)
      else if negb (tcp_seq_after (u32 (ooo_seq s + length (ooo_buf s))) nxt) then
        let '(l, n, best) := scan nxt (S i) l (dec n) best in (clear_slot s :: l, n, best)
      else if tcp_seq_after (ooo_seq s) nxt then
        let '(l, n, best) := scan nxt (S i) l n best in (s :: l, n, best)
      else
        let best :=
          match best with
          | Some (_, b) => if tcp_seq_after b (ooo_seq s) then Some (i, ooo_seq s) else best
          | None => Some (i, ooo_seq s)
          end in
        let '(l, n, best) := scan nxt (S i) l n best in (s :: l, n, best)
  end.

(** One round of the loop, and whether there is another. *)
Definition merge_round (c : net_tcp_conn_t) : net_tcp_conn_t * bool :=
  let '(l, n, best) := scan (rcv_nxt c) 0 (ooo c) (ooo_valid c) None in
  let c := c <| ooo := l |> <| ooo_valid := n |> in
  match best with
  | None => (c, false)
  | Some (j, _) =>
      let s := default slot0 (l !! j) in
      let skip := u32 (rcv_nxt c - ooo_seq s) in
      let available := length (ooo_buf s) -u skip in
      let room := net_tcp_rx_room c in
      let cp := if room <? available then room else available in
      if cp =? 0 then (c, false)
      else
        let c := c <| rx := rx c ++ slice (ooo_buf s) skip cp |> <| rcv_nxt := u32 (rcv_nxt c + cp) |> in
        if cp =? available then (c <| ooo := <[j := clear_slot s]> l |> <| ooo_valid := dec n |>, true)
        else
          let consumed := skip + cp in
          let s := MkSlot (ooo_slot_valid s) (rcv_nxt c) (drop (Z.to_nat consumed) (ooo_buf s)) in
          (c <| ooo := <[j := s]> l |>, false)
  end.
(** Every round but the last empties a slot. *)
Fixpoint merge_loop (fuel : nat) (c : net_tcp_conn_t) : net_tcp_conn_t :=
  match fuel with
  | O => c
  | S k => let '(c, go) := merge_round c in if go then merge_loop k c else c
  end.
Definition tcp_try_merge_ooo (c : net_tcp_conn_t) : net_tcp_conn_t := merge_loop (S (length (ooo c))) c.

Definition tcp_accept_inorder (c : net_tcp_conn_t) (seq : Z) (payload : list Z) : net_tcp_conn_t * Z :=
  if (rx_buf c =? 0) || (rx_cap c =? 0) then (c, 0)
  else if seq =? rcv_nxt c then
    let room := net_tcp_rx_room c in
    let cp := if room <? length payload then room else length payload in
    (c <| rx := rx c ++ slice payload 0 cp |> <| rcv_nxt := u32 (rcv_nxt c + cp) |>, cp)
  else if seq <? rcv_nxt c then
    let skip := u32 (rcv_nxt c - seq) in
    if skip <? length payload then
      let room := net_tcp_rx_room c in
      let tail := length payload - skip in
      let cp := if room <? tail then room else tail in
      (c <| rx := rx c ++ slice payload skip cp |> <| rcv_nxt := u32 (rcv_nxt c + cp) |>, cp)
    else (c, 0)
  else (c, 0).

(** Where to store a segment: nowhere, in the first slot that is free or holds a shorter
    one with the same start, or in place of the farthest. *)
Inductive place := Keep | Use (slot : option nat) (farthest : option (nat * Z)).
Fixpoint find_place (seq len : Z) (i : nat) (l : list ooo_slot) (slot : option nat) (farthest : option (nat * Z)) : place :=
  match l with
  | [] => Use slot farthest
  | s :: l =>
      if negb (ooo_slot_valid s) then find_place seq len (S i) l (Some (default i slot)) farthest
      else if ooo_seq s =? seq then
        if len <=? length (ooo_buf s) then Keep else Use (Some i) farthest
      else
        let farthest :=
          match farthest with
          | Some (_, b) => if tcp_seq_after (ooo_seq s) b then Some (i, ooo_seq s) else farthest
          | None => Some (i, ooo_seq s)
          end in
        find_place seq len (S i) l slot farthest
  end.

Definition fill_slot (c : net_tcp_conn_t) (i : nat) (seq : Z) (payload : list Z) : net_tcp_conn_t :=
  let v := ooo_slot_valid (default slot0 (ooo c !! i)) in
  c <| ooo_valid := if v then ooo_valid c else ooo_valid c + 1 |> <| ooo := <[i := MkSlot true seq payload]> (ooo c) |>.

Definition tcp_store_ooo (c : net_tcp_conn_t) (seq : Z) (payload : list Z) : net_tcp_conn_t :=
  if (length payload =? 0) || (NET_TCP_OOO_BYTES <? length payload) then c
  else
    match find_place seq (length payload) 0 (ooo c) None None with
    | Keep => c
    | Use (Some i) _ => fill_slot c i seq payload
    | Use None (Some (j, b)) => if tcp_seq_after b seq then fill_slot c j seq payload else c
    | Use None None => c
    end.

Definition tcp_try_complete_fin (c : net_tcp_conn_t) (w : world) : net_tcp_conn_t * world :=
  if negb (peer_fin_pending c) || peer_fin c then (c, w)
  else if negb (rcv_nxt c =? peer_fin_seq c) then (c, w)
  else
    let c := c <| peer_fin := true |> <| peer_fin_pending := false |>
               <| rcv_nxt := u32 (rcv_nxt c + 1) |> <| established := false |> in
    (c, (tcp_send_seg c w 0x10 []).1).

(** * One segment of the peer *)

Definition rx_rst (c : net_tcp_conn_t) (w : world) (flags seq ack : Z) : net_tcp_conn_t * world :=
  let reset c := c <| established := false |> <| connect_pending := false |> <| peer_rst := true |> in
  if connect_pending c && negb (established c) then
    if nz (flags &u 0x10) && (ack =? u32 (syn_isn c + 1)) then (reset (c <| connect_refused := true |>), w) else (c, w)
  else if established c then
    if seq =? rcv_nxt c then (reset c, w)
    else if tcp_seq_in_window seq (rcv_nxt c) (u32 (net_tcp_rx_room c)) then (c, (tcp_send_seg c w 0x10 []).1)
    else (c, w)
  else (c, w).

Definition rx_synack (c : net_tcp_conn_t) (w : world) (seq ack : Z) : net_tcp_conn_t * world :=
  if negb (connect_pending c) || negb (ack =? u32 (syn_isn c + 1)) then (c, w)
  else
    let c := c <| rcv_nxt := u32 (seq + 1) |> <| snd_una := ack |> <| snd_nxt := ack |>
               <| established := true |> <| connect_pending := false |> in
    (c, (tcp_send_seg c w 0x10 []).1).

(** The data of a segment, on an allocated buffer. *)
Definition take_data (c : net_tcp_conn_t) (seq : Z) (payload : list Z) : net_tcp_conn_t :=
  let nxt := rcv_nxt c in
  if (seq =? nxt) || negb (tcp_seq_after seq nxt) then
    let '(c, acc) := tcp_accept_inorder c seq payload in
    let c :=
      if (acc <? length payload) && negb (tcp_seq_after seq nxt) then
        let off := if seq =? nxt then acc else u32 (nxt - seq) + acc in
        if off <? length payload then tcp_store_ooo c (rcv_nxt c) (drop (Z.to_nat off) payload) else c
      else c in
    tcp_try_merge_ooo c
  else tcp_store_ooo c seq payload.

Definition rx_data (c : net_tcp_conn_t) (w : world) (seq : Z) (payload : list Z) : net_tcp_conn_t * world * bool :=
  let '(c, w, r) := net_tcp_rx_ensure c w in
  if nz r then (c, (tcp_send_seg c w 0x10 []).1, false)
  else
    let '(c, w) := tcp_try_complete_fin (take_data c seq payload) w in
    (c, (tcp_send_seg c w 0x10 []).1, true).

Definition rx_fin (c : net_tcp_conn_t) (w : world) (fin_seq : Z) : net_tcp_conn_t * world :=
  if negb (established c) && negb (peer_fin_pending c) && negb (peer_fin c) then (c, w)
  else if fin_seq =? rcv_nxt c then
    let c := c <| peer_fin := true |> <| peer_fin_pending := false |>
               <| rcv_nxt := u32 (rcv_nxt c + 1) |> <| established := false |> in
    (c, (tcp_send_seg c w 0x10 []).1)
  else if negb (tcp_seq_after fin_seq (rcv_nxt c)) then
    (c, if peer_fin c || peer_fin_pending c then (tcp_send_seg c w 0x10 []).1 else w)
  else
    let c := c <| peer_fin_pending := true |> <| peer_fin_seq := fin_seq |> in
    tcp_try_complete_fin c (tcp_send_seg c w 0x10 []).1.

(** The last component is whether [got] is set. *)
Definition rx_segment (c : net_tcp_conn_t) (w : world) (flags seq ack : Z) (payload : list Z) : net_tcp_conn_t * world * bool :=
  if nz (flags &u 0x04) then (rx_rst c w flags seq ack, true)
  else if nz (flags &u 0x02) && nz (flags &u 0x10) && negb (established c) then (rx_synack c w seq ack, true)
  else
    let c := tcp_apply_ack c ack in
    let fin := nz (flags &u 0x01) in
    if length payload =? 0 then
      if nz (flags &u 0x10) && negb (nz (flags &u 0x02)) && negb fin then (c, w, true)
      else if fin then (rx_fin c w seq, true) else (c, w, false)
    else
      let '(c, w, go) := rx_data c w seq payload in
      if go && fin then (rx_fin c w (u32 (seq + u32 (length payload))), true) else (c, w, true).

(** * One frame *)

(** Whether the frame is for this connection, up to the ports; the second test is on the
    length of the frame with the IP header's own length. *)
Definition for_conn (c : net_tcp_conn_t) (f : list Z) : bool :=
  let n := Z.of_nat (length f) in
  let ihl := (byte f ETH_LEN &u 0x0F) * 4 in
  let th := ETH_LEN + ihl in
  negb (n <? ETH_LEN + IP_LEN) && (be16 (ld16 f 12) =? ETH_TYPE_IPV4) &&
  (byte f (ETH_LEN + 9) =? IPPROTO_TCP_LOCAL) && negb (ihl <? IP_LEN) &&
  negb (nz (be16 (ld16 f (ETH_LEN + 6)) &u 0x1FFF)) && negb (n <? ETH_LEN + ihl + TCP_LEN) &&
  (be32 (ld32 f (ETH_LEN + 16)) =? local_ip_be) && (be32 (ld32 f (ETH_LEN + 12)) =? dst_ip_be c) &&
  (be16 (ld16 f th) =? dst_port c) && (be16 (ld16 f (th + 2)) =? src_port c).

Definition service_frame (c : net_tcp_conn_t) (w : world) (f : list Z) : net_tcp_conn_t * world * bool :=
  let n := Z.of_nat (length f) in
  let back := tcp_return_frame w f in
  if negb (for_conn c f) then (c, back, false)
  else
    let ihl := (byte f ETH_LEN &u 0x0F) * 4 in
    let th := ETH_LEN + ihl in
    let c := if connect_pending c && negb (established c) then c <| connect_peer_pkts := s32 (connect_peer_pkts c + 1) |> else c in
    let seq := be32 (ld32 f (th + 4)) in
    let ack := be32 (ld32 f (th + 8)) in
    let doff := Z.shiftr (byte f (th + 12)) 4 * 4 in
    let flags := byte f (th + 13) in
    let ip_tot := be16 (ld16 f (ETH_LEN + 2)) in
    if (doff <? TCP_LEN) || (60 <? doff) then (c, back, false)
    else if n <? th + doff then (c, back, false)
    else if ip_tot <? ihl + doff then (c, back, false)
    else
      let c := if nz (flags &u 0x02) && (TCP_LEN <? doff) then tcp_parse_options c (slice f (th + TCP_LEN) (doff - TCP_LEN)) else c in
      let payload_len := ip_tot - ihl - doff in
      let frame_pay := n - (th + doff) in
      let payload_len := if frame_pay <? payload_len then frame_pay else payload_len in
      let tcp_len := ip_tot - ihl in
      if (n - ETH_LEN - ihl <? tcp_len) ||
         negb (tcp_checksum (dst_ip_be c) local_ip_be (slice f th tcp_len) =? 0xFFFF)
      then (c, w, true)
      else rx_segment c w flags seq ack (slice f (th + doff) payload_len).

Fixpoint net_tcp_service (budget : nat) (c : net_tcp_conn_t) (w : world) (got : bool) : net_tcp_conn_t * world * bool :=
  match budget with
  | O => (c, w, got)
  | S b =>
      let '(w, f) := recv_frame w in
      if length f =? 0 then (c, w, got)
      else let '(c, w, g) := service_frame c w f in net_tcp_service b c w (got || g)
  end.
(** Its result is not used by the callers here. *)
Definition service (budget : nat) (c : net_tcp_conn_t) (w : world) : net_tcp_conn_t * world :=
  (net_tcp_service budget c w false).1.

(** * Reset, and the server's half of the handshake *)

Definition net_tcp_reset (c : net_tcp_conn_t) (w : world) : net_tcp_conn_t * world :=
  let '(c, w) := net_tcp_rx_release c w in
  (MkConn false false false 0 false false 0 0 false false 0 false 0 0 0 0 0 0 0
     (rx_buf c) (rx_cap c) [] (rcv_wscale c) (snd_wscale c) (clear_slot <$> ooo c) 0
     (if peer_mac_valid c then peer_mac c else replicate 6 0) (peer_mac_valid c), w).

Definition net_tcp_server_reply_syn (c : net_tcp_conn_t) (w : world) (client_seq : Z) : net_tcp_conn_t * world * Z :=
  let '(w, t) := time_ms w in
  let isn := u32 (Z.lxor t 0x81A5D77D) in
  let '(c', w) := net_tcp_reset c w in
  let c := c' <| dst_ip_be := dst_ip_be c |> <| dst_port := dst_port c |> <| src_port := src_port c |> <| used := true |> in
  let '(c, w, r) := net_tcp_rx_ensure c w in
  if nz r then (c, w, -1)
  else
    let c := c <| syn_isn := isn |> <| snd_una := isn |> <| snd_nxt := isn |> <| rcv_nxt := u32 (client_seq + 1) |> in
    let '(w, r) := tcp_send_seg_len c w 0x12 [] (tcp_syn_options c) in
    if nz r then (c, w, -1) else (c <| snd_nxt := u32 (isn + 1) |>, w, 0).

Definition net_tcp_server_complete_ack (c : net_tcp_conn_t) (ack : Z) : net_tcp_conn_t * Z :=
  if negb (used c) || established c then (c, -1)
  else if negb (ack =? u32 (syn_isn c + 1)) || negb (ack =? snd_nxt c) then (c, -1)
  else (c <| snd_una := ack |> <| established := true |> <| connect_pending := false |>, 0).

Definition net_tcp_send_ack (c : net_tcp_conn_t) (w : world) : world * Z :=
  if negb (used c) then (w, -1) else tcp_send_seg c w 0x10 [].

Definition net_tcp_reject_ack (c : net_tcp_conn_t) (w : world) (ack : Z) : net_tcp_conn_t * world * Z :=
  let saved := snd_nxt c in
  let c := c <| snd_nxt := ack |> in
  let '(w, rc) := tcp_send_seg c w 0x04 [] in
  (c <| snd_nxt := saved |>, w, rc).

Definition net_tcp_server_resend_synack (c : net_tcp_conn_t) (w : world) : net_tcp_conn_t * world * Z :=
  if negb (used c) then (c, w, -1)
  else
    let save_snd := snd_nxt c in
    let c := c <| snd_nxt := syn_isn c |> in
    let '(w, r) := tcp_send_seg_len c w 0x12 [] (tcp_syn_options c) in
    (if syn_isn c <? save_snd then c <| snd_nxt := save_snd |> else c, w, r).

(** * Connecting *)

Definition tcp_rexmit_syn_if_due (c : net_tcp_conn_t) (w : world) : net_tcp_conn_t * world :=
  if negb (connect_pending c) || established c then (c, w)
  else
    let '(w, t) := time_ms w in
    let last := if nz (connect_syn_ms c) then connect_syn_ms c else t in
    if t -u last <? 1000 then (c, w)
    else
      let save := snd_nxt c in
      let c := c <| snd_nxt := u32 (save - 1) |> in
      let '(w, _) := tcp_send_seg_len c w 0x02 [] (tcp_syn_options c) in
      (c <| snd_nxt := save |> <| connect_syn_ms := t |>, w).

(** The two tests that end a connection attempt. *)
Definition connect_done (c : net_tcp_conn_t) : option Z :=
  if established c then Some 0 else if connect_refused c then Some (-3) else None.
Definition no_pending (c : net_tcp_conn_t) : net_tcp_conn_t := c <| connect_pending := false |>.

Fixpoint service_n (k : nat) (budget : nat) (c : net_tcp_conn_t) (w : world) : net_tcp_conn_t * world :=
  match k with O => (c, w) | S k => let '(c, w) := service budget c w in service_n k budget c w end.

(** The [while] loop, one round per unit of fuel; [None] is a call that has not returned
    yet. *)
Fixpoint connect_wait (fuel : nat) (c : net_tcp_conn_t) (w : world) (start timeout_ms : Z) : option (net_tcp_conn_t * world * Z) :=
  match fuel with
  | O => None
  | S k =>
      let '(w, t) := time_ms w in
      if negb (t -u start <? timeout_ms) then Some (no_pending c, w, -2)
      else
        let w := yield w in
        let '(c, w) := service 16 c w in
        match connect_done c with
        | Some r => Some (no_pending c, w, r)
        | None =>
            let '(c, w) := service 16 c w in
            match connect_done c with
            | Some r => Some (no_pending c, w, r)
            | None =>
                let '(c, w) := tcp_rexmit_syn_if_due c w in
                let '(c, w) := service_n 4 16 c w in
                match connect_done c with
                | Some r => Some (no_pending c, w, r)
                | None => connect_wait k c w start timeout_ms
                end
            end
        end
  end.

Definition net_tcp_connect_poll (fuel : nat) (c : net_tcp_conn_t) (w : world) (timeout_ms : Z) : option (net_tcp_conn_t * world * Z) :=
  match connect_done c with
  | Some r => Some (no_pending c, w, r)
  | None =>
      if connect_timed_out c then Some (no_pending c, w, -2)
      else if negb (connect_pending c) && negb (used c) then Some (c, w, -1)
      else
        let '(w, start) := time_ms w in
        if timeout_ms =? 0 then
          let '(c, w) := service 8 c w in
          let '(c, w) := tcp_rexmit_syn_if_due c w in
          match connect_done c with
          | Some r => Some (no_pending c, w, r)
          | None =>
              let born := if nz (connect_born_ms c) then connect_born_ms c else start in
              if 15000 <=? start -u born then Some ((no_pending c) <| connect_timed_out := true |>, w, -2)
              else Some (c, w, -1)
          end
        else connect_wait fuel c w start timeout_ms
  end.

Fixpoint drain (k : nat) (w : world) : world :=
  match k with
  | O => w
  | S k => let '(w, f) := recv_frame w in if length f =? 0 then w else drain k (tcp_return_frame w f)
  end.

(** The eight rounds before the blocking wait. *)
Fixpoint connect_burst (k : nat) (c : net_tcp_conn_t) (w : world) : net_tcp_conn_t * world * option Z :=
  match k with
  | O => (c, w, None)
  | S k =>
      let '(c, w) := service 16 c w in
      match connect_done c with
      | Some r => (no_pending c, w, Some r)
      | None => connect_burst k c (yield w)
      end
  end.

Definition net_tcp_connect (fuel : nat) (c : net_tcp_conn_t) (w : world) (dst_ip dst_p src_p timeout_ms : Z) :
    option (net_tcp_conn_t * world * Z) :=
  let w := drain 64 w in
  let c := conn0 <| peer_mac := if peer_mac_valid c then peer_mac c else replicate 6 0 |> <| peer_mac_valid := peer_mac_valid c |>
             <| rx_buf := rx_buf c |> <| rx_cap := rx_cap c |> <| rcv_wscale := rcv_wscale c |> in
  let '(c, w, r) := net_tcp_rx_ensure c w in
  if nz r then Some (c, w, -1)
  else
    let '(w, t) := time_ms w in
    let isn := u32 (Z.lxor t 0x71A9C33D) in
    let c := c <| used := true |> <| dst_ip_be := dst_ip |> <| dst_port := dst_p |> <| src_port := src_p |>
               <| syn_isn := isn |> <| snd_una := isn |> <| snd_nxt := isn |> <| rcv_nxt := 0 |> <| connect_pending := true |> in
    let '(w, r) := tcp_send_syn c w in
    if nz r then Some (c <| used := false |> <| connect_pending := false |>, w, -1)
    else
      let '(w, t) := time_ms w in
      let c := c <| snd_nxt := u32 (isn + 1) |> <| connect_syn_ms := t |> <| connect_born_ms := t |> <| connect_timed_out := false |> in
      if timeout_ms =? 0 then
        let '(c, w) := service 8 c w in
        match connect_done c with
        | Some r => Some (no_pending c, w, r)
        | None => Some (c <| connect_pending := true |>, w, 0)
        end
      else
        let '(c, w, r) := connect_burst 8 c w in
        match r with
        | Some r => Some (c, w, r)
        | None => net_tcp_connect_poll fuel c w timeout_ms
        end.

(** * Sending data *)

(** [for (poll = i; poll < 32; poll++)] with [k = 32 - i]. *)
Fixpoint send_poll (k : nat) (i : nat) (c : net_tcp_conn_t) (w : world) (upto : Z) : net_tcp_conn_t * world :=
  match k with
  | O => (c, w)
  | S k =>
      let '(c, w) := service 8 c w in
      if upto <=? snd_una c then (c, w)
      else send_poll k (S i) c (if (i &u 3) =? 3 then yield w else w) upto
  end.

(** [data] is what is left of the buffer from [off] on. *)
Fixpoint send_loop (fuel : nat) (c : net_tcp_conn_t) (w : world) (data : list Z) (off : Z) : net_tcp_conn_t * world * Z :=
  match fuel, data with
  | O, _ | _, [] => (c, w, s32 off)
  | S k, _ =>
      let chunk := if 1460 <? length data then 1460 else Z.of_nat (length data) in
      let seq0 := snd_nxt c in
      let '(w, r) := tcp_send_seg c w 0x18 (slice data 0 chunk) in
      if nz r then (c, w, if 0 <? off then s32 off else -1)
      else
        let c := c <| snd_nxt := u32 (snd_nxt c + u32 chunk) |> in
        let '(c, w) := send_poll 32 0 c w (u32 (seq0 + u32 chunk)) in
        send_loop k c w (drop (Z.to_nat chunk) data) (off + chunk)
  end.
Definition net_tcp_send (c : net_tcp_conn_t) (w : world) (data : list Z) : net_tcp_conn_t * world * Z :=
  if negb (established c) then (c, w, -1) else send_loop (length data) c w data 0.

Fixpoint flush_wait (fuel : nat) (c : net_tcp_conn_t) (w : world) (start timeout_ms : Z) : option (net_tcp_conn_t * world * Z) :=
  match fuel with
  | O => None
  | S k =>
      let '(w, t) := time_ms w in
      if negb (t -u start <? timeout_ms) then Some (c, w, if snd_nxt c <=? snd_una c then 0 else -2)
      else
        let '(c, w) := service 16 c w in
        if snd_nxt c <=? snd_una c then Some (c, w, 0) else flush_wait k c (yield w) start timeout_ms
  end.
Definition net_tcp_flush_tx (fuel : nat) (c : net_tcp_conn_t) (w : world) (timeout_ms : Z) : option (net_tcp_conn_t * world * Z) :=
  if negb (established c) || (snd_nxt c <=? snd_una c) then Some (c, w, 0)
  else let '(w, start) := time_ms w in flush_wait fuel c w start timeout_ms.

(** * Receiving data *)

Definition net_tcp_window_update (c : net_tcp_conn_t) (w : world) : net_tcp_conn_t * world * Z :=
  if negb (established c) && negb (peer_fin_pending c) && (length (rx c) =? 0) && negb (nz (ooo_valid c)) then (c, w, -1)
  else
    let '(c, w) := tcp_try_complete_fin (tcp_try_merge_ooo c) w in
    let '(w, r) := tcp_send_seg c w 0x10 [] in (c, w, r).

(** Move up to [cap] bytes out of the receive buffer. *)
Definition take_rx (c : net_tcp_conn_t) (cap : Z) : net_tcp_conn_t * list Z :=
  let n := if cap <? length (rx c) then cap else Z.of_nat (length (rx c)) in
  (c <| rx := drop (Z.to_nat n) (rx c) |>, slice (rx c) 0 n).

Fixpoint net_tcp_drain_rx (max_rounds : nat) (c : net_tcp_conn_t) (w : world) : net_tcp_conn_t * world :=
  match max_rounds with
  | O => (c, w)
  | S k =>
      let '(c, w) := service 16 c w in
      if 0 <? length (rx c) then (c, w) else net_tcp_drain_rx k c w
  end.

(** The [do] loop.  The result is the return value and the bytes stored at [out]. *)
Fixpoint recv_wait (fuel : nat) (c : net_tcp_conn_t) (w : world) (cap start last_win timeout_ms : Z) :
    option (net_tcp_conn_t * world * Z * list Z) :=
  match fuel with
  | O => None
  | S k =>
      let '(c, w) := net_tcp_drain_rx 1 c w in
      if 0 <? length (rx c) then
        let '(c, out) := take_rx c cap in
        let '(c, w, _) := net_tcp_window_update c w in
        Some (c, w, s32 (length out), out)
      else if peer_rst c then Some (c, w, -4, [])
      else if peer_fin c then Some (c, w, 0, [])
      else
        let '(w, t) := time_ms w in
        let '(c, w, last_win) :=
          if 50 <=? t -u last_win then (let '(c, w, _) := net_tcp_window_update c w in (c, w, t)) else (c, w, last_win) in
        let w := if nz timeout_ms then yield w else w in
        let '(w, t) := time_ms w in
        if t -u start <? timeout_ms then recv_wait k c w cap start last_win timeout_ms else Some (c, w, -2, [])
  end.

Definition net_tcp_recv (fuel : nat) (c : net_tcp_conn_t) (w : world) (cap timeout_ms : Z) :
    option (net_tcp_conn_t * world * Z * list Z) :=
  if cap =? 0 then Some (c, w, -1, [])
  else
    let '(c, w) := tcp_try_complete_fin (tcp_try_merge_ooo c) w in
    if 0 <? length (rx c) then
      let '(c, out) := take_rx c cap in
      let '(c, w) := tcp_try_complete_fin (tcp_try_merge_ooo c) w in
      let '(c, w, _) := net_tcp_window_update c w in
      Some (c, w, s32 (length out), out)
    else
      let '(w, start) := time_ms w in
      recv_wait fuel c w cap start start timeout_ms.

Definition net_tcp_close (c : net_tcp_conn_t) (w : world) : net_tcp_conn_t * world * Z :=
  if negb (used c) then (c, w, 0)
  else
    let w := if established c then (tcp_send_seg c w 0x11 []).1 else w in
    let '(c, w) := net_tcp_reset c w in (c, w, 0).

End tcp.
End Tcp.
