(* ===== verification/TcpStream.v ===== *)
(** Reassembly in [net/tcp.c]: whatever order the segments of a stream arrive in, the
    receive buffer holds a prefix of it, and nothing that was received is lost while there
    is room. *)
From S2P Require Import Prelude NetBytes Tcp.
Import Tcp.

(** * Sequence numbers near each other *)

Lemma s32_sub base a b : - 2 ^ 31 ≤ a - b < 2 ^ 31 → s32 (u32 (base + a) - u32 (base + b)) = a - b.
Proof.
  intros H. unfold s32, u32. rewrite (Z.mod_eq (base + a)), (Z.mod_eq (base + b)) by lia.
  match goal with |- ?x `mod` _ - _ = _ =>
    replace x with (a - b + 2 ^ 31 + ((base + b) / 2 ^ 32 - (base + a) / 2 ^ 32) * 2 ^ 32) by ring end.
  rewrite Z.mod_add by lia. rewrite Z.mod_small; lia.
Qed.
Lemma u32_sub base a b : 0 ≤ a - b < 2 ^ 32 → u32 (u32 (base + a) - u32 (base + b)) = a - b.
Proof.
  intros H. unfold u32. rewrite <- Zminus_mod. replace (base + a - (base + b)) with (a - b) by ring. by apply Z.mod_small.
Qed.
Lemma u32_add base a b : u32 (u32 (base + a) + b) = u32 (base + (a + b)).
Proof. unfold u32. rewrite Z.add_mod_idemp_l by lia. f_equal. lia. Qed.
Lemma u32_inj base a b : - 2 ^ 31 ≤ a - b < 2 ^ 31 → u32 (base + a) = u32 (base + b) → a = b.
Proof. intros H E. pose proof (s32_sub base a b H) as Hs. rewrite E, Z.sub_diag in Hs. change (s32 0) with 0 in Hs. lia. Qed.

Lemma after_sub base a b : - 2 ^ 31 ≤ a - b < 2 ^ 31 → tcp_seq_after (u32 (base + a)) (u32 (base + b)) = (b <? a).
Proof. intros H. unfold tcp_seq_after. rewrite s32_sub by done. do 2 zcase; lia || done. Qed.

Section stream.
(** The bytes the peer sends, the first with sequence number [base]. *)
Context (str : list Z) (base : Z).
Hypothesis HS : length str < 2 ^ 31 - 1.

Definition seqn (o : Z) : Z := u32 (base + o).

Lemma seqn_add a b : u32 (seqn a + b) = seqn (a + b).
Proof. apply u32_add. Qed.
Lemma seqn_sub a b : 0 ≤ a - b < 2 ^ 32 → u32 (seqn a - seqn b) = a - b.
Proof. apply u32_sub. Qed.
Lemma seqn_inj a b : - 2 ^ 31 ≤ a - b < 2 ^ 31 → seqn a = seqn b → a = b.
Proof. apply u32_inj. Qed.
Lemma after_seqn a b : - 2 ^ 31 ≤ a - b < 2 ^ 31 → tcp_seq_after (seqn a) (seqn b) = (b <? a).
Proof. apply after_sub. Qed.

(** * Slots *)

(** The slot holds the bytes of the stream from [o] on. *)
Record holds_at (s : ooo_slot) (o : Z) : Prop := {
  h_valid : ooo_slot_valid s = true;
  h_some : 0 < length (ooo_buf s);
  h_off : 0 ≤ o;
  h_end : o + length (ooo_buf s) ≤ length str;
  h_seq : ooo_seq s = seqn o;
  h_data : ooo_buf s = slice str o (length (ooo_buf s))
}.
Definition slot_ok (s : ooo_slot) : Prop := ooo_slot_valid s = true → ∃ o, holds_at s o.

Lemma clear_ok s : slot_ok (clear_slot s).
Proof. done. Qed.
Lemma holds_at_inj s o o' : holds_at s o → holds_at s o' → o = o'.
Proof.
  intros [H1 H2 H3 H4 H5 _] [_ _ H3' H4' H5' _]. apply seqn_inj; [lia|congruence].
Qed.

(** [x] is received: below [nx], or in a slot. *)
Definition covered (l : list ooo_slot) (nx x : Z) : Prop :=
  x < nx ∨ ∃ s o, s ∈ l ∧ holds_at s o ∧ o ≤ x < o + length (ooo_buf s).

(** * One pass over the slots *)

(** What a pass may do to one slot. *)
Definition swept (nx : Z) (s s' : ooo_slot) : Prop :=
  (s' = s ∧ ∀ o, holds_at s o → nx < o + length (ooo_buf s)) ∨
  (s' = clear_slot s ∧ ∃ o, holds_at s o ∧ o + length (ooo_buf s) ≤ nx).

Fixpoint count (l : list ooo_slot) : nat :=
  match l with [] => 0 | s :: l => (if ooo_slot_valid s then 1 else 0) + count l end.

(** A pass with all its results. *)
Record scanned (nx : Z) (i : nat) (l : list ooo_slot) (n : Z) (best : option (nat * Z))
    (l' : list ooo_slot) (n' : Z) (best' : option (nat * Z)) : Prop := {
  sc_swept : Forall2 (swept nx) l l';
  sc_count : (count l : Z) ≤ n → n' = n - count l + count l';
  sc_none : best' = None → best = None ∧ ∀ s o, s ∈ l' → holds_at s o → nx < o;
  sc_some : ∀ j q, best' = Some (j, q) →
    (∃ q', best = Some (j, q')) ∨
    ∃ k s o, j = (i + k)%nat ∧ l' !! k = Some s ∧ holds_at s o ∧ o ≤ nx < o + length (ooo_buf s)
}.

(** The candidate that the head of the list leaves. *)
Definition next_best (nx : Z) (i : nat) (s' : ooo_slot) (best b0 : option (nat * Z)) : Prop :=
  (b0 = best ∧ ∀ o, holds_at s' o → nx < o) ∨
  (b0 ≠ None ∧ (b0 = best ∨ ∃ q, b0 = Some (i, q)) ∧ ∃ o, holds_at s' o ∧ o ≤ nx < o + length (ooo_buf s')).

Lemma scanned_cons nx i s s' l n n0 best b0 l' n' b' :
  scanned nx (S i) l n0 b0 l' n' b' → swept nx s s' →
  ((count (s :: l) : Z) ≤ n → n0 = n - count [s] + count [s']) → next_best nx i s' best b0 →
  scanned nx i (s :: l) n best (s' :: l') n' b'.
Proof.
  intros [I1 I2 I3 I4] Hs Hn Hb. constructor.
  - by constructor.
  - cbn [count] in *. intros H. specialize (Hn H). rewrite I2 by (destruct (ooo_slot_valid s'); lia). lia.
  - intros E. destruct (I3 E) as [-> H]. destruct Hb as [[<- Hf]|[Hb _]]; [|done]. split; [done|].
    intros s1 o Hs1 Ho. apply elem_of_cons in Hs1 as [->|Hs1]; [by apply Hf|by apply (H s1)].
  - intros j q E. destruct (I4 j q E) as [[q' ->]|(k & s1 & o & -> & H)].
    + destruct Hb as [[<- _]|(_ & [<-|[q1 Hq]] & o & Ho & Hr)]; [left; by exists q'..|].
      injection Hq as -> ->. right. exists O, s', o. split; [lia|]. by split.
    + right. exists (S k), s1, o. split; [lia|exact H].
Qed.

Lemma scan_ok nx : 0 ≤ nx ≤ length str + 1 → ∀ l i n best, Forall slot_ok l →
  let '(l', n', best') := scan (seqn nx) i l n best in scanned nx i l n best l' n' best'.
Proof.
  intros Hnx l. induction l as [|s l IH]; intros i n best Hl.
  { constructor; [constructor|cbn; lia|intros ->; split; [done|]; intros s o Hs; by apply elem_of_nil in Hs|].
    intros j q ->. left. by exists q. }
  inversion Hl as [|?? Hs Hl']; subst. cbn [scan].
  assert (Hstep : ∀ s' n0 b0, swept nx s s' → ((count (s :: l) : Z) ≤ n → n0 = n - count [s] + count [s']) →
    next_best nx i s' best b0 →
    let '(l', n', best') := let '(l', n', b') := scan (seqn nx) (S i) l n0 b0 in (s' :: l', n', b') in
    scanned nx i (s :: l) n best l' n' best').
  { intros s' n0 b0 H1 H2 H3. specialize (IH (S i) n0 b0 Hl').
    destruct (scan _ _ _ _ _) as [[l' n'] b']. by eapply scanned_cons. }
  destruct (ooo_slot_valid s) eqn:Ev; cbn [negb orb].
  2:{ assert (∀ o, ¬ holds_at s o) as Hno by (intros o [H _ _ _ _ _]; congruence).
      apply Hstep; [left|lia|left]; (split; [done|]); intros o Ho; by destruct (Hno o). }
  destruct (Hs Ev) as [o Ho]. pose proof Ho as [_ H2 H3 H4 H5 _].
  assert (∀ o', holds_at s o' → o' = o) as Ho' by (intros o' H'; by apply (holds_at_inj s)).
  assert ((length (ooo_buf s) =? 0) = false) as -> by lia.
  rewrite H5, seqn_add, !after_seqn by lia.
  destruct (Z.ltb_spec nx (o + length (ooo_buf s))); cbn [negb].
  2:{ apply Hstep.
      - right. split; [done|]. exists o. split; [done|lia].
      - cbn [count clear_slot ooo_slot_valid]. rewrite Ev. unfold dec. intros. destruct (Z.ltb_spec 0 n); lia.
      - left. split; [done|]. by intros o' [H' _ _ _ _ _]. }
  assert (swept nx s s) as Hsw by (left; split; [done|]; intros o' H'; rewrite (Ho' o' H'); lia).
  destruct (Z.ltb_spec nx o); apply Hstep; try (exact Hsw || lia).
  - left. split; [done|]. intros o' H'. by rewrite (Ho' o' H').
  - right. split; [|split; [|exists o; split; [done|lia]]];
      destruct best as [[]|]; try (destruct (tcp_seq_after _ _)); naive_solver.
Qed.

(** What a pass keeps. *)
Lemma swept_ok nx l l' : Forall2 (swept nx) l l' → Forall slot_ok l → Forall slot_ok l'.
Proof.
  induction 1 as [|s s' l l' [[-> _]|[-> _]] _ IH]; intros Hl; [done| |]; inversion Hl; subst; constructor; auto using clear_ok.
Qed.
Lemma swept_count nx l l' : Forall2 (swept nx) l l' → (count l' ≤ count l)%nat.
Proof. induction 1 as [|s s' l l' [[-> _]|[-> _]] _ IH]; cbn; [lia..|]. destruct (ooo_slot_valid s); lia. Qed.
Lemma swept_covered nx l l' x : Forall2 (swept nx) l l' → covered l nx x → covered l' nx x.
Proof.
  intros Hl [Hx|(s & o & Hs & Ho & Hx)]; [by left|].
  apply list_elem_of_lookup in Hs as [i Hi]. destruct (Forall2_lookup_l _ _ _ _ _ Hl Hi) as (s' & Hi' & [[-> _]|[-> (o' & Ho' & He)]]).
  - right. exists s, o. split; [|done]. by eapply list_elem_of_lookup_2.
  - left. rewrite (holds_at_inj _ _ _ Ho Ho') in Hx. lia.
Qed.

(** Replacing one slot. *)
Lemma covered_insert l nx nx' j s s' x :
  covered l nx x → nx ≤ nx' → l !! j = Some s →
  (∀ o, holds_at s o → o ≤ x < o + length (ooo_buf s) → x < nx' ∨ ∃ o', holds_at s' o' ∧ o' ≤ x < o' + length (ooo_buf s')) →
  covered (<[j := s']> l) nx' x.
Proof.
  intros [Hx|(s1 & o & Hs & Ho & Hx)] Hn Hj Hr; [left; lia|].
  apply list_elem_of_lookup in Hs as [i Hi]. destruct (decide (i = j)) as [->|Hne].
  - rewrite Hj in Hi. injection Hi as ->. destruct (Hr o Ho Hx) as [H|(o' & Ho' & H)]; [by left|].
    right. exists s', o'. split; [|done]. apply (list_elem_of_lookup_2 _ j).
    apply list_lookup_insert_eq. by eapply lookup_lt_Some.
  - right. exists s1, o. split; [|done]. apply (list_elem_of_lookup_2 _ i). by rewrite list_lookup_insert_ne.
Qed.
Lemma count_insert l j s s' :
  l !! j = Some s → (count (<[j := s']> l) + (if ooo_slot_valid s then 1 else 0) = count l + (if ooo_slot_valid s' then 1 else 0))%nat.
Proof.
  revert j. induction l as [|a l IH]; intros [|j] H; try done.
  - injection H as ->. cbn. lia.
  - specialize (IH j H). change (<[S j := s']> (a :: l)) with (a :: <[j := s']> l). cbn [count]. lia.
Qed.

(** * The state of the receiver *)

(** Everything but the data. *)
Definition ctl (c : net_tcp_conn_t) : net_tcp_conn_t :=
  c <| rx := [] |> <| rcv_nxt := 0 |> <| ooo := [] |> <| ooo_valid := 0 |>.
Definition finz (c : net_tcp_conn_t) : Z := if peer_fin c then 1 else 0.

(** [D] was handed to the application, and [pos] bytes were accepted. *)
Record rcv_ok (c : net_tcp_conn_t) (D : list Z) (pos : Z) : Prop := {
  r_pos : 0 ≤ pos ≤ length str;
  r_nxt : rcv_nxt c = seqn (pos + finz c);
  r_data : D ++ rx c = slice str 0 pos;
  r_fin : peer_fin c = true → pos = length str;
  r_pend : peer_fin_pending c = true → peer_fin_seq c = seqn (length str);
  r_slots : Forall slot_ok (ooo c);
  r_count : ooo_valid c = count (ooo c);
  r_conn : connect_pending c = false;
  r_buf : rx_buf c ≠ 0;
  r_cap : 0 < rx_cap c;
  r_room : length (rx c) ≤ rx_cap c
}.

Lemma room_eq c D pos : rcv_ok c D pos → net_tcp_rx_room c = rx_cap c - length (rx c).
Proof.
  intros [_ _ _ _ _ _ _ _ H1 H2 H3]. unfold net_tcp_rx_room. assert ((rx_buf c =? 0) = false) as -> by lia.
  cbn [orb]. zcase; lia.
Qed.

(** Nothing more can be moved out of the slots. *)
Definition merged (c : net_tcp_conn_t) (nx : Z) : Prop :=
  net_tcp_rx_room c = 0 ∨ ∀ s o, s ∈ ooo c → holds_at s o → nx < o.

Record merges (c : net_tcp_conn_t) (D : list Z) (pos : Z) (c' : net_tcp_conn_t) (pos' : Z) : Prop := {
  m_ok : rcv_ok c' D pos';
  m_ctl : ctl c' = ctl c;
  m_pos : pos ≤ pos';
  m_covered : ∀ x, covered (ooo c) (pos + finz c) x → covered (ooo c') (pos' + finz c) x;
  m_count : (count (ooo c') ≤ count (ooo c))%nat;
  m_length : length (ooo c') = length (ooo c)
}.

Lemma merges_trans c1 D p1 c2 p2 c3 p3 : merges c1 D p1 c2 p2 → merges c2 D p2 c3 p3 → merges c1 D p1 c3 p3.
Proof.
  intros [A1 A2 A3 A4 A5 A6] [B1 B2 B3 B4 B5 B6].
  assert (finz c2 = finz c1) as E by (change (finz (ctl c2) = finz (ctl c1)); by rewrite A2).
  rewrite E in B4. constructor; [done|congruence|lia|auto|lia|congruence].
Qed.

Lemma swept_merges c D pos l (n : Z) :
  rcv_ok c D pos → Forall2 (swept (pos + finz c)) (ooo c) l → n = count l →
  merges c D pos (c <| ooo := l |> <| ooo_valid := n |>) pos.
Proof.
  intros R Hl ->. pose proof R as [R1 R2 R3 R4 R5 R6 R7 R8 R9 R10 R11]. constructor; cbn.
  - constructor; cbn; try done. by eapply swept_ok.
  - done.
  - lia.
  - intros x. by apply swept_covered.
  - by eapply swept_count.
  - symmetry. by apply (Forall2_length _ _ _ Hl).
Qed.

(** Bytes move from slot [j] to the buffer; [s'] is what stays of it. *)
Lemma pull_merges c D pos j s o k s' (n : Z) :
  rcv_ok c D pos → ooo c !! j = Some s → holds_at s o → o ≤ pos → finz c = 0 →
  0 < k → pos + k ≤ o + length (ooo_buf s) → k ≤ rx_cap c - length (rx c) →
  slot_ok s' → (∀ x, pos + k ≤ x < o + length (ooo_buf s) → ∃ o', holds_at s' o' ∧ o' ≤ x < o' + length (ooo_buf s')) →
  n = count (<[j := s']> (ooo c)) →
  merges c D pos (c <| rx := rx c ++ slice (ooo_buf s) (pos - o) k |> <| rcv_nxt := seqn (pos + k) |>
                    <| ooo := <[j := s']> (ooo c) |> <| ooo_valid := n |>) (pos + k).
Proof.
  intros R Hj Ho Hp Hf Hk He Hr Hs' Hc ->. pose proof R as [R1 R2 R3 R4 R5 R6 R7 R8 R9 R10 R11].
  pose proof Ho as [O1 O2 O3 O4 O5 O6].
  assert (Hsl : slice (ooo_buf s) (pos - o) k = slice str pos k).
  { rewrite O6, slice_slice by lia. f_equal. lia. }
  constructor; cbn.
  - constructor; cbn; try done; try lia.
    + change (finz _) with (finz c). rewrite Hf. f_equal. lia.
    + rewrite app_assoc, R3, Hsl. by rewrite slice_app by lia.
    + intros E. unfold finz in Hf. rewrite E in Hf. discriminate.
    + by apply Forall_insert.
    + rewrite length_app, Hsl. pose proof (slice_length str pos k). lia.
  - done.
  - lia.
  - intros x Hx. apply (covered_insert _ (pos + finz c) _ j s); [done|lia|done|].
    intros o1 Ho1 Hx1. rewrite (holds_at_inj _ _ _ Ho1 Ho) in Hx1. rewrite Hf.
    destruct (Z.lt_ge_cases x (pos + k)); [left; lia|right; apply Hc; lia].
  - pose proof (count_insert _ _ _ s' Hj) as E. rewrite O1 in E. destruct (ooo_slot_valid s'); lia.
  - apply length_insert.
Qed.

Lemma pull_all c D pos j s o :
  rcv_ok c D pos → ooo c !! j = Some s → holds_at s o → o ≤ pos < o + length (ooo_buf s) → finz c = 0 →
  let av := length (ooo_buf s) - (pos - o) in
  let c' := c <| rx := rx c ++ slice (ooo_buf s) (pos - o) av |> <| rcv_nxt := seqn (pos + av) |>
              <| ooo := <[j := clear_slot s]> (ooo c) |> <| ooo_valid := dec (ooo_valid c) |> in
  av ≤ rx_cap c - length (rx c) → merges c D pos c' (pos + av) ∧ (count (ooo c') < count (ooo c))%nat.
Proof.
  intros R Hj Ho Hr Hf av c' Hav. pose proof (count_insert _ _ _ (clear_slot s) Hj) as E.
  rewrite (h_valid _ _ Ho) in E. cbn [clear_slot ooo_slot_valid] in E.
  split; [|subst c'; cbn; lia]. apply (pull_merges _ _ _ _ _ o); try done; subst av; try lia.
  rewrite (r_count _ _ _ R). unfold dec. destruct (Z.ltb_spec 0 (count (ooo c))); lia.
Qed.

Lemma pull_some c D pos j s o :
  rcv_ok c D pos → ooo c !! j = Some s → holds_at s o → o ≤ pos → finz c = 0 →
  let k := rx_cap c - length (rx c) in
  let c' := c <| rx := rx c ++ slice (ooo_buf s) (pos - o) k |> <| rcv_nxt := seqn (pos + k) |>
              <| ooo := <[j := MkSlot true (seqn (pos + k)) (drop (Z.to_nat (pos - o + k)) (ooo_buf s))]> (ooo c) |> in
  0 < k < length (ooo_buf s) - (pos - o) → merges c D pos c' (pos + k) ∧ net_tcp_rx_room c' = 0.
Proof.
  intros R Hj Ho Hp Hf k c' Hk. pose proof Ho as [O1 O2 O3 O4 O5 O6].
  pose proof (r_pos _ _ _ R). set (s' := MkSlot _ _ _) in c'.
  assert (holds_at s' (pos + k)) as Hs'.
  { assert (Hl : length (ooo_buf s') = length (ooo_buf s) - (pos - o + k) :> Z) by (cbn; rewrite length_drop; lia).
    constructor; cbn [s' ooo_slot_valid ooo_seq]; try done; try lia.
    rewrite Hl. cbn [s' ooo_buf]. rewrite O6 at 1. rewrite slice_drop by lia. f_equal; lia. }
  assert (Hm : merges c D pos c' (pos + k)).
  { pose proof (count_insert _ _ _ s' Hj) as E. rewrite O1 in E. cbn [s' ooo_slot_valid] in E.
    apply (pull_merges c D pos j s o k s' (ooo_valid c)); try done; try lia.
    - intros _. by exists (pos + k).
    - intros x Hx. exists (pos + k). split; [done|]. cbn [s' ooo_buf]. rewrite length_drop. lia.
    - rewrite (r_count _ _ _ R). lia. }
  split; [exact Hm|]. rewrite (room_eq _ _ _ (m_ok _ _ _ _ _ Hm)). subst c'. cbn [rx rx_cap update].
  rewrite length_app, Nat2Z.inj_add, slice_length by lia. lia.
Qed.

Lemma merge_round_ok c D pos :
  rcv_ok c D pos →
  ∃ pos', merges c D pos (merge_round c).1 pos' ∧
    if (merge_round c).2 then (count (ooo (merge_round c).1) < count (ooo c))%nat else merged (merge_round c).1 (pos' + finz c).
Proof.
  intros R. pose proof R as [R1 R2 R3 R4 R5 R6 R7 R8 R9 R10 R11]. unfold merge_round.
  assert (0 ≤ finz c ≤ 1) as Hfz by (unfold finz; destruct (peer_fin c); lia).
  pose proof (scan_ok (pos + finz c) ltac:(lia) (ooo c) 0 (ooo_valid c) None R6) as Hsc. rewrite <- R2 in Hsc.
  destruct (scan _ _ _ _ _) as [[l n] best]. destruct Hsc as [S1 S2 S3 S4].
  specialize (S2 ltac:(lia)). rewrite R7 in S2.
  pose proof (swept_merges c D pos l n R S1 ltac:(lia)) as Hm.
  destruct best as [[j q]|]; [|exists pos; split; [exact Hm|right; by destruct (S3 eq_refl)]].
  destruct (S4 j q eq_refl) as [[? ?]|(j' & s & o & -> & Hj & Ho & Hr)]; [done|]. cbn [Nat.add] in *. clear S3 S4.
  rewrite Hj. cbn [default from_option id]. pose proof Ho as [O1 O2 O3 O4 O5 O6].
  assert (finz c = 0) as Hf by (unfold finz in *; destruct (peer_fin c); [rewrite R4 in Hr by done; lia|done]).
  pose proof (swept_count _ _ _ S1) as Hcnt.
  rewrite Hf, Z.add_0_r in *. change (rcv_nxt (_ <| ooo := _ |> <| ooo_valid := _ |>)) with (rcv_nxt c).
  rewrite R2, O5, seqn_sub, seqn_add, O1 by lia.
  match goal with |- context [c <| ooo := l |> <| ooo_valid := n |>] => set (c1 := c <| ooo := l |> <| ooo_valid := n |>) in * end.
  pose proof (m_ok _ _ _ _ _ Hm) as R'. rewrite (room_eq c1 D pos R').
  change (rx c1) with (rx c) in *. change (rx_cap c1) with (rx_cap c) in *.
  rewrite (u64_small (_ - _)) by lia.
  pose proof (pull_all c1 D pos j' s o R' Hj Ho Hr Hf) as Hall. pose proof (pull_some c1 D pos j' s o R' Hj Ho ltac:(lia) Hf) as Hsome.
  cbn zeta in Hall, Hsome. change (rx c1) with (rx c) in *. change (rx_cap c1) with (rx_cap c) in *.
  set (av := length (ooo_buf s) - (pos - o)) in *. set (room := rx_cap c - length (rx c)) in *.
  destruct (Z.ltb_spec room av) as [Hlt|Hge]; [destruct (Z.eqb_spec room 0)|destruct (Z.eqb_spec av 0); [lia|]].
  - exists pos. split; [exact Hm|]. left. change (net_tcp_rx_room c1 = 0). by rewrite (room_eq c1 D pos R').
  - assert ((room =? av) = false) as -> by lia. destruct Hsome as [H1 H2]; [lia|].
    exists (pos + room). split; [by eapply merges_trans|]. by left.
  - rewrite Z.eqb_refl. destruct Hall as [H1 H2]; [lia|]. exists (pos + av). split; [by eapply merges_trans|].
    exact (Nat.lt_le_trans _ _ _ H2 Hcnt).
Qed.

Lemma merge_loop_ok fuel c D pos :
  rcv_ok c D pos → (count (ooo c) < fuel)%nat →
  ∃ pos', merges c D pos (merge_loop fuel c) pos' ∧ merged (merge_loop fuel c) (pos' + finz c).
Proof.
  revert c pos. induction fuel as [|k IH]; intros c pos R Hk; [lia|]. cbn [merge_loop].
  destruct (merge_round_ok c D pos R) as (p1 & H1 & H2). destruct (merge_round c) as [c1 []]; cbn [fst snd] in *.
  - destruct (IH c1 p1 (m_ok _ _ _ _ _ H1)) as (p2 & H3 & H4); [lia|]. exists p2. split; [by eapply merges_trans|].
    replace (finz c) with (finz c1); [done|]. change (finz (ctl c1) = finz (ctl c)). by rewrite (m_ctl _ _ _ _ _ H1).
  - by exists p1.
Qed.

Lemma count_le l : (count l ≤ length l)%nat.
Proof. induction l as [|s l IH]; cbn; [lia|]. destruct (ooo_slot_valid s); lia. Qed.

Lemma merge_ok c D pos :
  rcv_ok c D pos →
  ∃ pos', merges c D pos (tcp_try_merge_ooo c) pos' ∧ merged (tcp_try_merge_ooo c) (pos' + finz c).
Proof. intros R. apply merge_loop_ok; [done|]. pose proof (count_le (ooo c)). lia. Qed.

(** * Storing a segment in a slot *)

(** [n] bytes of the stream from [o] on. *)
Definition part_of (o : Z) (payload : list Z) : Prop :=
  0 ≤ o ∧ o + length payload ≤ length str ∧ payload = slice str o (length payload).

Lemma part_holds o payload : part_of o payload → 0 < length payload → holds_at (MkSlot true (seqn o) payload) o.
Proof. intros (H1 & H2 & H3) Hl. by constructor. Qed.

Lemma part_drop o payload k : part_of o payload → 0 ≤ k ≤ length payload → part_of (o + k) (drop (Z.to_nat k) payload).
Proof.
  intros (H1 & H2 & H3) Hk.
  assert (Hl : length (drop (Z.to_nat k) payload) = length payload - k :> Z) by (rewrite length_drop; lia).
  split; [lia|]. split; [lia|]. rewrite Hl. rewrite H3 at 1. by apply slice_drop.
Qed.

(** The slot at [j] may be overwritten with the bytes from [o] on without loss. *)
Definition spare (s : ooo_slot) (o len : Z) : Prop :=
  ooo_slot_valid s = false ∨ ooo_seq s = seqn o ∧ length (ooo_buf s) < len.

Lemma find_place_ok o len l : ∀ i slot far,
  match find_place (seqn o) len i l slot far with
  | Keep => ∃ s, s ∈ l ∧ ooo_slot_valid s = true ∧ ooo_seq s = seqn o ∧ len ≤ length (ooo_buf s)
  | Use (Some k) _ => slot = Some k ∨ ∃ j s, k = (i + j)%nat ∧ l !! j = Some s ∧ spare s o len
  | Use None far' =>
      slot = None ∧ count l = length l ∧
      ∀ k b, far' = Some (k, b) → (∃ b', far = Some (k, b')) ∨ ∃ j s, k = (i + j)%nat ∧ l !! j = Some s
  end.
Proof.
  induction l as [|s l IH]; intros i slot far; cbn [find_place].
  { destruct slot; [by left|]. split; [done|]. split; [done|]. intros k b ->. left. by exists b. }
  destruct (ooo_slot_valid s) eqn:Ev; cbn [negb].
  2:{ specialize (IH (S i) (Some (default i slot)) far). destruct (find_place _ _ _ _ _ _) as [|[k|] f].
      - destruct IH as (s' & H1 & H2). exists s'. split; [by right|done].
      - destruct IH as [H|(j & s' & -> & H1 & H2)].
        + destruct slot as [k0|]; cbn in H; injection H as ->; [by left|]. right. exists O, s. split; [lia|]. split; [done|]. by left.
        + right. exists (S j), s'. split; [lia|]. by split.
      - by destruct IH. }
  destruct (Z.eqb_spec (ooo_seq s) (seqn o)) as [Hs|Hs].
  { destruct (Z.leb_spec len (length (ooo_buf s))).
    - exists s. split; [by left|done].
    - right. exists O, s. split; [lia|]. split; [done|]. right. split; [done|lia]. }
  match goal with |- context [find_place _ _ _ _ _ ?f] => set (f0 := f); specialize (IH (S i) slot f0) end.
  destruct (find_place _ _ _ _ _ _) as [|[k|] f].
  - destruct IH as (s' & H1 & H2). exists s'. split; [by right|done].
  - destruct IH as [H|(j & s' & -> & H)]; [by left|]. right. exists (S j), s'. split; [lia|done].
  - destruct IH as (H1 & H2 & H3). split; [done|]. split; [cbn [count]; rewrite Ev; cbn; lia|].
    intros k b E. destruct (H3 k b E) as [[b' Hf]|(j & s' & -> & Hj)].
    + assert (f0 = far ∨ f0 = Some (i, ooo_seq s)) as [E'|E'].
      { unfold f0. destruct far as [[]|]; [destruct (tcp_seq_after _ _)|]; auto. }
      * left. exists b'. congruence.
      * rewrite E' in Hf. injection Hf as <- <-. right. exists O, s. split; [lia|done].
    + right. exists (S j), s'. split; [lia|done].
Qed.

Record stores (c : net_tcp_conn_t) (D : list Z) (pos o : Z) (payload : list Z) (c' : net_tcp_conn_t) : Prop := {
  s_ok : rcv_ok c' D pos;
  s_ctl : ctl c' = ctl c;
  s_rx : rx c' = rx c;
  s_count : (count (ooo c') ≤ S (count (ooo c)))%nat;
  s_length : length (ooo c') = length (ooo c);
  s_slots : ∀ s o', s ∈ ooo c' → holds_at s o' → s ∈ ooo c ∨ o' = o;
  s_covered : length payload ≤ NET_TCP_OOO_BYTES → (count (ooo c) < length (ooo c))%nat →
    ∀ x, covered (ooo c) (pos + finz c) x ∨ o ≤ x < o + length payload → covered (ooo c') (pos + finz c) x
}.

Lemma fill_stores c D pos k s o payload :
  rcv_ok c D pos → part_of o payload → 0 < length payload → ooo c !! k = Some s →
  ((count (ooo c) < length (ooo c))%nat → spare s o (length payload)) →
  stores c D pos o payload (fill_slot c k (seqn o) payload).
Proof.
  intros R Hp Hl Hk Hsp. pose proof R as [R1 R2 R3 R4 R5 R6 R7 R8 R9 R10 R11].
  pose proof (part_holds o payload Hp Hl) as Hn. unfold fill_slot. rewrite Hk. cbn [default from_option id].
  pose proof (count_insert _ _ _ (MkSlot true (seqn o) payload) Hk) as E. cbn [ooo_slot_valid] in E.
  constructor; cbn; try done.
  - constructor; cbn; try done.
    + apply Forall_insert; [done|]. intros _. by exists o.
    + rewrite R7. destruct (ooo_slot_valid s); lia.
  - destruct (ooo_slot_valid s); lia.
  - apply length_insert.
  - intros s' o' Hs' Ho'. apply list_elem_of_lookup in Hs' as [i Hi].
    destruct (decide (i = k)) as [->|Hne].
    + rewrite list_lookup_insert_eq in Hi by (by eapply lookup_lt_Some). injection Hi as <-. right. by eapply holds_at_inj.
    + rewrite list_lookup_insert_ne in Hi by done. left. by eapply list_elem_of_lookup_2.
  - intros _ Hfree x [Hx|Hx].
    + apply (covered_insert _ (pos + finz c) _ _ s); [done|lia|done|]. intros o1 Ho1 Hx1. destruct (Hsp Hfree) as [Hv|[He Hlt]].
      * destruct Ho1. congruence.
      * pose proof Ho1 as [_ _ B1 B2 B3 _]. destruct Hp as (P1 & P2 & _).
        assert (o1 = o) as -> by (apply seqn_inj; [lia|congruence]). right. exists o. split; [done|]. cbn. lia.
    + right. exists (MkSlot true (seqn o) payload), o. split; [|done].
      apply (list_elem_of_lookup_2 _ k). apply list_lookup_insert_eq. by eapply lookup_lt_Some.
Qed.

Lemma stores_refl c D pos o payload :
  rcv_ok c D pos → (length payload ≤ NET_TCP_OOO_BYTES → (count (ooo c) < length (ooo c))%nat →
    ∀ x, o ≤ x < o + length payload → covered (ooo c) (pos + finz c) x) → stores c D pos o payload c.
Proof. intros R Hc. constructor; try done; [lia|by left|]. intros Hl Hf x [Hx|Hx]; [done|by apply Hc]. Qed.

Lemma store_ok c D pos o payload :
  rcv_ok c D pos → part_of o payload → 0 < length payload → stores c D pos o payload (tcp_store_ooo c (seqn o) payload).
Proof.
  intros R Hp Hl. unfold tcp_store_ooo. assert ((length payload =? 0) = false) as -> by lia. cbn [orb].
  destruct (Z.ltb_spec NET_TCP_OOO_BYTES (length payload)); [apply stores_refl; [done|lia]|].
  pose proof (find_place_ok o (length payload) (ooo c) 0 None None) as Hfp.
  destruct (find_place _ _ _ _ _ _) as [|[k|] far].
  - destruct Hfp as (s & Hs & Hv & Hq & Hlen). apply stores_refl; [done|]. intros _ _ x Hx. right.
    destruct (Forall_forall slot_ok (ooo c)) as [Hall _]. destruct (Hall (r_slots _ _ _ R) s Hs Hv) as [o' Ho'].
    pose proof Ho' as [_ _ B1 B2 B3 _]. destruct Hp as (P1 & P2 & _).
    assert (o' = o) as -> by (apply seqn_inj; [lia|congruence]). exists s, o. split; [done|]. split; [done|lia].
  - destruct Hfp as [?|(j & s & -> & Hj & Hsp)]; [done|]. by apply (fill_stores _ _ _ _ s).
  - destruct Hfp as (_ & Hcnt & Hfar). destruct far as [[k b]|]; [|apply stores_refl; [done|lia]].
    destruct (tcp_seq_after b (seqn o)); [|apply stores_refl; [done|lia]].
    destruct (Hfar k b eq_refl) as [[? ?]|(j & s & -> & Hj)]; [done|]. apply (fill_stores _ _ _ _ s); [done..|lia].
Qed.

(** * Data that starts at or before the next byte *)

Lemma advance_merges c D pos o payload k :
  rcv_ok c D pos → part_of o payload → finz c = 0 → o ≤ pos → 0 ≤ k → pos + k ≤ o + length payload →
  k ≤ rx_cap c - length (rx c) →
  merges c D pos (c <| rx := rx c ++ slice payload (pos - o) k |> <| rcv_nxt := seqn (pos + k) |>) (pos + k).
Proof.
  intros R (P1 & P2 & P3) Hf Ho Hk He Hr. pose proof R as [R1 R2 R3 R4 R5 R6 R7 R8 R9 R10 R11].
  assert (slice payload (pos - o) k = slice str pos k) as Hs.
  { rewrite P3, slice_slice by lia. f_equal. lia. }
  constructor; cbn; try done; try lia.
  - constructor; cbn; try done; try lia.
    + change (finz _) with (finz c). by rewrite Hf, Z.add_0_r.
    + rewrite app_assoc, R3, Hs. by rewrite slice_app by lia.
    + intros E. unfold finz in Hf. rewrite E in Hf. discriminate.
    + rewrite length_app, Hs. pose proof (slice_length str pos k). lia.
  - intros x [Hx|Hx]; [left; lia|by right].
Qed.

Lemma merges_refl c D pos : rcv_ok c D pos → merges c D pos c pos.
Proof. intros R. by constructor. Qed.

(** What [tcp_accept_inorder] takes: all it can when the segment ends after the next
    byte and its number does not wrap, nothing otherwise. *)
Lemma accept_ok c D pos o payload c' acc :
  rcv_ok c D pos → part_of o payload → 0 < length payload → o ≤ pos + finz c →
  tcp_accept_inorder c (seqn o) payload = (c', acc) →
  merges c D pos c' (pos + acc) ∧ ooo c' = ooo c ∧ 0 ≤ acc ≤ length payload ∧ (0 < acc → finz c = 0 ∧ pos + acc ≤ o + length payload) ∧
  (o = pos + finz c → acc = Z.min (net_tcp_rx_room c) (length payload)).
Proof.
  intros R Hp Hl Ho. pose proof R as [R1 R2 R3 R4 R5 R6 R7 R8 R9 R10 R11]. pose proof Hp as (P1 & P2 & P3).
  assert (finz c = 1 ∧ pos = length str ∨ finz c = 0) as Hfin by (unfold finz; destruct (peer_fin c); auto).
  unfold tcp_accept_inorder. assert ((rx_buf c =? 0) = false) as -> by lia. assert ((rx_cap c =? 0) = false) as -> by lia.
  cbn [orb]. rewrite (room_eq c D pos R). set (room := rx_cap c - length (rx c)) in *.
  assert (∀ k, seqn o = rcv_nxt c → k = pos + finz c - o → k = 0) as Heq.
  { intros k E ->. rewrite R2 in E. apply seqn_inj in E; lia. }
  destruct (Z.eqb_spec (seqn o) (rcv_nxt c)) as [E|E].
  { specialize (Heq _ E eq_refl). intros [= <- <-]. assert (finz c = 0) as Hf by lia. assert (o = pos) as -> by lia.
    set (cp := if room <? length payload then room else length payload). assert (cp = Z.min room (length payload)) as Hcp.
    { unfold cp. destruct (Z.ltb_spec room (length payload)); lia. }
    rewrite R2, seqn_add, Hf, Z.add_0_r. replace 0 with (pos - pos) at 1 by lia.
    split; [apply (advance_merges _ _ _ pos); done || lia|]. repeat split; lia. }
  assert (o ≠ pos + finz c) as Hne by (intros ->; by rewrite R2 in E).
  destruct (Z.ltb_spec (seqn o) (rcv_nxt c)) as [Hlt|Hge].
  2:{ intros [= <- <-]. rewrite Z.add_0_r. split; [by apply merges_refl|]. repeat split; lia. }
  rewrite R2, seqn_sub by lia. destruct (Z.ltb_spec (pos + finz c - o) (length payload)) as [Hs|Hs].
  2:{ intros [= <- <-]. rewrite Z.add_0_r. split; [by apply merges_refl|]. repeat split; lia. }
  intros [= <- <-]. assert (finz c = 0) as Hf by lia. rewrite Hf, Z.add_0_r in *.
  set (tl := length payload - (pos - o)). assert ((if room <? tl then room else tl) = Z.min room tl) as ->.
  { destruct (Z.ltb_spec room tl); lia. }
  rewrite seqn_add. split; [apply (advance_merges _ _ _ o); done || lia|]. repeat split; lia.
Qed.

(** * One segment of data *)

Record takes (c : net_tcp_conn_t) (D : list Z) (pos o : Z) (payload : list Z) (c' : net_tcp_conn_t) (pos' : Z) : Prop := {
  t_ok : rcv_ok c' D pos';
  t_ctl : ctl c' = ctl c;
  t_pos : pos ≤ pos';
  t_count : (count (ooo c') ≤ S (count (ooo c)))%nat;
  t_length : length (ooo c') = length (ooo c);
  t_merged : merged c (pos + finz c) → merged c' (pos' + finz c);
  t_covered : length payload ≤ NET_TCP_OOO_BYTES → (count (ooo c) < length (ooo c))%nat →
    ∀ x, covered (ooo c) (pos + finz c) x ∨ o ≤ x < o + length payload → covered (ooo c') (pos' + finz c) x;
  t_next : o = pos + finz c → pos + Z.min (net_tcp_rx_room c) (length payload) ≤ pos'
}.

Lemma ctl_finz c c' : ctl c' = ctl c → finz c' = finz c.
Proof. intros E. change (finz (ctl c') = finz (ctl c)). by rewrite E. Qed.
Lemma ctl_room c c' : ctl c' = ctl c → rx c' = rx c → net_tcp_rx_room c' = net_tcp_rx_room c.
Proof.
  intros E Hr. unfold net_tcp_rx_room. rewrite Hr. change (rx_buf c') with (rx_buf (ctl c')).
  change (rx_cap c') with (rx_cap (ctl c')). by rewrite E.
Qed.

(** The rest of a segment that was accepted up to [nx]. *)
Lemma store_rest c D pos o payload acc nx :
  rcv_ok c D pos → part_of o payload → 0 ≤ acc → nx = pos + finz c - acc → o ≤ nx →
  let off := if seqn o =? seqn nx then acc else u32 (seqn nx - seqn o) + acc in
  stores c D pos (nx + acc) (drop (Z.to_nat (nx + acc - o)) payload)
    (if (acc <? length payload) && negb (tcp_seq_after (seqn o) (seqn nx)) then
       if off <? length payload then tcp_store_ooo c (rcv_nxt c) (drop (Z.to_nat off) payload) else c
     else c).
Proof.
  intros R Hp Ha -> Ho off. pose proof Hp as (P1 & P2 & P3). pose proof R as [R1 R2 _ _ _ _ _ _ _ _ _].
  assert (0 ≤ finz c ≤ 1) as Hfz by (unfold finz; destruct (peer_fin c); lia).
  rewrite after_seqn by lia. assert ((pos + finz c - acc <? o) = false) as -> by lia. cbn [negb]. rewrite andb_true_r.
  assert (off = pos + finz c - o) as Hoff.
  { unfold off. destruct (Z.eqb_spec (seqn o) (seqn (pos + finz c - acc))) as [E|E].
    - apply seqn_inj in E; lia.
    - rewrite seqn_sub by lia. lia. }
  rewrite Hoff. replace (pos + finz c - acc + acc) with (pos + finz c) by lia.
  assert (Hno : length payload ≤ pos + finz c - o → stores c D pos (pos + finz c) (drop (Z.to_nat (pos + finz c - o)) payload) c).
  { intros H. apply stores_refl; [done|]. intros _ _ x. rewrite length_drop. lia. }
  destruct (Z.ltb_spec acc (length payload)); [|apply Hno; lia].
  destruct (Z.ltb_spec (pos + finz c - o) (length payload)); [|apply Hno; lia].
  rewrite R2. apply store_ok; [done| |rewrite length_drop; lia].
  replace (pos + finz c) with (o + (pos + finz c - o)) at 1 by lia. apply part_drop; [done|lia].
Qed.

Lemma take_data_ok c D pos o payload :
  rcv_ok c D pos → part_of o payload → 0 < length payload →
  ∃ pos', takes c D pos o payload (take_data c (seqn o) payload) pos'.
Proof.
  intros R Hp Hl. pose proof R as [R1 R2 _ _ _ _ _ _ _ _ _]. pose proof Hp as (P1 & P2 & P3). unfold take_data.
  assert (0 ≤ finz c ≤ 1) as Hfz by (unfold finz; destruct (peer_fin c); lia).
  rewrite R2, after_seqn by lia. destruct (Z.ltb_spec (pos + finz c) o) as [Ha|Ha]; cbn [negb].
  { assert ((seqn o =? seqn (pos + finz c)) = false) as ->.
    { apply Z.eqb_neq. intros E. apply seqn_inj in E; lia. }
    exists pos. destruct (store_ok c D pos o payload R Hp Hl) as [T1 T2 T3 T4 T5 T6 T7].
    constructor; try done; [|lia]. intros [Hm|Hm].
    - left. by rewrite (ctl_room c).
    - right. intros s o' Hs Ho'. destruct (T6 s o' Hs Ho') as [Hin| ->]; [by apply (Hm s)|done]. }
  rewrite orb_true_r. destruct (tcp_accept_inorder c (seqn o) payload) as [c1 acc] eqn:Ea.
  destruct (accept_ok c D pos o payload c1 acc R Hp Hl Ha Ea) as (M1 & Hooo & Hacc & Hpos & Hnext).
  pose proof (ctl_finz _ _ (m_ctl _ _ _ _ _ M1)) as Ef.
  pose proof (store_rest c1 D (pos + acc) o payload acc (pos + finz c) (m_ok _ _ _ _ _ M1) Hp ltac:(lia) ltac:(lia) Ha) as St.
  rewrite after_seqn in St by lia. assert ((pos + finz c <? o) = false) as Hb by lia. rewrite Hb in St. cbn [negb] in *.
  match type of St with stores _ _ _ _ _ ?x => set (c2 := x) in * end.
  destruct St as [T1 T2 T3 T4 T5 T6 T7]. destruct M1 as [A1 A2 A3 A4 A5 A6].
  destruct (merge_ok c2 D (pos + acc) T1) as (pos' & [B1 B2 B3 B4 B5 B6] & Hmd).
  pose proof (ctl_finz _ _ T2) as Ef2. rewrite Ef2, Ef in *. exists pos'. constructor.
  - exact B1.
  - congruence.
  - lia.
  - rewrite Hooo in T4. exact (Nat.le_trans _ _ _ B5 T4).
  - congruence.
  - intros _. exact Hmd.
  - intros Hlen Hfree x Hx. apply B4. apply T7; [rewrite length_drop; lia|by rewrite Hooo|].
    rewrite length_drop. destruct Hx as [Hx|Hx].
    + left. by apply A4.
    + destruct (Z.lt_ge_cases x (pos + acc + finz c)); [left; by left|right; lia].
  - intros E. rewrite <- (Hnext E). lia.
Qed.

(** * The end of the stream, and whole segments *)

(** The fields [rcv_ok] looks at. *)
Definition rview (c : net_tcp_conn_t) :=
  (rcv_nxt c, rx c, (peer_fin c, peer_fin_pending c, peer_fin_seq c), (ooo c, ooo_valid c), connect_pending c, (rx_buf c, rx_cap c)).
Lemma rcv_ok_ext c c' D pos : rview c' = rview c → rcv_ok c D pos → rcv_ok c' D pos.
Proof.
  destruct c, c'. cbv [rview rcv_nxt rx peer_fin peer_fin_pending peer_fin_seq ooo ooo_valid connect_pending rx_buf rx_cap].
  intros [= -> -> -> -> -> -> -> -> -> ->] [R1 R2 R3 R4 R5 R6 R7 R8 R9 R10 R11]. by constructor.
Qed.

(** The connection's addresses. *)
Definition ids (c : net_tcp_conn_t) := (dst_ip_be c, dst_port c, src_port c).

(** Reception goes on: the invariant holds for the same delivered bytes. *)
Record goes_on (c : net_tcp_conn_t) (D : list Z) (pos : Z) (c' : net_tcp_conn_t) (pos' : Z) : Prop := {
  g_ids : ids c' = ids c; g_ok : rcv_ok c' D pos'; g_pos : pos ≤ pos'
}.
Lemma goes_on_ext c c' D pos : rcv_ok c D pos → rview c' = rview c → ids c' = ids c → goes_on c D pos c' pos.
Proof. intros R E Hi. constructor; [done|by eapply rcv_ok_ext|lia]. Qed.
Lemma goes_on_refl c D pos : rcv_ok c D pos → goes_on c D pos c pos.
Proof. intros R. by apply goes_on_ext. Qed.
Lemma goes_on_trans c1 p1 c2 p2 c3 p3 D : goes_on c1 D p1 c2 p2 → goes_on c2 D p2 c3 p3 → goes_on c1 D p1 c3 p3.
Proof. intros [A1 A2 A3] [B1 B2 B3]. constructor; [congruence|done|lia]. Qed.
Lemma ctl_ids c c' : ctl c' = ctl c → ids c' = ids c.
Proof. intros E. change (ids (ctl c') = ids (ctl c)). by rewrite E. Qed.

Lemma merge_goes_on c D pos : rcv_ok c D pos → ∃ p, goes_on c D pos (tcp_try_merge_ooo c) p.
Proof.
  intros R. destruct (merge_ok c D pos R) as (p & [M1 M2 M3 _ _ _] & _). exists p. constructor; [by apply ctl_ids|done..].
Qed.

(** The peer's FIN is taken when all its data has been. *)
Lemma fin_goes_on c D pos :
  rcv_ok c D pos → rcv_nxt c = seqn (length str) → peer_fin c = false →
  goes_on c D pos (c <| peer_fin := true |> <| peer_fin_pending := false |> <| rcv_nxt := u32 (rcv_nxt c + 1) |> <| established := false |>)
    (length str).
Proof.
  intros R Hn Hf. pose proof R as [R1 R2 R3 R4 R5 R6 R7 R8 R9 R10 R11].
  assert (pos = length str) as ->.
  { unfold finz in R2. rewrite Hf, Hn in R2. apply seqn_inj in R2; lia. }
  constructor; [done| |lia]. constructor; cbn; try done.
  unfold finz in *. rewrite Hf in R2. cbn. by rewrite R2, seqn_add, Z.add_0_r.
Qed.

Section world.
Context (local_ip : Z) (clk : nat → Z).

Lemma send_frames c w flags payload opts : frames (tcp_send_seg_len local_ip c w flags payload opts).1 = frames w.
Proof.
  unfold tcp_send_seg_len. destruct (_ || _); [done|]. unfold send_l4. destruct (refusals w) as [|[] l]; done.
Qed.
Lemma ack_frames c w flags payload : frames (tcp_send_seg local_ip c w flags payload).1 = frames w.
Proof. apply send_frames. Qed.

(** A step that leaves the frames alone. *)
Definition rx_step (c : net_tcp_conn_t) (w : world) (D : list Z) (pos : Z) (c' : net_tcp_conn_t) (w' : world) : Prop :=
  (∃ p, goes_on c D pos c' p) ∧ frames w' = frames w.

Lemma rx_step_refl c w D pos w' : rcv_ok c D pos → frames w' = frames w → rx_step c w D pos c w'.
Proof. intros R E. split; [|done]. exists pos. by apply goes_on_refl. Qed.
Lemma rx_step_trans c1 w1 D p1 c2 w2 c3 w3 :
  rx_step c1 w1 D p1 c2 w2 → (∀ p2, rcv_ok c2 D p2 → rx_step c2 w2 D p2 c3 w3) → rx_step c1 w1 D p1 c3 w3.
Proof.
  intros [[p2 G] E] H. destruct (H p2 (g_ok _ _ _ _ _ G)) as [[p3 G'] E']. split; [|congruence]. exists p3. by eapply goes_on_trans.
Qed.

Lemma complete_fin_step c w D pos :
  rcv_ok c D pos → rx_step c w D pos (tcp_try_complete_fin local_ip c w).1 (tcp_try_complete_fin local_ip c w).2.
Proof.
  intros R. unfold tcp_try_complete_fin. destruct (peer_fin_pending c) eqn:E1; cbn [negb orb]; [|by apply rx_step_refl].
  destruct (peer_fin c) eqn:E2; cbn [negb orb]; [by apply rx_step_refl|].
  destruct (Z.eqb_spec (rcv_nxt c) (peer_fin_seq c)); cbn [negb]; [|by apply rx_step_refl].
  split; [|apply ack_frames]. eexists. apply fin_goes_on; [done|by rewrite <- (r_pend _ _ _ R E1)|done].
Qed.

(** A segment of this stream: its data and its FIN are in their places. *)
Definition seg_of_stream (flags seq : Z) (payload : list Z) : Prop :=
  (0 < length payload ∨ nz (flags &u 0x01) = true) →
  ∃ o, seq = seqn o ∧ part_of o payload ∧ (nz (flags &u 0x01) = true → o + length payload = length str).

Lemma rx_data_step c w D pos o payload :
  rcv_ok c D pos → part_of o payload → 0 < length payload →
  let '(c', w', go) := rx_data local_ip c w (seqn o) payload in rx_step c w D pos c' w' ∧ go = true.
Proof.
  intros R Hp Hl. unfold rx_data, net_tcp_rx_ensure. pose proof R as [_ _ _ _ _ _ _ _ R9 R10 _].
  assert (nz (rx_buf c) = true) as -> by (apply nz_true; done). assert (nz (rx_cap c) = true) as -> by (apply nz_true; lia).
  cbn [andb nz negb Z.eqb]. destruct (take_data_ok c D pos o payload R Hp Hl) as (p & [T1 T2 T3 _ _ _ _ _]).
  pose proof (complete_fin_step (take_data c (seqn o) payload) w D p T1) as [[p1 G1] G2].
  destruct (tcp_try_complete_fin _ _ _) as [c1 w1]; cbn [fst snd] in *. split; [|done].
  split; [|by rewrite ack_frames]. exists p1. eapply goes_on_trans; [|exact G1]. constructor; [by apply ctl_ids|done..].
Qed.

Lemma rx_fin_step c w D pos :
  rcv_ok c D pos → rx_step c w D pos (rx_fin local_ip c w (seqn (length str))).1 (rx_fin local_ip c w (seqn (length str))).2.
Proof.
  intros R. pose proof R as [R1 R2 R3 R4 R5 R6 R7 R8 R9 R10 R11]. unfold rx_fin.
  destruct (_ && _ && _); [by apply rx_step_refl|].
  assert (0 ≤ finz c ≤ 1) as Hfz by (unfold finz; destruct (peer_fin c); lia).
  destruct (Z.eqb_spec (seqn (length str)) (rcv_nxt c)) as [E|E].
  { split; [|apply ack_frames]. eexists. apply fin_goes_on; [done..|].
    destruct (peer_fin c) eqn:Hf; [|done]. rewrite R2, R4 in E by done. unfold finz in E. rewrite Hf in E. apply seqn_inj in E; lia. }
  destruct (negb _).
  - apply rx_step_refl; [done|]. destruct (_ || _); [apply ack_frames|done].
  - set (c1 := c <| peer_fin_pending := true |> <| peer_fin_seq := seqn (length str) |>).
    assert (rcv_ok c1 D pos) as R' by (constructor; done).
    eapply rx_step_trans; [|intros p2 R''; by apply complete_fin_step]. split; [|apply ack_frames].
    exists pos. constructor; [done..|lia].
Qed.

Lemma rx_rst_step c w flags seq ack D pos :
  rcv_ok c D pos → rx_step c w D pos (rx_rst local_ip c w flags seq ack).1 (rx_rst local_ip c w flags seq ack).2.
Proof.
  intros R. unfold rx_rst. rewrite (r_conn _ _ _ R). cbn [andb]. pose proof (r_conn _ _ _ R).
  destruct (established c); [|by apply rx_step_refl]. destruct (seq =? rcv_nxt c).
  - split; [|done]. exists pos. apply goes_on_ext; [done| |done]. unfold rview. cbn. congruence.
  - destruct (tcp_seq_in_window _ _ _); apply rx_step_refl; try done. apply ack_frames.
Qed.

Lemma rx_segment_step c w D pos flags seq ack payload :
  rcv_ok c D pos → seg_of_stream flags seq payload →
  rx_step c w D pos (rx_segment local_ip c w flags seq ack payload).1.1 (rx_segment local_ip c w flags seq ack payload).1.2.
Proof.
  intros R Hs. unfold rx_segment. destruct (nz (flags &u 4)); [by apply rx_rst_step|].
  destruct (_ && _ && _).
  { unfold rx_synack. rewrite (r_conn _ _ _ R). cbn [negb orb]. by apply rx_step_refl. }
  assert (rx_step c w D pos (tcp_apply_ack c ack) w) as Ha.
  { unfold tcp_apply_ack. destruct (ack =? 0); [by apply rx_step_refl|]. destruct (_ && _); [|by apply rx_step_refl].
    split; [|done]. exists pos. by apply goes_on_ext. }
  set (c1 := tcp_apply_ack c ack) in *. destruct (Z.eqb_spec (length payload) 0) as [H0|H0].
  - destruct (_ && _ && _); [exact Ha|]. destruct (nz (flags &u 1)) eqn:Hf; [|exact Ha].
    destruct Hs as (o & -> & Hp & He); [by right|]. specialize (He Hf).
    eapply rx_step_trans; [exact Ha|]. intros p R'. replace o with (Z.of_nat (length str)) by lia. by apply rx_fin_step.
  - destruct Hs as (o & -> & Hp & He); [left; lia|]. eapply rx_step_trans; [exact Ha|]. intros p R'.
    pose proof (rx_data_step c1 w D p o payload R' Hp ltac:(lia)) as Hd. destruct (rx_data _ _ _ _ _) as [[c2 w2] go].
    destruct Hd as [Hd ->]. cbn [andb]. destruct (nz (flags &u 1)) eqn:Hf; [|exact Hd].
    eapply rx_step_trans; [exact Hd|]. intros p2 R2. destruct Hp as (P1 & P2 & _). rewrite (u32_small (length payload)), seqn_add by lia. rewrite He by done.
    by apply rx_fin_step.
Qed.

(** * Frames *)

(** What [service_frame] finds in a frame for this connection that passes its tests:
    flags, sequence and acknowledgement numbers, and data. *)
Definition decode (c : net_tcp_conn_t) (f : list Z) : option (Z * Z * Z * list Z) :=
  let n := Z.of_nat (length f) in
  let ihl := (byte f ETH_LEN &u 0x0F) * 4 in
  let th := ETH_LEN + ihl in
  let doff := Z.shiftr (byte f (th + 12)) 4 * 4 in
  let ip_tot := be16 (ld16 f (ETH_LEN + 2)) in
  let tcp_len := ip_tot - ihl in
  if negb (for_conn local_ip c f) then None
  else if (doff <? TCP_LEN) || (60 <? doff) then None
  else if n <? th + doff then None
  else if ip_tot <? ihl + doff then None
  else if (n - ETH_LEN - ihl <? tcp_len) ||
          negb (tcp_checksum (dst_ip_be c) local_ip (slice f th tcp_len) =? 0xFFFF) then None
  else
    let payload_len := tcp_len - doff in
    let frame_pay := n - (th + doff) in
    Some (byte f (th + 13), be32 (ld32 f (th + 4)), be32 (ld32 f (th + 8)),
          slice f (th + doff) (if frame_pay <? payload_len then frame_pay else payload_len)).

Lemma decode_ids c c' f : ids c' = ids c → decode c' f = decode c f.
Proof. unfold ids. intros [= E1 E2 E3]. unfold decode, for_conn. by rewrite E1, E2, E3. Qed.

Lemma service_frame_decode c w f :
  ∃ c' w' g, ids c' = ids c ∧ rview c' = rview c ∧ frames w' = frames w ∧ established c' = established c ∧
    snd_nxt c' = snd_nxt c ∧ syn_isn c' = syn_isn c ∧
    service_frame local_ip c w f =
      match decode c f with Some (fl, sq, ak, pl) => rx_segment local_ip c' w fl sq ak pl | None => (c', w', g) end.
Proof.
  unfold service_frame, decode. cbv zeta. destruct (for_conn local_ip c f); cbn [negb].
  2:{ by exists c, (tcp_return_frame w f), false. }
  set (c1 := if connect_pending c && negb (established c) then _ else c).
  assert (ids c1 = ids c ∧ rview c1 = rview c ∧ established c1 = established c ∧ snd_nxt c1 = snd_nxt c ∧ syn_isn c1 = syn_isn c) as (I1 & V1 & H1 & H2 & H3)
    by (unfold c1; destruct (_ && _); done).
  clearbody c1.
  destruct (_ || _); [by exists c1, (tcp_return_frame w f), false|].
  destruct (_ <? _); [by exists c1, (tcp_return_frame w f), false|].
  destruct (_ <? _); [by exists c1, (tcp_return_frame w f), false|].
  match goal with |- context [dst_ip_be (if ?b then ?x else _)] => set (c2 := if b then x else c1) end.
  assert (ids c2 = ids c ∧ rview c2 = rview c ∧ established c2 = established c ∧ snd_nxt c2 = snd_nxt c ∧ syn_isn c2 = syn_isn c) as (I2 & V2 & H4 & H5 & H6)
    by (unfold c2; destruct (_ && _); exact (conj I1 (conj V1 (conj H1 (conj H2 H3))))).
  assert (dst_ip_be c2 = dst_ip_be c) as -> by (injection I2; done).
  exists c2, w, true. destruct (_ || _); [done|]. repeat (split; [done|]). done.
Qed.

(** A segment of the stream whenever it is for this connection. *)
Definition good (c : net_tcp_conn_t) (f : list Z) : Prop :=
  ∀ fl sq ak pl, decode c f = Some (fl, sq, ak, pl) → seg_of_stream fl sq pl.

(** The receiver is in order, and so are the frames to come. *)
Definition live (c : net_tcp_conn_t) (w : world) (D : list Z) : Prop :=
  (∃ pos, rcv_ok c D pos) ∧ Forall (good c) (frames w).

Lemma good_ids c c' : ids c' = ids c → ∀ l, Forall (good c) l → Forall (good c') l.
Proof. intros E l Hl. eapply Forall_impl; [exact Hl|]. intros f H fl sq ak pl. rewrite (decode_ids c c' f E). apply H. Qed.
Lemma live_frames c w w' D : live c w D → frames w' = frames w → live c w' D.
Proof. intros [H1 H2] E. split; [done|by rewrite E]. Qed.
Lemma live_step c w D c' w' : live c w D → (∀ pos, rcv_ok c D pos → rx_step c w D pos c' w') → live c' w' D.
Proof.
  intros [[pos R] Hg] H. destruct (H pos R) as [[p [G1 G2 _]] E]. split; [by exists p|]. rewrite E. by apply (good_ids c).
Qed.
Lemma live_view c w D c' : live c w D → rview c' = rview c → ids c' = ids c → live c' w D.
Proof. intros H E Hi. apply (live_step c w); [done|]. intros pos R. split; [|done]. exists pos. by apply goes_on_ext. Qed.

Lemma service_frame_live c w f D :
  live c w D → good c f → live (service_frame local_ip c w f).1.1 (service_frame local_ip c w f).1.2 D.
Proof.
  intros L Hg. destruct (service_frame_decode c w f) as (c' & w' & g & Hi & Hv & Hf & _ & _ & _ & ->).
  pose proof (live_view c w D c' L Hv Hi) as L'.
  destruct (decode c f) as [[[[fl sq] ak] pl]|] eqn:Ed; cbn [fst snd].
  - eapply live_step; [exact L'|]. intros pos R. apply rx_segment_step; [done|]. by eapply Hg.
  - by apply (live_frames c' w).
Qed.

Lemma service_live k c w got D :
  live c w D → live (net_tcp_service local_ip k c w got).1.1 (net_tcp_service local_ip k c w got).1.2 D.
Proof.
  revert c w got. induction k as [|k IH]; intros c w got L; [done|]. cbn [net_tcp_service].
  unfold recv_frame. destruct (frames w) as [|f fs] eqn:Ef; [done|]. destruct L as [R Hg]. rewrite Ef in Hg.
  inversion Hg as [|?? Hf Hfs]; subst. assert (live c (w <| frames := fs |>) D) as Hp by done.
  destruct (length f =? 0); [exact Hp|]. pose proof (service_frame_live c (w <| frames := fs |>) f D Hp Hf) as Hs.
  destruct (service_frame _ _ _ _) as [[c1 w1] g]. by apply IH.
Qed.

(** A state that a function on connections and worlds keeps. *)
Abbreviation keeps_live F := (∀ c w D, live c w D → live (F c w).1 (F c w).2 D).

Lemma merge_fin_live c w D :
  live c w D → live (tcp_try_complete_fin local_ip (tcp_try_merge_ooo c) w).1 (tcp_try_complete_fin local_ip (tcp_try_merge_ooo c) w).2 D.
Proof.
  intros L. apply (live_step (tcp_try_merge_ooo c) w); [|intros; by apply complete_fin_step].
  apply (live_step c w); [done|]. intros pos R. split; [by apply merge_goes_on|done].
Qed.
Lemma send_live c w D flags payload opts : live c w D → live c (tcp_send_seg_len local_ip c w flags payload opts).1 D.
Proof. intros L. apply (live_frames c w); [done|]. apply send_frames. Qed.
Lemma window_update_live c w D :
  live c w D → live (net_tcp_window_update local_ip c w).1.1 (net_tcp_window_update local_ip c w).1.2 D.
Proof.
  intros L. unfold net_tcp_window_update. destruct (_ && _ && _ && _); [done|].
  pose proof (merge_fin_live c w D L) as L1. destruct (tcp_try_complete_fin _ _ _) as [c1 w1]. cbn [fst snd] in L1.
  pose proof (send_live c1 w1 D 0x10 [] [] L1) as L2. unfold tcp_send_seg. by destruct (tcp_send_seg_len _ _ _ _ _ _).
Qed.
Lemma service1_live k : keeps_live (service local_ip k).
Proof. intros c w D L. unfold service. by apply service_live. Qed.
Lemma drain_live k : keeps_live (net_tcp_drain_rx local_ip k).
Proof.
  induction k as [|k IH]; intros c w D L; [done|]. cbn [net_tcp_drain_rx]. pose proof (service1_live 16 c w D L) as L1.
  destruct (service _ _ _ _) as [c1 w1]. destruct (_ <? _); [done|]. by apply IH.
Qed.
Lemma rexmit_live : keeps_live (tcp_rexmit_syn_if_due local_ip clk).
Proof.
  intros c w D L. unfold tcp_rexmit_syn_if_due. destruct L as [[pos R] Hg]. rewrite (r_conn _ _ _ R). cbn [negb orb].
  split; [by exists pos|done].
Qed.
Lemma send_poll_live upto k i c w D :
  live c w D → live (send_poll local_ip k i c w upto).1 (send_poll local_ip k i c w upto).2 D.
Proof.
  revert i c w. induction k as [|k IH]; intros i c w L; [done|]. cbn [send_poll]. pose proof (service1_live 8 c w D L) as L1.
  destruct (service _ _ _ _) as [c1 w1]. destruct (_ <=? _); [done|]. apply IH. by destruct (_ =? _).
Qed.
Lemma send_loop_live k c w data off D :
  live c w D → live (send_loop local_ip k c w data off).1.1 (send_loop local_ip k c w data off).1.2 D.
Proof.
  revert c w data off. induction k as [|k IH]; intros c w data off L; [by destruct data|]. destruct data as [|b data]; [done|].
  cbn [send_loop]. match goal with |- context [tcp_send_seg _ _ _ _ ?p] => pose proof (send_live c w D 0x18 p [] L) as L1 end.
  unfold tcp_send_seg. destruct (tcp_send_seg_len _ _ _ _ _ _) as [w1 r]. destruct (nz r); [done|].
  match goal with |- context [send_poll _ 32 0 ?c1 _ ?u] => pose proof (send_poll_live u 32 0 c1 w1 D) as L2 end.
  destruct (send_poll _ _ _ _ _ _) as [c2 w2]. apply IH, L2. by apply (live_view c).
Qed.

End world.
End stream.
