(* ===== verification/TcpProps.v ===== *)
(** TCP as the application sees it: what [net_tcp_recv] delivers is the peer's stream,
    and segments in any order are put together. *)
From S2P Require Import Prelude NetBytes Tcp TcpStream.
Import Tcp.

(** * Calls of the application *)

Inductive call :=
  | Recv (cap timeout_ms : Z) (fuel : nat)
  | Send (data : list Z)
  | Service (budget : nat)
  | WindowUpdate
  | SendAck
  | Flush (timeout_ms : Z) (fuel : nat)
  | Poll (timeout_ms : Z) (fuel : nat).

Section calls.
Context (local_ip : Z) (clk : nat → Z).

(** The state after the call, its result, and the bytes it hands over. *)
Definition run_call (c : net_tcp_conn_t) (w : world) (a : call) : option (net_tcp_conn_t * world * Z * list Z) :=
  match a with
  | Recv cap t fuel => net_tcp_recv local_ip clk fuel c w cap t
  | Send data => let '(c, w, r) := net_tcp_send local_ip c w data in Some (c, w, r, [])
  | Service k => let '(c, w, g) := net_tcp_service local_ip k c w false in Some (c, w, Z.b2z g, [])
  | WindowUpdate => let '(c, w, r) := net_tcp_window_update local_ip c w in Some (c, w, r, [])
  | SendAck => let '(w, r) := net_tcp_send_ack local_ip c w in Some (c, w, r, [])
  | Flush t fuel => '(c, w, r) ← net_tcp_flush_tx local_ip clk fuel c w t; Some (c, w, r, [])
  | Poll t fuel => '(c, w, r) ← net_tcp_connect_poll local_ip clk fuel c w t; Some (c, w, r, [])
  end.

(** All bytes handed over so far. *)
Fixpoint run_calls (c : net_tcp_conn_t) (w : world) (as_ : list call) : option (net_tcp_conn_t * world * list Z) :=
  match as_ with
  | [] => Some (c, w, [])
  | a :: as_ =>
      '(c, w, _, out) ← run_call c w a;
      '(c, w, outs) ← run_calls c w as_;
      Some (c, w, out ++ outs)
  end.

Section live.
Context (str : list Z) (base : Z).
Hypothesis HS : length str < 2 ^ 31 - 1.
Abbreviation live := (live str base local_ip).
Abbreviation rcv_ok := (rcv_ok str base).

Lemma live_world c w w' D : live c w D → frames w' = frames w → live c w' D.
Proof. apply live_frames. Qed.

(** * Receiving *)

Lemma take_rx_ok c D pos cap : 0 ≤ cap → rcv_ok c D pos → rcv_ok (take_rx c cap).1 (D ++ (take_rx c cap).2) pos.
Proof.
  intros Hc [R1 R2 R3 R4 R5 R6 R7 R8 R9 R10 R11]. unfold take_rx. set (n := if _ <? _ then _ else _).
  constructor; cbn; try done.
  - rewrite <- R3. rewrite <- app_assoc. f_equal. unfold slice. rewrite drop_0. apply take_drop.
  - rewrite length_drop. lia.
Qed.
Lemma take_rx_live c w D cap :
  0 ≤ cap → live c w D → live (take_rx c cap).1 w (D ++ (take_rx c cap).2).
Proof.
  intros Hc [[pos R] Hg]. split; [exists pos; by apply take_rx_ok|]. by apply (good_ids str base local_ip c).
Qed.
(** At most [cap] bytes, and none only from an empty buffer. *)
Lemma take_rx_out c D pos cap :
  rcv_ok c D pos → 0 < cap → 0 < length (rx c) →
  0 < length (take_rx c cap).2 ≤ cap ∧ s32 (length (take_rx c cap).2) = length (take_rx c cap).2.
Proof.
  intros R Hc Hl. unfold take_rx. set (n := if cap <? length (rx c) then cap else length (rx c)).
  assert (0 < n ≤ length (rx c) ∧ n ≤ cap) as Hn by (unfold n; destruct (Z.ltb_spec cap (length (rx c))); lia).
  cbn [snd]. rewrite slice_length by lia. split; [lia|]. apply s32_small.
  pose proof (f_equal length (r_data _ _ _ _ _ R)) as E. rewrite length_app in E.
  assert (length (slice str 0 pos) ≤ length str) by (unfold slice; rewrite length_take, length_drop; lia). lia.
Qed.

(** What a call of [net_tcp_recv] does to the stream. *)
Definition received (D : list Z) (cap r : Z) (out : list Z) : Prop :=
  (0 < r ∧ r = length out ∧ r ≤ cap) ∨ (r = 0 ∧ out = [] ∧ D = str) ∨ (r < 0 ∧ out = []).

Lemma eof_all c w D : live c w D → length (rx c) = 0%nat → peer_fin c = true → D = str.
Proof.
  intros [[pos R] _] Hl Hf. pose proof (r_data _ _ _ _ _ R) as E. rewrite (r_fin _ _ _ _ _ R Hf) in E.
  apply nil_length_inv in Hl. rewrite Hl, app_nil_r in E. rewrite E. by apply slice_all.
Qed.

(** The end of a round that delivers nothing. *)
Lemma recv_round fuel c w cap start last_win t c' w' r out D :
  (∀ c w last_win, live c w D → recv_wait local_ip clk fuel c w cap start last_win t = Some (c', w', r, out) →
    live c' w' (D ++ out) ∧ received D cap r out) →
  live c w D →
  let w1 := if nz t then yield w else w in
  (if clk (now w1) -u start <? t then recv_wait local_ip clk fuel c (w1 <| now := S (now w1) |>) cap start last_win t
   else Some (c, w1 <| now := S (now w1) |>, -2, [])) = Some (c', w', r, out) →
  live c' w' (D ++ out) ∧ received D cap r out.
Proof.
  intros H L w1. assert (live c (w1 <| now := S (now w1) |>) D) as L1 by (apply (live_world c w); [done|unfold w1; by destruct (nz t)]).
  destruct (_ <? _); [by apply H|]. intros [= <- <- <- <-]. rewrite app_nil_r. split; [done|]. right; right. split; [lia|done].
Qed.

Lemma recv_wait_live fuel c w cap start last_win t c' w' r out D :
  0 < cap → live c w D → recv_wait local_ip clk fuel c w cap start last_win t = Some (c', w', r, out) →
  live c' w' (D ++ out) ∧ received D cap r out.
Proof.
  intros Hc. revert c w last_win. induction fuel as [|k IH]; intros c w last_win L; [done|]. cbn [recv_wait].
  pose proof (drain_live str base HS local_ip 1 c w D L) as L1. destruct (net_tcp_drain_rx _ _ _ _) as [c1 w1]. cbn [fst snd] in L1.
  destruct (Z.ltb_spec 0 (length (rx c1))) as [Hl|Hl].
  - pose proof (take_rx_live c1 w1 D cap ltac:(lia) L1) as L2. destruct L1 as [[pos R] _].
    destruct (take_rx_out c1 D pos cap R Hc Hl) as [H1 H2]. destruct (take_rx c1 cap) as [c2 o]. cbn [fst snd] in *.
    pose proof (window_update_live str base HS local_ip c2 w1 _ L2) as L3.
    destruct (net_tcp_window_update _ _ _) as [[c3 w3] r3]. intros [= <- <- <- <-]. split; [exact L3|]. left. lia.
  - destruct (peer_rst c1); [intros [= <- <- <- <-]; rewrite app_nil_r; split; [done|]; right; right; split; [lia|done]|].
    destruct (peer_fin c1) eqn:Hf.
    { intros [= <- <- <- <-]. rewrite app_nil_r. split; [done|]. right. left. split; [done|]. split; [done|].
      apply (eof_all c1 w1); [done|lia|done]. }
    unfold time_ms. match goal with |- context [if 50 <=? ?a then _ else _] => destruct (50 <=? a) end.
    + match goal with |- context [net_tcp_window_update _ c1 ?w0] =>
        pose proof (window_update_live str base HS local_ip c1 w0 D L1) as L2; destruct (net_tcp_window_update local_ip c1 w0) as [[c2 w2] r2] end.
      exact (recv_round k c2 w2 cap start (clk (now w1)) t c' w' r out D IH L2).
    + exact (recv_round k c1 (time_ms clk w1).1 cap start last_win t c' w' r out D IH L1).
Qed.

Lemma recv_live fuel c w cap t c' w' r out D :
  0 ≤ cap → live c w D → net_tcp_recv local_ip clk fuel c w cap t = Some (c', w', r, out) →
  live c' w' (D ++ out) ∧ received D cap r out.
Proof.
  intros Hc L. unfold net_tcp_recv. destruct (Z.eqb_spec cap 0) as [->|Hc0].
  { intros [= <- <- <- <-]. rewrite app_nil_r. split; [done|]. right; right. split; [lia|done]. }
  pose proof (merge_fin_live str base HS local_ip c w D L) as L1. destruct (tcp_try_complete_fin _ _ _) as [c1 w1]. cbn [fst snd] in L1.
  destruct (Z.ltb_spec 0 (length (rx c1))) as [Hl|Hl]; [|apply (recv_wait_live fuel c1 (time_ms clk w1).1); [lia|exact L1]].
  pose proof (take_rx_live c1 w1 D cap ltac:(lia) L1) as L2. destruct L1 as [[pos R] _].
  destruct (take_rx_out c1 D pos cap R ltac:(lia) Hl) as [H1 H2]. destruct (take_rx c1 cap) as [c2 o]. cbn [fst snd] in *.
  pose proof (merge_fin_live str base HS local_ip c2 w1 _ L2) as L3. destruct (tcp_try_complete_fin _ _ _) as [c3 w3]. cbn [fst snd] in L3.
  pose proof (window_update_live str base HS local_ip c3 w3 _ L3) as L4.
  destruct (net_tcp_window_update _ _ _) as [[c4 w4] r4]. intros [= <- <- <- <-]. split; [exact L4|]. left. lia.
Qed.

(** * The other calls *)

Lemma flush_wait_live fuel c w start t c' w' r D :
  live c w D → flush_wait local_ip clk fuel c w start t = Some (c', w', r) → live c' w' D.
Proof.
  revert c w. induction fuel as [|k IH]; intros c w L; [done|]. cbn [flush_wait]. unfold time_ms. destruct (negb _).
  { intros [= <- <- _]. by apply (live_world c w). }
  match goal with |- context [service _ 16 c ?w0] => pose proof (service1_live str base HS local_ip 16 c w0 D L) as L1 end.
  destruct (service _ _ _ _) as [c1 w1]. destruct (_ <=? _); [intros [= <- <- _]; exact L1|]. apply IH. by apply (live_world c1 w1).
Qed.

Lemma no_pending_live c w D : live c w D → live (no_pending c) w D.
Proof.
  intros [[pos R] Hg]. apply (live_view str base local_ip c); [split; [by exists pos|done]| |done].
  unfold rview. cbn. by rewrite (r_conn _ _ _ _ _ R).
Qed.
Lemma service_n_live k b c w D :
  live c w D → live (service_n local_ip k b c w).1 (service_n local_ip k b c w).2 D.
Proof.
  revert c w. induction k as [|k IH]; intros c w L; [done|]. cbn [service_n].
  pose proof (service1_live str base HS local_ip b c w D L) as L1. destruct (service _ _ _ _) as [c1 w1]. by apply IH.
Qed.

Lemma connect_wait_live fuel c w start t c' w' r D :
  live c w D → connect_wait local_ip clk fuel c w start t = Some (c', w', r) → live c' w' D.
Proof.
  revert c w. induction fuel as [|k IH]; intros c w L; [done|]. cbn [connect_wait]. unfold time_ms. destruct (negb _).
  { intros [= <- <- _]. by apply no_pending_live, (live_world c w). }
  match goal with |- context [service _ 16 c ?w0] => pose proof (service1_live str base HS local_ip 16 c w0 D L) as L1 end.
  destruct (service _ _ _ _) as [c1 w1]. cbn [fst snd] in L1.
  destruct (connect_done c1); [intros [= <- <- _]; by apply no_pending_live|].
  pose proof (service1_live str base HS local_ip 16 c1 w1 D L1) as L2. destruct (service _ _ _ _) as [c2 w2]. cbn [fst snd] in L2.
  destruct (connect_done c2); [intros [= <- <- _]; by apply no_pending_live|].
  pose proof (rexmit_live str base local_ip clk c2 w2 D L2) as L3. destruct (tcp_rexmit_syn_if_due _ _ _ _) as [c3 w3]. cbn [fst snd] in L3.
  pose proof (service_n_live 4 16 c3 w3 D L3) as L4. destruct (service_n _ _ _ _ _) as [c4 w4]. cbn [fst snd] in L4.
  destruct (connect_done c4); [intros [= <- <- _]; by apply no_pending_live|]. by apply IH.
Qed.

Lemma poll_live fuel c w t c' w' r D :
  live c w D → net_tcp_connect_poll local_ip clk fuel c w t = Some (c', w', r) → live c' w' D.
Proof.
  intros L. unfold net_tcp_connect_poll. destruct (connect_done c); [intros [= <- <- _]; by apply no_pending_live|].
  destruct (connect_timed_out c); [intros [= <- <- _]; by apply no_pending_live|].
  destruct (_ && _); [by intros [= <- <- _]|]. unfold time_ms. destruct (t =? 0); [|by apply connect_wait_live].
  match goal with |- context [service _ 8 c ?w0] => pose proof (service1_live str base HS local_ip 8 c w0 D L) as L1 end.
  destruct (service _ _ _ _) as [c1 w1]. cbn [fst snd] in L1.
  pose proof (rexmit_live str base local_ip clk c1 w1 D L1) as L3. destruct (tcp_rexmit_syn_if_due _ _ _ _) as [c3 w3]. cbn [fst snd] in L3.
  destruct (connect_done c3); [intros [= <- <- _]; by apply no_pending_live|].
  destruct (_ <=? _); intros [= <- <- _]; [|done]. apply (live_view str base local_ip (no_pending c3)); [by apply no_pending_live|done..].
Qed.

Definition call_ok (a : call) : Prop := match a with Recv cap _ _ => 0 ≤ cap | _ => True end.

Lemma run_call_live c w a c' w' r out D :
  call_ok a → live c w D → run_call c w a = Some (c', w', r, out) → live c' w' (D ++ out).
Proof.
  intros Ha L. destruct a as [cap t fuel|data|k| | |t fuel|t fuel]; cbn [run_call].
  - intros E. by eapply recv_live.
  - assert (live (net_tcp_send local_ip c w data).1.1 (net_tcp_send local_ip c w data).1.2 D) as L1.
    { unfold net_tcp_send. destruct (negb _); [done|]. by apply send_loop_live. }
    destruct (net_tcp_send _ _ _ _) as [[c1 w1] r1]. intros [= <- <- _ <-]. by rewrite app_nil_r.
  - pose proof (service_live str base HS local_ip k c w false D L) as L1.
    destruct (net_tcp_service _ _ _ _ _) as [[c1 w1] g]. intros [= <- <- _ <-]. by rewrite app_nil_r.
  - pose proof (window_update_live str base HS local_ip c w D L) as L1.
    destruct (net_tcp_window_update _ _ _) as [[c1 w1] r1]. intros [= <- <- _ <-]. by rewrite app_nil_r.
  - assert (live c (net_tcp_send_ack local_ip c w).1 D) as L1.
    { unfold net_tcp_send_ack. destruct (negb _); [done|]. by apply send_live. }
    destruct (net_tcp_send_ack _ _ _) as [w1 r1]. intros [= <- <- _ <-]. by rewrite app_nil_r.
  - destruct (net_tcp_flush_tx _ _ _ _ _ _) as [[[c1 w1] r1]|] eqn:E; [|done]. cbn. intros [= <- <- _ <-]. rewrite app_nil_r.
    revert E. unfold net_tcp_flush_tx. destruct (_ || _); [by intros [= <- <- _]|]. by apply (flush_wait_live fuel c (time_ms clk w).1).
  - destruct (net_tcp_connect_poll _ _ _ _ _ _) as [[[c1 w1] r1]|] eqn:E; [|done]. cbn. intros [= <- <- _ <-]. rewrite app_nil_r.
    by eapply poll_live.
Qed.

Lemma run_calls_live as_ c w c' w' out D :
  Forall call_ok as_ → live c w D → run_calls c w as_ = Some (c', w', out) → live c' w' (D ++ out).
Proof.
  revert c w D out. induction as_ as [|a as_ IH]; intros c w D out Ha L; cbn [run_calls].
  { intros [= <- <- <-]. by rewrite app_nil_r. }
  inversion Ha; subst. destruct (run_call c w a) as [[[[c1 w1] r1] o1]|] eqn:E1; [|done]. cbn.
  destruct (run_calls c1 w1 as_) as [[[c2 w2] o2]|] eqn:E2; [|done]. cbn. intros [= <- <- <-]. rewrite app_assoc.
  apply (IH c1 w1); [done| |done]. by eapply run_call_live.
Qed.

End live.

(** A connection whose stream starts at sequence number [base]. *)
Record ready (base : Z) (c : net_tcp_conn_t) : Prop := {
  q_nxt : rcv_nxt c = u32 base;
  q_rx : rx c = [];
  q_slots : Forall (λ s, ooo_slot_valid s = false) (ooo c);
  q_valid : ooo_valid c = 0;
  q_fin : peer_fin c = false;
  q_pend : peer_fin_pending c = false;
  q_conn : connect_pending c = false;
  q_buf : rx_buf c ≠ 0;
  q_cap : 0 < rx_cap c
}.

Lemma ready_ok str base c : ready base c → rcv_ok str base c [] 0.
Proof.
  intros [Q1 Q2 Q3 Q4 Q5 Q6 Q7 Q8 Q9]. constructor; try done; try congruence.
  - lia.
  - unfold finz, seqn. rewrite Q5, Q1. f_equal. lia.
  - eapply Forall_impl; [exact Q3|]. intros s Hs Hv. congruence.
  - rewrite Q4. clear -Q3. induction Q3 as [|s l Hs _ IH]; [done|]. cbn [count]. rewrite Hs. lia.
  - rewrite Q2. cbn. lia.
Qed.

(** C5: TCP delivers the peer's stream.  Let every frame that comes in for the connection and
    passes its tests carry data of one stream of less than 2 GiB in its place (the FIN after
    the last byte), in any order, lost, duplicated, cut and overlapping at will, with the
    sequence numbers wrapping anywhere.  Then after any calls what was received and what
    waits in the buffer is a prefix of the stream, and [net_tcp_recv] returns the number of
    the next bytes, a negative error, or 0 at the end of the whole stream only. *)
Theorem tcp_stream_delivered str base c w as_ c' w' D :
  length str < 2 ^ 31 - 1 → ready base c → Forall (good str base local_ip c) (frames w) → Forall call_ok as_ →
  run_calls c w as_ = Some (c', w', D) →
  (D ++ rx c') `prefix_of` str ∧
  ∀ fuel cap t c'' w'' r out, 0 ≤ cap → net_tcp_recv local_ip clk fuel c' w' cap t = Some (c'', w'', r, out) →
    (D ++ out) `prefix_of` str ∧
    ((0 < r ∧ r = length out ∧ r ≤ cap) ∨ (r = 0 ∧ out = [] ∧ D = str) ∨ (r < 0 ∧ out = [])).
Proof.
  intros HS Q Hg Ha E.
  assert (Hp : ∀ c w D, live str base local_ip c w D → (D ++ rx c) `prefix_of` str).
  { intros c0 w0 D0 [[pos R] _]. rewrite (r_data _ _ _ _ _ R). unfold slice. rewrite drop_0. apply prefix_take. }
  assert (live str base local_ip c' w' D) as L.
  { apply (run_calls_live str base HS as_ c w c' w' D []); [done| |done]. split; [exists 0; by apply ready_ok|done]. }
  split; [by eapply Hp|]. intros fuel cap t c'' w'' r out Hc Er.
  destruct (recv_live str base HS fuel c' w' cap t c'' w'' r out D Hc L Er) as [L' Hr]. split; [|exact Hr].
  etrans; [|by eapply Hp]. by eexists.
Qed.

End calls.

(** * Reassembly is complete *)

Section complete.
Context (local_ip : Z) (str : list Z) (base : Z).
Hypothesis HS : length str < 2 ^ 31 - 1.

(** The frame carries the bytes [pl] of the stream at [o], and no SYN, FIN or RST. *)
Definition carries (c : net_tcp_conn_t) (f : list Z) (o : Z) (pl : list Z) : Prop :=
  ∃ fl ak, decode local_ip c f = Some (fl, seqn base o, ak, pl) ∧ fl &u 0x07 = 0 ∧ part_of str o pl ∧
    0 < length pl ≤ NET_TCP_OOO_BYTES.

Lemma no_flags fl : fl &u 0x07 = 0 → nz (fl &u 0x01) = false ∧ nz (fl &u 0x02) = false ∧ nz (fl &u 0x04) = false.
Proof.
  intros H. rewrite !nz_false.
  assert (Hb : ∀ k, fl &u (7 &u k) = 0) by (intros k; by rewrite Z.land_assoc, H).
  split; [apply (Hb 1)|]. split; [apply (Hb 2)|apply (Hb 4)].
Qed.

(** Reassembly in progress: [n] frames were taken, with the bytes [X]. *)
Record progress (c0 c : net_tcp_conn_t) (n : nat) (X : Z → Prop) (pos : Z) : Prop := {
  p_ok : rcv_ok str base c [] pos;
  p_ids : ids c = ids c0;
  p_cap : rx_cap c = rx_cap c0;
  p_fin : peer_fin c = false;
  p_pend : peer_fin_pending c = false;
  p_merged : merged str base c pos;
  p_count : (count (ooo c) ≤ n)%nat;
  p_length : length (ooo c) = length (ooo c0);
  p_covered : ∀ x, X x → covered str base (ooo c) pos x
}.

Lemma ctl_pending c c' : ctl c' = ctl c → peer_fin_pending c' = peer_fin_pending c ∧ peer_fin c' = peer_fin c ∧ rx_cap c' = rx_cap c.
Proof.
  intros E. repeat split.
  - change (peer_fin_pending (ctl c') = peer_fin_pending (ctl c)). by rewrite E.
  - change (peer_fin (ctl c') = peer_fin (ctl c)). by rewrite E.
  - change (rx_cap (ctl c') = rx_cap (ctl c)). by rewrite E.
Qed.

Lemma rx_plain c w fl sq ak pl :
  fl &u 0x07 = 0 → 0 < length pl → rx_buf c ≠ 0 → rx_cap c ≠ 0 → peer_fin_pending (take_data (tcp_apply_ack c ak) sq pl) = false →
  ∃ w', rx_segment local_ip c w fl sq ak pl = (take_data (tcp_apply_ack c ak) sq pl, w', true) ∧ frames w' = frames w.
Proof.
  intros Hf Hl Hb Hc Hp. destruct (no_flags fl Hf) as (F1 & F2 & F3). unfold rx_segment. rewrite F1, F2, F3. cbn [andb].
  assert ((length pl =? 0) = false) as -> by lia. unfold rx_data, net_tcp_rx_ensure.
  assert (rx_buf (tcp_apply_ack c ak) = rx_buf c ∧ rx_cap (tcp_apply_ack c ak) = rx_cap c) as [-> ->].
  { unfold tcp_apply_ack. destruct (ak =? 0); [done|]. by destruct (_ && _). }
  assert (nz (rx_buf c) = true) as -> by (by apply nz_true). assert (nz (rx_cap c) = true) as -> by (by apply nz_true).
  cbn [andb nz negb Z.eqb]. unfold tcp_try_complete_fin. rewrite Hp. cbn [negb orb]. eexists. split; [done|]. apply ack_frames.
Qed.

Lemma progress_frame c0 c w n X pos f o pl :
  progress c0 c n X pos → (n < length (ooo c0))%nat → carries c0 f o pl →
  ∃ c' w' pos', service_frame local_ip c w f = (c', w', true) ∧ frames w' = frames w ∧
    progress c0 c' (S n) (λ x, X x ∨ o ≤ x < o + length pl) pos'.
Proof.
  intros [P1 P2 P3 P4 P5 P6 P7 P8 P9] Hn (fl & ak & Hd & Hfl & Hp & Hl).
  destruct (service_frame_decode local_ip c w f) as (c1 & w1 & g & I1 & V1 & _ & _ & _ & _ & ->).
  rewrite (decode_ids local_ip c0 c f P2), Hd. set (c2 := tcp_apply_ack c1 ak).
  assert (rview c2 = rview c ∧ ids c2 = ids c) as [V2 I2].
  { unfold c2, tcp_apply_ack. destruct (ak =? 0); [done|]. by destruct (_ && _). }
  pose proof (rcv_ok_ext str base c c2 [] pos V2 P1) as R2. pose proof V2 as V2'. unfold rview in V2'.
  injection V2' as H1 H2 H3 H4 H5 H6 H7 H8 H9 H10.
  assert (finz c2 = 0) as Hfz by (unfold finz; by rewrite H3, P4).
  destruct (take_data_ok str base HS c2 [] pos o pl R2 Hp ltac:(lia)) as (p & [T1 T2 T3 T4 T5 T6 T7 T8]).
  rewrite Hfz, Z.add_0_r in *. destruct (ctl_pending _ _ T2) as (E1 & E2 & E3). rewrite Z.add_0_r in T6, T7.
  assert (rx_buf c1 ≠ 0 ∧ rx_cap c1 ≠ 0) as [Hb Hc].
  { pose proof V1 as V1'. unfold rview in V1'. injection V1'. intros -> -> _ _ _ _ _ _ _ _. destruct P1; lia. }
  destruct (rx_plain c1 w fl (seqn base o) ak pl Hfl ltac:(lia) Hb Hc) as (w' & -> & Hw); [fold c2; congruence|].
  exists (take_data c2 (seqn base o) pl), w', p. split; [done|]. split; [done|]. constructor.
  - exact T1.
  - rewrite (ctl_ids _ _ T2). congruence.
  - congruence.
  - congruence.
  - congruence.
  - apply T6. destruct P6 as [Hm|Hm]; [left|right; by rewrite H6].
    unfold net_tcp_rx_room. by rewrite H2, H9, H10.
  - rewrite H6 in T4. lia.
  - rewrite T5, H6. exact P8.
  - intros x Hx. apply T7; [lia|rewrite H6; lia|]. rewrite H6. destruct Hx as [Hx|Hx]; [left; by apply P9|by right].
Qed.

Lemma carries_nonempty c f o pl : carries c f o pl → (length f =? 0) = false.
Proof.
  intros (fl & ak & Hd & _). unfold decode in Hd. destruct (for_conn local_ip c f) eqn:E; [|done].
  unfold for_conn in E. rewrite !andb_true_iff in E. decompose [and] E. apply Z.eqb_neq.
  match goal with H : negb (_ <? ETH_LEN + IP_LEN) = true |- _ => rewrite negb_true_iff, Z.ltb_ge in H; unfold ETH_LEN, IP_LEN in H; lia end.
Qed.

Lemma progress_service c0 fs : ∀ c w got n X pos,
  progress c0 c n X pos → frames w = fs → (n + length fs ≤ length (ooo c0))%nat →
  (∀ f, f ∈ fs → ∃ o pl, carries c0 f o pl) →
  ∃ c' w' g pos', net_tcp_service local_ip (length fs) c w got = (c', w', g) ∧ frames w' = [] ∧
    progress c0 c' (n + length fs) (λ x, X x ∨ ∃ f o pl, f ∈ fs ∧ carries c0 f o pl ∧ o ≤ x < o + length pl) pos'.
Proof.
  induction fs as [|f fs IH]; intros c w got n X pos P Hw Hn Hf.
  { exists c, w, got, pos. split; [done|]. split; [done|]. rewrite Nat.add_0_r. destruct P. constructor; try done.
    intros x [Hx|(f & o & pl & Hin & _)]; [auto|by apply elem_of_nil in Hin]. }
  cbn [length] in *. cbn [net_tcp_service]. unfold recv_frame. rewrite Hw.
  destruct (Hf f ltac:(by left)) as (o & pl & Hc). rewrite (carries_nonempty c0 f o pl Hc).
  match goal with |- context [service_frame _ c ?w1 f] =>
    destruct (progress_frame c0 c w1 n X pos f o pl P ltac:(lia) Hc) as (c2 & w2 & p2 & -> & Hw2 & P2) end.
  destruct (IH c2 w2 (got || true) (S n) _ p2 P2 Hw2 ltac:(lia)) as (c3 & w3 & g3 & p3 & E & Hw3 & P3).
  { intros f' Hin. apply Hf. by right. }
  exists c3, w3, g3, p3. split; [exact E|]. split; [done|].
  replace (n + S (length fs))%nat with (S n + length fs)%nat by lia.
  destruct P3 as [A1 A2 A3 A4 A5 A6 A7 A8 A9]. constructor; try done.
  intros x Hx. apply A9. destruct Hx as [Hx|(f' & o' & pl' & Hin & Hc' & Hx)]; [by do 2 left|].
  apply elem_of_cons in Hin as [->|Hin].
  - left. right. destruct Hc as (fl & ak & E1 & _ & (B1 & B2 & _) & _), Hc' as (fl' & ak' & E2 & _ & (B3 & B4 & _) & _).
    rewrite E1 in E2. injection E2 as _ Eo _ <-. apply seqn_inj in Eo; [|lia]. by subst.
  - right. by exists f', o', pl'.
Qed.

(** C12: Reassembly loses nothing.  However the peer cuts its stream into segments, and in
    whatever order they arrive, overlapping and repeated: if there are no more of them than
    slots, each fits a slot, and the receive buffer can hold the stream, then servicing them
    puts the whole stream in the buffer and acknowledges up to its end. *)
Theorem tcp_reassembles c w :
  ready base c → length str ≤ rx_cap c → (length (frames w) ≤ length (ooo c))%nat →
  (∀ f, f ∈ frames w → ∃ o pl, carries c f o pl) →
  (∀ x, 0 ≤ x < length str → ∃ f o pl, f ∈ frames w ∧ carries c f o pl ∧ o ≤ x < o + length pl) →
  ∃ c' w' g, net_tcp_service local_ip (length (frames w)) c w false = (c', w', g) ∧
    frames w' = [] ∧ rx c' = str ∧ rcv_nxt c' = u32 (base + length str).
Proof.
  intros Q Hcap Hn Hf Hx. pose proof (ready_ok str base c Q) as R.
  assert (Hinv : ∀ s, s ∈ ooo c → ooo_slot_valid s = false) by (apply Forall_forall, Q).
  assert (progress c c 0 (λ _, False) 0) as P0.
  { constructor; try done; try apply Q.
    - right. intros s o Hs Ho. pose proof (h_valid _ _ _ _ Ho). rewrite (Hinv s Hs) in *. done.
    - pose proof (r_count _ _ _ _ _ R). rewrite (q_valid _ _ Q) in *. lia. }
  destruct (progress_service c (frames w) c w false 0 _ 0 P0 eq_refl Hn Hf) as (c' & w' & g & p & E & Hw & [A1 A2 A3 A4 A5 A6 A7 A8 A9]).
  exists c', w', g. split; [done|]. split; [done|]. pose proof A1 as [B1 B2 B3 _ _ _ _ _ _ _ _]. cbn [app] in B3.
  assert (p = length str) as Hp.
  { destruct (Z.eq_dec p (length str)) as [|Hne]; [done|]. destruct (Hx p ltac:(lia)) as (f & o & pl & Hin & Hc & Hr).
    destruct (A9 p) as [Hlt|(s & o' & Hs & Ho' & Hr')]; [right; by exists f, o, pl|lia|].
    destruct A6 as [Hroom|Hm]; [|specialize (Hm s o' Hs Ho'); lia].
    rewrite (room_eq _ _ _ _ _ A1), A3, B3, slice_length in Hroom by lia. lia. }
  split.
  - rewrite B3, Hp. by apply slice_all.
  - rewrite B2. unfold finz, seqn. rewrite A4, Hp. f_equal. lia.
Qed.

End complete.
