(* ===== verification/TcpTime.v ===== *)
(** Time in TCP: handling segments reads no clock, and the waits end when their time is
    over. *)
From S2P Require Import Prelude NetBytes Tcp.
Import Tcp.

Section tcp.
Context (ip : Z) (clk : nat → Z).

(** * What reads no clock *)

Lemma now_send_len c w fl pl opts : now (tcp_send_seg_len ip c w fl pl opts).1 = now w.
Proof. unfold tcp_send_seg_len, send_l4. destruct (_ || _); [done|]. by destruct (refusals w) as [|[] l]. Qed.
Lemma now_send c w fl pl : now (tcp_send_seg ip c w fl pl).1 = now w.
Proof. apply now_send_len. Qed.
Lemma now_complete_fin c w : now (tcp_try_complete_fin ip c w).2 = now w.
Proof. unfold tcp_try_complete_fin. destruct (_ || _); [done|]. destruct (negb _); [done|]. apply now_send. Qed.
Lemma now_alloc l c w : now (rx_alloc l c w).1.2 = now w.
Proof.
  revert c w. induction l as [|n l IH]; intros c w; [done|]. cbn [rx_alloc]. unfold kmalloc.
  destruct (blocks w); [apply IH|]. destruct (nz _); [done|]. by rewrite IH.
Qed.
Lemma now_ensure c w : now (net_tcp_rx_ensure c w).1.2 = now w.
Proof. unfold net_tcp_rx_ensure. destruct (_ && _); [done|apply now_alloc]. Qed.
Lemma now_rst c w fl sq ak : now (rx_rst ip c w fl sq ak).2 = now w.
Proof.
  unfold rx_rst. destruct (_ && _); [by destruct (_ && _)|]. destruct (established c); [|done]. destruct (_ =? _); [done|].
  destruct (tcp_seq_in_window _ _ _); [apply now_send|done].
Qed.
Lemma now_synack c w sq ak : now (rx_synack ip c w sq ak).2 = now w.
Proof. unfold rx_synack. destruct (_ || _); [done|apply now_send]. Qed.
Lemma now_fin c w sq : now (rx_fin ip c w sq).2 = now w.
Proof.
  unfold rx_fin. destruct (_ && _ && _); [done|]. destruct (_ =? _); [apply now_send|]. destruct (negb _); [destruct (_ || _); [apply now_send|done]|].
  by rewrite now_complete_fin, now_send.
Qed.
Lemma now_data c w sq pl : now (rx_data ip c w sq pl).1.2 = now w.
Proof.
  unfold rx_data. pose proof (now_ensure c w) as H. destruct (net_tcp_rx_ensure c w) as [[c1 w1] r]. destruct (nz r); cbn [fst snd].
  - by rewrite now_send.
  - pose proof (now_complete_fin (take_data c1 sq pl) w1) as H1. destruct (tcp_try_complete_fin ip _ w1) as [c2 w2]. cbn in *. by rewrite now_send, H1.
Qed.
Lemma now_segment c w fl sq ak pl : now (rx_segment ip c w fl sq ak pl).1.2 = now w.
Proof.
  unfold rx_segment. destruct (nz _); [apply now_rst|]. destruct (_ && _ && _); [apply now_synack|]. destruct (_ =? 0).
  - destruct (_ && _ && _); [done|]. destruct (nz _); [apply now_fin|done].
  - pose proof (now_data (tcp_apply_ack c ak) w sq pl) as H. destruct (rx_data ip _ w sq pl) as [[c1 w1] go]. destruct (_ && _); [|done]. cbn [fst snd] in *. by rewrite now_fin.
Qed.
Lemma now_frame c w f : now (service_frame ip c w f).1.2 = now w.
Proof.
  unfold service_frame. destruct (negb (for_conn ip c f)); [done|]. destruct (_ || _); [done|]. destruct (_ <? _); [done|]. destruct (_ <? _); [done|].
  destruct (_ || _); [done|apply now_segment].
Qed.
Lemma now_service budget c w : now (service ip budget c w).2 = now w.
Proof.
  unfold service. generalize false. revert c w. induction budget as [|b IH]; intros c w got; [done|]. cbn [net_tcp_service].
  unfold recv_frame. destruct (frames w) as [|f l]; [done|]. destruct (_ =? 0); [done|].
  match goal with |- context [service_frame ip c ?x f] => pose proof (now_frame c x f) as H; destruct (service_frame ip c x f) as [[c1 w1] g] end.
  rewrite IH. exact H.
Qed.
Lemma now_window_update c w : now (net_tcp_window_update ip c w).1.2 = now w.
Proof.
  unfold net_tcp_window_update. destruct (_ && _ && _ && _); [done|]. pose proof (now_complete_fin (tcp_try_merge_ooo c) w) as H.
  destruct (tcp_try_complete_fin ip _ w) as [c1 w1]. pose proof (now_send c1 w1 16 []) as H1. destruct (tcp_send_seg ip c1 w1 16 []). cbn in *. congruence.
Qed.
Lemma now_drain k c w : now (net_tcp_drain_rx ip k c w).2 = now w.
Proof.
  revert c w. induction k as [|k IH]; intros c w; [done|]. cbn [net_tcp_drain_rx]. pose proof (now_service 16 c w) as H. destruct (service ip 16 c w) as [c1 w1].
  destruct (0 <? _); [done|]. by rewrite IH.
Qed.
Lemma now_service_n k b c w : now (service_n ip k b c w).2 = now w.
Proof.
  revert c w. induction k as [|k IH]; intros c w; [done|]. cbn [service_n]. pose proof (now_service b c w) as H. destruct (service ip b c w) as [c1 w1]. by rewrite IH.
Qed.
(** The retransmission reads it once at most. *)
Lemma now_rexmit c w : (now w ≤ now (tcp_rexmit_syn_if_due ip clk c w).2 ≤ S (now w))%nat.
Proof.
  unfold tcp_rexmit_syn_if_due, time_ms. destruct (_ || _); [cbn; lia|]. cbn zeta beta iota. destruct (_ <? 1000); [cbn; lia|].
  match goal with |- context [tcp_send_seg_len ip ?a ?b 2 [] ?o] => pose proof (now_send_len a b 2 [] o) as H; destruct (tcp_send_seg_len ip a b 2 [] o) end.
  cbn in *. lia.
Qed.

(** * The waits *)

(** Two readings in a row show that the time since [start] is over. *)
Definition over (start t : Z) (n : nat) : Prop := t ≤ clk n -u start ∧ t ≤ clk (S n) -u start.
Lemma over_at start t n m : over start t n → m = n ∨ m = S n → (clk m -u start <? t) = false.
Proof. intros [H1 H2] [-> | ->]; by apply Z.ltb_ge. Qed.

Lemma connect_wait_ends start t n fuel c w : over start t n → (now w ≤ S n)%nat → (S n < fuel + now w)%nat → is_Some (connect_wait ip clk fuel c w start t).
Proof.
  intros Ho. revert c w. induction fuel as [|k IH]; intros c w Hn Hf; [lia|]. cbn [connect_wait]. unfold time_ms. cbn zeta beta iota.
  destruct (decide (now w = n ∨ now w = S n)) as [E|E]; [by rewrite (over_at _ _ _ _ Ho E)|]. destruct (negb _); [done|].
  match goal with |- context [service ip 16 c ?x] => pose proof (now_service 16 c x) as H1; destruct (service ip 16 c x) as [c1 w1] end. cbn in H1.
  destruct (connect_done c1); [done|]. pose proof (now_service 16 c1 w1) as H2. destruct (service ip 16 c1 w1) as [c2 w2]. cbn in H2.
  destruct (connect_done c2); [done|]. pose proof (now_rexmit c2 w2) as H3. destruct (tcp_rexmit_syn_if_due ip clk c2 w2) as [c3 w3]. cbn in H3.
  pose proof (now_service_n 4 16 c3 w3) as H4. destruct (service_n ip 4 16 c3 w3) as [c4 w4]. cbn in H4. destruct (connect_done c4); [done|]. apply IH; lia.
Qed.
Lemma flush_wait_ends start t n fuel c w : over start t n → (now w ≤ S n)%nat → (S n < fuel + now w)%nat → is_Some (flush_wait ip clk fuel c w start t).
Proof.
  intros Ho. revert c w. induction fuel as [|k IH]; intros c w Hn Hf; [lia|]. cbn [flush_wait]. unfold time_ms. cbn zeta beta iota.
  destruct (decide (now w = n ∨ now w = S n)) as [E|E]; [by rewrite (over_at _ _ _ _ Ho E)|]. destruct (negb _); [done|].
  match goal with |- context [service ip 16 c ?x] => pose proof (now_service 16 c x) as H1; destruct (service ip 16 c x) as [c1 w1] end. cbn in H1.
  destruct (_ <=? _); [done|]. apply IH; cbn; lia.
Qed.
Lemma recv_wait_ends start t n fuel c w cap lw : over start t n → (now w ≤ n)%nat → (S n < fuel + now w)%nat → is_Some (recv_wait ip clk fuel c w cap start lw t).
Proof.
  intros Ho. revert c w lw. induction fuel as [|k IH]; intros c w lw Hn Hf; [lia|]. cbn [recv_wait].
  pose proof (now_drain 1 c w) as H1. destruct (net_tcp_drain_rx ip 1 c w) as [c1 w1]. cbn in H1.
  destruct (0 <? _).
  { destruct (take_rx c1 cap) as [c2 out]. by destruct (net_tcp_window_update ip c2 w1) as [[c3 w3] r]. }
  destruct (peer_rst c1); [done|]. destruct (peer_fin c1); [done|]. unfold time_ms. cbn zeta beta iota.
  match goal with |- context [if ?b then ?x else ?y] => destruct (if b then x else y) as [[c2 w2] lw2] eqn:E2 end.
  assert (H2 : now w2 = S (now w1)).
  { destruct (50 <=? _); [|by injection E2 as <- <- <-].
    match goal with H : context [net_tcp_window_update ip c1 ?x] |- _ => pose proof (now_window_update c1 x) as H3; destruct (net_tcp_window_update ip c1 x) as [[c3 w3] r] end.
    by injection E2 as <- <- <-. }
  assert (H3 : now (if nz t then yield w2 else w2) = S (now w1)) by (by destruct (nz t)). rewrite H3.
  destruct (decide (S (now w1) = n ∨ S (now w1) = S n)) as [E|E]; [by rewrite (over_at _ _ _ _ Ho E)|]. destruct (_ <? t); [|done]. apply IH; cbn; lia.
Qed.

(** The clock moves on: from every reading the time [t] is over at some later one. *)
Definition passes (t : Z) : Prop := ∀ m, ∃ n, (m < n)%nat ∧ over (clk m) t n.
(** Enough fuel gives a result, and more gives one too. *)
Definition returns {A} (f : nat → option A) : Prop := ∃ k, ∀ fuel, (k ≤ fuel)%nat → is_Some (f fuel).

Lemma returns_some {A} (x : A) : returns (λ _, Some x).
Proof. exists O. intros. by exists x. Qed.
Lemma poll_returns c w t : passes t → returns (λ fuel, net_tcp_connect_poll ip clk fuel c w t).
Proof.
  intros Hp. destruct (Hp (now w)) as (n & Hn & Ho). exists (S (S n)). intros fuel Hf. unfold net_tcp_connect_poll.
  destruct (connect_done c); [done|]. destruct (connect_timed_out c); [done|]. destruct (_ && _); [done|]. unfold time_ms. cbn zeta beta iota.
  destruct (t =? 0); [|apply (connect_wait_ends _ _ n); [done|cbn; lia|cbn; lia]].
  destruct (service ip 8 c _) as [c1 w1]. destruct (tcp_rexmit_syn_if_due ip clk c1 w1) as [c2 w2]. destruct (connect_done c2); [done|]. by destruct (15000 <=? _).
Qed.

(** C40: The calls with a time-out end: however the peer and the driver behave, connecting,
    waiting for a connection, receiving and flushing return once the clock shows that
    their time is over. *)
Theorem tcp_calls_return t : passes t → ∀ c w,
  (∀ cap, returns (λ fuel, net_tcp_recv ip clk fuel c w cap t)) ∧ returns (λ fuel, net_tcp_flush_tx ip clk fuel c w t) ∧
  returns (λ fuel, net_tcp_connect_poll ip clk fuel c w t) ∧
  (∀ dst dp sp, returns (λ fuel, net_tcp_connect ip clk fuel c w dst dp sp t)).
Proof.
  intros Hp c w. split_and!; [intros cap| |by apply poll_returns|intros dst dp sp].
  - destruct (Hp (now w)) as (n & Hn & Ho). exists (S (S n)). intros fuel Hf. unfold net_tcp_recv. destruct (cap =? 0); [done|].
    pose proof (now_complete_fin (tcp_try_merge_ooo c) w) as H1. destruct (tcp_try_complete_fin ip _ w) as [c1 w1]. cbn in H1. destruct (0 <? _).
    + destruct (take_rx c1 cap) as [c2 out]. destruct (tcp_try_complete_fin ip _ w1) as [c3 w3]. by destruct (net_tcp_window_update ip c3 w3) as [[c4 w4] r].
    + unfold time_ms. rewrite H1. apply (recv_wait_ends _ _ n); [done|cbn; lia|cbn; lia].
  - destruct (Hp (now w)) as (n & Hn & Ho). exists (S (S n)). intros fuel Hf. unfold net_tcp_flush_tx. destruct (_ || _); [done|]. unfold time_ms.
    apply (flush_wait_ends _ _ n); [done|cbn; lia|cbn; lia].
  - unfold net_tcp_connect. match goal with |- context [net_tcp_rx_ensure ?a ?b] => destruct (net_tcp_rx_ensure a b) as [[c1 w1] r1] end.
    destruct (nz r1); [apply returns_some|]. destruct (time_ms clk w1) as [w2 t2].
    match goal with |- context [tcp_send_syn ip ?a ?b] => set (c2 := a); destruct (tcp_send_syn ip c2 b) as [w3 r3] end.
    destruct (nz r3); [apply returns_some|]. destruct (time_ms clk w3) as [w4 t4]. destruct (t =? 0).
    + match goal with |- context [service ip 8 ?a w4] => destruct (service ip 8 a w4) as [c5 w5] end. destruct (connect_done c5); apply returns_some.
    + match goal with |- context [connect_burst ip 8 ?a w4] => destruct (connect_burst ip 8 a w4) as [[c5 w5] [r5|]] end; [apply returns_some|by apply poll_returns].
Qed.
End tcp.

(** A clock that shows ten milliseconds more at every reading. *)
Lemma passes_10 : passes (λ n, 10 * n) 3000.
Proof.
  intros m. exists (m + 300)%nat. split; [lia|]. unfold over. rewrite !u64_small by lia. lia.
Qed.
Lemma tcp_calls_return_witness : returns (λ fuel, net_tcp_recv 0x0A000001 (λ n, 10 * n) fuel conn0 (MkWorld [] [] [] [] [] [] 0 0) 100 3000).
Proof. apply (tcp_calls_return 0x0A000001 (λ n, 10 * n) 3000 passes_10). Defined.
