(* ===== verification/Net.v ===== *)
(** The IPv4 layer inside [syscall/dispatch/syscall_dispatch.c]: frames that go out, the
    tests on frames that come in, UDP, ARP and the answer to pings. *)
From S2P Require Import Prelude NetBytes Tcp.

Module Net.
Import Tcp.

Definition ETH_TYPE_ARP : Z := 0x0806.
Definition IPPROTO_ICMP_LOCAL : Z := 1.
Definition IPPROTO_UDP_LOCAL : Z := 17.
Definition UDP_LEN : Z := 8.
Definition ARP_LEN : Z := 28.

(** [net_state_t], the state [g_net] of the interface, and the variable [g_net_from_dhcp]. *)
Record net_state := MkNet {
  inited : bool; if_up : bool; ready : bool; mac : list Z; ip_be : Z; mask_be : Z; gw_be : Z; dns_be : Z;
  ip_id : Z; gw_mac : list Z; gw_mac_valid : bool; from_dhcp : bool
}.
#[export] Instance eta_net : Eta net_state := λ s,
  MkNet (inited s) (if_up s) (ready s) (mac s) (ip_be s) (mask_be s) (gw_be s) (dns_be s) (ip_id s) (gw_mac s)
    (gw_mac_valid s) (from_dhcp s).
(** [memset(&g_net, 0, sizeof(g_net))]. *)
Definition net0 : net_state := MkNet false false false (replicate 6 0) 0 0 0 0 0 (replicate 6 0) false false.

(** * Configuration *)

(** [hw] is the address that [e1000_get_mac] finds, if there is a card. *)
Definition net_stack_init (s : net_state) (hw : option (list Z)) : net_state * Z :=
  if inited s then (s, 0)
  else
    let s := net0 <| from_dhcp := from_dhcp s |> <| inited := true |> <| ip_id := 1 |> <| ready := false |> in
    match hw with
    | Some m => (s <| mac := m |>, 0)
    | None => (s <| inited := false |>, -1)
    end.

Definition net_ensure_ipv4 (s : net_state) (hw : option (list Z)) : net_state * Z :=
  let '(s, r) := net_stack_init s hw in
  if negb (r =? 0) then (s, -1) else (s, if ready s then 0 else -1).

(** [started] is [g_net_rx_thread_started] and [thread] whether the thread can be created.
    On the way down the receive queue is flushed too, on the way up the slots for
    connection requests are allocated; both are outside [g_net]. *)
Definition net_set_if_up (s : net_state) (hw : option (list Z)) (up started thread : bool) : net_state * bool * Z :=
  let '(s, r) := net_stack_init s hw in
  if negb (r =? 0) then (s, started, -1)
  else if negb up then (s <| if_up := false |> <| ready := false |> <| gw_mac_valid := false |>, started, 0)
  else if negb started && negb thread then (s, started, -1)
  else (s <| if_up := true |> <| ready := nz (ip_be s) |>, true, 0).

Definition ESRCH : Z := 3.
Definition net_delete_default_route (s : net_state) (gateway : Z) : net_state * Z :=
  if (gw_be s =? 0) || (nz gateway && negb (gateway =? gw_be s)) then (s, - ESRCH)
  else (s <| gw_be := 0 |> <| gw_mac_valid := false |>, 0).

(** [SIOCADDRT] with a gateway and [SIOCSIFNETMASK] on [eth0]. *)
Definition siocaddrt (s : net_state) (gw : Z) : net_state :=
  let s := s <| gw_be := gw |> <| gw_mac_valid := false |> in
  let s := if dns_be s =? 0 then s <| dns_be := gw_be s |> else s in
  if nz (ip_be s) && if_up s then s <| ready := true |> else s.
Definition siocsifnetmask (s : net_state) (mask : Z) : net_state :=
  let s := s <| mask_be := mask |> in
  if nz (ip_be s) && if_up s then s <| ready := true |> else s.

(** * Sending *)

Definition ip_checksum16 (data : list Z) : Z :=
  u16 (Z.lnot (fold_carries 3 (add_words 0 data)) &u 0xFFFF).

Definition ip_be_to_bytes (ip : Z) : list Z :=
  [u8 (Z.shiftr ip 24); u8 (Z.shiftr ip 16); u8 (Z.shiftr ip 8); u8 ip].

Definition ip_same_subnet (a_be b_be mask : Z) : bool := (a_be &u mask) =? (b_be &u mask).

Definition ip_header (total id proto c src dst : Z) : list Z :=
  [0x45; 0] ++ st16 (be16 (u16 total)) ++ st16 (be16 id) ++ st16 (be16 0x0000) ++ [64; proto] ++
  [u8 (Z.shiftr c 8); u8 (c &u 0xFF)] ++ st32 (be32 src) ++ st32 (be32 dst).

(** The frame that goes to the driver. *)
Definition eth_ipv4_frame (s : net_state) (dst_mac : list Z) (dst proto : Z) (l4 : list Z) : list Z :=
  let total := IP_LEN + length l4 in
  let c := ip_checksum16 (ip_header total (ip_id s) proto 0 (ip_be s) dst) in
  dst_mac ++ mac s ++ st16 (be16 ETH_TYPE_IPV4) ++ ip_header total (ip_id s) proto c (ip_be s) dst ++ l4.

(** [out] is what was handed to [e1000_send_frame], which answers [r]. *)
Definition net_send_eth_ipv4 (s : net_state) (dst_mac : list Z) (dst proto : Z) (l4 : list Z) (r : Z) :
    net_state * list (list Z) * Z :=
  if negb (ready s) || (1500 <? length l4) then (s, [], -1)
  else
    let s := s <| ip_id := u16 (ip_id s + 1) |> in
    (s, [eth_ipv4_frame s dst_mac dst proto l4], if r <? 0 then -1 else 0).

Definition udp_datagram (src_port dst_port : Z) (payload : list Z) : list Z :=
  st16 (be16 src_port) ++ st16 (be16 dst_port) ++ st16 (be16 (u16 (UDP_LEN + length payload))) ++ st16 0 ++ payload.

(** * Tests on a frame *)

Definition ihl_of (f : list Z) : Z := (byte f ETH_LEN &u 0x0F) * 4.
Definition ethertype (f : list Z) : Z := be16 (ld16 f 12).
Definition ip_proto (f : list Z) : Z := byte f (ETH_LEN + 9).
Definition ip_src (f : list Z) : Z := be32 (ld32 f (ETH_LEN + 12)).
Definition ip_dst (f : list Z) : Z := be32 (ld32 f (ETH_LEN + 16)).

Definition net_frame_l4_tcp (f : list Z) : bool :=
  let n := Z.of_nat (length f) in
  if n <? ETH_LEN + IP_LEN + 20 then false
  else if negb (ethertype f =? ETH_TYPE_IPV4) then false
  else if negb (ip_proto f =? IPPROTO_TCP_LOCAL) || (ihl_of f <? IP_LEN) then false
  else ETH_LEN + ihl_of f + TCP_LEN <=? n.

(** The start common to the tests for UDP. *)
Definition is_udp (f : list Z) : bool :=
  let n := Z.of_nat (length f) in
  negb (n <? ETH_LEN + IP_LEN + UDP_LEN) && (ethertype f =? ETH_TYPE_IPV4) &&
  (ip_proto f =? IPPROTO_UDP_LOCAL) && negb (ihl_of f <? IP_LEN) && negb (n <? ETH_LEN + ihl_of f + UDP_LEN).
Definition udp_sport (f : list Z) : Z := be16 (ld16 f (ETH_LEN + ihl_of f)).
Definition udp_dport (f : list Z) : Z := be16 (ld16 f (ETH_LEN + ihl_of f + 2)).
Definition udp_ulen (f : list Z) : Z := be16 (ld16 f (ETH_LEN + ihl_of f + 4)).

Definition net_frame_udp_dns (f : list Z) : bool := is_udp f && ((udp_sport f =? 53) || (udp_dport f =? 53)).

Definition net_tcp_match_frame (f : list Z) (local_ip : Z) (c : net_tcp_conn_t) : bool :=
  let n := Z.of_nat (length f) in
  let th := ETH_LEN + ihl_of f in
  if negb (used c) || (n <? ETH_LEN + IP_LEN + 20) then false
  else if negb (ethertype f =? ETH_TYPE_IPV4) then false
  else if negb (ip_proto f =? IPPROTO_TCP_LOCAL) || (ihl_of f <? IP_LEN) then false
  else if nz (be16 (ld16 f (ETH_LEN + 6)) &u 0x1FFF) then false
  else if n <? ETH_LEN + ihl_of f + TCP_LEN then false
  else if negb (ip_dst f =? local_ip) || negb (ip_src f =? dst_ip_be c) then false
  else (be16 (ld16 f th) =? dst_port c) && (be16 (ld16 f (th + 2)) =? src_port c).

(** What the UDP tests look at in a socket; [dns_any] is whether its type lets any server
    answer from port 53. *)
Record udp_sock := MkUdpSock { local_port : Z; connected : bool; peer_ip_be : Z; peer_port : Z; dns_any : bool }.

Definition net_udp_match_sock_frame (f : list Z) (s : udp_sock) : bool :=
  is_udp f && (udp_dport f =? local_port s) &&
  (negb (connected s) || ((ip_src f =? peer_ip_be s) && (udp_sport f =? peer_port s)) ||
   ((peer_port s =? 53) && (udp_sport f =? 53) && dns_any s)) &&
  negb (udp_ulen f <? UDP_LEN).

Definition net_udp_match_raw_frame (f : list Z) (lport peer_ip peer_p : Z) : bool :=
  is_udp f && (udp_dport f =? lport) &&
  (((ip_src f =? peer_ip) && (udp_sport f =? peer_p)) || ((peer_p =? 53) && (udp_sport f =? 53))).

(** The datagram in a frame: its bytes that are there, and where it is from. *)
Definition net_udp_copy_payload_from_frame (f : list Z) (out_cap : Z) : list Z * option (Z * Z) :=
  if (out_cap =? 0) || negb (is_udp f) || (60 <? ihl_of f) then ([], None)
  else if udp_ulen f <? UDP_LEN then ([], None)
  else
    let at_ := ETH_LEN + ihl_of f + UDP_LEN in
    let payload_len := Z.min (udp_ulen f - UDP_LEN) (length f - at_) in
    (slice f at_ (Z.min payload_len out_cap), Some (ip_src f, udp_sport f)).

Definition net_udp_payload_len_from_frame (f : list Z) : Z :=
  if negb (is_udp f) || (60 <? ihl_of f) then 0
  else if udp_ulen f <? UDP_LEN then 0
  else
    let payload_len := Z.min (udp_ulen f - UDP_LEN) (length f - (ETH_LEN + ihl_of f + UDP_LEN)) in
    if 0x7fffffff <? payload_len then 0 else payload_len.

(** * ARP *)

Record arp_ent := MkArp { a_ip : Z; a_mac : list Z; a_valid : bool }.
Definition ARP_CACHE_SLOTS : nat := 64.

Fixpoint arp_find (ip : Z) (l : list arp_ent) : option nat :=
  match l with
  | [] => None
  | e :: l => if a_valid e && (a_ip e =? ip) then Some O else S <$> arp_find ip l
  end.
Fixpoint arp_free (l : list arp_ent) : option nat :=
  match l with
  | [] => None
  | e :: l => if negb (a_valid e) then Some O else S <$> arp_free l
  end.

Definition gateway_learn (s : net_state) (ip : Z) (m : list Z) : net_state :=
  if ip =? gw_be s then s <| gw_mac := m |> <| gw_mac_valid := true |> else s.

(** [ticks] chooses the slot to overwrite when none is free. *)
Definition net_arp_cache_learn (s : net_state) (l : list arp_ent) (ip : Z) (m : list Z) (ticks : Z) : net_state * list arp_ent :=
  if (ip =? 0) || (foldr Z.lor 0 m =? 0) then (s, l)
  else
    let i :=
      match arp_find ip l with
      | Some i => i
      | None => default (Z.to_nat (ticks `mod` ARP_CACHE_SLOTS)) (arp_free l)
      end in
    (gateway_learn s ip m, <[i := MkArp ip m true]> l).

Definition net_arp_cache_lookup (l : list arp_ent) (ip : Z) : option (list Z) :=
  if ip =? 0 then None
  else i ← arp_find ip l; e ← l !! i; Some (a_mac e).

(** Fields of the ARP packet of a frame. *)
Definition is_arp (f : list Z) : bool :=
  negb (length f <? ETH_LEN + ARP_LEN) && (ethertype f =? ETH_TYPE_ARP) && (be16 (ld16 f ETH_LEN) =? 1) &&
  (be16 (ld16 f (ETH_LEN + 2)) =? ETH_TYPE_IPV4) && (byte f (ETH_LEN + 4) =? 6) && (byte f (ETH_LEN + 5) =? 4).
Definition arp_oper (f : list Z) : Z := be16 (ld16 f (ETH_LEN + 6)).
Definition arp_ip (f : list Z) (i : Z) : Z :=
  Z.lor (Z.lor (Z.lor (Z.shiftl (byte f i) 24) (Z.shiftl (byte f (i + 1)) 16)) (Z.shiftl (byte f (i + 2)) 8)) (byte f (i + 3)).

Definition net_arp_observe_frame (s : net_state) (l : list arp_ent) (f : list Z) (ticks : Z) : net_state * list arp_ent :=
  if negb (is_arp f) then (s, l)
  else if negb (arp_oper f =? 1) && negb (arp_oper f =? 2) then (s, l)
  else net_arp_cache_learn s l (arp_ip f (ETH_LEN + 14)) (slice f (ETH_LEN + 8) 6) ticks.

Definition net_ipv4_configured (s : net_state) : bool := if_up s && nz (ip_be s).

Definition net_build_arp_reply (s : net_state) (f : list Z) : option (list Z) :=
  if negb (net_ipv4_configured s) then None
  else if negb (is_arp f) || negb (arp_oper f =? 1) then None
  else if negb (arp_ip f (ETH_LEN + 24) =? ip_be s) then None
  else
    Some (slice f 6 6 ++ mac s ++ st16 (be16 ETH_TYPE_ARP) ++
          st16 (be16 1) ++ st16 (be16 ETH_TYPE_IPV4) ++ [6; 4] ++ st16 (be16 2) ++
          mac s ++ ip_be_to_bytes (ip_be s) ++ slice f (ETH_LEN + 8) 6 ++ slice f (ETH_LEN + 14) 4 ++
          replicate 22 0).

Definition arp_request (s : net_state) (target : Z) : list Z :=
  replicate 6 0xFF ++ mac s ++ st16 (be16 ETH_TYPE_ARP) ++
  st16 (be16 1) ++ st16 (be16 ETH_TYPE_IPV4) ++ [6; 4] ++ st16 (be16 1) ++
  mac s ++ ip_be_to_bytes (ip_be s) ++ replicate 6 0 ++ ip_be_to_bytes target ++ replicate 22 0.
(** The frames sent. *)
Definition net_send_arp_request (s : net_state) (target r : Z) : list (list Z) * Z :=
  ([arp_request s target], if r <? 0 then -1 else 0).
Definition net_send_gratuitous_arp (s : net_state) : list (list Z) :=
  if negb (if_up s) || (ip_be s =? 0) then [] else [arp_request s (ip_be s)].

(** The frames sent come second. The copy of [g_net] in [g_net_shadow] is never read, and
    the resolver file is written only when [AUTO_CONFIGURE_DNS] is defined, which it is
    not. *)
Definition net_apply_ipv4 (s : net_state) (hw : option (list Z)) (ip mask gw dns : Z) (dhcp : bool) : net_state * list (list Z) * Z :=
  let '(s, r) := net_stack_init s hw in
  if negb (r =? 0) then (s, [], -1)
  else if ip =? 0 then (s <| ready := false |> <| ip_be := 0 |> <| gw_mac_valid := false |> <| from_dhcp := false |>, [], 0)
  else
    let s := s <| ip_be := ip |> <| mask_be := if nz mask then mask else 0xFFFFFF00 |> in
    let s := if nz gw then s <| gw_be := gw |> else s in
    let s :=
      if nz dns then s <| dns_be := dns |>
      else if (dns_be s =? 0) && nz (gw_be s) then s <| dns_be := gw_be s |> else s in
    let s := s <| gw_mac_valid := false |> <| ready := if_up s |> <| from_dhcp := dhcp |> in
    (s, net_send_gratuitous_arp s, 0).

(** [SIOCSIFADDR] on [eth0]. *)
Definition siocsifaddr (s : net_state) (hw : option (list Z)) (ip : Z) : net_state * list (list Z) * Z :=
  net_apply_ipv4 s hw ip (if nz (mask_be s) then mask_be s else 0xFFFFFF00) (gw_be s) (dns_be s) false.

(** A round of the loop of [net_resolve_mac] as it sees it: the time at its test, the
    cache, which other threads fill, and the time after the lookup. *)
Record arp_round := MkRound { at_test : Z; seen : list arp_ent; after : Z }.
Fixpoint resolve_wait (s : net_state) (ip timeout_ms start last_req : Z) (rounds : list arp_round) (out : list (list Z)) :
    option (list (list Z) * option (list Z)) :=
  match rounds with
  | [] => None
  | o :: rounds =>
      if u64 (at_test o - start) <? timeout_ms then
        match net_arp_cache_lookup (seen o) ip with
        | Some m => Some (out, Some m)
        | None =>
            if 1000 <=? u64 (after o - last_req) then
              resolve_wait s ip timeout_ms start (after o) rounds (out ++ [arp_request s ip])
            else resolve_wait s ip timeout_ms start last_req rounds out
        end
      else Some (out, net_arp_cache_lookup (seen o) ip)
  end.
(** What [net_resolve_mac] meets: the cache on entry, the answer of the driver to the first
    request, the time after it, and the rounds. *)
Record arp_env := MkArpEnv { cache : list arp_ent; driver : Z; start_ms : Z; rounds : list arp_round }.
(** [None] is that the loop still waits after the given rounds. *)
Definition net_resolve_mac (s : net_state) (e : arp_env) (ip timeout_ms : Z) : option (list (list Z) * option (list Z)) :=
  if ip =? 0 then Some ([], None)
  else
    match net_arp_cache_lookup (cache e) ip with
    | Some m => Some ([], Some m)
    | None =>
        if (ip =? gw_be s) && gw_mac_valid s then Some ([], Some (gw_mac s))
        else
          let '(out, r) := net_send_arp_request s ip (driver e) in
          if negb (r =? 0) then Some (out, None)
          else resolve_wait s ip timeout_ms (start_ms e) (start_ms e) (rounds e) out
    end.

(** * Routing *)

Definition next_hop (s : net_state) (dst : Z) : Z := if ip_same_subnet dst (ip_be s) (mask_be s) then dst else gw_be s.

(** The state after, the frames sent and the address found. *)
Definition net_resolve_next_hop_mac (s : net_state) (hw : option (list Z)) (e : arp_env) (dst : Z) :
    option (net_state * list (list Z) * option (list Z)) :=
  let '(s, r) := net_ensure_ipv4 s hw in
  if negb (r =? 0) then Some (s, [], None)
  else
    let nh := next_hop s dst in
    if (nh =? gw_be s) && gw_mac_valid s then Some (s, [], Some (gw_mac s))
    else
      '(out, m) ← net_resolve_mac s e nh 15000;
      match m with
      | None => Some (s, out, None)
      | Some m => Some (if nh =? gw_be s then s <| gw_mac := m |> <| gw_mac_valid := true |> else s, out, Some m)
      end.

(** [ok] is whether [kmalloc] has memory, [r] the answer of the driver to the frame. *)
Definition net_send_udp_datagram (s : net_state) (hw : option (list Z)) (e : arp_env) (ok : bool)
    (dst src_port dst_port : Z) (payload : list Z) (r : Z) : option (net_state * list (list Z) * Z) :=
  if 1472 <? length payload then Some (s, [], -1)
  else
    let '(s, up) := net_ensure_ipv4 s hw in
    if negb (up =? 0) then Some (s, [], -1)
    else
      '(s, out, m) ← net_resolve_next_hop_mac s hw e dst;
      match m with
      | None => Some (s, out, -1)
      | Some dst_mac =>
          if negb ok then Some (s, out, -1)
          else
            let '(s, out', r) := net_send_eth_ipv4 s dst_mac dst IPPROTO_UDP_LOCAL (udp_datagram src_port dst_port payload) r in
            Some (s, out ++ out', r)
      end.

(** [peer] is the address staged in the connection that sends, [xmit] the one kept for
    all of them. *)
Definition net_send_l4_ipv4_cb (s : net_state) (hw : option (list Z)) (e : arp_env) (peer xmit : option (list Z))
    (dst proto : Z) (l4 : list Z) (r : Z) : option (net_state * list (list Z) * Z) :=
  '(s, out, m) ←
    match peer, xmit with
    | Some m, _ | None, Some m => Some (s, [], Some m)
    | None, None => net_resolve_next_hop_mac s hw e dst
    end;
  match m with
  | None => Some (s, out, -1)
  | Some dst_mac => let '(s, out', r) := net_send_eth_ipv4 s dst_mac dst proto l4 r in Some (s, out ++ out', r)
  end.

(** * Pings *)

(** The message of an echo reply to the request [icmp]. *)
Definition echo_reply (icmp : list Z) : list Z :=
  let reply := <[3%nat := 0]> (<[2%nat := 0]> (<[0%nat := 0]> icmp)) in
  let csum := ip_checksum16 reply in
  <[3%nat := u8 csum]> (<[2%nat := u8 (Z.shiftr csum 8)]> reply).

(** Whether the frame was a request to us, and the frames sent; [ok] is whether [kmalloc]
    has memory and [r] the answer of the driver. *)
Definition net_reply_icmp_echo_if_needed (s : net_state) (f : list Z) (ok : bool) (r : Z) : net_state * list (list Z) * bool :=
  let n := Z.of_nat (length f) in
  let ihl := ihl_of f in
  let tot := be16 (ld16 f (ETH_LEN + 2)) in
  let no := (s, [], false) in
  if negb (ready s) || (n <? ETH_LEN + IP_LEN + 8) then no
  else if negb (ethertype f =? ETH_TYPE_IPV4) then no
  else if ihl <? IP_LEN then no
  else if negb (ip_proto f =? IPPROTO_ICMP_LOCAL) then no
  else if negb (ip_dst f =? ip_be s) then no
  else if tot <? ihl + 8 then no
  else if n <? ETH_LEN + tot then no
  else
    let at_ := ETH_LEN + ihl in
    if negb (byte f at_ =? 8) || negb (byte f (at_ + 1) =? 0) then no
    else if negb ok then (s, [], true)
    else
      let reply := echo_reply (slice f at_ (tot - ihl)) in
      let '(s, out, _) := net_send_eth_ipv4 s (slice f 6 6) (ip_src f) IPPROTO_ICMP_LOCAL reply r in
      (s, out, true).

(** * Local ports *)

Fixpoint alloc_port (fuel : nat) (seq : Z) (ports : list Z) : Z * Z :=
  let seq := u32 (seq + 1) in
  let p := u16 (32768 + seq `mod` 32768) in
  match fuel with
  | O => (seq, p)
  | S k => if bool_decide (p ∈ ports) then alloc_port k seq ports else (seq, p)
  end.
(** [ports] are the local ports of the live sockets, which do not change meanwhile. *)
Definition net_alloc_ephemeral_port (seq : Z) (ports : list Z) : Z * Z := alloc_port (Z.to_nat 32768) seq ports.

End Net.
