(* ===== verification/NetProps.v ===== *)
(** What the IPv4 layer promises: frames it builds are read back by the tests it applies
    to frames, checksums verify, ARP finds the owner of an address, and the state of the
    interface is consistent. *)
From S2P Require Import Prelude NetBytes Tcp Net.

Import Tcp Net.

(** * The layout of an outgoing frame *)

Definition mac_addr (m : list Z) : Prop := length m = 6%nat ∧ bytes m.
Record net_ok (s : net_state) : Prop := {
  ok_mac : mac_addr (mac s);
  ok_ip : is_u32 (ip_be s);
  ok_id : is_u16 (ip_id s);
  ok_gw : mac_addr (gw_mac s)
}.

Lemma mac_inv m : mac_addr m → ∃ a b c d e f, m = [a; b; c; d; e; f] ∧
  is_u8 a ∧ is_u8 b ∧ is_u8 c ∧ is_u8 d ∧ is_u8 e ∧ is_u8 f.
Proof.
  intros [L B]. do 6 (destruct m as [|? m]; [done|]). destruct m; [|done].
  repeat match goal with H : Forall _ (_ :: _) |- _ => inversion H; subst; clear H end. naive_solver.
Qed.

Lemma ip_checksum16_complement l : bytes l → length l < 2 ^ 15 → ip_checksum16 l = ones_complement (word_sum l).
Proof. apply complement_words. Qed.

Lemma bytes4_read v : is_u32 v →
  be32 (v / 2 ^ 24 + 2 ^ 8 * ((v / 2 ^ 16) `mod` 2 ^ 8) + 2 ^ 16 * ((v / 2 ^ 8) `mod` 2 ^ 8 + 2 ^ 8 * (v `mod` 2 ^ 8))) = v.
Proof.
  intros H. pose proof (bytes4_ok v H) as B. unfold bytes4 in B.
  repeat match goal with H : Forall _ (_ :: _) |- _ => inversion H; subst; clear H end.
  rewrite be32_ld32 by done. clear -H. Z.div_mod_to_equations; lia.
Qed.

Lemma ip_header_bytes total id proto c src dst : is_u16 total → is_u16 id → is_u16 c → is_u32 src → is_u32 dst →
  ip_header total id proto c src dst =
    [0x45; 0; total / 2 ^ 8; total `mod` 2 ^ 8; id / 2 ^ 8; id `mod` 2 ^ 8; 0; 0; 64; proto] ++
    [c / 2 ^ 8; c `mod` 2 ^ 8] ++ bytes4 src ++ bytes4 dst.
Proof.
  intros Ht Hi Hc Hs Hd. unfold ip_header. rewrite (u16_small total) by lia. rewrite !st16_be16, !st32_be32 by lia.
  replace (u8 (Z.shiftr c 8)) with (c / 2 ^ 8).
  - replace (u8 (c &u 0xFF)) with (c `mod` 2 ^ 8); [done|]. change (c &u 0xFF) with (Z.land c (Z.ones 8)).
    rewrite Z.land_ones by lia. unfold u8. by rewrite Z.mod_mod.
  - rewrite u8_shiftr by lia. rewrite Z.mod_small; [done|]. Z.div_mod_to_equations; lia.
Qed.

(** What a receiver reads in a frame that carries [l4]. *)
Record carries_l4 (f : list Z) (src dst proto : Z) (l4 : list Z) : Prop := {
  c_len : length f = (34 + length l4)%nat;
  c_type : ethertype f = ETH_TYPE_IPV4;
  c_ihl : ihl_of f = 20;
  c_proto : ip_proto f = proto;
  c_src : ip_src f = src;
  c_dst : ip_dst f = dst;
  c_total : be16 (ld16 f 16) = 20 + length l4;
  c_frag : be16 (ld16 f 20) = 0;
  c_l4 : drop 34 f = l4;
  c_csum : fold_carries 3 (word_sum (slice f 14 20)) = 0xFFFF
}.

Lemma header_verifies total id proto src dst : is_u16 total → is_u16 id → is_u8 proto → is_u32 src → is_u32 dst →
  let c := ip_checksum16 (ip_header total id proto 0 src dst) in
  is_u16 c ∧ fold_carries 3 (word_sum (ip_header total id proto c src dst)) = 0xFFFF.
Proof.
  intros Ht Hi Hp Hs Hd. set (l1 := [0x45; 0; total / 2 ^ 8; total `mod` 2 ^ 8; id / 2 ^ 8; id `mod` 2 ^ 8; 0; 0; 64; proto]).
  assert (B1 : bytes l1). { destruct (u16_bytes total Ht) as (?&?&_), (u16_bytes id Hi) as (?&?&_). repeat constructor; cbn; lia. }
  assert (B2 : bytes (bytes4 src ++ bytes4 dst)) by (apply Forall_app_2; by apply bytes4_ok).
  rewrite ip_header_bytes by lia. cbn zeta. fold l1. change [0 / 2 ^ 8; 0 `mod` 2 ^ 8] with [0; 0].
  assert (bytes (l1 ++ [0; 0] ++ bytes4 src ++ bytes4 dst)).
  { apply Forall_app_2; [done|]. apply (Forall_app_2 _ [0; 0]); [repeat constructor; lia|done]. }
  rewrite ip_checksum16_complement by (done || (cbn; lia)).
  destruct (checksum_verifies l1 (bytes4 src ++ bytes4 dst)) as [C1 C2]; [done..|by exists 5%nat|done|].
  split; [done|]. by rewrite ip_header_bytes by lia.
Qed.

Lemma eth_frame_carries s m dst proto l4 : net_ok s → mac_addr m → is_u32 dst → is_u8 proto → length l4 ≤ 1500 →
  carries_l4 (eth_ipv4_frame s m dst proto l4) (ip_be s) dst proto l4.
Proof.
  intros [Hm Hip Hid _] Hd Hdst Hp Hl. destruct (mac_inv _ Hm) as (a1&a2&a3&a4&a5&a6&E&_), (mac_inv _ Hd) as (b1&b2&b3&b4&b5&b6&->&_).
  destruct (header_verifies (20 + length l4) (ip_id s) proto (ip_be s) dst) as [C1 C2]; [lia..|].
  unfold eth_ipv4_frame. change IP_LEN with 20. rewrite E. set (c := ip_checksum16 _) in *.
  rewrite ip_header_bytes in C2 |- * by lia. change (st16 (be16 ETH_TYPE_IPV4)) with [8; 0].
  destruct (u16_bytes (20 + length l4)) as (T1 & T2 & T3); [lia|].
  split; try done; [by apply bytes4_read..|]. etransitivity; [apply (be16_ld16 _ _ T1 T2)|done].
Qed.

Lemma send_carries s m dst proto l4 r s' out e : net_ok s → ready s = true → mac_addr m → is_u32 dst → is_u8 proto →
  length l4 ≤ 1500 → net_send_eth_ipv4 s m dst proto l4 r = (s', out, e) →
  ∃ f, out = [f] ∧ carries_l4 f (ip_be s) dst proto l4 ∧ slice f 0 6 = m.
Proof.
  intros Hs Hr Hm Hd Hp Hl. unfold net_send_eth_ipv4. rewrite Hr. zcase; [lia|]. cbn [orb negb]. intros [= <- <- <-].
  eexists. split; [done|]. split; [|destruct (mac_inv _ Hm) as (?&?&?&?&?&?&->&_); done].
  set (s' := s <| ip_id := u16 (ip_id s + 1) |>). change (ip_be s) with (ip_be s'). apply eth_frame_carries; try done.
  destruct Hs. split; try done. apply u16_range.
Qed.

(** * Datagrams *)


Lemma udp_fields f src dst sp dp p : is_u16 sp → is_u16 dp → length p ≤ 1472 →
  carries_l4 f src dst IPPROTO_UDP_LOCAL (udp_datagram sp dp p) →
  is_udp f = true ∧ udp_sport f = sp ∧ udp_dport f = dp ∧ udp_ulen f = 8 + length p ∧ slice f 42 (length p) = p ∧
  length f = (42 + length p)%nat.
Proof.
  intros Hs Hd Hl C. unfold is_udp, udp_sport, udp_dport, udp_ulen. rewrite (c_ihl _ _ _ _ _ C), (c_type _ _ _ _ _ C), (c_proto _ _ _ _ _ C).
  pose proof (c_l4 _ _ _ _ _ C) as E. assert (Lf : length f = (42 + length p)%nat) by (rewrite (c_len _ _ _ _ _ C); cbn; lia).
  unfold udp_datagram in E. change UDP_LEN with 8 in E. rewrite (u16_small (8 + _)), !st16_be16 in E by lia.
  destruct (u16_bytes sp Hs) as (S1 & S2 & S3), (u16_bytes dp Hd) as (D1 & D2 & D3), (u16_bytes (8 + length p)) as (U1 & U2 & U3); [lia|].
  change (ETH_LEN + 20) with 34. rewrite Lf.
  assert (W : ∀ i, 0 ≤ i → ld16 f (34 + i) = ld16 (drop 34 f) i).
  { intros i Hi. unfold ld16. rewrite <- Z.add_assoc, !byte_drop by lia. done. }
  change (ld16 f 34) with (ld16 f (34 + 0)). rewrite !W, E by lia. repeat split.
  - unfold ETH_LEN, IP_LEN, UDP_LEN. rewrite !(proj2 (Z.ltb_ge (Z.of_nat _) _)) by lia. done.
  - etransitivity; [apply (be16_ld16 _ _ S1 S2)|done].
  - etransitivity; [apply (be16_ld16 _ _ D1 D2)|done].
  - etransitivity; [apply (be16_ld16 _ _ U1 U2)|done].
  - unfold slice. replace (Z.to_nat 42) with (34 + 8)%nat by lia. rewrite <- drop_drop, E. cbn [drop app]. rewrite Nat2Z.id. apply take_ge. lia.
Qed.


(** * The next hop *)

Definition cache_ok (l : list arp_ent) : Prop := Forall (λ x, mac_addr (a_mac x)) l.
Record env_ok (e : arp_env) : Prop := {
  ok_cache : cache_ok (cache e);
  ok_rounds : Forall (λ o, cache_ok (seen o)) (rounds e)
}.

Lemma lookup_mac l ip m : cache_ok l → net_arp_cache_lookup l ip = Some m → mac_addr m.
Proof.
  intros H. unfold net_arp_cache_lookup. case_match; [done|]. intros (i & _ & (x & E & [= <-])%bind_Some)%bind_Some.
  by apply (Forall_lookup_1 _ _ _ _ H E).
Qed.
Lemma resolve_wait_mac s ip t st last rs out out' m : Forall (λ o, cache_ok (seen o)) rs →
  resolve_wait s ip t st last rs out = Some (out', Some m) → mac_addr m.
Proof.
  intros H. revert last out. induction H as [|o rs Ho H IH]; intros last out; cbn; [done|].
  repeat case_match; intros; simplify_eq; eauto using lookup_mac.
Qed.
Lemma resolve_mac_mac s e ip t out m : net_ok s → env_ok e → net_resolve_mac s e ip t = Some (out, Some m) → mac_addr m.
Proof.
  intros Hs [H1 H2]. unfold net_resolve_mac. repeat case_match; intros; simplify_eq; eauto using lookup_mac, resolve_wait_mac, ok_gw.
Qed.

Lemma ensure_ok s hw s' : net_ensure_ipv4 s hw = (s', 0) → s' = s ∧ inited s = true ∧ ready s = true.
Proof.
  unfold net_ensure_ipv4, net_stack_init. destruct (inited s) eqn:Ei; [|by destruct hw].
  cbn. intros [= <- E]. by destruct (ready s).
Qed.
Lemma next_hop_mac s hw e dst s' out m : net_ok s → env_ok e → net_resolve_next_hop_mac s hw e dst = Some (s', out, Some m) →
  ready s = true ∧ net_ok s' ∧ ip_be s' = ip_be s ∧ ready s' = ready s ∧ mac_addr m.
Proof.
  intros Hs He. unfold net_resolve_next_hop_mac. destruct (net_ensure_ipv4 s hw) as [s1 r] eqn:E1. zcase; [|done].
  subst r. apply ensure_ok in E1 as (-> & _ & Hr). cbn [negb]. case_match.
  { intros [= <- <- <-]. split_and!; eauto using ok_gw. }
  intros ([out1 [m1|]] & E2 & [= <- <- <-])%bind_Some. pose proof (resolve_mac_mac _ _ _ _ _ _ Hs He E2).
  destruct Hs. by case_match; split_and!.
Qed.

(** C34: A datagram arrives as it was sent: the last frame that a successful
    [net_send_udp_datagram] hands to the card (after the ARP requests it needed) is taken by
    [net_udp_match_sock_frame] for every socket on the destination port that is open to the
    sender, [net_udp_copy_payload_from_frame] gives the payload and the address and port of
    the sender, and the checksum of its IP header verifies. *)
Theorem udp_datagram_roundtrip s hw e ok dst sp dp p s' out r sock :
  net_ok s → env_ok e → is_u32 dst → is_u16 sp → is_u16 dp →
  net_send_udp_datagram s hw e ok dst sp dp p r = Some (s', out, 0) →
  local_port sock = dp → (connected sock = true → peer_ip_be sock = ip_be s ∧ peer_port sock = sp) →
  ∃ arp f, out = arp ++ [f] ∧ net_udp_match_sock_frame f sock = true ∧
    net_udp_payload_len_from_frame f = length p ∧
    (∀ cap, length p ≤ cap → cap ≠ 0 → net_udp_copy_payload_from_frame f cap = (p, Some (ip_be s, sp))) ∧
    fold_carries 3 (word_sum (slice f 14 20)) = 0xFFFF.
Proof.
  intros Hs He Hd Hsp Hdp. unfold net_send_udp_datagram. zcase; [done|]. destruct (net_ensure_ipv4 s hw) as [s1 r1] eqn:E1.
  zcase; [|done]. subst r1. apply ensure_ok in E1 as (-> & _ & _). cbn [negb].
  intros ([[s2 out2] [m|]] & E2 & E3)%bind_Some Hlp Hpeer; [|done]. destruct ok; [|done].
  destruct (next_hop_mac _ _ _ _ _ _ _ Hs He E2) as (Hr & Hs2 & Hip & Hr2 & Hm). cbn [negb] in E3.
  destruct (net_send_eth_ipv4 _ _ _ _ _ _) as [[s3 out3] r3] eqn:E4. injection E3 as <- <- ->.
  assert (length (udp_datagram sp dp p) ≤ 1500) by (unfold udp_datagram; rewrite !length_app; cbn; lia).
  eapply send_carries in E4 as (f & -> & C & _); try done; [|congruence]. exists out2, f. split; [done|].
  destruct (udp_fields f _ _ sp dp p Hsp Hdp ltac:(lia) C) as (U1 & U2 & U3 & U4 & U5 & U6). rewrite Hip in C. destruct C.
  unfold net_udp_match_sock_frame, net_udp_payload_len_from_frame, net_udp_copy_payload_from_frame.
  rewrite U1, U2, U3, U4, c_src0, c_ihl0, U6, Hlp, Z.eqb_refl. change UDP_LEN with 8. change (ETH_LEN + 20 + 8) with 42.
  rewrite !(proj2 (Z.ltb_ge (8 + _) 8)), !(proj2 (Z.ltb_ge 60 20)) by lia. cbn [andb negb orb]. split_and!.
  - destruct (connected sock) eqn:Ec; [|done]. destruct (Hpeer eq_refl) as [-> ->]. by rewrite !Z.eqb_refl.
  - zcase; lia.
  - intros cap Hc Hc0. rewrite (proj2 (Z.eqb_neq cap 0)) by done. cbn [orb]. f_equal. transitivity (slice f 42 (length p)); [f_equal; lia|done].
  - done.
Qed.

(** * Pings *)

Lemma be32_range v : is_u32 v → is_u32 (be32 v).
Proof. intros H. rewrite be32_split by done. Z.div_mod_to_equations; lia. Qed.
Lemma ld32_range f i : bytes f → is_u32 (ld32 f i).
Proof.
  intros B. unfold ld32, ld16. pose proof (byte_range f i B). pose proof (byte_range f (i + 1) B).
  pose proof (byte_range f (i + 2) B). pose proof (byte_range f (i + 2 + 1) B). lia.
Qed.
Lemma slice_mac f i : bytes f → 0 ≤ i → i + 6 ≤ length f → mac_addr (slice f i 6).
Proof. intros. split; [|by apply bytes_slice]. apply Nat2Z.inj. rewrite slice_length by lia. done. Qed.

Lemma echo_reply_ok req : bytes req → 8 ≤ length req < 2 ^ 14 → byte req 1 = 0 →
  let rep := echo_reply req in
  length rep = length req ∧ byte rep 0 = 0 ∧ byte rep 1 = 0 ∧ drop 4 rep = drop 4 req ∧
  fold_carries 3 (word_sum rep) = 0xFFFF.
Proof.
  intros B L H1. destruct req as [|a [|b [|a' [|b' req]]]]; cbn in L; try lia. change (b = 0) in H1. subst.
  repeat match goal with H : Forall _ (_ :: _) |- _ => inversion H; subst; clear H end.
  unfold echo_reply. cbn [insert list_insert]. cbn zeta. cbn [length] in L.
  destruct (checksum_verifies [0; 0] req) as [C1 C2]; [repeat constructor; cbn; lia|done|by exists 1%nat|cbn; lia|].
  cbn [app] in C1, C2. rewrite ip_checksum16_complement by (first [cbn [length]; lia|repeat constructor; cbn; (lia || done)]).
  set (c := ones_complement _) in *. split_and!; try done.
  rewrite u8_shiftr by lia. rewrite (Z.mod_small (c / _)); [done|]. Z.div_mod_to_equations; lia.
Qed.

(** C36: A ping is answered: for every frame that [net_reply_icmp_echo_if_needed] takes, with
    memory and a message that fits a frame, one frame goes out, to the station and the
    address the request came from; its IP and ICMP checksums verify, and it is an echo
    reply of the same length with the identifier, sequence number and data of the request. *)
Theorem icmp_echo_reply s f r s' out :
  net_ok s → bytes f → length f ≤ 1514 → net_reply_icmp_echo_if_needed s f true r = (s', out, true) →
  let req := slice f (ETH_LEN + ihl_of f) (be16 (ld16 f (ETH_LEN + 2)) - ihl_of f) in
  ∃ g rep, out = [g] ∧ carries_l4 g (ip_be s) (ip_src f) IPPROTO_ICMP_LOCAL rep ∧ slice g 0 6 = slice f 6 6 ∧
    length rep = length req ∧ byte req 0 = 8 ∧ byte rep 0 = 0 ∧ byte rep 1 = 0 ∧ drop 4 rep = drop 4 req ∧
    fold_carries 3 (word_sum rep) = 0xFFFF.
Proof.
  intros Hs Bf Lf. unfold net_reply_icmp_echo_if_needed. set (ihl := ihl_of f). set (tot := be16 _).
  destruct (ready s) eqn:Hr; [|done]. cbn [negb orb]. repeat (zcase; cbn [negb orb]; try done).
  change ETH_LEN with 14 in *. change IP_LEN with 20 in *. destruct (net_send_eth_ipv4 _ _ _ _ _ _) as [[s1 out1] err] eqn:E.
  intros [= <- <-]. set (req := slice f (14 + ihl) (tot - ihl)) in *.
  assert (Lq : Z.of_nat (length req) = tot - ihl) by (apply slice_length; lia).
  assert (Hb : ∀ i, 0 ≤ i < tot - ihl → byte req i = byte f (14 + ihl + i)).
  { intros i Hi. rewrite byte_drop by lia. unfold req, slice, byte. rewrite lookup_take_lt by lia. done. }
  destruct (echo_reply_ok req) as (R1 & R2 & R3 & R4 & R5); [by apply bytes_slice|lia|rewrite Hb by lia; done|].
  eapply send_carries in E as (g & -> & C & M); try done;
    [|apply slice_mac; [done|lia..]|by apply be32_range, ld32_range|lia].
  exists g, (echo_reply req). split_and!; try done. rewrite Hb, Z.add_0_r by lia. done.
Qed.

(** * ARP *)

Lemma arp_find_spec ip l : match arp_find ip l with
  | Some i => ∃ x, l !! i = Some x ∧ a_valid x = true ∧ a_ip x = ip ∧
                   ∀ j y, (j < i)%nat → l !! j = Some y → a_valid y = true → a_ip y ≠ ip
  | None => ∀ j y, l !! j = Some y → a_valid y = true → a_ip y ≠ ip
  end.
Proof.
  induction l as [|x l IH]; cbn; [done|]. destruct (a_valid x) eqn:Ev; cbn [andb]; [zcase|].
  - exists x. split_and!; try done. intros; lia.
  - destruct (arp_find ip l) as [i|]; cbn.
    + destruct IH as (y & ? & ? & ? & IH). exists y. split_and!; try done. intros [|j] z Hj; [naive_solver|]. intros. eapply IH; [|done..]. lia.
    + intros [|j] z; naive_solver.
  - destruct (arp_find ip l) as [i|]; cbn.
    + destruct IH as (y & ? & ? & ? & IH). exists y. split_and!; try done. intros [|j] z Hj; [intros [= <-]; congruence|]. intros. eapply IH; [|done..]. lia.
    + intros [|j] z; [intros [= <-]; congruence|naive_solver].
Qed.
Lemma arp_free_spec l : match arp_free l with
  | Some i => ∃ x, l !! i = Some x ∧ a_valid x = false
  | None => ∀ j y, l !! j = Some y → a_valid y = true
  end.
Proof.
  induction l as [|x l IH]; cbn; [done|]. destruct (a_valid x) eqn:Ev; cbn [negb]; [|by exists x].
  destruct (arp_free l); cbn; [done|]. intros [|j] y; naive_solver.
Qed.
(** The answer of a lookup is the address of the first valid entry. *)
Lemma arp_find_unique ip l i x : l !! i = Some x → a_valid x = true → a_ip x = ip →
  (∀ j y, (j < i)%nat → l !! j = Some y → a_valid y = true → a_ip y ≠ ip) → arp_find ip l = Some i.
Proof.
  intros Hi Hv Hip Hlt. pose proof (arp_find_spec ip l) as H. destruct (arp_find ip l) as [k|]; [|naive_solver].
  destruct H as (y & Hk & Hvy & Hy & Hlt'). f_equal. destruct (lt_eq_lt_dec k i) as [[?|?]|?]; [exfalso; naive_solver|done|exfalso; naive_solver].
Qed.

(** The slot that [net_arp_cache_learn] writes, and what it holds then. *)
Lemma learn_slot l ip ticks : length l = ARP_CACHE_SLOTS → 0 ≤ ticks →
  let i := match arp_find ip l with Some i => i | None => default (Z.to_nat (ticks `mod` ARP_CACHE_SLOTS)) (arp_free l) end in
  (i < length l)%nat ∧ (∀ j y, (j < i)%nat → l !! j = Some y → a_valid y = true → a_ip y ≠ ip) ∧
  ((∃ x, l !! i = Some x ∧ (a_valid x = true → a_ip x = ip)) ∨ arp_find ip l = None ∧ ∀ j y, l !! j = Some y → a_valid y = true).
Proof.
  intros L Ht. cbn zeta. pose proof (arp_find_spec ip l) as F. pose proof (arp_free_spec l) as G. destruct (arp_find ip l) as [i|].
  - destruct F as (x & E & Hv & Hx & Hlt). split_and!; [by eapply lookup_lt_Some|done|eauto].
  - destruct (arp_free l) as [i|]; cbn.
    + destruct G as (x & E & Hv). split_and!; [by eapply lookup_lt_Some|eauto|]. left. exists x. split; [done|congruence].
    + split_and!; [|eauto|eauto]. rewrite L. pose proof (Z.mod_pos_bound ticks ARP_CACHE_SLOTS). unfold ARP_CACHE_SLOTS in *. lia.
Qed.

(** No address twice. *)
Definition arp_uniq (l : list arp_ent) : Prop := ∀ i j x y, l !! i = Some x → l !! j = Some y →
  a_valid x = true → a_valid y = true → a_ip x = a_ip y → i = j.
Definition maps (l : list arp_ent) (ip : Z) (m : list Z) : Prop :=
  ∃ i x, l !! i = Some x ∧ a_valid x = true ∧ a_ip x = ip ∧ a_mac x = m.

Lemma lookup_maps l ip m : ip ≠ 0 → arp_uniq l → net_arp_cache_lookup l ip = Some m ↔ maps l ip m.
Proof.
  intros H0 Hu. unfold net_arp_cache_lookup. rewrite (proj2 (Z.eqb_neq _ _)) by done. pose proof (arp_find_spec ip l) as F.
  destruct (arp_find ip l) as [i|]; cbn.
  - destruct F as (x & E & Hv & Hx & _). rewrite E. cbn. split; [intros [= <-]; by exists i, x|].
    intros (j & y & Ey & Hvy & Hy & <-). assert (i = j) as -> by (eapply Hu; eauto; congruence). congruence.
  - split; [done|]. intros (j & y & Ey & Hvy & Hy & _). by destruct (F j y Ey Hvy).
Qed.
Lemma arp_learn_maps s l ip m ticks s' l' : length l = ARP_CACHE_SLOTS → 0 ≤ ticks → ip ≠ 0 → foldr Z.lor 0 m ≠ 0 → arp_uniq l →
  net_arp_cache_learn s l ip m ticks = (s', l') →
  length l' = ARP_CACHE_SLOTS ∧ arp_uniq l' ∧
  ∃ gone, (∀ ip' m', maps l' ip' m' ↔ (ip' = ip ∧ m' = m) ∨ (ip' ≠ ip ∧ gone ≠ Some ip' ∧ maps l ip' m')) ∧
    (∀ g, gone = Some g → Forall (λ x, a_valid x = true) l ∧ ∀ m', ¬ maps l ip m').
Proof.
  intros L Ht H0 Hm Hu. unfold net_arp_cache_learn. rewrite !(proj2 (Z.eqb_neq _ _)) by done. cbn [orb].
  pose proof (learn_slot l ip ticks L Ht) as (Li & Hlt & Hold). pose proof (arp_find_spec ip l) as F. set (i := match arp_find ip l with Some _ => _ | None => _ end) in *.
  intros [= <- <-]. rewrite length_insert. split; [done|]. destruct (lookup_lt_is_Some_2 l i Li) as [o Eo].
  assert (Hothers : ∀ j y, j ≠ i → l !! j = Some y → a_valid y = true → a_ip y ≠ ip).
  { intros j y Hj Ey Hvy Hy. destruct (arp_find ip l) as [k|] eqn:Ek; [|by eapply F]. destruct F as (x & Ex & Hvx & Hx & _).
    apply Hj. trans k; [|done]. apply (Hu j k y x); congruence. }
  clearbody i. split.
  { intros j k x y. rewrite !list_lookup_insert_Some. intros [(<- & <- & _)|[Hj Ex]] [(<- & <- & _)|[Hk Ey]] Hvx Hvy Hxy; cbn in *; eauto; exfalso; eapply Hothers; eauto; congruence. }
  exists (if a_valid o && negb (a_ip o =? ip) then Some (a_ip o) else None). split.
  - intros ip' m'. split.
    + intros (j & y & Ey & Hvy & Hy & Hm'). apply list_lookup_insert_Some in Ey as [(<- & <- & _)|[Hj Ey]]; [left; done|right].
      assert (ip' ≠ ip) by (intros ->; eapply (Hothers j y); eauto). split_and!; [done| |by exists j, y].
      destruct (a_valid o) eqn:Hvo; [|done]. destruct (negb _); [|done]. intros [= Ho]. apply Hj. apply (Hu i j o y); congruence.
    + intros [[-> ->]|(Hip & Hg & j & y & Ey & Hvy & Hy & Hm')].
      * exists i, (MkArp ip m true). rewrite list_lookup_insert_eq by done. done.
      * exists j, y. assert (i ≠ j); [|rewrite list_lookup_insert_ne by done; done].
        intros <-. apply Hg. assert (o = y) as -> by congruence. rewrite Hvy, Hy. zcase; [done|done].
  - intros g Hg. destruct (a_valid o) eqn:Hvo; [|done]. cbn in Hg. revert Hg. zcase; [done|]. cbn. intros [= <-].
    destruct Hold as [(x & Ex & Hx)|[Hn Hall]]; [exfalso; assert (x = o) as -> by congruence; naive_solver|].
    split; [by apply Forall_lookup|]. intros m' (j & y & Ey & Hvy & Hy & _). rewrite Hn in F. by eapply F.
Qed.

Lemma ip_bytes_read v : is_u32 v →
  Z.lor (Z.lor (Z.lor (Z.shiftl (u8 (Z.shiftr v 24)) 24) (Z.shiftl (u8 (Z.shiftr v 16)) 16)) (Z.shiftl (u8 (Z.shiftr v 8)) 8)) (u8 v) = v.
Proof.
  intros H. rewrite !u8_shiftr by lia. unfold u8. set (a := (v / 2 ^ 24) `mod` 2 ^ 8). set (b := (v / 2 ^ 16) `mod` 2 ^ 8).
  set (c := (v / 2 ^ 8) `mod` 2 ^ 8). set (d := v `mod` 2 ^ 8).
  assert (E : v = 2 ^ 24 * a + 2 ^ 16 * b + 2 ^ 8 * c + d) by (unfold a, b, c, d; Z.div_mod_to_equations; lia).
  assert (is_u8 a ∧ is_u8 b ∧ is_u8 c ∧ is_u8 d) as (Ha & Hb & Hc & Hd) by (repeat split; apply Z.mod_pos_bound; lia).
  rewrite E. clear E. clearbody a b c d.
  rewrite (lor_low a), (Z.shiftl_mul_pow2 b) by (rewrite ?Z.shiftl_mul_pow2; lia).
  replace (a * 2 ^ 24 + b * 2 ^ 16) with (Z.shiftl (a * 2 ^ 8 + b) 16) by (rewrite Z.shiftl_mul_pow2; lia).
  rewrite (lor_low _ (Z.shiftl c 8)), (Z.shiftl_mul_pow2 c) by (rewrite ?Z.shiftl_mul_pow2; lia).
  replace ((a * 2 ^ 8 + b) * 2 ^ 16 + c * 2 ^ 8) with (Z.shiftl ((a * 2 ^ 8 + b) * 2 ^ 8 + c) 8) by (rewrite Z.shiftl_mul_pow2; lia).
  rewrite lor_low by lia. lia.
Qed.

(** An ARP packet in a frame. *)
Record arp_packet (f : list Z) (oper spa tpa : Z) (sha : list Z) : Prop := {
  p_arp : is_arp f = true;
  p_oper : arp_oper f = oper;
  p_spa : arp_ip f (ETH_LEN + 14) = spa;
  p_sha : slice f (ETH_LEN + 8) 6 = sha;
  p_tpa : arp_ip f (ETH_LEN + 24) = tpa
}.
Lemma arp_request_packet s ip : net_ok s → is_u32 ip → arp_packet (arp_request s ip) 1 (ip_be s) ip (mac s).
Proof.
  intros [Hm Hip _ _] H. destruct (mac_inv _ Hm) as (a1&a2&a3&a4&a5&a6&E&_). unfold arp_request. rewrite E.
  split; try done; by apply ip_bytes_read.
Qed.
Lemma arp_request_bytes s ip : net_ok s → bytes (arp_request s ip) ∧ slice (arp_request s ip) 6 6 = mac s.
Proof.
  intros [Hm Hip _ _]. destruct (mac_inv _ Hm) as (a1&a2&a3&a4&a5&a6&E&?&?&?&?&?&?). unfold arp_request. rewrite E. split; [|done].
  unfold ip_be_to_bytes, st16. cbn [replicate app]. repeat (apply Forall_cons_2; [try apply u8_range; lia|]). apply Forall_nil_2.
Qed.
Lemma arp_reply_packet s f g oper spa sha : net_ok s → bytes f → arp_packet f oper spa (ip_be s) sha → is_u32 spa →
  net_build_arp_reply s f = Some g → arp_packet g 2 (ip_be s) spa (mac s) ∧ slice g 0 6 = slice f 6 6 ∧ length g = 64%nat.
Proof.
  intros [Hm Hip _ _] Bf [P1 P2 P3 P4 P5] Hspa. unfold net_build_arp_reply. case_match; [done|]. case_match; [done|]. case_match; [done|].
  intros [= <-]. destruct (mac_inv _ Hm) as (a1&a2&a3&a4&a5&a6&E&_). rewrite E.
  assert (L : 42 ≤ length f). { unfold is_arp, ETH_LEN, ARP_LEN in P1. destruct (Z.ltb_spec (length f) (14 + 28)); [done|lia]. }
  destruct (mac_inv (slice f 6 6)) as (b1&b2&b3&b4&b5&b6&->&_); [apply slice_mac; done || lia|].
  destruct (mac_inv (slice f (ETH_LEN + 8) 6)) as (c1&c2&c3&c4&c5&c6&->&_); [apply slice_mac; done || (unfold ETH_LEN; lia)|].
  assert (∃ d1 d2 d3 d4, slice f (ETH_LEN + 14) 4 = [d1; d2; d3; d4] ∧ arp_ip f (ETH_LEN + 14) = Z.lor (Z.lor (Z.lor (Z.shiftl d1 24) (Z.shiftl d2 16)) (Z.shiftl d3 8)) d4) as (d1&d2&d3&d4&->&Ed).
  { do 4 eexists. split; [|done]. change (ETH_LEN + 14) with 28. do 28 (destruct f as [|? f]; [cbn in L; lia|]).
    do 4 (destruct f as [|? f]; [cbn in L; lia|]). done. }
  rewrite P3 in Ed. split; [|done]. split; try done. by apply ip_bytes_read.
Qed.

Lemma observe_learns s l f o spa tpa sha t : arp_packet f o spa tpa sha → o = 1 ∨ o = 2 → 0 ≤ t → spa ≠ 0 → foldr Z.lor 0 sha ≠ 0 →
  length l = ARP_CACHE_SLOTS → arp_uniq l → net_arp_cache_lookup (net_arp_observe_frame s l f t).2 spa = Some sha.
Proof.
  intros [P1 P2 P3 P4 _] Ho ?????. unfold net_arp_observe_frame. rewrite P1, P2, P3, P4. cbn [negb].
  replace (negb (o =? 1) && negb (o =? 2)) with false by (by destruct Ho as [-> | ->]).
  destruct (net_arp_cache_learn s l spa sha t) as [s' l'] eqn:E. eapply arp_learn_maps in E as (_ & U & gone & M & _); try done.
  apply lookup_maps; [done..|]. apply M. by left.
Qed.

(** C35: ARP finds the owner of an address: when a station broadcasts the request of
    [net_send_arp_request] for the address of another, that one answers (and has learnt the
    sender from the request), and after the first has seen the answer
    [net_arp_cache_lookup] finds the hardware address of the second. *)
Theorem arp_exchange a b la lb ticks ticks' r out e : net_ok a → net_ok b → 0 ≤ ticks → 0 ≤ ticks' →
  net_ipv4_configured b = true → ip_be a ≠ 0 → foldr Z.lor 0 (mac a) ≠ 0 → foldr Z.lor 0 (mac b) ≠ 0 →
  length la = ARP_CACHE_SLOTS → length lb = ARP_CACHE_SLOTS → arp_uniq la → arp_uniq lb →
  net_send_arp_request a (ip_be b) r = (out, e) →
  ∃ q p, out = [q] ∧
    net_arp_cache_lookup (net_arp_observe_frame b lb q ticks).2 (ip_be a) = Some (mac a) ∧
    net_build_arp_reply b q = Some p ∧ length p = 64%nat ∧ slice p 0 6 = mac a ∧
    net_arp_cache_lookup (net_arp_observe_frame a la p ticks').2 (ip_be b) = Some (mac b).
Proof.
  intros Ha Hb Ht Ht' Hc Ha0 Hma Hmb La Lb Ua Ub [= <- <-].
  assert (Hb0 : ip_be b ≠ 0). { intros E. unfold net_ipv4_configured in Hc. rewrite E in Hc. by rewrite andb_false_r in Hc. }
  pose proof (arp_request_packet a (ip_be b) Ha (ok_ip _ Hb)) as Pq. set (q := arp_request a (ip_be b)) in *.
  destruct (arp_request_bytes a (ip_be b) Ha) as [Bq Mq]. fold q in Bq, Mq.
  destruct (net_build_arp_reply b q) as [p|] eqn:Ep.
  - destruct (arp_reply_packet _ _ _ _ _ _ Hb Bq Pq (ok_ip _ Ha) Ep) as (Pp & Ms & Lp). exists q, p. split_and!; try done.
    + eapply observe_learns; eauto.
    + by rewrite Ms.
    + eapply observe_learns; eauto.
  - exfalso. revert Ep. unfold net_build_arp_reply. destruct Pq as [-> -> _ _ ->]. rewrite Hc, !Z.eqb_refl. done.
Qed.

(** * The state of the interface *)

(** The operations that write [g_net]. *)
Inductive net_event :=
  | ev_init (hw : option (list Z))
  | ev_if_up (hw : option (list Z)) (up started thread : bool)
  | ev_apply (hw : option (list Z)) (ip mask gw dns : Z) (dhcp : bool)
  | ev_delroute (gw : Z)
  | ev_addroute (gw : Z)
  | ev_netmask (mask : Z)
  | ev_addr (hw : option (list Z)) (ip : Z)
  | ev_frame (l : list arp_ent) (f : list Z) (ticks : Z)
  | ev_next_hop (hw : option (list Z)) (e : arp_env) (dst : Z)
  | ev_send (m : list Z) (dst proto : Z) (l4 : list Z) (r : Z).
Definition net_step (s : net_state) (ev : net_event) : net_state :=
  match ev with
  | ev_init hw => (net_stack_init s hw).1
  | ev_if_up hw up started thread => (net_set_if_up s hw up started thread).1.1
  | ev_apply hw ip mask gw dns dhcp => (net_apply_ipv4 s hw ip mask gw dns dhcp).1.1
  | ev_delroute gw => (net_delete_default_route s gw).1
  | ev_addroute gw => siocaddrt s gw
  | ev_netmask mask => siocsifnetmask s mask
  | ev_addr hw ip => (siocsifaddr s hw ip).1.1
  | ev_frame l f ticks => (net_arp_observe_frame s l f ticks).1
  | ev_next_hop hw e dst => from_option (λ r, r.1.1) s (net_resolve_next_hop_mac s hw e dst)
  | ev_send m dst proto l4 r => (net_send_eth_ipv4 s m dst proto l4 r).1.1
  end.
Record iface_ok (s : net_state) : Prop := {
  i_ready : ready s = net_ipv4_configured s;
  i_gw : gw_mac_valid s = true → gw_be s ≠ 0;
  i_up : if_up s = true → inited s = true
}.

Lemma init_iface s hw s' r : iface_ok s → net_stack_init s hw = (s', r) → iface_ok s' ∧ (r = 0 → inited s' = true).
Proof.
  intros H. unfold net_stack_init. destruct (inited s) eqn:E; [by intros [= <- <-]|].
  destruct hw; intros [= <- <-]; (split; [by split|done]).
Qed.
Lemma apply_iface s hw ip mask gw dns dhcp : iface_ok s → iface_ok (net_apply_ipv4 s hw ip mask gw dns dhcp).1.1.
Proof.
  intros H. unfold net_apply_ipv4. destruct (net_stack_init s hw) as [s1 r] eqn:E. eapply init_iface in E as [H1 Hi]; [|done].
  zcase; [|done]. cbn [negb]. specialize (Hi e). destruct H1 as [I1 I2 I3]. zcase.
  - split; cbn; [|done|done]. unfold net_ipv4_configured. cbn. by rewrite andb_false_r.
  - assert (nz ip = true) as Hip by (by apply nz_true). repeat case_match; split; try done; unfold net_ipv4_configured; cbn; by rewrite Hip, andb_true_r.
Qed.
Lemma set_ready s : iface_ok s → iface_ok (if nz (ip_be s) && if_up s then s <| ready := true |> else s).
Proof.
  intros [I1 I2 I3]. destruct (nz (ip_be s) && if_up s) eqn:E; [|by split]. apply andb_prop in E as [E1 E2].
  split; try done. unfold net_ipv4_configured. cbn. by rewrite E1, E2.
Qed.
Lemma learn_iface s l ip m t : iface_ok s → iface_ok (net_arp_cache_learn s l ip m t).1.
Proof.
  intros [I1 I2 I3]. unfold net_arp_cache_learn. zcase; [by split|]. cbn [orb]. case_match; [by split|].
  unfold gateway_learn. cbn. zcase; [subst|]; by split.
Qed.
Lemma hop_iface s hw e dst s' out m : iface_ok s → net_resolve_next_hop_mac s hw e dst = Some (s', out, m) → iface_ok s'.
Proof.
  intros H. unfold net_resolve_next_hop_mac, net_ensure_ipv4. destruct (net_stack_init s hw) as [s1 r] eqn:E.
  eapply init_iface in E as [H1 _]; [|done]. destruct (r =? 0); [|by intros [= <- <- <-]]. cbn [negb].
  destruct (ready s1); [|by intros [= <- <- <-]]. cbn [Z.eqb negb]. case_match; [by intros [= <- <- <-]|].
  intros ([o [x|]] & E2 & E3)%bind_Some; injection E3 as <- <- <-; [|done].
  destruct (Z.eqb_spec (next_hop s1 dst) (gw_be s1)) as [Eg|]; [|done]. destruct H1 as [I1 I2 I3]. split; try done.
  cbn. intros _ Hg. by rewrite Eg, Hg in E2.
Qed.
Lemma step_iface s ev : iface_ok s → iface_ok (net_step s ev).
Proof.
  intros H. destruct ev; cbn [net_step].
  - destruct (net_stack_init s hw) as [s1 r] eqn:E. by eapply init_iface in E as [? _].
  - unfold net_set_if_up. destruct (net_stack_init s hw) as [s1 r] eqn:E. eapply init_iface in E as [H1 Hi]; [|done].
    zcase; [|done]. specialize (Hi e). destruct H1. destruct up; cbn; [case_match; [done|]|]; by split.
  - by apply apply_iface.
  - destruct H as [I1 I2 I3]. unfold net_delete_default_route. case_match; by split.
  - apply set_ready. destruct H as [I1 I2 I3]. case_match; by split.
  - apply set_ready. destruct H as [I1 I2 I3]. by split.
  - by apply apply_iface.
  - unfold net_arp_observe_frame. repeat case_match; [done..|]. by apply learn_iface.
  - destruct (net_resolve_next_hop_mac s hw e dst) as [[[s' out] m]|] eqn:E; [|done]. by eapply hop_iface.
  - unfold net_send_eth_ipv4. case_match; [done|]. destruct H. by split.
Qed.

Lemma run_iface evs : iface_ok (foldl net_step net0 evs).
Proof.
  assert (iface_ok net0) as H by (by split). revert H. generalize net0. induction evs as [|ev evs IH]; intros s H; [done|].
  apply IH, step_iface, H.
Qed.

(** C37: The flag that lets packets out is exact: whatever the configuration calls, route
    changes, ARP packets and sends that came before, [ready] says that the interface is up
    and has an address, and a gateway address is known only while there is a gateway. *)
Theorem net_ready_exact evs : let s := foldl net_step net0 evs in
  ready s = net_ipv4_configured s ∧ (ready s = true → inited s = true ∧ ip_be s ≠ 0) ∧ (gw_mac_valid s = true → gw_be s ≠ 0).
Proof.
  intros s. destruct (run_iface evs) as [I1 I2 I3]. fold s in I1, I2, I3. split_and!; [done| |done]. rewrite I1. unfold net_ipv4_configured.
  intros [? ?%nz_true]%andb_prop. auto.
Qed.

(** Without a default route nothing goes to another network: [net_send_udp_datagram] to
    an address off the subnet fails and hands no frame to the card, not even an ARP
    request. *)
Theorem net_no_route evs hw e ok dst sp dp p r : let s := foldl net_step net0 evs in
  gw_be s = 0 → ip_same_subnet dst (ip_be s) (mask_be s) = false →
  ∃ s', net_send_udp_datagram s hw e ok dst sp dp p r = Some (s', [], -1).
Proof.
  intros s Hg Hn. assert (H : iface_ok s) by apply run_iface.
  clearbody s. unfold net_send_udp_datagram. case_match; [eauto|].
  destruct (net_ensure_ipv4 s hw) as [s1 r1] eqn:E. zcase; [|eauto]. subst r1. cbn [negb].
  pose proof E as (-> & _ & _)%ensure_ok. unfold net_resolve_next_hop_mac. rewrite E. cbn [Z.eqb negb].
  unfold next_hop. rewrite Hn, Hg. cbn [Z.eqb andb]. destruct (gw_mac_valid s) eqn:Ev; [by destruct (i_gw _ H Ev)|]. cbn. eauto.
Qed.

(** * Ports *)

Lemma u32_mod x : u32 x `mod` 32768 = x `mod` 32768.
Proof. unfold u32. apply Z.mod_mod_divide. by exists 131072. Qed.
Lemma port_wrap seq : u16 (32768 + u32 seq `mod` 32768) = 32768 + seq `mod` 32768.
Proof.
  rewrite u32_mod. apply u16_small.
  pose proof (Z.mod_pos_bound seq 32768). lia.
Qed.
Lemma alloc_port_scan k seq ports seq' p : alloc_port k seq ports = (seq', p) →
  32768 ≤ p < 65536 ∧ (p ∉ ports ∨ ∀ i, 1 ≤ i ≤ k → 32768 + (seq + i) `mod` 32768 ∈ ports).
Proof.
  revert seq. induction k as [|k IH]; intros seq; cbn [alloc_port]; rewrite port_wrap; pose proof (Z.mod_pos_bound (seq + 1) 32768).
  - intros [= <- <-]. split; [lia|]. right. lia.
  - case_bool_decide as Hin; [|intros [= <- <-]; split; [lia|auto]]. intros [H1 [?|H2]]%IH; (split; [done|]); [auto|].
    right. intros i Hi. destruct (decide (i = 1)) as [->|]; [done|]. specialize (H2 (i - 1) ltac:(lia)).
    replace ((u32 (seq + 1) + (i - 1)) `mod` 32768) with ((seq + i) `mod` 32768) in H2; [done|].
    rewrite <- (Zplus_mod_idemp_l (u32 _)), u32_mod, Zplus_mod_idemp_l. f_equal. lia.
Qed.

(** [net_alloc_ephemeral_port] gives a port of the dynamic range, and one that no live
    socket has whenever there is one, wherever the counter stands (also when it wraps). *)
Theorem ephemeral_port_free seq ports seq' p q : net_alloc_ephemeral_port seq ports = (seq', p) →
  32768 ≤ q < 65536 → q ∉ ports → 32768 ≤ p < 65536 ∧ p ∉ ports.
Proof.
  unfold net_alloc_ephemeral_port. assert (Hk : Z.of_nat (Z.to_nat 32768) = 32768) by (apply Z2Nat.id; lia).
  revert Hk. generalize (Z.to_nat 32768). intros k Hk [H1 [?|H2]]%alloc_port_scan Hq Hn; [done|]. split; [done|]. exfalso. apply Hn.
  specialize (H2 ((q - 32768 - seq - 1) `mod` 32768 + 1)). pose proof (Z.mod_pos_bound (q - 32768 - seq - 1) 32768).
  replace (32768 + _ `mod` 32768) with q in H2; [apply H2; lia|].
  rewrite Z.add_assoc, (Z.add_comm _ 1), Z.add_assoc, Z.add_mod_idemp_r by lia.
  replace (1 + seq + (q - 32768 - seq - 1)) with (q - 32768) by lia. rewrite Z.mod_small; lia.
Qed.

(** * Address resolution *)

(** The hardware addresses that a wait can see. *)
Lemma resolve_wait_ends s ip t st last rs out : (∃ o, o ∈ rs ∧ t ≤ u64 (at_test o - st)) →
  ∃ out' m, resolve_wait s ip t st last rs out = Some (out', m) ∧
    match m with
    | Some m => ∃ o, o ∈ rs ∧ net_arp_cache_lookup (seen o) ip = Some m
    | None => ∃ o, o ∈ rs ∧ t ≤ u64 (at_test o - st) ∧ net_arp_cache_lookup (seen o) ip = None
    end ∧ ∃ n, out' = out ++ replicate n (arp_request s ip).
Proof.
  revert last out. induction rs as [|o rs IH]; intros last out (x & Hx & Ht); [by apply not_elem_of_nil in Hx|]. cbn [resolve_wait].
  destruct (Z.ltb_spec (u64 (at_test o - st)) t).
  - assert (∃ o, o ∈ rs ∧ t ≤ u64 (at_test o - st)) as Hx'. { apply elem_of_cons in Hx as [->|]; [lia|eauto]. }
    destruct (net_arp_cache_lookup (seen o) ip) as [m|] eqn:El.
    { eexists _, _. split; [done|]. split; [|exists O; by rewrite app_nil_r]. exists o. set_solver. }
    case_match.
    + destruct (IH (after o) (out ++ [arp_request s ip]) Hx') as (out' & m & -> & Hm & n & ->). do 2 eexists. split; [done|].
      split; [|exists (S n); by rewrite <- app_assoc]. destruct m; set_solver.
    + destruct (IH last out Hx') as (out' & m & -> & Hm & n & ->). do 2 eexists. split; [done|]. split; [|eauto]. destruct m; set_solver.
  - do 2 eexists. split; [done|]. split; [|exists O; by rewrite app_nil_r]. destruct (net_arp_cache_lookup (seen o) ip) eqn:El; exists o; set_solver.
Qed.

(** [net_resolve_mac] returns once the clock passes its limit, whatever the other threads
    do to the cache meanwhile. The address it gives is one it saw in the cache (or the known
    one of the gateway); it gives up only for address 0, when the card refuses the request,
    or when the time is over and the cache has no entry; all it sends are requests for the
    address. *)
Theorem arp_resolution_ends s e ip t : (∃ o, o ∈ rounds e ∧ t ≤ u64 (at_test o - start_ms e)) →
  ∃ n m, net_resolve_mac s e ip t = Some (replicate n (arp_request s ip), m) ∧
    match m with
    | Some x => net_arp_cache_lookup (cache e) ip = Some x ∨ (ip = gw_be s ∧ gw_mac_valid s = true ∧ x = gw_mac s) ∨
                ∃ o, o ∈ rounds e ∧ net_arp_cache_lookup (seen o) ip = Some x
    | None => ip = 0 ∨ driver e < 0 ∨
              ∃ o, o ∈ rounds e ∧ t ≤ u64 (at_test o - start_ms e) ∧ net_arp_cache_lookup (seen o) ip = None
    end.
Proof.
  intros Hr. unfold net_resolve_mac. destruct (Z.eqb_spec ip 0) as [|H0]; [exists O, None; auto|].
  destruct (net_arp_cache_lookup (cache e) ip) as [x|] eqn:El; [exists O, (Some x); auto|].
  destruct ((ip =? gw_be s) && gw_mac_valid s) eqn:Eg.
  { apply andb_prop in Eg as [?%Z.eqb_eq ?]. exists O, (Some (gw_mac s)). split; [done|]. by right; left. }
  cbn [net_send_arp_request]. destruct (Z.ltb_spec (driver e) 0) as [Hd|Hd]; cbn [Z.eqb negb].
  { exists 1%nat, None. auto. }
  destruct (resolve_wait_ends s ip t (start_ms e) (start_ms e) (rounds e) [arp_request s ip] Hr) as (out & m & -> & Hm & n & ->).
  exists (S n), m. split; [done|]. destruct m; auto.
Qed.
