(* ===== verification/NetRxq.v ===== *)
(** The queue of received frames of [syscall/dispatch/syscall_dispatch.c]: a ring of slots
    that the card's receive path fills and from which every socket takes its own frames. *)
From S2P Require Import Prelude NetBytes Tcp Net.

Module Rxq.
Import Tcp Net.

Definition NET_RXQ_SLOTS : nat := 512.
Definition NET_RXQ_FALLBACK_SLOTS : nat := 128.
Definition NET_RXQ_BUF : nat := 2048.

(** [g_net_rxq] and [g_net_rxq_len] (a slot holds the bytes that its length counts), and
    the three indices. *)
Record rxq := MkRxq { slots : list (list Z); head : nat; tail : nat; cnt : nat }.
#[export] Instance eta_rxq : Eta rxq := λ q, MkRxq (slots q) (head q) (tail q) (cnt q).

Definition size (q : rxq) : nat := length (slots q).
Definition slot (q : rxq) (i : nat) : list Z := default [] (slots q !! i).

(** [g_net_rxq_len[hi] = 0], and the head moves on. *)
Definition drop_head (q : rxq) : rxq :=
  q <| slots := <[head q := []]> (slots q) |> <| head := ((head q + 1) mod size q)%nat |> <| cnt := (cnt q - 1)%nat |>.
(** A frame goes to the tail slot. *)
Definition add_tail (q : rxq) (f : list Z) : rxq :=
  q <| slots := <[tail q := f]> (slots q) |> <| tail := ((tail q + 1) mod size q)%nat |> <| cnt := S (cnt q) |>.
Definition rotate1 (q : rxq) : rxq := add_tail (drop_head q) (slot q (head q)).

Definition net_rxq_drop_offset_locked (q : rxq) (offset : nat) : rxq :=
  if (cnt q =? 0)%nat || (size q =? 0)%nat then q
  else drop_head (Nat.iter (if (cnt q <=? offset)%nat then O else offset) rotate1 q).

(** The scan of [n] slots from the [i]-th after the head. *)
Fixpoint find_slot (p : list Z → bool) (q : rxq) (i n : nat) : option nat :=
  match n with
  | O => None
  | S n => if p (slot q ((head q + i) mod size q)) then Some i else find_slot p q (S i) n
  end.

Definition net_rxq_push (q : rxq) (f : list Z) : rxq * Z :=
  if (length f =? 0)%nat then (q, -1)
  else
    let f := take NET_RXQ_BUF f in
    let q :=
      if (size q <=? cnt q)%nat then
        net_rxq_drop_offset_locked q
          (if net_frame_udp_dns f then default O (find_slot (λ g, negb (net_frame_udp_dns g)) q 0 (cnt q)) else O)
      else q in
    (add_tail q f, 0).

(** The bytes copied out; their number is the result. *)
Definition net_rxq_pop (q : rxq) (cap : Z) : rxq * option (list Z) :=
  if cap =? 0 then (q, None)
  else if (cnt q =? 0)%nat then (q, Some [])
  else (drop_head q, Some (slice (slot q (head q)) 0 cap)).

(** The scan, rotation and removal that the three functions below share; the frame found. *)
Definition take_frame (p : list Z → bool) (q : rxq) : rxq * option (list Z) :=
  if (cnt q =? 0)%nat || (size q =? 0)%nat then (q, None)
  else
    match find_slot (λ f, negb (length f =? 0)%nat && p f) q 0 (cnt q) with
    | None => (q, None)
    | Some i => let q := Nat.iter i rotate1 q in (drop_head q, Some (slot q (head q)))
    end.

Definition net_rxq_take_tcp_frame (q : rxq) (c : net_tcp_conn_t) (local_ip cap : Z) : rxq * list Z :=
  if cap =? 0 then (q, [])
  else
    match take_frame (λ f, net_tcp_match_frame f local_ip c) q with
    | (q, Some f) => (q, slice f 0 cap)
    | (q, None) => (q, [])
    end.
(** [None] is [-1]. *)
Definition net_rxq_take_udp_datagram (q : rxq) (s : udp_sock) (out_cap : Z) : rxq * option (list Z * option (Z * Z)) :=
  if out_cap =? 0 then (q, None)
  else
    match take_frame (λ f, net_udp_match_sock_frame f s) q with
    | (q, Some f) => (q, Some (net_udp_copy_payload_from_frame f out_cap))
    | (q, None) => (q, Some ([], None))
    end.
Definition net_rxq_take_udp_raw (q : rxq) (lport peer_ip peer_p out_cap : Z) : rxq * option (list Z) :=
  if (out_cap =? 0) || (lport =? 0) then (q, None)
  else
    match take_frame (λ f, net_udp_match_raw_frame f lport peer_ip peer_p) q with
    | (q, Some f) => (q, Some (net_udp_copy_payload_from_frame f out_cap).1)
    | (q, None) => (q, Some [])
    end.

Definition net_rxq_peek_udp_payload_for_sock (q : rxq) (s : udp_sock) : Z :=
  if local_port s =? 0 then 0
  else if (size q =? 0)%nat then 0
  else
    match find_slot (λ f, negb (length f =? 0)%nat && net_udp_match_sock_frame f s) q 0 (cnt q) with
    | Some i => net_udp_payload_len_from_frame (slot q ((head q + i) mod size q))
    | None => 0
    end.

Fixpoint drop_tcp (fuel : nat) (q : rxq) (c : net_tcp_conn_t) (local_ip : Z) : rxq :=
  match fuel with
  | O => q
  | S k =>
      match net_rxq_take_tcp_frame q c local_ip NET_RXQ_BUF with
      | (q, []) => q
      | (q, _) => drop_tcp k q c local_ip
      end
  end.
Definition net_rxq_drop_tcp_conn (q : rxq) (c : net_tcp_conn_t) (local_ip : Z) : rxq :=
  if used c then drop_tcp 512 q c local_ip else q.

(** The part of [net_rxq_flush] on the queue. *)
Definition net_rxq_flush (q : rxq) : rxq := q <| head := O |> <| tail := O |> <| cnt := O |>.

(** The queue that [syscall_init] sets up, with memory for it or without. *)
Definition rxq_init (ok : bool) : rxq :=
  MkRxq (replicate (if ok then NET_RXQ_SLOTS else NET_RXQ_FALLBACK_SLOTS) []) 0 0 0.

End Rxq.
