(* ===== verification/NetRxqProps.v ===== *)
(** The ring of received frames is a list: what each operation does to the sequence of
    waiting frames. *)
From S2P Require Import Prelude NetBytes Tcp Net NetRxq.

Import Tcp Net Rxq.

(** The frames that wait are [l], the next one first. *)
Record holds (q : rxq) (l : list (list Z)) : Prop := {
  h_head : (head q < size q)%nat;
  h_tail : tail q = ((head q + cnt q) mod size q)%nat;
  h_cnt : cnt q = length l;
  h_fit : (cnt q ≤ size q)%nat;
  h_slots : ∀ i f, l !! i = Some f → slots q !! ((head q + i) mod size q)%nat = Some f;
  h_frames : Forall (λ f, (0 < length f ≤ NET_RXQ_BUF)%nat) l
}.

Lemma mod_step a n : n ≠ 0%nat → ((a mod n + 1) mod n = (a + 1) mod n)%nat.
Proof. intros. by rewrite Nat.Div0.add_mod_idemp_l. Qed.
Lemma mod_shift a i n : n ≠ 0%nat → (((a + 1) mod n + i) mod n = (a + S i) mod n)%nat.
Proof. intros. rewrite Nat.Div0.add_mod_idemp_l. f_equal. lia. Qed.
Lemma mod_ne a i j n : (i < n)%nat → (j < n)%nat → i ≠ j → ((a + i) mod n ≠ (a + j) mod n)%nat.
Proof.
  intros Hi Hj Hne E. pose proof (Nat.Div0.div_mod (a + i) n) as D1. pose proof (Nat.Div0.div_mod (a + j) n) as D2.
  rewrite E in D1. set (x := ((a + i) / n)%nat) in *. set (y := ((a + j) / n)%nat) in *.
  destruct (lt_eq_lt_dec x y) as [[H|H]|H]; [nia| |nia]. rewrite H in D1. lia.
Qed.

Lemma holds_slot q f l : holds q (f :: l) → slot q (head q) = f.
Proof.
  intros H. unfold slot. pose proof (h_slots _ _ H 0%nat f eq_refl) as E. rewrite Nat.add_0_r, Nat.mod_small in E by apply H. by rewrite E.
Qed.
Lemma drop_head_holds q f l : holds q (f :: l) → holds (drop_head q) l ∧ size (drop_head q) = size q.
Proof.
  intros [H1 H2 H3 H4 H5 H6]. assert (Hs : size (drop_head q) = size q) by (unfold size, drop_head; cbn; by rewrite length_insert).
  split; [|done]. cbn in H3. split; rewrite ?Hs; unfold drop_head; cbn.
  - apply Nat.mod_upper_bound. lia.
  - rewrite H2, mod_shift by lia. f_equal. lia.
  - lia.
  - lia.
  - intros i g Hg. rewrite mod_shift by lia. rewrite list_lookup_insert_ne; [by apply (H5 (S i))|].
    apply lookup_lt_Some in Hg. rewrite <- (Nat.mod_small (head q) (size q) H1) at 1.
    replace (head q mod size q)%nat with ((head q + 0) mod size q)%nat by (f_equal; lia). apply mod_ne; lia.
  - by inversion H6.
Qed.
Lemma add_tail_holds q l f : holds q l → (cnt q < size q)%nat → (0 < length f ≤ NET_RXQ_BUF)%nat →
  holds (add_tail q f) (l ++ [f]) ∧ size (add_tail q f) = size q.
Proof.
  intros [H1 H2 H3 H4 H5 H6] Hc Hf. assert (Hs : size (add_tail q f) = size q) by (unfold size, add_tail; cbn; by rewrite length_insert).
  split; [|done]. split; rewrite ?Hs; unfold add_tail; cbn.
  - done.
  - rewrite H2, mod_step by lia. f_equal. lia.
  - rewrite length_app. cbn. lia.
  - lia.
  - intros i g [Hg|[Hi Hg]]%lookup_app_Some.
    + rewrite list_lookup_insert_ne; [by apply H5|]. rewrite H2. apply lookup_lt_Some in Hg. apply mod_ne; lia.
    + apply list_lookup_singleton_Some in Hg as [Hi0 <-]. replace (length l + 0)%nat with i in * by lia.
      replace i with (cnt q) by lia. rewrite H2, list_lookup_insert_eq; [done|]. apply Nat.mod_upper_bound. unfold size in *. lia.
  - apply Forall_app_2; [done|]. by constructor.
Qed.
Lemma rotate_holds q l1 l2 : holds q (l1 ++ l2) → holds (Nat.iter (length l1) rotate1 q) (l2 ++ l1).
Proof.
  revert q l2. induction l1 as [|f l1 IH]; intros q l2 H; [by rewrite app_nil_r|].
  cbn [length]. rewrite Nat.iter_succ_r. change (f :: l1) with ([f] ++ l1). rewrite app_assoc. apply IH.
  rewrite app_assoc. cbn [app] in H.
  pose proof (holds_slot _ _ _ H) as E. destruct (drop_head_holds _ _ _ H) as [H' Hs']. unfold rotate1. rewrite E.
  apply add_tail_holds; [done| |].
  - rewrite Hs', (h_cnt _ _ H'). pose proof (h_cnt _ _ H). pose proof (h_fit _ _ H). cbn in *. lia.
  - pose proof (h_frames _ _ H) as F. by inversion F.
Qed.
(** The first frame that [p] takes, and its place. *)
Fixpoint first (p : list Z → bool) (l : list (list Z)) : option (nat * list Z) :=
  match l with
  | [] => None
  | f :: l => if p f then Some (O, f) else (λ x, (S x.1, x.2)) <$> first p l
  end.
Lemma first_spec p l : match first p l with
  | Some (i, f) => l !! i = Some f ∧ p f = true ∧ Forall (λ g, p g = false) (take i l)
  | None => Forall (λ g, p g = false) l
  end.
Proof.
  induction l as [|f l IH]; cbn [first]; [done|]. destruct (p f) eqn:E; [done|].
  destruct (first p l) as [[i g]|]; cbn; [|by constructor]. destruct IH as (? & ? & ?). split_and!; [done..|by constructor].
Qed.
Lemma first_ext p p' l : (∀ f, f ∈ l → p f = p' f) → first p l = first p' l.
Proof. induction l as [|f l IH]; intros H; cbn; [done|]. rewrite H, IH by set_solver. done. Qed.

Lemma find_slot_holds p q l : holds q l → ∀ l1 l2, l = l1 ++ l2 →
  find_slot p q (length l1) (length l2) = (λ x, (length l1 + x.1)%nat) <$> first p l2.
Proof.
  intros H l1 l2. revert l1. induction l2 as [|f l2 IH]; intros l1 ->; [done|]. cbn [length find_slot].
  assert (slot q ((head q + length l1) mod size q) = f) as ->.
  { unfold slot. by rewrite (h_slots _ _ H (length l1) f) by (rewrite lookup_app_r by lia; by rewrite Nat.sub_diag). }
  cbn [first]. destruct (p f) eqn:E; [cbn; f_equal; lia|].
  specialize (IH (l1 ++ [f])). rewrite <- app_assoc in IH. specialize (IH eq_refl).
  rewrite length_app, Nat.add_1_r in IH. rewrite IH. destruct (first p l2) as [[i g]|]; cbn; [|done]. f_equal. lia.
Qed.

(** * The queue as a list *)

(** The [i]-th frame leaves, and those before it go behind the others. *)
Definition leave (i : nat) (l : list (list Z)) : list (list Z) := drop (S i) l ++ take i l.
Definition spec_take (p : list Z → bool) (l : list (list Z)) : list (list Z) * option (list Z) :=
  match first p l with Some (i, f) => (leave i l, Some f) | None => (l, None) end.
(** The frame that a full queue gives up for [f]. *)
Definition victim (l : list (list Z)) (f : list Z) : nat :=
  if net_frame_udp_dns f then default O (fst <$> first (λ g, negb (net_frame_udp_dns g)) l) else O.
Definition spec_push (n : nat) (l : list (list Z)) (f : list Z) : list (list Z) :=
  (if (n <=? length l)%nat then leave (victim l f) l else l) ++ [f].

Lemma size_rotate i q : size (Nat.iter i rotate1 q) = size q.
Proof.
  induction i as [|i IH]; [done|]. cbn [Nat.iter]. rewrite <- IH. unfold rotate1, size. cbn. by rewrite !length_insert.
Qed.
Lemma leave_holds q l i f : holds q l → l !! i = Some f →
  let q' := Nat.iter i rotate1 q in holds (drop_head q') (leave i l) ∧ slot q' (head q') = f ∧ size (drop_head q') = size q.
Proof.
  intros H Hi. cbn zeta. pose proof (take_drop_middle l i f Hi) as E. pose proof (lookup_lt_Some _ _ _ Hi).
  rewrite <- E in H. apply rotate_holds in H. rewrite length_take, Nat.min_l in H by lia. cbn [app] in H.
  split_and!; [by apply drop_head_holds in H as [? _]|by eapply holds_slot|]. apply drop_head_holds in H as [_ ->]. apply size_rotate.
Qed.

(** The test for an empty slot never fires. *)
Lemma find_slot_first p q l : holds q l →
  find_slot (λ f, negb (length f =? 0)%nat && p f) q 0 (length l) = fst <$> first p l.
Proof.
  intros H. pose proof (find_slot_holds (λ f, negb (length f =? 0)%nat && p f) q l H [] l eq_refl) as Hf. cbn [length] in Hf. rewrite Hf.
  rewrite (first_ext _ p); [by destruct (first p l)|].
  intros f [i Hi]%list_elem_of_lookup. pose proof (Forall_lookup_1 _ _ _ _ (h_frames _ _ H) Hi) as [Hl _]. cbn in Hl.
  by rewrite (proj2 (Nat.eqb_neq (length f) 0)) by lia.
Qed.
Lemma take_frame_refines p q l : holds q l → let r := take_frame p q in
  holds r.1 (spec_take p l).1 ∧ r.2 = (spec_take p l).2 ∧ size r.1 = size q.
Proof.
  intros H. unfold take_frame, spec_take. rewrite (h_cnt _ _ H). rewrite (proj2 (Nat.eqb_neq (size q) 0)) by (pose proof (h_head _ _ H); lia).
  destruct (Nat.eqb_spec (length l) 0) as [E|_]; cbn [orb]; [by destruct l|].
  rewrite (find_slot_first p q l H).
  pose proof (first_spec p l) as F. destruct (first p l) as [[i f]|]; cbn -[Nat.iter slot drop_head size]; [|done]. destruct F as (E & _ & _).
  destruct (leave_holds q l i f H E) as (H1 & H2 & H3). by rewrite H2.
Qed.
Lemma drop_offset_refines q l k : holds q l → l ≠ [] →
  holds (net_rxq_drop_offset_locked q k) (leave (if (length l <=? k)%nat then O else k) l) ∧ size (net_rxq_drop_offset_locked q k) = size q.
Proof.
  intros H Hl. unfold net_rxq_drop_offset_locked. rewrite (h_cnt _ _ H), (proj2 (Nat.eqb_neq (size q) 0)) by (pose proof (h_head _ _ H); lia).
  assert (length l ≠ 0)%nat by (by destruct l). rewrite (proj2 (Nat.eqb_neq (length l) 0)) by done. cbn [orb].
  set (i := if (length l <=? k)%nat then O else k). destruct (lookup_lt_is_Some_2 l i) as [f Hf].
  - unfold i. destruct (Nat.leb_spec (length l) k); lia.
  - destruct (leave_holds q l i f H Hf) as (H1 & _ & H3). done.
Qed.
Lemma victim_lt l f : (0 < length l)%nat → (victim l f < length l)%nat.
Proof.
  intros H. unfold victim. destruct (net_frame_udp_dns f); [|lia]. pose proof (first_spec (λ g, negb (net_frame_udp_dns g)) l) as F.
  destruct (first _ l) as [[i x]|]; cbn; [|lia]. destruct F as (E & _ & _). by apply lookup_lt_Some in E.
Qed.
Lemma push_refines q l f : holds q l → f ≠ [] → holds (net_rxq_push q f).1 (spec_push (size q) l (take NET_RXQ_BUF f)) ∧
  size (net_rxq_push q f).1 = size q.
Proof.
  intros H Hf. unfold net_rxq_push, spec_push. assert (length f ≠ 0)%nat by (by destruct f). rewrite (proj2 (Nat.eqb_neq (length f) 0)) by done.
  set (g := take NET_RXQ_BUF f). assert (0 < length g ≤ NET_RXQ_BUF)%nat by (unfold g; rewrite length_take; unfold NET_RXQ_BUF; lia).
  cbn zeta. cbn [fst]. rewrite (h_cnt _ _ H). destruct (Nat.leb_spec (size q) (length l)) as [Hfull|Hroom].
  - pose proof (h_head _ _ H). pose proof (find_slot_holds (λ g, negb (net_frame_udp_dns g)) q l H [] l eq_refl) as Hs. cbn [length] in Hs.
    rewrite Hs. replace (if net_frame_udp_dns g then _ else O) with (victim l g)
      by (unfold victim; destruct (net_frame_udp_dns g); [|done]; by destruct (first _ l)).
    pose proof (victim_lt l g ltac:(lia)) as Hk. set (k := victim l g) in *.
    destruct (drop_offset_refines q l k H) as [D1 D2]; [by destruct l; cbn in *; [lia|]|].
    rewrite (proj2 (Nat.leb_gt _ _)) in D1 by done. destruct (add_tail_holds _ _ g D1) as [D3 D4]; [|done|by rewrite <- D2].
    rewrite D2, (h_cnt _ _ D1). unfold leave. rewrite length_app, length_drop, length_take. pose proof (h_fit _ _ H). pose proof (h_cnt _ _ H). lia.
  - apply add_tail_holds; [done| |done]. rewrite (h_cnt _ _ H). done.
Qed.

(** * All operations *)

Inductive rxq_op :=
  | op_push (f : list Z)
  | op_pop (cap : Z)
  | op_tcp (c : net_tcp_conn_t) (ip cap : Z)
  | op_udp (s : udp_sock) (cap : Z)
  | op_raw (lport ip port cap : Z)
  | op_peek (s : udp_sock)
  | op_drop_conn (c : net_tcp_conn_t) (ip : Z)
  | op_flush.
(** The queue after, and the bytes that the caller gets (the length, for a peek). *)
Definition rxq_step (q : rxq) (o : rxq_op) : rxq * list Z :=
  match o with
  | op_push f => ((net_rxq_push q f).1, [])
  | op_pop cap => let '(q, r) := net_rxq_pop q cap in (q, default [] r)
  | op_tcp c ip cap => net_rxq_take_tcp_frame q c ip cap
  | op_udp s cap => let '(q, r) := net_rxq_take_udp_datagram q s cap in (q, from_option fst [] r)
  | op_raw lport ip port cap => let '(q, r) := net_rxq_take_udp_raw q lport ip port cap in (q, default [] r)
  | op_peek s => (q, [net_rxq_peek_udp_payload_for_sock q s])
  | op_drop_conn c ip => (net_rxq_drop_tcp_conn q c ip, [])
  | op_flush => (net_rxq_flush q, [])
  end.
Fixpoint rxq_run (q : rxq) (os : list rxq_op) : list (list Z) :=
  match os with [] => [] | o :: os => let '(q, r) := rxq_step q o in r :: rxq_run q os end.

(** The same on a list of frames. *)
Fixpoint spec_drop (fuel : nat) (l : list (list Z)) (c : net_tcp_conn_t) (ip : Z) : list (list Z) :=
  match fuel with
  | O => l
  | S k => match spec_take (λ f, net_tcp_match_frame f ip c) l with (l, Some _) => spec_drop k l c ip | (l, None) => l end
  end.
Definition spec_step (n : nat) (l : list (list Z)) (o : rxq_op) : list (list Z) * list Z :=
  match o with
  | op_push f => (if (length f =? 0)%nat then l else spec_push n l (take NET_RXQ_BUF f), [])
  | op_pop cap => if cap =? 0 then (l, []) else match l with f :: l => (l, slice f 0 cap) | [] => ([], []) end
  | op_tcp c ip cap =>
      if cap =? 0 then (l, [])
      else let '(l, r) := spec_take (λ f, net_tcp_match_frame f ip c) l in (l, from_option (λ f, slice f 0 cap) [] r)
  | op_udp s cap =>
      if cap =? 0 then (l, [])
      else
        let '(l, r) := spec_take (λ f, net_udp_match_sock_frame f s) l in
        (l, from_option (λ f, (net_udp_copy_payload_from_frame f cap).1) [] r)
  | op_raw lport ip port cap =>
      if (cap =? 0) || (lport =? 0) then (l, [])
      else
        let '(l, r) := spec_take (λ f, net_udp_match_raw_frame f lport ip port) l in
        (l, from_option (λ f, (net_udp_copy_payload_from_frame f cap).1) [] r)
  | op_peek s =>
      (l, [if local_port s =? 0 then 0
           else from_option net_udp_payload_len_from_frame 0 ((spec_take (λ f, net_udp_match_sock_frame f s) l).2)])
  | op_drop_conn c ip => (if used c then spec_drop 512 l c ip else l, [])
  | op_flush => ([], [])
  end.
Fixpoint spec_run (n : nat) (l : list (list Z)) (os : list rxq_op) : list (list Z) :=
  match os with [] => [] | o :: os => let '(l, r) := spec_step n l o in r :: spec_run n l os end.

Lemma match_nonempty f ip c : net_tcp_match_frame f ip c = true → f ≠ [].
Proof. intros H ->. unfold net_tcp_match_frame in H. by destruct (used c). Qed.
Lemma spec_take_in p l l' f : spec_take p l = (l', Some f) → f ∈ l ∧ p f = true ∧ l ≡ₚ f :: l'.
Proof.
  unfold spec_take. pose proof (first_spec p l) as F. destruct (first p l) as [[i g]|]; [|done]. intros [= <- <-].
  destruct F as (E & Hp & _). split_and!; [by eapply list_elem_of_lookup_2|done|].
  rewrite <- (take_drop_middle l i g E) at 1. unfold leave. rewrite Permutation_app_comm. done.
Qed.
Lemma drop_tcp_refines k q l c ip : holds q l → holds (drop_tcp k q c ip) (spec_drop k l c ip) ∧ size (drop_tcp k q c ip) = size q.
Proof.
  revert q l. induction k as [|k IH]; intros q l H; cbn [drop_tcp spec_drop]; [done|].
  unfold net_rxq_take_tcp_frame. change (Z.of_nat NET_RXQ_BUF =? 0) with false. cbn iota.
  destruct (take_frame_refines (λ f, net_tcp_match_frame f ip c) q l H) as (H1 & H2 & H3). cbn zeta in *.
  destruct (take_frame _ q) as [q' r], (spec_take _ l) as [l' r'] eqn:Es; cbn in *. subst r'. destruct r as [f|]; [|done].
  apply spec_take_in in Es as (Hin & Hm & _). destruct (slice f 0 NET_RXQ_BUF) eqn:Ef.
  - exfalso. apply list_elem_of_lookup in Hin as [i Hi]. pose proof (Forall_lookup_1 _ _ _ _ (h_frames _ _ H) Hi) as [Hl _].
    apply slice_nil in Ef; [done|..]; unfold NET_RXQ_BUF in *; lia.
  - destruct (IH _ _ H1) as [I1 I2]. split; [done|congruence].
Qed.
Lemma step_refines q l o : holds q l → let '(q', r) := rxq_step q o in let '(l', r') := spec_step (size q) l o in
  holds q' l' ∧ r = r' ∧ size q' = size q.
Proof.
  intros H. destruct o; cbn [rxq_step spec_step].
  - destruct (Nat.eqb_spec (length f) 0) as [E|E].
    + destruct f; [|done]. done.
    + destruct (push_refines q l f H) as [? ?]; [by intros ->|]. done.
  - unfold net_rxq_pop. destruct (cap =? 0); [done|]. rewrite (h_cnt _ _ H). destruct l as [|f l]; cbn -[drop_head slot]; [done|].
    destruct (drop_head_holds _ _ _ H) as [? ?]. split_and!; try done. by rewrite (holds_slot _ _ _ H).
  - unfold net_rxq_take_tcp_frame. destruct (cap =? 0); [done|]. destruct (take_frame_refines (λ f, net_tcp_match_frame f ip c) q l H) as (H1 & H2 & H3).
    destruct (take_frame _ q) as [q' r], (spec_take _ l) as [l' r']. cbn in *. subst r'. by destruct r.
  - unfold net_rxq_take_udp_datagram. destruct (cap =? 0); [done|]. destruct (take_frame_refines (λ f, net_udp_match_sock_frame f s) q l H) as (H1 & H2 & H3).
    destruct (take_frame _ q) as [q' r], (spec_take _ l) as [l' r']. cbn in *. subst r'. by destruct r.
  - unfold net_rxq_take_udp_raw. destruct (_ || _); [done|]. destruct (take_frame_refines (λ f, net_udp_match_raw_frame f lport ip port) q l H) as (H1 & H2 & H3).
    destruct (take_frame _ q) as [q' r], (spec_take _ l) as [l' r']. cbn in *. subst r'. by destruct r.
  - split_and!; try done. f_equal. unfold net_rxq_peek_udp_payload_for_sock. destruct (_ =? 0); [done|].
    rewrite (proj2 (Nat.eqb_neq (size q) 0)) by (pose proof (h_head _ _ H); lia).
    rewrite (h_cnt _ _ H), (find_slot_first (λ f, net_udp_match_sock_frame f s) q l H). unfold spec_take.
    pose proof (first_spec (λ f, net_udp_match_sock_frame f s) l) as F. destruct (first _ l) as [[i f]|]; cbn -[slot size Nat.modulo]; [|done].
    destruct F as (E & _ & _). unfold slot. by rewrite (h_slots _ _ H i f E).
  - unfold net_rxq_drop_tcp_conn. destruct (used c); [|done]. destruct (drop_tcp_refines 512 q l c ip H) as [? ?]. done.
  - split_and!; try done. destruct H. split; try done; cbn -[Nat.modulo]; [unfold size in *; cbn; lia|by rewrite Nat.Div0.mod_0_l|lia].
Qed.

Lemma run_refines q l os : holds q l → rxq_run q os = spec_run (size q) l os.
Proof.
  revert q l. induction os as [|o os IH]; intros q l H; cbn; [done|]. pose proof (step_refines q l o H) as S.
  destruct (rxq_step q o) as [q' r], (spec_step (size q) l o) as [l' r']. destruct S as (H' & -> & Hs). f_equal.
  rewrite <- Hs. by apply IH.
Qed.
Lemma init_holds ok : holds (rxq_init ok) [].
Proof.
  split; cbn -[replicate]; try done; try lia.
  - unfold size, rxq_init. cbn -[replicate]. rewrite length_replicate. destruct ok; unfold NET_RXQ_SLOTS, NET_RXQ_FALLBACK_SLOTS; lia.
  - unfold size. cbn -[replicate Nat.modulo]. by rewrite Nat.Div0.mod_0_l.
Qed.

(** C16: The ring of received frames is a bounded list: from the start of the system, every
    sequence of pushes, pops, takes for a connection or a datagram socket, peeks, purges
    and flushes gives its callers the bytes that the same operations give on a list of
    frames ([spec_step]); slots never mix, also when the indices wrap and when a full ring
    gives up a frame for a new one. *)
Theorem rxq_refines_list ok os :
  rxq_run (rxq_init ok) os = spec_run (if ok then NET_RXQ_SLOTS else NET_RXQ_FALLBACK_SLOTS) [] os.
Proof.
  rewrite (run_refines _ [] _ (init_holds ok)). unfold size, rxq_init. cbn [slots]. by rewrite length_replicate.
Qed.

(** A socket takes its own frames only and takes the first of them; all other frames stay
    in the ring, none twice. *)
Theorem rxq_take_own p q l q' r : holds q l → take_frame p q = (q', r) →
  match r with
  | Some f => ∃ l1 l2, l = l1 ++ f :: l2 ∧ p f = true ∧ Forall (λ g, p g = false) l1 ∧ holds q' (l2 ++ l1)
  | None => q' = q ∧ Forall (λ g, p g = false) l
  end.
Proof.
  intros H E. pose proof (take_frame_refines p q l H) as (H1 & H2 & _). rewrite E in H1, H2. cbn in H1, H2.
  unfold spec_take in *. pose proof (first_spec p l) as F. destruct (first p l) as [[i f]|] eqn:Ef; cbn in *; subst r.
  - destruct F as (Hi & Hp & Hb). exists (take i l), (drop (S i) l). split_and!; try done. by rewrite take_drop_middle.
  - split; [|done]. unfold take_frame in E. rewrite (h_cnt _ _ H), (find_slot_first p q l H), Ef in E. cbn in E.
    destruct (_ || _); congruence.
Qed.

Lemma push_result q f : f ≠ [] → (net_rxq_push q f).2 = 0.
Proof. intros Hf. unfold net_rxq_push. destruct (Nat.eqb_spec (length f) 0); [by destruct f|reflexivity]. Qed.

(** A full ring keeps DNS: to make room for a DNS frame [net_rxq_push] gives up a frame
    that is not DNS as long as there is one, and in every case it gives up one frame only
    and holds the new one. *)
Theorem rxq_push_keeps_dns q l f q' r : holds q l → cnt q = size q → f ≠ [] → net_rxq_push q f = (q', r) →
  ∃ l1 x l2, r = 0 ∧ l = l1 ++ x :: l2 ∧ holds q' (l2 ++ l1 ++ [take NET_RXQ_BUF f]) ∧
    (net_frame_udp_dns (take NET_RXQ_BUF f) = true → net_frame_udp_dns x = true → Forall (λ g, net_frame_udp_dns g = true) l).
Proof.
  intros H Hfull Hf E. pose proof (push_refines q l f H Hf) as [H1 _].
  pose proof (push_result q f Hf) as Hr. rewrite E in H1, Hr. cbn in H1, Hr. subst r. unfold spec_push in H1. pose proof (h_cnt _ _ H). pose proof (h_head _ _ H).
  rewrite (proj2 (Nat.leb_le _ _)) in H1 by lia. set (g := take NET_RXQ_BUF f) in *.
  destruct (lookup_lt_is_Some_2 l (victim l g)) as [x Hx]; [apply victim_lt; lia|].
  exists (take (victim l g) l), x, (drop (S (victim l g)) l). split_and!; [done|by rewrite take_drop_middle| |].
  - unfold leave in H1. by rewrite <- app_assoc in H1.
  - intros Hg Hxd. unfold victim in Hx. rewrite Hg in Hx. pose proof (first_spec (λ g, negb (net_frame_udp_dns g)) l) as F.
    destruct (first _ l) as [[i y]|]; cbn in *.
    + destruct F as (Hy & Hn & _). assert (y = x) as -> by congruence. by rewrite Hxd in Hn.
    + eapply Forall_impl; [done|]. cbn. intros z Hz. by apply negb_false_iff.
Qed.
