(* ===== verification/TcpWire.v ===== *)
(** Two TCP endpoints over the IPv4 layer: a segment is read back as it was sent, and what
    one side accepted for sending is what the other side delivers. *)
From S2P Require Import Prelude NetBytes Tcp Net NetProps TcpStream TcpProps.
Import Tcp Net.

(** * A segment on the wire *)

(** The segment that [tcp_send_seg_len] hands to [send_l4]. *)
Definition wire_seg (ip : Z) (c : net_tcp_conn_t) (flags : Z) (payload opts : list Z) : list Z :=
  segment c flags (be16 (tcp_checksum ip (dst_ip_be c) (segment c flags 0 payload opts))) payload opts.

Record seg_ok (ip : Z) (c : net_tcp_conn_t) (flags : Z) (payload opts : list Z) : Prop := {
  s_ports : is_u16 (src_port c) ∧ is_u16 (dst_port c);
  s_ips : is_u32 ip ∧ is_u32 (dst_ip_be c);
  s_seq : is_u32 (snd_nxt c);
  s_flags : is_u8 flags;
  s_bytes : bytes payload ∧ bytes opts;
  s_opts : (length opts `mod` 4 = 0) ∧ length opts ≤ 40;
  s_len : 20 + length opts + length payload ≤ 1500
}.

Lemma u8_bytes2 v : bytes (st16 v).
Proof. repeat constructor; apply u8_range. Qed.

(** The fixed part of the header: everything but the checksum. *)
Definition head16 (c : net_tcp_conn_t) (flags : Z) (opts : list Z) : list Z :=
  [src_port c / 2 ^ 8; src_port c `mod` 2 ^ 8; dst_port c / 2 ^ 8; dst_port c `mod` 2 ^ 8] ++ bytes4 (snd_nxt c) ++
  st32 (be32 (rcv_nxt c)) ++ [(20 + length opts) / 4 * 2 ^ 4; flags] ++ st16 (be16 (window_field c flags)).

Lemma segment_layout ip c flags payload opts v : seg_ok ip c flags payload opts → is_u16 v →
  segment c flags (be16 v) payload opts = head16 c flags opts ++ [v / 2 ^ 8; v `mod` 2 ^ 8] ++ [0; 0] ++ opts ++ payload.
Proof.
  intros [[P1 P2] _ Hs _ _ [_ Ho] _] Hv. unfold segment, head16. rewrite !(st16_be16 (src_port c)), !(st16_be16 (dst_port c)), (st16_be16 v), st32_be32 by done.
  replace (u8 (Z.shiftl ((TCP_LEN + length opts) / 4) 4)) with ((20 + length opts) / 4 * 2 ^ 4).
  - rewrite <- !app_assoc. done.
  - rewrite Z.shiftl_mul_pow2 by lia. unfold u8, TCP_LEN. rewrite Z.mod_small; [done|]. Z.div_mod_to_equations; lia.
Qed.
Lemma head16_bytes ip c flags payload opts : seg_ok ip c flags payload opts → bytes (head16 c flags opts) ∧ length (head16 c flags opts) = 16%nat.
Proof.
  intros [[P1 P2] _ Hs Hf _ [_ Ho] _]. split; [|done]. unfold head16. destruct (u16_bytes _ P1) as (?&?&_), (u16_bytes _ P2) as (?&?&_).
  repeat apply Forall_app_2; try apply u8_bytes2; [|by apply bytes4_ok|].
  - repeat apply Forall_cons_2; done || lia.
  - repeat apply Forall_cons_2; try done; []. Z.div_mod_to_equations; lia.
Qed.
Lemma pseudo_bytes a b n : bytes (pseudo a b n) ∧ length (pseudo a b n) = 12%nat.
Proof. split; [|done]. unfold pseudo. repeat (apply Forall_cons_2; [apply u8_range || lia|]). apply Forall_nil_2. Qed.

(** The checksum of a segment verifies at the other end. *)
Lemma tcp_checksum_ok a b h v t : bytes h → length h = 16%nat → bytes t → length t ≤ 1484 →
  v = tcp_checksum a b (h ++ [0; 0] ++ t) → is_u16 v ∧ tcp_checksum a b (h ++ [v / 2 ^ 8; v `mod` 2 ^ 8] ++ t) = 0xFFFF.
Proof.
  intros Bh Lh Bt Lt. unfold tcp_checksum. rewrite !length_app, Lh. cbn [length].
  set (p := pseudo a b _). destruct (pseudo_bytes a b (16 + (2 + length t))%nat) as [Bp Lp]. fold p in Bp, Lp.
  pose proof (word_sum_bound p Bp). pose proof (word_sum_bound h Bh). pose proof (word_sum_bound t Bt).
  assert (Hsum : ∀ x y, is_u8 x → is_u8 y →
    add_words (add_words 0 p) (h ++ [x; y] ++ t) = word_sum p + word_sum h + word_sum t + (2 ^ 8 * x + y)).
  { intros x y Hx Hy. rewrite (add_words_sum p) by (done || lia). assert (E : word_sum (h ++ [x; y] ++ t) = word_sum h + (2 ^ 8 * x + y + word_sum t)).
    { rewrite word_sum_app by (rewrite Lh; by exists 8%nat). done. }
    rewrite add_words_sum; [lia| |lia|lia]. repeat apply Forall_app_2; try done. repeat constructor; done || lia. }
  rewrite (Hsum 0 0) by lia. set (S := word_sum p + word_sum h + word_sum t). rewrite Z.mul_0_r, !Z.add_0_r.
  destruct (fold_carries_ok S) as (F1 & F2 & F3); [lia|]. rewrite lnot_u16 by lia. intros Hv.
  assert (is_u16 v ∧ v ≠ 0 ∧ v `mod` 65535 = (65535 - fold_carries 3 S) `mod` 65535) as (V1 & V2 & V3).
  { subst v. destruct (Z.eqb_spec (65535 - fold_carries 3 S) 0) as [E|E]; [rewrite E; done|]. split_and!; lia. }
  split; [done|]. destruct (u16_bytes v V1) as (B1 & B2 & B3). rewrite Hsum, B3 by done.
  rewrite fold_complement; [done|lia..|done].
Qed.

(** The other end of a connection. *)
Record peer_of (ip : Z) (c cb : net_tcp_conn_t) : Prop := {
  m_ip : dst_ip_be cb = ip;
  m_dport : dst_port cb = src_port c;
  m_sport : src_port cb = dst_port c
}.

Lemma wire_layout ip c flags payload opts : seg_ok ip c flags payload opts →
  ∃ v, wire_seg ip c flags payload opts = head16 c flags opts ++ [v / 2 ^ 8; v `mod` 2 ^ 8] ++ [0; 0] ++ opts ++ payload ∧
    tcp_checksum ip (dst_ip_be c) (wire_seg ip c flags payload opts) = 0xFFFF.
Proof.
  intros H. destruct (head16_bytes _ _ _ _ _ H) as [Bh Lh]. unfold wire_seg.
  pose proof (segment_layout _ _ _ _ _ 0 H ltac:(lia)) as E0. change (be16 0) with 0 in E0. change [0 / 2 ^ 8; 0 `mod` 2 ^ 8] with [0; 0] in E0. rewrite E0.
  set (v := tcp_checksum ip (dst_ip_be c) (head16 c flags opts ++ [0; 0] ++ [0; 0] ++ opts ++ payload)).
  pose proof H as [_ _ _ _ [B1 B2] [_ Ho] Hl].
  destruct (tcp_checksum_ok ip (dst_ip_be c) (head16 c flags opts) v ([0; 0] ++ opts ++ payload)) as [V1 V2]; try done.
  - repeat apply Forall_app_2; try done. repeat constructor; lia.
  - rewrite !length_app. cbn [length]. lia.
  - exists v. rewrite (segment_layout ip) by done. by split.
Qed.

Lemma slice_all_from f i l n : 0 ≤ i → drop (Z.to_nat i) f = l → length l ≤ n → slice f i n = l.
Proof. intros Hi <- Hn. unfold slice. apply take_ge. lia. Qed.

(** What a segment says is what the other end reads. *)
Lemma wire_decode ip c flags payload opts f cb : seg_ok ip c flags payload opts → peer_of ip c cb →
  carries_l4 f ip (dst_ip_be c) IPPROTO_TCP_LOCAL (wire_seg ip c flags payload opts) →
  ∃ ak, decode (dst_ip_be c) cb f = Some (flags, snd_nxt c, ak, payload) ∧ (is_u32 (rcv_nxt c) → ak = rcv_nxt c).
Proof.
  intros H [M1 M2 M3] C. destruct (wire_layout _ _ _ _ _ H) as (v & E & Hv). set (l := wire_seg ip c flags payload opts) in *.
  destruct C as [C1 C2 C3 C4 C5 C6 C7 C8 C9 _]. destruct (head16_bytes _ _ _ _ _ H) as [Bh Lh]. pose proof H as [[P1 P2] _ Hs _ _ [Ho4 Ho] Hl].
  assert (Ll : length l = (20 + length opts + length payload)%nat).
  { rewrite E, !length_app, Lh. cbn [length]. lia. }
  assert (Hb : ∀ i, 0 ≤ i → byte f (34 + i) = byte l i) by (intros i Hi; rewrite <- C9; by apply byte_drop).
  assert (Hw : ∀ i, 0 ≤ i → ld16 f (34 + i) = ld16 l i) by (intros i Hi; unfold ld16; rewrite <- Z.add_assoc, !Hb by lia; done).
  assert (Hd : ∀ i, 0 ≤ i → ld32 f (34 + i) = ld32 l i) by (intros i Hi; unfold ld32; rewrite <- Z.add_assoc, !Hw by lia; done).
  destruct (u16_bytes _ P1) as (S1 & S2 & S3), (u16_bytes _ P2) as (D1 & D2 & D3).
  assert (F1 : be16 (ld16 l 0) = src_port c) by (rewrite E; etransitivity; [apply (be16_ld16 _ _ S1 S2)|done]).
  assert (F2 : be16 (ld16 l 2) = dst_port c) by (rewrite E; etransitivity; [apply (be16_ld16 _ _ D1 D2)|done]).
  assert (F3 : be32 (ld32 l 4) = snd_nxt c) by (rewrite E; by apply bytes4_read).
  assert (F4 : byte l 12 = (20 + length opts) / 4 * 2 ^ 4) by (by rewrite E).
  assert (F5 : byte l 13 = flags) by (by rewrite E).
  exists (be32 (ld32 l 8)). split; [|intros Ha; rewrite E; unfold head16; rewrite (st32_be32 (rcv_nxt c)) by done; by apply bytes4_read].
  unfold decode, for_conn. fold (ihl_of f). rewrite C3. fold (ethertype f). rewrite C2.
  change (byte f (ETH_LEN + 9)) with (ip_proto f). rewrite C4. change (be32 (ld32 f (ETH_LEN + 16))) with (ip_dst f). rewrite C6.
  change (be32 (ld32 f (ETH_LEN + 12))) with (ip_src f). rewrite C5. change (ETH_LEN + 6) with 20. rewrite C8. change (ETH_LEN + 2) with 16. rewrite C7.
  change (ETH_LEN + 20) with 34. change (ld16 f 34) with (ld16 f (34 + 0)). rewrite !Hw, !Hd, !Hb, F1, F2, F3, F4, F5 by lia.
  assert (Hdoff : Z.shiftr ((20 + length opts) / 4 * 2 ^ 4) 4 * 4 = 20 + length opts).
  { rewrite Z.shiftr_div_pow2, Z.div_mul by lia. clear -Ho4. Z.div_mod_to_equations; lia. }
  rewrite Hdoff, M1, M2, M3, C1, Ll, !Z.eqb_refl. unfold ETH_LEN, IP_LEN, TCP_LEN.
  rewrite !(proj2 (Z.ltb_ge (Z.of_nat _) _)) by lia. rewrite !(proj2 (Z.ltb_ge (20 + _) _)) by lia.
  rewrite (proj2 (Z.ltb_ge 60 _)) by lia.
  rewrite (slice_all_from f 34 l) by (done || lia). rewrite Hv. cbn [negb andb orb nz Z.eqb Pos.eqb]. change (nz (0 &u 8191)) with false.
  rewrite !(proj2 (Z.ltb_ge (_ - _) _)) by lia. cbn [negb andb orb Z.ltb Z.compare Pos.compare Pos.compare_cont]. do 2 f_equal. apply slice_all_from; [lia| |lia].
  replace (Z.to_nat (34 + (20 + length opts))) with (34 + (20 + length opts))%nat by lia. rewrite <- drop_drop, C9, E.
  rewrite (app_assoc [0; 0]), (app_assoc [v / 2 ^ 8; _]), (app_assoc (head16 _ _ _)), drop_app_length'; [done|].
  rewrite !length_app, Lh. cbn [length]. lia.
Qed.
