(* ===== verification/TcpEnd.v ===== *)
(** The sending side of TCP: every segment an endpoint sends carries the accepted data in
    its place; with the receiving side, end to end delivery. *)
From S2P Require Import Prelude NetBytes Tcp Net NetProps TcpStream TcpProps TcpWire.
Import Tcp Net.

(** What reception leaves alone. *)
Definition key (c : net_tcp_conn_t) := (ids c, snd_nxt c).

Lemma key_scan c : key (merge_round c).1 = key c ∧ connect_pending (merge_round c).1 = connect_pending c.
Proof.
  unfold merge_round. destruct (scan _ _ _ _ _) as [[l n] [[j b]|]]; [|done].
  destruct (_ =? 0); [done|]. by destruct (_ =? _).
Qed.
Lemma key_merge c : key (tcp_try_merge_ooo c) = key c ∧ connect_pending (tcp_try_merge_ooo c) = connect_pending c.
Proof.
  unfold tcp_try_merge_ooo. generalize (S (length (ooo c))). intros k. revert c. induction k as [|k IH]; intros c; cbn [merge_loop]; [done|].
  pose proof (key_scan c) as [H1 H2]. destruct (merge_round c) as [c1 go]. cbn [fst] in *. destruct go; [|done].
  destruct (IH c1) as [-> ->]. done.
Qed.
Lemma key_accept c sq pl : key (tcp_accept_inorder c sq pl).1 = key c ∧ connect_pending (tcp_accept_inorder c sq pl).1 = connect_pending c.
Proof. unfold tcp_accept_inorder. by repeat case_match. Qed.
Lemma key_store c sq pl : key (tcp_store_ooo c sq pl) = key c ∧ connect_pending (tcp_store_ooo c sq pl) = connect_pending c.
Proof. unfold tcp_store_ooo. by repeat case_match. Qed.
Lemma key_take_data c sq pl : key (take_data c sq pl) = key c ∧ connect_pending (take_data c sq pl) = connect_pending c.
Proof.
  unfold take_data. destruct (_ || _); [|apply key_store]. pose proof (key_accept c sq pl) as [H1 H2].
  destruct (tcp_accept_inorder c sq pl) as [c1 acc]. cbn [fst] in *. set (c2 := if _ && _ then _ else c1).
  assert (key c2 = key c ∧ connect_pending c2 = connect_pending c) as [<- <-]; [|apply key_merge].
  unfold c2. destruct (_ && _); [|done]. destruct (_ <? _); [|done].
  match goal with |- context [tcp_store_ooo c1 ?s ?p] => destruct (key_store c1 s p) as [-> ->] end. done.
Qed.
Lemma key_rx_ensure c w : key (net_tcp_rx_ensure c w).1.1 = key c ∧ connect_pending (net_tcp_rx_ensure c w).1.1 = connect_pending c ∧
  sent (net_tcp_rx_ensure c w).1.2 = sent w.
Proof.
  unfold net_tcp_rx_ensure. destruct (_ && _); [done|]. generalize ([256 * 1024; 128 * 1024; 64 * 1024]). intros l. revert c w.
  induction l as [|n l IH]; intros c w; [done|]. cbn [rx_alloc]. unfold kmalloc. destruct (blocks w) as [|p ps].
  - cbn [nz Z.eqb negb]. by destruct (IH (c <| rx_buf := 0 |>) w) as (-> & -> & ->).
  - destruct (nz p); [done|]. by destruct (IH (c <| rx_buf := p |>) (w <| blocks := ps |>)) as (-> & -> & ->).
Qed.

Section sender.
Context (ip : Z) (clk : nat → Z).

(** The segment [s] of the connection [i] has these flags, sequence number and data. *)
Definition sent_as (i : Z * Z * Z) (fl sq : Z) (pl s : list Z) : Prop :=
  ∃ c, ids c = i ∧ snd_nxt c = sq ∧ seg_ok ip c fl pl [] ∧ s = wire_seg ip c fl pl [].

(** A connection past its handshake. *)
Definition calm (c : net_tcp_conn_t) : Prop := connect_pending c = false ∧ seg_ok ip c 0x10 [] [].

(** Only acknowledgements were sent. *)
Record quiet (c : net_tcp_conn_t) (w : world) (c' : net_tcp_conn_t) (w' : world) : Prop := {
  y_calm : calm c';
  y_key : key c' = key c;
  y_sent : ∃ l, sent w' = sent w ++ l ∧ Forall (sent_as (ids c) 0x10 (snd_nxt c) []) l
}.

Lemma calm_key c c' : calm c → key c' = key c → connect_pending c' = connect_pending c → calm c'.
Proof.
  unfold key, ids. intros [H1 [? ? ? ? ? ? ?]] [= E1 E2 E3 E4] Hp. split; [congruence|]. destruct c, c'. cbn in *. subst. by split.
Qed.
Lemma quiet_upd c w c' w' : calm c → key c' = key c → connect_pending c' = connect_pending c → sent w' = sent w → quiet c w c' w'.
Proof. intros H E Hp Hs. split; [by eapply calm_key|done|]. exists []. by rewrite app_nil_r. Qed.
Lemma quiet_refl c w : calm c → quiet c w c w.
Proof. intros. by apply quiet_upd. Qed.
Lemma quiet_trans c w c1 w1 c2 w2 : quiet c w c1 w1 → (calm c1 → quiet c1 w1 c2 w2) → quiet c w c2 w2.
Proof.
  intros [A1 A2 (l1 & A3 & A4)] H. destruct (H A1) as [B1 B2 (l2 & B3 & B4)]. split; [done|congruence|].
  exists (l1 ++ l2). split; [by rewrite B3, A3, app_assoc|]. apply Forall_app_2; [done|]. change (ids c) with (key c).1. change (snd_nxt c) with (key c).2. by rewrite <- A2.
Qed.

Lemma quiet_world c w w0 c' w' : sent w0 = sent w → quiet c w0 c' w' → quiet c w c' w'.
Proof. intros E [H1 H2 (l & H3 & H4)]. split; [done..|]. exists l. by rewrite H3, E. Qed.

Lemma send_seg_sent c w fl pl : 20 + length pl ≤ 1500 →
  let '(w', r) := tcp_send_seg ip c w fl pl in
  (r = 0 ∧ sent w' = sent w ++ [wire_seg ip c fl pl []]) ∨ (r = -1 ∧ sent w' = sent w).
Proof.
  intros Hl. unfold tcp_send_seg, tcp_send_seg_len. cbn [length]. unfold TCP_LEN. change (nz ((20 + 0%nat) `mod` 4)) with false.
  rewrite (proj2 (Z.ltb_ge 1500 _)) by lia. cbn [orb]. unfold send_l4. destruct (refusals w) as [|[] l]; cbn; auto.
Qed.
Lemma ack_quiet c w : calm c → quiet c w c (tcp_send_seg ip c w 0x10 []).1.
Proof.
  intros H. pose proof (send_seg_sent c w 0x10 [] ltac:(cbn; lia)) as S. destruct (tcp_send_seg _ _ _ _ _) as [w' r]. cbn [fst].
  destruct S as [[_ S]|[_ S]]; [|by apply quiet_upd]. split; [done|done|]. eexists. split; [done|]. repeat constructor. by exists c; destruct H.
Qed.

(** * Reception *)

Lemma fin_quiet c w : calm c → quiet c w (tcp_try_complete_fin ip c w).1 (tcp_try_complete_fin ip c w).2.
Proof.
  intros H. unfold tcp_try_complete_fin. destruct (_ || _); [by apply quiet_refl|]. destruct (negb _); [by apply quiet_refl|]. cbn [fst snd].
  eapply quiet_trans; [|apply ack_quiet]. by apply quiet_upd.
Qed.
Lemma merge_fin_quiet c w : calm c →
  quiet c w (tcp_try_complete_fin ip (tcp_try_merge_ooo c) w).1 (tcp_try_complete_fin ip (tcp_try_merge_ooo c) w).2.
Proof. intros H. destruct (key_merge c). eapply quiet_trans; [by apply (quiet_upd c w (tcp_try_merge_ooo c) w)|apply fin_quiet]. Qed.
Lemma rx_fin_quiet c w sq : calm c → quiet c w (rx_fin ip c w sq).1 (rx_fin ip c w sq).2.
Proof.
  intros H. unfold rx_fin. destruct (_ && _ && _); [by apply quiet_refl|]. destruct (sq =? rcv_nxt c).
  { cbn [fst snd]. eapply quiet_trans; [|apply ack_quiet]. by apply quiet_upd. }
  destruct (negb _); [cbn [fst snd]; destruct (_ || _); [by apply ack_quiet|by apply quiet_refl]|].
  eapply quiet_trans; [|apply fin_quiet]. eapply quiet_trans; [|apply ack_quiet]. by apply quiet_upd.
Qed.
Lemma rx_data_quiet c w sq pl : calm c → quiet c w (rx_data ip c w sq pl).1.1 (rx_data ip c w sq pl).1.2.
Proof.
  intros H. unfold rx_data. pose proof (key_rx_ensure c w) as (E1 & E2 & E3). destruct (net_tcp_rx_ensure c w) as [[c1 w1] r].
  cbn [fst snd] in *. assert (quiet c w c1 w1) as Q by (by apply quiet_upd). destruct (nz r).
  { eapply quiet_trans; [exact Q|]. apply ack_quiet. }
  destruct (key_take_data c1 sq pl) as [T1 T2]. eapply quiet_trans; [exact Q|]. intros H1.
  pose proof (fin_quiet (take_data c1 sq pl) w1 ltac:(by eapply calm_key)) as Q2. destruct (tcp_try_complete_fin _ _ _) as [c2 w2]. cbn [fst snd] in *.
  eapply quiet_trans; [by apply (quiet_upd c1 w1 (take_data c1 sq pl) w1)|]. intros _. eapply quiet_trans; [exact Q2|]. apply ack_quiet.
Qed.
Lemma apply_ack_quiet c w ak : calm c → quiet c w (tcp_apply_ack c ak) w.
Proof. intros H. unfold tcp_apply_ack. destruct (_ =? _); [by apply quiet_refl|]. destruct (_ && _); [by apply quiet_upd|by apply quiet_refl]. Qed.
Lemma rx_segment_quiet c w fl sq ak pl : calm c →
  quiet c w (rx_segment ip c w fl sq ak pl).1.1 (rx_segment ip c w fl sq ak pl).1.2.
Proof.
  intros H. pose proof H as [Hp _]. unfold rx_segment. destruct (nz (fl &u 4)); [cbn [fst snd]|].
  { unfold rx_rst. rewrite Hp. cbn [andb]. destruct (established c); [|by apply quiet_refl]. destruct (sq =? _); [by apply quiet_upd|].
    destruct (tcp_seq_in_window _ _ _); [by apply ack_quiet|by apply quiet_refl]. }
  destruct (_ && _ && _); [cbn [fst snd]; unfold rx_synack; rewrite Hp; by apply quiet_refl|].
  pose proof (apply_ack_quiet c w ak H) as Q. set (c1 := tcp_apply_ack c ak) in *. destruct (_ =? 0).
  { destruct (_ && _ && _); [done|]. destruct (nz _); [|done]. eapply quiet_trans; [exact Q|]. apply rx_fin_quiet. }
  eapply quiet_trans; [exact Q|]. intros H1. pose proof (rx_data_quiet c1 w sq pl H1) as Q2. destruct (rx_data _ _ _ _ _) as [[c2 w2] go]. cbn [fst snd] in *.
  destruct (go && _); [|done]. eapply quiet_trans; [exact Q2|]. apply rx_fin_quiet.
Qed.
Lemma service_frame_quiet c w f : calm c → quiet c w (service_frame ip c w f).1.1 (service_frame ip c w f).1.2.
Proof.
  intros H. unfold service_frame. cbv zeta. destruct (negb (for_conn ip c f)); [by apply quiet_upd|].
  set (c1 := if connect_pending c && negb (established c) then _ else c).
  assert (key c1 = key c ∧ connect_pending c1 = connect_pending c) as [K1 P1] by (unfold c1; by destruct (_ && _)). clearbody c1.
  destruct (_ || _); [by apply quiet_upd|]. destruct (_ <? _); [by apply quiet_upd|]. destruct (_ <? _); [by apply quiet_upd|].
  match goal with |- context [dst_ip_be (if ?b then ?x else _)] => set (c2 := if b then x else c1) end.
  assert (key c2 = key c ∧ connect_pending c2 = connect_pending c) as [K2 P2] by (unfold c2; by destruct (_ && _)). clearbody c2.
  destruct (_ || _); [by apply quiet_upd|]. eapply quiet_trans; [by apply (quiet_upd c w c2 w)|]. apply rx_segment_quiet.
Qed.
Lemma service_quiet k c w got : calm c → quiet c w (net_tcp_service ip k c w got).1.1 (net_tcp_service ip k c w got).1.2.
Proof.
  revert c w got. induction k as [|k IH]; intros c w got H; [by apply quiet_refl|]. cbn [net_tcp_service].
  assert (quiet c w c (recv_frame w).1) as Q by (unfold recv_frame; destruct (frames w); by apply quiet_upd).
  destruct (recv_frame w) as [w1 f]. destruct (_ =? 0); [done|]. eapply quiet_trans; [exact Q|]. intros _.
  pose proof (service_frame_quiet c w1 f H) as Q1. destruct (service_frame _ _ _ _) as [[c2 w2] g]. eapply quiet_trans; [exact Q1|]. apply IH.
Qed.
Lemma service1_quiet k c w : calm c → quiet c w (service ip k c w).1 (service ip k c w).2.
Proof. apply service_quiet. Qed.

Lemma window_update_quiet c w : calm c → quiet c w (net_tcp_window_update ip c w).1.1 (net_tcp_window_update ip c w).1.2.
Proof.
  intros H. unfold net_tcp_window_update. destruct (_ && _ && _ && _); [by apply quiet_refl|].
  pose proof (merge_fin_quiet c w H) as Q. destruct (tcp_try_complete_fin _ _ _) as [c1 w1]. cbn [fst snd] in Q.
  pose proof (ack_quiet c1 w1 (y_calm _ _ _ _ Q)) as Q1. destruct (tcp_send_seg _ _ _ _ _) as [w2 r]. cbn [fst snd] in *.
  by eapply quiet_trans.
Qed.
Lemma send_poll_quiet k i c w upto : calm c → quiet c w (send_poll ip k i c w upto).1 (send_poll ip k i c w upto).2.
Proof.
  revert i c w. induction k as [|k IH]; intros i c w H; [by apply quiet_refl|]. cbn [send_poll].
  pose proof (service1_quiet 8 c w H) as Q. destruct (service _ _ _ _) as [c1 w1]. cbn [fst snd] in Q.
  destruct (_ <=? _); [done|]. eapply quiet_trans; [exact Q|]. intros H1. eapply quiet_trans; [|apply IH].
  apply quiet_upd; try done. by destruct (_ =? 3).
Qed.
Lemma flush_wait_quiet fuel c w st t c' w' r : calm c → flush_wait ip clk fuel c w st t = Some (c', w', r) → quiet c w c' w'.
Proof.
  revert c w. induction fuel as [|k IH]; intros c w H; [done|]. cbn [flush_wait]. unfold time_ms. destruct (negb _).
  { intros [= <- <- _]. by apply quiet_upd. }
  match goal with |- context [service _ 16 c ?w0] => pose proof (quiet_world c w w0 _ _ eq_refl (service1_quiet 16 c w0 H)) as Q; destruct (service ip 16 c w0) as [c1 w1] end. cbn [fst snd] in Q.
  destruct (_ <=? _); [by intros [= <- <- _]|]. intros E. eapply quiet_trans; [exact Q|]. intros H1. apply (quiet_world c1 w1 (yield w1)); [done|]. by apply IH.
Qed.
Lemma service_n_quiet k b c w : calm c → quiet c w (service_n ip k b c w).1 (service_n ip k b c w).2.
Proof.
  revert c w. induction k as [|k IH]; intros c w H; [by apply quiet_refl|]. cbn [service_n].
  pose proof (service1_quiet b c w H) as Q. destruct (service _ _ _ _) as [c1 w1]. cbn [fst snd] in Q. eapply quiet_trans; [exact Q|]. apply IH.
Qed.
Lemma rexmit_quiet c w : calm c → quiet c w (tcp_rexmit_syn_if_due ip clk c w).1 (tcp_rexmit_syn_if_due ip clk c w).2.
Proof. intros H. pose proof H as [Hp _]. unfold tcp_rexmit_syn_if_due. rewrite Hp. by apply quiet_refl. Qed.
Lemma no_pending_quiet c w c' w' : quiet c w c' w' → quiet c w (no_pending c') w'.
Proof. intros Q. eapply quiet_trans; [exact Q|]. intros [H1 H2]. by apply quiet_upd. Qed.
Lemma connect_wait_quiet fuel c w st t c' w' r : calm c → connect_wait ip clk fuel c w st t = Some (c', w', r) → quiet c w c' w'.
Proof.
  revert c w. induction fuel as [|k IH]; intros c w H; [done|]. cbn [connect_wait]. unfold time_ms. destruct (negb _).
  { intros [= <- <- _]. apply no_pending_quiet. by apply quiet_upd. }
  match goal with |- context [service _ 16 c ?w0] => pose proof (quiet_world c w w0 _ _ eq_refl (service1_quiet 16 c w0 H)) as Q1; destruct (service ip 16 c w0) as [c1 w1] end.
  cbn [fst snd] in Q1. destruct (connect_done c1); [intros [= <- <- _]; by apply no_pending_quiet|].
  pose proof (quiet_trans _ _ _ _ _ _ Q1 (service1_quiet 16 c1 w1)) as Q2. destruct (service _ _ _ _) as [c2 w2]. cbn [fst snd] in Q2.
  destruct (connect_done c2); [intros [= <- <- _]; by apply no_pending_quiet|].
  pose proof (quiet_trans _ _ _ _ _ _ Q2 (rexmit_quiet c2 w2)) as Q3. destruct (tcp_rexmit_syn_if_due _ _ _ _) as [c3 w3]. cbn [fst snd] in Q3.
  pose proof (quiet_trans _ _ _ _ _ _ Q3 (service_n_quiet 4 16 c3 w3)) as Q4. destruct (service_n _ _ _ _ _) as [c4 w4]. cbn [fst snd] in Q4.
  destruct (connect_done c4); [intros [= <- <- _]; by apply no_pending_quiet|]. intros E. eapply quiet_trans; [exact Q4|]. intros H4. by apply IH.
Qed.
Lemma poll_quiet fuel c w t c' w' r : calm c → net_tcp_connect_poll ip clk fuel c w t = Some (c', w', r) → quiet c w c' w'.
Proof.
  intros H. assert (Q0 : quiet c w (no_pending c) w) by (by apply no_pending_quiet, quiet_refl).
  unfold net_tcp_connect_poll. destruct (connect_done c); [by intros [= <- <- _]|].
  destruct (connect_timed_out c); [by intros [= <- <- _]|]. destruct (_ && _); [intros [= <- <- _]; by apply quiet_refl|].
  unfold time_ms. destruct (t =? 0).
  - match goal with |- context [service _ 8 c ?w0] => pose proof (quiet_world c w w0 _ _ eq_refl (service1_quiet 8 c w0 H)) as Q1; destruct (service ip 8 c w0) as [c1 w1] end.
    cbn [fst snd] in Q1. pose proof (quiet_trans _ _ _ _ _ _ Q1 (rexmit_quiet c1 w1)) as Q3. destruct (tcp_rexmit_syn_if_due _ _ _ _) as [c3 w3]. cbn [fst snd] in Q3.
    destruct (connect_done c3); [intros [= <- <- _]; by apply no_pending_quiet|]. apply no_pending_quiet in Q3 as Q4.
    destruct (_ <=? _); intros [= <- <- _]; [|done]. eapply quiet_trans; [exact Q4|]. intros H4. by apply quiet_upd.
  - intros E. eapply quiet_world; [|by eapply connect_wait_quiet]. done.
Qed.
Lemma drain_rx_quiet k c w : calm c → quiet c w (net_tcp_drain_rx ip k c w).1 (net_tcp_drain_rx ip k c w).2.
Proof.
  revert c w. induction k as [|k IH]; intros c w H; [by apply quiet_refl|]. cbn [net_tcp_drain_rx].
  pose proof (service1_quiet 16 c w H) as Q. destruct (service _ _ _ _) as [c1 w1]. cbn [fst snd] in Q.
  destruct (_ <? _); [done|]. eapply quiet_trans; [exact Q|]. apply IH.
Qed.
Lemma take_rx_quiet c w cap : calm c → quiet c w (take_rx c cap).1 w.
Proof. intros H. by apply quiet_upd. Qed.
Lemma recv_wait_quiet fuel c w cap st lw t c' w' r out : calm c → recv_wait ip clk fuel c w cap st lw t = Some (c', w', r, out) → quiet c w c' w'.
Proof.
  revert c w lw. induction fuel as [|k IH]; intros c w lw H; [done|]. cbn [recv_wait].
  pose proof (drain_rx_quiet 1 c w H) as Q1. destruct (net_tcp_drain_rx _ _ _ _) as [c1 w1]. cbn [fst snd] in Q1. destruct (_ <? _).
  { pose proof (quiet_trans _ _ _ _ _ _ Q1 (take_rx_quiet c1 w1 cap)) as Q2. destruct (take_rx c1 cap) as [c2 o]. cbn [fst] in Q2.
    pose proof (quiet_trans _ _ _ _ _ _ Q2 (window_update_quiet c2 w1)) as Q3. destruct (net_tcp_window_update _ _ _) as [[c3 w3] r3]. by intros [= <- <- _ _]. }
  destruct (peer_rst c1); [by intros [= <- <- _ _]|]. destruct (peer_fin c1); [by intros [= <- <- _ _]|]. unfold time_ms.
  assert (Hnext : ∀ c2 w2 lw2, quiet c w c2 w2 → let w3 := if nz t then yield w2 else w2 in
    (if clk (now w3) -u st <? t then recv_wait ip clk k c2 (w3 <| now := S (now w3) |>) cap st lw2 t else Some (c2, w3 <| now := S (now w3) |>, -2, [])) = Some (c', w', r, out) → quiet c w c' w').
  { intros c2 w2 lw2 Q w3. assert (sent (w3 <| now := S (now w3) |>) = sent w2) as E by (unfold w3; by destruct (nz t)).
    destruct (_ <? _); intros Hr; eapply quiet_trans; [exact Q| |exact Q|]; intros H2.
    - eapply quiet_world; [exact E|]. by eapply IH.
    - injection Hr as <- <- _ _. by apply quiet_upd. }
  match goal with |- context [if 50 <=? ?a then _ else _] => destruct (50 <=? a) end.
  - match goal with |- context [net_tcp_window_update _ c1 ?w0] => pose proof (quiet_trans _ _ _ _ _ _ Q1 (λ H1, quiet_world c1 w1 w0 _ _ eq_refl (window_update_quiet c1 w0 H1))) as Q2; destruct (net_tcp_window_update ip c1 w0) as [[c2 w2] r2] end.
    by apply Hnext.
  - apply (Hnext c1 (time_ms clk w1).1). eapply quiet_trans; [exact Q1|]. intros H1. by apply quiet_upd.
Qed.
Lemma recv_quiet fuel c w cap t c' w' r out : calm c → net_tcp_recv ip clk fuel c w cap t = Some (c', w', r, out) → quiet c w c' w'.
Proof.
  intros H. unfold net_tcp_recv. destruct (cap =? 0); [intros [= <- <- _ _]; by apply quiet_refl|].
  pose proof (merge_fin_quiet c w H) as Q1. destruct (tcp_try_complete_fin _ _ _) as [c1 w1]. cbn [fst snd] in Q1. destruct (_ <? _).
  - pose proof (quiet_trans _ _ _ _ _ _ Q1 (take_rx_quiet c1 w1 cap)) as Q2. destruct (take_rx c1 cap) as [c2 o]. cbn [fst] in Q2.
    pose proof (quiet_trans _ _ _ _ _ _ Q2 (merge_fin_quiet c2 w1)) as Q3. destruct (tcp_try_complete_fin _ _ _) as [c3 w3]. cbn [fst snd] in Q3.
    pose proof (quiet_trans _ _ _ _ _ _ Q3 (window_update_quiet c3 w3)) as Q4. destruct (net_tcp_window_update _ _ _) as [[c4 w4] r4]. by intros [= <- <- _ _].
  - intros E. eapply quiet_trans; [exact Q1|]. intros H1. apply (quiet_world c1 w1 (time_ms clk w1).1); [done|]. exact (recv_wait_quiet _ _ _ _ _ _ _ _ _ _ _ H1 E).
Qed.

(** * Sending *)

Section stream.
Context (base : Z) (i : Z * Z * Z).

(** The bytes [S] were accepted so far, and every segment sent has some of them in their
    place, or none. *)
Definition in_place (S s : list Z) : Prop :=
  ∃ fl sq pl, sent_as i fl sq pl s ∧ nz (fl &u 0x01) = false ∧ (0 < length pl → ∃ o, sq = u32 (base + o) ∧ part_of S o pl).
Record sending (c : net_tcp_conn_t) (w : world) (S : list Z) : Prop := {
  d_calm : calm c;
  d_ids : ids c = i;
  d_nxt : snd_nxt c = u32 (base + length S);
  d_sent : Forall (in_place S) (sent w)
}.

Lemma part_of_app S d o pl : part_of S o pl → part_of (S ++ d) o pl.
Proof.
  intros (H1 & H2 & H3). split; [done|]. rewrite length_app. split; [lia|]. rewrite H3 at 1. unfold slice.
  rewrite drop_app_le by lia. rewrite take_app_le; [done|]. rewrite length_drop. lia.
Qed.
Lemma in_place_app S d s : in_place S s → in_place (S ++ d) s.
Proof. intros (fl & sq & pl & H1 & H2 & H3). exists fl, sq, pl. split_and!; [done..|]. intros Hl. destruct (H3 Hl) as (o & ? & ?). exists o. split; [done|by apply part_of_app]. Qed.
Lemma quiet_sending c w c' w' S : quiet c w c' w' → sending c w S → sending c' w' S.
Proof.
  intros [Q1 Q2 (l & Q3 & Q4)] [D1 D2 D3 D4]. split; [done| | |].
  - change (ids c') with (key c').1. by rewrite Q2.
  - change (snd_nxt c') with (key c').2. by rewrite Q2.
  - rewrite Q3. apply Forall_app_2; [done|]. eapply Forall_impl; [exact Q4|]. intros s Hs. rewrite D2 in Hs. exists 0x10, (snd_nxt c), [].
    split_and!; [done..|]. cbn. lia.
Qed.
Lemma calm_seg c fl pl : calm c → is_u8 fl → bytes pl → 20 + length pl ≤ 1500 → seg_ok ip c fl pl [].
Proof. intros [_ [? ? ? _ _ _ _]] Hf Hb Hl. by split. Qed.

Lemma send_chunk c w S pl w' : sending c w S → bytes pl → 0 < length pl ≤ 1460 → tcp_send_seg ip c w 0x18 pl = (w', 0) →
  sending (c <| snd_nxt := u32 (snd_nxt c + u32 (length pl)) |>) w' (S ++ pl).
Proof.
  intros [D1 D2 D3 D4] Hb Hl E. pose proof (send_seg_sent c w 0x18 pl ltac:(lia)) as Hs. rewrite E in Hs. destruct Hs as [[_ Hs]|[? _]]; [|done].
  pose proof (calm_seg c 0x18 pl D1 ltac:(lia) Hb ltac:(lia)) as Hok. split.
  - destruct D1 as [Hp [? ? ? ? ? ? ?]]. split; [done|]. split; try done. apply u32_range.
  - done.
  - cbn. rewrite D3, (u32_small (length pl)), length_app by lia. unfold u32. rewrite Zplus_mod_idemp_l. f_equal. lia.
  - rewrite Hs. apply Forall_app_2; [eapply Forall_impl; [exact D4|]; intros; by apply in_place_app|]. repeat constructor.
    exists 0x18, (snd_nxt c), pl. split_and!; [by exists c|done|]. intros _. exists (length S). split; [done|]. split_and!; [lia|rewrite length_app; lia|].
    unfold slice. rewrite !Nat2Z.id, drop_app_length. rewrite take_ge; [done|lia].
Qed.

Lemma send_loop_sending fuel c w data off S c' w' r : sending c w S → bytes data → (length data ≤ fuel)%nat → 0 ≤ off → off + length data < 2 ^ 31 →
  send_loop ip fuel c w data off = (c', w', r) →
  ∃ n, (n ≤ length data)%nat ∧ sending c' w' (S ++ take n data) ∧ ((r = -1 ∧ off = 0 ∧ n = O) ∨ r = off + n).
Proof.
  revert c w data off S. induction fuel as [|k IH]; intros c w data off S D B Hf Ho Hd; cbn [send_loop].
  { intros [= <- <- <-]. exists O. rewrite take_0, app_nil_r. split_and!; [lia|done|]. right. rewrite s32_small by lia. lia. }
  destruct data as [|x data].
  { intros [= <- <- <-]. exists O. rewrite app_nil_r. split_and!; [done|done|]. right. rewrite s32_small by lia. lia. }
  set (l := x :: data) in *. set (chunk := if 1460 <? length l then 1460 else Z.of_nat (length l)).
  assert (Hc : 0 < chunk ≤ length l ∧ chunk ≤ 1460) by (unfold chunk; destruct (Z.ltb_spec 1460 (length l)); unfold l in *; cbn [length] in *; lia).
  assert (Hlen : Z.of_nat (length (slice l 0 chunk)) = chunk) by (apply slice_length; lia).
  destruct (tcp_send_seg ip c w 0x18 (slice l 0 chunk)) as [w1 r1] eqn:E1.
  pose proof (send_seg_sent c w 0x18 (slice l 0 chunk) ltac:(lia)) as Hs. rewrite E1 in Hs.
  destruct Hs as [[-> Hs]|[-> Hs]]; cbn [nz Z.eqb negb].
  - pose proof (send_chunk c w S (slice l 0 chunk) w1 D ltac:(by apply bytes_slice) ltac:(lia) E1) as D1. rewrite Hlen in D1.
    match goal with |- context [send_poll ip 32 0 ?c1 w1 ?u] => pose proof (quiet_sending _ _ _ _ _ (send_poll_quiet 32 0 c1 w1 u (d_calm _ _ _ D1)) D1) as D2; destruct (send_poll ip 32 0 c1 w1 u) as [c2 w2] end.
    cbn [fst snd] in D2. intros E. eapply IH in E as (n & Hn & D3 & Hr); [|exact D2|by apply Forall_drop|rewrite length_drop; lia|lia|rewrite length_drop; lia].
    rewrite length_drop in Hn. exists (Z.to_nat chunk + n)%nat. split; [lia|]. split; [|right; lia].
    replace (S ++ take (Z.to_nat chunk + n) l) with ((S ++ slice l 0 chunk) ++ take n (drop (Z.to_nat chunk) l)); [done|].
    rewrite <- app_assoc. f_equal. unfold slice. rewrite drop_0. by rewrite take_take_drop.
  - intros [= <- <- <-]. exists O. rewrite take_0, app_nil_r. split_and!; [lia| |].
    + destruct D as [D1 D2 D3 D4]. split; try done. by rewrite Hs.
    + destruct (Z.ltb_spec 0 off); [right; rewrite s32_small by lia; lia|left; lia].
Qed.
End stream.
End sender.

(** * Calls on the sending side *)

Definition accepted (a : call) (r : Z) : list Z := match a with Send data => take (Z.to_nat r) data | _ => [] end.
Definition data_ok (a : call) : Prop := match a with Send data => bytes data ∧ length data < 2 ^ 31 | _ => True end.

(** A run of calls, with the bytes that the sends accepted. *)
Fixpoint run_accepted (ip : Z) (clk : nat → Z) (c : net_tcp_conn_t) (w : world) (as_ : list call) :
    option (net_tcp_conn_t * world * list Z) :=
  match as_ with
  | [] => Some (c, w, [])
  | a :: as_ =>
      '(c, w, r, _) ← run_call ip clk c w a;
      '(c, w, data) ← run_accepted ip clk c w as_;
      Some (c, w, accepted a r ++ data)
  end.

Section calls.
Context (ip : Z) (clk : nat → Z) (base : Z) (i : Z * Z * Z).

Lemma run_call_sending c w a c' w' r out S : data_ok a → sending ip base i c w S → run_call ip clk c w a = Some (c', w', r, out) →
  sending ip base i c' w' (S ++ accepted a r).
Proof.
  intros Ha D. assert (Hq : ∀ c' w', quiet ip c w c' w' → sending ip base i c' w' (S ++ [])).
  { intros c1 w1 Q. rewrite app_nil_r. by eapply quiet_sending. }
  pose proof (d_calm _ _ _ _ _ _ D) as H. destruct a as [cap t fuel|data|k| | |t fuel|t fuel]; cbn [run_call accepted].
  - intros E. apply Hq. by eapply recv_quiet.
  - destruct (net_tcp_send ip c w data) as [[c1 w1] r1] eqn:E. intros [= <- <- <- <-]. revert E. unfold net_tcp_send. destruct (established c); cbn [negb].
    + destruct Ha as [B L]. intros E. eapply send_loop_sending in E as (n & Hn & D' & Hr); [|done..|lia|lia].
      replace (Z.to_nat r1) with n by (destruct Hr as [(-> & _ & ->)| ->]; [done|lia]). done.
    + intros [= <- <- <-]. by rewrite app_nil_r.
  - pose proof (service_quiet ip k c w false H) as Q. destruct (net_tcp_service _ _ _ _ _) as [[c1 w1] g]. intros [= <- <- _ _]. by apply Hq.
  - pose proof (window_update_quiet ip c w H) as Q. destruct (net_tcp_window_update _ _ _) as [[c1 w1] r1]. intros [= <- <- _ _]. by apply Hq.
  - unfold net_tcp_send_ack. destruct (negb _); [intros [= <- <- _ _]; by apply Hq, quiet_refl|].
    pose proof (ack_quiet ip c w H) as Q. destruct (tcp_send_seg _ _ _ _ _) as [w1 r1]. intros [= <- <- _ _]. by apply Hq.
  - intros ([[c1 w1] r1] & E & [= <- <- _ _])%bind_Some. apply Hq. revert E. unfold net_tcp_flush_tx.
    destruct (_ || _); [intros [= <- <- _]; by apply quiet_refl|]. intros E.
    apply (quiet_world ip c w (time_ms clk w).1); [done|]. exact (flush_wait_quiet ip clk _ _ _ _ _ _ _ _ H E).
  - intros ([[c1 w1] r1] & E & [= <- <- _ _])%bind_Some. apply Hq. by eapply poll_quiet.
Qed.
Lemma run_accepted_sending as_ c w c' w' S0 S : Forall data_ok as_ → sending ip base i c w S0 →
  run_accepted ip clk c w as_ = Some (c', w', S) → sending ip base i c' w' (S0 ++ S).
Proof.
  revert c w S0 S. induction as_ as [|a as_ IH]; intros c w S0 S Ha D; cbn [run_accepted]; [intros [= <- <- <-]; by rewrite app_nil_r|].
  inversion Ha; subst. intros ([[[c1 w1] r1] o1] & E1 & ([[c2 w2] S2] & E2 & [= <- <- <-])%bind_Some)%bind_Some.
  rewrite app_assoc. eapply IH; [done| |exact E2]. by eapply run_call_sending.
Qed.

(** The FIN of [net_tcp_close] is at the end of the data. *)
Lemma close_sent c w S : sending ip base i c w S →
  Forall (λ s, ∃ fl sq pl, sent_as ip i fl sq pl s ∧ seg_of_stream S base fl sq pl) (sent (net_tcp_close ip c w).1.2).
Proof.
  intros D. assert (Hold : Forall (λ s, ∃ fl sq pl, sent_as ip i fl sq pl s ∧ seg_of_stream S base fl sq pl) (sent w)).
  { eapply Forall_impl; [apply (d_sent _ _ _ _ _ _ D)|]. intros s (fl & sq & pl & H1 & H2 & H3). exists fl, sq, pl. split; [done|].
    intros [Hl|Hf]; [|congruence]. destruct (H3 Hl) as (o & -> & Hp). exists o. split_and!; [done..|congruence]. }
  unfold net_tcp_close. destruct (used c); [|done]. cbn [negb]. set (w1 := if established c then _ else w).
  assert (Hrel : ∀ w, sent (net_tcp_reset c w).2 = sent w).
  { intros w0. unfold net_tcp_reset, net_tcp_rx_release. by destruct (nz (rx_buf c)). }
  specialize (Hrel w1). destruct (net_tcp_reset c w1) as [c2 w2]. cbn [fst snd] in *. rewrite Hrel. unfold w1. destruct (established c); [|done].
  pose proof (send_seg_sent ip c w 0x11 [] ltac:(cbn; lia)) as Hs. destruct (tcp_send_seg _ _ _ _ _) as [w3 r]. cbn [fst].
  destruct Hs as [[_ ->]|[_ ->]]; [|done]. apply Forall_app_2; [done|]. repeat constructor. destruct D as [D1 D2 D3 D4].
  exists 0x11, (snd_nxt c), []. split.
  - exists c. split_and!; [done..| |done]. by apply calm_seg.
  - intros _. exists (length S). split; [done|]. split; [|cbn; lia]. split_and!; [lia|cbn; lia|done].
Qed.

End calls.

(** C2: End to end delivery.  Let one endpoint make any calls on an established connection
    and then close it; let the frames that reach the other endpoint be any selection of the
    frames that carried its segments, in any order, with any repetitions and losses, among
    frames that are not for the connection.  Then after any calls there, what was received
    and what waits is a prefix of the bytes the sends accepted, and [net_tcp_recv] reports
    the end of the stream only after all of them. *)
Theorem tcp_end_to_end ipA ipB clkA clkB ca wa as_ ca' wa' str cb wb bs cb' wb' D :
  calm ipA ca → sent wa = [] → Forall data_ok as_ → run_accepted ipA clkA ca wa as_ = Some (ca', wa', str) → length str < 2 ^ 31 - 1 →
  dst_ip_be ca = ipB → peer_of ipA ca cb → TcpProps.ready (snd_nxt ca) cb →
  Forall (λ f, decode ipB cb f = None ∨
               ∃ s, s ∈ sent (net_tcp_close ipA ca' wa').1.2 ∧ carries_l4 f ipA ipB IPPROTO_TCP_LOCAL s) (frames wb) →
  Forall call_ok bs → run_calls ipB clkB cb wb bs = Some (cb', wb', D) →
  (D ++ rx cb') `prefix_of` str ∧
  ∀ fuel cap t c'' w'' r out, 0 ≤ cap → net_tcp_recv ipB clkB fuel cb' wb' cap t = Some (c'', w'', r, out) →
    (D ++ out) `prefix_of` str ∧ (r = 0 → D = str).
Proof.
  intros Ha Hs0 Hok Ea Hlen Hip Hm Hr Hf Hbs Eb.
  assert (sending ipA (snd_nxt ca) (ids ca) ca wa []) as D0.
  { split; try done; [|by rewrite Hs0]. rewrite Z.add_0_r, u32_small; [done|]. destruct Ha as [_ [_ _ ? _ _ _ _]]. done. }
  pose proof (run_accepted_sending _ _ _ _ _ _ _ _ _ _ _ Hok D0 Ea) as D1. cbn [app] in D1. pose proof (close_sent _ _ _ _ _ _ D1) as Hsent.
  assert (Hgood : Forall (good str (snd_nxt ca) ipB cb) (frames wb)).
  { eapply Forall_impl; [exact Hf|]. intros f [Hn|(s & Hin & Hc)] fl sq ak pl Hd; [congruence|].
    rewrite Forall_forall in Hsent. destruct (Hsent s Hin) as (fl' & sq' & pl' & (c & Hi & Hsq & Hseg & ->) & Hst).
    unfold ids in Hi. injection Hi as I1 I2 I3. assert (peer_of ipA c cb) as Hpc by (destruct Hm; split; congruence).
    subst ipB. rewrite <- I1 in Hc, Hd. destruct (wire_decode _ _ _ _ _ _ _ Hseg Hpc Hc) as (ak' & E & _). rewrite E in Hd. injection Hd as <- <- _ <-. by rewrite Hsq. }
  assert (live str (snd_nxt ca) ipB cb' wb' D) as L.
  { apply (run_calls_live ipB clkB str (snd_nxt ca) Hlen bs cb wb cb' wb' D []); [done| |done]. split; [exists 0; by apply ready_ok|done]. }
  assert (Hp : ∀ c w D, live str (snd_nxt ca) ipB c w D → (D ++ rx c) `prefix_of` str).
  { intros c0 w0 E0 [[pos R] _]. rewrite (r_data _ _ _ _ _ R). unfold slice. rewrite drop_0. apply prefix_take. }
  split; [by eapply Hp|]. intros fuel cap t c'' w'' r out Hcap Er.
  destruct (recv_live ipB clkB str (snd_nxt ca) Hlen fuel cb' wb' cap t c'' w'' r out D Hcap L Er) as [L' Hrec]. split.
  - etrans; [|by eapply Hp]. by eexists.
  - intros ->. destruct Hrec as [[? _]|[(_ & _ & ?)|[? _]]]; [lia|done|lia].
Qed.
