(* ===== verification/TcpHandshake.v ===== *)
(** The three-way handshake: a client in [net_tcp_connect] and a server that answers its SYN
    end in the states from which data is delivered end to end. *)
From S2P Require Import Prelude NetBytes Tcp Net NetProps TcpStream TcpProps TcpWire TcpEnd.
Import Tcp Net.

(** Nothing received yet, and a buffer to receive into. *)
Record clean (c : net_tcp_conn_t) : Prop := {
  n_rx : rx c = [];
  n_slots : Forall (λ s, ooo_slot_valid s = false) (ooo c);
  n_valid : ooo_valid c = 0;
  n_fin : peer_fin c = false;
  n_pend : peer_fin_pending c = false;
  n_buf : rx_buf c ≠ 0;
  n_cap : 0 < rx_cap c
}.
Lemma clean_ready base c : clean c → rcv_nxt c = u32 base → connect_pending c = false → TcpProps.ready base c.
Proof. intros [? ? ? ? ? ? ?] ? ?. by split. Qed.
Lemma clean_view c c' : clean c → rx c' = rx c → ooo c' = ooo c → ooo_valid c' = ooo_valid c → peer_fin c' = peer_fin c →
  peer_fin_pending c' = peer_fin_pending c → rx_buf c' = rx_buf c → rx_cap c' = rx_cap c → clean c'.
Proof. intros [? ? ? ? ? ? ?] E1 E2 E3 E4 E5 E6 E7. split; by rewrite ?E1, ?E2, ?E3, ?E4, ?E5, ?E6, ?E7. Qed.

(** A buffer in good order: one that was allocated has a size. *)
Definition buf_ok (c : net_tcp_conn_t) : Prop := 0 ≤ rx_cap c ∧ 0 ≤ rcv_wscale c.

Lemma scale_range fuel space w : 0 ≤ w → 0 ≤ window_scale fuel space w.
Proof. revert w. induction fuel as [|k IH]; intros w H; cbn; [done|]. destruct (_ <? _); [|done]. apply IH. lia. Qed.
Definition with_buf (c : net_tcp_conn_t) (b cap ws : Z) : net_tcp_conn_t :=
  c <| rx_buf := b |> <| rx_cap := cap |> <| rx := [] |> <| rcv_wscale := ws |>.
Lemma rx_alloc_ok l c w c' w' : Forall (λ n, 0 < n) l → rx_alloc l c w = (c', w', 0) →
  ∃ b cap ws, c' = with_buf c b cap ws ∧ b ≠ 0 ∧ 0 < cap ∧ 0 ≤ ws ∧ sent w' = sent w ∧ frames w' = frames w.
Proof.
  intros Hl. revert c w. induction Hl as [|n l Hn Hl IH]; intros c w; [done|]. cbn [rx_alloc]. unfold kmalloc. destruct (blocks w) as [|p ps].
  - cbn [nz Z.eqb negb]. intros (b & cap & ws & -> & ?)%IH. by exists b, cap, ws.
  - destruct (nz p) eqn:Ep.
    + intros [= <- <-]. apply nz_true in Ep. exists p, n, (tcp_select_window_scaling n). split_and!; try done. by apply scale_range.
    + intros (b & cap & ws & -> & ?)%IH. by exists b, cap, ws.
Qed.
Lemma rx_ensure_ok c w c' w' : buf_ok c → rx c = [] → net_tcp_rx_ensure c w = (c', w', 0) →
  ∃ b cap ws, c' = with_buf c b cap ws ∧ b ≠ 0 ∧ 0 < cap ∧ 0 ≤ ws ∧ sent w' = sent w ∧ frames w' = frames w.
Proof.
  intros [H1 H2] Hr. unfold net_tcp_rx_ensure. destruct (nz (rx_buf c) && nz (rx_cap c)) eqn:E.
  - apply andb_prop in E as [Eb%nz_true Ec%nz_true]. intros [= <- <-]. exists (rx_buf c), (rx_cap c), (rcv_wscale c).
    split_and!; try done; [|lia]. destruct c; cbn in *. by subst.
  - apply rx_alloc_ok. repeat constructor; lia.
Qed.

(** * The SYN *)

Lemma syn_opts_ok c : 0 ≤ rcv_wscale c → bytes (tcp_syn_options c) ∧ length (tcp_syn_options c) = 8%nat.
Proof.
  intros H. split; [|done]. unfold tcp_syn_options. repeat (apply Forall_cons_2; [lia|]). apply Forall_cons_2; [|apply Forall_nil_2].
  destruct (Z.leb_spec (rcv_wscale c) 14); lia.
Qed.
Lemma send_len_sent ip c w fl pl opts w' : length opts = 8%nat → pl = [] → tcp_send_seg_len ip c w fl pl opts = (w', 0) →
  sent w' = sent w ++ [wire_seg ip c fl pl opts] ∧ frames w' = frames w.
Proof.
  intros Ho ->. unfold tcp_send_seg_len. rewrite Ho. change (1500 <? _) with false. change (nz ((TCP_LEN + 8%nat) `mod` 4)) with false. cbn [orb].
  unfold send_l4. destruct (refusals w) as [|[] l]; cbn; by intros [= <-].
Qed.

(** The client after [net_tcp_connect] sent its SYN from the state [c]. *)
Record syn_sent (ip : Z) (c c1 : net_tcp_conn_t) : Prop := {
  y_clean : clean c1;
  y_ids : ids c1 = ids c;
  y_isn : syn_isn c1 = snd_nxt c;
  y_nxt : snd_nxt c1 = u32 (snd_nxt c + 1);
  y_pending : connect_pending c1 = true;
  y_est : established c1 = false;
  y_used : used c1 = true
}.
Lemma connect_syn ip clk fuel c0 w0 dip dp sp c1 w1 : buf_ok c0 → frames w0 = [] → is_u32 ip → is_u32 dip → is_u16 dp → is_u16 sp →
  net_tcp_connect ip clk fuel c0 w0 dip dp sp 0 = Some (c1, w1, 0) →
  ∃ c, ids c = (dip, dp, sp) ∧ seg_ok ip c 0x02 [] (tcp_syn_options c) ∧ syn_sent ip c c1 ∧
    sent w1 = sent w0 ++ [wire_seg ip c 0x02 [] (tcp_syn_options c)] ∧ frames w1 = [].
Proof.
  intros Hb Hw Hip Hdip Hdp Hsp. unfold net_tcp_connect. assert (drain 64 w0 = w0) as -> by (cbn [drain]; unfold recv_frame; by rewrite Hw).
  set (c2 := conn0 <| peer_mac := _ |> <| peer_mac_valid := _ |> <| rx_buf := _ |> <| rx_cap := _ |> <| rcv_wscale := _ |>).
  destruct (net_tcp_rx_ensure c2 w0) as [[c3 w3] r3] eqn:E3. destruct (Z.eqb_spec r3 0) as [->|Hr3]; [|rewrite (proj2 (nz_true r3)) by done; done].
  eapply rx_ensure_ok in E3 as (b & cap & ws & -> & Hb0 & Hcap & Hws & Hs3 & Hf3); [|done..]. cbn [nz Z.eqb negb].
  unfold time_ms. unfold tcp_send_syn.
  match goal with |- context [tcp_send_seg_len ip ?cc ?ww 2 [] _] => set (c := cc); set (w4 := ww) end.
  destruct (tcp_send_seg_len ip c w4 2 [] (tcp_syn_options c)) as [w5 r5] eqn:E5. destruct (Z.eqb_spec r5 0) as [->|Hr5]; [|rewrite (proj2 (nz_true r5)) by done; done].
  destruct (syn_opts_ok c Hws) as [Bo Lo]. apply send_len_sent in E5 as [Hs5 Hf5]; [|done..]. cbn [nz Z.eqb negb].
  match goal with |- context [service ip 8 ?cc ?ww] => set (c6 := cc); set (w6 := ww) end.
  assert (service ip 8 c6 w6 = (c6, w6)) as ->.
  { unfold service. cbn [net_tcp_service]. unfold recv_frame. change (frames w6) with (frames w5). rewrite Hf5. change (frames w4) with (frames w3). by rewrite Hf3, Hw. }
  intros [= <- <-]. exists c. split_and!; try done.
  - split; try done. apply u32_range.
  - split; try done. split; try done. cbn. repeat constructor.
  - change (sent w6) with (sent w5). rewrite Hs5. change (sent w4) with (sent w3). by rewrite Hs3.
  - change (frames w6) with (frames w5). rewrite Hf5. change (frames w4) with (frames w3). by rewrite Hf3, Hw.
Qed.

(** * The server's answer *)

Record syn_received (sq : Z) (c c1 : net_tcp_conn_t) : Prop := {
  v_clean : clean c1;
  v_ids : ids c1 = ids c;
  v_isn : syn_isn c1 = snd_nxt c;
  v_nxt : snd_nxt c1 = u32 (snd_nxt c + 1);
  v_rcv : rcv_nxt c1 = u32 (sq + 1) ∧ rcv_nxt c = u32 (sq + 1);
  v_pending : connect_pending c1 = false;
  v_est : established c1 = false;
  v_used : used c1 = true
}.
Lemma reply_syn_ok ip clk c0 w0 sq c1 w1 : 0 ≤ rcv_wscale c0 → is_u32 ip → is_u32 (dst_ip_be c0) → is_u16 (dst_port c0) → is_u16 (src_port c0) →
  net_tcp_server_reply_syn ip clk c0 w0 sq = (c1, w1, 0) →
  ∃ c, ids c = ids c0 ∧ seg_ok ip c 0x12 [] (tcp_syn_options c) ∧ syn_received sq c c1 ∧
    sent w1 = sent w0 ++ [wire_seg ip c 0x12 [] (tcp_syn_options c)].
Proof.
  intros Hws Hip Hdip Hdp Hsp. unfold net_tcp_server_reply_syn, time_ms, net_tcp_reset, net_tcp_rx_release. cbn zeta beta iota.
  match goal with |- context [net_tcp_rx_ensure ?cc ?ww] => set (c2 := cc); set (w2 := ww) end.
  destruct (net_tcp_rx_ensure c2 w2) as [[c3 w3] r3] eqn:E3. destruct (Z.eqb_spec r3 0) as [->|Hr3]; [|rewrite (proj2 (nz_true r3)) by done; done].
  eapply rx_ensure_ok in E3 as (b & cap & ws & -> & Hb0 & Hcap & Hws' & Hs3 & Hf3); [|done..]. cbn [nz Z.eqb negb].
  match goal with |- context [tcp_send_seg_len ip ?cc ?ww 18 [] _] => set (c := cc) end.
  destruct (tcp_send_seg_len ip c w3 18 [] (tcp_syn_options c)) as [w5 r5] eqn:E5. destruct (Z.eqb_spec r5 0) as [->|Hr5]; [|rewrite (proj2 (nz_true r5)) by done; done].
  destruct (syn_opts_ok c Hws') as [Bo Lo]. apply send_len_sent in E5 as [Hs5 Hf5]; [|done..]. cbn [nz Z.eqb negb].
  intros [= <- <-]. exists c. split_and!; try done.
  - split; try done. apply u32_range.
  - split; try done. split; try done. change (ooo c) with (clear_slot <$> ooo c0). apply Forall_fmap, Forall_true. done.
  - rewrite Hs5, Hs3. unfold w2. by destruct (nz (rx_buf c0)).
Qed.

(** * The client's acknowledgement *)

Record joined (c : net_tcp_conn_t) (snd rcv : Z) : Prop := {
  j_clean : clean c;
  j_snd : snd_nxt c = snd;
  j_rcv : rcv_nxt c = rcv;
  j_est : established c = true;
  j_pending : connect_pending c = false
}.
Lemma synack_ok ip c c1 w1 f sq : syn_sent ip c c1 → decode ip c1 f = Some (0x12, sq, u32 (snd_nxt c + 1), []) →
  ∃ c2, service_frame ip c1 w1 f = (c2, (tcp_send_seg ip c2 w1 0x10 []).1, true) ∧ ids c2 = ids c1 ∧
    joined c2 (snd_nxt c1) (u32 (sq + 1)).
Proof.
  intros [Y1 Y2 Y3 Y4 Y5 Y6 Y7] Hd. destruct (service_frame_decode ip c1 w1 f) as (c' & w' & g & Hi & Hv & _ & He & Hs & Hn & ->).
  rewrite Hd. unfold rx_segment. change (nz (18 &u 4)) with false. change (nz (18 &u 2)) with true. change (nz (18 &u 16)) with true.
  unfold rview in Hv. injection Hv as V1 V2 V3 V4 V5 V6 V7 V8 V9 V10. rewrite He, Y6. cbn [andb negb]. unfold rx_synack.
  rewrite V8, Y5, Hn, Y3, Z.eqb_refl. cbn [negb orb]. eexists. split; [done|]. split; [done|]. split; try done.
  by eapply clean_view.
Qed.
Lemma joined_calm ip c snd rcv fl pl : joined c snd rcv → seg_ok ip c fl pl [] → calm ip c.
Proof. intros [? ? ? ? ?] [? ? ? ? ? ? ?]. split; [done|]. by split. Qed.

Lemma ids_inv c a b d : ids c = (a, b, d) → dst_ip_be c = a ∧ dst_port c = b ∧ src_port c = d.
Proof. unfold ids. by intros [= -> -> ->]. Qed.

(** The handshake.  A client that connects sends one SYN; a server that answers it sends
    one SYN-ACK; the client that receives it is established and acknowledges, and with
    that acknowledgement the server is established too.  Each side then expects the
    sequence number the other sends next and has an empty buffer: they are in the states
    from which data is delivered end to end, in both directions. *)
Theorem tcp_handshake ipA ipB clkA clkB fuel c0 w0 dp sp c1 w1 s0 ws0 s1 ws1 syn synack f g :
  buf_ok c0 → frames w0 = [] → sent w0 = [] → is_u32 ipA → is_u32 ipB → is_u16 dp → is_u16 sp →
  net_tcp_connect ipA clkA fuel c0 w0 ipB dp sp 0 = Some (c1, w1, 0) → sent w1 = [syn] → carries_l4 f ipA ipB IPPROTO_TCP_LOCAL syn →
  ids s0 = (ipA, sp, dp) → 0 ≤ rcv_wscale s0 →
  (∀ fl sq ak pl, decode ipB s0 f = Some (fl, sq, ak, pl) → net_tcp_server_reply_syn ipB clkB s0 ws0 sq = (s1, ws1, 0)) →
  sent ws1 = sent ws0 ++ [synack] → carries_l4 g ipB ipA IPPROTO_TCP_LOCAL synack →
  ∃ c2, service_frame ipA c1 w1 g = (c2, (tcp_send_seg ipA c2 w1 0x10 []).1, true) ∧ established c2 = true ∧
    ∀ ack h, sent (tcp_send_seg ipA c2 w1 0x10 []).1 = [syn; ack] → carries_l4 h ipA ipB IPPROTO_TCP_LOCAL ack →
    ∃ ak s2, decode ipB s1 h = Some (0x10, snd_nxt c2, ak, []) ∧ net_tcp_server_complete_ack s1 ak = (s2, 0) ∧ established s2 = true ∧
      calm ipA c2 ∧ calm ipB s2 ∧ peer_of ipA c2 s2 ∧ peer_of ipB s2 c2 ∧
      TcpProps.ready (snd_nxt c2) s2 ∧ TcpProps.ready (snd_nxt s2) c2.
Proof.
  intros Hb Hf Hs0 HA HB Hdp Hsp Ec Hs1 Cf Hi0 Hws Hrep Hss1 Cg.
  destruct (connect_syn _ _ _ _ _ _ _ _ _ _ Hb Hf HA HB Hdp Hsp Ec) as (c & Hic & Okc & Y & Es & _). rewrite Hs0, Hs1 in Es. injection Es as ->.
  destruct (ids_inv _ _ _ _ Hic) as (I1 & I2 & I3), (ids_inv _ _ _ _ Hi0) as (J1 & J2 & J3).
  destruct (wire_decode ipA c 0x02 [] _ f s0 Okc) as (ak0 & Ed & _); [split; congruence|by rewrite I1|].
  rewrite I1 in Ed. specialize (Hrep _ _ _ _ Ed).
  destruct (reply_syn_ok ipB clkB s0 ws0 (snd_nxt c) s1 ws1) as (s & His & Oks & V & Ess); [done|done|congruence..|done|].
  rewrite Hss1 in Ess. apply app_inv_head in Ess. injection Ess as ->. destruct (ids_inv s _ _ _ (eq_trans His Hi0)) as (K1 & K2 & K3).
  destruct (ids_inv c1 _ _ _ (eq_trans (y_ids _ _ _ Y) Hic)) as (L1 & L2 & L3).
  destruct (wire_decode ipB s 0x12 [] _ g c1 Oks) as (ak1 & Ed1 & Ha1); [split; congruence|by rewrite K1|].
  rewrite K1 in Ed1. rewrite Ha1, (proj2 (v_rcv _ _ _ V)) in Ed1 by (rewrite (proj2 (v_rcv _ _ _ V)); apply u32_range).
  destruct (synack_ok ipA c c1 w1 g (snd_nxt s) Y Ed1) as (c2 & -> & Hi2 & Jn). exists c2. split; [done|]. split; [apply Jn|].
  intros ack h Hack Ch. destruct (ids_inv c2 _ _ _ (eq_trans Hi2 (eq_trans (y_ids _ _ _ Y) Hic))) as (M1 & M2 & M3).
  destruct (ids_inv s1 _ _ _ (eq_trans (v_ids _ _ _ V) (eq_trans His Hi0))) as (N1 & N2 & N3).
  assert (Ok2 : seg_ok ipA c2 0x10 [] []).
  { split; try done; [split; congruence|split; congruence|]. rewrite (j_snd _ _ _ Jn), (y_nxt _ _ _ Y). apply u32_range. }
  pose proof (send_seg_sent ipA c2 w1 0x10 [] ltac:(cbn; lia)) as Hse. destruct (tcp_send_seg ipA c2 w1 0x10 []) as [w2 r2]. cbn [fst] in Hack.
  rewrite Hs1, Hack in Hse. destruct Hse as [[_ [= ->]]|[_ ?]]; [|done].
  destruct (wire_decode ipA c2 0x10 [] [] h s1 Ok2) as (ak2 & Ed2 & Ha2); [split; congruence|by rewrite M1|]. rewrite M1 in Ed2.
  specialize (Ha2 ltac:(rewrite (j_rcv _ _ _ Jn); apply u32_range)). rewrite (j_rcv _ _ _ Jn) in Ha2. subst ak2.
  destruct V as [V1 V2 V3 V4 [V5 V6] V7 V8 V9]. destruct Y as [Y1 Y2 Y3 Y4 Y5 Y6 Y7]. destruct Jn as [J4 J5 J6 J7 J8].
  eexists _, _. split; [exact Ed2|]. unfold net_tcp_server_complete_ack. rewrite V9, V8, V3, V4, Z.eqb_refl. cbn [negb orb].
  split; [done|]. split; [done|]. split_and!; [by split| |by split; cbn; congruence|by split; cbn; congruence| |].
  - split; [done|]. split; try done; cbn; [split; congruence|split; congruence|]. rewrite V4. apply u32_range.
  - apply clean_ready; [by apply (clean_view s1)| |done]. cbn. rewrite V5, J5, Y4, (u32_small (u32 _)); [done|apply u32_range].
  - apply clean_ready; [done| |done]. cbn. rewrite J6, V4, (u32_small (u32 _)); [done|apply u32_range].
Qed.

(** * Two defects *)

(** The FIN of the peer ends both directions: after it nothing can be sent, and
    [net_tcp_close] sends no FIN. *)
Lemma half_close_cuts ip c w data : established c = true →
  let '(c', w') := rx_fin ip c w (rcv_nxt c) in
  net_tcp_send ip c' w' data = (c', w', -1) ∧ sent (net_tcp_close ip c' w').1.2 = sent w'.
Proof.
  intros He. unfold rx_fin. rewrite He, Z.eqb_refl. cbn [negb andb]. split; [done|]. unfold net_tcp_close.
  match goal with |- context [used ?x] => change (used x) with (used c); change (established x) with false end.
  destruct (used c); [|done]. unfold net_tcp_reset, net_tcp_rx_release. cbn. by destruct (nz (rx_buf c)).
Qed.

(** A server whose initial sequence number is the last one can not complete a handshake
    once it has repeated its SYN-ACK. *)
Lemma resend_synack_wrap ip c w c' w' r ak : used c = true → syn_isn c = 2 ^ 32 - 1 → snd_nxt c = 0 →
  net_tcp_server_resend_synack ip c w = (c', w', r) → (net_tcp_server_complete_ack c' ak).2 = -1.
Proof.
  intros Hu Hi Hn. unfold net_tcp_server_resend_synack. rewrite Hu. cbn [negb]. destruct (tcp_send_seg_len _ _ _ _ _ _) as [w1 r1].
  change (syn_isn (c <| snd_nxt := syn_isn c |>)) with (syn_isn c). rewrite Hi, Hn. change (2 ^ 32 - 1 <? 0) with false. intros [= <- _ _].
  unfold net_tcp_server_complete_ack. destruct (negb (used _) || _); [done|].
  match goal with |- context [syn_isn ?x] => change (syn_isn x) with (syn_isn c); change (snd_nxt x) with (2 ^ 32 - 1) end.
  rewrite Hi. change (u32 (2 ^ 32 - 1 + 1)) with 0. by destruct (Z.eqb_spec ak 0) as [->|].
Qed.
