(* ===== verification/NetServer.v ===== *)
(** The TCP sockets of [syscall/dispatch/syscall_dispatch.c]: their registry and reference
    counts, the slots for connections that are being opened, and the demultiplexer
    [net_tcp_dispatch_incoming] that answers SYNs and queues accepted connections.

    The store holds the TCP stream sockets of the internet domain: for them
    [unix_domain_stub] is 0 and [unix_conn] is null. The searches here skip all others. A
    result [None] is an access to a socket or file that is no longer there. *)
From S2P Require Import Prelude NetBytes Tcp Net NetRxq.

Module Server.
Import Tcp Net Rxq.

Definition KSOCK_REGISTRY_MAX : nat := 512.
Definition TCP_SYN_WAIT_SLOTS : nat := 16.
Definition ACCEPT_CAP : nat := 16.

(** The fields of [ksock_net_t] that TCP uses; [accept_q] holds addresses of files. *)
Record ksock := MkSock {
  kref : Z; registry_slot : Z; dns_bridge : bool; tcp_listening : bool; is_connected : bool;
  s_local_port : Z; s_peer_ip : Z; s_peer_port : Z; nonblock : bool; unix_backlog : Z;
  accept_q : list Z; accept_head : nat; accept_tail : nat; accept_count : Z; tcp : net_tcp_conn_t
}.
#[export] Instance eta_ksock : Eta ksock := λ s,
  MkSock (kref s) (registry_slot s) (dns_bridge s) (tcp_listening s) (is_connected s) (s_local_port s) (s_peer_ip s) (s_peer_port s)
    (nonblock s) (unix_backlog s) (accept_q s) (accept_head s) (accept_tail s) (accept_count s) (tcp s).
(** [memset(srv, 0, sizeof( *srv))]. *)
Definition sock0 : ksock := MkSock 0 0 false false false 0 0 0 false 0 (replicate ACCEPT_CAP 0) 0 0 0 conn0.

(** [tcp_syn_wait_t]; [listener] is the address of a socket. *)
Record syn_wait := MkWait {
  active : bool; listener : Z; w_peer_ip : Z; w_peer_port : Z; w_peer_mac : list Z; last_synack_tick : Z; w_tcp : net_tcp_conn_t
}.
#[export] Instance eta_syn_wait : Eta syn_wait := λ w,
  MkWait (active w) (listener w) (w_peer_ip w) (w_peer_port w) (w_peer_mac w) (last_synack_tick w) (w_tcp w).
Definition wait0 : syn_wait := MkWait false 0 0 0 (replicate 6 0) 0 conn0.

(** [files] gives the socket and the path string of an open socket file. *)
Record server := MkServer {
  socks : gmap Z ksock; registry : list Z; files : gmap Z (Z * Z); syn_waits : list (option syn_wait); rx_queue : rxq; wd : world
}.
#[export] Instance eta_server : Eta server := λ s, MkServer (socks s) (registry s) (files s) (syn_waits s) (rx_queue s) (wd s).

Definition put_sock (st : server) (p : Z) (s : ksock) : server := st <| socks := <[p := s]> (socks st) |>.
Definition put_wait (st : server) (i : nat) (w : syn_wait) : server := st <| syn_waits := <[i := Some w]> (syn_waits st) |>.

(** * The registry *)

Fixpoint free_slot (i : nat) (l : list Z) : option nat :=
  match l with [] => None | p :: l => if nz p then free_slot (S i) l else Some i end.
Definition ksock_register (st : server) (p : Z) : option (server * Z) :=
  s ← socks st !! p;
  if (0 <? registry_slot s) && (registry_slot s <=? KSOCK_REGISTRY_MAX) && (default 0 (registry st !! Z.to_nat (registry_slot s - 1)) =? p)
  then Some (st, 0)
  else
    match free_slot 0 (registry st) with
    | Some i => Some ((put_sock st p (s <| registry_slot := Z.of_nat i + 1 |>)) <| registry := <[i := p]> (registry st) |>, 0)
    | None => Some (st, -1)
    end.

Definition ksock_hold (st : server) (p : Z) : option server :=
  s ← socks st !! p; Some (if 0 <? kref s then put_sock st p (s <| kref := kref s + 1 |>) else st).

(** The first registered socket that passes a test, 0 if there is none. *)
Fixpoint find_sock (st : server) (test : ksock → bool) (l : list Z) : option Z :=
  match l with
  | [] => Some 0
  | p :: l =>
      if nz p then
        s ← socks st !! p;
        if negb (kref s <=? 0) && test s then Some p else find_sock st test l
      else find_sock st test l
  end.
Definition net_tcp_find_listener (st : server) (port : Z) : option Z :=
  if port =? 0 then Some 0
  else find_sock st (λ s, tcp_listening s && (s_local_port s =? port)) (registry st).
Definition net_tcp_find_bound_port (st : server) (port : Z) : option Z :=
  if port =? 0 then Some 0 else find_sock st (λ s, s_local_port s =? port) (registry st).
Definition net_tcp_match_established_sock (lport rip rport : Z) (s : ksock) : bool :=
  negb (dns_bridge s) && used (tcp s) && negb (peer_rst (tcp s)) &&
  (established (tcp s) || peer_fin_pending (tcp s) || peer_fin (tcp s)) &&
  (s_local_port s =? lport) && (s_peer_ip s =? rip) && (s_peer_port s =? rport).
Definition net_tcp_find_established (st : server) (lport rip rport : Z) : option Z :=
  find_sock st (net_tcp_match_established_sock lport rip rport) (registry st).

(** * Accept queues *)

Definition unix_acceptq_push (st : server) (l f : Z) : option (server * Z) :=
  s ← socks st !! l;
  let cap := Z.of_nat ACCEPT_CAP in
  let maxq := if 0 <? unix_backlog s then unix_backlog s else cap in
  let maxq := if cap <? maxq then cap else maxq in
  if maxq <=? accept_count s then Some (st, -1)
  else
    Some (put_sock st l (s <| accept_q := <[accept_tail s := f]> (accept_q s) |> <| accept_tail := ((accept_tail s + 1) mod ACCEPT_CAP)%nat |>
                           <| accept_count := accept_count s + 1 |>), 0).
Definition unix_acceptq_pop (st : server) (l : Z) : option (server * Z) :=
  s ← socks st !! l;
  if 0 <? accept_count s then
    Some (put_sock st l (s <| accept_q := <[accept_head s := 0]> (accept_q s) |> <| accept_head := ((accept_head s + 1) mod ACCEPT_CAP)%nat |>
                           <| accept_count := accept_count s - 1 |>), default 0 (accept_q s !! accept_head s))
  else Some (st, 0).

(** * Frames *)

Definition tcp_at (f : list Z) (i : Z) : Z := ETH_LEN + ihl_of f + i.
Definition tcp_sport (f : list Z) : Z := be16 (ld16 f (tcp_at f 0)).
Definition tcp_dport (f : list Z) : Z := be16 (ld16 f (tcp_at f 2)).
Definition tcp_seq (f : list Z) : Z := be32 (ld32 f (tcp_at f 4)).
Definition tcp_ack (f : list Z) : Z := be32 (ld32 f (tcp_at f 8)).
Definition tcp_flags (f : list Z) : Z := byte f (tcp_at f 13).

Definition net_tcp_frame_payload (f : list Z) : list Z :=
  let n := Z.of_nat (length f) in
  let doff := Z.shiftr (byte f (tcp_at f 12)) 4 * 4 in
  if (doff <? TCP_LEN) || (n <? tcp_at f doff) then []
  else
    let ip_tot := be16 (ld16 f (ETH_LEN + 2)) in
    if ip_tot <? ihl_of f + doff then []
    else
      let plen := ip_tot - ihl_of f - doff in
      let frame_pay := n - tcp_at f doff in
      slice f (tcp_at f doff) (if frame_pay <? plen then frame_pay else plen).

Definition net_tcp_stage_peer_mac (c : net_tcp_conn_t) (m : list Z) : net_tcp_conn_t :=
  c <| peer_mac := m |> <| peer_mac_valid := true |>.

Definition net_tcp_push_payload (c : net_tcp_conn_t) (w : world) (seq : Z) (payload : list Z) : net_tcp_conn_t * world :=
  if length payload =? 0 then (c, w)
  else if negb (seq =? rcv_nxt c) then (c, w)
  else
    let '(c, w, r) := net_tcp_rx_ensure c w in
    if nz r then (c, w)
    else
      let room := net_tcp_rx_room c in
      let cp := if room <? length payload then room else Z.of_nat (length payload) in
      if cp =? 0 then (c, w)
      else (c <| rx := rx c ++ slice payload 0 cp |> <| rcv_nxt := u32 (rcv_nxt c + cp) |>, w).

(** * Slots for connections being opened *)

Definition net_tcp_syn_wait_clear (w : syn_wait) (d : world) : syn_wait * world :=
  let '(c, d) := net_tcp_reset (w_tcp w) d in (MkWait false 0 0 0 (replicate 6 0) 0 c, d).

(** The first loop of [net_tcp_syn_wait_take_slot]: stale slots are cleared on the way. *)
Fixpoint reuse_slot (now stale_after : Z) (i : nat) (l : list (option syn_wait)) (d : world) : list (option syn_wait) * world * option nat :=
  match l with
  | [] => ([], d, None)
  | None :: l => let '(l, d, r) := reuse_slot now stale_after (S i) l d in (None :: l, d, r)
  | Some w :: l =>
      let '(w, d) :=
        if active w && nz (last_synack_tick w) && (stale_after <=? u32 (now - last_synack_tick w)) then net_tcp_syn_wait_clear w d else (w, d) in
      if negb (active w) then
        let '(w, d) := net_tcp_syn_wait_clear w d in (Some (w <| active := true |>) :: l, d, Some i)
      else let '(l, d, r) := reuse_slot now stale_after (S i) l d in (Some w :: l, d, r)
  end.
Fixpoint empty_slot (i : nat) (l : list (option syn_wait)) : option nat :=
  match l with [] => None | None :: _ => Some i | Some _ :: l => empty_slot (S i) l end.

Section server.
(** The address of the interface, the clock of the sequence numbers, and [timer_frequency]. *)
Context (ip : Z) (clk : nat → Z) (timer_frequency : Z).

Definition net_tcp_syn_wait_take_slot (st : server) (now : Z) : server * option nat :=
  let stale_after := u32 ((if nz timer_frequency then timer_frequency else 250) * 60) in
  let '(l, d, r) := reuse_slot now stale_after 0 (syn_waits st) (wd st) in
  let st := st <| syn_waits := l |> <| wd := d |> in
  match r with
  | Some i => (st, Some i)
  | None =>
      match empty_slot 0 l with
      | None => (st, None)
      | Some i =>
          let '(d, p) := kmalloc (wd st) in
          let st := st <| wd := d |> in
          if nz p then (put_wait st i (wait0 <| active := true |>), Some i) else (st, None)
      end
  end.

(** It follows [w->listener] of every active slot. *)
Fixpoint wait_find (st : server) (lport rip rport : Z) (i : nat) (l : list (option syn_wait)) : option (option nat) :=
  match l with
  | [] => Some None
  | None :: l => wait_find st lport rip rport (S i) l
  | Some w :: l =>
      if negb (active w) || (listener w =? 0) then wait_find st lport rip rport (S i) l
      else
        s ← socks st !! listener w;
        if (s_local_port s =? lport) && (w_peer_ip w =? rip) && (w_peer_port w =? rport) then Some (Some i)
        else wait_find st lport rip rport (S i) l
  end.
Definition net_tcp_syn_wait_find (st : server) (lport rip rport : Z) : option (option nat) :=
  wait_find st lport rip rport 0 (syn_waits st).

Definition net_tcp_syn_wait_release (st : server) (i : nat) : option server :=
  w ← mjoin (syn_waits st !! i);
  let '(w, d) := net_tcp_syn_wait_clear w (wd st) in Some ((put_wait st i w) <| wd := d |>).

(** [net_tcp_syn_wait_prealloc]: one allocation per empty slot until one fails. *)
Fixpoint prealloc (l : list (option syn_wait)) (d : world) : list (option syn_wait) * world :=
  match l with
  | [] => ([], d)
  | Some w :: l => let '(l, d) := prealloc l d in (Some w :: l, d)
  | None :: l =>
      let '(d, p) := kmalloc d in
      if nz p then let '(l, d) := prealloc l d in (Some wait0 :: l, d) else (None :: l, d)
  end.
Definition net_tcp_syn_wait_prealloc (st : server) : server :=
  let '(l, d) := prealloc (syn_waits st) (wd st) in st <| syn_waits := l |> <| wd := d |>.

(** * The end of a socket *)

Definition ksock_drop (st : server) (p : Z) : option server :=
  s ← socks st !! p;
  let s := if 0 <? kref s then s <| kref := kref s - 1 |> else s in
  if negb (kref s =? 0) then Some (put_sock st p s)
  else
    let i := registry_slot s - 1 in
    let reg := if (0 <=? i) && (i <? KSOCK_REGISTRY_MAX) && (default 0 (registry st !! Z.to_nat i) =? p)
               then <[Z.to_nat i := 0]> (registry st) else registry st in
    let st := st <| registry := reg |> in
    let st :=
      if negb (dns_bridge s) && used (tcp s) then
        let '(_, d, _) := net_tcp_close ip (tcp s) (wd st) in
        st <| rx_queue := net_rxq_drop_tcp_conn (rx_queue st) (tcp s) ip |> <| wd := d |>
      else st in
    Some (st <| socks := delete p (socks st) |> <| wd := kfree (wd st) p |>).

Definition net_fs_file_destroy (st : server) (f : Z) : option server :=
  '(p, path) ← files st !! f;
  st ← ksock_drop st p;
  let d := if nz path then kfree (wd st) path else wd st in
  Some (st <| files := delete f (files st) |> <| wd := kfree d f |>).

(** * Accepting *)

(** The file of the new socket, 0 without memory or a place in the registry. The slot [i]
    hands its receive buffer over. *)
Definition net_tcp_make_accepted_file (st : server) (l : Z) (i : nat) (rip rport : Z) : option (server * Z) :=
  w ← mjoin (syn_waits st !! i);
  ls ← socks st !! l;
  let '(d, srv) := kmalloc (wd st) in
  let '(d, srv_f) := kmalloc d in
  let '(d, srv_p) := kmalloc d in
  if negb (nz srv && nz srv_f && nz srv_p) then
    let d := if nz srv then kfree d srv else d in
    let d := if nz srv_f then kfree d srv_f else d in
    let d := if nz srv_p then kfree d srv_p else d in
    Some (st <| wd := d |>, 0)
  else
    let s := sock0 <| is_connected := true |> <| s_local_port := s_local_port ls |> <| s_peer_ip := rip |> <| s_peer_port := rport |>
               <| nonblock := nonblock ls |> <| tcp := net_tcp_stage_peer_mac (w_tcp w) (w_peer_mac w) |> <| kref := 1 |> in
    let st := (put_sock (put_wait st i (w <| w_tcp := net_tcp_rx_orphan (w_tcp w) |>)) srv s)
                <| wd := d |> <| files := <[srv_f := (srv, srv_p)]> (files st) |> in
    '(st, r) ← ksock_register st srv;
    if nz r then st ← net_fs_file_destroy st srv_f; Some (st, 0) else Some (st, srv_f).

(** A SYN for a listening port; [now] is [timer_ticks]. When memory is short
    [thread_reap_unwaited_zombies] runs first, outside this state. *)
Definition dispatch_syn (st : server) (f : list Z) (now : Z) : option (server * bool) :=
  let '(rip, sport, dport) := (ip_src f, tcp_sport f, tcp_dport f) in
  l ← net_tcp_find_listener st dport;
  if l =? 0 then Some (st, false)
  else
    found ← net_tcp_syn_wait_find st dport rip sport;
    '(st, slot) ←
      match found with
      | Some i => Some (st, Some i)
      | None =>
          let '(st, slot) := net_tcp_syn_wait_take_slot st now in
          match slot with
          | None => Some (st, None)
          | Some i =>
              w ← mjoin (syn_waits st !! i);
              let tc := net_tcp_stage_peer_mac ((w_tcp w) <| dst_ip_be := rip |> <| dst_port := sport |> <| src_port := dport |>) (slice f 6 6) in
              Some (put_wait st i (w <| listener := l |> <| w_peer_ip := rip |> <| w_peer_port := sport |> <| w_peer_mac := slice f 6 6 |>
                                     <| w_tcp := tc |>), Some i)
          end
      end;
    match slot with
    | None => Some (st, false)
    | Some i =>
        w ← mjoin (syn_waits st !! i);
        let tc := w_tcp w in
        if used tc && nz (last_synack_tick w) && (u32 (now - last_synack_tick w) <? 8) then Some (st, true)
        else
          let w := w <| last_synack_tick := u32 now |> in
          let '(tc, d, _) :=
            if used tc then net_tcp_server_resend_synack ip tc (wd st) else net_tcp_server_reply_syn ip clk tc (wd st) (tcp_seq f) in
          Some ((put_wait st i (w <| w_tcp := tc |>)) <| wd := d |>, true)
    end.

(** An ACK for slot [i]. *)
Definition dispatch_ack (st : server) (f : list Z) (i : nat) : option (server * bool) :=
  w ← mjoin (syn_waits st !! i);
  let '(tc, r) := net_tcp_server_complete_ack (w_tcp w) (tcp_ack f) in
  if r =? 0 then
    let payload := net_tcp_frame_payload f in
    let '(tc, d) :=
      if 0 <? length payload then
        let '(tc, d) := net_tcp_push_payload tc (wd st) (tcp_seq f) payload in (tc, (net_tcp_send_ack ip tc d).1)
      else (tc, wd st) in
    let st := (put_wait st i (w <| w_tcp := tc |>)) <| wd := d |> in
    '(st, af) ← net_tcp_make_accepted_file st (listener w) i (ip_src f) (tcp_sport f);
    if af =? 0 then st ← net_tcp_syn_wait_release st i; Some (st, true)
    else
      '(st, r) ← unix_acceptq_push st (listener w) af;
      st ← (if nz r then net_fs_file_destroy st af else Some st);
      st ← net_tcp_syn_wait_release st i; Some (st, true)
  else
    let '(tc, d, _) := net_tcp_reject_ack ip (w_tcp w) (wd st) (tcp_ack f) in
    Some ((put_wait st i (w <| w_tcp := tc |>)) <| wd := d |>, true).

(** Whether the frame is done with. [rdy] is [g_net.ready]. *)
Definition net_tcp_dispatch_incoming (st : server) (rdy : bool) (f : list Z) (now : Z) : option (server * bool) :=
  if negb rdy || negb (net_frame_l4_tcp f) || negb (ip_dst f =? ip) then Some (st, false)
  else
    let flags := tcp_flags f in
    if nz (flags &u 0x02) && negb (nz (flags &u 0x10)) then dispatch_syn st f now
    else
      est ← net_tcp_find_established st (tcp_dport f) (ip_src f) (tcp_sport f);
      if nz est then Some (st <| rx_queue := (net_rxq_push (rx_queue st) f).1 |>, true)
      else if nz (flags &u 0x10) && negb (nz (flags &u 0x02)) then
        found ← net_tcp_syn_wait_find st (tcp_dport f) (ip_src f) (tcp_sport f);
        match found with Some i => dispatch_ack st f i | None => Some (st, false) end
      else Some (st, false).

Definition net_tcp_client_wants_frame (st : server) (rdy : bool) (f : list Z) : option bool :=
  if negb rdy then Some false
  else
    p ← find_sock st (λ s, negb (dns_bridge s) && used (tcp s) && net_tcp_match_frame f ip (tcp s)) (registry st);
    Some (nz p).

End server.
End Server.
