(* ===== verification/NetServerProps.v ===== *)
(** The TCP server: a client that connects to a listening port ends up in the accept queue,
    established on both sides; and the demultiplexer stays within the sockets that are
    there, as long as no listener is closed while a connection to it is being opened. *)
From S2P Require Import Prelude NetBytes Tcp Net NetProps NetRxq TcpStream TcpProps TcpWire TcpEnd TcpHandshake NetServer.
Import Tcp Net Rxq Server.

(** * What the demultiplexer reads of a frame *)

Lemma decode_frame ip c f fl sq ak pl : decode ip c f = Some (fl, sq, ak, pl) →
  net_frame_l4_tcp f = true ∧ ip_dst f = ip ∧ ip_src f = dst_ip_be c ∧ tcp_sport f = dst_port c ∧ tcp_dport f = src_port c ∧
  tcp_flags f = fl ∧ tcp_seq f = sq ∧ tcp_ack f = ak ∧ net_tcp_frame_payload f = pl.
Proof.
  unfold decode. destruct (for_conn ip c f) eqn:E; [|done]. cbn [negb]. unfold for_conn in E. repeat (apply andb_prop in E as [E ?]).
  rewrite !negb_true_iff, ?Z.eqb_eq, ?Z.ltb_ge in *. unfold net_frame_l4_tcp, tcp_sport, tcp_dport, tcp_flags, tcp_seq, tcp_ack, net_tcp_frame_payload, tcp_at.
  fold (ihl_of f) in *. rewrite !Z.add_0_r in *.
  destruct (Z.ltb_spec (Z.shiftr (byte f (ETH_LEN + ihl_of f + 12)) 4 * 4) TCP_LEN); [done|]. cbn [orb].
  destruct (Z.ltb_spec 60 (Z.shiftr (byte f (ETH_LEN + ihl_of f + 12)) 4 * 4)); [done|].
  destruct (Z.ltb_spec (length f) (ETH_LEN + ihl_of f + Z.shiftr (byte f (ETH_LEN + ihl_of f + 12)) 4 * 4)); [done|].
  destruct (Z.ltb_spec (be16 (ld16 f (ETH_LEN + 2))) (ihl_of f + Z.shiftr (byte f (ETH_LEN + ihl_of f + 12)) 4 * 4)); [done|].
  destruct (_ || negb _); [done|]. intros [= <- <- <- <-]. cbn [orb]. split_and!; try done.
  assert (ethertype f = ETH_TYPE_IPV4 ∧ ip_proto f = IPPROTO_TCP_LOCAL) as [-> ->] by done. unfold ETH_LEN, IP_LEN, TCP_LEN in *.
  rewrite !(proj2 (Z.ltb_ge _ _)) by lia. by apply Z.leb_le.
Qed.

(** * Slots *)

(** What a slot does to [wait_find]: [None] for a dangling listener. *)
Definition slot_test (st : server) (lport rip rport : Z) (o : option syn_wait) : option bool :=
  match o with
  | None => Some false
  | Some w =>
      if negb (active w) || (listener w =? 0) then Some false
      else s ← socks st !! listener w; Some ((s_local_port s =? lport) && (w_peer_ip w =? rip) && (w_peer_port w =? rport))
  end.
Lemma wait_find_test st lp rip rp i l : wait_find st lp rip rp i l =
  match l with [] => Some None | o :: l => match slot_test st lp rip rp o with None => None | Some true => Some (Some i) | Some false => wait_find st lp rip rp (S i) l end end.
Proof. destruct l as [|[w|] l]; [done| |done]. cbn [wait_find slot_test]. destruct (_ || _); [done|]. by destruct (socks st !! listener w). Qed.
Lemma wait_find_none st lp rip rp i l : wait_find st lp rip rp i l = Some None ↔ Forall (λ o, slot_test st lp rip rp o = Some false) l.
Proof.
  revert i. induction l as [|o l IH]; intros i; rewrite wait_find_test; [done|]. rewrite Forall_cons.
  destruct (slot_test st lp rip rp o) as [[]|]; cbn; [naive_solver| |naive_solver]. rewrite IH. naive_solver.
Qed.
Lemma wait_find_at st lp rip rp i l j : (∀ k, (k < j)%nat → k < length l → slot_test st lp rip rp (mjoin (l !! k)) = Some false) →
  (j < length l)%nat → slot_test st lp rip rp (mjoin (l !! j)) = Some true → wait_find st lp rip rp i l = Some (Some (i + j)%nat).
Proof.
  revert i j. induction l as [|o l IH]; intros i j Hb Hj Ht; [cbn in Hj; lia|]. rewrite wait_find_test. destruct j as [|j].
  - assert (slot_test st lp rip rp o = Some true) as -> by exact Ht. do 2 f_equal. lia.
  - assert (slot_test st lp rip rp o = Some false) as -> by (apply (Hb O); cbn; lia).
    rewrite (IH (S i) j); [do 2 f_equal; lia| |cbn in Hj; lia|done]. intros k Hk Hl. apply (Hb (S k)); [lia|cbn; lia].
Qed.

(** A slot as [net_tcp_syn_wait_clear] leaves it. *)
Record cleared (w : syn_wait) : Prop := {
  cl_active : active w = false;
  cl_listener : listener w = 0;
  cl_tick : last_synack_tick w = 0;
  cl_used : used (w_tcp w) = false;
  cl_buf : rx_buf (w_tcp w) = 0
}.
(** One slot before and after the search for a free one, and the search. *)
Definition slot_kept (o o' : option syn_wait) : Prop :=
  o' = o ∨ ∃ w w', o = Some w ∧ o' = Some w' ∧ cleared w' ∧ rcv_wscale (w_tcp w') = rcv_wscale (w_tcp w).
Definition scale_ok (o : option syn_wait) : Prop := match o with Some w => 0 ≤ rcv_wscale (w_tcp w) | None => True end.
Record taken (w : syn_wait) : Prop := {
  tk_active : active w = true;
  tk_listener : listener w = 0;
  tk_tick : last_synack_tick w = 0;
  tk_used : used (w_tcp w) = false;
  tk_scale : 0 ≤ rcv_wscale (w_tcp w)
}.
Record same_run (d d' : world) : Prop := { sr_sent : sent d' = sent d; sr_frames : frames d' = frames d; sr_blocks : suffix (blocks d') (blocks d) }.
#[export] Instance same_run_trans : Transitive same_run.
Proof. intros a b c [E1 E2 E3] [F1 F2 F3]. split; [congruence..|by etrans]. Qed.
#[export] Instance same_run_refl : Reflexive same_run.
Proof. done. Qed.

Lemma clear_cleared w d w' d' : net_tcp_syn_wait_clear w d = (w', d') → cleared w' ∧ rcv_wscale (w_tcp w') = rcv_wscale (w_tcp w) ∧ same_run d d'.
Proof.
  unfold net_tcp_syn_wait_clear, net_tcp_reset, net_tcp_rx_release. intros [= <- <-]. split; [by split|]. by destruct (nz (rx_buf (w_tcp w))).
Qed.
Lemma slot_kept_refl l : Forall2 slot_kept l l.
Proof. apply Forall_Forall2_diag, Forall_true. by left. Qed.
Lemma reuse_slot_spec now stale i l d l' d' r : Forall scale_ok l → reuse_slot now stale i l d = (l', d', r) →
  same_run d d' ∧ ∃ m, Forall2 slot_kept l m ∧
    match r with
    | None => l' = m
    | Some k => ∃ j w, k = (i + j)%nat ∧ (j < length m)%nat ∧ taken w ∧ l' = <[j := Some w]> m
    end.
Proof.
  intros Hs. revert i d l' d' r. induction Hs as [|o l Ho Hs IH]; intros i d l' d' r; cbn [reuse_slot].
  { intros [= <- <- <-]. split; [done|]. by exists []. }
  destruct o as [w|].
  2: { destruct (reuse_slot now stale (S i) l d) as [[l2 d2] r2] eqn:E2. intros [= <- <- <-]. apply IH in E2 as (S2 & m & Hm & H2). split; [done|].
    exists (None :: m). split; [constructor; [by left|done]|]. destruct r2 as [k|]; [|by subst].
    destruct H2 as (j & w & -> & Hj & Hw & ->). exists (S j), w. cbn. split_and!; [lia|lia|done..]. }
  set (stl := active w && _ && _). destruct (if stl then net_tcp_syn_wait_clear w d else (w, d)) as [w1 d1] eqn:E1.
  assert (H1 : slot_kept (Some w) (Some w1) ∧ rcv_wscale (w_tcp w1) = rcv_wscale (w_tcp w) ∧ same_run d d1).
  { destruct stl; [|injection E1 as <- <-; split; [by left|done]]. apply clear_cleared in E1 as (C & S & ?). split; [right; by exists w, w1|done]. }
  destruct H1 as (K1 & W1 & S1). destruct (active w1) eqn:A; cbn [negb].
  - destruct (reuse_slot now stale (S i) l d1) as [[l2 d2] r2] eqn:E2. intros [= <- <- <-]. apply IH in E2 as (S2 & m & Hm & H2). split; [by etrans|].
    exists (Some w1 :: m). split; [by constructor|]. destruct r2 as [k|]; [|by subst].
    destruct H2 as (j & v & -> & Hj & Hw & ->). exists (S j), v. cbn. split_and!; [lia|lia|done..].
  - destruct (net_tcp_syn_wait_clear w1 d1) as [w2 d2] eqn:E2. apply clear_cleared in E2 as (C2 & W2 & S2). intros [= <- <- <-]. split; [by etrans|].
    exists (Some w1 :: l). split; [constructor; [done|apply slot_kept_refl]|]. exists O, (w2 <| active := true |>). cbn. split_and!; [lia|lia| |done].
    split; [done|apply C2..|]. cbn. rewrite W2, W1. exact Ho.
Qed.
Lemma empty_slot_lt i l k : empty_slot i l = Some k → ∃ j, k = (i + j)%nat ∧ (j < length l)%nat.
Proof.
  revert i. induction l as [|[w|] l IH]; intros i; cbn; [done| |].
  - intros (j & -> & ?)%IH. exists (S j). lia.
  - intros [= <-]. exists O. lia.
Qed.

Lemma slot_test_kept st lp rip rp o o' : slot_kept o o' → slot_test st lp rip rp o = Some false → slot_test st lp rip rp o' = Some false.
Proof. intros [-> | (w & w' & -> & -> & [A _ _ _ _] & _)]; [done|]. cbn. by rewrite A. Qed.
Lemma slots_kept st lp rip rp l m : Forall2 slot_kept l m → Forall (λ o, slot_test st lp rip rp o = Some false) l →
  Forall (λ o, slot_test st lp rip rp o = Some false) m.
Proof. induction 1 as [|o o' l m H _ IH]; intros F; inversion F; subst; constructor; [by eapply slot_test_kept|by apply IH]. Qed.
Lemma slot_test_ext st st' lp rip rp o b : (∀ q s, socks st !! q = Some s → ∃ s', socks st' !! q = Some s' ∧ s_local_port s' = s_local_port s) →
  slot_test st lp rip rp o = Some b → slot_test st' lp rip rp o = Some b.
Proof.
  intros H. destruct o as [w|]; cbn; [|done]. destruct (_ || _); [done|]. destruct (socks st !! listener w) as [s|] eqn:E; [|done]. cbn.
  destruct (H _ _ E) as (s' & -> & Hp). cbn. by rewrite Hp.
Qed.

(** * The registry *)

Definition sock_test (st : server) (test : ksock → bool) (p : Z) : option bool :=
  if nz p then s ← socks st !! p; Some (negb (kref s <=? 0) && test s) else Some false.
Lemma find_sock_test st test l : find_sock st test l =
  match l with [] => Some 0 | p :: l => match sock_test st test p with None => None | Some true => Some p | Some false => find_sock st test l end end.
Proof. destruct l as [|p l]; [done|]. cbn [find_sock]. unfold sock_test. destruct (nz p); [|done]. by destruct (socks st !! p). Qed.
Lemma find_sock_ext st st' test l : socks st' = socks st → find_sock st' test l = find_sock st test l.
Proof. intros E. induction l as [|p l IH]; [done|]. cbn [find_sock]. by rewrite IH, E. Qed.
Lemma sock_test_true st test p : sock_test st test p = Some true → p ≠ 0 ∧ ∃ s, socks st !! p = Some s ∧ 0 < kref s ∧ test s = true.
Proof.
  unfold sock_test. destruct (nz p) eqn:E; [|done]. apply nz_true in E. destruct (socks st !! p) as [s|]; [|done]. cbn. intros [= H].
  apply andb_prop in H as [H1%negb_true_iff%Z.leb_gt H2]. eauto.
Qed.
Lemma find_sock_none st test l : find_sock st test l = Some 0 ↔ Forall (λ p, sock_test st test p = Some false) l.
Proof.
  induction l as [|p l IH]; rewrite find_sock_test; [done|]. rewrite Forall_cons.
  destruct (sock_test st test p) as [[]|] eqn:E; [|naive_solver..]. apply sock_test_true in E as [E _]. naive_solver.
Qed.
Lemma find_sock_some st test l p : find_sock st test l = Some p → p ≠ 0 → ∃ s, p ∈ l ∧ socks st !! p = Some s ∧ 0 < kref s ∧ test s = true.
Proof.
  induction l as [|q l IH]; rewrite find_sock_test; [by intros [= <-]|]. destruct (sock_test st test q) as [[]|] eqn:E; [|set_solver|done].
  intros [= <-] _. apply sock_test_true in E as (_ & s & ?). exists s. set_solver.
Qed.
Lemma find_sock_insert st test l k p : Forall (λ q, q = p ∨ sock_test st test q = Some false) l → (k < length l)%nat → sock_test st test p = Some true →
  find_sock st test (<[k := p]> l) = Some p.
Proof.
  intros F Hk Hp. revert k Hk. induction F as [|q l Hq F IH]; intros [|k] Hk; cbn in Hk; [lia..| |].
  - cbn [insert list_insert]. by rewrite find_sock_test, Hp.
  - cbn [insert list_insert]. rewrite find_sock_test. destruct Hq as [-> | ->]; [by rewrite Hp|]. apply IH. lia.
Qed.
Lemma free_slot_spec i l k : free_slot i l = Some k → ∃ j, k = (i + j)%nat ∧ l !! j = Some 0.
Proof.
  revert i. induction l as [|p l IH]; intros i; cbn [free_slot]; [done|]. destruct (nz p) eqn:E.
  - intros (j & -> & ?)%IH. exists (S j). split; [lia|done].
  - intros [= <-]. apply nz_false in E as ->. exists O. split; [lia|done].
Qed.

(** * Accept queues *)

(** The connections that wait in the queue of a listener, the oldest first. *)
Definition at_place (s : ksock) (k : nat) : Z := default 0 (accept_q s !! ((accept_head s + k) mod ACCEPT_CAP)%nat).
Definition pending (s : ksock) : list Z := at_place s <$> seq 0 (Z.to_nat (accept_count s)).
Record acceptq_ok (s : ksock) : Prop := {
  aq_len : length (accept_q s) = ACCEPT_CAP;
  aq_head : (accept_head s < ACCEPT_CAP)%nat;
  aq_count : 0 ≤ accept_count s ≤ ACCEPT_CAP;
  aq_tail : accept_tail s = ((accept_head s + Z.to_nat (accept_count s)) mod ACCEPT_CAP)%nat
}.
Definition limit (s : ksock) : Z :=
  let maxq := if 0 <? unix_backlog s then unix_backlog s else ACCEPT_CAP in if ACCEPT_CAP <? maxq then ACCEPT_CAP else maxq.
Definition pushed (s : ksock) (f : Z) : ksock :=
  s <| accept_q := <[accept_tail s := f]> (accept_q s) |> <| accept_tail := ((accept_tail s + 1) mod ACCEPT_CAP)%nat |> <| accept_count := accept_count s + 1 |>.

Lemma mod_inj a b n : (a < n)%nat → (b < n)%nat → (∀ h, (h + a) mod n = (h + b) mod n → a = b)%nat.
Proof.
  intros Ha Hb h E. apply (f_equal Z.of_nat) in E. rewrite !Nat2Z.inj_mod, !Nat2Z.inj_add in E.
  assert (((h + a) - (h + b)) mod n = 0) as E2 by (rewrite Zminus_mod, E, Z.sub_diag; apply Z.mod_0_l; lia).
  apply Z.mod_divide in E2 as [q Hq]; [|lia]. assert (q = 0) by nia. lia.
Qed.
Lemma limit_le s : limit s ≤ ACCEPT_CAP.
Proof. unfold limit. repeat case_match; lia. Qed.
Lemma acceptq_push_room st l s f : socks st !! l = Some s → acceptq_ok s → accept_count s < limit s →
  unix_acceptq_push st l f = Some (put_sock st l (pushed s f), 0) ∧ acceptq_ok (pushed s f) ∧ pending (pushed s f) = pending s ++ [f].
Proof.
  intros Hs [A1 A2 A3 A4] Hc. pose proof (limit_le s). unfold unix_acceptq_push. rewrite Hs. cbn [mbind option_bind]. fold (limit s).
  rewrite (proj2 (Z.leb_gt _ _) Hc). split; [done|]. assert (Hn : Z.to_nat (accept_count s + 1) = S (Z.to_nat (accept_count s))) by lia. split.
  - split; cbn -[ACCEPT_CAP Nat.modulo]; rewrite ?length_insert, ?Hn; [done|done|lia|]. rewrite A4, Nat.Div0.add_mod_idemp_l. f_equal. lia.
  - unfold pending. cbn [accept_count pushed]. change (accept_count (pushed s f)) with (accept_count s + 1). rewrite Hn, seq_S, fmap_app. cbn [fmap list_fmap]. f_equal.
    + apply list_fmap_ext. intros j k [-> Hk]%lookup_seq. unfold at_place. cbn -[ACCEPT_CAP Nat.modulo]. rewrite list_lookup_insert_ne; [done|]. rewrite A4. intros E%mod_inj; lia.
    + unfold at_place. cbn -[ACCEPT_CAP Nat.modulo]. rewrite <- A4, list_lookup_insert_eq; [done|]. rewrite A1, A4. apply Nat.mod_upper_bound. done.
Qed.
Lemma acceptq_pop_first st l s f q : socks st !! l = Some s → acceptq_ok s → pending s = f :: q →
  ∃ s', unix_acceptq_pop st l = Some (put_sock st l s', f) ∧ acceptq_ok s' ∧ pending s' = q.
Proof.
  intros Hs [A1 A2 A3 A4] Hp. unfold unix_acceptq_pop. rewrite Hs. cbn [mbind option_bind]. unfold pending in Hp.
  destruct (Z.to_nat (accept_count s)) as [|n] eqn:En; [done|]. rewrite (proj2 (Z.ltb_lt _ _)) by lia. cbn [seq fmap list_fmap] in Hp. injection Hp as Hf Hq.
  eexists. split; [|split].
  - do 2 f_equal. rewrite <- Hf. unfold at_place. by rewrite Nat.add_0_r, Nat.mod_small.
  - split; cbn -[ACCEPT_CAP Nat.modulo]; rewrite ?length_insert; [done|by apply Nat.mod_upper_bound|lia|]. rewrite A4, Nat.Div0.add_mod_idemp_l.
    replace (Z.to_nat (accept_count s - 1)) with n by lia. f_equal. lia.
  - unfold pending. cbn -[ACCEPT_CAP Nat.modulo]. replace (Z.to_nat (accept_count s - 1)) with n by lia. rewrite <- Hq, <- fmap_S_seq, <- list_fmap_compose.
    apply list_fmap_ext. intros j k [-> Hk]%lookup_seq. unfold at_place. cbn -[ACCEPT_CAP Nat.modulo]. rewrite Nat.Div0.add_mod_idemp_l.
    rewrite list_lookup_insert_ne; [do 3 f_equal; lia|]. intros E. rewrite <- (Nat.mod_small _ _ A2) in E at 1.
    replace (accept_head s) with (accept_head s + 0)%nat in E at 1 by lia. replace (accept_head s + 1 + j)%nat with (accept_head s + (1 + j))%nat in E by lia.
    apply mod_inj in E; lia.
Qed.

Section server.
Context (ip : Z) (clk : nat → Z) (timer_frequency : Z).

Lemma take_slot_spec st now st' r : Forall scale_ok (syn_waits st) → net_tcp_syn_wait_take_slot timer_frequency st now = (st', r) →
  ∃ d l m, st' = st <| syn_waits := l |> <| wd := d |> ∧ same_run (wd st) d ∧ Forall2 slot_kept (syn_waits st) m ∧
    match r with None => l = m | Some i => ∃ w, (i < length m)%nat ∧ taken w ∧ l = <[i := Some w]> m end.
Proof.
  intros Hs. unfold net_tcp_syn_wait_take_slot. destruct (reuse_slot _ _ _ _ _) as [[l d] [i|]] eqn:E; apply reuse_slot_spec in E as (S1 & m & Hm & H1); try done.
  - intros [= <- <-]. exists d, l, m. split_and!; try done. destruct H1 as (j & w & -> & H1). by exists w.
  - subst m. destruct (empty_slot 0 l) as [i|] eqn:Ee; [|intros [= <- <-]; by exists d, l, l].
    apply empty_slot_lt in Ee as (j & -> & Hj). match goal with |- context [kmalloc ?x] => change x with d end. unfold kmalloc.
    assert (Hd : ∀ b, suffix b (blocks d) → same_run (wd st) (d <| blocks := b |>)).
    { intros b Hb. etrans; [done|]. by split. }
    destruct (blocks d) as [|p ps] eqn:Eb; cbn [nz Z.eqb negb].
    + intros [= <- <-]. by exists d, l, l.
    + pose proof (Hd ps ltac:(by apply suffix_cons_r)) as Hp. destruct (nz p); intros [= <- <-].
      * exists (d <| blocks := ps |>), (<[j := Some (wait0 <| active := true |>)]> l), l. split_and!; try done. by exists (wait0 <| active := true |>).
      * by exists (d <| blocks := ps |>), l, l.
Qed.

(** * A SYN opens a slot *)

Record opened (f : list Z) (l : Z) (s1 : net_tcp_conn_t) (w : syn_wait) : Prop := {
  od_active : active w = true;
  od_listener : listener w = l;
  od_ip : w_peer_ip w = ip_src f;
  od_port : w_peer_port w = tcp_sport f;
  od_tcp : w_tcp w = s1
}.
Lemma dispatch_syn_opens st f now l st' i : Forall scale_ok (syn_waits st) →
  net_tcp_find_listener st (tcp_dport f) = Some l → l ≠ 0 → net_tcp_syn_wait_find st (tcp_dport f) (ip_src f) (tcp_sport f) = Some None →
  net_tcp_syn_wait_take_slot timer_frequency st now = (st', Some i) →
  ∃ m d s0 s1 d1 r w, Forall2 slot_kept (syn_waits st) m ∧ (i < length m)%nat ∧ same_run (wd st) d ∧
    ids s0 = (ip_src f, tcp_sport f, tcp_dport f) ∧ 0 ≤ rcv_wscale s0 ∧ net_tcp_server_reply_syn ip clk s0 d (tcp_seq f) = (s1, d1, r) ∧
    opened f l s1 w ∧ dispatch_syn ip clk timer_frequency st f now = Some (st <| syn_waits := <[i := Some w]> m |> <| wd := d1 |>, true).
Proof.
  intros Hs Hl Hl0 Hf Ht. unfold dispatch_syn. rewrite Hl. cbn [mbind option_bind]. rewrite (proj2 (Z.eqb_neq _ _) Hl0), Hf, Ht. cbn [mbind option_bind].
  destruct (take_slot_spec _ _ _ _ Hs Ht) as (d & l' & m & -> & Sd & Hm & w & Hi & [T1 _ T2 T3 T4] & ->).
  match goal with |- context [mjoin (?x !! i)] => change x with (<[i := Some w]> m) end. rewrite list_lookup_insert_eq by done. cbn [mjoin option_join mbind option_bind].
  match goal with |- context [put_wait ?a i ?w0] => set (w1 := w0); set (st1 := a) end.
  match goal with |- context [mjoin (?x !! i)] => change x with (<[i := Some w1]> (<[i := Some w]> m)) end.
  rewrite list_insert_insert_eq, list_lookup_insert_eq by done. cbn [mjoin option_join mbind option_bind].
  change (used (w_tcp w1)) with (used (w_tcp w)). rewrite T3. cbn [andb]. change (wd (put_wait st1 i w1)) with d.
  destruct (net_tcp_server_reply_syn ip clk (w_tcp w1) d (tcp_seq f)) as [[s1 d1] r] eqn:Er.
  eexists m, d, (w_tcp w1), s1, d1, r, _. split_and!; try done; last first.
  - do 2 f_equal. unfold put_wait, st1. cbn. rewrite !list_insert_insert_eq. reflexivity.
  - by split.
Qed.

Lemma rx_alloc_keeps l c w c' w' r : rx_alloc l c w = (c', w', r) →
  same_run w w' ∧ used c' = used c ∧ peer_rst c' = peer_rst c ∧ ids c' = ids c ∧ (0 ≤ rcv_wscale c → 0 ≤ rcv_wscale c').
Proof.
  revert c w. induction l as [|n l IH]; intros c w; cbn [rx_alloc]; [by intros [= <- <- _]|]. unfold kmalloc.
  destruct (blocks w) as [|p ps] eqn:E; cbn [nz Z.eqb negb]; [by intros ?%IH|].
  assert (Hs : same_run w (w <| blocks := ps |>)) by (split; [done..|]; rewrite E; by apply suffix_cons_r).
  destruct (nz p); [intros [= <- <- _]; split_and!; try done; intros _; by apply scale_range|]. intros (H & ?)%IH. split; [by etrans|done].
Qed.
Lemma rx_ensure_keeps c w c' w' r : net_tcp_rx_ensure c w = (c', w', r) →
  same_run w w' ∧ used c' = used c ∧ peer_rst c' = peer_rst c ∧ ids c' = ids c ∧ (0 ≤ rcv_wscale c → 0 ≤ rcv_wscale c').
Proof. unfold net_tcp_rx_ensure. destruct (_ && _); [by intros [= <- <- _]|apply rx_alloc_keeps]. Qed.
Lemma send_len_refused c w fl pl opts w' r : tcp_send_seg_len ip c w fl pl opts = (w', r) → r = 0 ∨ sent w' = sent w.
Proof.
  unfold tcp_send_seg_len. destruct (_ || _); [intros [= <- <-]; by right|]. unfold send_l4. destruct (refusals w) as [|[] l]; intros [= <- <-]; auto.
Qed.
Lemma reply_syn_sent c w sq c' w' r : net_tcp_server_reply_syn ip clk c w sq = (c', w', r) →
  (r = 0 ∧ used c' = true ∧ peer_rst c' = false ∧ ids c' = ids c) ∨ sent w' = sent w.
Proof.
  unfold net_tcp_server_reply_syn, time_ms, net_tcp_reset, net_tcp_rx_release. cbn zeta beta iota.
  match goal with |- context [net_tcp_rx_ensure ?cc ?ww] => set (c2 := cc); set (w2 := ww) end.
  assert (S2 : sent w2 = sent w) by (unfold w2; by destruct (nz (rx_buf c))).
  destruct (net_tcp_rx_ensure c2 w2) as [[c3 w3] r3] eqn:E3.
  apply rx_ensure_keeps in E3 as ([S3 _ _] & U3 & P3 & I3 & _). change (used c2) with true in U3. change (peer_rst c2) with false in P3.
  destruct (nz r3); [intros [= <- <- <-]; right; congruence|].
  match goal with |- context [tcp_send_seg_len ip ?cc ?ww 18 [] _] => set (c4 := cc) end.
  destruct (tcp_send_seg_len ip c4 w3 18 [] (tcp_syn_options c4)) as [w5 r5] eqn:E5. apply send_len_refused in E5 as [-> | E5].
  - intros [= <- <- <-]. by left.
  - destruct (nz r5); intros [= <- <- <-]; right; congruence.
Qed.

(** A SYN that was answered. *)
Lemma dispatch_syn_sent st f now l st1 b synack : Forall scale_ok (syn_waits st) →
  net_tcp_find_listener st (tcp_dport f) = Some l → l ≠ 0 → net_tcp_syn_wait_find st (tcp_dport f) (ip_src f) (tcp_sport f) = Some None →
  dispatch_syn ip clk timer_frequency st f now = Some (st1, b) → sent (wd st1) = sent (wd st) ++ [synack] →
  ∃ i m d s0 s1 d1 w, Forall2 slot_kept (syn_waits st) m ∧ (i < length m)%nat ∧ sent d = sent (wd st) ∧
    ids s0 = (ip_src f, tcp_sport f, tcp_dport f) ∧ 0 ≤ rcv_wscale s0 ∧ net_tcp_server_reply_syn ip clk s0 d (tcp_seq f) = (s1, d1, 0) ∧
    used s1 = true ∧ peer_rst s1 = false ∧ ids s1 = ids s0 ∧ opened f l s1 w ∧ st1 = st <| syn_waits := <[i := Some w]> m |> <| wd := d1 |>.
Proof.
  intros Hs Hl Hl0 Hf Hd Hsent.
  assert (Hne : sent (wd st1) ≠ sent (wd st)) by (rewrite Hsent; intros E%(f_equal length); rewrite length_app in E; cbn in E; lia).
  destruct (net_tcp_syn_wait_take_slot timer_frequency st now) as [st' [i|]] eqn:Et.
  - destruct (dispatch_syn_opens st f now l st' i Hs Hl Hl0 Hf Et) as (m & d & s0 & s1 & d1 & r & w & H1 & H2 & H3 & H4 & H5 & H6 & H7 & E).
    rewrite E in Hd. injection Hd as <- <-. destruct (reply_syn_sent _ _ _ _ _ _ H6) as [(-> & U & P & I)|H]; [|by rewrite (sr_sent _ _ H3) in H].
    exists i, m, d, s0, s1, d1, w. split_and!; try done. apply H3.
  - unfold dispatch_syn in Hd. rewrite Hl in Hd. cbn [mbind option_bind] in Hd. rewrite (proj2 (Z.eqb_neq _ _) Hl0), Hf, Et in Hd. injection Hd as <- <-.
    apply (take_slot_spec _ _ _ _ Hs) in Et as (d & l' & m & -> & Sd & _). by destruct (Hne (sr_sent _ _ Sd)).
Qed.

(** * The acknowledgement fills the accept queue *)

(** What accepting needs: memory for a socket, its file and its path, a place in the registry
    and one in the queue of the listener. *)
Record can_accept (st : server) (l : Z) (ls : ksock) (p pf pp : Z) (bs : list Z) (k : nat) : Prop := {
  ca_listener : socks st !! l = Some ls;
  ca_queue : acceptq_ok ls ∧ accept_count ls < limit ls;
  ca_blocks : blocks (wd st) = p :: pf :: pp :: bs;
  ca_nonnull : p ≠ 0 ∧ pf ≠ 0 ∧ pp ≠ 0;
  ca_fresh : socks st !! p = None;
  ca_slot : free_slot 0 (registry st) = Some k
}.
Definition accepted (ls : ksock) (c : net_tcp_conn_t) (m : list Z) (rip rport : Z) (k : nat) : ksock :=
  sock0 <| is_connected := true |> <| s_local_port := s_local_port ls |> <| s_peer_ip := rip |> <| s_peer_port := rport |>
    <| nonblock := nonblock ls |> <| tcp := net_tcp_stage_peer_mac c m |> <| kref := 1 |> <| registry_slot := Z.of_nat k + 1 |>.

Lemma kmalloc_cons d p l : blocks d = p :: l → kmalloc d = (d <| blocks := l |>, p).
Proof. unfold kmalloc. by intros ->. Qed.
Lemma make_accepted_ok st l ls p pf pp bs k i w rip rport : can_accept st l ls p pf pp bs k → mjoin (syn_waits st !! i) = Some w →
  net_tcp_make_accepted_file ip st l i rip rport =
    Some (st <| syn_waits := <[i := Some (w <| w_tcp := net_tcp_rx_orphan (w_tcp w) |>)]> (syn_waits st) |>
             <| socks := <[p := accepted ls (w_tcp w) (w_peer_mac w) rip rport k]> (socks st) |> <| registry := <[k := p]> (registry st) |>
             <| files := <[pf := (p, pp)]> (files st) |> <| wd := (wd st) <| blocks := bs |> |>, pf).
Proof.
  intros [A1 A2 A3 (A4 & A5 & A6) A7 A8] Hw. unfold net_tcp_make_accepted_file. rewrite Hw, A1. cbn [mbind option_bind].
  rewrite (kmalloc_cons _ _ _ A3). rewrite (kmalloc_cons _ pf (pp :: bs)), (kmalloc_cons _ pp bs) by done. rewrite !(proj2 (nz_true _)) by done. cbn [andb negb]. cbn zeta. unfold ksock_register, put_sock, put_wait.
  match goal with |- context [socks ?x !! p] => change (socks x) with (<[p := (accepted ls (w_tcp w) (w_peer_mac w) rip rport 0) <| registry_slot := 0 |>]> (socks st)) end.
  rewrite lookup_insert_eq. cbn -[free_slot accepted]. rewrite A8. cbn -[free_slot]. rewrite insert_insert_eq. reflexivity.
Qed.
Lemma dispatch_ack_accepts st f i w l ls p pf pp bs k s2 : mjoin (syn_waits st !! i) = Some w → listener w = l → can_accept st l ls p pf pp bs k →
  net_tcp_server_complete_ack (w_tcp w) (tcp_ack f) = (s2, 0) → net_tcp_frame_payload f = [] →
  ∃ w' d', dispatch_ack ip st f i =
    Some (st <| syn_waits := <[i := Some w']> (syn_waits st) |>
             <| socks := <[l := pushed ls pf]> (<[p := accepted ls s2 (w_peer_mac w) (ip_src f) (tcp_sport f) k]> (socks st)) |>
             <| registry := <[k := p]> (registry st) |> <| files := <[pf := (p, pp)]> (files st) |> <| wd := d' |>, true) ∧
    cleared w' ∧ sent d' = sent (wd st) ∧ blocks d' = bs.
Proof.
  intros Hw Hl Hc Ha Hp. unfold dispatch_ack. rewrite Hw. cbn [mbind option_bind]. rewrite Ha, Hp. cbv beta iota zeta. change (0 =? 0) with true. change (0 <? length []) with false. cbv beta iota zeta.
  set (w1 := w <| w_tcp := s2 |>). set (st1 := (put_wait st i w1) <| wd := wd st |>).
  assert (Hi : (i < length (syn_waits st))%nat). { destruct (syn_waits st !! i) eqn:E; [|done]. by apply lookup_lt_Some in E. }
  assert (H1 : mjoin (syn_waits st1 !! i) = Some w1) by (cbn; by rewrite list_lookup_insert_eq).
  assert (C1 : can_accept st1 l ls p pf pp bs k) by (by destruct Hc; split). rewrite Hl, (make_accepted_ok _ _ _ _ _ _ _ _ _ _ _ _ C1 H1).
  destruct Hc as [A1 [A2 A2'] A3 (A4 & A5 & A6) A7 A8]. cbn [mbind option_bind]. rewrite (proj2 (Z.eqb_neq pf 0) A5).
  set (st2 := st1 <| syn_waits := _ |> <| socks := _ |> <| registry := _ |> <| files := _ |> <| wd := _ |>).
  assert (H2 : socks st2 !! l = Some ls) by (cbn; rewrite lookup_insert_ne; [done|congruence]).
  destruct (acceptq_push_room st2 l ls pf H2 A2 A2') as (-> & _ & _). cbn [mbind option_bind nz Z.eqb negb]. unfold net_tcp_syn_wait_release.
  set (w2 := w1 <| w_tcp := net_tcp_rx_orphan (w_tcp w1) |>).
  assert (mjoin (syn_waits (put_sock st2 l (pushed ls pf)) !! i) = Some w2) as ->.
  { cbn. rewrite list_lookup_insert_eq; [done|by rewrite length_insert]. }
  cbn [mbind option_bind]. destruct (net_tcp_syn_wait_clear w2 _) as [w3 d3] eqn:E3. pose proof (clear_cleared _ _ _ _ E3) as (C3 & _ & S3).
  exists w3, d3. split_and!; [|done|by rewrite (sr_sent _ _ S3)|]; [|unfold net_tcp_syn_wait_clear in E3; by injection E3 as <- <-].
  do 2 f_equal. unfold put_wait, put_sock. cbn. by rewrite !list_insert_insert_eq.
Qed.

(** The new connection is the established one of its four-tuple, and its slot is free. *)
Lemma accepted_found st st2 l ls p pf pp bs k s2 m rip rport i w' : can_accept st l ls p pf pp bs k → used s2 = true → peer_rst s2 = false →
  established s2 = true → net_tcp_find_established st (s_local_port ls) rip rport = Some 0 →
  socks st2 = <[l := pushed ls pf]> (<[p := accepted ls s2 m rip rport k]> (socks st)) → registry st2 = <[k := p]> (registry st) →
  net_tcp_find_established st2 (s_local_port ls) rip rport = Some p ∧
  ∀ sl, Forall (λ o, slot_test st (s_local_port ls) rip rport o = Some false) sl → cleared w' → syn_waits st2 = <[i := Some w']> sl →
    net_tcp_syn_wait_find st2 (s_local_port ls) rip rport = Some None.
Proof.
  intros [A1 A2 A3 A4 A7 A8] Hu Hr He Hn Es Er. apply free_slot_spec in A8 as (j & -> & Hj). apply find_sock_none in Hn.
  assert (Hl : p ≠ l) by congruence. set (T := net_tcp_match_established_sock (s_local_port ls) rip rport) in *.
  assert (Hold : ∀ q s, socks st !! q = Some s → ∃ s', socks st2 !! q = Some s' ∧ s_local_port s' = s_local_port s ∧ kref s' = kref s ∧ T s' = T s).
  { intros q s Hq. rewrite Es. destruct (decide (q = l)) as [->|]; [|exists s; by rewrite !lookup_insert_ne by congruence].
    rewrite lookup_insert_eq. assert (s = ls) as -> by congruence. by exists (pushed ls pf). }
  split.
  - unfold net_tcp_find_established. fold T. rewrite Er. apply find_sock_insert; [|by eapply lookup_lt_Some|].
    + eapply Forall_impl; [exact Hn|]. intros q Hq. right. unfold sock_test in *. destruct (nz q); [|done].
      destruct (socks st !! q) as [s|] eqn:E; [|done]. destruct (Hold _ _ E) as (s' & -> & _ & Hk & Ht). cbn. by rewrite Hk, Ht.
    + unfold sock_test. rewrite (proj2 (nz_true p)), Es, lookup_insert_ne, lookup_insert_eq by (done || apply A4). cbn [mbind option_bind]. do 2 f_equal.
      unfold T, net_tcp_match_established_sock. cbn. by rewrite Hu, Hr, He, !Z.eqb_refl.
  - intros sl F C E. unfold net_tcp_syn_wait_find. rewrite E. apply wait_find_none, Forall_insert; [|by cbn; rewrite (cl_active _ C)].
    eapply Forall_impl; [exact F|]. intros o. apply slot_test_ext. intros q s Hq. destruct (Hold _ _ Hq) as (s' & ? & ? & _). eauto.
Qed.
End server.

(** * A client is accepted *)

Lemma complete_ack_keeps c ak c' : net_tcp_server_complete_ack c ak = (c', 0) → used c' = used c ∧ peer_rst c' = peer_rst c.
Proof. unfold net_tcp_server_complete_ack. destruct (_ || _); [done|]. destruct (_ || _); [done|]. by intros [= <-]. Qed.
Lemma opened_found st f l ls s1 w m i d : Forall (λ o, slot_test st (tcp_dport f) (ip_src f) (tcp_sport f) o = Some false) m →
  opened f l s1 w → l ≠ 0 → socks st !! l = Some ls → s_local_port ls = tcp_dport f → (i < length m)%nat →
  net_tcp_syn_wait_find (st <| syn_waits := <[i := Some w]> m |> <| wd := d |>) (tcp_dport f) (ip_src f) (tcp_sport f) = Some (Some i).
Proof.
  intros F [O1 O2 O3 O4 _] Hl Hls Hp Hi. apply (wait_find_at _ _ _ _ 0 _ i).
  - intros k Hk _. cbn [syn_waits]. change (mjoin (syn_waits _ !! k)) with (mjoin (<[i := Some w]> m !! k)). rewrite list_lookup_insert_ne by lia. destruct (m !! k) as [o|] eqn:E; [|done]. by apply (Forall_lookup_1 _ _ _ _ F E).
  - cbn. by rewrite length_insert.
  - change (mjoin (syn_waits _ !! i)) with (mjoin (<[i := Some w]> m !! i)). rewrite list_lookup_insert_eq by done. cbn. rewrite O1, O2, (proj2 (Z.eqb_neq _ _) Hl), Hls. cbn. by rewrite Hp, O3, O4, !Z.eqb_refl.
Qed.

Lemma ack_accepted ip clk tf st l ls m i w s1 d1 p pf pp bs k f h s2 now' :
  Forall (λ o, slot_test st (tcp_dport f) (ip_src f) (tcp_sport f) o = Some false) m → opened f l s1 w → l ≠ 0 →
  socks st !! l = Some ls → s_local_port ls = tcp_dport f → (i < length m)%nat → net_tcp_find_established st (tcp_dport f) (ip_src f) (tcp_sport f) = Some 0 →
  let st1 := st <| syn_waits := <[i := Some w]> m |> <| wd := d1 |> in can_accept st1 l ls p pf pp bs k →
  net_frame_l4_tcp h = true → ip_dst h = ip → ip_src h = ip_src f → tcp_sport h = tcp_sport f → tcp_dport h = tcp_dport f → tcp_flags h = 0x10 →
  net_tcp_frame_payload h = [] → net_tcp_server_complete_ack s1 (tcp_ack h) = (s2, 0) → used s1 = true → peer_rst s1 = false → established s2 = true →
  ∃ st2, net_tcp_dispatch_incoming ip clk tf st1 true h now' = Some (st2, true) ∧ files st2 !! pf = Some (p, pp) ∧
    socks st2 !! p = Some (accepted ls s2 (w_peer_mac w) (ip_src f) (tcp_sport f) k) ∧ socks st2 !! l = Some (pushed ls pf) ∧
    net_tcp_find_established st2 (tcp_dport f) (ip_src f) (tcp_sport f) = Some p ∧
    net_tcp_syn_wait_find st2 (tcp_dport f) (ip_src f) (tcp_sport f) = Some None.
Proof.
  intros Hm Ho Hl Hls Hp Hi Hne st1 Hca G1 G2 G3 G4 G5 G6 G9 Hack Hu Hr He. destruct (complete_ack_keeps _ _ _ Hack) as [U2 P2]. rewrite Hu in U2. rewrite Hr in P2.
  assert (Hw1 : mjoin (syn_waits st1 !! i) = Some w) by (cbn; by rewrite list_lookup_insert_eq).
  destruct (dispatch_ack_accepts ip st1 h i w l ls p pf pp bs k s2 Hw1 (od_listener _ _ _ _ Ho) Hca) as (w' & d' & Ed & Cw & _); [by rewrite (od_tcp _ _ _ _ Ho)|done|].
  rewrite G3, G4 in Ed. set (st2 := st1 <| syn_waits := _ |> <| socks := _ |> <| registry := _ |> <| files := _ |> <| wd := _ |>) in Ed.
  assert (Hpl : p ≠ l) by (pose proof (ca_fresh _ _ _ _ _ _ _ _ Hca); pose proof (ca_listener _ _ _ _ _ _ _ _ Hca); congruence).
  assert (Hne1 : net_tcp_find_established st1 (tcp_dport f) (ip_src f) (tcp_sport f) = Some 0) by (rewrite <- Hne; by apply find_sock_ext).
  exists st2. split.
  { unfold net_tcp_dispatch_incoming. rewrite G1, G2, Z.eqb_refl, G6, G3, G4, G5. cbn [negb orb].
    change (nz (16 &u 2)) with false. change (nz (16 &u 16)) with true. cbn [andb negb].
    rewrite Hne1. cbn [mbind option_bind nz Z.eqb negb].
    assert (net_tcp_syn_wait_find st1 (tcp_dport f) (ip_src f) (tcp_sport f) = Some (Some i)) as -> by (by apply (opened_found st f l ls s1)). exact Ed. }
  destruct (accepted_found st1 st2 l ls p pf pp bs k s2 (w_peer_mac w) (ip_src f) (tcp_sport f) i w' Hca U2 P2 He) as [R1 R2]; [by rewrite Hp|done..|].
  rewrite Hp in R1, R2. split_and!; [apply lookup_insert_eq| |apply lookup_insert_eq|done|].
  - cbn. rewrite lookup_insert_ne by done. apply lookup_insert_eq.
  - apply (R2 m); [|done|]. { eapply Forall_impl; [exact Hm|]. intros o. apply slot_test_ext. eauto. }
    cbn. by rewrite list_insert_insert_eq.
Qed.
Lemma connect_frame ipA ipB clk fuel c0 w0 dp sp c1 w1 syn f : buf_ok c0 → frames w0 = [] → sent w0 = [] →
  is_u32 ipA → is_u32 ipB → is_u16 dp → is_u16 sp → net_tcp_connect ipA clk fuel c0 w0 ipB dp sp 0 = Some (c1, w1, 0) → sent w1 = [syn] →
  carries_l4 f ipA ipB IPPROTO_TCP_LOCAL syn →
  net_frame_l4_tcp f = true ∧ ip_dst f = ipB ∧ ip_src f = ipA ∧ tcp_sport f = sp ∧ tcp_dport f = dp ∧ tcp_flags f = 0x02.
Proof.
  intros Hb Hf0 Hs0 HA HB Hdp Hsp Ec Hs1 Cf.
  destruct (connect_syn _ _ _ _ _ _ _ _ _ _ Hb Hf0 HA HB Hdp Hsp Ec) as (c & Hic & Okc & _ & Es & _). rewrite Hs0, Hs1 in Es. injection Es as Es.
  destruct (ids_inv _ _ _ _ Hic) as (I1 & I2 & I3). set (z := conn0 <| dst_ip_be := ipA |> <| dst_port := sp |> <| src_port := dp |>).
  destruct (wire_decode ipA c 0x02 [] _ f z Okc) as (ak0 & Ed & _); [by split|rewrite I1; congruence|]. rewrite I1 in Ed.
  apply decode_frame in Ed as (F1 & F2 & F3 & F4 & F5 & F6 & _). by split_and!.
Qed.

