(* ===== verification/NetServerSafe.v ===== *)
(** The TCP server never follows a pointer to a socket or file that is gone, as long as no
    listener is closed while a connection to it is being opened; and it does once one is. *)
From S2P Require Import Prelude NetBytes Tcp Net NetRxq TcpStream TcpProps TcpWire TcpEnd TcpHandshake NetServer NetServerProps.
Import Tcp Net Rxq Server.

(** * The invariant *)

(** The listener of a slot in use is there. *)
Definition wait_ok (m : gmap Z ksock) (o : option syn_wait) : Prop :=
  match o with Some w => 0 ≤ rcv_wscale (w_tcp w) ∧ (active w = true → listener w ≠ 0 → is_Some (m !! listener w)) | None => True end.
(** Registered sockets are there and know their place, and the allocator gives out no
    address twice. *)
Record server_ok (st : server) : Prop := {
  so_reg : ∀ i q, registry st !! i = Some q → q ≠ 0 → ∃ s, socks st !! q = Some s ∧ registry_slot s = Z.of_nat i + 1;
  so_len : length (registry st) ≤ KSOCK_REGISTRY_MAX;
  so_wait : Forall (wait_ok (socks st)) (syn_waits st);
  so_fresh : Forall (λ q, q = 0 ∨ socks st !! q = None) (blocks (wd st));
  so_nodup : NoDup (filter (λ q, q ≠ 0) (blocks (wd st)))
}.
(** No connection to [p] is being opened. *)
Definition undangling (st : server) (p : Z) : Prop := Forall (λ o, match o with Some w => active w = true → listener w ≠ p | None => True end) (syn_waits st).

Lemma suffix_nodup (l l' : list Z) : suffix l' l → NoDup (filter (λ q, q ≠ 0) l) → NoDup (filter (λ q, q ≠ 0) l').
Proof. intros [k ->]. rewrite filter_app. by intros (_ & _ & ?)%NoDup_app. Qed.
Lemma ok_world st d : server_ok st → suffix (blocks d) (blocks (wd st)) → server_ok (st <| wd := d |>).
Proof.
  intros [H1 H2 H3 H4 H5] Hd. split; try done; cbn; [|by eapply suffix_nodup]. destruct Hd as [k E]. rewrite E in H4. by apply Forall_app in H4 as [_ ?].
Qed.
Lemma ok_waits st l : server_ok st → Forall (wait_ok (socks st)) l → server_ok (st <| syn_waits := l |>).
Proof. intros [H1 H2 H3 H4 H5] Hl. by split. Qed.
Lemma ok_wait st i w : server_ok st → wait_ok (socks st) (Some w) → server_ok (put_wait st i w).
Proof. intros H Hw. apply ok_waits; [done|]. apply Forall_insert; [apply H|done]. Qed.
Lemma ok_queue st q : server_ok st → server_ok (st <| rx_queue := q |>).
Proof. intros [H1 H2 H3 H4 H5]. by split. Qed.
Lemma ok_files st m : server_ok st → server_ok (st <| files := m |>).
Proof. intros [H1 H2 H3 H4 H5]. by split. Qed.
(** Sockets may be changed and added. *)
Lemma ok_put st p s : server_ok st →
  (∀ s0, socks st !! p = Some s0 → registry_slot s = registry_slot s0) → p ∉ filter (λ q, q ≠ 0) (blocks (wd st)) → server_ok (put_sock st p s).
Proof.
  intros [H1 H2 H3 H4 H5] Hs Hp. split; cbn; try done.
  - intros i q Hi Hq. destruct (H1 i q Hi Hq) as (s1 & E & Hr). destruct (decide (q = p)) as [->|]; [|exists s1; by rewrite lookup_insert_ne].
    exists s. rewrite lookup_insert_eq. split; [done|]. by rewrite (Hs _ E).
  - eapply Forall_impl; [exact H3|]. intros [w|]; cbn; [|done]. intros [? Hw]. split; [done|]. intros Ha Hl.
    destruct (decide (listener w = p)) as [->|]; [by rewrite lookup_insert_eq|rewrite lookup_insert_ne by done; by apply Hw].
  - apply Forall_forall. intros q Hq. destruct (decide (q = 0)); [by left|]. right. rewrite lookup_insert_ne.
    + rewrite Forall_forall in H4. destruct (H4 q Hq); done.
    + intros ->. apply Hp, list_elem_of_filter. done.
Qed.
Lemma live_unfree st p s : server_ok st → socks st !! p = Some s → p ∉ filter (λ q, q ≠ 0) (blocks (wd st)).
Proof. intros H Hs [Hp Hi]%list_elem_of_filter. pose proof (so_fresh _ H) as F. rewrite Forall_forall in F. destruct (F p Hi); congruence. Qed.

(** * Searches *)

Lemma find_sock_total st test l : Forall (λ q, q = 0 ∨ is_Some (socks st !! q)) l →
  ∃ r, find_sock st test l = Some r ∧ (r = 0 ∨ ∃ s, socks st !! r = Some s ∧ test s = true).
Proof.
  induction 1 as [|q l Hq F IH]; rewrite find_sock_test; [by eauto|]. unfold sock_test. destruct (nz q) eqn:E; [|done].
  apply nz_true in E. destruct Hq as [|[s Hs]]; [done|]. rewrite Hs. cbn. destruct (negb (kref s <=? 0) && test s) eqn:Et; [|done].
  apply andb_prop in Et as [_ Et]. exists q. split; [done|]. right. by exists s.
Qed.
Lemma reg_live st : server_ok st → Forall (λ q, q = 0 ∨ is_Some (socks st !! q)) (registry st).
Proof.
  intros H. apply Forall_lookup. intros i q Hi. destruct (decide (q = 0)); [by left|]. right. destruct (so_reg _ H _ _ Hi) as (s & ? & _); [done|]. eauto.
Qed.
Lemma wait_find_total st lp rip rp i l : Forall (wait_ok (socks st)) l →
  ∃ r, wait_find st lp rip rp i l = Some r ∧ ∀ k, r = Some k → ∃ j w, k = (i + j)%nat ∧ l !! j = Some (Some w) ∧ active w = true ∧ listener w ≠ 0.
Proof.
  intros F. revert i. induction F as [|o l Ho F IH]; intros i; rewrite wait_find_test; [exists None; by split|]. destruct (IH (S i)) as (r & Er & Hr).
  assert (Hn : ∃ r0, wait_find st lp rip rp (S i) l = Some r0 ∧ ∀ k, r0 = Some k → ∃ j w, k = (i + j)%nat ∧ (o :: l) !! j = Some (Some w) ∧ active w = true ∧ listener w ≠ 0).
  { exists r. split; [done|]. intros k (j & w & -> & ?)%Hr. exists (S j), w. split; [lia|done]. }
  destruct o as [w|]; [|done]. cbn [slot_test]. destruct (active w) eqn:Ea; [|done]. destruct (Z.eqb_spec (listener w) 0); [done|]. cbn [negb orb].
  destruct Ho as [_ Ho]. destruct (Ho Ea) as [s Hs]; [done|]. rewrite Hs. cbn [mbind option_bind]. destruct (_ && _); [|done].
  eexists. split; [done|]. intros k [= <-]. exists O, w. split; [lia|done].
Qed.
Lemma kept_wait_ok m l l' : Forall2 slot_kept l l' → Forall (wait_ok m) l → Forall (wait_ok m) l'.
Proof.
  induction 1 as [|o o' l l' H _ IH]; intros F; inversion F as [|?? Ho F']; subst; constructor; [|by apply IH].
  destruct H as [-> | (w & w' & -> & -> & [A _ _ _ _] & Hw)]; [done|]. cbn in *. rewrite Hw, A. by split; [apply Ho|].
Qed.
Lemma wait_scale m l : Forall (wait_ok m) l → Forall scale_ok l.
Proof. intros F. eapply Forall_impl; [exact F|]. intros [w|]; [by intros [? _]|done]. Qed.

Section server.
Context (ip : Z) (clk : nat → Z) (timer_frequency : Z).

(** * Memory taken on the way *)

Lemma send_len_blocks c w fl pl opts w' r : tcp_send_seg_len ip c w fl pl opts = (w', r) → blocks w' = blocks w.
Proof. unfold tcp_send_seg_len, send_l4. destruct (_ || _); [by intros [= <- _]|]. destruct (refusals w) as [|[] l]; by intros [= <- _]. Qed.
Lemma reply_syn_blocks c w sq c' w' r : net_tcp_server_reply_syn ip clk c w sq = (c', w', r) → 0 ≤ rcv_wscale c →
  suffix (blocks w') (blocks w) ∧ 0 ≤ rcv_wscale c'.
Proof.
  unfold net_tcp_server_reply_syn, time_ms, net_tcp_reset, net_tcp_rx_release. cbn zeta beta iota. intros H Hw. revert H.
  match goal with |- context [net_tcp_rx_ensure ?cc ?ww] => set (c2 := cc); set (w2 := ww) end.
  assert (S2 : blocks w2 = blocks w) by (unfold w2; by destruct (nz (rx_buf c))).
  destruct (net_tcp_rx_ensure c2 w2) as [[c3 w3] r3] eqn:E3. apply rx_ensure_keeps in E3 as ([_ _ S3] & _ & _ & _ & W3). specialize (W3 Hw). rewrite S2 in S3.
  destruct (nz r3); [by intros [= <- <- _]|]. destruct (tcp_send_seg_len ip _ w3 18 [] _) as [w5 r5] eqn:E5. apply send_len_blocks in E5.
  destruct (nz r5); intros [= <- <- _]; by rewrite E5.
Qed.
Lemma resend_synack_blocks c w c' w' r : net_tcp_server_resend_synack ip c w = (c', w', r) → blocks w' = blocks w ∧ rcv_wscale c' = rcv_wscale c.
Proof.
  unfold net_tcp_server_resend_synack. destruct (negb (used c)); [by intros [= <- <- _]|].
  destruct (tcp_send_seg_len _ _ _ _ _ _) as [w1 r1] eqn:E. apply send_len_blocks in E. intros [= <- <- _]. split; [done|]. by destruct (_ <? _).
Qed.
Lemma send_seg_blocks c w fl pl : blocks (tcp_send_seg ip c w fl pl).1 = blocks w.
Proof. unfold tcp_send_seg. destruct (tcp_send_seg_len _ _ _ _ _ _) as [w1 r1] eqn:E. by apply send_len_blocks in E. Qed.
Lemma reject_ack_blocks c w ak c' w' r : net_tcp_reject_ack ip c w ak = (c', w', r) → blocks w' = blocks w ∧ rcv_wscale c' = rcv_wscale c.
Proof.
  unfold net_tcp_reject_ack. pose proof (send_seg_blocks (c <| snd_nxt := ak |>) w 4 []) as H. destruct (tcp_send_seg _ _ _ _ _) as [w1 r1]. by intros [= <- <- _].
Qed.
Lemma push_payload_blocks c w sq pl c' w' : net_tcp_push_payload c w sq pl = (c', w') → 0 ≤ rcv_wscale c → suffix (blocks w') (blocks w) ∧ 0 ≤ rcv_wscale c'.
Proof.
  unfold net_tcp_push_payload. destruct (_ =? _); [by intros [= <- <-]|]. destruct (negb _); [by intros [= <- <-]|].
  destruct (net_tcp_rx_ensure c w) as [[c1 w1] r1] eqn:E. apply rx_ensure_keeps in E as ([_ _ S] & _ & _ & _ & W). intros H Hw. specialize (W Hw). revert H.
  destruct (nz r1); [by intros [= <- <-]|]. destruct (_ =? 0); by intros [= <- <-].
Qed.
Lemma complete_ack_scale c ak c' r : net_tcp_server_complete_ack c ak = (c', r) → rcv_wscale c' = rcv_wscale c.
Proof. unfold net_tcp_server_complete_ack. destruct (_ || _); [by intros [= <- _]|]. destruct (_ || _); by intros [= <- _]. Qed.
Lemma close_blocks c w : blocks (net_tcp_close ip c w).1.2 = blocks w.
Proof.
  unfold net_tcp_close. destruct (negb (used c)); [done|]. unfold net_tcp_reset, net_tcp_rx_release. cbn. pose proof (send_seg_blocks c w 17 []).
  by destruct (nz (rx_buf c)), (established c).
Qed.

(** * Closing *)

Lemma gone_ok st st' p s reg : server_ok st → socks st !! p = Some s → p ≠ 0 → undangling st p →
  reg = (let i := registry_slot s - 1 in
         if (0 <=? i) && (i <? KSOCK_REGISTRY_MAX) && (default 0 (registry st !! Z.to_nat i) =? p) then <[Z.to_nat i := 0]> (registry st) else registry st) →
  registry st' = reg → socks st' = delete p (socks st) → syn_waits st' = syn_waits st → blocks (wd st') = blocks (wd st) → server_ok st'.
Proof.
  intros H Hs Hp Hu -> Er Es Ew Eb. split; rewrite ?Er, ?Es, ?Ew, ?Eb; [| | | |apply H].
  - intros i q Hi Hq. assert (registry st !! i = Some q ∧ q ≠ p) as [Hi1 Hqp].
    { revert Hi. cbn zeta. destruct ((0 <=? registry_slot s - 1) && _ && _) eqn:C; intros Hi.
      - destruct (decide (i = Z.to_nat (registry_slot s - 1))) as [->|Hn].
        + apply list_lookup_insert_Some in Hi as [(_ & <- & _)|[? _]]; done.
        + rewrite list_lookup_insert_ne in Hi by done. split; [done|]. intros ->. destruct (so_reg _ H _ _ Hi Hp) as (s' & E & Hr). assert (s' = s) as -> by congruence. lia.
      - split; [done|]. intros ->. destruct (so_reg _ H _ _ Hi Hp) as (s' & E & Hr). assert (s' = s) as -> by congruence.
        pose proof (lookup_lt_Some _ _ _ Hi). pose proof (so_len _ H). replace (registry_slot s - 1) with (Z.of_nat i) in C by lia. rewrite Nat2Z.id, Hi in C. cbn in C.
        rewrite Z.eqb_refl, (proj2 (Z.leb_le _ _)), (proj2 (Z.ltb_lt _ _)) in C by lia. done. }
    destruct (so_reg _ H _ _ Hi1 Hq) as (s' & E & Hr). exists s'. by rewrite lookup_delete_ne.
  - cbn zeta. destruct (_ && _); rewrite ?length_insert; apply H.
  - apply Forall_lookup. intros i o Hi. pose proof (Forall_lookup_1 _ _ _ _ (so_wait _ H) Hi) as Ho. pose proof (Forall_lookup_1 _ _ _ _ Hu Hi) as Hn.
    destruct o as [w|]; [|done]. destruct Ho as [? Ho]. split; [done|]. intros Ha Hl. rewrite lookup_delete_ne by (intros E; by apply (Hn Ha)). by apply Ho.
  - eapply Forall_impl; [apply H|]. intros q [?|E]; [by left|right]. apply lookup_delete_None. by right.
Qed.
Lemma drop_ok st p s : server_ok st → socks st !! p = Some s → p ≠ 0 → (kref s ≤ 1 → undangling st p) →
  ∃ st', ksock_drop ip st p = Some st' ∧ server_ok st' ∧ syn_waits st' = syn_waits st ∧ ∀ q, q ≠ p → socks st' !! q = socks st !! q.
Proof.
  intros H Hs Hp0 Hu. unfold ksock_drop. rewrite Hs. cbn [mbind option_bind]. set (s1 := if 0 <? kref s then s <| kref := kref s - 1 |> else s).
  assert (Hr : registry_slot s1 = registry_slot s) by (unfold s1; by destruct (0 <? kref s)). destruct (Z.eqb_spec (kref s1) 0) as [Hk|Hk]; cbn [negb].
  2: { eexists. split; [done|]. split; [|split; [done|]; intros q Hq; cbn; by rewrite lookup_insert_ne].
    apply ok_put; [done|intros s0 E; congruence|by eapply live_unfree]. }
  assert (Hu1 : undangling st p) by (apply Hu; unfold s1 in Hk; destruct (Z.ltb_spec 0 (kref s)); cbn in Hk; lia). clear Hu Hk.
  match goal with |- context [st <| registry := ?r |>] => set (reg := r) end.
  match goal with |- context [delete p (socks ?x)] => set (st1 := x) end.
  assert (F : registry st1 = reg ∧ socks st1 = socks st ∧ syn_waits st1 = syn_waits st ∧ blocks (wd st1) = blocks (wd st)).
  { unfold st1. destruct (_ && used _); [|done]. pose proof (close_blocks (tcp s1) (wd st)) as Hc. cbn. by destruct (net_tcp_close ip (tcp s1) (wd st)) as [[c d] r]. }
  destruct F as (F1 & F2 & F3 & F4). eexists. split; [done|]. split; [|split; [exact F3|]].
  - eapply (gone_ok st _ p s reg); try done; cbn; [by rewrite <- Hr|by rewrite F2].
  - intros q Hq. cbn. rewrite F2. by apply lookup_delete_ne.
Qed.
Lemma destroy_ok st f p path s : server_ok st → files st !! f = Some (p, path) → socks st !! p = Some s → p ≠ 0 → (kref s ≤ 1 → undangling st p) →
  ∃ st', net_fs_file_destroy ip st f = Some st' ∧ server_ok st' ∧ syn_waits st' = syn_waits st ∧ ∀ q, q ≠ p → socks st' !! q = socks st !! q.
Proof.
  intros H Hf Hs Hp Hu. unfold net_fs_file_destroy. rewrite Hf. cbn [mbind option_bind]. destruct (drop_ok st p s H Hs Hp Hu) as (st' & -> & H' & W & Q).
  cbn [mbind option_bind]. eexists. split; [done|]. split; [|split; [exact W|exact Q]].
  assert (H2 : server_ok (st' <| files := delete f (files st') |>)) by (by apply ok_files). apply (ok_world _ (kfree (if nz path then kfree (wd st') path else wd st') f)) in H2; [done|].
  cbn. by destruct (nz path).
Qed.

(** * Accepting *)

Lemma register_ok st p s : server_ok st → socks st !! p = Some s → p ≠ 0 → registry_slot s = 0 →
  ∃ st' r s', ksock_register st p = Some (st', r) ∧ server_ok st' ∧ syn_waits st' = syn_waits st ∧ files st' = files st ∧ socks st' = <[p := s']> (socks st).
Proof.
  intros H Hs Hp Hr. unfold ksock_register. rewrite Hs. cbn [mbind option_bind]. rewrite Hr. change (0 <? 0) with false. cbn [andb].
  destruct (free_slot 0 (registry st)) as [k|] eqn:Ek.
  2: { eexists _, _, s. split; [done|]. by rewrite insert_id. }
  apply free_slot_spec in Ek as (j & -> & Hj). cbn [Nat.add]. eexists _, _, _. split; [done|]. split; [|done].
  assert (Hno : ∀ i, registry st !! i = Some p → False).
  { intros i Hi. destruct (so_reg _ H _ _ Hi Hp) as (s' & E & ?). assert (s' = s) as -> by congruence. lia. }
  destruct H as [H1 H2 H3 H4 H5]. split; cbn; try done.
  - intros i q [(-> & <- & _)|[Hn Hi]]%list_lookup_insert_Some Hq.
    + eexists. by rewrite lookup_insert_eq.
    + assert (q ≠ p) by (intros ->; by apply (Hno i)). destruct (H1 i q Hi Hq) as (s' & ? & ?). exists s'. by rewrite lookup_insert_ne.
  - by rewrite length_insert.
  - eapply Forall_impl; [exact H3|]. intros [w|]; [|done]. intros [? Hw]. split; [done|]. intros Ha Hl.
    destruct (decide (listener w = p)) as [->|]; [by rewrite lookup_insert_eq|rewrite lookup_insert_ne by done; by apply Hw].
  - eapply Forall_impl; [exact H4|]. intros q [?|Hq]; [by left|]. right. by rewrite lookup_insert_ne by congruence.
Qed.
Lemma undangling_live st p : server_ok st → socks st !! p = None → p ≠ 0 → undangling st p.
Proof.
  intros H Hp H0. eapply Forall_impl; [apply H|]. intros [w|]; [|done]. intros [_ Hw] Ha E. rewrite E in Hw. destruct (Hw Ha H0). congruence.
Qed.
Lemma kmalloc_split d d' p : kmalloc d = (d', p) → suffix (blocks d') (blocks d) ∧ (p ≠ 0 → blocks d = p :: blocks d').
Proof.
  unfold kmalloc. destruct (blocks d) as [|q l] eqn:E; intros [= <- <-]; [by rewrite E|]. split; [by apply suffix_cons_r|done].
Qed.

(** The state in which a new file was put: it can be destroyed again. *)
Definition droppable (st : server) (l f : Z) : Prop :=
  ∃ p path s, files st !! f = Some (p, path) ∧ socks st !! p = Some s ∧ p ≠ 0 ∧ p ≠ l ∧ undangling st p.
Lemma make_accepted_safe st l ls i w rip rport : server_ok st → syn_waits st !! i = Some (Some w) → socks st !! l = Some ls →
  ∃ st' r, net_tcp_make_accepted_file ip st l i rip rport = Some (st', r) ∧ server_ok st' ∧ is_Some (socks st' !! l) ∧
    is_Some (mjoin (syn_waits st' !! i)) ∧ (r = 0 ∨ droppable st' l r).
Proof.
  intros H Hw Hl. unfold net_tcp_make_accepted_file. rewrite Hw, Hl. cbn [mjoin option_join mbind option_bind].
  destruct (kmalloc (wd st)) as [d1 p] eqn:E1. destruct (kmalloc d1) as [d2 pf] eqn:E2. destruct (kmalloc d2) as [d3 pp] eqn:E3.
  apply kmalloc_split in E1 as [S1 B1], E2 as [S2 B2], E3 as [S3 B3]. assert (S : suffix (blocks d3) (blocks (wd st))) by (do 2 (etrans; [done|]); done).
  destruct (nz p && nz pf && nz pp) eqn:En; cbn [negb].
  2: { eexists _, 0. split; [done|]. split; [apply ok_world; [done|]; by destruct (nz p), (nz pf), (nz pp)|]. cbn. rewrite Hw. eauto. }
  apply andb_prop in En as [En Np%nz_true]. apply andb_prop in En as [Nq%nz_true Nf%nz_true]. specialize (B1 Nq).
  assert (Hfree : socks st !! p = None).
  { pose proof (so_fresh _ H) as F. rewrite B1 in F. inversion F as [|?? [?|?]]; done. }
  assert (Hnp : p ∉ filter (λ q, q ≠ 0) (blocks d3)).
  { pose proof (so_nodup _ H) as N. rewrite B1, filter_cons_True in N by done. apply NoDup_cons in N as [N _]. intros [? Hi]%list_elem_of_filter.
    apply N, list_elem_of_filter. split; [done|]. assert (suffix (blocks d3) (blocks d1)) as [x ->] by (etrans; [exact S3|exact S2]). set_solver. }
  set (w1 := w <| w_tcp := net_tcp_rx_orphan (w_tcp w) |>).
  match goal with |- context [put_sock _ p ?ss] => set (s := ss) end.
  assert (H1 : server_ok (put_wait st i w1)) by (apply ok_wait; [done|]; by apply (Forall_lookup_1 _ _ _ _ (so_wait _ H) Hw)).
  pose proof (undangling_live _ p H1 Hfree Nq) as Hu. assert (Hpl : p ≠ l) by congruence.
  match goal with |- context [ksock_register ?x p] => set (st2 := x) end.
  assert (H2 : server_ok st2).
  { assert (st2 = put_sock ((put_wait st i w1) <| wd := d3 |> <| files := <[pf := (p, pp)]> (files st) |>) p s) as -> by reflexivity. apply ok_put; [|intros s0 E; cbn in E; congruence|done].
    by apply ok_files, ok_world. }
  assert (W2 : syn_waits st2 !! i = Some (Some w1)) by (cbn; apply list_lookup_insert_eq; by eapply lookup_lt_Some).
  destruct (register_ok st2 p s H2) as (st3 & r & s' & -> & H3 & W3 & F3 & E3); [apply lookup_insert_eq|done|done|]. cbn [mbind option_bind].
  assert (K3 : files st3 !! pf = Some (p, pp)) by (rewrite F3; apply lookup_insert_eq).
  assert (P3 : socks st3 !! p = Some s') by (rewrite E3; apply lookup_insert_eq).
  assert (L3 : socks st3 !! l = Some ls) by (rewrite E3, lookup_insert_ne by done; cbn; by rewrite lookup_insert_ne).
  assert (U3 : undangling st3 p) by (unfold undangling; by rewrite W3).
  destruct (nz r).
  - destruct (destroy_ok st3 pf p pp s' H3 K3 P3 Nq (λ _, U3)) as (st4 & -> & H4 & W4 & Q4). eexists _, 0. split; [done|].
    rewrite Q4, L3, W4, W3, W2 by done. split_and!; eauto.
  - eexists _, pf. split; [done|]. rewrite L3, W3, W2. split_and!; eauto. right. by exists p, pp, s'.
Qed.

(** * Frames *)

Lemma release_safe st i w : server_ok st → mjoin (syn_waits st !! i) = Some w → ∃ st', net_tcp_syn_wait_release st i = Some st' ∧ server_ok st'.
Proof.
  intros H Hw. unfold net_tcp_syn_wait_release. rewrite Hw. cbn [mbind option_bind]. destruct (net_tcp_syn_wait_clear w (wd st)) as [w' d] eqn:E.
  apply clear_cleared in E as ([A _ _ _ _] & Hs & [_ _ S]). eexists. split; [done|]. apply ok_world; [|done]. apply ok_wait; [done|].
  assert (Hi : syn_waits st !! i = Some (Some w)) by (destruct (syn_waits st !! i) as [o|]; cbn in Hw; congruence).
  pose proof (Forall_lookup_1 _ _ _ _ (so_wait _ H) Hi) as [? _]. cbn. rewrite Hs, A. by split.
Qed.
Lemma dispatch_ack_safe st f i w : server_ok st → syn_waits st !! i = Some (Some w) → is_Some (socks st !! listener w) →
  ∃ st' b, dispatch_ack ip st f i = Some (st', b) ∧ server_ok st'.
Proof.
  intros H Hw [ls Hl]. pose proof (Forall_lookup_1 _ _ _ _ (so_wait _ H) Hw) as [Hsc Hlive]. unfold dispatch_ack. rewrite Hw. cbn [mjoin option_join mbind option_bind].
  destruct (net_tcp_server_complete_ack (w_tcp w) (tcp_ack f)) as [tc r] eqn:Ec. apply complete_ack_scale in Ec. rewrite <- Ec in Hsc. clear Ec. destruct (r =? 0).
  2: { destruct (net_tcp_reject_ack ip (w_tcp w) (wd st) (tcp_ack f)) as [[tc' d'] r'] eqn:Er. apply reject_ack_blocks in Er as [Eb Es].
    eexists _, _. split; [done|]. apply ok_world; [|by rewrite Eb]. apply ok_wait; [done|]. pose proof (Forall_lookup_1 _ _ _ _ (so_wait _ H) Hw) as [? _]. split; [cbn; lia|exact Hlive]. }
  match goal with |- context [if ?c then ?x else (tc, wd st)] => destruct (if c then x else (tc, wd st)) as [tc1 d1] eqn:E1 end.
  assert (H1 : suffix (blocks d1) (blocks (wd st)) ∧ 0 ≤ rcv_wscale tc1).
  { destruct (_ <? _); [|by injection E1 as <- <-]. destruct (net_tcp_push_payload tc (wd st) _ _) as [tc2 d2] eqn:Ep.
    apply push_payload_blocks in Ep as [? ?]; [|done]. injection E1 as <- <-. split; [|done]. unfold net_tcp_send_ack. destruct (negb (used tc2)); [done|]. by rewrite send_seg_blocks. }
  destruct H1 as [S1 W1]. set (w1 := w <| w_tcp := tc1 |>). set (st1 := (put_wait st i w1) <| wd := d1 |>).
  assert (K1 : server_ok st1) by (apply ok_world; [|done]; by apply ok_wait).
  destruct (make_accepted_safe st1 (listener w) ls i w1 (ip_src f) (tcp_sport f) K1) as (st2 & af & -> & K2 & [ls2 L2] & [w2 W2] & Ha); [|done|].
  { cbn. apply list_lookup_insert_eq. by eapply lookup_lt_Some. }
  cbn [mbind option_bind]. destruct (Z.eqb_spec af 0) as [->|Hn].
  { destruct (release_safe st2 i w2 K2 W2) as (st3 & -> & K3). eexists _, _. by split. }
  destruct Ha as [?|(q & path & s & Hf & Hs & Hq & Hql & Hu)]; [done|]. unfold unix_acceptq_push. rewrite L2. cbn [mbind option_bind]. destruct (_ <=? accept_count ls2); cbn [mbind option_bind].
  - change (nz (-1)) with true. destruct (destroy_ok st2 af q path s K2 Hf Hs Hq (λ _, Hu)) as (st3 & -> & K3 & W3 & _). cbn [mbind option_bind].
    destruct (release_safe st3 i w2 K3) as (st4 & -> & K4); [by rewrite W3|]. eexists _, _. by split.
  - change (nz 0) with false. cbn [mbind option_bind].
    match goal with |- context [net_tcp_syn_wait_release ?x i] => assert (K3 : server_ok x) end.
    { apply ok_put; [done|intros s0 E; rewrite L2 in E; by injection E as <-|by eapply live_unfree]. }
    match goal with |- context [net_tcp_syn_wait_release ?x i] => destruct (release_safe x i w2 K3 W2) as (st4 & -> & K4) end. eexists _, _. by split.
Qed.

(** The SYN-ACK for slot [i], the first one or again. *)
Lemma answer_ok st i w now f : server_ok st → syn_waits st !! i = Some (Some w) →
  let '(tc, d, _) := if used (w_tcp w) then net_tcp_server_resend_synack ip (w_tcp w) (wd st) else net_tcp_server_reply_syn ip clk (w_tcp w) (wd st) (tcp_seq f) in
  server_ok ((put_wait st i (w <| last_synack_tick := now |> <| w_tcp := tc |>)) <| wd := d |>).
Proof.
  intros H Hw. pose proof (Forall_lookup_1 _ _ _ _ (so_wait _ H) Hw) as [Hsc Hl].
  destruct (used (w_tcp w)).
  - destruct (net_tcp_server_resend_synack ip (w_tcp w) (wd st)) as [[tc d] r] eqn:E. apply resend_synack_blocks in E as [Eb Es].
    apply ok_world; [|by rewrite Eb]. apply ok_wait; [done|]. split; [cbn; lia|exact Hl].
  - destruct (net_tcp_server_reply_syn ip clk (w_tcp w) (wd st) (tcp_seq f)) as [[tc d] r] eqn:E. apply reply_syn_blocks in E as [Eb Es]; [|done].
    apply ok_world; [|done]. by apply ok_wait.
Qed.
Lemma take_ok st now st' i : server_ok st → net_tcp_syn_wait_take_slot timer_frequency st now = (st', i) →
  server_ok st' ∧ socks st' = socks st ∧ ∀ k, i = Some k → ∃ w, syn_waits st' !! k = Some (Some w) ∧ 0 ≤ rcv_wscale (w_tcp w).
Proof.
  intros H Et. apply (take_slot_spec _ _ _ _ _ (wait_scale _ _ (so_wait _ H))) in Et as (d & l & m & -> & [_ _ Sd] & Hm & Hi).
  pose proof (kept_wait_ok _ _ _ Hm (so_wait _ H)) as Hk. destruct i as [k|].
  - destruct Hi as (w & Hk1 & [T1 T2 _ _ T5] & ->). split; [|split; [done|intros ? [= <-]; exists w; cbn; by rewrite list_lookup_insert_eq]].
    apply ok_world; [|done]. apply ok_waits; [done|]. apply Forall_insert; [done|]. by split.
  - subst l. split; [|done]. apply ok_world; [|done]. by apply ok_waits.
Qed.
Lemma dispatch_syn_safe st f now : server_ok st → ∃ st' b, dispatch_syn ip clk timer_frequency st f now = Some (st', b) ∧ server_ok st'.
Proof.
  intros H. unfold dispatch_syn. cbn zeta.
  assert (∃ l, net_tcp_find_listener st (tcp_dport f) = Some l ∧ (l = 0 ∨ is_Some (socks st !! l))) as (l & -> & Hl).
  { unfold net_tcp_find_listener. destruct (_ =? 0); [eauto|]. destruct (find_sock_total st (λ s, tcp_listening s && (s_local_port s =? tcp_dport f)) _ (reg_live _ H)) as (r & -> & Hr).
    exists r. split; [done|]. destruct Hr as [?|(s & ? & _)]; eauto. }
  cbn [mbind option_bind]. destruct (Z.eqb_spec l 0) as [|Hl0]; [eauto|]. destruct Hl as [?|Hl]; [done|].
  destruct (wait_find_total st (tcp_dport f) (ip_src f) (tcp_sport f) 0 _ (so_wait _ H)) as (found & Ef & Hf). unfold net_tcp_syn_wait_find. rewrite Ef. cbn [mbind option_bind].
  match goal with |- context [match found with Some i => Some (st, Some i) | None => ?x end] =>
    assert (∃ st1 slot, match found with Some i => Some (st, Some i) | None => x end = Some (st1, slot) ∧ server_ok st1 ∧
      ∀ i, slot = Some i → ∃ w, syn_waits st1 !! i = Some (Some w)) as (st1 & slot & -> & H1 & Hw) end.
  { destruct found as [i|].
    - eexists _, _. split; [done|]. split; [done|]. intros ? [= <-]. destruct (Hf i eq_refl) as (j & w & -> & ? & _). by exists w.
    - destruct (net_tcp_syn_wait_take_slot timer_frequency st now) as [st1 slot] eqn:Et. apply (take_ok _ _ _ _ H) in Et as (H1 & Es & Hs).
      destruct slot as [i|]; [|eexists _, _; by split_and!]. destruct (Hs i eq_refl) as (w & Hi & Hsc). rewrite Hi. cbn [mjoin option_join mbind option_bind].
      eexists _, _. split; [done|]. split; [apply ok_wait; [done|]; split; [done|]; intros _ _; by rewrite Es|].
      intros ? [= <-]. eexists. apply list_lookup_insert_eq. by eapply lookup_lt_Some. }
  cbn [mbind option_bind]. destruct slot as [i|]; [|eauto]. destruct (Hw i eq_refl) as (w & Hi). rewrite Hi. cbn [mjoin option_join mbind option_bind].
  destruct (used (w_tcp w) && _ && _); [eauto|]. pose proof (answer_ok st1 i w (u32 now) f H1 Hi) as Ha.
  destruct (if used (w_tcp w) then _ else _) as [[tc d] r]. eauto.
Qed.

Lemma dispatch_incoming_safe st rdy f now : server_ok st →
  ∃ st' b, net_tcp_dispatch_incoming ip clk timer_frequency st rdy f now = Some (st', b) ∧ server_ok st'.
Proof.
  intros H. unfold net_tcp_dispatch_incoming. destruct (_ || _); [eauto|]. cbn zeta. destruct (_ && _); [by apply dispatch_syn_safe|].
  destruct (find_sock_total st (net_tcp_match_established_sock (tcp_dport f) (ip_src f) (tcp_sport f)) _ (reg_live _ H)) as (r & Er & _).
  unfold net_tcp_find_established. rewrite Er. cbn [mbind option_bind]. destruct (nz r); [eexists _, _; split; [done|by apply ok_queue]|].
  destruct (_ && _); [|eauto]. unfold net_tcp_syn_wait_find.
  destruct (wait_find_total st (tcp_dport f) (ip_src f) (tcp_sport f) 0 _ (so_wait _ H)) as (found & -> & Hf). cbn [mbind option_bind].
  destruct found as [i|]; [|eauto]. destruct (Hf i eq_refl) as (j & w & -> & Hj & Ha & Hl). apply (dispatch_ack_safe st f j w H Hj).
  by apply (Forall_lookup_1 _ _ _ _ (so_wait _ H) Hj).
Qed.

(** * Runs *)

Inductive op := Receive (rdy : bool) (f : list Z) (now : Z) | Accept (l : Z) | Hold (p : Z) | Close (f : Z) | Prealloc.
Definition step (st : server) (o : op) : option server :=
  match o with
  | Receive rdy f now => '(st, _) ← net_tcp_dispatch_incoming ip clk timer_frequency st rdy f now; Some st
  | Accept l => '(st, _) ← unix_acceptq_pop st l; Some st
  | Hold p => ksock_hold st p
  | Close f => net_fs_file_destroy ip st f
  | Prealloc => Some (net_tcp_syn_wait_prealloc st)
  end.
Fixpoint run (st : server) (os : list op) : option server := match os with [] => Some st | o :: os => st ← step st o; run st os end.

(** The callers use sockets and files that are there, and close the last reference to a
    socket only when no connection to it is being opened. *)
Definition allowed (st : server) (o : op) : Prop :=
  match o with
  | Accept p | Hold p => is_Some (socks st !! p)
  | Close f => ∃ p path s, files st !! f = Some (p, path) ∧ p ≠ 0 ∧ socks st !! p = Some s ∧ (kref s ≤ 1 → undangling st p)
  | _ => True
  end.
Fixpoint allowed_run (st : server) (os : list op) : Prop :=
  match os with [] => True | o :: os => allowed st o ∧ ∀ st', step st o = Some st' → allowed_run st' os end.

Lemma prealloc_ok m l d l' d' : prealloc l d = (l', d') → Forall (wait_ok m) l → Forall (wait_ok m) l' ∧ suffix (blocks d') (blocks d).
Proof.
  intros E F. revert d l' d' E. induction F as [|[w|] l Ho F IH]; intros d l' d'; cbn [prealloc]; [by intros [= <- <-]| |].
  - destruct (prealloc l d) as [l1 d1] eqn:E. intros [= <- <-]. apply IH in E as [? ?]. by split; [constructor|].
  - destruct (kmalloc d) as [d1 p] eqn:Ek. apply kmalloc_split in Ek as [S _]. destruct (nz p); [|intros [= <- <-]; by split; [constructor|]].
    destruct (prealloc l d1) as [l1 d2] eqn:E. intros [= <- <-]. apply IH in E as [? ?]. split; [by constructor|by etrans].
Qed.
Lemma ok_put_live st p s s0 : server_ok st → socks st !! p = Some s0 → registry_slot s = registry_slot s0 → server_ok (put_sock st p s).
Proof. intros H Hs Hr. apply ok_put; [done|intros ? E; congruence|by eapply live_unfree]. Qed.
Lemma step_safe st o : server_ok st → allowed st o → ∃ st', step st o = Some st' ∧ server_ok st'.
Proof.
  intros H Ha. destruct o as [rdy f now|l|p|f|]; cbn [step allowed] in *.
  - destruct (dispatch_incoming_safe st rdy f now H) as (st' & b & -> & H'). by exists st'.
  - destruct Ha as [s Hs]. unfold unix_acceptq_pop. rewrite Hs. cbn [mbind option_bind]. destruct (0 <? accept_count s); eexists; (split; [done|]); [|done].
    by eapply ok_put_live.
  - destruct Ha as [s Hs]. unfold ksock_hold. rewrite Hs. cbn [mbind option_bind]. eexists. split; [done|]. destruct (0 <? kref s); [|done]. by eapply ok_put_live.
  - destruct Ha as (p & path & s & Hf & Hp & Hs & Hu). destruct (destroy_ok st f p path s H Hf Hs Hp Hu) as (st' & -> & ? & _). by exists st'.
  - eexists. split; [done|]. unfold net_tcp_syn_wait_prealloc. destruct (prealloc (syn_waits st) (wd st)) as [l d] eqn:E.
    apply (prealloc_ok (socks st)) in E as [? ?]; [|apply H]. apply ok_world; [|done]. by apply ok_waits.
Qed.


(** * A defect: a listener that is closed too early *)

Lemma wait_find_dangles st lp rip rp i l j w : (∀ k o, (k < j)%nat → l !! k = Some o → slot_test st lp rip rp o ≠ Some true) →
  l !! j = Some (Some w) → active w = true → listener w ≠ 0 → socks st !! listener w = None → wait_find st lp rip rp i l = None.
Proof.
  revert i j. induction l as [|o l IH]; intros i j Hb Hj Ha Hl Hn; [done|]. rewrite wait_find_test. destruct j as [|j].
  - injection Hj as ->. cbn. by rewrite Ha, (proj2 (Z.eqb_neq _ _) Hl), Hn.
  - pose proof (Hb O o ltac:(lia) eq_refl) as H0. destruct (slot_test st lp rip rp o) as [[]|]; [done| |done].
    apply (IH (S i) j); try done. intros k o' Hk. by apply (Hb (S k)); lia.
Qed.
Lemma wait_find_range st lp rip rp i l k : wait_find st lp rip rp i l = Some (Some k) → (i ≤ k)%nat.
Proof.
  revert i. induction l as [|o l IH]; intros i; rewrite wait_find_test; [done|]. destruct (slot_test st lp rip rp o) as [[]|]; [by intros [= <-]|intros H%IH; lia|done].
Qed.
Lemma wait_find_first st lp rip rp i l j : wait_find st lp rip rp i l = Some (Some (i + j)%nat) →
  (∀ k o, (k < j)%nat → l !! k = Some o → slot_test st lp rip rp o = Some false) ∧ ∃ o, l !! j = Some o ∧ slot_test st lp rip rp o = Some true.
Proof.
  revert i j. induction l as [|o l IH]; intros i j; rewrite wait_find_test; [done|]. destruct (slot_test st lp rip rp o) as [[]|] eqn:E; [|intros H|done].
  - intros [= Hj]. assert (j = O) as -> by lia. split; [lia|]. by exists o.
  - pose proof (wait_find_range _ _ _ _ _ _ _ H). destruct j as [|j]; [lia|]. replace (i + S j)%nat with (S i + j)%nat in H by lia. apply IH in H as [H1 H2]. split; [|done].
    intros [|k] o' Hk; [by intros [= <-]|]. apply H1. lia.
Qed.
Lemma drop_last st p s : socks st !! p = Some s → kref s = 1 →
  ∃ st', ksock_drop ip st p = Some st' ∧ socks st' = delete p (socks st) ∧ syn_waits st' = syn_waits st.
Proof.
  intros Hs Hk. unfold ksock_drop. rewrite Hs. cbn [mbind option_bind]. rewrite Hk. change (0 <? 1) with true. cbv beta iota zeta.
  change (kref (s <| kref := 1 - 1 |>) =? 0) with true. cbn [negb]. eexists. split; [done|].
  match goal with |- context [delete p (socks ?x)] => assert (E : socks x = socks st ∧ syn_waits x = syn_waits st) end.
  { destruct (_ && used _); [|done]. by destruct (net_tcp_close ip _ _) as [[c d] r]. }
  destruct E as [E1 E2]. split; [by rewrite <- E1|exact E2].
Qed.

(** C33: A listener whose last reference is dropped while a connection to it is being opened
    stays in the slot of that connection.  The acknowledgement that completes the handshake
    then makes the demultiplexer read the freed socket. *)
Theorem closed_listener_used st f path l s j w h now : files st !! f = Some (l, path) → l ≠ 0 → socks st !! l = Some s → kref s = 1 →
  syn_waits st !! j = Some (Some w) → listener w = l → net_tcp_syn_wait_find st (tcp_dport h) (ip_src h) (tcp_sport h) = Some (Some j) →
  net_frame_l4_tcp h = true → ip_dst h = ip → tcp_flags h = 0x10 →
  ∃ st', step st (Close f) = Some st' ∧
    (net_tcp_find_established st' (tcp_dport h) (ip_src h) (tcp_sport h) = Some 0 → step st' (Receive true h now) = None).
Proof.
  intros Hf Hl Hs Hk Hw Hwl Hfind H1 H2 H3. destruct (drop_last st l s Hs Hk) as (st1 & E1 & S1 & W1).
  destruct (wait_find_first st (tcp_dport h) (ip_src h) (tcp_sport h) 0 _ j Hfind) as [Hb (o & Ho & Ht)]. assert (o = Some w) as -> by congruence.
  assert (Ha : active w = true) by (cbn in Ht; by destruct (active w)).
  cbn [step]. unfold net_fs_file_destroy. rewrite Hf. cbn [mbind option_bind]. rewrite E1. cbn [mbind option_bind]. eexists. split; [done|]. intros He.
  unfold net_tcp_dispatch_incoming. rewrite H1, H2, Z.eqb_refl, H3. cbn [negb orb]. change (nz (16 &u 2)) with false. change (nz (16 &u 16)) with true. cbn [andb negb].
  rewrite He. cbn [mbind option_bind nz Z.eqb negb]. unfold net_tcp_syn_wait_find.
  rewrite (wait_find_dangles _ _ _ _ 0 _ j w); [done| | |done|congruence|]; cbn; rewrite ?W1, ?S1; [|done|by rewrite Hwl, lookup_delete_eq].
  intros k [v|] Hkj Hv; [|done]. pose proof (Hb k _ Hkj Hv) as Hn. cbn in Hn |- *. destruct (_ || _); [done|].
  destruct (decide (listener v = l)) as [->|]; [by rewrite lookup_delete_eq|]. rewrite lookup_delete_ne by done. destruct (socks st !! listener v); cbn in *; congruence.
Qed.
End server.
