(* ===== verification/NetWitness.v ===== *)
(** Two hosts with concrete addresses: the theorems on the network at work. *)
From S2P Require Import Prelude NetBytes Tcp Net NetProps NetRxq NetRxqProps TcpStream TcpProps TcpWire TcpEnd TcpHandshake.
Import Tcp Net Rxq.

Definition ip_a : Z := 0x0A000001.
Definition ip_b : Z := 0x0A000002.
Definition mac_a : list Z := [2; 0; 0; 0; 0; 1].
Definition mac_b : list Z := [2; 0; 0; 0; 0; 2].
Definition host (m : list Z) (ip : Z) : net_state := MkNet true true true m ip 0xFFFFFF00 0x0A0000FE 0x0A0000FE 7 mac_b true false.
Definition host_a : net_state := host mac_a ip_a.
Definition host_b : net_state := host mac_b ip_b.
Definition tick (n : nat) : Z := 10 * n.

Lemma mac_ok m : m = mac_a ∨ m = mac_b → mac_addr m.
Proof. intros [-> | ->]; (split; [done|]); repeat (apply Forall_cons_2; [lia|]); apply Forall_nil_2. Qed.
Lemma host_ok m ip : m = mac_a ∨ m = mac_b → is_u32 ip → net_ok (host m ip).
Proof. intros Hm Hip. split; cbn; [by apply mac_ok|done|lia|apply mac_ok; by right]. Qed.
Lemma host_a_ok : net_ok host_a.
Proof. apply host_ok; [by left|unfold ip_a; lia]. Qed.
Lemma host_b_ok : net_ok host_b.
Proof. apply host_ok; [by right|unfold ip_b; lia]. Qed.

(** An established connection with a buffer of 64 bytes. *)
Definition conn (dst dp sp snd rcv : Z) : net_tcp_conn_t :=
  conn0 <| used := true |> <| established := true |> <| dst_ip_be := dst |> <| dst_port := dp |> <| src_port := sp |>
    <| snd_una := snd |> <| snd_nxt := snd |> <| rcv_nxt := rcv |> <| rx_buf := 4096 |> <| rx_cap := 64 |>.
(** The sequence numbers wrap after two bytes. *)
Definition first_seq : Z := 2 ^ 32 - 2.
Definition conn_a : net_tcp_conn_t := conn ip_b 80 5000 first_seq 100.
Definition conn_b : net_tcp_conn_t := conn ip_a 5000 80 100 first_seq.
Definition world_of (fs : list (list Z)) : world := MkWorld fs [] [] [4096; 8192] [] [] 0 0.
Definition wire_a (s : list Z) : list Z := eth_ipv4_frame host_a mac_b ip_b IPPROTO_TCP_LOCAL s.

Lemma wire_a_carries s : length s ≤ 1500 → carries_l4 (wire_a s) ip_a ip_b IPPROTO_TCP_LOCAL s.
Proof. intros. apply (eth_frame_carries host_a); [apply host_a_ok|apply mac_ok; by right|unfold ip_b; lia|unfold IPPROTO_TCP_LOCAL; lia|done]. Qed.
Lemma conn_a_calm : calm ip_a conn_a.
Proof. split; [done|]. split; cbn; try done; unfold ip_a, ip_b, first_seq; try split; lia || done. Qed.
Lemma conn_b_ready : TcpProps.ready first_seq conn_b.
Proof. split; try done. cbn. repeat constructor. Qed.

(** A sends three bytes and then two; B gets the segments in the wrong order, the second
    one twice. *)
Definition calls_a : list call := [Send [10; 20; 30]; Send [40; 50]].
Definition out_a : net_tcp_conn_t * world * list Z := default (conn0, world_of [], []) (run_accepted ip_a tick conn_a (world_of []) calls_a).
Definition segs_a : list (list Z) := sent (net_tcp_close ip_a out_a.1.1 out_a.1.2).1.2.
Definition frames_b : list (list Z) := wire_a <$> (match segs_a with [s1; s2; s3] => [s2; s3; s1; s2] | _ => [] end).
Definition calls_b : list call := [Recv 4 0 2; Recv 4 0 2].
Definition out_b : net_tcp_conn_t * world * list Z := default (conn0, world_of [], []) (run_calls ip_b tick conn_b (world_of frames_b) calls_b).

Lemma segs_short : Forall (λ s, length s ≤ 1500) segs_a.
Proof. apply (bool_decide_unpack _). vm_compute. done. Qed.

Lemma frames_b_carry : Forall (λ f, decode ip_b conn_b f = None ∨
  ∃ s, s ∈ sent (net_tcp_close ip_a out_a.1.1 out_a.1.2).1.2 ∧ carries_l4 f ip_a ip_b IPPROTO_TCP_LOCAL s) (frames (world_of frames_b)).
Proof.
  cbn [frames world_of]. pose proof segs_short as Hs. unfold frames_b, segs_a in *. apply Forall_fmap.
  destruct (sent _) as [|s1 [|s2 [|s3 [|]]]]; try apply Forall_nil_2.
  inversion Hs as [|?? H1 Hs1]; subst. inversion Hs1 as [|?? H2 Hs2]; subst. inversion Hs2 as [|?? H3 _]; subst.
  repeat apply Forall_cons_2; try apply Forall_nil_2; right; eexists; (split; [|by apply wire_a_carries]); set_solver.
Qed.
Lemma tcp_end_to_end_witness : out_b.2 = [10; 20; 30; 40; 50] ∧ (out_b.2 ++ rx out_b.1.1) `prefix_of` out_a.2.
Proof.
  split; [by vm_compute|].
  apply (tcp_end_to_end ip_a ip_b tick tick conn_a (world_of []) calls_a out_a.1.1 out_a.1.2 out_a.2
           conn_b (world_of frames_b) calls_b out_b.1.1 out_b.1.2 out_b.2).
  - apply conn_a_calm.
  - reflexivity.
  - repeat (apply Forall_cons_2; [split; [|done]; repeat (apply Forall_cons_2; [lia|]); apply Forall_nil_2|]). apply Forall_nil_2.
  - by vm_compute.
  - by vm_compute.
  - reflexivity.
  - by split.
  - apply conn_b_ready.
  - apply frames_b_carry.
  - repeat (apply Forall_cons_2; [cbn; lia|]). apply Forall_nil_2.
  - by vm_compute.
Defined.

(** ** The peer's stream and reassembly *)

Definition stream : list Z := [10; 20; 30; 40; 50].
(** The segments with the bytes 2 to 4 and 0 to 2. *)
Definition late : list Z := wire_a (wire_seg ip_a (conn_a <| snd_nxt := 0 |>) 0x18 [30; 40; 50] []).
Definition early : list Z := wire_a (wire_seg ip_a conn_a 0x18 [10; 20; 30] []).
Definition out_s : net_tcp_conn_t * world * list Z := default (conn0, world_of [], []) (run_calls ip_b tick conn_b (world_of [late; early]) [Recv 2 0 2]).

Lemma late_good : good stream first_seq ip_b conn_b late.
Proof.
  intros fl sq ak pl. assert (decode ip_b conn_b late = Some (0x18, 0, 100, [30; 40; 50])) as -> by (by vm_compute). intros [= <- <- <- <-] _.
  exists 2. split; [done|]. split; [by split_and!|done].
Qed.
Lemma early_good : good stream first_seq ip_b conn_b early.
Proof.
  intros fl sq ak pl. assert (decode ip_b conn_b early = Some (0x18, first_seq, 100, [10; 20; 30])) as -> by (by vm_compute). intros [= <- <- <- <-] _.
  exists 0. split; [done|]. split; [by split_and!|done].
Qed.
Lemma tcp_stream_delivered_witness : out_s.2 = [10; 20] ∧ (out_s.2 ++ rx out_s.1.1) `prefix_of` stream.
Proof.
  split; [by vm_compute|].
  apply (tcp_stream_delivered ip_b tick stream first_seq conn_b (world_of [late; early]) [Recv 2 0 2] out_s.1.1 out_s.1.2 out_s.2).
  - done.
  - apply conn_b_ready.
  - repeat apply Forall_cons_2; [apply late_good|apply early_good|apply Forall_nil_2].
  - apply Forall_cons_2; [cbn; lia|apply Forall_nil_2].
  - by vm_compute.
Defined.

Lemma late_carries : carries ip_b stream first_seq conn_b late 2 [30; 40; 50].
Proof. exists 0x18, 100. split; [by vm_compute|]. split; [done|]. split; [by split_and!|by vm_compute]. Qed.
Lemma early_carries : carries ip_b stream first_seq conn_b early 0 [10; 20; 30].
Proof. exists 0x18, 100. split; [by vm_compute|]. split; [done|]. split; [by split_and!|by vm_compute]. Qed.
Lemma tcp_reassembles_witness : ∃ c w g, net_tcp_service ip_b 2 conn_b (world_of [late; early]) false = (c, w, g) ∧
  frames w = [] ∧ rx c = stream ∧ rcv_nxt c = 3.
Proof.
  apply (tcp_reassembles ip_b stream first_seq ltac:(done) conn_b (world_of [late; early])).
  - apply conn_b_ready.
  - by vm_compute.
  - vm_compute. lia.
  - intros f [->|[->|[]%elem_of_nil]%elem_of_cons]%elem_of_cons; [exists 2, [30; 40; 50]; apply late_carries|exists 0, [10; 20; 30]; apply early_carries].
  - intros x Hx. cbn in Hx. destruct (Z.lt_ge_cases x 2).
    + exists early, 0, [10; 20; 30]. split; [set_solver|]. split; [apply early_carries|cbn; lia].
    + exists late, 2, [30; 40; 50]. split; [set_solver|]. split; [apply late_carries|cbn; lia].
Defined.

(** ** Datagrams, pings and ARP *)

Definition arp_none : arp_env := MkArpEnv (replicate ARP_CACHE_SLOTS (MkArp 0 (replicate 6 0) false)) 0 0 [MkRound 15000 [] 0].
Lemma arp_none_ok : env_ok arp_none.
Proof.
  split; [|apply Forall_cons_2; [apply Forall_nil_2|apply Forall_nil_2]]. apply Forall_replicate. split; [done|].
  repeat (apply Forall_cons_2; [lia|]). apply Forall_nil_2.
Qed.
(** Off the subnet, through the gateway. *)
Definition far : Z := 0x08080808.
Lemma udp_datagram_roundtrip_witness : ∃ arp f, (net_send_udp_datagram host_a None arp_none true far 5000 53 [1; 2; 3] 0 ≫= λ r, Some r.1.2) = Some (arp ++ [f]) ∧
  net_udp_copy_payload_from_frame f 1024 = ([1; 2; 3], Some (ip_a, 5000)).
Proof.
  destruct (udp_datagram_roundtrip host_a None arp_none true far 5000 53 [1; 2; 3] (host_a <| ip_id := 8 |>)
    (from_option (λ r, r.1.2) [] (net_send_udp_datagram host_a None arp_none true far 5000 53 [1; 2; 3] 0)) 0 (MkUdpSock 53 false 0 0 false))
    as (arp & f & E & _ & _ & H & _).
  - apply host_a_ok.
  - apply arp_none_ok.
  - unfold far. lia.
  - lia.
  - lia.
  - by vm_compute.
  - done.
  - done.
  - exists arp, f. split; [rewrite <- E; by vm_compute|]. apply H; [cbn; lia|done].
Defined.

(** A ping of B to A. *)
Definition ping : list Z := eth_ipv4_frame host_b mac_a ip_a IPPROTO_ICMP_LOCAL [8; 0; 0; 0; 0; 1; 0; 2; 97; 98; 99].
Lemma icmp_echo_reply_witness : ∃ g rep, (net_reply_icmp_echo_if_needed host_a ping true 0).1.2 = [g] ∧ length rep = 11%nat ∧
  fold_carries 3 (word_sum rep) = 0xFFFF.
Proof.
  destruct (icmp_echo_reply host_a ping 0 (host_a <| ip_id := 8 |>) (net_reply_icmp_echo_if_needed host_a ping true 0).1.2)
    as (g & rep & H1 & _ & _ & H2 & _ & _ & _ & _ & H3).
  - apply host_a_ok.
  - apply (bool_decide_unpack _). by vm_compute.
  - by vm_compute.
  - by vm_compute.
  - exists g, rep. split; [done|]. split; [|done]. rewrite H2. by vm_compute.
Defined.

Lemma arp_exchange_witness : ∃ q p, net_build_arp_reply host_b q = Some p ∧
  net_arp_cache_lookup (net_arp_observe_frame host_a (cache arp_none) p 5).2 ip_b = Some mac_b.
Proof.
  destruct (arp_exchange host_a host_b (cache arp_none) (cache arp_none) 3 5 0 [arp_request host_a ip_b] 0) as (q & p & _ & _ & H1 & _ & _ & H2);
    [apply host_a_ok|apply host_b_ok|lia|lia|done..| | |done|].
  - intros i j x y [-> _]%lookup_replicate_1 _. done.
  - intros i j x y [-> _]%lookup_replicate_1 _. done.
  - by exists q, p.
Defined.

Lemma ephemeral_port_free_witness : (net_alloc_ephemeral_port (2 ^ 32 - 1) [32768; 32769]).2 ∉ [32768; 32769].
Proof.
  apply (ephemeral_port_free (2 ^ 32 - 1) [32768; 32769] 2 _ 40000); [by vm_compute|lia|].
  intros H. repeat (apply elem_of_cons in H as [H|H]; [lia|]). by apply elem_of_nil in H.
Defined.

Lemma arp_resolution_ends_witness : ∃ n m, net_resolve_mac host_a arp_none 0x0A000003 15000 = Some (replicate n (arp_request host_a 0x0A000003), m).
Proof.
  destruct (arp_resolution_ends host_a arp_none 0x0A000003 15000) as (n & m & H & _); [|by exists n, m].
  exists (MkRound 15000 [] 0). split; [by apply elem_of_cons; left|by vm_compute].
Defined.

(** ** A full queue of two frames *)

Definition noise : list Z := [1; 2; 3].
Definition dns : list Z := eth_ipv4_frame host_b mac_a ip_a IPPROTO_UDP_LOCAL (udp_datagram 53 5000 [7]).
Definition full : rxq := MkRxq [dns; noise] 0 0 2.
Lemma full_holds : holds full [dns; noise].
Proof.
  split; try done; [cbn; lia| |].
  - intros [|[|i]] f; cbn; try congruence. done.
  - repeat apply Forall_cons_2; [vm_compute; lia|vm_compute; lia|apply Forall_nil_2].
Qed.
Lemma rxq_push_keeps_dns_witness : ∃ l1 x l2, [dns; noise] = l1 ++ x :: l2 ∧ net_frame_udp_dns x = false.
Proof.
  destruct (rxq_push_keeps_dns full [dns; noise] dns (net_rxq_push full dns).1 (net_rxq_push full dns).2) as (l1 & x & l2 & _ & H1 & _ & H2).
  - apply full_holds.
  - done.
  - done.
  - done.
  - exists l1, x, l2. split; [done|]. destruct (net_frame_udp_dns x) eqn:E; [|done]. specialize (H2 ltac:(by vm_compute) eq_refl).
    inversion H2 as [|?? _ H3]; subst. inversion H3 as [|?? H4 _]; subst. by vm_compute in H4.
Defined.
