(* ===== verification/NetServerWitness.v ===== *)
(** A server with one listener on port 80: the theorems on the TCP server at work. *)
From S2P Require Import Prelude NetBytes Tcp Net NetProps NetRxq TcpStream TcpProps TcpWire TcpEnd TcpHandshake NetServer NetServerProps NetServerSafe NetWitness.
Import Tcp Net Rxq Server.

Definition wire_b (s : list Z) : list Z := eth_ipv4_frame host_b mac_a ip_a IPPROTO_TCP_LOCAL s.
Lemma wire_b_carries s : length s ≤ 1500 → carries_l4 (wire_b s) ip_b ip_a IPPROTO_TCP_LOCAL s.
Proof. intros. apply (eth_frame_carries host_b); [apply host_b_ok|apply mac_ok; by left|unfold ip_a; lia|unfold IPPROTO_TCP_LOCAL; lia|done]. Qed.

(** The client on A. *)
Definition client : net_tcp_conn_t * world * Z := default (conn0, world_of [], -1) (net_tcp_connect ip_a tick 0 conn0 (world_of []) ip_b 80 5000 0).
Definition syn : list Z := default [] (sent client.1.2 !! 0%nat).

(** The server on B. *)
Definition web : ksock := sock0 <| kref := 1 |> <| registry_slot := 1 |> <| tcp_listening := true |> <| s_local_port := 80 |>.
Definition server0 : server :=
  MkServer {[ 1000 := web ]} (1000 :: replicate 511 0) {[ 2000 := (1000, 0) ]} (replicate TCP_SYN_WAIT_SLOTS None) (MkRxq [] 0 0 0)
    (MkWorld [] [] [] [3000; 4000; 5000; 6000; 7000] [] [] 0 0).
Definition dispatch (st : server) (f : list Z) : server := from_option fst server0 (net_tcp_dispatch_incoming ip_b tick 1000 st true f 5).
Definition server1 : server := dispatch server0 (wire_a syn).
Definition synack : list Z := default [] (sent (wd server1) !! 0%nat).
Definition client2 : net_tcp_conn_t := (service_frame ip_a client.1.1 client.1.2 (wire_b synack)).1.1.
Definition ack : list Z := default [] (sent (tcp_send_seg ip_a client2 client.1.2 0x10 []).1 !! 1%nat).

Lemma server1_accepts : can_accept server1 1000 web 5000 6000 7000 [] 1.
Proof.
  split; [by vm_compute| |by vm_compute|done|by vm_compute|by vm_compute]. split; [|by vm_compute]. split; [done|by vm_compute; lia|unfold ACCEPT_CAP; cbn; lia|done].
Qed.

(** ** Safety *)

Lemma server0_ok : server_ok server0.
Proof.
  split.
  - intros [|i] q; cbn [registry server0 lookup list_lookup]; [intros [= <-] _; exists web; by vm_compute|].
    intros [-> _]%lookup_replicate_1. done.
  - by vm_compute.
  - apply Forall_replicate. done.
  - repeat (apply Forall_cons_2; [right; by vm_compute|]). apply Forall_nil_2.
  - apply (bool_decide_unpack _). by vm_compute.
Qed.
Definition next (st : server) (o : op) : server := default server0 (step ip_b tick 1000 st o).
Lemma next_eq st o st' : step ip_b tick 1000 st o = Some st' → st' = next st o.
Proof. unfold next. by intros ->. Qed.
(** A client connects and is accepted; then its connection is closed. *)
Definition session : list op := [Receive true (wire_a syn) 5; Receive true (wire_a ack) 6; Accept 1000; Close 6000; Hold 1000].
Lemma undangling_test st p : forallb (λ o, match o with Some w => negb (active w && (listener w =? p)) | None => true end) (syn_waits st) = true → undangling st p.
Proof.
  intros H%Is_true_true%forallb_True. eapply Forall_impl; [exact H|]. intros [w|]; [|done]. intros Hn%Is_true_true%negb_true_iff Ha E. by rewrite Ha, E, Z.eqb_refl in Hn.
Qed.

Lemma run_step ip clk tf st o os st' : step ip clk tf st o = Some st' → run ip clk tf st (o :: os) = run ip clk tf st' os.
Proof. intros E. cbn [run]. by rewrite E. Qed.
Lemma run_fault ip clk tf st o os : step ip clk tf st o = None → run ip clk tf st (o :: os) = None.
Proof. intros E. cbn [run]. by rewrite E. Qed.
Lemma server1_step : step ip_b tick 1000 server0 (Receive true (wire_a syn) 5) = Some server1.
Proof. by vm_compute. Qed.
(** The listener is closed between the SYN and the acknowledgement. *)
Definition half_open : syn_wait := default wait0 (mjoin (syn_waits server1 !! 0%nat)).
Lemma closed_listener_used_witness : run ip_b tick 1000 server0 [Receive true (wire_a syn) 5; Close 2000; Receive true (wire_a ack) 6] = None.
Proof.
  destruct (closed_listener_used ip_b tick 1000 server1 2000 0 1000 web 0 half_open (wire_a ack) 6) as (st & E & H).
  - by vm_compute.
  - done.
  - by vm_compute.
  - done.
  - by vm_compute.
  - by vm_compute.
  - by vm_compute.
  - by vm_compute.
  - by vm_compute.
  - by vm_compute.
  - rewrite (run_step _ _ _ _ _ _ _ server1_step), (run_step _ _ _ _ _ _ _ E). apply run_fault, H.
    apply next_eq in E as ->. by vm_compute.
Defined.
