(* ===== verification/Dns.v ===== *)
(** The DNS resolver, [net/dns.c]. *)
From S2P Require Import Prelude NetBytes.

Module Dns.

Definition DNS_PORT : Z := 53.
Definition DNS_TYPE_A : Z := 1.
Definition DNS_CLASS_IN : Z := 1.

(** [Fault] is a read outside the message, [Err] the result [-1]. *)
Inductive res (A : Type) := Fault | Err | Ok (x : A).
#[global] Arguments Fault {A}.
#[global] Arguments Err {A}.
#[global] Arguments Ok {A} x.
Definition bind_res {A B} (m : res A) (k : A → res B) : res B :=
  match m with Fault => Fault | Err => Err | Ok x => k x end.

(** * Queries *)

(** The label that ends here goes to the output; [None] is [-1]. *)
Definition put_label (label out : list Z) (cap : Z) : option (list Z) :=
  if 63 <? length label then None
  else if cap <=? length out + 1 + length label then None
  else Some (out ++ u8 (length label) :: label).
(** [host] is the rest of the string, without its NUL; [label] the bytes since the last dot. *)
Fixpoint encode_name (host label out : list Z) (cap : Z) : option (list Z) :=
  match host with
  | [] => out ← put_label label out cap; if cap <=? length out then None else Some (out ++ [0])
  | c :: host =>
      if c =? 46 then out ← put_label label out cap; encode_name host [] out cap
      else encode_name host (label ++ [u8 c]) out cap
  end.
Definition net_dns_encode_qname (host : list Z) (cap : Z) : option (list Z) :=
  if cap =? 0 then None else encode_name host [] [] cap.

Definition build_query (hostname : list Z) (id cap : Z) : option (list Z) :=
  qname ← net_dns_encode_qname hostname (if cap <? 12 then 0 else cap - 12);
  if cap <? 12 + length qname + 4 then None
  else
    Some ([u8 (Z.shiftr id 8); u8 (id &u 0xFF); 0x01; 0x00; 0x00; 0x01; 0x00; 0x00; 0x00; 0x00; 0x00; 0x00] ++
          qname ++ [0x00; DNS_TYPE_A; 0x00; DNS_CLASS_IN]).

(** * Responses *)

Definition rd (msg : list Z) (i : nat) : res Z := match msg !! i with Some b => Ok b | None => Fault end.
Definition get16 (msg : list Z) (i : nat) : res Z :=
  bind_res (rd msg i) (λ a, bind_res (rd msg (i + 1)) (λ b, Ok (u16 (Z.lor (Z.shiftl a 8) b)))).

(** Every round moves on, so [length msg] rounds are enough. *)
Fixpoint skip_loop (fuel : nat) (msg : list Z) (off : nat) : res nat :=
  match fuel with
  | O => Err
  | S k =>
      if (off <? length msg)%nat then
        bind_res (rd msg off) (λ b,
          if b =? 0 then Ok (off + 1)%nat
          else if (b &u 0xC0) =? 0xC0 then (if (length msg <=? off + 1)%nat then Err else Ok (off + 2)%nat)
          else if 63 <? b then Err
          else
            let off := (off + (1 + Z.to_nat b))%nat in
            if (length msg <? off)%nat then Err else skip_loop k msg off)
      else Err
  end.
Definition skip_name (msg : list Z) (off : nat) : res nat := skip_loop (length msg) msg off.

(** The four bytes of an address. *)
Definition rd_ip (msg : list Z) (i : nat) : res Z :=
  bind_res (rd msg i) (λ a, bind_res (rd msg (i + 1)) (λ b, bind_res (rd msg (i + 2)) (λ c, bind_res (rd msg (i + 3)) (λ d,
    Ok (Z.lor (Z.lor (Z.lor (u32 (Z.shiftl a 24)) (Z.shiftl b 16)) (Z.shiftl c 8)) d))))).

(** The address, if there is one, and [*inout_off] after; [off0] is its value before. *)
Fixpoint scan_rr (count : nat) (msg : list Z) (off0 off : nat) : res (option Z * nat) :=
  match count with
  | O => Ok (None, off)
  | S count =>
      if (off <? length msg)%nat then
        match skip_name msg off with
        | Fault => Fault
        | Err => Ok (None, off0)
        | Ok next =>
            if (length msg <? next + 10)%nat then Ok (None, off0)
            else
              bind_res (get16 msg next) (λ rtype, bind_res (get16 msg (next + 8)) (λ rdlen,
                let off := (next + 10)%nat in
                let end_ := (off + Z.to_nat rdlen)%nat in
                if (length msg <? end_)%nat then Ok (None, off0)
                else if (rtype =? DNS_TYPE_A) && (rdlen =? 4) then bind_res (rd_ip msg off) (λ ip, Ok (Some ip, end_))
                else scan_rr count msg off0 end_))
        end
      else Ok (None, off)
  end.
Definition scan_rr_section_for_a (msg : list Z) (off : nat) (count : Z) : res (option Z * nat) :=
  scan_rr (Z.to_nat count) msg off off.

Fixpoint skip_questions (count : nat) (msg : list Z) (off : nat) : res nat :=
  match count with
  | O => Ok off
  | S count =>
      if (off <? length msg)%nat then
        bind_res (skip_name msg off) (λ next,
          if (length msg <? next + 4)%nat then Err else skip_questions count msg (next + 4))
      else Ok off
  end.

Definition parse_response (msg : list Z) (expected_id : Z) : res Z :=
  if length msg <? 12 then Err
  else
    bind_res (get16 msg 0) (λ id,
    if negb (id =? expected_id) then Err
    else
      bind_res (rd msg 3) (λ b3,
      if nz (b3 &u 0x0F) then Err
      else
        bind_res (get16 msg 4) (λ qdcount, bind_res (get16 msg 6) (λ ancount,
        bind_res (get16 msg 8) (λ nscount, bind_res (get16 msg 10) (λ arcount,
        bind_res (skip_questions (Z.to_nat qdcount) msg 12) (λ off,
        bind_res (scan_rr_section_for_a msg off ancount) (λ '(r, off),
        match r with
        | Some ip => Ok ip
        | None =>
            bind_res (scan_rr_section_for_a msg off nscount) (λ '(r, off),
            match r with
            | Some ip => Ok ip
            | None =>
                bind_res (scan_rr_section_for_a msg off arcount) (λ '(r, _),
                match r with Some ip => Ok ip | None => Err end)
            end)
        end))))))))
  .

(** * The resolver *)

(** A datagram it hands to [send_udp]. *)
Record query := MkQuery { q_port : Z; q_data : list Z }.

(** [sends] and [replies] are what [send_udp] and [recv_udp] answer in the three rounds;
    a reply that did not come is empty. The last component is what was received. *)
Fixpoint ask (rounds : nat) (q : query) (sends : list Z) (replies : list (list Z)) : list query * option (list Z) :=
  match rounds with
  | O => ([], Some [])
  | S k =>
      if negb (default 0 (head sends) =? 0) then ([q], None)
      else
        match default [] (head replies) with
        | [] => let '(qs, r) := ask k q (tail sends) (tail replies) in (q :: qs, r)
        | r => ([q], Some r)
        end
  end.

(** [port] and [now] are the answers of [axonos_dns_alloc_src_port] and [axonos_dns_time_ms]. *)
Definition query_id (src_port now : Z) : Z :=
  Z.lxor (Z.lxor (Z.lxor 0xD351 (u16 src_port)) (u16 now)) (u16 (Z.shiftr now 16)).
Definition net_dns_resolve (hostname : list Z) (port now : Z) (sends : list Z) (replies : list (list Z)) : list query * res Z :=
  match hostname with
  | [] => ([], Err)
  | _ =>
      let src_port := if port =? 0 then 54321 else port in
      let id := u16 (query_id src_port now) in
      match build_query hostname id 512 with
      | None => ([], Err)
      | Some q =>
          let '(qs, r) := ask 3 (MkQuery src_port q) sends replies in
          (qs, match r with None | Some [] => Err | Some reply => parse_response reply id end)
      end
  end.

End Dns.
