(* ===== verification/DnsProps.v ===== *)
(** DNS: names are encoded as RFC 1035 says, answers are found, and no message makes the
    parser read outside it. *)
From S2P Require Import Prelude NetBytes Dns.
Import Dns.

(** * Names *)

(** A label of a host name: 1 to 63 bytes, none a dot. *)
Definition label_ok (l : list Z) : Prop := 0 < length l ≤ 63 ∧ Forall (λ c, is_u8 c ∧ c ≠ 46) l.
(** The name on the wire. *)
Definition wire_name (ls : list (list Z)) : list Z := (ls ≫= λ l, Z.of_nat (length l) :: l) ++ [0].
Fixpoint dotted (ls : list (list Z)) : list Z :=
  match ls with [] => [] | [l] => l | l :: ls => l ++ 46 :: dotted ls end.

Lemma encode_label l rest label out cap : Forall (λ c, is_u8 c ∧ c ≠ 46) l →
  encode_name (l ++ rest) label out cap = encode_name rest (label ++ l) out cap.
Proof.
  intros H. revert label. induction H as [|c l [H1 H2] _ IH]; intros label; cbn [app encode_name]; [by rewrite app_nil_r|].
  rewrite (proj2 (Z.eqb_neq _ _)) by done. rewrite IH, <- app_assoc. cbn [app]. by rewrite u8_small.
Qed.
Lemma put_label_ok l out cap : label_ok l → length out + 1 + length l < cap → put_label l out cap = Some (out ++ Z.of_nat (length l) :: l).
Proof.
  intros [Hl _] Hc. unfold put_label. rewrite (proj2 (Z.ltb_ge _ _)), (proj2 (Z.leb_gt _ _)) by lia. by rewrite u8_small by lia.
Qed.
Lemma wire_name_cons l ls : wire_name (l :: ls) = Z.of_nat (length l) :: l ++ wire_name ls.
Proof. unfold wire_name. cbn. by rewrite <- app_assoc. Qed.
Lemma encode_dotted ls out cap : ls ≠ [] → Forall label_ok ls → length out + length (wire_name ls) ≤ cap →
  encode_name (dotted ls) [] out cap = Some (out ++ wire_name ls).
Proof.
  intros Hne H. revert out. induction H as [|l ls Hl H IH]; intros out; [done|]. rewrite wire_name_cons. cbn [length]. rewrite length_app.
  pose proof Hl as [Hlen Hb]. destruct ls as [|l' ls].
  - cbn [dotted]. change (wire_name []) with [0]. cbn [length]. intros Hc. rewrite <- (app_nil_r l) at 1. rewrite encode_label by done. cbn [encode_name app].
    rewrite put_label_ok by (done || lia). cbn. rewrite (proj2 (Z.leb_gt _ _)); [by rewrite <- app_assoc|]. rewrite length_app. cbn. lia.
  - intros Hc. change (dotted (l :: l' :: ls)) with (l ++ 46 :: dotted (l' :: ls)). rewrite encode_label by done. cbn [encode_name app Z.eqb Pos.eqb].
    assert (0 < length (wire_name (l' :: ls))) by (rewrite wire_name_cons; cbn; lia).
    rewrite put_label_ok by (done || lia). cbn -[dotted wire_name]. rewrite IH; [by rewrite <- app_assoc|done|]. rewrite !length_app. cbn [length]. lia.
Qed.

Lemma land_label b : 0 ≤ b < 64 → (b &u 0xC0) =? 0xC0 = false.
Proof.
  intros H. apply Z.eqb_neq. intros E. apply (f_equal (λ x, Z.testbit x 7)) in E. rewrite Z.land_spec in E.
  rewrite <- (Z.mod_small b (2 ^ 6)), Z.mod_pow2_bits_high in E by lia. done.
Qed.

Lemma rd_at msg i b : msg !! i = Some b → rd msg i = Ok b.
Proof. intros H. unfold rd. by rewrite H. Qed.
Lemma rd_mid pre b post : rd (pre ++ b :: post) (length pre) = Ok b.
Proof. apply rd_at. by rewrite lookup_app_r, Nat.sub_diag by lia. Qed.

Lemma land_ptr a : 0xC0 ≤ a < 256 → (a &u 0xC0) =? 0xC0 = true.
Proof.
  intros H. assert (A : forallb (λ k, (Z.of_nat k &u 0xC0) =? 0xC0) (seq 192 64) = true) by (by vm_compute).
  rewrite forallb_forall in A. specialize (A (Z.to_nat a)). rewrite Z2Nat.id in A by lia. apply A. apply in_seq. lia.
Qed.

(** What ends a name: the empty label, or a pointer to an earlier name. *)
Definition name_end (e : list Z) : Prop := e = [0] ∨ ∃ a b, 0xC0 ≤ a < 256 ∧ e = [a; b].
Definition wire_labels (ls : list (list Z)) : list Z := ls ≫= λ l, Z.of_nat (length l) :: l.

Lemma wire_labels_cons l ls : wire_labels (l :: ls) = Z.of_nat (length l) :: l ++ wire_labels ls.
Proof. done. Qed.
Lemma skip_labels fuel pre ls e post : Forall label_ok ls → name_end e → (length ls < fuel)%nat →
  skip_loop fuel (pre ++ wire_labels ls ++ e ++ post) (length pre) = Ok (length pre + length (wire_labels ls ++ e))%nat.
Proof.
  intros H He. revert fuel pre. induction H as [|l ls Hl H IH]; intros [|fuel] pre Hf; cbn [length] in Hf; try lia; cbn [skip_loop].
  - change (wire_labels []) with (@nil Z). cbn [app].
    destruct He as [->|(a & b & Ha & ->)]; (rewrite (proj2 (Nat.ltb_lt _ _)) by (rewrite !length_app; cbn; lia)); cbn [app]; rewrite rd_mid; cbn [bind_res].
    + done.
    + rewrite (proj2 (Z.eqb_neq _ _)), land_ptr by lia. rewrite (proj2 (Nat.leb_gt _ _)); [done|]. rewrite length_app. cbn. lia.
  - rewrite wire_labels_cons. cbn [app]. rewrite (proj2 (Nat.ltb_lt _ _)) by (rewrite !length_app; cbn; lia). rewrite rd_mid. cbn [bind_res].
    destruct Hl as [Hlen _]. rewrite (proj2 (Z.eqb_neq _ _)), land_label, (proj2 (Z.ltb_ge _ _)) by lia. rewrite Nat2Z.id.
    rewrite (proj2 (Nat.ltb_ge _ _)) by (rewrite !length_app; cbn [length]; rewrite !length_app; lia).
    specialize (IH fuel (pre ++ Z.of_nat (length l) :: l) ltac:(lia)). rewrite !length_app in IH. cbn [length] in IH.
    rewrite <- !app_assoc in IH. cbn [app] in IH. rewrite <- app_assoc.
    replace (length pre + (1 + length l))%nat with (length pre + S (length l))%nat by lia. rewrite IH. f_equal. cbn [length]. rewrite !length_app. cbn [length]. lia.
Qed.
Lemma skip_name_ok pre ls e post : Forall label_ok ls → name_end e →
  skip_name (pre ++ wire_labels ls ++ e ++ post) (length pre) = Ok (length pre + length (wire_labels ls ++ e))%nat.
Proof.
  intros H He. apply skip_labels; [done..|]. rewrite !length_app. assert (length ls ≤ length (wire_labels ls))%nat.
  { clear. induction ls; [done|]. rewrite wire_labels_cons. cbn. rewrite length_app. lia. }
  assert (0 < length e)%nat by (destruct He as [->|(a & b & _ & ->)]; cbn; lia). lia.
Qed.

(** * Records *)

Record rr := MkRr { r_labels : list (list Z); r_end : list Z; r_type : Z; r_class : Z; r_ttl : list Z; r_data : list Z }.
Record rr_ok (r : rr) : Prop := {
  k_labels : Forall label_ok (r_labels r);
  k_end : name_end (r_end r);
  k_type : is_u16 (r_type r);
  k_ttl : length (r_ttl r) = 4%nat;
  k_data : length (r_data r) < 2 ^ 16
}.
Definition net16 (v : Z) : list Z := [v / 2 ^ 8; v `mod` 2 ^ 8].
Definition wire_rr (r : rr) : list Z :=
  wire_labels (r_labels r) ++ r_end r ++ net16 (r_type r) ++ net16 (r_class r) ++ r_ttl r ++ net16 (length (r_data r)) ++ r_data r.

Lemma get16_mid pre v post : is_u16 v → get16 (pre ++ net16 v ++ post) (length pre) = Ok v.
Proof.
  intros H. unfold get16, net16. cbn [app]. rewrite rd_mid. cbn [bind_res].
  rewrite (rd_at _ (length pre + 1) (v `mod` 2 ^ 8)) by (rewrite lookup_app_r by lia; by replace (length pre + 1 - length pre)%nat with 1%nat by lia).
  cbn [bind_res]. f_equal. rewrite lor_low by (Z.div_mod_to_equations; lia). rewrite u16_small; Z.div_mod_to_equations; lia.
Qed.
Lemma get16_at msg i pre v post : is_u16 v → msg = pre ++ net16 v ++ post → i = length pre → get16 msg i = Ok v.
Proof. intros H -> ->. by apply get16_mid. Qed.

(** One record: it is an address, or the scan goes on behind it. *)
Lemma scan_one count pre r post off0 : rr_ok r → let msg := pre ++ wire_rr r ++ post in
  let end_ := (length pre + length (wire_rr r))%nat in
  scan_rr (S count) msg off0 (length pre) =
    if (r_type r =? 1) && (Z.of_nat (length (r_data r)) =? 4) then bind_res (rd_ip msg (end_ - 4)) (λ ip, Ok (Some ip, end_))
    else scan_rr count msg off0 end_.
Proof.
  intros [H1 H2 H3 H4 H5] msg end_. cbn [scan_rr].
  assert (He : (0 < length (r_end r))%nat) by (destruct H2 as [->|(a & b & _ & ->)]; cbn; lia).
  set (name := wire_labels (r_labels r) ++ r_end r).
  assert (Em : msg = (pre ++ name) ++ net16 (r_type r) ++ net16 (r_class r) ++ r_ttl r ++ net16 (length (r_data r)) ++ r_data r ++ post).
  { unfold msg, wire_rr, name. by rewrite <- !app_assoc. }
  assert (Lr : length (wire_rr r) = (length name + 10 + length (r_data r))%nat).
  { unfold wire_rr, name, net16. rewrite !length_app, H4. cbn [length]. lia. }
  assert (Lm : (length msg = length pre + length (wire_rr r) + length post)%nat) by (unfold msg; rewrite !length_app; lia).
  assert (length name ≠ 0)%nat by (unfold name; rewrite length_app; lia).
  rewrite (proj2 (Nat.ltb_lt _ _)) by lia.
  assert (skip_name msg (length pre) = Ok (length pre + length name)%nat) as ->.
  { unfold msg, wire_rr. rewrite <- !app_assoc. by apply skip_name_ok. }
  rewrite (proj2 (Nat.ltb_ge _ _)) by lia.
  rewrite (get16_at msg _ (pre ++ name) (r_type r) _ H3 Em) by (rewrite length_app; lia). cbn [bind_res].
  rewrite (get16_at msg _ (pre ++ name ++ net16 (r_type r) ++ net16 (r_class r) ++ r_ttl r) (Z.of_nat (length (r_data r))) (r_data r ++ post));
    [|lia|by rewrite Em, <- !app_assoc|unfold net16; rewrite !length_app, H4; cbn [length]; lia].
  cbn [bind_res]. rewrite Nat2Z.id. replace (length pre + length name + 10 + length (r_data r))%nat with end_ by (unfold end_; lia).
  rewrite (proj2 (Nat.ltb_ge _ _)) by (unfold end_; lia). change DNS_TYPE_A with 1.
  destruct (r_type r =? 1); [|done]. cbn [andb]. destruct (Z.eqb_spec (length (r_data r)) 4); [|done].
  do 2 f_equal. unfold end_. lia.
Qed.

Lemma rd_ip_mid pre ip post : is_u32 ip → rd_ip (pre ++ bytes4 ip ++ post) (length pre) = Ok ip.
Proof.
  intros H. unfold rd_ip, bytes4. cbn [app]. rewrite rd_mid. cbn [bind_res].
  do 3 (erewrite rd_at by (rewrite lookup_app_r by lia; rewrite Nat.add_comm, Nat.add_sub; reflexivity); cbn [bind_res]).
  rewrite lor4; [|Z.div_mod_to_equations; lia|apply Z.mod_pos_bound; lia..]. f_equal. Z.div_mod_to_equations; lia.
Qed.

Definition is_addr (r : rr) : bool := (r_type r =? 1) && (Z.of_nat (length (r_data r)) =? 4).
Definition wire_rrs (rs : list rr) : list Z := rs ≫= wire_rr.

Lemma scan_skip count pre rs post off0 : Forall rr_ok rs → Forall (λ r, is_addr r = false) rs →
  scan_rr (length rs + count) (pre ++ wire_rrs rs ++ post) off0 (length pre) =
  scan_rr count (pre ++ wire_rrs rs ++ post) off0 (length pre + length (wire_rrs rs)).
Proof.
  intros H. revert pre. induction H as [|r rs Hr H IH]; intros pre Ha; [by rewrite Nat.add_0_r|]. inversion Ha as [|?? Ha1 Ha2]; subst.
  change (wire_rrs (r :: rs)) with (wire_rr r ++ wire_rrs rs). rewrite <- app_assoc. cbn [length Nat.add]. rewrite scan_one by done.
  unfold is_addr in Ha1. rewrite Ha1. specialize (IH (pre ++ wire_rr r) Ha2). rewrite length_app, <- !app_assoc in IH. rewrite IH.
  f_equal. rewrite length_app. lia.
Qed.
Lemma scan_addr count pre rs r ip post off0 : Forall rr_ok rs → Forall (λ r, is_addr r = false) rs → rr_ok r → r_type r = 1 → r_data r = bytes4 ip → is_u32 ip →
  scan_rr (length rs + S count) (pre ++ wire_rrs rs ++ wire_rr r ++ post) off0 (length pre) =
  Ok (Some ip, (length pre + length (wire_rrs rs) + length (wire_rr r))%nat).
Proof.
  intros H1 H2 H3 Ht Hd Hip. rewrite scan_skip by done. rewrite (app_assoc pre), <- length_app. rewrite scan_one by done.
  rewrite Ht, Hd. cbn [Z.eqb Pos.eqb andb length bytes4 Z.of_nat]. change (Z.of_nat (length (bytes4 ip)) =? 4) with true. cbn iota.
  set (front := (pre ++ wire_rrs rs) ++ wire_labels (r_labels r) ++ r_end r ++ net16 (r_type r) ++ net16 (r_class r) ++ r_ttl r ++ net16 (length (r_data r))).
  replace ((pre ++ wire_rrs rs) ++ wire_rr r ++ post) with (front ++ bytes4 ip ++ post).
  2:{ unfold front, wire_rr. rewrite Hd, <- !app_assoc. done. }
  replace (length (pre ++ wire_rrs rs) + length (wire_rr r) - 4)%nat with (length front).
  2:{ unfold front, wire_rr. rewrite Hd, !length_app. change (length (bytes4 ip)) with 4%nat. lia. }
  by rewrite rd_ip_mid.
Qed.

(** * A whole response *)

(** The header, with one question, and the question. *)
Definition response (id b2 b3 an ns ar : Z) (ls : list (list Z)) (qtype : list Z) (rest : list Z) : list Z :=
  net16 id ++ [b2; b3] ++ net16 1 ++ net16 an ++ net16 ns ++ net16 ar ++ wire_labels ls ++ [0] ++ qtype ++ rest.

Lemma response_parse id b2 b3 an ns ar ls qtype rest : is_u16 id → is_u16 an → is_u16 ns → is_u16 ar → b3 &u 0x0F = 0 →
  Forall label_ok ls → length qtype = 4%nat →
  let msg := response id b2 b3 an ns ar ls qtype rest in
  let off := (12 + length (wire_labels ls ++ [0%Z]) + 4)%nat in
  parse_response msg id =
    bind_res (scan_rr_section_for_a msg off an) (λ '(r, off),
      match r with
      | Some ip => Ok ip
      | None => bind_res (scan_rr_section_for_a msg off ns) (λ '(r, off),
          match r with
          | Some ip => Ok ip
          | None => bind_res (scan_rr_section_for_a msg off ar) (λ '(r, _), match r with Some ip => Ok ip | None => Err end)
          end)
      end).
Proof.
  intros Hid Han Hns Har Hb Hls Hq msg off. unfold parse_response.
  assert (Lm : length msg = (off + length rest)%nat) by (unfold msg, response, off; rewrite !length_app, Hq; cbn [length net16]; lia).
  rewrite (proj2 (Z.ltb_ge _ _)) by (unfold off in *; lia).
  rewrite (get16_at msg 0 [] id _ Hid eq_refl eq_refl). cbn [bind_res]. rewrite Z.eqb_refl. cbn [negb].
  change (rd msg 3) with (@Ok Z b3). cbn [bind_res]. rewrite Hb. change (nz 0) with false. cbn iota.
  rewrite (get16_at msg 4 (net16 id ++ [b2; b3]) 1 (net16 an ++ net16 ns ++ net16 ar ++ wire_labels ls ++ [0] ++ qtype ++ rest)) by (done || lia).
  rewrite (get16_at msg 6 (net16 id ++ [b2; b3] ++ net16 1) an (net16 ns ++ net16 ar ++ wire_labels ls ++ [0] ++ qtype ++ rest)) by done.
  rewrite (get16_at msg 8 (net16 id ++ [b2; b3] ++ net16 1 ++ net16 an) ns (net16 ar ++ wire_labels ls ++ [0] ++ qtype ++ rest)) by done.
  rewrite (get16_at msg 10 (net16 id ++ [b2; b3] ++ net16 1 ++ net16 an ++ net16 ns) ar (wire_labels ls ++ [0] ++ qtype ++ rest)) by done.
  cbn [bind_res]. change (Z.to_nat 1) with 1%nat. cbn [skip_questions].
  rewrite (proj2 (Nat.ltb_lt _ _)) by (unfold off in *; lia).
  assert (skip_name msg 12 = Ok (12 + length (wire_labels ls ++ [0%Z]))%nat) as ->.
  { apply (skip_name_ok (net16 id ++ [b2; b3] ++ net16 1 ++ net16 an ++ net16 ns ++ net16 ar) ls [0] (qtype ++ rest)); [done|by left]. }
  cbn [bind_res]. rewrite (proj2 (Nat.ltb_ge _ _)) by (unfold off in *; lia). done.
Qed.

Lemma wire_name_labels ls : wire_name ls = wire_labels ls ++ [0].
Proof. done. Qed.
Lemma query_id_range p now : is_u16 (u16 (query_id p now)).
Proof. apply u16_range. Qed.
Lemma net16_id id : is_u16 id → [u8 (Z.shiftr id 8); u8 (id &u 0xFF)] = net16 id.
Proof.
  intros H. unfold net16. rewrite u8_shiftr by lia. rewrite (Z.mod_small (id / _)) by (Z.div_mod_to_equations; lia).
  change (id &u 0xFF) with (Z.land id (Z.ones 8)). rewrite Z.land_ones by lia. by rewrite u8_small by (apply Z.mod_pos_bound; lia).
Qed.
Lemma ask_reply k q sends r rest : Forall (λ x, x = 0) sends → r ≠ [] → (k < 3)%nat →
  ask 3 q sends (replicate k [] ++ r :: rest) = (replicate (S k) q, Some r).
Proof.
  intros Hs Hr Hk. assert (H0 : ∀ s, Forall (λ x, x = 0) s → default 0 (head s) = 0) by (intros s []; [done|by subst]).
  assert (Ht : ∀ s, Forall (λ x, x = 0) s → Forall (λ x, x = 0) (tail s)) by (intros s []; done).
  destruct r as [|b r]; [done|]. destruct k as [|[|[|k]]]; [| | |lia]; cbn [ask replicate app head tail]; rewrite ?H0 by auto; done.
Qed.

Lemma answer_found id b2 b3 an ns ar ls qtype before a ip after : is_u16 id → is_u16 ns → is_u16 ar → b3 &u 0x0F = 0 →
  Forall label_ok ls → length qtype = 4%nat → length before < an < 2 ^ 16 →
  Forall rr_ok before → Forall (λ r, is_addr r = false) before → rr_ok a → r_type a = 1 → r_data a = bytes4 ip → is_u32 ip →
  parse_response (response id b2 b3 an ns ar ls qtype (wire_rrs before ++ wire_rr a ++ after)) id = Ok ip.
Proof.
  intros Hid Hns Har Hb Hls Hqt Han Hbef Hna Ha Hty Hda Hip. rewrite (response_parse id b2 b3 an ns ar) by (done || lia).
  set (front := net16 id ++ [b2; b3] ++ net16 1 ++ net16 an ++ net16 ns ++ net16 ar ++ (wire_labels ls ++ [0]) ++ qtype).
  replace (response _ _ _ _ _ _ _ _ _) with (front ++ wire_rrs before ++ wire_rr a ++ after) by (unfold front, response; by rewrite <- !app_assoc).
  replace (12 + length (wire_labels ls ++ [0%Z]) + 4)%nat with (length front) by (unfold front; rewrite !length_app, Hqt; cbn [length net16]; lia).
  unfold scan_rr_section_for_a at 1. replace (Z.to_nat an) with (length before + S (Z.to_nat an - S (length before)))%nat by lia.
  by rewrite (scan_addr _ _ _ _ ip).
Qed.

(** C18: The resolver finds the address: for a host name of proper labels it sends the query of
    RFC 1035 (up to three times, while no reply comes), and for every reply with its
    identifier, no error, one question and, among the answers, any records that are not
    addresses (aliases, say) and then an address, it gives that address. *)
Theorem dns_resolves ls port now sends k id q b2 b3 ns ar an before a ip after qtype more :
  ls ≠ [] → Forall label_ok ls → length (wire_name ls) ≤ 496 → is_u16 port → port ≠ 0 → Forall (λ x, x = 0) sends → (k < 3)%nat →
  id = u16 (query_id port now) →
  q = MkQuery port (net16 id ++ [0x01; 0x00; 0x00; 0x01; 0x00; 0x00; 0x00; 0x00; 0x00; 0x00] ++ wire_name ls ++ [0; 1; 0; 1]) →
  is_u16 ns → is_u16 ar → b3 &u 0x0F = 0 → length qtype = 4%nat → length before < an < 2 ^ 16 →
  Forall rr_ok before → Forall (λ r, is_addr r = false) before → rr_ok a → r_type a = 1 → r_data a = bytes4 ip → is_u32 ip →
  net_dns_resolve (dotted ls) port now sends
    (replicate k [] ++ response id b2 b3 an ns ar ls qtype (wire_rrs before ++ wire_rr a ++ after) :: more) =
  (replicate (S k) q, Ok ip).
Proof.
  intros Hne Hls Hlen Hport Hp0 Hs Hk Hid Hq Hns Har Hb Hqt Han Hbef Hna Ha Hty Hda Hip.
  assert (Hidr : is_u16 id) by (rewrite Hid; apply query_id_range).
  assert (dotted ls ≠ []) as Hd. { destruct Hls as [|l ls [[Hl _] _] _]; [done|]. destruct l; [cbn in Hl; lia|]. by destruct ls. }
  unfold net_dns_resolve. rewrite (proj2 (Z.eqb_neq port 0)) by done. rewrite <- Hid.
  assert (build_query (dotted ls) id 512 = Some (q_data q)) as ->.
  { unfold build_query, net_dns_encode_qname. change (512 <? 12) with false. cbn iota. change (512 - 12 =? 0) with false. cbn iota.
    rewrite encode_dotted by (done || (cbn; lia)). cbn [app option_bind mbind].
    rewrite (proj2 (Z.ltb_ge _ _)) by lia. rewrite Hq. cbn [q_data]. rewrite <- net16_id by done. done. }
  assert (MkQuery port (q_data q) = q) as -> by (by rewrite Hq).
  rewrite ask_reply; [|done| |done].
  2:{ unfold response, net16. done. }
  destruct (dotted ls); [done|]. f_equal.
  pose proof (answer_found id b2 b3 an ns ar ls qtype before a ip after Hidr Hns Har Hb Hls Hqt Han Hbef Hna Ha Hty Hda Hip) as Hf.
  by destruct (response _ _ _ _ _ _ _ _ _).
Qed.

(** * Every message *)

Definition safe {A} (m : res A) (P : A → Prop) : Prop := match m with Fault => False | Err => True | Ok x => P x end.
Lemma safe_bind {A B} (m : res A) (k : A → res B) P Q : safe m P → (∀ x, P x → safe (k x) Q) → safe (bind_res m k) Q.
Proof. destruct m; cbn; auto. Qed.
Lemma safe_rd msg i : (i < length msg)%nat → safe (rd msg i) (λ _, True).
Proof. intros H. unfold rd. by destruct (lookup_lt_is_Some_2 msg i H) as [b ->]. Qed.
Lemma safe_get16 msg i : (i + 1 < length msg)%nat → safe (get16 msg i) (λ _, True).
Proof.
  intros H. unfold get16. eapply safe_bind; [apply safe_rd; lia|]. intros a _. eapply safe_bind; [apply safe_rd; lia|]. done.
Qed.
Lemma safe_skip fuel msg off : safe (skip_loop fuel msg off) (λ n, (off < n ≤ length msg)%nat).
Proof.
  revert off. induction fuel as [|k IH]; intros off; cbn [skip_loop]; [done|]. destruct (Nat.ltb_spec off (length msg)); [|done].
  eapply safe_bind; [by apply safe_rd|]. intros b _. destruct (b =? 0); [cbn; lia|]. destruct (_ =? _).
  { destruct (Nat.leb_spec (length msg) (off + 1)); [done|cbn; lia]. }
  destruct (63 <? b); [done|]. destruct (Nat.ltb_spec (length msg) (off + (1 + Z.to_nat b))); [done|].
  specialize (IH (off + (1 + Z.to_nat b))%nat). destruct (skip_loop _ _ _); cbn in *; [done|done|lia].
Qed.
Lemma safe_ip msg i : (i + 3 < length msg)%nat → safe (rd_ip msg i) (λ _, True).
Proof. intros H. unfold rd_ip. do 4 (eapply safe_bind; [apply safe_rd; lia|intros ? _]). done. Qed.
Lemma safe_scan count msg off0 off : safe (scan_rr count msg off0 off) (λ _, True).
Proof.
  revert off. induction count as [|k IH]; intros off; cbn [scan_rr]; [done|]. destruct (_ <? _)%nat; [|done].
  pose proof (safe_skip (length msg) msg off) as Hs. unfold skip_name. destruct (skip_loop _ _ _) as [| |n]; [done|done|].
  destruct (Nat.ltb_spec (length msg) (n + 10)); [done|]. do 2 (eapply safe_bind; [apply safe_get16; lia|intros ? _]).
  destruct (Nat.ltb_spec (length msg) (n + 10 + Z.to_nat x0)); [done|]. destruct (_ && (x0 =? 4)) eqn:E; [|apply IH].
  apply andb_prop in E as [_ E%Z.eqb_eq]. subst x0. eapply safe_bind; [apply safe_ip; lia|]. done.
Qed.
Lemma safe_questions count msg off : safe (skip_questions count msg off) (λ _, True).
Proof.
  revert off. induction count as [|k IH]; intros off; cbn [skip_questions]; [done|]. destruct (_ <? _)%nat; [|done].
  eapply safe_bind; [apply safe_skip|]. intros n _. destruct (_ <? _)%nat; [done|apply IH].
Qed.

(** C39: No message makes [parse_response] read outside it, whatever its lengths, pointers and
    counts say. *)
Theorem dns_parse_in_bounds msg id : parse_response msg id ≠ Fault.
Proof.
  assert (safe (parse_response msg id) (λ _, True)) as H; [|by intros E; rewrite E in H]. unfold parse_response.
  destruct (Z.ltb_spec (length msg) 12); [done|]. eapply safe_bind; [apply safe_get16; lia|]. intros x _. destruct (negb _); [done|].
  eapply safe_bind; [apply safe_rd; lia|]. intros b _. destruct (nz _); [done|].
  do 4 (eapply safe_bind; [apply safe_get16; lia|intros ? _]). eapply safe_bind; [apply safe_questions|]. intros off _.
  eapply safe_bind; [apply safe_scan|]. intros [[ip|] off1] _; [done|]. eapply safe_bind; [apply safe_scan|]. intros [[ip|] off2] _; [done|].
  eapply safe_bind; [apply safe_scan|]. by intros [[ip|] off3] _.
Qed.

(** The loop of [skip_name] ends by itself: more rounds than bytes change nothing. *)
Lemma skip_name_ends msg off k k' : (length msg - off < k)%nat → (length msg - off < k')%nat → skip_loop k msg off = skip_loop k' msg off.
Proof.
  revert off k'. induction k as [|k IH]; intros off [|k'] H H'; try lia. cbn [skip_loop]. destruct (Nat.ltb_spec off (length msg)); [|done].
  destruct (rd msg off) as [| |b]; [done|done|]. cbn [bind_res].
  destruct (b =? 0); [done|]. destruct (_ =? _); [done|]. destruct (63 <? b); [done|]. destruct (_ <? _)%nat; [done|]. apply IH; lia.
Qed.

(** * Two defects *)

(** A reply without an answer, with name servers ([before]) and the address of one of them
    as a hint: that address is taken for the address of the host, whatever name it has. *)
Lemma glue_taken id b2 b3 ls qtype before g ip after : is_u16 id → b3 &u 0x0F = 0 → Forall label_ok ls → length qtype = 4%nat →
  Forall rr_ok before → Forall (λ r, is_addr r = false) before → length before < 2 ^ 16 →
  rr_ok g → r_type g = 1 → r_data g = bytes4 ip → is_u32 ip →
  parse_response (response id b2 b3 0 (length before) 1 ls qtype (wire_rrs before ++ wire_rr g ++ after)) id = Ok ip.
Proof.
  intros Hid Hb Hls Hqt Hbef Hna Hlen Hg Hty Hda Hip. rewrite (response_parse id b2 b3 0 (length before) 1) by (done || lia).
  set (front := net16 id ++ [b2; b3] ++ net16 1 ++ net16 0 ++ net16 (length before) ++ net16 1 ++ (wire_labels ls ++ [0]) ++ qtype).
  replace (response _ _ _ _ _ _ _ _ _) with (front ++ wire_rrs before ++ wire_rr g ++ after) by (unfold front, response; by rewrite <- !app_assoc).
  replace (12 + length (wire_labels ls ++ [0%Z]) + 4)%nat with (length front) by (unfold front; rewrite !length_app, Hqt; cbn [length net16]; lia).
  change (scan_rr_section_for_a (front ++ wire_rrs before ++ wire_rr g ++ after) (length front) 0) with (@Ok (option Z * nat) (None, length front)).
  cbn [bind_res]. unfold scan_rr_section_for_a. rewrite Nat2Z.id. pose proof (scan_skip 0 front before (wire_rr g ++ after) (length front) Hbef Hna) as E.
  rewrite Nat.add_0_r in E. rewrite E. cbn [scan_rr bind_res]. rewrite <- length_app, (app_assoc front).
  pose proof (scan_addr 0 (front ++ wire_rrs before) [] g ip after (length (front ++ wire_rrs before)) (Forall_nil_2 _) (Forall_nil_2 _) Hg Hty Hda Hip) as E2.
  cbn [length Nat.add] in E2. change (wire_rrs []) with (@nil Z) in E2. cbn [app] in E2. change (Z.to_nat 1) with 1%nat. by rewrite E2.
Qed.

(** A name with its final dot is encoded with two terminators, so that the question ends a
    byte early. *)
Lemma final_dot_encoded_twice : net_dns_encode_qname [97; 46] 64 = Some [1; 97; 0; 0].
Proof. done. Qed.

(** * An example *)

(** [a.b] is an alias of another name, which has an address. *)
Definition ex_labels : list (list Z) := [[97]; [98]].
Definition ex_alias : rr := MkRr [] [0xC0; 12] 5 1 [0; 0; 1; 0] [1; 99; 0].
Definition ex_addr : rr := MkRr [[99]] [0] 1 1 [0; 0; 1; 0] (bytes4 0x0A000007).
Lemma ex_labels_ok : Forall label_ok ex_labels.
Proof. repeat (apply Forall_cons_2; [split; [cbn; lia|apply Forall_cons_2; [lia|apply Forall_nil_2]]|]). apply Forall_nil_2. Qed.

Lemma dns_resolves_witness : (net_dns_resolve (dotted ex_labels) 40000 1234 []
    (replicate 1 [] ++ [response (u16 (query_id 40000 1234)) 0x81 0x80 2 0 0 ex_labels [0; 1; 0; 1] (wire_rrs [ex_alias] ++ wire_rr ex_addr ++ [])])).2 = Ok 0x0A000007.
Proof.
  pose proof (dns_resolves ex_labels 40000 1234 [] 1 (u16 (query_id 40000 1234)) (MkQuery 40000 (net16 (u16 (query_id 40000 1234)) ++ [0x01; 0x00; 0x00; 0x01; 0x00; 0x00; 0x00; 0x00; 0x00; 0x00] ++ wire_name ex_labels ++ [0; 1; 0; 1])) 0x81 0x80 0 0 2 [ex_alias] ex_addr 0x0A000007 [] [0; 1; 0; 1] []) as H.
  rewrite H; [reflexivity|..].
  - done.
  - apply ex_labels_ok.
  - by vm_compute.
  - lia.
  - done.
  - apply Forall_nil_2.
  - lia.
  - reflexivity.
  - reflexivity.
  - lia.
  - lia.
  - reflexivity.
  - reflexivity.
  - cbn. lia.
  - apply Forall_cons_2; [|apply Forall_nil_2]. split; [apply Forall_nil_2|right; exists 0xC0, 12; split; [lia|done]|cbn; lia|done|cbn; lia].
  - apply Forall_cons_2; [done|apply Forall_nil_2].
  - split; [|by left|cbn; lia|done|cbn; lia]. apply Forall_cons_2; [|apply Forall_nil_2]. split; [cbn; lia|]. apply Forall_cons_2; [lia|apply Forall_nil_2].
  - reflexivity.
  - reflexivity.
  - lia.
Defined.
