(* ===== verification/Dhcp.v ===== *)
(** The DHCP client, [net/dhcp.c]. *)
From S2P Require Import Prelude NetBytes.

Module Dhcp.

Definition ETH_TYPE_IPV4 : Z := 0x0800.
Definition UDP_PORT_DHCP_SERVER : Z := 67.
Definition UDP_PORT_DHCP_CLIENT : Z := 68.

(** * Packets out *)

Definition ip_checksum_be (data : list Z) : Z := u16 (Z.lnot (fold_carries 3 (add_words 0 data)) &u 0xFFFF).
Definition udp_checksum_ipv4 (src_be dst_be : Z) (udp : list Z) : Z :=
  let sum := (Z.shiftr src_be 16 &u 0xFFFF) + (src_be &u 0xFFFF) + (Z.shiftr dst_be 16 &u 0xFFFF) + (dst_be &u 0xFFFF) + 17 + length udp in
  let c := u16 (Z.lnot (fold_carries 3 (add_words sum udp))) in
  if c =? 0 then 0xFFFF else c.

Definition put_be32 (v : Z) : list Z := [u8 (Z.shiftr v 24); u8 (Z.shiftr v 16); u8 (Z.shiftr v 8); u8 v].

(** The bytes of [pkt] up to [o]. *)
Definition dhcp_packet (mac : list Z) (msg_type xid req_ip_be server_id_be : Z) : list Z :=
  [1; 1; 6; 0] ++ put_be32 xid ++ [0; 0; 0x80; 0x00] ++ replicate 16 0 ++ mac ++ replicate 202 0 ++ [99; 130; 83; 99] ++
  [53; 1; msg_type; 61; 7; 1] ++ mac ++
  (if msg_type =? 1 then [55; 4; 1; 3; 6; 15]
   else if msg_type =? 3 then [50; 4] ++ put_be32 req_ip_be ++ [54; 4] ++ put_be32 server_id_be
   else []) ++ [255].

Definition dhcp_ip_header (ip_len ip_id c : Z) : list Z :=
  [0x45; 0] ++ st16 (be16 (u16 ip_len)) ++ st16 (be16 ip_id) ++ [0; 0; 64; 17; u8 (Z.shiftr c 8); u8 (c &u 0xFF)] ++ st32 0 ++ st32 0xFFFFFFFF.
Definition dhcp_udp (c : Z) (pkt : list Z) : list Z :=
  st16 (be16 UDP_PORT_DHCP_CLIENT) ++ st16 (be16 UDP_PORT_DHCP_SERVER) ++ st16 (be16 (u16 (8 + length pkt))) ++
  [u8 (Z.shiftr c 8); u8 (c &u 0xFF)] ++ pkt.
Definition dhcp_frame (mac pkt : list Z) (ip_id : Z) : list Z :=
  let ip_len := 20 + 8 + length pkt in
  replicate 6 0xFF ++ mac ++ st16 (be16 ETH_TYPE_IPV4) ++
  dhcp_ip_header ip_len ip_id (ip_checksum_be (dhcp_ip_header ip_len ip_id 0)) ++
  dhcp_udp (udp_checksum_ipv4 0 0xFFFFFFFF (dhcp_udp 0 pkt)) pkt.

(** The four attempts: how many were made, and the last answer of the driver. *)
Fixpoint send_tries (t : nat) (drv : list Z) (sr : Z) : nat * Z :=
  match t with
  | O => (O, sr)
  | S t => if sr <? 0 then let '(n, r) := send_tries t (tail drv) (default 0 (head drv)) in (S n, r) else (O, sr)
  end.
(** [mem] is whether [kmalloc] has memory, [drv] the answers of [e1000_send_frame]. The
    counter [g_ip_id] after, the frames handed to the driver and the result. *)
Definition dhcp_send_packet (mac : list Z) (msg_type xid req_ip_be server_id_be : Z) (g_ip_id : Z) (mem : bool) (drv : list Z) :
    Z * list (list Z) * Z :=
  if negb mem then (g_ip_id, [], -1)
  else
    let g_ip_id := u16 (g_ip_id + 1) in
    let '(n, sr) := send_tries 4 drv (-1) in
    (g_ip_id, replicate n (dhcp_frame mac (dhcp_packet mac msg_type xid req_ip_be server_id_be) g_ip_id), if sr <? 0 then -1 else 0).

(** * Packets in *)

(** The bytes of the first option with this code; every round takes a byte at least. *)
Fixpoint find_opt (fuel : nat) (opts : list Z) (code : Z) : option (list Z) :=
  match fuel, opts with
  | O, _ | _, [] => None
  | S k, c :: rest =>
      if c =? 0 then find_opt k rest code
      else if c =? 255 then None
      else
        match rest with
        | [] => None
        | l :: rest =>
            if Z.of_nat (length rest) <? l then None
            else if c =? code then Some (slice rest 0 l)
            else find_opt k (drop (Z.to_nat l) rest) code
        end
  end.
Definition dhcp_find_opt (opts : list Z) (code : Z) : option (list Z) := find_opt (length opts) opts code.

Definition dhcp_read_be32 (d : list Z) (i : Z) : Z :=
  Z.lor (Z.lor (Z.lor (u32 (Z.shiftl (byte d i) 24)) (Z.shiftl (byte d (i + 1)) 16)) (Z.shiftl (byte d (i + 2)) 8)) (byte d (i + 3)).

(** [(t && l == 1) ? t[0] : 0], [(o && l == 4) ? dhcp_read_be32(o) : 0] and the same with
    [l >= 4]. *)
Definition opt_byte (o : option (list Z)) : Z := match o with Some [b] => b | _ => 0 end.
Definition opt_ip (o : option (list Z)) : option Z := match o with Some [_; _; _; _] => (λ l, dhcp_read_be32 l 0) <$> o | _ => None end.
Definition opt_first_ip (o : option (list Z)) : option Z := match o with Some (_ :: _ :: _ :: _ :: _) => (λ l, dhcp_read_be32 l 0) <$> o | _ => None end.

Record offer := MkOffer { o_ip : Z; o_sid : Z; o_mask : Z; o_gw : Z; o_dns : Z }.

(** [d] is the memory from the BOOTP message on. *)
Definition dhcp_parse_offer (d : list Z) (opts_len xid : Z) : option offer :=
  let opts := slice d 240 opts_len in
  if negb (byte d 0 =? 2) then None
  else if negb (dhcp_read_be32 d 4 =? xid) then None
  else
    let msg_type := opt_byte (dhcp_find_opt opts 53) in
    if nz msg_type && negb (msg_type =? 2) then None
    else
      let yiaddr := dhcp_read_be32 d 16 in
      let ciaddr := dhcp_read_be32 d 12 in
      let siaddr := dhcp_read_be32 d 20 in
      let ip := if nz yiaddr then yiaddr else ciaddr in
      let ip := if nz ip then ip else default 0 (opt_ip (dhcp_find_opt opts 50)) in
      let srv := default siaddr (opt_ip (dhcp_find_opt opts 54)) in
      let mask := default 0 (opt_ip (dhcp_find_opt opts 1)) in
      let gw := default 0 (opt_first_ip (dhcp_find_opt opts 3)) in
      let dnsrv := default 0 (opt_first_ip (dhcp_find_opt opts 6)) in
      if negb (nz ip) then None else Some (MkOffer ip srv mask gw dnsrv).

(** [frame] is memory whose first [n] bytes are the frame. *)
Definition dhcp_l2_ipv4_offset (frame : list Z) (n : Z) : option (Z * Z) :=
  if n <? 14 then None
  else
    let type off := u16 (Z.lor (Z.shiftl (byte frame off) 8) (byte frame (off + 1))) in
    let et := type 12 in
    let off := if ((et =? 0x8100) || (et =? 0x88A8)) && (12 + 6 <=? n) then 12 + 4 else 12 in
    Some (off + 2, type off).

Definition has_cookie (d : list Z) : bool :=
  (byte d 236 =? 99) && (byte d 237 =? 130) && (byte d 238 =? 83) && (byte d 239 =? 99).

Definition dhcp_handle_rx_frame (frame : list Z) (n xid : Z) : option offer :=
  '(ip_off, eth_type) ← dhcp_l2_ipv4_offset frame n;
  if negb (eth_type =? 0x0800) then None
  else if n <? ip_off + 20 + 8 + 240 then None
  else
    let ihl := (byte frame ip_off &u 0x0F) * 4 in
    if negb (byte frame (ip_off + 9) =? 17) || (ihl <? 20) then None
    else if nz (be16 (ld16 frame (ip_off + 6)) &u 0x3FFF) then None
    else
      let udp := ip_off + ihl in
      let sport := be16 (ld16 frame udp) in
      let dport := be16 (ld16 frame (udp + 2)) in
      if negb (sport =? UDP_PORT_DHCP_SERVER) || negb (dport =? UDP_PORT_DHCP_CLIENT) then None
      else
        let ulen := be16 (ld16 frame (udp + 4)) in
        if (ulen <? 8 + 240) || (n <? ip_off + ihl + ulen) then None
        else
          let d := drop (Z.to_nat (udp + 8)) frame in
          if negb (has_cookie d) then None
          else
            let bootp_len := ulen - 8 in
            let opts_len := if 240 <? bootp_len then bootp_len - 240 else 0 in
            dhcp_parse_offer d opts_len xid.

Definition dhcp_try_ack_frame (frame : list Z) (n xid : Z) : Z :=
  match dhcp_l2_ipv4_offset frame n with
  | None => 0
  | Some (ip_off, eth_type) =>
      if negb (eth_type =? 0x0800) || (n <? ip_off + 20 + 8 + 240) then 0
      else
        let ihl := (byte frame ip_off &u 0x0F) * 4 in
        if negb (byte frame (ip_off + 9) =? 17) || (ihl <? 20) then 0
        else
          let udp := ip_off + ihl in
          if negb (be16 (ld16 frame udp) =? UDP_PORT_DHCP_SERVER) || negb (be16 (ld16 frame (udp + 2)) =? UDP_PORT_DHCP_CLIENT) then 0
          else
            let ulen := be16 (ld16 frame (udp + 4)) in
            if (ulen <? 8 + 240) || (n <? ip_off + ihl + ulen) then 0
            else
              let d := drop (Z.to_nat (udp + 8)) frame in
              if negb (has_cookie d) then 0
              else if negb (dhcp_read_be32 d 4 =? xid) then 0
              else
                let bootp_len := ulen - 8 in
                let opts_len := if 240 <? bootp_len then bootp_len - 240 else 0 in
                let msg_type := opt_byte (dhcp_find_opt (slice d 240 opts_len) 53) in
                let msg_type := if (msg_type =? 0) && (byte d 0 =? 2) then 5 else msg_type in
                if msg_type =? 5 then 1 else if msg_type =? 6 then -1 else 0
  end.

(** * What the receive path keeps for the client *)

Record cap := MkCap { cap_xid : Z; cap_kind : Z; cap_offer : offer }.
Definition no_offer : offer := MkOffer 0 0 0 0 0.
Definition dhcp_cap_reset (xid : Z) : cap := MkCap xid 0 no_offer.

Definition dhcp_observe_frame (c : cap) (frame : list Z) (n : Z) : cap :=
  if n <? 14 then c
  else
    let xid := cap_xid c in
    if xid =? 0 then c
    else
      match dhcp_handle_rx_frame frame n xid with
      | Some o =>
          if negb (cap_kind c =? 5) && negb (cap_kind c =? 6) then MkCap xid 2 o else c
      | None =>
          let ack := dhcp_try_ack_frame frame n xid in
          if ack =? 0 then c else MkCap xid (if ack =? 1 then 5 else 6) (cap_offer c)
      end.

(** * Acquiring a lease *)

(** A round of the loop of [dhcp_wait_kind]: the frames received before its test, and the
    time it reads. *)
Record round := MkRound { got : list (list Z); at_ms : Z }.
Definition observe_all (c : cap) (fs : list (list Z)) : cap := foldl (λ c f, dhcp_observe_frame c f (length f)) c fs.

(** [None] is that the loop still waits after the given rounds. *)
Fixpoint dhcp_wait_kind (want_offer : bool) (timeout_ms start : Z) (c : cap) (rounds : list round) : option (cap * Z) :=
  match rounds with
  | [] => None
  | r :: rounds =>
      let c := observe_all c (got r) in
      if want_offer && (cap_kind c =? 2) then Some (c, 1)
      else if negb want_offer && (cap_kind c =? 5) then Some (c, 1)
      else if negb want_offer && (cap_kind c =? 6) then Some (c, -1)
      else if timeout_ms <=? u64 (at_ms r - start) then Some (c, 0)
      else dhcp_wait_kind want_offer timeout_ms start c rounds
  end.

(** What one attempt meets: the ticks, memory and driver for the packet, the time the wait
    starts, and its rounds. *)
Record attempt := MkAttempt { a_ticks : Z; a_mem : bool; a_drv : list Z; a_start : Z; a_rounds : list round }.

Record lease := MkLease { l_ip : Z; l_mask : Z; l_gw : Z; l_dns : Z; l_server : Z }.

(** The static variables. *)
Record dhcp := MkDhcp { g_ip_id : Z; g_cap : cap; g_cached_lease : lease; g_cached_mac : list Z; g_cached_lease_valid : bool; out : list (list Z) }.
#[export] Instance eta_dhcp : Eta dhcp := λ s, MkDhcp (g_ip_id s) (g_cap s) (g_cached_lease s) (g_cached_mac s) (g_cached_lease_valid s) (out s).

Definition dhcp_invalidate_cache (s : dhcp) : dhcp :=
  s <| g_cached_lease_valid := false |> <| g_cached_lease := MkLease 0 0 0 0 0 |> <| g_cached_mac := replicate 6 0 |>.

Definition send (s : dhcp) (mac : list Z) (msg_type xid req sid : Z) (a : attempt) : dhcp * Z :=
  let '(id, fs, rc) := dhcp_send_packet mac msg_type xid req sid (g_ip_id s) (a_mem a) (a_drv a) in
  (s <| g_ip_id := id |> <| out := out s ++ fs |>, rc).

Definition first_xid (ticks : Z) (i : nat) : Z := u32 (Z.lxor (Z.lxor ticks 0xA5F0C31D) i).

(** DISCOVER to OFFER; [i] counts the attempts made. The last identifier and the offer. *)
Fixpoint discover (s : dhcp) (mac : list Z) (i : nat) (xid : Z) (tries : list attempt) (k : nat) : option (dhcp * Z * option offer) :=
  match k with
  | O => Some (s, xid, None)
  | S k =>
      match tries with
      | [] => None
      | a :: tries =>
          let xid := first_xid (a_ticks a) i in
          let s := s <| g_cap := dhcp_cap_reset xid |> in
          let '(s, rc) := send s mac 1 xid 0 0 a in
          if negb (rc =? 0) then discover s mac (S i) xid tries k
          else
            '(c, r) ← dhcp_wait_kind true 3000 (a_start a) (g_cap s) (a_rounds a);
            let s := s <| g_cap := c |> in
            if r =? 1 then Some (s, xid, Some (cap_offer c)) else discover s mac (S i) xid tries k
      end
  end.

(** REQUEST to ACK: 1, -1 for a NAK, 0 for no answer. *)
Fixpoint request (s : dhcp) (mac : list Z) (xid : Z) (o : offer) (tries : list attempt) (k : nat) : option (dhcp * Z) :=
  match k with
  | O => Some (s, 0)
  | S k =>
      match tries with
      | [] => None
      | a :: tries =>
          let s := s <| g_cap := MkCap xid 0 o |> in
          let '(s, rc) := send s mac 3 xid (o_ip o) (o_sid o) a in
          if negb (rc =? 0) then request s mac xid o tries k
          else
            '(c, r) ← dhcp_wait_kind false 3000 (a_start a) (g_cap s) (a_rounds a);
            let s := s <| g_cap := c |> in
            if r =? 1 then Some (s, 1)
            else if r <? 0 then Some (s, -1)
            else request s mac xid o tries k
      end
  end.

(** [disc] and [req] are what the attempts of the two phases meet.  The wait for the link
    before the first packet (at most [DHCP_LINK_WAIT_MS], nothing sent or kept) and the log
    lines are left out. *)
Definition dhcp_acquire (s : dhcp) (mac : list Z) (disc req : list attempt) : option (dhcp * option lease) :=
  '(s, xid, o) ← discover s mac 0 0 disc 6;
  match o with
  | None => Some (s <| g_cap := dhcp_cap_reset 0 |>, None)
  | Some o =>
      let server_id := if nz (o_sid o) then o_sid o else if nz (o_gw o) then o_gw o else o_ip o in
      let o := MkOffer (o_ip o) server_id (o_mask o) (o_gw o) (o_dns o) in
      '(s, r) ← request s mac xid o req 4;
      if r =? 1 then
        let l := MkLease (o_ip o) (if nz (o_mask o) then o_mask o else 0xFFFFFF00) (if nz (o_gw o) then o_gw o else server_id)
                   (if nz (o_dns o) then o_dns o else server_id) server_id in
        Some (s <| g_cached_lease := l |> <| g_cached_mac := mac |> <| g_cached_lease_valid := true |> <| g_cap := dhcp_cap_reset 0 |>, Some l)
      else Some (s <| g_cap := dhcp_cap_reset 0 |>, None)
  end.

End Dhcp.
