(* ===== verification/DhcpProps.v ===== *)
(** DHCP: what is read of a frame, where what the receive path keeps comes from, and the
    packets sent.  The theorems on leases are in [DhcpWire]. *)
From S2P Require Import Prelude NetBytes Dhcp.
Import Dhcp.

(** * Reads stay in the frame *)

Section agree.
(** Two memories with the same first [n] bytes. *)
Context (m m' : list Z) (n : Z).
Hypothesis Hm : n ≤ length m.
Hypothesis Hm' : n ≤ length m'.
Hypothesis E : take (Z.to_nat n) m = take (Z.to_nat n) m'.

Lemma byte_agree i : 0 ≤ i < n → byte m i = byte m' i.
Proof.
  intros Hi. unfold byte. rewrite <- (lookup_take_lt m (Z.to_nat n)), <- (lookup_take_lt m' (Z.to_nat n)) by lia. by rewrite E.
Qed.
Lemma ld16_agree i : 0 ≤ i → i + 1 < n → ld16 m i = ld16 m' i.
Proof. intros. unfold ld16. by rewrite !byte_agree by lia. Qed.
Lemma slice_agree i k : 0 ≤ i → 0 ≤ k → i + k ≤ n → slice m i k = slice m' i k.
Proof.
  intros. assert (∀ l, n ≤ length l → slice l i k = slice (take (Z.to_nat n) l) i k) as H'.
  { intros l Hl. unfold slice. rewrite skipn_firstn_comm, take_take. f_equal. lia. }
  rewrite (H' m), (H' m') by done. by rewrite E.
Qed.
Lemma drop_byte_agree j i : 0 ≤ j → 0 ≤ i → j + i < n → byte (drop (Z.to_nat j) m) i = byte (drop (Z.to_nat j) m') i.
Proof. intros. rewrite <- !byte_drop by lia. apply byte_agree. lia. Qed.
Lemma drop_slice_agree j i k : 0 ≤ j → 0 ≤ i → 0 ≤ k → j + i + k ≤ n → slice (drop (Z.to_nat j) m) i k = slice (drop (Z.to_nat j) m') i k.
Proof.
  intros. assert (∀ l : list Z, slice (drop (Z.to_nat j) l) i k = slice l (j + i) k) as H'.
  { intros l. unfold slice. rewrite drop_drop. do 2 f_equal. lia. }
  rewrite !H'. apply slice_agree; lia.
Qed.
Lemma read_agree j i : 0 ≤ j → 0 ≤ i → j + i + 3 < n → dhcp_read_be32 (drop (Z.to_nat j) m) i = dhcp_read_be32 (drop (Z.to_nat j) m') i.
Proof. intros. unfold dhcp_read_be32. by rewrite !drop_byte_agree by lia. Qed.

Lemma l2_agree : dhcp_l2_ipv4_offset m n = dhcp_l2_ipv4_offset m' n ∧
  ∀ o t, dhcp_l2_ipv4_offset m n = Some (o, t) → 14 ≤ o ≤ 18.
Proof.
  unfold dhcp_l2_ipv4_offset. destruct (Z.ltb_spec n 14); [done|]. rewrite !(byte_agree 12), !(byte_agree (12 + 1)) by lia.
  destruct (_ || _); cbn [andb].
  - destruct (Z.leb_spec (12 + 6) n); [rewrite !(byte_agree (12 + 4)), !(byte_agree (12 + 4 + 1)) by lia|rewrite !(byte_agree 12), !(byte_agree (12 + 1)) by lia]; (split; [done|]); intros o t [= <- _]; lia.
  - rewrite !(byte_agree 12), !(byte_agree (12 + 1)) by lia. split; [done|]. intros o t [= <- _]; lia.
Qed.
Lemma parse_agree j k xid : 0 ≤ j → 0 ≤ k → j + 240 + k ≤ n →
  dhcp_parse_offer (drop (Z.to_nat j) m) k xid = dhcp_parse_offer (drop (Z.to_nat j) m') k xid.
Proof. intros. unfold dhcp_parse_offer. by rewrite !drop_byte_agree, !drop_slice_agree, !read_agree by lia. Qed.

Lemma ihl_range x : 0 ≤ (x &u 0x0F) * 4 ≤ 60.
Proof. change (x &u 0x0F) with (Z.land x (Z.ones 4)). rewrite Z.land_ones by lia. pose proof (Z.mod_pos_bound x (2 ^ 4)). lia. Qed.
Lemma cookie_agree j : 0 ≤ j → j + 240 ≤ n → has_cookie (drop (Z.to_nat j) m) = has_cookie (drop (Z.to_nat j) m').
Proof. intros. unfold has_cookie. by rewrite !drop_byte_agree by lia. Qed.

Lemma handle_agree xid : dhcp_handle_rx_frame m n xid = dhcp_handle_rx_frame m' n xid.
Proof.
  unfold dhcp_handle_rx_frame. destruct l2_agree as [E1 Ho]. rewrite <- E1. destruct (dhcp_l2_ipv4_offset m n) as [[o t]|]; [|done].
  cbn [mbind option_bind]. specialize (Ho o t eq_refl). destruct (negb (t =? 0x0800)); [done|]. destruct (Z.ltb_spec n (o + 20 + 8 + 240)); [done|].
  rewrite !(byte_agree o), !(byte_agree (o + 9)), !(ld16_agree (o + 6)) by lia. pose proof (ihl_range (byte m' o)) as Hi. set (ihl := (byte m' o &u 0x0F) * 4) in *. clearbody ihl.
  destruct (_ || _); [done|]. destruct (nz _); [done|]. rewrite !(ld16_agree (o + ihl)), !(ld16_agree (o + ihl + 2)), !(ld16_agree (o + ihl + 4)) by lia.
  destruct (_ || _); [done|]. set (ulen := be16 (ld16 m' (o + ihl + 4))).
  destruct (Z.ltb_spec ulen (8 + 240)); [done|]. destruct (Z.ltb_spec n (o + ihl + ulen)); [done|]. cbn [orb].
  rewrite cookie_agree by lia. destruct (negb _); [done|]. destruct (Z.ltb_spec 240 (ulen - 8)); apply parse_agree; lia.
Qed.
Lemma ack_agree xid : dhcp_try_ack_frame m n xid = dhcp_try_ack_frame m' n xid.
Proof.
  unfold dhcp_try_ack_frame. destruct l2_agree as [E1 Ho]. rewrite <- E1. destruct (dhcp_l2_ipv4_offset m n) as [[o t]|]; [|done].
  specialize (Ho o t eq_refl). destruct (negb (t =? 0x0800)); [done|]. cbn [orb]. destruct (Z.ltb_spec n (o + 20 + 8 + 240)); [done|].
  rewrite !(byte_agree o), !(byte_agree (o + 9)) by lia. pose proof (ihl_range (byte m' o)) as Hi. set (ihl := (byte m' o &u 0x0F) * 4) in *. clearbody ihl.
  destruct (_ || _); [done|]. rewrite !(ld16_agree (o + ihl)), !(ld16_agree (o + ihl + 2)), !(ld16_agree (o + ihl + 4)) by lia.
  destruct (_ || _); [done|]. set (ulen := be16 (ld16 m' (o + ihl + 4))).
  destruct (Z.ltb_spec ulen (8 + 240)); [done|]. destruct (Z.ltb_spec n (o + ihl + ulen)); [done|]. cbn [orb].
  rewrite cookie_agree by lia. destruct (negb _); [done|]. rewrite read_agree by lia. destruct (negb _); [done|].
  destruct (Z.ltb_spec 240 (ulen - 8)); by rewrite drop_slice_agree, drop_byte_agree by lia.
Qed.
End agree.

(** The DHCP client looks at the [n] bytes of a frame only: what [dhcp_observe_frame] does
    is the same for every memory that starts with them, whatever header lengths, UDP
    length and options the frame claims. *)
Theorem dhcp_reads_in_frame c m m' n xid : n ≤ length m → n ≤ length m' → take (Z.to_nat n) m = take (Z.to_nat n) m' →
  dhcp_observe_frame c m n = dhcp_observe_frame c m' n ∧ dhcp_handle_rx_frame m n xid = dhcp_handle_rx_frame m' n xid ∧
  dhcp_try_ack_frame m n xid = dhcp_try_ack_frame m' n xid.
Proof.
  intros H1 H2 E. split; [|split; [by apply handle_agree|by apply ack_agree]]. unfold dhcp_observe_frame.
  by rewrite (handle_agree m m' n H1 H2 E), (ack_agree m m' n H1 H2 E).
Qed.

(** * A lease has an offer and an acknowledgement behind it *)

Abbreviation offers f xid := (dhcp_handle_rx_frame f (length f) xid).
Abbreviation acks f xid := (dhcp_try_ack_frame f (length f) xid).

(** What the receive path keeps comes from the frames [fs]. *)
Record from_frames (xid : Z) (fs : list (list Z)) (c : cap) : Prop := {
  f_xid : cap_xid c = xid;
  f_offer : cap_kind c = 2 → ∃ f, f ∈ fs ∧ offers f xid = Some (cap_offer c);
  f_ack : cap_kind c = 5 → ∃ f, f ∈ fs ∧ acks f xid = 1
}.
Lemma observe_from xid fs c f : from_frames xid fs c → from_frames xid (fs ++ [f]) (dhcp_observe_frame c f (length f)).
Proof.
  intros [H1 H2 H3]. assert (Hold : from_frames xid (fs ++ [f]) c).
  { split; [done| |]; intros K; [destruct (H2 K) as (g & ? & ?)|destruct (H3 K) as (g & ? & ?)]; exists g; set_solver. }
  unfold dhcp_observe_frame. destruct (_ <? 14); [done|]. rewrite H1. destruct (xid =? 0); [done|]. destruct (offers f xid) as [o|] eqn:Eo.
  - destruct (_ && _); [|done]. split; [done| |done]. intros _. exists f. set_solver.
  - destruct (Z.eqb_spec (acks f xid) 0); [done|]. destruct (Z.eqb_spec (acks f xid) 1); split; try done. intros _. exists f. set_solver.
Qed.
Lemma observe_all_from xid fs c gs : from_frames xid fs c → from_frames xid (fs ++ gs) (observe_all c gs).
Proof.
  revert fs c. induction gs as [|g gs IH]; intros fs c H; [by rewrite app_nil_r|]. cbn [observe_all foldl].
  replace (fs ++ g :: gs) with ((fs ++ [g]) ++ gs) by (by rewrite <- app_assoc). by apply IH, observe_from.
Qed.
Lemma from_mono xid fs fs' c : fs ⊆ fs' → from_frames xid fs c → from_frames xid fs' c.
Proof. intros Hs [H1 H2 H3]. split; [done| |]; intros K; [destruct (H2 K) as (g & ? & ?)|destruct (H3 K) as (g & ? & ?)]; exists g; set_solver. Qed.

Definition frames_of (rs : list round) : list (list Z) := rs ≫= got.
Lemma wait_from want t st c rs c' r xid fs : dhcp_wait_kind want t st c rs = Some (c', r) → from_frames xid fs c →
  from_frames xid (fs ++ frames_of rs) c' ∧ (r = 1 → cap_kind c' = if want then 2 else 5).
Proof.
  revert c fs. induction rs as [|x rs IH]; intros c fs E H; cbn [dhcp_wait_kind] in E; [done|]. revert E.
  pose proof (observe_all_from xid fs c (got x) H) as H1. set (c1 := observe_all c (got x)) in *.
  assert (H2 : from_frames xid (fs ++ frames_of (x :: rs)) c1) by (eapply from_mono; [|exact H1]; unfold frames_of; cbn; set_solver).
  change (frames_of (x :: rs)) with (got x ++ frames_of rs) in *. destruct want; cbn [andb negb].
  - destruct (Z.eqb_spec (cap_kind c1) 2); [by intros [= <- <-]|]. destruct (_ <=? _); [by intros [= <- <-]|].
    intros E. rewrite app_assoc. by apply (IH c1).
  - destruct (Z.eqb_spec (cap_kind c1) 5); [by intros [= <- <-]|]. destruct (_ =? 6); [by intros [= <- <-]|]. destruct (_ <=? _); [by intros [= <- <-]|].
    intros E. rewrite app_assoc. by apply (IH c1).
Qed.

Lemma discover_from s mac i xid tries k s' xid' o : discover s mac i xid tries k = Some (s', xid', Some o) →
  ∃ n a f, (n < k)%nat ∧ tries !! n = Some a ∧ xid' = first_xid (a_ticks a) (i + n) ∧ f ∈ frames_of (a_rounds a) ∧ offers f xid' = Some o.
Proof.
  revert s i xid tries. induction k as [|k IH]; intros s i xid tries; destruct tries as [|a tries]; cbn [discover]; try done.
  assert (Hrec : ∀ s, discover s mac (S i) (first_xid (a_ticks a) i) tries k = Some (s', xid', Some o) →
    ∃ n a' f, (n < S k)%nat ∧ (a :: tries) !! n = Some a' ∧ xid' = first_xid (a_ticks a') (i + n) ∧ f ∈ frames_of (a_rounds a') ∧ offers f xid' = Some o).
  { intros s0 (n & a' & f & ? & ? & E & ?)%IH. exists (S n), a', f. rewrite Nat.add_succ_r. split; [lia|done]. }
  unfold send. destruct (dhcp_send_packet _ _ _ _ _ _ _ _) as [[id fs] rc]. destruct (negb _); [apply Hrec|].
  intros ([c r] & Ew & E2)%bind_Some. destruct (wait_from _ _ _ _ _ _ _ (first_xid (a_ticks a) i) [] Ew) as [Hc Hr]; [by split|].
  destruct (Z.eqb_spec r 1) as [->|]; [|by apply (Hrec _ E2)]. injection E2 as _ <- <-. destruct (f_offer _ _ _ Hc (Hr eq_refl)) as (f & Hf & Eo).
  exists 0%nat, a, f. rewrite Nat.add_0_r. split_and!; [lia|done|done|done|done].
Qed.
Lemma request_from s mac xid o tries k s' : request s mac xid o tries k = Some (s', 1) →
  ∃ a f, a ∈ tries ∧ f ∈ frames_of (a_rounds a) ∧ acks f xid = 1.
Proof.
  revert s tries. induction k as [|k IH]; intros s tries; destruct tries as [|a tries]; cbn [request]; try done.
  assert (Hrec : ∀ s, request s mac xid o tries k = Some (s', 1) → ∃ a' f, a' ∈ a :: tries ∧ f ∈ frames_of (a_rounds a') ∧ acks f xid = 1).
  { intros s0 (a' & f & ? & ?)%IH. exists a', f. set_solver. }
  unfold send. destruct (dhcp_send_packet _ _ _ _ _ _ _ _) as [[id fs] rc]. destruct (negb _); [apply Hrec|].
  intros ([c r] & Ew & E2)%bind_Some. destruct (wait_from _ _ _ _ _ _ _ xid [] Ew) as [Hc Hr]; [by split|].
  destruct (Z.eqb_spec r 1) as [->|]; [|destruct (r <? 0); [by injection E2|by apply (Hrec _ E2)]].
  destruct (f_ack _ _ _ Hc (Hr eq_refl)) as (f & Hf & Eo). exists a, f. split_and!; [by left|done|done].
Qed.

(** The lease for an offer. *)
Definition lease_of (o : offer) : lease :=
  let sid := if nz (o_sid o) then o_sid o else if nz (o_gw o) then o_gw o else o_ip o in
  MkLease (o_ip o) (if nz (o_mask o) then o_mask o else 0xFFFFFF00) (if nz (o_gw o) then o_gw o else sid) (if nz (o_dns o) then o_dns o else sid) sid.

(** * A server that answers *)

Lemma put_be32_bytes v : is_u32 v → put_be32 v = bytes4 v.
Proof.
  intros H. unfold put_be32, bytes4. rewrite !u8_shiftr by lia. rewrite (Z.mod_small (v / 2 ^ 24)) by (Z.div_mod_to_equations; lia). done.
Qed.
Lemma read_bytes4 v : is_u32 v → dhcp_read_be32 (bytes4 v) 0 = v.
Proof.
  intros H. unfold dhcp_read_be32, bytes4. etransitivity; [apply (lor4 (v / 2 ^ 24) ((v / 2 ^ 16) `mod` 2 ^ 8) ((v / 2 ^ 8) `mod` 2 ^ 8) (v `mod` 2 ^ 8)); [Z.div_mod_to_equations; lia|apply Z.mod_pos_bound; lia..]|].
  Z.div_mod_to_equations; lia.
Qed.
Lemma read_at l pre v post i : is_u32 v → l = pre ++ bytes4 v ++ post → i = Z.of_nat (length pre) → dhcp_read_be32 l i = v.
Proof.
  intros Hv -> ->. assert (W : ∀ k, 0 ≤ k < 4 → byte (pre ++ bytes4 v ++ post) (length pre + k) = byte (bytes4 v) k).
  { intros k Hk. rewrite byte_app_r, byte_app_l by (cbn; lia). f_equal. lia. }
  rewrite <- (read_bytes4 v Hv) at 2. unfold dhcp_read_be32. rewrite <- (Z.add_0_r (length pre)) at 1. by rewrite !W by lia.
Qed.

(** Options as a server writes them, each its code, its length and its bytes. *)
Definition tlv (o : Z * list Z) : list Z := o.1 :: Z.of_nat (length o.2) :: o.2.
Definition tlv_ok (o : Z * list Z) : Prop := o.1 ≠ 0 ∧ o.1 ≠ 255.
Fixpoint option_of (os : list (Z * list Z)) (code : Z) : option (list Z) :=
  match os with [] => None | o :: os => if o.1 =? code then Some o.2 else option_of os code end.

Lemma find_opt_tlvs os code (pad : list Z) k : Forall tlv_ok os → (length ((os ≫= tlv) ++ 255%Z :: pad) ≤ k)%nat →
  find_opt k ((os ≫= tlv) ++ 255 :: pad) code = option_of os code.
Proof.
  intros H. revert k. induction H as [|[c d] os [H1 H2] H IH]; intros k Hk.
  - destruct k; [done|]. done.
  - change (((c, d) :: os) ≫= tlv) with ((c :: Z.of_nat (length d) :: d) ++ (os ≫= tlv)) in *. rewrite <- app_assoc in *. cbn [fst snd option_of] in *. cbn [app length] in Hk. destruct k as [|k]; [lia|].
    cbn [app find_opt]. destruct (Z.eqb_spec c 0); [done|]. destruct (Z.eqb_spec c 255); [done|].
    rewrite (proj2 (Z.ltb_ge _ _)) by (rewrite length_app; lia). rewrite Nat2Z.id, drop_app_length.
    destruct (Z.eqb_spec c code).
    + f_equal. unfold slice. by rewrite Nat2Z.id, drop_0, take_app_length.
    + apply IH. rewrite length_app in Hk. lia.
Qed.

(** The BOOTP message of a server, and a frame with it: [eth] is two MAC addresses, [a], [df],
    [ttl] and [b] the fields of the IP header the client does not look at, [ck] the UDP
    checksum and [trail] what follows on the wire. *)
Definition server_msg (xid ci yi si : Z) (mid rest : list Z) (os : list (Z * list Z)) (pad : list Z) : list Z :=
  ([2; 1; 6; 0] ++ bytes4 xid ++ mid ++ bytes4 ci ++ bytes4 yi ++ bytes4 si) ++ rest ++ [99; 130; 83; 99] ++ (os ≫= tlv) ++ 255 :: pad.
Definition server_frame (eth a : list Z) (df ttl : Z) (b ck d trail : list Z) : list Z :=
  eth ++ [8; 0; 0x45] ++ a ++ [df; 0; ttl; 17] ++ b ++ [0; 67; 0; 68] ++ [(8 + length d) / 2 ^ 8; (8 + length d) `mod` 2 ^ 8] ++ ck ++ d ++ trail.
Record frame_ok (eth a : list Z) (df : Z) (b ck d : list Z) : Prop := {
  k_eth : length eth = 12%nat; k_a : length a = 5%nat; k_df : df = 0 ∨ df = 0x40; k_b : length b = 10%nat; k_ck : length ck = 2%nat;
  k_d : 240 ≤ length d < 2 ^ 16 - 8
}.

Lemma list_inv {A} (l : list A) n : length l = S n → ∃ x l', l = x :: l' ∧ length l' = n.
Proof. destruct l as [|x l']; intros [=]. by exists x, l'. Qed.
Ltac split_list l := let x := fresh "x" in
  match goal with
  | H : length l = S _ |- _ => apply list_inv in H as (x & ? & -> & ?)
  | H : length l = O |- _ => apply nil_length_inv in H as ->
  end.
Ltac split_lists := repeat match goal with H : length ?l = _ |- _ => is_var l; split_list l end.

(** The client finds the message of a server's frame. *)
Lemma server_reads eth a df ttl b ck d trail xid : frame_ok eth a df b ck d → let f := server_frame eth a df ttl b ck d trail in
  offers f xid = (if negb (has_cookie (d ++ trail)) then None else dhcp_parse_offer (d ++ trail) (length d - 240) xid) ∧
  acks f xid = (if negb (has_cookie (d ++ trail)) then 0 else if negb (dhcp_read_be32 (d ++ trail) 4 =? xid) then 0 else
    let t := opt_byte (dhcp_find_opt (slice (d ++ trail) 240 (length d - 240)) 53) in
    let t := if (t =? 0) && (byte (d ++ trail) 0 =? 2) then 5 else t in if t =? 5 then 1 else if t =? 6 then -1 else 0).
Proof.
  intros [H1 H2 H3 H4 H5 H6] f. assert (Lf : Z.of_nat (length f) = 42 + length d + length trail).
  { unfold f, server_frame. rewrite !length_app, H1, H2, H4, H5. cbn [length]. lia. }
  destruct (u16_bytes (8 + length d)) as (U1 & U2 & U3); [lia|].
  assert (F : byte f 12 = 8 ∧ byte f 13 = 0 ∧ byte f 14 = 0x45 ∧ ld16 f 20 = df ∧ byte f 23 = 17 ∧ ld16 f 34 = 0x4300 ∧ ld16 f 36 = 0x4400 ∧
    be16 (ld16 f 38) = 8 + length d ∧ drop 42 f = d ++ trail).
  { rewrite <- U3. rewrite <- (be16_ld16 _ _ U1 U2). unfold f, server_frame. split_lists. repeat split. by destruct H3 as [-> | ->]. }
  destruct F as (F1 & F2 & F3 & F4 & F5 & F6 & F7 & F8 & F9). clearbody f. unfold dhcp_handle_rx_frame, dhcp_try_ack_frame.
  assert (E2 : dhcp_l2_ipv4_offset f (length f) = Some (14, 0x0800)).
  { assert (et : u16 (Z.lor (Z.shiftl (byte f 12) 8) (byte f (12 + 1))) = 0x0800) by (change (12 + 1) with 13; by rewrite F1, F2).
    unfold dhcp_l2_ipv4_offset. rewrite (proj2 (Z.ltb_ge _ 14)), et by lia. cbn [Z.eqb Pos.eqb orb andb]. by rewrite et. }
  rewrite E2. cbn [mbind option_bind]. change (14 + 6) with 20. change (14 + 9) with 23. rewrite F3, F4, F5. change (14 + (0x45 &u 0x0F) * 4) with 34.
  change (34 + 2) with 36. change (34 + 4) with 38. change (Z.to_nat (34 + 8)) with 42%nat. rewrite F6, F7, F8, F9, Lf.
  assert (Hdf : nz (be16 df &u 0x3FFF) = false) by (by destruct H3 as [-> | ->]). rewrite Hdf.
  rewrite !(proj2 (Z.ltb_ge _ (_ + _ + _ + 240))) by lia. rewrite !(proj2 (Z.ltb_ge (8 + _) (8 + 240))) by lia. rewrite !(proj2 (Z.ltb_ge _ (34 + _))) by lia.
  assert (El : (if 240 <? 8 + length d - 8 then 8 + length d - 8 - 240 else 0) = length d - 240) by (destruct (Z.ltb_spec 240 (8 + length d - 8)); lia).
  rewrite El. done.
Qed.

Section message.
Context (xid ci yi si : Z) (mid rest : list Z) (os : list (Z * list Z)) (pad trail : list Z).
Hypothesis Hx : is_u32 xid.
Hypothesis Hc : is_u32 ci.
Hypothesis Hy : is_u32 yi.
Hypothesis Hs : is_u32 si.
Hypothesis Hmid : length mid = 4%nat.
Hypothesis Hrest : length rest = 212%nat.
Hypothesis Hos : Forall tlv_ok os.
Abbreviation d := (server_msg xid ci yi si mid rest os pad).

Lemma msg_length : Z.of_nat (length d) = 240 + length ((os ≫= tlv) ++ 255%Z :: pad).
Proof. unfold server_msg. rewrite !(length_app (_ ++ _)), !length_app, Hmid, Hrest. cbn [length bytes4]. lia. Qed.
Lemma msg_reads : byte (d ++ trail) 0 = 2 ∧ dhcp_read_be32 (d ++ trail) 4 = xid ∧ dhcp_read_be32 (d ++ trail) 12 = ci ∧
  dhcp_read_be32 (d ++ trail) 16 = yi ∧ dhcp_read_be32 (d ++ trail) 20 = si.
Proof.
  unfold server_msg. rewrite <- !app_assoc. set (tl := rest ++ _). clearbody tl. clear Hrest. revert Hmid. generalize mid. intros m Lm. destruct m as [|x [|x0 [|x1 [|x2 [|? ?]]]]]; try discriminate Lm. split_and!; [done| | | |].
  - by eapply (read_at _ [2; 1; 6; 0]).
  - by apply (read_at _ ([2; 1; 6; 0] ++ bytes4 xid ++ [x; x0; x1; x2]) ci (bytes4 yi ++ bytes4 si ++ tl)).
  - by apply (read_at _ ([2; 1; 6; 0] ++ bytes4 xid ++ [x; x0; x1; x2] ++ bytes4 ci) yi (bytes4 si ++ tl)).
  - by apply (read_at _ ([2; 1; 6; 0] ++ bytes4 xid ++ [x; x0; x1; x2] ++ bytes4 ci ++ bytes4 yi) si tl).
Qed.
Lemma msg_drop : drop 236 (d ++ trail) = [99; 130; 83; 99] ++ ((os ≫= tlv) ++ 255 :: pad) ++ trail.
Proof.
  unfold server_msg. rewrite <- !(app_assoc _ _ trail). rewrite (app_assoc _ rest). apply drop_app_length'.
  rewrite !length_app, Hmid, Hrest. done.
Qed.
Lemma msg_cookie : has_cookie (d ++ trail) = true.
Proof.
  unfold has_cookie. change 237 with (236 + 1). change 238 with (236 + 2). change 239 with (236 + 3). change (byte (d ++ trail) 236) with (byte (d ++ trail) (236 + 0)).
  rewrite !byte_drop by lia. change (Z.to_nat 236) with 236%nat. by rewrite msg_drop.
Qed.
Lemma msg_option code : dhcp_find_opt (slice (d ++ trail) 240 (length d - 240)) code = option_of os code.
Proof.
  replace (slice _ _ _) with ((os ≫= tlv) ++ 255 :: pad); [by apply find_opt_tlvs|]. unfold slice. change (Z.to_nat 240) with (236 + 4)%nat.
  rewrite <- drop_drop, msg_drop, msg_length. cbn [drop app]. symmetry. apply take_app_length'. lia.
Qed.

End message.

(** * Observing frames *)

Lemma observe_app c fs gs : observe_all c (fs ++ gs) = observe_all (observe_all c fs) gs.
Proof. unfold observe_all. apply foldl_app. Qed.
Lemma observe_noise xid k o fs : Forall (λ f, offers f xid = None ∧ acks f xid = 0) fs → observe_all (MkCap xid k o) fs = MkCap xid k o.
Proof.
  intros H. induction H as [|f fs [H1 H2] H IH]; [done|]. cbn [observe_all foldl]. unfold dhcp_observe_frame at 2. cbn [cap_xid]. rewrite H1, H2.
  destruct (_ <? 14), (xid =? 0); apply IH.
Qed.
Lemma frame_long f xid : offers f xid ≠ None ∨ acks f xid ≠ 0 → 14 ≤ length f.
Proof.
  intros H. destruct (Z.le_gt_cases 14 (length f)); [done|]. exfalso. unfold dhcp_handle_rx_frame, dhcp_try_ack_frame, dhcp_l2_ipv4_offset in H.
  rewrite (proj2 (Z.ltb_lt _ _)) in H by lia. cbn in H. tauto.
Qed.
Lemma observe_offer xid o o' f : xid ≠ 0 → offers f xid = Some o → observe_all (MkCap xid 0 o') [f] = MkCap xid 2 o.
Proof.
  intros Hx H. cbn [observe_all foldl]. unfold dhcp_observe_frame. rewrite (proj2 (Z.ltb_ge _ 14)) by (apply (frame_long f xid); rewrite H; by left).
  cbn [cap_xid]. rewrite (proj2 (Z.eqb_neq xid 0)) by done. by rewrite H.
Qed.
Lemma observe_ack xid k o f : xid ≠ 0 → offers f xid = None → acks f xid = 1 → observe_all (MkCap xid k o) [f] = MkCap xid 5 o.
Proof.
  intros Hx H1 H2. cbn [observe_all foldl]. unfold dhcp_observe_frame. rewrite (proj2 (Z.ltb_ge _ 14)) by (apply (frame_long f xid); rewrite H2; by right).
  cbn [cap_xid]. rewrite (proj2 (Z.eqb_neq xid 0)) by done. by rewrite H1, H2.
Qed.

(** A server's reply with identifier [xid], address [yi] and options [os], in a frame. *)
Definition reply (f : list Z) (xid yi : Z) (os : list (Z * list Z)) : Prop :=
  ∃ eth a df ttl b ck ci si mid rest pad trail, frame_ok eth a df b ck (server_msg xid ci yi si mid rest os pad) ∧
    is_u32 ci ∧ is_u32 yi ∧ is_u32 si ∧ length mid = 4%nat ∧ length rest = 212%nat ∧ Forall tlv_ok os ∧
    f = server_frame eth a df ttl b ck (server_msg xid ci yi si mid rest os pad) trail.
Lemma first_xid_range t i : is_u32 (first_xid t i).
Proof. apply u32_range. Qed.
(** A reply that gives an address but has no message type is taken for an offer also where
    an acknowledgement is awaited. *)
Lemma untyped_reply_never_acks f xid yi os k o : is_u32 xid → xid ≠ 0 → reply f xid yi os → yi ≠ 0 → option_of os 53 = None → k ≠ 5 →
  acks f xid = 1 ∧ cap_kind (dhcp_observe_frame (MkCap xid k o) f (length f)) ≠ 5.
Proof.
  intros Hx Hn (eth&a&df&ttl&b&ck&ci&si&mid&rest&pad&trail&K&?&?&?&?&?&?&->) Hy Ho Hk.
  destruct (server_reads eth a df ttl b ck _ trail xid K) as [E1 E2]. rewrite msg_cookie in E1, E2 by done. cbn [negb] in E1, E2.
  destruct (msg_reads xid ci yi si mid rest os pad trail) as (R0 & R4 & R12 & R16 & R20); try done.
  rewrite msg_option, R0, R4, Ho, (Z.eqb_refl xid) in E2 by done. unfold dhcp_parse_offer in E1. rewrite !msg_option, R0, R4, R12, R16, R20, Ho, (Z.eqb_refl xid) in E1 by done.
  split; [exact E2|]. pose proof (proj2 (nz_true yi) Hy) as N. cbv zeta in E1. rewrite N in E1. cbv iota in E1. rewrite N in E1. cbv iota in E1. rewrite N in E1.
  unfold dhcp_observe_frame. destruct (_ <? 14); [done|]. cbn [cap_xid]. rewrite (proj2 (Z.eqb_neq xid 0)) by done. rewrite E1. by destruct (negb (cap_kind _ =? 5) && _).
Qed.

(** * What the client sends *)

Lemma hi_byte c : is_u16 c → u8 (Z.shiftr c 8) = c / 2 ^ 8.
Proof. intros. rewrite u8_shiftr by lia. apply Z.mod_small. Z.div_mod_to_equations; lia. Qed.
Lemma lo_byte c : is_u16 c → u8 (c &u 0xFF) = c `mod` 2 ^ 8.
Proof. intros. change (c &u 0xFF) with (Z.land c (Z.ones 8)). rewrite Z.land_ones by lia. apply Z.mod_mod. lia. Qed.
Lemma udp_bytes c pkt : is_u16 c → 8 + length pkt < 2 ^ 16 →
  dhcp_udp c pkt = [0; 68; 0; 67; (8 + length pkt) / 2 ^ 8; (8 + length pkt) `mod` 2 ^ 8] ++ [c / 2 ^ 8; c `mod` 2 ^ 8] ++ pkt.
Proof. intros Hc Hl. unfold dhcp_udp. rewrite hi_byte, lo_byte, (u16_small (8 + _)), (st16_be16 (8 + _)) by lia. done. Qed.

Lemma udp_verifies pkt : bytes pkt → length pkt < 2 ^ 14 →
  let c := udp_checksum_ipv4 0 0xFFFFFFFF (dhcp_udp 0 pkt) in
  is_u16 c ∧ fold_carries 3 (0xFFFF + 0xFFFF + 17 + (8 + length pkt) + word_sum (dhcp_udp c pkt)) = 0xFFFF.
Proof.
  intros B Hl. pose proof (word_sum_bound pkt B). destruct (u16_bytes (8 + length pkt)) as (U1 & U2 & U3); [lia|].
  set (s := 0xFFFF + 0xFFFF + 17 + (8 + length pkt) + (68 + 67 + (8 + length pkt) + word_sum pkt)).
  assert (W : ∀ c, is_u16 c → 0xFFFF + 0xFFFF + 17 + (8 + length pkt) + word_sum (dhcp_udp c pkt) = s + c).
  { intros c Hc. rewrite udp_bytes by lia. cbn [app word_sum]. unfold s. destruct (u16_bytes c Hc) as (_ & _ & ?). lia. }
  assert (E : udp_checksum_ipv4 0 0xFFFFFFFF (dhcp_udp 0 pkt) = if 65535 - fold_carries 3 s =? 0 then 0xFFFF else 65535 - fold_carries 3 s).
  { unfold udp_checksum_ipv4. assert (Bu : bytes (dhcp_udp 0 pkt)).
    { rewrite udp_bytes by lia. cbn [app]. repeat constructor; done || (cbn; lia). }
    assert (Lu : Z.of_nat (length (dhcp_udp 0 pkt)) = 8 + length pkt) by (rewrite udp_bytes by lia; cbn; lia). rewrite Lu.
    pose proof (W 0 ltac:(lia)) as W0. change (_ + _ + _ + _ + 17) with (0xFFFF + 0xFFFF + 17). rewrite add_words_sum, W0, Z.add_0_r by (done || lia).
    destruct (fold_carries_ok s) as [F _]; [lia|]. by rewrite lnot_u16. }
  intros c. destruct (fold_carries_ok s) as [F _]; [lia|].
  assert (Hc : is_u16 c ∧ 0 < c ∧ c `mod` 65535 = (65535 - fold_carries 3 s) `mod` 65535).
  { unfold c. rewrite E. destruct (Z.eqb_spec (65535 - fold_carries 3 s) 0) as [->|]; [done|]. lia. }
  split; [apply Hc|]. rewrite W by apply Hc. apply fold_complement; lia.
Qed.

Lemma ip_header_verifies len id : is_u16 len → is_u16 id →
  let c := ip_checksum_be (dhcp_ip_header len id 0) in is_u16 c ∧ length (dhcp_ip_header len id c) = 20%nat ∧ fold_carries 3 (word_sum (dhcp_ip_header len id c)) = 0xFFFF.
Proof.
  intros Hl Hi. set (l1 := [0x45; 0; len / 2 ^ 8; len `mod` 2 ^ 8; id / 2 ^ 8; id `mod` 2 ^ 8; 0; 0; 64; 17]). set (l2 := [0; 0; 0; 0; 255; 255; 255; 255]).
  destruct (u16_bytes len Hl) as (L1 & L2 & _), (u16_bytes id Hi) as (I1 & I2 & _).
  assert (B1 : bytes l1) by (repeat constructor; done || lia). assert (B2 : bytes l2) by (repeat constructor; lia).
  assert (W : ∀ c, is_u16 c → dhcp_ip_header len id c = l1 ++ [c / 2 ^ 8; c `mod` 2 ^ 8] ++ l2).
  { intros c Hc. unfold dhcp_ip_header. by rewrite hi_byte, lo_byte, u16_small, !st16_be16 by done. }
  assert (E : ip_checksum_be (dhcp_ip_header len id 0) = ones_complement (word_sum (l1 ++ [0; 0] ++ l2))).
  { rewrite W by lia. change [0 / 2 ^ 8; 0 `mod` 2 ^ 8] with [0; 0]. assert (B : bytes (l1 ++ [0; 0] ++ l2)) by (apply Forall_app_2; [done|repeat constructor; lia]).
    by apply complement_words. }
  destruct (checksum_verifies l1 l2) as [C1 C2]; [done..|by exists 5%nat|done|]. rewrite E. intros c. split; [done|]. rewrite W by done. by split.
Qed.

(** The packets sent are in order: a broadcast frame from [mac] whose IP header and UDP
    datagram verify at the receiver and carry [pkt] to the end, from the client's port to
    the server's, whatever was asked; and in a REQUEST the server finds, with this very
    option search, the message type, the address asked for and the server asked. *)
Theorem dhcp_frame_wellformed mac id xid ip sid : length mac = 6%nat → bytes mac → is_u16 id → is_u32 xid → is_u32 ip → is_u32 sid →
  let pkt := dhcp_packet mac 3 xid ip sid in let f := dhcp_frame mac pkt id in
  slice f 0 6 = replicate 6 0xFF ∧ slice f 6 6 = mac ∧ drop 42 f = pkt ∧
  fold_carries 3 (word_sum (slice f 14 20)) = 0xFFFF ∧
  fold_carries 3 (0xFFFF + 0xFFFF + 17 + (8 + length pkt) + word_sum (drop 34 f)) = 0xFFFF ∧
  byte f 23 = 17 ∧ be16 (ld16 f 34) = UDP_PORT_DHCP_CLIENT ∧ be16 (ld16 f 36) = UDP_PORT_DHCP_SERVER ∧ be16 (ld16 f 38) = 8 + length pkt ∧
  dhcp_read_be32 pkt 4 = xid ∧ slice pkt 28 6 = mac ∧ dhcp_find_opt (drop 240 pkt) 53 = Some [3] ∧
  dhcp_find_opt (drop 240 pkt) 50 = Some (bytes4 ip) ∧ dhcp_find_opt (drop 240 pkt) 54 = Some (bytes4 sid).
Proof.
  intros Lm Bm Hid Hx Hi Hs pkt. assert (Ep : pkt = [1; 1; 6; 0] ++ bytes4 xid ++ [0; 0; 0x80; 0] ++ replicate 16 0 ++ mac ++ replicate 202 0 ++
    [99; 130; 83; 99] ++ [53; 1; 3; 61; 7; 1] ++ mac ++ [50; 4] ++ bytes4 ip ++ [54; 4] ++ bytes4 sid ++ [255]).
  { unfold pkt, dhcp_packet. by rewrite !put_be32_bytes by done. }
  assert (Bp : bytes pkt).
  { rewrite Ep. repeat (apply Forall_app_2); try apply bytes4_ok; try done; try apply Forall_replicate; try lia; repeat constructor; lia. }
  assert (Lp : length pkt = 265%nat) by (rewrite Ep, !length_app, !length_replicate, Lm; done).
  assert (P : dhcp_read_be32 pkt 4 = xid ∧ slice pkt 28 6 = mac ∧ dhcp_find_opt (drop 240 pkt) 53 = Some [3] ∧
    dhcp_find_opt (drop 240 pkt) 50 = Some (bytes4 ip) ∧ dhcp_find_opt (drop 240 pkt) 54 = Some (bytes4 sid)).
  { split; [rewrite Ep; by eapply (read_at _ [1; 1; 6; 0])|]. rewrite Ep. clear - Lm. split_lists. done. }
  destruct P as (P1 & P2 & P3 & P4 & P5). clearbody pkt. clear Ep. cbn zeta.
  destruct (udp_verifies pkt Bp) as [C1 C2]; [lia|]. destruct (ip_header_verifies (20 + 8 + length pkt) id) as (D1 & D2 & D3); [lia|done|].
  unfold dhcp_frame. cbn zeta. set (c := udp_checksum_ipv4 _ _ _) in *. set (k := ip_checksum_be _) in *. rewrite udp_bytes in C2 |- * by lia.
  destruct (u16_bytes (8 + length pkt)) as (U1 & U2 & U3); [lia|]. clearbody c k. clear Bm.
  split_and!; try exact P1; try exact P2; try exact P3; try exact P4; try exact P5; clear P2 Lp; split_lists; try done; try exact C2; try exact D3. etransitivity; [apply (be16_ld16 _ _ U1 U2)|exact U3].
Qed.

(** * A run *)

(** The frame of a server with nothing set but what is given. *)
Definition plain_reply (xid yi : Z) (os : list (Z * list Z)) : list Z :=
  server_frame (replicate 12 0) (replicate 5 0) 0 64 (replicate 10 0) [0; 0] (server_msg xid 0 yi 0 (replicate 4 0) (replicate 212 0) os []) [].
Definition an_offer : list Z := plain_reply 0xA5F0C37D 0xC0A80117
  [(53, [2]); (51, [0; 1; 81; 128]); (1, [255; 255; 255; 0]); (3, [192; 168; 1; 1]); (6, [8; 8; 8; 8; 1; 1; 1; 1]); (54, [192; 168; 1; 1])].
Definition an_ack : list Z := plain_reply 0xA5F0C37D 0xC0A80117 [(53, [5])].
Definition dhcp0 : dhcp := MkDhcp 0 (dhcp_cap_reset 0) (MkLease 0 0 0 0 0) [] false [].

Lemma dhcp_reads_in_frame_witness :
  dhcp_handle_rx_frame (an_offer ++ [7]) (length an_offer) 0xA5F0C37D = dhcp_handle_rx_frame (an_offer ++ [8; 9]) (length an_offer) 0xA5F0C37D ∧
  dhcp_handle_rx_frame an_offer (length an_offer) 0xA5F0C37D = Some (MkOffer 0xC0A80117 0xC0A80101 0xFFFFFF00 0xC0A80101 0x08080808).
Proof.
  split; [|vm_compute; reflexivity].
  apply (dhcp_reads_in_frame (dhcp_cap_reset 0) (an_offer ++ [7]) (an_offer ++ [8; 9]) (length an_offer) 0xA5F0C37D);
    [rewrite length_app; lia..|rewrite Nat2Z.id, !take_app_length; reflexivity].
Defined.

Lemma dhcp_frame_wellformed_witness : let f := dhcp_frame [2; 0; 0; 0; 0; 1] (dhcp_packet [2; 0; 0; 0; 0; 1] 3 7 0xC0A80117 0xC0A80101) 1 in
  fold_carries 3 (word_sum (slice f 14 20)) = 0xFFFF.
Proof. apply (dhcp_frame_wellformed [2; 0; 0; 0; 0; 1] 1 7 0xC0A80117 0xC0A80101); [reflexivity|repeat constructor; lia|lia..]. Defined.
