(* ===== verification/DhcpWire.v ===== *)
(** DHCP on the wire, and what the client of [net/dhcp.c] makes of it.

    The first part describes frames, BOOTP messages and options as RFC 2131 and RFC 2132
    lay them out, by concatenation and big-endian numbers, without reference to the code.
    The theorems then say when [dhcp_acquire] gives a lease, and which. *)
From S2P Require Import Prelude NetBytes Dhcp DhcpProps.
Import Dhcp.

(** * The wire *)

(** A big-endian number. *)
Definition be (l : list Z) : Z := foldl (λ a b, 2 ^ 8 * a + b) 0 l.

(** An IEEE 802.1Q or 802.1ad tag, or none. *)
Definition vlan_tag (t : list Z) : Prop := t = [] ∨ ∃ a b, t = [0x81; 0x00; a; b] ∨ t = [0x88; 0xA8; a; b].
(** An IPv4 header of a UDP datagram: its first byte has the length in its low half, in
    words of 4 bytes. *)
Definition udp_ip_header (ip : list Z) : Prop :=
  ∃ v rest, ip = v :: rest ∧ Z.of_nat (length ip) = 4 * (v `mod` 16) ∧ 20 ≤ length ip ∧ ip !! 9%nat = Some 17.
(** The 14 bits of the fragment flag and offset are zero. *)
Definition unfragmented (ip : list Z) : Prop := ∃ a, ip !! 6%nat = Some a ∧ a `mod` 64 = 0 ∧ ip !! 7%nat = Some 0.

(** Frame [f], with IPv4 header [ip], carries [d] from the port of DHCP servers to that of
    clients. *)
Definition carries (f ip d : list Z) : Prop :=
  ∃ macs tag len ck trail,
    f = macs ++ tag ++ [0x08; 0x00] ++ ip ++ [0; 67; 0; 68] ++ len ++ ck ++ d ++ trail ∧
    length macs = 12%nat ∧ vlan_tag tag ∧ udp_ip_header ip ∧
    length len = 2%nat ∧ be len = 8 + length d ∧ length ck = 2%nat ∧ 240 ≤ length d.

Record bootp := MkBootp { op : Z; b_xid : Z; ciaddr : Z; yiaddr : Z; siaddr : Z; opts : list Z }.
(** [d] is the message [m]: op; htype, hlen, hops; xid; secs, flags; four addresses, chaddr,
    sname and file; the cookie; the options. *)
Definition message (d : list Z) (m : bootp) : Prop :=
  ∃ hw xid sf ci yi si rest,
    d = [op m] ++ hw ++ xid ++ sf ++ ci ++ yi ++ si ++ rest ++ [99; 130; 83; 99] ++ opts m ∧
    length hw = 3%nat ∧ length xid = 4%nat ∧ length sf = 4%nat ∧ length ci = 4%nat ∧ length yi = 4%nat ∧
    length si = 4%nat ∧ length rest = 212%nat ∧
    b_xid m = be xid ∧ ciaddr m = be ci ∧ yiaddr m = be yi ∧ siaddr m = be si.

(** The first option with a code: pad bytes are skipped, 255 ends the list. *)
Inductive has_option (c : Z) (v : list Z) : list Z → Prop :=
  | opt_pad l : has_option c v l → has_option c v (0 :: l)
  | opt_here l : c ≠ 0 → c ≠ 255 → has_option c v (c :: Z.of_nat (length v) :: v ++ l)
  | opt_next c' v' l : c' ≠ 0 → c' ≠ 255 → c' ≠ c → has_option c v l → has_option c v (c' :: Z.of_nat (length v') :: v' ++ l).

(** The address in a 4-byte option, the first one in a list of addresses. *)
Definition addr_option (m : bootp) (c a : Z) : Prop := ∃ v, has_option c v (opts m) ∧ length v = 4%nat ∧ be v = a.
Definition first_option (m : bootp) (c a : Z) : Prop := ∃ v, has_option c v (opts m) ∧ (4 ≤ length v)%nat ∧ be (take 4 v) = a.
(** The value of an option that may be missing. *)
Definition option_or (P : Z → Prop) (dflt a : Z) : Prop := P a ∨ (a = dflt ∧ ∀ b, ¬ P b).

(** The message type, which some servers leave out. *)
Definition typed (m : bootp) (t : Z) : Prop := has_option 53 [t] (opts m).
Definition untyped (m : bootp) : Prop := ∀ t, typed m t → t = 0.

(** What a message offers. *)
Record offer_of (m : bootp) (o : offer) : Prop := {
  of_ip : o_ip o ≠ 0;
  of_yi : yiaddr m ≠ 0 → o_ip o = yiaddr m;
  of_ci : yiaddr m = 0 → ciaddr m ≠ 0 → o_ip o = ciaddr m;
  of_50 : yiaddr m = 0 → ciaddr m = 0 → addr_option m 50 (o_ip o);
  of_sid : option_or (addr_option m 54) (siaddr m) (o_sid o);
  of_mask : option_or (addr_option m 1) 0 (o_mask o);
  of_gw : option_or (first_option m 3) 0 (o_gw o);
  of_dns : option_or (first_option m 6) 0 (o_dns o)
}.

(** A frame with a DHCP reply to transaction [xid]; one that offers [o], and one that
    acknowledges. *)
Definition replies_to (xid : Z) (f : list Z) : Prop := ∃ ip d m, carries f ip d ∧ message d m ∧ b_xid m = xid.
Definition offer_frame (xid : Z) (f : list Z) (o : offer) : Prop :=
  ∃ ip d m, carries f ip d ∧ unfragmented ip ∧ message d m ∧ op m = 2 ∧ b_xid m = xid ∧ (typed m 2 ∨ untyped m) ∧ offer_of m o.
Definition ack_frame (xid : Z) (f : list Z) : Prop :=
  ∃ ip d m, carries f ip d ∧ message d m ∧ b_xid m = xid ∧ (typed m 5 ∨ op m = 2 ∧ untyped m).

(** * Bytes by position and by concatenation *)

Lemma be_app l1 l2 : be (l1 ++ l2) = be l1 * 2 ^ (8 * length l2) + be l2.
Proof.
  unfold be. rewrite foldl_app. generalize (foldl (λ a b, 2 ^ 8 * a + b) 0 l1). intros a.
  assert (∀ a, foldl (λ a b, 2 ^ 8 * a + b) a l2 = a * 2 ^ (8 * length l2) + foldl (λ a b, 2 ^ 8 * a + b) 0 l2) as H; [|apply H].
  clear. induction l2 as [|b l IH]; intros a; cbn [foldl length]; [change (8 * Z.of_nat 0) with 0; lia|].
  rewrite IH, (IH (2 ^ 8 * 0 + b)). replace (8 * Z.of_nat (S (length l))) with (8 + 8 * length l) by lia. rewrite Z.pow_add_r by lia. lia.
Qed.
Lemma slice_app_at l1 l2 l3 i n : i = Z.of_nat (length l1) → n = Z.of_nat (length l2) → slice (l1 ++ l2 ++ l3) i n = l2.
Proof. intros -> ->. unfold slice. rewrite !Nat2Z.id, drop_app_length. apply take_app_length. Qed.
Lemma drop_app_at {A} (l1 l2 : list A) i : i = Z.of_nat (length l1) → drop (Z.to_nat i) (l1 ++ l2) = l2.
Proof. intros ->. rewrite Nat2Z.id. apply drop_app_length. Qed.
Lemma byte_at l1 x l2 i : i = Z.of_nat (length l1) → byte (l1 ++ x :: l2) i = x.
Proof. intros ->. unfold byte. rewrite Nat2Z.id, lookup_app_r, Nat.sub_diag by lia. done. Qed.
Lemma byte_lookup l i x : l !! i = Some x → byte l (Z.of_nat i) = x.
Proof. intros H. unfold byte. by rewrite Nat2Z.id, H. Qed.
Lemma lookup_byte l i : 0 ≤ i < length l → l !! Z.to_nat i = Some (byte l i).
Proof. intros H. unfold byte. destruct (lookup_lt_is_Some_2 l (Z.to_nat i)) as [x Hx]; [lia|]. by rewrite Hx. Qed.
Lemma byte_slice l i n k : 0 ≤ i → 0 ≤ k < n → byte (slice l i n) k = byte l (i + k).
Proof. intros. unfold byte, slice. rewrite lookup_take_lt, lookup_drop by lia. do 2 f_equal. lia. Qed.

(** A slice of known length, by its bytes. *)
Lemma slice_1 l i : 0 ≤ i → i < length l → slice l i 1 = [byte l i].
Proof.
  intros. pose proof (slice_length l i 1) as L. destruct (slice l i 1) as [|a [|b t]] eqn:E; cbn [length] in L; try lia.
  rewrite <- (Z.add_0_r i), <- (byte_slice l i 1 0) by lia. rewrite E. done.
Qed.
Lemma slice_2 l i : 0 ≤ i → i + 1 < length l → slice l i 2 = [byte l i; byte l (i + 1)].
Proof. intros. change 2 with (1 + 1). rewrite <- slice_app, !slice_1 by lia. done. Qed.
Lemma slice_4 l i : 0 ≤ i → i + 3 < length l → slice l i 4 = [byte l i; byte l (i + 1); byte l (i + 2); byte l (i + 3)].
Proof.
  intros. change 4 with (2 + 2). rewrite <- slice_app, !slice_2 by lia. by replace (i + 2 + 1) with (i + 3) by lia.
Qed.

Lemma read_be l i : bytes l → dhcp_read_be32 l i = be [byte l i; byte l (i + 1); byte l (i + 2); byte l (i + 3)].
Proof.
  intros H. unfold dhcp_read_be32. rewrite lor4 by (by apply byte_range). unfold be. cbn [foldl]. lia.
Qed.
Lemma read_slice l i : bytes l → 0 ≤ i → i + 3 < length l → dhcp_read_be32 l i = be (slice l i 4).
Proof. intros. by rewrite read_be, slice_4 by (done || lia). Qed.
Lemma port_at l i : bytes l → be16 (ld16 l i) = be [byte l i; byte l (i + 1)].
Proof. intros H. unfold ld16. rewrite be16_ld16 by (by apply byte_range). unfold be. cbn [foldl]. lia. Qed.
Lemma be2_eq a b c d : is_u8 a → is_u8 b → is_u8 c → is_u8 d → be [a; b] = be [c; d] → a = c ∧ b = d.
Proof. unfold be. cbn [foldl]. lia. Qed.

(** A list as the concatenation of its pieces. *)
Lemma cut_at (l : list Z) i n : 0 ≤ i → 0 ≤ n → drop (Z.to_nat i) l = slice l i n ++ drop (Z.to_nat (i + n)) l.
Proof.
  intros. unfold slice. rewrite <- (take_drop (Z.to_nat n) (drop (Z.to_nat i) l)) at 1. rewrite drop_drop. do 2 f_equal. lia.
Qed.

(** * Frames *)

(** How the code sees a frame that carries a message: the IPv4 header at [o], [ihl] long. *)
Record located (f : list Z) (o ihl : Z) (d trail : list Z) : Prop := {
  lo_l2 : dhcp_l2_ipv4_offset f (length f) = Some (o, 0x0800);
  lo_off : 14 ≤ o;
  lo_ihl : (byte f o &u 0x0F) * 4 = ihl;
  lo_20 : 20 ≤ ihl;
  lo_udp : byte f (o + 9) = 17;
  lo_sport : be16 (ld16 f (o + ihl)) = UDP_PORT_DHCP_SERVER;
  lo_dport : be16 (ld16 f (o + ihl + 2)) = UDP_PORT_DHCP_CLIENT;
  lo_len : be16 (ld16 f (o + ihl + 4)) = 8 + length d;
  lo_240 : 240 ≤ length d;
  lo_fit : o + ihl + 8 + length d ≤ length f;
  lo_d : drop (Z.to_nat (o + ihl + 8)) f = d ++ trail
}.

Lemma ether_type a b : is_u8 a → is_u8 b → u16 (Z.lor (Z.shiftl a 8) b) = be [a; b].
Proof. intros. rewrite lor_low by lia. unfold be. cbn [foldl]. rewrite u16_small by lia. lia. Qed.

(** Where the IPv4 header starts. *)
Lemma l2_offset f : bytes f → ∀ o, dhcp_l2_ipv4_offset f (length f) = Some (o, 0x0800) →
  ∃ macs tag, vlan_tag tag ∧ length macs = 12%nat ∧ o = 14 + length tag ∧
    (o ≤ length f → f = macs ++ tag ++ [0x08; 0x00] ++ drop (Z.to_nat o) f).
Proof.
  intros B o. unfold dhcp_l2_ipv4_offset. destruct (Z.ltb_spec (length f) 14); [done|].
  rewrite !ether_type by (by apply byte_range). change (12 + 1) with 13.
  assert (∀ i a b, 0 ≤ a < 2 ^ 8 → 0 ≤ b < 2 ^ 8 → be [byte f i; byte f (i + 1)] = be [a; b] → byte f i = a ∧ byte f (i + 1) = b) as W.
  { intros i a b Ha Hb. apply be2_eq; try done; by apply byte_range. }
  assert (∀ i, 0 ≤ i → i + 2 ≤ length f → byte f i = 0x08 → byte f (i + 1) = 0x00 → slice f i 2 = [0x08; 0x00]) as T.
  { intros i H1 H2 H3 H4. rewrite slice_2, H3, H4 by lia. done. }
  pose proof (slice_length f 0 12 ltac:(lia) ltac:(lia) ltac:(lia)) as L12.
  assert (f = slice f 0 12 ++ drop (Z.to_nat 12) f) as F12 by (exact (cut_at f 0 12 ltac:(lia) ltac:(lia))).
  destruct ((be [byte f 12; byte f 13] =? 0x8100) || (be [byte f 12; byte f 13] =? 0x88A8)) eqn:Et; cbn [andb].
  - destruct (Z.leb_spec (12 + 6) (length f)).
    + intros [= <- E]. destruct (W (12 + 4) 8 0 ltac:(lia) ltac:(lia) E) as [E1 E2].
      exists (slice f 0 12), (slice f 12 4). split; [|split; [lia|]].
      { right. exists (byte f 14), (byte f 15). rewrite slice_4 by lia. change (12 + 1) with 13. change (12 + 2) with 14. change (12 + 3) with 15.
        apply orb_true_iff in Et as [Et|Et]; apply Z.eqb_eq in Et; [destruct (W 12 0x81 0 ltac:(lia) ltac:(lia) Et) as [-> A]; left|
          destruct (W 12 0x88 0xA8 ltac:(lia) ltac:(lia) Et) as [-> A]; right]; change (12 + 1) with 13 in A; by rewrite A. }
      split; [rewrite slice_length by lia; lia|]. intros Hl. rewrite F12 at 1. f_equal. rewrite (cut_at f 12 4) by lia. f_equal.
      change (12 + 4) with 16 in *. rewrite (cut_at f 16 2), T by (done || lia). done.
    + intros [= <- E]. exfalso. change (12 + 1) with 13 in E. rewrite E in Et. discriminate.
  - intros [= <- E]. change (12 + 1) with 13 in E.
    destruct (W 12 8 0 ltac:(lia) ltac:(lia) E) as [E1 E2].
    exists (slice f 0 12), []. split; [by left|]. split; [lia|]. split; [done|]. intros Hl. rewrite F12 at 1. f_equal.
    cbn [app]. change (12 + 2) with 14. rewrite (cut_at f 12 2), T by (done || lia). done.
Qed.

Lemma low_half v : is_u8 v → v &u 0x0F = v `mod` 16.
Proof. intros. change 0x0F with (Z.ones 4). by rewrite Z.land_ones by lia. Qed.

Lemma located_carries f o ihl d trail : bytes f → located f o ihl d trail → carries f (slice f o ihl) d ∧ 0 ≤ o ∧ o + ihl ≤ length f.
Proof.
  intros B [H1 H2 H3 H4 H5 H6 H7 H8 H9 H10 H11].
  destruct (l2_offset f B o H1) as (macs & tag & Ht & Hm & -> & Hf). specialize (Hf ltac:(lia)).
  set (o := 14 + length tag) in *. rewrite (port_at f) in H6, H7, H8 by done.
  rewrite low_half in H3 by (by apply byte_range). split; [|lia].
  pose proof (slice_length f o ihl ltac:(lia) ltac:(lia) ltac:(lia)) as Li.
  destruct (be2_eq (byte f (o + ihl)) (byte f (o + ihl + 1)) 0 67) as [P1 P2]; [by apply byte_range..|lia|lia|done|].
  destruct (be2_eq (byte f (o + ihl + 2)) (byte f (o + ihl + 2 + 1)) 0 68) as [P3 P4]; [by apply byte_range..|lia|lia|done|].
  exists macs, tag, (slice f (o + ihl + 4) 2), (slice f (o + ihl + 6) 2), trail. split_and!; try done.
  - rewrite Hf at 1. do 3 f_equal. rewrite (cut_at f o ihl) by lia. f_equal. rewrite (cut_at f (o + ihl) 4) by lia.
    rewrite slice_4, P1, P2, P3 by lia. replace (o + ihl + 3) with (o + ihl + 2 + 1) by lia. rewrite P4. f_equal.
    rewrite (cut_at f (o + ihl + 4) 2) by lia. f_equal. replace (o + ihl + 4 + 2) with (o + ihl + 6) by lia.
    rewrite (cut_at f (o + ihl + 6) 2) by lia. f_equal. replace (o + ihl + 6 + 2) with (o + ihl + 8) by lia. done.
  - exists (byte f o), (slice f (o + 1) (ihl - 1)). split_and!; [|lia|lia|].
    + transitivity ([byte f o] ++ slice f (o + 1) (ihl - 1)); [|done]. rewrite <- slice_1, slice_app by lia. f_equal. lia.
    + change 9%nat with (Z.to_nat 9). rewrite lookup_byte, byte_slice, H5 by lia. done.
  - pose proof (slice_length f (o + ihl + 4) 2). lia.
  - rewrite slice_2 by lia. done.
  - pose proof (slice_length f (o + ihl + 6) 2). lia.
Qed.

Lemma carries_located f ip d : bytes f → carries f ip d → ∃ o ihl trail, located f o ihl d trail ∧ slice f o ihl = ip.
Proof.
  intros B (macs & tag & len & ck & trail & Ef & Hm & Ht & (v & rest & Eip & Hlen & H20 & H9) & Hl & Hbe & Hck & H240).
  set (o := 14 + length tag). set (ihl := Z.of_nat (length ip)). set (tl := [0; 67; 0; 68] ++ len ++ ck ++ d ++ trail) in *.
  assert (f = (macs ++ tag ++ [8; 0]) ++ ip ++ tl) as F1 by (rewrite Ef, <- !app_assoc; reflexivity).
  assert (Z.of_nat (length (macs ++ tag ++ [8; 0])) = o) as L1 by (rewrite !length_app, Hm; cbn [length]; lia).
  assert (f = ((macs ++ tag ++ [8; 0]) ++ ip) ++ tl) as F2 by (rewrite F1; apply app_assoc).
  assert (Z.of_nat (length ((macs ++ tag ++ [8; 0]) ++ ip)) = o + ihl) as L2 by (rewrite length_app; lia).
  assert (slice f o ihl = ip) as S1 by (rewrite F1; by apply slice_app_at).
  assert (drop (Z.to_nat (o + ihl)) f = tl) as D1 by (rewrite F2; by apply drop_app_at).
  assert (∀ k, 0 ≤ k → byte f (o + ihl + k) = byte tl k) as T by (intros; rewrite byte_drop by lia; by rewrite D1).
  assert (∀ k, 0 ≤ k → be16 (ld16 f (o + ihl + k)) = be [byte tl k; byte tl (k + 1)]) as P.
  { intros k Hk. by rewrite port_at, T, <- (Z.add_assoc (o + ihl)), T by (done || lia). }
  assert (∀ k, 0 ≤ k < ihl → byte f (o + k) = byte ip k) as I by (intros; by rewrite <- S1, byte_slice by lia).
  assert (Z.of_nat (length tl) = 8 + length d + length trail) as Lt by (unfold tl; rewrite !length_app, Hl, Hck; cbn [length]; lia).
  assert (Z.of_nat (length f) = o + ihl + 8 + length d + length trail) as Lf by (rewrite F2, length_app; lia).
  exists o, ihl, trail. split; [|done]. split; try lia.
  - unfold dhcp_l2_ipv4_offset. rewrite (proj2 (Z.ltb_ge _ 14)), !ether_type by (lia || by apply byte_range).
    assert (∀ x y z, tag = [x; y] ++ z ∨ (tag = [] ∧ x = 8 ∧ y = 0) → byte f 12 = x ∧ byte f (12 + 1) = y) as Hxy.
    { intros x y z Hz. assert (∃ w, drop (Z.to_nat 12) f = x :: y :: w) as [w Hw].
      { rewrite Ef, drop_app_at by lia. destruct Hz as [->|(-> & -> & ->)]; by eexists. }
      split; [rewrite <- (Z.add_0_r 12)|]; rewrite byte_drop by lia; by rewrite Hw. }
    destruct Ht as [->|(a & b & Ht)].
    + destruct (Hxy 8 0 []) as [E1 E2]; [by right|]. rewrite E1, E2. change (be [8; 0] =? 0x8100) with false.
      change (be [8; 0] =? 0x88A8) with false. cbn [orb andb]. by rewrite E1, E2.
    + assert (∃ x y, tag = [x; y; a; b] ∧ (be [x; y] =? 0x8100) || (be [x; y] =? 0x88A8) = true) as (x & y & Et & Exy)
        by (destruct Ht as [-> | ->]; by do 2 eexists).
      destruct (Hxy x y [a; b]) as [-> ->]; [by left; rewrite Et|]. rewrite Exy. clear Ht Hxy. subst tag. cbn [length] in *.
      rewrite (proj2 (Z.leb_le (12 + 6) _)) by lia. cbn [andb].
      assert (∃ w, drop (Z.to_nat (12 + 4)) f = 8 :: 0 :: w) as [w Hw].
      { rewrite Ef, (app_assoc macs), drop_app_at by (rewrite length_app, Hm; cbn [length]; lia). by eexists. }
      assert (byte f (12 + 4) = 8) as -> by (etransitivity; [exact (byte_drop f (12 + 4) 0 ltac:(lia) ltac:(lia))|by rewrite Hw]).
      rewrite (byte_drop f (12 + 4) 1), Hw by lia. done.
  - rewrite <- (Z.add_0_r o), I by lia. rewrite Eip. change (byte (v :: rest) 0) with v. rewrite low_half; [lia|].
    assert (byte f o = v) as <- by (rewrite <- (Z.add_0_r o), I by lia; by rewrite Eip). by apply byte_range.
  - rewrite I by lia. by apply (byte_lookup ip 9).
  - by rewrite <- (Z.add_0_r (o + ihl)), P.
  - by rewrite P.
  - rewrite P, <- Hbe by lia. unfold tl. destruct len as [|x [|y [|]]]; try discriminate Hl. done.
  - rewrite Z.add_comm, Z.add_assoc. replace (Z.to_nat (8 + o + ihl)) with (Z.to_nat (o + ihl) + 8)%nat by lia.
    rewrite <- drop_drop, D1. unfold tl. rewrite !(app_assoc _ _ (d ++ trail)), (app_assoc [0; 67; 0; 68]).
    change 8%nat with (Z.to_nat 8). apply drop_app_at. rewrite !length_app, Hl, Hck. done.
Qed.

(** * Options *)

Lemma has_option_bytes c v l : has_option c v l → bytes l → bytes v ∧ c ≠ 0 ∧ c ≠ 255.
Proof.
  intros H. induction H as [l H IH|l H0 H1|c' v' l H0 H1 H2 H IH]; intros B.
  - apply Forall_cons in B as [_ B]. auto.
  - apply Forall_cons in B as [_ [_ [B _]%Forall_app]%Forall_cons]. done.
  - apply Forall_cons in B as [_ [_ [_ B]%Forall_app]%Forall_cons]. auto.
Qed.
Lemma find_has c v k : ∀ l, bytes l → find_opt k l c = Some v → has_option c v l.
Proof.
  induction k as [|k IH]; intros [|x l] B; cbn [find_opt]; try done. apply Forall_cons in B as [Bx B].
  destruct (Z.eqb_spec x 0) as [->|H0]; [intros; apply opt_pad; by apply IH|]. destruct (Z.eqb_spec x 255) as [|H1]; [done|].
  destruct l as [|n l]; [done|]. apply Forall_cons in B as [Bn B]. destruct (Z.ltb_spec (length l) n); [done|].
  assert (n :: l = Z.of_nat (length (slice l 0 n)) :: slice l 0 n ++ drop (Z.to_nat n) l) as E.
  { rewrite slice_length by lia. f_equal. exact (cut_at l 0 n ltac:(lia) ltac:(lia)). }
  rewrite E. destruct (Z.eqb_spec x c) as [->|H2].
  - intros [= <-]. by apply opt_here.
  - intros Hf. apply opt_next; [done..|]. apply IH; [by apply Forall_drop|done].
Qed.
Lemma has_find c v l : has_option c v l → ∀ k, (length l ≤ k)%nat → find_opt k l c = Some v.
Proof.
  intros H. induction H as [l H IH|l H0 H1|c' v' l H0 H1 H2 H IH]; intros [|k] Hk; cbn [length] in Hk; try lia; cbn [find_opt Z.eqb].
  - apply IH. lia.
  - rewrite (proj2 (Z.eqb_neq c 0)), (proj2 (Z.eqb_neq c 255)), Z.eqb_refl by done.
    rewrite (proj2 (Z.ltb_ge _ _)) by (rewrite length_app; lia). unfold slice. by rewrite Nat2Z.id, drop_0, take_app_length.
  - rewrite (proj2 (Z.eqb_neq c' 0)), (proj2 (Z.eqb_neq c' 255)), (proj2 (Z.eqb_neq c' c)) by done. rewrite length_app in Hk.
    rewrite (proj2 (Z.ltb_ge _ _)) by (rewrite length_app; lia). rewrite Nat2Z.id, drop_app_length. apply IH. lia.
Qed.
Lemma option_iff l c v : bytes l → dhcp_find_opt l c = Some v ↔ has_option c v l.
Proof. intros B. split; [by apply find_has|]. intros H. by apply has_find. Qed.

Section options.
Context (m : bootp) (B : bytes (opts m)).

Lemma type_cases : let t := opt_byte (dhcp_find_opt (opts m) 53) in
  (typed m t ∨ t = 0 ∧ untyped m) ∧ ∀ t', typed m t' → t = t'.
Proof.
  intros t. assert (∀ t', typed m t' → t = t') as D by (intros t' H; unfold t; by rewrite (proj2 (option_iff _ _ _ B) H)).
  split; [|done]. destruct (dhcp_find_opt (opts m) 53) as [[|x [|]]|] eqn:E; unfold t; cbn [opt_byte].
  1, 3, 4: right; split; [done|]; intros t' Ht; by rewrite (proj2 (option_iff _ _ _ B) Ht) in E.
  left. by apply option_iff.
Qed.
Lemma type_of (t : Z) : opt_byte (dhcp_find_opt (opts m) 53) = t → t ≠ 0 → typed m t.
Proof. intros E Ht. destruct type_cases as [[H|[H _]] _]; rewrite E in H; [done|lia]. Qed.
Lemma type_none : opt_byte (dhcp_find_opt (opts m) 53) = 0 ↔ untyped m.
Proof.
  destruct type_cases as [H D]. split.
  - intros E t Ht. by rewrite <- (D t Ht).
  - intros U. destruct H as [H|[H _]]; [by apply U|done].
Qed.

Lemma addr_iff c a : opt_ip (dhcp_find_opt (opts m) c) = Some a ↔ addr_option m c a.
Proof.
  split.
  - destruct (dhcp_find_opt (opts m) c) as [[|w [|x [|y [|z [|]]]]]|] eqn:E; try done. cbn [opt_ip fmap option_fmap option_map].
    intros [= <-]. apply (proj1 (option_iff _ _ _ B)) in E. exists [w; x; y; z]. split; [done|]. split; [done|].
    by rewrite read_be by apply (has_option_bytes _ _ _ E B).
  - intros (v & H & Hl & <-). rewrite (proj2 (option_iff _ _ _ B) H). destruct v as [|w [|x [|y [|z [|]]]]]; try done.
    cbn [opt_ip fmap option_fmap option_map]. by rewrite read_be by apply (has_option_bytes _ _ _ H B).
Qed.
Lemma first_iff c a : opt_first_ip (dhcp_find_opt (opts m) c) = Some a ↔ first_option m c a.
Proof.
  split.
  - destruct (dhcp_find_opt (opts m) c) as [[|w [|x [|y [|z r]]]]|] eqn:E; try done. cbn [opt_first_ip fmap option_fmap option_map].
    intros [= <-]. apply (proj1 (option_iff _ _ _ B)) in E. exists (w :: x :: y :: z :: r). split; [done|]. split; [cbn; lia|].
    by rewrite read_be by apply (has_option_bytes _ _ _ E B).
  - intros (v & H & Hl & <-). rewrite (proj2 (option_iff _ _ _ B) H). destruct v as [|w [|x [|y [|z r]]]]; cbn [length] in Hl; try lia.
    cbn [opt_first_ip fmap option_fmap option_map]. by rewrite read_be by apply (has_option_bytes _ _ _ H B).
Qed.
End options.

Lemma option_or_iff (P : Z → Prop) (o : option Z) dflt a : (∀ b, o = Some b ↔ P b) → option_or P dflt a ↔ a = default dflt o.
Proof.
  intros H. unfold option_or. destruct o as [b|]; cbn [from_option id].
  - split; [intros [HP|[_ Hn]]|intros ->]; [apply H in HP; congruence|by destruct (Hn b); apply H|left; by apply H].
  - split; [intros [HP|[-> _]]; [by apply H in HP|done]|]. intros ->. right. split; [done|]. by intros b ?%H.
Qed.

(** * Messages *)

Lemma message_reads d m trail : bytes d → message d m →
  bytes (opts m) ∧ has_cookie (d ++ trail) = true ∧ byte (d ++ trail) 0 = op m ∧ dhcp_read_be32 (d ++ trail) 4 = b_xid m ∧
  dhcp_read_be32 (d ++ trail) 12 = ciaddr m ∧ dhcp_read_be32 (d ++ trail) 16 = yiaddr m ∧ dhcp_read_be32 (d ++ trail) 20 = siaddr m ∧
  slice (d ++ trail) 240 (length d - 240) = opts m.
Proof.
  intros B (hw & x & sf & ci & yi & si & rest & Ed & H1 & H2 & H3 & H4 & H5 & H6 & H7 & -> & -> & -> & ->).
  assert (Z.of_nat (length d) = 240 + length (opts m)) as Ld.
  { rewrite Ed, !length_app, H1, H2, H3, H4, H5, H6, H7. cbn [length]. lia. }
  assert (∀ i, 0 ≤ i → i + 3 < 240 → dhcp_read_be32 (d ++ trail) i = be (slice d i 4)) as R.
  { intros i Hi Hi2. rewrite <- read_slice by (done || lia). unfold dhcp_read_be32. by rewrite !byte_app_l by lia. }
  assert (∀ l1 l2 l3 i, d = l1 ++ l2 ++ l3 → length l2 = 4%nat → i = Z.of_nat (length l1) → slice d i 4 = l2) as S4.
  { intros l1 l2 l3 i -> Hl ->. apply slice_app_at; lia. }
  split; [|split].
  - rewrite Ed in B. by repeat apply Forall_app in B as [_ B].
  - assert (slice d 236 4 = [99; 130; 83; 99]) as C.
    { apply (S4 ([op m] ++ hw ++ x ++ sf ++ ci ++ yi ++ si ++ rest) _ (opts m)); [by rewrite Ed, <- !app_assoc|done|].
      rewrite !length_app, H1, H2, H3, H4, H5, H6, H7. done. }
    rewrite slice_4 in C by lia. change (236 + 1) with 237 in C. change (236 + 2) with 238 in C. change (236 + 3) with 239 in C. injection C as C1 C2 C3 C4. unfold has_cookie. rewrite !byte_app_l by lia. by rewrite C1, C2, C3, C4.
  - rewrite byte_app_l, !R by lia. split; [by rewrite Ed|].
    rewrite (S4 ([op m] ++ hw) x (sf ++ ci ++ yi ++ si ++ rest ++ [99; 130; 83; 99] ++ opts m));
      [|by rewrite Ed, <- !app_assoc|done|rewrite !length_app, H1; done].
    rewrite (S4 ([op m] ++ hw ++ x ++ sf) ci (yi ++ si ++ rest ++ [99; 130; 83; 99] ++ opts m));
      [|by rewrite Ed, <- !app_assoc|done|rewrite !length_app, H1, H2, H3; done].
    rewrite (S4 ([op m] ++ hw ++ x ++ sf ++ ci) yi (si ++ rest ++ [99; 130; 83; 99] ++ opts m));
      [|by rewrite Ed, <- !app_assoc|done|rewrite !length_app, H1, H2, H3, H4; done].
    rewrite (S4 ([op m] ++ hw ++ x ++ sf ++ ci ++ yi) si (rest ++ [99; 130; 83; 99] ++ opts m));
      [|by rewrite Ed, <- !app_assoc|done|rewrite !length_app, H1, H2, H3, H4, H5; done].
    split_and!; try done. replace (length d - 240) with (Z.of_nat (length (opts m))) by lia. rewrite Ed.
    transitivity (slice (([op m] ++ hw ++ x ++ sf ++ ci ++ yi ++ si ++ rest ++ [99; 130; 83; 99]) ++ opts m ++ trail) 240 (length (opts m)));
      [by rewrite <- !app_assoc|]. apply slice_app_at; [|done]. rewrite !length_app, H1, H2, H3, H4, H5, H6, H7. done.
Qed.

Lemma message_exists d trail : bytes d → 240 ≤ length d → has_cookie (d ++ trail) = true → ∃ m, message d m.
Proof.
  intros B Hl Hc. exists (MkBootp (byte d 0) (be (slice d 4 4)) (be (slice d 12 4)) (be (slice d 16 4)) (be (slice d 20 4)) (drop (Z.to_nat 240) d)).
  assert (slice d 236 4 = [99; 130; 83; 99]) as C.
  { unfold has_cookie in Hc. rewrite !byte_app_l in Hc by lia. rewrite slice_4 by lia.
    repeat (apply andb_true_iff in Hc as [Hc ?%Z.eqb_eq]). apply Z.eqb_eq in Hc. change (236 + 1) with 237. change (236 + 2) with 238.
    change (236 + 3) with 239. congruence. }
  exists (slice d 1 3), (slice d 4 4), (slice d 8 4), (slice d 12 4), (slice d 16 4), (slice d 20 4), (slice d 24 212). cbn [op opts b_xid ciaddr yiaddr siaddr].
  assert (∀ i n, 0 ≤ i → 0 ≤ n → i + n ≤ 240 → length (slice d i n) = Z.to_nat n) as L.
  { intros i n H1 H2 H3. pose proof (slice_length d i n). lia. }
  split; [|rewrite !L by lia; done].
  assert (d = slice d 0 1 ++ drop (Z.to_nat 1) d) as E0 by (exact (cut_at d 0 1 ltac:(lia) ltac:(lia))).
  rewrite E0 at 1. rewrite slice_1 by lia. f_equal.
  do 7 (erewrite cut_at; [f_equal; cbn [Z.add Pos.add Pos.succ]|lia|lia]).
  rewrite <- C. exact (cut_at d 236 4 ltac:(lia) ltac:(lia)).
Qed.

(** * What the client makes of a frame *)

Lemma offers_located f o ihl d trail xid : located f o ihl d trail →
  offers f xid = if nz (be16 (ld16 f (o + 6)) &u 0x3FFF) then None else if negb (has_cookie (d ++ trail)) then None
                 else dhcp_parse_offer (d ++ trail) (length d - 240) xid.
Proof.
  intros [H1 H2 H3 H4 H5 H6 H7 H8 H9 H10 H11]. unfold dhcp_handle_rx_frame. rewrite H1. cbn [mbind option_bind]. cbv zeta.
  rewrite H3, H5, H6, H7, H8, H11. cbn [negb Z.eqb Pos.eqb orb]. rewrite (proj2 (Z.ltb_ge _ (o + _ + _ + _))), (proj2 (Z.ltb_ge ihl 20)) by lia.
  destruct (nz _); [done|]. rewrite (proj2 (Z.ltb_ge (8 + _) (8 + 240))), (proj2 (Z.ltb_ge _ (o + _ + _))) by lia. cbn [orb].
  by replace (if 240 <? 8 + length d - 8 then 8 + length d - 8 - 240 else 0) with (length d - 240) by (zcase; lia).
Qed.
Lemma acks_located f o ihl d trail xid : located f o ihl d trail →
  acks f xid = if negb (has_cookie (d ++ trail)) then 0 else if negb (dhcp_read_be32 (d ++ trail) 4 =? xid) then 0 else
    let t := opt_byte (dhcp_find_opt (slice (d ++ trail) 240 (length d - 240)) 53) in
    let t := if (t =? 0) && (byte (d ++ trail) 0 =? 2) then 5 else t in if t =? 5 then 1 else if t =? 6 then -1 else 0.
Proof.
  intros [H1 H2 H3 H4 H5 H6 H7 H8 H9 H10 H11]. unfold dhcp_try_ack_frame. rewrite H1. cbv zeta.
  rewrite H3, H5, H6, H7, H8, H11. cbn [negb Z.eqb Pos.eqb orb]. rewrite (proj2 (Z.ltb_ge _ (o + _ + _ + _))), (proj2 (Z.ltb_ge ihl 20)) by lia.
  rewrite (proj2 (Z.ltb_ge (8 + _) (8 + 240))), (proj2 (Z.ltb_ge _ (o + _ + _))) by lia. cbn [orb].
  by replace (if 240 <? 8 + length d - 8 then 8 + length d - 8 - 240 else 0) with (length d - 240) by (zcase; lia).
Qed.

(** Frames that are answered at all carry a message. *)
Lemma answered_located f xid : bytes f → offers f xid ≠ None ∨ acks f xid ≠ 0 → ∃ o ihl d trail, located f o ihl d trail ∧ has_cookie (d ++ trail) = true.
Proof.
  intros B H. assert (∃ o, dhcp_l2_ipv4_offset f (length f) = Some (o, 0x0800) ∧ o + 20 + 8 + 240 ≤ length f) as (o & E & Hn).
  { unfold dhcp_handle_rx_frame, dhcp_try_ack_frame in H. destruct (dhcp_l2_ipv4_offset f (length f)) as [[o et]|]; [|by destruct H].
    cbn [mbind option_bind] in H. destruct (Z.eqb_spec et 0x0800) as [Et|]; [|by destruct H]. cbn [negb orb] in H.
    destruct (Z.ltb_spec (length f) (o + 20 + 8 + 240)); [by destruct H|]. exists o. by rewrite Et. }
  assert (14 ≤ o) as Ho by (destruct (l2_offset f B o E) as (macs & tag & _ & _ & -> & _); lia).
  set (ihl := (byte f o &u 0x0F) * 4). set (ulen := be16 (ld16 f (o + ihl + 4))).
  assert (byte f (o + 9) = 17 ∧ 20 ≤ ihl ∧ be16 (ld16 f (o + ihl)) = 67 ∧ be16 (ld16 f (o + ihl + 2)) = 68 ∧ 8 + 240 ≤ ulen ∧ o + ihl + ulen ≤ length f ∧
    has_cookie (drop (Z.to_nat (o + ihl + 8)) f) = true) as (G1 & G2 & G3 & G4 & G5 & G6 & G7).
  { unfold dhcp_handle_rx_frame, dhcp_try_ack_frame in H. rewrite E in H. cbn [mbind option_bind] in H. cbv zeta in H. fold ihl in H. fold ulen in H.
    unfold UDP_PORT_DHCP_SERVER, UDP_PORT_DHCP_CLIENT in H.
    cbn [Z.eqb Pos.eqb negb orb] in H. rewrite (proj2 (Z.ltb_ge _ (o + _ + _ + _))) in H by lia.
    destruct (Z.eqb_spec (byte f (o + 9)) 17); [|by destruct H]. destruct (Z.ltb_spec ihl 20); [by destruct H|]. cbn [negb orb] in H.
    destruct (Z.eqb_spec (be16 (ld16 f (o + ihl))) 67), (Z.eqb_spec (be16 (ld16 f (o + ihl + 2))) 68); cbn [negb orb] in H;
      try (by destruct (nz _), H).
    destruct (Z.ltb_spec ulen (8 + 240)), (Z.ltb_spec (length f) (o + ihl + ulen)); cbn [orb] in H; try (by destruct (nz _), H).
    destruct (has_cookie _); [done|]. by destruct (nz _), H. }
  exists o, ihl, (slice f (o + ihl + 8) (ulen - 8)), (drop (Z.to_nat (o + ihl + ulen)) f).
  assert (drop (Z.to_nat (o + ihl + 8)) f = slice f (o + ihl + 8) (ulen - 8) ++ drop (Z.to_nat (o + ihl + ulen)) f) as Ed.
  { rewrite (cut_at f (o + ihl + 8) (ulen - 8)) by lia. do 3 f_equal. lia. }
  split; [|by rewrite <- Ed]. split; try done; rewrite ?slice_length by lia; lia.
Qed.

Lemma fragment_iff f o ihl : bytes f → 0 ≤ o → 20 ≤ ihl → o + ihl ≤ length f → nz (be16 (ld16 f (o + 6)) &u 0x3FFF) = false ↔ unfragmented (slice f o ihl).
Proof.
  intros B Ho Hi Hl. rewrite port_at by done. unfold be. cbn [foldl]. replace (o + 6 + 1) with (o + 7) by lia.
  pose proof (byte_range f (o + 6) B). pose proof (byte_range f (o + 7) B). pose proof (slice_length f o ihl ltac:(lia) ltac:(lia) Hl) as L.
  change 0x3FFF with (Z.ones 14). rewrite Z.land_ones by lia. unfold unfragmented.
  assert (∀ k : nat, (k < 8)%nat → slice f o ihl !! k = Some (byte f (o + k))) as Hk
    by (intros k ?; rewrite <- (Nat2Z.id k) at 1; rewrite lookup_byte, byte_slice by lia; done).
  rewrite !Hk by lia. change (Z.of_nat 6) with 6. change (Z.of_nat 7) with 7. rewrite nz_false.
  generalize dependent (byte f (o + 6)). generalize dependent (byte f (o + 7)). intros b Hb a Ha. split.
  - intros E. exists a. assert (a `mod` 64 = 0 ∧ b = 0) as [Ea ->]; [|done]. Z.div_mod_to_equations. lia.
  - intros (? & [= <-] & E & [= ->]). Z.div_mod_to_equations. lia.
Qed.

Lemma parse_iff d m trail xid o : bytes d → message d m →
  dhcp_parse_offer (d ++ trail) (length d - 240) xid = Some o ↔ op m = 2 ∧ b_xid m = xid ∧ (typed m 2 ∨ untyped m) ∧ offer_of m o.
Proof.
  intros B Hm. destruct (message_reads d m trail B Hm) as (Bo & _ & R0 & R4 & R12 & R16 & R20 & Ro).
  unfold dhcp_parse_offer. cbv zeta. rewrite R0, R4, R12, R16, R20, Ro.
  pose proof (option_or_iff _ _ (siaddr m) (o_sid o) (addr_iff m Bo 54)) as O54. pose proof (option_or_iff _ _ 0 (o_mask o) (addr_iff m Bo 1)) as O1.
  pose proof (option_or_iff _ _ 0 (o_gw o) (first_iff m Bo 3)) as O3. pose proof (option_or_iff _ _ 0 (o_dns o) (first_iff m Bo 6)) as O6.
  set (ip0 := if nz (yiaddr m) then yiaddr m else ciaddr m). set (ip := if nz ip0 then ip0 else _).
  assert (offer_of m o ↔ o = MkOffer ip (default (siaddr m) (opt_ip (dhcp_find_opt (opts m) 54))) (default 0 (opt_ip (dhcp_find_opt (opts m) 1)))
    (default 0 (opt_first_ip (dhcp_find_opt (opts m) 3))) (default 0 (opt_first_ip (dhcp_find_opt (opts m) 6))) ∧ ip ≠ 0) as Eo.
  { assert (o_ip o ≠ 0 ∧ (yiaddr m ≠ 0 → o_ip o = yiaddr m) ∧ (yiaddr m = 0 → ciaddr m ≠ 0 → o_ip o = ciaddr m) ∧
      (yiaddr m = 0 → ciaddr m = 0 → addr_option m 50 (o_ip o)) ↔ o_ip o = ip ∧ ip ≠ 0) as Eip.
    { unfold ip, ip0. destruct (nz_spec (yiaddr m)) as [Hy|Hy]; [rewrite (proj2 (nz_true (yiaddr m)) Hy); naive_solver congruence|].
      destruct (nz_spec (ciaddr m)) as [Hc|Hc]; [naive_solver congruence|].
      rewrite <- (addr_iff m Bo). destruct (opt_ip (dhcp_find_opt (opts m) 50)) as [a|]; cbn [from_option id]; naive_solver congruence. }
    split.
    - intros [A1 A2 A3 A4 A5 A6 A7 A8]. destruct (proj1 Eip) as [E1 E2]; [done|]. destruct o as [a1 a2 a3 a4 a5]. cbn in *.
      apply O54 in A5. apply O1 in A6. apply O3 in A7. apply O6 in A8. split; [|done]. by subst.
    - intros [E1 E2]. rewrite E1 in *. cbn [o_ip o_sid o_mask o_gw o_dns] in *. destruct (proj2 Eip) as (A1 & A2 & A3 & A4); [done|].
      split; cbn [o_ip o_sid o_mask o_gw o_dns]; try done; [by apply O54|by apply O1|by apply O3|by apply O6]. }
  rewrite Eo. clear Eo O54 O1 O3 O6. clearbody ip. clear ip0.
  destruct (Z.eqb_spec (op m) 2); cbn [negb]; [|split; [done|tauto]]. destruct (Z.eqb_spec (b_xid m) xid); cbn [negb]; [|split; [done|tauto]].
  destruct (type_cases m Bo) as [Ht D]. set (t := opt_byte _) in *.
  assert (nz t && negb (t =? 2) = false ↔ typed m 2 ∨ untyped m) as Et.
  { destruct (nz_spec t) as [H0|H0]; cbn [andb].
    - destruct (Z.eqb_spec t 2) as [E2|E2]; cbn [negb].
      + split; [|done]. intros _. left. destruct Ht as [Ht|[Ht _]]; [by rewrite <- E2|lia].
      + split; [done|]. intros [H|H]; [by destruct E2; apply D|]. destruct Ht as [Ht|[Ht _]]; [by destruct H0; apply H|lia].
    - split; [|done]. intros _. right. destruct Ht as [Ht|[_ U]]; [|done]. intros t' Ht'. by rewrite <- (D t' Ht'). }
  destruct (nz t && negb (t =? 2)); [split; [done|]; intros (_ & _ & H & _); by apply Et in H|].
  destruct (nz_spec ip) as [Hi|Hi]; cbn [negb].
  - split; [intros [= <-]|intros (_ & _ & _ & -> & _)]; [|done]. split_and!; try done. by apply Et.
  - split; [done|]. intros (_ & _ & _ & _ & ?). done.
Qed.

Lemma offers_iff f xid o : bytes f → offers f xid = Some o ↔ offer_frame xid f o.
Proof.
  intros B. split.
  - intros E. destruct (answered_located f xid B) as (p & ihl & d & trail & L & C); [by left; rewrite E|].
    destruct (located_carries _ _ _ _ _ B L) as (Hc & Ho & Hl). rewrite (offers_located _ _ _ _ _ _ L), C in E. cbn [negb] in E.
    destruct (nz _) eqn:Ef in E; [done|]. apply (fragment_iff f p ihl B Ho (lo_20 _ _ _ _ _ L) Hl) in Ef.
    assert (bytes d) as Bd. { apply (proj1 (Forall_app _ d trail)). rewrite <- (lo_d _ _ _ _ _ L). by apply Forall_drop. }
    destruct (message_exists d trail Bd (lo_240 _ _ _ _ _ L) C) as [m Hm]. apply (parse_iff d m trail xid o Bd Hm) in E as (E1 & E2 & E3 & E4).
    by exists (slice f p ihl), d, m.
  - intros (ip & d & m & Hc & Hu & Hm & E1 & E2 & E3 & E4). destruct (carries_located f ip d B Hc) as (p & ihl & trail & L & Eip).
    destruct (located_carries _ _ _ _ _ B L) as (_ & Ho & Hl). rewrite <- Eip in Hu.
    assert (bytes d) as Bd. { apply (proj1 (Forall_app _ d trail)). rewrite <- (lo_d _ _ _ _ _ L). by apply Forall_drop. }
    destruct (message_reads d m trail Bd Hm) as (_ & C & _). rewrite (offers_located _ _ _ _ _ _ L), C.
    rewrite (proj2 (fragment_iff f p ihl B Ho (lo_20 _ _ _ _ _ L) Hl) Hu). cbn [negb]. by apply parse_iff with (m := m).
Qed.

Lemma acks_sound f xid : bytes f → acks f xid ≠ 0 → replies_to xid f ∧ (acks f xid = 1 → ack_frame xid f).
Proof.
  intros B E. destruct (answered_located f xid B) as (p & ihl & d & trail & L & C); [by right|].
  destruct (located_carries _ _ _ _ _ B L) as (Hc & _). rewrite (acks_located _ _ _ _ _ _ L), C in *. cbn [negb] in *.
  assert (bytes d) as Bd. { apply (proj1 (Forall_app _ d trail)). rewrite <- (lo_d _ _ _ _ _ L). by apply Forall_drop. }
  destruct (message_exists d trail Bd (lo_240 _ _ _ _ _ L) C) as [m Hm].
  destruct (message_reads d m trail Bd Hm) as (Bo & _ & R0 & R4 & _ & _ & _ & Ro). rewrite R0, R4, Ro in *.
  destruct (Z.eqb_spec (b_xid m) xid) as [Ex|]; cbn [negb] in *; [|done]. split; [by exists (slice f p ihl), d, m|].
  intros E1. exists (slice f p ihl), d, m. split_and!; try done. destruct (type_cases m Bo) as [Ht D]. set (t := opt_byte _) in *.
  destruct (Z.eqb_spec t 0) as [T0|T0], (Z.eqb_spec (op m) 2) as [O2|O2]; cbn [andb] in E1.
  - right. split; [done|]. intros t' Ht'. by rewrite <- (D t' Ht').
  - by rewrite T0 in E1.
  - destruct (Z.eqb_spec t 5) as [T5|T5]; [|by destruct (t =? 6)]. left. destruct Ht as [Ht|[Ht _]]; [by rewrite <- T5|done].
  - destruct (Z.eqb_spec t 5) as [T5|T5]; [|by destruct (t =? 6)]. left. destruct Ht as [Ht|[Ht _]]; [by rewrite <- T5|done].
Qed.
Lemma offers_replies f xid o : bytes f → offers f xid = Some o → replies_to xid f.
Proof. intros B (ip & d & m & Hc & _ & Hm & _ & E & _)%offers_iff; [|done]. by exists ip, d, m. Qed.

(** A frame with a typed acknowledgement is taken for one, and for no offer. *)
Lemma typed_ack f ip d m : bytes f → carries f ip d → message d m → typed m 5 → offers f (b_xid m) = None ∧ acks f (b_xid m) = 1.
Proof.
  intros B Hc Hm Ht. destruct (carries_located f ip d B Hc) as (p & ihl & trail & L & _).
  assert (bytes d) as Bd. { apply (proj1 (Forall_app _ d trail)). rewrite <- (lo_d _ _ _ _ _ L). by apply Forall_drop. }
  destruct (message_reads d m trail Bd Hm) as (Bo & C & R0 & R4 & _ & _ & _ & Ro). destruct (type_cases m Bo) as [_ D]. split.
  - rewrite (offers_located _ _ _ _ _ _ L), C. cbn [negb]. destruct (nz _); [done|].
    destruct (dhcp_parse_offer _ _ _) as [o|] eqn:E; [|done]. exfalso. apply (parse_iff d m trail _ o Bd Hm) in E as (_ & _ & [H|H] & _).
    + pose proof (D _ Ht). pose proof (D _ H). lia.
    + by pose proof (H _ Ht).
  - rewrite (acks_located _ _ _ _ _ _ L), C, R0, R4, Ro, Z.eqb_refl, (D _ Ht). done.
Qed.

(** * No lease out of nothing *)

(** C38: [dhcp_acquire] gives a lease only if in one of its DISCOVER attempts a frame came
    that carries a BOOTREPLY to that attempt's transaction with an offer, and in one of its
    REQUEST attempts a frame with an acknowledgement under the same identifier (a message
    without a type counts as either).  Address, mask, router, name server and server of the
    lease are those of the offer; a missing mask is 255.255.255.0, a missing server the router or
    the address itself, a missing router or name server the server.  The lease is also the one cached, and the
    receive path listens no more. *)
Theorem dhcp_lease_sound s mac disc req s' l :
  (∀ a f, a ∈ disc ++ req → f ∈ frames_of (a_rounds a) → bytes f) →
  dhcp_acquire s mac disc req = Some (s', Some l) →
  (∃ i a f b g o, (i < 6)%nat ∧ disc !! i = Some a ∧ f ∈ frames_of (a_rounds a) ∧ offer_frame (first_xid (a_ticks a) i) f o ∧
    b ∈ req ∧ g ∈ frames_of (a_rounds b) ∧ ack_frame (first_xid (a_ticks a) i) g ∧ l = lease_of o) ∧
  g_cached_lease_valid s' = true ∧ g_cached_lease s' = l ∧ g_cached_mac s' = mac ∧ ∀ f n, dhcp_observe_frame (g_cap s') f n = g_cap s'.
Proof.
  intros HB. unfold dhcp_acquire. intros ([[s1 xid] [o|]] & E1 & E2)%bind_Some; [|done].
  apply bind_Some in E2 as ([s2 r] & E2 & E3). destruct (Z.eqb_spec r 1) as [->|]; [|done]. injection E3 as <- <-.
  apply discover_from in E1 as (i & a & f & Hi & Ha & -> & Hf & Ho). apply request_from in E2 as (b & g & Hb & Hg & Hk). split.
  - exists i, a, f, b, g, o. pose proof (list_elem_of_lookup_2 _ _ _ Ha). split_and!; try done.
    + apply offers_iff; [|done]. apply (HB a); [set_solver|done].
    + apply (proj2 (acks_sound g _ (HB b g ltac:(set_solver) Hg) ltac:(rewrite Hk; done))). done.
  - split_and!; try done. intros f' n. unfold dhcp_observe_frame. cbn. by destruct (n <? 14).
Qed.

(** * A client that is answered *)

(** What the network does in one attempt.  A round is quiet when none of its frames is a
    DHCP reply to the transaction; other traffic does not matter. *)
Definition quiet (xid : Z) (fs : list (list Z)) : Prop := Forall (λ f, bytes f ∧ ¬ replies_to xid f) fs.
Definition waits (xid start : Z) (rs : list round) : Prop := Forall (λ r, quiet xid (got r) ∧ u64 (at_ms r - start) < 3000) rs.

(** The packet was sent, at the first or a later try. *)
Definition sent_ok (a : attempt) : Prop := a_mem a = true ∧ 0 ≤ (send_tries 4 (a_drv a) (-1)).2.
#[global] Instance sent_ok_dec a : Decision (sent_ok a).
Proof. unfold sent_ok. apply _. Defined.
(** No memory, the driver refuses, or nothing is heard for three seconds. *)
Definition unheard (xid : Z) (a : attempt) : Prop :=
  ¬ sent_ok a ∨
  ∃ rs r rest, a_rounds a = rs ++ r :: rest ∧ waits xid (a_start a) rs ∧ quiet xid (got r) ∧ 3000 ≤ u64 (at_ms r - a_start a).
(** The packet is sent and the reply [f] comes in time, in any round and between any other
    frames. *)
Definition heard (xid : Z) (a : attempt) (f : list Z) : Prop :=
  sent_ok a ∧ ∃ rs before after t rest,
    a_rounds a = rs ++ MkRound (before ++ f :: after) t :: rest ∧ waits xid (a_start a) rs ∧ quiet xid before ∧ quiet xid after.

Lemma observe_quiet xid k o fs : quiet xid fs → observe_all (MkCap xid k o) fs = MkCap xid k o.
Proof.
  intros H. apply observe_noise. eapply Forall_impl; [exact H|]. intros f [B Hn]. split.
  - destruct (offers f xid) as [x|] eqn:E; [|done]. by destruct Hn; eapply offers_replies.
  - destruct (decide (acks f xid = 0)) as [|E]; [done|]. by destruct Hn; apply acks_sound.
Qed.

(** Quiet rounds change nothing. *)
Lemma wait_quiet want st xid o rs rest : waits xid st rs →
  dhcp_wait_kind want 3000 st (MkCap xid 0 o) (rs ++ rest) = dhcp_wait_kind want 3000 st (MkCap xid 0 o) rest.
Proof.
  intros H. induction H as [|r rs [Hq Ht] H IH]; [done|]. cbn [app dhcp_wait_kind]. rewrite observe_quiet by done. cbn [cap_kind Z.eqb].
  rewrite !andb_false_r. rewrite (proj2 (Z.leb_gt _ _)) by done. done.
Qed.

Lemma send_rc s mac t xid req sid a : ∃ s', send s mac t xid req sid a = (s', if decide (sent_ok a) then 0 else -1) ∧ g_cap s' = g_cap s.
Proof.
  unfold send, dhcp_send_packet. destruct (decide (sent_ok a)) as [[D1 D2]|D].
  - rewrite D1. cbn [negb]. destruct (send_tries 4 (a_drv a) (-1)) as [n sr]. cbn [snd] in D2. rewrite (proj2 (Z.ltb_ge sr 0)) by done. by eexists.
  - unfold sent_ok in D. destruct (a_mem a); cbn [negb]; [|by eexists]. destruct (send_tries 4 (a_drv a) (-1)) as [n sr]. cbn [snd] in D.
    rewrite (proj2 (Z.ltb_lt sr 0)) by (destruct (Z.lt_ge_cases sr 0); [done|tauto]). by eexists.
Qed.

Lemma discover_unheard s mac i xid0 a tries k : unheard (first_xid (a_ticks a) i) a →
  ∃ s', discover s mac i xid0 (a :: tries) (S k) = discover s' mac (S i) (first_xid (a_ticks a) i) tries k.
Proof.
  intros H. cbn [discover]. set (xid := first_xid (a_ticks a) i) in *.
  destruct (send_rc (s <| g_cap := dhcp_cap_reset xid |>) mac 1 xid 0 0 a) as (s' & -> & Hc). case_decide as D; [|by exists s'].
  destruct H as [H|(rs & r & rest & E & Hw & Hq & Ht)]; [done|]. cbn [negb Z.eqb]. rewrite Hc, E.
  change (g_cap (s <| g_cap := _ |>)) with (MkCap xid 0 no_offer). rewrite wait_quiet by done. cbn [dhcp_wait_kind].
  rewrite observe_quiet by done. cbn [cap_kind Z.eqb andb negb]. rewrite (proj2 (Z.leb_le _ _)) by done. by eexists.
Qed.
Lemma discover_heard s mac i xid0 a tries k f o : let xid := first_xid (a_ticks a) i in xid ≠ 0 → heard xid a f → offers f xid = Some o →
  ∃ s', discover s mac i xid0 (a :: tries) (S k) = Some (s', xid, Some o).
Proof.
  intros xid Hx (Hs & rs & before & after & t & rest & E & Hw & H1 & H2) Ho. cbn [discover]. fold xid.
  destruct (send_rc (s <| g_cap := dhcp_cap_reset xid |>) mac 1 xid 0 0 a) as (s' & -> & Hc). rewrite decide_True by done. cbn [negb Z.eqb].
  rewrite Hc, E. change (g_cap (s <| g_cap := _ |>)) with (MkCap xid 0 no_offer). rewrite wait_quiet by done. cbn [dhcp_wait_kind got].
  change (before ++ f :: after) with (before ++ [f] ++ after). rewrite !observe_app, observe_quiet, (observe_offer _ o), observe_quiet by done.
  cbn. by eexists.
Qed.
Lemma discover_answered mac before a after f o : ∀ s i xid0 k, let xid := first_xid (a_ticks a) (i + length before) in
  (length before < k)%nat → (∀ j x, before !! j = Some x → unheard (first_xid (a_ticks x) (i + j)) x) → xid ≠ 0 → heard xid a f → offers f xid = Some o →
  ∃ s', discover s mac i xid0 (before ++ a :: after) k = Some (s', xid, Some o).
Proof.
  induction before as [|x before IH]; intros s i xid0 [|k] xid Hk Hb Hx Hh Ho; cbn [length] in Hk; try lia.
  - unfold xid in *. cbn [length] in *. rewrite Nat.add_0_r in *. by apply (discover_heard _ _ _ _ _ _ _ f).
  - cbn [app]. destruct (discover_unheard s mac i xid0 x (before ++ a :: after) k) as [s' ->]; [rewrite <- (Nat.add_0_r i); by apply Hb|].
    unfold xid in *. cbn [length] in *. rewrite Nat.add_succ_r in *. apply (IH s' (S i)); [lia| |done..].
    intros j y Hj. replace (S i + j)%nat with (i + S j)%nat by lia. by apply Hb.
Qed.

Lemma request_answered mac xid o before b after g : xid ≠ 0 → Forall (unheard xid) before → heard xid b g → offers g xid = None → acks g xid = 1 →
  ∀ s k, (length before < k)%nat → ∃ s', request s mac xid o (before ++ b :: after) k = Some (s', 1).
Proof.
  intros Hx Hb (Hs & rs & b1 & b2 & t & rest & E & Hw & H1 & H2) G1 G2. induction Hb as [|x before H Hb IH]; intros s [|k] Hk; cbn [length] in Hk; try lia; cbn [app request].
  - destruct (send_rc (s <| g_cap := MkCap xid 0 o |>) mac 3 xid (o_ip o) (o_sid o) b) as (s' & -> & Hc). rewrite decide_True by done. cbn [negb Z.eqb].
    rewrite Hc, E. change (g_cap (s <| g_cap := _ |>)) with (MkCap xid 0 o). rewrite wait_quiet by done. cbn [dhcp_wait_kind got].
    change (b1 ++ g :: b2) with (b1 ++ [g] ++ b2). rewrite !observe_app, observe_quiet, observe_ack, observe_quiet by done. cbn. by eexists.
  - destruct (send_rc (s <| g_cap := MkCap xid 0 o |>) mac 3 xid (o_ip o) (o_sid o) x) as (s' & -> & Hc). case_decide as D; [|apply IH; lia].
    destruct H as [H|(rs' & r & rest' & E' & Hw' & Hq & Ht)]; [done|]. cbn [negb Z.eqb]. rewrite Hc, E'.
    change (g_cap (s <| g_cap := _ |>)) with (MkCap xid 0 o). rewrite wait_quiet by done. cbn [dhcp_wait_kind].
    rewrite observe_quiet by done. cbn [cap_kind Z.eqb andb negb]. rewrite (proj2 (Z.leb_le _ _)) by done. cbn [mbind option_bind Z.eqb Z.ltb Z.compare].
    apply IH. lia.
Qed.

(** C17: A client that is answered gets the lease.  Up to five DISCOVER attempts may go
    unheard (no memory, a driver that refuses, or three seconds without a DHCP reply to
    their transaction); then a frame with an offer for the attempt's transaction comes in time,
    in any round and between any frames that are not DHCP replies to it.  Up to three REQUEST attempts
    may go unheard; then a frame with an acknowledgement comes.  [dhcp_acquire] ends with
    the lease of the offer: its address, mask, router, name server and server.  Frames may
    have a VLAN tag, IP options and padding, and the DHCP options any order.  The transaction
    identifier must not be zero, which the code takes for none. *)
Theorem dhcp_acquires s mac before a after f o before' b after' g ip d m :
  let xid := first_xid (a_ticks a) (length before) in
  xid ≠ 0 → (length before < 6)%nat → (∀ i x, before !! i = Some x → unheard (first_xid (a_ticks x) i) x) →
  heard xid a f → bytes f → offer_frame xid f o →
  (length before' < 4)%nat → Forall (unheard xid) before' →
  heard xid b g → bytes g → carries g ip d → message d m → b_xid m = xid → typed m 5 →
  ∃ s', dhcp_acquire s mac (before ++ a :: after) (before' ++ b :: after') = Some (s', Some (lease_of o)).
Proof.
  intros xid Hx Hk Hb Ha Bf Hf Hk' Hb' Hh Bg Hc Hm Em Ht. destruct (typed_ack g ip d m Bg Hc Hm Ht) as [G1 G2]. rewrite Em in G1, G2.
  destruct (discover_answered mac before a after f o s 0 0 6 Hk Hb Hx Ha) as [s1 E1]; [by apply offers_iff|].
  unfold dhcp_acquire. rewrite E1. cbn [mbind option_bind]. change (0 + length before)%nat with (length before). fold xid.
  match goal with |- context [request s1 mac xid ?o' _ _] => destruct (request_answered mac xid o' before' b after' g Hx Hb' Hh G1 G2 s1 4 Hk') as [s2 E2] end.
  rewrite E2. cbn. by eexists.
Qed.

(** * A run *)

Lemma be_bytes4 v : is_u32 v → be (bytes4 v) = v.
Proof. intros H. unfold be, bytes4. cbn [foldl]. Z.div_mod_to_equations. lia. Qed.

(** The frame of a server with nothing set but what is given. *)
Lemma plain_wire xid yi os : is_u32 xid → is_u32 yi → (length (os ≫= tlv) ≤ 300)%nat →
  ∃ ip d, carries (plain_reply xid yi os) ip d ∧ unfragmented ip ∧ message d (MkBootp 2 xid 0 yi 0 ((os ≫= tlv) ++ [255])).
Proof.
  intros Hx Hy Hl. set (d := server_msg xid 0 yi 0 (replicate 4 0) (replicate 212 0) os []).
  assert (message d (MkBootp 2 xid 0 yi 0 ((os ≫= tlv) ++ [255]))) as Hm.
  { exists [1; 6; 0], (bytes4 xid), (replicate 4 0), (bytes4 0), (bytes4 yi), (bytes4 0), (replicate 212 0).
    cbn [op opts b_xid ciaddr yiaddr siaddr]. rewrite !be_bytes4 by lia. by split_and!. }
  assert (Z.of_nat (length d) = 240 + length ((os ≫= tlv) ++ [255])) as Ld by (by apply msg_length). rewrite length_app in Ld. cbn [length] in Ld.
  exists ([0x45] ++ replicate 5 0 ++ [0; 0; 64; 17] ++ replicate 10 0), d. split; [|split; [by exists 0|exact Hm]].
  exists (replicate 12 0), [], [(8 + length d) / 2 ^ 8; (8 + length d) `mod` 2 ^ 8], [0; 0], [].
  split_and!; try done; [by left| | |lia].
  - exists 0x45, (replicate 5 0 ++ [0; 0; 64; 17] ++ replicate 10 0). by split_and!.
  - unfold be. cbn [foldl]. Z.div_mod_to_equations. lia.
Qed.

Definition the_offer : offer := MkOffer 0xC0A80117 0xC0A80101 0xFFFFFF00 0xC0A80101 0x08080808.
Definition lost0 : attempt := MkAttempt 5 true [0] 100 [MkRound [[1; 2; 3]] 200; MkRound [] 3100].
Definition try1 : attempt := MkAttempt 97 true [-1; 0] 3200 [MkRound [] 3210; MkRound [[1; 2; 3]; an_offer; [4; 5]] 3220].
Definition lost1 : attempt := MkAttempt 98 false [] 0 [].
Definition try2 : attempt := MkAttempt 99 true [0] 3300 [MkRound [an_ack] 3310].

Lemma offer_bytes : bytes an_offer.
Proof. apply Forall_forall. intros x. assert (bool_decide (Forall (λ x, 0 ≤ x < 2 ^ 8) an_offer) = true) as H by (vm_compute; reflexivity).
  apply bool_decide_eq_true in H. rewrite Forall_forall in H. apply H. Qed.
Lemma ack_bytes : bytes an_ack.
Proof. assert (bool_decide (Forall (λ x, 0 ≤ x < 2 ^ 8) an_ack) = true) as H by (vm_compute; reflexivity).
  by apply bool_decide_eq_true in H. Qed.

Lemma short_quiet xid fs : Forall (λ f, bytes f ∧ (length f < 100)%nat) fs → quiet xid fs.
Proof.
  intros H. eapply Forall_impl; [exact H|]. intros f [B Hl]. split; [done|].
  intros (ip & d & m & (macs & tag & len & ck & trail & -> & _ & _ & _ & _ & _ & _ & Hd) & _). rewrite !length_app in Hl. lia.
Qed.

Lemma an_offer_frame : offer_frame 0xA5F0C37D an_offer the_offer.
Proof. apply offers_iff; [exact offer_bytes|]. vm_compute. reflexivity. Qed.

Lemma heard_1 : heard 0xA5F0C37D try1 an_offer.
Proof.
  split; [split; [done|vm_compute; discriminate]|]. exists [MkRound [] 3210], [[1; 2; 3]], [[4; 5]], 3220, []. split; [done|].
  split; [repeat constructor|]. split; apply short_quiet; repeat constructor; cbn; lia.
Qed.
Lemma heard_2 : heard 0xA5F0C37D try2 an_ack.
Proof.
  split; [split; [done|vm_compute; discriminate]|]. exists [], [], [], 3310, []. split; [done|]. repeat constructor.
Qed.
Lemma unheard_0 xid : unheard xid lost0.
Proof.
  right. exists [MkRound [[1; 2; 3]] 200], (MkRound [] 3100), []. split; [done|]. split_and!; [|by constructor|vm_compute; discriminate].
  constructor; [|constructor]. split; [|done]. apply short_quiet; repeat constructor; cbn; lia.
Qed.

Lemma dhcp_acquires_witness :
  ∃ s', dhcp_acquire dhcp0 [2; 0; 0; 0; 0; 1] [lost0; try1] [lost1; try2] =
    Some (s', Some (MkLease 0xC0A80117 0xFFFFFF00 0xC0A80101 0x08080808 0xC0A80101)).
Proof.
  destruct (plain_wire 0xA5F0C37D 0xC0A80117 [(53, [5])]) as (ip & d & Hc & _ & Hm); [lia|lia|cbn; lia|].
  apply (dhcp_acquires dhcp0 [2; 0; 0; 0; 0; 1] [lost0] try1 [] an_offer the_offer [lost1] try2 [] an_ack ip d
    (MkBootp 2 0xA5F0C37D 0 0xC0A80117 0 (([(53, [5])] ≫= tlv) ++ [255]))).
  - discriminate.
  - cbn. lia.
  - intros [|i] x Hx; [|discriminate Hx]. injection Hx as <-. apply unheard_0.
  - exact heard_1.
  - exact offer_bytes.
  - exact an_offer_frame.
  - cbn. lia.
  - constructor; [left; intros [H _]; discriminate H|constructor].
  - exact heard_2.
  - exact ack_bytes.
  - exact Hc.
  - exact Hm.
  - reflexivity.
  - apply (opt_here 53 [5] [255]); discriminate.
Defined.

Definition try0 : attempt := MkAttempt 96 true [-1; 0] 10 [MkRound [[1; 2; 3]; an_offer] 12].
Definition a_run : option (dhcp * option lease) := dhcp_acquire dhcp0 [2; 0; 0; 0; 0; 1] [try0] [try2].
Lemma a_run_bytes a f : a ∈ [try0] ++ [try2] → f ∈ frames_of (a_rounds a) → bytes f.
Proof.
  cbn [app]. rewrite !elem_of_cons, elem_of_nil. pose proof offer_bytes. pose proof ack_bytes.
  intros [-> |[-> |[]]]; unfold frames_of; cbn [try0 try2 a_rounds got mbind list_bind app]; rewrite !elem_of_cons, elem_of_nil; intros Hf; destruct_or! Hf; subst; try done; repeat constructor; cbn; lia.
Qed.
Lemma dhcp_lease_sound_witness : ∃ s' l, dhcp_acquire dhcp0 [2; 0; 0; 0; 0; 1] [try0] [try2] = Some (s', Some l) ∧ l_ip l = 0xC0A80117 ∧
  ∃ i a f b g o, (i < 6)%nat ∧ [try0] !! i = Some a ∧ f ∈ frames_of (a_rounds a) ∧ offer_frame (first_xid (a_ticks a) i) f o ∧
    b ∈ [try2] ∧ g ∈ frames_of (a_rounds b) ∧ ack_frame (first_xid (a_ticks a) i) g ∧ l = lease_of o.
Proof.
  destruct a_run as [[s' [l|]]|] eqn:E; [|exfalso; vm_compute in E; discriminate E..]. exists s', l. split; [exact E|].
  split; [|exact (proj1 (dhcp_lease_sound _ _ _ _ _ _ a_run_bytes E))].
  assert (El : match a_run with Some (_, Some l) => l_ip l | _ => 0 end = l_ip l) by (rewrite E; reflexivity). rewrite <- El. vm_compute. reflexivity.
Defined.
